(* ===== verification/_CoqProject ===== *)
-Q . S2P
Prelude.v
StateMachine.v
AgentTurn.v
TerminalFold.v
AutoWait.v
ReplayRing.v
ReplayRingProps.v
ScrollbackProps.v
EventForward.v
EventForwardProps.v
EventForwardConn.v
EventForwardFlow.v
EventForwardStream.v
EventForwardDrain.v
Wire.v
WireProps.v
Handshake.v
Reconnect.v
ReconnectProps.v
TerminalSync.v
TerminalSyncProps.v
TerminalSyncGrid.v
TerminalSyncReplay.v
TerminalSyncLive.v
ServeReplay.v
ServeReplayProps.v
ServeReplayAnswers.v
ServeReplayLag.v
F64.v
RateBudget.v
RateBudgetProps.v
Text.v
Work.v
TaskRef.v
WorkStore.v
WorkStoreProps.v
Scheduler.v
RepoFirst.v
ActivityFeed.v
ActivityFeedProps.v
Slug.v
CoreTask.v
ProviderOps.v
ProviderOpsProps.v
Stack.v
Graph.v
GraphPaths.v
Epics.v
EpicProps.v
Policy.v
WorkspaceRow.v
WorkspaceRowProps.v
AutoMerge.v
AutoMergeProps.v
NativeArm.v
AutoFix.v
AgentPolicy.v
WorkingClaim.v
WorkingClaimProps.v
ClaimRemote.v
ClaimRemoteProps.v
ClaimLease.v
ClaimLeaseProps.v
RowStore.v
RowStoreProps.v
Reaper.v
Collapse.v
PollUpsert.v
PollUpsertProps.v
PollUpsertLocks.v
PollUpsertExamples.v
Tiles.v
TileRender.v
TileSession.v
TileSessionProps.v
Review.v
ReviewProps.v
ReviewStore.v
ReviewKeys.v
ReviewStoreProps.v
