(* ===== verification/Prelude.v ===== *)
(** * lazybox: a verification development

    lazybox runs coding agents in terminals, keeps an inbox of pull requests and
    issues beside them, and acts on both: it schedules what to poll within GitHub's
    limits, starts agents, tracks the units of work they hold, and merges or repairs
    pull requests.  The development models the daemon's decisions -- what is under
    [src/crates/core], [src/crates/agents], [src/crates/server] and
    [src/crates/gh-provider] that is not input or output -- and of [src/crates/tui]
    the terminals: their streams and the layout of their pane.  They are executable
    functions and step relations, with the theorems that make them correct.

    ** Parts and files

    _Agents and terminals._
    - StateMachine.v: the agent lifecycle ([agents/src/state_machine.rs]).  Legal
      edges, the gate hooks have over screen readings, hysteresis; a terminal is a
      step relation over readings, hooks, the user and the exit.  Theorems: what may
      commit, what leaves a parked state, that silence settles a working agent.
    - AgentTurn.v: the clock that orders hooks against output
      ([server/src/registries.rs]).  Its answer refines a specification over the
      recorded history; the watchdog's drain is bounded.
    - TerminalFold.v: the one boundary that changes a terminal's cached state
      ([server/src/spawn_handler.rs]), in two critical sections with an arbitrary
      environment between them.  The bus carries exactly the chain of cached states,
      and an exit is delivered last.
    - AutoWait.v: the watcher that accepts an agent's wait for its usage limit and asks
      it to go on ([server/src/auto_wait.rs]).  It answers exactly the waits it accepted,
      once, through every replacement of their terminal.
    - ReplayRing.v, ReplayRingProps.v, ScrollbackProps.v: what a
      terminal keeps of its output and of the sizes it was printed at ([server/src/pty.rs]).  The ring
      holds the end of the stream, a replay is read at its sizes, a subscription cuts
      the output once, a restart is seeded with its end.
    - EventForward.v, EventForwardProps.v, EventForwardConn.v, EventForwardFlow.v,
      EventForwardStream.v, EventForwardDrain.v: the task that
      forwards events to one client ([server/src/event_forward.rs], [ipc/src/lib.rs]),
      as a machine over the labels of its [select!].  Structured events are never
      lost, output that is dropped is replayed, a terminal is fed without gap or
      repeat where replays hold what was sent, a closed stream drains.
    - Wire.v, WireProps.v, Handshake.v: the connection
      between daemon and client ([ipc/src/socket.rs]): frames, the writer that batches,
      the reader, the large writes that are split, and what is exchanged before the first
      frame.  What is read was written, a terminal is typed the bytes it was to be, the
      two ends agree whatever their order.
    - Reconnect.v, ReconnectProps.v: the client's end across connections (same file).
      Commands are never repeated, invented or reordered.
    - TerminalSync.v, TerminalSyncProps.v, TerminalSyncGrid.v, TerminalSyncReplay.v,
      TerminalSyncLive.v: the client's side of it
      ([tui/src/components/terminal_stack.rs], [realm/model]), for any parser of the
      class [Vt].  Hiding a terminal changes nothing of its grid, a grid is a replay
      and what followed, a torn stream is pursued until it is repaired.
    - ServeReplay.v, ServeReplayProps.v, ServeReplayAnswers.v, ServeReplayLag.v: what
      the daemon answers such a client
      ([server/src/spawn_handler.rs], [server/src/lib.rs]).  A snapshot keeps as many
      replays as fit, every request is answered and settles, a connection that fell
      behind is sent what it missed.

    _Polling._
    - F64.v, RateBudget.v, RateBudgetProps.v: the GitHub governor
      ([gh-provider/src/rate_budget.rs]) with its floating-point arithmetic.  An
      admitted request respects the remote window, the reserve, the tick and the
      cooldown; the tick's spending is the sum of its admissions; what is persisted
      restarts.
    - Scheduler.v, RepoFirst.v: which repositories a tick sweeps
      ([server/src/polling/scheduler.rs], [polling/sources/mod.rs]).  Picks are
      bounded and fair, the rotation and a reconcile reach the whole roster.

    _Work._
    - Work.v: tasks, their lifecycle and rolled-up progress ([core/src/work.rs]).
    - TaskRef.v: references to tracker records ([core/src/task_ref.rs]).
    - WorkStore.v, WorkStoreProps.v: the task and plan store and the verbs of an
      agent ([server/src/work_store.rs], [work_calls.rs]).  The storage trait is the
      class [Store] with [StoreLaws]; the in-memory backend is its instance.  A
      finished task stays finished, the rows form a forest, landing completes the
      tasks linked to a pull request.

    _Trackers and epics._
    - CoreTask.v: tracker tasks and workspaces ([core/src/task.rs],
      [workspace.rs]), the fields the other parts read.
    - ActivityFeed.v, ActivityFeedProps.v: the comments of a workspace with what its
      user has read ([core/src/workspace.rs], [task.rs]).  Read state follows the
      identity of an item through every merge, a poll upserts, a mark lands on the
      row it was meant for.
    - Slug.v, WorkspaceRow.v, WorkspaceRowProps.v: the stored record around them and
      the names it takes on disk ([core/src/slug.rs], [workspace.rs]; the folds of
      [server/src/polling/mod.rs]).  An observed task is linked, a fold of two
      records is conservative, a worktree is one directory.
    - RowStore.v, RowStoreProps.v: the commit of rows in one batch, with what moves
      beside a row and the events it publishes ([server/src/polling/upsert.rs]).
    - Reaper.v: the opt-in sweep that stops the terminals of workspaces whose work is
      over ([server/src/session_reaper.rs]).
    - Collapse.v, PollUpsert.v, PollUpsertProps.v, PollUpsertLocks.v,
      PollUpsertExamples.v: which rows a pull request absorbs, and a poll's
      observation on its way to the row ([polling/upsert.rs], [polling/mod.rs]).  A
      client that follows the bus has the rows of the store, an upsert creates only
      its own row, a row that cannot be read keeps its bytes, a fold loses no
      session, respects a refusal and is made under its locks.
    - ProviderOps.v, ProviderOpsProps.v: the ledger of writes to a tracker
      ([core/src/provider_ops.rs]).  A write that ends uncovers the last
      observation, reads settle by revision, attempts and reports are bounded.
    - Stack.v: stacked pull requests ([core/src/stack.rs]).
    - Graph.v, GraphPaths.v, Epics.v, EpicProps.v: the epic resolver
      ([server/src/epics.rs]): waves, transitive dependents and longest paths of the
      dependency graph, the snapshot of an epic, what changed, the merge holds and
      the plans taken from a snapshot.  A landing releases what it held, the hold a
      snapshot shows is the one enforced, dispatch stays inside its cap.

    _Acting without the user._
    - Policy.v: may a pull request be merged or repaired ([core/src/policy.rs],
      [autofix.rs]).
    - AutoMerge.v, AutoMergeProps.v: the merge trigger
      ([server/src/polling/auto_merge.rs]).  Nothing is merged that a fresh read did
      not verify; one attempt at a time, a head is merged once, no retry of a refused
      head.
    - NativeArm.v: GitHub's own auto-merge beside it ([auto_merge.rs], and the gate
      of a base branch in [gh-provider/src/client.rs]).  It is armed only where that
      gate covers lazybox's own.
    - AutoFix.v: the budget of automatic repairs ([server/src/polling/autofix.rs]).
    - AgentPolicy.v: the standing rules of a briefing ([core/src/agent_policy.rs]).
    - WorkingClaim.v, WorkingClaimProps.v: who is working on what, as said upstream
      ([core/src/working_claim.rs], [task.rs]).
    - ClaimRemote.v, ClaimRemoteProps.v: the label and the comment that keep a claim
      on an issue ([gh-provider/src/client.rs]), against the class [Issues] with
      [IssuesLaws], whose instance is a thread in memory.  A claim is one comment, a
      release spares a lease that is still live.
    - ClaimLease.v, ClaimLeaseProps.v: the leases behind them
      ([server/src/working_claims.rs]): renewal, the round robin of remote calls, the
      sweep of lapsed claims.  The task of a live agent stays claimed, every claim
      gets its turn, only lapsed claims are retired.

    _The terminal pane._
    - Tiles.v: the split tree of a session ([core/src/workspace.rs]).  Balanced
      trees, paths, removal and replacement by their effect on the leaves; which
      divider an arrow moves.
    - TileRender.v: the rectangles the tiles get, the record of dividers, grabbing
      and dragging one ([tui/src/components/terminal_stack.rs]).  Tiles and dividers
      partition the pane, a dragged divider lands under the pointer, arrows lead
      across dividers.
    - TileSession.v, TileSessionProps.v: tabs, tiles and focus as terminals spawn,
      exit and are closed (same file).  A layout keeps its type, closing another
      terminal keeps the focus, toggling twice restores the layout.

    _Reviews._
    - Review.v, ReviewProps.v: the ingestion of review reports and of the results a
      fixer answers them with, and the report it is given ([core/src/review.rs]).  A
      draft is listed with its defects and never bound, a result accounts for every
      finding, the report bound is the one meant.
    - ReviewStore.v, ReviewKeys.v, ReviewStoreProps.v: the rows they are kept in
      ([server/src/review_store.rs]).  Keys of different workspaces never meet, and
      each workspace's rows are a bounded queue.

    This file has what they share: machine integers, time, sorted sets, maps built
    from lists, tactics and the hint database [lazybox].  Text.v models the [str]
    operations of the sources.

    ** How the parts meet

    Readings and hooks enter StateMachine.v and AgentTurn.v, whose verdicts are the
    candidates folded by TerminalFold.v; the exits it delivers fail the tasks of
    WorkStore.v.  The bytes of a terminal are numbered and kept by ReplayRing.v, pass
    EventForward.v to each client -- which asks the ring for a replay where output was
    dropped -- are carried by Wire.v and merged, checked and parsed by TerminalSync.v: the
    numbers of the first are what the second hands on without a gap and what the last
    relies on.  The replays TerminalSync.v asks for are served by ServeReplay.v, its
    commands are sent by Reconnect.v.  AutoWait.v follows the bus TerminalFold.v writes.
    Every request to GitHub passes RateBudget.v; the capacity it grants caps Scheduler.v
    and RepoFirst.v.  An observation (CoreTask.v) passes
    PollUpsert.v, is attached to its row by WorkspaceRow.v and committed by
    RowStore.v; the rows are repainted by ProviderOps.v, resolved by Epics.v, and shown to AutoMerge.v
    and AutoFix.v, which ask Policy.v, Stack.v and the holds of Epics.v before they
    act.  A session's layout is a tree of Tiles.v that TileRender.v draws and
    TileSession.v changes.  AutoFix.v, WorkStore.v, RowStore.v, ClaimLease.v
    and ReviewStore.v meet the storage through the class [Store] (with [BatchLaws]
    where a batch must be atomic) and serde through [Codec] and [RowCodec]; the
    claims of ClaimRemote.v meet GitHub through the class [Issues].

    ** Reading the definitions

    - Instants, dates and durations are nanoseconds in [Z]; the clocks an operation
      reads, the ids it mints and the jitter it draws are arguments.  Counters of
      fixed width wrap or saturate where the code does; ids and generations that
      only grow by one are unbounded.
    - A [HashMap] or [BTreeMap] is a [gmap], a set a [gset]; where the code iterates
      in key order the model does ([sorted_elements]), and nowhere does a result
      depend on a hash order.  Doubles are the [spec_float]s of F64.v.
    - Strings are their UTF-8 bytes.  Log lines are left out; messages to the user
      are kept where an operation returns them.
    - A panic, and fuel running out, is [None]; the theorems of each component show
      that neither is reached, or that the fuel given is enough.  Graph walks take as fuel the number of members and
      edges, the walks of a stack the number of links plus two, progress the number
      of tasks: each step consumes one.
    - An operation that calls out (a provider, the store, the configuration) and
      makes each call at most once is a function from the answers to its effects in
      order.  Third-party code is a parameter: serde, uuid, chrono's formats.
    - Histories are lists of steps or step relations; an environment that may run
      between two critical sections is a relation of its own.

    ** Not modelled, and why

    Rendering beyond the tile grid, key bindings and the desktop shell; socket calls, HTTP, GraphQL and SQL;
    processes, PTYs, tmux, git and containers; cryptography; YAML.  These are
    effects or third-party code around the decisions above.  Of the modelled files
    the parts left out are named in the opening comment of each.

    Of the daemon's own logic, the parts that remain are independent of these: the Error
    Inbox, the layout of the epic graph ([tui-core/src/epic_graph.rs]), and the parts named
    so in the opening comments. *)

From stdpp Require Export base tactics numbers list option gmap strings sorting.
From Stdlib Require Export ZArith Lia.

#[global] Open Scope Z_scope.

(** ** Machine integers

    Rust's unsigned integers are [Z] with the saturation or the wrap-around
    written out at each operation. *)

Definition u8_max : Z := 255.
Definition u16_max : Z := 65535.
Definition u32_max : Z := 4294967295.
Definition u64_max : Z := 18446744073709551615.

Declare Scope machine_scope.
Delimit Scope machine_scope with machine.

(** [a.saturating_sub(b)] on any unsigned width. *)
Definition sat_sub (a b : Z) : Z := Z.max 0 (a - b).

(** [a.saturating_add(b)] and [a.saturating_mul(b)] on a type whose largest
    value is [m]. *)
Definition sat_add (m a b : Z) : Z := Z.min m (a + b).
Definition sat_mul (m a b : Z) : Z := Z.min m (a * b).

(** [a.wrapping_add(b)] on a type whose largest value is [m]. *)
Definition wrap_add (m a b : Z) : Z := (a + b) mod (m + 1).

(** Two's-complement wrap-around of [i64]. *)
Definition wrap_i64 (a : Z) : Z :=
  let r := a mod (u64_max + 1) in if r <=? 9223372036854775807 then r else r - (u64_max + 1).

(** [a.div_ceil(b)] for [b > 0]. *)
Definition div_ceil (a b : Z) : Z := (a + b - 1) / b.

(** [x.clamp(lo, hi)] *)
Definition clamp (lo hi x : Z) : Z := Z.max lo (Z.min hi x).

Infix "-sat" := sat_sub (at level 50, left associativity) : machine_scope.
Notation "a '+u32' b" := (sat_add u32_max a b)
  (at level 50, left associativity) : machine_scope.
#[global] Open Scope machine_scope.

(** ** Time

    An [Instant] and a [DateTime<Utc>] are [Z] counts of nanoseconds and a
    [Duration] is a non-negative one. *)

Definition nanos_per_sec : Z := 1000000000.
Definition secs (n : Z) : Z := n * nanos_per_sec.
Definition as_secs (d : Z) : Z := d / nanos_per_sec.

(** [now.checked_duration_since(last)]: [None] when [last] is in the future. *)
Definition checked_duration_since (now last : Z) : option Z :=
  if last <=? now then Some (now - last) else None.

(** [now.signed_duration_since(last).to_std().unwrap_or_default()] *)
Definition std_duration_or_zero (d : Z) : Z := Z.max 0 d.

(** ** Options *)

Definition is_none_or {A} (f : A -> bool) (o : option A) : bool :=
  match o with None => true | Some x => f x end.

Definition is_some_and {A} (f : A -> bool) (o : option A) : bool :=
  match o with None => false | Some x => f x end.

(** ** Sets *)

(** A [BTreeSet<String>] is a [gset]; [iter()] lists it in byte order.  So does a
    [HashSet] that is collected and sorted. *)
Definition sorted_elements (s : gset string) : list string := merge_sort String.le (elements s).

(** ** Tactics and the rewrite and resolution databases of the library *)

Create HintDb lazybox.

(** Break every [if], [match] and boolean connective of the goal and the
    hypotheses once, keeping the equations. *)
Ltac bool_norm :=
  repeat match goal with
  | H : (_ && _)%bool = true |- _ => apply andb_true_iff in H; destruct H
  | H : (_ || _)%bool = false |- _ => apply orb_false_iff in H; destruct H
  | H : negb _ = true |- _ => apply negb_true_iff in H
  | H : negb _ = false |- _ => apply negb_false_iff in H
  | H : (_ <=? _)%Z = true |- _ => apply Z.leb_le in H
  | H : (_ <=? _)%Z = false |- _ => apply Z.leb_gt in H
  | H : (_ <? _)%Z = true |- _ => apply Z.ltb_lt in H
  | H : (_ <? _)%Z = false |- _ => apply Z.ltb_ge in H
  | H : (_ =? _)%Z = true |- _ => apply Z.eqb_eq in H
  | H : (_ =? _)%Z = false |- _ => apply Z.eqb_neq in H
  | H : bool_decide _ = true |- _ => apply bool_decide_eq_true in H
  | H : bool_decide _ = false |- _ => apply bool_decide_eq_false in H
  end.

(** Decide every remaining [bool_decide] and boolean disjunction. *)
Ltac bool_split :=
  repeat first
    [ progress bool_norm
    | match goal with
      | H : (_ && _)%bool = false |- _ => apply andb_false_iff in H; destruct H
      | H : (_ || _)%bool = true |- _ => apply orb_true_iff in H; destruct H
      end ].

(** Case analysis on the outermost [if] of a hypothesis, keeping the test. *)
Ltac step_if H :=
  cbv zeta in H;
  lazymatch type of H with
  | (if ?b then _ else _) = _ => destruct b eqn:?
  end.

Ltac step_ifs H := repeat (step_if H; simplify_eq/=).

(** Functional record update: [upd eta proj v s] is [eta s], the eta-expansion
    of [s], with the field [proj] replaced by [v]. *)
Ltac upd eta proj v s :=
  let e := eval cbv beta delta [eta] in (eta s) in
  let p := eval pattern (proj s) in e in
  lazymatch p with
  | ?f _ => let r := eval cbv beta in (f v) in exact r
  end.

Ltac crush_cases :=
  repeat (case_match; simplify_eq/=; bool_norm); try done.

Lemma find_app {A} (f : A -> bool) l1 l2 :
  List.find f (l1 ++ l2)%list = match List.find f l1 with Some x => Some x | None => List.find f l2 end.
Proof. induction l1 as [|x l1 IH]; simpl; [done|]. by destruct (f x). Qed.

Lemma sat_sub_nonneg a b : 0 <= a -sat b.
Proof. unfold sat_sub. lia. Qed.

Lemma sat_sub_le a b : 0 <= a -> 0 <= b -> a -sat b <= a.
Proof. unfold sat_sub. lia. Qed.

Lemma sat_sub_spec a b : b <= a -> a -sat b = a - b.
Proof. unfold sat_sub. lia. Qed.

#[export] Hint Resolve sat_sub_nonneg sat_sub_le : lazybox.

Lemma checked_duration_since_Some now last d :
  checked_duration_since now last = Some d <-> last <= now /\ d = now - last.
Proof. unfold checked_duration_since. case_match; bool_norm; naive_solver lia. Qed.

Lemma checked_duration_since_None now last :
  checked_duration_since now last = None <-> now < last.
Proof. unfold checked_duration_since. case_match; bool_norm; naive_solver lia. Qed.

(** ** Sorted lists and ordered sets *)

Lemma StronglySorted_split {A} (R : relation A) l1 l2 x y :
  StronglySorted R (l1 ++ l2) -> x ∈ l1 -> y ∈ l2 -> R x y.
Proof.
  induction l1 as [|a l1 IH]; simpl; intros Hs Hx Hy; [set_solver|].
  apply StronglySorted_inv in Hs as [Hs Ha]. apply elem_of_cons in Hx as [->|Hx].
  - rewrite Forall_forall in Ha. apply Ha. set_solver.
  - by apply IH.
Qed.

Lemma StronglySorted_filter {A} (R : relation A) (f : A -> bool) l :
  StronglySorted R l -> StronglySorted R (List.filter f l).
Proof.
  induction 1 as [|x l Hs IH Hx]; simpl; [constructor|]. destruct (f x); [|done].
  constructor; [done|]. rewrite Forall_forall in *. intros y Hy. apply Hx.
  by apply list_elem_of_In, filter_In in Hy as [?%list_elem_of_In _].
Qed.

Lemma sorted_elements_elem (s : gset string) r : r ∈ sorted_elements s <-> r ∈ s.
Proof. unfold sorted_elements. by rewrite merge_sort_Permutation, elem_of_elements. Qed.

Lemma sorted_elements_NoDup (s : gset string) : NoDup (sorted_elements s).
Proof. unfold sorted_elements. rewrite merge_sort_Permutation. apply NoDup_elements. Qed.

Lemma sorted_elements_sorted (s : gset string) : StronglySorted String.le (sorted_elements s).
Proof. unfold sorted_elements. apply StronglySorted_merge_sort; apply _. Qed.

Lemma sorted_elements_length (s : gset string) : length (sorted_elements s) = size s.
Proof. unfold sorted_elements. by rewrite merge_sort_Permutation. Qed.

Lemma list_filter_ext_in {A} (P Q : A -> Prop) `{!forall x, Decision (P x), !forall x, Decision (Q x)}
    (l : list A) :
  (forall x : A, x ∈ l -> (P x <-> Q x)) -> filter P l = filter Q l.
Proof.
  induction l as [|x l IH]; intros H'; [done|]. rewrite !filter_cons.
  rewrite IH by (intros; apply H'; by right).
  by rewrite (decide_ext (P x) (Q x) _ _ (H' x ltac:(by left))).
Qed.

(** ** Maps built from lists *)

(** [map.insert] for each of a list, in order: the last of equal keys stays. *)
Definition insert_all {K A} `{Countable K} (l : list (K * A)) (m : gmap K A) : gmap K A :=
  fold_left (fun m kv => <[kv.1 := kv.2]> m) l m.

Lemma insert_all_app {K A} `{Countable K} (l1 l2 : list (K * A)) m :
  insert_all (l1 ++ l2) m = insert_all l2 (insert_all l1 m).
Proof. apply fold_left_app. Qed.

Lemma insert_all_cons {K A} `{Countable K} k a (l : list (K * A)) m :
  insert_all ((k, a) :: l) m = insert_all l (<[k := a]> m).
Proof. done. Qed.

Lemma insert_all_notin {K A} `{Countable K} (l : list (K * A)) m k :
  k ∉ map fst l -> insert_all l m !! k = m !! k.
Proof.
  revert m. induction l as [|[k' a] l IH]; intros m Hk; simpl in *; [done|].
  apply not_elem_of_cons in Hk as [Hne Hk]. etrans; [apply IH, Hk|]. by apply lookup_insert_ne.
Qed.

Lemma insert_all_Some {K A} `{Countable K} (l : list (K * A)) m k a :
  insert_all l m !! k = Some a -> (k, a) ∈ l \/ m !! k = Some a.
Proof.
  revert m. induction l as [|[k' a'] l IH]; intros m; simpl; [by right|].
  intros [Hin|Hin]%IH; [left; by right|]. destruct (decide (k = k')) as [->|Hne].
  - rewrite lookup_insert_eq in Hin. injection Hin as ->. left. by left.
  - rewrite lookup_insert_ne in Hin by done. by right.
Qed.

Lemma insert_all_is_Some {K A} `{Countable K} (l : list (K * A)) m k :
  is_Some (insert_all l m !! k) <-> k ∈ map fst l \/ is_Some (m !! k).
Proof.
  revert m. induction l as [|[k' a'] l IH]; intros m; simpl.
  { split; [by right|]. by intros [Hin%elem_of_nil|]. }
  etrans; [apply IH|]. rewrite lookup_insert_is_Some', elem_of_cons. naive_solver.
Qed.

Lemma insert_all_NoDup {K A} `{Countable K} (l : list (K * A)) m k a :
  NoDup (map fst l) -> (k, a) ∈ l -> insert_all l m !! k = Some a.
Proof.
  revert m. induction l as [|[k' a'] l IH]; intros m Hnd Hin; simpl in *; [by apply elem_of_nil in Hin|].
  apply NoDup_cons in Hnd as [Hk Hnd]. apply elem_of_cons in Hin as [[= -> ->]|Hin].
  - etrans; [by apply insert_all_notin|]. apply lookup_insert_eq.
  - by apply IH.
Qed.
