(* ===== verification/StateMachine.v ===== *)
(** * The agent lifecycle state machine
      ([src/crates/agents/src/state_machine.rs], with the wire enum of
      [src/crates/ipc/src/lib.rs])

    [Module AgentStateMachine] holds the pure transition policy: the table of
    legal edges, the hooks-primary gate on screen-scraped readings and the
    hysteresis ([on_reading]).  [Module Terminal] composes it the way one
    terminal uses it -- a cached state plus a machine, driven by PTY readings,
    hooks, the user and the process exit -- as a step relation, and proves the
    safety invariants of every history by rule induction. *)

From S2P Require Import Prelude.

(** ** Data *)

(** [Exited]'s payload is the process exit status, an [i32] when it is known. *)
Inductive AgentState : Type :=
| Working
| InputNeeded
| Idle
| Done
| Exited (code : option Z)
| LimitReached
| CreditExhausted
| AwaitingReset
| Stalled.

#[export] Instance AgentState_eq_dec : EqDecision AgentState.
Proof. solve_decision. Defined.

Inductive HookAuthority : Type := NoHook | HookNewer | PtyNewer.

#[export] Instance HookAuthority_eq_dec : EqDecision HookAuthority.
Proof. solve_decision. Defined.

Inductive Liveness : Type := Streaming | Silent | LStalled | Watchdog.

#[export] Instance Liveness_eq_dec : EqDecision Liveness.
Proof. solve_decision. Defined.

Record Reading : Type := mkReading {
  r_state : AgentState;
  r_clear : bool;
  r_progress : bool;
}.

Record PtyReading : Type := mkPtyReading {
  p_state : AgentState;
  p_clear : bool;
  p_progress : bool;
  p_liveness : Liveness;
  p_ready_for_prompt : bool;
}.

Inductive Outcome : Type :=
| Committed (s : AgentState)
| Unchanged
| Rejected
| Damped
| Gated.

#[export] Instance Outcome_eq_dec : EqDecision Outcome.
Proof. solve_decision. Defined.

(** [HOOK_STALENESS]: 30 seconds. *)
Definition HOOK_STALENESS : Z := secs 30.

(** [DONE_EXIT_PROGRESS_STREAK], a [u8]. *)
Definition DONE_EXIT_PROGRESS_STREAK : Z := 3.

Definition is_exited (s : AgentState) : bool :=
  match s with Exited _ => true | _ => false end.

Module AgentStateMachine.

Record t : Type := mk {
  booted : bool;
  done_progress_streak : Z;
}.

(** [PtyReading::reading] *)
Definition reading (p : PtyReading) (clear : bool) : Reading :=
  mkReading (p_state p) clear (p_progress p).

Definition transition_allowed (from to : AgentState) : bool :=
  negb (is_exited from) &&
  negb (match from, to with
        | Done, Idle | Working, Idle => true
        | _, _ => false
        end).

Definition is_blocked (s : AgentState) : bool :=
  match s with
  | InputNeeded | LimitReached | CreditExhausted | AwaitingReset | Stalled => true
  | _ => false
  end.

Definition new : t := mk false 0.

Definition restored (s : AgentState) : t := mk (bool_decide (s <> Idle)) 0.

Definition mark_booted (m : t) : t := mk true (done_progress_streak m).

Definition transition (from : option AgentState) (to : AgentState) : option AgentState :=
  match from with
  | Some current =>
      if bool_decide (current = to) then None
      else if negb (transition_allowed current to) then None
      else Some to
  | None => Some to
  end.

Definition suppress_input_needed_exit (current : option AgentState) (r : Reading) : bool :=
  is_some_and is_blocked current &&
  bool_decide (Some (r_state r) <> current) && negb (r_clear r).

(** The settle promotion of [on_reading]: from [Working] a clear reading that
    is not a live prompt is a finished turn. *)
Definition settle (current : option AgentState) (r : Reading) : Reading :=
  if bool_decide (current = Some Working) && r_clear r && negb (is_blocked (r_state r))
  then mkReading Done true false
  else r.

Definition on_reading (m : t) (current : option AgentState) (r : Reading) : t * Outcome :=
  let m := if bool_decide (current <> Some Done) then mk (booted m) 0 else m in
  if bool_decide (r_state r = Working) && negb (r_clear r)
     && bool_decide (current = None) && negb (booted m)
  then (m, Damped)
  else if bool_decide (current = Some AwaitingReset) && bool_decide (r_state r = LimitReached)
  then (m, Damped)
  else
    let m := if r_clear r then mk true 0 else m in
    let r := settle current r in
    if bool_decide (r_state r = Done) && bool_decide (current <> Some Working)
    then (m, if bool_decide (current = Some Done) then Unchanged else Rejected)
    else if bool_decide (current = Some Done) && bool_decide (r_state r = Working)
            && negb (r_clear r)
    then
      if r_progress r then
        let m := mk (booted m) (wrap_add u8_max (done_progress_streak m) 1) in
        if DONE_EXIT_PROGRESS_STREAK <=? done_progress_streak m
        then (mk (booted m) 0, Committed Working)
        else (m, Damped)
      else (m, Damped)
    else if suppress_input_needed_exit current r then (m, Damped)
    else
      match transition current (r_state r) with
      | Some to => (m, Committed to)
      | None =>
          if bool_decide (current = Some (r_state r)) then (m, Unchanged) else (m, Rejected)
      end.

(** [hooks_gate_allows_causal]; [supersedes_dialog] is the value the lazy
    probe would return. *)
Definition hooks_gate_allows_causal (current : option AgentState) (p : PtyReading)
    (pty_is_newer supersedes_dialog : bool) : bool :=
  if match p_liveness p with Silent | Watchdog => true | _ => false end
     && bool_decide (current = Some Working)
  then true
  else if pty_is_newer then
    let demotes_blocked :=
      is_some_and is_blocked current && bool_decide (p_state p = Working) in
    negb demotes_blocked || supersedes_dialog
  else
    is_blocked (p_state p)
    || (bool_decide (p_state p = Idle) && p_ready_for_prompt p
        && negb (is_some_and is_blocked current)).

Definition on_pty_reading_causal (m : t) (current : option AgentState) (p : PtyReading)
    (auth : HookAuthority) (supersedes_dialog : bool) : t * Outcome :=
  if bool_decide (auth <> NoHook) then
    if negb (hooks_gate_allows_causal current p (bool_decide (auth = PtyNewer)) supersedes_dialog)
    then (m, Gated)
    else
      let clear :=
        if bool_decide (auth = PtyNewer) && is_some_and is_blocked current
           && bool_decide (p_state p = Working)
        then true else p_clear p in
      on_reading m current (reading p clear)
  else on_reading m current (reading p (p_clear p)).

(** The age of the last hook, as a causal order ([on_pty_reading]). *)
Definition authority_of_age (since_last_hook : option Z) : HookAuthority :=
  match since_last_hook with
  | None => NoHook
  | Some since => if HOOK_STALENESS <=? since then PtyNewer else HookNewer
  end.

Definition on_pty_reading (m : t) (current : option AgentState) (p : PtyReading)
    (since_last_hook : option Z) (supersedes_dialog : bool) : t * Outcome :=
  on_pty_reading_causal m current p (authority_of_age since_last_hook) supersedes_dialog.

End AgentStateMachine.

Import AgentStateMachine.

(** ** The contract, restated independently of [transition_allowed] *)

Definition edge_is_legal (from to : AgentState) : Prop :=
  from <> to /\ is_exited from = false
  /\ ~ (from = Working /\ to = Idle) /\ ~ (from = Done /\ to = Idle).

(** The move is affirmative evidence: a clear classification, or the dialog
    supersession carve-out of a terminal whose PTY is newer than its hooks. *)
Definition affirmative (p : PtyReading) (auth : HookAuthority) (sd : bool) : Prop :=
  p_clear p = true \/ (auth = PtyNewer /\ p_state p = Working /\ sd = true).

(** A byte-flow reading: [Working], not affirmed. *)
Definition is_byte_flow (r : Reading) : Prop := r_state r = Working /\ r_clear r = false.

(** A sequence of readings folded by one machine, its commits cached. *)
Fixpoint run_readings (m : t) (current : option AgentState) (rs : list Reading)
    : t * option AgentState :=
  match rs with
  | [] => (m, current)
  | r :: rs =>
      match on_reading m current r with
      | (m, Committed s) => run_readings m (Some s) rs
      | (m, _) => run_readings m current rs
      end
  end.

Definition progress_count (rs : list Reading) : Z :=
  Z.of_nat (length (List.filter r_progress rs)).

Definition streak_ok (m : t) : Prop :=
  0 <= done_progress_streak m < DONE_EXIT_PROGRESS_STREAK.

(** ** Helper lemmas *)

Lemma transition_Some from to x :
  transition (Some from) to = Some x <-> x = to /\ edge_is_legal from to.
Proof.
  unfold transition, edge_is_legal, transition_allowed.
  destruct (decide (from = to)) as [->|Hne].
  - rewrite bool_decide_true by done. naive_solver.
  - rewrite bool_decide_false by done. destruct from, to; naive_solver.
Qed.

Lemma transition_None_from to : transition None to = Some to.
Proof. done. Qed.

(** One inversion principle for [on_reading]: every commit is either the
    resumed-streak exit of [Done] or a legal transition to the settled state. *)
Lemma on_reading_commit m current r m' to :
  on_reading m current r = (m', Committed to) ->
  (current = Some Done /\ to = Working /\ is_byte_flow r /\ r_progress r = true)
  \/ (transition current (r_state (settle current r)) = Some to
      /\ (r_state (settle current r) = Done -> current = Some Working)
      /\ suppress_input_needed_exit current (settle current r) = false).
Proof.
  unfold on_reading. intros H. step_ifs H.
  - by case_match.
  - left. bool_norm. unfold is_byte_flow, settle in *. case_match; by simplify_eq/=.
  - destruct (transition _ _) eqn:Ht; [|by step_ifs H].
    simplify_eq. right. split_and!; [done| |done]. intros HD.
    apply dec_stable. intros ?. rewrite !bool_decide_eq_true_2 in * by done. done.
Qed.

(** A blocked state is left by a PTY reading only on a clear reading. *)
Lemma on_reading_blocked m from r m' to :
  on_reading m (Some from) r = (m', Committed to) ->
  is_blocked from = true -> r_clear r = true.
Proof.
  intros [(?&?&_)|(Ht&_&Hs)]%on_reading_commit Hb; [naive_solver|].
  assert (settle (Some from) r = r) as Hr.
  { unfold settle. case_match; bool_norm; naive_solver. }
  rewrite Hr in *. apply transition_Some in Ht as [-> [Hne _]].
  unfold suppress_input_needed_exit in Hs. simpl in Hs. rewrite Hb in Hs. simpl in Hs.
  bool_split; naive_solver.
Qed.

Lemma on_reading_edge m from r m' to :
  on_reading m (Some from) r = (m', Committed to) -> edge_is_legal from to.
Proof.
  intros [(?&?&_)|(Ht&_)]%on_reading_commit; simplify_eq.
  - unfold edge_is_legal. naive_solver.
  - by apply transition_Some in Ht as [-> ?].
Qed.

Lemma on_reading_done m current r m' :
  on_reading m current r = (m', Committed Done) -> current = Some Working.
Proof.
  intros [(?&?&_)|(Ht&HD&_)]%on_reading_commit; [naive_solver|].
  apply HD. destruct current; simpl in *; [|by simplify_eq].
  apply transition_Some in Ht as [? _]. done.
Qed.

(** Every [on_pty_reading_causal] commit is an [on_reading] commit of the same
    state, whose reading is clear only on affirmative evidence. *)
Lemma on_pty_commit m current p auth sd m' to :
  on_pty_reading_causal m current p auth sd = (m', Committed to) ->
  exists clear,
    on_reading m current (reading p clear) = (m', Committed to)
    /\ (clear = true -> affirmative p auth sd)
    /\ (auth <> NoHook ->
        hooks_gate_allows_causal current p (bool_decide (auth = PtyNewer)) sd = true).
Proof.
  unfold on_pty_reading_causal. intros H. step_if H.
  - step_if H; [done|]. bool_norm. eexists. split_and!; [exact H| |done].
    intros Hc. unfold affirmative. case_match; [|by left].
    bool_norm. right. split_and!; [done..|].
    destruct current as [c|]; simpl in *; [|done].
    unfold hooks_gate_allows_causal in *; simpl in *.
    destruct (decide (c = Working)) as [->|Hc']; [done|].
    rewrite (bool_decide_eq_false_2 (Some c = _)) in * by congruence.
    rewrite andb_false_r, !bool_decide_eq_true_2 in * by done.
    destruct (is_blocked c); simpl in *; done.
  - bool_norm. eexists. split_and!; [exact H| |].
    + intros ?. by left.
    + naive_solver.
Qed.

Lemma settle_other current r : current <> Some Working -> settle current r = r.
Proof. intros. unfold settle. by rewrite bool_decide_eq_false_2. Qed.

(** What a byte-flow reading does to a machine whose terminal is [Done]. *)
Lemma on_reading_done_byte_flow m r :
  is_byte_flow r -> streak_ok m ->
  on_reading m (Some Done) r =
    if r_progress r then
      if done_progress_streak m + 1 =? DONE_EXIT_PROGRESS_STREAK
      then (mk (booted m) 0, Committed Working)
      else (mk (booted m) (done_progress_streak m + 1), Damped)
    else (m, Damped).
Proof.
  intros [Hs Hc] Hok. unfold streak_ok, DONE_EXIT_PROGRESS_STREAK in *.
  unfold on_reading. rewrite settle_other by congruence. rewrite Hs, Hc. simpl.
  destruct (r_progress r); [|done]. unfold wrap_add, u8_max.
  rewrite Z.mod_small by lia. simpl. unfold DONE_EXIT_PROGRESS_STREAK.
  destruct (Z.eqb_spec (done_progress_streak m + 1) 3), (Z.leb_spec 3 (done_progress_streak m + 1));
    done || lia.
Qed.

(** Once [Working], byte flow keeps it there. *)
Lemma run_readings_working rs m :
  Forall is_byte_flow rs -> snd (run_readings m (Some Working) rs) = Some Working.
Proof.
  revert m. induction rs as [|r rs IH]; intros m Hf; [done|].
  apply Forall_cons in Hf as [[Hs Hc] Hf]. simpl.
  unfold on_reading. unfold settle. rewrite Hc, Hs, andb_false_r. simpl.
  rewrite Hs. simpl. by apply IH.
Qed.

Lemma pty_commit_is_legal_aux m from p auth sd m' to :
  on_pty_reading_causal m (Some from) p auth sd = (m', Committed to) ->
  edge_is_legal from to.
Proof. intros (clear & H & _)%on_pty_commit. by eapply on_reading_edge. Qed.

(** ** Theorems *)

(** C3: every state change the PTY path commits -- whatever the machine's
    history, the evidence tier, the hook order and the dialog probe -- is a
    legal edge of the lifecycle: never a self-loop, never out of [Exited],
    never [Working -> Idle] and never [Done -> Idle]. *)
Theorem pty_commit_is_legal m from p auth sd m' to :
  on_pty_reading_causal m (Some from) p auth sd = (m', Committed to) ->
  edge_is_legal from to.
Proof. apply pty_commit_is_legal_aux. Qed.

Lemma pty_commit_is_legal_witness :
  exists m', on_pty_reading_causal (mk true 0) (Some Working)
      (mkPtyReading Idle true false Silent true) HookNewer false = (m', Committed Done)
    /\ edge_is_legal Working Done.
Proof.
  eexists. split; [reflexivity|].
  apply (pty_commit_is_legal (mk true 0) Working
    (mkPtyReading Idle true false Silent true) HookNewer false (mk true 0)).
  reflexivity.
Defined.

(** the PTY path never fabricates a finished turn: it commits [Done] only
    from [Working], never from a fresh terminal, a never-worked [Idle], a parked
    prompt or an exited process. *)
Theorem pty_done_only_from_working m current p auth sd m' :
  on_pty_reading_causal m current p auth sd = (m', Committed Done) ->
  current = Some Working.
Proof. intros (clear & H & _)%on_pty_commit. by eapply on_reading_done. Qed.

Lemma pty_done_only_from_working_witness :
  Some Working = Some Working.
Proof.
  apply (pty_done_only_from_working (mk false 0) (Some Working)
    (mkPtyReading Done true false Silent false) NoHook false (mk true 0)).
  reflexivity.
Defined.

(** a parked terminal ([InputNeeded], [LimitReached], [CreditExhausted],
    [AwaitingReset], [Stalled]) is left by the PTY path only on affirmative
    evidence: a clear classification, or a [Working] reading newer than the
    hooks whose dialog probe shows the prompt was superseded.  A stray repaint
    can never un-ask a prompt. *)
Theorem pty_blocked_exit_needs_evidence m from p auth sd m' to :
  on_pty_reading_causal m (Some from) p auth sd = (m', Committed to) ->
  is_blocked from = true ->
  affirmative p auth sd.
Proof.
  intros (clear & H & Hc & _)%on_pty_commit Hb. apply Hc.
  by eapply (on_reading_blocked _ _ _ _ _ H).
Qed.

Lemma pty_blocked_exit_needs_evidence_witness :
  affirmative (mkPtyReading Working false true Streaming false) PtyNewer true.
Proof.
  apply (pty_blocked_exit_needs_evidence (mk true 0) InputNeeded
    (mkPtyReading Working false true Streaming false) PtyNewer true (mk true 0) Working);
    reflexivity.
Defined.

(** the inactivity authority.  A clear classification taken on a byte-silent
    or watchdog-expired screen settles a [Working] turn to [Done] whatever the
    hooks say, unless the screen shows a parked prompt, and then it commits that
    prompt: a missing terminal hook can never pin [Working]. *)
Theorem inactivity_settles_working m p auth sd :
  p_clear p = true ->
  p_liveness p = Silent \/ p_liveness p = Watchdog ->
  snd (on_pty_reading_causal m (Some Working) p auth sd)
  = Committed (if is_blocked (p_state p) then p_state p else Done).
Proof.
  intros Hc Hl. destruct p as [s c pr l rp]; simpl in *; subst c.
  unfold on_pty_reading_causal, hooks_gate_allows_causal; simpl.
  destruct Hl as [-> | ->]; destruct auth, s; reflexivity.
Qed.

Lemma inactivity_settles_working_witness :
  snd (on_pty_reading_causal (mk true 0) (Some Working)
         (mkPtyReading Working true false Watchdog false) HookNewer false)
  = Committed Done.
Proof.
  apply (inactivity_settles_working (mk true 0)
    (mkPtyReading Working true false Watchdog false) HookNewer false);
    [reflexivity | right; reflexivity].
Defined.

(** the resume of a finished turn is exactly a streak of three progressing
    readings.  Whatever repaint churn is interleaved, a byte-flow stream of any
    length leaves [Done] for [Working] if and only if the progressing readings
    it contains complete the streak the machine had already counted. *)
Theorem done_exit_is_the_streak rs m :
  Forall is_byte_flow rs ->
  streak_ok m ->
  snd (run_readings m (Some Done) rs)
  = Some (if DONE_EXIT_PROGRESS_STREAK <=? done_progress_streak m + progress_count rs
          then Working else Done).
Proof.
  revert m. induction rs as [|r rs IH]; intros m Hf Hok.
  - unfold progress_count, streak_ok in *. simpl.
    by rewrite (proj2 (Z.leb_gt _ _)) by lia.
  - apply Forall_cons in Hf as [Hr Hf]. simpl.
    rewrite on_reading_done_byte_flow by done.
    unfold progress_count in *. simpl. destruct (r_progress r); [|by apply IH].
    unfold streak_ok in *. destruct (Z.eqb_spec (done_progress_streak m + 1) DONE_EXIT_PROGRESS_STREAK).
    + rewrite run_readings_working by done. simpl. by rewrite (proj2 (Z.leb_le _ _)) by lia.
    + rewrite IH; simpl; [|done|lia]. do 2 f_equal.
      by rewrite Nat2Z.inj_succ, <- Z.add_1_l, Z.add_assoc.
Qed.

Lemma done_exit_is_the_streak_witness :
  snd (run_readings (mk true 0) (Some Done)
         [mkReading Working false true; mkReading Working false false;
          mkReading Working false true; mkReading Working false true]) = Some Working.
Proof.
  apply (done_exit_is_the_streak
    [mkReading Working false true; mkReading Working false false;
     mkReading Working false true; mkReading Working false true] (mk true 0)).
  - repeat constructor.
  - unfold streak_ok, DONE_EXIT_PROGRESS_STREAK. simpl. lia.
Defined.

(** the hooks-primary gate.  While the latest hook is newer than the PTY
    evidence, a reading that commits is one of the three corrections hooks
    structurally miss: a parked prompt on screen, a ready idle composer over a
    state that is not parked, or an inactivity settle of [Working]. *)
Theorem fresh_hook_commits_only_corrections m current p sd m' to :
  on_pty_reading_causal m current p HookNewer sd = (m', Committed to) ->
  is_blocked (p_state p) = true
  \/ (p_state p = Idle /\ p_ready_for_prompt p = true
      /\ is_some_and is_blocked current = false)
  \/ (current = Some Working /\ (p_liveness p = Silent \/ p_liveness p = Watchdog)).
Proof.
  intros (clear & _ & _ & Hg)%on_pty_commit. specialize (Hg ltac:(done)).
  unfold hooks_gate_allows_causal in Hg. simpl in Hg.
  destruct (_ && bool_decide (current = Some Working)) eqn:Hi.
  - bool_norm. right; right. destruct (p_liveness p); naive_solver.
  - apply orb_true_iff in Hg as [?|?]; [by left|]. bool_norm. by right; left.
Qed.

Lemma fresh_hook_commits_only_corrections_witness :
  is_blocked InputNeeded = true
  \/ (InputNeeded = Idle /\ false = true /\ is_some_and is_blocked (Some Working) = false)
  \/ (Some Working = Some Working /\ (Streaming = Silent \/ Streaming = Watchdog)).
Proof.
  apply (fresh_hook_commits_only_corrections (mk true 0) (Some Working)
    (mkPtyReading InputNeeded false false Streaming false) false (mk true 0) InputNeeded).
  reflexivity.
Defined.
