(* ===== verification/AgentTurn.v ===== *)
(** * The per-terminal turn clock ([src/crates/server/src/registries.rs])

    [AgentTurn] orders hooks, PTY output, answers and timer ticks on one
    sequence and arbitrates hook-vs-PTY authority from it.  The monotonic clock
    the code reads ([Instant::now()]) is the argument [now] of each operation.
    The theorems refine [hook_authority] to a specification over the recorded
    event history and bound the pump's drain once the watchdog is due. *)

From S2P Require Import Prelude StateMachine.

Inductive AgentTurnTick : Type := TQuiet | TWatchdog | TReclassify.

#[export] Instance AgentTurnTick_eq_dec : EqDecision AgentTurnTick.
Proof. solve_decision. Defined.

Inductive AgentTurnEvent : Type :=
| OutputChunk (backend_seq : Z) (meaningful_progress : bool)
| UserAnswered
| HookArrived (waiting_on_user : bool)
| Tick (tick : AgentTurnTick).

Module AgentTurn.

Record t : Type := mk {
  next_sequence : Z;
  last_output : option Z;
  last_hook : option Z;
  last_hook_waiting_on_user : bool;
  last_answer : option Z;
  last_hook_at : option Z;
  quiet_after : option Z;
  quiet_deadline : option Z;
  watchdog_window : option Z;
  content_stable_since : Z;
  watchdog_deadline : option Z;
  deadline_batch_remaining : option Z;
  watchdog_ticks_since_hook : Z;
  last_output_at : Z;
}.

Definition default (now : Z) : t :=
  mk 0 None None false None None None None None now None None 0 now.

Record Schedule : Type := mkSchedule {
  s_quiet_deadline : option Z;
  s_watchdog_deadline : option Z;
  s_watchdog_due : bool;
  s_receiver_enabled : bool;
  s_last_output_at : Z;
}.

Record WatchdogFire : Type := mkFire {
  f_window : Z;
  f_content_stable : Z;
  f_elapsed_since_output : Z;
}.

Definition configure (now q : Z) (w : option Z) (s : t) : t :=
  mk (next_sequence s) (last_output s) (last_hook s) (last_hook_waiting_on_user s)
     (last_answer s) (last_hook_at s) (Some q) (quiet_deadline s) w now
     ((fun window => now + window) <$> w) None (watchdog_ticks_since_hook s) now.

(** The re-anchoring of the content clock: meaningful progress and an
    affirmative hook both apply it. *)
Definition reanchor (now : Z) (s : t) : t :=
  mk (next_sequence s) (last_output s) (last_hook s) (last_hook_waiting_on_user s)
     (last_answer s) (last_hook_at s) (quiet_after s) (quiet_deadline s)
     (watchdog_window s) now ((fun window => now + window) <$> watchdog_window s) None
     (watchdog_ticks_since_hook s) (last_output_at s).

Definition set_sequence (sequence : Z) (s : t) : t :=
  mk sequence (last_output s) (last_hook s) (last_hook_waiting_on_user s)
     (last_answer s) (last_hook_at s) (quiet_after s) (quiet_deadline s)
     (watchdog_window s) (content_stable_since s) (watchdog_deadline s)
     (deadline_batch_remaining s) (watchdog_ticks_since_hook s) (last_output_at s).

Definition record (now : Z) (e : AgentTurnEvent) (s0 : t) : t * Z :=
  let sequence := sat_add u64_max (next_sequence s0) 1 in
  let s := set_sequence sequence s0 in
  let s' :=
    match e with
    | OutputChunk _ meaningful_progress =>
        let s := mk (next_sequence s) (Some sequence) (last_hook s)
                    (last_hook_waiting_on_user s) (last_answer s) (last_hook_at s)
                    (quiet_after s) ((fun quiet => now + quiet) <$> quiet_after s)
                    (watchdog_window s) (content_stable_since s) (watchdog_deadline s)
                    (deadline_batch_remaining s) (watchdog_ticks_since_hook s) now in
        if meaningful_progress then reanchor now s else s
    | UserAnswered =>
        mk (next_sequence s) (last_output s) (last_hook s) (last_hook_waiting_on_user s)
           (Some sequence) (last_hook_at s) (quiet_after s) (quiet_deadline s)
           (watchdog_window s) (content_stable_since s) (watchdog_deadline s)
           (deadline_batch_remaining s) (watchdog_ticks_since_hook s) (last_output_at s)
    | HookArrived waiting_on_user =>
        let s := mk (next_sequence s) (last_output s) (Some sequence) waiting_on_user
                    (last_answer s) (Some now) (quiet_after s) (quiet_deadline s)
                    (watchdog_window s) (content_stable_since s) (watchdog_deadline s)
                    (deadline_batch_remaining s) 0 (last_output_at s) in
        if negb waiting_on_user then reanchor now s else s
    | Tick tick =>
        if bool_decide (tick = TWatchdog) && bool_decide (is_Some (last_hook s)) then
          mk (next_sequence s) (last_output s) (last_hook s) (last_hook_waiting_on_user s)
             (last_answer s) (last_hook_at s) (quiet_after s) (quiet_deadline s)
             (watchdog_window s) (content_stable_since s) (watchdog_deadline s)
             (deadline_batch_remaining s) (sat_add u8_max (watchdog_ticks_since_hook s) 1)
             (last_output_at s)
        else s
    end in
  (s', sequence).

Definition hook_authority (pty_evidence : option Z) (s : t) : HookAuthority :=
  match last_hook s with
  | None => NoHook
  | Some hook =>
      let answer_supersedes_hook := is_some_and (fun answer => hook <? answer) (last_answer s) in
      if last_hook_waiting_on_user s && negb answer_supersedes_hook
         && (watchdog_ticks_since_hook s <? 2)
      then HookNewer
      else if is_some_and (fun pty => hook <? pty) pty_evidence then PtyNewer
      else HookNewer
  end.

Definition set_batch (b : option Z) (s : t) : t :=
  mk (next_sequence s) (last_output s) (last_hook s) (last_hook_waiting_on_user s)
     (last_answer s) (last_hook_at s) (quiet_after s) (quiet_deadline s)
     (watchdog_window s) (content_stable_since s) (watchdog_deadline s) b
     (watchdog_ticks_since_hook s) (last_output_at s).

Definition prepare_schedule (now queued_chunks : Z) (s : t) : t * Schedule :=
  let watchdog_due := is_some_and (fun deadline => deadline <=? now) (watchdog_deadline s) in
  let s :=
    if watchdog_due
    then set_batch (Some (from_option id queued_chunks (deadline_batch_remaining s))) s
    else set_batch None s in
  (s, mkSchedule (quiet_deadline s) (watchdog_deadline s) watchdog_due
        (negb watchdog_due
         || is_some_and (fun remaining => 0 <? remaining) (deadline_batch_remaining s))
        (last_output_at s)).

Definition note_received (watchdog_due : bool) (s : t) : t :=
  match deadline_batch_remaining s with
  | Some remaining =>
      if watchdog_due then set_batch (Some (remaining -sat 1)) s else s
  | None => s
  end.

Definition fire_quiet (now : Z) (s : t) : t * Z :=
  (mk (next_sequence s) (last_output s) (last_hook s) (last_hook_waiting_on_user s)
      (last_answer s) (last_hook_at s) (quiet_after s) None
      (watchdog_window s) (content_stable_since s) (watchdog_deadline s)
      (deadline_batch_remaining s) (watchdog_ticks_since_hook s) (last_output_at s),
   now -sat content_stable_since s).

Definition content_stable_for (now : Z) (s : t) : Z := now -sat content_stable_since s.

Definition fire_watchdog (now : Z) (s : t) : t * option WatchdogFire :=
  match watchdog_window s with
  | None => (s, None)
  | Some window =>
      (mk (next_sequence s) (last_output s) (last_hook s) (last_hook_waiting_on_user s)
          (last_answer s) (last_hook_at s) (quiet_after s) (quiet_deadline s)
          (watchdog_window s) (content_stable_since s) (Some (now + window)) None
          (watchdog_ticks_since_hook s) (last_output_at s),
       Some (mkFire window (now -sat content_stable_since s) (now -sat last_output_at s)))
  end.

End AgentTurn.

Import AgentTurn.

(** ** The arbitration contract, over the event history

    Histories are newest first. *)

Definition is_output (e : AgentTurnEvent) : bool :=
  match e with OutputChunk _ _ => true | _ => false end.
Definition is_answer (e : AgentTurnEvent) : bool :=
  match e with UserAnswered => true | _ => false end.
Definition is_watchdog_tick (e : AgentTurnEvent) : bool :=
  match e with Tick TWatchdog => true | _ => false end.

(** The last hook of a history, and the events recorded after it. *)
Fixpoint since_last_hook (h : list AgentTurnEvent) : option (bool * list AgentTurnEvent) :=
  match h with
  | [] => None
  | HookArrived w :: _ => Some (w, [])
  | e :: h =>
      match since_last_hook h with
      | Some (w, after) => Some (w, e :: after)
      | None => None
      end
  end.

Definition ticks_in (h : list AgentTurnEvent) : Z :=
  Z.of_nat (length (List.filter is_watchdog_tick h)).

Definition authority_spec (h : list AgentTurnEvent) : HookAuthority :=
  match since_last_hook h with
  | None => NoHook
  | Some (waiting, after) =>
      if waiting && negb (existsb is_answer after) && (ticks_in after <? 2) then HookNewer
      else if existsb is_output after then PtyNewer
      else HookNewer
  end.

(** Record a history, oldest event first. *)
Fixpoint run_events (start : Z) (h : list (Z * AgentTurnEvent)) : t :=
  match h with
  | [] => AgentTurn.default start
  | (now, e) :: h => fst (record now e (run_events start h))
  end.

(** The representation invariant tying the clock to the history it recorded. *)
Record represents (h : list AgentTurnEvent) (s : t) : Prop := {
  rep_seq : next_sequence s = Z.of_nat (length h);
  rep_output : forall o, last_output s = Some o -> o <= next_sequence s;
  rep_answer : forall a, last_answer s = Some a -> a <= next_sequence s;
  rep_hook :
    match since_last_hook h with
    | None => last_hook s = None
    | Some (w, after) =>
        exists hook, last_hook s = Some hook /\ 0 <= hook <= next_sequence s
        /\ last_hook_waiting_on_user s = w
        /\ watchdog_ticks_since_hook s = Z.min u8_max (ticks_in after)
        /\ is_some_and (fun a => hook <? a) (last_answer s) = existsb is_answer after
        /\ is_some_and (fun o => hook <? o) (last_output s) = existsb is_output after
    end;
}.

Lemma represents_default start : represents [] (AgentTurn.default start).
Proof. split; simpl; done. Qed.

(** [reanchor] touches the content clock only, which the arbitration never
    reads. *)
Lemma represents_reanchor h s now : represents h s -> represents h (reanchor now s).
Proof. intros [? ? ? ?]. by split. Qed.

Lemma sequence_step s n :
  next_sequence s = Z.of_nat n -> Z.of_nat n < u64_max ->
  sat_add u64_max (next_sequence s) 1 = Z.of_nat (S n).
Proof. unfold sat_add. lia. Qed.

Lemma is_some_and_gt_bound (hook n : Z) o :
  (forall x, o = Some x -> x <= n) -> n <= hook ->
  is_some_and (fun x => hook <? x) o = false.
Proof.
  intros Hb ?. destruct o as [x|]; simpl; [|done].
  apply Z.ltb_ge. specialize (Hb x eq_refl). lia.
Qed.

Lemma ticks_in_cons e h :
  ticks_in (e :: h) = (if is_watchdog_tick e then 1 else 0) + ticks_in h.
Proof. unfold ticks_in. simpl. case_match; simpl; lia. Qed.

Lemma ticks_in_nonneg h : 0 <= ticks_in h.
Proof. unfold ticks_in. lia. Qed.

#[export] Hint Resolve ticks_in_nonneg represents_default represents_reanchor : lazybox.

Lemma represents_record h s now e :
  represents h s -> Z.of_nat (length h) < u64_max ->
  represents (e :: h) (fst (record now e s)).
Proof.
  intros Hrep Hlt. destruct Hrep as [Hseq Hout Hans Hhook].
  pose proof (sequence_step s _ Hseq Hlt) as Hstep.
  unfold record. simpl.
  assert (forall x, last_output s = Some x -> x <= sat_add u64_max (next_sequence s) 1)
    by (intros x ?%Hout; lia).
  assert (forall x, last_answer s = Some x -> x <= sat_add u64_max (next_sequence s) 1)
    by (intros x ?%Hans; lia).
  destruct e as [seq progress| |w|tick]; simpl.
  - assert (represents (OutputChunk seq progress :: h)
      (fst (record now (OutputChunk seq false) s))) as Hr.
    { split; simpl; [done|naive_solver lia|done|].
      destruct (since_last_hook h) as [[w after]|]; [|done].
      destruct Hhook as (hook & ? & ? & ? & ? & ? & ?). exists hook.
      split_and!; [done|lia|lia|done| |done|]; [rewrite ticks_in_cons; simpl; lia|].
      apply Z.ltb_lt. lia. }
    destruct progress; [by apply represents_reanchor|done].
  - split; simpl; [done|done|naive_solver lia|].
    destruct (since_last_hook h) as [[w after]|]; [|done].
    destruct Hhook as (hook & ? & ? & ? & ? & ? & ?). exists hook.
    split_and!; [done|lia|lia|done| | |done]; [rewrite ticks_in_cons; simpl; lia|].
    apply Z.ltb_lt. lia.
  - assert (represents (HookArrived w :: h) (mk (next_sequence s + 1) (last_output s)
      (Some (next_sequence s + 1)) w (last_answer s) (Some now) (quiet_after s)
      (quiet_deadline s) (watchdog_window s) (content_stable_since s)
      (watchdog_deadline s) (deadline_batch_remaining s) 0 (last_output_at s))) as Hr.
    { split; simpl; [lia|intros x ?%Hout; lia|intros x ?%Hans; lia|].
      exists (next_sequence s + 1). split_and!; [done|lia|lia|done|done| |];
        eapply is_some_and_gt_bound; [exact Hans|lia|exact Hout|lia]. }
    replace (sat_add u64_max (next_sequence s) 1) with (next_sequence s + 1) by lia.
    destruct w; [done|by apply represents_reanchor].
  - assert (forall b : bool, bool_decide (tick = TWatchdog) = b ->
      is_watchdog_tick (Tick tick) = b) as Htick by (by destruct tick; intros ? <-).
    specialize (Htick _ eq_refl).
    destruct (bool_decide (tick = TWatchdog) && bool_decide (is_Some (last_hook s))) eqn:Hb;
      (split; simpl; [done|done|done|]);
      (destruct (since_last_hook h) as [[w after]|]; [|by try rewrite Hhook in Hb]);
      destruct Hhook as (hook & Hk & ? & ? & ? & ? & ?); exists hook;
      rewrite Hk, (bool_decide_eq_true_2 (is_Some _)), andb_true_r in Hb by done;
      rewrite ticks_in_cons, Htick, Hb; pose proof (ticks_in_nonneg after);
      unfold sat_add, u8_max in *; split_and!; done || lia.
Qed.

Lemma run_events_represents start h :
  Z.of_nat (length h) <= u64_max -> represents (List.map snd h) (run_events start h).
Proof.
  induction h as [|[now e] h IH]; simpl; intros Hlt; [auto with lazybox|].
  apply represents_record; [apply IH; lia|]. rewrite length_map. lia.
Qed.

(** ** The pump's drain

    One round of the pump while output is queued: it asks for the schedule and,
    when the receiver is enabled, receives one chunk; the chunks carry no
    meaningful progress. *)
Definition pump_round (now queued : Z) (s : t) : t * bool :=
  let '(s, sched) := prepare_schedule now queued s in
  if s_receiver_enabled sched then
    let s := note_received (s_watchdog_due sched) s in
    (fst (record now (OutputChunk 0 false) s), true)
  else (s, false).

(** How many of the rounds at the given times and queue lengths receive. *)
Fixpoint pump_rounds (rounds : list (Z * Z)) (s : t) : t * Z :=
  match rounds with
  | [] => (s, 0)
  | (now, queued) :: rounds =>
      let '(s, received) := pump_round now queued s in
      let '(s, n) := pump_rounds rounds s in
      (s, if received then n + 1 else n)
  end.

(** Once the deadline has passed and the batch is fixed at [b], rounds consume
    exactly the batch. *)
Lemma pump_rounds_batch deadline b rounds s :
  watchdog_deadline s = Some deadline ->
  Forall (fun '(now, _) => deadline <= now) rounds ->
  deadline_batch_remaining s = Some b -> 0 <= b ->
  snd (pump_rounds rounds s) = Z.min b (Z.of_nat (length rounds)).
Proof.
  revert b s. induction rounds as [|[now q] rounds IH]; intros b s Hd Hnow Hb Hpos; simpl; [lia|].
  apply Forall_cons in Hnow as [Hle Hnow].
  unfold pump_round, prepare_schedule. rewrite Hd, Hb. simpl.
  rewrite (proj2 (Z.leb_le _ _) Hle). simpl.
  destruct (Z.ltb_spec 0 b).
  - destruct (pump_rounds rounds _) as [s' n] eqn:E.
    assert (n = Z.min (b - 1) (Z.of_nat (length rounds))) as ->; [|simpl; lia].
    apply (f_equal snd) in E. simpl in E. subst n.
    apply IH; [done|done| |lia]. simpl. by rewrite sat_sub_spec by lia.
  - destruct (pump_rounds rounds _) as [s' n] eqn:E.
    apply (f_equal snd) in E. simpl in E. subst n. rewrite (IH 0); simpl; [lia|done..| |lia].
    f_equal. lia.
Qed.

(** ** Theorems *)

(** C29: the turn clock implements causal arbitration.  After any history of
    fewer than 2^64 events, the authority computed from the clock's counters
    for the latest output is the one the history dictates: no hook, no
    authority; a hook waiting on the user holds until an answer or two watchdog
    ticks; otherwise the PTY wins exactly when output followed the hook. *)
Theorem hook_authority_refines_history start h :
  Z.of_nat (length h) <= u64_max ->
  let s := run_events start h in
  hook_authority (last_output s) s = authority_spec (List.map snd h).
Proof.
  intros Hlt s. destruct (run_events_represents start h Hlt) as [_ _ _ Hhook]. fold s in Hhook.
  unfold hook_authority, authority_spec.
  destruct (since_last_hook _) as [[w after]|]; [|by rewrite Hhook].
  destruct Hhook as (hook & -> & _ & -> & -> & -> & ->).
  unfold u8_max. pose proof (ticks_in_nonneg after).
  replace (Z.min 255 (ticks_in after) <? 2) with (ticks_in after <? 2); [done|].
  destruct (Z.ltb_spec (ticks_in after) 2), (Z.ltb_spec (Z.min 255 (ticks_in after)) 2); lia || done.
Qed.

Lemma hook_authority_refines_history_witness :
  let s := run_events 0 [(3, OutputChunk 7 false); (2, HookArrived false); (1, UserAnswered)] in
  hook_authority (last_output s) s = PtyNewer.
Proof.
  apply (hook_authority_refines_history 0
    [(3, OutputChunk 7 false); (2, HookArrived false); (1, UserAnswered)]).
  vm_compute. discriminate.
Defined.

(** the watchdog cannot be starved by output.  Once its deadline is due with
    [q] chunks queued, the pump receives exactly the first [q] of any longer run
    of unprogressing chunks -- however many keep arriving -- and then the
    receiver stays disabled until the watchdog fires. *)
Theorem watchdog_drain_is_bounded deadline q now rounds s :
  watchdog_deadline s = Some deadline ->
  deadline_batch_remaining s = None ->
  deadline <= now ->
  Forall (fun '(now, _) => deadline <= now) rounds ->
  0 <= q <= Z.of_nat (length rounds) ->
  snd (pump_rounds ((now, q) :: rounds) s) = q.
Proof.
  intros Hd Hb Hle Hnow Hq.
  assert (snd (pump_rounds ((now, q) :: rounds) s)
    = snd (pump_rounds ((now, q) :: rounds) (set_batch (Some q) s))) as ->.
  { simpl. unfold pump_round, prepare_schedule. simpl. rewrite Hd, Hb. simpl.
    by rewrite (proj2 (Z.leb_le _ _) Hle). }
  rewrite (pump_rounds_batch deadline q); simpl; [lia|done|by constructor|done|lia].
Qed.

Lemma watchdog_drain_is_bounded_witness :
  snd (pump_rounds ((10, 1) :: [(11, 5); (12, 5)])
    (mk 0 None None false None None None None (Some 9) 0 (Some 9) None 0 0)) = 1.
Proof.
  apply (watchdog_drain_is_bounded 9 1 10 [(11, 5); (12, 5)]);
    [reflexivity | reflexivity | lia | repeat constructor; lia | simpl; lia].
Defined.

(** firing the watchdog re-arms it and re-opens the receiver: the next
    schedule, until the new deadline, is not due and accepts output again. *)
Theorem fire_watchdog_reopens_receiver now now' q window s s' fire :
  watchdog_window s = Some window ->
  fire_watchdog now s = (s', fire) ->
  now' < now + window ->
  fire = Some (mkFire window (now -sat content_stable_since s) (now -sat last_output_at s))
  /\ s_watchdog_due (snd (prepare_schedule now' q s')) = false
  /\ s_receiver_enabled (snd (prepare_schedule now' q s')) = true.
Proof.
  unfold fire_watchdog, prepare_schedule. intros -> [= <- <-] Hlt. simpl.
  by rewrite (proj2 (Z.leb_gt _ _)) by lia.
Qed.

Lemma fire_watchdog_reopens_receiver_witness :
  let s := mk 0 None None false None None None None (Some 9) 0 (Some 9) None 0 0 in
  snd (fire_watchdog 10 s) = Some (mkFire 9 10 10)
  /\ s_watchdog_due (snd (prepare_schedule 12 4 (fst (fire_watchdog 10 s)))) = false
  /\ s_receiver_enabled (snd (prepare_schedule 12 4 (fst (fire_watchdog 10 s)))) = true.
Proof.
  intros s.
  apply (fire_watchdog_reopens_receiver 10 12 4 9 s (fst (fire_watchdog 10 s))
    (snd (fire_watchdog 10 s))); [reflexivity | reflexivity | lia].
Defined.
