(* ===== verification/TerminalFold.v ===== *)
(** * The terminal state-ownership boundary
      ([src/crates/server/src/spawn_handler.rs] and [registries.rs])

    [fold_and_broadcast_agent_state] is the only place a terminal's cached
    lifecycle state changes: it folds a candidate under the registry lock,
    persists with no lock held, then re-acquires the lock to commit and
    broadcast.  The two lock acquisitions are [fold_phase] and [commit_phase];
    what other lock holders do in between is [env_step].  A terminal's history
    is the relation [run], and its invariants are proved by rule induction.

    The slice of [TerminalEntry] modelled is the one these paths read or write;
    [CreditRecoveryRuntime] is the number of evidence notifications it received. *)

From S2P Require Import Prelude StateMachine.
Import AgentStateMachine.

Record TerminalEntry : Type := mkEntry {
  backend_key : option string;
  agent_state : option AgentState;
  agent_state_generation : option Z;
  meta : option string;
  usage_limit_reset_hint : option string;
  credit_recovery : option Z;
  finishing : bool;
}.

Definition default_entry : TerminalEntry := mkEntry None None None None None None false.

Definition set_agent_state (s : option AgentState) (e : TerminalEntry) : TerminalEntry :=
  mkEntry (backend_key e) s (agent_state_generation e) (meta e)
    (usage_limit_reset_hint e) (credit_recovery e) (finishing e).
Definition set_hint (h : option string) (e : TerminalEntry) : TerminalEntry :=
  mkEntry (backend_key e) (agent_state e) (agent_state_generation e) (meta e) h
    (credit_recovery e) (finishing e).
Definition set_recovery (c : option Z) (e : TerminalEntry) : TerminalEntry :=
  mkEntry (backend_key e) (agent_state e) (agent_state_generation e) (meta e)
    (usage_limit_reset_hint e) c (finishing e).
Definition set_finishing (f : bool) (e : TerminalEntry) : TerminalEntry :=
  mkEntry (backend_key e) (agent_state e) (agent_state_generation e) (meta e)
    (usage_limit_reset_hint e) (credit_recovery e) f.

Abbreviation Registry := (gmap Z TerminalEntry).

Inductive StateSource : Type :=
| SPty | SFlip | SHook | SExit | SRecovery | SAutoWait | SSweep.

#[export] Instance StateSource_eq_dec : EqDecision StateSource.
Proof. solve_decision. Defined.

Inductive Event : Type :=
| EvAgentState (session_key : string) (terminal_id : Z) (state : AgentState)
| EvAgentUsageLimit (session_key : string) (terminal_id : Z) (reset_hint : string).

(** The persisted identity a transition carries ([AgentStateDurability]) and the
    key captured when it was offered. *)
Record Transition : Type := mkTransition {
  t_id : Z;
  t_generation : Z;
  t_captured : string;
  t_source : StateSource;
}.

Definition limit_parked (s : option AgentState) : bool :=
  match s with Some LimitReached | Some AwaitingReset => true | _ => false end.

(** [entries.entry(id).or_default()] *)
Definition entry_or_default (id : Z) (reg : Registry) : TerminalEntry :=
  default default_entry (reg !! id).

(** [(!entry.finishing).then(|| entry.meta...).flatten()] *)
Definition live_session (e : TerminalEntry) : option string :=
  if finishing e then None else meta e.

Definition broadcast_usage_limit_hint (e : TerminalEntry) (id : Z) (hint : option string)
    : TerminalEntry * list Event :=
  if negb (limit_parked (agent_state e)) then (set_hint None e, [])
  else if finishing e then (e, [])
  else
    match meta e, hint with
    | Some session_key, Some reset_hint =>
        if bool_decide (usage_limit_reset_hint e = Some reset_hint) then (e, [])
        else (set_hint (Some reset_hint) e, [EvAgentUsageLimit session_key id reset_hint])
    | _, _ => (e, [])
    end.

(** The credit-recovery hold on a folded candidate. *)
Definition recovery_hold (previous : option AgentState) (source : StateSource)
    (e : TerminalEntry) (committed : option AgentState) : TerminalEntry * option AgentState :=
  match committed with
  | Some state =>
      if bool_decide (previous = Some CreditExhausted)
         && negb (bool_decide (state = CreditExhausted) || is_exited state)
         && negb (bool_decide (source = SRecovery))
      then
        match credit_recovery e with
        | Some evidence =>
            ((if bool_decide (state = Working) then set_recovery (Some (evidence + 1)) e else e),
             None)
        | None => (e, committed)
        end
      else (e, committed)
  | None => (e, None)
  end.

(** The fold under the first lock acquisition. *)
Definition fold_phase {R} (reg : Registry) (tr : Transition)
    (prep : TerminalEntry -> TerminalEntry)
    (fold : option AgentState -> bool -> R * option AgentState)
    : Registry * R * option AgentState * option AgentState :=
  let e := prep (entry_or_default (t_id tr) reg) in
  let terminal_live := bool_decide (is_Some (live_session e)) in
  let previous := agent_state e in
  let '(result, committed) := fold previous terminal_live in
  let '(e, committed) := recovery_hold previous (t_source tr) e committed in
  (<[t_id tr := e]> reg, result, committed, previous).

(** The commit under the second lock acquisition; [true] when it committed. *)
Definition commit_phase (reg : Registry) (tr : Transition) (state : AgentState)
    (hint : option string) : Registry * list Event * bool :=
  match reg !! t_id tr with
  | None => (reg, [], false)
  | Some e =>
      if is_some_and (fun g => negb (g =? t_generation tr)) (agent_state_generation e)
      then (reg, [], false)
      else
        let session_key := default (t_captured tr) (live_session e) in
        let '(e', evs) :=
          broadcast_usage_limit_hint (set_agent_state (Some state) e) (t_id tr) hint in
        (<[t_id tr := e']> reg, EvAgentState session_key (t_id tr) state :: evs, true)
  end.

(** The hint refresh of a transition that committed nothing. *)
Definition refresh_hint (reg : Registry) (tr : Transition) (previous : option AgentState)
    (hint : option string) : Registry * list Event :=
  if limit_parked previous then
    match reg !! t_id tr with
    | Some e =>
        if is_none_or (fun g => g =? t_generation tr) (agent_state_generation e) then
          let '(e', evs) := broadcast_usage_limit_hint e (t_id tr) hint in
          (<[t_id tr := e']> reg, evs)
        else (reg, [])
    | None => (reg, [])
    end
  else (reg, []).

Record StateFold (R : Type) : Type := mkFold {
  fold_result : R;
  fold_committed : bool;
  fold_wakes_poll : bool;
}.
Arguments mkFold {R}.
Arguments fold_result {R}.
Arguments fold_committed {R}.
Arguments fold_wakes_poll {R}.

(** [fold_and_broadcast_agent_state]: [persisted] is the store's answer and
    [interfere] what the other lock holders did while no lock was held. *)
Definition fold_and_broadcast_agent_state {R} (reg : Registry) (tr : Transition)
    (prep : TerminalEntry -> TerminalEntry)
    (fold : option AgentState -> bool -> R * option AgentState)
    (persisted : bool) (interfere : Registry -> Registry) (hint : option string)
    : Registry * list Event * StateFold R :=
  let '(reg, result, committed, previous) := fold_phase reg tr prep fold in
  match committed with
  | None =>
      let '(reg, evs) := refresh_hint (interfere reg) tr previous hint in
      (reg, evs, mkFold result false false)
  | Some state =>
      if negb persisted then (interfere reg, [], mkFold result false false)
      else
        let '(reg, evs, ok) := commit_phase (interfere reg) tr state hint in
        (reg, evs, mkFold result ok (ok && bool_decide (state = Done)))
  end.

(** The closure of [transition_and_broadcast_agent_state]. *)
Definition direct_fold (source : StateSource)
    (candidate_for : option AgentState -> option AgentState)
    (previous : option AgentState) (terminal_live : bool)
    : (option AgentState * option AgentState) * option AgentState :=
  let candidate := candidate_for previous in
  let committed :=
    if terminal_live || bool_decide (source = SExit)
    then candidate ≫= transition previous else None in
  ((previous, candidate), committed).

(** The closure of [commit_pty_reading]. *)
Definition pty_fold (m : AgentStateMachine.t) (p : PtyReading) (auth : HookAuthority) (sd : bool)
    (current : option AgentState) (terminal_live : bool)
    : (AgentStateMachine.t * Outcome) * option AgentState :=
  if negb terminal_live then ((m, Rejected), None)
  else
    let '(m, outcome) := on_pty_reading_causal m current p auth sd in
    ((m, outcome), match outcome with Committed s => Some s | _ => None end).

(** [claim_teardown]: the terminal stops being live and keeps its metadata. *)
Inductive TeardownClaim : Type :=
| ClaimAbsent
| ClaimMismatch (actual : string)
| Claimed (m : option string) (generation : option Z).

Definition claim_teardown (id : Z) (expected : string) (reg : Registry)
    : Registry * TeardownClaim :=
  match reg !! id with
  | None => (reg, ClaimAbsent)
  | Some e =>
      match backend_key e with
      | None => (reg, ClaimAbsent)
      | Some actual =>
          if negb (bool_decide (actual = expected)) then (reg, ClaimMismatch actual)
          else if finishing e then (reg, ClaimAbsent)
          else (<[id := set_finishing true e]> reg, Claimed (meta e) (agent_state_generation e))
      end
  end.

Definition finish_teardown (id : Z) (reg : Registry) : Registry := delete id reg.

(** ** Histories of one terminal *)

(** The folds a transaction may use: the closures of the two callers. *)
Inductive caller_fold : StateSource -> (option AgentState -> bool -> option AgentState) -> Prop :=
| caller_direct source candidate_for :
    caller_fold source (fun previous live => snd (direct_fold source candidate_for previous live))
| caller_pty m p auth sd :
    caller_fold SPty (fun previous live => snd (pty_fold m p auth sd previous live)).

(** What other lock holders may do to the entry of terminal [id] while a
    transition of that terminal is in flight: touch everything but its lifecycle
    state (the per-terminal transition lock excludes other transitions), claim
    its teardown, and finish a claimed teardown.  A terminal id is registered
    once, so metadata never reappears. *)
Inductive env_step (id : Z) : Registry -> Registry -> Prop :=
| env_touch reg e e' :
    reg !! id = Some e ->
    agent_state e' = agent_state e -> finishing e' = finishing e ->
    (meta e = None -> meta e' = None) ->
    env_step id reg (<[id := e']> reg)
| env_claim reg expected :
    is_Some (meta (entry_or_default id reg)) ->
    env_step id reg (fst (claim_teardown id expected reg))
| env_finish reg e :
    reg !! id = Some e -> finishing e = true ->
    env_step id reg (finish_teardown id reg)
| env_other reg reg' :
    reg' !! id = reg !! id -> env_step id reg reg'.

(** One history of terminal [id]: environment steps and whole transactions.  An
    [SExit] transaction is the claimed teardown's own. *)
Inductive run (id : Z) : Registry * list Event -> Registry * list Event -> Prop :=
| run_refl s : run id s s
| run_env s reg evs reg' :
    run id s (reg, evs) -> env_step id reg reg' -> run id s (reg', evs)
| run_txn s reg evs R (fold : _ -> _ -> R * option AgentState) tr prep persisted interfere hint
    reg' evs' res :
    run id s (reg, evs) ->
    t_id tr = id ->
    caller_fold (t_source tr) (fun previous live => snd (fold previous live)) ->
    (forall e, agent_state (prep e) = agent_state e /\ finishing (prep e) = finishing e
               /\ meta (prep e) = meta e) ->
    (t_source tr = SExit -> exists e, reg !! id = Some e /\ finishing e = true) ->
    (forall r, rtc (env_step id) r (interfere r)) ->
    fold_and_broadcast_agent_state reg tr prep fold persisted interfere hint = (reg', evs', res) ->
    run id s (reg', evs ++ evs').

(** The lifecycle states a bus delivered for [id], in order. *)
Definition state_of (id : Z) (ev : Event) : option AgentState :=
  match ev with
  | EvAgentState _ id' s => if id' =? id then Some s else None
  | EvAgentUsageLimit _ _ _ => None
  end.
Definition states_of (id : Z) (evs : list Event) : list AgentState := omap (state_of id) evs.

(** [s :: rest] is a chain of legal edges, starting anywhere from [None]. *)
Fixpoint legal_chain (from : option AgentState) (l : list AgentState) : Prop :=
  match l with
  | [] => True
  | s :: l =>
      match from with Some f => edge_is_legal f s | None => True end /\ legal_chain (Some s) l
  end.

Definition final_state (from : option AgentState) (l : list AgentState) : option AgentState :=
  match last l with Some s => Some s | None => from end.

(** An entry recreated after the teardown removed the terminal. *)
Definition dead (e : TerminalEntry) : Prop :=
  meta e = None /\ finishing e = false /\ agent_state e = None.

(** The invariant: the cache holds the last delivered state, or the terminal is
    gone. *)
Definition coherent (id : Z) (init : option AgentState) (s : Registry * list Event) : Prop :=
  legal_chain init (states_of id (snd s))
  /\ forall e, fst s !! id = Some e ->
       agent_state e = final_state init (states_of id (snd s)) \/ dead e.

(** ** Helper lemmas *)

Lemma final_state_app from l1 l2 :
  final_state from (l1 ++ l2) = final_state (final_state from l1) l2.
Proof. unfold final_state. rewrite last_app. destruct (last l2), (last l1); done. Qed.

Lemma legal_chain_app from l1 l2 :
  legal_chain from (l1 ++ l2) <->
  legal_chain from l1 /\ legal_chain (final_state from l1) l2.
Proof.
  revert from. induction l1 as [|s l1 IH]; intros from; simpl; [naive_solver|].
  rewrite IH. replace (final_state from (s :: l1)) with (final_state (Some s) l1); [tauto|].
  symmetry. apply (final_state_app from [s] l1).
Qed.

Lemma states_of_app id l1 l2 : states_of id (l1 ++ l2) = states_of id l1 ++ states_of id l2.
Proof. apply omap_app. Qed.

Lemma states_of_cons id ev l : states_of id (ev :: l) = option_list (state_of id ev) ++ states_of id l.
Proof. unfold states_of. simpl. by destruct (state_of id ev). Qed.

Lemma caller_fold_legal source fold from live to :
  caller_fold source fold -> fold from live = Some to ->
  (live = true \/ source = SExit)
  /\ match from with Some f => edge_is_legal f to | None => True end.
Proof.
  intros [src cand|m p auth sd]; simpl; unfold direct_fold, pty_fold; simpl.
  - intros H. destruct (live || bool_decide (src = SExit)) eqn:Hl; [|done].
    split; [apply orb_true_iff in Hl as [->|?%bool_decide_eq_true]; auto|].
    destruct (cand from) as [c|]; [|done]. simpl in H.
    destruct from as [f|]; [|done]. by apply transition_Some in H as [-> ?].
  - intros H. destruct live; simpl in H; [|done]. split; [by left|].
    destruct (on_pty_reading_causal m from p auth sd) as [m' []] eqn:E; simplify_eq/=.
    destruct from as [f|]; [|done]. by eapply pty_commit_is_legal_aux.
Qed.

Lemma broadcast_hint_frame e id hint e' evs :
  broadcast_usage_limit_hint e id hint = (e', evs) ->
  agent_state e' = agent_state e /\ finishing e' = finishing e /\ meta e' = meta e
  /\ forall id', states_of id' evs = [].
Proof.
  unfold broadcast_usage_limit_hint. intros H.
  repeat case_match; simplify_eq/=; split_and!; done.
Qed.

Lemma recovery_hold_frame previous source e committed e' committed' :
  recovery_hold previous source e committed = (e', committed') ->
  agent_state e' = agent_state e /\ finishing e' = finishing e /\ meta e' = meta e
  /\ (committed' = committed \/ committed' = None).
Proof.
  unfold recovery_hold. intros H.
  repeat case_match; simplify_eq/=; split_and!; auto.
Qed.

Lemma dead_transfer e e' :
  agent_state e' = agent_state e -> finishing e' = finishing e -> (meta e = None -> meta e' = None) ->
  dead e -> dead e'.
Proof. unfold dead. intros ??? (?&?&?). split_and!; [auto|congruence|congruence]. Qed.

(** Replacing the entry by one with the same lifecycle fields keeps coherence. *)
Lemma coherent_update id init reg evs e e' :
  coherent id init (reg, evs) -> entry_or_default id reg = e ->
  agent_state e' = agent_state e -> finishing e' = finishing e -> (meta e = None -> meta e' = None) ->
  coherent id init (<[id := e']> reg, evs).
Proof.
  intros [Hc Hl] He ? ? ?. split; [done|]. simpl in *. intros e2. rewrite lookup_insert_eq.
  intros [= <-]. unfold entry_or_default in He. destruct (reg !! id) as [e0|] eqn:Hr; simpl in He; subst e.
  - destruct (Hl e0 eq_refl) as [Ha|Hd]; [left; congruence|right; by eapply dead_transfer].
  - right. eapply (dead_transfer default_entry); done.
Qed.

Lemma env_step_coherent id init reg evs reg' :
  coherent id init (reg, evs) -> env_step id reg reg' -> coherent id init (reg', evs).
Proof.
  intros Hco Henv. destruct Henv as [reg e e' Hr ? ? ?|reg expected [m Hm]|reg e Hr Hf|reg reg' Hr].
  - eapply coherent_update; [done| |done..]. unfold entry_or_default. by rewrite Hr.
  - unfold claim_teardown. unfold entry_or_default in Hm.
    destruct (reg !! id) as [e|] eqn:Hr; [|done]. simpl in Hm.
    destruct (backend_key e); [|done]. case_match; [done|]. case_match; [done|]. simpl.
    destruct Hco as [Hc Hl]. split; [done|]. simpl in *. intros e2. rewrite lookup_insert_eq.
    intros [= <-]. destruct (Hl e Hr) as [Ha|(Hd&_)]; [by left|congruence].
  - destruct Hco as [Hc _]. split; [done|]. unfold finish_teardown. simpl.
    intros e2. by rewrite lookup_delete_eq.
  - destruct Hco as [Hc Hl]. split; [done|]. simpl in *. rewrite Hr. done.
Qed.

Lemma env_steps_coherent id init reg evs reg' :
  rtc (env_step id) reg reg' -> coherent id init (reg, evs) -> coherent id init (reg', evs).
Proof. induction 1; eauto using env_step_coherent. Qed.

Lemma refresh_hint_coherent id init reg evs tr previous hint reg' evs' :
  t_id tr = id -> coherent id init (reg, evs) ->
  refresh_hint reg tr previous hint = (reg', evs') -> coherent id init (reg', evs ++ evs').
Proof.
  intros <- Hco. unfold refresh_hint. intros H.
  assert ((reg', evs') = (reg, []) -> coherent (t_id tr) init (reg', evs ++ evs')) as Hnone
    by (intros [= -> ->]; by rewrite app_nil_r).
  case_match; [|by apply Hnone]. destruct (reg !! t_id tr) as [e|] eqn:Hr; [|by apply Hnone].
  case_match; [|by apply Hnone].
  destruct (broadcast_usage_limit_hint e (t_id tr) hint) as [e' evs2] eqn:Hb. simplify_eq.
  apply broadcast_hint_frame in Hb as (?&?&?&Hs).
  assert (coherent (t_id tr) init (<[t_id tr := e']> reg, evs)) as [Hc Hl].
  { eapply coherent_update; [done| |done|done|congruence]. unfold entry_or_default. by rewrite Hr. }
  unfold coherent. simpl in *. rewrite states_of_app, Hs, app_nil_r. done.
Qed.

Lemma commit_phase_coherent id init reg evs tr state hint reg' evs' ok :
  t_id tr = id -> coherent id init (reg, evs) ->
  (match final_state init (states_of id evs) with Some f => edge_is_legal f state | None => True end) ->
  commit_phase reg tr state hint = (reg', evs', ok) -> coherent id init (reg', evs ++ evs').
Proof.
  intros <- Hco Hedge. unfold commit_phase. intros H.
  assert ((reg', evs') = (reg, []) -> coherent (t_id tr) init (reg', evs ++ evs')) as Hnone
    by (intros [= -> ->]; by rewrite app_nil_r).
  destruct (reg !! t_id tr) as [e|] eqn:Hr; [|apply Hnone; congruence].
  case_match; [apply Hnone; congruence|].
  destruct (broadcast_usage_limit_hint _ _ _) as [e' evs2] eqn:Hb. simplify_eq.
  apply broadcast_hint_frame in Hb as (Ha&_&_&Hs). destruct Hco as [Hc Hl].
  assert (states_of (t_id tr)
    (EvAgentState (default (t_captured tr) (live_session e)) (t_id tr) state :: evs2) = [state]) as Hev.
  { rewrite states_of_cons, Hs. simpl. by rewrite Z.eqb_refl. }
  split; cbn [fst snd] in *; rewrite states_of_app, Hev.
  - apply legal_chain_app. done.
  - intros e2. rewrite lookup_insert_eq. intros [= <-]. left.
    rewrite final_state_app. unfold final_state at 1. done.
Qed.

Lemma run_coherent id init s s' : run id s s' -> coherent id init s -> coherent id init s'.
Proof.
  induction 1 as [s|s reg evs reg' Hr IH Henv
    |s reg evs R fold tr prep persisted interfere hint reg' evs' res Hr IH Hid Hcf Hprep Hexit Hint Hfb];
    intros Hinit; [done|by eapply env_step_coherent; eauto|].
  specialize (IH Hinit). unfold fold_and_broadcast_agent_state, fold_phase in Hfb.
  set (e0 := prep (entry_or_default (t_id tr) reg)) in *.
  destruct (Hprep (entry_or_default (t_id tr) reg)) as (Hpa & Hpf & Hpm). fold e0 in Hpa, Hpf, Hpm.
  set (live := bool_decide (is_Some (live_session e0))) in *.
  destruct (fold (agent_state e0) live) as [result committed0] eqn:Hfold.
  destruct (recovery_hold _ _ _ _) as [e1 committed] eqn:Hhold.
  apply recovery_hold_frame in Hhold as (Hh1 & Hh2 & Hh3 & Hcm).
  assert (coherent id init (interfere (<[t_id tr := e1]> reg), evs)) as Hco.
  { eapply env_steps_coherent; [apply Hint|]. rewrite <- Hid in *.
    eapply coherent_update; [done|done|congruence|congruence|congruence]. }
  destruct committed as [state|].
  - assert (committed0 = Some state) as -> by naive_solver. clear Hcm.
    destruct (negb persisted); [simplify_eq; by rewrite app_nil_r|].
    destruct (commit_phase _ _ _ _) as [[reg2 evs2] ok] eqn:Hcp. simplify_eq.
    eapply commit_phase_coherent; [done|done| |done].
    destruct (caller_fold_legal _ _ (agent_state e0) live state Hcf) as [Hlive Hedge];
      [by rewrite Hfold|].
    destruct IH as [_ Hl]. simpl in Hl. rewrite Hpa in Hedge. unfold entry_or_default in *.
    destruct (reg !! t_id tr) as [e|] eqn:Hre; simpl in *.
    + destruct (Hl e eq_refl) as [<-|(Hm&Hf&_)]; [done|]. exfalso.
      assert (live = false) as Hfalse.
      { unfold live, live_session. by rewrite Hpf, Hf, Hpm, Hm. }
      destruct Hlive as [?|Hx]; [congruence|]. destruct (Hexit Hx) as (e' & ? & ?). congruence.
    + exfalso. assert (live = false) as Hfalse.
      { unfold live, live_session. by rewrite Hpf, Hpm. }
      destruct Hlive as [?|Hx]; [congruence|]. by destruct (Hexit Hx) as (e' & ? & ?).
  - destruct (refresh_hint _ _ _ _) as [reg2 evs2] eqn:Hrh. simplify_eq.
    by eapply refresh_hint_coherent.
Qed.

Lemma coherent_initial reg id e :
  reg !! id = Some e -> coherent id (agent_state e) (reg, []).
Proof. intros Hr. split; [done|]. simpl. intros e'. rewrite Hr. intros [= <-]. by left. Qed.

Lemma legal_chain_exited from l1 code l2 :
  legal_chain from (l1 ++ Exited code :: l2) -> l2 = [].
Proof.
  intros H%legal_chain_app. destruct H as [_ [_ H]].
  destruct l2 as [|s l2]; [done|]. destruct H as [(_ & Hx & _) _]. done.
Qed.

(** ** Theorems *)

(** C4: for every history of a terminal -- hooks, PTY readings, user flips,
    sweeps and the teardown interleaved with arbitrary other lock holders, and
    any outcome of the persists -- the states delivered on the bus form a chain
    of legal lifecycle edges from the state the terminal was registered with,
    and while the terminal is still registered its cache equals the last state
    delivered: cache order and bus order never diverge. *)
Theorem bus_delivers_the_cached_chain id reg0 e0 reg evs :
  reg0 !! id = Some e0 ->
  run id (reg0, []) (reg, evs) ->
  legal_chain (agent_state e0) (states_of id evs)
  /\ forall e, reg !! id = Some e -> is_Some (meta e) ->
       agent_state e = final_state (agent_state e0) (states_of id evs).
Proof.
  intros Hr Hrun.
  destruct (run_coherent _ _ _ _ Hrun (coherent_initial _ _ _ Hr)) as [Hc Hl].
  split; [done|]. intros e He [m Hm]. destruct (Hl e He) as [|(Hn&_)]; [done|congruence].
Qed.

Definition witness_entry : TerminalEntry :=
  mkEntry (Some "b"%string) (Some Working) (Some 7) (Some "k"%string) None None false.

Definition witness_transition : Transition := mkTransition 1 7 "k"%string SHook.

(** A one-transaction history: a [Stop] hook moves the terminal to [Done]. *)
Lemma witness_run :
  run 1 ({[1 := witness_entry]}, [])
    ({[1 := set_agent_state (Some Done) witness_entry]}, [EvAgentState "k"%string 1 Done]).
Proof.
  change [EvAgentState "k"%string 1 Done] with ([] ++ [EvAgentState "k"%string 1 Done]).
  eapply (run_txn 1 _ _ _ _ (direct_fold SHook (fun _ => Some Done)) witness_transition
    id true id None); [apply run_refl | done | apply (caller_direct SHook (fun _ => Some Done))
    | done | done | intros r; apply rtc_refl |].
  vm_compute. reflexivity.
Qed.

Lemma bus_delivers_the_cached_chain_witness :
  legal_chain (Some Working) [Done]
  /\ agent_state (set_agent_state (Some Done) witness_entry) = Some Done.
Proof.
  destruct (bus_delivers_the_cached_chain 1 {[1 := witness_entry]} witness_entry
    {[1 := set_agent_state (Some Done) witness_entry]} [EvAgentState "k"%string 1 Done]
    (lookup_singleton_eq _ _) witness_run) as [Hc Hl].
  split; [exact Hc|]. apply (Hl _ (lookup_singleton_eq _ _)). by eexists.
Defined.

(** a delivered [Exited] is the last lifecycle event of its terminal: no
    late hook, reading, flip or sweep is ever delivered after it. *)
Theorem exited_is_delivered_last id reg0 e0 reg evs l1 code l2 :
  reg0 !! id = Some e0 ->
  run id (reg0, []) (reg, evs) ->
  states_of id evs = l1 ++ Exited code :: l2 ->
  l2 = [].
Proof.
  intros Hr Hrun Hs.
  destruct (run_coherent _ _ _ _ Hrun (coherent_initial _ _ _ Hr)) as [Hc _].
  simpl in Hc. rewrite Hs in Hc. by eapply legal_chain_exited.
Qed.

Definition finishing_entry : TerminalEntry := set_finishing true witness_entry.
Definition exit_transition : Transition := mkTransition 1 7 "k"%string SExit.

Lemma witness_exit_run :
  run 1 ({[1 := finishing_entry]}, [])
    ({[1 := set_agent_state (Some (Exited (Some 0))) finishing_entry]},
     [EvAgentState "k"%string 1 (Exited (Some 0))]).
Proof.
  change [EvAgentState "k"%string 1 (Exited (Some 0))]
    with ([] ++ [EvAgentState "k"%string 1 (Exited (Some 0))]).
  eapply (run_txn 1 _ _ _ _ (direct_fold SExit (fun _ => Some (Exited (Some 0)))) exit_transition
    id true id None); [apply run_refl | done
    | apply (caller_direct SExit (fun _ => Some (Exited (Some 0)))) | done
    | intros _; exists finishing_entry; done | intros r; apply rtc_refl |].
  vm_compute. reflexivity.
Qed.

Lemma exited_is_delivered_last_witness : @nil AgentState = [].
Proof.
  apply (exited_is_delivered_last 1 {[1 := finishing_entry]} finishing_entry _ _ []
    (Some 0) [] (lookup_singleton_eq _ _) witness_exit_run).
  reflexivity.
Defined.

(** once a teardown is claimed, only the teardown's own [Exited] can be
    committed: every other source, PTY or direct, whatever it folds, leaves the
    cached state alone and delivers no lifecycle event; and a second claim is
    refused. *)
Theorem claimed_terminal_only_exits {R} reg e expected tr prep
    (fold : _ -> _ -> R * option AgentState) persisted hint reg1 claim reg' evs res :
  reg !! t_id tr = Some e -> backend_key e = Some expected -> finishing e = false ->
  claim_teardown (t_id tr) expected reg = (reg1, claim) ->
  t_source tr <> SExit ->
  caller_fold (t_source tr) (fun previous live => snd (fold previous live)) ->
  (forall e, agent_state (prep e) = agent_state e /\ finishing (prep e) = finishing e
             /\ meta (prep e) = meta e) ->
  fold_and_broadcast_agent_state reg1 tr prep fold persisted (fun r => r) hint = (reg', evs, res) ->
  claim = Claimed (meta e) (agent_state_generation e)
  /\ snd (claim_teardown (t_id tr) expected reg1) = ClaimAbsent
  /\ fold_committed res = false /\ states_of (t_id tr) evs = []
  /\ agent_state <$> reg' !! t_id tr = Some (agent_state e).
Proof.
  intros Hr Hb Hf Hclaim Hsrc Hcf Hprep Hfb.
  unfold claim_teardown in Hclaim. rewrite Hr, Hb, Hf in Hclaim. simpl in Hclaim.
  rewrite bool_decide_eq_true_2 in Hclaim by done. simpl in Hclaim.
  injection Hclaim as <- <-. split; [done|]. split.
  { unfold claim_teardown. rewrite lookup_insert_eq. simpl. rewrite Hb.
    by rewrite bool_decide_eq_true_2 by done. }
  unfold fold_and_broadcast_agent_state, fold_phase, entry_or_default in Hfb.
  rewrite lookup_insert_eq in Hfb. simpl in Hfb.
  clear Hf. destruct (Hprep (set_finishing true e)) as (Hpa & Hpf & _). simpl in Hpa, Hpf.
  unfold live_session in Hfb. rewrite Hpf in Hfb. simpl in Hfb.
  destruct (fold _ false) as [result committed0] eqn:Hfold.
  destruct (recovery_hold _ _ _ _) as [e1 committed] eqn:Hhold.
  apply recovery_hold_frame in Hhold as (Ha & _ & _ & Hcm).
  destruct committed as [state|].
  - assert (committed0 = Some state) as -> by naive_solver.
    destruct (caller_fold_legal _ _ (agent_state (prep (set_finishing true e))) false state Hcf)
      as [[?|?] _]; [by rewrite Hfold|done|done].
  - unfold refresh_hint in Hfb. rewrite lookup_insert_eq in Hfb.
    destruct (broadcast_usage_limit_hint e1 _ _) as [e2 evs2] eqn:Hbc.
    apply broadcast_hint_frame in Hbc as (Hb1 & _ & _ & Hs).
    destruct (limit_parked _); [destruct (is_none_or _ _)|];
      simplify_eq/=; (split_and!; [done|done|]);
      rewrite ?insert_insert_eq, lookup_insert_eq; simpl; congruence.
Qed.

Lemma claimed_terminal_only_exits_witness :
  let out := claim_teardown 1 "b" {[1 := witness_entry]} in
  let res := fold_and_broadcast_agent_state (fst out) witness_transition id
    (direct_fold SHook (fun _ => Some Done)) true (fun r => r) None in
  snd out = Claimed (Some "k"%string) (Some 7)
  /\ snd (claim_teardown 1 "b" (fst out)) = ClaimAbsent
  /\ fold_committed (snd res) = false /\ states_of 1 (snd (fst res)) = []
  /\ agent_state <$> fst (fst res) !! 1 = Some (Some Working).
Proof.
  intros out res.
  apply (claimed_terminal_only_exits {[1 := witness_entry]} witness_entry "b" witness_transition id
    (direct_fold SHook (fun _ => Some Done)) true None (fst out) (snd out) _ _ (snd res));
    try reflexivity; [discriminate|apply (caller_direct SHook (fun _ => Some Done))|].
  intros e. split_and!; reflexivity.
Defined.

#[local] Arguments transition : simpl never.

(** the credit-recovery hold.  While a recovery transaction is live on a
    terminal parked at [CreditExhausted], a transition from any other source
    that would leave the block commits nothing and delivers nothing, and a
    [Working] candidate is recorded as recovery evidence; with no transaction
    live the same transition is committed. *)
Theorem credit_recovery_holds_the_block reg tr e g state evidence :
  reg !! t_id tr = Some e ->
  agent_state e = Some CreditExhausted ->
  finishing e = false -> is_Some (meta e) ->
  agent_state_generation e = Some g -> t_generation tr = g ->
  credit_recovery e = evidence ->
  t_source tr <> SRecovery ->
  state <> CreditExhausted -> is_exited state = false ->
  let '(reg', evs, res) := fold_and_broadcast_agent_state reg tr id
      (direct_fold (t_source tr) (fun _ => Some state)) true id None in
  match evidence with
  | Some n =>
      fold_committed res = false /\ states_of (t_id tr) evs = []
      /\ credit_recovery <$> reg' !! t_id tr
         = Some (Some (if bool_decide (state = Working) then n + 1 else n))
  | None => fold_committed res = true /\ states_of (t_id tr) evs = [state]
  end.
Proof.
  intros Hr Ha Hf [m Hm] Hg Htg <- Hsrc Hs Hx.
  unfold fold_and_broadcast_agent_state, fold_phase, entry_or_default. rewrite Hr. simpl.
  unfold live_session. rewrite Hf, Hm, Ha, (bool_decide_eq_true_2 (is_Some _)) by done.
  assert (transition (Some CreditExhausted) state = Some state) as Ht.
  { apply transition_Some. unfold edge_is_legal. naive_solver. }
  unfold direct_fold, recovery_hold. simpl. rewrite Ht. simpl. rewrite Hx.
  rewrite (bool_decide_eq_false_2 (state = _)), (bool_decide_eq_false_2 (t_source tr = _)) by done. simpl.
  destruct (credit_recovery e) as [n|] eqn:Hc; simpl.
  - rewrite lookup_insert_eq. unfold states_of. simpl. split_and!; [done..|].
    case_bool_decide; simpl; congruence.
  - unfold commit_phase. simpl. rewrite lookup_insert_eq, Hg. simpl. rewrite Htg, Z.eqb_refl. simpl.
    destruct (broadcast_usage_limit_hint _ _ _) as [e' evs'] eqn:Hb.
    apply broadcast_hint_frame in Hb as (_ & _ & _ & Hs').
    split; [done|]. rewrite states_of_cons, Hs'. simpl. by rewrite Z.eqb_refl.
Qed.

Lemma credit_recovery_holds_the_block_witness :
  let e := set_recovery (Some 0) (set_agent_state (Some CreditExhausted) witness_entry) in
  let '(reg', evs, res) := fold_and_broadcast_agent_state {[1 := e]} witness_transition id
      (direct_fold SHook (fun _ => Some Working)) true id None in
  fold_committed res = false /\ states_of 1 evs = [] /\ credit_recovery <$> reg' !! 1 = Some (Some 1).
Proof.
  intros e.
  apply (credit_recovery_holds_the_block {[1 := e]} witness_transition e 7 Working (Some 0));
    try reflexivity; try discriminate. by eexists.
Defined.
