(* ===== verification/AutoWait.v ===== *)
(** * Waiting out a usage limit

    The watcher that accepts the "wait" of an agent whose usage limit is reached and asks it
    to go on once the limit is over ([src/crates/server/src/auto_wait.rs]).

    It follows the event bus; per event, whether the policy is on, whether the agent of a
    terminal has such a prompt, and whether a terminal is in its sign-in detour are
    arguments.  A bus that lags loses events: what the watcher is given is what it receives. *)

From S2P Require Import Prelude StateMachine.


(** What the watcher reads of the bus. *)
Inductive BusEvent :=
  | BAgentState (terminal_id : Z) (state : AgentState)
  | BTerminalReplaced (old_terminal_id terminal_id : Z)
  | BTerminalExited (terminal_id : Z)
  | BOther.

(** What it finds when it handles an event. *)
Record Found := mkFound { enabled : bool; supports_wait : bool; auth_pending : bool }.

Inductive Action := PressWait (terminal_id : Z) | ResumeWork (terminal_id : Z).

Definition wants_resume_nudge (s : AgentState) : bool := match s with Idle | Done => true | _ => false end.

Definition handle_event (pending_resume : gset Z) (found : Found) (ev : BusEvent) : gset Z * list Action :=
  match ev with
  | BAgentState t LimitReached =>
      if enabled found && supports_wait found then ({[t]} ∪ pending_resume, [PressWait t]) else (pending_resume, [])
  | BAgentState _ AwaitingReset => (pending_resume, [])
  | BAgentState t s =>
      if negb (bool_decide (t ∈ pending_resume)) then (pending_resume, [])
      else if auth_pending found then (pending_resume, [])
      else if wants_resume_nudge s then (pending_resume ∖ {[t]}, if enabled found then [ResumeWork t] else [])
      else match s with
           | Working | Exited _ => (pending_resume ∖ {[t]}, [])
           | _ => (pending_resume, [])
           end
  | BTerminalReplaced old new =>
      if bool_decide (old ∈ pending_resume) then ({[new]} ∪ pending_resume ∖ {[old]}, []) else (pending_resume, [])
  | BTerminalExited t => (pending_resume ∖ {[t]}, [])
  | BOther => (pending_resume, [])
  end.

Definition History : Type := list (Found * BusEvent).

Definition run (h : History) : gset Z := fold_left (fun p '(found, ev) => (handle_event p found ev).1) h ∅.

(** ** The terminals that wait *)

(** Which terminal a wait is on behind an event; [None]: it is over. *)
Definition carry (t : Z) (found : Found) (ev : BusEvent) : option Z :=
  match ev with
  | BTerminalReplaced old new => if decide (t = old) then Some new else Some t
  | BTerminalExited u => if decide (t = u) then None else Some t
  | BAgentState u s =>
      if decide (t = u) then
        match s with
        | LimitReached | AwaitingReset => Some t
        | Idle | Done | Working | Exited _ => if auth_pending found then Some t else None
        | _ => Some t
        end
      else Some t
  | BOther => Some t
  end.

Fixpoint carried (t : Z) (h : History) : option Z :=
  match h with [] => Some t | (found, ev) :: h => carry t found ev ≫= fun t => carried t h end.

Definition pressed (found : Found) (ev : BusEvent) (t : Z) : Prop :=
  ev = BAgentState t LimitReached /\ enabled found = true /\ supports_wait found = true.

(** Some wait that was accepted is on [t] now. *)
Definition parked (h : History) (t : Z) : Prop :=
  exists before found ev after t0, h = before ++ (found, ev) :: after /\ pressed found ev t0 /\ carried t0 after = Some t.

Lemma carried_snoc t h found ev : carried t (h ++ [(found, ev)]) = carried t h ≫= fun u => carry u found ev.
Proof.
  revert t. induction h as [|[f e] h IH]; intros t; cbn; [by destruct (carry t found ev)|]. destruct (carry t f e); cbn; [apply IH|done].
Qed.

Lemma parked_snoc h found ev t :
  parked (h ++ [(found, ev)]) t <-> pressed found ev t \/ exists u, parked h u /\ carry u found ev = Some t.
Proof.
  split.
  - intros (before & f & e & after & t0 & Hh & Hp & Hc). destruct after as [|x after _] using rev_ind.
    + apply app_inj_tail in Hh as [-> [= -> ->]]. cbn in Hc. injection Hc as ->. by left.
    + rewrite app_comm_cons, app_assoc in Hh. apply app_inj_tail in Hh as [-> <-]. rewrite carried_snoc in Hc.
      destruct (carried t0 after) as [u|] eqn:E; [|done]. right. exists u. split; [|done]. by exists before, f, e, after, t0.
  - intros [Hp|(u & (before & f & e & after & t0 & -> & Hp & Hc) & Hu)].
    + by exists h, found, ev, [], t.
    + exists before, f, e, (after ++ [(found, ev)]), t0. split; [by rewrite <- app_assoc|]. split; [done|]. by rewrite carried_snoc, Hc.
Qed.

(** One event moves the waits as [carry] says, and adds the one it accepts. *)
Lemma handle_spec p found ev t :
  t ∈ (handle_event p found ev).1 <-> pressed found ev t \/ exists u, u ∈ p /\ carry u found ev = Some t.
Proof.
  destruct ev as [u s|old new|u|]; unfold pressed; cbn [carry].
  - transitivity ((s = LimitReached /\ u = t /\ enabled found = true /\ supports_wait found = true)
      \/ (t ∈ p /\ (t = u -> carry u found (BAgentState u s) = Some u))).
    2:{ split; [intros [(-> & -> & ? & ?)|[Hp Hc]]|intros [(H & ? & ?)|(v & Hv & Hc)]].
        - by left.
        - right. exists t. split; [done|]. destruct (decide (t = u)) as [->|]; [|done]. specialize (Hc eq_refl). cbn in Hc. by rewrite decide_True in Hc.
        - injection H as -> ->. by left.
        - right. destruct (decide (v = u)) as [->|Hne]; [|injection Hc as ->; split; [done|congruence]].
          assert (u = t) as <- by (destruct s; repeat case_match; congruence). split; [done|]. intros _. cbn. by rewrite decide_True. }
    cbn [carry]. rewrite decide_True by done.
    assert (t ∈ {[u]} ∪ p <-> t = u \/ t ∈ p) as Hin by set_solver. assert (t ∈ p ∖ {[u]} <-> t ∈ p /\ t <> u) as Hout by set_solver.
    destruct (decide (u ∈ p)) as [Hu|Hu]; cbn [handle_event]; [rewrite (bool_decide_eq_true_2 (u ∈ p)) by done|rewrite (bool_decide_eq_false_2 (u ∈ p)) by done].
    + destruct s, (auth_pending found), (enabled found), (supports_wait found); cbn; rewrite ?Hin, ?Hout; clear Hin Hout; intuition congruence.
    + destruct s, (auth_pending found), (enabled found), (supports_wait found); cbn; rewrite ?Hin, ?Hout; clear Hin Hout; intuition congruence.
  - cbn. case_bool_decide as Ho; cbn.
    + rewrite elem_of_union, elem_of_difference, !elem_of_singleton. split; [intros [->|[Ht Hne]]|intros [[? _]|(u & Hu & Hc)]]; [|..].
      * right. exists old. by rewrite decide_True.
      * right. exists t. by rewrite decide_False.
      * done.
      * case_decide as He; injection Hc as ->; [by left|by right].
    + split; [intros Ht|intros [[? _]|(u & Hu & Hc)]].
      * right. exists t. rewrite decide_False by congruence. done.
      * done.
      * rewrite decide_False in Hc by congruence. by injection Hc as ->.
  - cbn. rewrite elem_of_difference, elem_of_singleton. split; [intros [Ht Hne]|intros [[? _]|(v & Hv & Hc)]].
    + right. exists t. by rewrite decide_False.
    + done.
    + case_decide as He; [done|]. by injection Hc as ->.
  - cbn. split; [intros Ht; right; by exists t|]. intros [[? _]|(u & Hu & Hc)]; [done|by injection Hc as ->].
Qed.

Lemma run_parked h t : t ∈ run h <-> parked h t.
Proof.
  revert t. induction h as [|[found ev] h IH] using rev_ind; intros t.
  { split; [set_solver|]. intros (before & f & e & after & t0 & Hh & _). by destruct before. }
  unfold run. rewrite fold_left_app. cbn. fold (run h). rewrite handle_spec, parked_snoc. by setoid_rewrite IH.
Qed.

(** ** What the watcher does *)

(** C31: The watcher presses "wait" exactly where a limit is reached by an agent that has the
    prompt, with the policy on; and it asks an agent to go on exactly where one rests, signed in,
    on a terminal with a wait it accepted, followed through every replacement, that was
    not over: the agent neither came to rest, went on by itself nor exited.  A wait is never
    answered twice: behind the request there is none on the terminal. *)
Theorem a_nudge_answers_a_wait h found ev :
  let actions := (handle_event (run h) found ev).2 in
  (forall t, PressWait t ∈ actions <-> pressed found ev t)
  /\ (forall t, ResumeWork t ∈ actions <->
       exists s, ev = BAgentState t s /\ wants_resume_nudge s = true /\ enabled found = true /\ auth_pending found = false /\ parked h t)
  /\ (forall t, ResumeWork t ∈ actions -> ~ parked (h ++ [(found, ev)]) t).
Proof.
  cbv zeta. setoid_rewrite <- run_parked. set (p := run h).
  assert (forall t, ResumeWork t ∈ (handle_event p found ev).2 <->
    exists s, ev = BAgentState t s /\ wants_resume_nudge s = true /\ enabled found = true /\ auth_pending found = false /\ t ∈ p) as Hres.
  { intros t. destruct ev as [u s|old new|u|]; cbn [handle_event]; [|by case_bool_decide; cbn; set_solver|set_solver..].
    destruct (decide (u ∈ p)) as [Hu|Hu]; [rewrite (bool_decide_eq_true_2 (u ∈ p)) by done|rewrite (bool_decide_eq_false_2 (u ∈ p)) by done];
      destruct s, (auth_pending found), (enabled found), (supports_wait found); cbn; rewrite ?list_elem_of_singleton, ?elem_of_nil; naive_solver. }
  split; [|split; [exact Hres|]].
  - intros t. unfold pressed. destruct ev as [u s|old new|u|]; cbn [handle_event]; [|by case_bool_decide; cbn; set_solver|set_solver..].
    destruct (bool_decide (u ∈ p)), s, (auth_pending found), (enabled found), (supports_wait found); cbn; rewrite ?list_elem_of_singleton, ?elem_of_nil; clear; intuition congruence.
  - intros t (s & -> & Hs & He & Ha & Ht)%Hres. unfold run. rewrite fold_left_app. cbn [fold_left]. fold (run h). fold p. rewrite handle_spec.
    intros [(Hl & _)|(u & Hu & Hc)]; [injection Hl as ->; done|]. cbn [carry] in Hc.
    destruct (decide (u = t)) as [Hut|Hut]; [|injection Hc as ->; done]. rewrite Ha in Hc. by destruct s.
Qed.

(** ** An agent that waits *)

(** An agent whose wait was accepted, and which the lifecycle so shows as waiting for its
    reset, is asked to go on when its screen rests: no reading of the limit's banner
    or of a finished turn moves its state, only a clear one does, and the first of
    a resting prompt is committed as such, published, and answered. *)
Theorem a_rest_after_the_limit_is_answered h t m r found :
  parked h t -> enabled found = true -> auth_pending found = false ->
  (r_state r = LimitReached \/ r_state r = Done -> forall s, (AgentStateMachine.on_reading m (Some AwaitingReset) r).2 <> Committed s)
  /\ (forall s, (AgentStateMachine.on_reading m (Some AwaitingReset) r).2 = Committed s -> r_clear r = true /\ s = r_state r)
  /\ (r_state r = Idle -> r_clear r = true ->
       (AgentStateMachine.on_reading m (Some AwaitingReset) r).2 = Committed Idle
       /\ (handle_event (run h) found (BAgentState t Idle)).2 = [ResumeWork t]).
Proof.
  intros Hp He Ha. assert (AgentStateMachine.settle (Some AwaitingReset) r = r) as Hset by by apply settle_other. split; [|split].
  - intros Hr s Hc. destruct (AgentStateMachine.on_reading m (Some AwaitingReset) r) as [m' o] eqn:E. cbn in Hc. subst o. destruct Hr as [Hr|Hr].
    + unfold AgentStateMachine.on_reading in E. rewrite Hr in E. destruct (r_clear r), m; vm_compute in E; congruence.
    + apply on_reading_commit in E as [(H & _)|(Ht & HD & _)]; [done|]. rewrite Hset in HD. by specialize (HD Hr).
  - intros s Hc. destruct (AgentStateMachine.on_reading m (Some AwaitingReset) r) as [m' o] eqn:E. cbn in Hc. subst o.
    split; [by eapply on_reading_blocked|]. apply on_reading_commit in E as [(H & _)|(Ht & _)]; [done|]. rewrite Hset in Ht.
    by apply transition_Some in Ht as [-> _].
  - intros Hr Hcl. split.
    + destruct r, m. cbn in Hr, Hcl. subst. by vm_compute.
    + apply run_parked in Hp. cbn [handle_event wants_resume_nudge]. by rewrite bool_decide_eq_true_2, Ha, He by done.
Qed.

(** ** A wait through a sign-in *)

Definition on_ : Found := mkFound true true false.
Definition signing_in : Found := mkFound true true true.

(** The agent waits, is signed out, and goes on in another terminal. *)
Definition signed_out : History :=
  [(on_, BAgentState 1 LimitReached); (on_, BAgentState 1 AwaitingReset); (signing_in, BAgentState 1 Idle); (on_, BTerminalReplaced 1 2)].

Lemma signed_out_parked : parked signed_out 2.
Proof. apply run_parked. by vm_compute. Qed.

Lemma a_nudge_answers_a_wait_witness :
  ResumeWork 2 ∈ (handle_event (run signed_out) on_ (BAgentState 2 Idle)).2
  /\ ~ parked (signed_out ++ [(on_, BAgentState 2 Idle)]) 2.
Proof.
  destruct (a_nudge_answers_a_wait signed_out on_ (BAgentState 2 Idle)) as (_ & Hres & Hover).
  assert (ResumeWork 2 ∈ (handle_event (run signed_out) on_ (BAgentState 2 Idle)).2) as Hin.
  { apply Hres. exists Idle. repeat split. exact signed_out_parked. }
  split; [exact Hin|by apply Hover].
Defined.

Lemma a_rest_after_the_limit_is_answered_witness :
  (AgentStateMachine.on_reading AgentStateMachine.new (Some AwaitingReset) (mkReading Idle true false)).2 = Committed Idle
  /\ (handle_event (run signed_out) on_ (BAgentState 2 Idle)).2 = [ResumeWork 2].
Proof.
  destruct (a_rest_after_the_limit_is_answered signed_out 2 AgentStateMachine.new (mkReading Idle true false) on_) as (_ & _ & H);
    [exact signed_out_parked|reflexivity|reflexivity|]. by apply H.
Defined.

