(* ===== verification/ReplayRing.v ===== *)
(** * The replay ring of a terminal

    [src/crates/server/src/pty.rs], what of it is not a process: the circular buffer
    that keeps the newest output of a terminal, the log of the sizes it was produced
    at, the snapshot a client rebuilds its grid from, the delta a transfer pulls, and
    the file that carries the scrollback over a restart.

    Bytes are [ascii]; lengths and indices into the storage are [nat] (the code's
    [usize]), offsets into the stream are [Z] (its [u64], which never gets near its
    end).  Slicing out of range is [None], as is a capacity the constructor refuses.
    Sizes are [(cols, rows)].  The operations on the file return what the disk answers
    as arguments; log lines are left out. *)

From Stdlib Require Import Ascii.
From S2P Require Import Prelude.

#[local] Open Scope nat_scope.

#[local] Notation bytes := (list ascii).

(** ** Slices *)

(** [s[a..b]] *)
Definition slice {A} (a b : nat) (s : list A) : option (list A) :=
  if (a <=? b) && (b <=? length s) then Some (firstn (b - a) (skipn a s)) else None.

(** [s[at..at + new.len()].copy_from_slice(new)] *)
Definition copy_at {A} (at_ : nat) (new s : list A) : option (list A) :=
  if at_ + length new <=? length s
  then Some (firstn at_ s ++ new ++ skipn (at_ + length new) s) else None.

(** [s.iter().position(|b| p(b))] *)
Fixpoint position {A} (p : A -> bool) (s : list A) : option nat :=
  match s with
  | [] => None
  | x :: s => if p x then Some O else Nat.succ <$> position p s
  end.

Definition newline : ascii := "010".
Definition is_newline (b : ascii) : bool := Ascii.eqb b newline.

(** ** The ring *)

Definition MAX_RING_SIZE : Z := 104857600.
Definition SIZE_LOG_CAP : nat := 1024.

Record ReplaySizeSpan := mkSpan { at_ : Z; cols : Z; rows : Z }.

Record ReplayRing := mkRing {
  buf : bytes;
  cap : nat;
  head : nat;
  total_written : Z;
  sizes : list (Z * (Z * Z));
}.

Definition with_capacity (c : nat) : option ReplayRing :=
  if (0 <? c) && (Z.of_nat c <=? MAX_RING_SIZE)%Z then Some (mkRing [] c 0 0%Z []) else None.

(** The size of the bytes pushed next; [(0, 0)] is unknown. *)
Definition size (r : ReplayRing) : Z * Z :=
  match last (sizes r) with Some (_, s) => s | None => (0, 0)%Z end.

Definition oldest_offset (r : ReplayRing) : Z := (total_written r - Z.of_nat (length (buf r)))%Z.
Definition is_complete (r : ReplayRing) : bool := (total_written r =? Z.of_nat (length (buf r)))%Z.

Definition set_sizes (l : list (Z * (Z * Z))) (r : ReplayRing) : ReplayRing :=
  mkRing (buf r) (cap r) (head r) (total_written r) l.

(** Replace the last entry when it is of this offset, append one otherwise. *)
Definition log_size (at_ : Z) (s : Z * Z) (l : list (Z * (Z * Z))) : list (Z * (Z * Z)) :=
  match last l with
  | Some (o, _) => if (o =? at_)%Z then removelast l ++ [(at_, s)] else l ++ [(at_, s)]
  | None => l ++ [(at_, s)]
  end.

(** [while sizes.len() > SIZE_LOG_CAP { sizes.remove(1) }] *)
Fixpoint fold_to_cap (surplus : nat) (l : list (Z * (Z * Z))) : list (Z * (Z * Z)) :=
  match surplus, l with
  | S n, x :: _ :: l => fold_to_cap n (x :: l)
  | _, _ => l
  end.

Definition note_size (s : Z * Z) (r : ReplayRing) : ReplayRing :=
  if decide (size r = s) then r
  else
    let l := log_size (total_written r) s (sizes r) in
    set_sizes (fold_to_cap (length l - SIZE_LOG_CAP) l) r.

(** The size in effect at an offset: the latest entry at or before it. *)
Definition size_at (o : Z) (l : list (Z * (Z * Z))) : Z * Z :=
  match List.find (fun e => (e.1 <=? o)%Z) (rev l) with Some e => e.2 | None => (0, 0)%Z end.

(** [while sizes.len() >= 2 && sizes[1].0 <= oldest { sizes.pop_front() }] *)
Fixpoint fold_evicted (oldest : Z) (l : list (Z * (Z * Z))) : list (Z * (Z * Z)) :=
  match l with
  | _ :: (((o, _) :: _) as l') => if (o <=? oldest)%Z then fold_evicted oldest l' else l
  | _ => l
  end.

Definition fold_evicted_sizes (r : ReplayRing) : ReplayRing :=
  set_sizes (fold_evicted (oldest_offset r) (sizes r)) r.

(** The overwrite phase: the storage [b] is full, the new bytes replace the oldest ones
    and wrap at most once. *)
Definition overwrite (total : Z) (bs b : bytes) (r : ReplayRing) : option ReplayRing :=
  let n := length bs in
  let first := Nat.min (cap r - head r) n in
  front ← slice 0 first bs;
  b ← copy_at (head r) front b;
  b ← (if first <? n then back ← slice first n bs; copy_at 0 back b else Some b);
  Some (mkRing b (cap r) ((head r + n) mod cap r) total (sizes r)).

Definition push_bytes (bs : bytes) (r : ReplayRing) : option ReplayRing :=
  let total := (total_written r + Z.of_nat (length bs))%Z in
  if cap r <=? length bs then
    b ← slice (length bs - cap r) (length bs) bs;
    Some (mkRing b (cap r) 0 total (sizes r))
  else if length (buf r) <? cap r then
    let take := Nat.min (cap r - length (buf r)) (length bs) in
    front ← slice 0 take bs;
    rest ← slice take (length bs) bs;
    match rest with
    | [] => Some (mkRing (buf r ++ front) (cap r) (head r) total (sizes r))
    | _ => overwrite total rest (buf r ++ front) r
    end
  else overwrite total bs (buf r) r.

Definition push (bs : bytes) (r : ReplayRing) : option ReplayRing := fold_evicted_sizes <$> push_bytes bs r.

(** The two halves of the storage, oldest byte first. *)
Definition snapshot (r : ReplayRing) : bytes := skipn (head r) (buf r) ++ firstn (head r) (buf r).

(** The snapshot a grid is rebuilt from, behind the [prefix] the caller assembled, and
    the sizes of the whole. *)
Definition replay_snapshot_into (prefix : bytes) (r : ReplayRing) : bytes * list ReplaySizeSpan :=
  let s := snapshot r in
  let dropped := if is_complete r then O else match position is_newline s with Some rel => S rel | None => O end in
  let first_offset := (oldest_offset r + Z.of_nat dropped)%Z in
  let '(c, w) := size_at first_offset (sizes r) in
  (prefix ++ skipn dropped s,
   mkSpan 0 c w
   :: map (fun e => mkSpan (Z.of_nat (length prefix) + (e.1 - first_offset)) e.2.1 e.2.2)
        (List.filter (fun e => (first_offset <? e.1)%Z) (sizes r))).

(** The retained bytes from an offset on, and whether the offset is still retained. *)
Definition read_since (from : Z) (r : ReplayRing) : bytes * bool :=
  let oldest := oldest_offset r in
  let skip := Z.to_nat (clamp oldest (total_written r) from - oldest) in
  let front := skipn (head r) (buf r) in
  let back := firstn (head r) (buf r) in
  (if skip <? length front then skipn skip front ++ back else skipn (skip - length front) back,
   (oldest <=? from)%Z).

(** ** The terminal around it *)

Record ReplaySnapshot := mkSnapshot {
  replay : bytes;
  last_seq : Z;
  complete : bool;
  snapshot_sizes : list ReplaySizeSpan;
}.

Record OutputChunk := mkChunk { seq : Z; chunk_bytes : bytes; chunk_size : Z * Z }.

Record OutputDelta := mkDelta { from_offset : Z; to_offset : Z; delta_bytes : bytes }.

(** A terminal: its ring, the seed that stands before it, the last sequence number. *)
Record DaemonPty := mkPty { ring : ReplayRing; seed : bytes; pty_seq : Z }.

(** [spawn_inner]: the seed counts as the first chunk. *)
Definition spawn_inner (capacity : nat) (initial : bytes) (s : Z * Z) : option DaemonPty :=
  r ← with_capacity capacity;
  Some (mkPty (note_size s r) initial (match initial with [] => 0 | _ => 1 end)%Z).

(** One turn of the reader thread, under the lock of the ring. *)
Definition read_chunk (bs : bytes) (p : DaemonPty) : option (DaemonPty * OutputChunk) :=
  r ← push bs (ring p);
  let n := (pty_seq p + 1)%Z in
  Some (mkPty r (seed p) n, mkChunk n bs (size r)).

(** A resize announces itself as an empty chunk. *)
Definition resize (s : Z * Z) (p : DaemonPty) : DaemonPty * OutputChunk :=
  let n := (pty_seq p + 1)%Z in
  (mkPty (note_size s (ring p)) (seed p) n, mkChunk n [] s).

Definition snapshot_locked (p : DaemonPty) : ReplaySnapshot :=
  let '(replay, spans) := replay_snapshot_into (seed p) (ring p) in
  mkSnapshot replay (pty_seq p) (is_complete (ring p)) spans.

Definition pty_read_since (from : Z) (p : DaemonPty) : option OutputDelta :=
  let '(bs, covers) := read_since from (ring p) in
  if covers then Some (mkDelta (Z.min from (total_written (ring p))) (total_written (ring p)) bs) else None.

(** ** The scrollback file *)

Definition SCROLLBACK_PERSIST_BYTES : nat := Z.to_nat 2097152.
Definition SCROLLBACK_COMPACT_BYTES : Z := 2097152 * 2.

(** The last [max] bytes of a file, from the first line that starts in them. *)
Definition read_scrollback_tail (file : bytes) (max : nat) : bytes :=
  let start := length file - max in
  let tail := skipn start file in
  if 0 <? start then match position is_newline tail with Some nl => skipn (S nl) tail | None => tail end
  else tail.

(** The log: what its path holds, whether its handle still writes there, its count. *)
Record ScrollbackLog := mkLog { on_disk : bytes; attached : bool; log_len : Z }.

(** What the disk answers: to the write, and in a compaction to reading the file back,
    to the write of the copy, the rename and the open. *)
Record Disk := mkDisk { wrote : bool; readable : bool; tmp_written : bool; renamed : bool; reopened : bool }.

(** A file that cannot be read is taken for an empty one. *)
Definition compact (d : Disk) (l : ScrollbackLog) : ScrollbackLog :=
  let tail := if readable d
              then read_scrollback_tail (on_disk l) SCROLLBACK_PERSIST_BYTES else [] in
  if tmp_written d && renamed d then
    if reopened d then mkLog tail true (Z.of_nat (length tail)) else mkLog tail false (log_len l)
  else l.

Definition append (d : Disk) (bs : bytes) (l : ScrollbackLog) : ScrollbackLog :=
  if wrote d then
    let l := mkLog (if attached l then on_disk l ++ bs else on_disk l) (attached l)
               (log_len l + Z.of_nat (length bs)) in
    if (SCROLLBACK_COMPACT_BYTES <? log_len l)%Z then compact d l else l
  else l.

(** ** Blank rows at the end of a seed *)

Definition escape : ascii := "027".
Definition bell : ascii := "007".

Definition is_ascii_whitespace (b : ascii) : bool :=
  let n := nat_of_ascii b in
  (n =? 9) || (n =? 10) || (n =? 12) || (n =? 13) || (n =? 32).

(** The rest behind a CSI sequence: up to its final byte. *)
Fixpoint skip_csi (s : bytes) : bytes :=
  match s with
  | [] => []
  | b :: s => let n := nat_of_ascii b in if (64 <=? n) && (n <=? 126) then s else skip_csi s
  end.

(** The rest behind an OSC sequence: up to BEL or ST. *)
Fixpoint skip_osc (s : bytes) : bytes :=
  match s with
  | [] => []
  | b :: s =>
      if Ascii.eqb b bell then s
      else match s with
           | c :: s' => if Ascii.eqb b escape && Ascii.eqb c "\" then s' else skip_osc s
           | [] => []
           end
  end.

(** The scan, with the length of the row as fuel: each turn consumes a byte. *)
Fixpoint blank_scan (fuel : nat) (s : bytes) : bool :=
  match fuel, s with
  | _, [] => true
  | O, _ => false
  | S fuel, b :: s =>
      if Ascii.eqb b escape then
        match s with
        | c :: s' =>
            if Ascii.eqb c "[" then blank_scan fuel (skip_csi s')
            else if Ascii.eqb c "]" then blank_scan fuel (skip_osc s')
            else blank_scan fuel s'
        | [] => true
        end
      else if is_ascii_whitespace b then blank_scan fuel s else false
  end.

Definition is_blank_capture_line (line : bytes) : bool := blank_scan (length line) line.

(** [s.iter().rposition(|b| p(b))] *)
Fixpoint rposition {A} (p : A -> bool) (s : list A) : option nat :=
  match s with
  | [] => None
  | x :: s => match rposition p s with Some i => Some (S i) | None => if p x then Some O else None end
  end.

(** One turn looks at the last line before [end_]; a turn that goes on lowers it. *)
Fixpoint content_end_from (fuel : nat) (bs : bytes) (end_ : nat) : nat :=
  match fuel with
  | O => end_
  | S fuel =>
      if end_ =? 0 then end_
      else
        let line_start := match rposition is_newline (firstn end_ bs) with Some nl => S nl | None => O end in
        if is_blank_capture_line (skipn line_start (firstn end_ bs))
        then content_end_from fuel bs (line_start - 1)
        else end_
  end.

Definition content_end (bs : bytes) : nat := content_end_from (length bs) bs (length bs).

Definition trim_trailing_blank_seed (bs : bytes) : bytes :=
  let ce := content_end bs in
  if ce =? 0 then [] else if ce <? length bs then firstn (S ce) bs else bs.

(** [spawn_persistent]: what the file has becomes the seed. *)
Definition persistent_seed (file : bytes) : bytes :=
  trim_trailing_blank_seed (read_scrollback_tail file SCROLLBACK_PERSIST_BYTES).
