(* ===== verification/ReplayRingProps.v ===== *)
(** * What the replay ring keeps

    The ring of ReplayRing.v against the stream that was written to it: its storage is
    the end of the stream, a delta continues where the last one stopped, a replay starts
    on a line and every byte of it is parsed at the size it was produced at. *)

From Stdlib Require Import Ascii.
From S2P Require Import Prelude ReplayRing.

#[local] Open Scope nat_scope.

(** ** Histories *)

Inductive RingOp := Push (bs : list ascii) | Note (s : Z * Z).

Definition run_op (r : ReplayRing) (o : RingOp) : option ReplayRing :=
  match o with Push bs => push bs r | Note s => Some (note_size s r) end.

Fixpoint run_ops (r : ReplayRing) (ops : list RingOp) : option ReplayRing :=
  match ops with [] => Some r | o :: ops => r ← run_op r o; run_ops r ops end.

(** The bytes written, and beside each the size it was produced at. *)
Fixpoint stream (ops : list RingOp) : list ascii :=
  match ops with [] => [] | Push bs :: ops => bs ++ stream ops | Note _ :: ops => stream ops end.

Fixpoint produced (current : Z * Z) (ops : list RingOp) : list (Z * Z) :=
  match ops with
  | [] => []
  | Push bs :: ops => replicate (length bs) current ++ produced current ops
  | Note s :: ops => produced s ops
  end.

Fixpoint last_noted (current : Z * Z) (ops : list RingOp) : Z * Z :=
  match ops with [] => current | Push _ :: ops => last_noted current ops | Note s :: ops => last_noted s ops end.

Lemma stream_app o1 o2 : stream (o1 ++ o2) = stream o1 ++ stream o2.
Proof. induction o1 as [|[] o1 IH]; cbn; [done|by rewrite IH, app_assoc|done]. Qed.

Lemma produced_app c o1 o2 : produced c (o1 ++ o2) = produced c o1 ++ produced (last_noted c o1) o2.
Proof. revert c. induction o1 as [|[] o1 IH]; intros c; cbn; [done|by rewrite IH, app_assoc|done]. Qed.

Lemma last_noted_app c o1 o2 : last_noted c (o1 ++ o2) = last_noted (last_noted c o1) o2.
Proof. revert c. induction o1 as [|[] o1 IH]; intros c; cbn; done. Qed.

Lemma produced_length c ops : length (produced c ops) = length (stream ops).
Proof. revert c. induction ops as [|[] ops IH]; intros c; cbn; rewrite ?length_app, ?length_replicate, ?IH; done. Qed.

Lemma run_ops_app r o1 o2 : run_ops r (o1 ++ o2) = (r ← run_ops r o1; run_ops r o2).
Proof. revert r. induction o1 as [|o o1 IH]; intros r; cbn; [done|]. destruct (run_op r o); cbn; [apply IH|done]. Qed.

(** ** The storage *)

Record storage_ok (r : ReplayRing) : Prop := {
  cap_pos : 0 < cap r;
  buf_fits : length (buf r) <= cap r;
  head_zero : length (buf r) < cap r -> head r = 0;
  head_in : head r < cap r;
}.

Lemma slice_some {A} a b (s : list A) :
  a <= b -> b <= length s -> slice a b s = Some (firstn (b - a) (skipn a s)).
Proof. intros. unfold slice. by rewrite (proj2 (Nat.leb_le a b)), (proj2 (Nat.leb_le b (length s))) by lia. Qed.

Lemma copy_at_some {A} a (new s : list A) :
  a + length new <= length s -> copy_at a new s = Some (firstn a s ++ new ++ skipn (a + length new) s).
Proof. intros. unfold copy_at. by rewrite (proj2 (Nat.leb_le _ _)) by lia. Qed.

(** Read from its head, a full storage that is overwritten from its head loses as much
    at the front as it gains at the back. *)
Definition unrolled {A} (h : nat) (b : list A) : list A := skipn h b ++ firstn h b.

Lemma unrolled_length {A} h (b : list A) : length (unrolled h b) = length b.
Proof. unfold unrolled. rewrite length_app, length_skipn, length_firstn. lia. Qed.

Lemma unrolled_zero {A} (b : list A) : unrolled 0 b = b.
Proof. unfold unrolled. cbn. apply app_nil_r. Qed.

Lemma unrolled_split {A} (l r : list A) : unrolled (length l) (l ++ r) = r ++ l.
Proof. unfold unrolled. by rewrite drop_app_length, take_app_length. Qed.

Lemma overwrite_within {A} (old mid rest new : list A) :
  length new = length mid ->
  unrolled (length (old ++ new)) (old ++ new ++ rest)
  = skipn (length new) (unrolled (length old) (old ++ mid ++ rest)) ++ new.
Proof.
  intros Hn. rewrite (app_assoc old new), !unrolled_split, Hn, <- (app_assoc mid), drop_app_length. by rewrite app_assoc.
Qed.

Lemma overwrite_around {A} (l1 l2 tail front back : list A) :
  length front = length tail -> length back = length l1 ->
  unrolled (length back) (back ++ l2 ++ front)
  = skipn (length (front ++ back)) (unrolled (length (l1 ++ l2)) ((l1 ++ l2) ++ tail)) ++ front ++ back.
Proof.
  intros Hf Hb. rewrite !unrolled_split, length_app, Hf, Hb, drop_app_add, drop_app_length. by rewrite <- app_assoc.
Qed.

(** Lists cut at a place, so that the lemmas above apply. *)
Lemma cut_at_nat {A} n (s : list A) : n <= length s -> exists l r, s = l ++ r /\ length l = n.
Proof. exists (firstn n s), (skipn n s). by rewrite firstn_skipn, length_firstn, Nat.min_l. Qed.

Lemma slice_front {A} (l r : list A) : slice 0 (length l) (l ++ r) = Some l.
Proof. rewrite slice_some by (rewrite ?length_app; lia). by rewrite drop_0, Nat.sub_0_r, take_app_length. Qed.

Lemma slice_all {A} (l : list A) : slice 0 (length l) l = Some l.
Proof. rewrite <- (app_nil_r l) at 2. apply slice_front. Qed.

Lemma slice_back {A} (l r : list A) : slice (length l) (length (l ++ r)) (l ++ r) = Some r.
Proof.
  rewrite slice_some by (rewrite ?length_app; lia). rewrite drop_app_length, length_app.
  by rewrite firstn_all2 by lia.
Qed.

Lemma copy_at_middle {A} (l mid r new : list A) :
  length new = length mid -> copy_at (length l) new (l ++ mid ++ r) = Some (l ++ new ++ r).
Proof.
  intros Hn. rewrite copy_at_some by (rewrite !length_app; lia).
  by rewrite take_app_length, Hn, drop_app_add, drop_app_length.
Qed.

Definition full_ring (c : nat) (r : ReplayRing) : Prop :=
  cap r = c /\ length (buf r) = c /\ head r < c.

Lemma overwrite_spec total bs b r :
  full_ring (cap r) (mkRing b (cap r) (head r) total (sizes r)) -> length bs < cap r ->
  exists r', overwrite total bs b r = Some r' /\ full_ring (cap r) r' /\ sizes r' = sizes r /\ total_written r' = total
    /\ snapshot r' = skipn (length bs) (unrolled (head r) b) ++ bs.
Proof.
  intros (_ & Hb & Hh) Hbs. cbn [buf head cap] in Hb, Hh. unfold overwrite. cbv zeta.
  destruct (Nat.ltb_spec (cap r - head r) (length bs)) as [Hw|Hw].
  - rewrite Nat.min_l by lia. destruct (cut_at_nat (cap r - head r) bs) as (front & back & -> & Hf); [lia|].
    rewrite length_app in Hw, Hbs. destruct (cut_at_nat (head r) b) as (l & tail & -> & Hl); [lia|]. rewrite length_app in Hb.
    destruct (cut_at_nat (length back) l) as (l1 & l2 & -> & Hl1); [lia|].
    rewrite <- Hf, slice_front. cbn [mbind option_bind]. rewrite <- Hl.
    pose proof (copy_at_middle (l1 ++ l2) tail [] front) as Hc. rewrite !app_nil_r in Hc. rewrite Hc by lia. cbn [mbind option_bind].
    rewrite (proj2 (Nat.ltb_lt _ _)) by (rewrite length_app; lia). rewrite slice_back. cbn [mbind option_bind].
    rewrite <- app_assoc. pose proof (copy_at_middle [] l1 (l2 ++ front) back) as Hc'. cbn [app length] in Hc'. rewrite Hc' by lia.
    assert ((length (l1 ++ l2) + length (front ++ back)) mod cap r = length back) as Hm.
    { rewrite (length_app front). replace (length (l1 ++ l2) + (length front + length back)) with (length back + 1 * cap r) by lia.
      rewrite Nat.Div0.mod_add. apply Nat.mod_small. lia. }
    cbn [mbind option_bind]. rewrite Hm. eexists. split; [done|]. unfold full_ring, snapshot. cbn [cap buf head sizes total_written].
    rewrite length_app in Hl, Hb. split_and!; [done|rewrite !length_app; lia|lia|done|done|]. by apply overwrite_around; lia.
  - rewrite Nat.min_r by lia. rewrite slice_all. cbn [mbind option_bind].
    destruct (cut_at_nat (head r) b) as (old & b' & -> & Ho); [lia|]. rewrite length_app in Hb.
    destruct (cut_at_nat (length bs) b') as (mid & rest & -> & Hmid); [lia|]. rewrite length_app in Hb.
    rewrite <- Ho, copy_at_middle by lia. cbn [mbind option_bind]. rewrite Nat.ltb_irrefl. cbn [mbind option_bind].
    eexists. split; [done|]. unfold full_ring, snapshot. cbn [cap buf head sizes total_written].
    split_and!; [done|rewrite !length_app; lia|apply Nat.mod_upper_bound; lia|done|done|].
    change (skipn ?h ?b ++ firstn ?h ?b) with (unrolled h b). rewrite <- overwrite_within by lia.
    destruct (decide (length old + length bs = cap r)) as [He|He].
    + rewrite He, Nat.Div0.mod_same, unrolled_zero. assert (rest = []) as -> by (apply length_zero_iff_nil; lia).
      rewrite app_nil_r. by rewrite <- (app_nil_r (old ++ bs)) at 3; rewrite unrolled_split.
    + by rewrite Nat.mod_small, length_app by lia.
Qed.

Lemma skipn_short {A} n m (s new : list A) :
  n = m -> m <= length s -> skipn n s ++ new = skipn m (s ++ new).
Proof. intros -> Hm. by rewrite drop_app_le. Qed.

(** What a push makes of the storage. *)
Definition pushed (bs : list ascii) (r r' : ReplayRing) : Prop :=
  storage_ok r' /\ cap r' = cap r /\ sizes r' = sizes r
  /\ total_written r' = (total_written r + Z.of_nat (length bs))%Z
  /\ length (buf r') = Nat.min (cap r) (length (buf r) + length bs)
  /\ snapshot r' = skipn (length (buf r) + length bs - cap r) (snapshot r ++ bs).

Lemma full_ok c r : 0 < c -> full_ring c r -> storage_ok r.
Proof. intros Hc (<- & Hl & Hh). split; lia. Qed.

Lemma push_bytes_big r bs :
  storage_ok r -> cap r <= length bs -> exists r', push_bytes bs r = Some r' /\ pushed bs r r'.
Proof.
  intros [Hc Hf _ _] Hbig. unfold push_bytes. cbv zeta. rewrite (proj2 (Nat.leb_le _ _)) by done.
  rewrite slice_some by lia. cbn [mbind option_bind]. rewrite (firstn_all2 (skipn _ _)) by (rewrite length_skipn; lia).
  assert (length (skipn (length bs - cap r) bs) = cap r) as Hl by (rewrite length_skipn; lia).
  eexists. split; [done|]. unfold pushed, snapshot. cbn [buf cap head total_written sizes].
  split_and!; try done; [split; cbn [buf cap head]; lia|lia|].
  rewrite drop_0, take_0, app_nil_r. change (skipn ?h ?b ++ firstn ?h ?b) with (unrolled h b).
  rewrite drop_app_ge by (rewrite unrolled_length; lia). rewrite unrolled_length. f_equal. lia.
Qed.

Lemma push_bytes_spec r bs : storage_ok r -> exists r', push_bytes bs r = Some r' /\ pushed bs r r'.
Proof.
  intros Hok. destruct (Nat.leb_spec (cap r) (length bs)) as [Hbig|Hsmall]; [by apply push_bytes_big|].
  destruct Hok as [Hc Hf Hz Hi]. unfold push_bytes. cbv zeta. rewrite (proj2 (Nat.leb_gt _ _)) by done.
  destruct (Nat.ltb_spec (length (buf r)) (cap r)) as [Hroom|Hfull].
  - specialize (Hz Hroom). destruct (cut_at_nat (Nat.min (cap r - length (buf r)) (length bs)) bs) as (front & rest & -> & Hfr); [lia|].
    rewrite <- Hfr, slice_front, slice_back. cbn [mbind option_bind]. rewrite length_app in *.
    destruct rest as [|x rest'] eqn:Er; [|rewrite <- Er in *; assert (0 < length rest) by (rewrite Er; cbn; lia)].
    + eexists. split; [done|]. unfold pushed, snapshot. cbn [buf cap head total_written sizes length]. rewrite Hz, app_nil_r, length_app.
      rewrite !drop_0, !take_0, !app_nil_r. cbn [length] in *.
      split_and!; try done; [split; cbn [buf cap head]; rewrite ?length_app; lia|lia|lia|].
      by replace (length (buf r) + length front - cap r) with 0 by lia.
    + destruct (overwrite_spec (total_written r + Z.of_nat (length front + length rest)) rest (buf r ++ front) r)
        as (r' & -> & Hfull & Hs & Ht & Hsn).
      { unfold full_ring. cbn [cap buf head]. rewrite length_app. lia. } { lia. }
      exists r'. split; [done|]. pose proof (full_ok _ _ Hc Hfull) as Hok. destruct Hfull as (Hcap & Hl & Hh).
      unfold pushed. rewrite length_app. split_and!; try done; [lia|]. rewrite Hsn, Hz, unrolled_zero. unfold snapshot. rewrite Hz, drop_0, take_0, app_nil_r, app_assoc.
      apply skipn_short; rewrite ?length_app; lia.
  - destruct (overwrite_spec (total_written r + Z.of_nat (length bs)) bs (buf r) r) as (r' & -> & Hful & Hs & Ht & Hsn).
    { unfold full_ring. cbn [cap buf head]. lia. } { done. }
    exists r'. split; [done|]. pose proof (full_ok _ _ Hc Hful) as Hok. destruct Hful as (Hcap & Hl & Hh).
    unfold pushed. split_and!; try done; [lia|]. rewrite Hsn.
    apply skipn_short; [lia|]. change (snapshot r) with (unrolled (head r) (buf r)). rewrite unrolled_length. lia.
Qed.

(** ** The log of sizes *)

Definition SizeLog : Type := list (Z * (Z * Z)).
Definition offset_lt (a b : Z * (Z * Z)) : Prop := (a.1 < b.1)%Z.

Lemma size_at_snoc i l o s : size_at i (l ++ [(o, s)]) = if (o <=? i)%Z then s else size_at i l.
Proof. unfold size_at. rewrite rev_unit. cbn. by destruct (o <=? i)%Z. Qed.

(** Entries that are not needed for an offset may go. *)
Lemma size_at_drop_front i a b l : (b.1 <= i)%Z -> size_at i (a :: b :: l) = size_at i (b :: l).
Proof.
  intros Hb. unfold size_at. cbn [rev]. rewrite <- app_assoc, !find_app.
  destruct (List.find _ (rev l)); [done|]. cbn. by rewrite (proj2 (Z.leb_le _ _) Hb).
Qed.

Lemma size_at_drop_second i a b c l : (c.1 <= i)%Z -> size_at i (a :: b :: c :: l) = size_at i (a :: c :: l).
Proof.
  intros Hc. unfold size_at. cbn [rev]. rewrite <- !app_assoc, !find_app.
  destruct (List.find _ (rev l)); [done|]. cbn. by rewrite (proj2 (Z.leb_le _ _) Hc).
Qed.

(** From where on a log is exact: everywhere as long as it has room, otherwise from its
    second entry. *)
Definition settled (l : SizeLog) (i : Z) : Prop :=
  length l < SIZE_LOG_CAP \/ exists a b l', l = a :: b :: l' /\ (b.1 <= i)%Z.

Record log_ok (oldest total : Z) (l : SizeLog) (sizes_produced : list (Z * Z)) : Prop := {
  log_sorted : StronglySorted offset_lt l;
  log_within : Forall (fun e => (0 <= e.1 <= total)%Z) l;
  log_short : length l <= SIZE_LOG_CAP;
  log_exact : forall i s, sizes_produced !! i = Some s -> (oldest <= Z.of_nat i)%Z -> settled l (Z.of_nat i) ->
              size_at (Z.of_nat i) l = s;
}.

Lemma sorted_snoc l (x : Z * (Z * Z)) :
  StronglySorted offset_lt l -> Forall (fun e => (e.1 < x.1)%Z) l -> StronglySorted offset_lt (l ++ [x]).
Proof.
  induction 1 as [|a l Hs IH Ha]; intros Hx; cbn; [by repeat constructor|].
  apply Forall_cons in Hx as [Hax Hx]. constructor; [by apply IH|]. apply Forall_app. split; [done|]. by repeat constructor.
Qed.

Lemma sorted_init l (x : Z * (Z * Z)) :
  StronglySorted offset_lt (l ++ [x]) -> StronglySorted offset_lt l /\ Forall (fun e => (e.1 < x.1)%Z) l.
Proof.
  induction l as [|a l IH]; intros Hs; [by repeat constructor|]. apply StronglySorted_inv in Hs as [Hs Ha].
  apply IH in Hs as [Hs Hx]. apply Forall_app in Ha as [Ha Hax]. apply Forall_cons in Hax as [Hax _].
  split; constructor; done.
Qed.

(** Noting a size says nothing about what is written already. *)
Lemma log_size_spec total s l :
  StronglySorted offset_lt l -> Forall (fun e => (0 <= e.1 <= total)%Z) l -> (0 <= total)%Z ->
  StronglySorted offset_lt (log_size total s l) /\ Forall (fun e => (0 <= e.1 <= total)%Z) (log_size total s l)
  /\ last (log_size total s l) = Some (total, s)
  /\ (forall i, (i < total)%Z -> size_at i (log_size total s l) = size_at i l)
  /\ (log_size total s l = l ++ [(total, s)]
      \/ exists l' x, l = l' ++ [x] /\ log_size total s l = l' ++ [(total, s)] /\ x.1 = total).
Proof.
  intros Hs Hw Ht.
  assert (Forall (fun e => (e.1 < total)%Z) l ->
    StronglySorted offset_lt (l ++ [(total, s)]) /\ Forall (fun e => (0 <= e.1 <= total)%Z) (l ++ [(total, s)])
    /\ last (l ++ [(total, s)]) = Some (total, s)
    /\ (forall i, (i < total)%Z -> size_at i (l ++ [(total, s)]) = size_at i l)
    /\ (l ++ [(total, s)] = l ++ [(total, s)]
        \/ exists l' x, l = l' ++ [x] /\ l ++ [(total, s)] = l' ++ [(total, s)] /\ x.1 = total)) as Happ.
  { intros Hlt. split_and!; [by apply sorted_snoc|apply Forall_app; split; [done|repeat constructor; cbn; lia]|apply last_snoc| |].
    - intros i Hi. by rewrite size_at_snoc, (proj2 (Z.leb_gt _ _) Hi).
    - by left. }
  unfold log_size. destruct (last l) as [[o x]|] eqn:El.
  - apply last_Some in El as [l' ->]. apply sorted_init in Hs as [Hs' Hlt]. apply Forall_app in Hw as [Hw' Hox].
    apply Forall_cons in Hox as [Hox _]. cbn in Hox. destruct (Z.eqb_spec o total) as [->|Hne].
    + rewrite removelast_last. split_and!; [by apply sorted_snoc|apply Forall_app; split; [done|repeat constructor; cbn; lia]|apply last_snoc| |].
      * intros i Hi. by rewrite !size_at_snoc, (proj2 (Z.leb_gt _ _) Hi).
      * right. by exists l', (total, x).
    + apply Happ. apply Forall_app. split; [|repeat constructor; cbn in *; lia]. eapply Forall_impl; [exact Hlt|]. cbn. intros e He. cbn in He. lia.
  - apply last_None in El as ->. by apply Happ.
Qed.

Lemma fold_one_surplus (l : SizeLog) :
  length l = SIZE_LOG_CAP ->
  forall x, exists a b c l', l = a :: b :: c :: l' /\ fold_to_cap (length (l ++ [x]) - SIZE_LOG_CAP) (l ++ [x]) = a :: c :: l' ++ [x].
Proof.
  intros Hl x. destruct l as [|a [|b [|c l']]]; try (exfalso; revert Hl; by vm_compute). exists a, b, c, l'. split; [done|].
  rewrite length_app, Hl. replace (SIZE_LOG_CAP + length [x] - SIZE_LOG_CAP) with 1 by (cbn [length]; lia). done.
Qed.

Lemma sorted_without_second (a b : Z * (Z * Z)) l :
  StronglySorted offset_lt (a :: b :: l) -> StronglySorted offset_lt (a :: l).
Proof.
  intros Hs. apply StronglySorted_inv in Hs as [Hs Ha]. apply StronglySorted_inv in Hs as [Hs _].
  apply Forall_cons in Ha as [_ Ha]. by constructor.
Qed.

Lemma log_ok_note oldest total s l pr :
  log_ok oldest total l pr -> Z.of_nat (length pr) = total ->
  let l' := log_size total s l in
  log_ok oldest total (fold_to_cap (length l' - SIZE_LOG_CAP) l') pr
  /\ last (fold_to_cap (length l' - SIZE_LOG_CAP) l') = Some (total, s).
Proof.
  intros [Hs Hw Hl He] Hpr. cbv zeta. destruct (log_size_spec total s l Hs Hw ltac:(lia)) as (Hs' & Hw' & Hlast & Hat & Hcase).
  assert (forall i x, pr !! i = Some x -> (Z.of_nat i < total)%Z) as Hlt by (intros i x Hi%lookup_lt_Some; lia).
  destruct (decide (length l = SIZE_LOG_CAP /\ log_size total s l = l ++ [(total, s)])) as [[Hfull Heq]|Hno].
  - rewrite Heq in *. destruct (fold_one_surplus l Hfull (total, s)) as (a & b & c & l' & -> & ->). clear Hcase.
    cbn [app] in *. split; [|rewrite <- Hlast; done]. apply sorted_without_second in Hs' as Hs2.
    split; [done| | |].
    + apply Forall_cons in Hw' as [? Hw']. apply Forall_cons in Hw' as [_ ?]. by constructor.
    + rewrite <- Hfull. cbn [length]. rewrite length_app. cbn [length]. lia.
    + intros i x Hi Hold [Hshort|(a' & b' & r & [= <- <- <-] & Hb)].
      { exfalso. rewrite <- Hfull in Hshort. cbn [length] in Hshort. rewrite length_app in Hshort. cbn [length] in Hshort. lia. }
      rewrite <- (size_at_drop_second _ a b c) by done. rewrite Hat by eauto. apply He; [done..|]. right. exists a, b, (c :: l').
      split; [done|]. apply StronglySorted_inv in Hs as [Hs _]. apply StronglySorted_inv in Hs as [_ Hbc].
      apply Forall_cons in Hbc as [Hbc _]. unfold offset_lt in Hbc. lia.
  - assert (length (log_size total s l) <= SIZE_LOG_CAP) as Hlen.
    { destruct Hcase as [Heq|(l' & x & -> & -> & _)]; [|by rewrite length_app in *].
      assert (length l <> SIZE_LOG_CAP) by naive_solver. rewrite Heq, length_app. cbn [length]. lia. }
    rewrite (proj2 (Nat.sub_0_le _ _) Hlen). cbn [fold_to_cap]. split; [|done]. split; try done.
    intros i x Hi Hold Hset. rewrite Hat by eauto. apply He; [done..|]. destruct Hcase as [Heq|(l' & y & -> & Heq & Hy)].
    { left. rewrite Heq, length_app in Hlen. cbn [length] in Hlen. lia. }
    rewrite Heq in Hset. destruct Hset as [Hset|(a & b & r & Hab & Hb)]; [left; by rewrite length_app in *|]. right.
    destruct l' as [|a' [|b' l']]; cbn in Hab; simplify_eq.
    + exfalso. cbn in Hb. specialize (Hlt i x Hi). lia.
    + by exists a, b, (l' ++ [y]).
Qed.

Definition current (l : SizeLog) : Z * Z := match last l with Some (_, s) => s | None => (0, 0)%Z end.

Lemma log_ok_extend oldest total l pr n :
  log_ok oldest total l pr -> Z.of_nat (length pr) = total ->
  log_ok oldest (total + Z.of_nat n) l (pr ++ replicate n (current l)).
Proof.
  intros [Hs Hw Hl He] Hpr. split; [done| |done|].
  - eapply Forall_impl; [exact Hw|]. cbn. intros e Hle. lia.
  - intros i x Hi Hold Hset. apply lookup_app_Some in Hi as [Hi|[Hge Hi]]; [by apply He|].
    apply lookup_replicate in Hi as [-> _]. unfold current. destruct (last l) as [[o s]|] eqn:El.
    + apply last_Some in El as [l' ->]. apply Forall_app in Hw as [_ Ho]. apply Forall_cons in Ho as [Ho _]. cbn in Ho.
      by rewrite size_at_snoc, (proj2 (Z.leb_le _ _)) by lia.
    + by apply last_None in El as ->.
Qed.

Lemma log_ok_evict oldest oldest' total l pr :
  log_ok oldest total l pr -> (oldest <= oldest')%Z ->
  log_ok oldest' total (fold_evicted oldest' l) pr /\ last (fold_evicted oldest' l) = last l.
Proof.
  revert oldest. induction l as [|a l IH]; intros oldest [Hs Hw Hl He] Hle; cbn [fold_evicted].
  - split; [|done]. split; try done. intros i x Hi Ho. apply He; [done|lia].
  - destruct l as [|[o b] l']; [split; [|done]; split; try done; intros i x Hi Ho; apply He; [done|lia]|].
    destruct (Z.leb_spec o oldest') as [Hb|Hb]; [|split; [|done]; split; try done; intros i x Hi Ho; apply He; [done|lia]].
    edestruct (IH oldest') as [Hok Hlast]; [|done|by split; [|rewrite Hlast]].
    apply StronglySorted_inv in Hs as [Hs _]. apply Forall_cons in Hw as [_ Hw]. cbn [length] in Hl. split; [done|done|cbn [length]; lia|].
    intros i x Hi Ho Hset. rewrite <- (size_at_drop_front _ a) by (cbn; lia). apply He; [done|lia|]. right. exists a, (o, b), l'. split; [done|cbn; lia].
Qed.

(** ** The ring represents its history *)

Record ring_rep (c : nat) (ops : list RingOp) (r : ReplayRing) : Prop := {
  rep_storage : storage_ok r;
  rep_cap : cap r = c;
  rep_total : total_written r = Z.of_nat (length (stream ops));
  rep_length : length (buf r) = Nat.min c (length (stream ops));
  rep_snapshot : snapshot r = skipn (length (stream ops) - c) (stream ops);
  rep_size : size r = last_noted (0, 0)%Z ops;
  rep_log : log_ok (oldest_offset r) (total_written r) (sizes r) (produced (0, 0)%Z ops);
}.

Lemma rep_new c r : with_capacity c = Some r -> ring_rep c [] r.
Proof.
  unfold with_capacity. destruct (Nat.ltb_spec 0 c); [|done]. destruct (_ <=? _)%Z; [|done]. cbn [andb]. intros [= <-].
  split; try done; [split; cbn [buf cap head]; cbn [length]; lia|cbn; lia|split; try done; [constructor|cbn [sizes length]; lia]].
Qed.

Lemma rep_oldest c ops r : ring_rep c ops r -> oldest_offset r = Z.of_nat (length (stream ops) - c).
Proof. intros R. unfold oldest_offset. rewrite (rep_total _ _ _ R), (rep_length _ _ _ R). lia. Qed.

Lemma note_size_rep c ops r s : ring_rep c ops r -> ring_rep c (ops ++ [Note s]) (note_size s r).
Proof.
  intros R. pose proof R as [Hok Hc Ht Hl Hsn Hsz Hlog]. unfold note_size. case_decide as Hs.
  - split; rewrite ?stream_app, ?produced_app, ?last_noted_app; cbn [stream produced last_noted]; rewrite ?app_nil_r; try done.
  - pose proof (log_ok_note _ _ s _ _ Hlog ltac:(by rewrite produced_length)) as [Hlog' Hlast].
    split; rewrite ?stream_app, ?produced_app, ?last_noted_app; cbn [stream produced last_noted]; rewrite ?app_nil_r; try done.
    + destruct Hok. by split.
    + unfold size. cbn [set_sizes sizes]. by rewrite Hlast.
Qed.

Lemma push_rep c ops r bs : ring_rep c ops r -> exists r', push bs r = Some r' /\ ring_rep c (ops ++ [Push bs]) r'.
Proof.
  intros R. pose proof R as [Hok Hc Ht Hl Hsn Hsz Hlog]. destruct (push_bytes_spec r bs Hok) as (r1 & E & Hok1 & Hc1 & Hs1 & Ht1 & Hl1 & Hsn1).
  unfold push. rewrite E. cbn [fmap option_fmap option_map]. eexists. split; [done|].
  pose proof (log_ok_extend _ _ _ _ (length bs) Hlog ltac:(by rewrite produced_length)) as Hlog1. rewrite <- Ht1, <- Hs1 in Hlog1.
  assert (oldest_offset r <= oldest_offset r1)%Z as Ho by (unfold oldest_offset; rewrite Ht1, Hl1; lia).
  destruct (log_ok_evict _ _ _ _ _ Hlog1 Ho) as [Hlog2 Hlast].
  assert (current (sizes r) = last_noted (0, 0)%Z ops) as Hcur by exact Hsz.
  split; rewrite ?stream_app, ?produced_app, ?last_noted_app; cbn [stream produced last_noted]; rewrite ?app_nil_r.
  - by destruct Hok1.
  - cbn. congruence.
  - cbn [fold_evicted_sizes set_sizes total_written]. rewrite Ht1, Ht, length_app. lia.
  - cbn [fold_evicted_sizes set_sizes buf]. rewrite Hl1, Hl, Hc, length_app. lia.
  - change (snapshot r1 = skipn (length (stream ops ++ bs) - c) (stream ops ++ bs)). rewrite Hsn1, Hsn, Hc, length_app, Hl.
    destruct (Nat.leb_spec (length (stream ops)) c) as [Hle|Hgt].
    + rewrite (proj2 (Nat.sub_0_le _ _) Hle), drop_0. f_equal. lia.
    + rewrite <- drop_app_le, drop_drop by lia. f_equal. lia.
  - unfold size. cbn [fold_evicted_sizes set_sizes sizes]. rewrite Hlast. change (current (sizes r1) = last_noted (0, 0)%Z ops). by rewrite Hs1.
  - cbn [fold_evicted_sizes set_sizes sizes total_written]. rewrite <- Hcur. rewrite Hs1 in Hlog2 |- *. exact Hlog2.
Qed.

Lemma run_rep c ops r ops' : ring_rep c ops r -> exists r', run_ops r ops' = Some r' /\ ring_rep c (ops ++ ops') r'.
Proof.
  revert ops r. induction ops' as [|o ops' IH]; intros ops r R; cbn [run_ops]; [exists r; by rewrite app_nil_r|].
  assert (exists r1, run_op r o = Some r1 /\ ring_rep c (ops ++ [o]) r1) as (r1 & -> & R1).
  { destruct o as [bs|s]; cbn [run_op]; [by apply push_rep|]. eexists. split; [done|]. by apply note_size_rep. }
  cbn [mbind option_bind]. destruct (IH _ _ R1) as (r' & E & R'). exists r'. split; [done|]. by rewrite <- app_assoc in R'.
Qed.

(** Any range of the two halves. *)
Lemma halves_drop (a b : list ascii) n :
  (if n <? length a then skipn n a ++ b else skipn (n - length a) b) = skipn n (a ++ b).
Proof.
  destruct (Nat.ltb_spec n (length a)); [by rewrite drop_app_le by lia|by rewrite drop_app_ge].
Qed.

Lemma read_since_rep c ops r from :
  ring_rep c ops r ->
  read_since from r = (skipn (Z.to_nat (Z.min (Z.max from (oldest_offset r)) (total_written r))) (stream ops), (oldest_offset r <=? from)%Z).
Proof.
  intros R. unfold read_since. cbv zeta. rewrite halves_drop. change (skipn (head r) (buf r) ++ firstn (head r) (buf r)) with (snapshot r).
  rewrite (rep_snapshot _ _ _ R), drop_drop. pose proof (rep_oldest _ _ _ R) as Ho. pose proof (rep_total _ _ _ R) as Ht.
  do 2 f_equal. unfold clamp. lia.
Qed.

(** C23: The storage of the ring is the end of what was written, whatever the writes were: no
    write panics, the count is the length of the stream, the snapshot its last [c] bytes,
    completeness says that nothing is missing, and a delta from an offset that is still
    held is the stream from there. *)
Theorem the_ring_is_the_end_of_the_stream c ops :
  0 < c -> (Z.of_nat c <= MAX_RING_SIZE)%Z ->
  exists r, (r0 ← with_capacity c; run_ops r0 ops) = Some r
    /\ total_written r = Z.of_nat (length (stream ops))
    /\ snapshot r = skipn (length (stream ops) - c) (stream ops)
    /\ (is_complete r = true <-> snapshot r = stream ops)
    /\ (forall from, (0 <= from <= total_written r)%Z ->
          match read_since from r with
          | (bs, true) => stream ops = firstn (Z.to_nat from) (stream ops) ++ bs
          | (_, false) => (from < Z.of_nat (length (stream ops) - c))%Z
          end).
Proof.
  intros Hc Hm. assert (exists r0, with_capacity c = Some r0) as [r0 E0].
  { unfold with_capacity. rewrite (proj2 (Nat.ltb_lt _ _) Hc), (proj2 (Z.leb_le _ _) Hm). by eexists. }
  rewrite E0. cbn [mbind option_bind]. destruct (run_rep _ _ _ ops (rep_new _ _ E0)) as (r & E & R). cbn [app] in R. exists r.
  pose proof (rep_total _ _ _ R) as Ht. pose proof (rep_oldest _ _ _ R) as Ho. pose proof (rep_snapshot _ _ _ R) as Hsn.
  split_and!; [done..| |].
  - unfold is_complete. rewrite Ht, (rep_length _ _ _ R), Hsn, Z.eqb_eq. split; intros Hx.
    + by replace (length (stream ops) - c) with 0 by lia.
    + apply (f_equal length) in Hx. rewrite length_skipn in Hx. lia.
  - intros from Hf. rewrite (read_since_rep _ _ _ _ R). destruct (Z.leb_spec (oldest_offset r) from) as [Hle|Hgt]; [|lia].
    replace (Z.min (Z.max from (oldest_offset r)) (total_written r)) with from by lia. by rewrite firstn_skipn.
Qed.

(** ** The replay *)

(** The size a reader of the spans parses a position at: the last span at or before it. *)
Definition span_at (spans : list ReplaySizeSpan) (j : Z) : Z * Z :=
  match List.find (fun sp => (at_ sp <=? j)%Z) (rev spans) with Some sp => (cols sp, rows sp) | None => (0, 0)%Z end.

Lemma sorted_cut (f : Z) (l : SizeLog) :
  StronglySorted offset_lt l ->
  l = List.filter (fun e => negb (f <? e.1)%Z) l ++ List.filter (fun e => (f <? e.1)%Z) l.
Proof.
  induction 1 as [|a l Hs IH Ha]; [done|]. cbn [List.filter]. destruct (Z.ltb_spec f a.1) as [Hlt|Hle]; cbn [negb app].
  - assert (Forall (fun e => (f < e.1)%Z) l) as Hall by (eapply Forall_impl; [exact Ha|]; unfold offset_lt; cbn; lia).
    clear -Hall. assert (List.filter (fun e : Z * (Z * Z) => negb (f <? e.1)%Z) l = [] /\ List.filter (fun e => (f <? e.1)%Z) l = l) as [-> ->];
      [|done]. induction Hall as [|x l Hx _ [IH1 IH2]]; [done|]. cbn [List.filter]. rewrite (proj2 (Z.ltb_lt _ _) Hx). cbn [negb].
    by rewrite IH1, IH2.
  - by rewrite <- IH.
Qed.

Lemma find_ext_in {A} (p q : A -> bool) l : (forall x, In x l -> p x = q x) -> List.find p l = List.find q l.
Proof. induction l as [|x l IH]; intros H; [done|]. cbn. rewrite <- (H x) by (by left). destruct (p x); [done|]. apply IH. intros y Hy. apply H. by right. Qed.

Lemma find_none_all {A} (p : A -> bool) l : (forall x, In x l -> p x = false) -> List.find p l = None.
Proof. induction l as [|x l IH]; intros H; [done|]. cbn. rewrite (H x) by (by left). apply IH. intros y Hy. apply H. by right. Qed.

Lemma find_shift (p f o : Z) (l : SizeLog) :
  List.find (fun sp => (at_ sp <=? p + (o - f))%Z) (map (fun e => mkSpan (p + (e.1 - f)) e.2.1 e.2.2) l)
  = (fun e => mkSpan (p + (e.1 - f)) e.2.1 e.2.2) <$> List.find (fun e => (e.1 <=? o)%Z) l.
Proof.
  induction l as [|e l IH]; [done|]. cbn [map List.find at_].
  destruct (Z.leb_spec (p + (e.1 - f)) (p + (o - f))) as [H|H], (Z.leb_spec e.1 o) as [H'|H']; try lia; [done|apply IH].
Qed.

Lemma spans_follow (p f : Z) (l : SizeLog) o :
  StronglySorted offset_lt l -> (0 <= p)%Z -> (f <= o)%Z ->
  span_at (mkSpan 0 (size_at f l).1 (size_at f l).2
           :: map (fun e => mkSpan (p + (e.1 - f)) e.2.1 e.2.2) (List.filter (fun e => (f <? e.1)%Z) l)) (p + (o - f))
  = size_at o l.
Proof.
  intros Hs Hp Ho. unfold span_at. cbn [rev]. rewrite find_app, <- map_rev, find_shift. set (l2 := List.filter _ l).
  unfold size_at. rewrite (sorted_cut f l Hs). fold l2. set (l1 := List.filter _ l). rewrite rev_app_distr, !find_app.
  assert (List.find (fun e => (e.1 <=? f)%Z) (rev l2) = None) as ->.
  { apply find_none_all. intros x Hx. apply in_rev, filter_In in Hx as [_ Hx]. apply Z.ltb_lt in Hx. apply Z.leb_gt. lia. }
  assert (List.find (fun e => (e.1 <=? f)%Z) (rev l1) = List.find (fun e => (e.1 <=? o)%Z) (rev l1)) as ->.
  { apply find_ext_in. intros x Hx. apply in_rev, filter_In in Hx as [_ Hx]. apply negb_true_iff, Z.ltb_ge in Hx.
    by rewrite !(proj2 (Z.leb_le _ _)) by lia. }
  destruct (List.find _ (rev l2)) as [[e [c w]]|]; [done|]. cbn [fmap option_fmap option_map List.find at_].
  rewrite (proj2 (Z.leb_le 0 _)) by lia. cbn [cols rows]. destruct (List.find _ (rev l1)) as [[e [c w]]|]; done.
Qed.

Lemma spans_prefix (p f : Z) (l : SizeLog) j :
  (0 <= j < p)%Z ->
  span_at (mkSpan 0 (size_at f l).1 (size_at f l).2
           :: map (fun e => mkSpan (p + (e.1 - f)) e.2.1 e.2.2) (List.filter (fun e => (f <? e.1)%Z) l)) j
  = size_at f l.
Proof.
  intros Hj. unfold span_at. cbn [rev]. rewrite find_app, <- map_rev, find_none_all.
  - cbn [List.find at_]. rewrite (proj2 (Z.leb_le 0 _)) by lia. cbn [cols rows]. by destruct (size_at f l).
  - intros x Hx. apply in_map_iff in Hx as (e & <- & He). apply in_rev, filter_In in He as [_ He]. apply Z.ltb_lt in He.
    cbn [at_]. apply Z.leb_gt. lia.
Qed.

Lemma position_spec {A} (p : A -> bool) s i :
  position p s = Some i -> exists l x r, s = l ++ x :: r /\ length l = i /\ p x = true /\ forall y, In y l -> p y = false.
Proof.
  revert i. induction s as [|x s IH]; intros i; cbn; [done|]. destruct (p x) eqn:Ep.
  - intros [= <-]. by exists [], x, s.
  - destruct (position p s) as [j|]; [|done]. intros [= <-]. destruct (IH j eq_refl) as (l & y & r & -> & <- & Hy & Hl).
    exists (x :: l), y, r. split_and!; try done. intros z [->|Hz]; [done|by apply Hl].
Qed.

Lemma position_none {A} (p : A -> bool) s : position p s = None -> forall x, In x s -> p x = false.
Proof.
  induction s as [|y s IH]; cbn; [done|]. destruct (p y) eqn:Ep; [done|]. destruct (position p s); [done|].
  intros _ x [->|Hx]; [done|by apply IH].
Qed.

Lemma is_newline_spec b : is_newline b = true <-> b = newline.
Proof. apply Ascii.eqb_eq. Qed.

(** Where a replay starts. *)
Lemma replay_start c ops r :
  ring_rep c ops r ->
  let n := length (stream ops) - c in
  let dropped := if is_complete r then 0 else match position is_newline (snapshot r) with Some rel => S rel | None => 0 end in
  (is_complete r = true -> n + dropped = 0)
  /\ (n + dropped = 0
      \/ stream ops !! pred (n + dropped) = Some newline
      \/ dropped = 0 /\ newline ∉ skipn n (stream ops)).
Proof.
  intros R. cbv zeta. rewrite (rep_snapshot _ _ _ R). set (n := length (stream ops) - c).
  assert (is_complete r = true -> n = 0) as Hn.
  { unfold is_complete. rewrite (rep_total _ _ _ R), (rep_length _ _ _ R), Z.eqb_eq. lia. }
  destruct (is_complete r); [split; [intros _; by rewrite Hn|left; by rewrite Hn]|]. split; [done|].
  destruct (position is_newline (skipn n (stream ops))) as [rel|] eqn:Ep.
  - right. left. apply position_spec in Ep as (l & x & rest & Hs & <- & ->%is_newline_spec & _).
    rewrite Nat.add_succ_r. cbn [pred]. rewrite <- (firstn_skipn n (stream ops)), Hs, lookup_app_r.
    + rewrite length_firstn. replace (n + length l - _) with (length l) by (unfold n; lia). by rewrite list_lookup_middle.
    + rewrite length_firstn. lia.
  - right. right. split; [done|]. intros Hin%list_elem_of_In. apply (position_none _ _ Ep) in Hin. by apply not_true_iff_false in Hin; rewrite is_newline_spec in Hin.
Qed.

Lemma run_ring_rep c ops r : (r0 ← with_capacity c; run_ops r0 ops) = Some r -> ring_rep c ops r.
Proof.
  destruct (with_capacity c) as [r0|] eqn:E0; [|done]. cbn [mbind option_bind]. intros E.
  destruct (run_rep _ _ _ ops (rep_new _ _ E0)) as (r' & E' & R). rewrite E in E'. by injection E' as <-.
Qed.

Lemma replay_reads c ops r prefix :
  (r0 ← with_capacity c; run_ops r0 ops) = Some r ->
  let '(replay, spans) := replay_snapshot_into prefix r in
  exists start,
    replay = prefix ++ skipn start (stream ops)
    /\ (is_complete r = true -> start = 0)
    /\ (start = 0 \/ stream ops !! pred start = Some newline
        \/ start = length (stream ops) - c /\ newline ∉ skipn start (stream ops))
    /\ (forall j s, produced (0, 0)%Z ops !! (start + j) = Some s -> settled (sizes r) (Z.of_nat (start + j)) ->
          span_at spans (Z.of_nat (length prefix + j)) = s)
    /\ (forall j, j < length prefix -> span_at spans (Z.of_nat j) = span_at spans (Z.of_nat (length prefix))).
Proof.
  intros R%run_ring_rep. pose proof (replay_start _ _ _ R) as [Hcomp Hstart]. pose proof (rep_oldest _ _ _ R) as Ho.
  unfold replay_snapshot_into. cbv zeta in *. set (dropped := if is_complete r then 0 else _) in *.
  destruct (size_at (oldest_offset r + Z.of_nat dropped) (sizes r)) as [cl rw] eqn:Esz.
  set (n := length (stream ops) - c) in *. set (f := (oldest_offset r + Z.of_nat dropped)%Z) in *.
  assert (Z.of_nat (n + dropped) = f) as Hf by (unfold f; lia). exists (n + dropped).
  assert (cl = (size_at f (sizes r)).1 /\ rw = (size_at f (sizes r)).2) as [-> ->] by (by rewrite Esz).
  pose proof (log_sorted _ _ _ _ (rep_log _ _ _ R)) as Hsort. split_and!.
  - by rewrite (rep_snapshot _ _ _ R), drop_drop.
  - done.
  - destruct Hstart as [?|[?|[-> ?]]]; [by left|by right; left|]. rewrite Nat.add_0_r. auto.
  - intros j s Hj Hset. replace (Z.of_nat (length prefix + j)) with (Z.of_nat (length prefix) + (Z.of_nat (n + dropped + j) - f))%Z by lia.
    rewrite spans_follow by (try done; lia). apply (log_exact _ _ _ _ (rep_log _ _ _ R)); [done|unfold f in Hf; lia|done].
  - intros j Hj. rewrite spans_prefix by lia.
    pose proof (spans_follow (Z.of_nat (length prefix)) f (sizes r) f Hsort ltac:(lia) ltac:(lia)) as Hat.
    rewrite (Z.sub_diag f), Z.add_0_r in Hat. by rewrite Hat.
Qed.

(** What a client is given to rebuild a grid: the seed, then the end of the stream from a
    place that is the beginning of the stream or of a line, unless what is held has no line
    break at all.  The spans say of each byte of the stream the size it was produced at,
    from the second logged change on, and of all bytes as long as the log has room; the
    seed is read at the size of the first byte behind it. *)
Theorem a_replay_is_read_at_its_sizes c ops r prefix :
  (r0 ← with_capacity c; run_ops r0 ops) = Some r ->
  let '(replay, spans) := replay_snapshot_into prefix r in
  exists start,
    replay = prefix ++ skipn start (stream ops)
    /\ (is_complete r = true -> start = 0)
    /\ (start = 0 \/ stream ops !! pred start = Some newline
        \/ start = length (stream ops) - c /\ newline ∉ skipn start (stream ops))
    /\ (forall j s, produced (0, 0)%Z ops !! (start + j) = Some s -> settled (sizes r) (Z.of_nat (start + j)) ->
          span_at spans (Z.of_nat (length prefix + j)) = s)
    /\ (forall j, j < length prefix -> span_at spans (Z.of_nat j) = span_at spans (Z.of_nat (length prefix))).
Proof. apply replay_reads. Qed.

(** ** The terminal *)

Inductive PtyOp := PRead (bs : list ascii) | PResize (s : Z * Z).

Definition pty_op (p : DaemonPty) (o : PtyOp) : option (DaemonPty * OutputChunk) :=
  match o with PRead bs => read_chunk bs p | PResize s => Some (resize s p) end.

Fixpoint run_pty (p : DaemonPty) (ops : list PtyOp) : option (DaemonPty * list OutputChunk) :=
  match ops with
  | [] => Some (p, [])
  | o :: ops => '(p, c) ← pty_op p o; '(p, l) ← run_pty p ops; Some (p, c :: l)
  end.

Definition ring_op (o : PtyOp) : RingOp := match o with PRead bs => Push bs | PResize s => Note s end.
Definition op_bytes (o : PtyOp) : list ascii := match o with PRead bs => bs | PResize _ => [] end.

(** What was broadcast: numbered without a gap, the bytes as they were read. *)
Definition chunk_bytes_of (cs : list OutputChunk) : list ascii := concat (map chunk_bytes cs).

Fixpoint numbered (from : Z) (cs : list OutputChunk) : Prop :=
  match cs with [] => True | c :: cs => seq c = (from + 1)%Z /\ numbered (from + 1) cs end.

Lemma pty_op_rep c ops p o :
  ring_rep c ops (ring p) ->
  exists p' ch, pty_op p o = Some (p', ch) /\ ring_rep c (ops ++ [ring_op o]) (ring p') /\ seed p' = seed p
    /\ pty_seq p' = (pty_seq p + 1)%Z /\ seq ch = (pty_seq p + 1)%Z /\ chunk_bytes ch = op_bytes o
    /\ chunk_size ch = last_noted (0, 0)%Z (ops ++ [ring_op o]).
Proof.
  intros R. destruct o as [bs|s]; cbn [pty_op ring_op op_bytes].
  - unfold read_chunk. destruct (push_rep _ _ _ bs R) as (r' & -> & R'). cbn [mbind option_bind]. eexists _, _.
    split; [reflexivity|]. cbn [chunk_size ring seed pty_seq seq chunk_bytes]. split_and!; try done. apply (rep_size _ _ _ R').
  - eexists _, _. split_and!; try done; [by apply note_size_rep|]. cbn [chunk_size resize]. by rewrite last_noted_app.
Qed.

Lemma run_pty_rep c ops p l :
  ring_rep c ops (ring p) ->
  exists p' cs, run_pty p l = Some (p', cs) /\ ring_rep c (ops ++ map ring_op l) (ring p') /\ seed p' = seed p
    /\ pty_seq p' = (pty_seq p + Z.of_nat (length cs))%Z /\ numbered (pty_seq p) cs
    /\ stream (ops ++ map ring_op l) = stream ops ++ chunk_bytes_of cs.
Proof.
  revert ops p. induction l as [|o l IH]; intros ops p R; cbn [run_pty map].
  { exists p, []. rewrite app_nil_r. split_and!; try done; [cbn; lia|unfold chunk_bytes_of; cbn; by rewrite app_nil_r]. }
  destruct (pty_op_rep _ _ _ o R) as (p1 & ch & -> & R1 & Hs1 & Hq1 & Hc & Hb & _). cbn [mbind option_bind].
  destruct (IH _ _ R1) as (p' & cs & -> & R' & Hs' & Hq' & Hn & Hst). cbn [mbind option_bind]. exists p', (ch :: cs).
  rewrite <- app_assoc in R', Hst. cbn [app] in R', Hst. split_and!; try done.
  - congruence.
  - rewrite Hq', Hq1. cbn [length]. lia.
  - cbn [numbered]. split; [done|]. by rewrite <- Hq1.
  - rewrite Hst, stream_app, <- app_assoc. unfold chunk_bytes_of. cbn [map concat]. rewrite Hb.
    destruct o; cbn [ring_op stream op_bytes]; by rewrite ?app_nil_r.
Qed.

Lemma spawn_rep c initial s p0 : spawn_inner c initial s = Some p0 -> ring_rep c [Note s] (ring p0) /\ seed p0 = initial.
Proof.
  unfold spawn_inner. destruct (with_capacity c) as [r|] eqn:E; [|done]. cbn [mbind option_bind]. intros [= <-]. split; [|done].
  apply (note_size_rep c []), (rep_new _ _ E).
Qed.

(** C32: A subscription cuts the output of a terminal in two: its replay ends the seed and what
    was broadcast before it, its last number is that of the last chunk before it, and what
    follows is numbered from there.  So no chunk is lost between them, and none comes
    twice; while the ring holds everything, the replay is everything. *)
Theorem a_subscription_cuts_the_output_once c initial s p0 before after p1 cs1 :
  spawn_inner c initial s = Some p0 -> run_pty p0 before = Some (p1, cs1) ->
  let sn := snapshot_locked p1 in
  (exists start, replay sn = initial ++ skipn start (chunk_bytes_of cs1) /\ (complete sn = true -> start = 0))
  /\ numbered (pty_seq p0) cs1 /\ last_seq sn = (pty_seq p0 + Z.of_nat (length cs1))%Z
  /\ exists p2 cs2, run_pty p1 after = Some (p2, cs2) /\ numbered (last_seq sn) cs2.
Proof.
  intros Hsp Hb. destruct (spawn_rep _ _ _ _ Hsp) as [R0 Hseed]. cbv zeta.
  destruct (run_pty_rep _ _ _ before R0) as (p1' & cs1' & Hb' & R1 & Hs1 & Hq1 & Hn1 & Hst). rewrite Hb in Hb'. injection Hb' as <- <-.
  destruct (run_pty_rep _ _ _ after R1) as (p2 & cs2 & Ha & _ & _ & _ & Hn2 & _).
  unfold snapshot_locked. destruct (replay_snapshot_into (seed p1) (ring p1)) as [rp spans] eqn:Er. cbn [replay complete last_seq].
  split_and!; [|done|done|by exists p2, cs2]. rewrite Hs1, Hseed in Er. unfold replay_snapshot_into in Er. cbv zeta in Er.
  set (dropped := if is_complete (ring p1) then 0 else _) in Er. destruct (size_at _ _). injection Er as <- _.
  destruct (replay_start _ _ _ R1) as [Hc _]. cbn [app stream] in *. rewrite (rep_snapshot _ _ _ R1), drop_drop. cbn [app stream].
  exists (length (stream (map ring_op before)) - c + dropped). rewrite <- Hst. split; [done|]. exact Hc.
Qed.

(** Pulls that start where the last one ended join up: as long as none is refused, what
    they returned is the output of the terminal from the first offset on. *)
Theorem deltas_join_up c initial s p0 before after p1 cs1 p2 cs2 from d1 d2 :
  spawn_inner c initial s = Some p0 -> run_pty p0 before = Some (p1, cs1) -> run_pty p1 after = Some (p2, cs2) ->
  (0 <= from <= Z.of_nat (length (chunk_bytes_of cs1)))%Z ->
  pty_read_since from p1 = Some d1 -> pty_read_since (to_offset d1) p2 = Some d2 ->
  delta_bytes d1 ++ delta_bytes d2 = skipn (Z.to_nat from) (chunk_bytes_of (cs1 ++ cs2))
  /\ from_offset d1 = from /\ from_offset d2 = to_offset d1
  /\ to_offset d2 = Z.of_nat (length (chunk_bytes_of (cs1 ++ cs2))).
Proof.
  intros Hsp Hb Ha Hf. destruct (spawn_rep _ _ _ _ Hsp) as [R0 _].
  destruct (run_pty_rep _ _ _ before R0) as (p1' & cs1' & Hb' & R1 & _ & _ & _ & Hs1). rewrite Hb in Hb'. injection Hb' as <- <-.
  destruct (run_pty_rep _ _ _ after R1) as (p2' & cs2' & Ha' & R2 & _ & _ & _ & Hs2). rewrite Ha in Ha'. injection Ha' as <- <-.
  cbn [app stream] in Hs1, Hs2. pose proof (rep_total _ _ _ R1) as Ht1. pose proof (rep_total _ _ _ R2) as Ht2.
  cbn [app stream] in Ht1, Ht2. rewrite Hs1 in Ht1, Hs2. rewrite Hs2 in Ht2.
  assert (chunk_bytes_of (cs1 ++ cs2) = chunk_bytes_of cs1 ++ chunk_bytes_of cs2) as Hcat
    by (unfold chunk_bytes_of; by rewrite map_app, concat_app).
  unfold pty_read_since. rewrite (read_since_rep _ _ _ _ R1), (read_since_rep _ _ _ (to_offset d1) R2). cbn [app stream]. rewrite Hs1, Hs2.
  destruct (Z.leb_spec (oldest_offset (ring p1)) from) as [Hle|]; [|done]. intros [= <-]. cbn [to_offset].
  destruct (Z.leb_spec (oldest_offset (ring p2)) (total_written (ring p1))) as [Hle2|]; [|done]. intros [= <-].
  cbn [delta_bytes from_offset to_offset]. rewrite Hcat, length_app in *. split_and!; try lia.
  replace (Z.to_nat (Z.min (Z.max from (oldest_offset (ring p1))) (total_written (ring p1)))) with (Z.to_nat from) by lia.
  replace (Z.to_nat (Z.min (Z.max (total_written (ring p1)) (oldest_offset (ring p2))) (total_written (ring p2))))
    with (length (chunk_bytes_of cs1)) by lia.
  by rewrite drop_app_length, drop_app_le by lia.
Qed.
