(* ===== verification/ScrollbackProps.v ===== *)
(** * What a restarted terminal is seeded with

    The scrollback file of ReplayRing.v: it stays bounded, it holds the end of the output,
    and what a restart makes of it is that end without the blank rows behind it.  The last section runs the
    ring of eight bytes through what wraps it. *)

From Stdlib Require Import Ascii.
From S2P Require Import Prelude ReplayRing ReplayRingProps.

#[local] Open Scope nat_scope.

(** ** Rows *)

Fixpoint rows_of (s : list ascii) : list (list ascii) :=
  match s with
  | [] => [[]]
  | b :: s => if is_newline b then [] :: rows_of s
              else match rows_of s with row :: l => (b :: row) :: l | [] => [] end
  end.

Definition blank_rows (s : list ascii) : Prop := Forall (fun row => is_blank_capture_line row = true) (rows_of s).

Lemma rows_of_line l r :
  (forall b, In b l -> is_newline b = false) -> rows_of (l ++ newline :: r) = l :: rows_of r.
Proof.
  induction l as [|b l IH]; intros Hl; [done|]. cbn [app rows_of]. rewrite (Hl b) by (by left).
  rewrite IH; [done|]. intros x Hx. apply Hl. by right.
Qed.

Lemma rows_of_last l : (forall b, In b l -> is_newline b = false) -> rows_of l = [l].
Proof.
  induction l as [|b l IH]; intros Hl; [done|]. cbn [rows_of]. rewrite (Hl b) by (by left).
  rewrite IH; [done|]. intros x Hx. apply Hl. by right.
Qed.

Lemma blank_row l r :
  (forall b, In b l -> is_newline b = false) -> is_blank_capture_line l = true -> blank_rows r -> blank_rows (l ++ newline :: r).
Proof. intros Hl Hb Hr. unfold blank_rows. rewrite rows_of_line by done. by constructor. Qed.

Lemma rposition_spec {A} (p : A -> bool) s i :
  rposition p s = Some i -> exists l x r, s = l ++ x :: r /\ length l = i /\ p x = true /\ forall y, In y r -> p y = false.
Proof.
  revert i. induction s as [|x s IH]; intros i; cbn; [done|]. destruct (rposition p s) as [j|] eqn:Ej.
  - intros [= <-]. destruct (IH j eq_refl) as (l & y & r & -> & <- & Hy & Hr). by exists (x :: l), y, r.
  - destruct (p x) eqn:Ep; [|done]. intros [= <-]. exists [], x, s. split_and!; try done.
    clear -Ej. induction s as [|z s IH]; intros y Hy; cbn in *; [done|]. destruct (rposition p s); [done|]. destruct (p z) eqn:Ez; [done|].
    destruct Hy as [->|Hy]; [done|by apply IH].
Qed.

Lemma rposition_none {A} (p : A -> bool) s : rposition p s = None -> forall y, In y s -> p y = false.
Proof.
  induction s as [|z s IH]; intros Ej y Hy; cbn in *; [done|]. destruct (rposition p s); [done|]. destruct (p z) eqn:Ez; [done|].
  destruct Hy as [->|Hy]; [done|by apply IH].
Qed.

(** ** The end of the content *)

(** Behind the cursor of the scan: nothing, or a line break and blank rows. *)
Definition scanned (bs : list ascii) (e : nat) : Prop :=
  e = length bs \/ (e = 0 /\ blank_rows bs) \/ exists r, bs = firstn e bs ++ newline :: r /\ blank_rows r.

Definition last_row (s : list ascii) : list ascii :=
  skipn (match rposition is_newline s with Some nl => S nl | None => 0 end) s.

Lemma scanned_step bs e :
  0 < e <= length bs -> scanned bs e -> is_blank_capture_line (last_row (firstn e bs)) = true ->
  let e' := (match rposition is_newline (firstn e bs) with Some nl => S nl | None => 0 end) - 1 in
  e' < e /\ scanned bs e'.
Proof.
  intros He Hs Hb. cbv zeta. unfold last_row in Hb. set (front := firstn e bs) in *.
  assert (length front = e) as Hf by (unfold front; rewrite length_firstn; lia).
  assert (exists rest, bs = front ++ rest /\ (rest = [] \/ exists r, rest = newline :: r /\ blank_rows r)) as (rest & Hbs & Hrest).
  { exists (skipn e bs). split; [symmetry; apply firstn_skipn|]. destruct Hs as [->|[[-> _]|(r & Hr & Hbl)]]; [left; apply skipn_all|lia|].
    right. exists r. split; [|done]. apply (app_inv_head front). unfold front. rewrite <- Hr. apply firstn_skipn. }
  destruct (rposition is_newline front) as [nl|] eqn:Ep.
  - apply rposition_spec in Ep as (l & x & line & Hfr & <- & ->%is_newline_spec & Hline).
    rewrite Hfr in Hb. change (l ++ newline :: line) with (l ++ [newline] ++ line) in Hb.
    rewrite app_assoc in Hb. replace (S (length l)) with (length (l ++ [newline])) in Hb by (rewrite length_app; cbn; lia).
    rewrite drop_app_length in Hb. assert (e = length l + S (length line)) as Hel by (rewrite <- Hf, Hfr, length_app; done).
    cbn [Nat.sub]. rewrite Nat.sub_0_r. split; [lia|]. right. right.
    exists (line ++ rest). split.
    + rewrite Hbs at 1. rewrite Hbs, Hfr, <- app_assoc. by rewrite take_app_length.
    + destruct Hrest as [->|(r & -> & Hr)]; [|by apply blank_row]. rewrite app_nil_r. unfold blank_rows. rewrite rows_of_last by done. by constructor.
  - cbn [Nat.sub]. split; [lia|]. right. left. split; [done|]. rewrite drop_0 in Hb. pose proof (rposition_none _ _ Ep) as Hno.
    rewrite Hbs. destruct Hrest as [->|(r & -> & Hr)]; [|by apply blank_row]. rewrite app_nil_r. unfold blank_rows. rewrite rows_of_last by done. by constructor.
Qed.

Lemma content_end_spec bs fuel e :
  e <= fuel -> e <= length bs -> scanned bs e ->
  let e' := content_end_from fuel bs e in
  e' <= length bs /\ scanned bs e' /\ (e' = 0 \/ is_blank_capture_line (last_row (firstn e' bs)) = false).
Proof.
  revert e. induction fuel as [|fuel IH]; intros e Hf Hl Hs; cbn [content_end_from].
  { assert (e = 0) as -> by lia. auto. }
  destruct (Nat.eqb_spec e 0) as [->|Hne]; [by auto|]. change (skipn _ (firstn e bs)) with (last_row (firstn e bs)).
  destruct (is_blank_capture_line (last_row (firstn e bs))) eqn:Eb; [|by auto].
  destruct (scanned_step bs e ltac:(lia) Hs Eb) as [Hlt Hs']. apply IH; [lia|lia|done].
Qed.

(** The seed is the content with the line break behind its last row; what is cut off are
    blank rows, and the last row that stays has something to see. *)
Lemma trim_spec bs :
  exists content cut, bs = trim_trailing_blank_seed bs ++ cut /\ blank_rows cut
    /\ (trim_trailing_blank_seed bs = [] /\ content = []
        \/ (trim_trailing_blank_seed bs = content \/ trim_trailing_blank_seed bs = content ++ [newline])
           /\ is_blank_capture_line (last_row content) = false).
Proof.
  unfold trim_trailing_blank_seed, content_end. destruct (content_end_spec bs (length bs) (length bs)) as (Hl & Hs & Hlast); [done..|by left|].
  set (e := content_end_from (length bs) bs (length bs)) in *. cbv zeta in *. assert (blank_rows []) as Hnil by (by repeat constructor).
  destruct (Nat.eqb_spec e 0) as [He|He].
  - rewrite He in *. destruct Hs as [Hz|[[_ Hb]|(r & Hr & Hb)]].
    + exists [], []. assert (bs = []) as -> by (by apply length_zero_iff_nil). auto.
    + exists [], bs. auto.
    + exists [], bs. split_and!; [done| |by left]. rewrite Hr. rewrite take_0. cbn [app]. by apply (blank_row []).
  - destruct Hlast as [|Hlast]; [done|]. exists (firstn e bs). destruct (Nat.ltb_spec e (length bs)) as [Hlt|Hge].
    + destruct Hs as [?|[[? _]|(r & Hr & Hb)]]; [lia|lia|]. exists r.
      assert (firstn (S e) bs = firstn e bs ++ [newline]) as ->.
      { rewrite Hr at 1. assert (length (firstn e bs) = e) as Hfe by (rewrite length_firstn; lia).
        rewrite take_app_ge by lia. rewrite Hfe. by replace (S e - e) with 1 by lia. }
      split_and!; [by rewrite <- app_assoc|done|]. right. auto.
    + exists []. rewrite app_nil_r. split_and!; [done|done|]. right. rewrite firstn_all2 in Hlast |- * by done. auto.
Qed.

(** ** The file *)

Lemma persist_bytes : Z.of_nat SCROLLBACK_PERSIST_BYTES = 2097152%Z.
Proof. by apply Z2Nat.id. Qed.

#[local] Opaque SCROLLBACK_PERSIST_BYTES.
#[local] Notation persist := SCROLLBACK_PERSIST_BYTES.

(** A place a line starts at, unless the kept number of bytes from it have no line break. *)
Definition line_start (written : list ascii) (k : nat) : Prop :=
  k = 0 \/ written !! pred k = Some newline
  \/ persist <= length (skipn k written) /\ newline ∉ firstn persist (skipn k written).

Lemma line_start_app w k w' : k <= length w -> line_start w k -> line_start (w ++ w') k.
Proof.
  intros Hk [->|[Hn|[Hl Hn]]]; [by left|right; left; by apply lookup_app_l_Some|]. right. right.
  rewrite drop_app_le by done. rewrite length_app. split; [lia|]. by rewrite take_app_le.
Qed.

Lemma line_start_drop w k j :
  k <= length w -> line_start w k -> line_start (skipn k w) j -> line_start w (k + j).
Proof.
  intros Hk Hs [->|[Hn|[Hl Hn]]].
  - by rewrite Nat.add_0_r.
  - destruct j as [|j]; [by rewrite Nat.add_0_r|]. right. left. rewrite Nat.add_succ_r. cbn [pred] in *. by rewrite lookup_drop in Hn.
  - right. right. by rewrite <- drop_drop.
Qed.

Lemma tail_spec file :
  exists k, read_scrollback_tail file persist = skipn k file /\ k <= length file
    /\ length (skipn k file) <= persist /\ line_start file k.
Proof.
  unfold read_scrollback_tail. destruct (Nat.ltb_spec 0 (length file - persist)) as [Hlt|Hge].
  - destruct (position is_newline (skipn (length file - persist) file)) as [nl|] eqn:Ep.
    + exists (length file - persist + S nl). apply position_spec in Ep as (l & x & r & Hs & <- & ->%is_newline_spec & _).
      pose proof (f_equal length Hs) as Hl. rewrite length_skipn, length_app in Hl. cbn [length] in Hl.
      rewrite <- drop_drop. split_and!; [done|lia|rewrite !length_skipn; lia|]. right. left. rewrite Nat.add_succ_r. cbn [pred].
      rewrite <- lookup_drop, Hs. by apply list_lookup_middle.
    + exists (length file - persist). split_and!; [done|lia|rewrite length_skipn; lia|]. right. right. rewrite length_skipn. split; [lia|].
      intros Hin. pose proof (position_none _ _ Ep newline) as Hno. rewrite firstn_all2 in Hin by (rewrite length_skipn; lia).
      apply list_elem_of_In, Hno, not_true_iff_false in Hin. by rewrite is_newline_spec in Hin.
  - exists 0. replace (length file - persist) with 0 by lia. rewrite drop_0. split_and!; [done|lia|lia|by left].
Qed.

Definition holds_the_end (written : list ascii) (l : ScrollbackLog) : Prop :=
  attached l = true /\ log_len l = Z.of_nat (length (on_disk l)) /\ (log_len l <= SCROLLBACK_COMPACT_BYTES)%Z
  /\ exists k, on_disk l = skipn k written /\ k <= length written /\ line_start written k.

Definition healthy : Disk := mkDisk true true true true true.

Lemma append_holds written l bs :
  holds_the_end written l -> holds_the_end (written ++ bs) (append healthy bs l).
Proof.
  intros (Ha & Hl & Hb & k & Hd & Hk & Hs). unfold append. cbn [wrote healthy]. rewrite Ha. cbn [log_len on_disk].
  assert (on_disk l ++ bs = skipn k (written ++ bs)) as Hd' by (by rewrite drop_app_le, Hd).
  assert (log_len l + Z.of_nat (length bs) = Z.of_nat (length (on_disk l ++ bs)))%Z as Hl' by (rewrite length_app; lia).
  assert (k <= length (written ++ bs)) as Hk' by (rewrite length_app; lia). pose proof (line_start_app _ _ bs Hk Hs) as Hs'.
  destruct (Z.ltb_spec SCROLLBACK_COMPACT_BYTES (log_len l + Z.of_nat (length bs))) as [Hc|Hc].
  - unfold compact. cbn [readable tmp_written renamed reopened healthy andb on_disk]. 
    destruct (tail_spec (on_disk l ++ bs)) as (j & -> & Hj & Hlen & Hst). split; [reflexivity|]. split; [reflexivity|]. split.
    + cbn [log_len]. pose proof persist_bytes. unfold SCROLLBACK_COMPACT_BYTES. lia.
    + exists (k + j). cbn [on_disk]. rewrite Hd' in *. rewrite drop_drop. rewrite length_skipn in Hj.
      split; [reflexivity|]. split; [lia|by apply line_start_drop].
  - split; [reflexivity|]. split; [exact Hl'|]. split; [exact Hc|]. by exists k.
Qed.

Lemma trim_length bs : length (trim_trailing_blank_seed bs) <= length bs.
Proof. destruct (trim_spec bs) as (_ & cut & Hb & _). rewrite Hb at 2. rewrite length_app. lia. Qed.

(** The file never holds more than twice what is kept, and a restart is seeded with the end
    of everything that was written: at most the kept size, from the start of a line (or
    from inside a line longer than that), and cut only behind the last row with something
    to see. *)
Theorem a_restart_is_seeded_with_the_end_of_the_output outputs :
  let l := fold_left (fun l bs => append healthy bs l) outputs (mkLog [] true 0) in
  (Z.of_nat (length (on_disk l)) <= SCROLLBACK_COMPACT_BYTES)%Z
  /\ exists front cut,
       concat outputs = front ++ persistent_seed (on_disk l) ++ cut
       /\ length (persistent_seed (on_disk l)) <= SCROLLBACK_PERSIST_BYTES
       /\ line_start (concat outputs) (length front) /\ blank_rows cut
       /\ (persistent_seed (on_disk l) = []
           \/ exists content, (persistent_seed (on_disk l) = content \/ persistent_seed (on_disk l) = content ++ [newline])
                              /\ is_blank_capture_line (last_row content) = false).
Proof.
  cbv zeta. assert (forall written l, holds_the_end written l ->
    holds_the_end (written ++ concat outputs) (fold_left (fun l bs => append healthy bs l) outputs l)) as Hall.
  { induction outputs as [|bs outputs IH]; intros w l Hl; cbn [fold_left concat]; [by rewrite app_nil_r|].
    rewrite app_assoc. by apply IH, append_holds. }
  destruct (Hall [] (mkLog [] true 0)) as (_ & Hl & Hb & k & Hd & Hk & Hs).
  { split; [reflexivity|]. split; [reflexivity|]. split; [by vm_compute|].
    exists 0. split; [reflexivity|]. split; [lia|by left]. }
  cbn [app] in *. set (l := fold_left _ _ _) in *. split; [lia|]. unfold persistent_seed. 
  destruct (tail_spec (on_disk l)) as (j & Htail & Hj & Hlen & Hst). rewrite Htail.
  destruct (trim_spec (skipn j (on_disk l))) as (content & cut & Hcut & Hblank & Hcontent).
  exists (firstn (k + j) (concat outputs)), cut. rewrite Hd in Hj, Hst. rewrite length_skipn in Hj. split_and!.
  - rewrite <- Hcut, Hd, drop_drop. symmetry. apply firstn_skipn.
  - pose proof (trim_length (skipn j (on_disk l))). lia.
  - rewrite length_firstn, Nat.min_l by lia. by apply line_start_drop.
  - done.
  - destruct Hcontent as [[? _]|?]; [by left|right; by exists content].
Qed.

(** A compaction that cannot read the file back takes it for an empty one, and replaces it:
    the scrollback of the session is gone, though the disk refused nothing else. *)
Example an_unreadable_log_is_emptied :
  forall old n, compact (mkDisk true false true true true) (mkLog old true n) = mkLog [] true 0.
Proof. done. Qed.

(** ** A ring of eight bytes *)

(** Two lines before a resize, one and a half behind it. *)
Definition wrapped_ops : list RingOp :=
  [Note (80, 24)%Z; Push ["a"; "b"; newline; "c"]%char; Note (100, 30)%Z; Push [newline; "d"; "e"; newline; "f"; "g"]%char].

Lemma wrapped_runs : exists r, (r0 ← with_capacity 8; run_ops r0 wrapped_ops) = Some r
  /\ total_written r = 10%Z /\ length (sizes r) < SIZE_LOG_CAP.
Proof. eexists. split; [vm_compute; reflexivity|]. split; [reflexivity|]. apply Nat.ltb_lt. vm_compute. reflexivity. Qed.

Example wrapped_replay :
  (fun r => replay_snapshot_into ["s"]%char r) <$> (r0 ← with_capacity 8; run_ops r0 wrapped_ops)
  = Some (["s"; "c"; newline; "d"; "e"; newline; "f"; "g"]%char, [mkSpan 0 80 24; mkSpan 2 100 30]).
Proof. reflexivity. Qed.

Lemma the_ring_is_the_end_of_the_stream_witness :
  exists r, (r0 ← with_capacity 8; run_ops r0 wrapped_ops) = Some r
    /\ snapshot r = skipn (length (stream wrapped_ops) - 8) (stream wrapped_ops).
Proof.
  destruct (the_ring_is_the_end_of_the_stream 8 wrapped_ops) as (r & Hr & _ & Hs & _); [lia|unfold MAX_RING_SIZE; lia|].
  exists r. split; [exact Hr|exact Hs].
Defined.

Lemma a_replay_is_read_at_its_sizes_witness :
  exists r start, (r0 ← with_capacity 8; run_ops r0 wrapped_ops) = Some r
    /\ (replay_snapshot_into [] r).1 = skipn start (stream wrapped_ops)
    /\ (start = 0 \/ stream wrapped_ops !! pred start = Some newline \/ start = length (stream wrapped_ops) - 8).
Proof.
  destruct wrapped_runs as (r & Hr & _). pose proof (a_replay_is_read_at_its_sizes 8 wrapped_ops r [] Hr) as H.
  destruct (replay_snapshot_into [] r) as [replay spans] eqn:E. destruct H as (start & Hrep & _ & Hst & _).
  exists r, start. rewrite E. split; [exact Hr|]. split; [exact Hrep|]. destruct Hst as [?|[?|[? _]]]; auto.
Defined.

(** A seeded terminal; a subscriber comes between two reads. *)
Definition first_reads : list PtyOp := [PRead ["a"; "b"; newline]%char; PResize (100, 30)%Z].
Definition later_reads : list PtyOp := [PRead ["c"; "d"]%char].

Lemma subscribed : exists p0 p1 cs1 p2 cs2,
  spawn_inner 8 ["s"]%char (80, 24)%Z = Some p0 /\ run_pty p0 first_reads = Some (p1, cs1) /\ run_pty p1 later_reads = Some (p2, cs2).
Proof. eexists _, _, _, _, _. split; [vm_compute; reflexivity|]. split; vm_compute; reflexivity. Qed.

Lemma a_subscription_cuts_the_output_once_witness :
  exists p0 p1 cs1, spawn_inner 8 ["s"]%char (80, 24)%Z = Some p0 /\ run_pty p0 first_reads = Some (p1, cs1)
    /\ numbered (pty_seq p0) cs1 /\ last_seq (snapshot_locked p1) = (pty_seq p0 + Z.of_nat (length cs1))%Z.
Proof.
  destruct subscribed as (p0 & p1 & cs1 & _ & _ & H0 & H1 & _).
  destruct (a_subscription_cuts_the_output_once 8 ["s"]%char (80, 24)%Z p0 first_reads later_reads p1 cs1 H0 H1) as (_ & Hn & Hl & _).
  exists p0, p1, cs1. split; [exact H0|]. split; [exact H1|]. split; [exact Hn|exact Hl].
Defined.

(** A transfer pulls from the second byte, and again behind the later read. *)
Lemma pulled : exists p0 p1 cs1 p2 cs2 d1 d2,
  spawn_inner 8 ["s"]%char (80, 24)%Z = Some p0 /\ run_pty p0 first_reads = Some (p1, cs1) /\ run_pty p1 later_reads = Some (p2, cs2)
  /\ (0 <= 1 <= Z.of_nat (length (chunk_bytes_of cs1)))%Z
  /\ pty_read_since 1 p1 = Some d1 /\ pty_read_since (to_offset d1) p2 = Some d2.
Proof.
  eexists _, _, _, _, _, _, _. split; [vm_compute; reflexivity|]. split; [vm_compute; reflexivity|]. split; [vm_compute; reflexivity|].
  split; [split; vm_compute; discriminate|]. split; vm_compute; reflexivity.
Qed.

Lemma deltas_join_up_witness :
  exists cs1 cs2 d1 d2, delta_bytes d1 ++ delta_bytes d2 = skipn 1 (chunk_bytes_of (cs1 ++ cs2)) /\ to_offset d2 = Z.of_nat (length (chunk_bytes_of (cs1 ++ cs2))).
Proof.
  destruct pulled as (p0 & p1 & cs1 & p2 & cs2 & d1 & d2 & H0 & H1 & H2 & Hf & Hd1 & Hd2).
  destruct (deltas_join_up 8 ["s"]%char (80, 24)%Z p0 first_reads later_reads p1 cs1 p2 cs2 1 d1 d2 H0 H1 H2 Hf Hd1 Hd2) as (Hd & _ & _ & Ht).
  exists cs1, cs2, d1, d2. split; [exact Hd|exact Ht].
Defined.
