(* ===== verification/EventForward.v ===== *)
(** * The forwarder between the daemon and one client

    [src/crates/server/src/event_forward.rs] and the queues of
    [src/crates/ipc/src/lib.rs]: events enter a bounded staging queue, and one forwarder
    per connection moves them into the bounded channel the client reads.  Terminal
    output is the only event it may drop; a terminal whose output was dropped owes a
    replay, which is read from the daemon's ring when there is room.

    A terminal id is its number, an instant is nanoseconds.  An event carries the fields
    the forwarder and the client's streams read; what else a variant holds is one opaque
    value [rest].  Log lines are left out. *)

From Stdlib Require Import Ascii.
From S2P Require Import Prelude ReplayRing.

#[local] Open Scope Z_scope.

#[local] Notation bytes := (list ascii).

(** ** Events ([ipc/src/lib.rs]) *)

Record TerminalSnapshot := mkTerminal {
  snapshot_id : Z;
  snapshot_replay : bytes;
  snapshot_seq : Z;
  replay_available : bool;
  replay_sizes : list ReplaySizeSpan;
  snapshot_rest : bytes;
}.

Inductive Event :=
| Snapshot (terminals : list TerminalSnapshot) (rest : bytes)
| TerminalSpawned (terminal_id : Z) (rest : bytes)
| TerminalOutput (terminal_id : Z) (bs : bytes) (first_seq seq : Z) (size : Z * Z)
| TerminalResync (terminal_id : Z) (replay : bytes) (seq : Z) (sizes : list ReplaySizeSpan)
| TerminalResyncUnavailable (terminal_id : Z)
| TerminalDelta (terminal_id : Z) (rest : bytes)
| TerminalDeltaUnavailable (terminal_id : Z)
| TerminalExited (terminal_id : Z) (rest : bytes)
| TerminalScrollback (terminal_id : Z) (replay : bytes) (seq : Z)
| TerminalReplaced (old_terminal_id terminal_id : Z) (rest : bytes)
| AgentAuthOutput (terminal_id : Z) (bs : bytes) (first_seq seq : Z) (size : Z * Z)
| AgentAuthReplay (terminal_id : Z) (replay : bytes) (seq : Z) (sizes : list ReplaySizeSpan)
| OtherEvent (rest : bytes).

(** ** Capacities *)

Definition DRAIN_QUANTUM : Z := 1024.
Definition EVENT_CAPACITY : Z := DRAIN_QUANTUM * 2.
Definition RAW_EVENT_CAPACITY : Z := EVENT_CAPACITY * 2.
Definition COMMAND_CAPACITY : Z := 256.
Definition MAX_RESYNC_REQUESTS_PER_BATCH : Z := DRAIN_QUANTUM.
Definition AUTHORITATIVE_EVENT_RESERVE : Z := MAX_RESYNC_REQUESTS_PER_BATCH + 1.

Definition MAX_FRAME_BYTES : Z := 64 * 1024 * 1024.
Definition SNAPSHOT_REPLAY_BUDGET : Z := MAX_FRAME_BYTES / 2.
Definition MAX_PENDING_STRUCTURED_EVENTS : Z := RAW_EVENT_CAPACITY.
Definition RESYNC_DEBOUNCE : Z := secs 2.

#[local] Notation len l := (Z.of_nat (length l)).

(** ** The staging queue ([EventSender]) *)

Inductive TrySend := Sent | Full | Closed.

(** The queue with, beside each event, whether it holds a permit of the normal lane; the
    permit goes back when the event is received.  [receiver] is whether the forwarder
    still holds its end. *)
Record Ingress := mkIngress { queued : list (Event * bool); overloaded : bool; receiver : bool }.

Definition normal_slots (q : Ingress) : Z := RAW_EVENT_CAPACITY - len (List.filter snd (queued q)).

(** [tx.try_send] on the channel below. *)
Definition enqueue (entry : Event * bool) (q : Ingress) : Ingress * TrySend :=
  if negb (receiver q) then (q, Closed)
  else if len (queued q) <? RAW_EVENT_CAPACITY + AUTHORITATIVE_EVENT_RESERVE
  then (mkIngress (queued q ++ [entry]) (overloaded q) (receiver q), Sent)
  else (mkIngress (queued q) true (receiver q), Full).

Definition send (e : Event) (q : Ingress) : Ingress * TrySend :=
  if 0 <? normal_slots q then enqueue (e, true) q else (mkIngress (queued q) true (receiver q), Full).

Definition send_authoritative (e : Event) (q : Ingress) : Ingress * TrySend := enqueue (e, false) q.

(** ** Which streams an event touches *)

Inductive StreamScope := Free | Terminals (ids : list Z) | Global.

Definition stream_scope (e : Event) : StreamScope :=
  match e with
  | Snapshot _ _ => Global
  | TerminalSpawned t _ | TerminalResync t _ _ _ | TerminalResyncUnavailable t | TerminalDelta t _
  | TerminalDeltaUnavailable t | TerminalExited t _ | TerminalScrollback t _ _ | AgentAuthReplay t _ _ _ => Terminals [t]
  | TerminalReplaced old t _ => Terminals [old; t]
  | _ => Free
  end.

(** ** The bookkeeping *)

Record ForwardState := mkForward {
  pending : list Event;
  resync_queue : list Z;
  resync_set : gset Z;
  resync_debt : gmap Z Z;
  resync_unavailable_announced : gset Z;
  pending_stream_refs : gmap Z Z;
  pending_global_refs : Z;
  resync_paced_until : gmap Z Z;
  covered_seq : gmap Z Z;
  output_dropped : Z;
  resyncs : Z;
}.

Definition new_state : ForwardState := mkForward [] [] ∅ ∅ ∅ ∅ 0 ∅ ∅ 0 0.

Definition eta_forward (s : ForwardState) : ForwardState :=
  mkForward (pending s) (resync_queue s) (resync_set s) (resync_debt s) (resync_unavailable_announced s)
    (pending_stream_refs s) (pending_global_refs s) (resync_paced_until s) (covered_seq s) (output_dropped s)
    (resyncs s).

#[local] Notation "s '.[' f ':=' v ]" := ltac:(upd eta_forward f v s) (at level 9, f at level 9, only parsing).

Definition set_pending v s := s.[pending := v].
Definition set_queue v s := s.[resync_queue := v].
Definition set_members v s := s.[resync_set := v].
Definition set_debt v s := s.[resync_debt := v].
Definition set_announced v s := s.[resync_unavailable_announced := v].
Definition set_stream_refs v s := s.[pending_stream_refs := v].
Definition set_global_refs v s := s.[pending_global_refs := v].
Definition set_paced v s := s.[resync_paced_until := v].
Definition set_covered v s := s.[covered_seq := v].
Definition set_dropped v s := s.[output_dropped := v].
Definition set_resyncs v s := s.[resyncs := v].

Definition get (m : gmap Z Z) (t : Z) : Z := default 0 (m !! t).

(** Raising and lowering the gate of one terminal; the entry goes at zero. *)
Definition add_ref (m : gmap Z Z) (t : Z) : gmap Z Z := <[t := get m t + 1]> m.
Definition drop_ref (m : gmap Z Z) (t : Z) : gmap Z Z :=
  match m !! t with Some n => if n - 1 =? 0 then delete t m else <[t := n - 1]> m | None => m end.

Definition push_pending (e : Event) (s : ForwardState) : ForwardState :=
  let s := match stream_scope e with
           | Free => s
           | Global => set_global_refs (pending_global_refs s + 1) s
           | Terminals ids => set_stream_refs (fold_left add_ref ids (pending_stream_refs s)) s
           end in
  set_pending (pending s ++ [e]) s.

Definition pop_pending (s : ForwardState) : option (Event * ForwardState) :=
  match pending s with
  | [] => None
  | e :: rest =>
      let s := set_pending rest s in
      Some (e, match stream_scope e with
               | Free => s
               | Global => set_global_refs (pending_global_refs s -sat 1) s
               | Terminals ids => set_stream_refs (fold_left drop_ref ids (pending_stream_refs s)) s
               end)
  end.

Definition pending_blocks_output (t : Z) (s : ForwardState) : bool :=
  (0 <? pending_global_refs s) || bool_decide (is_Some (pending_stream_refs s !! t)).

Definition resync_ready (now t : Z) (s : ForwardState) : bool :=
  is_none_or (fun until => until <=? now) (resync_paced_until s !! t).

Definition is_nil {A} (l : list A) : bool := match l with [] => true | _ => false end.

Definition has_deliverable (now : Z) (s : ForwardState) : bool :=
  negb (is_nil (pending s)) || existsb (fun t => resync_ready now t s) (resync_queue s).

(** The earliest instant at which a queued resync may go. *)
Definition next_pace_deadline (s : ForwardState) : option Z :=
  foldr (fun d o => Some (match o with Some m => Z.min d m | None => d end)) None
    (omap (fun t => resync_paced_until s !! t) (resync_queue s)).

Definition mark_covered (t n : Z) (s : ForwardState) : ForwardState :=
  set_covered (<[t := Z.max (get (covered_seq s) t) n]> (covered_seq s)) s.

Definition is_superseded (t n : Z) (s : ForwardState) : bool :=
  is_some_and (fun covered => n <=? covered) (covered_seq s !! t).

Definition is_idle (s : ForwardState) : bool := is_nil (pending s) && is_nil (resync_queue s).

Definition schedule_resync (t required : Z) (s : ForwardState) : ForwardState :=
  let s := set_dropped (output_dropped s + 1) s in
  let s := set_debt (<[t := Z.max (get (resync_debt s) t) required]> (resync_debt s)) s in
  if bool_decide (t ∈ resync_set s) then s
  else set_resyncs (resyncs s + 1) (set_queue (resync_queue s ++ [t]) (set_members ({[t]} ∪ resync_set s) s)).

Definition drop_resync (t : Z) (s : ForwardState) : ForwardState :=
  let s := if bool_decide (t ∈ resync_set s)
           then set_queue (List.filter (fun x => negb (x =? t)) (resync_queue s)) (set_members (resync_set s ∖ {[t]}) s)
           else s in
  set_announced (resync_unavailable_announced s ∖ {[t]}) (set_debt (delete t (resync_debt s)) s).

(** ** Routing an event *)

(** What routing one event did: the state, what it put into the client's channel, and
    whether the forwarder goes on. *)
Definition Routed : Type := ForwardState * option Event * bool.

(** What a replay, a recovery snapshot and an exit do to the bookkeeping. *)
Definition cover_all (terminals : list TerminalSnapshot) (s : ForwardState) : ForwardState :=
  fold_left (fun s t => if replay_available t
                        then drop_resync (snapshot_id t) (mark_covered (snapshot_id t) (snapshot_seq t) s) else s)
    terminals s.

Definition note_event (e : Event) (s : ForwardState) : ForwardState :=
  match e with
  | Snapshot terminals _ => cover_all terminals s
  | TerminalResync t _ n _ | AgentAuthReplay t _ n _ => drop_resync t (mark_covered t n s)
  | TerminalExited t _ =>
      let s := drop_resync t s in
      set_paced (delete t (resync_paced_until s)) (set_covered (delete t (covered_seq s)) s)
  | _ => s
  end.

Definition route_output (answer : TrySend) (e : Event) (t n : Z) (s : ForwardState) : Routed :=
  if is_superseded t n s then (s, None, true)
  else if pending_blocks_output t s || bool_decide (t ∈ resync_set s) || bool_decide (is_Some (resync_debt s !! t))
  then (schedule_resync t n s, None, true)
  else match answer with
       | Sent => (s, Some e, true)
       | Full => (schedule_resync t n s, None, true)
       | Closed => (s, None, false)
       end.

Definition route_other (answer : TrySend) (e : Event) (s : ForwardState) : Routed :=
  let s := note_event e s in
  if is_nil (pending s) then
    match answer with
    | Sent => (s, Some e, true)
    | Full => (push_pending e s, None, true)
    | Closed => (s, None, false)
    end
  else if MAX_PENDING_STRUCTURED_EVENTS <=? len (pending s) then (s, None, false)
  else (push_pending e s, None, true).

(** [answer] is what [try_send] on the client's channel returns if it is called. *)
Definition route (answer : TrySend) (e : Event) (s : ForwardState) : Routed :=
  match e with
  | TerminalOutput t _ _ n _ | AgentAuthOutput t _ _ n _ => route_output answer e t n s
  | _ => route_other answer e s
  end.

(** ** Filling a freed slot *)

(** What [deliver_one] does before it waits for the backend: hand on the oldest buffered
    event, or take the first terminal whose replay may go, with the sequence it owes. *)
Inductive Delivery := Carry (e : Event) (s : ForwardState) | Recover (t required : Z) (s : ForwardState) | Release.

Definition remove_at (i : nat) (l : list Z) : list Z := firstn i l ++ skipn (S i) l.

Definition deliver_start (now : Z) (s : ForwardState) : Delivery :=
  match pop_pending s with
  | Some (e, s) => Carry e s
  | None =>
      match position (fun t => resync_ready now t s) (resync_queue s) with
      | None => Release
      | Some i =>
          match resync_queue s !! i with
          | None => Release
          | Some t => Recover t (get (resync_debt s) t)
                        (set_members (resync_set s ∖ {[t]}) (set_queue (remove_at i (resync_queue s)) s))
          end
      end
  end.

(** [answer] is what the backend said, if it is there and in time. *)
Definition resync_replay (required : Z) (answer : option ReplaySnapshot) : option ReplaySnapshot :=
  match answer with
  | Some snapshot => if last_seq snapshot <? required then None else Some snapshot
  | None => None
  end.

Definition announce_unavailable (t : Z) (s : ForwardState) : ForwardState * option Event :=
  if bool_decide (t ∈ resync_unavailable_announced s) then (s, None)
  else (set_announced ({[t]} ∪ resync_unavailable_announced s) s, Some (TerminalResyncUnavailable t)).

(** What it does with the answer; [now] is when it began. *)
Definition deliver_finish (now t required : Z) (answer : option ReplaySnapshot) (s : ForwardState)
  : ForwardState * option Event :=
  match resync_replay required answer with
  | Some snapshot =>
      if SNAPSHOT_REPLAY_BUDGET <? len (replay snapshot) then announce_unavailable t s
      else
        let s := mark_covered t (last_seq snapshot) s in
        let s := set_debt (delete t (resync_debt s)) s in
        let s := set_announced (resync_unavailable_announced s ∖ {[t]}) s in
        (set_paced (<[t := now + RESYNC_DEBOUNCE]> (resync_paced_until s)) s,
         Some (TerminalResync t (replay snapshot) (last_seq snapshot) (snapshot_sizes snapshot)))
  | None => announce_unavailable t s
  end.

(** ** The connection *)

(** Where the forwarder's loop stands: at its top, in [select!] with what it evaluated
    before (is it idle, may a slot be filled, when to look again), waiting for the
    backend's replay with a slot reserved, or ended. *)
Inductive Phase :=
| Top
| Selecting (idle deliverable : bool) (deadline : option Z)
| Recovering (since t required : Z)
| Ended.

(** [delivered] is everything ever put into the client's channel, beside each event
    whether the forwarder made it itself; the client has read the first [taken] of them.
    [routed] is everything ever received from the staging queue, [replays] the terminals
    a replay was read for, with the instant. *)
Record Conn := mkConn {
  ingress : Ingress;
  senders : bool;
  forward : ForwardState;
  phase : Phase;
  input_open : bool;
  delivered : list (bool * Event);
  taken : nat;
  client_open : bool;
  now : Z;
  routed : list Event;
  replays : list (Z * Z);
}.

Definition eta_conn (c : Conn) : Conn :=
  mkConn (ingress c) (senders c) (forward c) (phase c) (input_open c) (delivered c) (taken c) (client_open c) (now c)
    (routed c) (replays c).

Definition set_ingress v c : Conn := ltac:(upd eta_conn ingress v c).
Definition set_senders v c : Conn := ltac:(upd eta_conn senders v c).
Definition set_forward v c : Conn := ltac:(upd eta_conn forward v c).
Definition set_phase v c : Conn := ltac:(upd eta_conn phase v c).
Definition set_input_open v c : Conn := ltac:(upd eta_conn input_open v c).
Definition set_delivered v c : Conn := ltac:(upd eta_conn delivered v c).
Definition set_taken v c : Conn := ltac:(upd eta_conn taken v c).
Definition set_client_open v c : Conn := ltac:(upd eta_conn client_open v c).
Definition set_now v c : Conn := ltac:(upd eta_conn now v c).
Definition set_routed v c : Conn := ltac:(upd eta_conn routed v c).
Definition set_replays v c : Conn := ltac:(upd eta_conn replays v c).

Definition event_forward_channel : Conn :=
  mkConn (mkIngress [] false true) true new_state Top true [] 0 true 0 [] [].

Definition has_room (c : Conn) : bool := len (delivered c) - Z.of_nat (taken c) <? EVENT_CAPACITY.

Definition try_send (c : Conn) : TrySend :=
  if negb (client_open c) then Closed else if has_room c then Sent else Full.

Definition put (own : bool) (e : option Event) (c : Conn) : Conn :=
  match e with Some e => set_delivered (delivered c ++ [(own, e)]) c | None => c end.

(** Leaving the loop drops both ends the forwarder holds. *)
Definition stop (c : Conn) : Conn :=
  set_phase Ended (set_ingress (mkIngress [] (overloaded (ingress c)) false) c).

(** The top of the loop. *)
Definition arm (c : Conn) : Conn :=
  if is_idle (forward c) then
    if input_open c then set_phase (Selecting true false None) c else stop c
  else
    let deliverable := has_deliverable (now c) (forward c) in
    set_phase (Selecting false deliverable (if deliverable then None else next_pace_deadline (forward c))) c.

(** The arm that fills a slot. *)
Definition deliver_one (c : Conn) : Conn :=
  match deliver_start (now c) (forward c) with
  | Carry e s => set_phase Top (put false (Some e) (set_forward s c))
  | Recover t required s => set_phase (Recovering (now c) t required) (set_forward s c)
  | Release => set_phase Top c
  end.

(** The arm that receives a raw event. *)
Definition receive (e : Event) (rest : list (Event * bool)) (c : Conn) : Conn :=
  let c := set_routed (routed c ++ [e]) (set_ingress (mkIngress rest (overloaded (ingress c)) true) c) in
  let '(s, sent, continue) := route (try_send c) e (forward c) in
  let c := put false sent (set_forward s c) in
  if continue then set_phase Top c else stop c.

(** The first arm of [select!] that is ready, in their order; [None] is still waiting. *)
Definition select (deliverable : bool) (deadline : option Z) (c : Conn) : option Conn :=
  if overloaded (ingress c) then Some (stop c)
  else if deliverable && negb (client_open c) then Some (stop c)
  else if deliverable && has_room c then Some (deliver_one c)
  else match queued (ingress c), input_open c with
       | (e, _) :: rest, true => Some (receive e rest c)
       | [], true => if senders c then
                       if is_some_and (fun d => d <=? now c) deadline then Some (set_phase Top c) else None
                     else Some (set_phase Top (set_input_open false c))
       | _, false => if is_some_and (fun d => d <=? now c) deadline then Some (set_phase Top c) else None
       end.

Definition answered (answer : option ReplaySnapshot) (since t required : Z) (c : Conn) : Conn :=
  let '(s, sent) := deliver_finish since t required answer (forward c) in
  let c := set_replays (replays c ++ match sent with Some (TerminalResync _ _ _ _) => [(t, since)] | _ => [] end) c in
  set_phase Top (put true sent (set_forward s c)).

(** ** Its steps *)

(** What may happen to a connection: the serve loop sends, sends a recovery event or
    drops its end, the client reads or leaves, time passes, and the forwarder evaluates
    its loop, takes an arm, or has its answer. *)
Inductive Label :=
| LSend (e : Event)
| LSendAuthoritative (e : Event)
| LClose
| LRead
| LLeave
| LWait (d : Z)
| LArm
| LSelect
| LAnswer (answer : option ReplaySnapshot).

Definition step (c : Conn) (l : Label) : option Conn :=
  match l with
  | LSend e => if senders c then Some (set_ingress (send e (ingress c)).1 c) else None
  | LSendAuthoritative e => if senders c then Some (set_ingress (send_authoritative e (ingress c)).1 c) else None
  | LClose => Some (set_senders false c)
  | LRead => if client_open c && (taken c <? length (delivered c))%nat then Some (set_taken (S (taken c)) c) else None
  | LLeave => Some (set_client_open false c)
  | LWait d => if 0 <=? d then Some (set_now (now c + d) c) else None
  | LArm => match phase c with Top => Some (arm c) | _ => None end
  | LSelect => match phase c with Selecting _ deliverable deadline => select deliverable deadline c | _ => None end
  | LAnswer answer => match phase c with Recovering since t required => Some (answered answer since t required c) | _ => None end
  end.

Fixpoint run (c : Conn) (ls : list Label) : option Conn :=
  match ls with [] => Some c | l :: ls => c ← step c l; run c ls end.
