(* ===== verification/EventForwardProps.v ===== *)
(** * What a client is sent

    The forwarder of EventForward.v in any interleaving of the serve loop, the client, the
    clock and the backend: its bookkeeping is exact; no structured event is lost or
    reordered; the output of a terminal comes without a gap and without a repeat; replays
    of one terminal are two seconds apart; and what is owed when the stream closes is
    delivered. *)

From Stdlib Require Import Ascii.
From S2P Require Import Prelude ReplayRing EventForward.

#[local] Open Scope Z_scope.

#[local] Notation len l := (Z.of_nat (length l)).

(** ** What an event says of a terminal *)

Definition output_of (t : Z) (e : Event) : option (Z * Z) :=
  match e with
  | TerminalOutput t' _ f n _ | AgentAuthOutput t' _ f n _ => if t' =? t then Some (f, n) else None
  | _ => None
  end.

Definition is_output (e : Event) : bool :=
  match e with TerminalOutput _ _ _ _ _ | AgentAuthOutput _ _ _ _ _ => true | _ => false end.

(** The sequence numbers up to which an event replays a terminal. *)
Definition replays_of (t : Z) (e : Event) : list Z :=
  match e with
  | Snapshot ts _ => map snapshot_seq (List.filter (fun x => replay_available x && (snapshot_id x =? t)) ts)
  | TerminalResync t' _ n _ | AgentAuthReplay t' _ n _ => if t' =? t then [n] else []
  | _ => []
  end.

Definition exits (t : Z) (e : Event) : bool :=
  match e with TerminalExited t' _ => t' =? t | _ => false end.

(** How far the stream of a terminal has come for someone who heard these events: the
    highest number in an output or a replay since its last exit. *)
Definition heard (t pos : Z) (e : Event) : Z :=
  if exits t e then 0
  else fold_left Z.max (replays_of t e) (match output_of t e with Some (_, n) => Z.max pos n | None => pos end).

Definition position_from (t pos : Z) (es : list Event) : Z := fold_left (heard t) es pos.
Definition position (t : Z) (es : list Event) : Z := position_from t 0 es.

(** The same, of its outputs alone. *)
Definition heard_output (t pos : Z) (e : Event) : Z :=
  if exits t e then 0 else match output_of t e with Some (_, n) => Z.max pos n | None => pos end.

Definition last_output (t : Z) (es : list Event) : Z := fold_left (heard_output t) es 0.

(** Every output of the terminal continues what was heard before it: it brings something
    new, and skips nothing. *)
Definition untorn (t : Z) (es : list Event) : Prop :=
  forall pre e post f n, es = pre ++ e :: post -> output_of t e = Some (f, n) ->
    position t pre < n /\ f <= position t pre + 1.

(** What the serve loop is to send of a terminal: outputs that rise and skip nothing, and
    replays that hold what was sent before them. *)
Definition well_sent (t : Z) (es : list Event) : Prop :=
  forall pre e post, es = pre ++ e :: post ->
    (forall f n, output_of t e = Some (f, n) -> last_output t pre < n /\ f <= position t pre + 1)
    /\ (forall n, n ∈ replays_of t e -> last_output t pre <= n).

(** The events that belong to the stream of a terminal. *)
Definition concerns (t : Z) (e : Event) : bool :=
  match stream_scope e with
  | Global => true
  | Terminals ids => existsb (Z.eqb t) ids
  | Free => is_some_and (fun _ => true) (output_of t e)
  end.

(** Of what was delivered: what the serve loop had sent. *)
Definition handed_on (l : list (bool * Event)) : list Event :=
  map snd (List.filter (fun x => negb x.1) l).

Definition structured (l : list Event) : list Event := List.filter (fun e => negb (is_output e)) l.

(** ** Folds *)

Lemma fold_max l a b : fold_left Z.max l (Z.max a b) = Z.max a (fold_left Z.max l b).
Proof. revert a b. induction l as [|x l IH]; intros a b; cbn; [done|]. by rewrite <- IH, Z.max_assoc. Qed.

Lemma fold_max_le l a : a <= fold_left Z.max l a.
Proof. revert a. induction l as [|x l IH]; intros a; cbn; [lia|]. specialize (IH (Z.max a x)). lia. Qed.

Lemma fold_max_in l a n : n ∈ l -> n <= fold_left Z.max l a.
Proof.
  revert a. induction l as [|x l IH]; intros a; [by intros ?%elem_of_nil|]. cbn.
  intros [->|Hn]%elem_of_cons; [|by apply IH]. pose proof (fold_max_le l (Z.max a x)). lia.
Qed.

Lemma fold_max_bound l a b : a <= b -> (forall n, n ∈ l -> n <= b) -> fold_left Z.max l a <= b.
Proof.
  revert a. induction l as [|x l IH]; intros a Ha Hl; cbn; [done|].
  apply IH; [|intros n Hn; apply Hl; by right]. specialize (Hl x ltac:(left)). lia.
Qed.

Lemma position_snoc t es e : position t (es ++ [e]) = heard t (position t es) e.
Proof. unfold position, position_from. by rewrite fold_left_app. Qed.

Lemma last_output_snoc t es e : last_output t (es ++ [e]) = heard_output t (last_output t es) e.
Proof. unfold last_output. by rewrite fold_left_app. Qed.

Lemma heard_nonneg t pos e : 0 <= pos -> 0 <= heard t pos e.
Proof.
  intros Hp. unfold heard. destruct (exits t e); [done|]. etrans; [|apply fold_max_le].
  destruct (output_of t e) as [[f n]|]; lia.
Qed.

Lemma position_nonneg t es : 0 <= position t es.
Proof. induction es as [|e es IH] using rev_ind; [done|]. rewrite position_snoc. by apply heard_nonneg. Qed.

(** Events that do not concern a terminal leave its position alone. *)
Lemma output_concerns t e f n : output_of t e = Some (f, n) -> concerns t e = true.
Proof. destruct e; cbn; try done; unfold concerns; cbn; by intros ->. Qed.

Lemma unconcerned_heard t e pos : concerns t e = false -> heard t pos e = pos.
Proof.
  unfold concerns, heard. destruct e; cbn; rewrite ?orb_false_r; try done; rewrite ?(Z.eqb_sym t); try intros ->; try done.
  all: destruct (_ =? t); done.
Qed.

Lemma unconcerned_position t es pos : Forall (fun e => concerns t e = false) es -> position_from t pos es = pos.
Proof.
  unfold position_from. induction 1 as [|e es He Hes IH] in pos |- *; cbn; [done|]. by rewrite unconcerned_heard.
Qed.

(** ** The bookkeeping *)

Definition gates (t : Z) (e : Event) : Z :=
  match stream_scope e with Terminals ids => len (List.filter (Z.eqb t) ids) | _ => 0 end.
Definition is_global (e : Event) : Z := match stream_scope e with Global => 1 | _ => 0 end.
Fixpoint total (f : Event -> Z) (es : list Event) : Z := match es with [] => 0 | e :: es => f e + total f es end.

Definition counted (m : gmap Z Z) (n : Z -> Z) : Prop :=
  forall t, m !! t = if n t =? 0 then None else Some (n t).

Record exact (s : ForwardState) : Prop := {
  exact_structured : Forall (fun e => is_output e = false) (pending s);
  exact_refs : counted (pending_stream_refs s) (fun t => total (gates t) (pending s));
  exact_globals : pending_global_refs s = total is_global (pending s);
  exact_queue : NoDup (resync_queue s);
  exact_members : forall t, t ∈ resync_set s <-> t ∈ resync_queue s;
  exact_debt : forall t, t ∈ resync_queue s -> is_Some (resync_debt s !! t);
  exact_bound : len (pending s) <= MAX_PENDING_STRUCTURED_EVENTS;
}.

Lemma total_app f l1 l2 : total f (l1 ++ l2) = total f l1 + total f l2.
Proof. induction l1 as [|e l IH]; cbn; [lia|]. rewrite IH. lia. Qed.

Lemma gates_nonneg t e : 0 <= gates t e.
Proof. unfold gates. destruct (stream_scope e); lia. Qed.

Lemma total_nonneg f l : (forall e, 0 <= f e) -> 0 <= total f l.
Proof. intros Hf. induction l as [|e l IH]; cbn; [lia|]. specialize (Hf e). lia. Qed.

Lemma total_zero f l : (forall e, 0 <= f e) -> total f l = 0 <-> Forall (fun e => f e = 0) l.
Proof.
  intros Hf. induction l as [|e l IH]; cbn; [by split; intros|]. rewrite Forall_cons, <- IH.
  pose proof (total_nonneg f l Hf). specialize (Hf e). lia.
Qed.

Lemma counted_get m n t : counted m n -> get m t = n t.
Proof. intros Hc. unfold get. rewrite Hc. destruct (Z.eqb_spec (n t) 0); cbn; lia. Qed.

Lemma counted_add m n t :
  counted m n -> (forall x, 0 <= n x) -> counted (add_ref m t) (fun x => (if x =? t then 1 else 0) + n x).
Proof.
  intros Hc Hn x. unfold add_ref. rewrite (counted_get _ _ _ Hc). specialize (Hn x).
  destruct (Z.eqb_spec x t) as [->|Hx].
  - rewrite lookup_insert_eq. destruct (Z.eqb_spec (1 + n t) 0); [lia|]. f_equal. lia.
  - rewrite lookup_insert_ne by done. by rewrite Hc.
Qed.

Lemma counted_drop m n t :
  counted m (fun x => (if x =? t then 1 else 0) + n x) -> (forall x, 0 <= n x) -> counted (drop_ref m t) n.
Proof.
  intros Hc Hn x. unfold drop_ref. rewrite Hc, Z.eqb_refl. pose proof (Hn t) as Ht.
  destruct (Z.eqb_spec (1 + n t) 0); [lia|]. replace (1 + n t - 1) with (n t) by lia.
  destruct (Z.eqb_spec (n t) 0) as [Hz|Hz], (decide (x = t)) as [->|Hx].
  - by rewrite lookup_delete_eq, Hz.
  - rewrite lookup_delete_ne by done. rewrite Hc. by destruct (Z.eqb_spec x t).
  - rewrite lookup_insert_eq. by destruct (Z.eqb_spec (n t) 0).
  - rewrite lookup_insert_ne by done. rewrite Hc. by destruct (Z.eqb_spec x t).
Qed.

Definition occurs (x : Z) (ids : list Z) : Z := len (List.filter (Z.eqb x) ids).

Lemma occurs_cons x t ids : occurs x (t :: ids) = (if x =? t then 1 else 0) + occurs x ids.
Proof. unfold occurs. cbn. destruct (x =? t); cbn [length]; lia. Qed.

Lemma counted_ext m n n' : counted m n -> (forall x, n x = n' x) -> counted m n'.
Proof. intros Hc He t. by rewrite <- He. Qed.

Lemma counted_adds ids m n :
  counted m n -> (forall x, 0 <= n x) -> counted (fold_left add_ref ids m) (fun x => occurs x ids + n x).
Proof.
  revert m n. induction ids as [|t ids IH]; intros m n Hc Hn; cbn [fold_left].
  { apply (counted_ext _ _ _ Hc). intros x. unfold occurs. cbn. lia. }
  pose proof (IH _ _ (counted_add _ _ t Hc Hn)) as H. eapply counted_ext.
  { apply H. intros x. specialize (Hn x). destruct (x =? t); lia. }
  intros x. cbn beta. rewrite occurs_cons. lia.
Qed.

Lemma counted_drops ids m n :
  counted m (fun x => occurs x ids + n x) -> (forall x, 0 <= n x) -> counted (fold_left drop_ref ids m) n.
Proof.
  revert m. induction ids as [|t ids IH]; intros m Hc Hn; cbn [fold_left].
  { apply (counted_ext _ _ _ Hc). intros x. unfold occurs. cbn. lia. }
  apply IH; [|done]. apply counted_drop; [|intros x; pose proof (Hn x); unfold occurs; lia].
  apply (counted_ext _ _ _ Hc). intros x. cbn beta. rewrite occurs_cons. lia.
Qed.

Lemma push_exact e s :
  exact s -> is_output e = false -> len (pending s) < MAX_PENDING_STRUCTURED_EVENTS -> exact (push_pending e s).
Proof.
  intros [Hst Hr Hg Hq Hm Hd Hb] He Hroom. pose proof (fun t => total_nonneg _ (pending s) (gates_nonneg t)) as Hn.
  unfold push_pending. split; destruct (stream_scope e) eqn:Es; cbn; rewrite ?length_app; cbn [length]; try done; try lia.
  all: try (apply Forall_app; by repeat constructor).
  all: try (rewrite total_app, Hg; cbn; unfold is_global; rewrite Es; lia).
  all: try (apply (counted_ext _ _ _ Hr); intros t; rewrite total_app; cbn; unfold gates at 3; rewrite Es; lia).
  apply (counted_ext _ _ _ (counted_adds ids _ _ Hr Hn)). intros t. rewrite total_app. cbn. unfold gates at 3, occurs. rewrite Es. lia.
Qed.

Lemma pop_exact s e s' :
  exact s -> pop_pending s = Some (e, s') ->
  exact s' /\ pending s = e :: pending s' /\ is_output e = false /\ resync_queue s' = resync_queue s
  /\ resync_set s' = resync_set s /\ resync_debt s' = resync_debt s /\ covered_seq s' = covered_seq s
  /\ resync_paced_until s' = resync_paced_until s /\ resync_unavailable_announced s' = resync_unavailable_announced s.
Proof.
  intros [Hst Hr Hg Hq Hm Hd Hb] Hp. unfold pop_pending in Hp. destruct (pending s) as [|x rest] eqn:Ep; [done|].
  injection Hp as -> <-. apply Forall_cons in Hst as [He Hst]. cbn [length total] in *.
  pose proof (fun t => total_nonneg _ rest (gates_nonneg t)) as Hn.
  assert (0 <= total is_global rest) by (apply total_nonneg; intros x; unfold is_global; destruct (stream_scope x); lia).
  split; [|destruct (stream_scope e); by split_and!].
  split; destruct (stream_scope e) eqn:Es; cbn; try done; try lia.
  all: try (unfold is_global at 1 in Hg; rewrite Es in Hg; unfold sat_sub; lia).
  all: try (apply (counted_ext _ _ _ Hr); intros t; cbn; unfold gates at 1; rewrite Es; lia).
  apply counted_drops; [|done]. apply (counted_ext _ _ _ Hr). intros t. cbn. unfold gates at 1, occurs. by rewrite Es.
Qed.

(** The gate is what is queued. *)
Lemma gate_spec t s :
  exact s -> pending_blocks_output t s = false -> Forall (fun e => concerns t e = false) (pending s).
Proof.
  intros [Hst Hr Hg _ _ _ _] Hb. unfold pending_blocks_output in Hb. apply orb_false_iff in Hb as [Hglob Hrefs].
  apply Z.ltb_ge in Hglob. apply bool_decide_eq_false in Hrefs. rewrite Hr in Hrefs.
  assert (Forall (fun e => gates t e = 0) (pending s)) as H1.
  { apply total_zero; [apply gates_nonneg|]. destruct (Z.eqb_spec (total (gates t) (pending s)) 0); [done|]. by destruct Hrefs. }
  assert (Forall (fun e => is_global e = 0) (pending s)) as H2.
  { assert (forall e, 0 <= is_global e) as Hn by (intros e; unfold is_global; destruct (stream_scope e); lia).
    apply total_zero; [done|]. pose proof (total_nonneg _ (pending s) Hn). lia. }
  rewrite Forall_forall in *. intros e He. specialize (H1 e He). specialize (H2 e He). specialize (Hst e He).
  unfold concerns. unfold gates in H1. unfold is_global in H2. destruct (stream_scope e) as [|ids|]; [by destruct e|..|done].
  destruct (existsb (Z.eqb t) ids) eqn:Ex; [|done].
  apply existsb_exists in Ex as (x & Hx & Hxt). assert (In x (List.filter (Z.eqb t) ids)) as Hin by (by apply filter_In).
  destruct (List.filter (Z.eqb t) ids); [done|cbn [length] in H1; lia].
Qed.

Lemma existing_debt t n (s : ForwardState) x :
  is_Some (resync_debt s !! x) -> is_Some (<[t := n]> (resync_debt s) !! x).
Proof. intros Hx. destruct (decide (x = t)) as [->|]; [by rewrite lookup_insert_eq|by rewrite lookup_insert_ne]. Qed.

Lemma schedule_exact t n s : exact s -> exact (schedule_resync t n s).
Proof.
  intros [Hst Hr Hg Hq Hm Hd Hb]. unfold schedule_resync. cbn [resync_set set_debt set_dropped]. case_bool_decide as Ht.
  { split; cbn; try done. intros x Hx. by apply existing_debt, Hd. }
  split; cbn; try done.
  - rewrite Hm in Ht. apply NoDup_app. split_and!; [done| |apply NoDup_singleton]. by intros x Hx ->%list_elem_of_singleton.
  - intros x. rewrite elem_of_union, elem_of_singleton, elem_of_app, list_elem_of_singleton, Hm. tauto.
  - intros x [Hx| ->%list_elem_of_singleton]%elem_of_app; [by apply existing_debt, Hd|]. by rewrite lookup_insert_eq.
Qed.

Lemma elem_of_kept t (l : list Z) x : x ∈ List.filter (fun y => negb (y =? t)) l <-> x ∈ l /\ x <> t.
Proof. rewrite !list_elem_of_In, filter_In, negb_true_iff, Z.eqb_neq. done. Qed.

Lemma NoDup_kept (p : Z -> bool) (l : list Z) : NoDup l -> NoDup (List.filter p l).
Proof. rewrite !NoDup_ListNoDup. apply List.NoDup_filter. Qed.

Lemma drop_resync_queue t s x : exact s -> x ∈ resync_queue (drop_resync t s) <-> x ∈ resync_queue s /\ x <> t.
Proof.
  intros [_ _ _ _ Hm _ _]. unfold drop_resync. case_bool_decide as Ht; cbn; [apply elem_of_kept|].
  split; [|tauto]. intros Hx. split; [done|]. intros ->. by apply Ht, Hm.
Qed.

Lemma drop_exact t s : exact s -> exact (drop_resync t s).
Proof.
  intros Hex. pose proof (fun x => drop_resync_queue t s x Hex) as Hqx. destruct Hex as [Hst Hr Hg Hq Hm Hd Hb]. split.
  1-3, 7: unfold drop_resync; case_bool_decide; done.
  - unfold drop_resync. case_bool_decide; cbn; [by apply NoDup_kept|done].
  - intros x. rewrite Hqx, <- Hm. unfold drop_resync. case_bool_decide as Ht; cbn; [set_solver|]. split; [|tauto].
    intros Hx. split; [done|]. by intros ->.
  - intros x [Hx Hne]%Hqx. specialize (Hd x Hx). unfold drop_resync. case_bool_decide; cbn; by rewrite lookup_delete_ne.
Qed.

Lemma covered_exact t n s : exact s -> exact (mark_covered t n s).
Proof. by intros [? ? ? ? ? ? ?]. Qed.

Lemma cover_all_exact ts s : exact s -> exact (cover_all ts s).
Proof.
  revert s. induction ts as [|x ts IH]; intros s Hs; [done|]. apply IH.
  destruct (replay_available x); [by apply drop_exact, covered_exact|done].
Qed.

Lemma note_exact e s : exact s -> exact (note_event e s).
Proof.
  intros Hs. destruct e; cbn; try done; try by apply drop_exact, covered_exact.
  - by apply cover_all_exact.
  - by destruct (drop_exact terminal_id s Hs).
Qed.

Lemma drop_pending t s : pending (drop_resync t s) = pending s.
Proof. unfold drop_resync. by case_bool_decide. Qed.

Lemma cover_all_pending ts s : pending (cover_all ts s) = pending s.
Proof.
  revert s. induction ts as [|x ts IH]; intros s; [done|]. cbn. rewrite IH.
  destruct (replay_available x); [by rewrite drop_pending|done].
Qed.

Lemma note_pending e s : pending (note_event e s) = pending s.
Proof. destruct e; cbn; try done; try (apply (drop_pending terminal_id)); [apply cover_all_pending|apply (drop_pending _ (mark_covered _ _ s))..]. Qed.

(** What routing an event does to what is buffered and sent. *)
Lemma route_exact answer e s : exact s -> exact (route answer e s).1.1.
Proof.
  intros Hs. unfold route. assert (forall t n, exact (route_output answer e t n s).1.1) as Hout.
  { intros t n. unfold route_output. destruct (is_superseded _ _ _); [done|].
    destruct (_ || _); [by apply schedule_exact|]. destruct answer; [done|by apply schedule_exact|done]. }
  assert (is_output e = false -> exact (route_other answer e s).1.1) as Hother.
  { intros He. unfold route_other. pose proof (note_exact e s Hs) as Hn. destruct (is_nil _) eqn:Enil.
    - destruct answer; [done| |done]. apply push_exact; [done|done|]. by destruct (pending (note_event e s)).
    - destruct (Z.leb_spec MAX_PENDING_STRUCTURED_EVENTS (len (pending (note_event e s)))); [done|].
      by apply push_exact. }
  destruct e; eauto.
Qed.

Lemma position_nat_lookup {A} (p : A -> bool) l i :
  ReplayRing.position p l = Some i -> exists x, l !! i = Some x /\ p x = true.
Proof.
  revert i. induction l as [|x l IH]; intros i; [done|]. cbn. destruct (p x) eqn:E; [intros [= <-]; by exists x|].
  destruct (ReplayRing.position p l) as [j|]; [|done]. intros [= <-]. destruct (IH j eq_refl) as (y & Hy & Hp). by exists y.
Qed.

Lemma remove_turn_spec i l t : l !! i = Some t -> l ≡ₚ t :: remove_at i l.
Proof. intros Hl. unfold remove_at. by rewrite <- (take_drop_middle l i t Hl) at 1; rewrite <- Permutation_middle. Qed.

Lemma deliver_exact now s :
  exact s ->
  match deliver_start now s with
  | Carry e s' => exact s' /\ pending s = e :: pending s' /\ is_output e = false /\ pop_pending s = Some (e, s')
  | Recover t required s' =>
      pending s = [] /\ t ∈ resync_queue s /\ resync_ready now t s = true /\ required = get (resync_debt s) t
      /\ exact s' /\ pending s' = [] /\ resync_queue s ≡ₚ t :: resync_queue s' /\ resync_debt s' = resync_debt s
      /\ covered_seq s' = covered_seq s /\ resync_paced_until s' = resync_paced_until s
      /\ resync_unavailable_announced s' = resync_unavailable_announced s
  | Release => True
  end.
Proof.
  intros Hs. unfold deliver_start. destruct (pop_pending s) as [[e s']|] eqn:Ep.
  { destruct (pop_exact _ _ _ Hs Ep) as (? & ? & ? & _). done. }
  destruct (ReplayRing.position _ _) as [i|] eqn:Ei; [|done]. apply position_nat_lookup in Ei as (t & Ht & Hready). rewrite Ht.
  assert (pending s = []) as Hp by (unfold pop_pending in Ep; by destruct (pending s)).
  pose proof (remove_turn_spec _ _ _ Ht) as Hperm. destruct Hs as [Hst Hr Hg Hq Hm Hd Hb].
  assert (forall x, x ∈ resync_queue s <-> x = t \/ x ∈ remove_at i (resync_queue s)) as Hin
    by (intros x; split; intros Hx; [apply elem_of_cons; by rewrite <- Hperm|rewrite Hperm; by apply elem_of_cons]).
  split_and!; try done; [by eapply list_elem_of_lookup_2|]. rewrite Hperm in Hq. apply NoDup_cons in Hq as [Hnot Hq].
  split; cbn; try done.
  - intros x. rewrite elem_of_difference, elem_of_singleton, Hm, Hin. split; [tauto|].
    intros Hx. split; [by right|]. by intros ->.
  - intros x Hx. apply Hd, Hin. by right.
Qed.
