(* ===== verification/EventForwardConn.v ===== *)
(** * A connection in any interleaving

    The steps of EventForward.v, one by one: an invariant of the whole connection, that
    structured events are neither lost nor overtaken, that what is staged and buffered is
    bounded, that replays of one terminal are spaced, and that a closed stream drains. *)

From Stdlib Require Import Ascii.
From S2P Require Import Prelude ReplayRing EventForward EventForwardProps.

#[local] Open Scope Z_scope.

#[local] Notation len l := (Z.of_nat (length l)).

(** ** The steps *)

(** What only the others change. *)
Record same_forwarder (c c' : Conn) : Prop := {
  same_forward : forward c' = forward c;
  same_phase : phase c' = phase c;
  same_input : input_open c' = input_open c;
  same_delivered : delivered c' = delivered c;
  same_routed : routed c' = routed c;
  same_replays : replays c' = replays c;
  same_taken : (taken c <= taken c')%nat /\ ((taken c <= length (delivered c))%nat -> (taken c' <= length (delivered c))%nat);
  same_receiver : receiver (ingress c') = receiver (ingress c);
  same_queue : receiver (ingress c) = false -> queued (ingress c') = queued (ingress c);
  same_closed : senders c = false -> senders c' = false /\ queued (ingress c') = queued (ingress c);
  same_client : client_open c = false -> client_open c' = false;
  same_now : now c <= now c';
}.

Inductive stepped (c : Conn) : Conn -> Prop :=
| stepped_env c' : same_forwarder c c' -> stepped c c'
| stepped_stop : phase c <> Ended -> (forall a b d, phase c <> Recovering a b d) -> stepped c (stop c)
| stepped_arm : phase c = Top -> (is_idle (forward c) = true -> input_open c = true) -> stepped c (arm c)
| stepped_again i d dl : phase c = Selecting i d dl -> stepped c (set_phase Top c)
| stepped_eof i d dl : phase c = Selecting i d dl -> queued (ingress c) = [] -> senders c = false ->
    stepped c (set_phase Top (set_input_open false c))
| stepped_deliver i dl : phase c = Selecting i true dl -> client_open c = true -> has_room c = true -> stepped c (deliver_one c)
| stepped_receive i d dl e b rest : phase c = Selecting i d dl -> queued (ingress c) = (e, b) :: rest -> input_open c = true ->
    (d = true -> has_room c = false) -> stepped c (receive e rest c)
| stepped_answer since t required answer : phase c = Recovering since t required -> stepped c (answered answer since t required c).

Ltac same_state := split; cbn; try done; try lia; intros ?; bool_norm; congruence.

Lemma select_stepped i d dl c c' : phase c = Selecting i d dl -> select d dl c = Some c' -> stepped c c'.
Proof.
  intros Hp Hs. unfold select in Hs. assert (phase c <> Ended /\ forall a b d, phase c <> Recovering a b d) as [H1 H2] by (by rewrite Hp).
  destruct (overloaded (ingress c)); [injection Hs as <-; by apply stepped_stop|].
  destruct (d && negb (client_open c)) eqn:E1; [injection Hs as <-; by apply stepped_stop|].
  destruct (d && has_room c) eqn:E2.
  { injection Hs as <-. apply andb_true_iff in E2 as [-> Hroom]. apply (stepped_deliver c i dl); [done| |done].
    by destruct (client_open c). }
  assert (forall b : bool, (if b then Some (set_phase Top c) else None) = Some c' -> stepped c c') as Hagain.
  { intros [|]; [|done]. intros [= <-]. by eapply stepped_again. }
  destruct (queued (ingress c)) as [|[e b] rest] eqn:Eq, (input_open c) eqn:Ei; try by eapply Hagain.
  - destruct (senders c) eqn:Es; [by eapply Hagain|]. injection Hs as <-. by eapply stepped_eof.
  - injection Hs as <-. eapply stepped_receive; try done. intros ->. by destruct (has_room c).
Qed.

Lemma step_stepped c l c' : step c l = Some c' -> stepped c c'.
Proof.
  destruct l; cbn [step].
  - destruct (senders c) eqn:Es; [intros [= <-]|done]. apply stepped_env. unfold send, enqueue.
    repeat case_match; same_state.
  - destruct (senders c) eqn:Es; [intros [= <-]|done]. apply stepped_env. unfold send_authoritative, enqueue.
    repeat case_match; same_state.
  - intros [= <-]. apply stepped_env. same_state.
  - destruct (client_open c && _) eqn:E; [|done]. intros [= <-]. apply andb_true_iff in E as [_ E]. apply Nat.ltb_lt in E.
    apply stepped_env. same_state.
  - intros [= <-]. apply stepped_env. same_state.
  - destruct (Z.leb_spec 0 d); [intros [= <-]|done]. apply stepped_env. same_state.
  - destruct (phase c) eqn:Ep; try done. intros [= <-]. destruct (is_idle (forward c)) eqn:Ei, (input_open c) eqn:Eo.
    2: { unfold arm. rewrite Ei, Eo. apply stepped_stop; by rewrite Ep. }
    all: apply stepped_arm; by rewrite ?Ei.
  - destruct (phase c) eqn:Ep; try done. by eapply select_stepped.
  - destruct (phase c) eqn:Ep; try done. intros [= <-]. by apply stepped_answer.
Qed.

(** An invariant of the steps holds wherever a run leads. *)
Lemma conn_invariant (P : Conn -> Prop) :
  P event_forward_channel -> (forall c c', P c -> stepped c c' -> P c') ->
  forall ls c, run event_forward_channel ls = Some c -> P c.
Proof.
  intros H0 Hstep. assert (forall ls c c', P c -> run c ls = Some c' -> P c') as Hall.
  { induction ls as [|l ls IH]; intros c c' Hc; cbn [run]; [by intros [= <-]|].
    destruct (step c l) as [c1|] eqn:E; [|done]. apply IH. eapply Hstep; [done|by eapply step_stepped]. }
  intros ls c. by apply Hall.
Qed.

(** ** The state of the forwarder *)

Definition phase_ok (c : Conn) : Prop :=
  match phase c with
  | Top => True
  | Selecting i d dl =>
      (i = true -> is_idle (forward c) = true /\ input_open c = true /\ d = false /\ dl = None)
      /\ (d = true -> has_deliverable (now c) (forward c) = true)
      /\ (i = false -> is_idle (forward c) = false /\ (d = false -> pending (forward c) = [] /\ is_Some dl /\ dl = next_pace_deadline (forward c)))
  | Recovering since t required =>
      pending (forward c) = [] /\ t ∉ resync_queue (forward c) /\ resync_debt (forward c) !! t = Some required /\ since <= now c
      /\ has_room c = true
  | Ended => queued (ingress c) = [] /\ receiver (ingress c) = false
  end.

Definition recovering (t : Z) (c : Conn) : Prop := match phase c with Recovering _ t' _ => t' = t | _ => False end.

Record conn_ok (c : Conn) : Prop := {
  ok_exact : exact (forward c);
  ok_phase : phase_ok c;
  ok_taken : (taken c <= length (delivered c))%nat;
  ok_room : len (delivered c) - Z.of_nat (taken c) <= EVENT_CAPACITY;
  ok_owed : phase c <> Ended -> forall t, is_Some (resync_debt (forward c) !! t) ->
            t ∈ resync_queue (forward c) \/ t ∈ resync_unavailable_announced (forward c) \/ recovering t c;
}.

Definition owed_ok (s : ForwardState) (x : Z) : Prop :=
  is_Some (resync_debt s !! x) -> x ∈ resync_queue s \/ x ∈ resync_unavailable_announced s.

Lemma schedule_owed t n s x : exact s -> owed_ok s x -> owed_ok (schedule_resync t n s) x.
Proof.
  intros Hs Hx. unfold owed_ok, schedule_resync in *. cbn [resync_set set_debt set_dropped].
  destruct (decide (x = t)) as [->|Hne]; case_bool_decide as Ht; cbn; rewrite ?lookup_insert_ne by done; intros Hd.
  - left. by apply (exact_members _ Hs).
  - left. apply elem_of_app. right. by left.
  - by apply Hx.
  - destruct (Hx Hd); [left; apply elem_of_app; by left|by right].
Qed.

Lemma drop_owed t s x : exact s -> owed_ok s x -> owed_ok (drop_resync t s) x.
Proof.
  intros Hs Hx Hd. assert (x <> t /\ is_Some (resync_debt s !! x)) as [Hne Hd'].
  { unfold drop_resync in Hd. destruct (decide (x = t)) as [->|]; case_bool_decide; cbn in Hd;
      rewrite ?lookup_delete_eq, ?lookup_delete_ne in Hd by done; try done; by destruct Hd. }
  destruct (Hx Hd') as [Hq|Ha]; [left; by apply drop_resync_queue|right].
  unfold drop_resync. case_bool_decide; cbn; set_solver.
Qed.

Lemma note_owed e s x : exact s -> owed_ok s x -> owed_ok (note_event e s) x.
Proof.
  intros Hs Hx. assert (forall ts s, exact s -> owed_ok s x -> owed_ok (cover_all ts s) x) as Hall.
  { induction ts as [|y ts IH]; intros s' Hs' Hx'; [done|]. cbn. destruct (replay_available y); [|by apply IH].
    apply IH; [by apply drop_exact, covered_exact|]. apply drop_owed; [by apply covered_exact|done]. }
  destruct e; cbn; try done; first
    [by apply Hall|apply drop_owed; [by apply covered_exact|done]|exact (drop_owed terminal_id s x Hs Hx)].
Qed.

Lemma route_owed answer e s x : exact s -> owed_ok s x -> owed_ok (route answer e s).1.1 x.
Proof.
  intros Hs Hx. assert (forall t n, owed_ok (route_output answer e t n s).1.1 x) as Hout.
  { intros t n. unfold route_output. destruct (is_superseded _ _ _); [done|].
    destruct (_ || _); [by apply schedule_owed|]. destruct answer; [done|by apply schedule_owed|done]. }
  assert (owed_ok (route_other answer e s).1.1 x) as Hother.
  { unfold route_other, push_pending. pose proof (note_owed e s x Hs Hx) as Hn. repeat case_match; done. }
  destruct e; eauto.
Qed.

(** What is sent is the event, and only where there is room. *)
Lemma route_sent answer e s x : (route answer e s).1.2 = Some x -> answer = Sent /\ x = e.
Proof.
  assert (forall t n, (route_output answer e t n s).1.2 = Some x -> answer = Sent /\ x = e) as Hout.
  { intros t n. unfold route_output. repeat case_match; cbn; intros; by simplify_eq. }
  assert ((route_other answer e s).1.2 = Some x -> answer = Sent /\ x = e) as Hother.
  { unfold route_other. repeat case_match; cbn; intros; by simplify_eq. }
  destruct e; eauto.
Qed.

Lemma try_send_room c : try_send c = Sent -> has_room c = true.
Proof. unfold try_send. by destruct (negb _), (has_room c). Qed.

Lemma announce_spec t s :
  let '(s', sent) := announce_unavailable t s in
  t ∈ resync_unavailable_announced s' /\ (forall x, x ∈ resync_unavailable_announced s -> x ∈ resync_unavailable_announced s')
  /\ resync_queue s' = resync_queue s /\ resync_debt s' = resync_debt s /\ pending s' = pending s
  /\ covered_seq s' = covered_seq s /\ resync_paced_until s' = resync_paced_until s
  /\ (exact s -> exact s') /\ (sent = None \/ sent = Some (TerminalResyncUnavailable t)).
Proof.
  unfold announce_unavailable. case_bool_decide; split_and!; cbn; try done; try set_solver; try (by left); try (by right).
  by intros [].
Qed.

(** What the answer of the backend does. *)
Lemma finish_spec since t required answer s :
  exact s -> t ∉ resync_queue s ->
  let '(s', sent) := deliver_finish since t required answer s in
  exact s' /\ pending s' = pending s /\ resync_queue s' = resync_queue s
  /\ ((exists sn, answer = Some sn /\ required <= last_seq sn
        /\ sent = Some (TerminalResync t (replay sn) (last_seq sn) (snapshot_sizes sn))
        /\ resync_debt s' = delete t (resync_debt s)
        /\ covered_seq s' = <[t := Z.max (get (covered_seq s) t) (last_seq sn)]> (covered_seq s)
        /\ resync_paced_until s' = <[t := since + RESYNC_DEBOUNCE]> (resync_paced_until s)
        /\ resync_unavailable_announced s' = resync_unavailable_announced s ∖ {[t]})
      \/ ((sent = None \/ sent = Some (TerminalResyncUnavailable t)) /\ resync_debt s' = resync_debt s
          /\ covered_seq s' = covered_seq s /\ resync_paced_until s' = resync_paced_until s
          /\ t ∈ resync_unavailable_announced s'
          /\ (forall x, x ∈ resync_unavailable_announced s -> x ∈ resync_unavailable_announced s'))).
Proof.
  intros Hs Ht. pose proof (announce_spec t s) as Ha. unfold deliver_finish, resync_replay.
  assert (let '(s', sent) := announce_unavailable t s in exact s' /\ pending s' = pending s /\ resync_queue s' = resync_queue s
          /\ (sent = None \/ sent = Some (TerminalResyncUnavailable t)) /\ resync_debt s' = resync_debt s
          /\ covered_seq s' = covered_seq s /\ resync_paced_until s' = resync_paced_until s
          /\ t ∈ resync_unavailable_announced s'
          /\ (forall x, x ∈ resync_unavailable_announced s -> x ∈ resync_unavailable_announced s')) as Hno.
  { destruct (announce_unavailable t s). naive_solver. }
  destruct answer as [sn|]; [|destruct (announce_unavailable t s); naive_solver].
  destruct (Z.ltb_spec (last_seq sn) required); [destruct (announce_unavailable t s); naive_solver|].
  destruct (_ <? _); [destruct (announce_unavailable t s); naive_solver|].
  destruct Hs as [Hst Hr Hg Hq Hm Hd Hb]. split_and!; [|done|done|left; by exists sn].
  split; cbn; try done. intros x Hx. rewrite lookup_delete_ne; [by apply Hd|]. by intros ->.
Qed.

Lemma put_fields own e c :
  forward (put own e c) = forward c /\ routed (put own e c) = routed c /\ phase (put own e c) = phase c.
Proof. by destruct e. Qed.

Lemma put_room own e c :
  (taken c <= length (delivered c))%nat -> has_room c = true ->
  (taken (put own e c) <= length (delivered (put own e c)))%nat
  /\ len (delivered (put own e c)) - Z.of_nat (taken (put own e c)) <= EVENT_CAPACITY.
Proof.
  intros Ht Hr. unfold has_room in Hr. apply Z.ltb_lt in Hr. destruct e; cbn; rewrite ?length_app; cbn [length]; lia.
Qed.

Lemma deliverable_later n n' s : n <= n' -> has_deliverable n s = true -> has_deliverable n' s = true.
Proof.
  intros Hn. unfold has_deliverable. rewrite !orb_true_iff, !existsb_exists. intros [?|(t & Ht & Hr)]; [by left|right].
  exists t. split; [done|]. unfold resync_ready in *. destruct (_ !! _) as [u|]; [|done]. cbn in *. lia.
Qed.

Lemma ok_env c c' : conn_ok c -> same_forwarder c c' -> conn_ok c'.
Proof.
  intros [He Hp Ht Hr Ho] [Hf Hph Hin Hd _ _ [Ht1 Ht2] Hrec Hq _ _ Hn]. specialize (Ht2 Ht).
  split; rewrite ?Hf, ?Hph, ?Hd; try done; try lia.
  - unfold phase_ok in *. rewrite Hph, Hf, Hin. destruct (phase c); try done.
    + destruct Hp as (? & Hdel & ?). split_and!; try done. intros ->. by eapply deliverable_later, Hdel.
    + destruct Hp as (? & ? & ? & ? & Hroom). split_and!; try done; [lia|].
      unfold has_room in *. rewrite Hd. apply Z.ltb_lt in Hroom. apply Z.ltb_lt. lia.
    + destruct Hp as [? ?]. rewrite Hq, Hrec by done. done.
  - intros Hne t Hdebt. destruct (Ho Hne t Hdebt) as [?|[?|?]]; auto. right; right. unfold recovering in *. by rewrite Hph.
Qed.

Lemma ok_stop c : conn_ok c -> conn_ok (stop c).
Proof. intros [He Hp Ht Hr Ho]. by split. Qed.

(** The earliest deadline: who has it, and that there is one wherever something is owed and
    nothing may go yet -- a debt is never stranded. *)
Lemma deadline_spec s d :
  next_pace_deadline s = Some d ->
  exists t, t ∈ resync_queue s /\ resync_paced_until s !! t = Some d.
Proof.
  unfold next_pace_deadline. set (l := omap _ _). assert (forall x, x ∈ l -> exists t, t ∈ resync_queue s /\ resync_paced_until s !! t = Some x) as Hl.
  { intros x (t & Ht & Hx)%list_elem_of_omap. by exists t. }
  revert d Hl. induction l as [|x l IH]; intros d Hl; cbn; [done|]. destruct (foldr _ _ l) as [m|] eqn:E.
  - intros [= <-]. destruct (Z.min_spec x m) as [[_ ->]|[_ ->]]; [by apply Hl; left|].
    apply IH; [intros y Hy; apply Hl; by right|done].
  - intros [= <-]. apply Hl. by left.
Qed.

Lemma a_debt_always_wakes s n :
  is_idle s = false -> has_deliverable n s = false -> pending s = [] /\ exists d, next_pace_deadline s = Some d /\ n < d.
Proof.
  unfold is_idle, has_deliverable. rewrite andb_false_iff, orb_false_iff, negb_false_iff. intros Hi [Hp Hd]. rewrite Hp in Hi.
  assert (pending s = []) as Hpend by (by destruct (pending s)). split; [done|]. destruct Hi as [?|Hq]; [done|].
  assert (forall t, t ∈ resync_queue s -> exists u, resync_paced_until s !! t = Some u /\ n < u) as Hall.
  { intros t Ht%list_elem_of_In. destruct (resync_ready n t s) eqn:Er.
    - assert (existsb (fun t => resync_ready n t s) (resync_queue s) = true) by (apply existsb_exists; eauto). congruence.
    - unfold resync_ready in Er. destruct (_ !! t) as [u|]; [|done]. cbn in Er. exists u. split; [done|]. by apply Z.leb_gt. }
  destruct (next_pace_deadline s) as [d|] eqn:Ed.
  - exists d. split; [done|]. apply deadline_spec in Ed as (t & Ht & Hpt). destruct (Hall t Ht) as (u & Hu & Hn). congruence.
  - destruct (resync_queue s) as [|t l] eqn:Eq; [done|]. destruct (Hall t ltac:(left)) as (u & Hu & _).
    unfold next_pace_deadline in Ed. rewrite Eq in Ed. cbn in Ed. rewrite Hu in Ed. done.
Qed.

Lemma ok_arm c : conn_ok c -> phase c = Top -> (is_idle (forward c) = true -> input_open c = true) -> conn_ok (arm c).
Proof.
  intros [He Hp Ht Hr Ho] Htop Hopen. unfold arm. destruct (is_idle (forward c)) eqn:Ei.
  - rewrite Hopen by done. split; try done; [cbn; by rewrite Ei, Hopen by done|].
    intros _ t Hd. destruct (Ho ltac:(by rewrite Htop) t Hd) as [?|[?|Hx]]; auto.
    unfold recovering in Hx. by rewrite Htop in Hx.
  - split; try done.
    + cbn. split_and!; [done|by intros ->|]. intros _. split; [done|]. intros Hd. rewrite Hd.
      destruct (a_debt_always_wakes _ _ Ei Hd) as (Hp' & d & -> & _). eauto.
    + intros _ t Hd. destruct (Ho ltac:(by rewrite Htop) t Hd) as [?|[?|Hx]]; auto.
      unfold recovering in Hx. by rewrite Htop in Hx.
Qed.

(** Back to the top, where nothing is being recovered. *)
Lemma ok_top c f i d dl :
  conn_ok c -> phase c = Selecting i d dl -> (f = c \/ f = set_input_open false c) -> conn_ok (set_phase Top f).
Proof.
  intros [He Hp Ht Hr Ho] Hs Hf. assert (forall t, is_Some (resync_debt (forward c) !! t) ->
    t ∈ resync_queue (forward c) \/ t ∈ resync_unavailable_announced (forward c) \/ False) as Ho'.
  { intros t Hd. destruct (Ho ltac:(by rewrite Hs) t Hd) as [?|[?|Hx]]; auto. unfold recovering in Hx. by rewrite Hs in Hx. }
  destruct Hf as [-> | ->]; split; try done; intros _; exact Ho'.
Qed.

Lemma ok_deliver c i dl :
  conn_ok c -> phase c = Selecting i true dl -> has_room c = true -> conn_ok (deliver_one c).
Proof.
  intros Hok Hs Hroom. pose proof (ok_top c c i true dl Hok Hs (or_introl eq_refl)) as Htop.
  pose proof Hok as [He Hp Ht Hr Ho]. assert (phase c <> Ended) as Hne by (by rewrite Hs).
  pose proof (Ho Hne) as Howed. pose proof (deliver_exact (now c) _ He) as Hd.
  assert (forall t, ~ recovering t c) as Hnot by (intros t Hx; unfold recovering in Hx; by rewrite Hs in Hx).
  unfold deliver_one. destruct (deliver_start (now c) (forward c)) as [e s|t required s|]; [| |done].
  - destruct Hd as (Hex & Hpend & _ & Hpop). destruct (pop_exact _ _ _ He Hpop) as (_ & _ & _ & Hq & _ & Hdebt & _ & _ & Han).
    destruct (put_room false (Some e) (set_forward s c) Ht Hroom) as [H1 H2]. split; try done.
    intros _ t. cbn. rewrite Hdebt, Hq, Han. intros Hx. destruct (Howed t Hx) as [?|[?|?]]; [by left|by right; left|by destruct (Hnot t)].
  - destruct Hd as (_ & Hin & Hready & -> & Hex & Hpend & Hperm & Hdebt & _ & _ & Han). split; try done.
    + cbn. split_and!; try done.
      * pose proof (exact_queue _ He) as Hnd. rewrite Hperm in Hnd. by apply NoDup_cons in Hnd as [? _].
      * rewrite Hdebt. destruct (exact_debt _ He t Hin) as [d Hd]. unfold get. by rewrite Hd.
    + intros _ t'. cbn. rewrite Hdebt, Han. intros Hx. destruct (Howed t' Hx) as [Hy|[?|?]]; [|by right; left|by destruct (Hnot t')].
      rewrite Hperm in Hy. apply elem_of_cons in Hy as [->|?]; [by right; right|by left].
Qed.

Lemma ok_receive c i d dl e b rest :
  conn_ok c -> phase c = Selecting i d dl -> queued (ingress c) = (e, b) :: rest -> conn_ok (receive e rest c).
Proof.
  intros [He Hp Ht Hr Ho] Hs Hq. unfold receive. cbv zeta. cbn [forward set_routed set_ingress].
  set (c1 := set_routed _ _). assert (try_send c1 = try_send c) as Htry by done. rewrite Htry.
  pose proof (route_exact (try_send c) e _ He) as Hex. pose proof (route_sent (try_send c) e (forward c)) as Hsent.
  assert (forall x, owed_ok (forward c) x) as Howed.
  { intros x Hx. destruct (Ho ltac:(by rewrite Hs) x Hx) as [?|[?|Hy]]; auto. unfold recovering in Hy. by rewrite Hs in Hy. }
  pose proof (fun x => route_owed (try_send c) e _ x He (Howed x)) as Howed'. 
  destruct (route (try_send c) e (forward c)) as [[s sent] go]. cbn [fst snd] in *.
  assert (conn_ok (set_phase Top (put false sent (set_forward s c1)))) as Hgo.
  { assert ((taken c <= length (delivered (put false sent (set_forward s c1))))%nat
      /\ len (delivered (put false sent (set_forward s c1))) - Z.of_nat (taken c) <= EVENT_CAPACITY) as [H1 H2].
    { destruct sent as [x|]; [|by cbn]. destruct (Hsent x eq_refl) as [Hsn _].
      destruct (put_room false (Some x) c Ht (try_send_room _ Hsn)). cbn in *. done. }
    assert (forall y, forward (put false y (set_forward s c1)) = s /\ taken (put false y (set_forward s c1)) = taken c) as Hput by (by intros []).
    destruct (Hput sent) as [Hf1 Hf2]. split; cbn; rewrite ?Hf1, ?Hf2; try done.
    intros _ t Hd. destruct (Howed' t Hd); auto. }
  destruct go; [done|]. apply ok_stop in Hgo. by destruct Hgo.
Qed.

Lemma ok_answer c since t required answer :
  conn_ok c -> phase c = Recovering since t required -> conn_ok (answered answer since t required c).
Proof.
  intros [He Hp Ht Hr Ho] Hs. unfold phase_ok in Hp. rewrite Hs in Hp. destruct Hp as (Hpend & Hnot & Hdebt & _ & Hroom).
  unfold answered. pose proof (finish_spec since t required answer _ He Hnot) as Hf.
  destruct (deliver_finish since t required answer (forward c)) as [s sent]. destruct Hf as (Hex & Hps & Hq & Hcase). cbv zeta.
  set (c1 := set_replays _ _). destruct (put_room true sent c1 Ht Hroom) as [H1 H2].
  assert (forall y, forward (put true y (set_forward s c1)) = s /\ delivered (put true y (set_forward s c1)) = delivered (put true y c1)
          /\ taken (put true y (set_forward s c1)) = taken (put true y c1)) as Hput by (by intros []).
  destruct (Hput sent) as (Hf1 & Hf2 & Hf3). split; cbn [forward phase set_phase delivered taken]; rewrite ?Hf1, ?Hf2, ?Hf3; try done.
  intros _ x Hx. assert (is_Some (resync_debt (forward c) !! x) -> x = t \/ owed_ok (forward c) x) as Hold.
  { intros Hd. destruct (Ho ltac:(by rewrite Hs) x Hd) as [?|[?|Hy]]; [by right; left|by right; right|].
    unfold recovering in Hy. rewrite Hs in Hy. auto. }
  destruct Hcase as [(sn & _ & _ & _ & Hd & _ & _ & Han)|(_ & Hd & _ & _ & Htan & Han)]; rewrite Hd in Hx; rewrite Hq.
  - destruct (decide (x = t)) as [->|Hne]; [rewrite lookup_delete_eq in Hx; by destruct Hx|].
    rewrite lookup_delete_ne in Hx by done. destruct (Hold Hx) as [?|Hy]; [done|]. destruct (Hy Hx); [by left|right; left].
    rewrite Han. set_solver.
  - destruct (Hold Hx) as [->|Hy]; [by right; left|]. destruct (Hy Hx) as [?|?%Han]; auto.
Qed.

Lemma conn_ok_step c c' : conn_ok c -> stepped c c' -> conn_ok c'.
Proof.
  intros Hok Hs. destruct Hs.
  - by eapply ok_env.
  - by apply ok_stop.
  - by apply ok_arm.
  - eapply (ok_top c c); eauto.
  - eapply (ok_top c (set_input_open false c)); eauto.
  - by eapply ok_deliver.
  - by eapply ok_receive.
  - by eapply ok_answer.
Qed.

Lemma conn_ok_start : conn_ok event_forward_channel.
Proof.
  split; try done; [|intros _ t [? Ht]; cbn in Ht; by rewrite lookup_empty in Ht].
  split; try done; try (by constructor); cbn; intros t; set_solver.
Qed.

Lemma conn_ok_run ls c : run event_forward_channel ls = Some c -> conn_ok c.
Proof. apply (conn_invariant conn_ok); [apply conn_ok_start|apply conn_ok_step]. Qed.
