(* ===== verification/EventForwardFlow.v ===== *)
(** * Nothing is lost, nothing is overtaken

    Over the invariant of EventForwardConn.v: what became of every event the forwarder
    received, the lane kept free for recovery, the spacing of replays. *)

From Stdlib Require Import Ascii.
From S2P Require Import Prelude ReplayRing EventForward EventForwardProps EventForwardConn.

#[local] Open Scope Z_scope.

#[local] Notation len l := (Z.of_nat (length l)).

#[local] Arguments handed_on : simpl never.
#[local] Arguments structured : simpl never.
#[local] Arguments drop_resync : simpl never.

(** ** What routing does with one event *)

(** An output that is handed on overtakes nothing of its terminal. *)
Lemma route_output_flow answer e s :
  exact s -> is_output e = true ->
  let '(s', sent, go) := route answer e s in
  pending s' = pending s
  /\ (sent = None \/ sent = Some e /\ forall t, concerns t e = true -> Forall (fun y => concerns t y = false) (pending s)).
Proof.
  intros Hs He. assert (forall t n, (forall x, concerns x e = true -> x = t) ->
    let '(s', sent, go) := route_output answer e t n s in
    pending s' = pending s
    /\ (sent = None \/ sent = Some e /\ forall t, concerns t e = true -> Forall (fun y => concerns t y = false) (pending s))) as Hout.
  { intros t n Ht. unfold route_output. destruct (is_superseded _ _ _); [by auto|].
    destruct (pending_blocks_output t s) eqn:Eb; [cbn; split; [|by left]|].
    { unfold schedule_resync. by repeat case_match. }
    destruct (_ || _); [cbn; split; [|by left]; unfold schedule_resync; by repeat case_match|].
    destruct answer; split; try done; try (by left); [|unfold schedule_resync; by repeat case_match].
    right. split; [done|]. intros x ->%Ht. by apply gate_spec. }
  destruct e; try done; apply Hout; intros x; unfold concerns; cbn; destruct (Z.eqb_spec terminal_id x); by subst.
Qed.

Lemma route_other_flow answer e s :
  exact s -> is_output e = false ->
  let '(s', sent, go) := route answer e s in
  (go = true /\ sent = Some e /\ pending s = [] /\ pending s' = [])
  \/ (go = true /\ sent = None /\ pending s' = pending s ++ [e])
  \/ (go = false /\ sent = None /\ pending s' = pending s
      /\ (answer = Closed \/ len (pending s) = MAX_PENDING_STRUCTURED_EVENTS)).
Proof.
  intros Hs He. assert (route answer e s = route_other answer e s) as -> by (destruct e; first [discriminate He|reflexivity]).
  unfold route_other. rewrite note_pending. pose proof (note_pending e s) as Hn.
  assert (pending (push_pending e (note_event e s)) = pending s ++ [e]) as Hpush.
  { unfold push_pending. rewrite <- Hn. by destruct (stream_scope e). }
  destruct (pending s) as [|y l] eqn:Ep; cbn [is_nil].
  - destruct answer; [left|right; left|right; right]; split_and!; try done. by left.
  - pose proof (exact_bound _ Hs) as Hb. rewrite Ep in Hb.
    destruct (Z.leb_spec MAX_PENDING_STRUCTURED_EVENTS (len (y :: l))); right; [right|left]; [|done]. split; [done|]. split; [done|]. split; [done|]. right. lia.
Qed.

Lemma handed_on_app l1 l2 : handed_on (l1 ++ l2) = handed_on l1 ++ handed_on l2.
Proof. unfold handed_on. by rewrite List.filter_app, map_app. Qed.

Lemma structured_app l1 l2 : structured (l1 ++ l2) = structured l1 ++ structured l2.
Proof. apply List.filter_app. Qed.

Lemma handed_on_one own e : handed_on [(own, e)] = if own then [] else [e].
Proof. by destruct own. Qed.

Lemma structured_one e : structured [e] = if is_output e then [] else [e].
Proof. unfold structured. cbn. by destruct (is_output e). Qed.

Lemma structured_nil : structured [] = [].
Proof. done. Qed.

Lemma structured_id l : Forall (fun e => is_output e = false) l -> structured l = l.
Proof. induction 1 as [|e l He _ IH]; [done|]. unfold structured in *. cbn. by rewrite He, IH. Qed.

(** ** The flow *)

(** The structured events received: handed on, or still buffered, or (where the connection
    ended in the middle of one) that one. *)
Definition accounted (c : Conn) : Prop :=
  exists lost, structured (routed c) = structured (handed_on (delivered c)) ++ pending (forward c) ++ lost
    /\ (lost = [] \/ phase c = Ended /\ length lost = 1%nat
                     /\ (client_open c = false \/ len (pending (forward c)) = MAX_PENDING_STRUCTURED_EVENTS)).

Definition ordered (c : Conn) : Prop :=
  forall t, sublist (List.filter (concerns t) (handed_on (delivered c) ++ pending (forward c)))
                    (List.filter (concerns t) (routed c)).

Lemma filter_nothing {A} (p : A -> bool) l : Forall (fun x => p x = false) l -> List.filter p l = [].
Proof. induction 1 as [|x l Hx _ IH]; cbn; [done|]. by rewrite Hx. Qed.

Lemma sublist_snoc {A} (l1 l2 : list A) x : sublist l1 l2 -> sublist (l1 ++ [x]) (l2 ++ [x]).
Proof. intros Hl. by apply sublist_app. Qed.

Definition flows (c : Conn) : Prop := accounted c /\ ordered c.

Lemma flows_same c c' :
  delivered c' = delivered c -> pending (forward c') = pending (forward c) -> routed c' = routed c ->
  phase c' = phase c \/ phase c <> Ended -> (client_open c = false -> client_open c' = false) -> flows c -> flows c'.
Proof.
  intros Hd Hp Hr Hph Hc [(lost & Ha & Hl) Ho]. split.
  - exists lost. rewrite Hd, Hp, Hr. split; [done|]. destruct Hl as [->|(He & Hlen & Hw)]; [by left|right].
    destruct Hph as [->|]; [|done]. split_and!; try done. destruct Hw; auto.
  - unfold ordered. by rewrite Hd, Hp, Hr.
Qed.

Lemma accounted_open c : flows c -> phase c <> Ended ->
  structured (routed c) = structured (handed_on (delivered c)) ++ pending (forward c).
Proof. intros [(lost & Ha & [->|[He _]]) _] Hne; [|done]. by rewrite app_nil_r in Ha. Qed.

Lemma flows_deliver c :
  exact (forward c) -> phase c <> Ended -> flows c -> flows (deliver_one c).
Proof.
  intros He Hne Hf. pose proof (accounted_open _ Hf Hne) as Ha. pose proof (deliver_exact (now c) _ He) as Hd. unfold deliver_one.
  destruct (deliver_start (now c) (forward c)) as [e s|t required s|].
  - destruct Hd as (_ & Hp & Hout & _). rewrite Hp in Ha. destruct Hf as [_ Ho]. split.
    + exists []. cbn. rewrite handed_on_app, handed_on_one, structured_app, structured_one, Hout, app_nil_r, <- app_assoc.
      by split; [|left].
    + intros t. specialize (Ho t). rewrite Hp in Ho. cbn [put delivered forward set_phase set_delivered set_forward].
      by rewrite handed_on_app, handed_on_one, <- app_assoc.
  - destruct Hd as (Hp & _ & _ & _ & _ & Hp' & _). apply (flows_same c); try done; [cbn; congruence|by right].
  - apply (flows_same c); try done. by right.
Qed.

(** The received event joins one of the three. *)
Lemma flows_receive c e rest :
  exact (forward c) -> phase c <> Ended -> flows c -> flows (receive e rest c).
Proof.
  intros He Hne Hf. pose proof (accounted_open _ Hf Hne) as Ha. destruct Hf as [_ Ho]. unfold receive. cbv zeta.
  cbn [forward set_routed set_ingress]. set (c1 := set_routed _ _). assert (try_send c1 = try_send c) as -> by done.
  pose proof (route_output_flow (try_send c) e _ He) as H1. pose proof (route_other_flow (try_send c) e _ He) as H2.
  destruct (route (try_send c) e (forward c)) as [[s sent] go].
  assert (forall f : Conn -> Conn, (forall x, pending (forward (f x)) = pending (forward x) /\ delivered (f x) = delivered x /\ routed (f x) = routed x) ->
    (is_output e = false -> go = false -> f = stop) -> flows (f (put false sent (set_forward s c1)))) as Hgo.
  { intros f Hf Hstop. set (x := put false sent (set_forward s c1)). destruct (Hf x) as (Hfp & Hfd & Hfr).
    assert (pending (forward x) = pending s /\ routed x = routed c ++ [e]
            /\ handed_on (delivered x) = handed_on (delivered c) ++ match sent with Some y => [y] | None => [] end) as (Hx1 & Hx2 & Hx3).
    { unfold x. destruct sent; cbn; rewrite ?handed_on_app, ?handed_on_one, ?app_nil_r; done. }
    unfold flows, accounted, ordered. rewrite Hfp, Hfd, Hfr, Hx1, Hx2, Hx3, !structured_app, Ha. split.
    - destruct (is_output e) eqn:Eo.
      + destruct (H1 eq_refl) as [Hp Hs]. exists []. rewrite Hp, structured_one, Eo, !app_nil_r. split; [|by left].
        destruct Hs as [-> | [-> _]]; by rewrite ?structured_one, ?Eo, ?structured_nil, ?app_nil_r.
      + destruct (H2 eq_refl) as [(_ & -> & Hp & Hp')|[(_ & -> & Hp')|(-> & -> & Hp' & Hw)]]; rewrite Hp', ?structured_one, ?Eo, ?structured_nil, ?app_nil_r.
        * exists []. rewrite Hp, !app_nil_r. by split; [|left].
        * exists []. rewrite app_nil_r, <- app_assoc. by split; [|left].
        * exists [e]. split; [by rewrite <- app_assoc|]. right. rewrite (Hstop eq_refl eq_refl). split_and!; [done|done|].
          unfold x. cbn. destruct Hw as [Hw|Hw]; [left|right; congruence].
          unfold try_send in Hw. destruct (client_open c); [|done]. by destruct (has_room c).
    - intros t. specialize (Ho t). rewrite (List.filter_app _ (routed c) [e]), !List.filter_app in *. cbn.
      destruct (is_output e) eqn:Eo.
      + destruct (H1 eq_refl) as [Hp [-> | [-> Hover]]]; rewrite Hp; [cbn; rewrite app_nil_r; by apply sublist_inserts_r|].
        cbn. destruct (concerns t e) eqn:Ec; [|by rewrite !app_nil_r].
        rewrite (filter_nothing _ (pending (forward c))) in * by (by apply Hover). rewrite !app_nil_r in *. by apply sublist_snoc.
      + destruct (H2 eq_refl) as [(_ & -> & Hp & Hp')|[(_ & -> & Hp')|(_ & -> & Hp' & _)]]; rewrite Hp'.
        * rewrite Hp in Ho. cbn in *. rewrite !app_nil_r in *. destruct (concerns t e); [by apply sublist_snoc|by rewrite !app_nil_r].
        * rewrite app_nil_r, List.filter_app, app_assoc. cbn. destruct (concerns t e); [by apply sublist_snoc|by rewrite !app_nil_r].
        * cbn. rewrite app_nil_r. by apply sublist_inserts_r. }
  destruct go; [apply (Hgo (set_phase Top))|apply (Hgo stop)]; done.
Qed.

Lemma flows_answer c since t required answer :
  exact (forward c) -> t ∉ resync_queue (forward c) -> phase c = Recovering since t required -> flows c ->
  flows (answered answer since t required c).
Proof.
  intros He Ht Hph Hf. unfold answered. pose proof (finish_spec since t required answer _ He Ht) as Hs.
  destruct (deliver_finish since t required answer (forward c)) as [s sent]. destruct Hs as (_ & Hp & _ & _). cbv zeta.
  destruct Hf as [(lost & Ha & Hl) Ho]. assert (lost = []) as -> by (destruct Hl as [|[Hl _]]; [done|congruence]).
  set (c1 := set_replays _ _). set (x := put true sent (set_forward s c1)).
  assert (pending (forward x) = pending s /\ routed x = routed c /\ handed_on (delivered x) = handed_on (delivered c)) as (H1 & H2 & H3).
  { unfold x. destruct sent; cbn; rewrite ?handed_on_app, ?handed_on_one, ?app_nil_r; done. }
  split.
  - exists []. change (forward (set_phase Top x)) with (forward x). change (routed (set_phase Top x)) with (routed x).
    change (delivered (set_phase Top x)) with (delivered x). rewrite H1, H2, H3, Hp. split; [done|by left].
  - intros t'. specialize (Ho t'). change (forward (set_phase Top x)) with (forward x).
    change (routed (set_phase Top x)) with (routed x). change (delivered (set_phase Top x)) with (delivered x).
    by rewrite H1, H2, H3, Hp.
Qed.

Lemma flows_step c c' : conn_ok c -> flows c -> stepped c c' -> flows c'.
Proof.
  intros Hok Hf Hs. pose proof (ok_exact _ Hok) as He. destruct Hs as [c' Hsame| | |i d dl Hp|i d dl Hp| | |since t required answer Hp].
  - destruct Hsame as [Hfw Hph Hin Hd Hr]. apply (flows_same c); rewrite ?Hfw; auto.
  - apply (flows_same c); auto.
  - unfold arm. destruct (is_idle _); [destruct (input_open c)|]; apply (flows_same c); cbn; auto; right; congruence.
  - apply (flows_same c); cbn; auto. right. congruence.
  - apply (flows_same c); cbn; auto. right. congruence.
  - apply flows_deliver; [done|congruence|done].
  - apply flows_receive; [done|congruence|done].
  - apply flows_answer; try done. pose proof (ok_phase _ Hok) as Hph. unfold phase_ok in Hph. rewrite Hp in Hph. tauto.
Qed.

Lemma flows_run ls c : run event_forward_channel ls = Some c -> flows c.
Proof.
  intros Hr. apply (conn_invariant (fun c => conn_ok c /\ flows c)) with (ls := ls); [..|done].
  - split; [apply conn_ok_start|]. split; [exists []; split; [done|by left]|]. intros t. constructor.
  - intros c1 c2 [Hok Hf] Hs. split; [by eapply conn_ok_step|by eapply flows_step].
Qed.

(** C9: In every interleaving, the structured events received from the serve loop are
    those handed on, in that order, then those still buffered, in that order, and then
    at most one that is lost, only where the connection has ended because the client is
    gone or the backlog is full.  And of the events that concern one terminal, its
    output included, none is reordered or repeated; between terminals the order of
    outputs may change. *)
Theorem structured_events_are_lossless ls c :
  run event_forward_channel ls = Some c ->
  (exists lost, structured (routed c) = structured (handed_on (delivered c)) ++ pending (forward c) ++ lost
     /\ (lost = [] \/ phase c = Ended /\ length lost = 1%nat
                      /\ (client_open c = false \/ len (pending (forward c)) = MAX_PENDING_STRUCTURED_EVENTS)))
  /\ forall t, sublist (List.filter (concerns t) (handed_on (delivered c) ++ pending (forward c)))
                       (List.filter (concerns t) (routed c)).
Proof. apply flows_run. Qed.

(** ** What a connection holds *)

Definition authoritative (q : Ingress) : Z := len (List.filter (fun x => negb x.2) (queued q)).

Definition staged_ok (q : Ingress) : Prop :=
  0 <= normal_slots q /\ len (queued q) <= RAW_EVENT_CAPACITY + AUTHORITATIVE_EVENT_RESERVE.

Lemma lanes q : len (queued q) = RAW_EVENT_CAPACITY - normal_slots q + authoritative q.
Proof.
  unfold normal_slots, authoritative. induction (queued q) as [|[e []] l IH]; cbn [List.filter snd negb length]; lia.
Qed.

Lemma admit_ok x q : staged_ok q -> (x.2 = true -> 0 < normal_slots q) -> staged_ok (enqueue x q).1.
Proof.
  intros [Hn Hl] Hx. unfold enqueue. destruct (negb _); [done|]. destruct (Z.ltb_spec (len (queued q)) (RAW_EVENT_CAPACITY + AUTHORITATIVE_EVENT_RESERVE)); [|done].
  unfold staged_ok, normal_slots in *. cbn [fst queued]. rewrite List.filter_app, !length_app. cbn. destruct x as [e []]; cbn in *; [|lia].
  specialize (Hx eq_refl). lia.
Qed.

Lemma staged_run ls c : run event_forward_channel ls = Some c -> staged_ok (ingress c).
Proof.
  assert (forall ls c c', staged_ok (ingress c) -> run c ls = Some c' -> staged_ok (ingress c')) as Hall.
  { clear ls c. induction ls as [|l ls IH]; intros c c' Hc; cbn [run]; [by intros [= <-]|].
    destruct (step c l) as [c1|] eqn:E; [|done]. apply IH. clear IH. assert (forall o, staged_ok (mkIngress [] o false)) as Hnil by done.
    assert (forall x rest o r, queued (ingress c) = x :: rest -> staged_ok (mkIngress rest o r)) as Hrest.
    { intros x rest o r Hq. destruct Hc as [Hn Hl]. unfold staged_ok, normal_slots in *. cbn [queued]. rewrite Hq in *.
      cbn [List.filter length] in *. destruct x.2; cbn [length] in *; lia. }
    assert (forall own e x, ingress (put own e x) = ingress x) as Hput by (by intros own []).
    destruct l; cbn [step] in E.
    - destruct (senders c); [injection E as <-|done]. cbn. unfold send. destruct (Z.ltb_spec 0 (normal_slots (ingress c))); [|done].
      by apply admit_ok.
    - destruct (senders c); [injection E as <-|done]. by apply admit_ok.
    - by injection E as <-.
    - destruct (_ && _); [by injection E as <-|done].
    - by injection E as <-.
    - destruct (_ <=? _); [by injection E as <-|done].
    - destruct (phase c); try done. injection E as <-. unfold arm. destruct (is_idle _); [by destruct (input_open c)|done].
    - destruct (phase c); try done. unfold select in E. repeat case_match; simplify_eq/=; try done.
      + unfold deliver_one. destruct (deliver_start _ _); done.
      + unfold receive. cbv zeta. destruct (route _ _ _) as [[s sent] []]; cbn; rewrite ?Hput; cbn; by eauto.
    - destruct (phase c); try done. injection E as <-. unfold answered. destruct (deliver_finish _ _ _ _ _) as [s sent].
      cbn. by rewrite Hput. }
  apply Hall. done.
Qed.

(** The staging queue, the backlog and the client's channel keep their bounds in every
    interleaving.  An event of recovery is admitted however full the normal lane is, as long
    as fewer of them wait than the reserve holds; and an event that is refused for want of
    room ends the connection at the forwarder's next turn, so that the client never goes on
    without it. *)
Theorem recovery_is_never_crowded_out ls c :
  run event_forward_channel ls = Some c ->
  len (queued (ingress c)) <= RAW_EVENT_CAPACITY + AUTHORITATIVE_EVENT_RESERVE
  /\ len (pending (forward c)) <= MAX_PENDING_STRUCTURED_EVENTS
  /\ len (delivered c) - Z.of_nat (taken c) <= EVENT_CAPACITY
  /\ (forall e, receiver (ingress c) = true -> authoritative (ingress c) < AUTHORITATIVE_EVENT_RESERVE ->
        (send_authoritative e (ingress c)).2 = Sent)
  /\ (forall e q r, (r = send e (ingress c) \/ r = send_authoritative e (ingress c)) -> r = (q, Full) ->
        forall d dl, select d dl (set_ingress q c) = Some (stop (set_ingress q c))).
Proof.
  intros Hr. pose proof (conn_ok_run _ _ Hr) as [He _ _ Hroom _]. destruct (staged_run _ _ Hr) as [Hn Hl].
  split; [done|]. split; [by apply exact_bound|]. split; [done|]. split.
  - intros e Hrec Ha. unfold send_authoritative, enqueue. rewrite Hrec. cbn [negb].
    pose proof (lanes (ingress c)). by rewrite (proj2 (Z.ltb_lt _ _)) by lia.
  - intros e q r Hsend -> d dl. unfold select. cbn [ingress set_ingress]. assert (overloaded q = true) as ->; [|done].
    unfold send, send_authoritative, enqueue in Hsend. destruct Hsend as [Hs|Hs]; repeat case_match; by simplify_eq.
Qed.

(** ** The spacing of replays *)

Definition of_terminal (t : Z) (l : list (Z * Z)) : list Z := map snd (List.filter (fun x => x.1 =? t) l).

Definition spaced (a b : Z) : Prop := a + RESYNC_DEBOUNCE <= b.

Definition never_exits (t : Z) (c : Conn) : Prop := Forall (fun e => exits t e = false) (routed c).

Definition paced (t : Z) (c : Conn) : Prop :=
  never_exits t c ->
  StronglySorted spaced (of_terminal t (replays c))
  /\ Forall (fun s => exists p, resync_paced_until (forward c) !! t = Some p /\ s + RESYNC_DEBOUNCE <= p) (of_terminal t (replays c))
  /\ (forall since required, phase c = Recovering since t required -> resync_ready since t (forward c) = true).

Lemma drop_paced t s : resync_paced_until (drop_resync t s) = resync_paced_until s.
Proof. unfold drop_resync. by case_bool_decide. Qed.

Lemma note_paced e t s : exits t e = false -> resync_paced_until (note_event e s) !! t = resync_paced_until s !! t.
Proof.
  assert (forall ts s, resync_paced_until (cover_all ts s) = resync_paced_until s) as Hall.
  { induction ts as [|x ts IH]; intros s'; [done|]. cbn. rewrite IH. destruct (replay_available x); [by rewrite drop_paced|done]. }
  intros He. destruct e; cbn in *; rewrite ?drop_paced, ?Hall; try done. apply lookup_delete_ne. by apply Z.eqb_neq.
Qed.

Lemma route_paced answer e t s :
  exits t e = false -> resync_paced_until (route answer e s).1.1 !! t = resync_paced_until s !! t.
Proof.
  intros He. assert (forall t n, resync_paced_until (schedule_resync t n s) = resync_paced_until s) as Hs
    by (intros; unfold schedule_resync; by repeat case_match).
  assert (forall y s, resync_paced_until (push_pending y s) = resync_paced_until s) as Hp
    by (intros; unfold push_pending; by repeat case_match).
  assert (resync_paced_until (route_other answer e s).1.1 !! t = resync_paced_until s !! t) as Ho.
  { unfold route_other. rewrite <- (note_paced e t s He). repeat case_match; cbn [fst]; by rewrite ?Hp. }
  destruct e; try exact Ho; unfold route, route_output; repeat case_match; cbn [fst]; by rewrite ?Hs.
Qed.

Lemma paced_same t c c' :
  paced t c -> replays c' = replays c -> routed c' = routed c -> resync_paced_until (forward c') = resync_paced_until (forward c) ->
  (forall a b, phase c' <> Recovering a t b) \/ phase c' = phase c -> paced t c'.
Proof.
  intros Hp Hr Hro Hf Hph Hne. unfold never_exits, paced in *. rewrite Hr, Hro, Hf in *. destruct (Hp Hne) as (H1 & H2 & H3).
  split_and!; try done. intros a b Hab. destruct Hph as [Hph|Hph]; [by destruct (Hph a b)|].
  unfold resync_ready. rewrite Hf. apply (H3 a b). by rewrite <- Hph.
Qed.

Lemma paced_answer t c since t' required answer :
  conn_ok c -> phase c = Recovering since t' required -> paced t c -> paced t (answered answer since t' required c).
Proof.
  intros Hok Hph Hp. pose proof (ok_exact _ Hok) as He. pose proof (ok_phase _ Hok) as Hk. unfold phase_ok in Hk. rewrite Hph in Hk.
  destruct Hk as (_ & Hnot & _). unfold answered. pose proof (finish_spec since t' required answer _ He Hnot) as Hs.
  destruct (deliver_finish since t' required answer (forward c)) as [s sent]. destruct Hs as (_ & _ & _ & Hs). cbv zeta.
  set (c1 := set_replays _ _). set (x := put true sent (set_forward s c1)).
  assert (forward x = s /\ routed x = routed c /\ replays x = replays c1) as (H1 & H2 & H3) by (unfold x; by destruct sent).
  intros Hne. unfold never_exits in Hne. change (routed (set_phase Top x)) with (routed x) in Hne. rewrite H2 in Hne.
  destruct (Hp Hne) as (Hsort & Hall & Hready). change (replays (set_phase Top x)) with (replays x).
  change (forward (set_phase Top x)) with (forward x). rewrite H1, H3. split_and!; [..|done].
  - destruct Hs as [(sn & _ & _ & -> & _)|[[-> | ->] _]]; cbn; rewrite ?app_nil_r; try done.
    unfold of_terminal in *. rewrite List.filter_app, map_app. cbn. destruct (Z.eqb_spec t' t) as [->|]; cbn; [|by rewrite app_nil_r].
    specialize (Hready _ _ Hph). unfold resync_ready in Hready. clear -Hsort Hall Hready.
    induction Hsort as [|a l Hl IH Ha]; cbn in *; [by repeat constructor|]. apply Forall_cons in Hall as [(p & Hpp & Hap) Hall].
    constructor; [by apply IH|]. apply Forall_app. split; [done|]. constructor; [|done]. rewrite Hpp in Hready. cbn in Hready. unfold spaced. lia.
  - destruct Hs as [(sn & _ & _ & -> & _ & _ & -> & _)|([-> | ->] & _ & _ & -> & _)]; cbn; rewrite ?app_nil_r; try done.
    unfold of_terminal in *. rewrite List.filter_app, map_app. apply Forall_app. cbn. destruct (Z.eqb_spec t' t) as [->|Hne']; cbn.
    + specialize (Hready _ _ Hph). unfold resync_ready in Hready. split; [|constructor; [|done]; exists (since + RESYNC_DEBOUNCE); by rewrite lookup_insert_eq].
      eapply Forall_impl; [exact Hall|]. intros a (p & Hpp & Hap). exists (since + RESYNC_DEBOUNCE). rewrite lookup_insert_eq. split; [done|].
      rewrite Hpp in Hready. cbn in Hready. unfold RESYNC_DEBOUNCE, secs, nanos_per_sec in *. lia.
    + split; [|done]. rewrite lookup_insert_ne by done. done.
Qed.

Lemma paced_step t c c' : conn_ok c -> paced t c -> stepped c c' -> paced t c'.
Proof.
  intros Hok Hp Hs. pose proof (ok_exact _ Hok) as He.
  destruct Hs as [c' Hsame|Hph|Hph|i d dl Hph|i d dl Hph|i dl Hph _ _|i d dl e b rest Hph _ _ _|since t' required answer Hph].
  - destruct Hsame as [Hf Hph _ _ Hr Hre _ _]. apply (paced_same t c); rewrite ?Hf; auto.
  - apply (paced_same t c); try done; by left.
  - apply (paced_same t c); try done; unfold arm; destruct (is_idle _); try destruct (input_open c); try done; by left.
  - apply (paced_same t c); try done; by left.
  - apply (paced_same t c); try done; by left.
  - unfold deliver_one. pose proof (deliver_exact (now c) _ He) as Hd. destruct (deliver_start (now c) (forward c)) as [e s|t' required s|].
    + destruct Hd as (_ & _ & _ & Hpop). destruct (pop_exact _ _ _ He Hpop) as (_ & _ & _ & _ & _ & _ & _ & Hpa & _).
      apply (paced_same t c); try done; by left.
    + destruct Hd as (_ & _ & Hready & _ & _ & _ & _ & _ & _ & Hpa & _).
      intros Hne. destruct (Hp Hne) as (H1 & H2 & _). cbn. rewrite Hpa. split_and!; try done.
      intros a b [= <- <- <-]. unfold resync_ready in *. cbn. by rewrite Hpa.
    + apply (paced_same t c); try done; by left.
  - unfold receive. cbv zeta. cbn [forward set_routed set_ingress]. set (c1 := set_routed _ _).
    pose proof (route_paced (try_send c1) e t (forward c)) as Hr. destruct (route (try_send c1) e (forward c)) as [[s sent] go].
    set (x := put false sent (set_forward s c1)).
    assert (forward x = s /\ routed x = routed c ++ [e] /\ replays x = replays c) as (H1 & H2 & H3) by (unfold x; by destruct sent).
    assert (forall f, forward f = s -> routed f = routed c ++ [e] -> replays f = replays c -> (forall a b, phase f <> Recovering a t b) -> paced t f) as Hgo.
    { intros f Hf1 Hf2 Hf3 Hf4 Hne. unfold never_exits in Hne. rewrite Hf2 in Hne. apply Forall_app in Hne as [Hne Hex].
      apply Forall_cons in Hex as [Hex _]. specialize (Hr Hex). cbn in Hr. destruct (Hp Hne) as (Q1 & Q2 & _). rewrite Hf3, Hf1, Hr.
      split_and!; try done. intros since req Hab. by destruct (Hf4 since req). }
    destruct go; apply Hgo; done.
  - by eapply paced_answer.
Qed.

(** The replays that are read for one terminal are at least two seconds apart, whatever the
    congestion, as long as the terminal lives. *)
Theorem replays_are_spaced ls c t :
  run event_forward_channel ls = Some c -> Forall (fun e => exits t e = false) (routed c) ->
  StronglySorted spaced (of_terminal t (replays c)).
Proof.
  intros Hr Hne. assert (conn_ok c /\ paced t c) as [_ Hp]; [|by apply Hp].
  apply (conn_invariant (fun c => conn_ok c /\ paced t c)) with (ls := ls); [..|done].
  - split; [apply conn_ok_start|]. intros _. split_and!; [constructor|constructor|done].
  - intros c1 c2 [Hok Hp] Hs. split; [by eapply conn_ok_step|by eapply paced_step].
Qed.
