(* ===== verification/EventForwardStream.v ===== *)
(** * The output of one terminal

    What the client of EventForward.v hears of one terminal, against what the serve loop
    sent of it: whatever was dropped on the way, every output that is handed on continues
    what was heard before it, and once nothing is owed the client is where the serve loop
    is. *)

From Stdlib Require Import Ascii.
From S2P Require Import Prelude ReplayRing EventForward EventForwardProps EventForwardConn EventForwardFlow.

#[local] Open Scope Z_scope.

#[local] Notation len l := (Z.of_nat (length l)).
#[local] Arguments drop_resync : simpl never.
#[local] Arguments mark_covered : simpl never.
#[local] Arguments schedule_resync : simpl never.
#[local] Arguments push_pending : simpl never.

(** ** One event *)

Lemma snoc_split {A} (l pre post : list A) x y :
  l ++ [x] = pre ++ y :: post -> (exists post', post = post' ++ [x] /\ l = pre ++ y :: post') \/ (post = [] /\ y = x /\ l = pre).
Proof.
  intros H. induction post as [|z post _] using rev_ind.
  - right. by apply app_inj_tail in H as [-> ->].
  - left. exists post. rewrite app_comm_cons, app_assoc in H. apply app_inj_tail in H as [-> ->]. done.
Qed.

Lemma untorn_snoc t es e :
  untorn t es -> (forall f n, output_of t e = Some (f, n) -> position t es < n /\ f <= position t es + 1) -> untorn t (es ++ [e]).
Proof.
  intros Hes He pre x post f n [(post' & -> & ->)|(-> & -> & ->)]%snoc_split Hx; [by eapply Hes|by apply He].
Qed.

Lemma well_sent_snoc t es e :
  well_sent t (es ++ [e]) ->
  well_sent t es
  /\ (forall f n, output_of t e = Some (f, n) -> last_output t es < n /\ f <= position t es + 1)
  /\ (forall n, n ∈ replays_of t e -> last_output t es <= n).
Proof.
  intros H. split; [|by apply (H es e [])]. intros pre x post ->. apply (H pre x (post ++ [e])). by rewrite app_comm_cons, app_assoc.
Qed.

Lemma output_facts t e f n :
  output_of t e = Some (f, n) -> exits t e = false /\ replays_of t e = [] /\ is_output e = true.
Proof. by destruct e. Qed.

Lemma structured_facts t e : is_output e = false -> output_of t e = None.
Proof. by destruct e. Qed.

Lemma heard_structured t pos e :
  is_output e = false -> heard t pos e = if exits t e then 0 else fold_left Z.max (replays_of t e) pos.
Proof. intros He. unfold heard. by rewrite (structured_facts t e He). Qed.

Lemma heard_as_output t pos e f n : output_of t e = Some (f, n) -> heard t pos e = Z.max pos n /\ heard_output t pos e = Z.max pos n.
Proof. intros He. destruct (output_facts _ _ _ _ He) as (Hx & Hr & _). unfold heard, heard_output. by rewrite Hx, Hr, He. Qed.

Lemma heard_output_le t a b e : a <= b -> heard_output t a e <= heard t b e.
Proof.
  intros Hab. unfold heard, heard_output. destruct (exits t e); [done|].
  etrans; [|apply fold_max_le]. destruct (output_of t e) as [[f n]|]; lia.
Qed.

Lemma last_output_le t es : last_output t es <= position t es.
Proof. induction es as [|e es IH] using rev_ind; [done|]. rewrite position_snoc, last_output_snoc. by apply heard_output_le. Qed.

(** What an event does to the floor and to the debt of one terminal. *)
Lemma mark_covered_get t t' n s : get (covered_seq (mark_covered t' n s)) t = if t' =? t then Z.max (get (covered_seq s) t) n else get (covered_seq s) t.
Proof.
  unfold mark_covered, get. cbn. destruct (Z.eqb_spec t' t) as [->|]; [by rewrite lookup_insert_eq|by rewrite lookup_insert_ne].
Qed.

Lemma drop_covered t s : covered_seq (drop_resync t s) = covered_seq s.
Proof. unfold drop_resync. by case_bool_decide. Qed.

Lemma drop_debt t t' s : resync_debt (drop_resync t' s) !! t = if t' =? t then None else resync_debt s !! t.
Proof.
  unfold drop_resync. destruct (Z.eqb_spec t' t) as [->|]; case_bool_decide; cbn; rewrite ?lookup_delete_eq, ?lookup_delete_ne by done; done.
Qed.

Definition seqs_in (t : Z) (ts : list TerminalSnapshot) : list Z :=
  map snapshot_seq (List.filter (fun x => replay_available x && (snapshot_id x =? t)) ts).

Lemma cover_all_cons x ts s :
  cover_all (x :: ts) s
  = cover_all ts (if replay_available x then drop_resync (snapshot_id x) (mark_covered (snapshot_id x) (snapshot_seq x) s) else s).
Proof. done. Qed.

Lemma cover_all_spec t ts s :
  get (covered_seq (cover_all ts s)) t = fold_left Z.max (seqs_in t ts) (get (covered_seq s) t)
  /\ resync_debt (cover_all ts s) !! t = match seqs_in t ts with [] => resync_debt s !! t | _ => None end.
Proof.
  revert s. induction ts as [|x ts IH]; intros s; [done|]. rewrite cover_all_cons. unfold seqs_in. cbn [List.filter].
  destruct (replay_available x); [|apply IH]. destruct (IH (drop_resync (snapshot_id x) (mark_covered (snapshot_id x) (snapshot_seq x) s))) as [-> ->].
  rewrite drop_covered, mark_covered_get, drop_debt. cbn [andb]. destruct (snapshot_id x =? t); cbn [map]; fold (seqs_in t ts); [|done]. split; [done|].
  by destruct (seqs_in t ts).
Qed.

Lemma note_spec t e s :
  is_output e = false ->
  get (covered_seq (note_event e s)) t = (if exits t e then 0 else fold_left Z.max (replays_of t e) (get (covered_seq s) t))
  /\ resync_debt (note_event e s) !! t
     = if exits t e then None else match replays_of t e with [] => resync_debt s !! t | _ => None end.
Proof.
  intros He. destruct e; cbn; try done; rewrite ?drop_covered, ?mark_covered_get, ?drop_debt.
  - apply cover_all_spec.
  - by destruct (_ =? _).
  - unfold get. destruct (Z.eqb_spec terminal_id t) as [->|]; [by rewrite lookup_delete_eq|by rewrite lookup_delete_ne].
  - by destruct (_ =? _).
Qed.

Lemma push_fields e s : covered_seq (push_pending e s) = covered_seq s /\ resync_debt (push_pending e s) = resync_debt s.
Proof. unfold push_pending. by destruct (stream_scope e). Qed.

Lemma schedule_fields t t' n s :
  covered_seq (schedule_resync t' n s) = covered_seq s /\ pending (schedule_resync t' n s) = pending s
  /\ resync_debt (schedule_resync t' n s) !! t
     = if t' =? t then Some (Z.max (get (resync_debt s) t) n) else resync_debt s !! t.
Proof.
  unfold schedule_resync. cbn. destruct (Z.eqb_spec t' t) as [->|]; case_bool_decide; cbn; split_and!; try done;
    by rewrite ?lookup_insert_eq, ?lookup_insert_ne by done.
Qed.

(** ** The invariant of one terminal *)

Definition stream_of (c : Conn) : list Event := map snd (delivered c).

(** Between what was routed ([r]), what the client has or is about to get ([p]), the floor
    and the debt of a terminal. *)
Record caught_up (t : Z) (s : ForwardState) (r o p : Z) : Prop := {
  floor_reached : get (covered_seq s) t <= p;
  floor_known : p <= Z.max o (get (covered_seq s) t);
  nothing_owed : resync_debt s !! t = None -> r <= p;
  debt_known : forall d, resync_debt s !! t = Some d -> r <= Z.max p d /\ d <= o;
}.

Definition reached (t : Z) (c : Conn) : Z := position t (stream_of c ++ pending (forward c)).

Definition fed (t : Z) (c : Conn) : Prop :=
  well_sent t (routed c) ->
  untorn t (stream_of c)
  /\ (phase c <> Ended -> caught_up t (forward c) (position t (routed c)) (last_output t (routed c)) (reached t c)).

Lemma position_app_unconcerned t l1 l2 : Forall (fun e => concerns t e = false) l2 -> position t (l1 ++ l2) = position t l1.
Proof. intros H. unfold position, position_from. rewrite fold_left_app. by apply unconcerned_position. Qed.

(** A scheduled terminal owes the number that was dropped. *)
Lemma schedule_caught_up t s r o p n :
  0 <= p -> 0 <= o <= r -> o < n -> caught_up t s r o p -> caught_up t (schedule_resync t n s) (Z.max r n) (Z.max o n) p.
Proof.
  intros Hp Hor Hn [H1 H2 H3 H4]. destruct (schedule_fields t t n s) as (Hc & _ & Hd). rewrite Z.eqb_refl in Hd. split; rewrite ?Hc, ?Hd.
  - done.
  - lia.
  - done.
  - intros d [= <-]. unfold get in *. destruct (resync_debt s !! t) as [d0|] eqn:E; cbn.
    + specialize (H4 d0 eq_refl). lia.
    + specialize (H3 eq_refl). lia.
Qed.

(** An output of the terminal: it is known already, or dropped and owed, or handed on, and
    then it continues what was heard. *)
Lemma output_caught_up t s r o p answer e f n s' sent go :
  exact s -> output_of t e = Some (f, n) -> 0 <= o <= r -> 0 <= p -> o < n -> f <= r + 1 -> caught_up t s r o p ->
  route answer e s = (s', sent, go) -> go = true ->
  (sent = None /\ pending s' = pending s /\ caught_up t s' (Z.max r n) (Z.max o n) p)
  \/ (sent = Some e /\ s' = s /\ Forall (fun x => concerns t x = false) (pending s) /\ p < n /\ f <= p + 1
      /\ caught_up t s (Z.max r n) (Z.max o n) (Z.max p n)).
Proof.
  intros Hex He Hor Hp Ho Hf Hc Hr ->. assert (route answer e s = route_output answer e t n s) as Heq.
  { destruct e; cbn in He; try done; destruct (Z.eqb_spec terminal_id t) as [->|]; try done; by injection He as -> ->. }
  rewrite Heq in Hr. unfold route_output in Hr. destruct (schedule_fields t t n s) as (_ & Hpend & _).
  pose proof (schedule_caught_up t s r o p n Hp Hor Ho Hc) as Hsched. pose proof Hc as [H1 H2 H3 H4].
  assert (is_superseded t n s = (n <=? get (covered_seq s) t)) as Hsup.
  { unfold is_superseded, get. destruct (covered_seq s !! t); cbn; [done|]. symmetry. apply Z.leb_gt. lia. }
  rewrite Hsup in Hr. destruct (Z.leb_spec n (get (covered_seq s) t)).
  { injection Hr as <- <-. left. split_and!; try done. split; [lia|lia|intros Hd; specialize (H3 Hd); lia|].
    intros d Hd. specialize (H4 d Hd). lia. }
  destruct (pending_blocks_output t s) eqn:Eb; [injection Hr as <- <-; by left|].
  destruct (bool_decide (t ∈ resync_set s)); [injection Hr as <- <-; by left|]. cbn [orb] in Hr.
  case_bool_decide as Hd; [injection Hr as <- <-; by left|].
  destruct answer; simplify_eq/=; [right|by left]. apply gate_spec in Eb; [|done].
  assert (resync_debt s' !! t = None) as Hnone by (destruct (resync_debt s' !! t); [by destruct Hd|done]). specialize (H3 Hnone).
  split_and!; try done; [lia|lia|]. split; [lia|lia|lia|]. intros d Hd'. by rewrite Hnone in Hd'.
Qed.

(** Any other event moves the three alike. *)
Lemma structured_caught_up t s r o p e :
  is_output e = false -> 0 <= p -> (forall n, n ∈ replays_of t e -> o <= n) -> caught_up t s r o p ->
  caught_up t (note_event e s) (heard t r e) (heard_output t o e) (heard t p e).
Proof.
  intros He Hp Hn [H1 H2 H3 H4]. destruct (note_spec t e s He) as [Hc Hd]. rewrite !heard_structured by done.
  unfold heard_output. rewrite (structured_facts t e He). destruct (exits t e).
  { split; rewrite ?Hc, ?Hd; try done; lia. }
  pose proof (fold_max_in (replays_of t e)) as Hin. pose proof (fold_max_le (replays_of t e)) as Hle.
  assert (forall a b, a <= b -> fold_left Z.max (replays_of t e) a <= fold_left Z.max (replays_of t e) b) as Hmono.
  { intros a b Hab. apply fold_max_bound; [specialize (Hle b); lia|]. intros n ?. by apply Hin. }
  split; rewrite ?Hc, ?Hd.
  - by apply Hmono.
  - apply fold_max_bound; [specialize (Hle (get (covered_seq s) t)); lia|]. intros n Hx. specialize (Hin (get (covered_seq s) t) n Hx). lia.
  - destruct (replays_of t e) as [|n l] eqn:El; [by apply H3|]. intros _. destruct (resync_debt s !! t) as [d|] eqn:Ed.
    + destruct (H4 d eq_refl) as [Hr Hdo]. specialize (Hn n ltac:(left)). pose proof (Hin p n ltac:(left)).
      apply fold_max_bound; [specialize (Hle p); lia|]. intros x Hx. by apply Hin.
    + by apply Hmono, H3.
  - destruct (replays_of t e) as [|n l]; [exact H4|done].
Qed.

Lemma caught_up_same t s s' r o p :
  covered_seq s' = covered_seq s -> resync_debt s' !! t = resync_debt s !! t -> caught_up t s r o p -> caught_up t s' r o p.
Proof. intros Hc Hd [H1 H2 H3 H4]. split; rewrite ?Hc, ?Hd; done. Qed.

(** An output of another terminal does not matter. *)
Lemma foreign_output t s answer e s' sent go :
  is_output e = true -> output_of t e = None -> route answer e s = (s', sent, go) ->
  concerns t e = false /\ covered_seq s' = covered_seq s /\ resync_debt s' !! t = resync_debt s !! t /\ pending s' = pending s
  /\ (sent = None \/ sent = Some e).
Proof.
  intros He Ho Hr. assert (concerns t e = false) as Hc by (unfold concerns; rewrite Ho; by destruct e). split; [done|].
  assert (forall t' n, t' <> t -> route_output answer e t' n s = (s', sent, go) -> covered_seq s' = covered_seq s
    /\ resync_debt s' !! t = resync_debt s !! t /\ pending s' = pending s /\ (sent = None \/ sent = Some e)) as Hout.
  { intros t' n Hne Hx. destruct (schedule_fields t t' n s) as (H1 & H2 & H3). rewrite (proj2 (Z.eqb_neq _ _) Hne) in H3.
    unfold route_output in Hx. repeat case_match; simplify_eq; auto 6. }
  destruct e; cbn in Ho; try done; destruct (Z.eqb_spec terminal_id t); try done; by eapply Hout.
Qed.

Lemma heard_foreign t e pos : is_output e = true -> output_of t e = None -> heard t pos e = pos /\ heard_output t pos e = pos.
Proof. intros He Ho. unfold heard, heard_output. rewrite Ho. by destruct e. Qed.

Lemma last_output_nonneg t es : 0 <= last_output t es.
Proof.
  induction es as [|e es IH] using rev_ind; [done|]. rewrite last_output_snoc. unfold heard_output.
  destruct (exits t e); [done|]. destruct (output_of t e) as [[f n]|]; lia.
Qed.

Lemma stream_put own e c : stream_of (put own e c) = stream_of c ++ match e with Some e => [e] | None => [] end.
Proof. destruct e; cbn; [|by rewrite app_nil_r]. unfold stream_of. cbn. by rewrite map_app. Qed.

(** What is delivered behind something that does not concern the terminal. *)
Lemma position_insert t l1 l2 e :
  Forall (fun x => concerns t x = false) l2 -> position t ((l1 ++ [e]) ++ l2) = heard t (position t (l1 ++ l2)) e.
Proof.
  intros H. by rewrite (position_app_unconcerned t (l1 ++ [e]) l2 H), (position_app_unconcerned t l1 l2 H), position_snoc.
Qed.

(** ** The steps *)

Lemma fed_same t c c' :
  fed t c -> stream_of c' = stream_of c -> pending (forward c') = pending (forward c) -> routed c' = routed c ->
  covered_seq (forward c') = covered_seq (forward c) -> resync_debt (forward c') = resync_debt (forward c) ->
  (phase c' <> Ended -> phase c <> Ended) -> fed t c'.
Proof.
  intros Hf Hs Hp Hr Hc Hd Hph Hw. rewrite Hr in Hw. destruct (Hf Hw) as [Hu Hk]. rewrite Hs, Hr. split; [done|].
  intros Hne. unfold reached. rewrite Hs, Hp. apply (caught_up_same t (forward c)); [done|by rewrite Hd|]. by apply Hk, Hph.
Qed.

Lemma fed_deliver t c :
  exact (forward c) -> phase c <> Ended -> fed t c -> fed t (deliver_one c).
Proof.
  intros He Hne Hf. pose proof (deliver_exact (now c) _ He) as Hd. unfold deliver_one.
  destruct (deliver_start (now c) (forward c)) as [e s|t' required s|].
  - destruct Hd as (_ & Hp & Hout & Hpop). destruct (pop_exact _ _ _ He Hpop) as (_ & _ & _ & _ & _ & Hdebt & Hcov & _).
    intros Hw. change (routed _) with (routed c) in *. destruct (Hf Hw) as [Hu Hk].
    change (stream_of (set_phase Top (put false (Some e) (set_forward s c)))) with (stream_of (put false (Some e) c)).
    rewrite stream_put. split; [apply untorn_snoc; [done|]; by rewrite structured_facts|]. intros _.
    apply (caught_up_same t (forward c)); [done|by cbn; rewrite Hdebt|]. specialize (Hk Hne). unfold reached in *.
    rewrite Hp in Hk. cbn [forward set_phase put set_delivered set_forward].
    change (stream_of (set_phase Top (set_delivered _ _))) with (stream_of (put false (Some e) c)).
    by rewrite stream_put, <- app_assoc.
  - destruct Hd as (Hp & _ & _ & _ & _ & Hp' & _ & Hdebt & Hcov & _). apply (fed_same t c); try done. cbn. congruence.
  - apply (fed_same t c); done.
Qed.

Lemma fed_answer t c since t' required answer :
  conn_ok c -> phase c = Recovering since t' required -> fed t c -> fed t (answered answer since t' required c).
Proof.
  intros Hok Hph Hf. pose proof (ok_exact _ Hok) as He. pose proof (ok_phase _ Hok) as Hk. unfold phase_ok in Hk. rewrite Hph in Hk.
  destruct Hk as (Hpend & Hnot & Hdebt & _). unfold answered. pose proof (finish_spec since t' required answer _ He Hnot) as Hs.
  destruct (deliver_finish since t' required answer (forward c)) as [s sent]. destruct Hs as (_ & Hps & _ & Hs). cbv zeta.
  set (c1 := set_replays _ _). intros Hw. destruct (put_fields true sent (set_forward s c1)) as (Hf1 & Hf2 & _).
  change (routed (set_phase Top ?x)) with (routed x) in *. change (forward (set_phase Top ?x)) with (forward x).
  change (stream_of (set_phase Top ?x)) with (stream_of x). unfold reached.
  change (forward (set_phase Top ?x)) with (forward x). change (stream_of (set_phase Top ?x)) with (stream_of x).
  rewrite Hf2 in *. change (routed (set_forward s c1)) with (routed c) in *. destruct (Hf Hw) as [Hu Hku].
  rewrite Hf1, stream_put. change (stream_of (set_forward s c1)) with (stream_of c). change (forward (set_forward s c1)) with s.
  assert (phase c <> Ended) as Hne by congruence. specialize (Hku Hne). unfold reached in Hku. rewrite Hps, Hpend, app_nil_r in *.
  assert (forall e, sent = Some e -> is_output e = false) as Hstr by (intros e ->; destruct Hs as [(?&_&_&[= ->]&_)|[[|[= ->]] _]]; done).
  split. { destruct sent as [e|]; [|by rewrite app_nil_r]. apply untorn_snoc; [done|]. by rewrite structured_facts by auto. }
  intros _. destruct Hs as [(sn & _ & Hle & -> & Hd & Hc & _)|(Hsent & Hd & Hc & _)].
  - rewrite position_snoc. unfold heard. cbn. destruct Hku as [H1 H2 H3 H4]. destruct (Z.eqb_spec t' t) as [->|Hne'].
    + destruct (H4 _ Hdebt) as [H5 H6]. cbn. split; rewrite ?Hc, ?Hd, ?lookup_delete_eq; try done;
        unfold get in *; rewrite ?lookup_insert_eq; cbn; lia.
    + cbn. split; rewrite ?Hc, ?Hd; unfold get in *; rewrite ?lookup_insert_ne, ?lookup_delete_ne by done; done.
  - apply (caught_up_same t (forward c)); [done|by rewrite Hd|].
    destruct Hsent as [-> | ->]; [by rewrite app_nil_r|]. by rewrite position_snoc.
Qed.

(** Receiving one event, seen from the list of everything handed on and buffered. *)
Lemma fed_route t s answer e s' sent sofar pre :
  exact s -> well_sent t (pre ++ [e]) -> untorn t sofar ->
  caught_up t s (position t pre) (last_output t pre) (position t (sofar ++ pending s)) ->
  route answer e s = (s', sent, true) ->
  let sofar' := sofar ++ match sent with Some y => [y] | None => [] end in
  untorn t sofar'
  /\ caught_up t s' (position t (pre ++ [e])) (last_output t (pre ++ [e])) (position t (sofar' ++ pending s')).
Proof.
  intros He Hw Hu Hk Hr sofar'. apply well_sent_snoc in Hw as (_ & Hout & Hrep). rewrite position_snoc, last_output_snoc.
  pose proof (position_nonneg t (sofar ++ pending s)) as Hp0. pose proof (last_output_nonneg t pre) as Ho0. pose proof (last_output_le t pre) as Hol.
  destruct (is_output e) eqn:Eo; [destruct (output_of t e) as [[f n]|] eqn:En|].
  - destruct (Hout f n eq_refl) as [Hn Hf]. destruct (heard_as_output t (position t pre) e f n En) as [-> _].
    destruct (heard_as_output t (last_output t pre) e f n En) as [_ ->].
    destruct (output_caught_up t s _ _ _ answer e f n s' sent true He En (conj Ho0 Hol) Hp0 Hn Hf Hk Hr eq_refl)
      as [(-> & Hpe & Hc)|(-> & -> & Hfree & Hlt & Hle & Hc)]; unfold sofar'.
    + rewrite app_nil_r, Hpe. done.
    + rewrite (position_app_unconcerned t sofar _ Hfree) in Hlt, Hle. split.
      * apply untorn_snoc; [done|]. rewrite En. by intros f' n' [= <- <-].
      * rewrite position_insert by done. by destruct (heard_as_output t (position t (sofar ++ pending s)) e f n En) as [-> _].
  - destruct (foreign_output t s answer e s' sent true Eo En Hr) as (Hcon & Hc & Hd & Hpe & Hs).
    destruct (heard_foreign t e (position t pre) Eo En) as [-> _]. destruct (heard_foreign t e (last_output t pre) Eo En) as [_ ->].
    rewrite Hpe. split. { unfold sofar'. destruct Hs as [-> | ->]; [by rewrite app_nil_r|]. apply untorn_snoc; [done|]. by rewrite En. }
    apply (caught_up_same t s); [done|done|]. unfold sofar'. destruct Hs as [-> | ->]; [by rewrite app_nil_r|].
    rewrite <- app_assoc. unfold position, position_from in *. rewrite !fold_left_app in *. cbn [fold_left].
    by rewrite unconcerned_heard.
  - pose proof (structured_caught_up t s _ _ _ e Eo Hp0 Hrep Hk) as Hc. rewrite <- (position_snoc t (sofar ++ pending s)) in Hc.
    pose proof (note_pending e s) as Hnp. assert (route answer e s = route_other answer e s) as Heq by (destruct e; first [discriminate Eo|reflexivity]).
    rewrite Heq in Hr. unfold route_other in Hr. rewrite Hnp in Hr. destruct (push_fields e (note_event e s)) as [Hpc Hpd].
    assert (pending (push_pending e (note_event e s)) = pending s ++ [e]) as Hpush
      by (unfold push_pending; rewrite <- Hnp; by destruct (stream_scope e)).
    assert (caught_up t (push_pending e (note_event e s)) (heard t (position t pre) e) (heard_output t (last_output t pre) e)
              (position t (sofar ++ pending (push_pending e (note_event e s))))) as Hc'.
    { rewrite Hpush, app_assoc. apply (caught_up_same t (note_event e s)); [done|by rewrite Hpd|done]. }
    unfold sofar'. destruct (pending s) as [|y l] eqn:Ep; cbn [is_nil] in Hr.
    + rewrite app_nil_r in Hc. destruct answer; simplify_eq/=; rewrite ?app_nil_r.
      * rewrite Hnp, app_nil_r. split; [|done]. apply untorn_snoc; [done|]. by rewrite structured_facts.
      * done.
    + destruct (_ <=? _); simplify_eq/=. by rewrite app_nil_r.
Qed.

Lemma fed_receive t c e rest : exact (forward c) -> phase c <> Ended -> fed t c -> fed t (receive e rest c).
Proof.
  intros He Hne Hf. unfold receive. cbv zeta. cbn [forward set_routed set_ingress]. set (c1 := set_routed _ _).
  pose proof (fed_route t (forward c) (try_send c1) e) as Hr. destruct (route (try_send c1) e (forward c)) as [[s sent] go] eqn:Er.
  destruct (put_fields false sent (set_forward s c1)) as (Hf1 & Hf2 & _). pose proof (stream_put false sent (set_forward s c1)) as Hs.
  change (stream_of (set_forward s c1)) with (stream_of c) in Hs.
  change (routed (set_forward s c1)) with (routed c ++ [e]) in Hf2. set (x := put false sent (set_forward s c1)) in *.
  assert (well_sent t (routed c ++ [e]) -> go = false -> untorn t (stream_of x)) as Hstop.
  { intros Hw ->. rewrite Hs. assert (sent = None) as ->.
    { destruct (is_output e) eqn:Eo.
      - revert Er. destruct e; try discriminate Eo; unfold route, route_output; repeat case_match; congruence.
      - pose proof (route_other_flow (try_send c1) e _ He Eo) as Ho. rewrite Er in Ho. naive_solver. }
    rewrite app_nil_r. apply well_sent_snoc in Hw as [Hw _]. exact (proj1 (Hf Hw)). }
  destruct go; intros Hw.
  - change (routed (set_phase Top x)) with (routed x) in *. rewrite Hf2 in *. destruct (well_sent_snoc _ _ _ Hw) as (Hw' & _).
    destruct (Hf Hw') as [Hu Hk]. destruct (Hr s sent (stream_of c) (routed c) He Hw Hu (Hk Hne) eq_refl) as [Hu' Hk'].
    change (stream_of (set_phase Top x)) with (stream_of x). unfold reached. change (stream_of (set_phase Top x)) with (stream_of x).
    change (forward (set_phase Top x)) with (forward x). rewrite Hs, Hf1. done.
  - change (routed (stop x)) with (routed x) in *. rewrite Hf2 in Hw. split; [by apply Hstop|done].
Qed.

Lemma fed_step t c c' : conn_ok c -> fed t c -> stepped c c' -> fed t c'.
Proof.
  intros Hok Hf Hs. pose proof (ok_exact _ Hok) as He.
  destruct Hs as [c' Hsame|Hph|Hph|i d dl Hph|i d dl Hph|i dl Hph|i d dl e b rest Hph|since t' required answer Hph].
  - destruct Hsame as [Hfw Hph _ Hd Hr _ _ _]. apply (fed_same t c); rewrite ?Hfw, ?Hph; try done. unfold stream_of. by rewrite Hd.
  - by apply (fed_same t c).
  - unfold arm. destruct (is_idle _); [destruct (input_open c)|]; apply (fed_same t c); try done; congruence.
  - apply (fed_same t c); try done; congruence.
  - apply (fed_same t c); try done; congruence.
  - apply fed_deliver; [done|congruence|done].
  - apply fed_receive; [done|congruence|done].
  - by apply fed_answer.
Qed.

(** C7: If the serve loop sends the outputs of a terminal in rising order without a
    skip, and only replays that hold every output it sent before them, then, however the
    forwarder drops and delays output, every output the client is handed brings
    something new and skips nothing of what it heard; and until the connection ends,
    whenever the terminal is owed nothing, what was delivered and what is buffered for
    it reach as far as what was sent.  (A replay older than that is outside of the
    claim.) *)
Theorem a_terminal_is_fed_without_gap_or_repeat ls c t :
  run event_forward_channel ls = Some c -> well_sent t (routed c) ->
  untorn t (map snd (delivered c))
  /\ (phase c <> Ended -> resync_debt (forward c) !! t = None ->
        position t (routed c) <= position t (map snd (delivered c) ++ pending (forward c))).
Proof.
  intros Hr Hw. assert (conn_ok c /\ fed t c) as [_ Hf].
  { apply (conn_invariant (fun c => conn_ok c /\ fed t c)) with (ls := ls); [..|done].
    - split; [apply conn_ok_start|]. intros _. split; [by intros [] ?|]. intros _. by split.
    - intros c1 c2 [Hok Hf] Hs. split; [by eapply conn_ok_step|by eapply fed_step]. }
  destruct (Hf Hw) as [Hu Hk]. split; [done|]. intros Hne. apply (nothing_owed _ _ _ _ _ (Hk Hne)).
Qed.
