(* ===== verification/EventForwardDrain.v ===== *)
(** * A closed stream drains

    Once the serve loop has closed its end, a client that reads, a clock that moves and a
    backend that answers (with or without a replay) bring the forwarder to its end in a
    bounded number of steps, with everything delivered.  At the end concrete
    connections: a terminal that is spawned, prints and exits, a backlog, a recovery that is
    cut short. *)

From Stdlib Require Import Ascii.
From S2P Require Import Prelude ReplayRing EventForward EventForwardProps EventForwardConn EventForwardFlow EventForwardStream.

#[local] Open Scope Z_scope.

#[local] Notation len l := (Z.of_nat (length l)).

(** The next thing to happen where the client reads whatever is there, the backend answers
    [answers] and the clock moves when nothing else can. *)
Definition next_label (answers : Z -> option ReplaySnapshot) (c : Conn) : option Label :=
  if (taken c <? length (delivered c))%nat then Some LRead
  else match phase c with
       | Top => Some LArm
       | Recovering _ t _ => Some (LAnswer (answers t))
       | Selecting _ d dl =>
           match select d dl c with
           | Some _ => Some LSelect
           | None => match dl with Some x => Some (LWait (Z.max 0 (x - now c))) | None => None end
           end
       | Ended => None
       end.

Fixpoint drive (answers : Z -> option ReplaySnapshot) (fuel : nat) (c : Conn) : Conn :=
  match fuel with
  | O => c
  | S fuel => match next_label answers c with
              | None => c
              | Some l => match step c l with Some c' => drive answers fuel c' | None => c end
              end
  end.

(** What is left to do. *)
Definition backlog (c : Conn) : Z :=
  4 * len (queued (ingress c)) + 3 * len (resync_queue (forward c)) + 2 * len (pending (forward c))
  + (len (delivered c) - Z.of_nat (taken c)) + (match phase c with Recovering _ _ _ => 2 | _ => 0 end)
  + (if input_open c then 1 else 0).

Definition rank (c : Conn) : Z :=
  match phase c with
  | Top => if is_idle (forward c) || has_deliverable (now c) (forward c) then 1 else 4
  | Selecting _ _ (Some d) => if d <=? now c then 2 else 3
  | _ => 0
  end.

Definition left_to_do (c : Conn) : Z := 5 * backlog c + rank c.

Definition fuel_for (c : Conn) : nat := Z.to_nat (left_to_do c + 1).

(** Where the serve loop is gone, and nothing else went wrong. *)
Record draining (r : list Event) (c : Conn) : Prop := {
  drain_ok : conn_ok c;
  drain_flows : flows c;
  drain_senders : senders c = false;
  drain_client : client_open c = true;
  drain_health : overloaded (ingress c) = false;
  drain_all : phase c <> Ended -> routed c ++ map fst (queued (ingress c)) = r;
  drain_eof : phase c <> Ended -> input_open c = false -> queued (ingress c) = [];
  drain_done : phase c = Ended -> routed c = r /\ is_idle (forward c) = true;
}.

Lemma put_more own e c :
  ingress (put own e c) = ingress c /\ senders (put own e c) = senders c /\ client_open (put own e c) = client_open c
  /\ input_open (put own e c) = input_open c /\ taken (put own e c) = taken c /\ now (put own e c) = now c
  /\ len (delivered (put own e c)) <= len (delivered c) + 1
  /\ (e = None -> delivered (put own e c) = delivered c).
Proof. destruct e; cbn; rewrite ?length_app; cbn [length]; split_and!; try done; lia. Qed.

(** Routing never makes more work than it takes away. *)
Lemma schedule_queue t n s : len (resync_queue (schedule_resync t n s)) <= len (resync_queue s) + 1 /\ pending (schedule_resync t n s) = pending s.
Proof. unfold schedule_resync. case_bool_decide; cbn; rewrite ?length_app; cbn [length]; split; try done; lia. Qed.

Lemma filter_shorter {A} (p : A -> bool) l : (length (List.filter p l) <= length l)%nat.
Proof. induction l as [|x l IH]; cbn; [done|]. destruct (p x); cbn; lia. Qed.

Lemma drop_queue t s : len (resync_queue (drop_resync t s)) <= len (resync_queue s).
Proof.
  unfold drop_resync. case_bool_decide; cbn; [|lia].
  pose proof (filter_shorter (fun x => negb (x =? t)) (resync_queue s)). lia.
Qed.

Lemma cover_all_queue ts s : len (resync_queue (cover_all ts s)) <= len (resync_queue s).
Proof.
  revert s. induction ts as [|x ts IH]; intros s; [done|].
  change (cover_all (x :: ts) s) with (cover_all ts (if replay_available x then drop_resync (snapshot_id x) (mark_covered (snapshot_id x) (snapshot_seq x) s) else s)).
  etrans; [apply IH|]. destruct (replay_available x); [apply (drop_queue _ (mark_covered _ _ s))|done].
Qed.

Lemma note_queue e s : len (resync_queue (note_event e s)) <= len (resync_queue s).
Proof.
  destruct e; try done.
  - apply cover_all_queue.
  - apply (drop_queue _ (mark_covered _ _ s)).
  - apply (drop_queue terminal_id s).
  - apply (drop_queue _ (mark_covered _ _ s)).
Qed.

Lemma route_cost answer e s :
  let '(s', sent, go) := route answer e s in
  3 * len (resync_queue s') + 2 * len (pending s') + (match sent with Some _ => 1 | None => 0 end)
  <= 3 * len (resync_queue s) + 2 * len (pending s) + 3.
Proof.
  assert (forall t n, let '(s', sent, go) := route_output answer e t n s in
    3 * len (resync_queue s') + 2 * len (pending s') + (match sent with Some _ => 1 | None => 0 end)
    <= 3 * len (resync_queue s) + 2 * len (pending s) + 3) as Ho.
  { intros t n. destruct (schedule_queue t n s) as [H1 H2]. unfold route_output. repeat case_match; simplify_eq; rewrite ?H2; lia. }
  assert (let '(s', sent, go) := route_other answer e s in
    3 * len (resync_queue s') + 2 * len (pending s') + (match sent with Some _ => 1 | None => 0 end)
    <= 3 * len (resync_queue s) + 2 * len (pending s) + 3) as Hs.
  { pose proof (note_queue e s) as H1. pose proof (note_pending e s) as H2. unfold route_other.
    assert (resync_queue (push_pending e (note_event e s)) = resync_queue (note_event e s)
            /\ pending (push_pending e (note_event e s)) = pending s ++ [e]) as [H3 H4]
      by (rewrite <- H2; unfold push_pending; by destruct (stream_scope e)).
    repeat case_match; simplify_eq; rewrite ?H3, ?H4, ?H2, ?length_app in *; cbn [length] in *; lia. }
  destruct e; auto; apply Ho.
Qed.

Lemma rank_bounds c : 0 <= rank c <= 4.
Proof. unfold rank. repeat case_match; lia. Qed.

Ltac rank_lia :=
  repeat match goal with
  | |- context [rank ?x] => let k := fresh "k" in pose proof (rank_bounds x); set (k := rank x) in *
  end; lia.

(** The facts a step of the drain starts from. *)
Lemma all_read c : conn_ok c -> (taken c <? length (delivered c))%nat = false -> len (delivered c) = Z.of_nat (taken c) /\ has_room c = true.
Proof.
  intros Hok Hr. apply Nat.ltb_ge in Hr. pose proof (ok_taken _ Hok). split; [lia|]. unfold has_room. apply Z.ltb_lt. unfold EVENT_CAPACITY, DRAIN_QUANTUM. lia.
Qed.

Lemma draining_read r c :
  draining r c -> (taken c <? length (delivered c))%nat = true ->
  draining r (set_taken (S (taken c)) c) /\ left_to_do (set_taken (S (taken c)) c) < left_to_do c.
Proof.
  intros [Hok Hf Hs Hc Hh Ha He Hd] Hr. assert (stepped c (set_taken (S (taken c)) c)) as Hst.
  { apply (step_stepped c LRead). cbn [step]. by rewrite Hc, Hr. }
  split; [split; [by eapply conn_ok_step|by eapply flows_step|..]; done|].
  apply Nat.ltb_lt in Hr. unfold left_to_do, backlog, rank. cbn. lia.
Qed.

Lemma draining_arm r c :
  draining r c -> phase c = Top -> draining r (arm c) /\ left_to_do (arm c) < left_to_do c.
Proof.
  intros [Hok Hf Hs Hc Hh Ha He Hd] Hp. assert (stepped c (arm c)) as Hst by (apply (step_stepped c LArm); cbn; by rewrite Hp).
  assert (phase c <> Ended) as Hne by congruence. split.
  - split; [by eapply conn_ok_step|by eapply flows_step|..]; unfold arm; destruct (is_idle (forward c)) eqn:Ei; try destruct (input_open c) eqn:Eo; cbn;
      try done; try (by intros; apply Ha); try (by intros; congruence); try (by intros; apply He).
    intros _. split; [|done]. specialize (Ha Hne). by rewrite (He Hne eq_refl), app_nil_r in Ha.
  - unfold left_to_do, backlog, rank, arm. rewrite Hp. destruct (is_idle (forward c)) eqn:Ei; cbn [orb].
    { destruct (input_open c) eqn:Eo; cbn; rewrite Eo; lia. }
    destruct (has_deliverable (now c) (forward c)) eqn:Ed; cbn; [lia|].
    destruct (a_debt_always_wakes _ _ Ei Ed) as (_ & x & -> & Hx). rewrite (proj2 (Z.leb_gt _ _) Hx). lia.
Qed.

Lemma draining_answer r c since t required answer :
  draining r c -> phase c = Recovering since t required ->
  draining r (answered answer since t required c) /\ left_to_do (answered answer since t required c) < left_to_do c.
Proof.
  intros [Hok Hf Hs Hc Hh Ha He Hd] Hp. assert (stepped c (answered answer since t required c)) as Hst by (by apply stepped_answer).
  pose proof (conn_ok_step _ _ Hok Hst) as Hok'. pose proof (flows_step _ _ Hok Hf Hst) as Hf'.
  pose proof (ok_phase _ Hok) as Hph. unfold phase_ok in Hph. rewrite Hp in Hph. destruct Hph as (Hpend & Hnot & _).
  pose proof (finish_spec since t required answer _ (ok_exact _ Hok) Hnot) as Hfin.
  assert (phase c <> Ended) as Hne by congruence. specialize (Ha Hne). specialize (He Hne).
  unfold answered in *. destruct (deliver_finish since t required answer (forward c)) as [s sent]. destruct Hfin as (_ & Hps & Hq & _).
  cbv zeta in *. set (c1 := set_forward s (set_replays _ c)) in *. set (x := put true sent c1) in *.
  destruct (put_more true sent c1) as (H1 & H2 & H3 & H4 & H5 & H6 & H7 & _). fold x in H1, H2, H3, H4, H5, H6, H7.
  destruct (put_fields true sent c1) as (F1 & F2 & _). fold x in F1, F2. split.
  - split; cbn; rewrite ?H1, ?H2, ?H3, ?H4, ?F2; try done.
  - pose proof (rank_bounds (set_phase Top x)). unfold left_to_do, backlog in *. rewrite Hp.
    cbn [phase set_phase ingress forward delivered taken input_open]. rewrite H1, H4, H5, F1. cbn [c1 set_forward set_replays forward ingress input_open taken] in *.
    change (delivered c1) with (delivered c) in H7. rewrite Hps, Hq. pose proof (rank_bounds c). lia.
Qed.

Lemma draining_deliver r c i dl :
  draining r c -> phase c = Selecting i true dl -> has_room c = true ->
  draining r (deliver_one c) /\ left_to_do (deliver_one c) < left_to_do c.
Proof.
  intros [Hok Hf Hs Hc Hh Ha He Hd] Hp Hroom. assert (stepped c (deliver_one c)) as Hst by (by apply (stepped_deliver c i dl)).
  pose proof (conn_ok_step _ _ Hok Hst) as Hok'. pose proof (flows_step _ _ Hok Hf Hst) as Hf'.
  assert (phase c <> Ended) as Hne by congruence. specialize (Ha Hne). specialize (He Hne).
  pose proof (deliver_exact (now c) _ (ok_exact _ Hok)) as Hde. pose proof (ok_phase _ Hok) as Hph. unfold phase_ok in Hph. rewrite Hp in Hph.
  destruct Hph as (_ & Hdel & _). specialize (Hdel eq_refl). pose proof (rank_bounds c) as Hrk.
  unfold deliver_one in *. destruct (deliver_start (now c) (forward c)) as [e s|t required s|] eqn:Es.
  - destruct Hde as (_ & Hpend & _ & Hpop). destruct (pop_exact _ _ _ (ok_exact _ Hok) Hpop) as (_ & _ & _ & Hq & _).
    split; [split; cbn; done|]. pose proof (rank_bounds (set_phase Top (put false (Some e) (set_forward s c)))) as Hrk'.
    unfold left_to_do, backlog. rewrite Hp. cbn -[rank]. rewrite Hq, Hpend, length_app. cbn [length]. rank_lia.
  - destruct Hde as (Hpend & _ & _ & _ & _ & Hpend' & Hperm & _). split; [split; cbn; done|].
    apply Permutation_length in Hperm. unfold left_to_do, backlog. rewrite Hp. cbn -[rank] in *. rewrite Hpend, Hpend', Hperm. cbn [length]. rank_lia.
  - exfalso. unfold deliver_start in Es. destruct (pop_pending (forward c)) as [[e s]|] eqn:Epop; [done|].
    unfold has_deliverable in Hdel. assert (pending (forward c) = []) as Hnil by (unfold pop_pending in Epop; by destruct (pending (forward c))).
    rewrite Hnil in Hdel. cbn in Hdel. apply existsb_exists in Hdel as (t & Ht & Hready).
    assert (forall (p : Z -> bool) l, In t l -> p t = true -> exists i x, ReplayRing.position p l = Some i /\ l !! i = Some x) as Hpos.
    { clear. intros p l. induction l as [|y l IH]; [done|]. cbn. intros Hin Hpt. destruct (p y) eqn:E; [by exists 0%nat, y|].
      destruct Hin as [->|Hin]; [congruence|]. destruct (IH Hin Hpt) as (i & x & Hi & Hx). rewrite Hi. by exists (S i), x. }
    destruct (Hpos (fun t => resync_ready (now c) t (forward c)) _ Ht Hready) as (j & x & Hj & Hx). by rewrite Hj, Hx in Es.
Qed.

(** Receiving, where nothing is buffered and there is room: the loop goes on. *)
Lemma route_goes_on e s : pending s = [] -> (route Sent e s).2 = true.
Proof.
  intros Hp. assert ((route_other Sent e s).2 = true) as Ho by (unfold route_other; by rewrite note_pending, Hp).
  destruct e; try exact Ho; unfold route, route_output; by repeat case_match.
Qed.

Lemma draining_receive r c i dl e b rest :
  draining r c -> phase c = Selecting i false dl -> queued (ingress c) = (e, b) :: rest -> input_open c = true -> has_room c = true ->
  draining r (receive e rest c) /\ left_to_do (receive e rest c) < left_to_do c.
Proof.
  intros [Hok Hf Hs Hc Hh Ha He Hd] Hp Hqu Hopen Hroom. assert (stepped c (receive e rest c)) as Hst by (by eapply (stepped_receive c i false dl)).
  pose proof (conn_ok_step _ _ Hok Hst) as Hok'. pose proof (flows_step _ _ Hok Hf Hst) as Hf'.
  assert (phase c <> Ended) as Hne by congruence. specialize (Ha Hne). pose proof (ok_phase _ Hok) as Hph. unfold phase_ok in Hph. rewrite Hp in Hph.
  assert (pending (forward c) = []) as Hnil.
  { destruct i; [|by apply Hph]. destruct Hph as ((Hi & _) & _); [done|]. unfold is_idle in Hi. by destruct (pending (forward c)). }
  unfold receive in *. cbv zeta in *. cbn [forward set_routed set_ingress] in *. set (c1 := set_routed _ _) in *.
  assert (try_send c1 = Sent) as Htry by (unfold try_send; change (client_open c1) with (client_open c); change (has_room c1) with (has_room c); by rewrite Hc, Hroom).
  rewrite Htry in *. pose proof (route_goes_on e _ Hnil) as Hgo. pose proof (route_cost Sent e (forward c)) as Hcost.
  destruct (route Sent e (forward c)) as [[s sent] go]. cbn [snd] in Hgo. subst go. set (x := put false sent (set_forward s c1)) in *.
  destruct (put_more false sent (set_forward s c1)) as (H1 & H2 & H3 & H4 & H5 & H6 & H7 & H8). fold x in H1, H2, H3, H4, H5, H6, H7, H8.
  destruct (put_fields false sent (set_forward s c1)) as (F1 & F2 & _). fold x in F1, F2. split.
  - split; cbn; rewrite ?H1, ?H2, ?H3, ?H4, ?F2; try done; cbn; [|by rewrite Hopen]. intros _. rewrite Hqu in Ha. cbn in Ha. by rewrite <- app_assoc.
  - pose proof (rank_bounds (set_phase Top x)) as Hrk'. pose proof (rank_bounds c) as Hrk. unfold left_to_do, backlog in *. rewrite Hp.
    cbn [phase set_phase ingress forward delivered taken input_open]. rewrite H1, H4, H5, F1. rewrite Hnil in *.
    change (delivered (set_forward s c1)) with (delivered c) in *. cbn -[rank] in *. rewrite Hqu. cbn [length].
    destruct sent; [|rewrite (H8 eq_refl)]; rank_lia.
Qed.

(** One step of the drain. *)
Lemma draining_select r c i d dl :
  draining r c -> phase c = Selecting i d dl -> (taken c <? length (delivered c))%nat = false ->
  exists l c', next_label (fun _ => None) c = Some l /\ (forall answers, next_label answers c = Some l) /\ step c l = Some c'
    /\ draining r c' /\ left_to_do c' < left_to_do c.
Proof.
  intros Hdr Hp Hread. pose proof Hdr as [Hok Hf Hs Hc Hh Ha He Hd]. destruct (all_read _ Hok Hread) as [_ Hroom].
  assert (phase c <> Ended) as Hne by congruence. specialize (Ha Hne). specialize (He Hne).
  pose proof (ok_phase _ Hok) as Hph. unfold phase_ok in Hph. rewrite Hp in Hph. destruct Hph as (Hidle & _ & Hbusy).
  assert (forall c', select d dl c = Some c' -> draining r c' /\ left_to_do c' < left_to_do c ->
    exists l c', next_label (fun _ => None) c = Some l /\ (forall answers, next_label answers c = Some l) /\ step c l = Some c'
      /\ draining r c' /\ left_to_do c' < left_to_do c) as Hgo.
  { intros c' Hsel Hc'. exists LSelect, c'. unfold next_label. rewrite Hread, Hp, Hsel. cbn. by rewrite Hp. }
  unfold select in Hgo. rewrite Hh, Hc, andb_false_r, Hroom, andb_true_r in Hgo.
  destruct d; [apply (Hgo _ eq_refl); by eapply draining_deliver|].
  destruct (input_open c) eqn:Eo.
  { destruct (queued (ingress c)) as [|[e b] rest] eqn:Eq.
    - rewrite Hs in Hgo. apply (Hgo _ eq_refl). assert (stepped c (set_phase Top (set_input_open false c))) as Hst by (by eapply stepped_eof).
      split; [split; cbn; try done; [by eapply conn_ok_step|by eapply flows_step|by rewrite Eq]|].
      unfold left_to_do, backlog. rewrite Hp, Eo. cbn -[rank]. rank_lia.
    - apply (Hgo _ eq_refl). by eapply draining_receive. }
  assert (i = false) as -> by (destruct i; [|done]; destruct (Hidle eq_refl) as (_ & ? & _); congruence).
  destruct (Hbusy eq_refl) as [Hni Hpace]. destruct (Hpace eq_refl) as (Hpend & [x ->] & Hdl).
  assert ((if is_some_and (fun d => d <=? now c) (Some x) then Some (set_phase Top c) else None) = select false (Some x) c) as Hsel.
  { unfold select. rewrite Hh, Eo. by destruct (queued (ingress c)) as [|[]]. }
  assert (queued (ingress c) = []) as Eq by auto. rewrite Eq in Hgo, Ha.
  cbn [is_some_and] in *. destruct (Z.leb_spec x (now c)) as [Hle|Hgt].
  - apply (Hgo _ eq_refl). assert (stepped c (set_phase Top c)) as Hst by (by eapply stepped_again).
    split; [split; cbn; rewrite ?Eq; try done; [by eapply conn_ok_step|by eapply flows_step]|].
    unfold left_to_do, backlog, rank. rewrite Hp. cbn. rewrite (proj2 (Z.leb_le _ _) Hle).
    assert (has_deliverable (now c) (forward c) = true) as ->; [|rewrite orb_true_r; lia].
    symmetry in Hdl. apply deadline_spec in Hdl as (t & Ht & Hpt). unfold has_deliverable. apply orb_true_iff. right.
    apply existsb_exists. exists t. split; [by apply list_elem_of_In|]. unfold resync_ready. rewrite Hpt. cbn. lia.
  - exists (LWait (Z.max 0 (x - now c))), (set_now (now c + Z.max 0 (x - now c)) c). unfold next_label. rewrite Hread, Hp, <- Hsel.
    split; [done|]. split; [done|]. cbn [step]. rewrite (proj2 (Z.leb_le _ _)) by lia. split; [done|].
    assert (stepped c (set_now (now c + Z.max 0 (x - now c)) c)) as Hst by (apply stepped_env; split; cbn; try done; lia).
    split; [split; cbn; try done; rewrite ?Eq; first [by eapply conn_ok_step|by eapply flows_step|by auto]|].
    unfold left_to_do, backlog, rank. cbn. rewrite Hp. rewrite (proj2 (Z.leb_gt _ _) Hgt), (proj2 (Z.leb_le _ _)) by lia. lia.
Qed.

Lemma draining_step r c answers :
  draining r c -> phase c <> Ended \/ (taken c < length (delivered c))%nat ->
  exists l c', next_label answers c = Some l /\ step c l = Some c' /\ draining r c' /\ left_to_do c' < left_to_do c.
Proof.
  intros Hd Hne. destruct (taken c <? length (delivered c))%nat eqn:Er.
  { exists LRead, (set_taken (S (taken c)) c). unfold next_label. cbn [step]. rewrite Er, (drain_client _ _ Hd).
    split; [done|]. split; [done|]. by apply draining_read. }
  apply Nat.ltb_ge in Er as Er'. destruct Hne as [Hne|?]; [|lia]. destruct (phase c) as [|i d dl|since t required|] eqn:Ep; [..|done].
  - exists LArm, (arm c). unfold next_label. cbn [step]. rewrite Er, Ep. split; [done|]. split; [done|]. by apply draining_arm.
  - destruct (draining_select r c i d dl Hd Ep Er) as (l & c' & _ & Hl & Hst & Hc' & Hlt). by exists l, c'.
  - exists (LAnswer (answers t)), (answered (answers t) since t required c). unfold next_label. cbn [step]. rewrite Er, Ep.
    split; [done|]. split; [done|]. by apply draining_answer.
Qed.

Lemma left_nonneg r c : draining r c -> 0 <= left_to_do c.
Proof.
  intros Hd. pose proof (ok_taken _ (drain_ok _ _ Hd)). unfold left_to_do, backlog. pose proof (rank_bounds c).
  destruct (phase c), (input_open c); lia.
Qed.

Lemma drive_ends r answers n c :
  draining r c -> left_to_do c < Z.of_nat n ->
  let c' := drive answers n c in draining r c' /\ phase c' = Ended /\ taken c' = length (delivered c').
Proof.
  revert c. induction n as [|n IH]; intros c Hd Hn; [pose proof (left_nonneg _ _ Hd); lia|]. cbn [drive].
  destruct (Nat.ltb_spec (taken c) (length (delivered c))) as [Hun|Hread].
  { destruct (draining_step r c answers Hd (or_intror Hun)) as (l & c' & -> & -> & Hd' & Hlt). apply IH; [done|lia]. }
  assert (phase c = Ended \/ phase c <> Ended) as [He|Hne] by (destruct (phase c); [by right..|by left]).
  { unfold next_label. rewrite (proj2 (Nat.ltb_ge _ _)) by lia. rewrite He. pose proof (ok_taken _ (drain_ok _ _ Hd)).
    split; [done|]. split; [done|lia]. }
  destruct (draining_step r c answers Hd (or_introl Hne)) as (l & c' & -> & -> & Hd' & Hlt). apply IH; [done|lia].
Qed.

(** An input that was seen closed is empty and stays so. *)
Definition closed_ok (c : Conn) : Prop :=
  input_open c = false -> senders c = false /\ (phase c <> Ended -> queued (ingress c) = []).

Lemma closed_step c c' : closed_ok c -> stepped c c' -> closed_ok c'.
Proof.
  intros Hc Hs. destruct Hs as [c' Hsame|Hph Hph'|Hph Hop|i d dl Hph|i d dl Hph Hq Hse|i dl Hph Hcl Hro|i d dl e b rest Hph Hq Hop Hro|since t required answer Hph].
  - intros Hi. rewrite (same_input _ _ Hsame) in Hi. destruct (Hc Hi) as [Hse Hq]. destruct (same_closed _ _ Hsame Hse) as [H1 H2].
    split; [done|]. by rewrite (same_phase _ _ Hsame), H2.
  - intros Hi. split; [by apply Hc|done].
  - unfold arm. destruct (is_idle _); [destruct (input_open c) eqn:Eo|]; intros Hi; cbn in *.
    + congruence.
    + split; [by apply Hc|done].
    + destruct (Hc Hi) as [H1 H2]. split; [done|]. intros _. apply H2. congruence.
  - intros Hi. destruct (Hc Hi) as [H1 H2]. split; [done|]. intros _. apply H2. congruence.
  - intros _. by split.
  - intros Hi. unfold deliver_one in *. destruct (deliver_start _ _); cbn in *; destruct (Hc Hi) as [H1 H2]; (split; [done|]; intros _; apply H2; congruence).
  - unfold receive. cbv zeta. destruct (route _ _ _) as [[s sent] go]. set (c1 := set_forward s _).
    destruct (put_more false sent c1) as (_ & _ & _ & H4 & _). intros Hi. exfalso.
    destruct go; cbn in Hi; rewrite H4 in Hi; cbn in Hi; congruence.
  - unfold answered. destruct (deliver_finish _ _ _ _ _) as [s sent]. cbv zeta. set (c1 := set_forward s _).
    destruct (put_more true sent c1) as (H1' & H2' & _ & H4' & _). intros Hi. cbn in *. rewrite H4' in Hi. rewrite H1', H2'. cbn in *.
    destruct (Hc Hi) as [H1 H2]. split; [done|]. intros _. apply H2. congruence.
Qed.

Lemma closed_run ls c : run event_forward_channel ls = Some c -> closed_ok c.
Proof. apply (conn_invariant closed_ok); [by intros [=]|apply closed_step]. Qed.

(** C26: Once the serve loop has closed its end of a connection that has not ended and
    whose staging queue did not overflow: if the client reads on and the backend answers
    every request, with a replay or without, the forwarder ends within a number of steps
    that follows from what is queued.  Everything that was staged has been received,
    every structured event was handed on in order and read, nothing is left buffered and
    no request for a replay is left in the queue.  (A forwarder whose staging queue
    overflowed ends at once instead.) *)
Theorem a_closed_stream_drains ls c answers :
  run event_forward_channel ls = Some c -> senders c = false -> client_open c = true -> overloaded (ingress c) = false ->
  phase c <> Ended ->
  let c' := drive answers (fuel_for c) c in
  phase c' = Ended
  /\ routed c' = routed c ++ map fst (queued (ingress c))
  /\ structured (handed_on (delivered c')) = structured (routed c')
  /\ taken c' = length (delivered c')
  /\ pending (forward c') = [] /\ resync_queue (forward c') = [].
Proof.
  intros Hr Hs Hc Ho Hne. pose proof (conn_ok_run _ _ Hr) as Hok. pose proof (flows_run _ _ Hr) as Hf.
  pose proof (closed_run _ _ Hr) as Hcl.
  assert (draining (routed c ++ map fst (queued (ingress c))) c) as Hd by (split; try done; intros; by apply Hcl).
  pose proof (left_nonneg _ _ Hd) as Hn. destruct (drive_ends _ answers (fuel_for c) c Hd) as (Hd' & He & Ht); [unfold fuel_for; lia|].
  set (c' := drive answers (fuel_for c) c) in *. intros c''. unfold c''. destruct (drain_done _ _ Hd' He) as [Hrt Hidle].
  unfold is_idle in Hidle. apply andb_true_iff in Hidle as [Hp Hq].
  assert (pending (forward c') = []) as Hp' by (by destruct (pending (forward c'))).
  assert (resync_queue (forward c') = []) as Hq' by (by destruct (resync_queue (forward c'))).
  split_and!; try done. destruct (drain_flows _ _ Hd') as [(lost & Ha & Hl) _]. rewrite Hp' in Ha, Hl. cbn in Ha.
  assert (lost = []) as ->.
  { destruct Hl as [|(_ & _ & [Hx|Hx])]; [done|by rewrite (drain_client _ _ Hd') in Hx|by vm_compute in Hx]. }
  by rewrite app_nil_r in Ha.
Qed.

(** ** Connections on concrete events *)

Definition a_byte : list ascii := ["a"%char].
Definition printed (t f n : Z) : Event := TerminalOutput t a_byte f n (80, 24).

(** The loop takes one event. *)
Definition turn : list Label := [LArm; LSelect].

(** Terminal 1 is announced, prints twice, a notice comes between, it exits. *)
Definition short_life : list Event :=
  [TerminalSpawned 1 []; printed 1 1 1; OtherEvent a_byte; printed 1 2 3; TerminalExited 1 []].

Definition short_run : list Label :=
  map LSend short_life ++ concat (repeat turn 5) ++ [LRead; LWait 5].

Lemma short_run_works : exists c, run event_forward_channel short_run = Some c /\ routed c = short_life
  /\ map snd (delivered c) = short_life /\ phase c <> Ended.
Proof. by vm_compute; eexists. Qed.

(** As much of it as the serve loop sends before it closes its end. *)
Definition closed_run_labels : list Label := map LSend (firstn 4 short_life) ++ turn ++ turn ++ [LClose].

(** What the serve loop is to send, decided. *)
Fixpoint well_sentb (t pos last : Z) (es : list Event) : bool :=
  match es with
  | [] => true
  | e :: es =>
      match output_of t e with Some (f, n) => (last <? n) && (f <=? pos + 1) | None => true end
      && forallb (fun n => last <=? n) (replays_of t e)
      && well_sentb t (heard t pos e) (heard_output t last e) es
  end.

Lemma well_sentb_sound t pre es :
  well_sent t pre -> well_sentb t (position t pre) (last_output t pre) es = true -> well_sent t (pre ++ es).
Proof.
  revert pre. induction es as [|e es IH]; intros pre Hpre; cbn [well_sentb]; [by rewrite app_nil_r|].
  rewrite !andb_true_iff. intros [[Ho Hr] Hes]. rewrite <- position_snoc, <- last_output_snoc in Hes.
  replace (pre ++ e :: es) with ((pre ++ [e]) ++ es) by (by rewrite <- app_assoc). apply IH; [|done].
  intros l x post [(post' & -> & ->)|(-> & -> & ->)]%snoc_split; [by eapply Hpre|]. split.
  - intros f n Hx. rewrite Hx in Ho. lia.
  - intros n Hn%list_elem_of_In. rewrite forallb_forall in Hr. specialize (Hr n Hn). lia.
Qed.

(** A terminal that prints faster than its client reads: the channel fills, an output is
    dropped, and as soon as a slot is free a replay takes its place; the next one, two
    seconds later. *)
Definition chatter (n : nat) : list Label :=
  flat_map (fun i => let k := Z.of_nat i in [LSend (printed 1 k k); LArm; LSelect]) (List.seq 1 n).

Definition a_replay (n : Z) : ReplaySnapshot := mkSnapshot a_byte n true [].

Definition congested : list Label :=
  chatter 2049 ++ [LRead; LArm; LSelect; LAnswer (Some (a_replay 2049)); LSend (printed 1 2050 2050); LArm; LSelect;
    LWait RESYNC_DEBOUNCE; LRead; LArm; LSelect; LAnswer (Some (a_replay 2050))].

(** What a run leads to, as far as the examples ask. *)
Definition seen (c : Conn) : bool * bool * list (Z * Z) * Z * Z :=
  (forallb (fun e => negb (exits 1 e)) (routed c), well_sentb 1 0 0 (routed c), replays c, len (delivered c),
   get (covered_seq (forward c)) 1).

Lemma congested_run :
  option_map seen (run event_forward_channel congested) = Some (true, true, [(1, 0); (1, secs 2)], 2050, 2050).
Proof. by vm_compute. Qed.

Ltac at_the_end_of ls E := destruct (run event_forward_channel ls) as [c|] eqn:E; [|by vm_compute in E].

Lemma structured_events_are_lossless_witness :
  exists c, run event_forward_channel short_run = Some c
    /\ forall t, sublist (List.filter (concerns t) (handed_on (delivered c) ++ pending (forward c))) (List.filter (concerns t) (routed c)).
Proof.
  at_the_end_of short_run E. exists c. split; [reflexivity|]. exact (proj2 (structured_events_are_lossless short_run c E)).
Defined.

Lemma recovery_is_never_crowded_out_witness :
  exists c, run event_forward_channel short_run = Some c /\ len (pending (forward c)) <= MAX_PENDING_STRUCTURED_EVENTS.
Proof.
  at_the_end_of short_run E. exists c. split; [reflexivity|]. exact (proj1 (proj2 (recovery_is_never_crowded_out short_run c E))).
Defined.

Lemma congested_facts c :
  run event_forward_channel congested = Some c ->
  Forall (fun e => exits 1 e = false) (routed c) /\ well_sent 1 (routed c) /\ replays c = [(1, 0); (1, secs 2)].
Proof.
  intros E. pose proof congested_run as H. rewrite E in H. cbn [option_map] in H. injection H as He Hw Hr _ _. split_and!; [..|done].
  - rewrite forallb_forall in He. apply List.Forall_forall. intros e Hin%He. by apply negb_true_iff in Hin.
  - apply (well_sentb_sound 1 [] (routed c)); [by intros [] ?|done].
Qed.

Lemma a_terminal_is_fed_without_gap_or_repeat_witness :
  exists c, run event_forward_channel congested = Some c /\ untorn 1 (map snd (delivered c)).
Proof.
  destruct (run event_forward_channel congested) as [c|] eqn:E; [|pose proof congested_run as H; rewrite E in H; discriminate].
  exists c. split; [reflexivity|].
  exact (proj1 (a_terminal_is_fed_without_gap_or_repeat congested c 1 E (proj1 (proj2 (congested_facts c E))))).
Defined.

Lemma replays_are_spaced_witness :
  exists c, run event_forward_channel congested = Some c /\ replays c = [(1, 0); (1, secs 2)]
    /\ StronglySorted spaced (of_terminal 1 (replays c)).
Proof.
  destruct (run event_forward_channel congested) as [c|] eqn:E; [|pose proof congested_run as H; rewrite E in H; discriminate].
  exists c. split; [reflexivity|]. split; [by apply congested_facts|].
  exact (replays_are_spaced congested c 1 E (proj1 (congested_facts c E))).
Defined.

(** A debt, as a full channel leaves it. *)
Definition owing : Conn := set_forward (schedule_resync 1 5 new_state) event_forward_channel.

Lemma a_closed_stream_drains_witness :
  exists c, run event_forward_channel closed_run_labels = Some c
    /\ routed (drive (fun _ => None) (fuel_for c) c) = firstn 4 short_life.
Proof.
  at_the_end_of closed_run_labels E.
  assert (routed c ++ map fst (queued (ingress c)) = firstn 4 short_life /\ senders c = false /\ client_open c = true
          /\ overloaded (ingress c) = false /\ phase c = Top) as (Hr & Hs & Hc & Ho & Hp)
    by (vm_compute in E; injection E as <-; by vm_compute).
  exists c. split; [reflexivity|]. rewrite <- Hr.
  exact (proj1 (proj2 (a_closed_stream_drains closed_run_labels c (fun _ => None) E Hs Hc Ho ltac:(congruence)))).
Defined.

(** A debt that is replayed, and drained: the replay is delivered behind nothing else, and
    the terminal is covered up to it. *)
Example a_debt_is_replayed :
  let c := drive (fun _ => Some (a_replay 7)) 20 (set_senders false owing) in
  phase c = Ended /\ map snd (delivered c) = [TerminalResync 1 a_byte 7 []] /\ resync_debt (forward c) !! 1 = None.
Proof. by vm_compute. Qed.

(** What a replay older than the debt does: an answer to the client's own request that was
    read from the ring before output 4 and 5 is received behind them.  The debt for 5 is
    gone, nothing is queued, and the client is left at 3. *)
Example an_older_replay_cancels_the_debt :
  let s := schedule_resync 1 5 (schedule_resync 1 4 new_state) in
  let '(s', sent, _) := route Sent (TerminalResync 1 a_byte 3 []) s in
  sent = Some (TerminalResync 1 a_byte 3 []) /\ resync_debt s' !! 1 = None /\ resync_queue s' = [] /\ get (covered_seq s') 1 = 3.
Proof. by vm_compute. Qed.
