(* ===== verification/Wire.v ===== *)
(** * Frames on the wire

    [src/crates/ipc/src/socket.rs]: messages framed onto a stream and read back, the writer
    that batches them, the reader that ends where the stream does, and what a client makes of
    a large write before it is framed ([ipc/src/lib.rs]).

    The encoding of a message is bincode: the class [Codec].  A source of bytes is what is
    left to read and how it ends; a call that reads takes as much as it asks for or all there
    is.  How many messages are queued when the writer looks, and how far a write gets, are
    arguments. *)

From Stdlib Require Import Ascii.
From S2P Require Import Prelude EventForward.

#[local] Open Scope Z_scope.

#[local] Notation bytes := (list ascii).
#[local] Notation len l := (Z.of_nat (length l)).

Definition MAX_COMMAND_FRAME_BYTES : Z := 256 * 1024.
Definition MAX_WRITE_CHUNK_BYTES : Z := MAX_COMMAND_FRAME_BYTES / 2.
Definition MAX_BATCH_MESSAGES : Z := 64.
Definition MAX_BATCH_BYTES : Z := 256 * 1024.

(** ** Numbers *)

Definition byte_of (n : Z) : ascii := ascii_of_N (Z.to_N (n mod 256)).
Definition value_of (c : ascii) : Z := Z.of_N (N_of_ascii c).

(** [n.to_be_bytes()] of a number of [k] bytes, and back. *)
Fixpoint to_le_bytes (k : nat) (n : Z) : bytes := match k with O => [] | S k => byte_of n :: to_le_bytes k (Z.shiftr n 8) end.
Definition to_be_bytes (k : nat) (n : Z) : bytes := rev (to_le_bytes k n).
Fixpoint from_le_bytes (bs : bytes) : Z := match bs with [] => 0 | c :: bs => value_of c + Z.shiftl (from_le_bytes bs) 8 end.
Definition from_be_bytes (bs : bytes) : Z := from_le_bytes (rev bs).

(** ** Streams *)

Inductive ErrorKind := UnexpectedEof | BrokenPipe | ConnectionReset | ConnectionAborted | OtherKind.

(** [ends] is the error behind the last byte; [None]: the peer closed its end. *)
Record Source := mkSource { unread : bytes; ends : option ErrorKind }.

Definition read_exact (n : nat) (r : Source) : (ErrorKind + bytes) * Source :=
  if (n <=? length (unread r))%nat
  then (inr (firstn n (unread r)), mkSource (skipn n (unread r)) (ends r))
  else (inl (default UnexpectedEof (ends r)), mkSource [] (ends r)).

(** ** Frames *)

Inductive FrameError :=
  | Io (kind : ErrorKind)
  | TooLarge (n : Z)
  | OversizedSkipped (n max : Z)
  | Encode
  | Decode
  | TrailingBytes (n : Z).

(** [decode] says how much of the frame it used. *)
Class Codec (M : Type) := {
  encode : M -> option bytes;
  decode : bytes -> option (M * nat);
}.

Class CodecLaws (M : Type) `{Codec M} :=
  decode_encode : forall m bs, encode m = Some bs -> len bs <= MAX_FRAME_BYTES -> decode bs = Some (m, length bs).

Definition SCRATCH : Z := 8192.

(** [fuel] bounds the reads, of which each takes a byte at least. *)
Fixpoint discard_exact (fuel : nat) (remaining : Z) (r : Source) : option ErrorKind * Source :=
  if remaining <=? 0 then (None, r)
  else match fuel with
       | O => (None, r)
       | S fuel =>
           let want := Z.to_nat (Z.min remaining SCRATCH) in
           let got := firstn want (unread r) in
           match got with
           | [] => (Some (default UnexpectedEof (ends r)), r)
           | _ => discard_exact fuel (remaining - len got) (mkSource (skipn want (unread r)) (ends r))
           end
       end.

Section Framing.
Context {M : Type} `{Codec M}.

Definition encode_frame (msg : M) : FrameError + bytes :=
  match encode msg with
  | None => inl Encode
  | Some bs =>
      if u32_max <? len bs then inl (TooLarge u32_max)
      else if MAX_FRAME_BYTES <? len bs then inl (TooLarge (len bs))
      else inr (to_be_bytes 4 (len bs) ++ bs)
  end.

Definition read_frame_limited (max_frame_bytes : Z) (r : Source) : (FrameError + option M) * Source :=
  match read_exact 4 r with
  | (inl UnexpectedEof, r) => (inr None, r)
  | (inl e, r) => (inl (Io e), r)
  | (inr len_buf, r) =>
      let n := from_be_bytes len_buf in
      if max_frame_bytes <? n then
        if MAX_FRAME_BYTES <? n then (inl (TooLarge n), r)
        else match discard_exact (Z.to_nat n) n r with
             | (Some e, r) => (inl (Io e), r)
             | (None, r) => (inl (OversizedSkipped n max_frame_bytes), r)
             end
      else match read_exact (Z.to_nat n) r with
           | (inl e, r) => (inl (Io e), r)
           | (inr buf, r) =>
               match decode buf with
               | None => (inl Decode, r)
               | Some (message, consumed) =>
                   if (consumed =? length buf)%nat then (inr (Some message), r)
                   else (inl (TrailingBytes (len buf - Z.of_nat consumed)), r)
               end
           end
  end.

Definition read_frame (r : Source) : (FrameError + option M) * Source := read_frame_limited MAX_FRAME_BYTES r.

(** ** The reader *)

(** Why it ended: the peer closed, the receiver is gone, or an error. *)
Inductive ReaderEnd := Closed | ReceiverGone | Failed (e : FrameError).

(** [takes] messages are taken before the receiver goes.  The messages, what was skipped. *)
Fixpoint reader_loop_bounded (fuel takes : nat) (max_frame_bytes : Z) (r : Source) : list M * ReaderEnd :=
  match fuel with
  | O => ([], Closed)
  | S fuel =>
      match read_frame_limited max_frame_bytes r with
      | (inr (Some msg), r) =>
          match takes with
          | O => ([], ReceiverGone)
          | S takes => let '(msgs, e) := reader_loop_bounded fuel takes max_frame_bytes r in (msg :: msgs, e)
          end
      | (inr None, _) => ([], Closed)
      | (inl (OversizedSkipped _ _), r) => reader_loop_bounded fuel takes max_frame_bytes r
      | (inl e, _) => ([], Failed e)
      end
  end.

(** Every frame takes four bytes at least. *)
Definition run_reader (takes : nat) (max_frame_bytes : Z) (r : Source) : list M * ReaderEnd :=
  reader_loop_bounded (S (length (unread r))) takes max_frame_bytes r.

(** ** The writer *)

(** The messages that [try_recv] finds: [ready] of them.  The batch, what is left queued,
    and whether a message could not be framed. *)
Fixpoint fill_batch (ready : nat) (batched : Z) (buf : bytes) (queue : list M) : bytes * list M * bool :=
  match ready with
  | O => (buf, queue, false)
  | S ready =>
      if (batched <? MAX_BATCH_MESSAGES) && (len buf <? MAX_BATCH_BYTES) then
        match queue with
        | [] => (buf, [], false)
        | msg :: queue =>
            match encode_frame msg with
            | inr framed => fill_batch ready (batched + 1) (buf ++ framed) queue
            | inl _ => (buf, queue, true)
            end
        end
      else (buf, queue, false)
  end.

(** A turn of the writer: how many messages are queued behind the first, and where a write
    breaks off, if it does. *)
Record WriterTurn := mkTurn { ready : nat; breaks : option nat }.

Definition write_all_flush (breaks : option nat) (buf : bytes) : bytes * bool :=
  match breaks with None => (buf, true) | Some n => (firstn n buf, false) end.

(** What each turn puts on the wire, and what is left queued if the writer goes on. *)
Fixpoint writer_loop_bounded (turns : list WriterTurn) (queue : list M) : list bytes * option (list M) :=
  match turns, queue with
  | turn :: turns, first :: queue =>
      match encode_frame first with
      | inl _ => ([], None)
      | inr framed =>
          let '(buf, queue, refused) := fill_batch (ready turn) 1 framed queue in
          let '(written, ok) := write_all_flush (breaks turn) buf in
          if refused || negb ok then ([written], None)
          else let '(rest, queued) := writer_loop_bounded turns queue in (written :: rest, queued)
      end
  | _, _ => ([], Some queue)
  end.

End Framing.

(** ** Commands *)

Inductive TerminalInputIntent := Compose | Submit | View.

Inductive Command :=
  | Write (terminal_id : Z) (bs : bytes) (intent : TerminalInputIntent)
  | Subscribe
  | OtherCommand (rest : bytes).

(** [bytes.chunks(n)]. *)
Fixpoint chunks (fuel n : nat) (bs : bytes) : list bytes :=
  match fuel, bs with
  | _, [] => []
  | O, _ => []
  | S fuel, _ => firstn n bs :: chunks fuel n (skipn n bs)
  end.

(** Only the last chunk has the intent. *)
Fixpoint chunk_writes (terminal_id : Z) (intent : TerminalInputIntent) (cs : list bytes) : list Command :=
  match cs with
  | [] => []
  | [c] => [Write terminal_id c intent]
  | c :: cs => Write terminal_id c Compose :: chunk_writes terminal_id intent cs
  end.

Definition write_chunked (terminal_id : Z) (bs : bytes) (intent : TerminalInputIntent) : list Command :=
  if len bs <=? MAX_WRITE_CHUNK_BYTES then [Write terminal_id bs intent]
  else chunk_writes terminal_id intent (chunks (length bs) (Z.to_nat MAX_WRITE_CHUNK_BYTES) bs).

Definition into_write_chunks (c : Command) : list Command :=
  match c with
  | Write terminal_id bs intent => write_chunked terminal_id bs intent
  | other => [other]
  end.

(** ** The meter of disconnects *)

Definition DISCONNECT_STORM_WINDOW : Z := secs 60.
Definition DISCONNECT_STORM_THRESHOLD : Z := 5.

Definition is_expected_disconnect (e : ErrorKind) : bool :=
  match e with BrokenPipe | ConnectionReset | ConnectionAborted | UnexpectedEof => true | OtherKind => false end.

Record DisconnectWindow := mkWindow { count : Z; window_start : option Z }.

Definition record (now : Z) (w : DisconnectWindow) : option Z * DisconnectWindow :=
  match window_start w with
  | Some start =>
      if DISCONNECT_STORM_WINDOW <=? sat_sub now start
      then (if DISCONNECT_STORM_THRESHOLD <=? count w then Some (count w) else None, mkWindow 1 (Some now))
      else (None, mkWindow (sat_add u32_max (count w) 1) (window_start w))
  | None => (None, mkWindow 1 (Some now))
  end.
