(* ===== verification/WireProps.v ===== *)
(** * Frames on the wire: what is written is read

    However the writer batches and wherever the connection breaks off, the reader delivers
    the messages in order up to that point, less those its channel has no room for; a client's
    commands never are.  A write of any size reaches the daemon, split so that no frame is
    larger than the daemon reads from a client.  At the end a codec of commands, and concrete
    connections. *)

From Stdlib Require Import Ascii.
From S2P Require Import Prelude EventForward Wire.

#[local] Open Scope Z_scope.

#[local] Notation bytes := (list ascii).
#[local] Notation len l := (Z.of_nat (length l)).

(** ** Numbers *)

Lemma value_of_byte n : value_of (byte_of n) = n mod 256.
Proof.
  unfold value_of, byte_of. pose proof (Z.mod_pos_bound n 256 ltac:(lia)). rewrite N_ascii_embedding; [lia|]. lia.
Qed.

Lemma le_bytes_length k n : length (to_le_bytes k n) = k.
Proof. revert n. induction k as [|k IH]; intros n; [done|]. cbn. by rewrite IH. Qed.

Lemma le_bytes_value k n : 0 <= n < 256 ^ Z.of_nat k -> from_le_bytes (to_le_bytes k n) = n.
Proof.
  revert n. induction k as [|k IH]; intros n Hn; [cbn in *; lia|]. cbn [to_le_bytes from_le_bytes].
  rewrite Z.shiftl_mul_pow2, value_of_byte by lia. rewrite IH.
  - rewrite Z.shiftr_div_pow2 by lia. change (2 ^ 8) with 256. pose proof (Z.div_mod n 256 ltac:(lia)). lia.
  - rewrite Z.shiftr_div_pow2 by lia. rewrite Nat2Z.inj_succ, Z.pow_succ_r in Hn by lia. change (2 ^ 8) with 256.
    split; [apply Z.div_pos; lia|apply Z.div_lt_upper_bound; lia].
Qed.

Lemma be_bytes_length k n : length (to_be_bytes k n) = k.
Proof. unfold to_be_bytes. by rewrite length_rev, le_bytes_length. Qed.

Lemma be_bytes_value k n : 0 <= n < 256 ^ Z.of_nat k -> from_be_bytes (to_be_bytes k n) = n.
Proof. intros Hn. unfold from_be_bytes, to_be_bytes. by rewrite rev_involutive, le_bytes_value. Qed.

(** ** Reading *)

Lemma read_exact_some a rest e : read_exact (length a) (mkSource (a ++ rest) e) = (inr a, mkSource rest e).
Proof.
  unfold read_exact. cbn [unread ends]. rewrite length_app, (proj2 (Nat.leb_le _ _)) by lia.
  by rewrite take_app_length, drop_app_length.
Qed.

Lemma read_exact_none n bs e : (length bs < n)%nat -> read_exact n (mkSource bs e) = (inl (default UnexpectedEof e), mkSource [] e).
Proof. intros Hn. unfold read_exact. cbn [unread ends]. by rewrite (proj2 (Nat.leb_gt _ _)). Qed.

Lemma discard_all fuel a rest e : (length a <= fuel)%nat -> discard_exact fuel (len a) (mkSource (a ++ rest) e) = (None, mkSource rest e).
Proof.
  revert a. induction fuel as [|fuel IH]; intros a Hf.
  { destruct a; [done|cbn in Hf; lia]. }
  cbn [discard_exact]. destruct (Z.leb_spec (len a) 0) as [Hz|Hz]; [destruct a; [done|cbn in Hz; lia]|]. cbn [unread ends].
  set (want := Z.to_nat (Z.min (len a) SCRATCH)). assert (1 <= want <= length a)%nat as Hw by (unfold want, SCRATCH; lia).
  rewrite firstn_app, (proj2 (Nat.sub_0_le want (length a))) by lia. rewrite firstn_O, app_nil_r.
  assert (length (firstn want a) = want) as Hl by (rewrite length_firstn; lia).
  rewrite skipn_app, (proj2 (Nat.sub_0_le want (length a))) by lia. rewrite skipn_O.
  destruct (firstn want a) as [|c got] eqn:Eg; [cbn in Hl; lia|]. rewrite <- Eg in Hl |- *.
  replace (len a - len (firstn want a)) with (len (skipn want a)) by (rewrite length_skipn, Hl; lia). apply IH.
  rewrite length_skipn. lia.
Qed.

Lemma discard_short fuel n bs e : (Z.to_nat n <= fuel)%nat -> len bs < n -> exists r, discard_exact fuel n (mkSource bs e) = (Some (default UnexpectedEof e), r).
Proof.
  revert n bs. induction fuel as [|fuel IH]; intros n bs Hf Hn; [lia|]. cbn [discard_exact].
  rewrite (proj2 (Z.leb_gt n 0)) by lia. cbn [unread ends]. set (want := Z.to_nat (Z.min n SCRATCH)).
  assert (1 <= want)%nat as Hw by (unfold want, SCRATCH; lia). destruct (firstn want bs) as [|c got] eqn:Eg; [by eexists|].
  rewrite <- Eg. assert (1 <= length (firstn want bs))%nat by (rewrite Eg; cbn; lia).
  pose proof (length_firstn want bs) as Hl. pose proof (length_skipn want bs) as Hs. apply IH; [lia|]. rewrite Hs, Hl. lia.
Qed.

Section Streams.
Context {M : Type} `{CodecLaws M}.

(** The payload of a message that can be framed. *)
Definition payload (m : M) : option bytes := encode m ≫= fun bs => if len bs <=? MAX_FRAME_BYTES then Some bs else None.

Lemma frame_payload m :
  match payload m with
  | Some bs => encode_frame m = inr (to_be_bytes 4 (len bs) ++ bs) /\ decode bs = Some (m, length bs) /\ len bs <= MAX_FRAME_BYTES
  | None => exists e, encode_frame m = inl e
  end.
Proof.
  unfold payload, encode_frame. destruct (encode m) as [bs|] eqn:E; [|by exists Encode]. cbn [mbind option_bind].
  assert (MAX_FRAME_BYTES < u32_max) as Hm by by vm_compute. destruct (Z.leb_spec (len bs) MAX_FRAME_BYTES) as [Hle|Hgt].
  - rewrite (proj2 (Z.ltb_ge u32_max _)), (proj2 (Z.ltb_ge MAX_FRAME_BYTES _)) by lia. split; [done|]. split; [by apply decode_encode|done].
  - destruct (u32_max <? len bs); [by eexists|]. rewrite (proj2 (Z.ltb_lt _ _)) by lia. by eexists.
Qed.

Definition frame (bs : bytes) : bytes := to_be_bytes 4 (len bs) ++ bs.

Lemma frame_number (bs : bytes) : len bs <= MAX_FRAME_BYTES -> from_be_bytes (to_be_bytes 4 (len bs)) = len bs.
Proof. intros Hle. apply be_bytes_value. assert (MAX_FRAME_BYTES < 256 ^ Z.of_nat 4) by by vm_compute. lia. Qed.

Lemma read_number n rest e : read_exact 4 (mkSource (to_be_bytes 4 n ++ rest) e) = (inr (to_be_bytes 4 n), mkSource rest e).
Proof. rewrite <- (be_bytes_length 4 n) at 1. apply read_exact_some. Qed.

(** A whole frame. *)
Lemma read_whole m bs max rest e :
  payload m = Some bs ->
  read_frame_limited max (mkSource (frame bs ++ rest) e)
  = (if max <? len bs then inl (OversizedSkipped (len bs) max) else inr (Some m), mkSource rest e).
Proof.
  intros Hp. pose proof (frame_payload m) as Hf. rewrite Hp in Hf. destruct Hf as (_ & Hd & Hle). unfold read_frame_limited, frame.
  rewrite <- app_assoc, read_number, frame_number by done.
  destruct (max <? len bs).
  - rewrite (proj2 (Z.ltb_ge _ _)) by lia. rewrite Nat2Z.id. by rewrite discard_all.
  - by rewrite Nat2Z.id, read_exact_some, Hd, Nat.eqb_refl.
Qed.

(** A frame that is cut off. *)
Lemma read_cut (bs cut : bytes) max e :
  len bs <= MAX_FRAME_BYTES -> cut `prefix_of` frame bs -> cut <> frame bs ->
  (exists r, read_frame_limited max (mkSource cut e) = (inr None, r)) \/ exists k r, read_frame_limited max (mkSource cut e) = (inl (Io k), r).
Proof.
  intros Hle [tail Hc] Hne. unfold read_frame_limited.
  assert (length cut < length (frame bs))%nat as Hl.
  { rewrite Hc, length_app. destruct tail; [by rewrite app_nil_r in Hc|cbn; lia]. }
  unfold frame in Hl, Hc. rewrite length_app, be_bytes_length in Hl. destruct (le_lt_dec 4 (length cut)) as [H4|H4].
  - assert (exists body, cut = to_be_bytes 4 (len bs) ++ body) as [body ->].
    { exists (skipn 4 cut). rewrite <- (firstn_skipn 4 cut) at 1. f_equal.
      apply (f_equal (firstn 4)) in Hc. rewrite firstn_app, be_bytes_length in Hc. rewrite firstn_all2 in Hc by (rewrite be_bytes_length; lia).
      cbn [Nat.sub firstn] in Hc. rewrite app_nil_r in Hc. rewrite firstn_app in Hc. rewrite (proj2 (Nat.sub_0_le 4 (length cut))) in Hc by lia.
      cbn [firstn] in Hc. by rewrite app_nil_r in Hc. }
    rewrite length_app, be_bytes_length in Hl. rewrite read_number, frame_number by done.
    right. destruct (max <? len bs).
    + rewrite (proj2 (Z.ltb_ge _ _)) by lia. destruct (discard_short (Z.to_nat (len bs)) (len bs) body e) as [r Hr]; [lia|lia|].
      rewrite Hr. by eexists _, _.
    + rewrite read_exact_none by lia. by eexists _, _.
  - rewrite read_exact_none by lia. destruct (default UnexpectedEof e); eauto.
Qed.

(** ** The bytes of messages *)

Definition frame_of (m : M) : bytes := match payload m with Some bs => frame bs | None => [] end.
Definition wire_of (l : list M) : bytes := concat (map frame_of l).
Definition sendable (m : M) : bool := is_some_and (fun _ => true) (payload m).

(** The channel has room for it. *)
Definition fits (max : Z) (m : M) : bool := is_some_and (fun bs => len bs <=? max) (payload m).

Lemma wire_app a b : wire_of (a ++ b) = wire_of a ++ wire_of b.
Proof. unfold wire_of. by rewrite map_app, concat_app. Qed.

Lemma sendable_frame m : if sendable m then encode_frame m = inr (frame_of m) else exists e, encode_frame m = inl e.
Proof. pose proof (frame_payload m) as Hf. unfold sendable, frame_of. destruct (payload m); cbn; [by destruct Hf|done]. Qed.

(** The messages before the first that cannot be framed. *)
Fixpoint sendable_prefix (l : list M) : list M :=
  match l with [] => [] | m :: l => if sendable m then m :: sendable_prefix l else [] end.

Lemma sendable_prefix_all l : forallb sendable l = true -> sendable_prefix l = l.
Proof. induction l as [|m l IH]; [done|]. cbn. intros [-> Hl]%andb_true_iff. by rewrite IH. Qed.

Lemma sendable_prefix_app a b : forallb sendable a = true -> sendable_prefix (a ++ b) = a ++ sendable_prefix b.
Proof. induction a as [|m a IH]; [done|]. cbn. intros [-> Hl]%andb_true_iff. by rewrite IH. Qed.

(** ** The writer *)

Lemma fill_batch_spec ready batched buf queue :
  let '(buf', queue', refused) := fill_batch ready batched buf queue in
  exists taken rest, queue = taken ++ rest /\ forallb sendable taken = true /\ buf' = buf ++ wire_of taken
    /\ (if refused then exists m, rest = m :: queue' /\ sendable m = false else rest = queue').
Proof.
  revert batched buf queue. induction ready as [|ready IH]; intros batched buf queue; cbn [fill_batch].
  { exists [], queue. by rewrite app_nil_r. }
  destruct (_ && _); [|exists [], queue; by rewrite app_nil_r].
  destruct queue as [|m queue]; [exists [], []; cbn; by rewrite app_nil_r|].
  pose proof (sendable_frame m) as Hm. destruct (sendable m) eqn:Es.
  - rewrite Hm. specialize (IH (batched + 1) (buf ++ frame_of m) queue). destruct (fill_batch _ _ _ _) as [[buf' queue'] refused].
    destruct IH as (taken & rest & -> & Ht & -> & Hr). exists (m :: taken), rest. split; [done|]. split; [cbn; by rewrite Es|]. split; [|done].
    unfold wire_of. cbn. by rewrite <- app_assoc.
  - destruct Hm as [err ->]. exists [], (m :: queue). split; [done|]. split; [done|]. rewrite app_nil_r. split; [done|]. by exists m.
Qed.

Lemma writer_spec turns queue :
  let '(writes, queued) := writer_loop_bounded turns queue in
  concat writes `prefix_of` wire_of (sendable_prefix queue)
  /\ match queued with
     | Some rest => exists sent, queue = sent ++ rest /\ forallb sendable sent = true /\ concat writes = wire_of sent
     | None => True
     end.
Proof.
  revert queue. induction turns as [|turn turns IH]; intros queue; cbn [writer_loop_bounded].
  { split; [apply prefix_nil|]. by exists []. }
  destruct queue as [|first queue]; [split; [apply prefix_nil|]; by exists []|].
  pose proof (sendable_frame first) as Hf. destruct (sendable first) eqn:Es.
  2:{ destruct Hf as [err ->]. split; [apply prefix_nil|done]. }
  rewrite Hf. pose proof (fill_batch_spec (ready turn) 1 (frame_of first) queue) as Hb.
  destruct (fill_batch _ _ _ _) as [[buf queue'] refused]. destruct Hb as (taken & rest & -> & Ht & -> & Hr).
  assert (wire_of (sendable_prefix (first :: taken ++ rest)) = (frame_of first ++ wire_of taken) ++ wire_of (sendable_prefix rest)) as Hw.
  { cbn. rewrite Es, sendable_prefix_app by done. unfold wire_of. cbn. by rewrite map_app, concat_app, app_assoc. }
  rewrite Hw. clear Hw. unfold write_all_flush. destruct (breaks turn) as [n|].
  - rewrite orb_true_r. cbn. rewrite app_nil_r. split; [|done]. apply prefix_app_r, prefix_take.
  - rewrite orb_false_r. destruct refused; [cbn; rewrite app_nil_r; split; [by apply prefix_app_r|done]|]. subst rest. specialize (IH queue').
    destruct (writer_loop_bounded turns queue') as [writes queued]. destruct IH as [Hp Hq]. cbn. split; [by apply prefix_app|].
    destruct queued as [rest|]; [|done]. destruct Hq as (sent & -> & Hs & Hc). exists (first :: taken ++ sent). cbn.
    rewrite Es, forallb_app, Ht, Hs, <- app_assoc, Hc. split; [done|]. split; [done|]. unfold wire_of. cbn. by rewrite map_app, concat_app, app_assoc.
Qed.

Lemma writer_finishes turns queue :
  forallb sendable queue = true -> Forall (fun t => breaks t = None) turns -> (length queue <= length turns)%nat ->
  (writer_loop_bounded turns queue).2 = Some [].
Proof.
  revert queue. induction turns as [|turn turns IH]; intros queue Hq Ht Hl; [by destruct queue; [|cbn in Hl; lia]|].
  apply Forall_cons in Ht as [Hb Ht]. destruct queue as [|first queue]; [done|]. cbn in Hq. apply andb_true_iff in Hq as [Hs Hq]. cbn in Hl.
  cbn [writer_loop_bounded]. pose proof (sendable_frame first) as Hf. rewrite Hs in Hf. rewrite Hf.
  pose proof (fill_batch_spec (ready turn) 1 (frame_of first) queue) as Hbatch. destruct (fill_batch _ _ _ _) as [[buf queue'] refused].
  destruct Hbatch as (taken & rest & -> & _ & -> & Hr). rewrite forallb_app in Hq. apply andb_true_iff in Hq as [_ Hq]. rewrite length_app in Hl.
  unfold write_all_flush. rewrite Hb. destruct refused.
  - destruct Hr as (m & -> & Hm). cbn in Hq. by rewrite Hm in Hq.
  - subst rest. cbn. specialize (IH queue' Hq Ht ltac:(lia)). by destruct (writer_loop_bounded turns queue').
Qed.

(** ** The reader *)

(** A stream that ends in a frame that is cut off, or between two. *)
Definition cut_off (cut : bytes) : Prop :=
  cut = [] \/ exists bs, len bs <= MAX_FRAME_BYTES /\ cut `prefix_of` frame bs /\ cut <> frame bs.

Lemma reader_spec fuel takes max l cut e :
  forallb sendable l = true -> cut_off cut -> (length l < fuel)%nat ->
  (reader_loop_bounded fuel takes max (mkSource (wire_of l ++ cut) e)).1 = firstn takes (List.filter (fits max) l).
Proof.
  intros Hl Hc. revert takes l Hl. induction fuel as [|fuel IH]; intros takes l Hl Hf; [lia|]. destruct l as [|m l]; cbn [reader_loop_bounded].
  - cbn [wire_of map concat app List.filter]. rewrite firstn_nil. destruct Hc as [->|(bs & Hle & Hp & Hne)].
    + unfold read_frame_limited. rewrite read_exact_none by (cbn; lia). by destruct (default UnexpectedEof e).
    + destruct (read_cut bs cut max e Hle Hp Hne) as [[r ->]|(k & r & ->)]; done.
  - cbn in Hl. apply andb_true_iff in Hl as [Hm Hl]. cbn in Hf. unfold sendable in Hm.
    assert (exists bs, payload m = Some bs) as [bs Hp] by (destruct (payload m); [eauto|done]).
    assert (wire_of (m :: l) ++ cut = frame bs ++ wire_of l ++ cut) as -> by (unfold wire_of; cbn; unfold frame_of at 1; by rewrite Hp, <- app_assoc).
    rewrite (read_whole m bs) by done. cbn [List.filter]. unfold fits at 1. rewrite Hp. cbn [is_some_and].
    rewrite Z.leb_antisym. destruct (max <? len bs); cbn [negb]; [apply IH; [done|lia]|].
    destruct takes as [|takes]; [done|]. specialize (IH takes l Hl ltac:(lia)). destruct (reader_loop_bounded fuel takes max _). cbn in *. by rewrite IH.
Qed.

Lemma frame_positive m : sendable m = true -> (4 <= length (frame_of m))%nat.
Proof. unfold sendable, frame_of, frame. destruct (payload m); [|done]. rewrite length_app, be_bytes_length. lia. Qed.

Lemma wire_length l : forallb sendable l = true -> (length l <= length (wire_of l))%nat.
Proof.
  induction l as [|m l IH]; [done|]. cbn. intros [Hm%frame_positive Hl]%andb_true_iff. specialize (IH Hl). unfold wire_of in *. cbn. rewrite length_app. lia.
Qed.

Lemma prefix_or_app (w a b : bytes) : w `prefix_of` a ++ b -> w `prefix_of` a \/ exists rest, w = a ++ rest /\ rest `prefix_of` b.
Proof.
  intros Hw. destruct (prefix_weak_total w a (a ++ b) Hw) as [?|[rest ->]]; [by apply prefix_app_r|by left|]. right. exists rest.
  split; [done|]. by apply prefix_app_inv in Hw.
Qed.

Lemma prefix_frames w l :
  forallb sendable l = true -> w `prefix_of` wire_of l -> exists j cut, (j <= length l)%nat /\ w = wire_of (firstn j l) ++ cut /\ cut_off cut.
Proof.
  revert w. induction l as [|m l IH]; intros w Hl Hw.
  { apply prefix_nil_inv in Hw as ->. exists O, []. split; [cbn; lia|]. split; [done|by left]. }
  cbn in Hl. apply andb_true_iff in Hl as [Hm Hl]. assert (exists bs, payload m = Some bs) as [bs Hp] by (unfold sendable in Hm; destruct (payload m); [eauto|done]).
  assert (len bs <= MAX_FRAME_BYTES) as Hle by (pose proof (frame_payload m) as Hf; rewrite Hp in Hf; by destruct Hf as (_ & _ & ?)).
  assert (forall rest, wire_of (m :: rest) = frame bs ++ wire_of rest) as Hw1 by (intros rest; unfold wire_of; cbn; unfold frame_of at 1; by rewrite Hp).
  rewrite Hw1 in Hw. destruct (prefix_or_app w (frame bs) (wire_of l) Hw) as [Hcut|(rest & -> & Hrest)].
  - destruct (decide (w = frame bs)) as [->|Hne].
    + exists 1%nat, []. split; [cbn; lia|]. split; [|by left]. cbn [firstn]. rewrite Hw1. cbn. by rewrite !app_nil_r.
    + exists O, w. split; [lia|]. split; [done|]. right. by exists bs.
  - destruct (IH rest Hl Hrest) as (j & cut & Hj & -> & Hc). exists (S j), cut. split; [cbn; lia|]. split; [|done].
    cbn [firstn]. by rewrite Hw1, app_assoc.
Qed.

Lemma sendable_prefix_of l : exists rest, l = sendable_prefix l ++ rest.
Proof. induction l as [|m l [rest IH]]; [by exists []|]. cbn. destruct (sendable m); [exists rest; cbn; by f_equal|by exists (m :: l)]. Qed.

Lemma sendable_prefix_ok l : forallb sendable (sendable_prefix l) = true.
Proof. induction l as [|m l IH]; [done|]. cbn. destruct (sendable m) eqn:E; [cbn; by rewrite E|done]. Qed.

Lemma forallb_firstn {A} (f : A -> bool) n l : forallb f l = true -> forallb f (firstn n l) = true.
Proof. revert n. induction l as [|x l IH]; intros [|n]; try done. cbn. intros [-> Hl]%andb_true_iff. by apply IH. Qed.

Lemma run_reader_spec takes max l cut e :
  forallb sendable l = true -> cut_off cut -> (run_reader takes max (mkSource (wire_of l ++ cut) e)).1 = firstn takes (List.filter (fits max) l).
Proof.
  intros Hl Hc. unfold run_reader. apply reader_spec; [done|done|]. cbn [unread]. rewrite length_app. pose proof (wire_length l Hl). lia.
Qed.

(** C10: What is read is what was written: however many messages each write batches and wherever
    a write breaks off or a message cannot be framed, the reader delivers, in order, the
    messages up to some point that its channel has room for, as long as they are taken.  That
    point is behind every message the writer took if it goes on, and the writer takes them
    all when no write breaks off and all can be framed. *)
Theorem what_is_read_was_written turns msgs takes max e :
  let '(writes, queued) := writer_loop_bounded turns msgs in
  exists j, (run_reader takes max (mkSource (concat writes) e)).1 = firstn takes (List.filter (fits max) (firstn j msgs))
    /\ (forall rest, queued = Some rest -> msgs = firstn j msgs ++ rest)
    /\ (forallb sendable msgs = true -> Forall (fun t => breaks t = None) turns -> (length msgs <= length turns)%nat -> queued = Some []).
Proof.
  pose proof (writer_spec turns msgs) as Hw. pose proof (writer_finishes turns msgs) as Hfin.
  destruct (writer_loop_bounded turns msgs) as [writes queued]. destruct Hw as [Hp Hq]. destruct queued as [rest|].
  - destruct Hq as (sent & -> & Hs & ->). exists (length sent). rewrite take_app_length. split; [|split; [|done]].
    + rewrite <- (app_nil_r (wire_of sent)). apply run_reader_spec; [done|by left].
    + by intros ? [= <-].
  - destruct (prefix_frames _ _ (sendable_prefix_ok msgs) Hp) as (j & cut & Hj & Hwr & Hc). exists j.
    destruct (sendable_prefix_of msgs) as [rest Hrest]. split; [|split; [done|done]].
    rewrite Hwr, run_reader_spec; [|by apply forallb_firstn, sendable_prefix_ok|done].
    rewrite Hrest at 2. by rewrite firstn_app, (proj2 (Nat.sub_0_le _ _) Hj), firstn_O, app_nil_r.
Qed.

End Streams.

(** ** A client's commands *)

(** ** Chunks *)

Lemma chunks_spec fuel n bs :
  (1 <= n)%nat -> (length bs <= fuel)%nat -> concat (chunks fuel n bs) = bs /\ Forall (fun c => (length c <= n)%nat) (chunks fuel n bs).
Proof.
  intros Hn. revert bs. induction fuel as [|fuel IH]; intros bs Hl; [by destruct bs; [split|cbn in Hl; lia]|].
  destruct bs as [|b bs]; [by split|]. cbn [chunks concat]. destruct (IH (skipn n (b :: bs))) as [Hc Hf].
  { rewrite length_skipn. cbn in *. lia. }
  rewrite Hc, firstn_skipn. split; [done|]. constructor; [|done]. rewrite length_firstn. lia.
Qed.

(** What a write becomes: all of it composes but the last, which has the intent. *)
Definition split_write (t : Z) (bs : bytes) (intent : TerminalInputIntent) (cmds : list Command) : Prop :=
  exists parts last, cmds = map (fun c => Write t c Compose) parts ++ [Write t last intent] /\ bs = concat parts ++ last
    /\ Forall (fun c => len c <= MAX_WRITE_CHUNK_BYTES) (parts ++ [last]).

Lemma chunk_writes_spec t intent cs :
  cs <> [] -> exists parts last, chunk_writes t intent cs = map (fun c => Write t c Compose) parts ++ [Write t last intent] /\ cs = parts ++ [last].
Proof.
  induction cs as [|c cs IH]; [done|]. intros _. destruct cs as [|c' cs]; [by exists [], c|].
  destruct IH as (parts & last & Heq & Hcs); [done|]. exists (c :: parts), last. split; [|cbn; by f_equal].
  change (chunk_writes t intent (c :: c' :: cs)) with (Write t c Compose :: chunk_writes t intent (c' :: cs)). by rewrite Heq.
Qed.

Lemma write_chunks t bs intent : split_write t bs intent (into_write_chunks (Write t bs intent)).
Proof.
  cbn [into_write_chunks]. unfold write_chunked. destruct (Z.leb_spec (len bs) MAX_WRITE_CHUNK_BYTES) as [Hle|Hgt].
  { exists [], bs. split; [done|]. split; [done|]. by repeat constructor. }
  assert (1 <= MAX_WRITE_CHUNK_BYTES) as Hpos by by vm_compute.
  assert (Z.of_nat (Z.to_nat MAX_WRITE_CHUNK_BYTES) = MAX_WRITE_CHUNK_BYTES) as Hn by (apply Z2Nat.id; lia).
  generalize dependent (Z.to_nat MAX_WRITE_CHUNK_BYTES). intros n Hn. assert (1 <= n)%nat as Hn1 by lia.
  destruct (chunks_spec (length bs) n bs Hn1 ltac:(done)) as [Hc Hf].
  destruct (chunk_writes_spec t intent (chunks (length bs) n bs)) as (parts & last & -> & Hcs).
  { intros He. rewrite He in Hc. cbn in Hc. subst bs. cbn in Hgt. lia. }
  exists parts, last. split; [done|]. rewrite Hcs in Hc, Hf. split; [by rewrite <- Hc, concat_app; cbn; rewrite app_nil_r|].
  eapply Forall_impl; [exact Hf|]. cbn. lia.
Qed.

(** The bytes a terminal is to be given. *)
Definition typed_by (t : Z) (c : Command) : bytes := match c with Write t' bs _ => if t' =? t then bs else [] | _ => [] end.
Definition typed (t : Z) (cmds : list Command) : bytes := flat_map (typed_by t) cmds.

Lemma typed_app t a b : typed t (a ++ b) = typed t a ++ typed t b.
Proof. apply flat_map_app. Qed.

Lemma typed_chunks t cmds : typed t (flat_map into_write_chunks cmds) = typed t cmds.
Proof.
  induction cmds as [|c cmds IH]; [done|]. cbn [flat_map]. rewrite typed_app, IH. change (typed t (c :: cmds)) with (typed_by t c ++ typed t cmds).
  f_equal. destruct c as [t' bs intent| |]; try (cbn; by rewrite ?app_nil_r).
  destruct (write_chunks t' bs intent) as (parts & last & -> & -> & _). rewrite typed_app. cbn [typed flat_map typed_by].
  rewrite app_nil_r. destruct (t' =? t) eqn:E.
  - f_equal. induction parts as [|p parts IHp]; [done|]. cbn. rewrite E. f_equal. apply IHp.
  - rewrite app_nil_r. induction parts as [|p parts IHp]; [done|]. cbn. rewrite E. apply IHp.
Qed.

Section Commands.
Context `{CodecLaws Command}.

(** What the encoding adds to the bytes of a write fits in the other half of a frame. *)
Context (envelope : forall t bs intent, 0 <= t <= u64_max -> len bs <= MAX_WRITE_CHUNK_BYTES ->
  exists enc, encode (Write t bs intent) = Some enc /\ len enc <= len bs + MAX_WRITE_CHUNK_BYTES).

(** The writer can frame it: a terminal has an id, another command is no larger than a frame. *)
Definition framable (c : Command) : bool :=
  match c with Write t _ _ => (0 <=? t) && (t <=? u64_max) | _ => sendable c end.

(** A write, or a command that the daemon's reader has room for. *)
Definition has_room (c : Command) : bool := match c with Write _ _ _ => true | _ => fits MAX_COMMAND_FRAME_BYTES c end.

Lemma write_fits t bs intent : 0 <= t <= u64_max -> len bs <= MAX_WRITE_CHUNK_BYTES -> fits MAX_COMMAND_FRAME_BYTES (Write t bs intent) = true.
Proof.
  intros Ht Hle. destruct (envelope t bs intent Ht Hle) as (enc & He & Hl). unfold fits, payload. rewrite He. cbn [mbind option_bind].
  assert (2 * MAX_WRITE_CHUNK_BYTES = MAX_COMMAND_FRAME_BYTES) as Hc by done.
  assert (MAX_COMMAND_FRAME_BYTES <= MAX_FRAME_BYTES) as Hm by by vm_compute.
  rewrite (proj2 (Z.leb_le _ MAX_FRAME_BYTES)) by lia. cbn. apply Z.leb_le. lia.
Qed.

Lemma fits_sendable {M} `{Codec M} max (m : M) : fits max m = true -> sendable m = true.
Proof. unfold fits, sendable. by destruct (payload m). Qed.

(** The parts of a write fit; what is no write is sent as it is. *)
Lemma chunks_framable c :
  framable c = true -> Forall (fun m => if has_room c then fits MAX_COMMAND_FRAME_BYTES m = true else m = c /\ sendable m = true) (into_write_chunks c).
Proof.
  destruct c as [t bs intent|rest|rest]; intros Hc; cbn [has_room];
    [|by cbn [into_write_chunks]; destruct (fits _ _) eqn:E; repeat constructor..].
  assert (0 <= t <= u64_max) as Ht by (apply andb_true_iff in Hc as [?%Z.leb_le ?%Z.leb_le]; lia).
  destruct (write_chunks t bs intent) as (parts & last & -> & _ & Hf). apply Forall_app in Hf as [Hp Hl]. apply Forall_app. split.
  - apply Forall_map. eapply List.Forall_impl; [|exact Hp]. intros p Hle. by apply write_fits.
  - constructor; [|constructor]. apply write_fits; [done|]. by inversion Hl.
Qed.

Lemma sent_sendable cmds : forallb framable cmds = true -> forallb sendable (flat_map into_write_chunks cmds) = true.
Proof.
  induction cmds as [|c cmds IH]; [done|]. cbn [forallb flat_map]. intros [Hc Hcs]%andb_true_iff. rewrite forallb_app, IH by done.
  rewrite andb_true_r. apply forallb_forall. intros m Hm. pose proof (chunks_framable c Hc) as Hf. rewrite Forall_forall in Hf.
  specialize (Hf m ltac:(by apply list_elem_of_In)). destruct (has_room c); [by eapply fits_sendable|by destruct Hf].
Qed.

(** What the reader skips is the commands it has no room for, whole. *)
Lemma read_of_sent cmds :
  forallb framable cmds = true ->
  List.filter (fits MAX_COMMAND_FRAME_BYTES) (flat_map into_write_chunks cmds) = flat_map into_write_chunks (List.filter has_room cmds).
Proof.
  induction cmds as [|c cmds IH]; [done|]. cbn [forallb flat_map List.filter]. intros [Hc Hcs]%andb_true_iff. rewrite List.filter_app, IH by done.
  pose proof (chunks_framable c Hc) as Hf. destruct (has_room c) eqn:E; cbn [flat_map].
  - f_equal. induction Hf as [|m l Hm Hl IHl]; [done|]. cbn. by rewrite Hm, IHl.
  - destruct c as [t bs intent| |]; [done|..]; cbn in E |- *; by rewrite E.
Qed.

Lemma typed_room t cmds : typed t (List.filter has_room cmds) = typed t cmds.
Proof.
  induction cmds as [|c cmds IH]; [done|]. cbn [List.filter]. unfold typed in *. destruct c as [t' bs intent| |]; cbn [has_room]; [cbn; by rewrite IH|..];
    destruct (fits _ _); cbn; by rewrite IH.
Qed.

Lemma all_have_room cmds : forallb has_room cmds = true -> List.filter has_room cmds = cmds.
Proof. induction cmds as [|c cmds IH]; [done|]. cbn. intros [-> Hc]%andb_true_iff. by rewrite IH. Qed.

(** C15: What a client writes reaches the daemon.  Where the writer keeps running and no
    write to the connection breaks off, every command can be framed, the encoding adds
    at most half a frame to the bytes of a write, and the daemon takes what its reader
    delivers: it reads, in order, every write the client sent and every other command
    that fits in the frames it reads from a client (256 KiB), and skips the larger ones,
    each alone.  A large write comes as parts that fit; they join up to the bytes, all
    but the last compose and the last has the intent, so that each terminal is typed the
    bytes it was to be. *)
Theorem commands_arrive_as_they_were_sent turns cmds takes :
  let sent := flat_map into_write_chunks cmds in
  forallb framable cmds = true -> Forall (fun t => breaks t = None) turns -> (length sent <= length turns)%nat -> (length sent <= takes)%nat ->
  let read := (run_reader takes MAX_COMMAND_FRAME_BYTES (mkSource (concat (writer_loop_bounded turns sent).1) None)).1 in
  read = flat_map into_write_chunks (List.filter has_room cmds)
  /\ (forallb has_room cmds = true -> read = sent)
  /\ (forall t, typed t read = typed t cmds)
  /\ forall t bs intent, split_write t bs intent (into_write_chunks (Write t bs intent)).
Proof.
  cbv zeta. intros Hc Ht Hl Htk. pose proof (read_of_sent cmds Hc) as Hread. pose proof (sent_sendable cmds Hc) as Hs.
  set (sent := flat_map into_write_chunks cmds) in *.
  pose proof (writer_spec turns sent) as Hw. pose proof (writer_finishes turns sent Hs Ht Hl) as Hfin.
  destruct (writer_loop_bounded turns sent) as [writes queued]. cbn [fst snd] in *. subst queued. destruct Hw as (_ & all & Hall & _ & ->).
  rewrite app_nil_r in Hall. subst all. rewrite <- (app_nil_r (wire_of sent)), run_reader_spec by (done || by left).
  rewrite firstn_all2 by (etrans; [apply List.filter_length_le|done]).
  rewrite Hread. split; [done|]. split; [by intros Hr; rewrite all_have_room|]. split; [|intros; apply write_chunks].
  intros t. by rewrite typed_chunks, typed_room.
Qed.

End Commands.

(** ** Concrete streams *)

(** ** A codec *)

Definition intent_byte (i : TerminalInputIntent) : ascii := match i with Compose => "c" | Submit => "s" | View => "v" end.
Definition intent_of (c : ascii) : option TerminalInputIntent :=
  if Ascii.eqb c "c" then Some Compose else if Ascii.eqb c "s" then Some Submit else if Ascii.eqb c "v" then Some View else None.

Definition encode_command (c : Command) : option bytes :=
  match c with
  | Write t bs i => if (0 <=? t) && (t <=? u64_max) then Some ("W"%char :: intent_byte i :: to_le_bytes 8 t ++ bs) else None
  | Subscribe => Some ["S"%char]
  | OtherCommand rest => Some ("O"%char :: rest)
  end.

Definition decode_command (bs : bytes) : option (Command * nat) :=
  match bs with
  | c :: rest =>
      if Ascii.eqb c "S" then Some (Subscribe, 1%nat)
      else if Ascii.eqb c "O" then Some (OtherCommand rest, length bs)
      else if Ascii.eqb c "W" then
        match rest with
        | i :: body => (fun i => (Write (from_le_bytes (firstn 8 body)) (skipn 8 body) i, length bs)) <$> intent_of i
        | [] => None
        end
      else None
  | [] => None
  end.

#[local] Instance command_codec : Codec Command := { encode := encode_command; decode := decode_command }.

#[local] Instance command_laws : CodecLaws Command.
Proof.
  intros [t bs i| |rest] enc He _; cbn [encode command_codec encode_command] in He.
  - destruct (Z.leb_spec 0 t) as [H0|]; [|done]. destruct (Z.leb_spec t u64_max) as [H1|]; [|done]. cbn [andb] in He. apply (inj Some) in He as <-.
    assert (t = from_le_bytes (firstn 8 (to_le_bytes 8 t ++ bs))) as Ht.
    { rewrite take_app_length' by (by rewrite le_bytes_length). symmetry. apply le_bytes_value. assert (u64_max < 256 ^ Z.of_nat 8) by done. lia. }
    assert (skipn 8 (to_le_bytes 8 t ++ bs) = bs) as Hb by (rewrite drop_app_length' by (by rewrite le_bytes_length); done).
    unfold decode, command_codec, decode_command. destruct i; cbn -[to_le_bytes firstn skipn from_le_bytes]; by rewrite <- Ht, Hb.
  - by injection He as <-.
  - by injection He as <-.
Qed.

Lemma command_envelope t bs i : 0 <= t <= u64_max -> len bs <= MAX_WRITE_CHUNK_BYTES ->
  exists enc, encode (Write t bs i) = Some enc /\ len enc <= len bs + MAX_WRITE_CHUNK_BYTES.
Proof.
  intros Ht Hb. eexists. cbn [encode command_codec encode_command]. rewrite (proj2 (Z.leb_le 0 t)), (proj2 (Z.leb_le t u64_max)) by lia.
  split; [reflexivity|]. assert (10 <= MAX_WRITE_CHUNK_BYTES) by by vm_compute. rewrite !length_cons, length_app, le_bytes_length. lia.
Qed.

(** ** A connection that breaks off *)

Definition greetings : list Command := [Subscribe; Write 1 ["h"; "i"]%char Submit; OtherCommand ["a"; "b"; "c"]%char; Subscribe].

(** Two messages in the first write; the second write breaks off in the third. *)
Definition broken_turns : list WriterTurn := [mkTurn 1 None; mkTurn 3 (Some 6%nat)].

Example a_broken_write : snd (writer_loop_bounded broken_turns greetings) = None.
Proof. reflexivity. Qed.

Example what_a_broken_connection_delivers :
  run_reader 10 100 (mkSource (concat (fst (writer_loop_bounded broken_turns greetings))) (Some ConnectionReset))
  = (firstn 2 greetings, Failed (Io ConnectionReset)).
Proof. vm_compute. reflexivity. Qed.

(** A channel of ten bytes has no room for the write, and goes on behind it. *)
Example an_oversized_message_is_skipped :
  run_reader 10 10 (mkSource (concat (fst (writer_loop_bounded [mkTurn 3 None] greetings))) None)
  = ([Subscribe; OtherCommand ["a"; "b"; "c"]%char; Subscribe], Closed).
Proof. vm_compute. reflexivity. Qed.

Lemma what_is_read_was_written_witness :
  exists j, (run_reader 10 10 (mkSource (concat (fst (writer_loop_bounded [mkTurn 3 None] greetings))) None)).1
            = firstn 10 (List.filter (fits 10) (firstn j greetings)) /\ greetings = firstn j greetings ++ [].
Proof.
  pose proof (what_is_read_was_written [mkTurn 3 None] greetings 10 10 None) as Hth.
  destruct (writer_loop_bounded [mkTurn 3 None] greetings) as [writes queued] eqn:Ew.
  assert (queued = Some []) as Hq by (vm_compute in Ew; by injection Ew as _ <-). destruct Hth as (j & Hr & Hrest & _).
  exists j. split; [exact Hr|by apply Hrest].
Defined.

(** ** Commands that arrive *)

(** Among what is typed a command of a frame and a half. *)
Definition too_long : Command := OtherCommand (repeat "x"%char (Z.to_nat (MAX_COMMAND_FRAME_BYTES + MAX_WRITE_CHUNK_BYTES))).
Definition typed_commands : list Command :=
  [Subscribe; Write 1 ["h"]%char Compose; too_long; Write 1 ["i"]%char Submit; Write 2 ["x"]%char View].

(** A command between the two bounds is framed, and skipped. *)
Lemma skipped_command rest :
  MAX_COMMAND_FRAME_BYTES < len rest < MAX_FRAME_BYTES ->
  framable (OtherCommand rest) = true /\ has_room (OtherCommand rest) = false.
Proof.
  intros [Hlo Hhi]. cbn [framable has_room]. unfold sendable, fits, payload. cbn [encode command_codec encode_command mbind option_bind].
  rewrite (proj2 (Z.leb_le _ MAX_FRAME_BYTES)) by (cbn [length]; lia). cbn [is_some_and]. split; [done|].
  apply Z.leb_gt. cbn [length]. lia.
Qed.

Lemma too_long_skipped : framable too_long = true /\ has_room too_long = false.
Proof.
  apply skipped_command. rewrite repeat_length, Z2Nat.id by by vm_compute. by split; vm_compute.
Qed.

Lemma commands_arrive_as_they_were_sent_witness :
  (run_reader 9 MAX_COMMAND_FRAME_BYTES (mkSource (concat (writer_loop_bounded (repeat (mkTurn 2 None) 5) typed_commands).1) None)).1
  = [Subscribe; Write 1 ["h"]%char Compose; Write 1 ["i"]%char Submit; Write 2 ["x"]%char View].
Proof.
  destruct too_long_skipped as [Hf Hr].
  assert (flat_map into_write_chunks typed_commands = typed_commands) as E by reflexivity.
  assert (forallb framable typed_commands = true) as Hfs by (unfold typed_commands; cbn [forallb]; rewrite Hf; reflexivity).
  pose proof (commands_arrive_as_they_were_sent command_envelope (repeat (mkTurn 2 None) 5) typed_commands 9 Hfs) as H.
  cbv zeta in H. rewrite E in H.
  specialize (H ltac:(by repeat constructor) ltac:(cbn; lia) ltac:(cbn; lia)).
  apply proj1 in H. rewrite H. unfold typed_commands. cbn [List.filter]. rewrite Hr. reflexivity.
Defined.

(** ** The meter *)

(** Five in a window are reported when the next one opens. *)
Example a_storm_is_reported_once :
  (fold_left (fun '(out, w) now => let '(o, w) := record now w in (out ++ [o], w)) [0; secs 1; secs 2; secs 3; secs 4; secs 61; secs 62] ([], mkWindow 0 None)).1
  = [None; None; None; None; None; Some 5; None].
Proof. reflexivity. Qed.
