(* ===== verification/Handshake.v ===== *)
(** * The handshake

    What the two ends of a connection exchange before any frame
    ([src/crates/ipc/src/socket.rs]).  An end is a process that sends bytes, receives a number
    of them, or is done; two ends run in any order over the two directions of a connection.
    The wire fingerprint and the build version come from the build; a build version is kept as
    the bytes received. *)

From Stdlib Require Import Ascii.
From S2P Require Import Prelude EventForward Wire WireProps.

#[local] Open Scope Z_scope.

#[local] Notation bytes := (list ascii).
#[local] Notation len l := (Z.of_nat (length l)).

Definition PROTOCOL_MAGIC : bytes := ["L"; "Z"; "B"; "X"]%char.
Definition MAX_BUILD_BYTES : Z := 256.

Inductive HandshakeError :=
  | HandshakeIo (kind : ErrorKind)
  | BadMagic (magic : bytes)
  | FingerprintMismatch (peer ours : Z).

Record PeerInfo := mkPeer { build : bytes }.

Definition HandshakeResult : Type := HandshakeError + PeerInfo.

(** An end: [None] after a send is success. *)
Inductive Proto :=
  | Send (bs : bytes) (k : option ErrorKind -> Proto)
  | Recv (n : nat) (k : ErrorKind + bytes -> Proto)
  | Done (r : HandshakeResult).

Definition send_or_fail (bs : bytes) (k : Proto) : Proto :=
  Send bs (fun failed => match failed with Some e => Done (inl (HandshakeIo e)) | None => k end).
Definition recv_or_fail (n : nat) (k : bytes -> Proto) : Proto :=
  Recv n (fun got => match got with inl e => Done (inl (HandshakeIo e)) | inr bs => k bs end).

Definition write_preamble (ours : Z) (k : Proto) : Proto := send_or_fail (PROTOCOL_MAGIC ++ to_le_bytes 4 ours) k.

Definition write_build (version : bytes) (k : Proto) : Proto :=
  let n := Z.min (len version) MAX_BUILD_BYTES in
  send_or_fail (to_le_bytes 2 n) (send_or_fail (firstn (Z.to_nat n) version) k).

Definition read_build : Proto :=
  recv_or_fail 2 (fun len_buf =>
    let n := from_le_bytes len_buf in
    if MAX_BUILD_BYTES <? n then Done (inl (HandshakeIo OtherKind))
    else recv_or_fail (Z.to_nat n) (fun buf => Done (inr (mkPeer buf)))).

(** The preamble, once it is read. *)
Definition check_preamble (k : Z -> Proto) (preamble : bytes) : Proto :=
  let magic := firstn 4 preamble in
  if bool_decide (magic = PROTOCOL_MAGIC) then k (from_le_bytes (skipn 4 preamble)) else Done (inl (BadMagic magic)).

Definition read_preamble (k : Z -> Proto) : Proto := recv_or_fail 8 (check_preamble k).

Definition client_handshake (ours : Z) (version : bytes) : Proto :=
  write_preamble ours (read_preamble (fun peer =>
    if peer =? ours then write_build version read_build else Done (inl (FingerprintMismatch peer ours)))).

Definition server_handshake (ours : Z) (version : bytes) : Proto :=
  read_preamble (fun peer =>
    write_preamble ours (if peer =? ours then write_build version read_build else Done (inl (FingerprintMismatch peer ours)))).

(** ** Two ends *)

(** An end and what it has not read yet. *)
Record End_ := mkEnd { proc : Proto; inbox : bytes }.

Definition is_done (p : Proto) : bool := match p with Done _ => true | _ => false end.

(** A move of one end: what it becomes and what the other is sent.  It waits for the bytes it
    asks for unless the other is [over]. *)
Definition move (over : bool) (e : End_) : option (End_ * bytes) :=
  match proc e with
  | Send bs k => Some (mkEnd (k None) (inbox e), bs)
  | Recv n k =>
      if (n <=? length (inbox e))%nat then Some (mkEnd (k (inr (firstn n (inbox e)))) (skipn n (inbox e)), [])
      else if over then Some (mkEnd (k (inl UnexpectedEof)) [], [])
      else None
  | Done _ => None
  end.

Definition deliver_bytes (e : End_) (bs : bytes) : End_ := mkEnd (proc e) (inbox e ++ bs).

(** The end that moves is chosen freely. *)
Inductive step : End_ * End_ -> End_ * End_ -> Prop :=
  | step_client c s c' out : move (is_done (proc s)) c = Some (c', out) -> step (c, s) (c', deliver_bytes s out)
  | step_server c s s' out : move (is_done (proc c)) s = Some (s', out) -> step (c, s) (deliver_bytes c out, s').

Inductive steps : nat -> End_ * End_ -> End_ * End_ -> Prop :=
  | steps_0 x : steps 0 x x
  | steps_S n x y z : step x y -> steps n y z -> steps (S n) x z.

Definition stuck (x : End_ * End_) : Prop := forall y, ~ step x y.

(** ** Whatever the order *)

Lemma move_anyway e e' out over extra :
  move false e = Some (e', out) -> move over (deliver_bytes e extra) = Some (deliver_bytes e' extra, out).
Proof.
  intros Hm. destruct e as [p i]. unfold move, deliver_bytes in *. cbn [proc inbox] in *. destruct p as [bs k|n k|r]; [by injection Hm as <- <-| |done].
  destruct (Nat.leb_spec n (length i)) as [Hle|Hgt]; [|done]. injection Hm as <- <-.
  rewrite length_app, (proj2 (Nat.leb_le _ _)) by lia. cbn.
  rewrite firstn_app, skipn_app, (proj2 (Nat.sub_0_le _ _) Hle), firstn_O, app_nil_r. by rewrite skipn_O.
Qed.

Lemma mover_not_done over e e' out : move over e = Some (e', out) -> is_done (proc e) = false.
Proof. unfold move. by destruct (proc e). Qed.

(** Two moves of the two ends can be made in either order. *)
Lemma diamond x y z : step x y -> step x z -> y = z \/ exists w, step y w /\ step z w.
Proof.
  intros Hy Hz. destruct Hy as [c s c' out Hc|c s s' out Hs]; inversion Hz as [? ? c'' out' Hc'|? ? s'' out' Hs']; subst.
  - left. congruence.
  - right. rewrite (mover_not_done _ _ _ _ Hs') in Hc. rewrite (mover_not_done _ _ _ _ Hc) in Hs'.
    exists (deliver_bytes c' out', deliver_bytes s'' out). split; [apply step_server|apply step_client]; by apply move_anyway.
  - right. rewrite (mover_not_done _ _ _ _ Hs) in Hc'. rewrite (mover_not_done _ _ _ _ Hc') in Hs.
    exists (deliver_bytes c'' out, deliver_bytes s' out'). split; [apply step_client|apply step_server]; by apply move_anyway.
  - left. congruence.
Qed.

(** So every run goes on to the same end in the same number of moves. *)
Lemma same_end n x y z : steps n x z -> stuck z -> step x y -> exists m, n = S m /\ steps m y z.
Proof.
  intros Hn. revert y. induction Hn as [x|n x x1 z Hx Hn IH]; intros y Hs Hy; [by apply Hs in Hy|]. exists n. split; [done|].
  destruct (diamond _ _ _ Hx Hy) as [->|(w & Hw1 & Hw2)]; [done|].
  destruct (IH w Hs Hw1) as (m & -> & Hm). by econstructor.
Qed.

Lemma every_run n m x y z : steps n x z -> stuck z -> steps m x y -> (m <= n)%nat /\ steps (n - m) y z.
Proof.
  intros Hn Hs Hm. revert n Hn. induction Hm as [x|m x x1 y Hx Hm IH]; intros n Hn; [split; [lia|by rewrite Nat.sub_0_r]|].
  destruct (same_end _ _ _ _ Hn Hs Hx) as (k & -> & Hk). destruct (IH k Hk) as [Hle Hr]. split; [lia|done].
Qed.

(** ** The handshake *)

Lemma preamble_length ours : length (PROTOCOL_MAGIC ++ to_le_bytes 4 ours) = 8%nat.
Proof. rewrite length_app, le_bytes_length. done. Qed.

Definition sent_build (version : bytes) : bytes := firstn (Z.to_nat (Z.min (len version) MAX_BUILD_BYTES)) version.

Lemma done_stuck r r' i i' : stuck (mkEnd (Done r) i, mkEnd (Done r') i').
Proof. intros y Hy. inversion Hy as [? ? ? ? Hm|? ? ? ? Hm]; by cbn in Hm. Qed.

Lemma client_sends k bs i p j n z : steps n (mkEnd k i, mkEnd p (j ++ bs)) z -> steps (S n) (mkEnd (send_or_fail bs k) i, mkEnd p j) z.
Proof. intros Hn. by eapply steps_S; [apply step_client|exact Hn]. Qed.

Lemma server_sends k bs i p j n z : steps n (mkEnd p (j ++ bs), mkEnd k i) z -> steps (S n) (mkEnd p j, mkEnd (send_or_fail bs k) i) z.
Proof. intros Hn. by eapply steps_S; [apply step_server|exact Hn]. Qed.

Lemma receives m bs k rest over : length bs = m -> move over (mkEnd (recv_or_fail m k) (bs ++ rest)) = Some (mkEnd (k bs) rest, []).
Proof.
  intros <-. unfold move. cbn [proc recv_or_fail inbox]. rewrite length_app, (proj2 (Nat.leb_le _ _)) by lia. by rewrite take_app_length, drop_app_length.
Qed.

Lemma client_receives m k bs rest i s n z : length bs = m -> i = bs ++ rest ->
  steps n (mkEnd (k bs) rest, s) z -> steps (S n) (mkEnd (recv_or_fail m k) i, s) z.
Proof.
  intros Hl -> Hn. eapply steps_S; [apply step_client; by apply receives|]. destruct s as [p j]. unfold deliver_bytes. cbn. by rewrite app_nil_r.
Qed.

Lemma server_receives m k bs rest i c n z : length bs = m -> i = bs ++ rest ->
  steps n (c, mkEnd (k bs) rest) z -> steps (S n) (c, mkEnd (recv_or_fail m k) i) z.
Proof.
  intros Hl -> Hn. eapply steps_S; [apply step_server; by apply receives|]. destruct c as [p j]. unfold deliver_bytes. cbn. by rewrite app_nil_r.
Qed.

Lemma preamble_read ours k : 0 <= ours <= u32_max ->
  check_preamble k (PROTOCOL_MAGIC ++ to_le_bytes 4 ours) = k ours.
Proof.
  intros Ho. unfold check_preamble. cbn [firstn PROTOCOL_MAGIC app]. rewrite bool_decide_eq_true_2 by done. cbn [skipn]. rewrite skipn_O, le_bytes_value; [done|].
  assert (u32_max < 256 ^ Z.of_nat 4) by done. lia.
Qed.

Lemma sent_build_length version : len (sent_build version) = Z.min (len version) MAX_BUILD_BYTES.
Proof. unfold sent_build. rewrite length_firstn. assert (0 <= MAX_BUILD_BYTES) by done. lia. Qed.

Lemma build_read version : (MAX_BUILD_BYTES <? from_le_bytes (to_le_bytes 2 (len (sent_build version)))) = false
  /\ Z.to_nat (from_le_bytes (to_le_bytes 2 (len (sent_build version)))) = length (sent_build version).
Proof.
  pose proof (sent_build_length version) as Hl. assert (MAX_BUILD_BYTES < 256 ^ Z.of_nat 2) by done. rewrite le_bytes_value by lia.
  split; [apply Z.ltb_ge; lia|lia].
Qed.

(** Where the ends come to. *)
Definition client_result (ours theirs : Z) (their_build : bytes) : HandshakeResult :=
  if theirs =? ours then inr (mkPeer (sent_build their_build)) else inl (FingerprintMismatch theirs ours).

Definition agreed (fc fs : Z) (bc bs : bytes) (x : End_ * End_) : Prop :=
  proc x.1 = Done (client_result fc fs bs) /\ proc x.2 = Done (client_result fs fc bc).

Definition number_of (version : bytes) : bytes := to_le_bytes 2 (Z.min (len version) MAX_BUILD_BYTES).

Lemma build_written version k : write_build version k = send_or_fail (number_of version) (send_or_fail (sent_build version) k).
Proof. done. Qed.

(** The number and the build that an end reads. *)
Lemma client_reads_build theirs s n z :
  steps n (mkEnd (Done (inr (mkPeer (sent_build theirs)))) [], s) z ->
  steps (S (S n)) (mkEnd read_build (number_of theirs ++ sent_build theirs), s) z.
Proof.
  intros Hn. destruct (build_read theirs) as [H1 H2]. rewrite (sent_build_length theirs) in H1, H2.
  eapply client_receives; [|done|]; [apply le_bytes_length|]. unfold number_of. rewrite H1, H2.
  eapply (client_receives _ _ (sent_build theirs) []); [done|by rewrite app_nil_r|]. exact Hn.
Qed.

Lemma server_reads_build theirs c n z :
  steps n (c, mkEnd (Done (inr (mkPeer (sent_build theirs)))) []) z ->
  steps (S (S n)) (c, mkEnd read_build (number_of theirs ++ sent_build theirs)) z.
Proof.
  intros Hn. destruct (build_read theirs) as [H1 H2]. rewrite (sent_build_length theirs) in H1, H2.
  eapply server_receives; [|done|]; [apply le_bytes_length|]. unfold number_of. rewrite H1, H2.
  eapply (server_receives _ _ (sent_build theirs) []); [done|by rewrite app_nil_r|]. exact Hn.
Qed.

Lemma one_run fc fs bc bs :
  0 <= fc <= u32_max -> 0 <= fs <= u32_max ->
  exists n x, (n <= 12)%nat /\ steps n (mkEnd (client_handshake fc bc) [], mkEnd (server_handshake fs bs) []) x /\ stuck x /\ agreed fc fs bc bs x.
Proof.
  intros Hc Hs. unfold agreed, client_result.
  assert (forall n x p q, steps n (mkEnd (if fs =? fc then write_build bc read_build else Done (inl (FingerprintMismatch fs fc))) p,
                                   mkEnd (if fc =? fs then write_build bs read_build else Done (inl (FingerprintMismatch fc fs))) q) x ->
    p = [] -> q = [] ->
    steps (4 + n) (mkEnd (client_handshake fc bc) [], mkEnd (server_handshake fs bs) []) x) as Hstart.
  { intros n x p q Hn -> ->. apply client_sends. eapply (server_receives 8 _ (PROTOCOL_MAGIC ++ to_le_bytes 4 fc) []); [apply preamble_length|done|].
    rewrite preamble_read by done. apply server_sends. eapply (client_receives 8 _ (PROTOCOL_MAGIC ++ to_le_bytes 4 fs) []); [apply preamble_length|done|].
    by rewrite preamble_read. }
  destruct (Z.eqb_spec fs fc) as [->|Hne]; [rewrite Z.eqb_refl in *|rewrite (proj2 (Z.eqb_neq fc fs)) in * by congruence].
  - eexists 12%nat, _. split; [lia|]. split; [|split].
    + eapply (Hstart 8%nat); [|done|done]. rewrite !build_written. do 2 apply client_sends. do 2 apply server_sends. cbn [app].
      apply client_reads_build, server_reads_build. apply steps_0.
    + apply done_stuck.
    + done.
  - eexists 4%nat, _. split; [lia|]. split; [|split]; [eapply (Hstart 0%nat); [apply steps_0|done|done]|apply done_stuck|done].
Qed.

(** C28: Whatever the order in which the two ends of a connection move, the handshake ends, in
    at most twelve moves, and they agree: with the same fingerprint both learn the build of
    the other, as far as it is sent; with different ones both refuse, each with both
    fingerprints.  A daemon that is sent anything else refuses it and says nothing. *)
Theorem a_handshake_ends_in_agreement fc fs bc bs :
  0 <= fc <= u32_max -> 0 <= fs <= u32_max ->
  (forall m y, steps m (mkEnd (client_handshake fc bc) [], mkEnd (server_handshake fs bs) []) y ->
     (m <= 12)%nat /\ (stuck y -> agreed fc fs bc bs y) /\ exists k x, (m + k <= 12)%nat /\ steps k y x /\ stuck x)
  /\ forall over preamble rest, length preamble = 8%nat -> firstn 4 preamble <> PROTOCOL_MAGIC ->
       move over (mkEnd (server_handshake fs bs) (preamble ++ rest)) = Some (mkEnd (Done (inl (BadMagic (firstn 4 preamble)))) rest, []).
Proof.
  intros Hc Hs. split.
  - intros m y Hm. destruct (one_run fc fs bc bs Hc Hs) as (n & x & Hn & Hx & Hst & Ha). destruct (every_run _ _ _ _ _ Hx Hst Hm) as [Hle Hrest].
    split; [lia|]. split; [|exists (n - m)%nat, x; split; [lia|done]]. intros Hsty.
    destruct (n - m)%nat; inversion Hrest as [|? ? ? ? Hstep]; subst; [done|]. by apply Hsty in Hstep.
  - intros over preamble rest Hl Hm. unfold server_handshake, read_preamble. rewrite (receives 8) by done. unfold check_preamble. by rewrite bool_decide_eq_false_2.
Qed.

Lemma a_handshake_ends_in_agreement_witness :
  agreed 7 7 ["1"%char] ["2"%char]
    (mkEnd (Done (inr (mkPeer ["2"%char]))) [], mkEnd (Done (inr (mkPeer ["1"%char]))) [])
  /\ move false (mkEnd (server_handshake 7 []) ["G"; "E"; "T"; " "; "/"; " "; "H"; "T"]%char)
     = Some (mkEnd (Done (inl (BadMagic ["G"; "E"; "T"; " "]%char))) [], []).
Proof.
  destruct (a_handshake_ends_in_agreement 7 7 ["1"%char] ["2"%char]) as [H1 _]; [by split|by split|].
  destruct (a_handshake_ends_in_agreement 7 7 [] []) as [_ H2]; [by split|by split|]. split.
  - destruct (H1 12%nat (mkEnd (Done (inr (mkPeer ["2"%char]))) [], mkEnd (Done (inr (mkPeer ["1"%char]))) [])) as (_ & Ha & _); [|apply Ha, done_stuck].
    do 3 (eapply steps_S; [first [eapply step_server; reflexivity|eapply step_client; reflexivity]|]).
    do 9 (eapply steps_S; [first [eapply step_client; reflexivity|eapply step_server; reflexivity]|]). cbn. apply steps_0.
  - apply (H2 false ["G"; "E"; "T"; " "; "/"; " "; "H"; "T"]%char []); [reflexivity|by vm_compute].
Defined.
