(* ===== verification/Reconnect.v ===== *)
(** * A session that reconnects

    The client end of a remote connection ([src/crates/ipc/src/socket.rs]): the supervisor
    that redials, the queue of commands through the task that splits large writes, and what
    each connection is sent.

    One step is one thing that happens to the session; instants are nanoseconds.  What
    dialing and the handshake come to is an argument, as is whether a frame is written. *)

From Stdlib Require Import Ascii.
From S2P Require Import Prelude EventForward Wire.

#[local] Open Scope Z_scope.

#[local] Notation bytes := (list ascii).
#[local] Notation len l := (Z.of_nat (length l)).

Definition RECONNECT_BACKOFF_START : Z := 250 * 1000 * 1000.
Definition RECONNECT_BACKOFF_MAX : Z := secs 5.
Definition STABLE_CONNECTION : Z := secs 5.

Definition grow_backoff (current : Z) : Z := Z.min (current * 2) RECONNECT_BACKOFF_MAX.

Definition next_backoff_after_drop (current served : Z) : Z :=
  if STABLE_CONNECTION <=? served then RECONNECT_BACKOFF_START else grow_backoff current.

(** What [redial()] and the handshake behind it come to. *)
Inductive HandshakeOutcome := HandshakeOk (peer_build : bytes) | HandshakeRefused (message : bytes) | HandshakeBroke | HandshakeTimedOut.
Inductive DialOutcome := DialRetryable | DialTerminal (message : bytes) | Dialed (outcome : HandshakeOutcome).

Inductive ReconnectError := Retryable | Fatal (message : bytes).

Definition try_reconnect (o : DialOutcome) : ReconnectError + bytes :=
  match o with
  | DialRetryable => inl Retryable
  | DialTerminal message => inl (Fatal message)
  | Dialed (HandshakeOk peer_build) => inr peer_build
  | Dialed (HandshakeRefused message) => inl (Fatal message)
  | Dialed HandshakeBroke | Dialed HandshakeTimedOut => inl Retryable
  end.

Inductive ConnectionStatus := Connected | Reconnecting | GaveUp (message : bytes).

(** Where the supervisor is: bridging a connection since some time, in [backoff_wait] until
    another, dialing, or gone. *)
Inductive Phase := Serving (served_at : Z) | Waiting (until : Z) | Dialing | Gone.

(** What the caller has queued, what the splitting task holds, what the supervisor reads;
    [taken]: the commands the caller got in, the first first; [sent]: what each connection
    was sent, the latest connection first, the latest command last. *)
Record Session := mkSession {
  cmd_queue : list Command;
  splitting : list Command;
  wire_queue : list Command;
  phase : Phase;
  inject_subscribe : bool;
  backoff : Z;
  daemon_build : bytes;
  status : ConnectionStatus;
  taken : list Command;
  sent : list (list Command);
}.

Definition eta_session (s : Session) : Session :=
  mkSession (cmd_queue s) (splitting s) (wire_queue s) (phase s) (inject_subscribe s) (backoff s) (daemon_build s) (status s) (taken s) (sent s).

Definition set_cmds v s : Session := ltac:(upd eta_session cmd_queue v s).
Definition set_splitting v s : Session := ltac:(upd eta_session splitting v s).
Definition set_wire v s : Session := ltac:(upd eta_session wire_queue v s).
Definition set_phase v s : Session := ltac:(upd eta_session phase v s).
Definition set_inject v s : Session := ltac:(upd eta_session inject_subscribe v s).
Definition set_session_backoff v s : Session := ltac:(upd eta_session backoff v s).
Definition set_build v s : Session := ltac:(upd eta_session daemon_build v s).
Definition set_status v s : Session := ltac:(upd eta_session status v s).
Definition set_taken v s : Session := ltac:(upd eta_session taken v s).
Definition set_sent v s : Session := ltac:(upd eta_session sent v s).

(** [connect_reconnecting_with], where the first connection and its handshake succeed. *)
Definition connect_session (now : Z) (peer_build : bytes) : Session :=
  mkSession [] [] [] (Serving now) false RECONNECT_BACKOFF_START peer_build Connected [] [[]].

(** [cmd_tx.try_send]. *)
Definition send_cmd (c : Command) (s : Session) : Session :=
  if len (cmd_queue s) <? COMMAND_CAPACITY then set_taken (taken s ++ [c]) (set_cmds (cmd_queue s ++ [c]) s) else s.

(** A turn of [chunk_commands_loop]: the next command is split, or a part goes on. *)
Definition chunk_commands (s : Session) : Session :=
  match splitting s with
  | [] => match cmd_queue s with c :: rest => set_splitting (into_write_chunks c) (set_cmds rest s) | [] => s end
  | part :: parts => if len (wire_queue s) <? COMMAND_CAPACITY then set_splitting parts (set_wire (wire_queue s ++ [part]) s) else s
  end.

Definition write_to_connection (c : Command) (s : Session) : Session :=
  set_sent (match sent s with now :: before => (now ++ [c]) :: before | [] => [[c]] end) s.

(** [ConnectionEnd::Dropped] in [reconnect_supervisor], up to [backoff_wait]. *)
Definition connection_dropped (now : Z) (s : Session) : Session :=
  match phase s with
  | Serving served_at =>
      let b := next_backoff_after_drop (backoff s) (sat_sub now served_at) in
      set_phase (Waiting (now + b)) (set_status Reconnecting (set_session_backoff b (set_inject true s)))
  | _ => s
  end.

(** The loop of [serve_one_connection]: a command is framed, unless its write fails. *)
Definition serve_command (written : bool) (now : Z) (s : Session) : Session :=
  match phase s, wire_queue s with
  | Serving _, c :: rest =>
      let s := set_wire rest s in
      if written then write_to_connection c s else connection_dropped now s
  | _, _ => s
  end.

(** Its start: the backlog is discarded and a snapshot asked for. *)
Definition start_serving (subscribed : bool) (now : Z) (s : Session) : Session :=
  let s := set_sent ([] :: sent s) (set_phase (Serving now) s) in
  if inject_subscribe s then
    let s := set_wire [] s in
    if subscribed then write_to_connection Subscribe s else connection_dropped now s
  else s.

(** [backoff_wait] discards what it reads. *)
Definition discard_command (s : Session) : Session :=
  match phase s, wire_queue s with Waiting _, _ :: rest => set_wire rest s | _, _ => s end.

Definition backoff_over (now : Z) (s : Session) : Session :=
  match phase s with Waiting until => if until <=? now then set_phase Dialing s else s | _ => s end.

(** [reconnect_with_backoff] once [try_reconnect] is back, and what the supervisor makes of it. *)
Definition dial_over (o : DialOutcome) (subscribed : bool) (now : Z) (s : Session) : Session :=
  match phase s with
  | Dialing =>
      match try_reconnect o with
      | inr peer_build => start_serving subscribed now (set_status Connected (set_build peer_build s))
      | inl (Fatal message) => set_phase Gone (set_status (GaveUp message) s)
      | inl Retryable =>
          let b := grow_backoff (backoff s) in set_phase (Waiting (now + b)) (set_session_backoff b s)
      end
  | _ => s
  end.

(** The caller dropped its client. *)
Definition caller_gone (s : Session) : Session :=
  match phase s with Dialing => s | _ => set_phase Gone s end.

Inductive SessionOp :=
  | Emit (c : Command)
  | Chunk
  | ServeCommand (written : bool) (now : Z)
  | PeerHungUp (now : Z)
  | DiscardCommand
  | BackoffOver (now : Z)
  | DialOver (o : DialOutcome) (subscribed : bool) (now : Z)
  | CallerGone.

Definition session_op (s : Session) (o : SessionOp) : Session :=
  match o with
  | Emit c => send_cmd c s
  | Chunk => chunk_commands s
  | ServeCommand written now => serve_command written now s
  | PeerHungUp now => connection_dropped now s
  | DiscardCommand => discard_command s
  | BackoffOver now => backoff_over now s
  | DialOver o subscribed now => dial_over o subscribed now s
  | CallerGone => caller_gone s
  end.

Definition run_session (ops : list SessionOp) (s : Session) : Session := fold_left session_op ops s.
