(* ===== verification/ReconnectProps.v ===== *)
(** * A session that reconnects: what it keeps

    The status a caller sees is where the supervisor is, the waits between dials are bounded,
    every connection but the first opens with a request for a snapshot, and what the caller
    sends is never repeated or reordered. *)

From Stdlib Require Import Ascii.
From S2P Require Import Prelude EventForward Wire Reconnect.

#[local] Open Scope Z_scope.

#[local] Notation len l := (Z.of_nat (length l)).

(** ** The invariant *)

Definition damped (b : Z) : Prop := RECONNECT_BACKOFF_START <= b <= RECONNECT_BACKOFF_MAX.

(** The connections behind the latest: all but the first open with the request. *)
Fixpoint opened (conns : list (list Command)) : Prop :=
  match conns with
  | [] => True
  | conn :: before => (before = [] \/ conn = [] \/ head conn = Some Subscribe) /\ opened before
  end.

Definition serving_ok (s : Session) : Prop :=
  if inject_subscribe s then (2 <= length (sent s))%nat /\ exists conn before, sent s = conn :: before /\ head conn = Some Subscribe
  else length (sent s) = 1%nat.

(** The waits so far, by the instants at which they began. *)
Definition session_ok (times : list Z) (s : Session) : Prop :=
  damped (backoff s) /\ opened (sent s) /\ (1 <= length (sent s))%nat
  /\ match phase s with
     | Serving _ => status s = Connected /\ serving_ok s
     | Waiting until => status s = Reconnecting /\ inject_subscribe s = true
         /\ exists now, now ∈ times /\ now + RECONNECT_BACKOFF_START <= until <= now + RECONNECT_BACKOFF_MAX
     | Dialing => status s = Reconnecting /\ inject_subscribe s = true
     | Gone => True
     end.

Definition time_of (o : SessionOp) : list Z :=
  match o with ServeCommand _ now | PeerHungUp now | BackoffOver now | DialOver _ _ now => [now] | _ => [] end.

Lemma damped_grow b : damped b -> damped (grow_backoff b).
Proof. unfold damped, grow_backoff, RECONNECT_BACKOFF_START, RECONNECT_BACKOFF_MAX, secs, nanos_per_sec. lia. Qed.

Lemma damped_next b served : damped b -> damped (next_backoff_after_drop b served).
Proof. intros Hb. unfold next_backoff_after_drop. destruct (_ <=? _); [by split|by apply damped_grow]. Qed.

Lemma session_more times times' s : (forall x, x ∈ times -> x ∈ times') -> session_ok times s -> session_ok times' s.
Proof.
  intros Ht (Hb & Ho & Hl & Hp). split; [done|]. split; [done|]. split; [done|]. destruct (phase s); try done.
  destruct Hp as (Hs & Hi & now & Hn & Hu). split; [done|]. split; [done|]. exists now. auto.
Qed.

(** A session whose queues alone differ. *)
Lemma session_queues times s s' :
  (phase s', inject_subscribe s', backoff s', status s', sent s') = (phase s, inject_subscribe s, backoff s, status s, sent s) ->
  session_ok times s -> session_ok times s'.
Proof. intros [= H1 H2 H3 H4 H5]. unfold session_ok, serving_ok. by rewrite H1, H2, H3, H4, H5. Qed.

Lemma gone_ok times s' : damped (backoff s') -> opened (sent s') -> (1 <= length (sent s'))%nat -> session_ok times (set_phase Gone s').
Proof. done. Qed.

Lemma dropped_ok times now s : now ∈ times -> session_ok times s -> session_ok times (connection_dropped now s).
Proof.
  intros Hn (Hb & Ho & Hl & Hp). unfold connection_dropped. destruct (phase s) as [at_| | |] eqn:E; try (split; [done|]; split; [done|]; split; [done|]; by rewrite E).
  pose proof (damped_next (backoff s) (sat_sub now at_) Hb) as Hd. split; [done|]. split; [done|]. split; [done|]. cbn.
  split; [done|]. split; [done|]. exists now. split; [done|]. unfold damped in Hd. lia.
Qed.

Lemma opened_write conn before c : opened (conn :: before) -> (before = [] \/ head conn = Some Subscribe) -> opened ((conn ++ [c]) :: before).
Proof. cbn. intros [_ Ho] [?|Hh]; (split; [|done]); [by left|right; right]. by destruct conn. Qed.

Lemma written_ok times c s at_ : phase s = Serving at_ -> session_ok times s -> session_ok times (write_to_connection c s).
Proof.
  intros Hph (Hb & Ho & Hl & Hp). rewrite Hph in Hp. destruct Hp as [Hst Hsv]. unfold write_to_connection, session_ok, serving_ok in *.
  destruct (sent s) as [|conn before] eqn:E; [cbn in Hl; lia|]. cbn. rewrite Hph. split; [done|].
  assert (before = [] \/ head conn = Some Subscribe) as Hh.
  { destruct (inject_subscribe s); [|left; destruct before; [done|cbn in Hsv; lia]]. destruct Hsv as (_ & x & y & [= <- <-] & Hx). by right. }
  split; [by apply opened_write|]. split; [lia|]. split; [done|].
  destruct (inject_subscribe s); [|done]. destruct Hsv as (Hl2 & x & y & [= <- <-] & Hx). split; [done|].
  exists (conn ++ [c]), before. split; [done|]. by destruct conn.
Qed.

Lemma started_ok times subscribed now s :
  now ∈ times -> phase s = Dialing -> inject_subscribe s = true -> damped (backoff s) -> opened (sent s) -> (1 <= length (sent s))%nat ->
  status s = Connected -> session_ok times (start_serving subscribed now s).
Proof.
  intros Hn Hph Hi Hb Ho Hl Hst. unfold start_serving. cbv zeta. cbn [inject_subscribe set_phase set_sent]. rewrite Hi.
  destruct subscribed.
  - unfold write_to_connection, session_ok, serving_ok. cbn. rewrite Hi. split; [done|]. split; [|split; [lia|]].
    + split; [by right; right|done].
    + split; [done|]. split; [lia|]. by eexists _, _.
  - unfold connection_dropped. cbn. pose proof (damped_next (backoff s) (sat_sub now now) Hb) as Hd.
    split; [done|]. split; [split; [by right; left|done]|]. split; [cbn; lia|]. split; [done|]. split; [done|]. exists now. split; [done|]. unfold damped in Hd. cbn. lia.
Qed.

Lemma session_step times s o : session_ok times s -> session_ok (times ++ time_of o) (session_op s o).
Proof.
  intros Hs. apply (session_more _ (times ++ time_of o)) in Hs; [|intros x Hx; apply elem_of_app; by left].
  assert (forall now, time_of o = [now] -> now ∈ times ++ time_of o) as Hin.
  { intros now ->. apply elem_of_app. right. by apply list_elem_of_singleton. }
  destruct o as [c| |written now|now| |now|o subscribed now|]; cbn [session_op time_of] in *.
  - unfold send_cmd. destruct (_ <? _); [|done]. by eapply session_queues; [|exact Hs].
  - unfold chunk_commands. destruct (splitting s); [destruct (cmd_queue s); [done|]|destruct (_ <? _); [|done]]; by eapply session_queues; [|exact Hs].
  - unfold serve_command. destruct (phase s) as [at_| | |] eqn:E; try done. destruct (wire_queue s); [done|]. destruct written.
    + apply (written_ok _ _ _ at_); [done|]. by eapply session_queues; [|exact Hs].
    + apply dropped_ok; [by apply Hin|]. by eapply session_queues; [|exact Hs].
  - apply dropped_ok; [by apply Hin|done].
  - unfold discard_command. destruct (phase s); try done. destruct (wire_queue s); [done|]. by eapply session_queues; [|exact Hs].
  - unfold backoff_over. destruct (phase s) eqn:E; try done. destruct (_ <=? _); [|done]. destruct Hs as (Hb & Ho & Hl & Hp). rewrite E in Hp.
    split; [done|]. split; [done|]. split; [done|]. cbn. by destruct Hp as (? & ? & _).
  - unfold dial_over. destruct (phase s) eqn:E; try done. destruct Hs as (Hb & Ho & Hl & Hp). rewrite E in Hp. destruct Hp as [Hst Hi].
    destruct (try_reconnect o) as [[|message]|peer_build].
    + pose proof (damped_grow _ Hb) as Hg. split; [done|]. split; [done|]. split; [done|]. cbn. split; [done|]. split; [done|].
      exists now. split; [by apply Hin|]. unfold damped in Hg. lia.
    + by apply gone_ok.
    + apply started_ok; [by apply Hin|exact E|exact Hi|exact Hb|exact Ho|exact Hl|reflexivity].
  - unfold caller_gone. destruct Hs as (Hb & Ho & Hl & Hp). destruct (phase s) eqn:E; try by apply gone_ok.
    split; [done|]. split; [done|]. split; [done|]. by rewrite E.
Qed.

Definition times_of (ops : list SessionOp) : list Z := flat_map time_of ops.

Lemma session_run ops times s : session_ok times s -> session_ok (times ++ times_of ops) (run_session ops s).
Proof.
  revert times s. induction ops as [|o ops IH]; intros times s Hs; [by rewrite app_nil_r|]. cbn. rewrite app_assoc. by apply IH, session_step.
Qed.

Lemma session_begins now peer_build : session_ok [] (connect_session now peer_build).
Proof. split; [by split|]. split; [split; [by left|done]|]. split; [cbn; lia|]. by split. Qed.

(** The waits double up to the cap. *)
Lemma grown k : Nat.iter k grow_backoff RECONNECT_BACKOFF_START = Z.min (RECONNECT_BACKOFF_START * 2 ^ Z.of_nat k) RECONNECT_BACKOFF_MAX.
Proof.
  induction k as [|k IH]; [done|]. cbn [Nat.iter nat_rect]. change (nat_rect _ _ _ k) with (Nat.iter k grow_backoff RECONNECT_BACKOFF_START).
  rewrite IH. unfold grow_backoff. rewrite Nat2Z.inj_succ, Z.pow_succ_r by lia.
  assert (0 < RECONNECT_BACKOFF_START) by done. assert (0 < 2 ^ Z.of_nat k) by (apply Z.pow_pos_nonneg; lia).
  assert (0 <= RECONNECT_BACKOFF_START * 2 ^ Z.of_nat k) by nia. assert (0 < RECONNECT_BACKOFF_MAX) by done.
  rewrite (Z.mul_comm 2 (2 ^ Z.of_nat k)), Z.mul_assoc. lia.
Qed.

(** What the caller is shown is where the session is: connected while a connection is
    served, reconnecting while it waits or dials; a wait ends at least a quarter of a second
    and at most five seconds behind the drop or the failed dial that began it, by doubling
    each time; and every connection but the first opens with the request for a snapshot. *)
Theorem a_session_is_shown_as_it_is ops now peer_build :
  let s := run_session ops (connect_session now peer_build) in
  opened (sent s)
  /\ match phase s with
     | Serving _ => status s = Connected /\ ((2 <= length (sent s))%nat -> head (hd [] (sent s)) = Some Subscribe)
     | Waiting until => status s = Reconnecting
         /\ exists began, began ∈ times_of ops /\ began + RECONNECT_BACKOFF_START <= until <= began + RECONNECT_BACKOFF_MAX
     | Dialing => status s = Reconnecting
     | Gone => True
     end
  /\ forall k, Nat.iter k grow_backoff RECONNECT_BACKOFF_START = Z.min (RECONNECT_BACKOFF_START * 2 ^ Z.of_nat k) RECONNECT_BACKOFF_MAX.
Proof.
  cbv zeta. pose proof (session_run ops [] _ (session_begins now peer_build)) as (_ & Ho & Hl & Hp). cbn [app] in Hp.
  set (s := run_session ops (connect_session now peer_build)) in *. split; [done|]. split; [|apply grown]. destruct (phase s); [|naive_solver..].
  destruct Hp as [Hst Hsv]. split; [done|]. intros H2. unfold serving_ok in Hsv. destruct (inject_subscribe s); [|lia].
  destruct Hsv as (_ & conn & before & -> & Hh). done.
Qed.


(** ** The order of commands *)

(** What the caller sent of it: all but the request each reconnection opens with. *)
Fixpoint carried (conns : list (list Command)) : list Command :=
  match conns with
  | [] => []
  | [first] => first
  | conn :: before => carried before ++ tail conn
  end.

Definition under_way (s : Session) : list Command := wire_queue s ++ splitting s ++ flat_map into_write_chunks (cmd_queue s).

Definition in_order (s : Session) : Prop :=
  sublist (carried (sent s) ++ under_way s) (flat_map into_write_chunks (taken s))
  /\ (inject_subscribe s = false -> phase s <> Gone -> carried (sent s) ++ under_way s = flat_map into_write_chunks (taken s)).

Lemma carried_write conn before c : (before = [] \/ conn <> []) -> carried ((conn ++ [c]) :: before) = carried (conn :: before) ++ [c].
Proof.
  intros Hc. destruct before as [|b before]; [done|]. destruct Hc as [?|Hc]; [done|]. cbn [carried]. destruct conn as [|x conn]; [done|]. cbn. by rewrite app_assoc.
Qed.

Lemma order_same s s' :
  (carried (sent s'), under_way s', taken s') = (carried (sent s), under_way s, taken s) ->
  (inject_subscribe s' = false -> phase s' <> Gone -> inject_subscribe s = false /\ phase s <> Gone) -> in_order s -> in_order s'.
Proof. intros [= H1 H2 H3] Hi [Hs He]. unfold in_order. rewrite H1, H2, H3. split; [done|]. intros Hf Hg. destruct (Hi Hf Hg). by apply He. Qed.

(** A command is lost: the session is not on its first connection, or is not for long. *)
Lemma order_lost s s' c :
  under_way s = c :: under_way s' -> (carried (sent s'), taken s') = (carried (sent s), taken s) -> inject_subscribe s' = true ->
  in_order s -> in_order s'.
Proof.
  intros Hu [= H1 H2] Hi [Hs He]. unfold in_order. rewrite H1, H2, Hi. split; [|done]. rewrite Hu in Hs.
  etrans; [|exact Hs]. apply sublist_app; [done|]. by apply sublist_cons.
Qed.

Lemma order_dropped now s : in_order s -> in_order (connection_dropped now s).
Proof. intros Ho. unfold connection_dropped. destruct (phase s); [|done..]. by eapply order_same; [| |exact Ho]. Qed.

Lemma order_discarded s : inject_subscribe s = true -> in_order s -> in_order (set_wire [] s).
Proof.
  intros Hi [Hs He]. unfold in_order, under_way. cbn. rewrite Hi. split; [|done]. etrans; [|exact Hs].
  apply sublist_app; [done|]. unfold under_way. by apply sublist_inserts_l.
Qed.

Lemma order_started subscribed now s :
  inject_subscribe s = true -> (1 <= length (sent s))%nat -> in_order s -> in_order (start_serving subscribed now s).
Proof.
  intros Hi Hl Ho. unfold start_serving. cbv zeta. cbn [inject_subscribe set_phase set_sent]. rewrite Hi.
  assert (forall conn, tail conn = [] -> carried (conn :: sent s) = carried (sent s)) as Hc.
  { intros conn Ht. destruct (sent s) as [|c before]; [cbn in Hl; lia|]. cbn [carried]. by rewrite Ht, app_nil_r. }
  apply (order_discarded s Hi) in Ho. destruct Ho as [Hs He]. destruct subscribed.
  - unfold in_order, write_to_connection, under_way in *. cbn [sent set_sent set_wire set_phase app wire_queue splitting cmd_queue taken inject_subscribe] in *.
    rewrite Hc, Hi by done. by split.
  - apply order_dropped. unfold in_order, under_way in *. cbn [sent set_sent set_wire set_phase wire_queue splitting cmd_queue taken inject_subscribe] in *.
    rewrite Hc, Hi by done. by split.
Qed.

Lemma in_order_step times s o : session_ok times s -> in_order s -> in_order (session_op s o).
Proof.
  intros (_ & _ & Hl & Hp) Ho. destruct o as [c| |written now|now| |now|o subscribed now|]; cbn [session_op].
  - unfold send_cmd. destruct (_ <? _); [|done]. destruct Ho as [Hs He]. unfold in_order, under_way in *. cbn in *.
    rewrite !flat_map_app, !app_assoc in *. cbn. rewrite app_nil_r. split; [by apply sublist_app|]. intros Hf Hg. by rewrite <- He.
  - unfold chunk_commands. destruct (splitting s) as [|part parts] eqn:Es.
    + destruct (cmd_queue s) as [|c rest] eqn:Ec; [done|]. eapply order_same; [| |exact Ho]; [|done]. unfold under_way. cbn. by rewrite Es, Ec.
    + destruct (_ <? _); [|done]. eapply order_same; [| |exact Ho]; [|done]. unfold under_way. cbn. by rewrite Es, <- app_assoc.
  - unfold serve_command. destruct (phase s) as [at_| | |] eqn:E; try done. destruct (wire_queue s) as [|c rest] eqn:Ew; [done|]. destruct written.
    + destruct Hp as [_ Hsv]. destruct (sent s) as [|conn before] eqn:Ec; [cbn in Hl; lia|].
      assert (before = [] \/ conn <> []) as Hne.
      { unfold serving_ok in Hsv. rewrite Ec in Hsv. destruct (inject_subscribe s); [|left; destruct before; [done|cbn in Hsv; lia]].
        right. destruct Hsv as (_ & x & y & [= <- <-] & Hx). by destruct conn. }
      destruct Ho as [Hs He]. unfold in_order, under_way, write_to_connection in *. cbn [sent wire_queue splitting cmd_queue taken inject_subscribe phase set_sent set_wire].
      rewrite Ec, Ew in *. rewrite carried_write, <- app_assoc by done. by split.
    + unfold connection_dropped. cbn [phase set_wire]. rewrite E. eapply order_lost; [| | |exact Ho]; [|done|done]. unfold under_way. by rewrite Ew.
  - by apply order_dropped.
  - unfold discard_command. destruct (phase s) eqn:E; try done. destruct (wire_queue s) as [|c rest] eqn:Ew; [done|].
    eapply (order_lost s); [| | |exact Ho]; [unfold under_way; by rewrite Ew|done|]. by destruct Hp as (_ & ? & _).
  - unfold backoff_over. destruct (phase s) eqn:E; try done. destruct (_ <=? _); [|done]. eapply order_same; [| |exact Ho]; [done|]. by rewrite E.
  - unfold dial_over. destruct (phase s) eqn:E; try done. destruct Hp as [_ Hi].
    destruct (try_reconnect o) as [[|message]|peer_build]; [by eapply order_same; [| |exact Ho]; [done|cbn; by rewrite Hi]..|].
    by apply order_started.
  - unfold caller_gone. destruct (phase s) eqn:E; try done; (eapply order_same; [| |exact Ho]; [done|]; by intros _).
Qed.

Lemma in_order_run ops times s : session_ok times s -> in_order s -> in_order (run_session ops s).
Proof.
  revert times s. induction ops as [|o ops IH]; intros times s Hs Ho; [done|]. cbn. apply (IH (times ++ time_of o)); [by apply session_step|by eapply in_order_step].
Qed.

(** C22: What the caller sends is never repeated, invented or reordered, whatever connections come
    and go: what they were sent, less the request each reconnection opens with, and what is still
    on its way are parts of what the caller sent, in its order; and until the first connection
    drops they are all of it. *)
Theorem a_session_keeps_the_order ops now peer_build :
  let s := run_session ops (connect_session now peer_build) in
  sublist (carried (sent s) ++ under_way s) (flat_map into_write_chunks (taken s))
  /\ (inject_subscribe s = false -> phase s <> Gone -> carried (sent s) ++ under_way s = flat_map into_write_chunks (taken s)).
Proof. apply (in_order_run ops []); [apply session_begins|]. by split. Qed.

Lemma a_session_keeps_the_order_witness :
  let s := run_session [Emit Subscribe; Chunk; Chunk; Emit (OtherCommand []); ServeCommand true 1] (connect_session 0 []) in
  carried (sent s) ++ under_way s = [Subscribe; OtherCommand []].
Proof. apply (a_session_keeps_the_order [Emit Subscribe; Chunk; Chunk; Emit (OtherCommand []); ServeCommand true 1] 0 []); [reflexivity|discriminate]. Defined.

(** ** What was queued during an outage *)

Definition typed_key (n : Z) : Command := Write n [byte_of n] Submit.

(** The connection drops, a dial goes out, and meanwhile the caller types more than the queue
    between the two tasks holds. *)
Definition typed_in_an_outage (n : nat) : list SessionOp :=
  [PeerHungUp 0; BackoffOver (secs 10)] ++ flat_map (fun i => [Emit (typed_key (Z.of_nat i)); Chunk; Chunk]) (List.seq 0 n).

(** The supervisor discards its own queue; what the splitting task could not pass on, and what
    waits before it, is sent to the daemon behind the snapshot. *)
Example an_outage_leaks_what_did_not_fit :
  let s := run_session (typed_in_an_outage 300 ++ [DialOver (Dialed (HandshakeOk [])) true (secs 11); Chunk; ServeCommand true (secs 11)]) (connect_session 0 []) in
  (sent s, length (taken s)) = ([[Subscribe; typed_key 256]; []], 300%nat).
Proof. vm_compute. reflexivity. Qed.

(** Of a large write the queue had room for the head of, the tail is submitted. *)
Definition large : list ascii := repeat "x"%char (Z.to_nat MAX_WRITE_CHUNK_BYTES) ++ ["y"%char].

Example an_outage_splits_a_write :
  let s := run_session (typed_in_an_outage 255 ++ [Emit (Write 1 large Submit); Chunk; Chunk; Chunk; DialOver (Dialed (HandshakeOk [])) true (secs 11);
                        Chunk; ServeCommand true (secs 11)]) (connect_session 0 []) in
  sent s = [[Subscribe; Write 1 ["y"%char] Submit]; []].
Proof. vm_compute. reflexivity. Qed.

Lemma a_session_is_shown_as_it_is_witness :
  let s := run_session [PeerHungUp 0; BackoffOver (secs 10); DialOver (Dialed (HandshakeOk [])) true (secs 11)] (connect_session 0 []) in
  status s = Connected /\ head (hd [] (sent s)) = Some Subscribe.
Proof.
  destruct (a_session_is_shown_as_it_is [PeerHungUp 0; BackoffOver (secs 10); DialOver (Dialed (HandshakeOk [])) true (secs 11)] 0 []) as (_ & Hp & _).
  cbn zeta in Hp |- *. destruct Hp as [Hst Hh]. split; [exact Hst|]. apply Hh. vm_compute. lia.
Defined.
