(* ===== verification/TerminalSync.v ===== *)
(** * The streams of the client's terminals

    [src/crates/tui/src/components/terminal_stack.rs], what of it follows the output of
    the daemon's terminals: a slot per terminal with its parser, the bytes that wait while
    the terminal is hidden, the recovery of a torn stream and the adoption of a deeper
    scrollback; and the coalescing of [realm/model/helpers.rs] before it.

    The parser is libghostty: the class [Vt] has what the code calls of it, and [VtLaws]
    what it relies on.  Instants are nanoseconds, [now] an argument; whether the library can
    make a fresh parser is one too.  The viewport anchor, the cached frame, the clipboard
    passthrough and what a slot holds of identity, badges and prompts are left out, as are
    the sign-in that reopens an exited agent, the layout (the focused terminal is an
    argument) and log lines. *)

From Stdlib Require Import Ascii.
From stdpp Require Import pretty.
From S2P Require Import Prelude ReplayRing EventForward.

#[local] Open Scope Z_scope.

#[local] Notation bytes := (list ascii).
#[local] Notation len l := (Z.of_nat (length l)).

(** ** The parser *)

Class Vt (T : Type) := {
  vt_new : T;
  vt_write : bytes -> T -> T;
  vt_resize : Z -> Z -> T -> T;
  vt_total : T -> option Z;
  vt_mode : Z -> T -> option bool;
}.

Definition DEFAULT_COLS : Z := 120.
Definition DEFAULT_ROWS : Z := 32.

(** A parser is a machine over its input: what is written in two pieces is written, and an
    untouched screen has nothing to reflow. *)
Class VtLaws (T : Type) `{Vt T} := {
  vt_write_app : forall a b v, vt_write (a ++ b) v = vt_write b (vt_write a v);
  vt_write_nil : forall v, vt_write [] v = v;
  vt_blank_resize : forall c r c' r', vt_resize c r (vt_resize c' r' vt_new) = vt_resize c r vt_new;
  vt_blank_default : vt_resize DEFAULT_COLS DEFAULT_ROWS vt_new = vt_new;
}.

Section Streams.
Context {T : Type} `{Vt T}.

(** [TerminalVt]. *)
Record TerminalVt := mkVt { terminal : T; vt_cols : Z; vt_rows : Z }.

Definition new_vt : TerminalVt := mkVt vt_new DEFAULT_COLS DEFAULT_ROWS.

Definition feed (bs : bytes) (v : TerminalVt) : TerminalVt := mkVt (vt_write bs (terminal v)) (vt_cols v) (vt_rows v).

Definition ensure_size (c r : Z) (v : TerminalVt) : TerminalVt :=
  if (c =? vt_cols v) && (r =? vt_rows v) then v else mkVt (vt_resize c r (terminal v)) c r.

(** A fresh parser at the size of the old one; [None] where the library has none. *)
Definition reset (fresh : bool) (v : TerminalVt) : option TerminalVt :=
  if fresh then Some (ensure_size (vt_cols v) (vt_rows v) new_vt) else None.

(** ** A slot *)

Definition PENDING_FEED_CAP : Z := 64 * 1024.
Definition RECENT_OUTPUT_CAP : Z := 4 * 1024.
Definition SCROLLBACK_CATCHUP_CAP : Z := 4 * 1024 * 1024.
Definition SCROLLBACK_REFETCH_MIN : Z := secs 2.
Definition RESYNC_RETRY_INITIAL : Z := secs 1.
Definition RESYNC_RETRY_CAP : Z := secs 30.
Definition RESIZE_RETRY : Z := secs 1.

Inductive TerminalStreamSync := Coherent | Desynced (required_seq : Z) (request_pending : bool).

Definition is_desynced (s : TerminalStreamSync) : bool := match s with Desynced _ _ => true | Coherent => false end.

(** A batch of live output: first and last sequence, size, bytes. *)
Definition Batch : Type := Z * Z * (Z * Z) * bytes.

Record ScrollbackCatchup := mkCatchup { batches : list Batch; catchup_bytes : Z; unusable : bool }.

Definition no_catchup : ScrollbackCatchup := mkCatchup [] 0 false.
Definition invalidate (c : ScrollbackCatchup) : ScrollbackCatchup := mkCatchup [] 0 true.

Definition record (first n : Z) (size : Z * Z) (bs : bytes) (c : ScrollbackCatchup) : ScrollbackCatchup :=
  if unusable c then c
  else if SCROLLBACK_CATCHUP_CAP <? catchup_bytes c + len bs then invalidate c
  else mkCatchup (batches c ++ [(first, n, size, bs)]) (catchup_bytes c + len bs) (unusable c).

Definition straddles (watermark : Z) (c : ScrollbackCatchup) : bool :=
  existsb (fun '(first, n, _, _) => (first <=? watermark) && (watermark <? n)) (batches c).

Record ResizeRequest := mkRequest { pane : Z * Z; asked_at : Z; request_answered : bool }.

Record TerminalSlot := mkSlot {
  last_seq : Z;
  sync : TerminalStreamSync;
  resync_retry_at : option Z;
  resync_retry_backoff : Z;
  vt : TerminalVt;
  pty_size : option (Z * Z);
  resize_request : option ResizeRequest;
  displayed : bool;
  pending_feed : bytes;
  pending_sizes : list ReplaySizeSpan;
  recent : bytes;
  live_bytes_fed : Z;
  deep_scrollback_requested : bool;
  scrollback_stale : bool;
  last_scrollback_fetch : option Z;
  scrollback_catchup : option ScrollbackCatchup;
  backend_scrollback_empty : bool;
  exited : bool;
}.

Definition eta_slot (s : TerminalSlot) : TerminalSlot :=
  mkSlot (last_seq s) (sync s) (resync_retry_at s) (resync_retry_backoff s) (vt s) (pty_size s) (resize_request s)
    (displayed s) (pending_feed s) (pending_sizes s) (recent s) (live_bytes_fed s) (deep_scrollback_requested s)
    (scrollback_stale s) (last_scrollback_fetch s) (scrollback_catchup s) (backend_scrollback_empty s) (exited s).

Definition set_seq v s : TerminalSlot := ltac:(upd eta_slot last_seq v s).
Definition set_sync v s : TerminalSlot := ltac:(upd eta_slot sync v s).
Definition set_retry_at v s : TerminalSlot := ltac:(upd eta_slot resync_retry_at v s).
Definition set_backoff v s : TerminalSlot := ltac:(upd eta_slot resync_retry_backoff v s).
Definition set_vt v s : TerminalSlot := ltac:(upd eta_slot vt v s).
Definition set_pty v s : TerminalSlot := ltac:(upd eta_slot pty_size v s).
Definition set_request v s : TerminalSlot := ltac:(upd eta_slot resize_request v s).
Definition set_displayed v s : TerminalSlot := ltac:(upd eta_slot displayed v s).
Definition set_feed v s : TerminalSlot := ltac:(upd eta_slot pending_feed v s).
Definition set_spans v s : TerminalSlot := ltac:(upd eta_slot pending_sizes v s).
Definition set_recent v s : TerminalSlot := ltac:(upd eta_slot recent v s).
Definition set_live v s : TerminalSlot := ltac:(upd eta_slot live_bytes_fed v s).
Definition set_deep v s : TerminalSlot := ltac:(upd eta_slot deep_scrollback_requested v s).
Definition set_stale v s : TerminalSlot := ltac:(upd eta_slot scrollback_stale v s).
Definition set_fetched v s : TerminalSlot := ltac:(upd eta_slot last_scrollback_fetch v s).
Definition set_catchup v s : TerminalSlot := ltac:(upd eta_slot scrollback_catchup v s).
Definition set_no_history v s : TerminalSlot := ltac:(upd eta_slot backend_scrollback_empty v s).
Definition set_exited v s : TerminalSlot := ltac:(upd eta_slot exited v s).

(** [make_slot], of its fields that are modelled. *)
Definition make_slot (seq : Z) : TerminalSlot :=
  mkSlot seq Coherent None RESYNC_RETRY_INITIAL new_vt None None false [] [] [] 0 false false None None false false.

(** ** Feeding the parser *)

(** A zero size is unknown. *)
Definition adopt_pty_size (size : Z * Z) (s : TerminalSlot) : TerminalSlot :=
  let '(c, r) := size in
  if (c =? 0) || (r =? 0) then s else set_vt (ensure_size c r (vt s)) (set_pty (Some (c, r)) s).

Definition slot_feed (bs : bytes) (s : TerminalSlot) : TerminalSlot := set_vt (feed bs (vt s)) s.

Definition mark_answered (s : TerminalSlot) : TerminalSlot :=
  set_request ((fun r => mkRequest (pane r) (asked_at r) true) <$> resize_request s) s.

(** The end of a span is where the next one begins. *)
Definition span_end (n : nat) (rest : list ReplaySizeSpan) : nat :=
  match rest with next :: _ => Nat.min (Z.to_nat (at_ next)) n | [] => n end.

Fixpoint feed_spans (bs : bytes) (sizes : list ReplaySizeSpan) (s : TerminalSlot) : TerminalSlot :=
  match sizes with
  | [] => s
  | span :: rest =>
      let start := Nat.min (Z.to_nat (at_ span)) (length bs) in
      let stop := span_end (length bs) rest in
      let s := adopt_pty_size (cols span, rows span) s in
      let s := if (start <? stop)%nat then slot_feed (firstn (stop - start) (skipn start bs)) s else s in
      feed_spans bs rest s
  end.

Definition feed_sized (bs : bytes) (sizes : list ReplaySizeSpan) (s : TerminalSlot) : TerminalSlot :=
  match sizes with
  | [] => slot_feed bs s
  | _ =>
      let s := if existsb (fun x => negb (cols x =? 0) && negb (rows x =? 0)) sizes then mark_answered s else s in
      feed_spans bs sizes s
  end.

Definition flush_pending (s : TerminalSlot) : TerminalSlot :=
  match pending_feed s with
  | [] => s
  | bs => let sizes := pending_sizes s in feed_sized bs sizes (set_spans [] (set_feed [] s))
  end.

Definition stash_pending (bs : bytes) (size : Z * Z) (s : TerminalSlot) : TerminalSlot :=
  let last_size := (fun x => (cols x, rows x)) <$> last (pending_sizes s) in
  let s := if bool_decide (size <> (0, 0)) && bool_decide (last_size <> Some size)
           then set_spans (pending_sizes s ++ [mkSpan (len (pending_feed s)) size.1 size.2]) s else s in
  set_feed (pending_feed s ++ bs) s.

(** The last [n] bytes. *)
Definition tail_of (n : Z) (bs : bytes) : bytes := skipn (length bs - Z.to_nat n) bs.

(** ** The client's terminals *)

Record TerminalStack := mkStack { terminals : gmap Z TerminalSlot; pending_resync_requests : list Z }.

Definition put_slot (id : Z) (s : TerminalSlot) (k : TerminalStack) : TerminalStack :=
  mkStack (<[id := s]> (terminals k)) (pending_resync_requests k).
Definition push_request (id : Z) (k : TerminalStack) : TerminalStack :=
  mkStack (terminals k) (pending_resync_requests k ++ [id]).
Definition push_new_request (id : Z) (k : TerminalStack) : TerminalStack :=
  if bool_decide (id ∈ pending_resync_requests k) then k else push_request id k.

(** ** Live output *)

(** The part behind the sequence check: the batch continues the stream. *)
Definition take_output (eager : bool) (bs : bytes) (first n : Z) (size : Z * Z) (s : TerminalSlot) : TerminalSlot :=
  let s := match bs with [] => mark_answered s | _ => s end in
  let s :=
    if displayed s || eager then slot_feed bs (adopt_pty_size size s)
    else
      let s := if PENDING_FEED_CAP <? len (pending_feed s) + len bs then flush_pending s else s in
      if PENDING_FEED_CAP <? len bs then slot_feed bs (adopt_pty_size size s) else stash_pending bs size s in
  let s := set_recent (tail_of RECENT_OUTPUT_CAP (recent s ++ bs)) s in
  let s := set_catchup (record first n size bs <$> scrollback_catchup s) s in
  set_seq n (set_live (sat_add u64_max (live_bytes_fed s) (len bs)) s).

Definition append_output (focused : option Z) (id : Z) (bs : bytes) (first n : Z) (size : Z * Z) (k : TerminalStack)
  : TerminalStack :=
  let eager := bool_decide (focused = Some id) in
  match terminals k !! id with
  | None => k
  | Some s =>
      if n <=? last_seq s then k
      else
        let s := set_stale true s in
        match sync s with
        | Desynced required pending =>
            if pending then put_slot id (set_sync (Desynced (Z.max required n) true) s) k
            else push_request id (put_slot id (set_retry_at None (set_sync (Desynced (Z.max required n) true) s)) k)
        | Coherent =>
            if negb (first =? sat_add u64_max (last_seq s) 1) || (n <? first)
            then push_request id (put_slot id (set_sync (Desynced n true) s) k)
            else put_slot id (take_output eager bs first n size s) k
        end
  end.

(** ** Recovery *)

(** What adopting a replay makes of a slot, once its parser is fresh. *)
Definition adopt_replay (bs : bytes) (n : Z) (sizes : list ReplaySizeSpan) (s : TerminalSlot) : TerminalSlot :=
  let s := feed_sized bs sizes s in
  let s := set_recent (tail_of RECENT_OUTPUT_CAP bs) (set_spans [] (set_feed [] s)) in
  let s := set_sync Coherent (set_seq n s) in
  let s := set_backoff RESYNC_RETRY_INITIAL (set_retry_at None s) in
  let s := set_catchup (invalidate <$> scrollback_catchup s) s in
  set_stale true (set_deep false s).

Definition resync_terminal (fresh : bool) (id : Z) (bs : bytes) (n : Z) (sizes : list ReplaySizeSpan) (k : TerminalStack)
  : TerminalStack :=
  match terminals k !! id with
  | None => k
  | Some s =>
      let required := match sync s with Coherent => last_seq s | Desynced r _ => r end in
      if (n <? last_seq s) || (n <? required) then
        match sync s with
        | Desynced r _ => push_new_request id (put_slot id (set_sync (Desynced r true) s) k)
        | Coherent => k
        end
      else if negb (is_desynced (sync s)) && (n =? last_seq s) then k
      else match reset fresh (vt s) with
           | Some v => put_slot id (adopt_replay bs n sizes (set_vt v s)) k
           | None => push_request id (put_slot id (set_sync (Desynced (Z.max n required) true) s) k)
           end
  end.

(** The [TerminalResyncUnavailable] arm. *)
Definition resync_unavailable (now id : Z) (k : TerminalStack) : TerminalStack :=
  match terminals k !! id with
  | None => k
  | Some s =>
      let s := set_sync (match sync s with
                         | Desynced r _ => Desynced r false
                         | Coherent => Desynced (last_seq s) false
                         end) s in
      put_slot id (set_backoff (Z.min (resync_retry_backoff s * 2) RESYNC_RETRY_CAP)
                     (set_retry_at (Some (now + resync_retry_backoff s)) s)) k
  end.

(** The [Snapshot] arm walks over its terminals: the slots of before that were not yet taken
    over, the slots whose grid had a size, the client so far. *)
Definition Rebuild : Type := gmap Z TerminalSlot * gset Z * TerminalStack.

Definition known_size (s : TerminalSlot) : bool := is_some_and (fun _ => true) (pty_size s) || displayed s.

Definition fresh_slot (x : TerminalSnapshot) (before : option TerminalSlot) : TerminalSlot :=
  let s := make_slot (snapshot_seq x) in
  match before with
  | Some p => if known_size p then set_vt (ensure_size (vt_cols (vt p)) (vt_rows (vt p)) (vt s)) (set_pty (pty_size p) s) else s
  | None => s
  end.

Definition snapshot_slot (acc : Rebuild) (x : TerminalSnapshot) : Rebuild :=
  let '(previous, grid_known, k) := acc in
  let id := snapshot_id x in
  match replay_available x, previous !! id with
  | false, Some s =>
      (delete id previous, grid_known,
       put_slot id (set_sync (Desynced (Z.max (last_seq s) (snapshot_seq x)) true) s) (push_request id k))
  | available, before =>
      let s := fresh_slot x before in
      let grid_known := if is_some_and known_size before then {[id]} ∪ grid_known else grid_known in
      (previous, grid_known,
       if available then put_slot id (set_spans (replay_sizes x) (set_feed (snapshot_replay x) s)) k
       else push_request id (put_slot id (set_sync (Desynced (snapshot_seq x) true) s) k))
  end.

Definition on_snapshot (focused : option Z) (snapshots : list TerminalSnapshot) (k : TerminalStack) : TerminalStack :=
  let '(_, grid_known, k) :=
    fold_left snapshot_slot snapshots (terminals k, ∅, mkStack ∅ (pending_resync_requests k)) in
  match focused with
  | Some id =>
      match terminals k !! id with
      | Some s => if negb (is_nil (pending_sizes s)) || bool_decide (id ∈ grid_known) then put_slot id (flush_pending s) k else k
      | None => k
      end
  | None => k
  end.

Definition on_spawned (id : Z) (k : TerminalStack) : TerminalStack := put_slot id (make_slot 0) k.

(** The [TerminalReplaced] arm where the new terminal has a slot and the old one has none;
    an authentication hand-over keeps the stream. *)
Definition on_reused (fresh authenticating : bool) (id : Z) (k : TerminalStack) : TerminalStack :=
  match terminals k !! id with
  | None => k
  | Some s =>
      if authenticating then k
      else
        let s := match reset fresh (vt s) with Some v => set_vt v s | None => s end in
        let s := set_seq 0 (set_recent [] (set_spans [] (set_feed [] s))) in
        let s := set_backoff RESYNC_RETRY_INITIAL (set_retry_at None (set_deep false s)) in
        push_new_request id (put_slot id (set_sync (Desynced 0 true) s) k)
  end.

(** The arm itself, where the restart was not abandoned. *)
Definition on_replaced (fresh authenticating : bool) (old id : Z) (k : TerminalStack) : TerminalStack :=
  if bool_decide (terminals k !! old = None) && bool_decide (is_Some (terminals k !! id)) then on_reused fresh authenticating id k
  else put_slot id (make_slot 0) (mkStack (delete old (terminals k)) (pending_resync_requests k)).

(** The [TerminalExited] arm: an agent that exited on its own is [kept], frozen on its last
    frame if it has one ([painted]); any other terminal goes. *)
Definition on_exited (kept painted fresh : bool) (id : Z) (k : TerminalStack) : TerminalStack :=
  match terminals k !! id with
  | None => k
  | Some s =>
      if kept then
        let s := set_exited true s in
        put_slot id (if painted && fresh then set_request None (set_pty None (set_vt new_vt s)) else s) k
      else mkStack (delete id (terminals k)) (pending_resync_requests k)
  end.

(** ** A deeper scrollback *)

(** The DEC numbers of the modes that are carried over. *)
Definition PRESERVED_DEC_MODES : list Z := [1; 25; 9; 1000; 1002; 1003; 1004; 1005; 1006; 1007; 1015; 1016; 2004; 2027].

Definition mode_sequence (v : T) (m : Z) : bytes :=
  match vt_mode m v with
  | Some on => ("027"%char :: "["%char :: "?"%char :: String.list_ascii_of_string (pretty m)) ++ [if on then "h"%char else "l"%char]
  | None => []
  end.

Definition mode_sequences (v : T) : bytes := flat_map (mode_sequence v) PRESERVED_DEC_MODES.

Definition wants_scrollback_fetch (now : Z) (s : TerminalSlot) : bool :=
  if negb (deep_scrollback_requested s) then true
  else scrollback_stale s && is_none_or (fun at_ => SCROLLBACK_REFETCH_MIN <=? now - at_) (last_scrollback_fetch s).

Definition arm_scrollback_fetch (now : Z) (s : TerminalSlot) : TerminalSlot :=
  set_catchup (Some no_catchup) (set_fetched (Some now) (set_deep true s)).

Definition end_scrollback_visit (s : TerminalSlot) : TerminalSlot := set_catchup None (set_deep false s).

(** An upward scroll: whether it asks for a capture. *)
Definition scroll_up (now : Z) (s : TerminalSlot) : TerminalSlot * bool :=
  if negb (exited s) && wants_scrollback_fetch now s then (arm_scrollback_fetch now s, true) else (s, false).

Definition owns_viewport (s : TerminalSlot) : bool :=
  if exited s || negb (backend_scrollback_empty s) then false
  else let screenful := vt_cols (vt s) * vt_rows (vt s) in (0 <? screenful) && (screenful <? live_bytes_fed s).

(** The batches the capture does not hold. *)
Definition uncovered (n : Z) (c : option ScrollbackCatchup) : list Batch :=
  match c with Some c => List.filter (fun '(_, stop, _, _) => n <? stop) (batches c) | None => [] end.

Definition refeed (s : TerminalSlot) (b : Batch) : TerminalSlot := let '(_, _, size, bs) := b in slot_feed bs (adopt_pty_size size s).

Definition batch_bytes (b : Batch) : bytes := let '(_, _, _, bs) := b in bs.

Definition apply_scrollback (fresh : bool) (now : Z) (bs : bytes) (n : Z) (s : TerminalSlot) : TerminalSlot :=
  match bs with
  | [] => set_no_history true s
  | _ =>
      let catchup := scrollback_catchup s in
      let s := set_catchup None s in
      if is_some_and unusable catchup || is_some_and (straddles n) catchup || negb fresh then s
      else
        let current := default 0 (vt_total (terminal (vt s))) in
        let scratch := feed bs (ensure_size (vt_cols (vt s)) (vt_rows (vt s)) new_vt) in
        let rebuilt := default 0 (vt_total (terminal scratch)) in
        let has_history := vt_rows (vt s) <? rebuilt in
        let s := set_no_history (negb has_history) s in
        if (rebuilt <=? current) && negb (has_history && scrollback_stale s) then s
        else
          let modes := mode_sequences (terminal (vt s)) in
          let missed := uncovered n catchup in
          let s := fold_left refeed missed (set_vt (feed modes scratch) s) in
          let s := set_spans [] (set_feed [] s) in
          let s := set_recent (tail_of RECENT_OUTPUT_CAP (tail_of RECENT_OUTPUT_CAP bs ++ flat_map batch_bytes missed)) s in
          set_fetched (Some now) (set_stale false (set_seq (Z.max (last_seq s) n) s))
  end.

Definition on_scrollback (fresh : bool) (now id : Z) (bs : bytes) (n : Z) (k : TerminalStack) : TerminalStack :=
  match terminals k !! id with Some s => put_slot id (apply_scrollback fresh now bs n s) k | None => k end.

(** ** Drawing *)

(** The top of a frame hides every terminal. *)
Definition hide_all (k : TerminalStack) : TerminalStack := mkStack (set_displayed false <$> terminals k) (pending_resync_requests k).

(** Drawing one terminal on a pane brings its grid up to date. *)
Definition draw (size : Z * Z) (s : TerminalSlot) : TerminalSlot :=
  let s := set_displayed true s in
  let s := match pty_size s with None => set_vt (ensure_size size.1 size.2 (vt s)) s | Some _ => s end in
  flush_pending s.

(** Whether it asks the daemon for the size of its pane, behind that. *)
Definition resize_due (now : Z) (size : Z * Z) (s : TerminalSlot) : bool :=
  (0 <? size.1) && (0 <? size.2) && negb (bool_decide (pty_size s = Some size)) && negb (exited s)
  && match resize_request s with
     | Some r => if bool_decide (pane r = size) then negb (request_answered r) && (RESIZE_RETRY <=? now - asked_at r) else true
     | None => true
     end.

Definition ask_resize (now : Z) (size : Z * Z) (s : TerminalSlot) : TerminalSlot * bool :=
  if resize_due now size s then (set_request (Some (mkRequest size now false)) s, true) else (s, false).

Definition render_one_terminal (now : Z) (size : Z * Z) (id : Z) (k : TerminalStack) : TerminalStack * bool :=
  match terminals k !! id with
  | Some s => let '(s, asks) := ask_resize now size (draw size s) in (put_slot id s k, asks)
  | None => (k, false)
  end.

(** A reader of the grid ([visible_text], [extract_selection], ...) does so as well. *)
Definition read_grid (id : Z) (k : TerminalStack) : TerminalStack :=
  match terminals k !! id with Some s => put_slot id (flush_pending s) k | None => k end.

(** ** Requests for a replay *)

Definition TerminalResyncRequest : Type := Z * Z.

Definition request_of (k : TerminalStack) (id : Z) : option TerminalResyncRequest :=
  match terminals k !! id with
  | Some s => match sync s with Desynced r true => Some (id, r) | _ => None end
  | None => None
  end.

Definition drain_pending_resync_requests (k : TerminalStack) : list TerminalResyncRequest * TerminalStack :=
  (omap (request_of k) (pending_resync_requests k), mkStack (terminals k) []).

Definition requeue_one (k : TerminalStack) (request : TerminalResyncRequest) : TerminalStack :=
  let '(id, required) := request in
  match terminals k !! id with
  | Some s =>
      match sync s with
      | Desynced r _ => push_new_request id (put_slot id (set_retry_at None (set_sync (Desynced (Z.max r required) true) s)) k)
      | Coherent => k
      end
  | None => k
  end.

Definition requeue_resync_requests (requests : list TerminalResyncRequest) (k : TerminalStack) : TerminalStack :=
  fold_left requeue_one requests k.

(** [requests.chunks(MAX_RESYNC_REQUESTS_PER_BATCH)] through [try_send_cmd], which admits
    [room] commands: what was sent, and the client with the rest queued again. *)
Fixpoint send_batches (fuel room : nat) (requests : list TerminalResyncRequest) (k : TerminalStack)
  : list (list TerminalResyncRequest) * TerminalStack :=
  match fuel, requests with
  | _, [] => ([], k)
  | O, _ => ([], k)
  | S fuel, _ =>
      match room with
      | O => ([], requeue_resync_requests requests k)
      | S room =>
          let n := Z.to_nat MAX_RESYNC_REQUESTS_PER_BATCH in
          let '(sent, k) := send_batches fuel room (skipn n requests) k in (firstn n requests :: sent, k)
      end
  end.

Definition flush_pending_terminal_resyncs (room : nat) (k : TerminalStack) : list (list TerminalResyncRequest) * TerminalStack :=
  let '(requests, k) := drain_pending_resync_requests k in
  send_batches (length requests) room requests k.

Definition retry_due (now : Z) (s : TerminalSlot) : bool :=
  match sync s with
  | Desynced _ false => negb (exited s) && is_none_or (fun at_ => at_ <=? now) (resync_retry_at s)
  | _ => false
  end.

Definition rearm (s : TerminalSlot) : TerminalSlot :=
  set_retry_at None (set_sync (match sync s with Desynced r _ => Desynced r true | c => c end) s).

Definition tick_one (k : TerminalStack) (id : Z) : TerminalStack :=
  match terminals k !! id with Some s => push_new_request id (put_slot id (rearm s) k) | None => k end.

Definition tick_resync_retries (now : Z) (k : TerminalStack) : TerminalStack :=
  fold_left tick_one (map fst (List.filter (fun x => retry_due now x.2) (map_to_list (terminals k)))) k.

Definition distrust (k : TerminalStack) (id : Z) : TerminalStack :=
  match terminals k !! id with
  | Some s =>
      if exited s then k
      else
        let required := match sync s with Coherent => last_seq s | Desynced r _ => Z.max r (last_seq s) end in
        push_new_request id (put_slot id (set_retry_at None (set_sync (Desynced required true) s)) k)
  | None => k
  end.

(** [visible] are the terminals of the pane. *)
Definition mark_visible_desynced (visible : list Z) (k : TerminalStack) : TerminalStack := fold_left distrust visible k.

End Streams.

(** ** Coalescing ([realm/model/helpers.rs]) *)

Definition COALESCE_MAX_BYTES : Z := 256 * 1024.

(** What [out.last_mut()] and the next event merge into. *)
Definition merged (prev next : Event) : option Event :=
  match prev, next with
  | TerminalOutput t bs first n size, TerminalOutput t' bs' first' n' size' =>
      if (t =? t') && bool_decide (size = size') && negb (is_nil bs) && negb (is_nil bs')
         && (sat_add u64_max n 1 =? first') && (len bs + len bs' <=? COALESCE_MAX_BYTES)
      then Some (TerminalOutput t (bs ++ bs') first n' size) else None
  | _, _ => None
  end.

(** [out] is the list so far, its last event first. *)
Definition coalesce_one (out : list Event) (e : Event) : list Event :=
  match out with
  | prev :: rest => match merged prev e with Some m => m :: rest | None => e :: out end
  | [] => [e]
  end.

Definition coalesce_adjacent_output (events : list Event) : list Event := rev (fold_left coalesce_one events []).
