(* ===== verification/TerminalSyncProps.v ===== *)
(** * What a client's grid was given

    The streams of TerminalSync.v with a parser that keeps the tape of its input: each byte
    beside the size it was parsed at.  Whatever is dropped, replayed, deferred while a
    terminal is hidden or rebuilt from a capture, the tape is one replay and, behind it, the
    daemon's chunks from there to the slot's sequence number, each once, in order, at its
    own size. *)

From Stdlib Require Import Ascii.
From S2P Require Import Prelude ReplayRing EventForward TerminalSync.

#[local] Open Scope Z_scope.

#[local] Notation bytes := (list ascii).
#[local] Notation len l := (Z.of_nat (length l)).

(** ** The feeding of spans, for any parser *)

Section Spans.
Context {T : Type} `{VtLaws T}.
Implicit Types s : TerminalSlot (T := T).

Lemma feed_app a b s : slot_feed (a ++ b) s = slot_feed b (slot_feed a s).
Proof. unfold slot_feed, feed, set_vt. cbn. by rewrite vt_write_app. Qed.

(** The spans lie in what is pending. *)
Definition within (p : bytes) (sizes : list ReplaySizeSpan) : Prop := Forall (fun x => at_ x <= len p) sizes.

Lemma span_end_app p b rest : within p rest -> rest <> [] -> span_end (length (p ++ b)) rest = span_end (length p) rest.
Proof.
  intros Hw Hne. destruct rest as [|x rest]; [done|]. apply Forall_cons in Hw as [Hx _]. cbn. rewrite length_app. lia.
Qed.

Lemma segment_app (p b : bytes) i j : (j <= length p)%nat -> firstn (j - i) (skipn i (p ++ b)) = firstn (j - i) (skipn i p).
Proof.
  intros Hj. destruct (Nat.le_gt_cases i (length p)) as [Hi|Hi].
  - rewrite drop_app_le by done. apply take_app_le. rewrite length_skipn. lia.
  - replace (j - i)%nat with 0%nat by lia. by rewrite !take_0.
Qed.

(** More bytes behind the last span are parsed at its size. *)
Lemma feed_spans_extend p b sizes s :
  within p sizes -> sizes <> [] -> feed_spans (p ++ b) sizes s = slot_feed b (feed_spans p sizes s).
Proof.
  intros Hw Hne. revert s. induction sizes as [|x rest IH]; intros s; [done|]. cbn [feed_spans].
  apply Forall_cons in Hw as [Hx Hw]. rewrite length_app.
  replace (Nat.min (Z.to_nat (at_ x)) (length p + length b)) with (Nat.min (Z.to_nat (at_ x)) (length p)) by lia.
  set (i := Nat.min (Z.to_nat (at_ x)) (length p)). destruct rest as [|y rest].
  - cbn [span_end feed_spans]. set (s1 := adopt_pty_size _ s).
    assert (i <= length p)%nat as Hi by (unfold i; lia).
    assert (firstn (length p + length b - i) (skipn i (p ++ b)) = skipn i p ++ b) as ->.
    { rewrite drop_app_le by done. apply firstn_all2. rewrite length_app, length_skipn. lia. }
    assert (firstn (length p - i) (skipn i p) = skipn i p) as -> by (apply firstn_all2; rewrite length_skipn; lia).
    destruct (Nat.ltb_spec i (length p)).
    + rewrite (proj2 (Nat.ltb_lt _ _)) by lia. apply feed_app.
    + assert (skipn i p = []) as -> by (apply length_zero_iff_nil; rewrite length_skipn; lia). cbn [app].
      destruct (Nat.ltb_spec i (length p + length b)); [done|]. assert (b = []) as -> by (apply length_zero_iff_nil; lia).
      unfold slot_feed, feed, set_vt. rewrite vt_write_nil. by destruct s1 as [? ? ? ? [] ].
  - rewrite <- length_app, span_end_app by done. rewrite segment_app by (cbn; lia). by apply IH.
Qed.

(** A new span at the end. *)
Lemma feed_spans_snoc p b sizes c r s :
  within p sizes -> b <> [] ->
  feed_spans (p ++ b) (sizes ++ [mkSpan (len p) c r]) s = slot_feed b (adopt_pty_size (c, r) (feed_spans p sizes s)).
Proof.
  intros Hw Hb. assert (0 < length b)%nat as Hlb by (destruct b; [done|cbn; lia]).
  revert s. induction sizes as [|x rest IH]; intros s.
  { cbn [app feed_spans span_end at_ cols rows]. rewrite Nat2Z.id, length_app, Nat.min_l, drop_app_length by lia.
    rewrite (proj2 (Nat.ltb_lt _ _)) by lia. by rewrite firstn_all2 by lia. }
  apply Forall_cons in Hw as [Hx Hw]. specialize (IH Hw). cbn [app feed_spans]. rewrite length_app.
  replace (Nat.min (Z.to_nat (at_ x)) (length p + length b)) with (Nat.min (Z.to_nat (at_ x)) (length p)) by lia.
  set (i := Nat.min (Z.to_nat (at_ x)) (length p)).
  assert (span_end (length p + length b) (rest ++ [mkSpan (len p) c r]) = span_end (length p) rest) as ->.
  { destruct rest as [|y rest]; cbn; [lia|]. apply Forall_cons in Hw as [Hy _]. lia. }
  rewrite segment_app by (destruct rest; cbn; lia). apply IH.
Qed.

(** ** A hidden terminal and one that is shown *)

Definition known (size : Z * Z) : Prop := size.1 <> 0 /\ size.2 <> 0.
Definition span_known (x : ReplaySizeSpan) : Prop := known (cols x, rows x).

Definition grid s : TerminalVt * option (Z * Z) := (vt s, pty_size s).

Lemma grid_feed bs s1 s2 : grid s1 = grid s2 -> grid (slot_feed bs s1) = grid (slot_feed bs s2).
Proof. unfold grid, slot_feed. cbn. congruence. Qed.

Lemma grid_adopt z s1 s2 : grid s1 = grid s2 -> grid (adopt_pty_size z s1) = grid (adopt_pty_size z s2).
Proof. unfold grid, adopt_pty_size. destruct z. destruct (_ || _); [done|]. cbn. congruence. Qed.

Lemma grid_spans bs sizes s1 s2 : grid s1 = grid s2 -> grid (feed_spans bs sizes s1) = grid (feed_spans bs sizes s2).
Proof.
  revert s1 s2. induction sizes as [|x rest IH]; intros s1 s2 Hg; [done|]. cbn [feed_spans]. apply IH.
  destruct (_ <? _)%nat; [apply grid_feed|]; by apply grid_adopt.
Qed.

Lemma ensure_twice c r bs v : ensure_size c r (feed bs (ensure_size c r v)) = feed bs (ensure_size c r v).
Proof.
  unfold ensure_size. destruct (Z.eqb_spec c (vt_cols v)) as [->|], (Z.eqb_spec r (vt_rows v)) as [->|]; cbn; by rewrite !Z.eqb_refl.
Qed.

Lemma adopt_twice z bs s : adopt_pty_size z (slot_feed bs (adopt_pty_size z s)) = slot_feed bs (adopt_pty_size z s).
Proof.
  assert (forall v w (x : TerminalSlot (T := T)), set_vt v (set_vt w x) = set_vt v x) as Hvv by done.
  assert (forall v p (x : TerminalSlot (T := T)), set_vt v (set_pty p x) = set_pty p (set_vt v x)) as Hvp by done.
  assert (forall p q (x : TerminalSlot (T := T)), set_pty p (set_pty q x) = set_pty p x) as Hpp by done.
  assert (forall v (x : TerminalSlot (T := T)), vt (set_vt v x) = v) as Hv by done.
  assert (forall p (x : TerminalSlot (T := T)), vt (set_pty p x) = vt x) as Hp by done.
  destruct z as [c r]. unfold adopt_pty_size. destruct ((c =? 0) || (r =? 0)); [done|]. unfold slot_feed.
  repeat first [rewrite Hvp|rewrite Hvv|rewrite Hpp|rewrite Hv|rewrite Hp]. by rewrite ensure_twice.
Qed.

Lemma slot_feed_nil s : slot_feed [] s = s.
Proof. unfold slot_feed, feed, set_vt. rewrite vt_write_nil. by destruct s as [? ? ? ? [] ]. Qed.

(** The grid keeps the size of the last span. *)
Lemma adopt_last p sizes z s :
  (fun x => (cols x, rows x)) <$> last sizes = Some z -> adopt_pty_size z (feed_spans p sizes s) = feed_spans p sizes s.
Proof.
  revert s. induction sizes as [|x rest IH]; intros s; [done|]. destruct rest as [|y rest]; [|intros Hl; by apply IH].
  intros [= <-]. cbn [feed_spans]. destruct (_ <? _)%nat; [apply adopt_twice|].
  pose proof (adopt_twice (cols x, rows x) [] s) as Ha. by rewrite slot_feed_nil in Ha.
Qed.

(** The fields beside the grid. *)
Definition beside s : bytes * list ReplaySizeSpan * bool * Z * bytes * option ScrollbackCatchup * Z :=
  (pending_feed s, pending_sizes s, displayed s, last_seq s, recent s, scrollback_catchup s, live_bytes_fed s).

Lemma adopt_beside z s : beside (adopt_pty_size z s) = beside s.
Proof. unfold adopt_pty_size. destruct z. by destruct (_ || _). Qed.

Lemma spans_beside q l s : beside (feed_spans q l s) = beside s.
Proof.
  revert s. induction l as [|y l IH]; intros s; [done|]. cbn [feed_spans]. rewrite IH.
  destruct (_ <? _)%nat; [change (beside (slot_feed ?b ?x)) with (beside x)|]; apply adopt_beside.
Qed.

(** A slot with bytes waiting stands for the one that was fed them. *)
Definition deferred s : TerminalVt * option (Z * Z) := grid (feed_spans (pending_feed s) (pending_sizes s) s).

Record orderly s : Prop := {
  orderly_within : within (pending_feed s) (pending_sizes s);
  orderly_known : Forall span_known (pending_sizes s);
  orderly_nil : pending_sizes s = [] <-> pending_feed s = [];
}.

Lemma deferred_flush s :
  orderly s -> grid (flush_pending s) = deferred s
  /\ beside (flush_pending s) = ([], [], displayed s, last_seq s, recent s, scrollback_catchup s, live_bytes_fed s).
Proof.
  intros [Hw Hk Hn]. unfold flush_pending, deferred. destruct (pending_feed s) as [|x bs] eqn:Ep.
  { unfold beside. by rewrite Ep, (proj2 Hn eq_refl). }
  unfold feed_sized. destruct (pending_sizes s) as [|y l] eqn:Es; [by destruct Hn as [H1 _]; specialize (H1 eq_refl)|].
  rewrite <- Es. destruct (existsb _ _); (split; [by apply grid_spans|]); rewrite spans_beside; by cbn.
Qed.

Lemma deferred_stash bs size s :
  orderly s -> known size -> bs <> [] ->
  deferred (stash_pending bs size s) = grid (slot_feed bs (adopt_pty_size size (feed_spans (pending_feed s) (pending_sizes s) s)))
  /\ orderly (stash_pending bs size s).
Proof.
  intros [Hw Hk Hn] Hz Hb. destruct size as [c r]. assert ((c, r) <> (0, 0)) as Hne by (intros [= -> ->]; by destruct Hz).
  assert (forall n, within (pending_feed s) n -> within (pending_feed s ++ bs) n) as Hgrow
    by (intros n Hf; eapply List.Forall_impl; [|exact Hf]; cbn; intros x; rewrite length_app; lia).
  assert (pending_feed s ++ bs <> []) as Hbs by (destruct (pending_feed s); [done|discriminate]).
  unfold stash_pending. rewrite (bool_decide_eq_true_2 _ Hne). cbn [andb fst snd]. cbv zeta. unfold deferred. case_bool_decide as Hl;
    cbn [pending_sizes pending_feed set_feed set_spans]; split.
  - rewrite <- feed_spans_snoc by done. by apply grid_spans.
  - split; cbn [pending_sizes pending_feed set_feed set_spans].
    + apply Forall_app. split; [by apply Hgrow|]. constructor; [|constructor]. cbn. rewrite length_app. lia.
    + apply Forall_app. split; [done|]. by constructor.
    + split; [by destruct (pending_sizes s)|done].
  - rewrite (adopt_last _ _ (c, r)), <- feed_spans_extend by (try done; intros E; by rewrite E in Hl). by apply grid_spans.
  - split; cbn [pending_sizes pending_feed set_feed set_spans]; [by apply Hgrow|done|]. split; [intros E; by rewrite E in Hl|done].
Qed.

(** A run of output. *)
Definition take_batch (s : TerminalSlot) (b : Batch) : TerminalSlot := let '(first, n, size, bs) := b in take_output false bs first n size s.

Definition full_batch (b : Batch) : Prop := let '(_, _, size, bs) := b in known size /\ bs <> [].

Definition follows (hidden shown : TerminalSlot (T := T)) : Prop :=
  orderly hidden /\ displayed hidden = false /\ displayed shown = true /\ deferred hidden = grid shown
  /\ last_seq hidden = last_seq shown /\ recent hidden = recent shown /\ scrollback_catchup hidden = scrollback_catchup shown
  /\ live_bytes_fed hidden = live_bytes_fed shown.
Lemma follows_batch b h e : full_batch b -> follows h e -> follows (take_batch h b) (take_batch e b).
Proof.
  destruct b as [[[first n] size] bs]. intros [Hz Hb] (Ho & Hh & He & Hg & Hl & Hr & Hc & Hv). unfold take_batch, take_output.
  assert (forall x y : TerminalSlot (T := T), match bs with [] => x | _ => y end = y) as Hm by (by destruct bs).
  cbv zeta. rewrite !Hm, Hh, He. cbn [orb].
  set (h1 := if _ <? len (pending_feed h) + _ then _ else _).
  assert (orderly h1 /\ deferred h1 = grid e /\ displayed h1 = false /\ (PENDING_FEED_CAP < len bs -> pending_feed h1 = [] /\ pending_sizes h1 = [])
    /\ last_seq h1 = last_seq h /\ recent h1 = recent h /\ scrollback_catchup h1 = scrollback_catchup h /\ live_bytes_fed h1 = live_bytes_fed h)
    as (Ho1 & Hd1 & Hs1 & Hp1 & Hk).
  { unfold h1. destruct (deferred_flush h Ho) as [F1 F2]. injection F2 as E1 E2 E3 E4 E5 E6 E7.
    destruct (Z.ltb_spec PENDING_FEED_CAP (len (pending_feed h) + len bs)).
    - split; [split; rewrite ?E1, ?E2; [constructor|constructor|done]|]. unfold deferred at 1. rewrite E1, E2. cbn [feed_spans].
      rewrite F1, E3. by repeat split.
    - repeat split; try done; try apply Ho; lia. }
  clearbody h1. destruct Hk as (K1 & K2 & K3 & K4). destruct (Z.ltb_spec PENDING_FEED_CAP (len bs)) as [Hbig|_].
  - destruct (Hp1 Hbig) as [P1 P2]. unfold deferred in Hd1. rewrite P1, P2 in Hd1. cbn [feed_spans] in Hd1.
    pose proof (adopt_beside size h1) as B1. pose proof (adopt_beside size e) as B2. injection B1 as B11 B12 B13 B14 B15 B16 B17.
    injection B2 as B21 B22 B23 B24 B25 B26 B27. unfold follows, deferred. cbn -[tail_of sat_add record adopt_pty_size].
    rewrite B11, B12, B13, B15, B16, B17, B23, B25, B26, B27, P1, P2. cbn [feed_spans].
    split; [split; cbn; rewrite ?B11, ?B12, ?P1, ?P2; [constructor|constructor|done]|]. repeat split; try congruence.
    apply (grid_feed bs), grid_adopt, Hd1.
  - destruct (deferred_stash bs size h1 Ho1 Hz Hb) as [D1 D2].
    assert (displayed (stash_pending bs size h1) = displayed h1 /\ last_seq (stash_pending bs size h1) = last_seq h1 /\ recent (stash_pending bs size h1) = recent h1
      /\ scrollback_catchup (stash_pending bs size h1) = scrollback_catchup h1 /\ live_bytes_fed (stash_pending bs size h1) = live_bytes_fed h1)
      as (S1 & S2 & S3 & S4 & S5) by (unfold stash_pending; cbv zeta; by destruct (_ && _)).
    pose proof (adopt_beside size e) as B2. injection B2 as B21 B22 B23 B24 B25 B26 B27.
    set (h2 := stash_pending bs size h1) in *. clearbody h2. unfold follows. cbn -[tail_of sat_add record adopt_pty_size]. rewrite S1, S3, S4, S5, B23, B25, B26, B27.
    split; [destruct D2; by split|]. repeat split; try congruence.
    transitivity (deferred h2); [by apply grid_spans|]. rewrite D1. apply (grid_feed bs), grid_adopt, Hd1.
Qed.

(** C17: Hiding a terminal does not change what its grid becomes.  Take a hidden slot in
    which nothing waits, and any runs of output that have bytes and a known size and
    come while the focus is elsewhere: what waits, with the flushes its bound forces,
    and one flush at the end leave the same parser, at the same size, as the same output
    fed to the slot when it is shown; and the same number, recent output, record of live
    output and count of bytes beside the grid. *)
Theorem a_hidden_terminal_catches_up s batches :
  displayed s = false -> pending_feed s = [] -> pending_sizes s = [] -> Forall full_batch batches ->
  let hidden := flush_pending (fold_left take_batch batches s) in
  let shown := fold_left take_batch batches (set_displayed true s) in
  vt hidden = vt shown /\ pty_size hidden = pty_size shown /\ last_seq hidden = last_seq shown
  /\ recent hidden = recent shown /\ scrollback_catchup hidden = scrollback_catchup shown
  /\ live_bytes_fed hidden = live_bytes_fed shown.
Proof.
  intros Hd Hp Hz Hb. cbv zeta. assert (follows s (set_displayed true s)) as Hf.
  { split; [split; rewrite ?Hp, ?Hz; [constructor|constructor|done]|]. unfold deferred. rewrite Hp, Hz. by repeat split. }
  assert (follows (fold_left take_batch batches s) (fold_left take_batch batches (set_displayed true s))) as (Ho & _ & _ & Hg & Hk).
  { revert Hf. generalize (set_displayed true s) as e. clear Hd Hp Hz. revert s. induction Hb as [|b l Hb Hl IH]; intros h e Hf; [done|].
    cbn [fold_left]. by apply IH, follows_batch. }
  destruct (deferred_flush _ Ho) as [F1 F2]. rewrite Hg in F1. injection F1 as -> ->. injection F2 as _ _ _ -> -> -> ->.
  destruct Hk as (-> & -> & -> & ->). done.
Qed.

End Spans.

(** ** The tape *)

Definition Sized : Type := list (ascii * (Z * Z)).
Definition Tape : Type := (Z * Z) * Sized.

Definition at_size (size : Z * Z) (bs : bytes) : Sized := map (fun b => (b, size)) bs.

#[export] Instance tape_vt : Vt Tape := {
  vt_new := ((DEFAULT_COLS, DEFAULT_ROWS), []);
  vt_write bs v := (v.1, v.2 ++ at_size v.1 bs);
  vt_resize c r v := ((c, r), v.2);
  vt_total v := Some (len v.2);
  vt_mode _ _ := None;
}.

#[export] Instance tape_laws : VtLaws Tape.
Proof.
  split; cbn.
  - intros a b [z l]. unfold at_size. cbn. by rewrite map_app, app_assoc.
  - intros [z l]. by rewrite app_nil_r.
  - done.
  - done.
Qed.

Notation Slot := (TerminalSlot (T := Tape)).
Notation Client := (TerminalStack (T := Tape)).

Definition on_tape (s : Slot) : Sized := (terminal (vt s)).2.
Definition size_now (s : Slot) : Z * Z := (vt_cols (vt s), vt_rows (vt s)).

(** The tape knows the size the slot believes. *)
Definition sized (s : Slot) : Prop := (terminal (vt s)).1 = size_now s.

Lemma adopt_tape size s : sized s -> sized (adopt_pty_size size s) /\ on_tape (adopt_pty_size size s) = on_tape s.
Proof.
  intros Hs. unfold adopt_pty_size. destruct size as [c r]. destruct (_ || _); [done|]. unfold sized, on_tape, size_now, ensure_size in *. cbn.
  by destruct (_ && _).
Qed.

Lemma adopt_known size s : known size -> size_now (adopt_pty_size size s) = size.
Proof.
  destruct size as [c r]. intros [Hc Hr]. cbn in *. rewrite (proj2 (Z.eqb_neq _ _) Hc), (proj2 (Z.eqb_neq _ _) Hr). cbn.
  unfold size_now, ensure_size. cbn. destruct (Z.eqb_spec c (vt_cols (vt s))), (Z.eqb_spec r (vt_rows (vt s))); cbn; congruence.
Qed.

Lemma feed_tape bs s : sized s -> sized (slot_feed bs s) /\ on_tape (slot_feed bs s) = on_tape s ++ at_size (size_now s) bs.
Proof. unfold sized, on_tape. intros Hs. cbn. by rewrite Hs. Qed.

(** Feeding a run at a known size. *)
Lemma feed_at bs size s : sized s -> known size -> on_tape (slot_feed bs (adopt_pty_size size s)) = on_tape s ++ at_size size bs.
Proof.
  intros Hs Hk. destruct (adopt_tape size s Hs) as [Hs1 <-]. destruct (feed_tape bs _ Hs1) as [_ ->]. by rewrite adopt_known.
Qed.

(** ** What a slot was given *)

(** A run of bytes at the sizes of its spans. *)
Fixpoint read_spans (bs : bytes) (sizes : list ReplaySizeSpan) : Sized :=
  match sizes with
  | [] => []
  | x :: rest =>
      let start := Nat.min (Z.to_nat (at_ x)) (length bs) in
      at_size (cols x, rows x) (firstn (span_end (length bs) rest - start) (skipn start bs)) ++ read_spans bs rest
  end.

Lemma at_size_app z a b : at_size z (a ++ b) = at_size z a ++ at_size z b.
Proof. apply map_app. Qed.

Lemma read_nil sizes : read_spans [] sizes = [].
Proof. induction sizes as [|x rest IH]; [done|]. cbn [read_spans]. by rewrite drop_nil, take_nil. Qed.

Lemma read_snoc p b sizes c r :
  within p sizes -> read_spans (p ++ b) (sizes ++ [mkSpan (len p) c r]) = read_spans p sizes ++ at_size (c, r) b.
Proof.
  intros Hw. induction sizes as [|x rest IH].
  { cbn [app read_spans span_end at_ cols rows]. rewrite Nat2Z.id, length_app, Nat.min_l, drop_app_length by lia.
    by rewrite firstn_all2, app_nil_r by lia. }
  apply Forall_cons in Hw as [Hx Hw]. specialize (IH Hw). cbn [app read_spans]. rewrite IH, app_assoc, length_app. do 3 f_equal.
  replace (Nat.min (Z.to_nat (at_ x)) (length p + length b)) with (Nat.min (Z.to_nat (at_ x)) (length p)) by lia.
  assert (span_end (length p + length b) (rest ++ [mkSpan (len p) c r]) = span_end (length p) rest) as ->.
  { destruct rest as [|y rest]; cbn; [lia|]. apply Forall_cons in Hw as [Hy _]. lia. }
  apply segment_app. destruct rest; cbn; lia.
Qed.

Lemma read_extend p b sizes z :
  within p sizes -> (fun x => (cols x, rows x)) <$> last sizes = Some z ->
  read_spans (p ++ b) sizes = read_spans p sizes ++ at_size z b.
Proof.
  intros Hw. induction sizes as [|x rest IH]; [done|]. apply Forall_cons in Hw as [Hx Hw]. cbn [read_spans]. rewrite length_app.
  replace (Nat.min (Z.to_nat (at_ x)) (length p + length b)) with (Nat.min (Z.to_nat (at_ x)) (length p)) by lia.
  set (i := Nat.min _ _). assert (i <= length p)%nat as Hi by (unfold i; lia). destruct rest as [|y rest].
  - intros [= <-]. cbn [read_spans span_end]. rewrite !app_nil_r, drop_app_le by done.
    rewrite (firstn_all2 (skipn i p ++ b)) by (rewrite length_app, length_skipn; lia).
    by rewrite at_size_app, firstn_all2 by (rewrite length_skipn; lia).
  - intros Hl. rewrite <- length_app, span_end_app by done. rewrite segment_app by (cbn; lia).
    rewrite <- app_assoc. f_equal. by apply IH.
Qed.

(** Everything it was given, in its grid or waiting. *)
Definition content (s : Slot) : Sized := on_tape s ++ read_spans (pending_feed s) (pending_sizes s).

(** What waits has a known size. *)
Record tidy (s : Slot) : Prop := {
  tidy_sized : sized s;
  tidy_within : within (pending_feed s) (pending_sizes s);
  tidy_known : Forall span_known (pending_sizes s);
  tidy_spans : pending_sizes s = [] -> pending_feed s = [];
}.

(** The fields that feeding leaves alone. *)
Definition rest_of (s : Slot) : Z * TerminalStreamSync * bool * bool * option ScrollbackCatchup :=
  (last_seq s, sync s, exited s, displayed s, scrollback_catchup s).

Lemma adopt_rest size s : rest_of (adopt_pty_size size s) = rest_of s /\ pending_feed (adopt_pty_size size s) = pending_feed s
  /\ pending_sizes (adopt_pty_size size s) = pending_sizes s.
Proof. unfold adopt_pty_size. destruct size. by destruct (_ || _). Qed.

Lemma feed_spans_tape bs sizes s :
  sized s -> Forall span_known sizes ->
  let s' := feed_spans bs sizes s in
  sized s' /\ on_tape s' = on_tape s ++ read_spans bs sizes /\ rest_of s' = rest_of s
  /\ pending_feed s' = pending_feed s /\ pending_sizes s' = pending_sizes s.
Proof.
  intros Hs Hk. revert s Hs. induction Hk as [|x rest Hx Hk IH]; intros s Hs; cbn [feed_spans read_spans]; cbv zeta.
  { by rewrite app_nil_r. }
  destruct (adopt_tape (cols x, rows x) s Hs) as [Hs1 Ht1]. destruct (adopt_rest (cols x, rows x) s) as (Hr & Hp & Hz).
  pose proof (adopt_known (cols x, rows x) s Hx) as Hn. set (s1 := adopt_pty_size _ s) in *. set (i := Nat.min _ _).
  destruct (Nat.ltb_spec i (span_end (length bs) rest)).
  - destruct (feed_tape (firstn (span_end (length bs) rest - i) (skipn i bs)) s1 Hs1) as [Hs2 Ht2].
    destruct (IH _ Hs2) as (H1 & -> & -> & -> & ->). rewrite Ht2, Hn, Ht1, <- app_assoc. done.
  - replace (span_end (length bs) rest - i)%nat with 0%nat by lia. cbn [firstn at_size map app].
    destruct (IH _ Hs1) as (H1 & -> & -> & -> & ->). by rewrite Ht1.
Qed.

Lemma answered_same s : sized s -> sized (mark_answered s) /\ on_tape (mark_answered s) = on_tape s /\ rest_of (mark_answered s) = rest_of s
  /\ pending_feed (mark_answered s) = pending_feed s /\ pending_sizes (mark_answered s) = pending_sizes s.
Proof. done. Qed.

Lemma feed_sized_tape bs sizes s :
  sized s -> Forall span_known sizes -> (sizes = [] -> bs = []) ->
  let s' := feed_sized bs sizes s in
  sized s' /\ on_tape s' = on_tape s ++ read_spans bs sizes /\ rest_of s' = rest_of s
  /\ pending_feed s' = pending_feed s /\ pending_sizes s' = pending_sizes s.
Proof.
  intros Hs Hk Hn. unfold feed_sized. destruct sizes as [|x rest].
  - rewrite (Hn eq_refl). destruct (feed_tape [] s Hs) as [H1 H2]. split; [done|]. split; [exact H2|done].
  - destruct (existsb _ _); [|by apply feed_spans_tape]. destruct (answered_same s Hs) as (H1 & H2 & H3 & H4 & H5).
    destruct (feed_spans_tape bs (x :: rest) _ H1 Hk) as (? & -> & -> & -> & ->). by rewrite H2, H3, H4, H5.
Qed.

Lemma flush_tape s :
  tidy s -> let s' := flush_pending s in
  tidy s' /\ content s' = content s /\ on_tape s' = content s /\ pending_feed s' = [] /\ rest_of s' = rest_of s.
Proof.
  intros [Hs Hw Hk Hn]. unfold flush_pending, content. destruct (pending_feed s) as [|x bs] eqn:Ep.
  { rewrite Ep, read_nil, app_nil_r. split; [|done]. rewrite <- Ep in *. by split. }
  rewrite <- Ep in *. assert (pending_sizes s = [] -> pending_feed s = []) as Hn' by done.
  destruct (feed_sized_tape (pending_feed s) (pending_sizes s) (set_spans [] (set_feed [] s)) Hs Hk Hn') as (H1 & H2 & H3 & H4 & H5).
  rewrite H4, H5, H2. cbn [pending_feed pending_sizes set_spans set_feed read_spans]. rewrite app_nil_r.
  split; [|done]. split; rewrite ?H4, ?H5; [done|constructor|constructor|done].
Qed.

Lemma content_idle s : pending_feed s = [] -> content s = on_tape s.
Proof. intros Hp. unfold content. by rewrite Hp, read_nil, app_nil_r. Qed.

Lemma feed_content bs size s :
  tidy s -> pending_feed s = [] -> known size ->
  let s' := slot_feed bs (adopt_pty_size size s) in
  tidy s' /\ content s' = content s ++ at_size size bs /\ pending_feed s' = [] /\ rest_of s' = rest_of s.
Proof.
  intros [Hs Hw Hk Hn] Hp Hz. destruct (adopt_rest size s) as (Hr & Hp' & Hz'). destruct (adopt_tape size s Hs) as [Hs1 _].
  destruct (feed_tape bs _ Hs1) as [Hs2 _]. cbv zeta. assert (pending_feed (slot_feed bs (adopt_pty_size size s)) = []) as Hp2 by (cbn; congruence).
  rewrite !content_idle by done. rewrite (feed_at bs size s Hs Hz). split; [|split; [done|split; [done|exact Hr]]].
  rewrite <- Hp', <- Hz' in *. by split.
Qed.

Lemma stash_content bs size s :
  tidy s -> known size ->
  let s' := stash_pending bs size s in tidy s' /\ content s' = content s ++ at_size size bs /\ rest_of s' = rest_of s.
Proof.
  intros [Hs Hw Hk Hn] Hz. destruct size as [c r]. assert ((c, r) <> (0, 0)) as Hne by (intros [= -> ->]; by destruct Hz).
  assert (forall n, within (pending_feed s) n -> within (pending_feed s ++ bs) n) as Hgrow
    by (intros n Hf; eapply List.Forall_impl; [|exact Hf]; cbn; intros x; rewrite length_app; lia).
  unfold stash_pending. rewrite (bool_decide_eq_true_2 _ Hne). cbn [andb fst snd]. cbv zeta. case_bool_decide as Hl.
  - split.
    + split; [done| | |]; cbn [pending_sizes pending_feed set_feed set_spans].
      * apply Forall_app. split; [by apply Hgrow|]. constructor; [|constructor]. cbn. rewrite length_app. lia.
      * apply Forall_app. split; [done|]. by constructor.
      * by destruct (pending_sizes s).
    + split; [|done]. unfold content. cbn [pending_sizes pending_feed set_feed set_spans]. rewrite read_snoc, app_assoc by done. done.
  - split.
    + split; [done|by apply Hgrow|done|]. intros E. cbn in E. by rewrite E in Hl.
    + split; [|done]. unfold content. cbn [pending_sizes pending_feed set_feed set_spans]. rewrite (read_extend _ _ _ (c, r)), app_assoc by done. done.
Qed.
