(* ===== verification/TerminalSyncGrid.v ===== *)
(** * What a client's grid shows

    What a client is told and asked to do, as the operations of TerminalSync.v in any
    order; and what its grids are then made of. *)

From Stdlib Require Import Ascii.
From S2P Require Import Prelude ReplayRing EventForward TerminalSync TerminalSyncProps.

#[local] Open Scope Z_scope.

#[local] Notation bytes := (list ascii).
#[local] Notation len l := (Z.of_nat (length l)).

(** ** The operations of a client *)

Inductive ClientOp :=
| COutput (focused : option Z) (id : Z) (bs : bytes) (first n : Z) (size : Z * Z)
| CResync (fresh : bool) (id : Z) (bs : bytes) (n : Z) (sizes : list ReplaySizeSpan)
| CUnavailable (now id : Z)
| CSnapshot (focused : option Z) (snapshots : list TerminalSnapshot)
| CSpawned (id : Z)
| CReplaced (fresh authenticating : bool) (old id : Z)
| CExited (kept painted fresh : bool) (id : Z)
| CCapture (fresh : bool) (now id : Z) (bs : bytes) (n : Z)
| CScrollUp (now id : Z)
| CEndVisit (id : Z)
| CHideAll
| CDraw (now : Z) (size : Z * Z) (id : Z)
| CRead (id : Z)
| CFlush (room : nat)
| CTick (now : Z)
| CDistrust (visible : list Z).

Definition on_slot {T} (f : TerminalSlot (T := T) -> TerminalSlot) (id : Z) (k : TerminalStack) : TerminalStack :=
  match terminals k !! id with Some s => put_slot id (f s) k | None => k end.

Definition client_op {T} `{Vt T} (k : TerminalStack (T := T)) (o : ClientOp) : TerminalStack :=
  match o with
  | COutput focused id bs first n size => append_output focused id bs first n size k
  | CResync fresh id bs n sizes => resync_terminal fresh id bs n sizes k
  | CUnavailable now id => resync_unavailable now id k
  | CSnapshot focused snapshots => on_snapshot focused snapshots k
  | CSpawned id => on_spawned id k
  | CReplaced fresh authenticating old id => on_replaced fresh authenticating old id k
  | CExited kept painted fresh id => on_exited kept painted fresh id k
  | CCapture fresh now id bs n => on_scrollback fresh now id bs n k
  | CScrollUp now id => on_slot (fun s => (scroll_up now s).1) id k
  | CEndVisit id => on_slot end_scrollback_visit id k
  | CHideAll => hide_all k
  | CDraw now size id => (render_one_terminal now size id k).1
  | CRead id => read_grid id k
  | CFlush room => (flush_pending_terminal_resyncs room k).2
  | CTick now => tick_resync_retries now k
  | CDistrust visible => mark_visible_desynced visible k
  end.

Definition run_client {T} `{Vt T} (ops : list ClientOp) (k : TerminalStack (T := T)) : TerminalStack := fold_left client_op ops k.

Definition no_terminals {T} : TerminalStack (T := T) := mkStack ∅ [].

(** ** The stream of a terminal *)

Section Terminal.

(** The terminal, and what the daemon broadcast of it: each chunk by its number, its bytes
    at their size. *)
Context (t : Z) (chunk : Z -> Sized).

(** The chunks behind [a] up to [n]. *)
Definition stream (a n : Z) : Sized := concat (map chunk (seqZ (a + 1) (n - a))).

Lemma stream_empty a n : n <= a -> stream a n = [].
Proof. intros Hn. unfold stream. by rewrite seqZ_nil by lia. Qed.

Lemma stream_cut a m n : a <= m <= n -> stream a n = stream a m ++ stream m n.
Proof.
  intros Hm. unfold stream. rewrite <- concat_app, <- map_app. do 2 f_equal.
  replace (n - a) with ((m - a) + (n - m)) by lia. rewrite seqZ_app by lia. do 2 f_equal. lia.
Qed.

(** Output as the daemon sent it. *)
Definition truthful (first n : Z) (size : Z * Z) (bs : bytes) : Prop :=
  first <= n <= u64_max /\ known size /\ at_size size bs = stream (first - 1) n.

(** A replay whose bytes have known sizes. *)
Definition sized_replay (bs : bytes) (sizes : list ReplaySizeSpan) : Prop :=
  within bs sizes /\ Forall span_known sizes /\ (sizes = [] -> bs = []).

(** The number at which the last scroll upwards asked for the scrollback. *)
Definition armed_at (s : Slot) : Z :=
  match scrollback_catchup s with
  | Some c => match batches c with (first, _, _, _) :: _ => first - 1 | [] => last_seq s end
  | None => last_seq s
  end.

(** What the daemon is relied on for, and of the client that the hidden terminal the focus
    is on was drawn before its output comes, that a capture answers the last request, and
    that a terminal is not replaced under an open one. *)
Definition calm_slot (o : ClientOp) (s : option Slot) : Prop :=
  match o with
  | COutput focused id bs first n size =>
      id = t -> (first <= n -> truthful first n size bs)
        /\ (focused = Some t -> forall s0, s = Some s0 -> displayed s0 = false -> pending_feed s0 = [])
  | CResync _ id bs n sizes => id = t -> sized_replay bs sizes
  | CSnapshot _ snapshots => Forall (fun x => snapshot_id x = t -> sized_replay (snapshot_replay x) (replay_sizes x)) snapshots
  | CCapture _ _ id _ n => id = t -> forall s0, s = Some s0 -> is_some_and unusable (scrollback_catchup s0) = true \/ armed_at s0 <= n
  | CReplaced fresh authenticating _ id =>
      id = t -> authenticating = false -> forall s0, s = Some s0 -> fresh = true /\ scrollback_catchup s0 = None
  | _ => True
  end.

(** What an operation hands the terminal to begin from: up to which number, and what. *)
Definition hands (o : ClientOp) (s : option Slot) : list (Z * Sized) :=
  match o with
  | CResync _ id bs n sizes => if id =? t then [(n, read_spans bs sizes)] else []
  | CSnapshot _ snapshots =>
      flat_map (fun x => if snapshot_id x =? t
                         then [(snapshot_seq x, if replay_available x then read_spans (snapshot_replay x) (replay_sizes x) else [])]
                         else []) snapshots
  | CSpawned id | CReplaced _ _ _ id => if id =? t then [(0, [])] else []
  | CCapture _ _ id bs n =>
      match s with Some s => if id =? t then [(n, at_size (size_now s) bs)] else [] | None => [] end
  | _ => []
  end.

Fixpoint calm (ops : list ClientOp) (k : Client) : Prop :=
  match ops with [] => True | o :: ops => calm_slot o (terminals k !! t) /\ calm ops (client_op k o) end.

Fixpoint handed (ops : list ClientOp) (k : Client) : list (Z * Sized) :=
  match ops with [] => [] | o :: ops => hands o (terminals k !! t) ++ handed ops (client_op k o) end.

(** ** The invariant *)

(** The recorded batches go on from [a] to [z]. *)
Fixpoint chain (a : Z) (l : list Batch) (z : Z) : Prop :=
  match l with
  | [] => a = z
  | (first, n, size, bs) :: l => first = a + 1 /\ truthful first n size bs /\ chain n l z
  end.

Definition based (h : list (Z * Sized)) (n : Z) (c : Sized) : Prop :=
  exists b base, (b, base) ∈ h /\ b <= n /\ c = base ++ stream b n.

Definition caught (s : Slot) : Prop :=
  forall c, scrollback_catchup s = Some c -> unusable c = false -> exists a, chain a (batches c) (last_seq s).

Record held (h : list (Z * Sized)) (s : Slot) : Prop := {
  held_tidy : tidy s;
  held_displayed : displayed s = true -> pending_feed s = [];
  held_based : exited s = false -> based h (last_seq s) (content s);
  held_caught : caught s;
}.

Lemma based_more h h' n c : based h n c -> based (h ++ h') n c.
Proof. intros (b & base & Hin & Hb). exists b, base. split; [|done]. apply elem_of_app. by left. Qed.

Lemma held_more h h' s : held h s -> held (h ++ h') s.
Proof. intros [H1 H2 H3 H4]. split; try done. intros He. by apply based_more, H3. Qed.

Lemma based_on h m n c c' : based h m c -> m <= n -> c' = c ++ stream m n -> based h n c'.
Proof.
  intros (b & base & Hin & Hb & ->) Hn ->. exists b, base. split; [done|]. split; [lia|]. by rewrite <- app_assoc, (stream_cut b m n) by lia.
Qed.

Lemma based_new h n c : (n, c) ∈ h -> based h n c.
Proof. intros Hin. exists n, c. split; [done|]. split; [lia|]. by rewrite stream_empty, app_nil_r by lia. Qed.

(** ** The recorded batches *)

Lemma chain_le a l z : chain a l z -> a <= z.
Proof.
  revert a. induction l as [|[[[f n] size] bs] l IH]; intros a; cbn; [lia|].
  intros (-> & [Hf _] & Hc). specialize (IH _ Hc). lia.
Qed.

Lemma chain_snoc a l z n size bs : chain a l z -> truthful (z + 1) n size bs -> chain a (l ++ [(z + 1, n, size, bs)]) n.
Proof.
  revert a. induction l as [|[[[f m] sz] b] l IH]; intros a; cbn; [by intros ->|]. intros (-> & Ht & Hc) Hn. split; [done|]. split; [done|]. by apply IH.
Qed.

Definition batch_content (b : Batch) : Sized := let '(_, _, size, bs) := b in at_size size bs.

Lemma chain_all n a l z :
  chain a l z -> n <= a -> List.filter (fun '(_, stop, _, _) => n <? stop) l = l /\ concat (map batch_content l) = stream a z.
Proof.
  revert a. induction l as [|[[[f m] sz] b] l IH]; intros a; cbn.
  - intros <- _. by rewrite stream_empty by lia.
  - intros (-> & (Hf & _ & Hb) & Hc) Hn. rewrite (proj2 (Z.ltb_lt _ _)) by lia. destruct (IH m Hc ltac:(lia)) as [-> ->].
    split; [done|]. pose proof (chain_le _ _ _ Hc). rewrite Hb. replace (a + 1 - 1) with a by lia. by rewrite <- stream_cut by lia.
Qed.

(** Those a capture does not hold go on from where it ends. *)
Lemma chain_uncovered n a l z :
  chain a l z -> a <= n -> existsb (fun '(first, stop, _, _) => (first <=? n) && (n <? stop)) l = false ->
  concat (map batch_content (List.filter (fun '(_, stop, _, _) => n <? stop) l)) = stream n z.
Proof.
  revert a. induction l as [|[[[f m] sz] b] l IH]; intros a; cbn.
  - intros <- Hn _. by rewrite stream_empty by lia.
  - intros (-> & Ht & Hc) Hn [Hs Hr]%orb_false_iff. destruct (Z.ltb_spec n m) as [Hlt|Hle].
    + assert (a = n) as -> by (destruct (Z.leb_spec (a + 1) n); [done|lia]).
      destruct (chain_all n n ((n + 1, m, sz, b) :: l) z) as [_ <-]; [by split|lia|].
      destruct (chain_all n m l z Hc ltac:(lia)) as [-> _]. done.
    + by apply (IH m Hc).
Qed.

(** ** Output *)

Lemma take_content eager bs size s :
  tidy s -> known size -> (displayed s || eager = true -> pending_feed s = []) ->
  let s' :=
    if displayed s || eager then slot_feed bs (adopt_pty_size size s)
    else
      let s := if PENDING_FEED_CAP <? len (pending_feed s) + len bs then flush_pending s else s in
      if PENDING_FEED_CAP <? len bs then slot_feed bs (adopt_pty_size size s) else stash_pending bs size s in
  tidy s' /\ content s' = content s ++ at_size size bs /\ rest_of s' = rest_of s
  /\ (displayed s || eager = true -> pending_feed s' = []).
Proof.
  intros Ht Hz Hd. destruct (displayed s || eager) eqn:Ed; cbv zeta.
  { destruct (feed_content bs size s Ht (Hd eq_refl) Hz) as (H1 & H2 & H3 & H4). auto. }
  set (s1 := if _ <? len (pending_feed s) + _ then _ else _).
  assert (tidy s1 /\ content s1 = content s /\ rest_of s1 = rest_of s /\ (PENDING_FEED_CAP < len bs -> pending_feed s1 = [])) as (H1 & H2 & H3 & H4).
  { unfold s1. destruct (flush_tape s Ht) as (F1 & F2 & _ & F4 & F5). destruct (Z.ltb_spec PENDING_FEED_CAP (len (pending_feed s) + len bs)); [auto|].
    split; [done|]. split; [done|]. split; [done|]. lia. }
  rewrite <- H2, <- H3. destruct (Z.ltb_spec PENDING_FEED_CAP (len bs)) as [Hb|Hb].
  - destruct (feed_content bs size s1 H1 (H4 Hb) Hz) as (F1 & F2 & _ & F4). split; [exact F1|]. split; [exact F2|]. by split.
  - destruct (stash_content bs size s1 H1 Hz) as (F1 & F2 & F3). split; [exact F1|]. split; [exact F2|]. by split.
Qed.

Lemma held_same h s s' :
  held h s -> vt s' = vt s -> pending_feed s' = pending_feed s -> pending_sizes s' = pending_sizes s -> last_seq s' = last_seq s ->
  (exited s' = false -> exited s = false) -> (displayed s' = true -> displayed s = true \/ pending_feed s = []) ->
  scrollback_catchup s' = scrollback_catchup s \/ scrollback_catchup s' = None \/ scrollback_catchup s' = Some no_catchup ->
  held h s'.
Proof.
  intros [[H1 H2 H3 H4] Hd Hb Hc] Ev Ep Es El Ee Hd' Hc'. split.
  - split; [unfold sized, size_now in *; by rewrite Ev|by rewrite Ep, Es|by rewrite Es|by rewrite Ep, Es].
  - intros Hx. rewrite Ep. destruct (Hd' Hx); auto.
  - intros He. unfold content, on_tape. rewrite Ev, Ep, Es, El. apply Hb, Ee, He.
  - intros c Ex Hu. rewrite El. destruct Hc' as [Hc'|[Hc'|Hc']]; rewrite Hc' in Ex; [by apply Hc|done|].
    injection Ex as <-. by exists (last_seq s).
Qed.

Lemma caught_record s first n size bs c :
  caught s -> first = last_seq s + 1 -> truthful first n size bs -> record first n size bs <$> scrollback_catchup s = Some c ->
  unusable c = false -> exists a, chain a (batches c) n.
Proof.
  intros Hc -> Ht. destruct (scrollback_catchup s) as [c0|] eqn:E; [|done]. cbn. intros [= <-]. unfold record.
  destruct (unusable c0) eqn:Eu; [congruence|]. destruct (_ <? _); [done|]. intros _. destruct (Hc c0 E Eu) as [a Ha].
  exists a. cbn. by apply chain_snoc.
Qed.

Lemma held_output h eager bs first n size s :
  held h s -> first = last_seq s + 1 -> truthful first n size bs -> (displayed s || eager = true -> pending_feed s = []) ->
  held h (take_output eager bs first n size s).
Proof.
  intros [Ht Hd Hb Hc] Hf Htr Hp. pose proof Htr as (Hn & Hz & Hbs). unfold take_output. set (s1 := match bs with [] => _ | _ => s end).
  assert (tidy s1 /\ content s1 = content s /\ rest_of s1 = rest_of s /\ pending_feed s1 = pending_feed s) as (H1 & H2 & H3 & H4).
  { unfold s1. destruct bs; [|done]. split; [|done]. destruct Ht. by split. }
  assert (displayed s1 = displayed s) as Hds by (unfold rest_of in H3; congruence).
  pose proof (take_content eager bs size s1 H1 Hz ltac:(rewrite Hds, H4; exact Hp)) as (F1 & F2 & F3 & F4).
  cbv zeta in *. set (s2 := if displayed s1 || eager then _ else _) in *. rewrite H3 in F3. rewrite H2 in F2. injection F3 as E1 E2 E3 E4 E5.
  split.
  - destruct F1. by split.
  - cbn. rewrite E4. intros Hx. apply F4. by rewrite Hds, Hx.
  - cbn. rewrite E3. intros Hx. apply (based_on h (last_seq s) n (content s)); [by apply Hb|lia|].
    rewrite Hf in Hbs. replace (last_seq s + 1 - 1) with (last_seq s) in Hbs by lia. rewrite <- Hbs. exact F2.
  - intros c. cbn. rewrite E5. by apply caught_record.
Qed.

(** ** A new beginning *)

Lemma ensure_new c r :
  let v := ensure_size c r new_vt in (terminal (T := Tape) v).1 = (c, r) /\ (terminal v).2 = [] /\ vt_cols v = c /\ vt_rows v = r.
Proof.
  unfold ensure_size. cbn. destruct (Z.eqb_spec c DEFAULT_COLS), (Z.eqb_spec r DEFAULT_ROWS); cbn; subst; done.
Qed.

Lemma reset_new fresh (v v' : TerminalVt (T := Tape)) :
  reset fresh v = Some v' -> (terminal v').1 = (vt_cols v', vt_rows v') /\ (terminal v').2 = [] /\ fresh = true.
Proof. unfold reset. destruct fresh; [|done]. intros [= <-]. destruct (ensure_new (vt_cols v) (vt_rows v)) as (H1 & H2 & -> & ->). done. Qed.

(** A slot whose parser is fresh and which has nothing but a replay. *)
Lemma held_fresh h (s : Slot) bs n sizes :
  (n, read_spans bs sizes) ∈ h -> sized_replay bs sizes -> sized s -> on_tape s = [] -> last_seq s = n -> displayed s = false ->
  scrollback_catchup s = None -> held h (set_spans sizes (set_feed bs s)).
Proof.
  intros Hin (Hw & Hk & Hn) Hs Ht Hl Hd Hc. split.
  - by split.
  - cbn. by rewrite Hd.
  - intros _. cbn [last_seq set_spans set_feed]. rewrite Hl. apply based_new. unfold content.
    change (on_tape (set_spans sizes (set_feed bs s))) with (on_tape s). by rewrite Ht.
  - intros c. cbn. by rewrite Hc.
Qed.

Lemma fresh_held h x before :
  (snapshot_seq x, read_spans (snapshot_replay x) (replay_sizes x)) ∈ h -> sized_replay (snapshot_replay x) (replay_sizes x) ->
  held h (set_spans (replay_sizes x) (set_feed (snapshot_replay x) (fresh_slot x before))).
Proof.
  intros Hin Hr. unfold fresh_slot. destruct before as [p|]; [destruct (known_size p)|]; apply (held_fresh h _ _ (snapshot_seq x)); try done;
    destruct (ensure_new (vt_cols (vt p)) (vt_rows (vt p))) as (V1 & V2 & V3 & V4); unfold sized, size_now, on_tape; cbn; congruence.
Qed.

Lemma held_make h n : (n, []) ∈ h -> held h (make_slot n).
Proof. intros Hin. apply (held_fresh h (make_slot n) [] n []); try done. split; [constructor|]. split; [constructor|done]. Qed.

Lemma held_adopt h fresh bs n sizes s v :
  (n, read_spans bs sizes) ∈ h -> sized_replay bs sizes -> reset fresh (vt s) = Some v -> held h (adopt_replay bs n sizes (set_vt v s)).
Proof.
  intros Hin (Hw & Hk & Hn) (Hv & Ht & _)%reset_new. unfold adopt_replay.
  destruct (feed_sized_tape bs sizes (set_vt v s) Hv Hk Hn) as (H1 & H2 & _). cbv zeta. set (s1 := feed_sized bs sizes (set_vt v s)) in *.
  change (on_tape (set_vt v s)) with (terminal v).2 in H2. rewrite Ht in H2. split.
  - split; [exact H1|constructor|constructor|done].
  - done.
  - intros _. apply based_new. unfold content. cbn [pending_feed pending_sizes set_catchup set_stale set_deep read_spans].
    rewrite app_nil_r. change (on_tape _) with (on_tape s1). by rewrite H2.
  - intros c Ec Hu. cbn in Ec. destruct (scrollback_catchup s1); [|done]. by injection Ec as <-.
Qed.

Lemma held_flush h s : held h s -> held h (flush_pending s) /\ pending_feed (flush_pending s) = [].
Proof.
  intros [Ht Hd Hb Hc]. destruct (flush_tape s Ht) as (F1 & F2 & _ & F4 & F5). injection F5 as E1 E2 E3 E4 E5. split; [|done].
  split; [done|done|by rewrite E3, E1, F2|]. intros c. rewrite E5, E1. apply Hc.
Qed.

Lemma held_draw h size s : held h s -> held h (draw size s).
Proof.
  intros [[H1 H2 H3 H4] Hd Hb Hc]. unfold draw. cbv zeta. cbn [pty_size set_displayed].
  set (s1 := match pty_size s with None => _ | Some _ => _ end).
  assert (tidy s1 /\ content s1 = content s /\ last_seq s1 = last_seq s /\ exited s1 = exited s /\ scrollback_catchup s1 = scrollback_catchup s)
    as (T1 & T2 & T3 & T4 & T5).
  { unfold s1. destruct (pty_size s); [by repeat split|]. unfold content, on_tape, ensure_size.
    destruct (_ && _) eqn:E; (split; [split; try done; unfold sized, size_now; cbn; rewrite ?E|]); try done; by rewrite ?E. }
  destruct (flush_tape s1 T1) as (F1 & F2 & _ & F4 & F5). injection F5 as E1 E2 E3 E4 E5.
  split; [done|done|by rewrite E3, E1, F2, T2, T3, T4|]. intros c. rewrite E5, E1, T3, T5. apply Hc.
Qed.

(** ** A capture *)

Lemma refeed_all l (s : Slot) :
  sized s -> Forall (fun b : Batch => let '(_, _, size, _) := b in known size) l ->
  let s' := fold_left refeed l s in
  sized s' /\ on_tape s' = on_tape s ++ concat (map batch_content l) /\ rest_of s' = rest_of s.
Proof.
  intros Hs Hk. revert s Hs. induction Hk as [|[[[f n] size] bs] l Hz Hk IH]; intros s Hs; cbn; [by rewrite app_nil_r|].
  destruct (adopt_tape size s Hs) as [Hs1 _]. destruct (feed_tape bs _ Hs1) as [Hs2 _]. destruct (IH _ Hs2) as (H1 & -> & ->).
  rewrite (feed_at bs size s Hs Hz), <- app_assoc. split; [done|]. split; [done|]. apply (adopt_rest size s).
Qed.

Lemma chain_known a l z : chain a l z -> Forall (fun b : Batch => let '(_, _, size, _) := b in known size) l.
Proof. revert a. induction l as [|[[[f n] size] bs] l IH]; intros a; [constructor|]. intros (_ & (_ & Hz & _) & Hc). constructor; [done|]. by eapply IH. Qed.

(** The batches behind a capture are what came behind it. *)
Lemma missed_stream s n :
  caught s -> is_some_and unusable (scrollback_catchup s) = false -> is_some_and (straddles n) (scrollback_catchup s) = false ->
  armed_at s <= n ->
  Forall (fun b : Batch => let '(_, _, size, _) := b in known size) (uncovered n (scrollback_catchup s))
  /\ concat (map batch_content (uncovered n (scrollback_catchup s))) = stream n (Z.max (last_seq s) n).
Proof.
  unfold caught, armed_at, uncovered. destruct (scrollback_catchup s) as [c|]; cbn.
  - intros Hc Hu Hs Ha. destruct (Hc c eq_refl Hu) as [a Hch]. assert (a <= n) as Han.
    { destruct (batches c) as [|[[[f m] sz] b] l]; cbn in Hch; [lia|]. destruct Hch as [-> _]. lia. }
    rewrite (chain_uncovered n a (batches c) (last_seq s) Hch Han Hs). split.
    + pose proof (chain_known _ _ _ Hch) as Hk. rewrite Forall_forall in *. intros b [Hb _]%list_elem_of_In%filter_In. by apply Hk, list_elem_of_In.
    + destruct (Z.le_gt_cases (last_seq s) n); [|by rewrite Z.max_l by lia]. rewrite Z.max_r by lia. by rewrite !stream_empty by lia.
  - intros _ _ _ Hn. split; [constructor|]. by rewrite stream_empty by lia.
Qed.

Lemma no_modes (v : Tape) : mode_sequences v = [].
Proof. done. Qed.

Lemma held_capture h fresh now bs n s :
  (n, at_size (size_now s) bs) ∈ h -> held h s ->
  is_some_and unusable (scrollback_catchup s) = true \/ armed_at s <= n -> held h (apply_scrollback fresh now bs n s).
Proof.
  intros Hin Hh Ha. unfold apply_scrollback. destruct bs as [|x bs]; [by apply (held_same h s); auto|].
  set (all := x :: bs) in *. cbv zeta. assert (forall b, held h (set_no_history b (set_catchup None s))) as Hkeep by (intros b; apply (held_same h s); auto).
  destruct (is_some_and unusable _) eqn:Eu; [by apply (held_same h s); auto|].
  destruct (is_some_and (straddles n) _) eqn:Es; [by apply (held_same h s); auto|].
  destruct (negb fresh); [by apply (held_same h s); auto|]. cbn [orb].
  set (scratch := feed all _). set (rebuilt := default 0 _). set (hist := vt_rows (vt (set_catchup None s)) <? rebuilt).
  destruct (_ && negb _); [apply Hkeep|]. set (s1 := set_vt _ _).
  destruct (ensure_new (vt_cols (vt s)) (vt_rows (vt s))) as (V1 & V2 & V3 & V4).
  assert (sized s1 /\ on_tape s1 = at_size (size_now s) all) as [S1 S2].
  { unfold s1, sized, on_tape, size_now, scratch. cbn [vt set_vt set_no_history set_catchup feed terminal vt_cols vt_rows vt_write tape_vt fst snd].
    rewrite V1, V2, V3, V4, no_modes. cbn [at_size map app]. by rewrite app_nil_r. }
  destruct Ha as [Ha|Ha]; [congruence|]. destruct Hh as [_ _ _ Hc]. destruct (missed_stream s n Hc Eu Es Ha) as [Hk Hm].
  set (missed := uncovered n _) in *. destruct (refeed_all missed s1 S1 Hk) as (R1 & R2 & R3). injection R3 as E1 E2 E3 E4 E5.
  set (s2 := fold_left refeed missed s1) in *. split.
  - split; [exact R1|constructor|constructor|done].
  - done.
  - intros _. cbn [last_seq set_seq set_recent set_stale set_fetched set_spans set_feed]. rewrite E1. change (last_seq s1) with (last_seq s).
    exists n, (at_size (size_now s) all). split; [done|]. split; [lia|]. unfold content.
    cbn [pending_feed pending_sizes set_seq set_recent set_stale set_fetched set_spans set_feed read_spans]. rewrite app_nil_r, <- Hm, <- S2. exact R2.
  - intros c. cbn. rewrite E5. done.
Qed.

(** ** The client *)

Definition held_at (h : list (Z * Sized)) (k : Client) : Prop := forall s, terminals k !! t = Some s -> held h s.

Lemma held_put h id s k : held_at h k -> (id = t -> held h s) -> held_at h (put_slot id s k).
Proof.
  intros Hk Hs s' Hl. cbn in Hl. destruct (decide (id = t)) as [->|Hne].
  - rewrite lookup_insert_eq in Hl. injection Hl as <-. by apply Hs.
  - rewrite lookup_insert_ne in Hl by done. by apply Hk.
Qed.

Lemma held_push h id k : held_at h k -> held_at h (push_new_request id k) /\ held_at h (push_request id k).
Proof. intros Hk. unfold push_new_request. by case_bool_decide. Qed.

Lemma held_fold {A} h (f : Client -> A -> Client) l k :
  (forall k x, held_at h k -> held_at h (f k x)) -> held_at h k -> held_at h (fold_left f l k).
Proof. intros Hf. revert k. induction l as [|x l IH]; intros k Hk; [done|]. cbn. by apply IH, Hf. Qed.

(** What only touches the recovery leaves the grid. *)
Lemma held_resync h s x y b : held h s -> held h (set_backoff b (set_retry_at y (set_sync x s))).
Proof. intros Hs. apply (held_same h s); auto. Qed.

Ltac held_slot Hk s := intros ->; apply (held_same _ s); auto; by apply Hk.

Lemma held_tick h k now : held_at h k -> held_at h (tick_resync_retries now k).
Proof.
  intros Hk. apply held_fold; [|done]. intros k' id Hk'. unfold tick_one. destruct (terminals k' !! id) as [s|] eqn:E; [|done].
  apply held_push, held_put; [done|]. held_slot Hk' s.
Qed.

Lemma held_distrust h k visible : held_at h k -> held_at h (mark_visible_desynced visible k).
Proof.
  intros Hk. apply held_fold; [|done]. intros k' id Hk'. unfold distrust. destruct (terminals k' !! id) as [s|] eqn:E; [|done].
  destruct (exited s); [done|]. apply held_push, held_put; [done|]. held_slot Hk' s.
Qed.

Lemma held_send h fuel room requests k : held_at h k -> held_at h (send_batches fuel room requests k).2.
Proof.
  revert room requests k. induction fuel as [|fuel IH]; intros room requests k Hk; [by destruct requests|].
  destruct requests as [|x requests]; [done|]. destruct room as [|room]; cbn [send_batches].
  - apply held_fold; [|done]. intros k' [id r] Hk'. unfold requeue_one. destruct (terminals k' !! id) as [s|] eqn:E; [|done].
    destruct (sync s); [done|]. apply held_push, held_put; [done|]. held_slot Hk' s.
  - cbv zeta. specialize (IH room (skipn (Z.to_nat MAX_RESYNC_REQUESTS_PER_BATCH) (x :: requests)) k Hk).
    by destruct (send_batches fuel room _ k).
Qed.

Lemma held_on_output h focused id bs first n size k :
  held_at h k -> calm_slot (COutput focused id bs first n size) (terminals k !! t) -> held_at h (append_output focused id bs first n size k).
Proof.
  intros Hk Hc. unfold append_output. destruct (terminals k !! id) as [s|] eqn:E; [|done]. destruct (n <=? last_seq s) eqn:En; [done|].
  apply Z.leb_gt in En. cbv zeta. cbn [sync set_stale last_seq]. destruct (sync s) as [|required pending].
  - destruct (negb (first =? _) || (n <? first)) eqn:Eg.
    + apply held_push, held_put; [done|]. held_slot Hk s.
    + apply orb_false_iff in Eg as [Hf%negb_false_iff%Z.eqb_eq Hn%Z.ltb_ge]. apply held_put; [done|]. intros ->.
      destruct (Hc eq_refl) as [Ht Hfo]. specialize (Ht Hn). assert (first = last_seq s + 1) as Hfirst.
      { destruct Ht as [Ht _]. unfold sat_add in Hf. lia. }
      apply held_output; try done; [by apply (held_same h s); auto|]. cbn [displayed set_stale pending_feed]. intros Hd.
      destruct (displayed s) eqn:Ed; [by apply (held_displayed h s (Hk s E))|]. cbn in Hd. apply bool_decide_eq_true in Hd.
      by apply (Hfo Hd s).
  - destruct pending; [|apply held_push]; apply held_put; try done; held_slot Hk s.
Qed.

Lemma held_on_resync h fresh id bs n sizes k :
  held_at h k -> calm_slot (CResync fresh id bs n sizes) (terminals k !! t) -> (id = t -> (n, read_spans bs sizes) ∈ h) ->
  held_at h (resync_terminal fresh id bs n sizes k).
Proof.
  intros Hk Hc Hin. unfold resync_terminal. destruct (terminals k !! id) as [s|] eqn:E; [|done]. cbv zeta. destruct (_ || _).
  - destruct (sync s); [done|]. apply held_push, held_put; [done|]. held_slot Hk s.
  - destruct (_ && _); [done|]. destruct (reset fresh (vt s)) as [v|] eqn:Er.
    + apply held_put; [done|]. intros ->. apply (held_adopt h fresh); [by apply Hin|by apply Hc|done].
    + apply held_push, held_put; [done|]. held_slot Hk s.
Qed.

Lemma held_on_snapshot h focused l k :
  held_at h k ->
  Forall (fun x => snapshot_id x = t -> sized_replay (snapshot_replay x) (replay_sizes x)
    /\ (snapshot_seq x, if replay_available x then read_spans (snapshot_replay x) (replay_sizes x) else []) ∈ h) l ->
  held_at h (on_snapshot focused l k).
Proof.
  intros Hk Hl. unfold on_snapshot. destruct (fold_left snapshot_slot l _) as [[previous grid] k'] eqn:Ef.
  assert ((forall s, previous !! t = Some s -> held h s) /\ held_at h k') as [_ Hk'].
  { revert Ef. assert (held_at h (mkStack ∅ (pending_resync_requests k))) as H0 by done. revert Hk H0. unfold held_at at 1.
    generalize (terminals k) as pr. generalize (mkStack (T := Tape) ∅ (pending_resync_requests k)) as acc. generalize (∅ : gset Z) as g.
    induction Hl as [|x l Hx Hl IH]; intros g acc pr Hpr Hacc; cbn [fold_left]; [by intros [= <- <- <-]|].
    destruct (snapshot_slot (pr, g, acc) x) as [[pr1 g1] acc1] eqn:E1. apply IH.
    - intros s Hs. apply Hpr. unfold snapshot_slot in E1. repeat case_match; simplify_eq; try done. by apply lookup_delete_Some in Hs as [_ Hs].
    - unfold snapshot_slot in E1. destruct (replay_available x) eqn:Ea; [|destruct (pr !! snapshot_id x) as [p|] eqn:Ep].
      + injection E1 as <- <- <-. apply held_put; [done|]. intros Ht. destruct (Hx Ht) as [Hs Hin]. by apply fresh_held.
      + injection E1 as <- <- <-. apply held_put; [done|]. intros Ht. apply (held_same h p); auto. apply Hpr. by rewrite <- Ht.
      + injection E1 as <- <- <-. apply held_push, held_put; [done|]. intros Ht. destruct (Hx Ht) as [_ Hin].
        apply (held_same h (make_slot (snapshot_seq x))); auto. by apply held_make. }
  destruct focused as [id|]; [|done]. destruct (terminals k' !! id) as [s|] eqn:E; [|done]. destruct (_ || _); [|done].
  apply held_put; [done|]. intros ->. apply held_flush. by apply Hk'.
Qed.

Lemma held_on_replaced h fresh authenticating old id k :
  held_at h k -> calm_slot (CReplaced fresh authenticating old id) (terminals k !! t) -> (id = t -> (0, []) ∈ h) ->
  held_at h (on_replaced fresh authenticating old id k).
Proof.
  intros Hk Hc Hin. unfold on_replaced. destruct (_ && _).
  - unfold on_reused. destruct (terminals k !! id) as [s|] eqn:E; [|done]. destruct authenticating; [done|].
    apply held_push, held_put; [done|]. intros ->. destruct (Hc eq_refl eq_refl s E) as [-> Hn]. cbn [reset].
    destruct (ensure_new (vt_cols (vt s)) (vt_rows (vt s))) as (V1 & V2 & V3 & V4). split.
    + split; [|constructor|constructor|done]. unfold sized, size_now. cbn. by rewrite V1, V3, V4.
    + done.
    + intros _. apply based_new. unfold content, on_tape. cbn. rewrite V2. by apply Hin.
    + intros c. cbn. by rewrite Hn.
  - apply held_put; [|intros Ht; by apply held_make, Hin]. intros s Hs. cbn in Hs. apply lookup_delete_Some in Hs as [_ Hs]. by apply Hk.
Qed.

Lemma held_on_exited h kept painted fresh id k : held_at h k -> held_at h (on_exited kept painted fresh id k).
Proof.
  intros Hk. unfold on_exited. destruct (terminals k !! id) as [s|] eqn:E; [|done]. destruct kept.
  - apply held_put; [done|]. intros ->. destruct (Hk s E) as [[H1 H2 H3 H4] Hd Hb Hc]. by destruct (painted && fresh); split.
  - intros s' Hs. cbn in Hs. apply lookup_delete_Some in Hs as [_ Hs]. by apply Hk.
Qed.

Lemma held_on_slot h f id k : held_at h k -> (forall s, held h s -> held h (f s)) -> held_at h (on_slot f id k).
Proof. intros Hk Hf. unfold on_slot. destruct (terminals k !! id) as [s|] eqn:E; [|done]. apply held_put; [done|]. intros ->. by apply Hf, Hk. Qed.

Lemma held_op h k o :
  held_at h k -> calm_slot o (terminals k !! t) -> held_at (h ++ hands o (terminals k !! t)) (client_op k o).
Proof.
  intros Hk0 Hc. set (h' := h ++ _). assert (held_at h' k) as Hk by (intros s Hs; by apply held_more, Hk0).
  assert (forall x, x ∈ hands o (terminals k !! t) -> x ∈ h') as Hin by (intros x Hx; apply elem_of_app; by right).
  destruct o; cbn [client_op].
  - by apply held_on_output.
  - apply held_on_resync; [done|done|]. intros ->. apply Hin. cbn. rewrite Z.eqb_refl. left.
  - unfold resync_unavailable. destruct (terminals k !! id) as [s|] eqn:E; [|done]. apply held_put; [done|]. intros ->.
    by apply (held_same h' s); auto.
  - apply held_on_snapshot; [done|]. cbn in Hc. rewrite Forall_forall in *. intros x Hx Ht. split; [by apply Hc|]. apply Hin. cbn.
    apply list_elem_of_In, in_flat_map. exists x. split; [by apply list_elem_of_In|]. rewrite (proj2 (Z.eqb_eq _ _) Ht). by left.
  - apply held_put; [done|]. intros ->. apply held_make, Hin. cbn. rewrite Z.eqb_refl. left.
  - apply held_on_replaced; [done|done|]. intros ->. apply Hin. cbn. rewrite Z.eqb_refl. left.
  - by apply held_on_exited.
  - unfold on_scrollback. destruct (terminals k !! id) as [s|] eqn:E; [|done]. apply held_put; [done|]. intros ->. apply held_capture.
    + apply Hin. cbn. rewrite E, Z.eqb_refl. left.
    + by apply Hk.
    + by apply (Hc eq_refl s).
  - apply held_on_slot; [done|]. intros s Hs. unfold scroll_up. destruct (_ && _); [|done]. apply (held_same h' s); auto.
  - apply held_on_slot; [done|]. intros s Hs. apply (held_same h' s); auto.
  - intros s Hs. cbn in Hs. rewrite lookup_fmap in Hs. destruct (terminals k !! t) as [s0|] eqn:E; [|done]. injection Hs as <-.
    apply (held_same h' s0); try done; auto.
  - unfold render_one_terminal. destruct (terminals k !! id) as [s|] eqn:E; [|done]. unfold ask_resize.
    pose proof (Hk s) as Hs. destruct (resize_due _ _ _); apply held_put; try done; intros ->; specialize (Hs E);
      pose proof (held_draw h' size s Hs); [|done]. apply (held_same h' (draw size s)); auto.
  - unfold read_grid. destruct (terminals k !! id) as [s|] eqn:E; [|done]. apply held_put; [done|]. intros ->. by apply held_flush, Hk.
  - unfold flush_pending_terminal_resyncs, drain_pending_resync_requests. by apply held_send.
  - by apply held_tick.
  - by apply held_distrust.
Qed.

(** C6: In a calm run, the grid of a terminal that runs holds, once it is brought up to
    date, one of the replays or captures it was handed and behind it every chunk the
    daemon broadcast from there up to the number the slot has reached: none is missing,
    none comes twice, none is out of order, and each is parsed at its own size.  A run
    is calm when the daemon's outputs are what it broadcast, at known sizes, and its
    replays have known sizes; when output for the terminal the focus is on finds nothing
    waiting in a hidden slot; when a capture that can still be used answers the last
    request for one; and when a replacement that is no sign-in finds no slot of its
    terminal, or one with no capture open whose parser can be made anew. *)
Theorem a_grid_is_a_replay_and_what_followed ops s :
  calm ops no_terminals -> terminals (run_client ops no_terminals) !! t = Some s -> exited s = false ->
  exists b base, (b, base) ∈ handed ops no_terminals /\ b <= last_seq s
    /\ on_tape (flush_pending s) = base ++ stream b (last_seq s).
Proof.
  assert (forall ops k h, held_at h k -> calm ops k -> held_at (h ++ handed ops k) (run_client ops k)) as Hrun.
  { clear. intros ops. induction ops as [|o ops IH]; intros k h Hk Hc; cbn; [by rewrite app_nil_r|].
    destruct Hc as [Hc1 Hc2]. rewrite app_assoc. apply IH; [by apply held_op|done]. }
  intros Hc Hs He. destruct (Hrun ops no_terminals [] ltac:(done) Hc s Hs) as [Ht _ Hb _]. destruct (Hb He) as (b & base & Hin & Hle & Hcon).
  exists b, base. split; [done|]. split; [done|]. destruct (flush_tape s Ht) as (_ & _ & -> & _). done.
Qed.

End Terminal.
