(* ===== verification/TerminalSyncReplay.v ===== *)
(** * From the ring to the grid

    The replay that ReplayRing.v makes of a terminal's output, read by the client of
    TerminalSync.v; and the adjacent outputs that are merged before the client takes them
    ([realm/model/helpers.rs]), which changes nothing of what the grids are made of. *)

From Stdlib Require Import Ascii.
From S2P Require Import Prelude ReplayRing ReplayRingProps ScrollbackProps EventForward EventForwardProps TerminalSync TerminalSyncProps TerminalSyncGrid.

#[local] Open Scope Z_scope.

#[local] Notation bytes := (list ascii).
#[local] Notation len l := (Z.of_nat (length l)).

Definition at_le (x y : ReplaySizeSpan) : Prop := at_ x <= at_ y.

Lemma span_at_later x l j : Exists (fun y => at_ y <= j) l -> span_at (x :: l) j = span_at l j.
Proof.
  intros He. unfold span_at. cbn [rev]. rewrite find_app. destruct (List.find _ (rev l)) as [y|] eqn:E; [done|].
  apply Exists_exists in He as (y & Hin & Hy). assert (In y (rev l)) as Hr by (by apply -> in_rev; apply list_elem_of_In).
  pose proof (List.find_none _ _ E y Hr) as Hn. apply Z.leb_gt in Hn. lia.
Qed.

Lemma span_at_first x l j : at_ x <= j -> Forall (fun y => j < at_ y) l -> span_at (x :: l) j = (cols x, rows x).
Proof.
  intros Hx Hl. unfold span_at. cbn [rev]. rewrite find_app. rewrite (find_none_all _ (rev l)).
  - cbn. by rewrite (proj2 (Z.leb_le _ _)).
  - intros y Hy%in_rev%list_elem_of_In. rewrite Forall_forall in Hl. specialize (Hl y Hy). by apply Z.leb_gt.
Qed.

Lemma at_size_lookup z bs j : at_size z bs !! j = (fun b => (b, z)) <$> bs !! j.
Proof. apply (list_lookup_fmap (fun b => (b, z)) bs j). Qed.

(** Each byte behind the first span is read at the size that is in effect there. *)
Lemma read_spans_lookup bs x rest j :
  StronglySorted at_le (x :: rest) -> within bs (x :: rest) -> 0 <= at_ x -> (Z.to_nat (at_ x) <= j)%nat ->
  read_spans bs (x :: rest) !! (j - Z.to_nat (at_ x))%nat
  = (fun b => (b, span_at (x :: rest) (Z.of_nat j))) <$> (bs !! j).
Proof.
  intros Hs Hw Hx. revert j. revert x Hs Hw Hx. induction rest as [|y rest IH]; intros x Hs Hw Hx j Hj.
  - apply Forall_cons in Hw as [Hwx _]. cbn [read_spans span_end]. rewrite app_nil_r, Nat.min_l by lia.
    rewrite at_size_lookup, firstn_all2 by (rewrite length_skipn; lia). rewrite lookup_drop.
    replace (Z.to_nat (at_ x) + (j - Z.to_nat (at_ x)))%nat with j by lia.
    rewrite span_at_first by (try constructor; lia). done.
  - apply StronglySorted_inv in Hs as [Hs Hxy]. apply Forall_cons in Hxy as [Hxy Hxr]. unfold at_le in Hxy.
    apply Forall_cons in Hw as [Hwx Hw]. pose proof Hw as Hw'. apply Forall_cons in Hw' as [Hwy _].
    assert (read_spans bs (x :: y :: rest) = at_size (cols x, rows x) (firstn (Z.to_nat (at_ y) - Z.to_nat (at_ x)) (skipn (Z.to_nat (at_ x)) bs))
              ++ read_spans bs (y :: rest)) as -> by (cbn [read_spans span_end]; by rewrite !Nat.min_l by lia).
    destruct (Nat.lt_ge_cases j (Z.to_nat (at_ y))) as [Hlt|Hge].
    + unfold Sized. rewrite lookup_app_l by (unfold at_size; rewrite length_map, length_firstn, length_skipn; lia).
      rewrite at_size_lookup, lookup_take_lt, lookup_drop by lia. replace (Z.to_nat (at_ x) + (j - Z.to_nat (at_ x)))%nat with j by lia.
      rewrite span_at_first; [done|lia|]. apply StronglySorted_inv in Hs as [_ Hyr]. constructor; [lia|].
      eapply List.Forall_impl; [|exact Hyr]. unfold at_le. cbn. lia.
    + unfold Sized in *. rewrite lookup_app_r by (unfold at_size; rewrite length_map, length_firstn, length_skipn; lia). unfold at_size.
      rewrite length_map, length_firstn, length_skipn. rewrite span_at_later by (constructor; lia).
      rewrite <- (IH y Hs Hw ltac:(lia) j Hge). f_equal. lia.
Qed.

Lemma read_spans_length bs x rest :
  StronglySorted at_le (x :: rest) -> within bs (x :: rest) -> 0 <= at_ x -> length (read_spans bs (x :: rest)) = (length bs - Z.to_nat (at_ x))%nat.
Proof.
  intros Hs Hw Hx. revert x Hs Hw Hx. induction rest as [|y rest IH]; intros x Hs Hw Hx.
  - apply Forall_cons in Hw as [Hwx _]. cbn [read_spans span_end]. rewrite app_nil_r, Nat.min_l by lia. unfold at_size.
    rewrite length_map, length_firstn, length_skipn. lia.
  - apply StronglySorted_inv in Hs as [Hs Hxy]. apply Forall_cons in Hxy as [Hxy _]. unfold at_le in Hxy.
    apply Forall_cons in Hw as [Hwx Hw]. pose proof Hw as Hw'. apply Forall_cons in Hw' as [Hwy _].
    specialize (IH y Hs Hw ltac:(lia)). cbn [read_spans span_end] in *. rewrite length_app, IH. unfold at_size.
    rewrite length_map, length_firstn, length_skipn. lia.
Qed.

(** The spans of a replay. *)
Lemma replay_spans_ok c ops r prefix replay spans :
  (r0 ← with_capacity c; run_ops r0 ops) = Some r -> replay_snapshot_into prefix r = (replay, spans) ->
  exists x rest, spans = x :: rest /\ at_ x = 0 /\ StronglySorted at_le spans /\ within replay spans.
Proof.
  intros R%run_ring_rep. unfold replay_snapshot_into. cbv zeta. set (dropped := if is_complete r then O else _).
  set (f := (oldest_offset r + Z.of_nat dropped)%Z). destruct (size_at f (sizes r)) as [cl rw]. intros [= <- <-].
  pose proof (log_sorted _ _ _ _ (rep_log _ _ _ R)) as Hs. pose proof (log_within _ _ _ _ (rep_log _ _ _ R)) as Hw.
  eexists _, _. split; [reflexivity|]. split; [done|]. split.
  - constructor.
    + induction Hs as [|e l Hs IH He]; [constructor|]. apply Forall_cons in Hw as [_ Hw]. specialize (IH Hw). cbn [List.filter].
      destruct (f <? e.1); [|done]. cbn [map]. constructor; [done|]. apply List.Forall_map, List.Forall_forall.
      intros y [Hy _]%filter_In. rewrite List.Forall_forall in He. specialize (He y Hy). unfold at_le, offset_lt in *. cbn. lia.
    + apply List.Forall_map, List.Forall_forall. intros y [_ Hy]%filter_In. unfold at_le. cbn. lia.
  - constructor; [cbn; lia|]. apply List.Forall_map, List.Forall_forall. intros y [Hy Hf]%filter_In. cbn.
    rewrite List.Forall_forall in Hw. specialize (Hw y Hy). unfold oldest_offset in f.
    assert (len (snapshot r) = len (buf r)) as Hl by (unfold snapshot; rewrite length_app, length_skipn, length_firstn; lia).
    rewrite length_app, length_skipn. lia.
Qed.

Lemma produced_lookup c ops i b : ReplayRingProps.stream ops !! i = Some b -> exists s, produced c ops !! i = Some s.
Proof.
  intros Hb. apply lookup_lt_Some in Hb. rewrite <- (produced_length c ops) in Hb. by apply lookup_lt_is_Some in Hb.
Qed.

(** C12: What a client reads of a replay is the seed and the end of the output, and
    behind the seed a byte stands beside the size the terminal had when it was written:
    every byte while the log of sizes has room, and once the log is full, those from its
    second size on. *)
Theorem a_replay_is_drawn_as_it_was_printed c ops r prefix :
  (r0 ← with_capacity c; run_ops r0 ops) = Some r ->
  let '(replay, spans) := replay_snapshot_into prefix r in
  map fst (read_spans replay spans) = replay
  /\ exists start, replay = prefix ++ skipn start (ReplayRingProps.stream ops)
      /\ (forall j x, zip (ReplayRingProps.stream ops) (produced (0, 0) ops) !! (start + j)%nat = Some x ->
            settled (sizes r) (Z.of_nat (start + j)) -> read_spans replay spans !! (length prefix + j)%nat = Some x)
      /\ ((length (sizes r) < SIZE_LOG_CAP)%nat ->
            skipn (length prefix) (read_spans replay spans) = skipn start (zip (ReplayRingProps.stream ops) (produced (0, 0) ops))).
Proof.
  intros R. pose proof (replay_reads c ops r prefix R) as Hr. destruct (replay_snapshot_into prefix r) as [replay spans] eqn:Es.
  destruct Hr as (start & Hrep & _ & _ & Hsz & _). destruct (replay_spans_ok _ _ _ _ _ _ R Es) as (x & rest & -> & Hx & Hs & Hw).
  assert (forall j, read_spans replay (x :: rest) !! j = (fun b => (b, span_at (x :: rest) (Z.of_nat j))) <$> (replay !! j)) as Hl.
  { intros j. pose proof (read_spans_lookup replay x rest j Hs Hw ltac:(lia) ltac:(lia)) as Hj. rewrite Hx in Hj.
    by rewrite Nat.sub_0_r in Hj. }
  assert (forall j, replay !! (length prefix + j)%nat = ReplayRingProps.stream ops !! (start + j)%nat) as Hb.
  { intros j. rewrite Hrep, lookup_app_r, lookup_drop by lia. f_equal. lia. }
  assert (forall j y, zip (ReplayRingProps.stream ops) (produced (0, 0) ops) !! (start + j)%nat = Some y ->
            settled (sizes r) (Z.of_nat (start + j)) -> read_spans replay (x :: rest) !! (length prefix + j)%nat = Some y) as Hy.
  { intros j [b s] [Hbj Hp]%lookup_zip_Some Hset. rewrite Hl, Hb, Hbj. cbn. by rewrite (Hsz j s Hp Hset). }
  split; [|exists start; split; [done|]; split; [exact Hy|]].
  - apply list_eq. intros j. transitivity (fst <$> read_spans replay (x :: rest) !! j); [apply (list_lookup_fmap fst)|]. rewrite Hl. by destruct (replay !! j).
  - intros Hlog. apply list_eq. intros j. rewrite !lookup_drop.
    destruct (zip (ReplayRingProps.stream ops) (produced (0, 0) ops) !! (start + j)%nat) as [y|] eqn:Ey; [by apply Hy; [|left]|].
    rewrite Hl, Hb. destruct (ReplayRingProps.stream ops !! (start + j)%nat) as [b|] eqn:Eb; [|done].
    destruct (produced_lookup (0, 0) ops _ b Eb) as [s Hp]. by rewrite (proj2 (lookup_zip_Some _ _ _ b s) (conj Eb Hp)) in Ey.
Qed.

(** The ring of eight bytes behind a seed: the first byte it holds was printed before the
    resize, the others behind it. *)
Lemma a_replay_is_drawn_as_it_was_printed_witness :
  exists r, (r0 ← with_capacity 8; run_ops r0 wrapped_ops) = Some r
    /\ let '(replay, spans) := replay_snapshot_into ["s"%char] r in
       exists start, replay = "s"%char :: skipn start (ReplayRingProps.stream wrapped_ops)
         /\ skipn 1 (read_spans replay spans) = skipn start (zip (ReplayRingProps.stream wrapped_ops) (produced (0, 0) wrapped_ops)).
Proof.
  destruct wrapped_runs as (r & Hr & _ & Hl).
  pose proof (a_replay_is_drawn_as_it_was_printed 8 wrapped_ops r ["s"%char] Hr) as H. exists r. split; [exact Hr|].
  destruct (replay_snapshot_into ["s"%char] r) as [replay spans]. destruct H as (_ & start & Hrep & _ & Hread).
  exists start. split; [exact Hrep|]. exact (Hread Hl).
Defined.

Example a_wrapped_replay_is_drawn :
  (fun r => let '(replay, spans) := replay_snapshot_into ["s"%char] r in skipn 1 (read_spans replay spans))
    <$> (r0 ← with_capacity 8; run_ops r0 wrapped_ops)
  = Some (("c"%char, (80, 24)) :: map (fun b => (b, (100, 30))) [newline; "d"; "e"; newline; "f"; "g"]%char).
Proof. reflexivity. Qed.

(** ** Outputs that are merged *)

(** The live output of a terminal. *)
Definition live_bytes (t : Z) (e : Event) : bytes := match e with TerminalOutput t' bs _ _ _ => if t' =? t then bs else [] | _ => [] end.
Definition live_stream (t : Z) (es : list Event) : bytes := flat_map (live_bytes t) es.

(** An output of the terminal is what the daemon broadcast, short of its last number. *)
Definition tells_truth (t : Z) (chunk : Z -> Sized) (e : Event) : Prop :=
  match e with TerminalOutput t' bs first n size => t' = t -> n < u64_max /\ truthful chunk first n size bs | _ => True end.

(** One by one, an event is at most as large as the bound, or came so. *)
Definition sized_below (bound : Z) (e : Event) : Prop :=
  match e with TerminalOutput _ bs _ _ _ => len bs <= bound | _ => True end.

Lemma merged_spec prev e m :
  merged prev e = Some m ->
  is_output prev = true /\ is_output e = true /\ is_output m = true
  /\ (forall t, live_bytes t m = live_bytes t prev ++ live_bytes t e)
  /\ (forall t chunk, tells_truth t chunk prev -> tells_truth t chunk e -> tells_truth t chunk m)
  /\ (forall bound, COALESCE_MAX_BYTES <= bound -> sized_below bound m).
Proof.
  unfold merged. destruct prev; try done. destruct e; try done. destruct (_ && _) eqn:E; [|done]. intros [= <-].
  rewrite !andb_true_iff, bool_decide_eq_true, !Z.eqb_eq, Z.leb_le in E. destruct E as (((((-> & ->) & _) & _) & Hn) & Hb).
  split; [done|]. split; [done|]. split; [done|]. split; [|split].
  - intros t. cbn. by destruct (_ =? t).
  - intros t chunk. cbn. intros H1 H2 Ht. destruct (H1 Ht) as (Hm1 & [Hf1 Hu1] & Hz & Hs1). destruct (H2 Ht) as (Hm2 & [Hf2 Hu2] & _ & Hs2).
    assert (first_seq0 = seq + 1) as -> by (unfold sat_add in Hn; lia). split; [done|]. split; [lia|]. split; [done|].
    rewrite at_size_app, Hs1, Hs2. replace (seq + 1 - 1) with seq by lia. rewrite <- stream_cut by lia. done.
  - intros bound Hbound. cbn. rewrite length_app. lia.
Qed.

(** What merging the next event into the list does to it. *)
Definition same_stream (out out' : list Event) : Prop :=
  structured out' = structured out /\ (forall t, live_stream t out' = live_stream t out)
  /\ (forall t chunk, Forall (tells_truth t chunk) out -> Forall (tells_truth t chunk) out')
  /\ (forall bound, COALESCE_MAX_BYTES <= bound -> Forall (sized_below bound) out -> Forall (sized_below bound) out')
  /\ (length out' <= length out)%nat.

Lemma merge_refl l : same_stream l l.
Proof. by repeat split. Qed.

Lemma merge_trans a b c : same_stream a b -> same_stream b c -> same_stream a c.
Proof.
  intros (A1 & A2 & A3 & A4 & A5) (B1 & B2 & B3 & B4 & B5). split; [congruence|]. split; [intros t; by rewrite B2|].
  split; [eauto|]. split; [eauto|lia].
Qed.

Lemma merge_app a b l : same_stream a b -> same_stream (a ++ l) (b ++ l).
Proof.
  intros (A1 & A2 & A3 & A4 & A5). unfold same_stream, structured, live_stream in *.
  split; [by rewrite !List.filter_app, A1|]. split; [intros t; by rewrite !flat_map_app, A2|].
  split; [intros t chunk; rewrite !Forall_app; naive_solver|]. split; [intros bound Hb; rewrite !Forall_app; naive_solver|].
  rewrite !length_app. lia.
Qed.

Lemma coalesce_one_same out e : same_stream (rev out ++ [e]) (rev (coalesce_one out e)).
Proof.
  destruct out as [|prev rest]; [apply merge_refl|]. cbn [coalesce_one]. destruct (merged prev e) as [m|] eqn:Em; [|apply merge_refl].
  destruct (merged_spec _ _ _ Em) as (Hp & He & Hm & Hl & Ht & Hb). cbn [rev]. rewrite <- app_assoc. cbn [app].
  unfold same_stream, structured, live_stream. rewrite !List.filter_app, !length_app. cbn. rewrite Hp, He, Hm. cbn.
  split; [done|]. split; [intros t; rewrite !flat_map_app; cbn; by rewrite Hl, !app_nil_r|].
  split; [intros t chunk; rewrite !Forall_app, !Forall_cons; naive_solver|].
  split; [intros bound Hbound; rewrite !Forall_app, !Forall_cons; naive_solver|lia].
Qed.

(** C34: Coalescing changes nothing but the cuts: the structured events stay, in their order; a
    terminal's bytes are the same; where each output was what the daemon broadcast under
    its numbers, so is each merged one, and the numbers a client checks still go on; and no
    event grows beyond the bound. *)
Theorem coalescing_keeps_the_stream es :
  let out := coalesce_adjacent_output es in
  structured out = structured es /\ (forall t, live_stream t out = live_stream t es)
  /\ (forall t chunk, Forall (tells_truth t chunk) es -> Forall (tells_truth t chunk) out)
  /\ (forall bound, COALESCE_MAX_BYTES <= bound -> Forall (sized_below bound) es -> Forall (sized_below bound) out)
  /\ (length out <= length es)%nat.
Proof.
  assert (forall es out, same_stream (rev out ++ es) (rev (fold_left coalesce_one es out))) as Hall.
  { clear. induction es as [|e es IH]; intros out; cbn [fold_left]; [rewrite app_nil_r; apply merge_refl|].
    eapply merge_trans; [|apply IH]. replace (rev out ++ e :: es) with ((rev out ++ [e]) ++ es) by (by rewrite <- app_assoc).
    apply merge_app, coalesce_one_same. }
  exact (Hall es []).
Qed.
