(* ===== verification/TerminalSyncLive.v ===== *)
(** * A torn stream is pursued

    Whatever a client goes through, a terminal whose stream is torn has a request for a
    replay in the queue, or one on its way, or a time at which it asks again.  At the
    end concrete clients: a torn stream that is repaired, a terminal that is hidden, and
    three orders of events the code does not expect. *)

From Stdlib Require Import Ascii.
From S2P Require Import Prelude ReplayRing EventForward TerminalSync TerminalSyncProps TerminalSyncGrid.

#[local] Open Scope Z_scope.

#[local] Notation bytes := (list ascii).
#[local] Notation len l := (Z.of_nat (length l)).

Section Recovery.
Context {T : Type} `{Vt T}.
Implicit Types (s : TerminalSlot (T := T)) (k : TerminalStack (T := T)).

(** ** What of a slot is about recovery *)

Definition recovery s : TerminalStreamSync * option Z * Z * bool := (sync s, resync_retry_at s, resync_retry_backoff s, exited s).

Lemma adopt_recovery z s : recovery (adopt_pty_size z s) = recovery s.
Proof. unfold adopt_pty_size. destruct z. by destruct (_ || _). Qed.

Lemma spans_recovery q l s : recovery (feed_spans q l s) = recovery s.
Proof.
  revert s. induction l as [|y l IH]; intros s; [done|]. cbn [feed_spans]. rewrite IH.
  destruct (_ <? _)%nat; [change (recovery (slot_feed ?b ?x)) with (recovery x)|]; apply adopt_recovery.
Qed.

Lemma sized_recovery q l s : recovery (feed_sized q l s) = recovery s.
Proof. unfold feed_sized. destruct l; [done|]. destruct (existsb _ _); by rewrite spans_recovery. Qed.

Lemma flush_recovery s : recovery (flush_pending s) = recovery s.
Proof. unfold flush_pending. destruct (pending_feed s); [done|]. by rewrite sized_recovery. Qed.

Lemma output_recovery eager bs first n size s : recovery (take_output eager bs first n size s) = recovery s.
Proof.
  unfold take_output. cbv zeta.
  match goal with |- recovery (set_seq _ (set_live _ (set_catchup _ (set_recent _ ?x)))) = _ => change (recovery x = recovery s) end.
  assert (recovery (match bs with [] => mark_answered s | _ => s end) = recovery s) as <- by (by destruct bs).
  generalize (match bs with [] => mark_answered s | _ => s end) as x. intros x.
  destruct (displayed x || eager); [apply adopt_recovery|].
  assert (recovery (if PENDING_FEED_CAP <? len (pending_feed x) + len bs then flush_pending x else x) = recovery x) as <-
    by (destruct (_ <? _); [apply flush_recovery|done]).
  generalize (if PENDING_FEED_CAP <? len (pending_feed x) + len bs then flush_pending x else x) as y. intros y.
  destruct (PENDING_FEED_CAP <? len bs); [apply adopt_recovery|]. unfold stash_pending. cbv zeta. by destruct (_ && _).
Qed.

Lemma refeed_recovery l s : recovery (fold_left refeed l s) = recovery s.
Proof. revert s. induction l as [|[[[f n] z] b] l IH]; intros s; [done|]. cbn [fold_left]. rewrite IH. apply adopt_recovery. Qed.

Lemma capture_recovery fresh now bs n s : recovery (apply_scrollback fresh now bs n s) = recovery s.
Proof.
  unfold apply_scrollback. destruct bs; [done|]. cbv zeta. destruct (_ || _); [done|]. destruct (_ && _); [done|].
  match goal with |- recovery (set_fetched _ (set_stale _ (set_seq _ (set_recent _ (set_spans _ (set_feed _ ?x)))))) = _ =>
    change (recovery x = recovery s) end.
  by rewrite refeed_recovery.
Qed.

Lemma draw_recovery size s : recovery (draw size s) = recovery s.
Proof. unfold draw. cbv zeta. rewrite flush_recovery. cbn [pty_size set_displayed]. by destruct (pty_size s). Qed.

(** ** The invariant *)

(** The operations so far, the requests on their way. *)
Definition pursued (past : list ClientOp) (w : list Z) (q : list Z) (id : Z) s : Prop :=
  resync_retry_backoff s <= RESYNC_RETRY_CAP
  /\ (exited s = false ->
      match sync s with
      | Coherent => True
      | Desynced _ true => id ∈ q \/ id ∈ w
      | Desynced _ false => exists since d, CUnavailable since id ∈ past /\ resync_retry_at s = Some d /\ d <= since + RESYNC_RETRY_CAP
      end).

Definition all_pursued past w k : Prop := forall id s, terminals k !! id = Some s -> pursued past w (pending_resync_requests k) id s.

Lemma pursued_same past w q q' id s s' :
  recovery s' = recovery s -> (forall x, x ∈ q -> x ∈ q') -> pursued past w q id s -> pursued past w q' id s'.
Proof.
  unfold recovery, pursued. intros [= -> -> -> ->] Hq [Hb Hs]. split; [done|]. intros He. specialize (Hs He).
  destruct (sync s) as [|r []]; [done| |done]. destruct Hs; auto.
Qed.

Lemma pursued_queued past w q id s r :
  sync s = Desynced r true -> resync_retry_backoff s <= RESYNC_RETRY_CAP -> id ∈ q -> pursued past w q id s.
Proof. intros E Hb Hq. split; [done|]. rewrite E. auto. Qed.

Lemma pursued_coherent past w q id s :
  sync s = Coherent -> resync_retry_backoff s <= RESYNC_RETRY_CAP -> pursued past w q id s.
Proof. intros E Hb. split; [done|]. by rewrite E. Qed.

(** All slots but the one of [id]. *)
Definition others_pursued past w id k : Prop :=
  forall id' s, id' <> id -> terminals k !! id' = Some s -> pursued past w (pending_resync_requests k) id' s.

Lemma all_others past w id k : all_pursued past w k -> others_pursued past w id k.
Proof. intros Hk id' s _. apply Hk. Qed.

Lemma new_request id k :
  terminals (push_new_request id k) = terminals k /\ id ∈ pending_resync_requests (push_new_request id k)
  /\ (forall x, x ∈ pending_resync_requests k -> x ∈ pending_resync_requests (push_new_request id k)).
Proof.
  unfold push_new_request. case_bool_decide; [done|]. cbn. split; [done|]. split; [|intros x Hx]; apply elem_of_app; [right; left|by left].
Qed.

(** The ways an operation changes one slot; the queue only grows. *)
Lemma all_put past w k k' id s :
  others_pursued past w id k -> terminals k' = <[id := s]> (terminals k) ->
  (forall x, x ∈ pending_resync_requests k -> x ∈ pending_resync_requests k') -> pursued past w (pending_resync_requests k') id s ->
  all_pursued past w k'.
Proof.
  intros Hk Ht Hq Hs id' s' Hl. rewrite Ht in Hl. destruct (decide (id = id')) as [->|Hne].
  - rewrite lookup_insert_eq in Hl. by injection Hl as <-.
  - rewrite lookup_insert_ne in Hl by done. apply (pursued_same past w (pending_resync_requests k) _ id' s'); [done|done|]. by apply Hk.
Qed.

Lemma put_same past w k id s s' :
  all_pursued past w k -> terminals k !! id = Some s -> recovery s' = recovery s -> all_pursued past w (put_slot id s' k).
Proof.
  intros Hk E Hr. apply (all_put past w k _ id s'); [by apply all_others|done|done|].
  apply (pursued_same past w (pending_resync_requests k) _ id s); [done|done|by apply Hk].
Qed.

Lemma put_coherent past w k id s :
  others_pursued past w id k -> sync s = Coherent -> resync_retry_backoff s <= RESYNC_RETRY_CAP -> all_pursued past w (put_slot id s k).
Proof. intros Hk Hs Hb. apply (all_put past w k _ id s); [done|done|done|by apply pursued_coherent]. Qed.

Lemma put_pushed past w k id s r :
  others_pursued past w id k -> sync s = Desynced r true -> resync_retry_backoff s <= RESYNC_RETRY_CAP ->
  all_pursued past w (push_request id (put_slot id s k)) /\ all_pursued past w (push_new_request id (put_slot id s k)).
Proof.
  intros Hk Hs Hb. destruct (new_request id (put_slot id s k)) as (Ht & Hin & Hq).
  split; apply (all_put past w k _ id s); try done; try (by apply (pursued_queued past w _ id s r)).
  - intros x Hx. apply elem_of_app. by left.
  - apply (pursued_queued past w _ id s r); [done|done|]. apply elem_of_app. right. left.
Qed.

Lemma backoff_ok past w k id s : all_pursued past w k -> terminals k !! id = Some s -> resync_retry_backoff s <= RESYNC_RETRY_CAP.
Proof. intros Hk E. by apply (Hk id s E). Qed.

Lemma pursued_fold {A} past w (f : TerminalStack (T := T) -> A -> TerminalStack) l k :
  (forall k x, all_pursued past w k -> all_pursued past w (f k x)) -> all_pursued past w k -> all_pursued past w (fold_left f l k).
Proof. intros Hf. revert k. induction l as [|x l IH]; intros k Hk; [done|]. cbn. by apply IH, Hf. Qed.

(** ** The operations *)

Lemma pursue_output past w focused id bs first n size k :
  all_pursued past w k -> all_pursued past w (append_output focused id bs first n size k).
Proof.
  intros Hk. unfold append_output. destruct (terminals k !! id) as [s|] eqn:E; [|done]. destruct (n <=? last_seq s); [done|].
  pose proof (backoff_ok _ _ _ _ _ Hk E) as Hb. pose proof (all_others past w id k Hk) as Ho.
  cbv zeta. cbn [sync set_stale last_seq]. destruct (sync s) as [|required []] eqn:Es.
  - destruct (_ || _); [by eapply put_pushed|]. apply (put_same past w k id s); [done|done|]. by rewrite output_recovery.
  - apply (all_put past w k _ id (set_sync (Desynced (Z.max required n) true) (set_stale true s))); try done. split; [done|].
    intros He. destruct (Hk id s E) as [_ Hs]. specialize (Hs He). rewrite Es in Hs. exact Hs.
  - by eapply put_pushed.
Qed.

Definition without (id : Z) (w : list Z) : list Z := List.filter (fun x => negb (x =? id)) w.

Lemma others_without past w id k : all_pursued past w k -> others_pursued past (without id w) id k.
Proof.
  intros Hk id' s Hne Hl. destruct (Hk id' s Hl) as [Hb Hs]. split; [done|]. intros He. specialize (Hs He).
  destruct (sync s) as [|r []]; [done| |done]. destruct Hs as [Hs|Hs]; [by left|right]. apply list_elem_of_In, filter_In.
  split; [by apply list_elem_of_In|]. by apply negb_true_iff, Z.eqb_neq.
Qed.

Lemma all_without past w id k :
  all_pursued past w k -> (forall s, terminals k !! id = Some s -> sync s = Coherent) -> all_pursued past (without id w) k.
Proof.
  intros Hk Hs id' s Hl. destruct (decide (id' = id)) as [->|Hne]; [|by apply (others_without past w id k)].
  apply pursued_coherent; [by apply Hs|by apply (Hk id s)].
Qed.

Lemma pursue_resync past w fresh id bs n sizes k :
  all_pursued past w k -> all_pursued past (without id w) (resync_terminal fresh id bs n sizes k).
Proof.
  intros Hk. pose proof (others_without past w id k Hk) as Ho. unfold resync_terminal.
  destruct (terminals k !! id) as [s|] eqn:E; [|apply all_without; [done|congruence]].
  pose proof (backoff_ok _ _ _ _ _ Hk E) as Hb. cbv zeta. destruct (_ || _).
  - destruct (sync s) as [|r b] eqn:Es; [|by eapply put_pushed]. apply all_without; [done|]. intros s'. rewrite E. by intros [= <-].
  - destruct (_ && _) eqn:Ec.
    + apply all_without; [done|]. intros s'. rewrite E. intros [= <-]. by destruct (sync s).
    + destruct (reset fresh (vt s)) as [v|]; [by apply put_coherent|by eapply put_pushed].
Qed.

Lemma pursue_unavailable past w now id k :
  all_pursued past w k -> all_pursued (past ++ [CUnavailable now id]) (without id w) (resync_unavailable now id k).
Proof.
  intros Hk. assert (all_pursued (past ++ [CUnavailable now id]) w k) as Hk'.
  { intros id' s Hl. destruct (Hk id' s Hl) as [Hb Hs]. split; [done|]. intros He. specialize (Hs He).
    destruct (sync s) as [|r []]; [done|done|]. destruct Hs as (since & d & Hin & Hs). exists since, d. split; [|done].
    apply elem_of_app. by left. }
  pose proof (others_without _ w id k Hk') as Ho. unfold resync_unavailable.
  destruct (terminals k !! id) as [s|] eqn:E; [|apply all_without; [done|congruence]].
  pose proof (backoff_ok _ _ _ _ _ Hk E) as Hb. cbv zeta. eapply all_put; [exact Ho|reflexivity|done|]. split; [cbn; lia|].
  intros _. cbn [sync set_backoff set_retry_at set_sync].
  destruct (sync s); exists now, (now + resync_retry_backoff s); (split; [apply elem_of_app; right; left|]); (split; [done|lia]).
Qed.

Lemma pursue_more past past' w w' k :
  all_pursued past w k -> (forall o, o ∈ past -> o ∈ past') -> (forall x, x ∈ w -> x ∈ w') -> all_pursued past' w' k.
Proof.
  intros Hk Hp Hw id s Hl. destruct (Hk id s Hl) as [Hb Hs]. split; [done|]. intros He. specialize (Hs He).
  destruct (sync s) as [|r []]; [done| |].
  - destruct Hs; auto.
  - destruct Hs as (since & d & Hin & Hs). exists since, d. auto.
Qed.

Lemma pursue_snapshot past w focused l k : all_pursued past w k -> all_pursued past w (on_snapshot focused l k).
Proof.
  intros Hk. unfold on_snapshot. destruct (fold_left snapshot_slot l _) as [[previous grid] k'] eqn:Ef.
  assert (all_pursued past w k') as Hk'.
  { revert Ef. set (acc := mkStack (T := T) ∅ (pending_resync_requests k)). assert (all_pursued past w acc) as Hacc by done.
    assert (forall id s, terminals k !! id = Some s -> resync_retry_backoff s <= RESYNC_RETRY_CAP) as Hpr by (intros id s; by apply backoff_ok with past w).
    revert Hacc Hpr. generalize acc as a. generalize (terminals k) as pr. generalize (∅ : gset Z) as g.
    induction l as [|x l IH]; intros g pr a Hacc Hpr; cbn [fold_left]; [by intros [= <- <- <-]|].
    destruct (snapshot_slot (pr, g, a) x) as [[pr1 g1] a1] eqn:E1. unfold snapshot_slot in E1.
    assert (forall p, resync_retry_backoff (fresh_slot (T := T) x p) <= RESYNC_RETRY_CAP /\ sync (fresh_slot (T := T) x p) = Coherent) as Hfr
      by (intros [p|]; cbn; [destruct (known_size p)|]; done).
    pose proof (all_others past w (snapshot_id x) a Hacc) as Ho. apply IH.
    - destruct (replay_available x); [|destruct (pr !! snapshot_id x) as [p|] eqn:Ep]; injection E1 as <- <- <-.
      + by apply put_coherent; [|apply Hfr|apply Hfr].
      + eapply (all_put past w a); [done|reflexivity|intros y Hy; apply elem_of_app; by left|].
        eapply pursued_queued; [reflexivity|by apply (Hpr _ p Ep)|]. apply elem_of_app. right. left.
      + by eapply put_pushed; [|reflexivity|].
    - intros id s Hl. destruct (replay_available x); [|destruct (pr !! snapshot_id x) as [p|] eqn:Ep]; injection E1 as <- <- <-;
        try by apply (Hpr id s). apply lookup_delete_Some in Hl as [_ Hl]. by apply (Hpr id s). }
  destruct focused as [id|]; [|done]. destruct (terminals k' !! id) as [s|] eqn:E; [|done]. destruct (_ || _); [|done].
  apply (put_same past w k' id s); [done|done|apply flush_recovery].
Qed.

Lemma pursue_replaced past w fresh authenticating old id k :
  all_pursued past w k -> all_pursued past w (on_replaced fresh authenticating old id k).
Proof.
  intros Hk. unfold on_replaced. destruct (_ && _).
  - unfold on_reused. destruct (terminals k !! id) as [s|] eqn:E; [|done]. destruct authenticating; [done|].
    eapply put_pushed; [by apply all_others|reflexivity|done].
  - apply put_coherent; [|done|done]. intros id' s _ Hl. cbn in Hl. apply lookup_delete_Some in Hl as [_ Hl]. by apply Hk.
Qed.

Lemma pursue_exited past w kept painted fresh id k :
  all_pursued past w k -> all_pursued past w (on_exited kept painted fresh id k).
Proof.
  intros Hk. unfold on_exited. destruct (terminals k !! id) as [s|] eqn:E; [|done].
  pose proof (backoff_ok _ _ _ _ _ Hk E) as Hb. destruct kept.
  - eapply all_put; [by apply all_others|reflexivity|done|]. split; by destruct (painted && fresh).
  - intros id' s' Hl. cbn in Hl. apply lookup_delete_Some in Hl as [_ Hl]. by apply Hk.
Qed.

Lemma pursue_slot past w f id k :
  (forall s, recovery (f s) = recovery s) -> all_pursued past w k -> all_pursued past w (on_slot f id k).
Proof. intros Hf Hk. unfold on_slot. destruct (terminals k !! id) as [s|] eqn:E; [|done]. by apply (put_same past w k id s). Qed.

Lemma pursue_tick past w now k : all_pursued past w k -> all_pursued past w (tick_resync_retries now k).
Proof.
  intros Hk. apply pursued_fold; [|done]. clear k Hk. intros k id Hk. unfold tick_one. destruct (terminals k !! id) as [s|] eqn:E; [|done].
  pose proof (backoff_ok _ _ _ _ _ Hk E) as Hb. unfold rearm. destruct (sync s) as [|r b] eqn:Es.
  - destruct (new_request id (put_slot id (set_retry_at None (set_sync Coherent s)) k)) as (Ht & _ & Hq).
    eapply all_put; [by apply all_others|exact Ht|exact Hq|]. by apply pursued_coherent.
  - eapply put_pushed; [by apply all_others|reflexivity|done].
Qed.

Lemma pursue_distrust past w visible k : all_pursued past w k -> all_pursued past w (mark_visible_desynced visible k).
Proof.
  intros Hk. apply pursued_fold; [|done]. clear k Hk. intros k id Hk. unfold distrust. destruct (terminals k !! id) as [s|] eqn:E; [|done].
  destruct (exited s); [done|]. eapply put_pushed; [by apply all_others|reflexivity|]. exact (backoff_ok past w k id s Hk E).
Qed.

(** ** The requests *)

Lemma pursue_requeue past w requests k :
  all_pursued past (map fst requests ++ w) k -> all_pursued past w (requeue_resync_requests requests k).
Proof.
  revert k. induction requests as [|[id required] l IH]; intros k Hk; [done|]. cbn [requeue_resync_requests fold_left]. apply IH.
  assert (others_pursued past (map fst l ++ w) id k) as Ho.
  { intros id' s Hne Hl. destruct (Hk id' s Hl) as [Hb Hs]. split; [done|]. intros He. specialize (Hs He). destruct (sync s) as [|r []]; [done| |done].
    destruct Hs as [?|Hs]; [by left|right]. cbn in Hs. by apply elem_of_cons in Hs as [->|]. }
  unfold requeue_one. destruct (terminals k !! id) as [s|] eqn:E.
  - pose proof (backoff_ok _ _ _ _ _ Hk E) as Hb. destruct (sync s) as [|r b] eqn:Es; [|by eapply put_pushed].
    intros id' s' Hl. destruct (decide (id' = id)) as [->|Hne]; [|by apply Ho].
    rewrite E in Hl. injection Hl as <-. by apply pursued_coherent.
  - intros id' s' Hl. destruct (decide (id' = id)) as [->|Hne]; [congruence|by apply Ho].
Qed.

Lemma pursue_send past w fuel room requests k :
  (length requests <= fuel)%nat -> all_pursued past (map fst requests ++ w) k ->
  let '(sent, k') := send_batches fuel room requests k in all_pursued past (map fst (concat sent) ++ w) k'.
Proof.
  revert w room requests k. induction fuel as [|fuel IH]; intros w room requests k Hf Hk; [destruct requests; [done|cbn in Hf; lia]|].
  destruct requests as [|x l] eqn:El; [done|]. rewrite <- El in *. destruct room as [|room].
  { assert (send_batches (S fuel) 0 requests k = ([], requeue_resync_requests requests k)) as -> by (by rewrite El). by apply pursue_requeue. }
  set (n := Z.to_nat MAX_RESYNC_REQUESTS_PER_BATCH).
  assert (send_batches (S fuel) (S room) requests k
          = (let '(sent, k') := send_batches fuel room (skipn n requests) k in (firstn n requests :: sent, k'))) as -> by (by rewrite El).
  assert (1 <= n)%nat as Hn by (unfold n; vm_compute; lia). clearbody n.
  specialize (IH (map fst (firstn n requests) ++ w) room (skipn n requests) k).
  destruct (send_batches fuel room (skipn n requests) k) as [sent k'].
  eapply pursue_more; [apply IH|done|].
  - rewrite length_skipn. assert (length requests = S (length l)) by (by rewrite El). lia.
  - apply (pursue_more past past (map fst requests ++ w) _ k Hk); [done|]. intros y. rewrite <- (firstn_skipn n requests) at 1.
    rewrite map_app, !elem_of_app. naive_solver.
  - intros y. cbn [concat]. rewrite map_app, !elem_of_app. naive_solver.
Qed.

Lemma pursue_flush past w room k :
  all_pursued past w k ->
  let '(sent, k') := flush_pending_terminal_resyncs room k in all_pursued past (map fst (concat sent) ++ w) k'.
Proof.
  intros Hk. unfold flush_pending_terminal_resyncs, drain_pending_resync_requests. apply pursue_send; [done|].
  intros id s Hl. cbn in Hl. destruct (Hk id s Hl) as [Hb Hs]. split; [done|]. intros He. specialize (Hs He).
  destruct (sync s) as [|r []] eqn:Es; [done| |done]. right. apply elem_of_app. destruct Hs as [Hq|Hw]; [left|by right].
  apply list_elem_of_fmap. exists (id, r). split; [done|]. apply list_elem_of_omap. exists id. split; [done|].
  unfold request_of. by rewrite Hl, Es.
Qed.

(** ** The theorem *)

(** The terminals a request for which was sent and not answered. *)
Definition on_wire_op (o : ClientOp) k (w : list Z) : list Z :=
  match o with
  | CFlush room => map fst (concat (flush_pending_terminal_resyncs room k).1) ++ w
  | CResync _ id _ _ _ | CUnavailable _ id => without id w
  | _ => w
  end.

Fixpoint on_wire (ops : list ClientOp) k (w : list Z) : list Z :=
  match ops with [] => w | o :: ops => on_wire ops (client_op k o) (on_wire_op o k w) end.

Lemma pursue_op past w o k : all_pursued past w k -> all_pursued (past ++ [o]) (on_wire_op o k w) (client_op k o).
Proof.
  intros Hk. assert (all_pursued (past ++ [o]) w k) as Hm by (apply (pursue_more past _ w w); [done|intros x Hx; apply elem_of_app; by left|done]).
  destruct o; cbn [client_op on_wire_op].
  - by apply pursue_output.
  - by apply pursue_resync.
  - by apply pursue_unavailable.
  - by apply pursue_snapshot.
  - apply put_coherent; [by apply all_others|done|done].
  - by apply pursue_replaced.
  - by apply pursue_exited.
  - apply (pursue_slot _ _ (apply_scrollback fresh now bs n)); [|done]. intros s. apply capture_recovery.
  - apply pursue_slot; [|done]. intros s. unfold scroll_up. by destruct (_ && _).
  - by apply pursue_slot.
  - intros id s Hl. cbn in Hl. rewrite lookup_fmap in Hl. destruct (terminals k !! id) as [s0|] eqn:E; [|done]. injection Hl as <-.
    by apply (Hm id s0).
  - unfold render_one_terminal. destruct (terminals k !! id) as [s|] eqn:E; [|done]. unfold ask_resize.
    destruct (resize_due _ _ _); apply (put_same _ w k id s); try done; [exact (draw_recovery size s)|apply draw_recovery].
  - apply (pursue_slot _ _ flush_pending); [|done]. intros s. apply flush_recovery.
  - pose proof (pursue_flush (past ++ [CFlush room]) w room k Hm). by destruct (flush_pending_terminal_resyncs room k).
  - by apply pursue_tick.
  - by apply pursue_distrust.
Qed.

Lemma pursued_run ops past w k : all_pursued past w k -> all_pursued (past ++ ops) (on_wire ops k w) (run_client ops k).
Proof.
  revert past w k. induction ops as [|o ops IH]; intros past w k Hk; [by rewrite app_nil_r|]. cbn.
  replace (past ++ o :: ops) with ((past ++ [o]) ++ ops) by (by rewrite <- app_assoc). by apply IH, pursue_op.
Qed.

(** A slot in the queue is asked for with what it requires. *)
Lemma drained k id s r :
  terminals k !! id = Some s -> sync s = Desynced r true -> id ∈ pending_resync_requests k ->
  (id, r) ∈ (drain_pending_resync_requests k).1.
Proof. intros Hl Es Hq. apply list_elem_of_omap. exists id. split; [done|]. unfold request_of. by rewrite Hl, Es. Qed.

Lemma tick_fold l k id s r b :
  terminals k !! id = Some s -> sync s = Desynced r b -> id ∈ l \/ b = true /\ id ∈ pending_resync_requests k ->
  exists s', terminals (fold_left tick_one l k) !! id = Some s' /\ sync s' = Desynced r true
    /\ id ∈ pending_resync_requests (fold_left tick_one l k).
Proof.
  revert k s b. induction l as [|x l IH]; intros k s b Hl Es Hin; cbn [fold_left].
  { destruct Hin as [Hin|[-> Hq]]; [by apply not_elem_of_nil in Hin|]. by exists s. }
  destruct (decide (x = id)) as [->|Hne].
  - assert (tick_one k id = push_new_request id (put_slot id (rearm s) k)) as -> by (unfold tick_one; by rewrite Hl).
    destruct (new_request id (put_slot id (rearm s) k)) as (Ht & Hq & _).
    apply (IH _ (rearm s) true); [by rewrite Ht; cbn; rewrite lookup_insert_eq|unfold rearm; cbn; by rewrite Es|by right].
  - assert (terminals (tick_one k x) !! id = Some s /\ forall y, y ∈ pending_resync_requests k -> y ∈ pending_resync_requests (tick_one k x)) as [Ht Hq].
    { unfold tick_one. destruct (terminals k !! x) as [s0|]; [|done]. destruct (new_request x (put_slot x (rearm s0) k)) as (Ht & _ & Hq).
      rewrite Ht. cbn. by rewrite lookup_insert_ne by done. }
    apply (IH _ s b Ht Es). destruct Hin as [Hin|[-> Hin]]; [apply elem_of_cons in Hin as [->|Hin]; [done|by left]|right; auto].
Qed.

Lemma ticked k id s r now d :
  terminals k !! id = Some s -> sync s = Desynced r false -> exited s = false -> resync_retry_at s = Some d -> d <= now ->
  (id, r) ∈ (drain_pending_resync_requests (tick_resync_retries now k)).1.
Proof.
  intros Hl Es He Hd Hn. destruct (tick_fold (map fst (List.filter (fun x => retry_due now x.2) (map_to_list (terminals k)))) k id s r false)
    as (s' & H1 & H2 & H3); [done|done| |by apply (drained _ id s' r)].
  left. apply list_elem_of_fmap. exists (id, s). split; [done|]. apply list_elem_of_In, filter_In. split.
  - apply list_elem_of_In. by apply elem_of_map_to_list.
  - unfold retry_due. cbn. rewrite Es, He, Hd. cbn. by apply Z.leb_le.
Qed.

(** C18: A torn stream is never forgotten: whatever came before, the next requests sent name the
    terminal with what it requires, or a request for it is on its way, or the daemon said it
    had none and from a time at most half a minute behind that the tick queues the request
    again.  So no terminal that runs is left on a stale frame with nobody to ask. *)
Theorem a_torn_terminal_is_never_forgotten ops id s required pending :
  let k := run_client ops no_terminals in
  terminals k !! id = Some s -> exited s = false -> sync s = Desynced required pending ->
  (id, required) ∈ (drain_pending_resync_requests k).1
  \/ id ∈ on_wire ops no_terminals []
  \/ exists since d, CUnavailable since id ∈ ops /\ d <= since + RESYNC_RETRY_CAP
      /\ forall now, d <= now -> (id, required) ∈ (drain_pending_resync_requests (tick_resync_retries now k)).1.
Proof.
  cbv zeta. intros Hl He Es. destruct (pursued_run ops [] [] no_terminals ltac:(done) id s Hl) as [_ Hs]. specialize (Hs He).
  rewrite Es in Hs. destruct pending.
  - destruct Hs as [Hq|Hw]; [left; by apply (drained _ id s)|by right; left].
  - right; right. destruct Hs as (since & d & Hin & Hd & Hle). exists since, d. split; [done|]. split; [done|].
    intros now Hn. by apply (ticked _ id s required now d).
Qed.

End Recovery.

(** ** Clients on concrete streams *)

Definition small : Z * Z := (80, 24).
Definition large : Z * Z := (100, 30).

(** The terminal prints a, b, c and d, and is resized behind a. *)
Definition printed_chunk (n : Z) : Sized :=
  match n with
  | 1 => at_size small ["a"%char]
  | 2 => at_size large ["b"%char]
  | 3 => at_size large ["c"%char]
  | 4 => at_size large ["d"%char]
  | _ => []
  end.

(** Its client misses b, is handed a replay, and draws. *)
Definition repaired : list ClientOp :=
  [CSpawned 1; COutput None 1 ["a"%char] 1 1 small; COutput None 1 ["c"%char] 3 3 large; CFlush 1;
   CResync true 1 ["a"; "b"; "c"]%char 3 [mkSpan 0 80 24; mkSpan 1 100 30]; COutput None 1 ["d"%char] 4 4 large;
   CDraw 0 large 1].

Definition grid_of (ops : list ClientOp) (id : Z) : option Sized :=
  on_tape <$> (terminals (run_client ops (no_terminals (T := Tape))) !! id).

Example a_repaired_grid : grid_of repaired 1 = Some (printed_chunk 1 ++ printed_chunk 2 ++ printed_chunk 3 ++ printed_chunk 4).
Proof. reflexivity. Qed.

Lemma repaired_calm : calm 1 printed_chunk repaired no_terminals.
Proof.
  assert (forall n bs size, 1 <= n <= 4 -> known size -> at_size size bs = stream printed_chunk (n - 1) n ->
    truthful printed_chunk n n size bs) as Ht by (intros n bs size Hn Hk Hs; split; [unfold u64_max; lia|done]).
  assert (known small /\ known large) as [Hs Hl] by (split; by split).
  unfold repaired. cbn [calm calm_slot].
  repeat match goal with
  | |- True /\ _ => split; [done|]
  | |- (1 = 1 -> _) /\ _ => split
  | |- True => done
  | |- 1 = 1 -> (_ -> truthful _ _ _ _ _) /\ _ => intros _; split; [intros _; apply Ht; [lia|done|reflexivity]|done]
  end.
  intros _. split; [|split; [|done]].
  - repeat constructor; cbn; lia.
  - repeat constructor; cbn; lia.
Qed.

Lemma a_grid_is_a_replay_and_what_followed_witness :
  exists s b base, terminals (run_client repaired no_terminals) !! 1 = Some s
    /\ (b, base) ∈ handed 1 repaired no_terminals /\ b <= last_seq s
    /\ on_tape (flush_pending s) = base ++ stream printed_chunk b (last_seq s).
Proof.
  assert (exists s, terminals (run_client repaired (no_terminals (T := Tape))) !! 1 = Some s /\ exited s = false) as (s & Hs & He)
    by (eexists; split; [vm_compute; reflexivity|reflexivity]).
  destruct (a_grid_is_a_replay_and_what_followed 1 printed_chunk repaired s repaired_calm Hs He) as (b & base & Hb).
  exists s, b, base. split; [exact Hs|exact Hb].
Defined.

(** Two batches while it is hidden. *)
Definition unseen : list Batch := [(1, 1, small, ["a"%char]); (2, 3, large, ["b"; "c"]%char)].

Lemma a_hidden_terminal_catches_up_witness :
  vt (flush_pending (fold_left take_batch unseen (make_slot (T := Tape) 0)))
  = vt (fold_left take_batch unseen (set_displayed true (make_slot (T := Tape) 0))).
Proof.
  assert (Forall full_batch unseen) as Hb by (repeat constructor; discriminate).
  apply (a_hidden_terminal_catches_up (make_slot (T := Tape) 0) unseen); [reflexivity|reflexivity|reflexivity|exact Hb].
Defined.

(** The daemon has no replay for the terminal that missed an output. *)
Definition refused : list ClientOp :=
  [CSpawned 1; COutput None 1 ["a"%char] 1 1 small; COutput None 1 ["c"%char] 3 3 large; CFlush 1; CUnavailable 5 1].

Lemma a_torn_terminal_is_never_forgotten_witness :
  exists s, terminals (run_client refused (no_terminals (T := Tape))) !! 1 = Some s /\ sync s = Desynced 3 false
    /\ ((1, 3) ∈ (drain_pending_resync_requests (run_client refused (no_terminals (T := Tape)))).1
        \/ 1 ∈ on_wire refused (no_terminals (T := Tape)) []
        \/ exists since d, CUnavailable since 1 ∈ refused /\ d <= since + RESYNC_RETRY_CAP
            /\ forall now, d <= now ->
                 (1, 3) ∈ (drain_pending_resync_requests (tick_resync_retries now (run_client refused (no_terminals (T := Tape))))).1).
Proof.
  assert (exists s, terminals (run_client refused (no_terminals (T := Tape))) !! 1 = Some s /\ exited s = false /\ sync s = Desynced 3 false)
    as (s & Hs & He & Hy) by (eexists; split; [vm_compute; reflexivity|split; reflexivity]).
  exists s. split; [exact Hs|]. split; [exact Hy|].
  exact (a_torn_terminal_is_never_forgotten refused 1 s 3 false Hs He Hy).
Defined.

(** ** Orders the code does not expect *)

(** The focus moves to a hidden terminal with bytes waiting, and output comes before the
    next frame: it is parsed first. *)
Definition overtaken : list ClientOp :=
  [CSpawned 1; COutput None 1 ["a"%char] 1 1 small; COutput (Some 1) 1 ["b"%char] 2 2 small; CDraw 0 small 1].

Example focus_overtakes_what_waits : grid_of overtaken 1 = Some (at_size small ["b"; "a"]%char).
Proof. reflexivity. Qed.

(** A resize announced to a hidden terminal without bytes is taken for applied, and is not,
    when it is drawn. *)
Definition announced : list ClientOp :=
  [CSpawned 1; CDraw 0 small 1; CHideAll; COutput None 1 [] 1 1 large; CDraw 1 large 1].

Example an_announced_resize_is_not_applied :
  (fun s => (vt_cols (vt s), vt_rows (vt s), pty_size s, pending_sizes s))
    <$> (terminals (run_client announced (no_terminals (T := Tape))) !! 1)
  = Some (100, 30, None, [mkSpan 0 100 30]).
Proof. reflexivity. Qed.

(** A visit to the scrollback ends before its capture comes: the capture replaces what was
    printed behind it, for good. *)
Definition capture_late : list ClientOp :=
  [CSpawned 1; CDraw 0 small 1; COutput (Some 1) 1 ["a"%char] 1 1 small; CScrollUp 0 1; CEndVisit 1;
   COutput (Some 1) 1 ["b"%char] 2 2 small; CCapture true 1 1 ["x"; "y"; "a"]%char 1].

Example a_late_capture_erases_output :
  grid_of capture_late 1 = Some (at_size small ["x"; "y"; "a"]%char)
  /\ last_seq <$> (terminals (run_client capture_late (no_terminals (T := Tape))) !! 1) = Some 2.
Proof. by split. Qed.
