(* ===== verification/ServeReplay.v ===== *)
(** * Serving replays

    What the daemon answers a client that asks for the state of its terminals: the
    terminals of a snapshot and the budget of their replays, the batches of requests for a
    replay ([server/src/spawn_handler.rs], [server/src/lib.rs]), deltas, and the recovery
    of a connection that fell behind the bus.

    A terminal's replay is read from the backend, which may fail or take too long: [None].
    Batches are served concurrently: the list of answers is one order of several.  The
    fields of a snapshot that no decision reads are one opaque field. *)

From Stdlib Require Import Ascii.
From S2P Require Import Prelude ReplayRing EventForward TerminalSync.

#[local] Open Scope Z_scope.

#[local] Notation bytes := (list ascii).
#[local] Notation len l := (Z.of_nat (length l)).

(** ** The terminals of a snapshot *)

(** Of a registered terminal, what [snapshot_terminals] reads. *)
Record TerminalEntry := mkEntry {
  finishing : bool;
  superseded : bool;
  backend_key : option string;
  has_meta : bool;
  authenticating : bool;
  entry_rest : bytes;
}.

Definition shown_entry (e : TerminalEntry) : bool :=
  negb (finishing e || superseded e) && is_some_and (fun _ => true) (backend_key e) && has_meta e.

Definition snapshot_terminal (answer : option ReplaySnapshot) (id : Z) (e : TerminalEntry) : TerminalSnapshot :=
  if authenticating e then mkTerminal id [] 0 true [] (entry_rest e)
  else match answer with
       | Some sn => mkTerminal id (replay sn) (ReplayRing.last_seq sn) true (snapshot_sizes sn) (entry_rest e)
       | None => mkTerminal id [] 0 false [] (entry_rest e)
       end.

(** [entries] in the order of the registry. *)
Definition snapshot_terminals (backend : string -> option ReplaySnapshot) (entries : list (Z * TerminalEntry))
  : list TerminalSnapshot :=
  omap (fun '(id, e) => if shown_entry e then Some (snapshot_terminal (backend_key e ≫= backend) id e) else None) entries.

(** ** The budget of a snapshot *)

Definition clear_replay (x : TerminalSnapshot) : TerminalSnapshot :=
  mkTerminal (snapshot_id x) [] (snapshot_seq x) (replay_available x) (replay_sizes x) (snapshot_rest x).

Definition withhold (x : TerminalSnapshot) : TerminalSnapshot :=
  mkTerminal (snapshot_id x) [] (snapshot_seq x) false (replay_sizes x) (snapshot_rest x).

Definition replay_len (x : TerminalSnapshot) : Z := len (snapshot_replay x).

Fixpoint total_len (l : list Z) : Z := match l with [] => 0 | x :: l => x + total_len l end.

Definition total_replay (ts : list TerminalSnapshot) : Z := total_len (map replay_len (List.filter replay_available ts)).

(** [order.sort_by_key(..)]: stable. *)
Fixpoint insert_by {A} (key : A -> Z) (x : A) (l : list A) : list A :=
  match l with [] => [x] | y :: l' => if key x <=? key y then x :: l else y :: insert_by key x l' end.
Definition sort_by_key {A} (key : A -> Z) (l : list A) : list A := foldr (insert_by key) [] l.

Definition len_at (ts : list TerminalSnapshot) (i : nat) : Z := match ts !! i with Some x => replay_len x | None => 0 end.

Fixpoint keep_within (order : list nat) (used : Z) (ts : list TerminalSnapshot) : list TerminalSnapshot :=
  match order with
  | [] => ts
  | i :: order =>
      match ts !! i with
      | None => keep_within order used ts
      | Some x =>
          if negb (replay_available x) then keep_within order used (<[i := clear_replay x]> ts)
          else if sat_add u64_max used (replay_len x) <=? SNAPSHOT_REPLAY_BUDGET
               then keep_within order (used + replay_len x) ts
               else keep_within order used (<[i := withhold x]> ts)
      end
  end.

Definition clear_unavailable (ts : list TerminalSnapshot) : list TerminalSnapshot :=
  map (fun x => if replay_available x then x else clear_replay x) ts.

Definition budget_snapshot_replay (ts : list TerminalSnapshot) : list TerminalSnapshot :=
  let ts := clear_unavailable ts in
  if total_replay ts <=? SNAPSHOT_REPLAY_BUDGET then ts
  else keep_within (sort_by_key (len_at ts) (List.seq 0 (length ts))) 0 ts.

(** ** Requests for a replay *)

(** An answer and whether it goes through the reserved lane. *)
Definition Answer : Type := Event * bool.

(** [backend] is the replay of a terminal that has a key; [None] as well where it has none. *)
Definition handle_terminal_resync_request (backend : Z -> option ReplaySnapshot) (t required : Z) : Answer :=
  match backend t with
  | Some sn =>
      if required <=? ReplayRing.last_seq sn then (TerminalResync t (replay sn) (ReplayRing.last_seq sn) (snapshot_sizes sn), true)
      else (TerminalResyncUnavailable t, false)
  | None => (TerminalResyncUnavailable t, false)
  end.

(** Debts of one terminal collapse to the highest. *)
Definition add_debt (m : gmap Z Z) (r : TerminalResyncRequest) : gmap Z Z :=
  <[r.1 := match m !! r.1 with Some n => Z.max n r.2 | None => r.2 end]> m.

Definition debts (requests : list TerminalResyncRequest) : gmap Z Z := fold_left add_debt requests ∅.

(** [None] is [CommandRejected]. *)
Definition handle_terminal_resync_requests (backend : Z -> option ReplaySnapshot) (requests : list TerminalResyncRequest)
  : option (list Answer) :=
  if is_nil requests || (MAX_RESYNC_REQUESTS_PER_BATCH <? len requests) then None
  else Some (map (fun '(t, required) => handle_terminal_resync_request backend t required) (map_to_list (debts requests))).

(** ** Falling behind the bus *)

Definition LAG_RECOVERY_DEBOUNCE : Z := secs 2.

(** A recovery under way: where its task is.  The rows reach the events of the bus published
    when they were read; [None]: they could not be. *)
Inductive RecoveryStage := Loading | Loaded (rows : option Z) | Current (rows : option Z).

#[export] Instance RecoveryStage_eq_dec : EqDecision RecoveryStage.
Proof. solve_decision. Defined.

Record Recovery := mkRecovery { generation : Z; stage : RecoveryStage }.

#[export] Instance Recovery_eq_dec : EqDecision Recovery.
Proof. solve_decision. Defined.

(** One connection's end of the bus: the events published, those read or missed, the last
    recovery begun, the generations handed out, the recoveries under way, and of each snapshot
    sent its generation and how far its rows reach, in the order they were sent. *)
Record Feed := mkFeed {
  published : Z;
  cursor : Z;
  last_lag_recovery : option Z;
  lag_recovery_generation : Z;
  building : list Recovery;
  recovered : list (Z * Z);
}.

Definition new_feed : Feed := mkFeed 0 0 None 0 [] [].

Definition set_building (l : list Recovery) (f : Feed) : Feed :=
  mkFeed (published f) (cursor f) (last_lag_recovery f) (lag_recovery_generation f) l (recovered f).

Definition recovery_due (now : Z) (f : Feed) : bool :=
  is_none_or (fun at_ => LAG_RECOVERY_DEBOUNCE <=? now - at_) (last_lag_recovery f).

(** The [Lagged(n)] arm; the receiver has skipped [n] events. *)
Definition on_lagged (now n : Z) (f : Feed) : Feed :=
  let f := mkFeed (published f) (Z.min (cursor f + n) (published f)) (last_lag_recovery f) (lag_recovery_generation f) (building f) (recovered f) in
  if recovery_due now f then
    let current_gen := lag_recovery_generation f + 1 in
    mkFeed (published f) (cursor f) (Some now) current_gen (building f ++ [mkRecovery current_gen Loading]) (recovered f)
  else f.

(** [build_and_send_lag_recovery_snapshot], in three steps between which others run: the rows
    are read, the generation is checked, the terminals are read and the snapshot is sent. *)
Definition load_rows (readable : bool) (i : nat) (f : Feed) : Feed :=
  match building f !! i with
  | Some r =>
      match stage r with
      | Loading => set_building (<[i := mkRecovery (generation r) (Loaded (if readable then Some (published f) else None))]> (building f)) f
      | _ => f
      end
  | None => f
  end.

Definition end_recovery (i : nat) (f : Feed) : Feed := set_building (delete i (building f)) f.

Definition check_generation (i : nat) (f : Feed) : Feed :=
  match building f !! i with
  | Some r =>
      match stage r with
      | Loaded rows =>
          if generation r <? lag_recovery_generation f then end_recovery i f
          else set_building (<[i := mkRecovery (generation r) (Current rows)]> (building f)) f
      | _ => f
      end
  | None => f
  end.

(** [taken]: the reserved lane takes the snapshot ([send_authoritative] is [Ok]); where it is
    full or closed, the snapshot is dropped with a warning. *)
Definition send_recovery (taken : bool) (i : nat) (f : Feed) : Feed :=
  match building f !! i with
  | Some r =>
      match stage r with
      | Current rows =>
          let f := end_recovery i f in
          match rows with
          | Some reach =>
              if taken
              then mkFeed (published f) (cursor f) (last_lag_recovery f) (lag_recovery_generation f) (building f)
                     (recovered f ++ [(generation r, reach)])
              else f
          | None => f
          end
      | _ => f
      end
  | None => f
  end.

Inductive FeedOp :=
  | Publish
  | Recv
  | Lagged (now n : Z)
  | LoadRows (readable : bool) (i : nat)
  | CheckGeneration (i : nat)
  | SendRecovery (taken : bool) (i : nat).

Definition feed_op (f : Feed) (o : FeedOp) : Feed :=
  match o with
  | Publish => mkFeed (published f + 1) (cursor f) (last_lag_recovery f) (lag_recovery_generation f) (building f) (recovered f)
  | Recv => mkFeed (published f) (Z.min (cursor f + 1) (published f)) (last_lag_recovery f) (lag_recovery_generation f) (building f) (recovered f)
  | Lagged now n => on_lagged now n f
  | LoadRows readable i => load_rows readable i f
  | CheckGeneration i => check_generation i f
  | SendRecovery taken i => send_recovery taken i f
  end.

Definition run_feed (ops : list FeedOp) (f : Feed) : Feed := fold_left feed_op ops f.
