(* ===== verification/ServeReplayProps.v ===== *)
(** * Serving replays: the budget, the answers

    A snapshot's replays fit the budget and as many of them are kept as fit; a request for a
    replay that a client sends is accepted and answered, and the answer moves the client's
    terminal on. *)

From Stdlib Require Import Ascii Sorting.
From S2P Require Import Prelude ReplayRing EventForward TerminalSync ServeReplay.

#[local] Open Scope Z_scope.

#[local] Notation len l := (Z.of_nat (length l)).

(** ** Sums *)

Lemma total_len_app a b : total_len (a ++ b) = total_len a + total_len b.
Proof. induction a as [|x a IH]; cbn; lia. Qed.

#[local] Instance total_len_perm : Proper ((≡ₚ) ==> (=)) total_len.
Proof. intros a b. induction 1; cbn; lia. Qed.

Lemma total_len_nonneg {A} (g : A -> Z) l : (forall x, 0 <= g x) -> 0 <= total_len (map g l).
Proof. intros Hg. induction l as [|x l IH]; cbn; [lia|]. pose proof (Hg x). lia. Qed.

Definition at_index (g : TerminalSnapshot -> Z) (ts : list TerminalSnapshot) (i : nat) : Z := from_option g 0 (ts !! i).

Lemma total_by_index g ts : total_len (map g ts) = total_len (map (at_index g ts) (List.seq 0 (length ts))).
Proof.
  induction ts as [|x ts IH]; [done|]. cbn [length List.seq map total_len]. f_equal. rewrite IH, <- seq_shift, map_map. done.
Qed.

(** ** Sorting *)

Section SortBy.
Context {A : Type} (key : A -> Z).

Lemma insert_by_perm x l : insert_by key x l ≡ₚ x :: l.
Proof. induction l as [|y l IH]; [done|]. cbn. destruct (key x <=? key y); [done|]. rewrite IH. apply perm_swap. Qed.

Lemma sort_by_key_perm l : sort_by_key key l ≡ₚ l.
Proof. induction l as [|x l IH]; [done|]. cbn. by rewrite insert_by_perm, IH. Qed.

Lemma insert_by_sorted x l : StronglySorted (fun a b => key a <= key b) l -> StronglySorted (fun a b => key a <= key b) (insert_by key x l).
Proof.
  induction 1 as [|y l Hl IH Hy]; cbn; [by repeat constructor|]. destruct (key x <=? key y) eqn:E.
  - apply Z.leb_le in E. constructor; [by constructor|]. constructor; [done|]. eapply Forall_impl; [exact Hy|]. cbn. lia.
  - apply Z.leb_gt in E. constructor; [done|]. rewrite insert_by_perm. constructor; [lia|done].
Qed.

Lemma sort_by_key_sorted l : StronglySorted (fun a b => key a <= key b) (sort_by_key key l).
Proof. induction l as [|x l IH]; [constructor|]. by apply insert_by_sorted. Qed.

End SortBy.

(** ** The budget *)

(** Which terminals of [order] the walk leaves their replay. *)
Fixpoint kept (order : list nat) (used : Z) (ts : list TerminalSnapshot) : list nat :=
  match order with
  | [] => []
  | i :: order =>
      match ts !! i with
      | Some x => if replay_available x && (used + replay_len x <=? SNAPSHOT_REPLAY_BUDGET)
                  then i :: kept order (used + replay_len x) ts else kept order used ts
      | None => kept order used ts
      end
  end.

Lemma kept_insert order used i x ts : i ∉ order -> kept order used (<[i := x]> ts) = kept order used ts.
Proof.
  revert used. induction order as [|j order IH]; intros used Hi; [done|]. apply not_elem_of_cons in Hi as [Hij Hi].
  cbn. rewrite list_lookup_insert_ne by done. destruct (ts !! j) as [y|]; [|by apply IH]. destruct (_ && _); rewrite !IH; done.
Qed.

Lemma kept_sub order used ts i : i ∈ kept order used ts -> i ∈ order.
Proof.
  revert used. induction order as [|j order IH]; intros used Hi; [done|]. cbn in Hi.
  destruct (ts !! j); [destruct (_ && _)|]; rewrite ?elem_of_cons in *; naive_solver.
Qed.

Definition outcome (fits : bool) (x : TerminalSnapshot) : TerminalSnapshot :=
  if replay_available x then if fits then x else withhold x else clear_replay x.

Lemma replay_len_nonneg x : 0 <= replay_len x.
Proof. unfold replay_len. lia. Qed.

Lemma within_budget used n : 0 <= used <= SNAPSHOT_REPLAY_BUDGET -> 0 <= n ->
  (sat_add u64_max used n <=? SNAPSHOT_REPLAY_BUDGET) = (used + n <=? SNAPSHOT_REPLAY_BUDGET).
Proof.
  intros Hu Hn. assert (SNAPSHOT_REPLAY_BUDGET < u64_max) as Hb by by vm_compute. unfold sat_add.
  destruct (Z.leb_spec (used + n) SNAPSHOT_REPLAY_BUDGET); [apply Z.leb_le|apply Z.leb_gt]; lia.
Qed.

Lemma keep_within_lookup order used ts j :
  NoDup order -> 0 <= used <= SNAPSHOT_REPLAY_BUDGET ->
  keep_within order used ts !! j
  = if bool_decide (j ∈ order) then outcome (bool_decide (j ∈ kept order used ts)) <$> ts !! j else ts !! j.
Proof.
  intros Hn. revert used ts. induction Hn as [|i order Hi Hn IH]; intros used ts Hu; [done|]. cbn [keep_within kept].
  destruct (ts !! i) as [x|] eqn:E.
  2:{ rewrite IH by done. destruct (decide (j = i)) as [->|Hne]; [rewrite E; by repeat case_match|].
      rewrite !(bool_decide_ext (j ∈ i :: order) (j ∈ order)) by (rewrite elem_of_cons; naive_solver). done. }
  pose proof (replay_len_nonneg x). rewrite within_budget by lia. unfold outcome.
  assert (forall used' y, 0 <= used' <= SNAPSHOT_REPLAY_BUDGET ->
    keep_within order used' (<[i:=y]> ts) !! j
    = if decide (j = i) then Some y else
      if bool_decide (j ∈ order) then outcome (bool_decide (j ∈ kept order used' ts)) <$> ts !! j else ts !! j) as Hins.
  { intros used' y Hu'. rewrite IH by done. rewrite kept_insert by done. destruct (decide (j = i)) as [->|Hne].
    - rewrite bool_decide_eq_false_2 by done. rewrite list_lookup_insert_eq; [done|]. by eapply lookup_lt_Some.
    - by rewrite list_lookup_insert_ne. }
  assert (forall used', 0 <= used' <= SNAPSHOT_REPLAY_BUDGET -> keep_within order used' ts = keep_within order used' (<[i:=x]> ts)) as Hsame.
  { intros. by rewrite list_insert_id. }
  destruct (replay_available x) eqn:Ea; cbn [negb andb];
    [destruct (Z.leb_spec (used + replay_len x) SNAPSHOT_REPLAY_BUDGET)|]; rewrite ?Hsame, Hins by lia;
    (destruct (decide (j = i)) as [->|Hne];
     [rewrite (bool_decide_eq_true_2 (i ∈ i :: order)) by left; rewrite E; cbn; rewrite Ea
     |rewrite (bool_decide_ext (j ∈ i :: order) (j ∈ order)) by (rewrite elem_of_cons; naive_solver)]); try done.
  - by rewrite bool_decide_eq_true_2 by left.
  - by rewrite (bool_decide_ext (j ∈ i :: _) (j ∈ kept order (used + replay_len x) ts)) by (rewrite elem_of_cons; naive_solver).
  - rewrite bool_decide_eq_false_2; [done|]. intros Hk. by apply kept_sub in Hk.
Qed.

(** *** The walk over all terminals *)

Definition weight (x : TerminalSnapshot) : Z := if replay_available x then replay_len x else 0.
Definition one_available (x : TerminalSnapshot) : Z := if replay_available x then 1 else 0.
Definition available_count (ts : list TerminalSnapshot) : Z := total_len (map one_available ts).

Lemma total_replay_weight ts : total_replay ts = total_len (map weight ts).
Proof. unfold total_replay, weight. induction ts as [|x ts IH]; [done|]. cbn. destruct (replay_available x); cbn; lia. Qed.

Lemma keep_within_length order used ts : length (keep_within order used ts) = length ts.
Proof.
  revert used ts. induction order as [|i order IH]; intros used ts; [done|]. cbn. destruct (ts !! i); [|done].
  repeat case_match; by rewrite ?IH, ?length_insert.
Qed.

(** What [g] adds up to over the outcome, where it is nothing on a withheld replay. *)
Lemma total_kept (g : TerminalSnapshot -> Z) order used ts :
  (forall x, replay_available x = false -> g x = 0) -> NoDup order -> (forall i, i ∈ order -> (i < length ts)%nat) ->
  0 <= used <= SNAPSHOT_REPLAY_BUDGET ->
  total_len (map (at_index g (keep_within order used ts)) order) = total_len (map (at_index g ts) (kept order used ts)).
Proof.
  intros Hg Hn Hr Hu.
  rewrite (map_ext_in (at_index g (keep_within order used ts))
             (fun j => if bool_decide (j ∈ kept order used ts) then at_index g ts j else 0)).
  2:{ intros j Hj%list_elem_of_In. unfold at_index. rewrite keep_within_lookup, bool_decide_eq_true_2 by done.
      destruct (ts !! j) as [x|] eqn:E; cbn; [|by case_bool_decide]. unfold outcome.
      case_bool_decide as Hk; [|destruct (replay_available x) eqn:?; by apply Hg]. destruct (replay_available x) eqn:Ea; [done|].
      clear -Hk Ea E. exfalso. revert used Hk. induction order as [|i order IH]; intros used Hk; [by apply elem_of_nil in Hk|].
      cbn in Hk. destruct (ts !! i) as [y|] eqn:Ei; [|by eapply IH].
      destruct (replay_available y) eqn:Ey; cbn in Hk; [|by eapply IH]. destruct (_ <=? _); [|by eapply IH].
      apply elem_of_cons in Hk as [->|Hk]; [congruence|by eapply IH]. }
  clear Hr Hu. revert used. induction Hn as [|i order Hi Hn IH]; intros used; [done|].
  assert (forall u, map (fun j => if bool_decide (j ∈ i :: kept order u ts) then at_index g ts j else 0) order
                  = map (fun j => if bool_decide (j ∈ kept order u ts) then at_index g ts j else 0) order) as Hc.
  { intros u. apply map_ext_in. intros j Hj%list_elem_of_In. erewrite bool_decide_ext; [done|]. rewrite elem_of_cons. naive_solver. }
  assert (forall u, bool_decide (i ∈ kept order u ts) = false) as Hf by (intros u; apply bool_decide_eq_false_2; by intros ?%kept_sub).
  cbn [kept map total_len]. destruct (ts !! i) as [x|] eqn:Ei; [destruct (_ && _)|]; rewrite ?Hc, ?Hf, IH; cbn [map total_len]; try lia.
  rewrite bool_decide_eq_true_2 by left. lia.
Qed.

Lemma kept_within order used ts : 0 <= used <= SNAPSHOT_REPLAY_BUDGET ->
  used + total_len (map (at_index weight ts) (kept order used ts)) <= SNAPSHOT_REPLAY_BUDGET.
Proof.
  revert used. induction order as [|i order IH]; intros used Hu; [cbn; lia|]. cbn [kept].
  destruct (ts !! i) as [x|] eqn:E; [|by apply IH]. destruct (replay_available x) eqn:Ea; [|by apply IH].
  cbn [andb]. destruct (Z.leb_spec (used + replay_len x) SNAPSHOT_REPLAY_BUDGET) as [Hl|_]; [|by apply IH].
  pose proof (replay_len_nonneg x). specialize (IH (used + replay_len x) ltac:(lia)). cbn [map total_len].
  unfold at_index at 1. rewrite E. cbn. unfold weight at 1. rewrite Ea. lia.
Qed.

(** The replay of every index of a choice is available. *)
Definition offered (ts : list TerminalSnapshot) (i : nat) : Prop := exists x, ts !! i = Some x /\ replay_available x = true.

(** Smallest first, no choice that fits has more. *)
Lemma kept_most ts order used choice :
  StronglySorted (fun i j => len_at ts i <= len_at ts j) order -> choice ⊆+ order -> Forall (offered ts) choice ->
  0 <= used -> used + total_len (map (len_at ts) choice) <= SNAPSHOT_REPLAY_BUDGET ->
  (length choice <= length (kept order used ts))%nat.
Proof.
  assert (forall i, 0 <= len_at ts i) as Hp by (intros i; unfold len_at; destruct (ts !! i); [apply replay_len_nonneg|done]).
  intros Hs. revert used choice. induction Hs as [|i order Hs IH Hi]; intros used choice Hsub Ho Hu Hle.
  { apply submseteq_nil_r in Hsub as ->. cbn. lia. }
  pose proof (total_len_nonneg (len_at ts)) as Hnn.
  assert (forall s rest, choice ≡ₚ s :: rest -> rest ⊆+ order -> len_at ts i <= len_at ts s ->
    (length choice <= length (kept (i :: order) used ts))%nat \/ ~ offered ts i) as Hstep.
  { intros s rest Hc Hr Hsi. rewrite Hc in Ho. apply Forall_cons in Ho as [_ Ho]. apply (Permutation_map (len_at ts)) in Hc as Hm. rewrite Hm in Hle. cbn in Hle. specialize (Hnn rest Hp).
    destruct (ts !! i) as [x|] eqn:E; [|right; intros (x & Hx & _); congruence].
    destruct (replay_available x) eqn:Ea; [left|right; intros (y & Hy & ?); congruence].
    assert (len_at ts i = replay_len x) as Hx by (unfold len_at; by rewrite E). specialize (Hp i).
    cbn [kept]. rewrite E, Ea, (proj2 (Z.leb_le _ _)) by lia. cbn. rewrite Hc. cbn. apply le_n_S, IH; auto; lia. }
  apply submseteq_cons_r in Hsub as [Hsub|(rest & Hc & Hr)].
  - destruct choice as [|s rest]; [cbn; lia|].
    assert (s ∈ order) as Hin by (eapply elem_of_submseteq; [by left|done]).
    destruct (Hstep s rest) as [H|H]; [done|etrans; [by apply submseteq_cons|done]| |done|].
    { rewrite Forall_forall in Hi. by apply Hi. }
    cbn [kept]. destruct (ts !! i) as [x|] eqn:E; [|by apply IH]. destruct (replay_available x) eqn:Ea; [|by apply IH].
    exfalso. apply H. by exists x.
  - destruct (Hstep i rest) as [H|H]; [done|done|lia|done|]. exfalso. apply H. rewrite Hc in Ho. by apply Forall_cons in Ho as [? _].
Qed.

(** ** The snapshot *)

Lemma cleared_lookup ts i : clear_unavailable ts !! i = (fun x => if replay_available x then x else clear_replay x) <$> ts !! i.
Proof. apply list_lookup_fmap. Qed.

Lemma cleared_offered ts i : offered (clear_unavailable ts) i <-> offered ts i.
Proof.
  unfold offered. rewrite cleared_lookup. destruct (ts !! i) as [x|]; cbn; [|split; intros (? & ? & ?); congruence].
  destruct (replay_available x) eqn:Ea.
  - split; intros (y & Hy & ?); injection Hy as <-; by exists x.
  - split; intros (y & Hy & Ht); injection Hy as <-; cbn in Ht; congruence.
Qed.

Lemma offered_len ts i : offered ts i -> len_at (clear_unavailable ts) i = len_at ts i.
Proof. intros (x & Hx & Ha). unfold len_at. rewrite cleared_lookup, Hx. cbn. by rewrite Ha. Qed.

Lemma choice_in_range ts (choice order : list nat) :
  order ≡ₚ List.seq 0 (length ts) -> NoDup choice -> Forall (offered ts) choice -> choice ⊆+ order.
Proof.
  intros Hp Hn Hf. apply NoDup_submseteq; [done|]. intros i Hi. rewrite Hp, elem_of_seq. rewrite Forall_forall in Hf.
  destruct (Hf i Hi) as (x & Hx & _). apply lookup_lt_Some in Hx. lia.
Qed.

Lemma count_kept ts l : Forall (offered ts) l -> total_len (map (at_index one_available ts) l) = len l.
Proof.
  induction 1 as [|i l (x & Hx & Ha) Hl IH]; [done|]. cbn [map total_len length]. rewrite IH. unfold at_index, one_available. rewrite Hx. cbn.
  rewrite Ha. lia.
Qed.

Lemma kept_offered order used ts : Forall (offered ts) (kept order used ts).
Proof.
  revert used. induction order as [|i order IH]; intros used; [constructor|]. cbn. destruct (ts !! i) as [x|] eqn:E; [|done].
  destruct (replay_available x) eqn:Ea; [|apply IH]. cbn. destruct (_ <=? _); [|apply IH]. constructor; [by exists x|apply IH].
Qed.

Lemma outcome_cleared b x : outcome b (if replay_available x then x else clear_replay x) = if replay_available x && b then x else withhold x.
Proof. destruct x as [? ? ? [] ? ?]; by destruct b. Qed.

(** What the budget makes of each terminal, and which are left their replay. *)
Definition budgeted (ts : list TerminalSnapshot) (keeps : list nat) (out : list TerminalSnapshot) : Prop :=
  (forall i, out !! i = (fun x => if replay_available x && bool_decide (i ∈ keeps) then x else withhold x) <$> ts !! i)
  /\ total_replay out <= SNAPSHOT_REPLAY_BUDGET
  /\ available_count out = len keeps
  /\ forall choice, NoDup choice -> Forall (offered ts) choice ->
       total_len (map (len_at ts) choice) <= SNAPSHOT_REPLAY_BUDGET -> (length choice <= length keeps)%nat.

Lemma budgeted_all ts :
  let cs := clear_unavailable ts in
  total_replay cs <= SNAPSHOT_REPLAY_BUDGET ->
  budgeted ts (List.filter (fun i => match cs !! i with Some x => replay_available x | None => false end) (List.seq 0 (length cs))) cs.
Proof.
  cbv zeta. intros Hle. pose proof (cleared_offered ts) as Ho. pose proof (cleared_lookup ts) as Hc. set (cs := clear_unavailable ts) in *.
  set (keeps := List.filter _ _).
  assert (forall i, i ∈ keeps <-> offered cs i) as Hk.
  { intros i. unfold keeps. rewrite list_elem_of_In, filter_In, <- list_elem_of_In, elem_of_seq. unfold offered.
    destruct (cs !! i) as [x|] eqn:E; [|split; [by intros [? ?]|intros (? & ? & ?); congruence]].
    apply lookup_lt_Some in E. split; [intros [_ ?]; eauto|intros (? & [= <-] & ?); split; [lia|done]]. }
  split; [|split; [done|split]].
  - intros i. rewrite Hc. destruct (ts !! i) as [x|] eqn:E; [|done]. cbn. f_equal. destruct (replay_available x) eqn:Ea.
    + rewrite bool_decide_eq_true_2; [done|]. apply Hk, Ho. by exists x.
    + unfold withhold, clear_replay. by rewrite Ea.
  - unfold available_count. rewrite total_by_index. unfold keeps. clear. generalize (List.seq 0 (length cs)) as l.
    induction l as [|i l IH]; [done|]. cbn. rewrite IH. unfold at_index at 1, one_available. destruct (cs !! i) as [x|]; cbn; [|done].
    destruct (replay_available x); cbn; lia.
  - intros choice Hn Hf _. apply submseteq_length, NoDup_submseteq; [done|]. intros i Hi. apply Hk, Ho.
    rewrite Forall_forall in Hf. by apply Hf.
Qed.

Lemma budgeted_smallest ts :
  let cs := clear_unavailable ts in let order := sort_by_key (len_at cs) (List.seq 0 (length cs)) in
  budgeted ts (kept order 0 cs) (keep_within order 0 cs).
Proof.
  cbv zeta. pose proof (cleared_offered ts) as Ho. pose proof (offered_len ts) as Hlen. pose proof (cleared_lookup ts) as Hc.
  assert (length (clear_unavailable ts) = length ts) as Hl by apply length_map. set (cs := clear_unavailable ts) in *.
  set (order := sort_by_key (len_at cs) (List.seq 0 (length cs))).
  assert (order ≡ₚ List.seq 0 (length cs)) as Hp by apply sort_by_key_perm.
  assert (NoDup order) as Hn by (rewrite Hp; apply NoDup_seq).
  assert (forall i, i ∈ order <-> (i < length cs)%nat) as Hr by (intros i; rewrite Hp, elem_of_seq; lia).
  assert (0 <= 0 <= SNAPSHOT_REPLAY_BUDGET) as H0 by by vm_compute.
  assert (forall g, (forall x, replay_available x = false -> g x = 0) ->
    total_len (map g (keep_within order 0 cs)) = total_len (map (at_index g cs) (kept order 0 cs))) as Htot.
  { intros g Hg. rewrite total_by_index, keep_within_length, <- Hp. apply total_kept; [done|done| |done]. intros i Hi. by apply Hr. }
  split; [|split; [|split]].
  - intros i. rewrite keep_within_lookup by done. rewrite Hc. destruct (ts !! i) as [x|] eqn:E; [|by case_bool_decide].
    rewrite bool_decide_eq_true_2; [|apply Hr; rewrite Hl; by eapply lookup_lt_Some]. cbn. by rewrite outcome_cleared.
  - rewrite total_replay_weight, Htot; [|intros x Hx; unfold weight; by rewrite Hx]. pose proof (kept_within order 0 cs H0). lia.
  - unfold available_count. rewrite Htot; [|intros x Hx; unfold one_available; by rewrite Hx]. apply count_kept, kept_offered.
  - intros choice Hnc Hf Hle. assert (Forall (offered cs) choice) by (eapply Forall_impl; [exact Hf|intros; by apply Ho]).
    apply kept_most; [apply sort_by_key_sorted|by apply (choice_in_range cs)|done|done|].
    erewrite map_ext_in; [exact Hle|]. intros i Hi%list_elem_of_In. rewrite Forall_forall in Hf. by apply Hlen, Hf.
Qed.

(** C27: A snapshot's replays never exceed half a frame: a terminal keeps its replay whole or is
    marked unavailable with none of it, and no choice of available replays that fits has more
    of them than are kept; where all fit, so, all are. *)
Theorem the_budget_keeps_as_many_replays_as_fit ts :
  let out := budget_snapshot_replay ts in
  total_replay out <= SNAPSHOT_REPLAY_BUDGET
  /\ Forall2 (fun x y => y = withhold x \/ replay_available x = true /\ y = x) ts out
  /\ forall choice, NoDup choice -> Forall (offered ts) choice ->
       total_len (map (len_at ts) choice) <= SNAPSHOT_REPLAY_BUDGET -> len choice <= available_count out.
Proof.
  cbv zeta. assert (exists keeps, budgeted ts keeps (budget_snapshot_replay ts)) as (keeps & Hout & Hle & Hc & Hm).
  { unfold budget_snapshot_replay. cbv zeta. destruct (Z.leb_spec (total_replay (clear_unavailable ts)) SNAPSHOT_REPLAY_BUDGET).
    - eexists. by apply budgeted_all.
    - eexists. apply budgeted_smallest. }
  split; [done|]. split; [|intros choice Hn Hf Hs; rewrite Hc; specialize (Hm choice Hn Hf Hs); lia].
  apply Forall2_lookup. intros i. rewrite Hout. destruct (ts !! i) as [x|]; constructor.
  destruct (replay_available x) eqn:Ea; cbn; [case_bool_decide; auto|by left].
Qed.
