(* ===== verification/ServeReplayAnswers.v ===== *)
(** * Serving replays: requests and answers

    The batches of requests that a client sends are accepted, each terminal of a batch is
    answered once, and a terminal that was answered is coherent or will be asked for again.
    At the end a snapshot within its budget, and a client that tears, asks and is answered. *)

From Stdlib Require Import Ascii.
From S2P Require Import Prelude ReplayRing EventForward TerminalSync TerminalSyncProps TerminalSyncGrid TerminalSyncLive ServeReplay ServeReplayProps.

#[local] Open Scope Z_scope.

(** The terminal an answer is about. *)
Definition about (a : Answer) : option Z :=
  match a.1 with TerminalResync t _ _ _ => Some t | TerminalResyncUnavailable t => Some t | _ => None end.

Definition covers (r : Z) (a : Answer) : Prop := match a.1 with TerminalResync _ _ n _ => r <= n | _ => True end.

(** ** The debts of a batch *)

Lemma add_debt_lookup m (r : TerminalResyncRequest) t :
  add_debt m r !! t = if decide (r.1 = t) then Some (match m !! t with Some n => Z.max n r.2 | None => r.2 end) else m !! t.
Proof. unfold add_debt. destruct (decide (r.1 = t)) as [<-|Hne]; [by rewrite lookup_insert_eq|by rewrite lookup_insert_ne]. Qed.

Lemma debts_from requests m t :
  match fold_left add_debt requests m !! t with
  | Some n => (m !! t = Some n \/ (t, n) ∈ requests) /\ (forall r, (t, r) ∈ requests -> r <= n) /\ (forall r, m !! t = Some r -> r <= n)
  | None => m !! t = None /\ forall r, (t, r) ∉ requests
  end.
Proof.
  revert m. induction requests as [|[u w] requests IH]; intros m; cbn [fold_left].
  - destruct (m !! t) as [n|] eqn:E; [|split; [done|]; intros r Hr; by apply elem_of_nil in Hr].
    split; [by left|]. split; [intros r Hr; by apply elem_of_nil in Hr|]. intros r Hr. injection Hr as ->. lia.
  - specialize (IH (add_debt m (u, w))). rewrite add_debt_lookup in IH. cbn [fst snd] in IH.
    revert IH. destruct (fold_left add_debt requests (add_debt m (u, w)) !! t) as [n|]; intros IH.
    + destruct IH as (Hin & Hr & Hm). destruct (decide (u = t)) as [->|Hne].
      * specialize (Hm _ eq_refl). split; [|split].
        -- destruct Hin as [Hin|Hin]; [|right; by right]. injection Hin as <-. destruct (m !! t) as [n0|]; [|right; by left].
           destruct (Z.max_spec n0 w) as [[_ ->]|[_ ->]]; [right; by left|by left].
        -- intros r [Hx|Hx]%elem_of_cons; [|by apply Hr]. injection Hx as ->. destruct (m !! t); lia.
        -- intros r Hx. rewrite Hx in Hm. lia.
      * split; [destruct Hin; [by left|right; by right]|]. split; [|done]. intros r [Hx|Hx]%elem_of_cons; [congruence|by apply Hr].
    + destruct IH as [Hn Hr]. destruct (decide (u = t)) as [->|Hne]; [done|]. split; [done|].
      intros r [Hx|Hx]%elem_of_cons; [congruence|by apply (Hr r)].
Qed.

Lemma debts_some requests t n : debts requests !! t = Some n -> (t, n) ∈ requests /\ forall r, (t, r) ∈ requests -> r <= n.
Proof.
  intros Hd. pose proof (debts_from requests ∅ t) as Hf. unfold debts in Hd. rewrite Hd in Hf. destruct Hf as (Hin & Hr & _).
  split; [|done]. destruct Hin as [Hin|Hin]; [by rewrite lookup_empty in Hin|done].
Qed.

Lemma debts_owed requests t r : (t, r) ∈ requests -> exists n, debts requests !! t = Some n /\ r <= n.
Proof.
  intros Hin. pose proof (debts_from requests ∅ t) as Hf. unfold debts. revert Hf. destruct (fold_left add_debt requests ∅ !! t) as [n|]; intros Hf.
  - exists n. split; [done|]. destruct Hf as (_ & Hf & _). by apply Hf.
  - destruct Hf as [_ Hf]. by apply Hf in Hin.
Qed.

(** ** The answers to a batch *)

Lemma answer_spec backend t required :
  about (handle_terminal_resync_request backend t required) = Some t /\ covers required (handle_terminal_resync_request backend t required).
Proof. unfold handle_terminal_resync_request. destruct (backend t) as [sn|]; [|done]. destruct (Z.leb_spec required (ReplayRing.last_seq sn)); done. Qed.

Lemma answers_about backend requests answers :
  handle_terminal_resync_requests backend requests = Some answers ->
  map about answers = map (fun x => Some x.1) (map_to_list (debts requests)).
Proof.
  unfold handle_terminal_resync_requests. destruct (_ || _); [done|]. intros [= <-]. rewrite map_map. apply map_ext. intros [t n].
  apply answer_spec.
Qed.

Lemma answers_once backend requests answers :
  handle_terminal_resync_requests backend requests = Some answers ->
  NoDup (map about answers) /\ forall t, Some t ∈ map about answers <-> t ∈ map fst requests.
Proof.
  intros Ha. rewrite (answers_about _ _ _ Ha). split.
  - rewrite <- (map_map fst Some). apply NoDup_fmap_2; [by intros ? ? [=]|]. apply NoDup_fst_map_to_list.
  - intros t. rewrite !list_elem_of_fmap. split.
    + intros ([u n] & [= ->] & Hin%elem_of_map_to_list). apply debts_some in Hin as [Hin _]. by exists (u, n).
    + intros ([u r] & -> & Hin). apply debts_owed in Hin as (n & Hn & _). exists (u, n). split; [done|]. by apply elem_of_map_to_list.
Qed.

Lemma answers_cover backend requests answers a :
  handle_terminal_resync_requests backend requests = Some answers -> a ∈ answers ->
  exists t n, about a = Some t /\ (t, n) ∈ requests /\ covers n a.
Proof.
  unfold handle_terminal_resync_requests. destruct (_ || _); [done|]. intros [= <-]. intros ([t n] & -> & Hin)%list_elem_of_fmap.
  apply elem_of_map_to_list, debts_some in Hin as [Hin _]. destruct (answer_spec backend t n). by exists t, n.
Qed.

Section Settling.
Context {T : Type} `{Vt T}.
Implicit Types (s : TerminalSlot (T := T)) (k : TerminalStack (T := T)).

(** ** What a client sends *)

Definition batch_ok (requests : list TerminalResyncRequest) : Prop :=
  requests <> [] /\ Z.of_nat (length requests) <= MAX_RESYNC_REQUESTS_PER_BATCH.

Lemma batch_accepted backend requests : batch_ok requests -> is_Some (handle_terminal_resync_requests backend requests).
Proof.
  intros [Hne Hle]. unfold handle_terminal_resync_requests. destruct requests as [|x l]; [done|]. cbn [is_nil orb].
  assert ((MAX_RESYNC_REQUESTS_PER_BATCH <? Z.of_nat (length (x :: l))) = false) as -> by by apply Z.ltb_ge. done.
Qed.

Lemma send_batches_ok fuel room requests k :
  let sent := (send_batches fuel room requests k).1 in Forall batch_ok sent /\ forall x, x ∈ concat sent -> x ∈ requests.
Proof.
  revert room requests. induction fuel as [|fuel IH]; intros room requests; [destruct requests; cbn; (split; [by apply Forall_nil|intros y Hy; by apply elem_of_nil in Hy])|].
  destruct requests as [|x l] eqn:El; [cbn; split; [by apply Forall_nil|intros y Hy; by apply elem_of_nil in Hy]|].
  destruct room as [|room]; [cbn; split; [by apply Forall_nil|intros y Hy; by apply elem_of_nil in Hy]|].
  rewrite <- El. assert (requests <> []) as Hne by by rewrite El.
  set (n := Z.to_nat MAX_RESYNC_REQUESTS_PER_BATCH).
  assert (send_batches (S fuel) (S room) requests k
          = (let '(sent, k') := send_batches fuel room (skipn n requests) k in (firstn n requests :: sent, k'))) as -> by (by rewrite El).
  assert (1 <= n)%nat as Hn by (unfold n; vm_compute; lia). assert (Z.of_nat n = MAX_RESYNC_REQUESTS_PER_BATCH) as Hm by done. clearbody n.
  destruct (IH room (skipn n requests)) as [Hok Hin]. destruct (send_batches fuel room (skipn n requests) k) as [sent k']. cbn in *. split.
  - constructor; [|done]. split; [|rewrite <- Hm, length_firstn; lia]. intros Hf. apply Hne.
    destruct requests; [done|]. destruct n; [lia|done].
  - intros y [Hy|Hy]%elem_of_app; [(rewrite <- (firstn_skipn n requests); apply elem_of_app; by left)|].
    rewrite <- (firstn_skipn n requests). apply elem_of_app. right. by apply Hin.
Qed.

(** A slot that waits for its replay. *)
Definition waits (r : Z) (n : Z) s : Prop := sync s = Desynced r true /\ last_seq s = n /\ resync_retry_backoff s <= RESYNC_RETRY_CAP.

Lemma requeue_waits requests k id r n :
  (forall r', (id, r') ∈ requests -> r' = r) -> (exists s, terminals k !! id = Some s /\ waits r n s) ->
  exists s, terminals (requeue_resync_requests requests k) !! id = Some s /\ waits r n s.
Proof.
  revert k. induction requests as [|[u w] requests IH]; intros k Hr (s & Hl & Hw); [by exists s|].
  cbn [requeue_resync_requests fold_left]. apply IH; [intros r' Hin; apply Hr; by right|]. unfold requeue_one.
  destruct (terminals k !! u) as [su|] eqn:Eu; [|by exists s]. destruct (sync su) as [|ru b] eqn:Es; [by exists s|].
  unfold push_new_request. destruct (decide (u = id)) as [->|Hne].
  - exists (set_retry_at None (set_sync (Desynced (ru `max` w) true) su)). rewrite Hl in Eu. injection Eu as <-. destruct Hw as (Hs & Hn & Hb).
    rewrite Hs in Es. injection Es as <- <-. rewrite (Hr w) by by left. rewrite Z.max_id.
    split; [case_bool_decide; cbn; by rewrite lookup_insert_eq|done].
  - exists s. split; [|done]. case_bool_decide; cbn; by rewrite lookup_insert_ne.
Qed.

Lemma send_waits fuel room requests k id r n :
  (forall r', (id, r') ∈ requests -> r' = r) -> (exists s, terminals k !! id = Some s /\ waits r n s) ->
  exists s, terminals (send_batches fuel room requests k).2 !! id = Some s /\ waits r n s.
Proof.
  revert room requests. induction fuel as [|fuel IH]; intros room requests Hr Hw; [by destruct requests|].
  destruct requests as [|x l] eqn:El; [done|]. rewrite <- El in *. destruct room as [|room].
  { assert (send_batches (S fuel) 0 requests k = ([], requeue_resync_requests requests k)) as -> by (by rewrite El). by apply requeue_waits. }
  set (m := Z.to_nat MAX_RESYNC_REQUESTS_PER_BATCH).
  assert (send_batches (S fuel) (S room) requests k
          = (let '(sent, k') := send_batches fuel room (skipn m requests) k in (firstn m requests :: sent, k'))) as -> by (by rewrite El).
  clearbody m. specialize (IH room (skipn m requests)). destruct (send_batches fuel room (skipn m requests) k) as [sent k'].
  apply IH; [|done]. intros r' Hin. apply Hr. rewrite <- (firstn_skipn m requests). apply elem_of_app. by right.
Qed.

Lemma drained_request k id r : (id, r) ∈ (drain_pending_resync_requests k).1 -> exists s, terminals k !! id = Some s /\ sync s = Desynced r true.
Proof.
  cbn. intros (u & _ & Hu)%list_elem_of_omap. unfold request_of in Hu. destruct (terminals k !! u) as [s|] eqn:E; [|done].
  destruct (sync s) as [|r' []] eqn:Es; [done| |done]. injection Hu as -> ->. by exists s.
Qed.

Lemma flush_spec room k id r :
  (forall s, terminals k !! id = Some s -> resync_retry_backoff s <= RESYNC_RETRY_CAP) ->
  let '(sent, k') := flush_pending_terminal_resyncs room k in
  Forall batch_ok sent
  /\ ((id, r) ∈ concat sent -> (forall r', (id, r') ∈ concat sent -> r' = r)
      /\ exists s s', terminals k !! id = Some s /\ terminals k' !! id = Some s' /\ waits r (last_seq s) s').
Proof.
  intros Hb. unfold flush_pending_terminal_resyncs. destruct (drain_pending_resync_requests k) as [requests k1] eqn:Ed.
  assert (terminals k1 = terminals k) as Ht by (injection Ed as _ <-; done).
  pose proof (send_batches_ok (length requests) room requests k1) as [Hok Hin].
  pose proof (fun n => send_waits (length requests) room requests k1 id r n) as Hw.
  destruct (send_batches (length requests) room requests k1) as [sent k']. cbn in *. split; [done|]. intros Hr%Hin.
  assert (requests = (drain_pending_resync_requests k).1) as Hreq by by rewrite Ed. rewrite Hreq in Hr, Hin, Hw.
  destruct (drained_request _ _ _ Hr) as (s & Hl & Hs).
  assert (forall r', (id, r') ∈ (drain_pending_resync_requests k).1 -> r' = r) as Hone.
  { intros r' (s1 & Hl1 & Hs1)%drained_request. congruence. }
  split; [intros r' Hr'; apply Hone, Hin, Hr'|]. destruct (Hw (last_seq s) Hone) as (s' & Hl' & Hw').
  { exists s. rewrite Ht. split; [done|]. split; [done|]. split; [done|]. by apply Hb. }
  by exists s, s'.
Qed.

(** ** What an answer makes of the client *)

Definition deliver (now : Z) k (a : Answer) : TerminalStack (T := T) :=
  match a.1 with
  | TerminalResync t bs n sizes => client_op k (CResync true t bs n sizes)
  | TerminalResyncUnavailable t => client_op k (CUnavailable now t)
  | _ => k
  end.

(** The terminal is coherent again, or has a time at which it asks, or a request queued. *)
Definition settled (now r id : Z) k : Prop :=
  exists s, terminals k !! id = Some s
    /\ match sync s with
       | Coherent => r <= last_seq s
       | Desynced _ false => exists d, resync_retry_at s = Some d /\ d <= now + RESYNC_RETRY_CAP
       | Desynced _ true => id ∈ pending_resync_requests k
       end.

Definition sound (r id : Z) k : Prop :=
  exists s, terminals k !! id = Some s /\ resync_retry_backoff s <= RESYNC_RETRY_CAP /\ (sync s = Coherent -> r <= last_seq s).

Lemma deliver_other now k a id : about a <> Some id ->
  terminals (deliver now k a) !! id = terminals k !! id
  /\ (id ∈ pending_resync_requests k -> id ∈ pending_resync_requests (deliver now k a)).
Proof.
  destruct a as [[] lane]; cbn; intros Hne; try done; (assert (terminal_id <> id) as Hn by congruence).
  - unfold resync_terminal, push_new_request, push_request, put_slot. repeat case_match; cbn; rewrite ?lookup_insert_ne by done; rewrite ?elem_of_app; auto.
  - unfold resync_unavailable, put_slot. repeat case_match; cbn; rewrite ?lookup_insert_ne by done; auto.
Qed.

Lemma found_settled now r id s k :
  terminals k !! id = Some s -> resync_retry_backoff s <= RESYNC_RETRY_CAP ->
  match sync s with
  | Coherent => r <= last_seq s
  | Desynced _ false => exists d, resync_retry_at s = Some d /\ d <= now + RESYNC_RETRY_CAP
  | Desynced _ true => id ∈ pending_resync_requests k
  end -> settled now r id k /\ sound r id k.
Proof.
  intros Hl Hb Hs. split; exists s; (split; [done|]); [done|]. split; [done|]. intros Hc. by rewrite Hc in Hs.
Qed.

Lemma new_request_put id s k :
  terminals (push_new_request id (put_slot id s k)) !! id = Some s /\ id ∈ pending_resync_requests (push_new_request id (put_slot id s k)).
Proof.
  unfold push_new_request. cbn [pending_resync_requests put_slot]. case_bool_decide as Hq; cbn; rewrite lookup_insert_eq; (split; [done|]); [done|].
  apply elem_of_app. right. by apply list_elem_of_singleton.
Qed.

Lemma deliver_settles now k a r id :
  about a = Some id -> covers r a -> sound r id k -> settled now r id (deliver now k a) /\ sound r id (deliver now k a).
Proof.
  intros Ha Hc (s & Hl & Hb & Hs). destruct a as [[] lane]; cbn in Ha; try done; injection Ha as ->; cbn [covers deliver fst client_op] in *.
  - unfold resync_terminal. rewrite Hl. cbv zeta. destruct (_ || _).
    { destruct (sync s) as [|r' p] eqn:Es.
      - apply (found_settled now r id s); [done|done|]. rewrite Es. by apply Hs.
      - destruct (new_request_put id (set_sync (Desynced r' true) s) k) as [Hn Hq]. eapply found_settled; [exact Hn|exact Hb|exact Hq]. }
    destruct (_ && _) eqn:Ec.
    { apply (found_settled now r id s); [done|done|]. destruct (sync s); [by apply Hs|done]. }
    cbn [reset]. eapply found_settled; [apply lookup_insert_eq|by vm_compute|exact Hc].
  - unfold resync_unavailable. rewrite Hl. cbv zeta. eapply found_settled; [apply lookup_insert_eq| |].
    + cbn [resync_retry_backoff set_backoff]. lia.
    + cbn. destruct (sync s); (eexists; split; [reflexivity|]; lia).
Qed.

(** A deep enough replay makes it coherent. *)
Definition coming (r n id : Z) k : Prop :=
  exists s, terminals k !! id = Some s /\ (sync s = Coherent \/ sync s = Desynced r true /\ last_seq s <= n).

Definition coherent (id : Z) k : Prop := exists s, terminals k !! id = Some s /\ sync s = Coherent.

Definition reaches (n id : Z) (a : Answer) : Prop :=
  match a.1 with TerminalResync t _ seq _ => t = id -> n <= seq | TerminalResyncUnavailable t => t <> id | _ => True end.

Lemma deliver_coherent now k a r n id :
  about a = Some id -> reaches (Z.max r n) id a -> coming r n id k -> coherent id (deliver now k a).
Proof.
  intros Ha Hr (s & Hl & Hs). destruct a as [[] lane]; cbn in Ha; try done; injection Ha as ->; cbn in Hr; [|done].
  specialize (Hr eq_refl). cbn [deliver fst client_op]. unfold resync_terminal. rewrite Hl. cbv zeta. destruct Hs as [Hs|[Hs Hn]]; rewrite Hs.
  - destruct (_ || _); [by exists s|]. destruct (_ && _); [by exists s|]. cbn [reset]. eexists. split; [apply lookup_insert_eq|done].
  - rewrite (proj2 (Z.ltb_ge _ _)) by lia. rewrite (proj2 (Z.ltb_ge _ _)) by lia. cbn [orb is_desynced negb andb reset].
    eexists. split; [apply lookup_insert_eq|done].
Qed.

Lemma deliver_all now r n id order k :
  Forall (covers r) (List.filter (fun a => bool_decide (about a = Some id)) order) ->
  Exists (fun a => about a = Some id) order -> sound r id k -> coming r n id k ->
  settled now r id (fold_left (deliver now) order k)
  /\ (Forall (reaches (Z.max r n) id) order -> coherent id (fold_left (deliver now) order k)).
Proof.
  intros Hc Hex Hs Hco.
  assert (forall order k, Forall (covers r) (List.filter (fun a => bool_decide (about a = Some id)) order) -> sound r id k ->
    (settled now r id k \/ Exists (fun a => about a = Some id) order -> settled now r id (fold_left (deliver now) order k))
    /\ (Forall (reaches (Z.max r n) id) order -> coherent id k \/ coming r n id k /\ Exists (fun a => about a = Some id) order ->
        coherent id (fold_left (deliver now) order k))) as Hall.
  { clear. induction order as [|a order IH]; intros k Hc Hs.
    { split; [by intros [?|?%Exists_nil]|]. by intros _ [?|[_ ?%Exists_nil]]. }
    cbn [fold_left]. cbn [List.filter] in Hc. case_bool_decide as Ha.
    - apply Forall_cons in Hc as [Hca Hc]. destruct (deliver_settles now k a r id Ha Hca Hs) as [Hset Hs'].
      destruct (IH _ Hc Hs') as [IH1 IH2]. split; [intros _; apply IH1; by left|]. intros [Hra Hr]%Forall_cons Hk. apply IH2; [done|left].
      apply (deliver_coherent now k a r n id Ha Hra). destruct Hk as [(s & Hl & Hk)|[Hk _]]; [exists s; auto|done].
    - destruct (deliver_other now k a id Ha) as [Hl Hq].
      assert (sound r id (deliver now k a)) as Hs' by (unfold sound; by rewrite Hl).
      destruct (IH _ Hc Hs') as [IH1 IH2]. split.
      + intros [(s & Hls & Hk)|[?|?]%Exists_cons]; [|done|apply IH1; by right]. apply IH1. left. exists s. rewrite Hl. split; [done|].
        destruct (sync s) as [|? []]; [done|by apply Hq|done].
      + intros [_ Hr]%Forall_cons Hk. apply IH2; [done|]. unfold coherent, coming in *. rewrite Hl.
        destruct Hk as [?|[? [?|?]%Exists_cons]]; [by left|done|by right]. }
  destruct (Hall order k Hc Hs) as [H1 H2]. split; [apply H1; by right|]. intros Hr. apply H2; [done|by right].
Qed.

(** The answers to the batches, by a backend each. *)
Definition answers_to (sent : list (list TerminalResyncRequest)) (served : list (list Answer)) : Prop :=
  Forall2 (fun requests answers => exists backend, handle_terminal_resync_requests backend requests = Some answers) sent served.

Lemma served_batch sent served requests :
  answers_to sent served -> requests ∈ sent ->
  exists backend answers, handle_terminal_resync_requests backend requests = Some answers /\ forall a, a ∈ answers -> a ∈ concat served.
Proof.
  intros Hf. induction Hf as [|x answers sent served (backend & Hx) Hf IH]; intros Hin; [by apply elem_of_nil in Hin|].
  apply elem_of_cons in Hin as [->|Hin].
  - exists backend, answers. split; [done|]. intros a Ha. cbn. apply elem_of_app. by left.
  - destruct (IH Hin) as (b & l & Hl & Hi). exists b, l. split; [done|]. intros a Ha. cbn. apply elem_of_app. right. by apply Hi.
Qed.

Lemma served_answer sent served a :
  answers_to sent served -> a ∈ concat served ->
  exists t n, about a = Some t /\ (t, n) ∈ concat sent /\ covers n a.
Proof.
  intros Hf. induction Hf as [|x answers sent served (backend & Hx) Hf IH]; intros Hin; [by apply elem_of_nil in Hin|].
  cbn in Hin. apply elem_of_app in Hin as [Hin|Hin].
  - destruct (answers_cover _ _ _ _ Hx Hin) as (t & n & Ht & Hn & Hc). exists t, n. split; [done|]. split; [|done]. cbn. apply elem_of_app. by left.
  - destruct (IH Hin) as (t & n & Ht & Hn & Hc). exists t, n. split; [done|]. split; [|done]. cbn. apply elem_of_app. by right.
Qed.

Lemma in_concat_elem {A} (x : A) ls : x ∈ concat ls -> exists l, x ∈ l /\ l ∈ ls.
Proof. intros (l & Hl & Hx)%list_elem_of_In%in_concat. exists l. by rewrite !list_elem_of_In. Qed.

Lemma served_request sent served id r :
  answers_to sent served -> (id, r) ∈ concat sent -> exists a, a ∈ concat served /\ about a = Some id.
Proof.
  intros Hf (requests & Hr & Hin)%in_concat_elem. destruct (served_batch _ _ _ Hf Hin) as (backend & answers & Ha & Hsub).
  destruct (answers_once _ _ _ Ha) as [_ Hall].
  assert (Some id ∈ map about answers) as (a & Hab & Hin')%list_elem_of_fmap by (apply Hall, list_elem_of_fmap; by exists (id, r)).
  exists a. split; [by apply Hsub|done].
Qed.

(** C19: Every batch of requests that a client sends is accepted, and each of its terminals is
    answered once; in whatever order the answers of the batches come back, a terminal that was
    asked for is then coherent at what it required or beyond, or has a time at which it asks
    again, or a new request queued; and where every answer about it is a replay as deep as
    what it required and had, it is coherent. *)
Theorem a_request_is_answered_and_settles ops room now :
  let k := run_client ops (no_terminals (T := T)) in
  let '(sent, k') := flush_pending_terminal_resyncs room k in
  (forall requests backend, requests ∈ sent ->
     exists answers, handle_terminal_resync_requests backend requests = Some answers /\ NoDup (map about answers)
       /\ forall t, Some t ∈ map about answers <-> t ∈ map fst requests)
  /\ forall served order id r, answers_to sent served -> order ≡ₚ concat served -> (id, r) ∈ concat sent ->
       settled now r id (fold_left (deliver now) order k')
       /\ forall s, terminals k !! id = Some s -> Forall (reaches (Z.max r (last_seq s)) id) order ->
            coherent id (fold_left (deliver now) order k').
Proof.
  cbv zeta. set (k := run_client ops no_terminals).
  assert (forall id s, terminals k !! id = Some s -> resync_retry_backoff s <= RESYNC_RETRY_CAP) as Hcap.
  { intros id s Hl. by destruct (pursued_run ops [] [] no_terminals ltac:(done) id s Hl). }
  pose proof (fun id r => flush_spec room k id r (Hcap id)) as Hfl. destruct (flush_pending_terminal_resyncs room k) as [sent k'].
  split.
  - intros requests backend Hin. destruct (Hfl 0 0) as [Hok _]. rewrite Forall_forall in Hok.
    destruct (batch_accepted backend requests (Hok _ Hin)) as [answers Ha]. exists answers. split; [done|]. by apply (answers_once backend).
  - intros served order id r Hserved Hord Hin. destruct (Hfl id r) as [_ (Hone & s & s' & Hl & Hl' & Hsync & Hseq & Hb)]; [done|].
    destruct (deliver_all now r (last_seq s) id order k') as [Hset Hcoh].
    + apply Forall_forall. intros a [Ha Hab]%list_elem_of_In%filter_In. apply bool_decide_eq_true in Hab. apply list_elem_of_In in Ha. rewrite Hord in Ha.
      destruct (served_answer _ _ _ Hserved Ha) as (t & n & Ht & Hn & Hc). rewrite Hab in Ht. injection Ht as <-. by rewrite <- (Hone n Hn).
    + apply Exists_exists. destruct (served_request _ _ _ _ Hserved Hin) as (a & Ha & Hab). exists a. by rewrite Hord.
    + exists s'. split; [done|]. split; [done|]. rewrite Hsync. done.
    + exists s'. split; [done|]. right. split; [done|]. by rewrite Hseq.
    + split; [done|]. intros s1 Hl1. rewrite Hl in Hl1. injection Hl1 as <-. apply Hcoh.
Qed.

End Settling.

(** ** Concrete answers *)

(** ** A snapshot *)

Definition sampled : ReplaySnapshot := mkSnapshot ["a"; "b"; "c"]%char 3 true [mkSpan 0 80 24].

Definition sampled_backend (key : string) : option ReplaySnapshot := if String.eqb key "lazybox-1" then Some sampled else None.

Definition registered : list (Z * TerminalEntry) :=
  [(1, mkEntry false false (Some "lazybox-1"%string) true false []);
   (2, mkEntry true false (Some "lazybox-1"%string) true false []);
   (3, mkEntry false false (Some "lazybox-3"%string) true false []);
   (4, mkEntry false false (Some "lazybox-1"%string) true true []);
   (5, mkEntry false false None true false [])].

Example a_snapshot_of_the_terminals :
  snapshot_terminals sampled_backend registered
  = [mkTerminal 1 ["a"; "b"; "c"]%char 3 true [mkSpan 0 80 24] []; mkTerminal 3 [] 0 false [] []; mkTerminal 4 [] 0 true [] []].
Proof. reflexivity. Qed.

Definition snapshot : list TerminalSnapshot := snapshot_terminals sampled_backend registered.

Lemma the_budget_keeps_as_many_replays_as_fit_witness :
  total_len (map (len_at snapshot) [0; 2]%nat) <= SNAPSHOT_REPLAY_BUDGET /\ 2 <= available_count (budget_snapshot_replay snapshot).
Proof.
  assert (total_len (map (len_at snapshot) [0; 2]%nat) <= SNAPSHOT_REPLAY_BUDGET) as Hle by by vm_compute. split; [exact Hle|].
  destruct (the_budget_keeps_as_many_replays_as_fit snapshot) as (_ & _ & Hmost). apply (Hmost [0; 2]%nat); [|..|exact Hle].
  - repeat constructor; rewrite ?elem_of_cons, ?elem_of_nil; lia.
  - repeat constructor; eexists; split; reflexivity.
Defined.

(** ** A client *)

(** It misses the second chunk of terminal 1 and has no word of terminal 2. *)
Definition torn : list ClientOp :=
  [CSpawned 1; CSpawned 2; COutput None 1 ["a"%char] 1 1 (80, 24); COutput None 1 ["c"%char] 3 3 (80, 24);
   COutput None 2 ["x"%char] 2 2 (80, 24)].

Definition torn_client : TerminalStack (T := Tape) := run_client torn no_terminals.

Definition one_terminal (t : Z) : option ReplaySnapshot := if t =? 1 then Some sampled else None.

Definition answers_of_one : list Answer :=
  [(TerminalResyncUnavailable 2, false); (TerminalResync 1 ["a"; "b"; "c"]%char 3 [mkSpan 0 80 24], true)].

Example torn_requests : (flush_pending_terminal_resyncs 1 torn_client).1 = [[(1, 3); (2, 2)]].
Proof. reflexivity. Qed.

Lemma a_request_is_answered_and_settles_witness :
  coherent 1 (fold_left (deliver 0) answers_of_one (flush_pending_terminal_resyncs 1 torn_client).2)
  /\ settled 0 2 2 (fold_left (deliver 0) answers_of_one (flush_pending_terminal_resyncs 1 torn_client).2).
Proof.
  pose proof (a_request_is_answered_and_settles (T := Tape) torn 1 0) as Hth. cbv zeta in Hth. fold torn_client in Hth.
  assert (exists k', flush_pending_terminal_resyncs 1 torn_client = ([[(1, 3); (2, 2)]], k')) as [k' Hk'] by (eexists; reflexivity).
  rewrite Hk' in Hth |- *. destruct Hth as [_ Hth]. cbn [snd].
  assert (exists answers, handle_terminal_resync_requests one_terminal [(1, 3); (2, 2)] = Some answers /\ answers_of_one ≡ₚ answers)
    as (answers & Ha & Hp) by (eexists; split; [reflexivity|]; vm_compute; first [reflexivity|apply perm_swap]).
  assert (answers_to [[(1, 3); (2, 2)]] [answers]) as Hs by (repeat constructor; by exists one_terminal).
  assert (answers_of_one ≡ₚ concat [answers]) as Hc by (cbn; by rewrite app_nil_r).
  split.
  - destruct (Hth _ _ 1 3 Hs Hc ltac:(cbn; by left)) as [_ Hcoh].
    destruct (terminals torn_client !! 1) as [s|] eqn:E; [|vm_compute in E; discriminate].
    assert (last_seq s = 1) as Hone by (vm_compute in E; by injection E as <-).
    apply (Hcoh s eq_refl). rewrite Hone. clear. constructor; [cbn; lia|]. constructor; [cbn; lia|constructor].
  - apply (Hth _ _ 2 2 Hs Hc). cbn. right. by left.
Defined.
