(* ===== verification/ServeReplayLag.v ===== *)
(** * Falling behind the bus

    The newest recovery of a connection that fell behind is sent, where the store can be read
    and the reserved lane takes the snapshot, and its rows reach past the events whose loss
    began it; three examples of what else can happen. *)

From S2P Require Import Prelude ReplayRing EventForward TerminalSync ServeReplay.

#[local] Open Scope Z_scope.

(** ** The invariant *)

(** How far the rows of a recovery reach, if they were read now at the earliest. *)
Definition reaches_to (m : Z) (f : Feed) (s : RecoveryStage) : Prop :=
  match s with
  | Loading => m <= published f
  | Loaded (Some reach) | Current (Some reach) => m <= reach
  | _ => False
  end.

(** Recovery [g], begun by the loss of the events up to [m], is under way or was sent. *)
Definition recovering (g m : Z) (f : Feed) : Prop :=
  (exists s, mkRecovery g s ∈ building f /\ reaches_to m f s)
  \/ exists reach, (g, reach) ∈ recovered f /\ m <= reach.

(** The store can be read, and the lane takes what is sent. *)
Definition goes_well (o : FeedOp) : bool :=
  match o with LoadRows readable _ => readable | SendRecovery taken _ => taken | _ => true end.

Lemma feed_generation o f : lag_recovery_generation f <= lag_recovery_generation (feed_op f o).
Proof.
  destruct o; cbn; try lia.
  - unfold on_lagged. cbv zeta. destruct (recovery_due _ _); cbn; lia.
  - unfold load_rows. repeat case_match; cbn; lia.
  - unfold check_generation, end_recovery. repeat case_match; cbn; lia.
  - unfold send_recovery, end_recovery. repeat case_match; cbn; lia.
Qed.

Lemma run_generation ops f : lag_recovery_generation f <= lag_recovery_generation (run_feed ops f).
Proof.
  revert f. induction ops as [|o ops IH]; intros f; [cbn; lia|]. cbn. pose proof (feed_generation o f). specialize (IH (feed_op f o)). unfold run_feed in IH. lia.
Qed.

(** A recovery stays where another one is rewritten or ends. *)
Lemma kept_insert_other (l : list Recovery) i x y r : l !! i = Some x -> r ∈ l -> r <> x -> r ∈ <[i := y]> l.
Proof.
  intros Hx (j & Hj)%list_elem_of_lookup Hne. apply list_elem_of_lookup. exists j. rewrite list_lookup_insert_ne; [done|]. congruence.
Qed.

Lemma kept_delete_other (l : list Recovery) i x r : l !! i = Some x -> r ∈ l -> r <> x -> r ∈ delete i l.
Proof.
  intros Hx Hr Hne. rewrite <- (take_drop_middle l i x Hx) in Hr. rewrite delete_take_drop.
  apply elem_of_app in Hr as [Hr|Hr]; [apply elem_of_app; by left|]. apply elem_of_cons in Hr as [->|Hr]; [done|apply elem_of_app; by right].
Qed.

Lemma recovery_inserted (l : list Recovery) i x y : l !! i = Some x -> y ∈ <[i := y]> l.
Proof. intros Hx. apply list_elem_of_lookup. exists i. apply list_lookup_insert_eq. by eapply lookup_lt_Some. Qed.

Lemma recovering_later g m f f' :
  (forall s, mkRecovery g s ∈ building f -> reaches_to m f s -> mkRecovery g s ∈ building f') -> published f <= published f' ->
  (forall x, x ∈ recovered f -> x ∈ recovered f') -> recovering g m f -> recovering g m f'.
Proof.
  intros Hb Hp Hr [(s & Hin & Hm)|(reach & Hin & Hm)]; [left|right; exists reach; by auto].
  exists s. split; [by apply Hb|]. destruct s; cbn in *; [lia|done|done].
Qed.

Lemma recovering_step g m f o :
  lag_recovery_generation (feed_op f o) = g -> lag_recovery_generation f = g -> goes_well o = true ->
  recovering g m f -> recovering g m (feed_op f o).
Proof.
  intros Hg' Hg Hread Hf. destruct o; cbn [feed_op] in *.
  - eapply recovering_later; [| | |exact Hf]; cbn; auto; lia.
  - eapply recovering_later; [| | |exact Hf]; cbn; auto; lia.
  - unfold on_lagged in *. cbv zeta in *. destruct (recovery_due _ _); [cbn in Hg'; lia|].
    eapply recovering_later; [| | |exact Hf]; cbn; auto; lia.
  - cbn in Hread. subst readable. unfold load_rows in *. destruct (building f !! i) as [r|] eqn:E; [|done].
    destruct (stage r) eqn:Es; [|done|done]. destruct Hf as [(s & Hin & Hm)|Hf]; [|by right].
    destruct (decide (mkRecovery g s = r)) as [<-|Hne]; left.
    + cbn in Es. subst s. eexists. split; [by eapply recovery_inserted|]. exact Hm.
    + exists s. split; [by eapply kept_insert_other|]. by destruct s.
  - unfold check_generation in *. destruct (building f !! i) as [r|] eqn:E; [|done]. destruct (stage r) as [|rows|] eqn:Es; [done| |done].
    destruct Hf as [(s & Hin & Hm)|Hf]; [|right; by destruct (_ <? _)].
    destruct (decide (mkRecovery g s = r)) as [<-|Hne].
    + cbn in Es. subst s. cbn [generation]. rewrite Hg, Z.ltb_irrefl. left. eexists. split; [by eapply recovery_inserted|]. exact Hm.
    + left. exists s. split; [|by destruct (_ <? _); destruct s]. destruct (_ <? _); [by eapply kept_delete_other|by eapply kept_insert_other].
  - cbn in Hread. subst taken. unfold send_recovery in *. destruct (building f !! i) as [r|] eqn:E; [|done]. destruct (stage r) as [| |rows] eqn:Es; [done|done|].
    destruct Hf as [(s & Hin & Hm)|(reach & Hin & Hm)].
    2:{ right. exists reach. split; [|done]. destruct rows; cbn; [apply elem_of_app; by left|done]. }
    destruct (decide (mkRecovery g s = r)) as [<-|Hne].
    + cbn in Es. subst s. destruct rows as [reach|]; [|done]. right. exists reach. split; [|done]. cbn. apply elem_of_app. right. by apply list_elem_of_singleton.
    + left. exists s. split; [destruct rows; by eapply kept_delete_other|]. destruct rows; by destruct s.
Qed.

Lemma recovering_run g m ops f :
  lag_recovery_generation f = g -> lag_recovery_generation (run_feed ops f) = g -> forallb goes_well ops = true ->
  recovering g m f -> recovering g m (run_feed ops f).
Proof.
  revert f. induction ops as [|o ops IH]; intros f Hg Hg' Hr Hf; [done|]. cbn in Hr. apply andb_true_iff in Hr as [Hr1 Hr2].
  pose proof (feed_generation o f). pose proof (run_generation ops (feed_op f o)) as Hm. change (run_feed (o :: ops) f) with (run_feed ops (feed_op f o)) in *.
  assert (lag_recovery_generation (feed_op f o) = g) by lia. apply IH; [done|done|done|]. by apply recovering_step.
Qed.

(** ** A recovery under way can go on *)

Definition finish_recovery (i : nat) : list FeedOp := [LoadRows true i; CheckGeneration i; SendRecovery true i].

Lemma finished g m f :
  lag_recovery_generation f = g -> recovering g m f ->
  exists i reach, (g, reach) ∈ recovered (run_feed (finish_recovery i) f) /\ m <= reach.
Proof.
  intros Hg [(s & Hin & Hm)|(reach & Hin & Hm)].
  2:{ exists (length (building f)), reach. assert (building f !! length (building f) = None) as He by by apply lookup_ge_None.
      split; [|done]. cbn. unfold load_rows. rewrite He. unfold check_generation. rewrite He. unfold send_recovery. by rewrite He. }
  apply list_elem_of_lookup in Hin as [i Hi]. exists i.
  assert (forall f' reach, lag_recovery_generation f' = g -> building f' !! i = Some (mkRecovery g (Current (Some reach))) ->
    (g, reach) ∈ recovered (send_recovery true i f')) as Hsend.
  { intros f' reach Hg' Hi'. unfold send_recovery. rewrite Hi'. cbn. apply elem_of_app. right. by apply list_elem_of_singleton. }
  assert (forall f' reach, lag_recovery_generation f' = g -> building f' !! i = Some (mkRecovery g (Loaded (Some reach))) ->
    (g, reach) ∈ recovered (send_recovery true i (check_generation i f'))) as Hcheck.
  { intros f' reach Hg' Hi'. unfold check_generation. rewrite Hi'. cbn [stage generation]. rewrite Hg', Z.ltb_irrefl.
    apply Hsend; [done|]. cbn. apply list_lookup_insert_eq. by eapply lookup_lt_Some. }
  destruct s as [|[reach|]|[reach|]]; cbn in Hm; try done; cbn [run_feed fold_left finish_recovery feed_op]; unfold load_rows; rewrite Hi; cbn [stage].
  - exists (published f). split; [|done]. apply Hcheck; [done|]. cbn. apply list_lookup_insert_eq. by eapply lookup_lt_Some.
  - exists reach. split; [|done]. by apply Hcheck.
  - exists reach. split; [|done]. unfold check_generation. rewrite Hi. cbn [stage]. by apply Hsend.
Qed.

(** C30: A connection that fell behind gets back what it missed.  A loss that begins a recovery
    -- the one before began two seconds ago or more -- is made good as long as no newer recovery
    begins, every read of the store succeeds and the reserved lane takes every snapshot
    handed to it: whatever else ran in between, the three steps of the recovery leave its
    snapshot sent, with rows read behind everything the connection missed. *)
Theorem the_newest_recovery_covers_the_loss before now n ops :
  let behind := run_feed before new_feed in
  let lost := on_lagged now n behind in
  let f := run_feed ops lost in
  recovery_due now behind = true -> lag_recovery_generation f = lag_recovery_generation lost -> forallb goes_well ops = true ->
  exists i reach, (lag_recovery_generation lost, reach) ∈ recovered (run_feed (finish_recovery i) f) /\ cursor lost <= reach.
Proof.
  cbv zeta. set (behind := run_feed before new_feed). intros Hd Hg Hr.
  apply (finished _ _ _ Hg). apply recovering_run; [done|done|done|]. left. exists Loading.
  assert (recovery_due now (mkFeed (published behind) (Z.min (cursor behind + n) (published behind)) (last_lag_recovery behind)
           (lag_recovery_generation behind) (building behind) (recovered behind)) = true) as Hd' by done.
  unfold on_lagged. cbv zeta. rewrite Hd'. cbn. split; [|lia]. apply elem_of_app. right. by apply list_elem_of_singleton.
Qed.

Lemma the_newest_recovery_covers_the_loss_witness :
  let lost := on_lagged 0 2 (run_feed [Publish; Publish; Publish] new_feed) in
  exists i reach, (1, reach) ∈ recovered (run_feed (finish_recovery i) (run_feed [Publish; LoadRows true 0] lost)) /\ 2 <= reach.
Proof.
  apply (the_newest_recovery_covers_the_loss [Publish; Publish; Publish] 0 2 [Publish; LoadRows true 0]); reflexivity.
Defined.

(** ** What else can happen *)

Definition behind_three : list FeedOp := [Publish; Publish; Publish; Lagged 0 1].

(** A recovery that passed its check is sent behind a newer one: the client ends on the older
    rows. *)
Example an_older_recovery_is_sent_last :
  recovered (run_feed (behind_three ++ [LoadRows true 0; CheckGeneration 0; Publish; Lagged (secs 3) 1]
    ++ [LoadRows true 1; CheckGeneration 1; SendRecovery true 1; SendRecovery true 0]) new_feed) = [(2, 4); (1, 3)].
Proof. reflexivity. Qed.

(** A recovery that the lane does not take is gone. *)
Example a_snapshot_the_lane_refuses_is_lost :
  let f := run_feed (behind_three ++ [LoadRows true 0; CheckGeneration 0; SendRecovery false 0]) new_feed in
  building f = [] /\ recovered f = [].
Proof. repeat split. Qed.

(** A loss within the window begins no recovery, then or later. *)
Example a_loss_in_the_window_is_never_recovered :
  let f := run_feed (behind_three ++ finish_recovery 0 ++ [Publish; Publish; Lagged (secs 1) 4; Publish; Recv]) new_feed in
  building f = [] /\ recovered f = [(1, 3)] /\ cursor f = 6.
Proof. repeat split. Qed.
