(* ===== verification/F64.v ===== *)
(** * Rust's [f64] on the IEEE 754 model of the Standard Library

    The rate governor computes with [f64].  Its values are [spec_float]s at
    double precision, with every operation correctly rounded as the hardware
    does, so the model computes the very numbers the code computes (the examples
    at the end evaluate some).  The casts are Rust's: saturating, truncating,
    [NaN] to zero. *)

From S2P Require Import Prelude.
From Stdlib Require Import SpecFloat.

Abbreviation f64 := spec_float.

Definition prec : Z := 53.
Definition emax : Z := 1024.

Definition fadd (x y : f64) : f64 := SFadd prec emax x y.
Definition fsub (x y : f64) : f64 := SFsub prec emax x y.
Definition fmul (x y : f64) : f64 := SFmul prec emax x y.
Definition fdiv (x y : f64) : f64 := SFdiv prec emax x y.
Definition fltb (x y : f64) : bool := SFltb x y.
Definition fleb (x y : f64) : bool := SFleb x y.
Definition feqb (x y : f64) : bool := SFeqb x y.

(** [f64::from(n)] and [n as f64], rounded to nearest even. *)
Definition of_Z (n : Z) : f64 := binary_normalize prec emax n 0 false.

(** The literal with the value [n / d]: the correctly rounded quotient. *)
Definition ratio (n d : Z) : f64 := fdiv (of_Z n) (of_Z d).

Definition fzero : f64 := S754_zero false.
Definition fone : f64 := of_Z 1.

Definition is_nan (x : f64) : bool := match x with S754_nan => true | _ => false end.
Definition is_finite (x : f64) : bool :=
  match x with S754_zero _ | S754_finite _ _ _ => true | _ => false end.

(** [f64::min] and [f64::max]: a [NaN] argument is ignored. *)
Definition fmin (x y : f64) : f64 :=
  if is_nan x then y else if is_nan y then x else if fltb y x then y else x.
Definition fmax (x y : f64) : f64 :=
  if is_nan x then y else if is_nan y then x else if fltb x y then y else x.

(** [x.clamp(lo, hi)] for [lo <= hi]. *)
Definition fclamp (lo hi x : f64) : f64 :=
  let x := if fltb x lo then lo else x in
  if fltb hi x then hi else x.

(** The exact rational value [m * 2^e] rounded towards minus and plus infinity,
    and towards zero. *)
Definition zfloor (m e : Z) : Z := if 0 <=? e then m * 2 ^ e else m / 2 ^ (- e).
Definition zceil (m e : Z) : Z := - zfloor (- m) e.

Definition signed (s : bool) (m : positive) : Z := if s then Z.neg m else Z.pos m.

(** [x.floor()] and [x.ceil()] *)
Definition ffloor (x : f64) : f64 :=
  match x with
  | S754_finite s m e => binary_normalize prec emax (zfloor (signed s m) e) 0 s
  | _ => x
  end.
Definition fceil (x : f64) : f64 :=
  match x with
  | S754_finite s m e => binary_normalize prec emax (zceil (signed s m) e) 0 s
  | _ => x
  end.

(** [x as uN] for the type whose largest value is [hi]. *)
Definition as_uint (hi : Z) (x : f64) : Z :=
  match x with
  | S754_finite false m e => Z.min hi (zfloor (Z.pos m) e)
  | S754_infinity false => hi
  | _ => 0
  end.
Definition as_u32 (x : f64) : Z := as_uint u32_max x.
Definition as_u64 (x : f64) : Z := as_uint u64_max x.

(** [Duration::as_secs_f64] of a count of nanoseconds. *)
Definition as_secs_f64 (d : Z) : f64 :=
  fadd (of_Z (d / nanos_per_sec)) (fdiv (of_Z (d mod nanos_per_sec)) (of_Z nanos_per_sec)).

(** Round [n / d] to the nearest integer, ties to even. *)
Definition round_half_even (n d : Z) : Z :=
  let q := n / d in
  let r := 2 * (n mod d) in
  if r <? d then q else if d <? r then q + 1 else if Z.even q then q else q + 1.

(** [Duration::from_secs_f64] of a non-negative finite number of seconds:
    nearest nanosecond, ties to even.  (The code panics on the others.) *)
Definition from_secs_f64 (x : f64) : Z :=
  match x with
  | S754_finite false m e =>
      if 0 <=? e then Z.pos m * 2 ^ e * nanos_per_sec
      else round_half_even (Z.pos m * nanos_per_sec) (2 ^ (- e))
  | _ => 0
  end.

(** [Duration::mul_f64] *)
Definition mul_f64 (d : Z) (x : f64) : Z := from_secs_f64 (fmul x (as_secs_f64 d)).

(** ** Bounds of the casts *)

Lemma zfloor_nonneg m e : 0 <= m -> 0 <= zfloor m e.
Proof.
  intros ?. unfold zfloor. case_match; bool_norm.
  - apply Z.mul_nonneg_nonneg; [done|]. apply Z.pow_nonneg. lia.
  - apply Z.div_pos; [done|]. apply Z.pow_pos_nonneg; lia.
Qed.

Lemma as_uint_bounds hi x : 0 <= hi -> 0 <= as_uint hi x <= hi.
Proof.
  intros ?. unfold as_uint. destruct x as [[]|[]| |[] m e]; try lia.
  pose proof (zfloor_nonneg (Z.pos m) e ltac:(lia)). lia.
Qed.

Lemma as_u32_bounds x : 0 <= as_u32 x <= u32_max.
Proof. apply as_uint_bounds. unfold u32_max. lia. Qed.

Lemma round_half_even_nonneg n d : 0 <= n -> 0 < d -> 0 <= round_half_even n d.
Proof.
  intros ? ?. unfold round_half_even.
  assert (0 <= n / d) by (apply Z.div_pos; lia). repeat case_match; lia.
Qed.

Lemma from_secs_f64_nonneg x : 0 <= from_secs_f64 x.
Proof.
  unfold from_secs_f64. destruct x as [[]|[]| |[] m e]; try lia.
  case_match; bool_norm.
  - assert (0 <= 2 ^ e) by (apply Z.pow_nonneg; lia). unfold nanos_per_sec. nia.
  - apply round_half_even_nonneg; [unfold nanos_per_sec; lia|]. apply Z.pow_pos_nonneg; lia.
Qed.

#[export] Hint Resolve as_u32_bounds from_secs_f64_nonneg : lazybox.

(** ** The numbers the code computes *)

Example one_minus_share : fltb (fsub fone (ratio 55 100)) (ratio 45 100) = true.
Proof. vm_compute. reflexivity. Qed.

Example reserve_of_5000 : as_u32 (fceil (fmul (of_Z 5000) (fsub fone (ratio 55 100)))) = 2250.
Proof. vm_compute. reflexivity. Qed.

Example half_second_doubled : mul_f64 500000000 (of_Z 2) = 1000000000.
Proof. vm_compute. reflexivity. Qed.

(** ** Values that are not positive *)

Lemma binary_round_aux_neg m e l : as_u32 (binary_round_aux prec emax true m e l) = 0.
Proof. unfold binary_round_aux. by repeat case_match. Qed.

Lemma zfloor_nonpos m e : m <= 0 -> zfloor m e <= 0.
Proof.
  intros ?. unfold zfloor. case_match; bool_norm.
  - assert (0 <= 2 ^ e) by (apply Z.pow_nonneg; lia). nia.
  - apply Z.div_le_upper_bound; [apply Z.pow_pos_nonneg; lia|lia].
Qed.

(** A double that is not greater than zero floors and casts to zero. *)
Lemma as_u32_floor_nonpos x : fltb fzero x = false -> as_u32 (ffloor x) = 0.
Proof.
  destruct x as [[]|[]| |s m e]; try done. destruct s; [intros _|done]. simpl.
  unfold binary_normalize. pose proof (zfloor_nonpos (Z.neg m) e ltac:(lia)).
  destruct (zfloor (Z.neg m) e) as [|q|q]; [done|lia|].
  unfold binary_round. case_match. apply binary_round_aux_neg.
Qed.

Lemma fmin_zero x : fltb fzero (fmin x fzero) = false.
Proof.
  unfold fmin. destruct (is_nan x); [done|]. simpl. destruct (fltb fzero x) eqn:E; done.
Qed.
