(* ===== verification/RateBudget.v ===== *)
(** * The GitHub API governor: state and operations
      ([src/crates/gh-provider/src/rate_budget.rs])

    [RateBudget.t] is the code's [RateBudget]; each method is a function on it,
    the wall clock and the monotonic clock being arguments.  [HashMap]s are
    [gmap]s, [VecDeque]s lists with the front at the head; [u32] and [u64]
    arithmetic saturates or wraps where the code's does; the floating-point
    fields are the IEEE doubles of [F64].  The theorems are in
    [RateBudgetProps]. *)

From S2P Require Import Prelude F64.

Definition LOW_THRESHOLD : Z := 100.
Definition MIN_BACKGROUND_TICK_ALLOWANCE : Z := 30.
Definition DEFAULT_CAPACITY : Z := 30.
Definition DEFAULT_REFILL_PER_MIN : f64 := of_Z 30.
Definition DEFAULT_BACKGROUND_SHARE : f64 := ratio 55 100.
Definition DEFAULT_SECONDARY_PAUSE : Z := secs 60.
Definition MAX_SECONDARY_PAUSE : Z := secs (15 * 60).
Definition LATENCY_SAMPLE_CAPACITY : Z := 1024.
Definition DEFAULT_MIN_REQUEST_GAP : Z := 500000000.
Definition MAX_REQUEST_GAP : Z := secs 5.
Definition EXTERNAL_CONTENTION_REF : f64 := fone.
Definition MAX_CONTENTION_MULT : f64 := of_Z 4.
Definition SECONDARY_INTERACTIVE_GAP : Z := secs 20.
Definition SECONDARY_INTERACTIVE_BURST : Z := 4.
Definition FOCUSED_RESERVE_GAP : Z := secs 30.
Definition FOCUSED_RESERVE_BURST : Z := 4.

Inductive ApiResource : Type := Graphql | Rest (resource : string).

Definition resource_key (r : ApiResource) : string :=
  match r with Graphql => "graphql" | Rest resource => resource end.

Inductive RequestPriority : Type := Interactive | Focused | Sessioned | Recent | Cold.

#[export] Instance RequestPriority_eq_dec : EqDecision RequestPriority.
Proof. solve_decision. Defined.

Definition is_scheduled (p : RequestPriority) : bool :=
  match p with Interactive => false | _ => true end.

Definition tick_share (p : RequestPriority) : f64 :=
  match p with
  | Interactive | Focused | Sessioned => fone
  | Recent => ratio 7 10
  | Cold => ratio 4 10
  end.

Definition tick_ceiling (p : RequestPriority) (allowance : Z) : Z :=
  Z.min (as_u32 (fceil (fmul (of_Z allowance) (tick_share p)))) allowance.

Definition label (p : RequestPriority) : string :=
  match p with
  | Interactive => "interactive"
  | Focused => "focused"
  | Sessioned => "poll"
  | Recent => "probe"
  | Cold => "claim"
  end.

Inductive AcquireError : Type :=
| LocalBudgetExhausted (wait_secs : Z)
| RemoteLow (remaining reset_at : Z)
| ReserveProtected (resource : string) (remaining reserve reset_at : Z)
| TickAllowanceExhausted (resource : string) (allowance spent : Z) (tier : string) (wait_secs : Z)
| CircuitOpen (reason : string) (retry_at : Z).

Definition is_self_imposed (e : AcquireError) : bool :=
  match e with
  | LocalBudgetExhausted _ | TickAllowanceExhausted _ _ _ _ _ | ReserveProtected _ _ _ _ => true
  | _ => false
  end.

Definition retry_after_secs (e : AcquireError) (now : Z) : Z :=
  match e with
  | LocalBudgetExhausted wait_secs | TickAllowanceExhausted _ _ _ _ wait_secs => Z.max wait_secs 1
  | RemoteLow _ reset_at | ReserveProtected _ _ _ reset_at | CircuitOpen _ reset_at =>
      Z.max (as_secs (std_duration_or_zero (reset_at - now))) 1
  end.

(** [Result<u32, AcquireError>] *)
Inductive AcquireResult : Type := Granted (forecast : Z) | Refused (e : AcquireError).

Record Accounting : Type := mkAccounting {
  requests : Z;
  graphql_points : Z;
  rest_points : Z;
  bytes : Z;
  duration_ms : Z;
  conditional_hits : Z;
  forecast_points : Z;
  forecast_error_points : Z;
  items : Z;
  duplicates : Z;
}.

Definition accounting_zero : Accounting := mkAccounting 0 0 0 0 0 0 0 0 0 0.

Record ResourceState : Type := mkResource {
  remaining : Z;
  limit : Z;
  used : Z;
  reset_at : Z;
  observed_at : Z;
  external_burn_per_sec : f64;
  external_baseline_used : Z;
  external_baseline_remaining : Z;
  external_baseline_at : Z;
  external_baseline_local_completed : Z;
  external_baseline_pending : bool;
}.

Record OperationState : Type := mkOperation {
  op_forecast : Z;
  op_unit_forecast : Z;
  op_last_actual : option Z;
  op_material_forecast_errors : Z;
}.

Record CircuitState : Type := mkCircuit { reason : string; retry_at : Z }.

Record Admission : Type := mkAdmission { adm_forecast : Z; adm_scheduled : bool }.

Record BackgroundPlan : Type := mkPlan {
  plan_graphql_points : Z;
  plan_rest_core_points : Z;
  plan_graphql_budget_current : bool;
  plan_pressure : bool;
  plan_next_eligible_at : option Z;
  plan_tick_interval : Z;
}.

Definition admits_complete_graphql_unit (p : BackgroundPlan) (required_points : Z) : bool :=
  plan_graphql_budget_current p && (required_points <=? plan_graphql_points p).

Record PersistedResource : Type := mkPersisted {
  ps_remaining : Z;
  ps_limit : Z;
  ps_used : Z;
  ps_reset_at : Z;
  ps_external_burn_per_sec : f64;
}.

Record PersistedRateState : Type := mkPersistedState {
  ps_resources : gmap string PersistedResource;
  ps_secondary_circuit : option CircuitState;
  ps_primary_circuits : gmap string CircuitState;
  ps_secondary_failures : Z;
}.

Module RateBudget.

Record t : Type := mk {
  capacity : Z;
  available : f64;
  refill_per_sec : f64;
  last_refill : Z;
  background_share : f64;
  resources : gmap string ResourceState;
  background_credit : gmap string f64;
  last_credit_at : option Z;
  tick_allowance : gmap string Z;
  tick_scheduled : gmap string Z;
  tick_interval : Z;
  operations : gmap string OperationState;
  pending : gmap (string * string) (list Admission);
  local_completed : gmap string Z;
  tick : Accounting;
  total : Accounting;
  request_latencies_ms : list Z;
  secondary_circuit : option CircuitState;
  secondary_interactive_next : option Z;
  secondary_interactive_used : Z;
  focused_reserve_next : option Z;
  focused_reserve_used : Z;
  primary_circuits : gmap string CircuitState;
  secondary_failures : Z;
  min_request_gap : Z;
  next_request_slot : option Z;
}.

Definition eta (b : t) : t :=
  mk (capacity b) (available b) (refill_per_sec b) (last_refill b) (background_share b) (resources b) (background_credit b) (last_credit_at b) (tick_allowance b) (tick_scheduled b) (tick_interval b) (operations b) (pending b) (local_completed b) (tick b) (total b) (request_latencies_ms b) (secondary_circuit b) (secondary_interactive_next b) (secondary_interactive_used b) (focused_reserve_next b) (focused_reserve_used b) (primary_circuits b) (secondary_failures b) (min_request_gap b) (next_request_slot b).

Definition set_available (v : f64) (b : t) : t := ltac:(upd eta available v b).
Definition set_last_refill (v : Z) (b : t) : t := ltac:(upd eta last_refill v b).
Definition set_background_share (v : f64) (b : t) : t := ltac:(upd eta background_share v b).
Definition set_resources (v : gmap string ResourceState) (b : t) : t := ltac:(upd eta resources v b).
Definition set_background_credit (v : gmap string f64) (b : t) : t := ltac:(upd eta background_credit v b).
Definition set_last_credit_at (v : option Z) (b : t) : t := ltac:(upd eta last_credit_at v b).
Definition set_tick_allowance (v : gmap string Z) (b : t) : t := ltac:(upd eta tick_allowance v b).
Definition set_tick_scheduled (v : gmap string Z) (b : t) : t := ltac:(upd eta tick_scheduled v b).
Definition set_tick_interval (v : Z) (b : t) : t := ltac:(upd eta tick_interval v b).
Definition set_operations (v : gmap string OperationState) (b : t) : t := ltac:(upd eta operations v b).
Definition set_pending (v : gmap (string * string) (list Admission)) (b : t) : t := ltac:(upd eta pending v b).
Definition set_local_completed (v : gmap string Z) (b : t) : t := ltac:(upd eta local_completed v b).
Definition set_tick (v : Accounting) (b : t) : t := ltac:(upd eta tick v b).
Definition set_total (v : Accounting) (b : t) : t := ltac:(upd eta total v b).
Definition set_request_latencies_ms (v : list Z) (b : t) : t := ltac:(upd eta request_latencies_ms v b).
Definition set_secondary_circuit (v : option CircuitState) (b : t) : t := ltac:(upd eta secondary_circuit v b).
Definition set_secondary_interactive_next (v : option Z) (b : t) : t := ltac:(upd eta secondary_interactive_next v b).
Definition set_secondary_interactive_used (v : Z) (b : t) : t := ltac:(upd eta secondary_interactive_used v b).
Definition set_focused_reserve_next (v : option Z) (b : t) : t := ltac:(upd eta focused_reserve_next v b).
Definition set_focused_reserve_used (v : Z) (b : t) : t := ltac:(upd eta focused_reserve_used v b).
Definition set_primary_circuits (v : gmap string CircuitState) (b : t) : t := ltac:(upd eta primary_circuits v b).
Definition set_secondary_failures (v : Z) (b : t) : t := ltac:(upd eta secondary_failures v b).
Definition set_next_request_slot (v : option Z) (b : t) : t := ltac:(upd eta next_request_slot v b).

(** [RateBudget::new], at monotonic time [now]. *)
Definition new (capacity : Z) (refill_per_min : f64) (now : Z) : t :=
  mk capacity (of_Z capacity) (fdiv refill_per_min (of_Z 60)) now DEFAULT_BACKGROUND_SHARE
     ∅ ∅ None ∅ ∅ (secs 60) ∅ ∅ ∅ accounting_zero accounting_zero [] None None 0 None 0 ∅ 0
     DEFAULT_MIN_REQUEST_GAP None.

Definition default_for_lazybox (now : Z) : t := new DEFAULT_CAPACITY DEFAULT_REFILL_PER_MIN now.

Definition set_background_share_clamped (share : f64) (b : t) : t :=
  set_background_share
    (if is_finite share then fclamp (ratio 5 100) (ratio 90 100) share
     else DEFAULT_BACKGROUND_SHARE) b.

(** [request_gap].  [external_per_sec] is the sum of the resources' burn rates;
    the code folds a [HashMap], whose order is unspecified, so the order of the
    addition is the argument [burns]. *)
Definition sum_burns (burns : list f64) : f64 := fold_left fadd burns fzero.

Definition request_gap (burns : list f64) (b : t) : Z :=
  let secondary := Z.shiftl 1 (Z.min (secondary_failures b) 4) in
  let contention :=
    fadd fone (fclamp fzero MAX_CONTENTION_MULT
                 (fdiv (sum_burns burns) EXTERNAL_CONTENTION_REF)) in
  Z.min (mul_f64 (min_request_gap b) (fmul (of_Z secondary) contention)) MAX_REQUEST_GAP.

Definition reserve_request_slot (burns : list f64) (now : Z) (b : t) : t * Z :=
  let gap := request_gap burns b in
  let start := match next_request_slot b with None => now | Some slot => Z.max slot now end in
  (set_next_request_slot (Some (start + gap)) b,
   default 0 (checked_duration_since start now)).

Definition refill_at (now : Z) (b : t) : t :=
  let elapsed := as_secs_f64 (default 0 (checked_duration_since now (last_refill b))) in
  set_last_refill now
    (set_available
       (fmin (fadd (available b) (fmul elapsed (refill_per_sec b))) (of_Z (capacity b))) b).

Definition forecast (class : string) (default_ : Z) (b : t) : Z :=
  match operations b !! class with
  | None => Z.max default_ 1
  | Some operation => Z.max (op_forecast operation) 1
  end.

Definition unit_forecast (class : string) (default_ : Z) (b : t) : Z :=
  match operations b !! class with
  | None => Z.max default_ 1
  | Some operation => Z.max (Z.max (op_unit_forecast operation) (op_forecast operation)) 1
  end.

Definition note_expected_pages (class : string) (pages : Z) (b : t) : t :=
  let operation := default (mkOperation 1 1 None 0) (operations b !! class) in
  set_operations
    (<[class := mkOperation (op_forecast operation)
                  (Z.max (op_unit_forecast operation)
                     (sat_mul u32_max (op_forecast operation) (Z.max pages 1)))
                  (op_last_actual operation) (op_material_forecast_errors operation)]>
       (operations b)) b.

Definition expire_circuits (now : Z) (b : t) : t :=
  let b :=
    if is_some_and (fun circuit => retry_at circuit <=? now) (secondary_circuit b)
    then set_secondary_circuit None b else b in
  set_primary_circuits (filter (fun kc => now < retry_at kc.2) (primary_circuits b)) b.

(** *** The float helpers of the tick plan *)

Definition reserve_for (limit : Z) (share : f64) : Z :=
  as_u32 (fceil (fmul (of_Z limit) (fsub fone share))).

Definition background_headroom (state : ResourceState) (share : f64) (now : Z) : Z :=
  let until_reset := std_duration_or_zero (reset_at state - now) in
  let projected_external :=
    as_u32 (fceil (fmul (external_burn_per_sec state) (as_secs_f64 until_reset))) in
  remaining state -sat reserve_for (limit state) share -sat projected_external.

Definition sustainable_allowance_exact (state : ResourceState) (share : f64) (interval now : Z) : f64 :=
  let until_reset := std_duration_or_zero (reset_at state - now) in
  let headroom := background_headroom state share now in
  if headroom =? 0 then fzero
  else
    let reset_secs := fmax (as_secs_f64 until_reset) fone in
    fmin (fdiv (fmul (of_Z headroom) (as_secs_f64 interval)) reset_secs) (of_Z headroom).

Definition expired_window_allowance : Z := MIN_BACKGROUND_TICK_ALLOWANCE.

(** *** [begin_background_tick] *)

(** The credit a resource keeps after its last tick's spending. *)
Definition charge_credit (credit : option f64) (spent : option Z) : option f64 :=
  match spent with
  | None => credit
  | Some spent => Some (fmax (fsub (default fzero credit) (of_Z spent)) fzero)
  end.

(** One resource of the allowance loop: its new credit and its allowance. *)
Definition tick_resource (share : f64) (interval : Z) (elapsed_intervals : f64) (wall_now : Z)
    (state : ResourceState) (credit : option f64) : option f64 * Z :=
  if reset_at state <=? wall_now then (None, expired_window_allowance)
  else
    let grant :=
      fmul (sustainable_allowance_exact state share interval wall_now) elapsed_intervals in
    let cap := of_Z (background_headroom state share wall_now) in
    let credit := fmin (fadd (default fzero credit) grant) cap in
    let credit :=
      if fltb fzero (external_burn_per_sec state) then
        let capacity := remaining state -sat reserve_for (limit state) share in
        fmax credit (of_Z (Z.min MIN_BACKGROUND_TICK_ALLOWANCE capacity))
      else credit in
    (Some credit, as_u32 (ffloor credit)).

(** The intervals elapsed since the last grant of credit. *)
Definition elapsed_intervals (interval mono_now : Z) (b : t) : f64 :=
  match last_credit_at b with
  | None => fone
  | Some last =>
      fdiv (as_secs_f64 (default 0 (checked_duration_since mono_now last))) (as_secs_f64 interval)
  end.

(** The start of a tick: the spent credit charged, the tick's books cleared. *)
Definition open_tick (interval mono_now : Z) (b : t) : t :=
  let b := refill_at mono_now b in
  let b := set_last_credit_at (Some mono_now) b in
  let b := set_background_credit (merge charge_credit (background_credit b) (tick_scheduled b)) b in
  let b := set_tick accounting_zero b in
  let b := set_tick_scheduled ∅ b in
  set_tick_interval interval b.

Definition begin_background_tick (interval wall_now mono_now : Z) (b : t) : t * BackgroundPlan :=
  let interval := Z.max interval (secs 1) in
  let elapsed := elapsed_intervals interval mono_now b in
  let b := expire_circuits wall_now (open_tick interval mono_now b) in
  let credits := background_credit b in
  let planned :=
    map_imap (fun resource state =>
      Some (tick_resource (background_share b) interval elapsed wall_now state
              (credits !! resource))) (resources b) in
  let b := set_background_credit
    (merge (fun credit plan =>
       match plan with None => credit | Some (credit', _) => credit' end) credits planned) b in
  let b := set_tick_allowance (snd <$> planned) b in
  let next_eligible_at := retry_at <$> secondary_circuit b in
  let graphql_points := default MIN_BACKGROUND_TICK_ALLOWANCE (tick_allowance b !! "graphql"%string) in
  let rest_core_points := default MIN_BACKGROUND_TICK_ALLOWANCE (tick_allowance b !! "core"%string) in
  let graphql_budget_current :=
    is_some_and (fun state => wall_now <? reset_at state) (resources b !! "graphql"%string) in
  let pressure :=
    bool_decide (is_Some next_eligible_at)
    || existsb (fun kv =>
         fleb (sustainable_allowance_exact kv.2 (background_share b) interval wall_now) fone)
         (map_to_list (resources b)) in
  (b, mkPlan graphql_points rest_core_points graphql_budget_current pressure
        next_eligible_at interval).

(** [begin_full_refresh_tick]: the whole window above the reserve, for the two
    resources in order. *)
Definition full_refresh_allowance (resource : string) (wall_now : Z) (b : t) : option Z :=
  match resources b !! resource with
  | Some s =>
      if wall_now <? reset_at s
      then Some (remaining s -sat reserve_for (limit s) (background_share b))
      else None
  | None => None
  end.

Definition begin_full_refresh_tick (interval wall_now mono_now : Z) (b : t) : t * BackgroundPlan :=
  let '(b, plan) := begin_background_tick interval wall_now mono_now b in
  let '(b, plan) :=
    match full_refresh_allowance "graphql" wall_now b with
    | Some a =>
        (set_tick_allowance (<["graphql"%string := a]> (tick_allowance b)) b,
         mkPlan a (plan_rest_core_points plan) (plan_graphql_budget_current plan)
           (plan_pressure plan) (plan_next_eligible_at plan) (plan_tick_interval plan))
    | None => (b, plan)
    end in
  match full_refresh_allowance "core" wall_now b with
  | Some a =>
      (set_tick_allowance (<["core"%string := a]> (tick_allowance b)) b,
       mkPlan (plan_graphql_points plan) a (plan_graphql_budget_current plan)
         (plan_pressure plan) (plan_next_eligible_at plan) (plan_tick_interval plan))
  | None => (b, plan)
  end.

(** *** Admission *)

Definition claim_focused_reserve (priority : RequestPriority) (mono_now : Z) (b : t) : t * bool :=
  if negb (bool_decide (priority = Focused)) then (b, false)
  else
    let b :=
      if is_none_or (fun next => next <=? mono_now) (focused_reserve_next b)
      then set_focused_reserve_used 0
             (set_focused_reserve_next (Some (mono_now + FOCUSED_RESERVE_GAP)) b)
      else b in
    if FOCUSED_RESERVE_BURST <=? focused_reserve_used b then (b, false)
    else (set_focused_reserve_used (focused_reserve_used b + 1) b, true).

(** The secondary cooldown: [Some] refusal, or the request may go on. *)
Definition secondary_gate (priority : RequestPriority) (mono_now : Z) (b : t)
    : t * option AcquireError :=
  match secondary_circuit b with
  | None => (b, None)
  | Some circuit =>
      let '(b, interactive_may_pass) :=
        if bool_decide (priority = Interactive) then
          let b :=
            if is_none_or (fun next => next <=? mono_now) (secondary_interactive_next b)
            then set_secondary_interactive_used 0
                   (set_secondary_interactive_next
                      (Some (mono_now + SECONDARY_INTERACTIVE_GAP)) b)
            else b in
          if secondary_interactive_used b <? SECONDARY_INTERACTIVE_BURST
          then (set_secondary_interactive_used (secondary_interactive_used b + 1) b, true)
          else (b, false)
        else (b, false) in
      if interactive_may_pass then (b, None)
      else (b, Some (CircuitOpen (reason circuit) (retry_at circuit)))
  end.

(** The live window's emergency floor and reserve. *)
Definition emergency_floor (state : ResourceState) : Z :=
  Z.min LOW_THRESHOLD (Z.max (div_ceil (limit state) 50) 1).

Definition remote_gate (key : string) (priority : RequestPriority) (forecast wall_now : Z) (b : t)
    : option AcquireError :=
  match resources b !! key with
  | Some state =>
      if negb (wall_now <? reset_at state) then None
      else if (is_scheduled priority && (remaining state <=? emergency_floor state))
              || (remaining state <? forecast)
      then Some (RemoteLow (remaining state) (reset_at state))
      else if is_scheduled priority then
        let reserve := reserve_for (limit state) (background_share b) in
        if remaining state -sat forecast <? reserve
        then Some (ReserveProtected key (remaining state) reserve (reset_at state))
        else None
      else None
  | None => None
  end.

(** The per-tier ceiling on the tick's cumulative spend; the flag says that a
    focused-reserve slot carried the request past it. *)
Definition tick_gate (key : string) (priority : RequestPriority) (forecast mono_now : Z) (b : t)
    : t * (bool + AcquireError) :=
  if is_scheduled priority then
    let allowance := default MIN_BACKGROUND_TICK_ALLOWANCE (tick_allowance b !! key) in
    let spent := default 0 (tick_scheduled b !! key) in
    let ceiling := tick_ceiling priority allowance in
    if ceiling <? (spent +u32 forecast) then
      let '(b, reserved) := claim_focused_reserve priority mono_now b in
      if negb reserved
      then (b, inr (TickAllowanceExhausted key ceiling spent (label priority)
                      (Z.max (as_secs (tick_interval b)) 1)))
      else (b, inl true)
    else (b, inl false)
  else (b, inl false).

(** The local token bucket. *)
Definition bucket_gate (priority : RequestPriority) (reserved : bool) (mono_now : Z) (b : t)
    : t * option AcquireError :=
  if fltb (available b) fone && negb (bool_decide (priority = Interactive)) && negb reserved then
    let '(b, claimed) := claim_focused_reserve priority mono_now b in
    if claimed then (b, None)
    else
      let needed := fsub fone (available b) in
      let wait_secs :=
        if fltb fzero (refill_per_sec b) then as_u64 (fceil (fdiv needed (refill_per_sec b)))
        else 60 in
      (b, Some (LocalBudgetExhausted (Z.max wait_secs 1)))
  else (b, None).

Definition add_forecast (forecast : Z) (a : Accounting) : Accounting :=
  mkAccounting (requests a) (graphql_points a) (rest_points a) (bytes a) (duration_ms a)
    (conditional_hits a) (wrap_add u64_max (forecast_points a) forecast)
    (forecast_error_points a) (items a) (duplicates a).

(** The bookkeeping of an admitted request. *)
Definition commit_admission (key class : string) (priority : RequestPriority) (forecast : Z) (b : t)
    : t :=
  let b := set_available (fsub (available b) fone) b in
  let b :=
    if is_scheduled priority then
      let b := set_tick_scheduled
        (<[key := wrap_add u32_max (default 0 (tick_scheduled b !! key)) forecast]>
           (tick_scheduled b)) b in
      set_total (add_forecast forecast (total b)) (set_tick (add_forecast forecast (tick b)) b)
    else b in
  let b :=
    match operations b !! class with
    | Some _ => b
    | None => set_operations (<[class := mkOperation forecast forecast None 0]> (operations b)) b
    end in
  set_pending
    (<[(key, class) := default [] (pending b !! (key, class))
                       ++ [mkAdmission forecast (is_scheduled priority)]]> (pending b)) b.

Definition admit_at (resource : ApiResource) (class : string) (priority : RequestPriority)
    (default_forecast wall_now mono_now : Z) (b : t) : t * AcquireResult :=
  let key := resource_key resource in
  let b := expire_circuits wall_now b in
  match secondary_gate priority mono_now b with
  | (b, Some e) => (b, Refused e)
  | (b, None) =>
      match primary_circuits b !! key with
      | Some circuit => (b, Refused (CircuitOpen (reason circuit) (retry_at circuit)))
      | None =>
          let fc := forecast class default_forecast b in
          match remote_gate key priority fc wall_now b with
          | Some e => (b, Refused e)
          | None =>
              match tick_gate key priority fc mono_now b with
              | (b, inr e) => (b, Refused e)
              | (b, inl reserved) =>
                  let b := refill_at mono_now b in
                  match bucket_gate priority reserved mono_now b with
                  | (b, Some e) => (b, Refused e)
                  | (b, None) => (commit_admission key class priority fc b, Granted fc)
                  end
              end
          end
      end
  end.

Definition try_acquire_at (wall_now now : Z) (b : t) : t * AcquireResult :=
  admit_at Graphql "legacy" Interactive 1 wall_now now b.

(** *** Observation *)

Definition account_response (resource : ApiResource) (actual bytes_ duration_ms_ error : Z)
    (conditional_hit : bool) (a : Accounting) : Accounting :=
  mkAccounting (wrap_add u64_max (requests a) 1)
    (match resource with
     | Graphql => wrap_add u64_max (graphql_points a) actual | Rest _ => graphql_points a end)
    (match resource with
     | Graphql => rest_points a | Rest _ => wrap_add u64_max (rest_points a) actual end)
    (wrap_add u64_max (bytes a) bytes_)
    (wrap_add u64_max (duration_ms a) duration_ms_)
    (wrap_add u64_max (conditional_hits a) (if conditional_hit then 1 else 0))
    (forecast_points a)
    (wrap_i64 (forecast_error_points a + error))
    (items a) (duplicates a).

Definition duration_as_millis (d : Z) : Z := (d / 1000000) mod (u64_max + 1).

(** Pop the oldest admission of the operation. *)
Definition pop_pending (key class : string) (b : t) : t * option Admission :=
  match pending b !! (key, class) with
  | Some (a :: rest) => (set_pending (<[(key, class) := rest]> (pending b)) b, Some a)
  | _ => (b, None)
  end.

(** Learn the operation's cost. *)
Definition learn_operation (class : string) (fc actual : Z) (b : t) : t :=
  let material :=
    (2 <=? Z.abs (actual - fc)) || ((0 <? fc) && (sat_mul u32_max fc 2 <? actual)) in
  let first := Z.max (Z.max fc actual) 1 in
  let operation := default (mkOperation first first None 0) (operations b !! class) in
  let learned := Z.max (Z.max (op_forecast operation) actual) 1 in
  set_operations
    (<[class := mkOperation learned (Z.max (op_unit_forecast operation) learned) (Some actual)
                  (if material
                   then wrap_add u64_max (op_material_forecast_errors operation) 1
                   else op_material_forecast_errors operation)]> (operations b)) b.

Definition push_latency (ms : Z) (l : list Z) : list Z :=
  let l := l ++ [ms] in
  if LATENCY_SAMPLE_CAPACITY <? Z.of_nat (length l) then tail l else l.

Definition record_response (class : string) (resource : ApiResource) (reported_actual : option Z)
    (status : Z) (conditional_hit : bool) (bytes_ duration : Z) (b : t) : t :=
  let key := resource_key resource in
  let '(b, admission) := pop_pending key class b in
  let fc := match admission with None => forecast class 1 b | Some entry => adm_forecast entry end in
  let actual := default fc reported_actual in
  let b := set_local_completed
    (<[key := wrap_add u64_max (default 0 (local_completed b !! key)) actual]>
       (local_completed b)) b in
  let b :=
    match admission with
    | Some a =>
        if adm_scheduled a then
          let scheduled := default 0 (tick_scheduled b !! key) in
          set_tick_scheduled
            (<[key := (scheduled -sat adm_forecast a) +u32 actual]> (tick_scheduled b)) b
        else b
    | None => b
    end in
  let error := actual - fc in
  let b := learn_operation class fc actual b in
  let ms := duration_as_millis duration in
  let b := set_tick (account_response resource actual bytes_ ms error conditional_hit (tick b)) b in
  let b := set_total (account_response resource actual bytes_ ms error conditional_hit (total b)) b in
  let b := set_request_latencies_ms (push_latency ms (request_latencies_ms b)) b in
  if (200 <=? status) && (status <=? 399)
  then set_secondary_failures (secondary_failures b -sat 1) b
  else b.

Definition open_secondary_circuit (reason_ : string) (retry : Z) (b : t) : t :=
  if is_none_or (fun current => retry_at current <? retry) (secondary_circuit b)
  then set_secondary_circuit (Some (mkCircuit reason_ retry)) b else b.

Definition open_primary_circuit (resource reason_ : string) (retry : Z) (b : t) : t :=
  if is_none_or (fun current => retry_at current <? retry) (primary_circuits b !! resource)
  then set_primary_circuits (<[resource := mkCircuit reason_ retry]> (primary_circuits b)) b else b.

(** The burn sample of an observation with nothing in flight. *)
Definition sample_burn (previous : ResourceState) (local_completed_ observed : Z) : f64 :=
  let elapsed :=
    as_secs_f64 (default 0 (checked_duration_since observed (external_baseline_at previous))) in
  if fltb fzero elapsed then
    let total_delta :=
      Z.max (used previous -sat external_baseline_used previous)
            (external_baseline_remaining previous -sat remaining previous) in
    let local_delta := local_completed_ -sat external_baseline_local_completed previous in
    let external_delta := total_delta -sat Z.min local_delta u32_max in
    let sample := fdiv (of_Z external_delta) elapsed in
    if feqb (external_burn_per_sec previous) fzero then sample
    else fadd (fmul (external_burn_per_sec previous) (ratio 75 100)) (fmul sample (ratio 25 100))
  else external_burn_per_sec previous.

(** A second observation of the same window. *)
Definition merge_window (previous : ResourceState) (limit_ remaining_ used_ observed : Z)
    (has_pending : bool) (local_completed_ : Z) : ResourceState :=
  let previous :=
    mkResource (Z.min (remaining previous) remaining_) (Z.max (limit previous) limit_)
      (Z.max (used previous) used_) (reset_at previous) (Z.max (observed_at previous) observed)
      (external_burn_per_sec previous) (external_baseline_used previous)
      (external_baseline_remaining previous) (external_baseline_at previous)
      (external_baseline_local_completed previous) (external_baseline_pending previous) in
  if has_pending then previous
  else
    mkResource (remaining previous) (limit previous) (used previous) (reset_at previous)
      (observed_at previous)
      (if external_baseline_pending previous then external_burn_per_sec previous
       else sample_burn previous local_completed_ observed)
      (used previous) (remaining previous) observed local_completed_ false.

Definition fresh_window (limit_ remaining_ used_ reset observed local_completed_ : Z)
    : ResourceState :=
  mkResource remaining_ limit_ used_ reset observed fzero used_ remaining_ observed
    local_completed_ false.

Definition has_pending_for (resource : string) (b : t) : bool :=
  existsb (fun ka => bool_decide (ka.1.1 = resource) && negb (bool_decide (ka.2 = [])))
    (map_to_list (pending b)).

Definition exhausted_reason (resource : string) : string :=
  (resource ++ " primary budget exhausted")%string.

(** [observe_primary]; [utc_now] is the [Utc::now()] it reads at its end. *)
Definition observe_primary (resource : string) (limit_ remaining_ used_ reset observed utc_now : Z)
    (b : t) : t :=
  let local := default 0 (local_completed b !! resource) in
  let has_pending := has_pending_for resource b in
  let merged :=
    match resources b !! resource with
    | Some previous =>
        if reset <? reset_at previous then None
        else if reset =? reset_at previous then
          Some (merge_window previous limit_ remaining_ used_ observed has_pending local)
        else Some (fresh_window limit_ remaining_ used_ reset observed local)
    | None => Some (fresh_window limit_ remaining_ used_ reset observed local)
    end in
  match merged with
  | None => b
  | Some state =>
      let b := set_resources (<[resource := state]> (resources b)) b in
      if (remaining_ =? 0) && (utc_now <? reset)
      then open_primary_circuit resource (exhausted_reason resource) (reset + secs 1) b
      else b
  end.

Record RemoteRateLimit : Type := mkRemote {
  rl_remaining : Z;
  rl_limit : Z;
  rl_reset_at : Z;
  rl_observed_at : Z;
}.

Definition observe (remote : RemoteRateLimit) (utc_now : Z) (b : t) : t :=
  observe_primary "graphql" (rl_limit remote) (rl_remaining remote)
    (rl_limit remote -sat rl_remaining remote) (rl_reset_at remote) (rl_observed_at remote)
    utc_now b.

Definition observe_graphql_response (class : string) (remote : RemoteRateLimit)
    (used_ actual_cost status bytes_ duration utc_now : Z) (b : t) : t :=
  let b := record_response class Graphql (Some actual_cost) status false bytes_ duration b in
  observe_primary "graphql" (rl_limit remote) (rl_remaining remote) used_ (rl_reset_at remote)
    (rl_observed_at remote) utc_now b.

Definition observe_rest_response (resource class : string) (limit_ remaining_ used_ reset status : Z)
    (conditional_hit : bool) (bytes_ duration mono_now utc_now : Z) (b : t) : t :=
  let actual := if conditional_hit then 0 else 1 in
  let b := record_response class (Rest resource) (Some actual) status conditional_hit bytes_
             duration b in
  observe_primary resource limit_ remaining_ used_ reset mono_now utc_now b.

Definition observe_failed_response (class : string) (resource : ApiResource)
    (status bytes_ duration : Z) (b : t) : t :=
  record_response class resource None status false bytes_ duration b.

Definition observe_unreported_response (class : string) (resource : ApiResource)
    (status duration : Z) (b : t) : t :=
  record_response class resource None status false 0 duration b.

Definition add_duplicates (n : Z) (a : Accounting) : Accounting :=
  mkAccounting (requests a) (graphql_points a) (rest_points a) (bytes a) (duration_ms a)
    (conditional_hits a) (forecast_points a) (forecast_error_points a) (items a)
    (wrap_add u64_max (duplicates a) n).

Definition note_dedup (total_items unique_items : Z) (b : t) : t :=
  let n := total_items -sat unique_items in
  set_total (add_duplicates n (total b)) (set_tick (add_duplicates n (tick b)) b).

Definition add_items (n : Z) (a : Accounting) : Accounting :=
  mkAccounting (requests a) (graphql_points a) (rest_points a) (bytes a) (duration_ms a)
    (conditional_hits a) (forecast_points a) (forecast_error_points a)
    (wrap_add u64_max (items a) n) (duplicates a).

Definition note_items_changed (n : Z) (b : t) : t :=
  set_total (add_items n (total b)) (set_tick (add_items n (tick b)) b).

Definition observe_primary_limit (resource : string) (reset : Z) (reason_ : string) (b : t) : t :=
  let b := open_primary_circuit resource reason_ reset b in
  match resources b !! resource with
  | Some s =>
      set_resources
        (<[resource := mkResource 0 (limit s) (used s) reset (observed_at s)
             (external_burn_per_sec s) (external_baseline_used s)
             (external_baseline_remaining s) (external_baseline_at s)
             (external_baseline_local_completed s) (external_baseline_pending s)]>
           (resources b)) b
  | None => b
  end.

(** [observe_secondary_limit]; [nanos] is the sub-second part of the elapsed
    time the code uses as jitter entropy. *)
Definition secondary_pause (failures : Z) : Z :=
  Z.min (DEFAULT_SECONDARY_PAUSE * Z.shiftl 1 (Z.min (failures -sat 1) 4)) MAX_SECONDARY_PAUSE.

Definition observe_secondary_limit (retry_after : option Z) (wall_now nanos : Z) (b : t) : t * Z :=
  let b := set_secondary_failures (secondary_failures b +u32 1) b in
  let computed := secondary_pause (secondary_failures b) in
  match retry_after with
  | Some base =>
      let retry := wall_now + base in
      (open_secondary_circuit "secondary rate limit" retry b, retry)
  | None =>
      let jitter_bound := Z.max (as_secs computed / 10) 1 in
      let jitter := nanos mod (jitter_bound + 1) in
      let retry := wall_now + (computed + secs jitter) in
      (open_secondary_circuit "secondary rate limit" retry b, retry)
  end.

(** *** Snapshot and persistence *)

Definition percentile (sorted : list Z) (p : Z) : option Z :=
  match sorted with
  | [] => None
  | _ =>
      let rank := div_ceil (Z.of_nat (length sorted) * p) 100 in
      sorted !! Z.to_nat (rank -sat 1)
  end.

(** The latency percentiles of [snapshot]: [sort_unstable] then [percentile]. *)
Definition latency_percentile (p : Z) (b : t) : option Z :=
  percentile (merge_sort Z.le (request_latencies_ms b)) p.

Definition persist_resource (s : ResourceState) : PersistedResource :=
  mkPersisted (remaining s) (limit s) (used s) (reset_at s) (external_burn_per_sec s).

Definition persisted_state (b : t) : PersistedRateState :=
  mkPersistedState (persist_resource <$> resources b) (secondary_circuit b)
    (primary_circuits b) (secondary_failures b).

Definition restore_resource (mono_now : Z) (p : PersistedResource) : ResourceState :=
  mkResource (ps_remaining p) (ps_limit p) (ps_used p) (ps_reset_at p) mono_now
    (ps_external_burn_per_sec p) (ps_used p) (ps_remaining p) mono_now 0 true.

Definition restore_at (state : PersistedRateState) (wall_now mono_now : Z) (b : t) : t :=
  let b := set_resources
    ((restore_resource mono_now <$> ps_resources state) ∪ resources b) b in
  let secondary_active :=
    is_some_and (fun circuit => wall_now <? retry_at circuit) (ps_secondary_circuit state) in
  let b :=
    match ps_secondary_circuit state with
    | Some circuit => set_secondary_circuit (Some circuit) b
    | None => b
    end in
  let b := set_primary_circuits (ps_primary_circuits state ∪ primary_circuits b) b in
  set_secondary_failures (if secondary_active then ps_secondary_failures state else 0) b.

(** [Snapshot::paused_until] over the retry instants of a snapshot: the latest
    future one of the secondary cooldown and the open primary windows. *)
Definition paused_until (now : Z) (b : t) : option Z :=
  let retries :=
    option_list (retry_at <$> secondary_circuit b)
    ++ omap (fun kv => retry_at <$> primary_circuits b !! kv.1) (map_to_list (resources b)) in
  foldr (fun at_ acc => if now <? at_ then Some (match acc with None => at_ | Some m => Z.max at_ m end)
                        else acc) None retries.

End RateBudget.
