(* ===== verification/RateBudgetProps.v ===== *)
(** * The GitHub API governor: theorems

    The first group relates the gates of [admit_at] to the state they read: what
    an admitted request guarantees about the remote window, the tick and the
    cooldowns.  The second follows whole sequences of admissions (tier ceilings,
    the bursts of the cooldown and of the focused reserve).  The third is about
    observation, learning, pacing and persistence. *)

From S2P Require Import Prelude F64 RateBudget.
Import RateBudget.

(** ** Frame

    The part of the governor no gate of [admit_at] writes: everything but the
    bucket, the refill clock and the two burst windows. *)
Record same_books (b b' : t) : Prop := {
  sb_resources : resources b' = resources b;
  sb_share : background_share b' = background_share b;
  sb_allowance : tick_allowance b' = tick_allowance b;
  sb_scheduled : tick_scheduled b' = tick_scheduled b;
  sb_interval : tick_interval b' = tick_interval b;
  sb_operations : operations b' = operations b;
  sb_pending : pending b' = pending b;
  sb_completed : local_completed b' = local_completed b;
  sb_tick : tick b' = tick b;
  sb_total : total b' = total b;
  sb_secondary : secondary_circuit b' = secondary_circuit b;
  sb_primary : primary_circuits b' = primary_circuits b;
}.

#[export] Instance same_books_preorder : PreOrder same_books.
Proof. split; [done|]. intros b1 b2 b3 [] []. split; congruence. Qed.

(** The windows of the two bursts, which only their own gate writes. *)
Definition same_secondary_window (b b' : t) : Prop :=
  secondary_interactive_next b' = secondary_interactive_next b
  /\ secondary_interactive_used b' = secondary_interactive_used b.

Definition same_focused_window (b b' : t) : Prop :=
  focused_reserve_next b' = focused_reserve_next b
  /\ focused_reserve_used b' = focused_reserve_used b.

Ltac frame_cases :=
  repeat (case_match; simplify_eq/=); try done; try (split; done).

Section frames.
Context (p : RequestPriority) (now : Z) (b : t).

Lemma refill_frame : same_books b (refill_at now b).
Proof. done. Qed.

Lemma claim_focused_frame b' r : claim_focused_reserve p now b = (b', r) -> same_books b b'.
Proof. unfold claim_focused_reserve. intros; frame_cases. Qed.

Lemma claim_focused_secondary b' r :
  claim_focused_reserve p now b = (b', r) -> same_secondary_window b b'.
Proof. unfold claim_focused_reserve. intros; frame_cases. Qed.

Lemma claim_focused_other b' r :
  claim_focused_reserve p now b = (b', r) -> p <> Focused -> b' = b /\ r = false.
Proof.
  unfold claim_focused_reserve. intros H Hp.
  rewrite bool_decide_eq_false_2 in H by done. by simplify_eq/=.
Qed.

Lemma secondary_gate_frame b' e : secondary_gate p now b = (b', e) -> same_books b b'.
Proof. unfold secondary_gate. intros; frame_cases. Qed.

Lemma secondary_gate_focused b' e :
  secondary_gate p now b = (b', e) -> same_focused_window b b'.
Proof. unfold secondary_gate. intros; frame_cases. Qed.

Lemma tick_gate_frame key fc b' r : tick_gate key p fc now b = (b', r) -> same_books b b'.
Proof.
  unfold tick_gate. intros H. repeat (case_match; simplify_eq/=); try done;
    eauto using claim_focused_frame.
Qed.

Lemma tick_gate_secondary key fc b' r :
  tick_gate key p fc now b = (b', r) -> same_secondary_window b b'.
Proof.
  unfold tick_gate. intros H. repeat (case_match; simplify_eq/=); try done;
    eauto using claim_focused_secondary.
Qed.

Lemma bucket_gate_frame r b' e : bucket_gate p r now b = (b', e) -> same_books b b'.
Proof.
  unfold bucket_gate. intros H. repeat (case_match; simplify_eq/=); try done;
    eauto using claim_focused_frame.
Qed.

Lemma bucket_gate_secondary r b' e :
  bucket_gate p r now b = (b', e) -> same_secondary_window b b'.
Proof.
  unfold bucket_gate. intros H. repeat (case_match; simplify_eq/=); try done;
    eauto using claim_focused_secondary.
Qed.

End frames.

(** ** The gates of an admission, in order *)

(** [admit_through b1 b2 b3] are the states after the secondary gate, the tick
    gate and the bucket gate of a granted request. *)
Record admitted (key class : string) (p : RequestPriority) (df w m : Z) (b b' : t) (fc : Z)
    (b1 b2 b3 : t) (reserved : bool) : Prop := {
  ad_forecast : fc = forecast class df (expire_circuits w b);
  ad_secondary : secondary_gate p m (expire_circuits w b) = (b1, None);
  ad_primary : primary_circuits b1 !! key = None;
  ad_remote : remote_gate key p fc w b1 = None;
  ad_tick : tick_gate key p fc m b1 = (b2, inl reserved);
  ad_bucket : bucket_gate p reserved m (refill_at m b2) = (b3, None);
  ad_commit : b' = commit_admission key class p fc b3;
}.

Lemma forecast_frame b b' class df : same_books b b' -> forecast class df b' = forecast class df b.
Proof. intros []. unfold forecast. by rewrite sb_operations0. Qed.

Lemma admit_granted r class p df w m b b' fc :
  admit_at r class p df w m b = (b', Granted fc) ->
  exists b1 b2 b3 reserved, admitted (resource_key r) class p df w m b b' fc b1 b2 b3 reserved.
Proof.
  unfold admit_at.
  destruct (secondary_gate p m (expire_circuits w b)) as [b1 [e|]] eqn:Hs; [done|].
  rewrite (forecast_frame _ _ class df (secondary_gate_frame _ _ _ _ _ Hs)).
  destruct (primary_circuits b1 !! _) eqn:Hp; [done|].
  destruct (remote_gate _ _ _ _ _) eqn:Hr; [done|].
  destruct (tick_gate _ _ _ _ _) as [b2 [reserved|]] eqn:Ht; [|done].
  destruct (bucket_gate _ _ _ _) as [b3 [e|]] eqn:Hb; [done|].
  intros [= <- <-]. exists b1, b2, b3, reserved. by split.
Qed.

(** The state at each gate shows the governor's books as they were at the
    start, expired circuits removed. *)
Lemma admitted_books key class p df w m b b' fc b1 b2 b3 reserved :
  admitted key class p df w m b b' fc b1 b2 b3 reserved ->
  same_books (expire_circuits w b) b1 /\ same_books (expire_circuits w b) b3.
Proof.
  intros [].
  assert (same_books (expire_circuits w b) b1) by eauto using secondary_gate_frame.
  assert (same_books b1 b2) by eauto using tick_gate_frame.
  assert (same_books (refill_at m b2) b3) by eauto using bucket_gate_frame.
  split; [done|]. transitivity b1; [done|]. transitivity b2; [done|].
  by transitivity (refill_at m b2); [apply refill_frame|].
Qed.

Lemma expire_books w b :
  resources (expire_circuits w b) = resources b
  /\ tick_allowance (expire_circuits w b) = tick_allowance b
  /\ tick_scheduled (expire_circuits w b) = tick_scheduled b
  /\ operations (expire_circuits w b) = operations b
  /\ background_share (expire_circuits w b) = background_share b
  /\ pending (expire_circuits w b) = pending b.
Proof. unfold expire_circuits. destruct (is_some_and _ _); by split_and!. Qed.

(** An open secondary cooldown survives the expiry pass, an elapsed one does not. *)
Lemma expire_secondary w b :
  secondary_circuit (expire_circuits w b)
  = match secondary_circuit b with
    | Some c => if retry_at c <=? w then None else Some c
    | None => None
    end.
Proof.
  unfold expire_circuits. destruct (secondary_circuit b) as [c|] eqn:E; simpl; [|done].
  by destruct (retry_at c <=? w).
Qed.

Lemma expire_primary w b key :
  primary_circuits (expire_circuits w b) !! key
  = match primary_circuits b !! key with
    | Some c => if retry_at c <=? w then None else Some c
    | None => None
    end.
Proof.
  assert (primary_circuits (expire_circuits w b)
    = filter (fun kc => w < retry_at kc.2) (primary_circuits b)) as ->
    by (unfold expire_circuits; by destruct (is_some_and _ _)).
  destruct (primary_circuits b !! key) as [c|] eqn:E.
  - case_match; bool_norm.
    + apply map_lookup_filter_None. right. intros c' ?. simplify_eq/=. lia.
    + apply map_lookup_filter_Some. split; [done|]. simpl. lia.
  - apply map_lookup_filter_None. by left.
Qed.

(** ** What each gate lets through *)

Lemma secondary_gate_scheduled p m b b' :
  is_scheduled p = true -> secondary_gate p m b = (b', None) -> secondary_circuit b = None.
Proof.
  intros Hp. unfold secondary_gate. destruct (secondary_circuit b); [|done].
  by rewrite bool_decide_eq_false_2 by (by intros ->).
Qed.

Lemma remote_gate_passed key p fc w b st :
  remote_gate key p fc w b = None ->
  resources b !! key = Some st -> w < reset_at st -> 0 <= fc ->
  fc <= remaining st
  /\ (is_scheduled p = true ->
      emergency_floor st < remaining st
      /\ reserve_for (limit st) (background_share b) <= remaining st - fc).
Proof.
  unfold remote_gate. intros H Hst Hlive Hfc. rewrite Hst in H.
  rewrite (proj2 (Z.ltb_lt _ _) Hlive) in H. simpl in H.
  destruct (is_scheduled p); simpl in H.
  - repeat case_match; simplify_eq; bool_norm. unfold sat_sub in *. lia.
  - case_match; simplify_eq; bool_norm. by split.
Qed.

Lemma tick_gate_passed key p fc m b b' r :
  tick_gate key p fc m b = (b', inl r) -> is_scheduled p = true ->
  default 0 (tick_scheduled b !! key) +u32 fc
    <= tick_ceiling p (default MIN_BACKGROUND_TICK_ALLOWANCE (tick_allowance b !! key))
  \/ r = true /\ claim_focused_reserve p m b = (b', true).
Proof.
  unfold tick_gate. intros H Hp. rewrite Hp in H. case_match; bool_norm; [|by left].
  destruct (claim_focused_reserve p m b) as [b1 []] eqn:?; naive_solver.
Qed.

Lemma forecast_pos class df b : 1 <= forecast class df b.
Proof. unfold forecast. case_match; lia. Qed.

#[export] Hint Resolve forecast_pos : lazybox.

(** ** Admission *)

Lemma granted_within_ceiling r class p df w m b b' fc :
  admit_at r class p df w m b = (b', Granted fc) ->
  is_scheduled p = true -> p <> Focused ->
  1 <= fc
  /\ default 0 (tick_scheduled b !! resource_key r) +u32 fc
     <= tick_ceiling p
          (default MIN_BACKGROUND_TICK_ALLOWANCE (tick_allowance b !! resource_key r)).
Proof.
  intros (b1 & b2 & b3 & reserved & H)%admit_granted Hp Hf.
  pose proof (admitted_books _ _ _ _ _ _ _ _ _ _ _ _ _ H) as [[] _].
  destruct (expire_books w b) as (_ & Ea & Es & _). destruct H.
  split; [subst; auto with lazybox|].
  destruct (tick_gate_passed _ _ _ _ _ _ _ ad_tick0 Hp) as [Hle|[_ Hc]].
  - by rewrite sb_allowance0, sb_scheduled0, Ea, Es in Hle.
  - by apply claim_focused_other in Hc as [].
Qed.

(** C8: What an admitted request respects.  In a window that has not been reset it fits
    in what the provider has left, and a scheduled one (any but an interactive one)
    finds the window above the emergency floor and leaves it, by its forecast, at or
    above the reserve kept for the user's own actions.  A scheduled request outside the
    focused tier keeps the tick's spending within its tier's ceiling.  No unexpired
    primary cooldown of its resource is open, and for a scheduled request no unexpired
    secondary one.  Not claimed: an interactive request may draw on the reserve and pass
    a secondary cooldown in a spaced burst, and a focused one may pass the tick's
    ceiling on a reserved slot. *)
Theorem granted_request_respects_limits r class p df w m b b' fc :
  admit_at r class p df w m b = (b', Granted fc) ->
  let key := resource_key r in
  (forall st, resources b !! key = Some st -> w < reset_at st ->
     fc <= remaining st
     /\ (is_scheduled p = true ->
         emergency_floor st < remaining st
         /\ reserve_for (limit st) (background_share b) <= remaining st - fc))
  /\ (is_scheduled p = true -> p <> Focused ->
      default 0 (tick_scheduled b !! key) +u32 fc
        <= tick_ceiling p (default MIN_BACKGROUND_TICK_ALLOWANCE (tick_allowance b !! key)))
  /\ (forall c, primary_circuits b !! key = Some c -> retry_at c <= w)
  /\ (is_scheduled p = true -> forall c, secondary_circuit b = Some c -> retry_at c <= w).
Proof.
  intros Hg key. subst key.
  pose proof (granted_within_ceiling _ _ _ _ _ _ _ _ _ Hg) as Hceil.
  apply admit_granted in Hg as (b1 & b2 & b3 & reserved & H).
  pose proof (admitted_books _ _ _ _ _ _ _ _ _ _ _ _ _ H) as [[] _].
  destruct (expire_books w b) as (Er & Ea & Es & Eo & Esh & _). destruct H.
  split_and!.
  - intros st Hst Hlive. rewrite <- Esh, <- sb_share0.
    eapply remote_gate_passed; [done| |done|].
    + by rewrite sb_resources0, Er.
    + subst. etrans; [|apply forecast_pos]. lia.
  - intros Hp Hf. by apply Hceil.
  - intros c Hc. rewrite sb_primary0, expire_primary, Hc in ad_primary0.
    case_match; bool_norm; [done|simplify_eq].
  - intros Hp c Hc. apply secondary_gate_scheduled in ad_secondary0; [|done].
    rewrite expire_secondary, Hc in ad_secondary0. case_match; bool_norm; [done|simplify_eq].
Qed.

(** A governor that has seen 1000 of 5000 GraphQL points left, in a tick with an
    allowance of 100. *)
Definition demo_budget (remaining_ : Z) (spent : Z) : t :=
  set_tick_scheduled {["graphql"%string := spent]}
    (set_tick_allowance {["graphql"%string := 100]}
       (observe_primary "graphql" 5000 remaining_ (5000 - remaining_) (secs 3600) 0 0
          (default_for_lazybox 0))).

Lemma granted_request_respects_limits_witness :
  admit_at Graphql "sweep" Recent 5 0 0 (demo_budget 4000 60)
  = (fst (admit_at Graphql "sweep" Recent 5 0 0 (demo_budget 4000 60)), Granted 5)
  /\ reserve_for 5000 DEFAULT_BACKGROUND_SHARE <= 4000 - 5.
Proof.
  assert (H : admit_at Graphql "sweep" Recent 5 0 0 (demo_budget 4000 60)
    = (fst (admit_at Graphql "sweep" Recent 5 0 0 (demo_budget 4000 60)), Granted 5))
    by (vm_compute; reflexivity).
  split; [exact H|].
  destruct (granted_request_respects_limits _ _ _ _ _ _ _ _ _ H) as [Hr _].
  destruct (Hr (fresh_window 5000 4000 1000 (secs 3600) 0 0)) as [_ Hs];
    [vm_compute; reflexivity | vm_compute; reflexivity | ].
  destruct Hs as [_ Hs]; [reflexivity | exact Hs].
Defined.

(** The reason the governor refuses a request made by the user. *)
Inductive interactive_refusal (key class : string) (df w m : Z) (b : t) : AcquireError -> Prop :=
| refused_by_cooldown c :
    secondary_circuit b = Some c -> w < retry_at c ->
    is_some_and (fun next => m <? next) (secondary_interactive_next b) = true ->
    SECONDARY_INTERACTIVE_BURST <= secondary_interactive_used b ->
    interactive_refusal key class df w m b (CircuitOpen (reason c) (retry_at c))
| refused_by_window c :
    primary_circuits b !! key = Some c -> w < retry_at c ->
    interactive_refusal key class df w m b (CircuitOpen (reason c) (retry_at c))
| refused_by_cost st :
    resources b !! key = Some st -> w < reset_at st -> remaining st < forecast class df b ->
    interactive_refusal key class df w m b (RemoteLow (remaining st) (reset_at st)).

Lemma expire_windows w b :
  same_secondary_window b (expire_circuits w b) /\ same_focused_window b (expire_circuits w b).
Proof. unfold expire_circuits. destruct (is_some_and _ _); by split_and!. Qed.

Lemma secondary_gate_interactive m b b' e :
  secondary_gate Interactive m b = (b', Some e) ->
  exists c, secondary_circuit b = Some c /\ e = CircuitOpen (reason c) (retry_at c)
    /\ is_some_and (fun next => m <? next) (secondary_interactive_next b) = true
    /\ SECONDARY_INTERACTIVE_BURST <= secondary_interactive_used b.
Proof.
  unfold secondary_gate. destruct (secondary_circuit b) as [c|]; [|done].
  rewrite bool_decide_eq_true_2 by done.
  destruct (secondary_interactive_next b) as [next|] eqn:En; simpl; [|done].
  destruct (Z.leb_spec next m); simpl; [done|].
  destruct (Z.ltb_spec (secondary_interactive_used b) SECONDARY_INTERACTIVE_BURST); [done|].
  intros [= <- <-]. exists c. split_and!; try done. by apply Z.ltb_lt.
Qed.

Lemma remote_gate_interactive key fc w b e :
  remote_gate key Interactive fc w b = Some e ->
  exists st, resources b !! key = Some st /\ w < reset_at st /\ remaining st < fc
    /\ e = RemoteLow (remaining st) (reset_at st).
Proof.
  unfold remote_gate. destruct (resources b !! key) as [st|]; [|done]. simpl.
  destruct (Z.ltb_spec w (reset_at st)), (Z.ltb_spec (remaining st) fc); simpl; naive_solver.
Qed.

Lemma tick_gate_interactive key fc m b : tick_gate key Interactive fc m b = (b, inl false).
Proof. done. Qed.

Lemma bucket_gate_interactive r m b : bucket_gate Interactive r m b = (b, None).
Proof. unfold bucket_gate. by rewrite bool_decide_eq_true_2, andb_false_r by done. Qed.

(** the governor refuses the user's own request only for one of three
    remote reasons -- a secondary cooldown whose interactive burst is spent, an
    exhausted primary window, a live window with less left than the request is
    forecast to cost -- and never for its own pacing. *)
Theorem interactive_refused_only_remotely r class df w m b b' e :
  admit_at r class Interactive df w m b = (b', Refused e) ->
  is_self_imposed e = false
  /\ interactive_refusal (resource_key r) class df w m b e.
Proof.
  unfold admit_at. destruct (expire_windows w b) as [[En Eu] _].
  destruct (expire_books w b) as (Er & _ & _ & Eo & _).
  destruct (secondary_gate _ _ _) as [b1 o] eqn:Hs.
  pose proof (secondary_gate_frame _ _ _ _ _ Hs) as Hf.
  rewrite (forecast_frame _ _ _ _ Hf). destruct Hf. destruct o as [e'|].
  { intros [= _ <-]. apply secondary_gate_interactive in Hs as (c & Hc & -> & Hn & Hu).
    rewrite expire_secondary in Hc. rewrite En in Hn. rewrite Eu in Hu. split; [done|].
    repeat case_match; simplify_eq; bool_norm. by apply refused_by_cooldown. }
  rewrite sb_primary0, expire_primary.
  destruct (primary_circuits b !! _) as [c|] eqn:Hp.
  1: destruct (Z.leb_spec (retry_at c) w);
    [|intros [= _ <-]; split; [done|by eapply refused_by_window]].
  all: destruct (remote_gate _ _ _ _ _) as [e'|] eqn:Hr; [intros [= _ <-]|];
    [|rewrite tick_gate_interactive, bucket_gate_interactive; done];
    apply remote_gate_interactive in Hr as (st & Hst & Hlive & Hlow & ->);
    rewrite sb_resources0, Er in Hst; split; [done|]; apply refused_by_cost; try done;
    unfold forecast in *; by rewrite Eo in Hlow.
Qed.

Lemma interactive_refused_only_remotely_witness :
  interactive_refusal "graphql" "merge" 12 0 0 (demo_budget 10 60) (RemoteLow 10 (secs 3600)).
Proof.
  apply (interactive_refused_only_remotely Graphql "merge" 12 0 0 (demo_budget 10 60)
    (fst (admit_at Graphql "merge" Interactive 12 0 0 (demo_budget 10 60)))).
  vm_compute. reflexivity.
Defined.

(** ** Bursts

    The interactive pass-through of the secondary cooldown and the focused
    reserve are the same mechanism: a window of length [gap], opened by the
    first claim after the last one ended, in which [burst] claims succeed. *)
Section burst.
Context (gap burst : Z) (Hgap : 0 < gap) (Hburst : 0 < burst).

Definition burst_step (now : Z) (next : option Z) (used : Z) : option Z * Z * bool :=
  let fresh := is_none_or (fun n => n <=? now) next in
  let next := if fresh then Some (now + gap) else next in
  let used := if fresh then 0 else used in
  if used <? burst then (next, used + 1, true) else (next, used, false).

(** The claims that can still succeed in [[t0, tend)]. *)
Definition windows_in (d : Z) : Z := Z.max 0 ((d + gap - 1) / gap).
Definition claims_left (t0 tend : Z) (next : option Z) (used : Z) : Z :=
  match next with
  | Some n => if n <=? t0 then burst * windows_in (tend - t0)
              else Z.max 0 (burst - used) + burst * windows_in (tend - n)
  | None => burst * windows_in (tend - t0)
  end.

Lemma windows_in_mono d d' : d <= d' -> windows_in d <= windows_in d'.
Proof.
  intros. unfold windows_in.
  assert ((d + gap - 1) / gap <= (d' + gap - 1) / gap) by (apply Z.div_le_mono; lia). lia.
Qed.

Lemma windows_in_step d : 0 < d -> windows_in d = 1 + windows_in (d - gap).
Proof.
  intros. unfold windows_in.
  replace (d + gap - 1) with (d - gap + gap - 1 + 1 * gap) by lia.
  rewrite Z.div_add by lia. assert (0 <= (d - gap + gap - 1) / gap) by (apply Z.div_pos; lia).
  lia.
Qed.

Lemma windows_in_mul k : 0 <= k -> windows_in (k * gap) = k.
Proof.
  intros. unfold windows_in. replace (k * gap + gap - 1) with (gap - 1 + k * gap) by lia.
  rewrite Z.div_add, Z.div_small by lia. lia.
Qed.

Lemma windows_in_nonneg d : 0 <= windows_in d.
Proof. unfold windows_in. lia. Qed.

Lemma claims_left_nonneg t0 tend next used : 0 <= claims_left t0 tend next used.
Proof.
  unfold claims_left.
  repeat case_match; pose proof (windows_in_nonneg (tend - t0)); try nia.
  pose proof (windows_in_nonneg (tend - z)). nia.
Qed.

Lemma burst_step_claims t0 tend now next used next' used' ok :
  t0 <= now < tend ->
  burst_step now next used = (next', used', ok) ->
  claims_left t0 tend next' used' + (if ok then 1 else 0) <= claims_left t0 tend next used.
Proof.
  intros Hnow.
  assert (forall n, n <= now -> burst - 1 + burst * windows_in (tend - (now + gap)) + 1
    <= burst * windows_in (tend - n)) as Hopen.
  { intros n Hn. pose proof (windows_in_mono (tend - now) (tend - n) ltac:(lia)) as Hm.
    rewrite windows_in_step in Hm by lia.
    replace (tend - (now + gap)) with (tend - now - gap) by lia. nia. }
  unfold burst_step. destruct next as [n|]; simpl.
  - destruct (Z.leb_spec n now); simpl.
    + rewrite (proj2 (Z.ltb_lt 0 burst)) by lia. intros [= <- <- <-]. simpl.
      rewrite (proj2 (Z.leb_gt (now + gap) t0)) by lia. rewrite Z.max_r by lia.
      case_match; bool_norm; [apply Hopen; lia|]. specialize (Hopen n). lia.
    + destruct (Z.ltb_spec used burst); intros [= <- <- <-]; simpl; [|lia].
      rewrite (proj2 (Z.leb_gt n t0)) by lia. lia.
  - rewrite (proj2 (Z.ltb_lt 0 burst)) by lia. intros [= <- <- <-]. simpl.
    rewrite (proj2 (Z.leb_gt (now + gap) t0)) by lia. rewrite Z.max_r by lia.
    apply Hopen. lia.
Qed.

(** With no window open at [t0], [k] window lengths allow [burst * k] claims. *)
Lemma claims_left_closed t0 k next used :
  0 <= k -> is_none_or (fun n => n <=? t0) next = true ->
  claims_left t0 (t0 + k * gap) next used = burst * k.
Proof.
  intros ? Hn. unfold claims_left. replace (t0 + k * gap - t0) with (k * gap) by lia.
  rewrite windows_in_mul by done. destruct next; simpl in *; [by rewrite Hn|done].
Qed.

End burst.

Lemma claim_focused_burst now b :
  let '(next, used, ok) :=
    burst_step FOCUSED_RESERVE_GAP FOCUSED_RESERVE_BURST now
      (focused_reserve_next b) (focused_reserve_used b) in
  snd (claim_focused_reserve Focused now b) = ok
  /\ focused_reserve_next (fst (claim_focused_reserve Focused now b)) = next
  /\ focused_reserve_used (fst (claim_focused_reserve Focused now b)) = used.
Proof.
  unfold claim_focused_reserve, burst_step. simpl.
  destruct (is_none_or _ (focused_reserve_next b)); simpl; [done|].
  rewrite Z.ltb_antisym. destruct (_ <=? _); done.
Qed.

Lemma secondary_gate_burst now b c :
  secondary_circuit b = Some c ->
  let '(next, used, ok) :=
    burst_step SECONDARY_INTERACTIVE_GAP SECONDARY_INTERACTIVE_BURST now
      (secondary_interactive_next b) (secondary_interactive_used b) in
  snd (secondary_gate Interactive now b)
    = (if ok then None else Some (CircuitOpen (reason c) (retry_at c)))
  /\ secondary_interactive_next (fst (secondary_gate Interactive now b)) = next
  /\ secondary_interactive_used (fst (secondary_gate Interactive now b)) = used.
Proof.
  intros Hc. unfold secondary_gate, burst_step. rewrite Hc. simpl.
  destruct (is_none_or _ (secondary_interactive_next b)); simpl; [done|].
  by destruct (_ <? _).
Qed.

(** ** Sequences of admissions *)

Record Call : Type := mkCall {
  c_resource : ApiResource;
  c_class : string;
  c_priority : RequestPriority;
  c_default : Z;
  c_wall : Z;
  c_mono : Z;
}.

Definition admit_call (c : Call) (b : t) : t * AcquireResult :=
  admit_at (c_resource c) (c_class c) (c_priority c) (c_default c) (c_wall c) (c_mono c) b.

Definition granted (r : AcquireResult) : bool :=
  match r with Granted _ => true | Refused _ => false end.

(** The state after a run of admissions, and how many were granted. *)
Fixpoint admit_all (cs : list Call) (b : t) : t * Z :=
  match cs with
  | [] => (b, 0)
  | c :: cs =>
      let '(b, r) := admit_call c b in
      let '(b, n) := admit_all cs b in
      (b, (if granted r then 1 else 0) + n)
  end.

Lemma admit_all_invariant (I : t -> Prop) (K : Call -> Prop) cs b :
  (forall c b, K c -> I b -> I (fst (admit_call c b))) ->
  Forall K cs -> I b -> I (fst (admit_all cs b)).
Proof.
  intros Hstep HK. revert b. induction HK as [|c cs Hc HK IH]; intros b Hb; simpl; [done|].
  pose proof (Hstep c b Hc Hb) as Hb'. destruct (admit_call c b) as [b' r].
  specialize (IH b' Hb'). by destruct (admit_all cs b') as [b'' n].
Qed.

(** An invariant [I] and a potential [phi] that every call of the kind [K] keeps
    and pays for. *)
Lemma admit_all_potential (I : t -> Prop) (phi : t -> Z) (K : Call -> Prop) cs b :
  (forall c b, K c -> I b ->
     I (fst (admit_call c b))
     /\ phi (fst (admit_call c b)) + (if granted (snd (admit_call c b)) then 1 else 0) <= phi b) ->
  (forall b, I b -> 0 <= phi b) ->
  Forall K cs -> I b ->
  I (fst (admit_all cs b)) /\ snd (admit_all cs b) <= phi b.
Proof.
  intros Hstep Hpos HK. revert b. induction HK as [|c cs Hc HK IH]; intros b Hb; simpl.
  - auto.
  - destruct (Hstep c b Hc Hb) as [Hb' Hphi]. destruct (admit_call c b) as [b' r].
    specialize (IH b' Hb'). destruct (admit_all cs b') as [b'' n]. simpl in *. split; [easy|lia].
Qed.

(** Whatever the outcome, an admission leaves the books alone up to the entry of
    a granted request. *)
Lemma admit_frame r class p df w m b b' res :
  admit_at r class p df w m b = (b', res) ->
  exists b3,
    same_books (expire_circuits w b) b3
    /\ same_secondary_window (fst (secondary_gate p m (expire_circuits w b))) b3
    /\ b' = match res with
            | Granted fc => commit_admission (resource_key r) class p fc b3
            | Refused _ => b3
            end.
Proof.
  unfold admit_at. destruct (secondary_gate p m _) as [b1 [e|]] eqn:Hs;
    pose proof (secondary_gate_frame _ _ _ _ _ Hs) as H1.
  { intros [= <- <-]. by exists b1. }
  destruct (primary_circuits b1 !! _); [intros [= <- <-]; by exists b1|].
  destruct (remote_gate _ _ _ _ _); [intros [= <- <-]; by exists b1|].
  destruct (tick_gate _ _ _ _ _) as [b2 [reserved|e]] eqn:Ht;
    pose proof (tick_gate_frame _ _ _ _ _ _ _ Ht) as H2;
    pose proof (tick_gate_secondary _ _ _ _ _ _ _ Ht) as [S2 S2'];
    (assert (same_books (expire_circuits w b) b2) by (by transitivity b1)).
  2: { intros [= <- <-]. by exists b2. }
  destruct (bucket_gate _ _ _ _) as [b3 o] eqn:Hb.
  pose proof (bucket_gate_frame _ _ _ _ _ _ Hb) as H3.
  pose proof (bucket_gate_secondary _ _ _ _ _ _ Hb) as [S3 S3'].
  assert (same_books (expire_circuits w b) b3)
    by (transitivity b2; [done|]; by transitivity (refill_at m b2); [apply refill_frame|]).
  simpl in S3, S3'. rewrite S2 in S3. rewrite S2' in S3'.
  destruct o; intros [= <- <-]; by exists b3.
Qed.

Lemma commit_frame key class p fc b :
  secondary_circuit (commit_admission key class p fc b) = secondary_circuit b
  /\ tick_allowance (commit_admission key class p fc b) = tick_allowance b
  /\ same_secondary_window b (commit_admission key class p fc b)
  /\ same_focused_window b (commit_admission key class p fc b)
  /\ tick_scheduled (commit_admission key class p fc b)
     = if is_scheduled p
       then <[key := wrap_add u32_max (default 0 (tick_scheduled b !! key)) fc]> (tick_scheduled b)
       else tick_scheduled b.
Proof.
  unfold commit_admission.
  destruct (is_scheduled p); simpl; destruct (operations b !! class); by split_and!.
Qed.

Lemma secondary_gate_refuses p m b c :
  secondary_circuit b = Some c -> is_scheduled p = true ->
  secondary_gate p m b = (b, Some (CircuitOpen (reason c) (retry_at c))).
Proof.
  intros Hc Hp. unfold secondary_gate. rewrite Hc.
  by rewrite bool_decide_eq_false_2 by (by intros ->).
Qed.

Lemma admit_refused_by_secondary r class p df w m b e :
  snd (secondary_gate p m (expire_circuits w b)) = Some e ->
  snd (admit_at r class p df w m b) = Refused e.
Proof. unfold admit_at. destruct (secondary_gate _ _ _) as [b1 [e'|]]; simpl; congruence. Qed.

Lemma expire_keeps_secondary w b c :
  secondary_circuit b = Some c -> w < retry_at c ->
  secondary_circuit (expire_circuits w b) = Some c.
Proof.
  intros Hc ?. rewrite expire_secondary, Hc. by rewrite (proj2 (Z.leb_gt _ _)).
Qed.

Lemma admit_call_secondary c b :
  let b1 := expire_circuits (c_wall c) b in
  secondary_circuit (fst (admit_call c b)) = secondary_circuit b1
  /\ same_secondary_window (fst (secondary_gate (c_priority c) (c_mono c) b1))
       (fst (admit_call c b)).
Proof.
  intros b1. subst b1. destruct (admit_call c b) as [b' res] eqn:H. unfold admit_call in H.
  apply admit_frame in H as (b3 & [] & [W1 W2] & ->). destruct res as [fc|e]; cbn [fst]; [|done].
  destruct (commit_frame (resource_key (c_resource c)) (c_class c) (c_priority c) fc b3)
    as (-> & _ & [V1 V2] & _). split; [done|]. split; congruence.
Qed.

(** a secondary cooldown stops everything but a trickle of the user's own
    requests.  Whatever calls arrive while the cooldown [circuit] is open, during
    [k] windows of [SECONDARY_INTERACTIVE_GAP] the governor admits at most
    [SECONDARY_INTERACTIVE_BURST] per window, and none when they are all
    background work. *)
Theorem cooldown_admits_a_trickle t0 k circuit cs b :
  0 <= k ->
  secondary_circuit b = Some circuit ->
  is_none_or (fun n => n <=? t0) (secondary_interactive_next b) = true ->
  Forall (fun c => c_wall c < retry_at circuit
                   /\ t0 <= c_mono c < t0 + k * SECONDARY_INTERACTIVE_GAP) cs ->
  snd (admit_all cs b) <= SECONDARY_INTERACTIVE_BURST * k
  /\ (Forall (fun c => is_scheduled (c_priority c) = true) cs -> snd (admit_all cs b) <= 0).
Proof.
  intros Hk Hc Hn Hcs.
  set (I := fun b => secondary_circuit b = Some circuit).
  assert (forall c b, c_wall c < retry_at circuit -> I b -> is_scheduled (c_priority c) = true ->
    I (fst (admit_call c b)) /\ granted (snd (admit_call c b)) = false
    /\ same_secondary_window b (fst (admit_call c b))) as Hsched.
  { intros c b' Hw Hb Hp. destruct (admit_call_secondary c b') as [Hs Hwin].
    destruct (expire_windows (c_wall c) b') as [[E1 E2] _].
    pose proof (expire_keeps_secondary _ _ _ Hb Hw) as Hb1.
    rewrite (secondary_gate_refuses _ _ _ _ Hb1 Hp) in Hwin. destruct Hwin as [W1 W2].
    split; [by unfold I; rewrite Hs|].
    split; [|simpl in *; split; congruence].
    unfold admit_call. erewrite admit_refused_by_secondary; [done|].
    by rewrite (secondary_gate_refuses _ _ _ _ Hb1 Hp). }
  split.
  - rewrite <- (claims_left_closed SECONDARY_INTERACTIVE_GAP SECONDARY_INTERACTIVE_BURST
      ltac:(done) t0 k _ (secondary_interactive_used b) Hk Hn).
    apply (admit_all_potential I (fun b => claims_left SECONDARY_INTERACTIVE_GAP
      SECONDARY_INTERACTIVE_BURST t0 (t0 + k * SECONDARY_INTERACTIVE_GAP)
      (secondary_interactive_next b) (secondary_interactive_used b)) _ cs b) with (3 := Hcs);
      [| intros; by apply claims_left_nonneg | done].
    intros c b' [Hw Ht] Hb. destruct (is_scheduled (c_priority c)) eqn:Hp.
    { destruct (Hsched c b' Hw Hb Hp) as (? & -> & -> & ->). split; [done|lia]. }
    assert (c_priority c = Interactive) as Hi by (by destruct (c_priority c)).
    destruct (admit_call_secondary c b') as [Hs [W1 W2]].
    destruct (expire_windows (c_wall c) b') as [[E1 E2] _].
    pose proof (expire_keeps_secondary _ _ _ Hb Hw) as Hb1. rewrite Hi in W1, W2.
    split; [by unfold I; rewrite Hs|].
    pose proof (secondary_gate_burst (c_mono c) _ _ Hb1) as Hg.
    destruct (burst_step _ _ _ _ _) as [[next used] ok] eqn:Hstep.
    destruct Hg as (Hok & Hnext & Hused). rewrite W1, W2, Hnext, Hused.
    rewrite E1, E2 in Hstep. eapply burst_step_claims in Hstep; [|done..].
    destruct ok; [destruct (granted _); lia|].
    unfold admit_call. rewrite Hi. by erewrite admit_refused_by_secondary.
  - intros Hall. apply (admit_all_potential I (fun _ => 0)
      (fun c => c_wall c < retry_at circuit /\ is_scheduled (c_priority c) = true) cs b);
      [|done| |done].
    + intros c b' [Hw Hp] Hb. by destruct (Hsched c b' Hw Hb Hp) as (? & -> & _).
    + rewrite Forall_forall in *. intros c Hin. split; [by apply Hcs|by apply Hall].
Qed.

Definition cooling_budget : t :=
  fst (observe_secondary_limit None 0 0 (default_for_lazybox 0)).

Lemma cooldown_admits_a_trickle_witness :
  let call p m := mkCall Graphql "merge" p 1 m m in
  snd (admit_all [call Interactive 1; call Interactive 2; call Interactive 3; call Cold 4;
                  call Interactive 5; call Interactive 6] cooling_budget) = 4
  /\ snd (admit_all [call Interactive 1; call Interactive 2] cooling_budget)
     <= SECONDARY_INTERACTIVE_BURST * 1.
Proof.
  intros call. split; [vm_compute; reflexivity|].
  refine (proj1 (cooldown_admits_a_trickle 0 1 (mkCircuit "secondary rate limit" (secs 60))
    [call Interactive 1; call Interactive 2] cooling_budget _ _ _ _)).
  - vm_compute. discriminate.
  - vm_compute. reflexivity.
  - reflexivity.
  - repeat constructor; vm_compute; done.
Defined.

(** *** The tick's tiers *)

Lemma admit_call_allowance c b : tick_allowance (fst (admit_call c b)) = tick_allowance b.
Proof.
  destruct (admit_call c b) as [b' res] eqn:H. unfold admit_call in H.
  apply admit_frame in H as (b3 & [] & _ & ->). cbn [fst].
  destruct (expire_books (c_wall c) b) as (_ & E & _).
  destruct res as [fc|]; [|congruence].
  destruct (commit_frame (resource_key (c_resource c)) (c_class c) (c_priority c) fc b3)
    as (_ & -> & _). by rewrite sb_allowance0.
Qed.

(** What a call adds to the tick's spending. *)
Lemma admit_call_scheduled c b :
  tick_scheduled (fst (admit_call c b))
  = match snd (admit_call c b) with
    | Granted fc =>
        if is_scheduled (c_priority c)
        then <[resource_key (c_resource c) :=
                 wrap_add u32_max (default 0 (tick_scheduled b !! resource_key (c_resource c))) fc]>
               (tick_scheduled b)
        else tick_scheduled b
    | Refused _ => tick_scheduled b
    end.
Proof.
  destruct (admit_call c b) as [b' res] eqn:H. unfold admit_call in H.
  apply admit_frame in H as (b3 & [] & _ & ->). cbn [fst snd].
  destruct (expire_books (c_wall c) b) as (_ & _ & E & _). rewrite E in sb_scheduled0.
  destruct res as [fc|]; [|done].
  destruct (commit_frame (resource_key (c_resource c)) (c_class c) (c_priority c) fc b3)
    as (_ & _ & _ & _ & ->). by rewrite sb_scheduled0.
Qed.

(** The tick's spending on [key] stays below [M]. *)
Definition spent_within (key : string) (M : Z) (b : t) : Prop :=
  0 <= default 0 (tick_scheduled b !! key) <= M.

(** the tiers leave room for the ones above them.  Take any run of calls in
    one tick in which the scheduled calls on [key] belong to tiers whose
    ceiling is at most [M]; then, starting within [M], the tick's spending on
    [key] never passes [M], and a call of a higher tier that fits between [M] and its own
    ceiling still gets through the tick's gate. *)
Theorem lower_tiers_leave_headroom key M cs b p fc m :
  M < u32_max ->
  spent_within key M b ->
  Forall (fun c => resource_key (c_resource c) = key -> is_scheduled (c_priority c) = true ->
    c_priority c <> Focused
    /\ tick_ceiling (c_priority c)
         (default MIN_BACKGROUND_TICK_ALLOWANCE (tick_allowance b !! key)) <= M) cs ->
  M + fc <= tick_ceiling p (default MIN_BACKGROUND_TICK_ALLOWANCE (tick_allowance b !! key)) ->
  let b' := fst (admit_all cs b) in
  spent_within key M b' /\ tick_gate key p fc m b' = (b', inl false).
Proof.
  intros HM Hb Hcs Hfc b'.
  set (a := default MIN_BACKGROUND_TICK_ALLOWANCE (tick_allowance b !! key)) in *.
  set (I := fun b => spent_within key M b
                     /\ default MIN_BACKGROUND_TICK_ALLOWANCE (tick_allowance b !! key) = a).
  assert (I b') as [Hs Ha].
  { apply (admit_all_invariant I _ cs b) with (2 := Hcs); [|done].
    intros c b0 Hc [Hb0 Ha0]. split; [|by rewrite admit_call_allowance].
    unfold spent_within. rewrite admit_call_scheduled.
    destruct (admit_call c b0) as [b1 [f|e]] eqn:Hcall; [|done]. cbn [snd].
    destruct (is_scheduled (c_priority c)) eqn:Hp; [|done].
    destruct (decide (resource_key (c_resource c) = key)) as [<-|Hne];
      [rewrite lookup_insert_eq|by rewrite lookup_insert_ne].
    destruct (Hc eq_refl eq_refl) as [Hf Hceil].
    apply granted_within_ceiling in Hcall as [Hpos Hle]; [|done..].
    rewrite Ha0 in Hle. unfold spent_within, sat_add in *.
    assert (default 0 (tick_scheduled b0 !! resource_key (c_resource c)) + f <= M) by lia.
    unfold wrap_add. rewrite Z.mod_small by lia. simpl. lia. }
  split; [done|]. unfold tick_gate. destruct (is_scheduled p); [|done]. rewrite Ha.
  unfold spent_within, sat_add in *. case_match; bool_norm; [lia|done].
Qed.

Lemma lower_tiers_leave_headroom_witness :
  let b := demo_budget 4000 0 in
  let cs := repeat (mkCall Graphql "sweep" Recent 9 0 0) 12 in
  tick_ceiling Recent 100 = 70
  /\ tick_gate "graphql" Sessioned 30 0 (fst (admit_all cs b))
     = (fst (admit_all cs b), inl false).
Proof.
  intros b cs. split; [vm_compute; reflexivity|].
  refine (proj2 (lower_tiers_leave_headroom "graphql" 70 cs b Sessioned 30 0 _ _ _ _)).
  - vm_compute. reflexivity.
  - vm_compute. split; discriminate.
  - repeat constructor; intros; vm_compute; discriminate.
  - vm_compute. discriminate.
Defined.

(** *** A tick without allowance *)

Definition focused_claims_left (t0 tend : Z) (b : t) : Z :=
  claims_left FOCUSED_RESERVE_GAP FOCUSED_RESERVE_BURST t0 tend
    (focused_reserve_next b) (focused_reserve_used b).

(** The tick has no allowance for [key]. *)
Definition dry_tick (key : string) (b : t) : Prop :=
  tick_allowance b !! key = Some 0 /\ 0 <= default 0 (tick_scheduled b !! key).

Lemma tick_ceiling_zero p : tick_ceiling p 0 = 0.
Proof. unfold tick_ceiling. pose proof (as_u32_bounds (fceil (fmul (of_Z 0) (tick_share p)))). lia. Qed.

(** Past a dry tick's gate there is only the focused reserve. *)
Lemma tick_gate_dry key p fc m b :
  dry_tick key b -> is_scheduled p = true -> 1 <= fc ->
  let '(b', r) := claim_focused_reserve p m b in
  exists e, tick_gate key p fc m b = (b', if r then inl true else inr e).
Proof.
  intros [Ha Hs] Hp Hfc. unfold tick_gate. rewrite Hp, Ha. simpl. rewrite tick_ceiling_zero.
  unfold sat_add, u32_max. rewrite (proj2 (Z.ltb_lt _ _)) by lia.
  destruct (claim_focused_reserve p m b) as [b' []]; simpl; [by exists (RemoteLow 0 0)|by eexists].
Qed.

Lemma bucket_gate_reserved p m b : bucket_gate p true m b = (b, None).
Proof. unfold bucket_gate. by rewrite andb_false_r. Qed.

Lemma claim_focused_claims t0 tend p m b b' r :
  t0 <= m < tend ->
  claim_focused_reserve p m b = (b', r) ->
  focused_claims_left t0 tend b' + (if r then 1 else 0) <= focused_claims_left t0 tend b.
Proof.
  intros Hm Hc. destruct (decide (p = Focused)) as [->|Hp].
  - pose proof (claim_focused_burst m b) as H. rewrite Hc in H. simpl in H.
    destruct (burst_step _ _ _ _ _) as [[next used] ok] eqn:Hb. destruct H as (-> & <- & <-).
    by eapply burst_step_claims in Hb.
  - destruct (claim_focused_other _ _ _ _ _ Hc Hp) as [-> ->]. lia.
Qed.

Lemma admit_call_dry t0 tend c b :
  dry_tick (resource_key (c_resource c)) b -> is_scheduled (c_priority c) = true ->
  t0 <= c_mono c < tend ->
  focused_claims_left t0 tend (fst (admit_call c b))
    + (if granted (snd (admit_call c b)) then 1 else 0) <= focused_claims_left t0 tend b
  /\ (granted (snd (admit_call c b)) = true -> c_priority c = Focused).
Proof.
  intros [Ha Hs] Hp Hm. unfold admit_call, admit_at.
  destruct (expire_books (c_wall c) b) as (_ & Ea & Es & _).
  destruct (expire_windows (c_wall c) b) as [_ [W1 W2]].
  set (b0 := expire_circuits (c_wall c) b) in *.
  destruct (secondary_gate _ _ b0) as [b1 o] eqn:Hg.
  pose proof (secondary_gate_frame _ _ _ _ _ Hg) as [].
  pose proof (secondary_gate_focused _ _ _ _ _ Hg) as [V1 V2].
  assert (focused_claims_left t0 tend b1 = focused_claims_left t0 tend b) as Hleft
    by (unfold focused_claims_left; congruence).
  destruct o; [simpl; split; [lia|done]|].
  destruct (primary_circuits b1 !! _); [simpl; split; [lia|done]|].
  destruct (remote_gate _ _ _ _ _); [simpl; split; [lia|done]|].
  pose proof (tick_gate_dry (resource_key (c_resource c)) (c_priority c)
    (forecast (c_class c) (c_default c) b1) (c_mono c) b1) as Ht.
  assert (dry_tick (resource_key (c_resource c)) b1) as Hdry
    by (split; [by rewrite sb_allowance0, Ea|by rewrite sb_scheduled0, Es]).
  specialize (Ht Hdry Hp (forecast_pos _ _ _)).
  destruct (claim_focused_reserve _ _ b1) as [b2 r] eqn:Hc. destruct Ht as [e ->].
  pose proof (claim_focused_claims t0 tend _ _ _ _ _ Hm Hc) as Hclaims.
  destruct r; [|simpl; split; [lia|done]].
  rewrite bucket_gate_reserved. cbn [fst snd granted].
  destruct (commit_frame (resource_key (c_resource c)) (c_class c) (c_priority c)
    (forecast (c_class c) (c_default c) b1) (refill_at (c_mono c) b2)) as (_ & _ & _ & [X1 X2] & _).
  split; [unfold focused_claims_left in *; rewrite X1, X2; simpl; lia|].
  intros _. destruct (decide (c_priority c = Focused)); [done|].
  by destruct (claim_focused_other _ _ _ _ _ Hc n).
Qed.

Lemma admit_call_dry_tick key c b : dry_tick key b -> dry_tick key (fst (admit_call c b)).
Proof.
  intros [Ha Hs]. split; [by rewrite admit_call_allowance|]. rewrite admit_call_scheduled.
  repeat case_match; try done. destruct (decide (resource_key (c_resource c) = key)) as [<-|].
  - rewrite lookup_insert_eq. simpl. by apply Z.mod_pos_bound.
  - by rewrite lookup_insert_ne.
Qed.

(** with no allowance left for a resource, the only background requests the
    tick admits are the focused reserve's: any run of scheduled calls during [k]
    windows of [FOCUSED_RESERVE_GAP] admits at most [FOCUSED_RESERVE_BURST] per
    window, and none when no call is for the row in focus. *)
Theorem dry_tick_admits_the_focused_reserve key t0 k cs b :
  0 <= k ->
  dry_tick key b ->
  is_none_or (fun n => n <=? t0) (focused_reserve_next b) = true ->
  Forall (fun c => resource_key (c_resource c) = key /\ is_scheduled (c_priority c) = true
                   /\ t0 <= c_mono c < t0 + k * FOCUSED_RESERVE_GAP) cs ->
  snd (admit_all cs b) <= FOCUSED_RESERVE_BURST * k
  /\ (Forall (fun c => c_priority c <> Focused) cs -> snd (admit_all cs b) <= 0).
Proof.
  intros Hk Hb Hn Hcs. split.
  - rewrite <- (claims_left_closed FOCUSED_RESERVE_GAP FOCUSED_RESERVE_BURST ltac:(done) t0 k _
      (focused_reserve_used b) Hk Hn).
    apply (admit_all_potential (dry_tick key)
      (focused_claims_left t0 (t0 + k * FOCUSED_RESERVE_GAP)) _ cs b) with (3 := Hcs);
      [| intros; by apply claims_left_nonneg | done].
    intros c b' (<- & Hp & Ht) Hb'. split; [by apply admit_call_dry_tick|].
    by apply admit_call_dry.
  - intros Hf. refine (proj2 (admit_all_potential (dry_tick key) (fun _ => 0) (fun c =>
      (resource_key (c_resource c) = key /\ is_scheduled (c_priority c) = true
       /\ t0 <= c_mono c < t0 + k * FOCUSED_RESERVE_GAP) /\ c_priority c <> Focused) cs b _ _ _ Hb)).
    + intros c b' ((<- & Hp & Ht) & Hnf) Hb'. split; [by apply admit_call_dry_tick|].
      destruct (admit_call_dry t0 _ c b' Hb' Hp Ht) as [_ Hg].
      destruct (granted _); [by specialize (Hg eq_refl)|done].
    + done.
    + by apply Forall_and.
Qed.

Lemma dry_tick_admits_the_focused_reserve_witness :
  let b := set_tick_allowance {["graphql"%string := 0]} (demo_budget 4000 0) in
  let call p m := mkCall Graphql "detail" p 1 m m in
  let cs := [call Focused 1; call Sessioned 2; call Focused 3; call Focused 4; call Focused 5;
             call Focused 6; call Focused 7] in
  snd (admit_all cs b) = 4 /\ snd (admit_all cs b) <= FOCUSED_RESERVE_BURST * 1.
Proof.
  intros b call cs. split; [vm_compute; reflexivity|].
  refine (proj1 (dry_tick_admits_the_focused_reserve "graphql" 0 1 cs b _ _ _ _)).
  - vm_compute. discriminate.
  - split; [reflexivity|vm_compute; discriminate].
  - reflexivity.
  - repeat constructor; vm_compute; done.
Defined.

(** ** The tick's ledger

    What a tick has spent on an operation, as a reader would book it: the
    settled costs, and the queue of admissions still in flight at their forecast. *)
Record Ledger : Type := mkLedger { l_settled : Z; l_queue : list Admission }.

Definition entry_cost (a : Admission) : Z := if adm_scheduled a then adm_forecast a else 0.

Definition ledger_total (l : Ledger) : Z :=
  foldr (fun a acc => entry_cost a + acc) (l_settled l) (l_queue l).

Definition ledger_admit (a : Admission) (l : Ledger) : Ledger :=
  mkLedger (l_settled l) (l_queue l ++ [a]).

(** A response settles the oldest admission, at its reported cost or, when the
    response reports none, at its forecast. *)
Definition ledger_respond (reported : option Z) (l : Ledger) : Ledger :=
  match l_queue l with
  | [] => l
  | a :: q => mkLedger (l_settled l
                + (if adm_scheduled a then default (adm_forecast a) reported else 0)) q
  end.

Inductive LedgerEvent : Type :=
| EAdmit (p : RequestPriority) (df wall mono : Z)
| ERespond (reported : option Z) (status : Z) (conditional_hit : bool) (bytes_ duration : Z).

Section ledger.
Context (r : ApiResource) (class : string).

Definition ledger_step (e : LedgerEvent) (bl : t * Ledger) : t * Ledger :=
  let '(b, l) := bl in
  match e with
  | EAdmit p df w m =>
      match admit_at r class p df w m b with
      | (b, Granted fc) => (b, ledger_admit (mkAdmission fc (is_scheduled p)) l)
      | (b, Refused _) => (b, l)
      end
  | ERespond reported status hit bytes_ duration =>
      (record_response class r reported status hit bytes_ duration b, ledger_respond reported l)
  end.

Definition ledger_run (es : list LedgerEvent) (bl : t * Ledger) : t * Ledger :=
  fold_left (fun bl e => ledger_step e bl) es bl.

(** The reported costs are unsigned and the ledger's totals stay in a [u32]. *)
Fixpoint ledger_in_range (es : list LedgerEvent) (bl : t * Ledger) : Prop :=
  match es with
  | [] => True
  | e :: es =>
      match e with ERespond (Some actual) _ _ _ _ => 0 <= actual | _ => True end
      /\ ledger_total (snd (ledger_step e bl)) <= u32_max
      /\ ledger_in_range es (ledger_step e bl)
  end.

Record books_show (bl : t * Ledger) : Prop := {
  bs_queue : default [] (pending (fst bl) !! (resource_key r, class)) = l_queue (snd bl);
  bs_total : default 0 (tick_scheduled (fst bl) !! resource_key r) = ledger_total (snd bl);
  bs_settled : 0 <= l_settled (snd bl);
  bs_entries : Forall (fun a => 0 <= adm_forecast a) (l_queue (snd bl));
}.

Lemma foldr_entry_shift s d q :
  foldr (fun a acc => entry_cost a + acc) (s + d) q
  = foldr (fun a acc => entry_cost a + acc) s q + d.
Proof. induction q as [|a q IH]; [done|]. cbn [foldr]. rewrite IH. lia. Qed.

Lemma ledger_total_admit a l : ledger_total (ledger_admit a l) = ledger_total l + entry_cost a.
Proof.
  unfold ledger_total, ledger_admit. simpl. rewrite foldr_app. simpl.
  rewrite Z.add_comm. apply foldr_entry_shift.
Qed.

Lemma ledger_total_nonneg l :
  0 <= l_settled l -> Forall (fun a => 0 <= adm_forecast a) (l_queue l) -> 0 <= ledger_total l.
Proof.
  unfold ledger_total. intros Hs Hq. induction Hq as [|a q Ha Hq IH]; [done|]. cbn [foldr].
  assert (0 <= entry_cost a) by (unfold entry_cost; destruct (adm_scheduled a); lia). lia.
Qed.

Lemma books_show_respond reported status hit bytes_ duration b l :
  books_show (b, l) ->
  match reported with Some actual => 0 <= actual | None => True end ->
  ledger_total (ledger_respond reported l) <= u32_max ->
  books_show (record_response class r reported status hit bytes_ duration b,
              ledger_respond reported l).
Proof.
  intros [Hq Ht Hs He] Hr Hmax. simpl in *.
  unfold record_response, pop_pending, ledger_respond in *.
  destruct (pending b !! (resource_key r, class)) as [[|a q]|] eqn:Hp; simpl in Hq; subst;
    destruct (l_queue l) as [|a' q'] eqn:El; simplify_eq; simpl.
  1,3: destruct (_ && _); split; simpl; rewrite ?Hp, ?El; done.
  apply Forall_cons in He as [Ha He].
  pose proof (ledger_total_nonneg (mkLedger (l_settled l) q') Hs He) as Hrest.
  unfold ledger_total in *. rewrite El in Ht. simpl in *. rewrite foldr_entry_shift in *.
  unfold entry_cost in Ht at 1. set (rest := foldr _ (l_settled l) q') in *.
  destruct (adm_scheduled a'); destruct (_ && _); split; simpl; unfold ledger_total; simpl;
    rewrite ?lookup_insert_eq, ?foldr_entry_shift; try done; simpl; fold rest;
    rewrite ?Ht; unfold sat_sub, sat_add, u32_max in *; destruct reported; simpl in *; lia.
Qed.

Lemma books_show_admit p df w m b b' l fc :
  books_show (b, l) ->
  admit_at r class p df w m b = (b', Granted fc) ->
  ledger_total (ledger_admit (mkAdmission fc (is_scheduled p)) l) <= u32_max ->
  books_show (b', ledger_admit (mkAdmission fc (is_scheduled p)) l).
Proof.
  intros [Hq Ht Hs He] Hg Hmax. simpl in *.
  pose proof (admit_call_scheduled (mkCall r class p df w m) b) as Hsched.
  unfold admit_call in Hsched. simpl in Hsched. rewrite Hg in Hsched. simpl in Hsched.
  assert (1 <= fc) as Hfc
    by (apply admit_granted in Hg as (? & ? & ? & ? & []); subst; auto with lazybox).
  rewrite ledger_total_admit in *. unfold entry_cost in *. simpl in *.
  pose proof (ledger_total_nonneg l Hs He).
  split; simpl; [| |done|apply Forall_app; split; [done|constructor; [simpl; lia|done]]].
  - apply admit_frame in Hg as (b3 & [] & _ & ->).
    destruct (expire_books w b) as (_ & _ & _ & _ & _ & E). rewrite <- Hq, <- E, <- sb_pending0.
    unfold commit_admission. destruct (is_scheduled p); simpl;
      destruct (operations b3 !! class); simpl; by rewrite lookup_insert_eq.
  - rewrite Hsched, ledger_total_admit. unfold entry_cost. simpl.
    destruct (is_scheduled p); [rewrite lookup_insert_eq; simpl|lia].
    rewrite Ht. unfold wrap_add. by rewrite Z.mod_small by lia.
Qed.

Lemma books_show_refused p df w m b b' l e :
  books_show (b, l) -> admit_at r class p df w m b = (b', Refused e) -> books_show (b', l).
Proof.
  intros [Hq Ht Hs He] H. simpl in *. apply admit_frame in H as (b3 & [] & _ & ->).
  destruct (expire_books w b) as (_ & _ & E & _ & _ & E').
  split; simpl; done || congruence.
Qed.

(** the tick's books are exact.  After any interleaving of admissions and
    responses of an operation, however they were answered, the tick's recorded spending on the
    resource is the ledger's: every settled request at its actual cost, every
    request in flight at its forecast, nothing counted twice and nothing lost. *)
Theorem tick_spending_is_the_ledger es b l :
  books_show (b, l) ->
  ledger_in_range es (b, l) ->
  let '(b', l') := ledger_run es (b, l) in
  default 0 (tick_scheduled b' !! resource_key r) = ledger_total l'
  /\ default [] (pending b' !! (resource_key r, class)) = l_queue l'.
Proof.
  intros Hb Hr.
  assert (books_show (ledger_run es (b, l))) as H.
  { revert Hb Hr. generalize (b, l). clear b l. unfold ledger_run.
    induction es as [|e es IH]; intros [b l] Hb; simpl; [done|]. intros (Ha & Hmax & Hr).
    apply IH; [|done]. destruct e as [p df w m|]; simpl in *.
    - destruct (admit_at r class p df w m b) as [b' [fc|e]] eqn:Hg; simpl in *;
        [by eapply books_show_admit|by eapply books_show_refused].
    - apply books_show_respond; [done| |done]. by destruct reported. }
  destruct (ledger_run es (b, l)) as [b' l']. by destruct H.
Qed.

End ledger.

Lemma tick_spending_is_the_ledger_witness :
  let b := demo_budget 4000 0 in
  let es := [EAdmit Sessioned 5 0 0; EAdmit Sessioned 5 0 0; EAdmit Interactive 5 0 0;
             ERespond (Some 9) 200 false 0 0; ERespond None 200 false 0 0] in
  let '(b', l') := ledger_run Graphql "detail" es (b, mkLedger 0 []) in
  default 0 (tick_scheduled b' !! "graphql"%string) = ledger_total l'
  /\ ledger_total l' = 14.
Proof.
  intros b es.
  assert (H := tick_spending_is_the_ledger Graphql "detail" es b (mkLedger 0 [])).
  destruct (ledger_run Graphql "detail" es (b, mkLedger 0 [])) as [b' l'] eqn:Hrun.
  split.
  - apply H.
    + split; [reflexivity|reflexivity|simpl; lia|constructor].
    + vm_compute. repeat split; discriminate.
  - vm_compute in Hrun. injection Hrun as _ <-. reflexivity.
Defined.

(** ** Observation *)

Record Observation : Type := mkObservation {
  o_limit : Z;
  o_remaining : Z;
  o_used : Z;
  o_reset : Z;
  o_observed : Z;
  o_now : Z;
}.

Definition observe_one (resource : string) (b : t) (o : Observation) : t :=
  observe_primary resource (o_limit o) (o_remaining o) (o_used o) (o_reset o) (o_observed o)
    (o_now o) b.

Definition observe_all (resource : string) (os : list Observation) (b : t) : t :=
  fold_left (observe_one resource) os b.

(** The stored window is the join of the observations [os]: the latest reset, and
    over the observations of that window the fewest remaining and the most used. *)
Record joins (os : list Observation) (s : ResourceState) : Prop := {
  jn_latest : Forall (fun o => o_reset o <= reset_at s) os;
  jn_remaining_le :
    Forall (fun o => o_reset o = reset_at s -> remaining s <= o_remaining o) os;
  jn_remaining :
    exists o, o ∈ os /\ o_reset o = reset_at s /\ remaining s = o_remaining o;
  jn_used_ge : Forall (fun o => o_reset o = reset_at s -> o_used o <= used s) os;
  jn_used : exists o, o ∈ os /\ o_reset o = reset_at s /\ used s = o_used o;
}.

Lemma open_primary_resources resource reason_ retry b :
  resources (open_primary_circuit resource reason_ retry b) = resources b.
Proof. unfold open_primary_circuit. by case_match. Qed.

Lemma observe_one_resources resource o b :
  resources (observe_one resource b o) !! resource
  = match resources b !! resource with
    | Some previous =>
        if o_reset o <? reset_at previous then Some previous
        else if o_reset o =? reset_at previous then
          Some (merge_window previous (o_limit o) (o_remaining o) (o_used o) (o_observed o)
                  (has_pending_for resource b) (default 0 (local_completed b !! resource)))
        else Some (fresh_window (o_limit o) (o_remaining o) (o_used o) (o_reset o) (o_observed o)
                     (default 0 (local_completed b !! resource)))
    | None => Some (fresh_window (o_limit o) (o_remaining o) (o_used o) (o_reset o) (o_observed o)
                      (default 0 (local_completed b !! resource)))
    end.
Proof.
  unfold observe_one, observe_primary.
  destruct (resources b !! resource) as [previous|] eqn:E; simpl.
  1: destruct (o_reset o <? reset_at previous); [done|];
     destruct (o_reset o =? reset_at previous).
  all: destruct (_ && _); rewrite ?open_primary_resources; simpl; by rewrite lookup_insert_eq.
Qed.

Lemma merge_window_fields s l r u o p c :
  let s' := merge_window s l r u o p c in
  reset_at s' = reset_at s /\ remaining s' = Z.min (remaining s) r /\ used s' = Z.max (used s) u.
Proof. unfold merge_window. by destruct p. Qed.

Lemma joins_step resource os o b s :
  resources b !! resource = Some s -> joins os s ->
  exists s', resources (observe_one resource b o) !! resource = Some s' /\ joins (os ++ [o]) s'.
Proof.
  intros Hs [Hl Hrl Hr Hul Hu]. rewrite observe_one_resources, Hs.
  rewrite Forall_forall in *. destruct (Z.ltb_spec (o_reset o) (reset_at s)).
  { exists s. split; [done|]. split; rewrite ?Forall_app, ?Forall_singleton, ?Forall_forall; simpl.
    1,2,4: split; [done|lia].
    - destruct Hr as (o' & ? & ?). exists o'. set_solver.
    - destruct Hu as (o' & ? & ?). exists o'. set_solver. }
  destruct (Z.eqb_spec (o_reset o) (reset_at s)) as [Heq|Hne].
  - eexists. split; [done|].
    destruct (merge_window_fields s (o_limit o) (o_remaining o) (o_used o) (o_observed o)
      (has_pending_for resource b) (default 0 (local_completed b !! resource))) as (E1 & E2 & E3).
    split; rewrite ?E1, ?E2, ?E3, ?Forall_app, ?Forall_singleton, ?Forall_forall.
    + split; [done|lia].
    + split; [|lia]. intros o' Hin He. specialize (Hrl o' Hin He). lia.
    + destruct (Z.le_gt_cases (remaining s) (o_remaining o)).
      * destruct Hr as (o' & ? & ? & ?). exists o'. split_and!; [set_solver|done|lia].
      * exists o. split_and!; [set_solver|done|lia].
    + split; [|lia]. intros o' Hin He. specialize (Hul o' Hin He). lia.
    + destruct (Z.le_gt_cases (o_used o) (used s)).
      * destruct Hu as (o' & ? & ? & ?). exists o'. split_and!; [set_solver|done|lia].
      * exists o. split_and!; [set_solver|done|lia].
  - eexists. split; [done|].
    assert (forall o', o' ∈ os -> o_reset o' < o_reset o) as Hold by (intros o' ?%Hl; lia).
    split; simpl; rewrite ?Forall_app, ?Forall_singleton, ?Forall_forall.
    1: split; [intros o' ?%Hl; lia|lia].
    1,3: split; [intros o' Hin He; specialize (Hold o' Hin); lia|lia].
    1,2: exists o; set_solver.
Qed.

(** responses may arrive in any order.  Whatever the order and the times
    of the observations of a resource, the window the governor keeps is their
    join: the latest window seen, with the fewest requests remaining and the most
    used that any observation of that window reported. *)
Theorem observations_join resource o os b :
  resources b !! resource = None ->
  exists s, resources (observe_all resource (o :: os) b) !! resource = Some s
            /\ joins (o :: os) s.
Proof.
  intros Hb. unfold observe_all. simpl.
  assert (exists s, resources (observe_one resource b o) !! resource = Some s /\ joins [o] s)
    as (s & Hs & Hj).
  { rewrite observe_one_resources, Hb. eexists. split; [done|].
    split; simpl; try (by repeat constructor); exists o; set_solver. }
  change (o :: os) with ([o] ++ os). revert Hs Hj. generalize [o]. generalize (observe_one resource b o).
  revert s. induction os as [|o' os IH]; intros s b' pre Hs Hj; simpl.
  - exists s. by rewrite app_nil_r.
  - destruct (joins_step resource pre o' b' s Hs Hj) as (s' & Hs' & Hj').
    destruct (IH s' _ _ Hs' Hj') as (s'' & ? & Hj''). exists s''. split; [done|].
    by rewrite <- app_assoc in Hj''.
Qed.

Lemma observations_join_witness :
  exists s, resources (observe_all "core"
      [mkObservation 5000 90 4910 (secs 60) 5 5; mkObservation 5000 4999 1 (secs 3660) 61 61;
       mkObservation 5000 80 4920 (secs 60) 6 62] (default_for_lazybox 0)) !! "core"%string = Some s
    /\ remaining s = 4999.
Proof.
  destruct (observations_join "core" (mkObservation 5000 90 4910 (secs 60) 5 5)
    [mkObservation 5000 4999 1 (secs 3660) 61 61; mkObservation 5000 80 4920 (secs 60) 6 62]
    (default_for_lazybox 0) eq_refl) as (s & Hs & _).
  exists s. split; [exact Hs|]. vm_compute in Hs. injection Hs as <-. reflexivity.
Defined.

(** ** Cooldowns, pacing and restarts *)

Definition secondary_until (b : t) : option Z := retry_at <$> secondary_circuit b.

Lemma open_secondary_later reason_ retry b :
  exists c, secondary_circuit (open_secondary_circuit reason_ retry b) = Some c
    /\ retry <= retry_at c
    /\ (forall c0, secondary_circuit b = Some c0 -> retry_at c = Z.max (retry_at c0) retry)
    /\ (secondary_circuit b = None -> retry_at c = retry).
Proof.
  unfold open_secondary_circuit. destruct (secondary_circuit b) as [c0|] eqn:E; simpl.
  - destruct (Z.ltb_spec (retry_at c0) retry); simpl; [exists (mkCircuit reason_ retry)|exists c0];
      simpl; split_and!; try done || lia; intros c' [= <-]; lia.
  - exists (mkCircuit reason_ retry). simpl. split_and!; done || lia.
Qed.

Lemma shiftl_1_le n k : 0 <= n <= k -> 1 <= Z.shiftl 1 n <= Z.shiftl 1 k.
Proof.
  intros ?. rewrite !Z.shiftl_mul_pow2 by lia.
  pose proof (Z.pow_le_mono_r 2 0 n). pose proof (Z.pow_le_mono_r 2 n k). lia.
Qed.

Lemma secondary_pause_range failures :
  DEFAULT_SECONDARY_PAUSE <= secondary_pause failures <= MAX_SECONDARY_PAUSE.
Proof.
  unfold secondary_pause, DEFAULT_SECONDARY_PAUSE, MAX_SECONDARY_PAUSE, secs, nanos_per_sec.
  pose proof (shiftl_1_le (Z.min (failures -sat 1) 4) 4). unfold sat_sub in *. lia.
Qed.

Lemma secondary_pause_mono n m : n <= m -> secondary_pause n <= secondary_pause m.
Proof.
  intros. unfold secondary_pause, DEFAULT_SECONDARY_PAUSE, secs, nanos_per_sec.
  pose proof (shiftl_1_le (Z.min (n -sat 1) 4) (Z.min (m -sat 1) 4)). unfold sat_sub in *. nia.
Qed.

(** a secondary-limit response without a provider hint opens a cooldown of
    between one minute and sixteen and a half (the exponential pause is capped at fifteen
    minutes and jittered by at most a tenth), which lengthens with every
    failure in a row and never shortens one already open; a provider hint is
    obeyed exactly, unless a longer cooldown is open. *)
Theorem secondary_cooldown_bounds hint wall_now nanos b :
  0 <= nanos -> 0 <= secondary_failures b <= u32_max ->
  let '(b', retry) := observe_secondary_limit hint wall_now nanos b in
  secondary_failures b <= secondary_failures b'
  /\ secondary_pause (secondary_failures b) <= secondary_pause (secondary_failures b')
  /\ secondary_until b'
     = Some (match secondary_until b with Some old => Z.max old retry | None => retry end)
  /\ match hint with
     | Some base => retry = wall_now + base
     | None => wall_now + secs 60 <= retry <= wall_now + secs 990
               /\ secondary_pause (secondary_failures b') <= retry - wall_now
     end.
Proof.
  intros Hn Hf. unfold observe_secondary_limit, secondary_until.
  set (b1 := set_secondary_failures _ b).
  assert (forall retry, secondary_failures (open_secondary_circuit "secondary rate limit" retry b1)
    = secondary_failures b +u32 1) as Efail
    by (intros; unfold open_secondary_circuit; by case_match).
  assert (secondary_failures b <= secondary_failures b +u32 1) by (unfold sat_add; lia).
  assert (forall retry, retry_at <$> secondary_circuit
      (open_secondary_circuit "secondary rate limit" retry b1)
    = Some (match retry_at <$> secondary_circuit b with Some old => Z.max old retry | None => retry end))
    as Euntil.
  { intros retry. destruct (open_secondary_later "secondary rate limit" retry b1)
      as (c & -> & _ & H1 & H2). simpl in H1, H2.
    destruct (secondary_circuit b); simpl; f_equal; auto. }
  destruct hint as [base|]; rewrite Efail, Euntil;
    (split_and!; [done|by apply secondary_pause_mono|done|..]); [done|..].
  all: cbn [secondary_failures b1 set_secondary_failures].
  all: set (pause := secondary_pause _);
    pose proof (secondary_pause_range (secondary_failures b +u32 1)) as Hp; fold pause in Hp;
    set (bound := Z.max (as_secs pause / 10) 1);
    assert (0 <= nanos mod (bound + 1) <= bound) by
      (pose proof (Z.mod_pos_bound nanos (bound + 1)); lia);
    assert (bound <= 90) by (unfold bound, as_secs, MAX_SECONDARY_PAUSE, secs, nanos_per_sec in *;
      assert (pause / 1000000000 / 10 <= 90); [rewrite Z.div_div by lia; apply Z.div_le_upper_bound; lia|lia]);
    unfold DEFAULT_SECONDARY_PAUSE, MAX_SECONDARY_PAUSE, secs, nanos_per_sec in *; lia.
Qed.

Lemma secondary_cooldown_bounds_witness :
  secondary_until (fst (observe_secondary_limit None 0 (secs 1) cooling_budget))
    = Some (snd (observe_secondary_limit None 0 (secs 1) cooling_budget))
  /\ secs 120 <= snd (observe_secondary_limit None 0 (secs 1) cooling_budget).
Proof.
  assert (H := secondary_cooldown_bounds None 0 (secs 1) cooling_budget).
  destruct (observe_secondary_limit None 0 (secs 1) cooling_budget) as [b' retry] eqn:E.
  destruct H as (_ & _ & Hu & _).
  - vm_compute. discriminate.
  - vm_compute. split; discriminate.
  - vm_compute in E. injection E as <- <-. split; [reflexivity|vm_compute; discriminate].
Defined.

(** *** A restart *)

Definition fresh_budget (b : t) : Prop :=
  resources b = ∅ /\ primary_circuits b = ∅ /\ secondary_circuit b = None.

(** a restart forgets no limit.  Restoring the persisted state into a fresh
    governor and persisting it again gives the same state back -- the windows, both
    kinds of cooldown -- with the failure count dropped only when its cooldown had
    elapsed while the daemon was down; so a restart does not reopen a closed
    provider. *)
Theorem restart_round_trip b b0 wall mono :
  fresh_budget b0 ->
  persisted_state (restore_at (persisted_state b) wall mono b0)
  = mkPersistedState (ps_resources (persisted_state b)) (ps_secondary_circuit (persisted_state b))
      (ps_primary_circuits (persisted_state b))
      (if is_some_and (fun c => wall <? retry_at c) (secondary_circuit b)
       then secondary_failures b else 0)
  /\ (forall r class p df c,
       secondary_circuit b = Some c -> wall < retry_at c -> is_scheduled p = true ->
       snd (admit_at r class p df wall mono (restore_at (persisted_state b) wall mono b0))
       = Refused (CircuitOpen (reason c) (retry_at c)))
  /\ (forall r class p df c, secondary_circuit b = None ->
       primary_circuits b !! resource_key r = Some c -> wall < retry_at c ->
       snd (admit_at r class p df wall mono (restore_at (persisted_state b) wall mono b0))
       = Refused (CircuitOpen (reason c) (retry_at c))).
Proof.
  intros (Hr & Hp & Hs).
  set (b' := restore_at (persisted_state b) wall mono b0).
  assert (resources b' = restore_resource mono <$> (persist_resource <$> resources b)) as Er
    by (unfold b', restore_at, persisted_state; simpl;
        destruct (secondary_circuit b); simpl; by rewrite Hr, map_union_empty).
  assert (primary_circuits b' = primary_circuits b) as Ep
    by (unfold b', restore_at, persisted_state; simpl;
        destruct (secondary_circuit b); simpl; by rewrite Hp, map_union_empty).
  assert (secondary_circuit b' = secondary_circuit b) as Es
    by (unfold b', restore_at, persisted_state; simpl; by destruct (secondary_circuit b)).
  split_and!.
  - unfold persisted_state at 1. rewrite Er, Ep, Es.
    assert (persist_resource <$> (restore_resource mono <$> (persist_resource <$> resources b))
      = persist_resource <$> resources b) as ->
      by (rewrite <- !map_fmap_compose; by apply map_fmap_ext).
    by f_equal.
  - intros r class p df c Hc Hw Hp'. apply admit_refused_by_secondary.
    rewrite (secondary_gate_refuses _ _ _ c); [done| |done]. apply expire_keeps_secondary; [|done].
    by rewrite Es.
  - intros r class p df c Hc Hk Hw. unfold admit_at, secondary_gate.
    rewrite expire_secondary, Es, Hc, expire_primary, Ep, Hk.
    by rewrite (proj2 (Z.leb_gt _ _)).
Qed.

Lemma restart_round_trip_witness :
  snd (admit_at Graphql "sweep" Cold 1 (secs 5) 7
    (restore_at (persisted_state cooling_budget) (secs 5) 7 (default_for_lazybox 7)))
  = Refused (CircuitOpen "secondary rate limit" (secs 60)).
Proof.
  destruct (restart_round_trip cooling_budget (default_for_lazybox 7) (secs 5) 7) as (_ & H & _).
  - repeat split.
  - apply (H Graphql "sweep"%string Cold 1 (mkCircuit "secondary rate limit" (secs 60)));
      [vm_compute; reflexivity | vm_compute; reflexivity | reflexivity].
Defined.

(** *** Pacing *)

(** The start and the gap of each slot reserved at the given times. *)
Fixpoint reserve_slots (rs : list (list f64 * Z)) (b : t) : list (Z * Z) :=
  match rs with
  | [] => []
  | (burns, now) :: rs =>
      let '(b', delay) := reserve_request_slot burns now b in
      (now + delay, request_gap burns b) :: reserve_slots rs b'
  end.

Definition spaced (a b : Z * Z) : Prop := fst a + snd a <= fst b.

Lemma request_gap_bounds burns b : 0 <= request_gap burns b <= MAX_REQUEST_GAP.
Proof.
  unfold request_gap. pose proof (from_secs_f64_nonneg (fmul (fmul
    (of_Z (Z.shiftl 1 (Z.min (secondary_failures b) 4)))
    (fadd fone (fclamp fzero MAX_CONTENTION_MULT (fdiv (sum_burns burns) EXTERNAL_CONTENTION_REF))))
    (as_secs_f64 (min_request_gap b)))) as H.
  unfold mul_f64. split; [|lia]. apply Z.min_glb; [exact H|].
  unfold MAX_REQUEST_GAP, secs, nanos_per_sec. lia.
Qed.

Lemma reserve_slot_start burns now b b' delay :
  reserve_request_slot burns now b = (b', delay) ->
  0 <= delay
  /\ now + delay = match next_request_slot b with None => now | Some slot => Z.max slot now end
  /\ next_request_slot b' = Some (now + delay + request_gap burns b).
Proof.
  unfold reserve_request_slot, checked_duration_since. intros [= <- <-].
  assert (now <= match next_request_slot b with None => now | Some slot => Z.max slot now end)
    by (case_match; lia).
  rewrite (proj2 (Z.leb_le _ _)) by done. simpl. split_and!; [lia|lia|f_equal; lia].
Qed.

(** requests are paced.  Slots reserved one after the other, at any times,
    start no earlier than asked and each at least the previous slot's gap after it, so
    no two overlap; a gap is never longer than five seconds. *)
Theorem slots_are_spaced rs b :
  StronglySorted spaced (reserve_slots rs b)
  /\ Forall2 (fun r slot => snd r <= fst slot /\ 0 <= snd slot <= MAX_REQUEST_GAP)
       rs (reserve_slots rs b).
Proof.
  assert (forall rs b, Forall (fun slot => forall n, next_request_slot b = Some n -> n <= fst slot)
    (reserve_slots rs b)) as Hfrom.
  { clear rs b. induction rs as [|[burns now] rs IH]; intros b; cbn [reserve_slots]; [done|].
    destruct (reserve_request_slot burns now b) as [b' delay] eqn:E.
    destruct (reserve_slot_start _ _ _ _ _ E) as (Hd & Hstart & Hnext).
    pose proof (request_gap_bounds burns b).
    constructor; [intros n Hn; simpl; rewrite Hn in Hstart; lia|].
    eapply Forall_impl; [apply IH|]. intros slot Hs n Hn. specialize (Hs _ Hnext).
    rewrite Hn in Hstart. lia. }
  revert b. induction rs as [|[burns now] rs IH]; intros b; cbn [reserve_slots]; [split; constructor|].
  destruct (reserve_request_slot burns now b) as [b' delay] eqn:E.
  destruct (reserve_slot_start _ _ _ _ _ E) as (Hd & Hstart & Hnext).
  destruct (IH b') as [Hsorted Hall]. split; constructor; [done| | |done].
  - eapply Forall_impl; [apply Hfrom|]. intros slot Hs. by apply Hs.
  - split; simpl; [lia|apply request_gap_bounds].
Qed.

(** ** The tick plan *)

Lemma tick_resource_dry share interval elapsed wall st credit :
  wall < reset_at st ->
  background_headroom st share wall = 0 ->
  fltb fzero (external_burn_per_sec st) = false ->
  snd (tick_resource share interval elapsed wall st credit) = 0.
Proof.
  intros Hlive Hh Hburn. unfold tick_resource.
  rewrite (proj2 (Z.leb_gt _ _)), Hh, Hburn by done. cbn [snd].
  apply as_u32_floor_nonpos. apply fmin_zero.
Qed.

Lemma open_tick_books interval mono b :
  resources (open_tick interval mono b) = resources b
  /\ tick_scheduled (open_tick interval mono b) = ∅
  /\ background_share (open_tick interval mono b) = background_share b.
Proof. done. Qed.

Lemma begin_background_tick_books interval wall mono b :
  let b' := fst (begin_background_tick interval wall mono b) in
  tick_scheduled b' = ∅
  /\ resources b' = resources b
  /\ plan_graphql_points (snd (begin_background_tick interval wall mono b))
     = default MIN_BACKGROUND_TICK_ALLOWANCE (tick_allowance b' !! "graphql"%string)
  /\ forall key, exists credit elapsed,
       tick_allowance b' !! key
       = (fun st => snd (tick_resource (background_share b) (Z.max interval (secs 1)) elapsed
                           wall st credit)) <$> resources b !! key.
Proof.
  unfold begin_background_tick.
  destruct (expire_books wall (open_tick (Z.max interval (secs 1)) mono b))
    as (Er & _ & Es & _ & Esh & _).
  destruct (open_tick_books (Z.max interval (secs 1)) mono b) as (Or & Os & Osh).
  rewrite Or in Er. rewrite Os in Es. rewrite Osh in Esh.
  generalize dependent (expire_circuits wall (open_tick (Z.max interval (secs 1)) mono b)).
  intros B Er Es Esh. cbn [fst tick_scheduled resources tick_allowance set_tick_allowance
    set_background_credit].
  split; [done|]. split; [done|]. split; [reflexivity|]. intros key. eexists _, _.
  rewrite lookup_fmap, map_lookup_imap, Er, Esh.
  destruct (resources b !! key); reflexivity.
Qed.

(** a window with no headroom above the reserve and no measured outside
    use plans no background work.  The tick that finds it so is dry -- its
    allowance is zero and its spending starts from zero -- and the plan reports
    zero points to spend on GraphQL. *)
Theorem no_headroom_plans_nothing key st interval wall mono b :
  resources b !! key = Some st ->
  wall < reset_at st ->
  background_headroom st (background_share b) wall = 0 ->
  fltb fzero (external_burn_per_sec st) = false ->
  let '(b', plan) := begin_background_tick interval wall mono b in
  dry_tick key b'
  /\ tick_scheduled b' = ∅
  /\ (key = "graphql"%string -> plan_graphql_points plan = 0
                                /\ admits_complete_graphql_unit plan 1 = false).
Proof.
  intros Hst Hlive Hh Hburn.
  destruct (begin_background_tick_books interval wall mono b) as (Hs & _ & Hplan & Ha).
  destruct (Ha key) as (credit & elapsed & Hkey). clear Ha.
  rewrite Hst in Hkey. cbn [fmap option_fmap option_map] in Hkey.
  rewrite tick_resource_dry in Hkey by done.
  destruct (begin_background_tick interval wall mono b) as [b' plan].
  cbn [fst snd] in Hs, Hkey, Hplan.
  split; [split; [done|by rewrite Hs, lookup_empty]|]. split; [done|].
  intros ->. rewrite Hkey in Hplan. split; [done|].
  unfold admits_complete_graphql_unit. rewrite Hplan. apply andb_false_r.
Qed.

Lemma no_headroom_plans_nothing_witness :
  dry_tick "graphql" (fst (begin_background_tick (secs 60) 0 0 (demo_budget 2250 17))).
Proof.
  assert (H := no_headroom_plans_nothing "graphql" (fresh_window 5000 2250 2750 (secs 3600) 0 0)
    (secs 60) 0 0 (demo_budget 2250 17)).
  destruct (begin_background_tick (secs 60) 0 0 (demo_budget 2250 17)) as [b' plan].
  apply H; vm_compute; reflexivity.
Defined.
