(* ===== verification/Text.v ===== *)
(** * Rust's [str] operations

    Strings are their UTF-8 bytes.  Trimming follows [char::is_whitespace] (the
    Unicode [White_Space] property) on the encodings of those code points;
    splitting and stripping are byte-wise, which on valid UTF-8 is what the
    [char] and [&str] patterns of the sources do. *)

From S2P Require Import Prelude.
From Stdlib Require Import String Ascii.
From Stdlib Require DecimalString.

#[global] Open Scope Z_scope.
#[local] Open Scope string_scope.

Definition bytes_of (ns : list nat) : string :=
  string_of_list_ascii (map ascii_of_nat ns).

(** The encodings of the white-space code points. *)
Definition whitespace : list string :=
  map (fun n : nat => bytes_of [n]) [9; 10; 11; 12; 13; 32]%nat
  ++ [bytes_of [194; 133]; bytes_of [194; 160]; bytes_of [225; 154; 128]]%nat
  ++ map (fun n : nat => bytes_of [226; 128; n]%nat)
       [128; 129; 130; 131; 132; 133; 134; 135; 136; 137; 138; 168; 169; 175]%nat
  ++ [bytes_of [226; 129; 159]; bytes_of [227; 128; 128]]%nat.

Fixpoint strip_prefix (p s : string) : option string :=
  match p, s with
  | EmptyString, _ => Some s
  | String a p, String b s => if Ascii.eqb a b then strip_prefix p s else None
  | String _ _, EmptyString => None
  end.

Definition starts_with (p s : string) : bool :=
  match strip_prefix p s with Some _ => true | None => false end.

Definition rev_str (s : string) : string :=
  string_of_list_ascii (rev (list_ascii_of_string s)).

(** Strip the first prefix of the list that applies. *)
Fixpoint strip_any (ps : list string) (s : string) : option string :=
  match ps with
  | [] => None
  | p :: ps => match strip_prefix p s with Some r => Some r | None => strip_any ps s end
  end.

(** Strip prefixes as long as one applies. *)
Fixpoint strip_all (fuel : nat) (ps : list string) (s : string) : string :=
  match fuel with
  | O => s
  | S fuel => match strip_any ps s with Some r => strip_all fuel ps r | None => s end
  end.

Definition trim_start_by (ps : list string) (s : string) : string := strip_all (String.length s) ps s.
Definition trim_end_by (ps : list string) (s : string) : string :=
  rev_str (trim_start_by (map rev_str ps) (rev_str s)).

Definition trim (s : string) : string := trim_end_by whitespace (trim_start_by whitespace s).

(** [s.trim_matches(|c| ...)] for a set of ASCII characters, and
    [s.trim_end_matches(p)]. *)
Definition trim_matches (cs : list string) (s : string) : string :=
  trim_end_by cs (trim_start_by cs s).
Definition trim_end_matches (p : string) (s : string) : string := trim_end_by [p] s.

Definition is_ws_free (s : string) : bool :=
  (fix go (s : string) : bool :=
     match s with
     | EmptyString => true
     | String _ s' => match strip_any whitespace s with Some _ => false | None => go s' end
     end) s.

(** [s.split_once(c)] *)
Fixpoint split_once (c : ascii) (s : string) : option (string * string) :=
  match s with
  | EmptyString => None
  | String a s =>
      if Ascii.eqb a c then Some (EmptyString, s)
      else match split_once c s with
           | Some (l, r) => Some (String a l, r)
           | None => None
           end
  end.

(** [s.rsplit_once(c)] *)
Definition rsplit_once (c : ascii) (s : string) : option (string * string) :=
  match split_once c (rev_str s) with
  | Some (r, l) => Some (rev_str l, rev_str r)
  | None => None
  end.

(** The part of [s] before the first character satisfying [f]. *)
Fixpoint before (f : ascii -> bool) (s : string) : string :=
  match s with
  | EmptyString => EmptyString
  | String a s => if f a then EmptyString else String a (before f s)
  end.

(** [s.split('/')] *)
Fixpoint split (c : ascii) (s : string) : list string :=
  match s with
  | EmptyString => [EmptyString]
  | String a s =>
      if Ascii.eqb a c then EmptyString :: split c s
      else match split c s with
           | [] => [String a EmptyString]
           | x :: xs => String a x :: xs
           end
  end.

Definition is_digit (c : ascii) : bool :=
  let n := nat_of_ascii c in (48 <=? n)%nat && (n <=? 57)%nat.
Definition is_upper (c : ascii) : bool :=
  let n := nat_of_ascii c in (65 <=? n)%nat && (n <=? 90)%nat.
Definition is_lower (c : ascii) : bool :=
  let n := nat_of_ascii c in (97 <=? n)%nat && (n <=? 122)%nat.
Definition is_ascii_alphanumeric (c : ascii) : bool := is_digit c || is_upper c || is_lower c.

Fixpoint all_chars (f : ascii -> bool) (s : string) : bool :=
  match s with EmptyString => true | String a s => f a && all_chars f s end.

Fixpoint map_chars (f : ascii -> ascii) (s : string) : string :=
  match s with EmptyString => EmptyString | String a s => String (f a) (map_chars f s) end.

Definition to_ascii_uppercase (s : string) : string :=
  map_chars (fun c => if is_lower c then ascii_of_nat (nat_of_ascii c - 32) else c) s.
Definition to_ascii_lowercase (s : string) : string :=
  map_chars (fun c => if is_upper c then ascii_of_nat (nat_of_ascii c + 32) else c) s.

Definition is_empty (s : string) : bool := match s with EmptyString => true | _ => false end.

(** [s.parse::<u64>()]: an optional [+], then digits, without overflow. *)
Fixpoint parse_digits (s : string) (acc : Z) : option Z :=
  match s with
  | EmptyString => Some acc
  | String c s =>
      if is_digit c then
        let acc := acc * 10 + Z.of_nat (nat_of_ascii c - 48) in
        if (acc <=? u64_max)%Z then parse_digits s acc else None
      else None
  end.

Definition parse_u64 (s : string) : option Z :=
  let digits := match s with String "+"%char s => s | _ => s end in
  if is_empty digits then None else parse_digits digits 0.

(** [n.to_string()] for an unsigned integer. *)
Definition show_uint (n : Z) : string := DecimalString.NilZero.string_of_uint (N.to_uint (Z.to_N n)).

(** ** Lemmas *)

Lemma app_cons_str c (a b : string) : String c a ++ b = String c (a ++ b).
Proof. reflexivity. Qed.

Lemma app_nil_str (b : string) : EmptyString ++ b = b.
Proof. reflexivity. Qed.

Lemma strip_prefix_app p s : strip_prefix p (p ++ s) = Some s.
Proof. induction p as [|a p IH]; [done|]. rewrite app_cons_str. simpl. by rewrite Ascii.eqb_refl. Qed.

Lemma strip_prefix_Some p s r : strip_prefix p s = Some r <-> s = p ++ r.
Proof.
  split; [|intros ->; apply strip_prefix_app].
  revert s. induction p as [|a p IH]; intros s; simpl; [by intros [= ->]|].
  destruct s as [|b s]; [done|]. destruct (Ascii.eqb_spec a b) as [->|]; [|done].
  intros ->%IH. done.
Qed.

Lemma app_assoc_str (a b c : string) : (a ++ b) ++ c = a ++ b ++ c.
Proof. induction a as [|x a IH]; simpl; rewrite ?app_nil_str, ?app_cons_str; simpl; congruence. Qed.

Lemma app_nil_r_str (a : string) : a ++ EmptyString = a.
Proof. induction a as [|x a IH]; simpl; rewrite ?app_nil_str, ?app_cons_str; simpl; congruence. Qed.

Lemma length_app_str (a b : string) :
  String.length (a ++ b) = (String.length a + String.length b)%nat.
Proof. induction a as [|x a IH]; simpl; rewrite ?app_nil_str, ?app_cons_str; simpl; congruence. Qed.

Lemma list_ascii_app a b :
  list_ascii_of_string (a ++ b) = (list_ascii_of_string a ++ list_ascii_of_string b)%list.
Proof. induction a as [|x a IH]; simpl; rewrite ?app_nil_str, ?app_cons_str; simpl; congruence. Qed.

Lemma string_of_list_app a b :
  string_of_list_ascii (a ++ b)%list = string_of_list_ascii a ++ string_of_list_ascii b.
Proof. induction a as [|x a IH]; simpl; rewrite ?app_nil_str, ?app_cons_str; simpl; congruence. Qed.

Lemma rev_str_app a b : rev_str (a ++ b) = rev_str b ++ rev_str a.
Proof. unfold rev_str. by rewrite list_ascii_app, rev_app_distr, string_of_list_app. Qed.

Lemma rev_str_involutive s : rev_str (rev_str s) = s.
Proof.
  unfold rev_str. by rewrite list_ascii_of_string_of_list_ascii, rev_involutive,
    string_of_list_ascii_of_string.
Qed.

Lemma rev_str_cons a s : rev_str (String a s) = rev_str s ++ String a EmptyString.
Proof. change (String a s) with (String a EmptyString ++ s). by rewrite rev_str_app. Qed.

Lemma length_rev_str s : String.length (rev_str s) = String.length s.
Proof.
  induction s as [|a s IH]; [done|]. rewrite rev_str_cons, length_app_str, IH. simpl. lia.
Qed.

(** ** Trimming *)

Section trim.
Context (ps : list string) (Hps : Forall (fun p => p <> EmptyString) ps).

Lemma strip_any_Some s r :
  strip_any ps s = Some r -> exists p, p ∈ ps /\ p <> EmptyString /\ s = p ++ r.
Proof.
  revert Hps. induction ps as [|p ps' IH]; intros Hall; simpl; [done|].
  apply Forall_cons in Hall as [Hp Hall].
  destruct (strip_prefix p s) as [r'|] eqn:E.
  - intros [= ->]. apply strip_prefix_Some in E. exists p. split_and!; [left|done|done].
  - intros (p' & ? & ? & ?)%(IH Hall). exists p'. split_and!; [by right|done|done].
Qed.

Lemma strip_any_shorter s r : strip_any ps s = Some r -> (String.length r < String.length s)%nat.
Proof.
  intros (p & _ & Hp & ->)%strip_any_Some. rewrite length_app_str. destruct p; [done|simpl; lia].
Qed.

(** A prefix that applies still does when the string goes on. *)
Lemma strip_any_app s r t : strip_any ps s = Some r -> exists r', strip_any ps (s ++ t) = Some r'.
Proof.
  clear Hps. induction ps as [|p ps' IH]; simpl; [done|].
  destruct (strip_prefix p s) as [r'|] eqn:E.
  - intros _. apply strip_prefix_Some in E as ->. rewrite app_assoc_str, strip_prefix_app. eauto.
  - intros H. destruct (strip_prefix p (s ++ t)); eauto.
Qed.

Lemma strip_all_done fuel s :
  (String.length s <= fuel)%nat -> strip_any ps (strip_all fuel ps s) = None.
Proof.
  revert s. induction fuel as [|fuel IH]; intros s Hs; simpl.
  - destruct (strip_any ps s) eqn:E; [|done]. apply strip_any_shorter in E. lia.
  - destruct (strip_any ps s) as [r|] eqn:E; [|done]. apply IH.
    apply strip_any_shorter in E. lia.
Qed.

Lemma strip_all_suffix fuel s : exists p, s = p ++ strip_all fuel ps s.
Proof.
  revert s. induction fuel as [|fuel IH]; intros s; simpl; [by exists EmptyString|].
  destruct (strip_any ps s) as [r|] eqn:E; [|by exists EmptyString].
  apply strip_any_Some in E as (p & _ & _ & ->). destruct (IH r) as [q Hq].
  exists (p ++ q). rewrite app_assoc_str. by f_equal.
Qed.

Lemma trim_start_fixed s : strip_any ps s = None -> trim_start_by ps s = s.
Proof. unfold trim_start_by. intros E. destruct (String.length s); simpl; by rewrite ?E. Qed.

Lemma trim_start_done s : strip_any ps (trim_start_by ps s) = None.
Proof. by apply strip_all_done. Qed.

End trim.

Lemma whitespace_nonempty : Forall (fun p => p <> EmptyString) whitespace.
Proof. repeat constructor; discriminate. Qed.

Lemma rev_whitespace_nonempty : Forall (fun p => p <> EmptyString) (map rev_str whitespace).
Proof. repeat constructor; discriminate. Qed.

#[export] Hint Resolve whitespace_nonempty rev_whitespace_nonempty : lazybox.

Lemma trim_end_prefix s : exists q, s = trim_end_by whitespace s ++ q.
Proof.
  unfold trim_end_by, trim_start_by.
  destruct (strip_all_suffix (map rev_str whitespace) rev_whitespace_nonempty
    (String.length (rev_str s)) (rev_str s)) as [p Hp].
  exists (rev_str p). apply (f_equal rev_str) in Hp.
  by rewrite rev_str_involutive, rev_str_app in Hp.
Qed.

(** No white space at the ends. *)
Definition trimmed (s : string) : Prop :=
  strip_any whitespace s = None /\ strip_any (map rev_str whitespace) (rev_str s) = None.

Lemma trim_trimmed s : trimmed (trim s).
Proof.
  unfold trim. set (u := trim_start_by whitespace s).
  assert (strip_any whitespace u = None) as Hu by (apply trim_start_done; auto with lazybox).
  split.
  - destruct (trim_end_prefix u) as [q Hq].
    destruct (strip_any whitespace (trim_end_by whitespace u)) as [r|] eqn:E; [|done].
    destruct (strip_any_app whitespace _ _ q E) as [r' Hr']. congruence.
  - unfold trim_end_by. rewrite rev_str_involutive. apply trim_start_done; auto with lazybox.
Qed.

Lemma trim_fixed s : trimmed s -> trim s = s.
Proof.
  intros [H1 H2]. unfold trim, trim_end_by. rewrite (trim_start_fixed _ s) by done.
  by rewrite trim_start_fixed, rev_str_involutive.
Qed.

Lemma trim_idem s : trim (trim s) = trim s.
Proof. apply trim_fixed, trim_trimmed. Qed.

(** *** Digits at the end *)

Lemma all_chars_app f a b : all_chars f (a ++ b) = all_chars f a && all_chars f b.
Proof.
  induction a as [|c a IH]; [done|]. rewrite app_cons_str. simpl. by rewrite IH, andb_assoc.
Qed.

Lemma all_chars_impl (f g : ascii -> bool) s :
  (forall c, f c = true -> g c = true) -> all_chars f s = true -> all_chars g s = true.
Proof. intros Hfg. induction s as [|c s IH]; simpl; [done|]. intros ?; bool_norm. rewrite Hfg; auto. Qed.

Lemma show_uint_digits n : all_chars is_digit (show_uint n) = true /\ show_uint n <> EmptyString.
Proof.
  unfold show_uint, DecimalString.NilZero.string_of_uint. generalize (N.to_uint (Z.to_N n)). intros u.
  assert (all_chars is_digit (DecimalString.NilEmpty.string_of_uint u) = true) as Hu
    by (induction u; simpl; done).
  destruct u; by split.
Qed.

(** A non-empty string is its last character after the others. *)
Lemma string_last s : s <> EmptyString -> exists p c, s = p ++ String c EmptyString.
Proof.
  induction s as [|a s IH]; [done|intros _].
  destruct s as [|b s]; [by exists EmptyString, a|].
  destruct IH as (p & c & Hs); [done|]. exists (String a p), c. by rewrite app_cons_str, Hs.
Qed.

Lemma digit_not_whitespace c s :
  is_digit c = true -> strip_any (map rev_str whitespace) (String c s) = None.
Proof. destruct c as [[] [] [] [] [] [] [] []]; try discriminate; reflexivity. Qed.

(** Text that ends in digits has no white space at its end. *)
Lemma digits_end s d :
  all_chars is_digit d = true -> d <> EmptyString ->
  strip_any (map rev_str whitespace) (rev_str (s ++ d)) = None.
Proof.
  intros Hd (p & c & ->)%string_last.
  rewrite all_chars_app in Hd. apply andb_true_iff in Hd as [_ Hc]. simpl in Hc.
  rewrite andb_true_r in Hc. rewrite !rev_str_app. by apply digit_not_whitespace.
Qed.

Lemma split_once_Some c s l r : split_once c s = Some (l, r) -> s = l ++ String c r.
Proof.
  revert l. induction s as [|a s IH]; intros l; simpl; [done|].
  destruct (Ascii.eqb_spec a c) as [->|]; [by intros [= <- <-]|].
  destruct (split_once c s) as [[l' r']|]; [|done]. intros [= <- <-].
  rewrite app_cons_str. f_equal. by apply IH.
Qed.
