(* ===== verification/Work.v ===== *)
(** * Units of work: the task model ([src/crates/core/src/work.rs])

    [Task], its declared [Lifecycle] and the one exception by which an agent's
    exit moves it; rolled-up progress over a tree of tasks; completion by link.
    Ids are 128-bit uuids as [Z]; a fresh id and the current time are arguments
    of the operations that mint one or read the clock.  The recursion of
    [accumulate] is bounded by fuel, and the first theorem shows that the number
    of tasks is always enough on the trees the daemon builds. *)

From S2P Require Import Prelude.

Abbreviation uuid := Z.

Definition WORK_SCHEMA_VERSION : Z := 1.
Definition WORK_KEY_PREFIX : string := "work:".
Definition PLAN_KEY_PREFIX : string := "plan:".

Inductive Party : Type :=
| Human
| Agent (workspace : string) (session : option uuid)
| Lazybox.

Definition can_own (p : Party) : bool := match p with Lazybox => false | _ => true end.

Record TaskId : Type := mkTaskId { source : string; key : string }.

Inductive Link : Type :=
| LWorkspace (k : string)
| LTracker (id : TaskId)
| LUrl (url : string).

Inductive Lifecycle : Type :=
| Pending
| Underway
| AwaitingAnswer (question : string)
| Held (reason : string)
| Completed
| Failed (reason : string)
| Canceled.

#[export] Instance Party_eq_dec : EqDecision Party.
Proof. solve_decision. Defined.
#[export] Instance TaskId_eq_dec : EqDecision TaskId.
Proof. solve_decision. Defined.
#[export] Instance Link_eq_dec : EqDecision Link.
Proof. solve_decision. Defined.
#[export] Instance Lifecycle_eq_dec : EqDecision Lifecycle.
Proof. solve_decision. Defined.

Definition is_terminal (l : Lifecycle) : bool :=
  match l with Completed | Failed _ | Canceled => true | _ => false end.

Definition label (l : Lifecycle) : string :=
  match l with
  | Pending => "pending"
  | Underway => "underway"
  | AwaitingAnswer _ => "awaiting answer"
  | Held _ => "held"
  | Completed => "completed"
  | Failed _ => "failed"
  | Canceled => "canceled"
  end.

Record ArtifactRef : Type := mkArtifact { art_name : string; art_workspace : string }.
Record WorkResult : Type := mkWorkResult { summary : string; artifacts : list ArtifactRef }.
Record WorkEvent : Type := mkWorkEvent { at_ : Z; by_ : Party; change : string }.

Record TransitionRefused : Type := mkRefused { refused_from : Lifecycle; refused_to : Lifecycle }.

Record Task : Type := mkTask {
  id : uuid;
  plan : option uuid;
  parent : option uuid;
  title : string;
  brief : string;
  owner : option Party;
  requester : Party;
  links : list Link;
  lifecycle : Lifecycle;
  result : option WorkResult;
  history : list WorkEvent;
  schema : Z;
}.

Definition eta_task (t : Task) : Task :=
  mkTask (id t) (plan t) (parent t) (title t) (brief t) (owner t) (requester t) (links t)
    (lifecycle t) (result t) (history t) (schema t).

Definition set_plan (v : option uuid) (t : Task) : Task := ltac:(upd eta_task plan v t).
Definition set_parent (v : option uuid) (t : Task) : Task := ltac:(upd eta_task parent v t).
Definition set_brief (v : string) (t : Task) : Task := ltac:(upd eta_task brief v t).
Definition set_owner (v : option Party) (t : Task) : Task := ltac:(upd eta_task owner v t).
Definition set_links (v : list Link) (t : Task) : Task := ltac:(upd eta_task links v t).
Definition set_lifecycle (v : Lifecycle) (t : Task) : Task := ltac:(upd eta_task lifecycle v t).
Definition set_result (v : option WorkResult) (t : Task) : Task := ltac:(upd eta_task result v t).
Definition set_history (v : list WorkEvent) (t : Task) : Task := ltac:(upd eta_task history v t).

Definition new_task (fresh : uuid) (title_ : string) (by_ : Party) (now : Z) : Task :=
  mkTask fresh None None title_ EmptyString None by_ [] Pending None
    [mkWorkEvent now by_ "created"] WORK_SCHEMA_VERSION.

Definition record (to : Lifecycle) (by_ : Party) (now : Z) (cause : option string) (t : Task)
    : Task :=
  let change :=
    match cause with
    | Some cause =>
        (label (lifecycle t) ++ " → " ++ label to ++ " (" ++ cause ++ ")")%string
    | None => (label (lifecycle t) ++ " → " ++ label to)%string
    end in
  set_history (history t ++ [mkWorkEvent now by_ change]) t.

(** [Result<(), TransitionRefused>] with the task after the call. *)
Definition transition (to : Lifecycle) (by_ : Party) (now : Z) (t : Task)
    : Task + TransitionRefused :=
  if is_terminal (lifecycle t) then inr (mkRefused (lifecycle t) to)
  else inl (set_lifecycle to (record to by_ now None t)).

Definition complete (result_ : WorkResult) (by_ : Party) (now : Z) (t : Task)
    : Task + TransitionRefused :=
  match transition Completed by_ now t with
  | inr e => inr e
  | inl t => inl (set_result (Some result_) t)
  end.

Definition exit_reason : string := "the agent exited before reporting a result".

Definition fail_from_agent_exit (by_ : Party) (now : Z) (t : Task) : Task * bool :=
  if negb (bool_decide (lifecycle t = Underway)) then (t, false)
  else
    let to := Failed exit_reason in
    (set_lifecycle to (record to by_ now (Some "agent-exited") t), true).

Definition links_to (link : Link) (t : Task) : bool := bool_decide (link ∈ links t).

Record Plan : Type := mkPlan { plan_id : uuid; plan_title : string; plan_schema : Z }.

Record Progress : Type := mkProgress { done : Z; total : Z }.

Definition is_complete (p : Progress) : bool := (0 <? total p) && (done p =? total p).

(** One task's contribution to the roll-up. *)
Definition count_task (t : Task) (p : Progress) : Progress :=
  if bool_decide (lifecycle t = Canceled) then p
  else
    mkProgress (if bool_decide (lifecycle t = Completed) then done p + 1 else done p) (total p + 1).

Definition find_task (tasks : list Task) (i : uuid) : option Task :=
  List.find (fun t => bool_decide (id t = i)) tasks.

Definition children (tasks : list Task) (i : uuid) : list Task :=
  List.filter (fun other => bool_decide (parent other = Some i)) tasks.

(** [accumulate]; [None] when the fuel runs out. *)
Fixpoint accumulate (fuel : nat) (tasks : list Task) (i : uuid) (p : Progress) : option Progress :=
  match fuel with
  | O => None
  | S fuel =>
      match find_task tasks i with
      | None => Some p
      | Some task =>
          fold_left (fun acc child =>
              match acc with
              | Some p => accumulate fuel tasks (id child) p
              | None => None
              end)
            (children tasks i) (Some (count_task task p))
      end
  end.

Definition progress_fuel (tasks : list Task) : nat := S (length tasks).

Definition progress (tasks : list Task) (root : uuid) : option Progress :=
  accumulate (progress_fuel tasks) tasks root (mkProgress 0 0).

Definition plan_roots (tasks : list Task) (p : uuid) : list Task :=
  List.filter (fun t => bool_decide (plan t = Some p) && bool_decide (parent t = None)) tasks.

Definition plan_progress (tasks : list Task) (p : uuid) : option Progress :=
  fold_left (fun acc t =>
      match acc with
      | Some acc => accumulate (progress_fuel tasks) tasks (id t) acc
      | None => None
      end)
    (plan_roots tasks p) (Some (mkProgress 0 0)).

Definition add_member (members : list string) (link : Link) : list string :=
  match link with
  | LWorkspace k => if bool_decide (k ∈ members) then members else members ++ [k]
  | _ => members
  end.

Definition plan_members (tasks : list Task) (p : uuid) : list string :=
  fold_left (fun members t => fold_left add_member (links t) members)
    (List.filter (fun t => bool_decide (plan t = Some p)) tasks) [].

Definition describe (link : Link) : string :=
  match link with
  | LWorkspace k => k
  | LTracker i => (source i ++ ":" ++ key i)%string
  | LUrl url => url
  end.

Definition auto_result (link : Link) : WorkResult :=
  mkWorkResult ("completed automatically: " ++ describe link ++ " landed")%string [].

(** One turn of the loop of [complete_linked_to]: the task and the id moved. *)
Definition complete_if_linked (link : Link) (by_ : Party) (now : Z) (t : Task)
    : Task * option uuid :=
  if negb (links_to link t) || is_terminal (lifecycle t) then (t, None)
  else
    match complete (auto_result link) by_ now t with
    | inl t' => (t', Some (id t))
    | inr _ => (t, None)
    end.

Definition complete_linked_to (tasks : list Task) (link : Link) (by_ : Party) (now : Z)
    : list Task * list uuid :=
  let moved := map (complete_if_linked link by_ now) tasks in
  (map fst moved, omap snd moved).

(** ** Lookups *)

Lemma find_task_Some tasks i t : find_task tasks i = Some t -> t ∈ tasks /\ id t = i.
Proof.
  intros [Hin Hi]%find_some. apply bool_decide_eq_true in Hi. by rewrite list_elem_of_In.
Qed.

Lemma find_task_None tasks i t : find_task tasks i = None -> t ∈ tasks -> id t <> i.
Proof.
  intros Hn Hin%list_elem_of_In. apply (find_none _ _ Hn) in Hin.
  by apply bool_decide_eq_false in Hin.
Qed.

Lemma find_task_in tasks t : t ∈ tasks -> exists t', find_task tasks (id t) = Some t'.
Proof.
  intros Hin. destruct (find_task tasks (id t)) as [t'|] eqn:E; [by exists t'|].
  by destruct (find_task_None _ _ _ E Hin).
Qed.

Lemma elem_children tasks i t : t ∈ children tasks i <-> t ∈ tasks /\ parent t = Some i.
Proof.
  unfold children. rewrite !list_elem_of_In, filter_In, bool_decide_eq_true. done.
Qed.

(** ** Trees of tasks

    The rows form a forest: ids are unique and parents come before their
    children in some rank. *)
Record forest (tasks : list Task) : Prop := {
  f_ids : NoDup (map id tasks);
  f_rank : exists rank : uuid -> nat, forall t p pt,
    t ∈ tasks -> parent t = Some p -> pt ∈ tasks -> id pt = p -> (rank p < rank (id t))%nat;
}.

(** [i] is [root] or nested under it. *)
Inductive descends (tasks : list Task) (root : uuid) : uuid -> Prop :=
| descends_self : descends tasks root root
| descends_child t p :
    t ∈ tasks -> parent t = Some p -> descends tasks root p -> descends tasks root (id t).

Section forest.
Context (tasks : list Task) (rank : uuid -> nat).
Context (Hids : NoDup (map id tasks)).
Context (Hrank : forall t p pt,
  t ∈ tasks -> parent t = Some p -> pt ∈ tasks -> id pt = p -> (rank p < rank (id t))%nat).

Lemma id_inj t t' : t ∈ tasks -> t' ∈ tasks -> id t = id t' -> t = t'.
Proof.
  intros Ht Ht' Heq. apply list_elem_of_lookup in Ht as [i Hi], Ht' as [j Hj].
  assert (i = j) as ->; [|congruence].
  apply (NoDup_lookup (map id tasks) i j (id t)); [done| |rewrite Heq];
    rewrite list_lookup_fmap; by rewrite ?Hi, ?Hj.
Qed.

Lemma find_task_id t : t ∈ tasks -> find_task tasks (id t) = Some t.
Proof.
  intros Ht. destruct (find_task_in _ _ Ht) as [t' E]. rewrite E. f_equal.
  apply find_task_Some in E as [? ?]. by apply id_inj.
Qed.

Lemma descends_top r x :
  descends tasks r x ->
  x = r \/ exists c, c ∈ tasks /\ parent c = Some r /\ descends tasks (id c) x.
Proof.
  induction 1 as [|t p Ht Hp Hd [->|(c & Hc & Hr & IH)]]; [by left| |].
  - right. exists t. split_and!; [done|done|constructor].
  - right. exists c. split_and!; [done|done|]. by apply descends_child with p.
Qed.

(** The ranks compressed to positions below the number of rows. *)
Definition crank (i : uuid) : nat := length (List.filter (fun t => Nat.ltb (rank (id t)) (rank i)) tasks).

Lemma filter_length_le {A} (f g : A -> bool) l :
  (forall x, f x = true -> g x = true) ->
  (length (List.filter f l) <= length (List.filter g l))%nat.
Proof.
  intros Hfg. induction l as [|x l IH]; simpl; [lia|].
  destruct (f x) eqn:E; [rewrite (Hfg _ E); simpl; lia|]. destruct (g x); simpl; lia.
Qed.

Lemma filter_length_lt {A} (f g : A -> bool) l x :
  (forall x, f x = true -> g x = true) -> x ∈ l -> f x = false -> g x = true ->
  (length (List.filter f l) < length (List.filter g l))%nat.
Proof.
  intros Hfg Hx Hf Hg. induction Hx as [x l|x y l Hx IH]; simpl.
  - rewrite Hf, Hg. simpl. pose proof (filter_length_le f g l Hfg). lia.
  - specialize (IH Hf Hg). destruct (f y) eqn:E; [rewrite (Hfg _ E); simpl; lia|].
    destruct (g y); simpl; lia.
Qed.

Lemma crank_lt t p pt :
  t ∈ tasks -> parent t = Some p -> pt ∈ tasks -> id pt = p -> (crank p < crank (id t))%nat.
Proof.
  intros Ht Hp Hpt Hi. pose proof (Hrank t p pt Ht Hp Hpt Hi). unfold crank.
  apply filter_length_lt with pt; [|done| |].
  - intros x ?%Nat.ltb_lt. apply Nat.ltb_lt. lia.
  - apply Nat.ltb_ge. subst. lia.
  - apply Nat.ltb_lt. by subst.
Qed.

Lemma crank_le i : (crank i <= length tasks)%nat.
Proof. unfold crank. etrans; [apply List.filter_length_le|done]. Qed.

Lemma descends_crank r x t :
  t ∈ tasks -> id t = r -> descends tasks r x -> (crank r <= crank x)%nat.
Proof.
  intros Ht Hi. induction 1 as [|t' p Ht' Hp Hd IH]; [done|].
  assert (exists pt, pt ∈ tasks /\ id pt = p) as (pt & Hpt & Hpi)
    by (inversion Hd; subst; eauto).
  pose proof (crank_lt t' p pt Ht' Hp Hpt Hpi). lia.
Qed.

(** Two ancestors of a row are comparable. *)
Lemma descends_linear r1 r2 x :
  descends tasks r1 x -> descends tasks r2 x -> descends tasks r1 r2 \/ descends tasks r2 r1.
Proof.
  intros H1 H2. induction H1 as [|t p Ht Hp Hd IH]; [by right|].
  inversion H2 as [|t' p' Ht' Hp' Hd' Heq]; subst.
  - left. by apply descends_child with p.
  - assert (t' = t) as -> by (apply id_inj; done). simplify_eq. auto.
Qed.

(** The rows of a tree in the order [accumulate] visits them. *)
Fixpoint visit (fuel : nat) (i : uuid) : list Task :=
  match fuel with
  | O => []
  | S fuel =>
      match find_task tasks i with
      | None => []
      | Some t => t :: flat_map (fun c => visit fuel (id c)) (children tasks i)
      end
  end.

Definition deep_enough (fuel : nat) (i : uuid) : Prop := (length tasks < fuel + crank i)%nat.

Lemma deep_enough_child fuel i t c :
  find_task tasks i = Some t -> deep_enough (S fuel) i -> c ∈ children tasks i ->
  deep_enough fuel (id c).
Proof.
  intros [Ht Hi]%find_task_Some Hd [Hc Hp]%elem_children. unfold deep_enough in *.
  pose proof (crank_lt c i t Hc Hp Ht Hi). lia.
Qed.

Lemma deep_enough_fuel fuel i : deep_enough fuel i -> exists fuel', fuel = S fuel'.
Proof.
  unfold deep_enough. pose proof (crank_le i). destruct fuel; [lia|by eexists].
Qed.

Lemma accumulate_visit fuel i p :
  deep_enough fuel i ->
  accumulate fuel tasks i p = Some (fold_left (fun p t => count_task t p) (visit fuel i) p).
Proof.
  revert i p. induction fuel as [|fuel IH]; intros i p Hd.
  { by destruct (deep_enough_fuel _ _ Hd). }
  simpl. destruct (find_task tasks i) as [t|] eqn:Ht; [|done]. simpl.
  assert (Forall (fun c => deep_enough fuel (id c)) (children tasks i)) as Hcs
    by (apply Forall_forall; eauto using deep_enough_child).
  generalize (count_task t p). induction Hcs as [|c cs Hc Hcs IHcs]; intros q; simpl; [done|].
  rewrite IH by done. rewrite fold_left_app. apply IHcs.
Qed.

Lemma elem_visit fuel i t t0 :
  deep_enough fuel i -> find_task tasks i = Some t0 ->
  t ∈ visit fuel i <-> t ∈ tasks /\ descends tasks i (id t).
Proof.
  revert i t0. induction fuel as [|fuel IH]; intros i t0 Hd Hi.
  { by destruct (deep_enough_fuel _ _ Hd). }
  simpl. rewrite Hi. destruct (find_task_Some _ _ _ Hi) as [Hin <-].
  rewrite elem_of_cons, list_elem_of_In, in_flat_map. split.
  - intros [->|(c & Hc%list_elem_of_In & Ht%list_elem_of_In)]; [split; [done|constructor]|].
    pose proof (deep_enough_child _ _ _ _ Hi Hd Hc) as Hdc.
    apply elem_children in Hc as [Hc Hp].
    apply (IH (id c) c Hdc (find_task_id c Hc)) in Ht as [Ht Hdesc]. split; [done|].
    clear -Hdesc Hc Hp. induction Hdesc as [|t' p' Ht' Hp' Hd' IH].
    + apply descends_child with (id t0); [done|done|constructor].
    + by apply descends_child with p'.
  - intros [Ht [Heq|(c & Hc & Hp & Hdesc)]%descends_top].
    + left. by apply id_inj.
    + right. exists c. assert (c ∈ children tasks (id t0)) as Hcc by by apply elem_children.
      rewrite <- !list_elem_of_In. split; [done|].
      apply (IH (id c) c); [by eapply deep_enough_child|by apply find_task_id|done].
Qed.

(** Two rows of one generation have no descendant in common. *)
Lemma descends_siblings c1 c2 x :
  c1 ∈ tasks -> c2 ∈ tasks -> parent c1 = parent c2 ->
  descends tasks (id c1) x -> descends tasks (id c2) x -> c1 = c2.
Proof.
  assert (forall c1 c2, c1 ∈ tasks -> c2 ∈ tasks -> parent c1 = parent c2 ->
    descends tasks (id c1) (id c2) -> c1 = c2) as Hone.
  { intros d1 d2 H1 H2 Hp Hd. inversion Hd as [Heq|t p Ht Hpt Hd' Heq]; [by apply id_inj|].
    assert (t = d2) as -> by (apply id_inj; done).
    pose proof (descends_crank (id d1) p d1 H1 eq_refl Hd') as Hle.
    assert (exists pt, pt ∈ tasks /\ id pt = p) as (pt & Hin & Hpi)
      by (inversion Hd'; subst; eauto).
    rewrite Hpt in Hp. pose proof (crank_lt d1 p pt H1 Hp Hin Hpi). lia. }
  intros H1 H2 Hp Hd1 Hd2. destruct (descends_linear _ _ _ Hd1 Hd2) as [Hd|Hd].
  - by apply Hone.
  - symmetry. by apply Hone.
Qed.

Lemma NoDup_tasks : NoDup tasks.
Proof. by eapply NoDup_fmap_1. Qed.

(** The trees under the members of a generation are listed without repetition. *)
Lemma NoDup_flat_visit fuel cs :
  NoDup cs -> Forall (fun c => c ∈ tasks /\ deep_enough fuel (id c) /\ NoDup (visit fuel (id c))) cs ->
  (forall c1 c2, c1 ∈ cs -> c2 ∈ cs -> parent c1 = parent c2) ->
  NoDup (flat_map (fun c => visit fuel (id c)) cs).
Proof.
  intros Hnd Hcs Hsib. induction Hcs as [|c cs (Hc & Hd & Hv) Hcs IH]; simpl; [constructor|].
  apply NoDup_cons in Hnd as [Hnin Hnd]. apply NoDup_app. split_and!; [done| |].
  - intros x Hx Hx'. apply list_elem_of_In, in_flat_map in Hx' as (c' & Hc' & Hx').
    rewrite <- !list_elem_of_In in *. rewrite Forall_forall in Hcs.
    destruct (Hcs c' Hc') as (Hin' & Hd' & _).
    apply (elem_visit _ _ _ c Hd (find_task_id c Hc)) in Hx as [_ Hx].
    apply (elem_visit _ _ _ c' Hd' (find_task_id c' Hin')) in Hx' as [_ Hx'].
    assert (c = c') as -> by (eapply descends_siblings; eauto; apply Hsib; set_solver). done.
  - apply IH; [done|]. intros c1 c2 ? ?. apply Hsib; set_solver.
Qed.

Lemma NoDup_visit fuel i : deep_enough fuel i -> NoDup (visit fuel i).
Proof.
  revert i. induction fuel as [|fuel IH]; intros i Hd; [by destruct (deep_enough_fuel _ _ Hd)|].
  simpl. destruct (find_task tasks i) as [t|] eqn:Hi; [|constructor].
  assert (Forall (fun c => c ∈ tasks /\ deep_enough fuel (id c) /\ NoDup (visit fuel (id c)))
    (children tasks i)) as Hcs.
  { apply Forall_forall. intros c Hc. pose proof (deep_enough_child _ _ _ _ Hi Hd Hc).
    apply elem_children in Hc as [Hc _]. auto. }
  constructor.
  - intros (c & Hc & Hx)%list_elem_of_In%in_flat_map. rewrite <- !list_elem_of_In in *.
    rewrite Forall_forall in Hcs. destruct (Hcs c Hc) as (Hin & Hdc & _).
    apply elem_children in Hc as [_ Hp]. destruct (find_task_Some _ _ _ Hi) as [Hin' Hid].
    apply (elem_visit _ _ _ c Hdc (find_task_id c Hin)) in Hx as [_ Hx].
    pose proof (descends_crank _ _ c Hin eq_refl Hx). pose proof (crank_lt c i t Hin Hp Hin' Hid).
    rewrite Hid in *. lia.
  - apply NoDup_flat_visit; [|done|].
    + apply NoDup_ListNoDup, List.NoDup_filter, NoDup_ListNoDup, NoDup_tasks.
    + intros c1 c2 [_ ->]%elem_children [_ ->]%elem_children. done.
Qed.

Lemma deep_enough_top i : deep_enough (progress_fuel tasks) i.
Proof. unfold deep_enough, progress_fuel. lia. Qed.

End forest.

(** ** The roll-up *)

Definition counts (l : list Task) : Progress :=
  mkProgress
    (Z.of_nat (length (List.filter (fun t => bool_decide (lifecycle t = Completed)) l)))
    (Z.of_nat (length (List.filter (fun t => negb (bool_decide (lifecycle t = Canceled))) l))).

Lemma fold_count_task l p :
  fold_left (fun p t => count_task t p) l p
  = mkProgress (done p + done (counts l)) (total p + total (counts l)).
Proof.
  revert p. induction l as [|t l IH]; intros p; simpl; [destruct p; simpl; f_equal; lia|].
  rewrite IH. unfold count_task, counts. simpl.
  destruct (lifecycle t); simpl; f_equal; lia.
Qed.

Lemma counts_cons t l :
  counts (t :: l)
  = mkProgress
      ((if bool_decide (lifecycle t = Completed) then 1 else 0) + done (counts l))
      ((if bool_decide (lifecycle t = Canceled) then 0 else 1) + total (counts l)).
Proof. unfold counts. simpl. destruct (lifecycle t); simpl; f_equal; lia. Qed.

Lemma counts_le l : 0 <= done (counts l) <= total (counts l).
Proof.
  induction l as [|t l IH]; [done|]. rewrite counts_cons. cbn [done total].
  repeat case_bool_decide; congruence || lia.
Qed.

Lemma counts_live l : 0 < total (counts l) <-> exists t, t ∈ l /\ lifecycle t <> Canceled.
Proof.
  induction l as [|t l IH]; [split; [done|set_solver]|].
  rewrite counts_cons. cbn [done total].
  pose proof (counts_le l). case_bool_decide as Hc.
  - rewrite Z.add_0_l, IH. set_solver.
  - split; [intros _; exists t; set_solver|lia].
Qed.

Lemma counts_finished l :
  done (counts l) = total (counts l)
  <-> forall t, t ∈ l -> lifecycle t = Canceled \/ lifecycle t = Completed.
Proof.
  induction l as [|t l IH]; [split; [set_solver|done]|].
  rewrite counts_cons. cbn [done total]. pose proof (counts_le l).
  assert ((forall t', t' ∈ t :: l -> lifecycle t' = Canceled \/ lifecycle t' = Completed)
    <-> (lifecycle t = Canceled \/ lifecycle t = Completed) /\
        forall t', t' ∈ l -> lifecycle t' = Canceled \/ lifecycle t' = Completed) as ->.
  { split; [intros Ht; split; [apply Ht; set_solver|intros; apply Ht; set_solver]|].
    intros [? Ht] t' [->|?]%elem_of_cons; auto. }
  rewrite <- IH. repeat case_bool_decide; naive_solver (congruence || lia).
Qed.

Lemma counts_complete l :
  is_complete (counts l) = true
  <-> (exists t, t ∈ l /\ lifecycle t <> Canceled)
      /\ forall t, t ∈ l -> lifecycle t = Canceled \/ lifecycle t = Completed.
Proof.
  unfold is_complete. by rewrite andb_true_iff, Z.ltb_lt, Z.eqb_eq, counts_live, counts_finished.
Qed.

(** The rows in the trees of [p]'s roots. *)
Definition in_plan_tree (tasks : list Task) (p : uuid) (t : Task) : Prop :=
  t ∈ tasks /\ exists r, r ∈ tasks /\ plan r = Some p /\ parent r = None
                         /\ descends tasks (id r) (id t).

Lemma elem_plan_roots tasks p r :
  r ∈ plan_roots tasks p <-> r ∈ tasks /\ plan r = Some p /\ parent r = None.
Proof.
  unfold plan_roots. rewrite !list_elem_of_In, filter_In, andb_true_iff, !bool_decide_eq_true. done.
Qed.

(** the progress of a plan is counted over exactly its trees.  On any
    forest of tasks the recursion terminates within the fuel, visits every task of the
    trees of the plan's roots once, and nothing else, and reports the completed
    ones among those that are not canceled; so the plan reads complete exactly
    when it has a live task and no live task is unfinished. *)
Theorem plan_progress_counts_its_trees tasks p :
  forest tasks ->
  exists l, NoDup l /\ (forall t, t ∈ l <-> in_plan_tree tasks p t)
    /\ plan_progress tasks p = Some (counts l)
    /\ (is_complete (counts l) = true <->
        (exists t, t ∈ l /\ lifecycle t <> Canceled)
        /\ forall t, t ∈ l -> lifecycle t = Canceled \/ lifecycle t = Completed).
Proof.
  intros [Hids [rank Hrank]]. set (fuel := progress_fuel tasks).
  exists (flat_map (fun r => visit tasks fuel (id r)) (plan_roots tasks p)).
  assert (Forall (fun r => r ∈ tasks) (plan_roots tasks p)) as Hroots
    by (apply Forall_forall; intros r Hr; by apply elem_plan_roots in Hr as [? _]).
  assert (forall i, deep_enough tasks rank fuel i) as Hdeep by (intros; by apply deep_enough_top).
  split_and!.
  - apply (NoDup_flat_visit tasks rank Hids Hrank).
    + apply NoDup_ListNoDup, List.NoDup_filter, NoDup_ListNoDup, NoDup_tasks, Hids.
    + eapply Forall_impl; [exact Hroots|]. intros r Hr. split_and!; [done|done|].
      by apply (NoDup_visit tasks rank Hids Hrank).
    + intros r1 r2 (_ & _ & ->)%elem_plan_roots (_ & _ & ->)%elem_plan_roots. done.
  - intros t. rewrite list_elem_of_In, in_flat_map. unfold in_plan_tree. split.
    + intros (r & Hr%list_elem_of_In%elem_plan_roots & Ht%list_elem_of_In).
      destruct Hr as (Hr & Hp & Hpar).
      apply (elem_visit tasks rank Hids Hrank _ _ _ r (Hdeep _)) in Ht as [? ?];
        [naive_solver|by apply find_task_id].
    + intros (Ht & r & Hr & Hp & Hpar & Hd). exists r. rewrite <- !list_elem_of_In.
      rewrite elem_plan_roots. split; [done|].
      apply (elem_visit tasks rank Hids Hrank _ _ _ r (Hdeep _)); [by apply find_task_id|done].
  - unfold plan_progress. fold fuel.
    assert (forall l acc, fold_left (fun acc t =>
        match acc with Some acc => accumulate fuel tasks (id t) acc | None => None end) l (Some acc)
      = Some (fold_left (fun p t => count_task t p)
                (flat_map (fun r => visit tasks fuel (id r)) l) acc)) as ->.
    { induction l as [|r l IH]; intros acc; cbn [fold_left flat_map]; [done|].
      rewrite (accumulate_visit tasks rank Hrank) by done. rewrite fold_left_app. apply IH. }
    by rewrite fold_count_task.
  - apply counts_complete.
Qed.

Definition demo_tasks : list Task :=
  [ set_plan (Some 9) (new_task 1 "root" Human 0);
    set_lifecycle Completed (set_parent (Some 1) (new_task 2 "done child" Human 0));
    set_lifecycle Canceled (set_parent (Some 1) (new_task 3 "canceled child" Human 0));
    set_lifecycle Completed (set_parent (Some 2) (new_task 4 "nested" Human 0)) ].

Lemma plan_progress_counts_its_trees_witness :
  plan_progress demo_tasks 9 = Some (mkProgress 2 3)
  /\ exists l, plan_progress demo_tasks 9 = Some (counts l).
Proof.
  split; [vm_compute; reflexivity|].
  destruct (plan_progress_counts_its_trees demo_tasks 9) as (l & _ & _ & H & _).
  - split.
    + vm_compute. repeat (constructor; [set_solver|]). constructor.
    + exists Z.to_nat. intros t p pt Ht. vm_compute in Ht.
      repeat (apply elem_of_cons in Ht as [->|Ht]; [simpl; intros [= <-] _ _; lia|]).
      by apply elem_of_nil in Ht.
  - exists l. exact H.
Defined.
