(* ===== verification/TaskRef.v ===== *)
(** * References to tracker records ([src/crates/core/src/task_ref.rs]) and the
    links of a work call ([src/crates/server/src/work_calls.rs])

    [parse_task_ref] maps what a human or an agent wrote onto the id the provider
    mints, and [parse_link] the accepted forms of a work link.  The theorem is
    that every link the daemon accepts survives its own rendering. *)

From Stdlib Require Import String Ascii.
From S2P Require Import Prelude Text Work.

#[global] Open Scope Z_scope.
#[local] Open Scope string_scope.

Definition GITHUB_SOURCE : string := "github".
Definition LINEAR_SOURCE : string := "linear".

Definition strip_host (raw host : string) : option string :=
  let rest :=
    match strip_prefix "https://" raw with
    | Some rest => rest
    | None => default raw (strip_prefix "http://" raw)
    end in
  let rest := default rest (strip_prefix "www." rest) in
  match strip_prefix host rest with
  | Some rest => strip_prefix "/" rest
  | None => None
  end.

Definition github_task_id (repo number : string) : option TaskId :=
  let repo := trim_end_matches ".git" (trim repo) in
  match split_once "/" repo with
  | None => None
  | Some (owner, name) =>
      let well_formed :=
        negb (is_empty owner) && negb (is_empty name)
        && negb (existsb (Ascii.eqb "/") (list_ascii_of_string name))
        && is_ws_free repo in
      if negb well_formed then None
      else
        match parse_u64 (trim number) with
        | None => None
        | Some number =>
            Some (mkTaskId GITHUB_SOURCE (owner ++ "/" ++ name ++ "#" ++ show_uint number))
        end
  end.

Definition linear_identifier (raw : string) : option TaskId :=
  match split_once "-" raw with
  | None => None
  | Some (team, number) =>
      let team_ok := negb (is_empty team) && all_chars is_ascii_alphanumeric team in
      if negb team_ok || is_empty number || negb (all_chars is_digit number) then None
      else Some (mkTaskId LINEAR_SOURCE (to_ascii_uppercase team ++ "-" ++ number))
  end.

Definition url_path (path : string) : string :=
  before (fun c => Ascii.eqb c "?" || Ascii.eqb c "#") path.

Definition github_from_url_path (path : string) : option TaskId :=
  match split "/" (url_path path) with
  | owner :: repo :: kind :: rest =>
      if negb (String.eqb kind "issues" || String.eqb kind "pull") then None
      else
        match rest with
        | number :: _ => github_task_id (owner ++ "/" ++ repo) number
        | [] => None
        end
  | _ => None
  end.

Definition linear_from_url_path (path : string) : option TaskId :=
  match split "/" (url_path path) with
  | _ :: issue :: identifier :: _ =>
      if String.eqb issue "issue" then linear_identifier identifier else None
  | _ => None
  end.

Definition parse_task_ref (input : string) (default_repo : option string) : option TaskId :=
  let raw := trim_matches ["<"; ">"; "`"] (trim input) in
  if is_empty raw then None
  else
    match strip_host raw "github.com" with
    | Some path => github_from_url_path path
    | None =>
        match strip_host raw "linear.app" with
        | Some path => linear_from_url_path path
        | None =>
            match split_once "#" raw with
            | Some (EmptyString, number) =>
                match default_repo with Some repo => github_task_id repo number | None => None end
            | Some (repo, number) => github_task_id repo number
            | None =>
                match parse_u64 raw with
                | Some _ =>
                    match default_repo with Some repo => github_task_id repo raw | None => None end
                | None => linear_identifier raw
                end
            end
        end
    end.

(** ** Links of a work call *)

Inductive WorkError : Type := BadRequest (message : string) | Unavailable (message : string).

Definition source_prefixed (raw : string) : option TaskId :=
  match split_once ":" raw with
  | None => None
  | Some (source, key) =>
      if is_empty key then None
      else if String.eqb source GITHUB_SOURCE || String.eqb source LINEAR_SOURCE
      then Some (mkTaskId source key)
      else None
  end.

Definition parse_link (raw : string) : Link + WorkError :=
  let raw := trim raw in
  match strip_prefix "ws:" raw with
  | Some k =>
      if is_empty k then inr (BadRequest "`ws:` with no workspace key after it")
      else inl (LWorkspace k)
  | None =>
      match source_prefixed raw with
      | Some id => inl (LTracker id)
      | None =>
          match parse_task_ref raw None with
          | Some id => inl (LTracker id)
          | None =>
              if starts_with "http://" raw || starts_with "https://" raw then inl (LUrl raw)
              else inr (BadRequest "cannot read this as a link")
          end
      end
  end.

Definition link_label (link : Link) : string :=
  match link with
  | LWorkspace k => "ws:" ++ k
  | LTracker id => source id ++ ":" ++ key id
  | LUrl url => url
  end.

(** ** Lifecycles of a work call *)

Definition normalized (name : string) : string := to_ascii_lowercase (trim name).

Definition is_completion (name : string) : bool :=
  existsb (String.eqb (normalized name)) ["completed"; "complete"; "done"].

Definition parse_lifecycle (name : string) (detail : option string) : Lifecycle + WorkError :=
  let detail := trim (default EmptyString detail) in
  let n := normalized name in
  if String.eqb n "pending" then inl Pending
  else if existsb (String.eqb n) ["underway"; "working"; "in-progress"] then inl Underway
  else if existsb (String.eqb n) ["awaiting-answer"; "awaiting_answer"; "input-required"] then
    if is_empty detail
    then inr (BadRequest "awaiting-answer needs `detail`: the question you are waiting on")
    else inl (AwaitingAnswer detail)
  else if existsb (String.eqb n) ["held"; "blocked"] then
    if is_empty detail then inr (BadRequest "held needs `detail`: what is blocking it")
    else inl (Held detail)
  else if String.eqb n "failed" then
    inl (Failed (if is_empty detail then "no reason given" else detail))
  else if existsb (String.eqb n) ["canceled"; "cancelled"] then inl Canceled
  else if existsb (String.eqb n) ["completed"; "complete"; "done"] then
    inr (BadRequest "a completion needs a `summary`")
  else inr (BadRequest "unknown lifecycle").

Example parse_url : parse_task_ref " <https://www.github.com/a/b/pull/12/files#x> " None
  = Some (mkTaskId "github" "a/b#12").
Proof. vm_compute. reflexivity. Qed.

Example parse_short : parse_task_ref "#7" (Some "a/b") = Some (mkTaskId "github" "a/b#7").
Proof. vm_compute. reflexivity. Qed.

Example parse_linear : parse_task_ref "eng-45" None = Some (mkTaskId "linear" "ENG-45").
Proof. vm_compute. reflexivity. Qed.

Example parse_bad : parse_task_ref "a b/c#7" None = None.
Proof. vm_compute. reflexivity. Qed.

(** ** Round trip *)

(** The shape of the ids the parser mints. *)
Inductive minted : TaskId -> Prop :=
| minted_github x d :
    all_chars is_digit d = true -> d <> EmptyString ->
    minted (mkTaskId GITHUB_SOURCE (x ++ "#" ++ d))
| minted_linear x d :
    all_chars is_digit d = true -> d <> EmptyString ->
    minted (mkTaskId LINEAR_SOURCE (x ++ "-" ++ d)).

Lemma github_task_id_minted repo number i : github_task_id repo number = Some i -> minted i.
Proof.
  unfold github_task_id. intros H. repeat case_match; simplify_eq.
  match goal with |- context [show_uint ?n] => destruct (show_uint_digits n) end.
  rewrite <- !app_assoc_str. rewrite app_assoc_str. by apply minted_github.
Qed.

Lemma linear_identifier_minted raw i : linear_identifier raw = Some i -> minted i.
Proof.
  unfold linear_identifier. intros H. repeat case_match; simplify_eq. bool_norm.
  apply minted_linear; [done|]. by destruct s0.
Qed.

Lemma parse_task_ref_minted input repo i : parse_task_ref input repo = Some i -> minted i.
Proof.
  unfold parse_task_ref, github_from_url_path, linear_from_url_path. intros H.
  repeat case_match; simplify_eq;
    eauto using github_task_id_minted, linear_identifier_minted.
Qed.

Lemma minted_trimmed i : minted i -> trimmed (link_label (LTracker i)).
Proof.
  intros [x d Hd Hne|x d Hd Hne]; unfold link_label; simpl; (split; [reflexivity|]);
    rewrite <- !app_assoc_str; by apply digits_end.
Qed.

Lemma minted_prefixed i : minted i -> source_prefixed (link_label (LTracker i)) = Some i.
Proof.
  intros [x d Hd Hne|x d Hd Hne]; unfold source_prefixed, link_label; simpl.
  - change (split_once ":" _) with (Some (GITHUB_SOURCE, x ++ "#" ++ d)). by destruct x.
  - change (split_once ":" _) with (Some (LINEAR_SOURCE, x ++ "-" ++ d)). by destruct x.
Qed.

Lemma source_prefixed_label raw i : source_prefixed raw = Some i -> link_label (LTracker i) = raw.
Proof.
  unfold source_prefixed. intros H. repeat case_match; simplify_eq. simpl.
  match goal with H : split_once _ _ = _ |- _ => apply split_once_Some in H as -> end. done.
Qed.

(** every link the daemon accepts survives its own rendering.  Whatever a
    caller wrote, if it parses to a link then the text the daemon prints for that
    link parses back to the same link -- so the link an agent reads from a row and
    passes on matches the row's when the record lands. *)
Theorem parse_link_round_trip raw link :
  parse_link raw = inl link -> parse_link (link_label link) = inl link.
Proof.
  unfold parse_link at 1. destruct (strip_prefix "ws:" (trim raw)) as [k|] eqn:Hws.
  { destruct (is_empty k) eqn:Hk; [done|]. intros [= <-]. simpl.
    apply strip_prefix_Some in Hws. rewrite <- Hws. unfold parse_link. rewrite trim_idem, Hws.
    by rewrite strip_prefix_app, Hk. }
  destruct (source_prefixed (trim raw)) as [i|] eqn:Hsrc.
  { intros [= <-]. rewrite (source_prefixed_label _ _ Hsrc). unfold parse_link.
    by rewrite trim_idem, Hws, Hsrc. }
  destruct (parse_task_ref (trim raw) None) as [i|] eqn:Href.
  { intros [= <-]. apply parse_task_ref_minted in Href. unfold parse_link.
    rewrite (trim_fixed _ (minted_trimmed i Href)), (minted_prefixed i Href).
    by destruct Href. }
  destruct (_ || _) eqn:Hurl; [|done]. intros [= <-]. simpl. unfold parse_link.
  by rewrite trim_idem, Hws, Hsrc, Href, Hurl.
Qed.

Lemma parse_link_round_trip_witness :
  parse_link " https://github.com/acme/widget/issues/7 "
    = inl (LTracker (mkTaskId "github" "acme/widget#7"))
  /\ parse_link "github:acme/widget#7" = inl (LTracker (mkTaskId "github" "acme/widget#7")).
Proof.
  split; [vm_compute; reflexivity|].
  apply (parse_link_round_trip " https://github.com/acme/widget/issues/7 "
    (LTracker (mkTaskId "github" "acme/widget#7"))).
  vm_compute. reflexivity.
Defined.
