(* ===== verification/WorkStore.v ===== *)
(** * The task and plan store ([src/crates/server/src/work_store.rs]) and its verbs
    ([src/crates/server/src/work_calls.rs])

    [Store] is the daemon's storage trait ([src/crates/store/src/traits.rs]) as
    an interface: its operations and, in [StoreLaws], what the daemon relies on.
    [MemoryStore] ([src/crates/store/src/mock.rs]) discharges the laws.  The rows
    are JSON in the code; serde is a parameter ([encode], [decode]), as are the
    rendering of a uuid and the delivery of a brief to an agent's terminal.  The
    operations return the store they leave, or an error that leaves it alone. *)

From Stdlib Require Import String.
From S2P Require Import Prelude Text Work TaskRef.

#[global] Open Scope Z_scope.

Inductive StoreError : Type :=
| Backend (message : string)
| NotFound (message : string)
| Unsupported (operation : string).

Inductive StoreMutation (Raw : Type) : Type :=
| SetKv (k : string) (value : Raw)
| DeleteKv (k : string)
| SaveWorkspace (k : string) (workspace_json : option Raw)
| DeleteWorkspace (k : string)
| SaveProject (k : string) (project_json : option Raw)
| DeleteProject (k : string).
Arguments SetKv {Raw} k value.
Arguments DeleteKv {Raw} k.
Arguments SaveWorkspace {Raw} k workspace_json.
Arguments DeleteWorkspace {Raw} k.
Arguments SaveProject {Raw} k project_json.
Arguments DeleteProject {Raw} k.

Class Store (S Raw : Type) := {
  get_kv : S -> string -> option Raw + StoreError;
  set_kv : S -> string -> Raw -> S + StoreError;
  delete_kv : S -> string -> S + StoreError;
  list_kv_prefix : S -> string -> list (string * Raw) + StoreError;
  apply_batch : S -> list (StoreMutation Raw) -> S + StoreError;
}.

(** A batch of plain writes on a map. *)
Definition put_all {Raw} (rows : list (string * Raw)) (kv : gmap string Raw) : gmap string Raw :=
  fold_left (fun kv row => <[row.1 := row.2]> kv) rows kv.

(** What the daemon relies on: the rows the store holds are a map, reads and
    listings report it, writes change just the rows they name. *)
Class StoreLaws (S Raw : Type) `{Store S Raw} := {
  rows_of : S -> gmap string Raw;
  get_kv_ok s k v : get_kv s k = inl v -> v = rows_of s !! k;
  set_kv_ok s k v s' : set_kv s k v = inl s' -> rows_of s' = <[k := v]> (rows_of s);
  delete_kv_ok s k s' : delete_kv s k = inl s' -> rows_of s' = delete k (rows_of s);
  list_kv_ok s p rows :
    list_kv_prefix s p = inl rows ->
    NoDup (map fst rows)
    /\ forall k v, (k, v) ∈ rows <-> rows_of s !! k = Some v /\ starts_with p k = true;
  apply_batch_ok s rows s' :
    apply_batch s (map (fun row => SetKv row.1 row.2) rows) = inl s' ->
    rows_of s' = put_all rows (rows_of s);
}.

(** ** The in-memory backend *)
Section memory.
Context {Raw : Type} (raw_is_empty : Raw -> bool).

Inductive Op : Type := OpInsert (k : string) (v : Raw) | OpRemove (k : string).

(** [WorkspaceRecord::require_json] and [ProjectRecord::require_json] *)
Definition require_json (what k : string) (json : option Raw) : Raw + StoreError :=
  match json with
  | Some json =>
      if raw_is_empty json
      then inr (Backend (what ++ " " ++ k ++ ": refusing to persist an empty JSON payload"))
      else inl json
  | None => inr (Backend (what ++ " " ++ k ++ ": refusing to persist an empty JSON payload"))
  end.

Definition resolve (m : StoreMutation Raw) : Op + StoreError :=
  match m with
  | SetKv k v => inl (OpInsert k v)
  | DeleteKv k => inl (OpRemove k)
  | SaveWorkspace k json =>
      match require_json "workspace" k json with
      | inl v => inl (OpInsert ("workspace:" ++ k) v)
      | inr e => inr e
      end
  | DeleteWorkspace k => inl (OpRemove ("workspace:" ++ k))
  | SaveProject k json =>
      match require_json "project" k json with
      | inl v => inl (OpInsert ("project:" ++ k) v)
      | inr e => inr e
      end
  | DeleteProject k => inl (OpRemove ("project:" ++ k))
  end.

Fixpoint resolve_all (ms : list (StoreMutation Raw)) : list Op + StoreError :=
  match ms with
  | [] => inl []
  | m :: ms =>
      match resolve m with
      | inr e => inr e
      | inl op => match resolve_all ms with inl ops => inl (op :: ops) | inr e => inr e end
      end
  end.

Definition run_op (kv : gmap string Raw) (op : Op) : gmap string Raw :=
  match op with OpInsert k v => <[k := v]> kv | OpRemove k => delete k kv end.

Definition key_le (a b : string * Raw) : Prop := String.leb a.1 b.1 = true.

#[export] Instance key_le_dec : RelDecision key_le.
Proof. intros a b. unfold key_le. apply _. Defined.

Definition memory_store : Store (gmap string Raw) Raw := {|
  get_kv kv k := inl (kv !! k);
  set_kv kv k v := inl (<[k := v]> kv);
  delete_kv kv k := inl (delete k kv);
  list_kv_prefix kv p :=
    inl (merge_sort key_le
           (List.filter (fun row => starts_with p row.1) (map_to_list kv)));
  apply_batch kv ms :=
    match resolve_all ms with
    | inl ops => inl (fold_left run_op ops kv)
    | inr e => inr e
    end;
|}.

Lemma resolve_all_puts (rows : list (string * Raw)) :
  resolve_all (map (fun row => SetKv row.1 row.2) rows)
  = inl (map (fun row => OpInsert row.1 row.2) rows).
Proof. induction rows as [|row rows IH]; simpl; [done|]. by rewrite IH. Qed.

#[refine] Definition memory_laws : @StoreLaws (gmap string Raw) Raw memory_store := {|
  rows_of := fun kv => kv;
|}.
Proof.
  - intros s k v [= <-]. done.
  - intros s k v s' [= <-]. done.
  - intros s k s' [= <-]. done.
  - intros s p rows [= <-]. split.
    + apply (NoDup_Permutation_proper _ (map fst (List.filter (fun row => starts_with p row.1)
        (map_to_list s)))); [by apply Permutation_map, merge_sort_Permutation|].
      pose proof (NoDup_fst_map_to_list s) as Hnd. unfold fmap in Hnd.
      induction (map_to_list s) as [|[k v] l IH]; simpl in *; [constructor|].
      apply NoDup_cons in Hnd as [Hk Hnd]. destruct (starts_with p k); simpl; [|by apply IH].
      constructor; [|by apply IH]. intros Hin. apply Hk.
      apply list_elem_of_In, in_map_iff in Hin as ([k' v'] & Hk' & Hin).
      apply filter_In in Hin as [Hin _]. simpl in Hk'. subst.
      apply list_elem_of_In, in_map_iff. exists (k, v'). by split.
    + intros k v. rewrite merge_sort_Permutation, list_elem_of_In, filter_In, <- list_elem_of_In,
        elem_of_map_to_list. done.
  - intros s rows s'. simpl. rewrite resolve_all_puts. intros [= <-].
    unfold put_all. revert s. induction rows as [|row rows IH]; intros s; simpl; [done|]. apply IH.
Defined.

End memory.

(** ** The work store *)
Section work_store.
Context {S Raw : Type} `{Store S Raw}.
Context (encode_task : Task -> option Raw) (decode_task : Raw -> option Task).
Context (encode_plan : Plan -> option Raw) (decode_plan : Raw -> option Plan).
Context (render : uuid -> string).

Definition storage_key (i : uuid) : string := (WORK_KEY_PREFIX ++ render i)%string.
Definition plan_storage_key (i : uuid) : string := (PLAN_KEY_PREFIX ++ render i)%string.

Definition encode_row (t : Task) : Raw + StoreError :=
  match encode_task t with Some v => inl v | None => inr (Backend "encode work row") end.

Definition load_task (store : S) (i : uuid) : option Task + StoreError :=
  match get_kv store (storage_key i) with
  | inr e => inr e
  | inl None => inl None
  | inl (Some raw) => inl (decode_task raw)
  end.

Definition save_task (store : S) (t : Task) : S + StoreError :=
  match encode_row t with
  | inr e => inr e
  | inl value => set_kv store (storage_key (id t)) value
  end.

Fixpoint encode_rows (ts : list Task) : list (string * Raw) + StoreError :=
  match ts with
  | [] => inl []
  | t :: ts =>
      match encode_row t with
      | inr e => inr e
      | inl v =>
          match encode_rows ts with
          | inl rows => inl ((storage_key (id t), v) :: rows)
          | inr e => inr e
          end
      end
  end.

Definition save_tasks (store : S) (ts : list Task) : S + StoreError :=
  match ts with
  | [] => inl store
  | _ =>
      match encode_rows ts with
      | inr e => inr e
      | inl rows => apply_batch store (map (fun row => SetKv row.1 row.2) rows)
      end
  end.

Definition delete_task (store : S) (i : uuid) : S + StoreError := delete_kv store (storage_key i).

Definition all_tasks (store : S) : list Task * Z + StoreError :=
  match list_kv_prefix store WORK_KEY_PREFIX with
  | inr e => inr e
  | inl rows =>
      let tasks := omap (fun row => decode_task row.2) rows in
      inl (tasks, Z.of_nat (length rows) - Z.of_nat (length tasks))
  end.

(** The readers: every row of the store satisfying a test. *)
Definition tasks_where (f : Task -> bool) (store : S) : list Task + StoreError :=
  match all_tasks store with
  | inr e => inr e
  | inl (tasks, _) => inl (List.filter f tasks)
  end.

Definition party_workspace (p : Party) : option string :=
  match p with Agent workspace _ => Some workspace | Human | Lazybox => None end.

Definition owner_workspace (t : Task) : option string :=
  match owner t with Some p => party_workspace p | None => None end.

Definition tasks_for_plan (store : S) (p : uuid) : list Task + StoreError :=
  tasks_where (fun t => bool_decide (plan t = Some p)) store.

Definition tasks_owned_by (store : S) (workspace : string) : list Task + StoreError :=
  tasks_where (fun t => bool_decide (owner_workspace t = Some workspace)) store.

Definition tasks_requested_by (store : S) (workspace : string) : list Task + StoreError :=
  tasks_where (fun t => bool_decide (party_workspace (requester t) = Some workspace)) store.

Definition tasks_linked_to (store : S) (link : Link) : list Task + StoreError :=
  tasks_where (links_to link) store.

(** Write back the tasks that moved, if any. *)
Definition save_moved (store : S) (ts : list Task) (moved : list uuid) : S * list uuid + StoreError :=
  match moved with
  | [] => inl (store, [])
  | _ =>
      match save_tasks store (List.filter (fun t => bool_decide (id t ∈ moved)) ts) with
      | inl store => inl (store, moved)
      | inr e => inr e
      end
  end.

Definition store_complete_linked_to (store : S) (link : Link) (by_ : Party) (now : Z)
    : S * list uuid + StoreError :=
  match all_tasks store with
  | inr e => inr e
  | inl (tasks, _) =>
      let '(tasks, moved) := complete_linked_to tasks link by_ now in
      save_moved store tasks moved
  end.

Definition fail_if (f : Task -> bool) (by_ : Party) (now : Z) (t : Task) : Task * option uuid :=
  if negb (f t) then (t, None)
  else
    match fail_from_agent_exit by_ now t with
    | (t', true) => (t', Some (id t))
    | (t', false) => (t', None)
    end.

Definition fail_underway_for_exit (store : S) (workspace : string) (by_ : Party) (now : Z)
    : S * list uuid + StoreError :=
  match tasks_owned_by store workspace with
  | inr e => inr e
  | inl owned =>
      let moved := map (fail_if (fun _ => true) by_ now) owned in
      save_moved store (map fst moved) (omap snd moved)
  end.

Definition STRANDED_GRACE : Z := secs 600.

Definition is_stranded (t : Task) (now grace : Z) (has_live_agent : string -> bool) : bool :=
  if negb (bool_decide (lifecycle t = Underway)) then false
  else
    match owner_workspace t with
    | None => false
    | Some workspace =>
        if has_live_agent workspace then false
        else
          match last (history t) with
          | None => false
          | Some event => grace <? now - at_ event
          end
    end.

Definition sweep_stranded (store : S) (now grace : Z) (has_live_agent : string -> bool)
    : S * list uuid + StoreError :=
  match all_tasks store with
  | inr e => inr e
  | inl (tasks, _) =>
      let moved :=
        map (fail_if (fun t => is_stranded t now grace has_live_agent) Lazybox now) tasks in
      save_moved store (map fst moved) (omap snd moved)
  end.

Definition load_plan (store : S) (i : uuid) : option Plan + StoreError :=
  match get_kv store (plan_storage_key i) with
  | inr e => inr e
  | inl None => inl None
  | inl (Some raw) => inl (decode_plan raw)
  end.

Definition save_plan (store : S) (p : Plan) : S + StoreError :=
  match encode_plan p with
  | None => inr (Backend "encode plan")
  | Some value => set_kv store (plan_storage_key (plan_id p)) value
  end.

Definition all_plans (store : S) : list Plan + StoreError :=
  match list_kv_prefix store PLAN_KEY_PREFIX with
  | inr e => inr e
  | inl rows => inl (omap (fun row => decode_plan row.2) rows)
  end.

Definition plan_status (store : S) (p : uuid) : option Progress * list string + StoreError :=
  match all_tasks store with
  | inr e => inr e
  | inl (tasks, _) => inl (plan_progress tasks p, plan_members tasks p)
  end.

(** ** The verbs *)

Definition MAX_BRIEF_BYTES : Z := 4000.

Inductive WorkDelivery : Type :=
| Delivered (workspace : string)
| Queued (workspace : string)
| DeliveryRefused (reason : string)
| Skipped (reason : string).

Record CreateArgs : Type := mkCreate {
  c_requester : string;
  c_title : string;
  c_brief : string;
  c_owner : option string;
  c_deliver : bool;
  c_plan : option string;
  c_parent : option string;
  c_links : list string;
}.

Definition party (session_key : string) : Party := Agent session_key None.

Definition add_link (link : Link) (t : Task) : Task :=
  if bool_decide (link ∈ links t) then t else set_links (links t ++ [link]) t.

Fixpoint add_links (raws : list string) (t : Task) : Task + WorkError :=
  match raws with
  | [] => inl t
  | raw :: raws =>
      match parse_link raw with
      | inr e => inr e
      | inl link => add_links raws (add_link link t)
      end
  end.

Context (parse_uuid : string -> option uuid).
Context (deliver_brief : string -> string -> Task -> WorkDelivery).

Definition resolve_plan (store : S) (raw : option string) (t : Task) : Task + WorkError :=
  match raw with
  | None => inl t
  | Some raw =>
      match parse_uuid (trim raw) with
      | None => inr (BadRequest "not a plan id")
      | Some i =>
          match load_plan store i with
          | inr _ => inr (Unavailable "store")
          | inl None => inr (BadRequest "no such plan")
          | inl (Some _) => inl (set_plan (Some i) t)
          end
      end
  end.

Definition resolve_parent (store : S) (raw : option string) (t : Task) : Task + WorkError :=
  match raw with
  | None => inl t
  | Some raw =>
      match parse_uuid (trim raw) with
      | None => inr (BadRequest "not a work id")
      | Some i =>
          match load_task store i with
          | inr _ => inr (Unavailable "store")
          | inl None => inr (BadRequest "no work to nest under")
          | inl (Some found) =>
              let t := set_parent (Some i) t in
              inl (match plan t with None => set_plan (plan found) t | Some _ => t end)
          end
      end
  end.

(** [create] for the fresh id and the time; the second component is the reply. *)
Definition create (fresh : uuid) (now : Z) (args : CreateArgs) (store : S)
    : S * (Task * option WorkDelivery + WorkError) :=
  let title := trim (c_title args) in
  if is_empty title then (store, inr (BadRequest "work needs a title"))
  else if MAX_BRIEF_BYTES <? Z.of_nat (String.length (c_brief args)) then
    (store, inr (BadRequest "brief exceeds the limit"))
  else
    let t := new_task fresh title (party (c_requester args)) now in
    let t := set_brief (trim (c_brief args)) t in
    match resolve_plan store (c_plan args) t with
    | inr e => (store, inr e)
    | inl t =>
        match resolve_parent store (c_parent args) t with
        | inr e => (store, inr e)
        | inl t =>
            match add_links (c_links args) t with
            | inr e => (store, inr e)
            | inl t =>
                let t :=
                  match c_owner args with
                  | None => t
                  | Some owner => add_link (LWorkspace owner) (set_owner (Some (party owner)) t)
                  end in
                match save_task store t with
                | inr _ => (store, inr (Unavailable "store"))
                | inl store =>
                    match c_owner args, c_deliver args with
                    | Some owner, deliver =>
                        if String.eqb owner (c_requester args)
                        then (store, inl (t, Some (Skipped "the owner is the caller")))
                        else if deliver
                        then (store, inl (t, Some (deliver_brief (c_requester args) owner t)))
                        else (store, inl (t, Some (Skipped "deliver=false")))
                    | None, true =>
                        (store, inr (BadRequest "deliver=true needs an `owner` to deliver to"))
                    | None, false => (store, inl (t, None))
                    end
                end
            end
        end
    end.

Record UpdateArgs : Type := mkUpdate {
  u_by : string;
  u_id : string;
  u_lifecycle : string;
  u_detail : option string;
  u_summary : option string;
  u_artifacts : list string;
}.

(** The move an update asks for. *)
Definition update_task (now : Z) (args : UpdateArgs) (t : Task) : Task + WorkError :=
  let by_ := party (u_by args) in
  let moved :=
    if is_completion (u_lifecycle args) then
      let summary_ := trim (default EmptyString (u_summary args)) in
      if is_empty summary_ then inr (BadRequest "a completion needs a `summary`")
      else
        inl (complete (mkWorkResult summary_
               (map (fun name => mkArtifact (trim name) (u_by args)) (u_artifacts args))) by_ now t)
    else
      match parse_lifecycle (u_lifecycle args) (u_detail args) with
      | inr e => inr e
      | inl to => inl (transition to by_ now t)
      end in
  match moved with
  | inr e => inr e
  | inl (inr refused) =>
      inr (BadRequest ("a " ++ label (refused_from refused)
             ++ " task rejects further work (asked for " ++ label (refused_to refused) ++ ")"))
  | inl (inl t) => inl t
  end.

Definition update (now : Z) (args : UpdateArgs) (store : S) : S * (Task + WorkError) :=
  match parse_uuid (trim (u_id args)) with
  | None => (store, inr (BadRequest "not a work id"))
  | Some i =>
      match load_task store i with
      | inr _ => (store, inr (Unavailable "store"))
      | inl None => (store, inr (BadRequest "no work"))
      | inl (Some t) =>
          match update_task now args t with
          | inr e => (store, inr e)
          | inl t =>
              match save_task store t with
              | inr _ => (store, inr (Unavailable "store"))
              | inl store => (store, inl t)
              end
          end
      end
  end.

(** The three lists of [my_work]. *)
Record Mine : Type := mkMine {
  m_mine : list Task;
  m_waiting : list Task;
  m_unassigned : list Task;
}.

Definition mine (store : S) (workspace : string) (include_done : bool) : Mine + WorkError :=
  match tasks_owned_by store workspace with
  | inr _ => inr (Unavailable "store")
  | inl owned =>
      match tasks_requested_by store workspace with
      | inr _ => inr (Unavailable "store")
      | inl requested =>
          let rows := List.filter (fun t => include_done || negb (is_terminal (lifecycle t))) in
          inl (mkMine (rows owned)
            (rows (List.filter (fun t =>
               match owner_workspace t with
               | Some owner => negb (String.eqb owner workspace)
               | None => false
               end) requested))
            (rows (List.filter (fun t => bool_decide (owner_workspace t = None)) requested)))
      end
  end.

End work_store.
