(* ===== verification/WorkStoreProps.v ===== *)
(** * The task and plan store: theorems

    The sections share what the daemon relies on: a store that obeys
    [StoreLaws], a codec that reads back what it wrote, uuids that render
    injectively.  The witnesses instantiate them with the in-memory backend. *)

From Stdlib Require Import String.
From stdpp Require Import pretty.
From S2P Require Import Prelude Text Work TaskRef WorkStore.

#[global] Open Scope Z_scope.

(** ** Codec and keys *)
Section props.
Context {S Raw : Type} `{StoreLaws S Raw}.
Context (encode_task : Task -> option Raw) (decode_task : Raw -> option Task).
Context (encode_plan : Plan -> option Raw) (decode_plan : Raw -> option Plan).
Context (render : uuid -> string).
Context (codec : forall t raw, encode_task t = Some raw -> decode_task raw = Some t).
Context (render_inj : forall i j, render i = render j -> i = j).

Abbreviation storage_key := (storage_key render).

(** The decodable row of an id. *)
Definition row (s : S) (i : uuid) : option Task :=
  match rows_of s !! storage_key i with Some raw => decode_task raw | None => None end.

(** Every decodable row is stored under its own id. *)
Definition well_keyed (s : S) : Prop :=
  forall k raw t, rows_of s !! k = Some raw -> starts_with WORK_KEY_PREFIX k = true ->
    decode_task raw = Some t -> k = storage_key (id t).

Lemma storage_key_inj i j : storage_key i = storage_key j -> i = j.
Proof.
  unfold WorkStore.storage_key. intros Heq. apply render_inj.
  assert (H0' := strip_prefix_app WORK_KEY_PREFIX (render i)).
  rewrite Heq, strip_prefix_app in H0'. congruence.
Qed.

Lemma storage_key_prefix i : starts_with WORK_KEY_PREFIX (storage_key i) = true.
Proof. unfold starts_with, WorkStore.storage_key. by rewrite strip_prefix_app. Qed.

(** ** Listing *)

Lemma all_tasks_row s ts n t :
  well_keyed s -> all_tasks decode_task s = inl (ts, n) ->
  t ∈ ts <-> row s (id t) = Some t.
Proof.
  intros Hk. unfold all_tasks. destruct (list_kv_prefix s _) as [rows|] eqn:E; [|done].
  intros [= <- _]. destruct (list_kv_ok s _ rows E) as [_ Hrows].
  rewrite list_elem_of_omap. unfold row. split.
  - intros ([k raw] & Hin & Ht). simpl in Ht. apply Hrows in Hin as [Hk' Hp].
    pose proof (Hk k raw t Hk' Hp Ht) as ->. by rewrite Hk'.
  - destruct (rows_of s !! storage_key (id t)) as [raw|] eqn:Er; [|done]. intros Ht.
    exists (storage_key (id t), raw). split; [|done]. apply Hrows. split; [done|].
    apply storage_key_prefix.
Qed.

Lemma all_tasks_NoDup s ts n :
  well_keyed s -> all_tasks decode_task s = inl (ts, n) -> NoDup (map id ts).
Proof.
  intros Hk. unfold all_tasks. destruct (list_kv_prefix s _) as [rows|] eqn:E; [|done].
  intros [= <- _]. destruct (list_kv_ok s _ rows E) as [Hnd Hrows].
  assert (Forall (fun r => forall t, decode_task r.2 = Some t -> r.1 = storage_key (id t)) rows)
    as Hall.
  { apply Forall_forall. intros [k raw] Hin t Ht. apply Hrows in Hin as [? ?].
    by apply (Hk k raw t). }
  clear Hrows E. induction Hall as [|[k raw] rows Hr Hall IH]; simpl; [constructor|].
  simpl in Hnd. apply NoDup_cons in Hnd as [Hnin Hnd]. specialize (IH Hnd).
  destruct (decode_task raw) as [t|] eqn:Et; [|done]. simpl. constructor; [|done].
  intros (t' & Hid & Hin)%list_elem_of_In%in_map_iff. apply list_elem_of_In in Hin.
  apply list_elem_of_omap in Hin as ([k' raw'] & Hin & Ht'). simpl in Ht'.
  rewrite Forall_forall in Hall. pose proof (Hall _ Hin t' Ht') as Hk'. simpl in Hk'.
  apply Hnin. apply list_elem_of_In, in_map_iff. exists (k', raw').
  split; [|by apply list_elem_of_In]. simpl. rewrite Hk', Hid. symmetry. by apply Hr.
Qed.

(** ** Writing *)

Lemma put_all_lookup (rows : list (string * Raw)) kv k :
  NoDup (map fst rows) ->
  put_all rows kv !! k
  = match List.find (fun r => bool_decide (r.1 = k)) rows with
    | Some r => Some r.2
    | None => kv !! k
    end.
Proof.
  unfold put_all. revert kv. induction rows as [|[k' v] rows IH]; intros kv Hnd; simpl; [done|].
  simpl in Hnd. apply NoDup_cons in Hnd as [Hnin Hnd]. rewrite IH by done.
  case_bool_decide as Hkk; subst.
  - destruct (List.find _ rows) as [[k'' v']|] eqn:Ef; [|by rewrite lookup_insert_eq].
    apply find_some in Ef as [Hin Hkk]. apply bool_decide_eq_true in Hkk. simpl in Hkk. subst.
    exfalso. apply Hnin. apply list_elem_of_In, in_map_iff. by exists (k, v').
  - destruct (List.find _ rows); [done|]. by rewrite lookup_insert_ne.
Qed.

Lemma encode_rows_keys ts rows :
  encode_rows encode_task render ts = inl rows ->
  Forall2 (fun t r => r.1 = storage_key (id t) /\ encode_task t = Some r.2) ts rows.
Proof.
  revert rows. induction ts as [|t ts IH]; intros rows; simpl; [by intros [= <-]|].
  unfold encode_row. destruct (encode_task t) as [v|] eqn:E; [|done].
  destruct (encode_rows _ _ ts) as [rows'|]; [|done]. intros [= <-]. constructor; [done|auto].
Qed.

(** Saving a list of tasks with distinct ids replaces just their rows. *)
Lemma save_tasks_rows s ts s' :
  NoDup (map id ts) -> save_tasks encode_task render s ts = inl s' ->
  (forall t, t ∈ ts -> row s' (id t) = Some t)
  /\ (forall k, (forall t, t ∈ ts -> k <> storage_key (id t)) -> rows_of s' !! k = rows_of s !! k).
Proof.
  intros Hnd. unfold save_tasks. destruct ts as [|t0 ts0] eqn:Ets.
  { intros [= <-]. split; [|done]. by intros t ?%elem_of_nil. }
  rewrite <- Ets in *. clear Ets t0 ts0.
  destruct (encode_rows _ _ ts) as [rows|] eqn:E; [|done].
  intros Hb%apply_batch_ok. apply encode_rows_keys in E.
  assert (map fst rows = map (fun t => storage_key (id t)) ts) as Hkeys
    by (clear -E; induction E as [|t r ts rows [Hk _] E IH]; simpl; [done|by rewrite Hk, IH]).
  assert (NoDup (map fst rows)) as Hndk.
  { rewrite Hkeys. rewrite <- (map_map id storage_key). apply NoDup_fmap_2; [|done].
    intros i j. apply storage_key_inj. }
  split.
  - intros t Hin. unfold row. rewrite Hb, put_all_lookup by done.
    apply list_elem_of_lookup in Hin as [n Hn].
    destruct (Forall2_lookup_l _ _ _ _ _ E Hn) as (r & Hr & Hrk & Hre).
    destruct (List.find _ rows) as [r'|] eqn:Ef.
    + apply find_some in Ef as [Hin' Hk']. apply bool_decide_eq_true in Hk'.
      apply list_elem_of_In, list_elem_of_lookup in Hin' as [m Hm].
      assert (n = m) as <-; [|by simplify_eq; apply codec].
      apply (NoDup_lookup (map fst rows) n m (storage_key (id t)) Hndk);
        rewrite list_lookup_fmap; by rewrite ?Hr, ?Hm; simpl; congruence.
    + exfalso. pose proof (find_none _ _ Ef r) as Hno. apply list_elem_of_lookup_2 in Hr.
      apply list_elem_of_In, Hno, bool_decide_eq_false in Hr. congruence.
  - intros k Hk. rewrite Hb, put_all_lookup by done.
    destruct (List.find _ rows) as [r|] eqn:Ef; [|done].
    apply find_some in Ef as [Hin Hrk]. apply bool_decide_eq_true in Hrk.
    apply list_elem_of_In, list_elem_of_lookup in Hin as [n Hn].
    destruct (Forall2_lookup_r _ _ _ _ _ E Hn) as (t & Ht & Hk' & _).
    exfalso. apply (Hk t); [by eapply list_elem_of_lookup_2|congruence].
Qed.

(** *** One pass over the rows

    [f] moves some of the selected tasks and says which. *)
Record mover (f : Task -> Task * option uuid) : Prop := {
  mv_id t : id (f t).1 = id t;
  mv_none t : (f t).2 = None -> (f t).1 = t;
  mv_some t i : (f t).2 = Some i -> i = id t;
  mv_parent t : parent (f t).1 = parent t;
  mv_terminal t : is_terminal (lifecycle t) = true -> (f t).1 = t;
}.

(** The selected tasks: the rows satisfying [g], once each. *)
Definition selects (s : S) (g : Task -> bool) (sel : list Task) : Prop :=
  NoDup (map id sel) /\ forall t, t ∈ sel <-> row s (id t) = Some t /\ g t = true.

(** What a pass does to the store. *)
Record passed (f : Task -> Task * option uuid) (g : Task -> bool) (s s' : S) (moved : list uuid)
    : Prop := {
  ps_keyed : well_keyed s';
  ps_rows i : row s' i = (fun t => if g t then (f t).1 else t) <$> row s i;
  ps_moved i : i ∈ moved <-> exists t, row s i = Some t /\ g t = true /\ is_Some (f t).2;
  ps_other k : (forall i, i ∈ moved -> k <> storage_key i) -> rows_of s' !! k = rows_of s !! k;
}.

Lemma row_id s i t : well_keyed s -> row s i = Some t -> id t = i.
Proof.
  intros Hk. unfold row. destruct (rows_of s !! storage_key i) as [raw|] eqn:E; [|done].
  intros Ht. apply storage_key_inj. symmetry. apply (Hk _ raw); [done|apply storage_key_prefix|done].
Qed.

Lemma moved_ids f sel i :
  mover f -> i ∈ omap snd (map f sel) <-> exists t, t ∈ sel /\ id t = i /\ is_Some (f t).2.
Proof.
  intros Hf. rewrite list_elem_of_omap. split.
  - intros ([t' o] & Hin & Ho). simpl in Ho. apply list_elem_of_In, in_map_iff in Hin as (t & Ht & Hin).
    apply list_elem_of_In in Hin. exists t. split; [done|]. subst. rewrite Ht. simpl.
    split; [|done]. symmetry. apply (mv_some f Hf). by rewrite Ht.
  - intros (t & Hin & <- & [j Hj]). exists (f t). split.
    + apply list_elem_of_In, in_map_iff. exists t. split; [done|]. by apply list_elem_of_In.
    + rewrite Hj. f_equal. by apply (mv_some f Hf).
Qed.

(** The tasks a pass writes back. *)
Definition changed (f : Task -> Task * option uuid) (sel : list Task) : list Task :=
  List.filter (fun t => bool_decide (id t ∈ omap snd (map f sel))) (map fst (map f sel)).

Lemma save_moved_saves f s sel s' moved :
  save_moved encode_task render s (map fst (map f sel)) (omap snd (map f sel)) = inl (s', moved) ->
  moved = omap snd (map f sel) /\ save_tasks encode_task render s (changed f sel) = inl s'.
Proof.
  unfold save_moved, changed. destruct (omap snd (map f sel)) as [|i l] eqn:Em.
  - intros [= <- <-]. split; [done|]. assert (forall l : list Task,
      List.filter (fun t => bool_decide (id t ∈ [])) l = []) as ->; [|done].
    clear. by induction l.
  - destruct (save_tasks _ _ s _) eqn:E; [|done]. by intros [= <- <-].
Qed.

Lemma elem_changed f g s sel t' :
  mover f -> selects s g sel ->
  t' ∈ changed f sel <-> exists t, t ∈ sel /\ t' = (f t).1 /\ is_Some (f t).2.
Proof.
  intros Hf [_ Hsel]. unfold changed.
  rewrite list_elem_of_In, filter_In, bool_decide_eq_true, (moved_ids f sel _ Hf), map_map, in_map_iff.
  split.
  - intros [(t & <- & Hin%list_elem_of_In) (t2 & Hin2 & Hid & Hs2)]. exists t.
    assert (t2 = t) as ->; [|done].
    rewrite (mv_id f Hf) in Hid. apply Hsel in Hin as [Hr _]. apply Hsel in Hin2 as [Hr2 _].
    rewrite Hid in Hr2. congruence.
  - intros (t & Hin & -> & Hmv). split; [exists t; split; [done|by apply list_elem_of_In]|].
    exists t. by rewrite (mv_id f Hf).
Qed.

Lemma NoDup_filter_ids (p : Task -> bool) l : NoDup (map id l) -> NoDup (map id (List.filter p l)).
Proof.
  intros Hl. induction l as [|t l IH]; simpl in *; [constructor|].
  apply NoDup_cons in Hl as [Hn Hl]. destruct (p t); [|by apply IH]. simpl.
  constructor; [|by apply IH]. intros Hin. apply Hn.
  apply list_elem_of_In, in_map_iff in Hin as (t2 & ? & [Hin _]%filter_In).
  apply list_elem_of_In, in_map_iff. by exists t2.
Qed.

Lemma NoDup_changed f sel : mover f -> NoDup (map id sel) -> NoDup (map id (changed f sel)).
Proof.
  intros Hf Hnd. unfold changed. apply NoDup_filter_ids.
  assert (map id (map fst (map f sel)) = map id sel) as ->; [|done].
  rewrite !map_map. apply map_ext. apply (mv_id f Hf).
Qed.

(** Rows that agree off the moved ids, and hold the moved task at them. *)
Lemma passed_rows f g s s' (moved : list uuid) :
  mover f -> well_keyed s ->
  (forall i, i ∈ moved <-> exists t, row s i = Some t /\ g t = true /\ is_Some (f t).2) ->
  (forall i t, i ∈ moved -> row s i = Some t -> row s' i = Some (f t).1) ->
  (forall k, (forall i, i ∈ moved -> k <> storage_key i) -> rows_of s' !! k = rows_of s !! k) ->
  forall i, row s' i = (fun t => if g t then (f t).1 else t) <$> row s i.
Proof.
  intros Hf Hk Hmoved Hrows Hsame i. destruct (decide (i ∈ moved)) as [Hin|Hnin].
  - pose proof Hin as (t & Hr & Hg & Hmv)%Hmoved. rewrite Hr. simpl. rewrite Hg. by apply Hrows.
  - transitivity (row s i).
    + unfold row. rewrite Hsame; [done|]. intros j Hj ->%storage_key_inj. done.
    + destruct (row s i) as [t|] eqn:Hr; [|done]. simpl. destruct (g t) eqn:Hg; [|done].
      f_equal. symmetry. apply (mv_none f Hf). destruct (f t).2 eqn:Ef; [|done].
      exfalso. apply Hnin, Hmoved. exists t. split_and!; [done|done|by rewrite Ef].
Qed.

Lemma passed_keyed f g s s' (moved : list uuid) :
  mover f -> well_keyed s ->
  (forall i, i ∈ moved <-> exists t, row s i = Some t /\ g t = true /\ is_Some (f t).2) ->
  (forall i, row s' i = (fun t => if g t then (f t).1 else t) <$> row s i) ->
  (forall k, (forall i, i ∈ moved -> k <> storage_key i) -> rows_of s' !! k = rows_of s !! k) ->
  well_keyed s'.
Proof.
  intros Hf Hk Hmoved Hrow Hsame k raw t Hk' Hp Ht.
  destruct (decide (Exists (fun i => k = storage_key i) moved)) as [Hex|Hno].
  - apply Exists_exists in Hex as (i & Hin & ->). pose proof (Hrow i) as Hri.
    apply Hmoved in Hin as (t0 & Hr & Hg & _). rewrite Hr in Hri. simpl in Hri. rewrite Hg in Hri.
    unfold row in Hri. rewrite Hk', Ht in Hri. injection Hri as ->.
    rewrite (mv_id f Hf). f_equal. symmetry. by apply (row_id s).
  - apply (Hk k raw); [|done|done]. rewrite <- Hsame; [done|].
    intros i Hin ->. apply Hno, Exists_exists. by exists i.
Qed.

Lemma save_moved_passes f g s sel s' moved :
  mover f -> well_keyed s -> selects s g sel ->
  save_moved encode_task render s (map fst (map f sel)) (omap snd (map f sel)) = inl (s', moved) ->
  passed f g s s' moved.
Proof.
  intros Hf Hk Hselects [-> Hs]%save_moved_saves. pose proof Hselects as [Hnd Hsel].
  destruct (save_tasks_rows s _ s' (NoDup_changed f sel Hf Hnd) Hs) as [Hrows Hother].
  set (moved := omap snd (map f sel)).
  assert (forall i, i ∈ moved <-> exists t, row s i = Some t /\ g t = true /\ is_Some (f t).2)
    as Hmoved.
  { intros i. unfold moved. rewrite (moved_ids f sel i Hf). split.
    - intros (t & Hin & <- & ?). apply Hsel in Hin as [? ?]. by exists t.
    - intros (t & Hr & Hg & ?). exists t. pose proof (row_id _ _ _ Hk Hr) as <-.
      rewrite Hsel. done. }
  assert (forall k, (forall i, i ∈ moved -> k <> storage_key i) -> rows_of s' !! k = rows_of s !! k)
    as Hsame.
  { intros k Hn. apply Hother. intros t' (t & Hin & -> & Hmv)%(elem_changed f g s sel _ Hf Hselects).
    rewrite (mv_id f Hf). apply Hn. apply (moved_ids f sel _ Hf). by exists t. }
  assert (forall i, row s' i = (fun t => if g t then (f t).1 else t) <$> row s i) as Hrow.
  { apply (passed_rows f g s s' moved); [done..| |done]. intros i t Hin Hr.
    pose proof (row_id _ _ _ Hk Hr) as <-. rewrite <- (mv_id f Hf t).
    apply Hrows, (elem_changed f g s sel _ Hf Hselects). exists t. split; [|split; [done|]];
      apply Hmoved in Hin as (t2 & Hr2 & Hg & Hmv); simplify_eq; [by apply Hsel|done]. }
  split; [by eapply passed_keyed|done..].
Qed.

(** ** The passes of the daemon *)

(** A move keeps the row's identity and place. *)
Lemma transition_place to by_ now t t' :
  transition to by_ now t = inl t' ->
  id t' = id t /\ parent t' = parent t /\ is_terminal (lifecycle t) = false.
Proof. unfold transition. case_match; [done|]. by intros [= <-]. Qed.

Lemma complete_place r by_ now t t' :
  complete r by_ now t = inl t' ->
  id t' = id t /\ parent t' = parent t /\ is_terminal (lifecycle t) = false.
Proof.
  unfold complete. destruct (transition _ _ _ t) as [u|] eqn:E; [|done]. intros [= <-].
  by apply transition_place in E.
Qed.

Lemma complete_if_linked_mover link by_ now : mover (complete_if_linked link by_ now).
Proof.
  split; intros t; unfold complete_if_linked; destruct (_ || _) eqn:Eo; try done;
    destruct (complete _ _ _ t) as [t'|] eqn:E; try done; simpl.
  - by apply complete_place in E as [? _].
  - by intros i [= <-].
  - by apply complete_place in E as (_ & ? & _).
  - apply complete_place in E as (_ & _ & E). congruence.
Qed.

Lemma fail_if_mover f by_ now : mover (fail_if f by_ now).
Proof.
  split; intros t; unfold fail_if, fail_from_agent_exit; destruct (negb (f t)); try done;
    destruct (bool_decide (lifecycle t = Underway)) eqn:E; try done.
  - by intros i [= <-].
  - apply bool_decide_eq_true in E. by rewrite E.
Qed.

(** What a landing makes of a linked, open task. *)
Lemma complete_if_linked_open link by_ now t :
  links_to link t = true -> is_terminal (lifecycle t) = false ->
  is_Some (complete_if_linked link by_ now t).2
  /\ lifecycle (complete_if_linked link by_ now t).1 = Completed
  /\ links (complete_if_linked link by_ now t).1 = links t
  /\ result (complete_if_linked link by_ now t).1 = Some (auto_result link).
Proof.
  intros Hl Ho. unfold complete_if_linked, complete, transition. rewrite Hl, Ho. done.
Qed.

Lemma complete_if_linked_other link by_ now t :
  links_to link t && negb (is_terminal (lifecycle t)) = false ->
  complete_if_linked link by_ now t = (t, None).
Proof.
  intros Hf. unfold complete_if_linked.
  destruct (links_to link t), (is_terminal (lifecycle t)); done.
Qed.

Lemma all_tasks_selects s ts n :
  well_keyed s -> all_tasks decode_task s = inl (ts, n) -> selects s (fun _ => true) ts.
Proof.
  intros Hk Ha. split; [by eapply all_tasks_NoDup|]. intros t.
  rewrite (all_tasks_row s ts n t Hk Ha). tauto.
Qed.

Lemma filter_selects s g g' sel :
  selects s g sel -> selects s (fun t => g t && g' t) (List.filter g' sel).
Proof.
  intros [Hnd Hsel]. split.
  - by apply NoDup_filter_ids.
  - intros t. rewrite list_elem_of_In, filter_In, <- list_elem_of_In, Hsel, andb_true_iff. tauto.
Qed.

Lemma landing_passes s link by_ now s' moved :
  well_keyed s ->
  store_complete_linked_to encode_task decode_task render s link by_ now = inl (s', moved) ->
  passed (complete_if_linked link by_ now) (fun _ => true) s s' moved.
Proof.
  intros Hk. unfold store_complete_linked_to, complete_linked_to.
  destruct (all_tasks decode_task s) as [[ts n]|] eqn:E; [|done].
  apply save_moved_passes; [apply complete_if_linked_mover|done|by eapply all_tasks_selects].
Qed.

Lemma exit_passes s workspace by_ now s' moved :
  well_keyed s ->
  fail_underway_for_exit encode_task decode_task render s workspace by_ now = inl (s', moved) ->
  passed (fail_if (fun _ => true) by_ now)
    (fun t => true && bool_decide (owner_workspace t = Some workspace)) s s' moved.
Proof.
  intros Hk. unfold fail_underway_for_exit, tasks_owned_by, tasks_where.
  destruct (all_tasks decode_task s) as [[ts n]|] eqn:E; [|done].
  apply save_moved_passes; [apply fail_if_mover|done|].
  apply (filter_selects s (fun _ => true)). by eapply all_tasks_selects.
Qed.

Lemma sweep_passes s now grace live s' moved :
  well_keyed s ->
  sweep_stranded encode_task decode_task render s now grace live = inl (s', moved) ->
  passed (fail_if (fun t => is_stranded t now grace live) Lazybox now) (fun _ => true) s s' moved.
Proof.
  intros Hk. unfold sweep_stranded.
  destruct (all_tasks decode_task s) as [[ts n]|] eqn:E; [|done].
  apply save_moved_passes; [apply fail_if_mover|done|by eapply all_tasks_selects].
Qed.

(** when a change lands, exactly its open tasks are completed.  Every open
    task linked to it becomes completed with the automatic result, every other
    row -- unlinked, already finished, undecodable, of another kind -- is left as
    it was, the ids reported are those that moved; and delivering the same
    landing again, whenever and on whoever's behalf, moves nothing. *)
Theorem landing_completes_linked_tasks s link by_ now s' moved :
  well_keyed s ->
  store_complete_linked_to encode_task decode_task render s link by_ now = inl (s', moved) ->
  (forall i t, row s i = Some t ->
     if links_to link t && negb (is_terminal (lifecycle t))
     then i ∈ moved /\ exists t', row s' i = Some t' /\ lifecycle t' = Completed
                                 /\ result t' = Some (auto_result link)
     else i ∉ moved /\ row s' i = Some t)
  /\ (forall k, (forall i, i ∈ moved -> k <> storage_key i) -> rows_of s' !! k = rows_of s !! k)
  /\ (forall by2 now2 s2 moved2,
        store_complete_linked_to encode_task decode_task render s' link by2 now2 = inl (s2, moved2) ->
        moved2 = [] /\ rows_of s2 = rows_of s').
Proof.
  intros Hk Hland. pose proof (landing_passes _ _ _ _ _ _ Hk Hland) as [Hk' Hrows Hmoved Hother].
  split; [|split; [done|]].
  - intros i t Hr. pose proof (Hrows i) as Hri. rewrite Hr in Hri. simpl in Hri.
    destruct (links_to link t && _) eqn:E.
    + apply andb_true_iff in E as [Hl Ho%negb_true_iff].
      destruct (complete_if_linked_open link by_ now t Hl Ho) as (? & ? & _ & ?).
      split; [apply Hmoved; by exists t|by eexists].
    + rewrite (complete_if_linked_other _ _ _ _ E) in Hri. split; [|done].
      intros (t' & ? & _ & Hs)%Hmoved. simplify_eq. rewrite (complete_if_linked_other _ _ _ _ E) in Hs.
      by destruct Hs.
  - intros by2 now2 s2 moved2 Hland2.
    pose proof (landing_passes _ _ _ _ _ _ Hk' Hland2) as [_ _ Hmoved2 Hother2].
    assert (moved2 = []) as ->.
    { destruct moved2 as [|i l]; [done|exfalso].
      destruct (proj1 (Hmoved2 i) ltac:(left)) as (t & Hr & _ & Hs).
      rewrite Hrows in Hr. destruct (row s i) as [t0|]; [|done]. simpl in Hr. injection Hr as <-.
      destruct (links_to link t0 && negb (is_terminal (lifecycle t0))) eqn:E.
      - apply andb_true_iff in E as [Hl Ho%negb_true_iff].
        destruct (complete_if_linked_open link by_ now t0 Hl Ho) as (_ & Hc & _).
        rewrite complete_if_linked_other in Hs; [by destruct Hs|]. rewrite Hc. apply andb_false_r.
      - rewrite (complete_if_linked_other _ _ _ _ E) in Hs. simpl in Hs.
        rewrite (complete_if_linked_other _ _ _ _ E) in Hs. by destruct Hs. }
    split; [done|]. apply map_eq. intros k. apply Hother2. by intros i ?%elem_of_nil.
Qed.

(** the sweep fails exactly the stranded work.  A row moves if and only if
    it is underway, owned by an agent whose workspace has no live agent, and
    untouched for longer than the grace; it then reads failed with the exit's
    reason, no result invented.  Work in any other state, owned by a human or by
    nobody, or whose agent is running is untouched. *)
Theorem sweep_fails_the_stranded s now grace live s' moved :
  well_keyed s ->
  sweep_stranded encode_task decode_task render s now grace live = inl (s', moved) ->
  (forall i t, row s i = Some t ->
     ((exists w e, lifecycle t = Underway /\ owner_workspace t = Some w /\ live w = false
         /\ last (history t) = Some e /\ grace < now - at_ e) /\ i ∈ moved
      /\ exists t', row s' i = Some t' /\ lifecycle t' = Failed exit_reason
           /\ result t' = result t /\ owner t' = owner t)
     \/ i ∉ moved /\ row s' i = Some t)
  /\ (forall k, (forall i, i ∈ moved -> k <> storage_key i) -> rows_of s' !! k = rows_of s !! k).
Proof.
  intros Hk Hsweep. pose proof (sweep_passes _ _ _ _ _ _ Hk Hsweep) as [Hk' Hrows Hmoved Hother].
  split; [|done]. intros i t Hr. pose proof (Hrows i) as Hri. rewrite Hr in Hri. simpl in Hri.
  destruct (is_stranded t now grace live) eqn:Hst.
  - left. unfold is_stranded in Hst. destruct (bool_decide (lifecycle t = Underway)) eqn:Hu; [|done].
    pose proof Hu as Hu'. apply bool_decide_eq_true in Hu. simpl in Hst.
    destruct (owner_workspace t) as [w|] eqn:Hw; [|done].
    destruct (live w) eqn:Hlive; [done|]. destruct (last (history t)) as [e|] eqn:He; [|done].
    apply Z.ltb_lt in Hst.
    assert (is_stranded t now grace live = true) as Hst'.
    { unfold is_stranded. rewrite Hu', Hw, Hlive, He. by apply Z.ltb_lt. }
    split; [by exists w, e|].
    assert (fail_if (fun t => is_stranded t now grace live) Lazybox now t
      = (set_lifecycle (Failed exit_reason)
           (record (Failed exit_reason) Lazybox now (Some "agent-exited"%string) t), Some (id t))) as E
      by (unfold fail_if, fail_from_agent_exit; by rewrite Hst', Hu').
    rewrite E in Hri. split; [apply Hmoved; exists t; by rewrite E|]. by eexists.
  - right. assert (fail_if (fun t => is_stranded t now grace live) Lazybox now t = (t, None)) as E
      by (unfold fail_if; by rewrite Hst).
    rewrite E in Hri. split; [|done]. intros (t' & ? & _ & Hs)%Hmoved. simplify_eq. rewrite E in Hs. by destruct Hs.
Qed.

(** ** The verbs *)

Lemma save_task_rows s t s' :
  well_keyed s -> save_task encode_task render s t = inl s' ->
  well_keyed s' /\ forall i, row s' i = if bool_decide (i = id t) then Some t else row s i.
Proof.
  intros Hk. unfold save_task, encode_row. destruct (encode_task t) as [raw|] eqn:E; [|done].
  intros Hs%set_kv_ok. apply codec in E. split.
  - intros k raw' t'. rewrite Hs.
    destruct (decide (k = storage_key (id t))) as [->|Hne].
    + rewrite lookup_insert_eq. intros [= <-] _ ?. by simplify_eq.
    + rewrite lookup_insert_ne by done. apply Hk.
  - intros i. unfold row. rewrite Hs. destruct (decide (i = id t)) as [->|Hi].
    + by rewrite bool_decide_eq_true_2, lookup_insert_eq.
    + rewrite bool_decide_eq_false_2, lookup_insert_ne; [done| |done]. intros ?%storage_key_inj; congruence.
Qed.

Context (parse_uuid : string -> option uuid).
Context (deliver_brief : string -> string -> Task -> WorkDelivery).

Abbreviation create := (create encode_task decode_task decode_plan render parse_uuid deliver_brief).
Abbreviation update := (update encode_task decode_task render parse_uuid).

Definition place_ok (s : S) (fresh : uuid) (t : Task) : Prop :=
  id t = fresh /\ lifecycle t = Pending /\ forall p, parent t = Some p -> is_Some (row s p).

Lemma place_ok_same s fresh t t' :
  id t' = id t -> lifecycle t' = lifecycle t -> parent t' = parent t ->
  place_ok s fresh t -> place_ok s fresh t'.
Proof. unfold place_ok. by intros -> -> ->. Qed.

Lemma add_links_place raws t t' :
  add_links raws t = inl t' ->
  id t' = id t /\ lifecycle t' = lifecycle t /\ parent t' = parent t.
Proof.
  revert t. induction raws as [|raw raws IH]; intros t; simpl; [by intros [= <-]|].
  destruct (parse_link raw) as [link|]; [|done]. intros (E1 & E2 & E3)%IH.
  unfold add_link in *. by destruct (bool_decide _).
Qed.

Lemma resolve_plan_place s raw t t' :
  resolve_plan decode_plan render parse_uuid s raw t = inl t' ->
  id t' = id t /\ lifecycle t' = lifecycle t /\ parent t' = parent t.
Proof.
  unfold resolve_plan. destruct raw; [|by intros [= <-]].
  destruct (parse_uuid _); [|done]. destruct (load_plan _ _ s _) as [[]|]; try done.
  by intros [= <-].
Qed.

Lemma resolve_parent_place s raw t t' fresh :
  resolve_parent decode_task render parse_uuid s raw t = inl t' ->
  id t = fresh -> lifecycle t = Pending -> parent t = None -> place_ok s fresh t'.
Proof.
  unfold resolve_parent, place_ok. intros H' Hid Hlc Hpar. destruct raw as [raw|].
  - destruct (parse_uuid _) as [i|]; [|done].
    unfold load_task in H'. destruct (get_kv s (storage_key i)) as [[raw'|]|] eqn:Eg; try done.
    apply get_kv_ok in Eg. destruct (decode_task raw') as [found|] eqn:Ed; [|done].
    injection H' as <-. simpl.
    destruct (plan t); simpl; (split_and!; [done|done|]);
      intros p [= <-]; unfold row; rewrite <- Eg; by rewrite Ed.
  - injection H' as <-. split_and!; [done|done|]. by rewrite Hpar.
Qed.

(** A create either leaves the store alone or writes one pending row under the
    fresh id, nested under a row that exists. *)
Lemma create_writes fresh now args s :
  (create fresh now args s).1 = s
  \/ exists t, place_ok s fresh t /\ save_task encode_task render s t = inl (create fresh now args s).1.
Proof.
  unfold WorkStore.create. destruct (is_empty _); [by left|]. destruct (_ <? _); [by left|].
  set (t0 := set_brief _ _).
  destruct (resolve_plan _ _ _ s _ t0) as [t1|] eqn:E1; [|by left].
  destruct (resolve_parent _ _ _ s _ t1) as [t2|] eqn:E2; [|by left].
  destruct (add_links _ t2) as [t3|] eqn:E3; [|by left].
  apply resolve_plan_place in E1 as (I1 & L1 & P1).
  apply (resolve_parent_place _ _ _ _ fresh) in E2; [|by rewrite ?I1, ?L1, ?P1..].
  apply add_links_place in E3 as (I3 & L3 & P3).
  pose proof (place_ok_same _ _ _ _ I3 L3 P3 E2) as H3.
  set (t4 := match c_owner args with Some _ => _ | None => t3 end).
  assert (place_ok s fresh t4) as H4.
  { unfold t4, add_link. destruct (c_owner args); [|done].
    by destruct (bool_decide _); apply (place_ok_same _ _ t3). }
  clearbody t4. destruct (save_task _ _ s t4) as [s'|] eqn:Es; [|by left]. right.
  exists t4. split; [done|]. rewrite Es. destruct (c_owner args), (c_deliver args); simpl;
    repeat (case_match; simpl); done.
Qed.

(** An update either leaves the store alone or rewrites one open row in place. *)
Lemma update_writes now args s :
  well_keyed s ->
  (update now args s).1 = s
  \/ exists t t', row s (id t) = Some t /\ is_terminal (lifecycle t) = false
       /\ id t' = id t /\ parent t' = parent t
       /\ save_task encode_task render s t' = inl (update now args s).1.
Proof.
  intros Hk. unfold WorkStore.update, load_task. destruct (parse_uuid _) as [i|]; [|by left].
  destruct (get_kv s (storage_key i)) as [[raw|]|] eqn:Eg; try by left.
  destruct (decode_task raw) as [t|] eqn:Ed; [|by left].
  destruct (update_task now args t) as [t'|] eqn:Eu; [|by left].
  destruct (save_task _ _ s t') as [s'|] eqn:Es; [|by left]. right. exists t, t'.
  apply get_kv_ok in Eg. assert (row s i = Some t) as Hr by (unfold row; by rewrite <- Eg).
  pose proof (row_id _ _ _ Hk Hr) as Hid. rewrite Hid.
  assert (id t' = id t /\ parent t' = parent t /\ is_terminal (lifecycle t) = false) as (? & ? & ?).
  { unfold update_task in Eu. destruct (is_completion _).
    - destruct (is_empty _); [done|]. destruct (complete _ _ _ t) as [u|] eqn:E; [|done].
      injection Eu as <-. by apply complete_place in E.
    - destruct (parse_lifecycle _ _) as [to|]; [|done].
      destruct (transition to _ _ t) as [u|] eqn:E; [|done].
      injection Eu as <-. by apply transition_place in E. }
  split_and!; congruence || done.
Qed.

(** ** Histories of the store *)

Inductive WorkOp : Type :=
| OCreate (fresh : uuid) (now : Z) (args : CreateArgs)
| OUpdate (now : Z) (args : UpdateArgs)
| OLand (link : Link) (by_ : Party) (now : Z)
| OExit (workspace : string) (by_ : Party) (now : Z)
| OSweep (now grace : Z) (live : string -> bool)
| ODelete (i : uuid).

(** The store after an operation; a failed one leaves it. *)
Definition after (s : S) (r : S * list uuid + StoreError) : S :=
  match r with inl (s', _) => s' | inr _ => s end.

Definition run_work_op (op : WorkOp) (s : S) : S :=
  match op with
  | OCreate fresh now args => (create fresh now args s).1
  | OUpdate now args => (update now args s).1
  | OLand link by_ now =>
      after s (store_complete_linked_to encode_task decode_task render s link by_ now)
  | OExit workspace by_ now =>
      after s (fail_underway_for_exit encode_task decode_task render s workspace by_ now)
  | OSweep now grace live => after s (sweep_stranded encode_task decode_task render s now grace live)
  | ODelete i => match delete_task render s i with inl s' => s' | inr _ => s end
  end.

(** The id a create mints is new: no row has it or is nested under it. *)
Definition fresh_for (op : WorkOp) (s : S) : Prop :=
  match op with
  | OCreate fresh _ _ =>
      row s fresh = None /\ forall i t, row s i = Some t -> parent t <> Some fresh
  | _ => True
  end.

Fixpoint fresh_ids (ops : list WorkOp) (s : S) : Prop :=
  match ops with
  | [] => True
  | op :: ops => fresh_for op s /\ fresh_ids ops (run_work_op op s)
  end.

Definition run_work (ops : list WorkOp) (s : S) : S := fold_left (fun s op => run_work_op op s) ops s.

(** One step, row by row. *)
Record stepped (op : WorkOp) (s s' : S) : Prop := {
  st_keyed : well_keyed s';
  st_terminal i t : row s i = Some t -> is_terminal (lifecycle t) = true -> op <> ODelete i ->
    row s' i = Some t;
  st_place i t' : row s' i = Some t' ->
    (exists t, row s i = Some t /\ parent t' = parent t)
    \/ row s i = None /\ (forall p, parent t' = Some p -> is_Some (row s p))
        /\ exists now args, op = OCreate i now args;
}.

Lemma stepped_refl op s : well_keyed s -> stepped op s s.
Proof. intros Hk. split; [done|done|]. intros i t' Hr. left. by exists t'. Qed.

Lemma passed_stepped op f g s s' moved :
  mover f -> passed f g s s' moved -> stepped op s s'.
Proof.
  intros Hf [Hk Hrows _ _]. split; [done| |].
  - intros i t Hr Ht _. rewrite Hrows, Hr. simpl. destruct (g t); [|done].
    by rewrite (mv_terminal f Hf).
  - intros i t' Hr. left. rewrite Hrows in Hr. destruct (row s i) as [t|]; [|done].
    injection Hr as <-. exists t. split; [done|]. destruct (g t); [by apply mv_parent|done].
Qed.

Lemma delete_task_rows s i s' :
  well_keyed s -> delete_task render s i = inl s' ->
  well_keyed s' /\ forall j, row s' j = if bool_decide (j = i) then None else row s j.
Proof.
  intros Hk Hd%delete_kv_ok. split.
  - intros k raw t. rewrite Hd, lookup_delete_Some. intros [_ ?]. by apply (Hk k raw t).
  - intros j. unfold row. rewrite Hd. destruct (decide (j = i)) as [->|Hne].
    + by rewrite bool_decide_eq_true_2, lookup_delete_eq.
    + rewrite bool_decide_eq_false_2, lookup_delete_ne; [done| |done].
      intros ?%storage_key_inj. congruence.
Qed.

Lemma run_work_op_stepped op s : well_keyed s -> fresh_for op s -> stepped op s (run_work_op op s).
Proof.
  intros Hk Hfresh. destruct op as [fresh now args|now args|link by_ now|ws by_ now|now grace live|i];
    simpl in *.
  - destruct (create_writes fresh now args s) as [->|(t & (Hid & Hlc & Hp) & Hs)];
      [by apply stepped_refl|].
    destruct (save_task_rows _ _ _ Hk Hs) as [Hk' Hrows]. destruct Hfresh as [Hnone _].
    split; [done| |].
    + intros i t0 Hr _ _. rewrite Hrows. rewrite bool_decide_eq_false_2; [done|]. congruence.
    + intros i t'. rewrite Hrows. destruct (decide (i = id t)) as [->|Hne].
      * rewrite bool_decide_eq_true_2 by done. intros [= <-]. right. rewrite Hid.
        split; [done|]. split; [done|]. by exists now, args.
      * rewrite bool_decide_eq_false_2 by done. intros Hr. left. by exists t'.
  - destruct (update_writes now args s Hk) as [->|(t & t' & Hr & Ho & Hid & Hp & Hs)];
      [by apply stepped_refl|].
    destruct (save_task_rows _ _ _ Hk Hs) as [Hk' Hrows]. split; [done| |].
    + intros i t0 Hr0 Ht0 _. rewrite Hrows. rewrite bool_decide_eq_false_2; [done|].
      intros ->. rewrite Hid in Hr0. congruence.
    + intros i t0. rewrite Hrows. destruct (decide (i = id t')) as [->|Hne].
      * rewrite bool_decide_eq_true_2 by done. intros [= <-]. left. exists t. by rewrite Hid.
      * rewrite bool_decide_eq_false_2 by done. intros Hr0. left. by exists t0.
  - destruct (store_complete_linked_to _ _ _ _ _ _ _) as [[s' moved]|] eqn:E; [|by apply stepped_refl].
    eapply passed_stepped; [|by eapply landing_passes]. apply complete_if_linked_mover.
  - destruct (fail_underway_for_exit _ _ _ _ _ _ _) as [[s' moved]|] eqn:E; [|by apply stepped_refl].
    eapply passed_stepped; [|by eapply exit_passes]. apply fail_if_mover.
  - destruct (sweep_stranded _ _ _ _ _ _ _) as [[s' moved]|] eqn:E; [|by apply stepped_refl].
    eapply passed_stepped; [|by eapply sweep_passes]. apply fail_if_mover.
  - destruct (delete_task _ s i) as [s'|] eqn:E; [|by apply stepped_refl].
    destruct (delete_task_rows _ _ _ Hk E) as [Hk' Hrows]. split; [done| |].
    + intros j t Hr _ Hne. rewrite Hrows, bool_decide_eq_false_2; [done|]. congruence.
    + intros j t'. rewrite Hrows. destruct (bool_decide _); [done|]. left. by exists t'.
Qed.

(** C16: finished work stays finished.  Whatever the agents, the poller and the
    sweep do afterwards -- in any order, late reports and repeated landings
    included -- a task that reached a terminal state keeps its whole row (state,
    result, history) until it is deleted. *)
Theorem finished_work_is_final ops s i t :
  well_keyed s ->
  fresh_ids ops s ->
  row s i = Some t ->
  is_terminal (lifecycle t) = true ->
  Forall (fun op => op <> ODelete i) ops ->
  row (run_work ops s) i = Some t.
Proof.
  intros Hk Hfresh Hr Ht Hops. unfold run_work. revert s Hk Hfresh Hr.
  induction Hops as [|op ops Hop Hops IH]; intros s Hk Hfresh Hr; simpl; [done|].
  destruct Hfresh as [Hf Hfresh]. destruct (run_work_op_stepped op s Hk Hf) as [Hk' Hterm _].
  apply IH; [done|done|]. by apply Hterm.
Qed.

(** Parents come before children. *)
Definition ranked (s : S) : Prop :=
  exists rank : uuid -> nat, forall i t p,
    row s i = Some t -> parent t = Some p -> (rank p < rank i)%nat.

Lemma ranked_step op s : well_keyed s -> fresh_for op s -> ranked s -> ranked (run_work_op op s).
Proof.
  intros Hk Hf [rank Hrank]. destruct (run_work_op_stepped op s Hk Hf) as [_ _ Hplace].
  destruct op as [fresh now args|now args|link by_ now|ws by_ now|now grace live|j].
  2-6: (exists rank; intros i t' p Hr Hp;
    destruct (Hplace i t' Hr) as [(t & Ht & Hpp)|(_ & _ & now' & args' & Ho)]; [|done];
    apply (Hrank i t); congruence).
  destruct Hf as [Hnone Hnop].
  exists (fun i => if bool_decide (i = fresh)
    then Datatypes.S (match row (run_work_op (OCreate fresh now args) s) fresh with
            | Some t => match parent t with Some p => rank p | None => O end
            | None => O end)
    else rank i).
  intros i t' p Hr Hp. destruct (Hplace i t' Hr) as [(t & Ht & Hpp)|(Hn & Hpar & now' & args' & Ho)].
  - rewrite Hpp in Hp. pose proof (Hrank i t p Ht Hp).
    rewrite (bool_decide_eq_false_2 (i = fresh)) by congruence.
    rewrite (bool_decide_eq_false_2 (p = fresh)); [done|]. intros ->. by eapply Hnop.
  - injection Ho as -> -> ->. destruct (Hpar p Hp) as [pt Hpt].
    rewrite (bool_decide_eq_false_2 (p = i)) by congruence.
    rewrite bool_decide_eq_true_2 by done. rewrite Hr, Hp. lia.
Qed.

(** the tasks always form trees.  From a store without tasks, whatever
    sequence of creates (with fresh ids), updates, landings, sweeps and deletions
    runs, the rows the daemon lists have distinct ids and acyclic parents -- so the
    recursive roll-up over them ends. *)
Theorem task_rows_form_a_forest ops s ts n :
  (forall i, row s i = None) ->
  well_keyed s ->
  fresh_ids ops s ->
  all_tasks decode_task (run_work ops s) = inl (ts, n) ->
  forest ts.
Proof.
  intros Hnone Hk Hfresh Hall.
  assert (well_keyed (run_work ops s) /\ ranked (run_work ops s)) as [Hk' [rank Hrank]].
  { assert (ranked s) as Hr by (exists (fun _ => O); intros i t p; by rewrite Hnone).
    clear Hall Hnone. unfold run_work. revert s Hk Hfresh Hr.
    induction ops as [|op ops IH]; intros s Hk Hfresh Hr; simpl; [done|].
    destruct Hfresh as [Hf Hfresh]. destruct (run_work_op_stepped op s Hk Hf) as [Hk' _ _].
    apply IH; [done|done|]. by apply ranked_step. }
  split; [by eapply all_tasks_NoDup|]. exists rank. intros t p pt Ht Hp _ _.
  apply (Hrank (id t) t p); [|done]. by eapply all_tasks_row.
Qed.

(** a create that asks for a delivery without naming an owner is reported as
    a bad request, yet its row is stored: the reply is an error and the store
    is the one the same call without the delivery leaves. *)
Theorem refused_unowned_delivery_is_stored fresh now args s s' t :
  c_owner args = None ->
  create fresh now (mkCreate (c_requester args) (c_title args) (c_brief args) None false
                      (c_plan args) (c_parent args) (c_links args)) s = (s', inl (t, None)) ->
  well_keyed s ->
  (create fresh now (mkCreate (c_requester args) (c_title args) (c_brief args) None true
                      (c_plan args) (c_parent args) (c_links args)) s
   = (s', inr (BadRequest "deliver=true needs an `owner` to deliver to")))
  /\ row s' (id t) = Some t.
Proof.
  intros Ho. unfold WorkStore.create. simpl. destruct (is_empty _); [done|]. destruct (_ <? _); [done|].
  destruct (resolve_plan _ _ _ s _ _) as [t1|]; [|done].
  destruct (resolve_parent _ _ _ s _ t1) as [t2|]; [|done].
  destruct (add_links _ t2) as [t3|]; [|done].
  destruct (save_task _ _ s t3) as [s3|] eqn:Es; [|done]. intros [= <- <-] Hk. split; [done|].
  destruct (save_task_rows _ _ _ Hk Es) as [_ Hrows]. rewrite Hrows.
  by rewrite bool_decide_eq_true_2.
Qed.

End props.

(** ** Instances

    The in-memory backend, with a row that stands for its own JSON and uuids
    printed in decimal. *)
Definition Row : Type := (Task + Plan)%type.

#[local] Instance demo_store : Store (gmap string Row) Row := memory_store (fun _ => false).
#[local] Instance demo_laws : StoreLaws (gmap string Row) Row := memory_laws (fun _ => false).

Definition demo_encode (t : Task) : option Row := Some (inl t).
Definition demo_decode (r : Row) : option Task := match r with inl t => Some t | inr _ => None end.
Definition demo_decode_plan (r : Row) : option Plan := match r with inr p => Some p | _ => None end.
Definition demo_render (i : uuid) : string := pretty i.

Lemma demo_codec t raw : demo_encode t = Some raw -> demo_decode raw = Some t.
Proof. by intros [= <-]. Qed.

Lemma demo_render_inj i j : demo_render i = demo_render j -> i = j.
Proof. apply (inj pretty). Qed.

Definition demo_task : Task :=
  set_lifecycle Underway (set_owner (Some (Agent "w" None))
    (set_links [LUrl "u"] (new_task 7 "t" Human 0))).
Definition demo_rows : gmap string Row := {["work:7"%string := inl demo_task]}.

Lemma one_row_keyed t :
  well_keyed demo_decode demo_render
    ({[storage_key demo_render (id t) := inl t]} : gmap string Row).
Proof.
  intros k raw t' Hk _ Ht. simpl in Hk. apply lookup_singleton_Some in Hk as [<- <-].
  by injection Ht as <-.
Qed.

Lemma demo_keyed : well_keyed demo_decode demo_render demo_rows.
Proof. exact (one_row_keyed demo_task). Qed.

Lemma landing_completes_linked_tasks_witness :
  exists s', store_complete_linked_to demo_encode demo_decode demo_render demo_rows (LUrl "u")
               Lazybox 5 = inl (s', [7])
    /\ 7 ∈ [7].
Proof.
  eexists. split; [vm_compute; reflexivity|].
  eapply (proj1 (proj1 (landing_completes_linked_tasks demo_encode demo_decode demo_render
    demo_codec demo_render_inj demo_rows (LUrl "u") Lazybox 5 _ [7] demo_keyed eq_refl)
    7 demo_task eq_refl)).
Defined.

Lemma sweep_fails_the_stranded_witness :
  exists s', sweep_stranded demo_encode demo_decode demo_render demo_rows (secs 601)
               STRANDED_GRACE (fun _ => false) = inl (s', [7])
    /\ forall k, (forall i, i ∈ [7] -> k <> storage_key demo_render i) ->
         rows_of s' !! k = rows_of demo_rows !! k.
Proof.
  eexists. split; [vm_compute; reflexivity|].
  apply (proj2 (sweep_fails_the_stranded demo_encode demo_decode demo_render
    demo_codec demo_render_inj demo_rows (secs 601) STRANDED_GRACE (fun _ => false) _ [7]
    demo_keyed eq_refl)).
Defined.

Definition demo_create (title parent_ : string) : CreateArgs :=
  mkCreate "w" title EmptyString None false None
    (if is_empty parent_ then None else Some parent_) [].

Abbreviation demo_run :=
  (run_work demo_encode demo_decode demo_decode_plan demo_render parse_u64
     (fun _ _ _ => Queued EmptyString)).

Abbreviation demo_fresh :=
  (fresh_ids demo_encode demo_decode demo_decode_plan demo_render parse_u64
     (fun _ _ _ => Queued EmptyString)).

Lemma one_row_fresh t fresh now args :
  fresh <> id t -> parent t <> Some fresh ->
  fresh_for demo_decode demo_render (OCreate fresh now args)
    ({[storage_key demo_render (id t) := inl t]} : gmap string Row).
Proof.
  intros Hne Hp. split.
  - unfold row. simpl. rewrite lookup_singleton_ne; [done|].
    intros ?%(storage_key_inj demo_render demo_render_inj). congruence.
  - intros i t' Hr. unfold row in Hr. simpl in Hr.
    destruct (decide (storage_key demo_render (id t) = storage_key demo_render i)) as [Hi|Hi].
    + rewrite <- Hi, lookup_singleton_eq in Hr. by injection Hr as <-.
    + by rewrite lookup_singleton_ne in Hr.
Qed.

Definition demo_done : gmap string Row := {["work:7"%string := inl (set_lifecycle Completed demo_task)]}.

Lemma finished_work_is_final_witness :
  let report := mkUpdate "w" "7" "underway" None None [] in
  row demo_decode demo_render (demo_run [OUpdate 9 report; OLand (LUrl "u") Human 9] demo_done) 7
  = Some (set_lifecycle Completed demo_task).
Proof.
  intros report.
  apply (finished_work_is_final demo_encode demo_decode demo_decode_plan demo_render demo_codec
    demo_render_inj parse_u64 (fun _ _ _ => Queued EmptyString)).
  - exact (one_row_keyed (set_lifecycle Completed demo_task)).
  - simpl. tauto.
  - reflexivity.
  - reflexivity.
  - repeat constructor; discriminate.
Defined.

Lemma task_rows_form_a_forest_witness :
  exists ts n,
    all_tasks demo_decode
      (demo_run [OCreate 1 0 (demo_create "root" EmptyString); OCreate 2 0 (demo_create "child" "1")] ∅)
    = inl (ts, n) /\ length ts = 2%nat /\ forest ts.
Proof.
  eexists _, _. split; [vm_compute; reflexivity|]. split; [reflexivity|].
  apply (task_rows_form_a_forest demo_encode demo_decode demo_decode_plan demo_render demo_codec
    demo_render_inj parse_u64 (fun _ _ _ => Queued EmptyString)
    [OCreate 1 0 (demo_create "root" EmptyString); OCreate 2 0 (demo_create "child" "1")]
    (∅ : gmap string Row) _ 0).
  - reflexivity.
  - intros k raw t Hk. simpl in Hk. by rewrite lookup_empty in Hk.
  - split; [split; [reflexivity|done]|]. split; [|done].
    set (t := new_task 1 "root" (party "w") 0).
    match goal with |- fresh_for _ _ _ ?s =>
      replace s with ({[storage_key demo_render (id t) := inl t]} : gmap string Row)
        by (vm_compute; reflexivity) end.
    apply one_row_fresh; [discriminate|discriminate].
  - vm_compute. reflexivity.
Defined.

Lemma refused_unowned_delivery_is_stored_witness :
  let t := new_task 3 "t" (party "w") 0 in
  let s' : gmap string Row := {[storage_key demo_render 3 := inl t]} in
  create demo_encode demo_decode demo_decode_plan demo_render parse_u64
    (fun _ _ _ => Queued EmptyString) 3 0
    (mkCreate "w" "t" EmptyString None true None None []) (∅ : gmap string Row)
  = (s', inr (BadRequest "deliver=true needs an `owner` to deliver to"))
  /\ row demo_decode demo_render s' (id t) = Some t.
Proof.
  intros t s'.
  refine (refused_unowned_delivery_is_stored demo_encode demo_decode demo_decode_plan demo_render
    demo_codec demo_render_inj parse_u64 (fun _ _ _ => Queued EmptyString) 3 0
    (mkCreate "w" "t" EmptyString None true None None []) (∅ : gmap string Row) s' t eq_refl _ _).
  - vm_compute. reflexivity.
  - intros k raw t' Hk. simpl in Hk. by rewrite lookup_empty in Hk.
Defined.
