(* ===== verification/Scheduler.v ===== *)
(** * The per-repo round-robin scheduler
      ([src/crates/server/src/polling/scheduler.rs])

    Which repositories a poll tick sweeps: the focused one first, then the
    session-bearing ones, then the stalest of the cursor, under the governor's
    cap.  The cursor and the suspended repos are maps from a repo to its last
    sync; the [HashSet]s are [gset]s.  The sorts are total (ties break by name),
    so no result depends on a hash order. *)

From Stdlib Require Import String.
From S2P Require Import Prelude.

#[global] Open Scope Z_scope.

Definition DEFAULT_ROUND_ROBIN_N : nat := 3.
Definition CURSOR_TTL : Z := secs (60 * 60 * 24 * 7).

Record RoundRobinState : Type := mkState {
  cursor : gmap string Z;
  suspended_cold : gmap string Z;
  focused_repo : option string;
  tick : Z;
}.

(** An entry survives the prune at [now]. *)
Definition fresh_entry (now last : Z) : Prop :=
  match checked_duration_since now last with None => True | Some d => d < CURSOR_TTL end.

#[export] Instance fresh_entry_dec now last : Decision (fresh_entry now last).
Proof. unfold fresh_entry. destruct (checked_duration_since now last); apply _. Defined.

Definition prune (now : Z) (s : RoundRobinState) : RoundRobinState :=
  mkState (filter (fun kv => fresh_entry now kv.2) (cursor s))
    (filter (fun kv => fresh_entry now kv.2) (suspended_cold s)) (focused_repo s) (tick s).

Definition record_sync (repo : string) (at_ : Z) (s : RoundRobinState) : RoundRobinState :=
  mkState (<[repo := at_]> (cursor s)) (delete repo (suspended_cold s)) (focused_repo s) (tick s).

(** [map.entry(k).or_insert(v)] *)
Definition or_insert (k : string) (v : Z) (m : gmap string Z) : gmap string Z :=
  match m !! k with Some _ => m | None => <[k := v]> m end.

Definition seed_member (never : Z) (s : RoundRobinState) (member : string) : RoundRobinState :=
  let cursor' :=
    match suspended_cold s !! member with
    | Some last => or_insert member last (cursor s)
    | None => cursor s
    end in
  mkState (or_insert member never cursor') (delete member (suspended_cold s)) (focused_repo s) (tick s).

Definition seed_roster (roster : list string) (now : Z) (s : RoundRobinState) : RoundRobinState :=
  fold_left (seed_member (now - CURSOR_TTL / 2)) roster s.

Definition activate (s : RoundRobinState) (repo : string) : RoundRobinState :=
  match suspended_cold s !! repo with
  | Some last_sync =>
      mkState (<[repo := last_sync]> (cursor s)) (delete repo (suspended_cold s))
        (focused_repo s) (tick s)
  | None => s
  end.

Definition suspend (fallback : Z) (s : RoundRobinState) (repo : string) : RoundRobinState :=
  mkState (delete repo (cursor s))
    (or_insert repo (default fallback (cursor s !! repo)) (suspended_cold s))
    (focused_repo s) (tick s).

Definition update_engagement_repos (cold_repos active_repos : gset string) (now : Z)
    (s : RoundRobinState) : RoundRobinState :=
  let s := fold_left activate (elements active_repos) s in
  fold_left (suspend (now - secs (60 * 60))) (elements cold_repos) s.

Record RoundRobinPick : Type := mkPick { repos : list string; run_global : bool }.

Definition nat_div_ceil (a b : nat) : nat := ((a + b - 1) / b)%nat.

Definition rotation_fanout (roster_len target_ticks : nat) : nat :=
  match roster_len with
  | O => O
  | _ => Nat.max (nat_div_ceil roster_len (Nat.max target_ticks 1)) 1
  end.

Definition effective_n (n : nat) : nat := match n with O => DEFAULT_ROUND_ROBIN_N | _ => n end.

Definition will_run_global (known_repos : nat) (tick : Z) (n : nat) : bool :=
  let n := effective_n n in
  if Nat.eqb known_repos 0 then true
  else if Nat.leb known_repos n then tick mod 2 =? 0
  else tick mod Z.of_nat (Nat.max (nat_div_ceil known_repos n) 2) =? 0.

(** The order of the rotation: oldest sync first, then by name.  A repo without a
    cursor entry sorts before every one with. *)
Definition stale_le (a b : option Z * string) : Prop :=
  match a.1, b.1 with
  | None, Some _ => True
  | Some _, None => False
  | None, None => String.le a.2 b.2
  | Some x, Some y => x < y \/ x = y /\ String.le a.2 b.2
  end.

#[export] Instance stale_le_dec : RelDecision stale_le.
Proof. intros [[x|] a] [[y|] b]; unfold stale_le; simpl; apply _. Defined.

Definition forced_order (known : gmap string Z) (forced : gset string) : list string :=
  map snd (merge_sort stale_le (map (fun repo => (known !! repo, repo)) (elements forced))).

Definition rotation_order (known : gmap string Z) : list string :=
  map snd (merge_sort stale_le (map (fun kv => (Some kv.2, kv.1)) (map_to_list known))).

(** The session-bearing tier. *)
Fixpoint add_forced (max_repos : nat) (sorted picked : list string) : list string :=
  match sorted with
  | [] => picked
  | repo :: sorted =>
      if Nat.leb max_repos (length picked) then picked
      else
        add_forced max_repos sorted
          (if bool_decide (repo ∈ picked) then picked else picked ++ [repo])
  end.

(** The rotation tier, [budget] repos at most. *)
Fixpoint add_rotation (max_repos budget : nat) (sorted picked : list string) : list string :=
  match sorted with
  | [] => picked
  | repo :: sorted =>
      if Nat.eqb budget 0 || Nat.leb max_repos (length picked) then picked
      else if bool_decide (repo ∈ picked) then add_rotation max_repos budget sorted picked
      else add_rotation max_repos (Nat.pred budget) sorted (picked ++ [repo])
  end.

Definition pick_repos_for_tick_budgeted (known : gmap string Z) (focused : option string)
    (forced : gset string) (tick : Z) (n max_repos : nat) : RoundRobinPick :=
  let n := effective_n n in
  let '(picked, budget) :=
    match focused with
    | Some focus =>
        if Nat.ltb 0 max_repos
        then ([focus], if bool_decide (focus ∈ forced) then n else Nat.pred n)
        else ([], n)
    | None => ([], n)
    end in
  let picked := add_forced max_repos (forced_order known forced) picked in
  if bool_decide (known = ∅) then mkPick picked true
  else
    mkPick (add_rotation max_repos budget (rotation_order known) picked)
      (will_run_global (size known) tick n).

Definition record_all (now : Z) (picked : list string) (s : RoundRobinState) : RoundRobinState :=
  fold_left (fun s repo => record_sync repo now s) picked s.

(** [self.tick.wrapping_add(1)] on a [u64]. *)
Definition advance (s : RoundRobinState) : RoundRobinState :=
  mkState (cursor s) (suspended_cold s) (focused_repo s) (wrap_add u64_max (tick s) 1).

Definition plan_repo_rotation (roster : list string) (forced : gset string) (fanout max_members : nat)
    (now : Z) (s : RoundRobinState) : RoundRobinState * list string :=
  let s := prune now (seed_roster roster now s) in
  let eligible := filter (fun kv => kv.1 ∈ roster \/ kv.1 ∈ forced) (cursor s) in
  let pick :=
    pick_repos_for_tick_budgeted eligible (focused_repo s) forced (tick s) fanout max_members in
  (advance (record_all now (repos pick) s), repos pick).

Definition plan_round_robin_tick_budgeted (forced : gset string) (will_full_sweep : bool)
    (n max_repos : nat) (now : Z) (s : RoundRobinState) : RoundRobinState * RoundRobinPick :=
  if negb will_full_sweep then (s, mkPick [] true)
  else
    let s := prune now s in
    let pick :=
      pick_repos_for_tick_budgeted (cursor s) (focused_repo s) forced (tick s) n max_repos in
    (advance (record_all now (repos pick) s), pick).

(** ** Picks *)

Lemma add_forced_spec max_repos sorted picked :
  NoDup picked -> (length picked <= max_repos)%nat ->
  exists added,
    add_forced max_repos sorted picked = picked ++ added
    /\ NoDup (picked ++ added) /\ (length (picked ++ added) <= max_repos)%nat
    /\ (forall r, r ∈ added -> r ∈ sorted)
    /\ ((forall r, r ∈ sorted -> r ∈ picked ++ added) \/ length (picked ++ added) = max_repos).
Proof.
  revert picked. induction sorted as [|r sorted IH]; intros picked Hnd Hlen; simpl.
  { exists []. rewrite app_nil_r. split_and!; [done..|set_solver|left; set_solver]. }
  destruct (Nat.leb_spec max_repos (length picked)).
  { exists []. rewrite app_nil_r. split_and!; [done..|set_solver|right; lia]. }
  case_bool_decide as Hin.
  - destruct (IH picked Hnd Hlen) as (added & -> & ? & ? & ? & Hcov). exists added.
    split_and!; [done..|set_solver|]. destruct Hcov; [left; set_solver|by right].
  - destruct (IH (picked ++ [r])) as (added & -> & ? & ? & ? & Hcov).
    { apply NoDup_app. split_and!; [done|set_solver|apply NoDup_singleton]. }
    { rewrite length_app. simpl. lia. }
    exists (r :: added). rewrite <- app_assoc in *. simpl in *.
    split_and!; [done..|set_solver|]. destruct Hcov; [left; set_solver|by right].
Qed.

(** The rotation takes, in order, the first members not yet picked. *)
Lemma add_rotation_spec max_repos budget sorted picked :
  NoDup sorted -> NoDup picked -> (length picked <= max_repos)%nat ->
  exists k,
    let rest := List.filter (fun r => negb (bool_decide (r ∈ picked))) sorted in
    add_rotation max_repos budget sorted picked = picked ++ take k rest
    /\ k = Nat.min budget (max_repos - length picked)
    /\ NoDup (picked ++ take k rest) /\ (length (picked ++ take k rest) <= max_repos)%nat.
Proof.
  intros Hs Hp Hlen. exists (Nat.min budget (max_repos - length picked)). simpl.
  assert (forall budget picked, (length picked <= max_repos)%nat ->
    add_rotation max_repos budget sorted picked
    = picked ++ take (Nat.min budget (max_repos - length picked))
        (List.filter (fun r => negb (bool_decide (r ∈ picked))) sorted)) as E.
  { clear Hp Hlen picked budget. induction Hs as [|r sorted Hr Hs IH]; intros budget picked Hlen; simpl.
    { by rewrite take_nil, app_nil_r. }
    destruct (Nat.eqb_spec budget 0) as [->|Hb]; simpl; [by rewrite app_nil_r|].
    destruct (Nat.leb_spec max_repos (length picked)).
    { replace (max_repos - length picked)%nat with O by lia. by rewrite Nat.min_0_r, app_nil_r. }
    case_bool_decide as Hin; simpl; [by apply IH|].
    rewrite IH by (rewrite length_app; simpl; lia). rewrite length_app. simpl.
    rewrite <- app_assoc. f_equal. destruct budget as [|budget]; [done|]. simpl.
    replace (max_repos - length picked)%nat with (S (max_repos - (length picked + 1))) by lia.
    simpl. f_equal. f_equal. clear -Hr. induction sorted as [|r' sorted IH]; simpl; [done|].
    apply not_elem_of_cons in Hr as [Hne Hr]. rewrite IH by done.
    replace (bool_decide (r' ∈ picked ++ [r])) with (bool_decide (r' ∈ picked)); [done|].
    apply bool_decide_ext. set_solver. }
  split; [by apply E|]. split; [done|].
  set (rest := List.filter _ sorted).
  assert (NoDup rest) as Hrest
    by (apply NoDup_ListNoDup, List.NoDup_filter, NoDup_ListNoDup, Hs).
  split.
  - apply NoDup_app. split_and!; [done| |].
    + intros x Hx Hx'. apply elem_of_take in Hx' as (i & Hx' & _).
      apply list_elem_of_lookup_2, list_elem_of_In, filter_In in Hx' as [_ Hx'].
      by rewrite bool_decide_eq_true_2 in Hx'.
    + rewrite <- (take_drop (Nat.min budget (max_repos - length picked)) rest) in Hrest.
      by apply NoDup_app in Hrest as (? & _ & _).
  - rewrite length_app, length_take. lia.
Qed.

Lemma rotation_order_elem known r : r ∈ rotation_order known <-> is_Some (known !! r).
Proof.
  unfold rotation_order. rewrite list_elem_of_In, in_map_iff. split.
  - intros ([o r'] & <- & Hin%list_elem_of_In). rewrite merge_sort_Permutation in Hin.
    apply list_elem_of_In, in_map_iff in Hin as ([k v] & [= <- <-] & Hin%list_elem_of_In).
    apply elem_of_map_to_list in Hin. by exists v.
  - intros [v Hv]. exists (Some v, r). split; [done|]. apply list_elem_of_In.
    rewrite merge_sort_Permutation. apply list_elem_of_In, in_map_iff. exists (r, v).
    split; [done|]. apply list_elem_of_In. by apply elem_of_map_to_list.
Qed.

Lemma rotation_order_NoDup known : NoDup (rotation_order known).
Proof.
  unfold rotation_order.
  assert (map snd (merge_sort stale_le (map (fun kv => (Some kv.2, kv.1)) (map_to_list known)))
    ≡ₚ map fst (map_to_list known)) as ->.
  { rewrite merge_sort_Permutation, map_map. done. }
  apply NoDup_fst_map_to_list.
Qed.

#[export] Instance stale_le_trans : Transitive stale_le.
Proof.
  intros [[x|] a] [[y|] b] [[z|] c]; unfold stale_le; simpl; try done.
  - intros [?|[-> ?]] [?|[-> ?]]; [left; lia|by left|by left|right]. split; [done|by etrans].
  - intros ? ?. by etrans.
Qed.

#[export] Instance stale_le_total : Total stale_le.
Proof.
  intros [[x|] a] [[y|] b]; unfold stale_le; simpl; auto.
  - destruct (Z.lt_trichotomy x y) as [?|[->|?]]; [auto| |auto].
    destruct (total String.le a b); auto.
  - apply (total String.le).
Qed.

(** In the rotation order, what comes earlier is at least as stale. *)
Lemma rotation_order_sorted known :
  StronglySorted (fun a b => stale_le (known !! a, a) (known !! b, b)) (rotation_order known).
Proof.
  unfold rotation_order.
  set (l := merge_sort stale_le _).
  assert (StronglySorted stale_le l) as Hs by (apply StronglySorted_merge_sort; apply _).
  assert (Forall (fun x => known !! x.2 = x.1) l) as Hl.
  { apply Forall_forall. intros [o r] Hin. unfold l in Hin. rewrite merge_sort_Permutation in Hin.
    apply list_elem_of_In, in_map_iff in Hin as ([k v] & [= <- <-] & Hin%list_elem_of_In).
    by apply elem_of_map_to_list in Hin. }
  clearbody l. induction Hs as [|x l Hs IH Hx]; simpl; [constructor|].
  apply Forall_cons in Hl as [Hk Hl]. constructor; [by apply IH|].
  rewrite Forall_forall in Hx, Hl. apply Forall_forall. intros r.
  intros ([o r'] & <- & Hin)%list_elem_of_In%in_map_iff. apply list_elem_of_In in Hin.
  specialize (Hx _ Hin). specialize (Hl _ Hin). simpl in *. rewrite Hk, Hl.
  by destruct x.
Qed.

Lemma forced_order_elem known forced r : r ∈ forced_order known forced <-> r ∈ forced.
Proof.
  unfold forced_order. rewrite list_elem_of_In, in_map_iff. split.
  - intros ([o r'] & <- & Hin%list_elem_of_In). rewrite merge_sort_Permutation in Hin.
    apply list_elem_of_In, in_map_iff in Hin as (k & [= <- <-] & Hin%list_elem_of_In).
    by apply elem_of_elements in Hin.
  - intros Hr. exists (known !! r, r). split; [done|]. apply list_elem_of_In.
    rewrite merge_sort_Permutation. apply list_elem_of_In, in_map_iff. exists r.
    split; [done|]. apply list_elem_of_In. by apply elem_of_elements.
Qed.

(** The parts of a pick: the focused repo, the session-bearing tier, then the
    [k] stalest of the others. *)
Record pick_parts (known : gmap string Z) (focused : option string) (forced : gset string)
    (n max_repos : nat) (picked head tier rest : list string) (k : nat) : Prop := {
  pp_picked : picked = (head ++ tier) ++ take k rest;
  pp_head : head = match focused with Some f => if Nat.ltb 0 max_repos then [f] else [] | None => [] end;
  pp_tier r : r ∈ tier -> r ∈ forced;
  pp_tier_all : (forall r, r ∈ forced -> r ∈ head ++ tier) \/ length (head ++ tier) = max_repos;
  pp_rest : rest = List.filter (fun r => negb (bool_decide (r ∈ head ++ tier))) (rotation_order known);
  pp_count : k = Nat.min
    (match focused with
     | Some f => if Nat.ltb 0 max_repos then
                   if bool_decide (f ∈ forced) then effective_n n else Nat.pred (effective_n n)
                 else effective_n n
     | None => effective_n n
     end) (max_repos - length (head ++ tier));
  pp_NoDup : NoDup picked;
  pp_length : (length picked <= max_repos)%nat;
}.

Lemma pick_has_parts known focused forced tick n max_repos :
  exists head tier rest k,
    pick_parts known focused forced n max_repos
      (repos (pick_repos_for_tick_budgeted known focused forced tick n max_repos)) head tier rest k.
Proof.
  unfold pick_repos_for_tick_budgeted.
  set (head := match focused with Some f => if Nat.ltb 0 max_repos then [f] else [] | None => [] end).
  set (budget := match focused with
     | Some f => if Nat.ltb 0 max_repos then
                   if bool_decide (f ∈ forced) then effective_n n else Nat.pred (effective_n n)
                 else effective_n n
     | None => effective_n n end).
  assert (match focused with
    | Some focus => if Nat.ltb 0 max_repos
        then ([focus], if bool_decide (focus ∈ forced) then effective_n n else Nat.pred (effective_n n))
        else ([], effective_n n)
    | None => ([], effective_n n) end = (head, budget)) as ->
    by (unfold head, budget; destruct focused; [destruct (Nat.ltb 0 max_repos)|]; done).
  assert (NoDup head) as Hnd
    by (unfold head; repeat case_match; [apply NoDup_singleton|constructor|constructor]).
  assert (length head <= max_repos)%nat as Hlen.
  { unfold head. destruct focused; [destruct (Nat.ltb_spec 0 max_repos)|]; simpl; lia. }
  destruct (add_forced_spec max_repos (forced_order known forced) head Hnd Hlen)
    as (tier & -> & Hnd2 & Hlen2 & Htier & Hall).
  destruct (add_rotation_spec max_repos budget (rotation_order known) (head ++ tier)
    (rotation_order_NoDup known) Hnd2 Hlen2) as (k & Hpick & Hk & Hnd3 & Hlen3).
  assert (forall r, r ∈ tier -> r ∈ forced) as Htier'
    by (intros r Hr; by apply Htier, forced_order_elem in Hr).
  assert ((forall r, r ∈ forced -> r ∈ head ++ tier) \/ length (head ++ tier) = max_repos) as Hall'
    by (destruct Hall as [Hall|]; [left; intros r Hr; by apply Hall, forced_order_elem|by right]).
  case_bool_decide as Hempty; cbn [repos].
  - subst known. exists head, tier, [], k. split; rewrite ?take_nil, ?app_nil_r; done.
  - rewrite Hpick. eexists head, tier, _, k. split; done.
Qed.

(** a tick's pick is bounded, focused and fair.  It names at most [max_repos]
    repos, without repetition, each of them focused, session-bearing or known;
    the focused repo leads whenever anything fits; the session-bearing ones are
    all there unless the cap is reached; and the rotation is stalest-first: no
    repo it took is fresher than a known repo it left out. *)
Theorem pick_is_bounded_and_fair known focused forced tick n max_repos :
  let picked := repos (pick_repos_for_tick_budgeted known focused forced tick n max_repos) in
  NoDup picked
  /\ (length picked <= max_repos)%nat
  /\ (forall r, r ∈ picked -> focused = Some r \/ r ∈ forced \/ is_Some (known !! r))
  /\ (forall f, focused = Some f -> (0 < max_repos)%nat -> picked !! O = Some f)
  /\ ((forall r, r ∈ forced -> r ∈ picked) \/ length picked = max_repos)
  /\ (forall taken left_out,
        taken ∈ picked -> focused <> Some taken -> taken ∉ forced ->
        is_Some (known !! left_out) -> left_out ∉ picked ->
        stale_le (known !! taken, taken) (known !! left_out, left_out)).
Proof.
  intros picked. destruct (pick_has_parts known focused forced tick n max_repos)
    as (head & tier & rest & k & [Hp Hhead Htier Hall Hrest Hk Hnd Hlen]).
  fold picked in Hp, Hnd, Hlen. clearbody picked.
  assert (forall r, r ∈ head -> focused = Some r) as Hheadf.
  { intros r. rewrite Hhead. destruct focused; [destruct (Nat.ltb _ _)|]; set_solver. }
  assert (forall r, r ∈ rest -> is_Some (known !! r)) as Hrestk.
  { intros r. rewrite Hrest. intros [Hr%list_elem_of_In _]%list_elem_of_In%filter_In.
    by apply rotation_order_elem. }
  split_and!; [done|done| | | |].
  - intros r. rewrite Hp, !elem_of_app. intros [[Hr|Hr]|Hr]; [auto|auto|].
    right. right. apply Hrestk. apply elem_of_take in Hr as (i & Hr & _).
    by eapply list_elem_of_lookup_2.
  - intros f -> Hmax. rewrite Hp, Hhead. by rewrite (proj2 (Nat.ltb_lt _ _) Hmax).
  - destruct Hall as [Hall|Hall].
    + left. intros r Hr. rewrite Hp. apply elem_of_app. left. by apply Hall.
    + right. apply (f_equal length) in Hp. rewrite (length_app (head ++ tier)) in Hp. lia.
  - intros taken left_out Ht Hnf Hnforced Hknown Hleft.
    rewrite Hp, elem_of_app in Ht. destruct Ht as [Ht|Ht].
    { exfalso. apply elem_of_app in Ht as [Ht|Ht]; [by apply Hnf, Hheadf|by apply Hnforced, Htier]. }
    assert (left_out ∈ drop k rest) as Hl.
    { assert (left_out ∈ rest) as Hin.
      { rewrite Hrest. apply list_elem_of_In, filter_In. rewrite <- list_elem_of_In.
        split; [by apply rotation_order_elem|]. rewrite bool_decide_eq_false_2; [done|].
        intros Hin. apply Hleft. rewrite Hp. set_solver. }
      rewrite <- (take_drop k rest) in Hin. apply elem_of_app in Hin as [Hin|Hin]; [|done].
      exfalso. apply Hleft. rewrite Hp. set_solver. }
    apply (StronglySorted_split (fun a b => stale_le (known !! a, a) (known !! b, b))
      (take k rest) (drop k rest)); [|done|done].
    rewrite take_drop, Hrest. apply StronglySorted_filter, rotation_order_sorted.
Qed.
