(* ===== verification/RepoFirst.v ===== *)
(** * The repo-first sweep plan
      ([src/crates/server/src/polling/sources/mod.rs]) and how it covers the
      roster

    The roster of scoped members, the plan of one repo-first tick (a batch of the
    queued reconcile, or a slice of the rotation of [Scheduler.v]), and the
    theorems on sequences of ticks: which members they reach, and when.

    The governor's [capacity_for] closure is an argument, as in the code. *)

From Stdlib Require Import String.
From S2P Require Import Prelude Text Scheduler.

#[global] Open Scope Z_scope.

Definition slash : Ascii.ascii := Ascii.ascii_of_nat 47.
Definition github_prefix : string := "github:"%string.

(** The member a scope names: the part after [github:], if any. *)
Definition scope_member (scope : string) : option string :=
  match strip_prefix github_prefix scope with
  | Some member => if is_empty member then None else Some member
  | None => None
  end.

Definition is_org (member : string) : bool :=
  match split_once slash member with None => true | Some _ => false end.

(** A child of an org that is itself a member. *)
Definition org_covered (members : gset string) (member : string) : bool :=
  match split_once slash member with
  | Some (owner, _) => bool_decide (owner ∈ members) && is_org owner
  | None => false
  end.

Definition roster_members (scopes watch_repos : gset string) : gset string :=
  list_to_set (omap scope_member (elements scopes)) ∪ watch_repos.

Definition repo_roster (scopes watch_repos : gset string) : list string :=
  let members := roster_members scopes watch_repos in
  List.filter (fun member => negb (org_covered members member)) (sorted_elements members).

(** Ticks between two refreshes of one member; both intervals in nanoseconds. *)
Definition rotation_target_ticks (repo_refresh_interval poll_interval : Z) : Z :=
  let poll := Z.max (as_secs poll_interval) 1 in
  Z.max (div_ceil (as_secs repo_refresh_interval) poll) 1.

Record RepoSweepPlan : Type := mkPlan {
  members : list string;
  reconcile : bool;
  reconcile_final : bool;
  in_scope : list string;
  reconcile_remaining : nat;
  roster_len : nat;
}.

(** The sorted [repos] that [base] does not list. *)
Definition extras (base : list string) (repos : gset string) : list string :=
  merge_sort String.le (filter (fun repo => repo ∉ base) (elements repos)).

(** The reconcile queue: the focused repo, the rest of the roster, the rest of the
    session-bearing repos. *)
Definition reconcile_queue (focused : option string) (roster : list string)
    (sessioned : gset string) : list string :=
  let queue :=
    match focused with
    | Some focus => focus :: filter (fun m => focus <> m) roster
    | None => roster
    end in
  queue ++ extras queue sessioned.

Definition plan_repo_first_tick (s : RoundRobinState) (reconcile_pending : list string)
    (roster : list string) (sessioned_repos live_agent_repos : gset string)
    (reconcile_admitted manual_refresh poll_notifications : bool) (fanout : nat)
    (capacity_for : nat -> bool -> nat) (now : Z) : RoundRobinState * list string * RepoSweepPlan :=
  let '(s, pending) :=
    if bool_decide (reconcile_pending = []) && reconcile_admitted
    then (seed_roster roster now s, reconcile_queue (focused_repo s) roster sessioned_repos)
    else (s, reconcile_pending) in
  if negb poll_notifications then
    (s, pending, mkPlan [] false false [] (length pending) (length roster))
  else if negb (bool_decide (pending = [])) then
    let batch :=
      Nat.min
        (Nat.max
          (capacity_for (Nat.max fanout 1 * (if manual_refresh then 2 else 1))%nat true) 1)
        (length pending) in
    let swept := take batch pending in
    let pending := drop batch pending in
    (advance (record_all now swept s), pending,
     mkPlan swept true (bool_decide (pending = [])) (roster ++ extras roster sessioned_repos)
       (length pending) (length roster))
  else
    let eligible := roster ++ extras roster sessioned_repos in
    let limit := (fanout + size live_agent_repos + 1)%nat in
    let '(s, swept) :=
      plan_repo_rotation eligible live_agent_repos fanout (capacity_for limit false) now s in
    (s, pending, mkPlan swept false false [] 0 (length roster)).

(** ** Sequences of ticks *)

(** Rotation ticks at the given times. *)
Fixpoint rotations (roster : list string) (forced : gset string) (fanout max_members : nat)
    (nows : list Z) (s : RoundRobinState) : list (list string) :=
  match nows with
  | [] => []
  | now :: nows =>
      let '(s, picked) := plan_repo_rotation roster forced fanout max_members now s in
      picked :: rotations roster forced fanout max_members nows s
  end.

(** What one tick after the other finds to sweep. *)
Record TickInput : Type := mkTick {
  ti_sessioned : gset string;
  ti_live : gset string;
  ti_manual : bool;
  ti_fanout : nat;
  ti_capacity : nat -> bool -> nat;
  ti_now : Z;
}.

(** Warm ticks until a plan is final: the batches swept, the final one included.
    [None] when the inputs run out first.  [admitted] holds on the first tick, as
    the queue is only seeded when it is empty. *)
Fixpoint reconcile_run (roster : list string) (ticks : list TickInput) (admitted : bool)
    (s : RoundRobinState) (pending : list string) : option (list (list string)) :=
  match ticks with
  | [] => None
  | t :: ticks =>
      let '(s, pending, plan) :=
        plan_repo_first_tick s pending roster (ti_sessioned t) (ti_live t) admitted
          (ti_manual t) true (ti_fanout t) (ti_capacity t) (ti_now t) in
      if reconcile_final plan then Some [members plan]
      else match reconcile_run roster ticks admitted s pending with
           | Some batches => Some (members plan :: batches)
           | None => None
           end
  end.

(** ** The reconcile queue *)

Lemma extras_elem base repos r : r ∈ extras base repos <-> r ∈ repos /\ r ∉ base.
Proof.
  unfold extras. rewrite merge_sort_Permutation, list_elem_of_filter, elem_of_elements. naive_solver.
Qed.

Lemma extras_NoDup base repos : NoDup (extras base repos).
Proof. unfold extras. rewrite merge_sort_Permutation. apply NoDup_filter, NoDup_elements. Qed.

Lemma reconcile_queue_elem focused roster sessioned r :
  r ∈ reconcile_queue focused roster sessioned
  <-> focused = Some r \/ r ∈ roster \/ r ∈ sessioned.
Proof.
  unfold reconcile_queue. rewrite elem_of_app, extras_elem. destruct focused as [f|].
  - rewrite elem_of_cons, list_elem_of_filter.
    destruct (decide (r = f)) as [->|Hf]; [naive_solver|].
    destruct (decide (r ∈ roster)); naive_solver.
  - destruct (decide (r ∈ roster)); naive_solver.
Qed.

Lemma reconcile_queue_NoDup focused roster sessioned :
  NoDup roster -> NoDup (reconcile_queue focused roster sessioned).
Proof.
  intros Hnd. unfold reconcile_queue. apply NoDup_app. split_and!.
  - destruct focused as [f|]; [|done]. apply NoDup_cons. split; [|by apply NoDup_filter].
    rewrite list_elem_of_filter. naive_solver.
  - intros r Hr. rewrite extras_elem. naive_solver.
  - apply extras_NoDup.
Qed.

(** A tick with a queue takes a non-empty batch off its front. *)
Lemma tick_takes_a_batch s pending roster sessioned live admitted manual fanout cap now :
  pending <> [] ->
  exists s' batch,
    plan_repo_first_tick s pending roster sessioned live admitted manual true fanout cap now
    = (s', drop batch pending,
       mkPlan (take batch pending) true (bool_decide (drop batch pending = []))
         (roster ++ extras roster sessioned) (length (drop batch pending)) (length roster))
    /\ (0 < batch <= length pending)%nat.
Proof.
  intros Hp. unfold plan_repo_first_tick. rewrite (bool_decide_eq_false_2 (pending = [])) by done.
  cbn [andb negb]. rewrite (bool_decide_eq_false_2 (pending = [])) by done. cbn [negb]. eexists _, _. split; [reflexivity|]. destruct pending; [done|]. cbn [length]. lia.
Qed.

Lemma reconcile_drains roster ticks admitted s pending :
  pending <> [] -> (length pending <= length ticks)%nat ->
  exists batches,
    reconcile_run roster ticks admitted s pending = Some batches
    /\ concat batches = pending /\ Forall (fun b => b <> []) batches.
Proof.
  revert s pending. induction ticks as [|t ticks IH]; intros s pending Hp Hlen.
  { destruct pending; [done|simpl in Hlen; lia]. }
  cbn [reconcile_run].
  destruct (tick_takes_a_batch s pending roster (ti_sessioned t) (ti_live t) admitted (ti_manual t)
    (ti_fanout t) (ti_capacity t) (ti_now t) Hp) as (s' & batch & -> & Hb).
  cbn [reconcile_final members].
  assert (take batch pending <> []) as Ht.
  { intros E. apply (f_equal length) in E. rewrite length_take in E. simpl in E. lia. }
  case_bool_decide as Hd.
  - exists [take batch pending]. split; [done|]. split; [|by apply Forall_singleton].
    cbn [concat]. pose proof (take_drop batch pending) as E. by rewrite Hd in E.
  - destruct (IH s' (drop batch pending) Hd) as (batches & -> & Hc & Hne).
    { rewrite length_drop. simpl in Hlen. lia. }
    exists (take batch pending :: batches). split; [done|]. split; [|by constructor].
    cbn [concat]. by rewrite Hc, take_drop.
Qed.

(** an admitted reconcile reaches everything.  Started with an empty queue and
    something to sweep, one warm tick after the other ends in a final batch within
    as many ticks as there are members, whatever the governor admits; its batches
    are never empty and together they are, in order and without repetition, the
    focused repo, the roster and the session-bearing repos. *)
Theorem reconcile_sweeps_everything roster t ticks s :
  NoDup roster ->
  reconcile_queue (focused_repo s) roster (ti_sessioned t) <> [] ->
  (length (reconcile_queue (focused_repo s) roster (ti_sessioned t)) <= S (length ticks))%nat ->
  exists batches,
    reconcile_run roster (t :: ticks) true s [] = Some batches
    /\ Forall (fun b => b <> []) batches
    /\ concat batches = reconcile_queue (focused_repo s) roster (ti_sessioned t)
    /\ NoDup (concat batches)
    /\ (forall f, focused_repo s = Some f -> concat batches !! O = Some f)
    /\ (forall r, r ∈ concat batches
          <-> focused_repo s = Some r \/ r ∈ roster \/ r ∈ ti_sessioned t).
Proof.
  intros Hnd Hq Hlen.
  destruct (reconcile_drains roster (t :: ticks) true (seed_roster roster (ti_now t) s) _ Hq Hlen)
    as (batches & Hrun & Hc & Hne).
  exists batches. split.
  { rewrite <- Hrun. cbn [reconcile_run]. unfold plan_repo_first_tick.
    rewrite (bool_decide_eq_true_2 ([] = [])), (bool_decide_eq_false_2 (reconcile_queue _ _ _ = []))
      by done. reflexivity. }
  rewrite Hc. split_and!; [done|done|by apply reconcile_queue_NoDup| |intros; apply reconcile_queue_elem].
  intros f Hf. unfold reconcile_queue. by rewrite Hf.
Qed.

Definition example_tick (fanout : nat) (now : Z) : TickInput :=
  mkTick {[ "acme/child"%string ]} ∅ false fanout (fun limit _ => limit) now.

Lemma reconcile_sweeps_everything_witness :
  exists batches,
    reconcile_run ["acme"%string; "acme/widgets"%string] (replicate 4 (example_tick 2 0)) true
      (mkState ∅ ∅ (Some "other/focused"%string) 0) [] = Some batches
    /\ concat batches !! O = Some "other/focused"%string
    /\ batches = [["other/focused"; "acme"]; ["acme/widgets"; "acme/child"]]%string.
Proof.
  destruct (reconcile_sweeps_everything ["acme"%string; "acme/widgets"%string] (example_tick 2 0)
    (replicate 3 (example_tick 2 0)) (mkState ∅ ∅ (Some "other/focused"%string) 0))
    as (batches & Hrun & _ & _ & _ & Hfocus & _).
  - apply (bool_decide_unpack _). vm_compute. done.
  - apply (bool_decide_unpack _). vm_compute. done.
  - apply (bool_decide_unpack _). vm_compute. done.
  - exists batches. split; [exact Hrun|]. split; [by apply Hfocus|].
    assert (reconcile_run ["acme"%string; "acme/widgets"%string]
      (example_tick 2 0 :: replicate 3 (example_tick 2 0)) true
      (mkState ∅ ∅ (Some "other/focused"%string) 0) []
      = Some [["other/focused"; "acme"]; ["acme/widgets"; "acme/child"]]%string) as E
      by (vm_compute; reflexivity).
    congruence.
Defined.

(** ** The rotation *)

(** The stamp [seed_roster] leaves on a member at [now]. *)
Definition stamp (now : Z) (s : RoundRobinState) (r : string) : Z :=
  default (default (now - CURSOR_TTL / 2) (suspended_cold s !! r)) (cursor s !! r).

Lemma or_insert_lookup k v m r :
  or_insert k v m !! r = if decide (r = k) then Some (default v (m !! k)) else m !! r.
Proof.
  unfold or_insert. destruct (m !! k) as [w|] eqn:E; case_decide as D; subst; try done.
  - by rewrite lookup_insert_eq.
  - by rewrite lookup_insert_ne.
Qed.

Lemma seed_member_cursor now s m r :
  cursor (seed_member (now - CURSOR_TTL / 2) s m) !! r
  = if decide (r = m) then Some (stamp now s m) else cursor s !! r.
Proof.
  unfold seed_member, stamp. cbn [cursor]. rewrite or_insert_lookup.
  destruct (suspended_cold s !! m) as [l|]; simpl; case_decide as D; subst; try done.
  - by rewrite or_insert_lookup, decide_True.
  - by rewrite or_insert_lookup, decide_False.
Qed.

Lemma seed_member_stamp now s m r : stamp now (seed_member (now - CURSOR_TTL / 2) s m) r = stamp now s r.
Proof.
  unfold stamp at 1. rewrite seed_member_cursor. case_decide as D; subst; [done|].
  unfold seed_member. cbn [suspended_cold]. by rewrite lookup_delete_ne.
Qed.

Lemma seed_roster_cursor roster now s r :
  cursor (seed_roster roster now s) !! r
  = if decide (r ∈ roster) then Some (stamp now s r) else cursor s !! r.
Proof.
  unfold seed_roster. revert s. induction roster as [|m roster IH]; intros s; cbn [fold_left].
  { by rewrite decide_False by set_solver. }
  rewrite IH, seed_member_stamp, seed_member_cursor.
  destruct (decide (r = m)) as [->|Hm].
  - rewrite (decide_True _ _ (P := m ∈ m :: roster)) by set_solver. by case_decide.
  - destruct (decide (r ∈ roster)); [by rewrite decide_True by set_solver|].
    by rewrite decide_False by set_solver.
Qed.

Lemma seed_roster_focus roster now s : focused_repo (seed_roster roster now s) = focused_repo s.
Proof. unfold seed_roster. revert s. induction roster as [|m roster IH]; intros s; [done|]. cbn [fold_left]. by rewrite IH. Qed.

Lemma record_all_cursor now picked s r :
  cursor (record_all now picked s) !! r
  = if decide (r ∈ picked) then Some now else cursor s !! r.
Proof.
  unfold record_all. revert s. induction picked as [|m picked IH]; intros s; cbn [fold_left].
  { by rewrite decide_False by set_solver. }
  rewrite IH. unfold record_sync. cbn [cursor]. destruct (decide (r = m)) as [->|Hm].
  - rewrite lookup_insert_eq, (decide_True _ _ (P := m ∈ m :: picked)) by set_solver. by case_decide.
  - rewrite lookup_insert_ne by done. destruct (decide (r ∈ picked)).
    + by rewrite decide_True by set_solver.
    + by rewrite decide_False by set_solver.
Qed.

Lemma record_all_focus now picked s : focused_repo (record_all now picked s) = focused_repo s.
Proof. unfold record_all. revert s. induction picked as [|m p IH]; intros s; [done|]. cbn [fold_left]. by rewrite IH. Qed.

(** One rotation tick, as its pick and its effect on the stamps of fresh members. *)
Lemma rotation_tick roster forced fanout max_members now s :
  exists s' picked eligible head tier rest k,
    plan_repo_rotation roster forced fanout max_members now s = (s', picked)
    /\ pick_parts eligible (focused_repo s) forced fanout max_members picked head tier rest k
    /\ focused_repo s' = focused_repo s
    /\ (forall r, r ∈ roster -> fresh_entry now (stamp now s r) ->
          eligible !! r = Some (stamp now s r)
          /\ cursor s' !! r = Some (if decide (r ∈ picked) then now else stamp now s r))
    /\ (forall r, is_Some (eligible !! r) -> r ∈ roster \/ r ∈ forced).
Proof.
  unfold plan_repo_rotation.
  set (s1 := prune now (seed_roster roster now s)).
  set (eligible := filter _ (cursor s1)).
  destruct (pick_has_parts eligible (focused_repo s1) forced (tick s1) fanout max_members)
    as (head & tier & rest & k & Hparts).
  set (pick := pick_repos_for_tick_budgeted _ _ _ _ _ _) in *.
  assert (focused_repo s1 = focused_repo s) as Hf by apply seed_roster_focus.
  rewrite Hf in Hparts.
  exists (advance (record_all now (repos pick) s1)), (repos pick), eligible, head, tier, rest, k.
  split_and!; [done|done| | |].
  - cbn [advance focused_repo]. by rewrite record_all_focus.
  - intros r Hr Hfresh.
    assert (cursor s1 !! r = Some (stamp now s r)) as Hc.
    { unfold s1, prune. cbn [cursor]. apply map_lookup_filter_Some. split; [|done].
      by rewrite seed_roster_cursor, decide_True. }
    split; [apply map_lookup_filter_Some; auto|].
    cbn [advance cursor]. rewrite record_all_cursor. by case_decide.
  - intros r [v [_ Hv]%map_lookup_filter_Some]. exact Hv.
Qed.

(** What the rotation keeps at [now]: the members of [done] were swept at [start]
    or later, the others were last swept before; no stamp expires before [stop]. *)
Record rotating (roster : list string) (start stop now : Z) (s : RoundRobinState)
    (swept : gset string) : Prop := {
  rot_now : start <= now <= stop;
  rot_span : stop - start < CURSOR_TTL;
  rot_fresh r : r ∈ roster -> stop - stamp now s r < CURSOR_TTL;
  rot_old r : r ∈ roster -> r ∉ swept -> stamp now s r < start;
  rot_new r : r ∈ roster -> r ∈ swept -> start <= stamp now s r;
}.

(** With room for the fan-out above the forced repos and no other focus, a pick has
    every forced repo and the first [fanout] of the rest. *)
Lemma pick_has_room eligible focused forced fanout max_members picked head tier rest k :
  pick_parts eligible focused forced fanout max_members picked head tier rest k ->
  (forall f, focused = Some f -> f ∈ forced) ->
  (0 < fanout)%nat -> (fanout + size forced <= max_members)%nat ->
  (forall r, r ∈ forced -> r ∈ head ++ tier) /\ k = fanout.
Proof.
  intros [Hp Hhead Htier Hall Hrest Hk Hnd Hlen] Hfocus Hfan Hmax.
  assert (length (head ++ tier) <= size forced)%nat as Hsize.
  { rewrite Hp in Hnd. apply NoDup_app in Hnd as (Hnd & _ & _).
    rewrite <- (size_list_to_set (C := gset string)) by exact Hnd. apply subseteq_size. intros r.
    rewrite elem_of_list_to_set, elem_of_app. intros [Hr|Hr]; [|by apply Htier].
    rewrite Hhead in Hr. destruct focused as [f|]; [|by apply not_elem_of_nil in Hr].
    destruct (Nat.ltb _ _); [|by apply not_elem_of_nil in Hr].
    apply list_elem_of_singleton in Hr as ->. by apply Hfocus. }
  split; [destruct Hall; [done|lia]|].
  assert (effective_n fanout = fanout) as He by (destruct fanout; [lia|done]).
  rewrite Hk, He. destruct focused as [f|]; [|lia].
  rewrite (bool_decide_eq_true_2 (f ∈ forced)) by auto. destruct (Nat.ltb _ _); lia.
Qed.

Lemma pick_rest_elem eligible focused forced fanout max_members picked head tier rest k r :
  pick_parts eligible focused forced fanout max_members picked head tier rest k ->
  r ∈ rest <-> is_Some (eligible !! r) /\ r ∉ head ++ tier.
Proof.
  intros [_ _ _ _ -> _ _ _]. rewrite list_elem_of_In, filter_In, <- list_elem_of_In.
  rewrite rotation_order_elem, negb_true_iff, bool_decide_eq_false. done.
Qed.

Lemma pick_rest_stalest eligible focused forced fanout max_members picked head tier rest k t u :
  pick_parts eligible focused forced fanout max_members picked head tier rest k ->
  t ∈ take k rest -> u ∈ rest -> u ∉ take k rest ->
  stale_le (eligible !! t, t) (eligible !! u, u) /\ length (take k rest) = k.
Proof.
  intros [_ _ _ _ Hrest _ _ _] Ht Hu Hnu.
  assert (u ∈ drop k rest) as Hd.
  { rewrite <- (take_drop k rest) in Hu. by apply elem_of_app in Hu as [?|?]. }
  split.
  - apply (StronglySorted_split (fun a b => stale_le (eligible !! a, a) (eligible !! b, b))
      (take k rest) (drop k rest)); [|done|done].
    rewrite take_drop, Hrest. apply StronglySorted_filter, rotation_order_sorted.
  - rewrite length_take. apply list_elem_of_lookup in Hd as [i Hi]. apply lookup_lt_Some in Hi.
    rewrite length_drop in Hi. lia.
Qed.

(** A pick shrinks what is unswept by the fan-out, or to nothing: the rotation does
    not come back to a member before it has been to all. *)
Lemma pick_progress roster swept (st : string -> Z) start eligible focused forced fanout max_members
    picked head tier rest :
  pick_parts eligible focused forced fanout max_members picked head tier rest fanout ->
  (forall r, r ∈ roster -> eligible !! r = Some (st r)) ->
  (forall r, is_Some (eligible !! r) -> r ∈ roster \/ r ∈ forced) ->
  (forall r, r ∈ roster -> r ∉ swept -> st r < start) ->
  (forall r, r ∈ roster -> r ∈ swept -> start <= st r) ->
  (forall r, r ∈ forced -> r ∈ head ++ tier) ->
  (size (list_to_set roster ∖ (swept ∪ list_to_set picked ∪ forced) : gset string)
   <= size (list_to_set roster ∖ (swept ∪ forced)) - fanout)%nat.
Proof.
  intros Hparts Hin Helig Hold Hnew Hforced.
  destruct (set_choose_or_empty (list_to_set roster ∖ (swept ∪ list_to_set picked ∪ forced) : gset string))
    as [[u Hu]|E]; [|rewrite (proj2 (size_empty_iff _) E); lia].
  assert (u ∈ roster /\ u ∉ swept /\ u ∉ picked /\ u ∉ forced) as (Hur & Hus & Hup & Huf) by set_solver.
  assert (forall r, r ∈ rest -> r ∉ forced /\ r ∈ roster) as Hrest.
  { intros r Hr. apply (pick_rest_elem _ _ _ _ _ _ _ _ _ _ _ Hparts) in Hr as [Hk Hno].
    assert (r ∉ forced) by auto. split; [done|]. by destruct (Helig r Hk). }
  assert (u ∈ rest /\ u ∉ take fanout rest) as [Hu1 Hu2].
  { rewrite (pp_picked _ _ _ _ _ _ _ _ _ _ Hparts), !elem_of_app in Hup.
    split; [|naive_solver]. apply (pick_rest_elem _ _ _ _ _ _ _ _ _ _ _ Hparts).
    split; [by rewrite Hin|]. rewrite elem_of_app. naive_solver. }
  assert (forall t, t ∈ take fanout rest -> t ∈ roster /\ t ∉ swept /\ t ∉ forced /\ t ∈ picked) as Htake.
  { intros t Ht. destruct (pick_rest_stalest _ _ _ _ _ _ _ _ _ _ _ _ Hparts Ht Hu1 Hu2) as [Hle _].
    assert (t ∈ rest) as Htr by (apply elem_of_take in Ht as (i & Ht & _); by eapply list_elem_of_lookup_2).
    destruct (Hrest t Htr) as [Htf Htroster]. split; [done|]. split_and!; [|done|].
    - intros Hts. specialize (Hnew t Htroster Hts). specialize (Hold u Hur Hus).
      rewrite !Hin in Hle by done. unfold stale_le in Hle. simpl in Hle. lia.
    - rewrite (pp_picked _ _ _ _ _ _ _ _ _ _ Hparts), elem_of_app. by right. }
  assert (size (list_to_set (take fanout rest) : gset string) = fanout) as Hsize.
  { rewrite size_list_to_set.
    - destruct (decide (fanout = O)) as [->|]; [by rewrite take_0|].
      rewrite length_take, Nat.min_l; [done|]. apply list_elem_of_lookup in Hu1 as [i Hi].
      destruct (decide (i < fanout)%nat) as [Hlt|].
      + exfalso. apply Hu2. apply elem_of_take. eauto.
      + apply lookup_lt_Some in Hi. lia.
    - pose proof (pp_NoDup _ _ _ _ _ _ _ _ _ _ Hparts) as Hnd.
      rewrite (pp_picked _ _ _ _ _ _ _ _ _ _ Hparts) in Hnd. by apply NoDup_app in Hnd as (_ & _ & ?). }
  rewrite <- Hsize, <- size_difference by (intros t; rewrite elem_of_list_to_set; set_solver).
  apply subseteq_size. intros r. specialize (Htake r). set_solver.
Qed.

(** A tick sweeps everything forced, and as much of the unswept roster as the
    fan-out says; what it sweeps first is unswept. *)
Lemma rotating_tick roster forced fanout max_members start stop now s swept :
  rotating roster start stop now s swept ->
  (forall f, focused_repo s = Some f -> f ∈ forced) ->
  (0 < fanout)%nat -> (fanout + size forced <= max_members)%nat ->
  exists s' picked,
    plan_repo_rotation roster forced fanout max_members now s = (s', picked)
    /\ focused_repo s' = focused_repo s
    /\ (forall now', now < now' <= stop ->
          rotating roster start stop now' s' (swept ∪ list_to_set picked))
    /\ (forall r, r ∈ forced -> r ∈ picked)
    /\ (size (list_to_set roster ∖ (swept ∪ list_to_set picked ∪ forced))
        <= size (list_to_set roster ∖ (swept ∪ forced)) - fanout)%nat.
Proof.
  intros [Hnow Hspan Hfresh Hold Hnew] Hfocus Hfan Hmax.
  destruct (rotation_tick roster forced fanout max_members now s)
    as (s' & picked & eligible & head & tier & rest & k & Hplan & Hparts & Hf & Hro & Helig).
  destruct (pick_has_room _ _ _ _ _ _ _ _ _ _ Hparts Hfocus Hfan Hmax) as [Hforced ->].
  assert (forall r, r ∈ roster -> fresh_entry now (stamp now s r)) as Hfr.
  { intros r Hr. unfold fresh_entry. destruct (checked_duration_since _ _) eqn:Hd; [|done].
    apply checked_duration_since_Some in Hd as [_ ->]. specialize (Hfresh r Hr). lia. }
  exists s', picked. split_and!; [done|done| | |].
  - intros now' Hn. assert (forall r, r ∈ roster ->
      stamp now' s' r = if decide (r ∈ picked) then now else stamp now s r) as Hs.
    { intros r Hr. unfold stamp at 1. by rewrite (proj2 (Hro r Hr (Hfr r Hr))). }
    split; [lia|done|..]; intros r Hr; rewrite Hs by done; case_decide as D.
    + lia.
    + by apply Hfresh.
    + intros Hn'. exfalso. set_solver.
    + intros Hn'. apply Hold; set_solver.
    + lia.
    + intros Hn'. apply Hnew; set_solver.
  - intros r Hr. destruct Hparts as [-> _ _ _ _ _ _ _]. apply elem_of_app. left. auto.
  - apply (pick_progress roster swept (stamp now s) start eligible (focused_repo s) forced fanout
      max_members picked head tier rest); [done|by intros; apply Hro; auto|done..].
Qed.

Lemma rotations_cover roster forced fanout max_members start stop nows s swept :
  (forall f, focused_repo s = Some f -> f ∈ forced) ->
  (0 < fanout)%nat -> (fanout + size forced <= max_members)%nat ->
  StronglySorted Z.lt nows -> Forall (fun t => t <= stop) nows ->
  (forall now, head nows = Some now -> rotating roster start stop now s swept) ->
  (size (list_to_set roster ∖ (swept ∪ forced) : gset string) <= fanout * length nows)%nat ->
  let picks := rotations roster forced fanout max_members nows s in
  Forall (fun picked => forall r, r ∈ forced -> r ∈ picked) picks
  /\ forall r, r ∈ roster -> r ∉ forced -> r ∈ swept \/ exists picked, picked ∈ picks /\ r ∈ picked.
Proof.
  intros Hfocus Hfan Hmax. revert s swept Hfocus.
  induction nows as [|now nows IH]; intros s swept Hfocus Hs Hstop Hrot Hsize; cbv zeta; cbn [rotations].
  { split; [constructor|]. intros r Hr Hf. left.
    simpl in Hsize. rewrite Nat.mul_0_r in Hsize. apply Nat.le_0_r, size_empty_iff in Hsize.
    destruct (decide (r ∈ swept)); [done|set_solver]. }
  destruct (rotating_tick roster forced fanout max_members start stop now s swept (Hrot _ eq_refl)
    Hfocus Hfan Hmax) as (s' & picked & -> & Hf & Hrot' & Hforced & Hsize').
  apply StronglySorted_inv in Hs as [Hs Hnow]. apply Forall_cons in Hstop as [_ Hstop].
  destruct (IH s' (swept ∪ list_to_set picked)) as [Hall Hcov].
  - by rewrite Hf.
  - done.
  - done.
  - intros now' Hh. apply Hrot'. destruct nows; [done|]. injection Hh as ->.
    apply Forall_cons in Hnow as [? _]. apply Forall_cons in Hstop as [? _]. lia.
  - simpl in Hsize. lia.
  - split; [by constructor|]. intros r Hr Hnf. destruct (Hcov r Hr Hnf) as [Hsw|(p & Hp & Hrp)].
    + apply elem_of_union in Hsw as [?|Hsw]; [by left|]. apply elem_of_list_to_set in Hsw.
      right. exists picked. split; [by left|done].
    + right. exists p. split; [by right|done].
Qed.

Lemma size_list_to_set_le (l : list string) : (size (list_to_set l : gset string) <= length l)%nat.
Proof.
  induction l as [|x l IH].
  { change (list_to_set []) with (∅ : gset string). by rewrite size_empty. }
  change (list_to_set (x :: l)) with ({[ x ]} ∪ list_to_set l : gset string).
  rewrite size_union_alt, size_singleton. cbn [length].
  pose proof (subseteq_size (list_to_set l ∖ {[ x ]} : gset string) (list_to_set l) ltac:(set_solver)).
  lia.
Qed.

Lemma rotation_fanout_covers len target :
  (0 < len)%nat -> (0 < target)%nat ->
  (0 < rotation_fanout len target)%nat /\ (len <= rotation_fanout len target * target)%nat.
Proof.
  intros Hl Ht. unfold rotation_fanout, nat_div_ceil. destruct len as [|len]; [lia|].
  replace (Nat.max target 1) with target by lia. split; [lia|].
  pose proof (Nat.div_mod_eq (S len + target - 1) target).
  pose proof (Nat.mod_upper_bound (S len + target - 1) target ltac:(lia)). nia.
Qed.

(** the rotation is starvation-free.  With the fan-out computed for [target]
    ticks, a cap that leaves that fan-out above the session-bearing repos, and the
    focus (if any) on one of those, any [target] consecutive ticks sweep every
    member of the roster at least once and every session-bearing repo at each of
    them, provided no entry of the roster expires meanwhile. *)
Theorem rotation_covers_the_roster roster forced max_members nows stop s :
  nows <> [] ->
  StronglySorted Z.lt nows -> Forall (fun t => t <= stop) nows ->
  (rotation_fanout (length roster) (length nows) + size forced <= max_members)%nat ->
  (forall f, focused_repo s = Some f -> f ∈ forced) ->
  Forall (fun start =>
    stop - start < CURSOR_TTL / 2
    /\ forall r last, r ∈ roster -> cursor s !! r = Some last \/ suspended_cold s !! r = Some last ->
         last < start /\ stop - last < CURSOR_TTL) (take 1 nows) ->
  let picks := rotations roster forced (rotation_fanout (length roster) (length nows)) max_members nows s in
  (forall r, r ∈ roster -> exists picked, picked ∈ picks /\ r ∈ picked)
  /\ (forall r picked, r ∈ forced -> picked ∈ picks -> roster <> [] -> r ∈ picked).
Proof.
  intros Hne Hs Hstop Hmax Hfocus Hstart picks.
  destruct nows as [|start nows]; [done|].
  destruct (decide (roster = [])) as [->|Hr]; [split; [set_solver|done]|].
  destruct (rotation_fanout_covers (length roster) (length (start :: nows))) as [Hfan Hcap];
    [destruct roster; [done|simpl; lia]|simpl; lia|].
  apply Forall_singleton in Hstart as [Hspan Hlast].
  assert (0 < CURSOR_TTL) as Hpos by done.
  pose proof (Z.div_pos CURSOR_TTL 2 ltac:(lia) ltac:(lia)) as Hhalf0.
  assert (CURSOR_TTL / 2 + CURSOR_TTL / 2 <= CURSOR_TTL) as Hhalf
    by (pose proof (Z.mul_div_le CURSOR_TTL 2 ltac:(lia)); lia).
  assert (0 < CURSOR_TTL / 2) as Hhalf1 by (vm_compute; done).
  assert (forall r, r ∈ roster -> stamp start s r < start /\ stop - stamp start s r < CURSOR_TTL) as Hst.
  { intros r Hin. unfold stamp. destruct (cursor s !! r) as [l|] eqn:Ec; simpl; [by apply (Hlast r); auto|].
    destruct (suspended_cold s !! r) as [l|] eqn:Es; simpl; [by apply (Hlast r); auto|]. lia. }
  destruct (rotations_cover roster forced (rotation_fanout (length roster) (length (start :: nows)))
    max_members start stop (start :: nows) s ∅) as [Hall Hcov]; try done.
  - intros now [= <-]. apply Forall_cons in Hstop as [? _]. split; [lia|lia|..].
    + intros r Hin. by apply Hst.
    + intros r Hin _. by apply Hst.
    + set_solver.
  - etrans; [apply subseteq_size|etrans; [|exact Hcap]; apply size_list_to_set_le]. set_solver.
  - fold picks in Hall, Hcov. rewrite Forall_forall in Hall. split; [|by eauto].
    intros r Hin. destruct (decide (r ∈ forced)) as [Hf|Hf].
    + unfold picks in *. cbn [rotations] in *.
      destruct (plan_repo_rotation _ _ _ _ _ _) as [s' picked]. exists picked.
      split; [by left|]. by apply Hall; [left|].
    + destruct (Hcov r Hin Hf) as [?|?]; [set_solver|done].
Qed.

Lemma rotation_covers_the_roster_witness :
  let roster := ["o/a"; "o/b"; "o/c"]%string in
  let picks := rotations roster {[ "o/s"%string ]} 2 3 [10; 20]
                 (mkState {[ "o/a"%string := 5 ]} {[ "o/c"%string := 3 ]} (Some "o/s"%string) 0) in
  (forall r, r ∈ roster -> exists picked, picked ∈ picks /\ r ∈ picked)
  /\ picks = [["o/s"; "o/b"; "o/c"]; ["o/s"; "o/a"; "o/b"]]%string.
Proof.
  split.
  - refine (proj1 (rotation_covers_the_roster ["o/a"; "o/b"; "o/c"]%string {[ "o/s"%string ]} 3
      [10; 20] 20
      (mkState {[ "o/a"%string := 5 ]} {[ "o/c"%string := 3 ]} (Some "o/s"%string) 0) _ _ _ _ _ _)).
    + done.
    + repeat constructor.
    + repeat constructor; done.
    + apply (bool_decide_unpack _). vm_compute. done.
    + intros f Hf. cbn in Hf. injection Hf as <-. by apply elem_of_singleton.
    + constructor; [|constructor]. split; [done|]. intros r last _. cbn [cursor suspended_cold].
      rewrite !lookup_singleton_Some. intros [[_ <-]|[_ <-]]; done.
  - vm_compute. reflexivity.
Defined.

(** a focused repo that is not session-bearing takes a slot of the fan-out
    instead of riding on top of it.  So when the roster fits the target interval
    (fan-out one), every tick of any sequence sweeps that repo and the
    session-bearing ones only: no other member of the roster is rotated for as long
    as the focus stays. *)
Theorem focus_starves_a_small_roster roster target forced max_members nows s f :
  (0 < length roster <= target)%nat ->
  focused_repo s = Some f -> f ∉ forced ->
  Forall (fun picked => forall r, r ∈ picked -> r = f \/ r ∈ forced)
    (rotations roster forced (rotation_fanout (length roster) target) max_members nows s).
Proof.
  intros Hlen Hfocus Hf.
  assert (rotation_fanout (length roster) target = 1%nat) as ->.
  { unfold rotation_fanout, nat_div_ceil. destruct (length roster) as [|n]; [lia|].
    replace (Nat.max target 1) with target by lia.
    assert ((S n + target - 1) / target < 2)%nat; [|lia]. apply Nat.Div0.div_lt_upper_bound. lia. }
  revert s Hfocus. induction nows as [|now nows IH]; intros s Hfocus; cbn [rotations]; [constructor|].
  destruct (rotation_tick roster forced 1 max_members now s)
    as (s' & picked & eligible & head & tier & rest & k & -> & Hparts & Hf' & _ & _).
  constructor; [|apply IH; congruence]. rewrite Hfocus in Hparts.
  destruct Hparts as [-> -> Htier _ _ Hk _ _].
  rewrite (bool_decide_eq_false_2 (f ∈ forced)) in Hk by done.
  assert (k = O) as -> by (rewrite Hk; change (effective_n 1) with 1%nat; destruct (Nat.ltb_spec 0 max_members); lia).
  intros r. rewrite take_0, app_nil_r, elem_of_app. intros [Hr|Hr]; [left|right; by apply Htier].
  destruct (Nat.ltb _ _); set_solver.
Qed.

Lemma focus_starves_a_small_roster_witness :
  let picks := rotations ["o/a"; "o/b"; "o/c"]%string ∅ (rotation_fanout 3 5) 10 [10; 20; 30; 40; 50]
                 (mkState ∅ ∅ (Some "o/a"%string) 0) in
  Forall (fun picked => forall r, r ∈ picked -> r = "o/a"%string \/ r ∈ (∅ : gset string)) picks
  /\ picks = replicate 5 ["o/a"%string].
Proof.
  split.
  - refine (focus_starves_a_small_roster ["o/a"; "o/b"; "o/c"]%string 5 ∅ 10 [10; 20; 30; 40; 50]
      (mkState ∅ ∅ (Some "o/a"%string) 0) "o/a"%string _ eq_refl _).
    + cbn [length]. lia.
    + apply not_elem_of_empty.
  - vm_compute. reflexivity.
Defined.

(** ** The roster *)

Lemma roster_members_elem scopes watch_repos m :
  m ∈ roster_members scopes watch_repos
  <-> (exists scope, scope ∈ scopes /\ scope_member scope = Some m) \/ m ∈ watch_repos.
Proof.
  unfold roster_members. rewrite elem_of_union, elem_of_list_to_set, list_elem_of_omap.
  by setoid_rewrite elem_of_elements.
Qed.

(** the roster is a minimal cover.  It is in byte order without repetition, every
    member comes from a scope or is watched, every scoped or watched member is in
    it or its owning organisation is, and no repo is listed under a listed
    organisation. *)
Theorem roster_is_a_minimal_cover scopes watch_repos :
  let roster := repo_roster scopes watch_repos in
  NoDup roster /\ StronglySorted String.le roster
  /\ (forall m, m ∈ roster ->
        (exists scope, scope ∈ scopes /\ scope_member scope = Some m) \/ m ∈ watch_repos)
  /\ (forall m, m ∈ roster_members scopes watch_repos ->
        m ∈ roster
        \/ exists owner repo, split_once slash m = Some (owner, repo) /\ owner ∈ roster)
  /\ (forall m owner repo, m ∈ roster -> split_once slash m = Some (owner, repo) ->
        is_org owner = true -> owner ∉ roster).
Proof.
  intros roster.
  assert (forall m, m ∈ roster <-> m ∈ roster_members scopes watch_repos
            /\ org_covered (roster_members scopes watch_repos) m = false) as Hin.
  { intros m. unfold roster, repo_roster. rewrite list_elem_of_In, filter_In, <- list_elem_of_In.
    by rewrite sorted_elements_elem, negb_true_iff. }
  split_and!.
  - apply NoDup_ListNoDup, List.NoDup_filter, NoDup_ListNoDup.
    apply sorted_elements_NoDup.
  - apply StronglySorted_filter, sorted_elements_sorted.
  - intros m [Hm _]%Hin. by apply roster_members_elem.
  - intros m Hm. destruct (org_covered (roster_members scopes watch_repos) m) eqn:Hc;
      [right|left; by apply Hin].
    unfold org_covered in Hc. destruct (split_once slash m) as [[owner repo]|]; [|done].
    apply andb_true_iff in Hc as [Hc%bool_decide_eq_true Horg]. exists owner, repo. split; [done|].
    apply Hin. split; [done|]. unfold org_covered. unfold is_org in Horg.
    by destruct (split_once slash owner).
  - intros m owner repo [_ Hm]%Hin Hs Horg [Ho _]%Hin. unfold org_covered in Hm.
    rewrite Hs, Horg, bool_decide_eq_true_2 in Hm by done. done.
Qed.
