(* ===== verification/ActivityFeed.v ===== *)
(** * The activity feed of a workspace
      ([src/crates/core/src/workspace.rs], [task.rs], [server/src/workspace/mod.rs])

    The comments and events of all linked tasks, newest first, with the user's read
    state: the oldest [seen_count] items are seen, and single items above them are
    marked in [read_indices].  Positions are unstable, so every merge carries the
    state across by identity.  A [usize] is a [nat], a [HashSet] of indices a
    [gset]. *)

From Stdlib Require Import Ascii String.
From S2P Require Import Prelude Text.

#[global] Open Scope Z_scope.
#[local] Open Scope list_scope.

Inductive ActivityKind : Type := Comment | Review | StatusChange | CiUpdate.

Record Activity : Type := mkActivity {
  act_author : string;
  act_body : string;
  act_created_at : Z;
  act_kind : ActivityKind;
  act_node_id : option string;
  act_path : option string;
  act_line : option Z;
  act_diff_hunk : option string;
  act_thread_id : option string;
}.

#[export] Instance ActivityKind_eq_dec : EqDecision ActivityKind.
Proof. solve_decision. Defined.
#[export] Instance Activity_eq_dec : EqDecision Activity.
Proof. solve_decision. Defined.

(** The content tuple of an item, and its identity: the tuple and which of the items
    with that tuple it is. *)
Definition Tuple : Type := (string * string * Z)%type.
Definition ActivityIdentity : Type := (Tuple * nat)%type.

Definition tuple_of (a : Activity) : Tuple := (act_author a, act_body a, act_created_at a).

Fixpoint identities_from (seen : gmap Tuple nat) (l : list Activity) : list ActivityIdentity :=
  match l with
  | [] => []
  | a :: l =>
      let slot := default 0%nat (seen !! tuple_of a) in
      (tuple_of a, slot) :: identities_from (<[tuple_of a := S slot]> seen) l
  end.

Definition activity_identities (l : list Activity) : list ActivityIdentity := identities_from ∅ l.

Record Feed : Type := mkFeed {
  activity : list Activity;
  seen_count : nat;
  read_indices : gset nat;
}.

Definition MAX_ACTIVITY_ITEMS : nat := 500.

(** ** Reading *)

(** [self.activity.len().saturating_sub(self.seen_count)]: where the seen tail starts. *)
Definition seen_start (f : Feed) : nat := length (activity f) - seen_count f.

Definition is_activity_unread (f : Feed) (index : nat) : bool :=
  (index <? seen_start f)%nat && negb (bool_decide (index ∈ read_indices f)).

Definition unread_activity_indices (f : Feed) : list nat :=
  List.filter (fun i => negb (bool_decide (i ∈ read_indices f))) (seq 0 (seen_start f)).

Definition unread_count (f : Feed) : nat := length (unread_activity_indices f).

Definition mark_read_all (f : Feed) : Feed := mkFeed (activity f) (length (activity f)) ∅.

Definition mark_activity_read (index : nat) (f : Feed) : Feed :=
  if (index <? length (activity f))%nat
  then mkFeed (activity f) (seen_count f) ({[index]} ∪ read_indices f)
  else f.

Definition unmark_activity_read (index : nat) (f : Feed) : Feed :=
  let reads := read_indices f ∖ {[index]} in
  let auto_seen_threshold := seen_start f in
  if (auto_seen_threshold <=? index)%nat
  then mkFeed (activity f) (length (activity f) - (index + 1))
         (list_to_set (seq auto_seen_threshold (index - auto_seen_threshold)) ∪ reads)
  else mkFeed (activity f) (seen_count f) reads.

(** ** Fingerprints *)

Definition ACTIVITY_FINGERPRINT_BODY_PREFIX : nat := 64.

(** A byte that continues a character of UTF-8. *)
Definition is_continuation (c : ascii) : bool :=
  let n := nat_of_ascii c in (128 <=? n)%nat && (n <? 192)%nat.

(** [s.chars().take(n).collect()] *)
Fixpoint take_chars (n : nat) (s : string) : string :=
  match s with
  | EmptyString => EmptyString
  | String c s =>
      if is_continuation c then String c (take_chars n s)
      else match n with O => EmptyString | S n => String c (take_chars n s) end
  end.

Inductive ActivityFingerprint : Type :=
| FpNodeId (node : string)
| FpContent (who : string) (at_ : Z) (body_prefix : string).

#[export] Instance ActivityFingerprint_eq_dec : EqDecision ActivityFingerprint.
Proof. solve_decision. Defined.

Definition fingerprint_of (a : Activity) : ActivityFingerprint :=
  let content := FpContent (act_author a) (act_created_at a)
                   (take_chars ACTIVITY_FINGERPRINT_BODY_PREFIX (act_body a)) in
  match act_node_id a with
  | Some i => if is_empty i then content else FpNodeId i
  | None => content
  end.

Definition matches (fp : ActivityFingerprint) (a : Activity) : bool :=
  bool_decide (fp = fingerprint_of a).

(** [l.iter().position(f)] *)
Fixpoint position (f : Activity -> bool) (l : list Activity) : option nat :=
  match l with
  | [] => None
  | a :: l => if f a then Some O else S <$> position f l
  end.

Definition fingerprint_resolve (fp : ActivityFingerprint) (l : list Activity) (hint : nat) : option nat :=
  match l !! hint with
  | Some act => if matches fp act then Some hint else position (matches fp) l
  | None => position (matches fp) l
  end.

(** The daemon's side of a mark, under the lock of its workspace: [None] when there is
    nothing to commit. *)
Definition apply_activity_mark (f : Feed) (index : nat) (fp : option ActivityFingerprint) (read : bool)
    : option Feed :=
  let act i := if read then mark_activity_read i f else unmark_activity_read i f in
  match fp with
  | Some fp => match fingerprint_resolve fp (activity f) index with
               | Some resolved => Some (act resolved)
               | None => None
               end
  | None => Some (act index)
  end.

(** ** Merging *)

(** A stable sort, newest first. *)
Fixpoint insert_newest (a : Activity) (l : list Activity) : list Activity :=
  match l with
  | [] => [a]
  | b :: l' => if (act_created_at b <=? act_created_at a)%Z then a :: l else b :: insert_newest a l'
  end.

Definition sort_activity (l : list Activity) : list Activity := foldr insert_newest [] l.

Definition same_node (nid : string) (a : Activity) : bool := bool_decide (act_node_id a = Some nid).
Definition same_tuple (t : Tuple) (a : Activity) : bool := bool_decide (tuple_of a = t).

(** [.filter(f).nth(skip)], as an index. *)
Fixpoint nth_position (f : Activity -> bool) (skip : nat) (l : list Activity) : option nat :=
  match l with
  | [] => None
  | a :: l =>
      if f a then match skip with O => Some O | S skip => S <$> nth_position f skip l end
      else S <$> nth_position f skip l
  end.

(** One incoming item; [claimed] counts, per tuple, the stored items already taken. *)
Definition merge_one (st : list Activity * gmap Tuple nat) (act : Activity)
    : list Activity * gmap Tuple nat :=
  let '(l, claimed) := st in
  match nid ← act_node_id act; position (same_node nid) l with
  | Some i => (<[i := act]> l, claimed)
  | None =>
      let tuple := tuple_of act in
      let skip := default 0%nat (claimed !! tuple) in
      let l := match nth_position (same_tuple tuple) skip l with
               | Some i => <[i := act]> l
               | None => l ++ [act]
               end in
      (l, <[tuple := S skip]> claimed)
  end.

Definition merge_items (l incoming : list Activity) : list Activity :=
  (fold_left merge_one incoming (l, ∅)).1.

(** The identities read one by one, and those of the seen tail. *)
Definition read_keys (f : Feed) : list ActivityIdentity :=
  omap (fun i => activity_identities (activity f) !! i) (elements (read_indices f)).
Definition seen_keys (f : Feed) : list ActivityIdentity :=
  drop (seen_start f) (activity_identities (activity f)).

(** The length of the longest suffix whose members all satisfy [f]. *)
Fixpoint prefix_length {A} (f : A -> bool) (l : list A) : nat :=
  match l with
  | [] => O
  | x :: l => if f x then S (prefix_length f l) else O
  end.
Definition suffix_length {A} (f : A -> bool) (l : list A) : nat := prefix_length f (rev l).

Definition member (l : list ActivityIdentity) (i : ActivityIdentity) : bool := bool_decide (i ∈ l).

(** The indices below [cut] whose identity satisfies [f]. *)
Definition indices_where (f : ActivityIdentity -> bool) (ids : list ActivityIdentity) (cut : nat) : gset nat :=
  list_to_set (List.filter (fun i => match ids !! i with Some x => f x | None => false end) (seq 0 cut)).

Definition merge_activity (incoming : list Activity) (f : Feed) : Feed :=
  match incoming with
  | [] => f
  | _ =>
      let reads := read_keys f in
      let seen := seen_keys f in
      let l := take MAX_ACTIVITY_ITEMS (sort_activity (merge_items (activity f) incoming)) in
      let ids := activity_identities l in
      let suffix := suffix_length (member seen) ids in
      let cut := (length l - suffix)%nat in
      mkFeed l suffix (indices_where (fun i => member reads i || member seen i) ids cut)
  end.

Definition absorb_activity_from (other f : Feed) : Feed :=
  match activity other with
  | [] => f
  | _ =>
      let carried := read_keys other ++ seen_keys other in
      let f := merge_activity (activity other) f in
      let ids := activity_identities (activity f) in
      let cut := (length (activity f) - seen_count f)%nat in
      mkFeed (activity f) (seen_count f) (indices_where (member carried) ids cut ∪ read_indices f)
  end.

(** On the first population of a feed what the user had the chance to read is seen. *)
Definition baseline_first_activity_as_seen (last_viewed_at : option Z) (f : Feed) : Feed :=
  match last_viewed_at with
  | None => f
  | Some viewed =>
      mkFeed (activity f) (length (List.filter (fun a => (act_created_at a <=? viewed)%Z) (activity f))) ∅
  end.

(** The feed's part of [attach_task_at]. *)
Definition attach_activity (last_viewed_at : option Z) (recent : list Activity) (f : Feed) : Feed :=
  let was_empty := bool_decide (activity f = []) in
  let f := merge_activity recent f in
  if was_empty then baseline_first_activity_as_seen last_viewed_at f else f.
