(* ===== verification/ActivityFeedProps.v ===== *)
(** * What a merge of feeds keeps ([src/crates/core/src/workspace.rs])

    Read state follows the identity of an item through every merge, whatever is
    inserted above, below or between; what a merge stores; single marks. *)

From Stdlib Require Import Ascii String.
From S2P Require Import Prelude Text ActivityFeed.

#[global] Open Scope Z_scope.
#[local] Open Scope list_scope.

(** ** Identities *)

(** How many items of [l] have the tuple [t]. *)
Definition occ (t : Tuple) (l : list Activity) : nat := length (List.filter (same_tuple t) l).

Lemma occ_app t l1 l2 : occ t (l1 ++ l2) = (occ t l1 + occ t l2)%nat.
Proof. unfold occ. by rewrite List.filter_app, length_app. Qed.

Lemma occ_single t a : occ t [a] = if decide (tuple_of a = t) then 1%nat else 0%nat.
Proof. unfold occ, same_tuple. simpl. by case_bool_decide; case_decide. Qed.

Lemma occ_cons t a l : occ t (a :: l) = ((if decide (tuple_of a = t) then 1 else 0) + occ t l)%nat.
Proof. change (a :: l) with ([a] ++ l). by rewrite occ_app, occ_single. Qed.

Lemma identities_from_lookup l : forall seen i,
  identities_from seen l !! i
  = (fun a => (tuple_of a, (default 0 (seen !! tuple_of a) + occ (tuple_of a) (take i l))%nat)) <$> l !! i.
Proof.
  induction l as [|a l IH]; intros seen i; [done|]. destruct i as [|i]; simpl.
  - unfold occ. simpl. by rewrite Nat.add_0_r.
  - rewrite IH. destruct (l !! i) as [b|] eqn:E; simpl; [|done].
    rewrite occ_cons. do 2 f_equal. destruct (decide (tuple_of a = tuple_of b)) as [Heq|Hne].
    + rewrite <- Heq, lookup_insert_eq. simpl. lia.
    + by rewrite lookup_insert_ne.
Qed.

Lemma identities_lookup l i :
  activity_identities l !! i = (fun a => (tuple_of a, occ (tuple_of a) (take i l))) <$> l !! i.
Proof. unfold activity_identities. rewrite identities_from_lookup. by destruct (l !! i). Qed.

Lemma length_identities l : length (activity_identities l) = length l.
Proof.
  unfold activity_identities. generalize (∅ : gmap Tuple nat).
  induction l as [|a l IH]; intros m; simpl; [done|]. by rewrite IH.
Qed.

Lemma occ_take_lt l i j a :
  (i < j)%nat -> l !! i = Some a -> (occ (tuple_of a) (take i l) < occ (tuple_of a) (take j l))%nat.
Proof.
  intros Hij Ha. assert (take j l = take i l ++ a :: take (j - S i) (drop (S i) l)) as ->.
  { rewrite <- (take_drop_middle l i a Ha) at 1. rewrite take_app, take_take.
    rewrite (length_take_le l i) by (apply lookup_lt_Some in Ha; lia).
    replace (j `min` i)%nat with i by lia. destruct (j - i)%nat as [|k] eqn:E; [lia|]. simpl.
    by replace (j - S i)%nat with k by lia. }
  rewrite occ_app, occ_cons, decide_True by done. lia.
Qed.

(** No two items have the same identity. *)
Lemma identities_inj l i j x :
  activity_identities l !! i = Some x -> activity_identities l !! j = Some x -> i = j.
Proof.
  rewrite !identities_lookup. intros (a & Ha & ->)%fmap_Some (b & Hb & Hx)%fmap_Some.
  injection Hx as Ha' Hb' Hc Ho. assert (tuple_of a = tuple_of b) as Ht by (unfold tuple_of; congruence).
  destruct (lt_eq_lt_dec i j) as [[Hlt|]|Hlt]; [|done|].
  - pose proof (occ_take_lt l i j a Hlt Ha) as H. rewrite Ht in *. lia.
  - pose proof (occ_take_lt l j i b Hlt Hb) as H. rewrite Ht in *. lia.
Qed.

(** ** Read state across a merge *)

Lemma unread_false f i :
  is_activity_unread f i = false <-> (seen_start f <= i)%nat \/ i ∈ read_indices f.
Proof.
  unfold is_activity_unread. rewrite andb_false_iff, Nat.ltb_ge, negb_false_iff, bool_decide_eq_true. done.
Qed.

Lemma read_keys_elem f x :
  x ∈ read_keys f <-> exists j, activity_identities (activity f) !! j = Some x /\ j ∈ read_indices f.
Proof.
  unfold read_keys. rewrite list_elem_of_omap. split.
  - intros (j & Hj%elem_of_elements & Hx). by exists j.
  - intros (j & Hx & Hj%elem_of_elements). by exists j.
Qed.

Lemma seen_keys_elem f x :
  x ∈ seen_keys f <-> exists j, activity_identities (activity f) !! j = Some x /\ (seen_start f <= j)%nat.
Proof.
  unfold seen_keys. rewrite list_elem_of_lookup. split.
  - intros (j & Hj). rewrite lookup_drop in Hj. exists (seen_start f + j)%nat. split; [done|lia].
  - intros (j & Hx & Hj). exists (j - seen_start f)%nat. rewrite lookup_drop.
    by replace (seen_start f + (j - seen_start f))%nat with j by lia.
Qed.

(** The identity [x] is one the user has read in [f]. *)
Definition was_read (f : Feed) (x : ActivityIdentity) : Prop :=
  exists j, activity_identities (activity f) !! j = Some x /\ is_activity_unread f j = false.

Lemma was_read_keys f x : was_read f x <-> x ∈ read_keys f \/ x ∈ seen_keys f.
Proof.
  unfold was_read. rewrite read_keys_elem, seen_keys_elem. setoid_rewrite unread_false. naive_solver.
Qed.

Lemma was_read_here f i x :
  activity_identities (activity f) !! i = Some x -> (is_activity_unread f i = false <-> was_read f x).
Proof.
  intros Hi. split; [by exists i|]. intros (j & Hj & Hr). by rewrite (identities_inj _ _ _ _ Hi Hj).
Qed.

Lemma indices_where_elem g ids cut i :
  i ∈ indices_where g ids cut <-> (i < cut)%nat /\ exists x, ids !! i = Some x /\ g x = true.
Proof.
  unfold indices_where. rewrite elem_of_list_to_set, list_elem_of_In, filter_In, in_seq. split.
  - intros [[_ Hi] H]. split; [lia|]. destruct (ids !! i) as [x|]; [by exists x|done].
  - intros [Hi (x & -> & Hx)]. split; [lia|done].
Qed.

Lemma suffix_length_le {A} g (l : list A) : (suffix_length g l <= length l)%nat.
Proof.
  unfold suffix_length. rewrite <- length_rev. induction (rev l) as [|x r IH]; simpl; [done|].
  destruct (g x); simpl; lia.
Qed.

Lemma suffix_length_spec {A} g (l : list A) i x :
  (length l - suffix_length g l <= i)%nat -> l !! i = Some x -> g x = true.
Proof.
  induction l as [|y l IH] using rev_ind; intros Hi Hx; [done|].
  revert Hi. unfold suffix_length. rewrite rev_unit. simpl. rewrite length_app. simpl.
  pose proof (lookup_lt_Some _ _ _ Hx) as Hlt. rewrite length_app in Hlt. simpl in Hlt.
  destruct (g y) eqn:Hg; [|lia]. intros Hi.
  apply lookup_app_Some in Hx as [Hx|[Hle Hx]].
  - apply IH; [|done]. unfold suffix_length. lia.
  - destruct (i - length l)%nat; simpl in Hx; [by injection Hx as <-|done].
Qed.

Lemma suffix_length_all {A} g (l : list A) k :
  (forall i x, (k <= i)%nat -> l !! i = Some x -> g x = true) -> (length l - k <= suffix_length g l)%nat.
Proof.
  induction l as [|y l IH] using rev_ind; intros Hg; [simpl; lia|].
  unfold suffix_length. rewrite rev_unit. simpl. rewrite length_app. simpl.
  destruct (decide (k <= length l)%nat) as [Hk|]; [|lia].
  rewrite (Hg (length l) y Hk) by (by apply list_lookup_middle).
  assert (length l - k <= suffix_length g l)%nat; [|unfold suffix_length in *; lia].
  apply IH. intros i x Hi Hx. apply (Hg i x Hi). by apply lookup_app_l_Some.
Qed.

Lemma read_state_at_identity incoming f i x :
  activity_identities (activity (merge_activity incoming f)) !! i = Some x ->
  (is_activity_unread (merge_activity incoming f) i = false <-> was_read f x).
Proof.
  destruct incoming as [|a0 inc0]; [apply was_read_here|].
  unfold merge_activity. cbn [activity]. set (l := take _ _). set (ids := activity_identities l).
  set (suffix := suffix_length _ _). set (cut := (length l - suffix)%nat). intros Hx.
  rewrite unread_false, was_read_keys. unfold seen_start. cbn [activity seen_count read_indices].
  fold cut. rewrite indices_where_elem.
  split.
  - intros [Hi|[Hi (y & Hy & Hg)]].
    + right. assert (member (seen_keys f) x = true) as Hm; [|by apply bool_decide_eq_true in Hm].
      eapply (suffix_length_spec _ ids); [|exact Hx]. unfold ids. by rewrite length_identities.
    + assert (y = x) as -> by congruence. apply orb_true_iff in Hg as [Hg|Hg]; apply bool_decide_eq_true in Hg; tauto.
  - intros Hr. destruct (decide (cut <= i)%nat) as [|Hi]; [by left|right]. split; [lia|].
    exists x. split; [done|]. apply orb_true_iff. unfold member. rewrite !bool_decide_eq_true. done.
Qed.

(** What an absorbed feed adds: items read there are read here. *)
Lemma absorb_is_merge other f :
  activity (absorb_activity_from other f) = activity (merge_activity (activity other) f).
Proof. unfold absorb_activity_from. by destruct (activity other). Qed.

Lemma absorbed_state_at_identity other f i x :
  activity_identities (activity (absorb_activity_from other f)) !! i = Some x ->
  (is_activity_unread (absorb_activity_from other f) i = false <-> was_read f x \/ was_read other x).
Proof.
  rewrite absorb_is_merge. intros Hx.
  rewrite <- (read_state_at_identity (activity other) f i x Hx).
  unfold absorb_activity_from. destruct (activity other) as [|a l] eqn:Ea.
  { split; [by left|intros [|(j & Hj & _)]; [done|]]. by rewrite Ea in Hj. }
  rewrite !unread_false. unfold seen_start. cbn [activity seen_count read_indices].
  set (f' := merge_activity (a :: l) f) in *. rewrite elem_of_union, indices_where_elem, was_read_keys.
  unfold member. setoid_rewrite bool_decide_eq_true. setoid_rewrite elem_of_app. split.
  - intros [Hi|[[Hi (y & Hy & Hg)]|Hi]]; [by do 2 left| |by left; right].
    right. by replace x with y by congruence.
  - intros [[Hi|Hi]|Hg]; [by left|by do 2 right|].
    destruct (decide (length (activity f') - seen_count f' <= i)%nat); [by left|].
    right. left. split; [lia|]. by exists x.
Qed.

(** C20: Read state follows identity: after a merge an item is read exactly when the item
    of the same author, text and time, and the same place among such twins, was read
    before; folding another workspace's feed in keeps what was read in either, and
    makes nothing else read. *)
Theorem read_state_follows_identity incoming other f :
  (forall i x, activity_identities (activity (merge_activity incoming f)) !! i = Some x ->
     (is_activity_unread (merge_activity incoming f) i = false <-> was_read f x))
  /\ (forall i x, activity_identities (activity (absorb_activity_from other f)) !! i = Some x ->
       (is_activity_unread (absorb_activity_from other f) i = false <-> was_read f x \/ was_read other x)).
Proof. split; intros i x Hx; [by apply read_state_at_identity|by apply absorbed_state_at_identity]. Qed.

(** ** Order and size *)

Definition newest_first (a b : Activity) : Prop := act_created_at b <= act_created_at a.

Lemma newest_insert_perm a l : insert_newest a l ≡ₚ a :: l.
Proof.
  induction l as [|b l IH]; simpl; [done|]. destruct (act_created_at b <=? act_created_at a); [done|].
  rewrite IH. constructor.
Qed.

Lemma newest_insert_sorted a l :
  StronglySorted newest_first l -> StronglySorted newest_first (insert_newest a l).
Proof.
  induction 1 as [|b l Hs IH Hb]; simpl; [repeat constructor|].
  destruct (Z.leb_spec (act_created_at b) (act_created_at a)) as [Hle|Hlt].
  - constructor; [by constructor|]. constructor; [done|].
    eapply Forall_impl; [exact Hb|]. unfold newest_first. simpl. intros; lia.
  - constructor; [done|]. rewrite newest_insert_perm. constructor; [unfold newest_first; lia|done].
Qed.

Lemma sort_activity_perm l : sort_activity l ≡ₚ l.
Proof. induction l as [|a l IH]; simpl; [done|]. by rewrite newest_insert_perm, IH. Qed.

Lemma sort_activity_sorted l : StronglySorted newest_first (sort_activity l).
Proof. induction l; simpl; [constructor|by apply newest_insert_sorted]. Qed.

Lemma StronglySorted_take {A} (R : relation A) n l : StronglySorted R l -> StronglySorted R (take n l).
Proof. intros Hs. rewrite <- (take_drop n l) in Hs. by eapply StronglySorted_app_1_l. Qed.

(** What every feed of the daemon satisfies. *)
Record feed_ok (f : Feed) : Prop := mkFeedOk {
  ok_sorted : StronglySorted newest_first (activity f);
  ok_size : (length (activity f) <= MAX_ACTIVITY_ITEMS)%nat;
  ok_seen : (seen_count f <= length (activity f))%nat;
}.

Definition empty_feed : Feed := mkFeed [] 0 ∅.

Lemma empty_feed_ok : feed_ok empty_feed.
Proof. split; simpl; [constructor|unfold MAX_ACTIVITY_ITEMS; lia|lia]. Qed.

Lemma merge_activity_ok incoming f : feed_ok f -> feed_ok (merge_activity incoming f).
Proof.
  intros Hf. unfold merge_activity. destruct incoming as [|a inc]; [done|]. split; cbn [activity seen_count].
  - apply StronglySorted_take, sort_activity_sorted.
  - rewrite length_take. lia.
  - etrans; [apply suffix_length_le|]. by rewrite length_identities.
Qed.

Lemma absorb_activity_ok other f : feed_ok f -> feed_ok (absorb_activity_from other f).
Proof.
  intros Hf. unfold absorb_activity_from. destruct (activity other) as [|a inc] eqn:E; [done|].
  destruct (merge_activity_ok (a :: inc) f Hf) as [Hs Hn Hc]. by split.
Qed.

Lemma baseline_ok v f : feed_ok f -> feed_ok (baseline_first_activity_as_seen v f).
Proof.
  intros Hf. destruct v as [v|]; [|done]. destruct Hf as [Hs Hn Hc]. split; [done|done|].
  apply filter_length_le.
Qed.

Inductive FeedOp : Type :=
| Attach (last_viewed_at : option Z) (recent : list Activity)
| Absorb (other : Feed)
| MarkAll
| Mark (index : nat) (fp : option ActivityFingerprint) (read : bool).

Definition feed_step (f : Feed) (op : FeedOp) : Feed :=
  match op with
  | Attach v recent => attach_activity v recent f
  | Absorb other => absorb_activity_from other f
  | MarkAll => mark_read_all f
  | Mark index fp read => default f (apply_activity_mark f index fp read)
  end.

Lemma marks_ok index (read : bool) f :
  feed_ok f -> feed_ok (if read then mark_activity_read index f else unmark_activity_read index f).
Proof.
  intros [Hs Hn Hc]. destruct read; [unfold mark_activity_read|unfold unmark_activity_read];
    case_match; split; simpl; try done. lia.
Qed.

Lemma feed_step_ok f op : feed_ok f -> feed_ok (feed_step f op).
Proof.
  intros Hf. destruct op as [v recent|other| |index fp read]; simpl.
  - unfold attach_activity. case_match; [apply baseline_ok|]; by apply merge_activity_ok.
  - by apply absorb_activity_ok.
  - destruct Hf as [Hs Hn Hc]. by split.
  - unfold apply_activity_mark. destruct fp as [fp|]; simpl; [|by apply marks_ok].
    case_match; simpl; [by apply marks_ok|done].
Qed.

(** ** Marks *)

(** Marking an item read, or undoing it, changes the read state of that item and of
    no other, also when the undo reaches into the tail of seen items. *)
Theorem a_mark_touches_one_item f i :
  (i < length (activity f))%nat ->
  forall j, is_activity_unread (mark_activity_read i f) j = is_activity_unread f j && negb (bool_decide (j = i))
            /\ is_activity_unread (unmark_activity_read i f) j
               = is_activity_unread f j || bool_decide (j = i).
Proof.
  intros Hi j. split.
  - unfold mark_activity_read, is_activity_unread, seen_start. rewrite (proj2 (Nat.ltb_lt _ _) Hi).
    cbn [activity seen_count read_indices]. destruct (_ <? _)%nat; [|done]. simpl.
    repeat case_bool_decide; set_solver.
  - apply eq_true_iff_eq. rewrite orb_true_iff, bool_decide_eq_true.
    rewrite <- (not_false_iff_true (is_activity_unread f j)), <- (not_false_iff_true (is_activity_unread _ j)).
    rewrite !unread_false. unfold unmark_activity_read. destruct (seen_start f <=? i)%nat eqn:E; unfold seen_start in *;
      cbn [activity seen_count read_indices].
    + apply Nat.leb_le in E. rewrite elem_of_union, elem_of_list_to_set, elem_of_difference,
        elem_of_singleton, list_elem_of_In, in_seq.
      destruct (decide (j = i)) as [->|]; [split; [by right|]; intros _; lia|].
      split; [intros H; left|intros [H|]; [|done]]; lia || naive_solver lia.
    + apply Nat.leb_gt in E. rewrite elem_of_difference, elem_of_singleton.
      destruct (decide (j = i)) as [->|]; [split; [by right|]; intros _; naive_solver lia|]. naive_solver.
Qed.

(** ** The first population *)

(** In a list sorted newest first the items up to a date are its tail. *)
Lemma old_items_are_the_tail v l i a :
  StronglySorted newest_first l -> l !! i = Some a ->
  ((length l - length (List.filter (fun a => (act_created_at a <=? v)%Z) l) <= i)%nat <-> act_created_at a <= v).
Proof.
  intros Hs. revert i. induction Hs as [|b l Hs IH Hb]; intros i Ha; [done|]. simpl.
  pose proof (filter_length_le (fun a => (act_created_at a <=? v)%Z) l) as Hlen.
  rewrite Forall_forall in Hb. destruct (Z.leb_spec (act_created_at b) v) as [Hv|Hv]; simpl.
  - assert (List.filter (fun a => (act_created_at a <=? v)%Z) l = l) as ->.
    { apply forallb_filter_id, forallb_forall. intros c Hc%list_elem_of_In%Hb. unfold newest_first in Hc.
      apply Z.leb_le. lia. }
    split; [|lia]. intros _. destruct i as [|i]; simpl in Ha; [by injection Ha as <-|].
    apply list_elem_of_lookup_2, Hb in Ha. unfold newest_first in Ha. lia.
  - destruct i as [|i]; simpl in Ha; [injection Ha as <-; lia|].
    rewrite <- (IH i Ha). destruct (length _) eqn:E; lia.
Qed.

(** The first items of a feed that the user has visited before are read exactly as far
    as they are not newer than the visit. *)
Theorem first_items_are_read_up_to_the_visit f viewed recent i a :
  activity f = [] ->
  activity (attach_activity (Some viewed) recent f) !! i = Some a ->
  is_activity_unread (attach_activity (Some viewed) recent f) i = (viewed <? act_created_at a).
Proof.
  intros He. unfold attach_activity. rewrite bool_decide_eq_true_2 by done. simpl.
  assert (StronglySorted newest_first (activity (merge_activity recent f))) as Hs.
  { destruct recent as [|b r]; simpl; [rewrite He; constructor|]. apply StronglySorted_take, sort_activity_sorted. }
  set (l := activity (merge_activity recent f)) in *. intros Ha. apply eq_true_iff_eq. rewrite Z.ltb_lt.
  rewrite <- (not_false_iff_true (is_activity_unread _ i)), unread_false.
  unfold seen_start. cbn [activity seen_count read_indices].
  rewrite (old_items_are_the_tail viewed l i a Hs Ha), elem_of_empty. lia.
Qed.

(** ** What a merge stores *)

Lemma position_found f l i :
  position f l = Some i <-> exists a, l !! i = Some a /\ f a = true /\ forall j b, (j < i)%nat -> l !! j = Some b -> f b = false.
Proof.
  revert i. induction l as [|c l IH]; intros i; simpl; [naive_solver|]. destruct (f c) eqn:Hc.
  - split.
    + intros [= <-]. exists c. split_and!; [done|done|intros; lia].
    + intros (a & Ha & Hf & Hb). destruct i as [|i]; [done|]. specialize (Hb 0%nat c ltac:(lia) eq_refl). congruence.
  - split.
    + intros (k & Hk & ->)%fmap_Some. apply IH in Hk as (a & Ha & Hf & Hb). exists a. split_and!; [done|done|].
      intros [|j] b Hj; simpl; [by intros [= <-]|]. apply Hb. lia.
    + intros (a & Ha & Hf & Hb). destruct i as [|i]; simpl in Ha; [congruence|].
      apply fmap_Some. exists i. split; [|done]. apply IH. exists a. split_and!; [done|done|].
      intros j b Hj. apply (Hb (S j)). lia.
Qed.

Lemma position_None f l : position f l = None <-> forall a, a ∈ l -> f a = false.
Proof.
  induction l as [|c l IH]; simpl; [set_solver|]. destruct (f c) eqn:Hc.
  - split; [done|]. intros H. rewrite (H c) in Hc; [done|by left].
  - rewrite fmap_None, IH. split; [|intros H a Ha; apply H; by right].
    intros H a [->|Ha]%elem_of_cons; [done|by apply H].
Qed.

Lemma nth_position_Some t skip l i :
  nth_position (same_tuple t) skip l = Some i ->
  exists a, l !! i = Some a /\ tuple_of a = t.
Proof.
  revert skip i. induction l as [|c l IH]; intros skip i; simpl; [done|].
  unfold same_tuple at 1. case_bool_decide as Hc.
  - destruct skip as [|skip]; [intros [= <-]; by exists c|]. intros (k & Hk & ->)%fmap_Some. by eapply IH.
  - intros (k & Hk & ->)%fmap_Some. by eapply IH.
Qed.

Lemma nth_position_None t skip l :
  nth_position (same_tuple t) skip l = None <-> (occ t l <= skip)%nat.
Proof.
  revert skip. induction l as [|c l IH]; intros skip; [unfold occ; simpl; split; [lia|done]|].
  rewrite occ_cons. simpl. unfold same_tuple at 1. case_bool_decide as Hc.
  - rewrite decide_True by done. destruct skip as [|skip]; [split; [done|lia]|]. rewrite fmap_None, IH. lia.
  - rewrite decide_False by done. rewrite fmap_None, IH. lia.
Qed.

Lemma occ_insert t l i a b :
  l !! i = Some b -> tuple_of a = tuple_of b -> occ t (<[i := a]> l) = occ t l.
Proof.
  intros Hb Ht. rewrite insert_take_drop by (by eapply lookup_lt_Some).
  rewrite <- (take_drop_middle l i b Hb) at 3. by rewrite !occ_app, !occ_cons, Ht.
Qed.

Lemma occ_perm t l l' : l ≡ₚ l' -> occ t l = occ t l'.
Proof.
  intros Hp. unfold occ. assert (List.filter (same_tuple t) l ≡ₚ List.filter (same_tuple t) l') as ->; [|done].
  induction Hp as [|x l l' Hp IH|x y l|l1 l2 l3 _ IH1 _ IH2]; simpl; [done| | |by rewrite IH1].
  - by destruct (same_tuple t x); rewrite IH.
  - destruct (same_tuple t x), (same_tuple t y); try done. by constructor.
Qed.

(** Items of providers without node ids: each tuple is stored as often as it was, or as
    often as it came in, whichever is more. *)
Lemma merge_one_nodeless l0 p l claimed act :
  act_node_id act = None ->
  (forall t, occ t l = (occ t l0 `max` occ t p)%nat) ->
  (forall t, default 0%nat (claimed !! t) = occ t p) ->
  let '(l', claimed') := merge_one (l, claimed) act in
  (forall t, occ t l' = (occ t l0 `max` occ t (p ++ [act]))%nat)
  /\ (forall t, default 0%nat (claimed' !! t) = occ t (p ++ [act])).
Proof.
  intros Hn Hl Hc. unfold merge_one. rewrite Hn. simpl. rewrite Hc. split; intros t.
  - rewrite occ_app, occ_single.
    destruct (nth_position (same_tuple (tuple_of act)) (occ (tuple_of act) p) l) as [i|] eqn:En.
    + assert (occ (tuple_of act) p < occ (tuple_of act) l)%nat as Hlt.
      { apply Nat.nle_gt. intros H%nth_position_None. congruence. }
      apply nth_position_Some in En as (b & Hb & Ht). rewrite (occ_insert t l i act b Hb) by done.
      rewrite Hl in Hlt. specialize (Hl t). case_decide as Hd; [rewrite Hd in Hlt|]; lia.
    + apply nth_position_None in En. rewrite occ_app, occ_single. specialize (Hl t).
      case_decide as Hd; [|lia]. rewrite <- Hd in *. rewrite Hl in En |- *. lia.
  - rewrite occ_app, occ_single. destruct (decide (tuple_of act = t)) as [<-|Hne].
    + rewrite lookup_insert_eq. simpl. lia.
    + rewrite lookup_insert_ne by done. rewrite Hc. lia.
Qed.

Lemma merge_items_nodeless l inc t :
  Forall (fun a => act_node_id a = None) inc -> occ t (merge_items l inc) = (occ t l `max` occ t inc)%nat.
Proof.
  intros Hn. unfold merge_items.
  assert (forall p l' claimed, (forall t, occ t l' = (occ t l `max` occ t p)%nat) ->
    (forall t, default 0%nat (claimed !! t) = occ t p) ->
    occ t (fold_left merge_one inc (l', claimed)).1 = (occ t l `max` occ t (p ++ inc))%nat) as H.
  { induction Hn as [|a inc Ha Hn IH]; intros p l' claimed Hl Hc; cbn [fold_left];
      [by rewrite app_nil_r; apply Hl|].
    pose proof (merge_one_nodeless l p l' claimed a Ha Hl Hc) as Hstep.
    destruct (merge_one (l', claimed) a) as [l2 c2]. destruct Hstep as [Hl2 Hc2].
    rewrite (IH (p ++ [a])) by done. by rewrite <- app_assoc. }
  apply (H []); intros t'; unfold occ; simpl; [lia|by rewrite lookup_empty].
Qed.

Lemma merge_activity_items inc f :
  inc <> [] -> (length (merge_items (activity f) inc) <= MAX_ACTIVITY_ITEMS)%nat ->
  activity (merge_activity inc f) ≡ₚ merge_items (activity f) inc.
Proof.
  intros Hne Hlen. unfold merge_activity. destruct inc; [done|]. cbn [activity].
  rewrite take_ge by (by rewrite sort_activity_perm). apply sort_activity_perm.
Qed.

(** *** Items with node ids *)

Definition latest (n : string) (inc : list Activity) : option Activity := List.find (same_node n) (rev inc).

(** Stored and incoming items have node ids, the stored ones distinct, and two items of
    different nodes differ in author, text or time. *)
Definition told_apart (l inc : list Activity) : Prop :=
  NoDup (map act_node_id l)
  /\ (forall a, a ∈ l ++ inc -> act_node_id a <> None)
  /\ (forall a b, a ∈ l ++ inc -> b ∈ l ++ inc -> tuple_of a = tuple_of b -> act_node_id a = act_node_id b).

Lemma latest_snoc n p a : latest n (p ++ [a]) = if same_node n a then Some a else latest n p.
Proof. unfold latest. by rewrite rev_unit. Qed.

Lemma same_node_true n a : same_node n a = true <-> act_node_id a = Some n.
Proof. apply bool_decide_eq_true. Qed.

Lemma map_node_insert (l : list Activity) i act b :
  l !! i = Some b -> act_node_id act = act_node_id b -> map act_node_id (<[i := act]> l) = map act_node_id l.
Proof.
  intros Hb Hn. rewrite insert_take_drop by (by eapply lookup_lt_Some).
  rewrite <- (take_drop_middle l i b Hb) at 3. rewrite !map_app. simpl. by rewrite Hn.
Qed.

(** One item replaces that of its node, or joins the list. *)
Lemma merge_one_noded (l : list Activity) claimed act n0 :
  act_node_id act = Some n0 -> NoDup (map act_node_id l) ->
  (forall b, b ∈ l -> tuple_of b = tuple_of act -> act_node_id b = Some n0) ->
  let l' := (merge_one (l, claimed) act).1 in
  NoDup (map act_node_id l')
  /\ forall n a, a ∈ l' /\ act_node_id a = Some n <-> if decide (n = n0) then a = act else a ∈ l /\ act_node_id a = Some n.
Proof.
  intros Hn Hnd Hsep. unfold merge_one. rewrite Hn. simpl.
  destruct (position (same_node n0) l) as [i|] eqn:Ep; simpl.
  - apply position_found in Ep as (b & Hb & Hbn & _). apply same_node_true in Hbn.
    rewrite (map_node_insert l i act b Hb) by congruence. split; [done|]. intros n a.
    assert (forall j c, l !! j = Some c -> act_node_id c = Some n0 -> j = i) as Huniq.
    { intros j c Hc Hcn. apply (NoDup_lookup (map act_node_id l) j i (Some n0)); [done|..];
        rewrite (list_lookup_fmap act_node_id l); [rewrite Hc|rewrite Hb]; simpl; congruence. }
    rewrite list_elem_of_lookup. split.
    + intros ((j & Hj) & Ha). destruct (decide (j = i)) as [->|Hne].
      * rewrite list_lookup_insert_eq in Hj by (by eapply lookup_lt_Some). injection Hj as <-.
        by rewrite decide_True by congruence.
      * rewrite list_lookup_insert_ne in Hj by done. rewrite decide_False.
        -- split; [by eapply list_elem_of_lookup_2|done].
        -- intros ->. by apply Hne, (Huniq j a).
    + case_decide as Hd.
      * intros ->. split; [|congruence]. exists i. apply list_lookup_insert_eq. by eapply lookup_lt_Some.
      * intros ((j & Hj)%list_elem_of_lookup & Ha). split; [|done]. exists j.
        rewrite list_lookup_insert_ne; [done|]. intros ->. congruence.
  - rewrite (proj2 (nth_position_None _ _ l)).
    + rewrite position_None in Ep. simpl. rewrite map_app. split.
      * apply NoDup_app. split_and!; [done| |apply NoDup_singleton].
        intros x (c & <- & Hc%list_elem_of_In)%list_elem_of_In%in_map_iff Heq%list_elem_of_singleton.
        rewrite Hn in Heq. specialize (Ep c Hc). by rewrite (proj2 (same_node_true n0 c)) in Ep.
      * intros n a. rewrite elem_of_app, list_elem_of_singleton. case_decide as Hd; [subst n|naive_solver].
        split; [|intros ->; naive_solver]. intros [[Ha| ->] Han]; [|done].
        specialize (Ep a Ha). by rewrite (proj2 (same_node_true n0 a)) in Ep.
    + assert (occ (tuple_of act) l = 0%nat) as ->; [|lia]. unfold occ.
      destruct (List.filter _ l) as [|b r] eqn:Ef; [done|exfalso].
      assert (In b (List.filter (same_tuple (tuple_of act)) l)) as Hb by (rewrite Ef; by left).
      apply filter_In in Hb as [Hb%list_elem_of_In Ht]. apply bool_decide_eq_true in Ht.
      rewrite position_None in Ep. specialize (Ep b Hb). rewrite (proj2 (same_node_true n0 b)) in Ep; [done|].
      by apply Hsep.
Qed.

Lemma merge_one_members l claimed act a :
  a ∈ (merge_one (l, claimed) act).1 -> a = act \/ a ∈ l.
Proof.
  assert (forall i, a ∈ <[i := act]> l -> a = act \/ a ∈ l) as Hins
    by (intros i [j Hj]%list_elem_of_lookup; apply list_lookup_insert_Some in Hj as [(_ & <- & _)|[_ Hj]];
        [by left|right; by eapply list_elem_of_lookup_2]).
  unfold merge_one. destruct (act_node_id act ≫= _) as [i|]; simpl; [apply Hins|].
  destruct (nth_position _ _ l) as [i|]; [apply Hins|].
  rewrite elem_of_app, list_elem_of_singleton. tauto.
Qed.

(** A poll of items with node ids upserts by node: what is stored of a node afterwards is
    the last that came in, or what was stored when none did. *)
Lemma merge_items_noded l inc :
  told_apart l inc ->
  NoDup (map act_node_id (merge_items l inc))
  /\ forall n a, a ∈ merge_items l inc /\ act_node_id a = Some n <->
       match latest n inc with Some b => a = b | None => a ∈ l /\ act_node_id a = Some n end.
Proof.
  intros (Hnd & Hids & Hsep). unfold merge_items.
  assert (forall todo p l' claimed, inc = p ++ todo -> NoDup (map act_node_id l') ->
    (forall n a, a ∈ l' /\ act_node_id a = Some n <->
       match latest n p with Some b => a = b | None => a ∈ l /\ act_node_id a = Some n end) ->
    (forall a, a ∈ l' -> a ∈ l ++ inc) ->
    let r := (fold_left merge_one todo (l', claimed)).1 in
    NoDup (map act_node_id r) /\ forall n a, a ∈ r /\ act_node_id a = Some n <->
       match latest n inc with Some b => a = b | None => a ∈ l /\ act_node_id a = Some n end) as H.
  { induction todo as [|act todo IH]; intros p l' claimed Hp Hnd' Hl' Hsub; cbn [fold_left].
    { rewrite app_nil_r in Hp. by subst p. }
    assert (act ∈ l ++ inc) as Hact by (rewrite Hp, !elem_of_app; right; right; by left).
    destruct (act_node_id act) as [n0|] eqn:Hn; [|by apply Hids in Hact].
    destruct (merge_one_noded l' claimed act n0 Hn Hnd') as [Hnd2 Hm].
    { intros b Hb Ht. rewrite <- Hn. apply Hsep; auto. }
    destruct (merge_one (l', claimed) act) as [l2 c2] eqn:Em. cbn [fst] in *.
    apply (IH (p ++ [act])); [by rewrite <- app_assoc|done| |].
    - intros n a. rewrite Hm, latest_snoc. unfold same_node. rewrite Hn.
      case_decide as Hd; case_bool_decide; [done|congruence|congruence|apply Hl'].
    - intros a Ha. change l2 with (l2, c2).1 in Ha. rewrite <- Em in Ha.
      apply merge_one_members in Ha as [->|Ha]; auto. }
  apply (H inc []); [done|done|done|set_solver].
Qed.

Lemma merge_items_length l inc : (length (merge_items l inc) <= length l + length inc)%nat.
Proof.
  unfold merge_items. generalize (∅ : gmap Tuple nat). revert l.
  induction inc as [|a inc IH]; intros l m; cbn [fold_left]; [simpl; lia|].
  assert (length (merge_one (l, m) a).1 <= S (length l))%nat as Hone.
  { unfold merge_one. case_match; simpl; [rewrite length_insert; lia|].
    case_match; [rewrite length_insert; lia|]. rewrite length_app. simpl. lia. }
  destruct (merge_one (l, m) a) as [l' m']. specialize (IH l' m'). simpl in *. lia.
Qed.

(** While the feed has room, a poll upserts.  Of items without node ids each is stored
    as often as it was, or as often as it came in, whichever is more: a repeated poll
    adds nothing and twins are kept apart.  Where items have node ids and different
    nodes differ in author, text or time, every node is stored once, with the content
    that came in last. *)
Theorem a_poll_upserts_the_feed inc f :
  inc <> [] -> (length (activity f) + length inc <= MAX_ACTIVITY_ITEMS)%nat ->
  let l := activity (merge_activity inc f) in
  (Forall (fun a => act_node_id a = None) inc -> forall t, occ t l = (occ t (activity f) `max` occ t inc)%nat)
  /\ (told_apart (activity f) inc ->
      NoDup (map act_node_id l)
      /\ forall n a, a ∈ l /\ act_node_id a = Some n <->
           match latest n inc with Some b => a = b | None => a ∈ activity f /\ act_node_id a = Some n end).
Proof.
  intros Hne Hlen l. pose proof (merge_items_length (activity f) inc) as Hm.
  pose proof (merge_activity_items inc f Hne ltac:(lia)) as Hp. fold l in Hp. split.
  - intros Hn t. rewrite (occ_perm t _ _ Hp). by apply merge_items_nodeless.
  - intros Ha. apply merge_items_noded in Ha as [Hnd Hs]. split.
    + by rewrite (Permutation_map act_node_id Hp).
    + intros n a. by rewrite Hp.
Qed.

(** Two comments of one author with the same text in the same second, of which only the
    first was stored when a poll brings both: the second takes the first's place,
    together with its read state, although each has a node id of its own. *)
Theorem a_twin_takes_the_place_of_the_first f a b n1 n2 :
  activity f = [a] -> act_node_id a = Some n1 -> act_node_id b = Some n2 -> n1 <> n2 -> tuple_of a = tuple_of b ->
  activity (merge_activity [a; b] f) = [b]
  /\ is_activity_unread (merge_activity [a; b] f) 0 = is_activity_unread f 0.
Proof.
  intros Hf Ha Hb Hne Ht.
  assert (activity (merge_activity [a; b] f) = [b]) as Hact.
  { unfold merge_activity, merge_items. rewrite Hf. cbn [fold_left merge_one activity fst].
    rewrite Ha. simpl. unfold same_node at 1. rewrite Ha, bool_decide_eq_true_2 by done. simpl.
    rewrite Hb. simpl. unfold same_node at 1. rewrite Ha, bool_decide_eq_false_2 by congruence. simpl.
    rewrite lookup_empty. simpl. unfold same_tuple. by rewrite bool_decide_eq_true_2. }
  split; [done|]. apply eq_true_iff_eq.
  rewrite <- (not_false_iff_true (is_activity_unread f 0)), <- (not_false_iff_true (is_activity_unread _ 0)).
  rewrite (read_state_at_identity [a; b] f 0 (tuple_of b, 0%nat)) by (by rewrite Hact).
  rewrite (was_read_here f 0 (tuple_of b, 0%nat)); [done|]. by rewrite Hf, <- Ht.
Qed.

(** *** Fingerprints *)

(** A mark sent with a fingerprint lands on a row of that fingerprint: on the one the
    client pointed at if it is still there, else on the first; without such a row
    nothing is committed. *)
Theorem a_fingerprinted_mark_lands_on_its_row f index fp read :
  match apply_activity_mark f index (Some fp) read with
  | Some f' =>
      exists i a, activity f !! i = Some a /\ fingerprint_of a = fp
        /\ f' = (if read then mark_activity_read i f else unmark_activity_read i f)
        /\ ((exists b, activity f !! index = Some b /\ fingerprint_of b = fp) -> i = index)
        /\ (i = index \/ forall j b, (j < i)%nat -> activity f !! j = Some b -> fingerprint_of b <> fp)
  | None => forall a, a ∈ activity f -> fingerprint_of a <> fp
  end.
Proof.
  unfold apply_activity_mark. destruct (fingerprint_resolve fp (activity f) index) as [i|] eqn:E.
  - exists i. revert E. unfold fingerprint_resolve.
    assert (position (matches fp) (activity f) = Some i -> exists a, activity f !! i = Some a /\ fingerprint_of a = fp
      /\ forall j b, (j < i)%nat -> activity f !! j = Some b -> fingerprint_of b <> fp) as Hpos.
    { intros (a & Ha & Hm & Hb)%position_found. apply bool_decide_eq_true in Hm. exists a. split_and!; [done|done|].
      intros j b Hj Hl. specialize (Hb j b Hj Hl). apply bool_decide_eq_false in Hb. congruence. }
    destruct (activity f !! index) as [b|] eqn:Eb; [destruct (matches fp b) eqn:Em|].
    + intros [= <-]. apply bool_decide_eq_true in Em. exists b. split_and!; auto.
    + intros (a & Ha & Hfa & Hj)%Hpos. exists a. split_and!; [done|done|done| |by right].
      intros (b' & [= <-] & Hb'). apply bool_decide_eq_false in Em. congruence.
    + intros (a & Ha & Hfa & Hj)%Hpos. exists a. split_and!; [done|done|done| |by right].
      by intros (b' & [=] & _).
  - intros a Ha Hfa. assert (position (matches fp) (activity f) = None) as Hp.
    { revert E. unfold fingerprint_resolve. destruct (activity f !! index); [|done]. by destruct (matches fp _). }
    rewrite position_None in Hp. specialize (Hp a Ha). apply bool_decide_eq_false in Hp. congruence.
Qed.

(** ** Instances *)

Definition demo_item (who : string) (at_ : Z) (nid : option string) : Activity :=
  mkActivity who "text" at_ Comment nid None None None None.

(** A feed of two, the newer read by hand, the older seen. *)
Definition demo_feed : Feed :=
  mkFeed [demo_item "ann" 20 (Some "n2"%string); demo_item "bob" 10 (Some "n1"%string)] 1 {[0%nat]}.
(** A poll brings a newer item and one between the two. *)
Definition demo_poll : list Activity :=
  [demo_item "cy" 30 (Some "n3"%string); demo_item "ann" 20 (Some "n2"%string); demo_item "dee" 15 (Some "n4"%string)].

Lemma read_state_follows_identity_witness :
  map (is_activity_unread (merge_activity demo_poll demo_feed)) (seq 0 4) = [true; false; true; false]
  /\ (is_activity_unread (merge_activity demo_poll demo_feed) 1 = false
      <-> was_read demo_feed (tuple_of (demo_item "ann" 20 None), 0%nat)).
Proof.
  split; [vm_compute; reflexivity|].
  apply (proj1 (read_state_follows_identity demo_poll empty_feed demo_feed)). vm_compute. reflexivity.
Defined.

Lemma a_mark_touches_one_item_witness :
  is_activity_unread (unmark_activity_read 1 demo_feed) 0 = false
  /\ is_activity_unread (unmark_activity_read 1 demo_feed) 1 = true.
Proof.
  destruct (a_mark_touches_one_item demo_feed 1 ltac:(simpl; lia) 0) as [_ ->].
  destruct (a_mark_touches_one_item demo_feed 1 ltac:(simpl; lia) 1) as [_ ->]. split; vm_compute; reflexivity.
Defined.

Lemma first_items_are_read_up_to_the_visit_witness :
  is_activity_unread (attach_activity (Some 20) demo_poll empty_feed) 0 = true
  /\ is_activity_unread (attach_activity (Some 20) demo_poll empty_feed) 1 = false.
Proof.
  split;
    [rewrite (first_items_are_read_up_to_the_visit empty_feed 20 demo_poll 0 (demo_item "cy" 30 (Some "n3"%string)))
    |rewrite (first_items_are_read_up_to_the_visit empty_feed 20 demo_poll 1 (demo_item "ann" 20 (Some "n2"%string)))];
    vm_compute; reflexivity.
Defined.

Lemma a_poll_upserts_the_feed_witness :
  told_apart (activity demo_feed) demo_poll
  /\ NoDup (map act_node_id (activity (merge_activity demo_poll demo_feed))).
Proof.
  assert (told_apart (activity demo_feed) demo_poll) as Ha.
  { split_and!.
    - apply (bool_decide_unpack _). vm_compute. exact I.
    - intros a Ha. rewrite list_elem_of_In in Ha. simpl in Ha. naive_solver.
    - intros a b Hx Hy. rewrite list_elem_of_In in Hx, Hy. simpl in Hx, Hy.
      repeat match goal with H : _ \/ _ |- _ => destruct H as [<-|H] end; try done. }
  split; [done|].
  apply (a_poll_upserts_the_feed demo_poll demo_feed); [done|unfold MAX_ACTIVITY_ITEMS; simpl; lia|done].
Defined.

Lemma a_twin_takes_the_place_of_the_first_witness :
  let a := demo_item "bot" 5 (Some "n1"%string) in
  let b := demo_item "bot" 5 (Some "n2"%string) in
  activity (merge_activity [a; b] (mkFeed [a] 1 ∅)) = [b].
Proof. by apply (a_twin_takes_the_place_of_the_first _ _ _ "n1" "n2"). Defined.
