(* ===== verification/Slug.v ===== *)
(** * Slugs ([src/crates/core/src/slug.rs])

    Titles and names turned into path segments.  The scan of [slugify] is compared with
    what it is meant to compute: the words of the text, lower-cased, the first eight
    of them joined by dashes. *)

From Stdlib Require Import Ascii String.
From S2P Require Import Prelude Text.

#[global] Open Scope Z_scope.
#[local] Open Scope string_scope.
#[local] Open Scope list_scope.

Definition MAX_WORDS : nat := 8.
Definition MAX_TOTAL_LEN : nat := 60.

Definition push (s : string) (c : ascii) : string := s +:+ String c EmptyString.

(** [c.to_ascii_lowercase()] *)
Definition to_lower (c : ascii) : ascii := if is_upper c then ascii_of_nat (nat_of_ascii c + 32) else c.

(** The loop over the characters; a byte of a character outside ASCII separates words
    like the character does. *)
Fixpoint slug_words (s current : string) (words : list string) : list string :=
  match s with
  | EmptyString =>
      if negb (is_empty current) && (length words <? MAX_WORDS)%nat then words ++ [current] else words
  | String ch s =>
      if is_ascii_alphanumeric ch then slug_words s (push current (to_lower ch)) words
      else if negb (is_empty current) then
        let words := words ++ [current] in
        if (MAX_WORDS <=? length words)%nat then words else slug_words s EmptyString words
      else slug_words s current words
  end.

Fixpoint join_dashes (words : list string) : string :=
  match words with
  | [] => EmptyString
  | [w] => w
  | w :: words => w +:+ String "-" (join_dashes words)
  end.

(** [s[..n]] and [s.rfind(c)] *)
Fixpoint cut_at (n : nat) (s : string) : string :=
  match n, s with
  | S n, String c s => String c (cut_at n s)
  | _, _ => EmptyString
  end.

Fixpoint rfind (c : ascii) (s : string) : option nat :=
  match s with
  | EmptyString => None
  | String b s =>
      match rfind c s with
      | Some i => Some (S i)
      | None => if Ascii.eqb b c then Some O else None
      end
  end.

Definition trim_total (out : string) : string :=
  if (MAX_TOTAL_LEN <? String.length out)%nat
  then cut_at (default MAX_TOTAL_LEN (rfind "-" (cut_at MAX_TOTAL_LEN out))) out
  else out.

Definition slugify (s : string) : string := trim_total (join_dashes (slug_words s EmptyString [])).

Definition pr_slug (num : Z) (title : string) : string :=
  let title_part := slugify title in
  if is_empty title_part then "PR-" +:+ show_uint num
  else "PR-" +:+ show_uint num +:+ String "-" title_part.

Example a_slug : slugify "Fix: the API's (v2) login!" = "fix-the-api-s-v2-login".
Proof. reflexivity. Qed.

(** ** What the scan computes *)

(** The maximal runs of letters and digits, lower-cased. *)
Fixpoint runs (s current : string) : list string :=
  match s with
  | EmptyString => if is_empty current then [] else [current]
  | String ch s =>
      if is_ascii_alphanumeric ch then runs s (push current (to_lower ch))
      else if is_empty current then runs s EmptyString else current :: runs s EmptyString
  end.

Definition words_of (s : string) : list string := runs s EmptyString.

Lemma slug_words_runs s current words :
  (length words < MAX_WORDS)%nat -> slug_words s current words = take MAX_WORDS (words ++ runs s current).
Proof.
  revert current words. induction s as [|c s IH]; intros current words Hw; cbn [slug_words runs].
  - rewrite (proj2 (Nat.ltb_lt _ _) Hw), andb_true_r. destruct (is_empty current); simpl.
    + rewrite app_nil_r, take_ge by lia. done.
    + rewrite take_ge; [done|]. rewrite length_app. simpl. lia.
  - destruct (is_ascii_alphanumeric c); [by apply IH|]. destruct (is_empty current) eqn:Ec; cbn [negb].
    + rewrite IH by done. destruct current; [done|discriminate].
    + cbv zeta. rewrite length_app. cbn [length].
      destruct (Nat.leb_spec MAX_WORDS (length words + 1)) as [E|E].
      * change (current :: runs s EmptyString) with ([current] ++ runs s EmptyString).
        rewrite (app_assoc words), take_app_le by (rewrite length_app; simpl; lia).
        rewrite take_ge; [done|]. rewrite length_app. simpl. lia.
      * rewrite IH by (rewrite length_app; simpl; lia). by rewrite <- app_assoc.
Qed.

Lemma slugify_words s : slugify s = trim_total (join_dashes (take MAX_WORDS (words_of s))).
Proof. unfold slugify. by rewrite slug_words_runs by (unfold MAX_WORDS; simpl; lia). Qed.

(** ** The shape of a slug *)

Definition slug_char (c : ascii) : bool := is_digit c || is_lower c.

(** A word: letters and digits in lower case, at least one. *)
Definition good_word (w : string) : Prop := w <> EmptyString /\ all_chars slug_char w = true.

Lemma lower_alphanumeric c : is_ascii_alphanumeric c = true -> slug_char (to_lower c) = true.
Proof. destruct c as [[] [] [] [] [] [] [] []]; try discriminate; reflexivity. Qed.

Lemma slug_char_fixed c : slug_char c = true -> is_ascii_alphanumeric c = true /\ to_lower c = c.
Proof. destruct c as [[] [] [] [] [] [] [] []]; try discriminate; split; reflexivity. Qed.

Lemma slug_char_no_dash c : slug_char c = true -> Ascii.eqb c "-" = false.
Proof. destruct (Ascii.eqb_spec c "-") as [->|]; done. Qed.

Lemma push_nonempty s c : push s c <> EmptyString.
Proof. destruct s; discriminate. Qed.

Lemma runs_good s current :
  all_chars slug_char current = true -> Forall good_word (runs s current).
Proof.
  revert current. induction s as [|c s IH]; intros current Hc; cbn [runs].
  - destruct current as [|b current]; simpl; [constructor|]. constructor; [by split|constructor].
  - destruct (is_ascii_alphanumeric c) eqn:Ec.
    + apply IH. unfold push. rewrite all_chars_app, Hc. simpl. by rewrite lower_alphanumeric.
    + destruct current as [|b current]; simpl; [by apply IH|]. constructor; [by split|by apply IH].
Qed.

Lemma words_good s : Forall good_word (words_of s).
Proof. by apply runs_good. Qed.

Lemma runs_word w s current :
  all_chars slug_char w = true -> runs (w +:+ s) current = runs s (current +:+ w).
Proof.
  revert current. induction w as [|c w IH]; intros current Hw.
  - by rewrite app_nil_str, app_nil_r_str.
  - cbn [all_chars] in Hw. bool_norm. rewrite app_cons_str. cbn [runs].
    destruct (slug_char_fixed c) as [-> ->]; [done|]. rewrite IH by done. unfold push.
    by rewrite app_assoc_str.
Qed.

(** Reading back what was joined. *)
Lemma words_of_join ws : Forall good_word ws -> words_of (join_dashes ws) = ws.
Proof.
  unfold words_of. induction 1 as [|w ws [Hne Hw] Hws IH]; [done|].
  destruct ws as [|w' ws].
  - cbn [join_dashes]. rewrite <- (app_nil_r_str w), runs_word by done. rewrite app_nil_r_str.
    destruct w; [done|]. reflexivity.
  - change (join_dashes (w :: w' :: ws)) with (w +:+ String "-" (join_dashes (w' :: ws))).
    rewrite runs_word, app_nil_str by done. cbn [runs].
    change (is_ascii_alphanumeric "-") with false. cbv iota.
    destruct w as [|b w]; [done|]. cbn [is_empty]. by rewrite IH.
Qed.

Lemma cut_at_all n s : (String.length s <= n)%nat -> cut_at n s = s.
Proof. revert s. induction n as [|n IH]; intros [|c s] H; simpl in *; try lia; f_equal; apply IH; lia. Qed.

Lemma cut_at_app (a b : string) : cut_at (String.length a) (a +:+ b) = a.
Proof. induction a as [|c a IH]; [by rewrite app_nil_str|]. rewrite app_cons_str. simpl. by rewrite IH. Qed.

Lemma cut_at_app_r (a b : string) n : cut_at (String.length a + n) (a +:+ b) = a +:+ cut_at n b.
Proof. induction a as [|c a IH]; [done|]. rewrite !app_cons_str. simpl. by rewrite IH. Qed.

Lemma cut_at_app_l n (a b : string) : (n <= String.length a)%nat -> cut_at n (a +:+ b) = cut_at n a.
Proof.
  revert a. induction n as [|n IH]; intros a Hn; [by destruct (a +:+ b), a|].
  destruct a as [|c a]; simpl in Hn; [lia|]. rewrite app_cons_str. simpl. rewrite IH by lia. done.
Qed.

Lemma length_cut_at n s : (String.length (cut_at n s) <= n)%nat.
Proof. revert s. induction n as [|n IH]; intros [|c s]; simpl; try lia. specialize (IH s). lia. Qed.

Lemma all_chars_cut f n s : all_chars f s = true -> all_chars f (cut_at n s) = true.
Proof.
  revert s. induction n as [|n IH]; intros [|c s]; simpl; try done. intros H. bool_norm.
  rewrite IH by done. by rewrite andb_true_r.
Qed.

(** The dash at which the total is cut. *)
Lemma rfind_Some c s i :
  rfind c s = Some i -> exists a b, s = a +:+ String c b /\ String.length a = i.
Proof.
  revert i. induction s as [|x s IH]; intros i; simpl; [done|].
  destruct (rfind c s) as [k|] eqn:E.
  - intros [= <-]. destruct (IH k eq_refl) as (a & b & -> & <-). by exists (String x a), b.
  - destruct (Ascii.eqb_spec x c) as [->|]; [|done]. intros [= <-]. by exists EmptyString, s.
Qed.

Lemma rfind_None c s : rfind c s = None -> all_chars (fun x => negb (Ascii.eqb x c)) s = true.
Proof.
  induction s as [|x s IH]; simpl; [done|]. destruct (rfind c s); [done|].
  destruct (Ascii.eqb x c); [done|]. intros _. by apply IH.
Qed.

Lemma cut_at_prefix n s : exists b, s = cut_at n s +:+ b.
Proof.
  revert s. induction n as [|n IH]; intros s; [by exists s|]. destruct s as [|c s]; [by exists EmptyString|].
  destruct (IH s) as [b Hb]. exists b. simpl. rewrite app_cons_str. by f_equal.
Qed.

Lemma good_word_no_dash w : good_word w -> all_chars (fun x => negb (Ascii.eqb x "-")) w = true.
Proof.
  intros [_ Hw]. revert Hw. induction w as [|c w IH]; [done|]. cbn [all_chars]. intros ?; bool_norm.
  rewrite slug_char_no_dash, IH; done.
Qed.

(** Cutting at a dash cuts between words. *)
Lemma cut_between_words ws a b :
  Forall good_word ws -> join_dashes ws = a +:+ String "-" b ->
  exists k, (0 < k)%nat /\ a = join_dashes (take k ws).
Proof.
  intros Hg. revert a. induction Hg as [|w ws Hw Hws IH]; intros a; [by destruct a|].
  pose proof (good_word_no_dash w Hw) as Hd.
  assert (forall a b w, all_chars (fun x => negb (Ascii.eqb x "-")) w = true ->
    w <> a +:+ String "-" b) as Hno.
  { intros a' b' w' H ->. rewrite all_chars_app in H. simpl in H. by rewrite andb_false_r in H. }
  destruct ws as [|w' ws]; [intros H; by apply Hno in H|].
  change (join_dashes (w :: w' :: ws)) with (w +:+ String "-" (join_dashes (w' :: ws))).
  intros H. assert (a = w \/ exists a', a = w +:+ String "-" a' /\ join_dashes (w' :: ws) = a' +:+ String "-" b) as [->|(a' & -> & Ha)].
  { clear - H Hd. revert a H. induction w as [|c w IH]; intros a H.
    - rewrite app_nil_str in H. destruct a as [|x a]; [by left|]. rewrite app_cons_str in H.
      injection H as <- H. right. by exists a.
    - cbn [all_chars] in Hd. bool_norm. destruct a as [|x a].
      + rewrite app_cons_str, app_nil_str in H. injection H as -> _. discriminate.
      + rewrite !app_cons_str in H. injection H as <- H.
        destruct (IH H1 a H) as [->|(a' & -> & Ha)]; [by left|right; by exists a']. }
  - exists 1%nat. split; [lia|done].
  - destruct (IH a' Ha) as (k & Hk & ->). exists (S k). split; [lia|]. destruct k; [lia|done].
Qed.

(** What a slug is made of: at most eight words, at most sixty bytes. *)
Definition is_slug (s : string) : Prop :=
  (String.length s <= MAX_TOTAL_LEN)%nat
  /\ exists ws, s = join_dashes ws /\ Forall good_word ws /\ (length ws <= MAX_WORDS)%nat.

Lemma good_word_cut w : good_word w -> good_word (cut_at MAX_TOTAL_LEN w).
Proof. intros [Hne Hw]. split; [by destruct w|by apply all_chars_cut]. Qed.

Lemma trim_total_slug ws :
  Forall good_word ws -> (length ws <= MAX_WORDS)%nat -> is_slug (trim_total (join_dashes ws)).
Proof.
  intros Hg Hl. unfold trim_total. destruct (Nat.ltb_spec MAX_TOTAL_LEN (String.length (join_dashes ws))) as [Hlen|Hlen].
  2: { split; [done|]. by exists ws. }
  destruct (rfind "-" (cut_at MAX_TOTAL_LEN (join_dashes ws))) as [i|] eqn:Er; cbn [from_option Datatypes.id].
  - apply rfind_Some in Er as (a & b & Hab & <-). destruct (cut_at_prefix MAX_TOTAL_LEN (join_dashes ws)) as [r Hr].
    rewrite Hab in Hr. rewrite app_assoc_str, app_cons_str in Hr. rewrite Hr, cut_at_app.
    destruct (cut_between_words ws a (b +:+ r) Hg Hr) as (k & Hk & Ha). split.
    + pose proof (length_cut_at MAX_TOTAL_LEN (join_dashes ws)) as Hc. rewrite Hab, length_app_str in Hc. lia.
    + exists (take k ws). split_and!; [done|by apply Forall_take|]. rewrite length_take. lia.
  - apply rfind_None in Er. split; [apply length_cut_at|].
    destruct Hg as [|w ws Hw Hws]; [by exists []|]. destruct ws as [|w' ws].
    { exists [cut_at MAX_TOTAL_LEN w]. split_and!; [done| |done]. constructor; [by apply good_word_cut|constructor]. }
    change (join_dashes (w :: w' :: ws)) with (w +:+ String "-" (join_dashes (w' :: ws))) in *.
    assert (MAX_TOTAL_LEN <= String.length w)%nat as Hwl.
    { destruct (le_lt_dec MAX_TOTAL_LEN (String.length w)) as [|Hlt]; [done|exfalso].
      replace MAX_TOTAL_LEN with (String.length w + (MAX_TOTAL_LEN - String.length w))%nat in Er by lia.
      rewrite cut_at_app_r, all_chars_app in Er. destruct (MAX_TOTAL_LEN - String.length w)%nat eqn:E; [lia|].
      simpl in Er. by rewrite andb_false_r in Er. }
    exists [cut_at MAX_TOTAL_LEN w]. split_and!; [|constructor; [by apply good_word_cut|constructor]|simpl; unfold MAX_WORDS; lia].
    by apply cut_at_app_l.
Qed.

Lemma slugify_is_slug s : is_slug (slugify s).
Proof.
  rewrite slugify_words. apply trim_total_slug; [apply Forall_take, words_good|]. rewrite length_take. lia.
Qed.

Lemma slug_fixed s : is_slug s -> slugify s = s.
Proof.
  intros (Hlen & ws & -> & Hg & Hw). rewrite slugify_words, words_of_join by done. rewrite take_ge by done.
  unfold trim_total. by rewrite (proj2 (Nat.ltb_ge _ _)).
Qed.

(** [slugify] gives the first eight words of a text, lower-cased and joined by dashes,
    cut between two words when that is longer than sixty bytes, or inside the first
    when that alone is; the result has nothing but letters, digits and single inner
    dashes, and is its own slug. *)
Theorem slugs_are_the_first_words s :
  let whole := join_dashes (take MAX_WORDS (words_of s)) in
  (String.length whole <= 60 -> slugify s = whole)%nat
  /\ is_slug (slugify s) /\ slugify (slugify s) = slugify s
  /\ exists rest, whole = slugify s +:+ rest.
Proof.
  intros whole. split_and!.
  - intros Hl. rewrite slugify_words. fold whole. unfold trim_total. by rewrite (proj2 (Nat.ltb_ge _ _)).
  - apply slugify_is_slug.
  - apply slug_fixed, slugify_is_slug.
  - rewrite slugify_words. fold whole. unfold trim_total. case_match; [apply cut_at_prefix|].
    exists EmptyString. by rewrite app_nil_r_str.
Qed.
