(* ===== verification/CoreTask.v ===== *)
(** * Tracker tasks and workspaces
      ([src/crates/core/src/task.rs], [src/crates/core/src/workspace.rs])

    The provider's view of an issue or a pull request and the workspace that
    gathers them, with the fields that the epic resolver, the stack detector, the
    merge and repair gates and the ledger of provider writes read; diff sizes, unread
    counts and the other fields none of the modelled operations looks
    at are left out of the records. *)

From Stdlib Require Import String.
From S2P Require Import Prelude Text.
From S2P Require Work ActivityFeed.

#[global] Open Scope Z_scope.

Notation TaskId := Work.TaskId.

#[export] Existing Instance Work.TaskId_eq_dec.
#[local] Existing Instance ActivityFeed.Activity_eq_dec.

#[export] Instance TaskId_countable : Countable Work.TaskId.
Proof.
  refine (inj_countable' (fun t => (Work.source t, Work.key t)) (fun p => Work.mkTaskId p.1 p.2) _).
  by intros [].
Defined.

(** [TaskId]'s derived order: by source, then by key. *)
Definition task_id_le (a b : TaskId) : Prop :=
  (Work.source a <> Work.source b /\ String.le (Work.source a) (Work.source b))
  \/ (Work.source a = Work.source b /\ String.le (Work.key a) (Work.key b)).

#[export] Instance task_id_le_dec : RelDecision task_id_le.
Proof. intros a b. unfold task_id_le. apply _. Defined.

(** [Display] of a task id. *)
Definition show_task_id (t : TaskId) : string :=
  String.append (Work.source t) (String.append ":"%string (Work.key t)).

Inductive TaskState : Type := Open_ | InProgress_ | InReview | Closed | Merged | Draft.

Inductive TaskKind : Type := KPr | KIssue.

Inductive CiStatus : Type := CiNone | CiPending | CiRunning | CiSuccess | CiFailure | CiMixed.

Inductive ReviewStatus : Type := RvNone | RvPending | RvApproved | RvChangesRequested.

Inductive Mergeable : Type := MUnknown | MMergeable | MConflicting.

Inductive TaskRole : Type := Author | Reviewer_ | Assignee | Mentioned | Observer.

Inductive ReviewState : Type := Approved_ | ChangesRequested_ | Commented_ | Pending_.

(** [ApprovalPolicy] of core/src/policy.rs. *)
Inductive ApprovalPolicy : Type := ApDefault | Human.

#[export] Instance TaskRole_eq_dec : EqDecision TaskRole.
Proof. solve_decision. Defined.
#[export] Instance ReviewState_eq_dec : EqDecision ReviewState.
Proof. solve_decision. Defined.
#[export] Instance ApprovalPolicy_eq_dec : EqDecision ApprovalPolicy.
Proof. solve_decision. Defined.
#[export] Instance TaskState_eq_dec : EqDecision TaskState.
Proof. solve_decision. Defined.
#[export] Instance TaskKind_eq_dec : EqDecision TaskKind.
Proof. solve_decision. Defined.
#[export] Instance CiStatus_eq_dec : EqDecision CiStatus.
Proof. solve_decision. Defined.
#[export] Instance ReviewStatus_eq_dec : EqDecision ReviewStatus.
Proof. solve_decision. Defined.
#[export] Instance Mergeable_eq_dec : EqDecision Mergeable.
Proof. solve_decision. Defined.

Record Reviewer : Type := mkReviewer { login : string; rv_state : ReviewState; is_bot : bool }.

Record CheckRun : Type := mkCheck { check_name : string; check_status : CiStatus }.

(** Labels by their name; the colour is display only. *)
Record Task : Type := mkTask {
  id : TaskId;
  state : TaskState;
  ci : CiStatus;
  review : ReviewStatus;
  url : string;
  repo : option string;
  branch : option string;
  base_branch : option string;
  labels : list string;
  mergeable : Mergeable;
  merge_blocked : bool;
  kind : option TaskKind;
  parent : option TaskId;
  blocked_by : list TaskId;
  merge_after : list TaskId;
  contracts : list TaskId;
  blocked_on : option string;
  role : TaskRole;
  author : string;
  updated_at : Z;
  closed_at : option Z;
  assignees : list string;
  reviewers : list string;
  reviews : list Reviewer;
  approval_policy : ApprovalPolicy;
  auto_merge_enabled : bool;
  is_in_merge_queue : bool;
  state_label : option string;
  node_id : option string;
  checks : list CheckRun;
  title : string;
  is_behind_base : bool;
  recent_activity : list ActivityFeed.Activity;
  body : option string;
  closes_issues : list TaskId;
  linked_tasks : list TaskId;
}.

#[export] Instance Reviewer_eq_dec : EqDecision Reviewer.
Proof. solve_decision. Defined.
#[export] Instance CheckRun_eq_dec : EqDecision CheckRun.
Proof. solve_decision. Defined.
#[export] Instance Task_eq_dec : EqDecision Task.
Proof. solve_decision. Defined.

(** A task with the fields a provider leaves at their defaults. *)
Definition plain_task (i : TaskId) (s : TaskState) (c : CiStatus) (r : ReviewStatus)
    (m : Mergeable) (k : TaskKind) (blockers : list TaskId) : Task :=
  mkTask i s c r EmptyString None None None [] m false (Some k) None blockers [] [] None
    Author EmptyString 0 None [] [] [] ApDefault false false None None [] EmptyString false [] None [] [].

(** [haystack.contains(needle)] *)
Fixpoint contains (needle haystack : string) : bool :=
  starts_with needle haystack
  || match haystack with String _ rest => contains needle rest | EmptyString => false end.

Definition is_pr (t : Task) : bool :=
  match kind t with
  | Some KPr => true
  | Some KIssue => false
  | None =>
      contains "/pull/" (url t) || contains "/pull-requests/" (url t)
      || contains "/merge_requests/" (url t)
  end%string.

Record Workspace : Type := mkWorkspace {
  ws_key : string;
  ws_name : string;
  pr : option Task;
  gh_issues : list Task;
  linear_issues : list Task;
  auto_merge_on_green : bool;
  native_auto_merge_by_lazybox : bool;
}.

Definition WORKING_LABEL_NAME : string := "working".
Definition WORKING_CLAIM_LABEL_PREFIX : string := "lazybox:w:".

(** [a.eq_ignore_ascii_case(b)] *)
Definition eq_ignore_ascii_case (a b : string) : bool :=
  String.eqb (to_ascii_lowercase a) (to_ascii_lowercase b).
