(* ===== verification/ProviderOps.v ===== *)
(** * The ledger of provider writes ([src/crates/core/src/provider_ops.rs])

    Every write lazybox makes to a tracker goes through a per-workspace ledger of
    in-flight intent: [apply] takes an event and the row it concerns to the
    effects the daemon must run, [reconcile_observation] folds a fresh read of a
    record into it, [overlay] paints the pending intent over the row.  The
    functions take the row's task and return it; clocks come with the events.

    The ledger's [BTreeMap] and [BTreeSet] over the four fields are [gmap] and
    [gset].  Ids and generations are unbounded (the code's are [u64] and grow by
    one per request).  Labels are their names: the colour a row keeps for a known
    label is not modelled.  The theorems are in [ProviderOpsProps.v]. *)

From Stdlib Require Import String.
From S2P Require Import Prelude Text CoreTask.

#[global] Open Scope Z_scope.

Definition MAX_ATTEMPTS : Z := 5.

(** Ten minutes. *)
Definition SETTLE_DEADLINE : Z := secs 600.

Inductive MutationField : Type := FAssignees | FLabels | FReviewers | FState.

#[export] Instance MutationField_eq_dec : EqDecision MutationField.
Proof. solve_decision. Defined.

#[export] Instance MutationField_countable : Countable MutationField.
Proof.
  refine (inj_countable'
    (fun f => match f with FAssignees => 0 | FLabels => 1 | FReviewers => 2 | FState => 3 end)
    (fun n => match n with 0 => FAssignees | 1 => FLabels | 2 => FReviewers | _ => FState end) _).
  by intros [].
Defined.

Record StateWrite : Type := mkWrite { sw_state : TaskState; sw_label : option string }.

#[export] Instance StateWrite_eq_dec : EqDecision StateWrite.
Proof. solve_decision. Defined.

Record DesiredFields : Type := mkDesired {
  df_assignees : option (list string);
  df_labels : option (list string);
  df_reviewers : option (list string);
  df_state : option StateWrite;
}.

#[export] Instance DesiredFields_eq_dec : EqDecision DesiredFields.
Proof. solve_decision. Defined.

Definition no_fields : DesiredFields := mkDesired None None None None.

Definition want_assignees (logins : list string) : DesiredFields :=
  mkDesired (Some logins) None None None.
Definition want_labels (names : list string) : DesiredFields :=
  mkDesired None (Some names) None None.
Definition want_reviewers (logins : list string) : DesiredFields :=
  mkDesired None None (Some logins) None.
Definition want_state (s : TaskState) (label : option string) : DesiredFields :=
  mkDesired None None None (Some (mkWrite s label)).

Definition claimed (d : DesiredFields) : gset MutationField :=
  (if df_assignees d then {[ FAssignees ]} else ∅)
  ∪ (if df_labels d then {[ FLabels ]} else ∅)
  ∪ (if df_reviewers d then {[ FReviewers ]} else ∅)
  ∪ (if df_state d then {[ FState ]} else ∅).

Definition observed_counterpart (d : DesiredFields) (task : Task) : DesiredFields :=
  mkDesired
    ((fun _ => assignees task) <$> df_assignees d)
    ((fun _ => labels task) <$> df_labels d)
    ((fun _ => reviewers task) <$> df_reviewers d)
    ((fun _ => mkWrite (state task) (state_label task)) <$> df_state d).

(** [if self.is_none() { self = other.clone() }] *)
Definition or_else {A} (a b : option A) : option A := match a with Some _ => a | None => b end.

Definition fill_from (d other : DesiredFields) : DesiredFields :=
  mkDesired (or_else (df_assignees d) (df_assignees other)) (or_else (df_labels d) (df_labels other))
    (or_else (df_reviewers d) (df_reviewers other)) (or_else (df_state d) (df_state other)).

Definition restricted_to (d : DesiredFields) (fields : gset MutationField) : DesiredFields :=
  mkDesired
    (if bool_decide (FAssignees ∈ fields) then df_assignees d else None)
    (if bool_decide (FLabels ∈ fields) then df_labels d else None)
    (if bool_decide (FReviewers ∈ fields) then df_reviewers d else None)
    (if bool_decide (FState ∈ fields) then df_state d else None).

Inductive OpPhase : Type :=
| PAccepted
| PSent
| PAcked (at_ : Z)
| PUncertain (since : Z)
| PRetryScheduled (not_before : Z).

#[export] Instance OpPhase_eq_dec : EqDecision OpPhase.
Proof. solve_decision. Defined.

Definition reached_provider (p : OpPhase) : bool :=
  match p with PSent | PAcked _ | PUncertain _ => true | _ => false end.

Definition settles_from (p : OpPhase) (issued_at : Z) : Z :=
  match p with PAcked at_ => at_ | _ => issued_at end.

Definition is_uncertain (p : OpPhase) : bool :=
  match p with PUncertain _ => true | _ => false end.

Notation OperationId := Z (only parsing).

Record PendingMutation : Type := mkPending {
  op_id : OperationId;
  op_task : TaskId;
  desired : DesiredFields;
  previous : DesiredFields;
  op_claimed : gmap MutationField Z;
  issued_at : Z;
  phase : OpPhase;
  attempts : Z;
}.

#[export] Instance PendingMutation_eq_dec : EqDecision PendingMutation.
Proof. solve_decision. Defined.

Definition settled_by (op : PendingMutation) (revision now : Z) : bool :=
  is_uncertain (phase op)
  || (settles_from (phase op) (issued_at op) <=? revision)
  || (SETTLE_DEADLINE <=? now - issued_at op).

Inductive FailureClass : Type := Transient | Rejected | Uncertain.

#[export] Instance FailureClass_eq_dec : EqDecision FailureClass.
Proof. solve_decision. Defined.

Inductive OpEvent : Type :=
| Requested (task : TaskId) (want : DesiredFields) (now : Z)
| Sent (id : OperationId)
| Acked (id : OperationId) (now : Z)
| Failed (id : OperationId) (class : FailureClass) (detail : string) (now : Z)
| Cancelled (task : TaskId) (fields : gset MutationField) (now : Z).

Inductive OpEffect : Type :=
| Send (id : OperationId)
| Reconcile (id : OperationId)
| Retry (id : OperationId) (not_before : Z)
| Report (id : OperationId) (message : string)
| Settled (id : OperationId).

#[export] Instance OpEffect_eq_dec : EqDecision OpEffect.
Proof. solve_decision. Defined.

Record ProviderOps : Type := mkOps {
  next_id : Z;
  generations : gmap MutationField Z;
  pending : list PendingMutation;
}.

Definition empty_ops : ProviderOps := mkOps 0 ∅ [].

Definition set_pending (l : list PendingMutation) (ops : ProviderOps) : ProviderOps :=
  mkOps (next_id ops) (generations ops) l.

(** [self.pending.iter().find(|op| op.id == id)] *)
Definition get (id : OperationId) (ops : ProviderOps) : option PendingMutation :=
  List.find (fun op => op_id op =? id) (pending ops).

Definition generation (ops : ProviderOps) (f : MutationField) : Z :=
  default 0 (generations ops !! f).

Definition is_current (ops : ProviderOps) (op : PendingMutation) : bool :=
  forallb (fun fv => generation ops fv.1 =? fv.2) (map_to_list (op_claimed op)).

(** [self.pending.retain(|op| op.id != id)] *)
Definition remove (id : OperationId) (ops : ProviderOps) : ProviderOps :=
  set_pending (List.filter (fun op => negb (op_id op =? id)) (pending ops)) ops.

(** [if let Some(op) = self.phase_mut(id) { .. }]: the first of the id is changed. *)
Fixpoint update_first (id : OperationId) (f : PendingMutation -> PendingMutation)
    (l : list PendingMutation) : list PendingMutation :=
  match l with
  | [] => []
  | op :: l => if op_id op =? id then f op :: l else op :: update_first id f l
  end.

Definition set_phase (p : OpPhase) (op : PendingMutation) : PendingMutation :=
  mkPending (op_id op) (op_task op) (desired op) (previous op) (op_claimed op) (issued_at op) p
    (attempts op).

Definition set_attempts (n : Z) (op : PendingMutation) : PendingMutation :=
  mkPending (op_id op) (op_task op) (desired op) (previous op) (op_claimed op) (issued_at op)
    (phase op) n.

Definition set_previous (d : DesiredFields) (op : PendingMutation) : PendingMutation :=
  mkPending (op_id op) (op_task op) (desired op) d (op_claimed op) (issued_at op) (phase op)
    (attempts op).

Definition update_op (id : OperationId) (f : PendingMutation -> PendingMutation) (ops : ProviderOps)
    : ProviderOps := set_pending (update_first id f (pending ops)) ops.

(** ** The row *)

Definition eta_task (t : Task) : Task :=
  mkTask (id t) (state t) (ci t) (review t) (url t) (repo t) (branch t) (base_branch t) (labels t)
    (mergeable t) (merge_blocked t) (kind t) (parent t) (blocked_by t) (merge_after t) (contracts t)
    (blocked_on t) (role t) (author t) (updated_at t) (closed_at t) (assignees t) (reviewers t)
    (reviews t) (approval_policy t) (auto_merge_enabled t) (is_in_merge_queue t) (state_label t)
    (node_id t) (checks t) (title t) (is_behind_base t)
    (recent_activity t) (body t) (closes_issues t) (linked_tasks t).

Definition set_assignees (v : list string) (t : Task) : Task := ltac:(upd eta_task assignees v t).
Definition set_labels (v : list string) (t : Task) : Task := ltac:(upd eta_task labels v t).
Definition set_reviewers (v : list string) (t : Task) : Task := ltac:(upd eta_task reviewers v t).
Definition set_task_state (v : TaskState) (t : Task) : Task := ltac:(upd eta_task state v t).
Definition set_state_label (v : option string) (t : Task) : Task :=
  ltac:(upd eta_task state_label v t).

Definition set_when {A} (set : A -> Task -> Task) (v : option A) (t : Task) : Task :=
  match v with Some v => set v t | None => t end.

Definition set_write (w : StateWrite) (t : Task) : Task :=
  set_state_label (sw_label w) (set_task_state (sw_state w) t).

Definition restore (op : PendingMutation) (entity : Task) : Task :=
  if bool_decide (op_task op = id entity) then
    set_when set_write (df_state (previous op))
      (set_when set_reviewers (df_reviewers (previous op))
        (set_when set_labels (df_labels (previous op))
          (set_when set_assignees (df_assignees (previous op)) entity)))
  else entity.

(** The row keeps its own spelling of a label it already carries. *)
Definition known_spelling (existing : list string) (name : string) : string :=
  default name (List.find (fun l => eq_ignore_ascii_case l name) existing).

Definition paint (d : DesiredFields) (t : Task) : Task :=
  let t := set_when set_assignees (df_assignees d) t in
  let t := set_when (fun names t => set_labels (map (known_spelling (labels t)) names) t)
             (df_labels d) t in
  let t := set_when set_reviewers (df_reviewers d) t in
  set_when set_write (df_state d) t.

Definition overlay (ops : ProviderOps) (task : Task) : Task :=
  fold_left (fun t op =>
      if bool_decide (op_task op = id t) && is_current ops op then paint (desired op) t else t)
    (pending ops) task.

(** ** Events *)

Definition bump (fields : gset MutationField) (ops : ProviderOps)
    : gmap MutationField Z * ProviderOps :=
  let bumped := set_to_map (fun f => (f, generation ops f + 1)) fields in
  (bumped, mkOps (next_id ops) (bumped ∪ generations ops) (pending ops)).

Definition disjoint_fields (a b : gset MutationField) : bool := bool_decide (a ## b).

(** The baseline of a request: the provider's values, past earlier writes. *)
Definition baseline (ops : ProviderOps) (task : TaskId) (want : DesiredFields) (entity : Task)
    : DesiredFields :=
  fill_from
    (fold_left (fun d op => fill_from d (restricted_to (previous op) (claimed want)))
       (List.filter (fun op => bool_decide (op_task op = task)) (pending ops)) no_fields)
    (observed_counterpart want entity).

Definition supersedes (task : TaskId) (fields : gset MutationField) (op : PendingMutation) : bool :=
  bool_decide (op_task op = task) && negb (reached_provider (phase op))
  && negb (disjoint_fields (claimed (desired op)) fields).

Definition on_requested (task : TaskId) (want : DesiredFields) (now : Z) (entity : Task)
    (ops : ProviderOps) : list OpEffect * ProviderOps :=
  let fields := claimed want in
  if bool_decide (fields = ∅) then ([], ops)
  else
    let prev := baseline ops task want entity in
    let '(gens, ops) := bump fields ops in
    let superseded := map op_id (List.filter (supersedes task fields) (pending ops)) in
    let ops := fold_left (fun ops id => remove id ops) superseded ops in
    let id := next_id ops in
    let op := mkPending id task want prev gens now PAccepted 0 in
    (map Settled superseded ++ [Send id], mkOps (id + 1) (generations ops) (pending ops ++ [op])).

Definition backoff_secs (attempt : Z) : Z := attempt * 15.

Definition on_failed (id : OperationId) (class : FailureClass) (detail : string) (now : Z)
    (entity : Task) (ops : ProviderOps) : list OpEffect * ProviderOps * Task :=
  match get id ops with
  | None => ([], ops, entity)
  | Some op =>
      if bool_decide (class = Uncertain) then
        ([Reconcile id], update_op id (set_phase (PUncertain now)) ops, entity)
      else if negb (is_current ops op) then ([Settled id], remove id ops, restore op entity)
      else if bool_decide (class = Transient) && (attempts op + 1 <? MAX_ATTEMPTS) then
        let n := attempts op + 1 in
        let not_before := now + secs (backoff_secs n) in
        ([Retry id not_before],
         update_op id (fun op => set_phase (PRetryScheduled not_before) (set_attempts n op)) ops,
         entity)
      else ([Report id detail; Settled id], remove id ops, restore op entity)
  end.

(** One cancelled operation. *)
Definition cancel_op (acc : list OpEffect * ProviderOps * Task) (op : PendingMutation)
    : list OpEffect * ProviderOps * Task :=
  let '(effects, ops, entity) := acc in
  if reached_provider (phase op) then (effects ++ [Reconcile (op_id op)], ops, entity)
  else (effects ++ [Settled (op_id op)], remove (op_id op) ops, restore op entity).

Definition on_cancelled (task : TaskId) (fields : gset MutationField) (entity : Task)
    (ops : ProviderOps) : list OpEffect * ProviderOps * Task :=
  if bool_decide (fields = ∅) then ([], ops, entity)
  else
    let ops := (bump fields ops).2 in
    fold_left cancel_op
      (List.filter (fun op => bool_decide (op_task op = task)
                              && negb (disjoint_fields (claimed (desired op)) fields)) (pending ops))
      ([], ops, entity).

Definition apply_event (event : OpEvent) (entity : Task) (ops : ProviderOps)
    : list OpEffect * ProviderOps * Task :=
  match event with
  | Requested task want now =>
      let '(effects, ops) := on_requested task want now entity ops in (effects, ops, entity)
  | Sent id => ([], update_op id (set_phase PSent) ops, entity)
  | Acked id now => ([], update_op id (set_phase (PAcked now)) ops, entity)
  | Failed id class detail now => on_failed id class detail now entity ops
  | Cancelled task fields _ => on_cancelled task fields entity ops
  end.

(** [ProviderOps::apply] *)
Definition apply (event : OpEvent) (entity : Task) (ops : ProviderOps)
    : list OpEffect * ProviderOps * Task :=
  let '(effects, ops, entity) := apply_event event entity ops in
  (effects, ops, overlay ops entity).

Definition recover_op (now : Z) (op : PendingMutation) : list OpEffect * PendingMutation :=
  match phase op with
  | PAccepted => ([Send (op_id op)], op)
  | PSent | PUncertain _ => ([Reconcile (op_id op)], set_phase (PUncertain now) op)
  | PAcked _ => ([], op)
  | PRetryScheduled not_before => ([Retry (op_id op) (Z.max not_before now)], op)
  end.

Definition recover (now : Z) (ops : ProviderOps) : list OpEffect * ProviderOps :=
  let rs := map (recover_op now) (pending ops) in
  (concat (map fst rs), set_pending (map snd rs) ops).

Definition refresh_baseline (task : Task) (op : PendingMutation) : PendingMutation :=
  if bool_decide (op_task op = id task)
  then set_previous (observed_counterpart (desired op) task) op
  else op.

Definition reconcile_observation (task : Task) (now : Z) (ops : ProviderOps)
    : ProviderOps * Task :=
  let kept :=
    List.filter (fun op => negb (bool_decide (op_task op = id task))
                           || negb (settled_by op (updated_at task) now)) (pending ops) in
  let ops := set_pending (map (refresh_baseline task) kept) ops in
  (ops, overlay ops task).
