(* ===== verification/ProviderOpsProps.v ===== *)
(** * What the ledger of provider writes guarantees

    A workspace's records and its ledger evolve together under requests, outcomes,
    cancellations, reads of the provider and restarts ([Action]); the effects the
    coordinator ([src/crates/server/src/polling/ops.rs]) is told to run accumulate.
    The theorems hold after every such history: who owns a field and what the row
    shows, that a write which ends unconfirmed uncovers the last observation, how
    often a write is attempted and reported, and what a request on one record of
    the workspace does to a write on another. *)

From Stdlib Require Import String.
From S2P Require Import Prelude Text CoreTask ProviderOps.

#[global] Open Scope Z_scope.

(** ** Histories *)

(** The ledger, the workspace's records by id, and (for the statements only) what
    the provider last said about each. *)
Record World : Type := mkWorld {
  w_ops : ProviderOps;
  rows : gmap TaskId Task;
  observed : gmap TaskId Task;
}.

Inductive Action : Type :=
| ARequest (i : TaskId) (want : DesiredFields) (now : Z)
| ASent (op : Z)
| AAcked (op : Z) (now : Z)
| AFailed (op : Z) (class : FailureClass) (detail : string) (now : Z)
| ACancel (i : TaskId) (fields : gset MutationField) (now : Z)
| AObserve (t : Task) (now : Z)
| ADetach (i : TaskId)
| ARecover (now : Z).

(** [transition]: an event on a record the workspace no longer holds is dropped. *)
Definition transition (i : TaskId) (event : OpEvent) (w : World) : list OpEffect * World :=
  match rows w !! i with
  | None => ([], w)
  | Some entity =>
      let '(effects, ops, entity) := apply event entity (w_ops w) in
      (effects, mkWorld ops (<[i := entity]> (rows w)) (observed w))
  end.

(** The outcome of a write is applied to the record of its operation, looked up
    by id as [send] does. *)
Definition outcome (op : Z) (event : OpEvent) (w : World) : list OpEffect * World :=
  match get op (w_ops w) with
  | None => ([], w)
  | Some p => transition (op_task p) event w
  end.

Definition act (a : Action) (w : World) : list OpEffect * World :=
  match a with
  | ARequest i want now => transition i (Requested i want now) w
  | ASent op => outcome op (Sent op) w
  | AAcked op now => outcome op (Acked op now) w
  | AFailed op class detail now => outcome op (Failed op class detail now) w
  | ACancel i fields now => transition i (Cancelled i fields now) w
  | AObserve t now =>
      let '(ops, row) := reconcile_observation t now (w_ops w) in
      ([], mkWorld ops (<[id t := row]> (rows w)) (<[id t := t]> (observed w)))
  | ADetach i => ([], mkWorld (w_ops w) (delete i (rows w)) (delete i (observed w)))
  | ARecover now =>
      let '(effects, ops) := recover now (w_ops w) in
      (effects, mkWorld ops (rows w) (observed w))
  end.

Fixpoint run (acts : list Action) (w : World) : list OpEffect * World :=
  match acts with
  | [] => ([], w)
  | a :: acts =>
      let '(effects, w) := act a w in
      let '(rest, w) := run acts w in
      (effects ++ rest, w)
  end.

Definition start : World := mkWorld empty_ops ∅ ∅.

Lemma run_app a b w :
  run (a ++ b) w = ((run a w).1 ++ (run b (run a w).2).1, (run b (run a w).2).2).
Proof.
  revert w. induction a as [|x a IH]; intros w; simpl; [by destruct (run b w)|].
  destruct (act x w) as [e w1]. rewrite IH. destruct (run a w1) as [e1 w2]. simpl.
  by rewrite app_assoc.
Qed.

(** Invariants of histories, with the effects emitted so far. *)
Lemma run_invariant (P : list Action -> list OpEffect -> World -> Prop) :
  P [] [] start ->
  (forall acts a es w, P acts es w -> P (acts ++ [a]) (es ++ (act a w).1) (act a w).2) ->
  forall acts, P acts (run acts start).1 (run acts start).2.
Proof.
  intros H0 Hstep acts. induction acts as [|a acts IH] using rev_ind; [done|].
  rewrite run_app. simpl. specialize (Hstep _ a _ _ IH).
  destruct (act a (run acts start).2) as [e w]. simpl in *. by rewrite app_nil_r.
Qed.

(** ** The ledger's lists *)

(** What an operation keeps for life. *)
Record same_op (a b : PendingMutation) : Prop := mkSame {
  so_id : op_id a = op_id b;
  so_task : op_task a = op_task b;
  so_desired : desired a = desired b;
  so_claimed : op_claimed a = op_claimed b;
  so_issued : issued_at a = issued_at b;
}.

#[export] Hint Constructors same_op : lazybox.

Lemma same_op_refl a : same_op a a.
Proof. by constructor. Qed.

Lemma same_op_trans a b c : same_op a b -> same_op b c -> same_op a c.
Proof. intros [] []. constructor; congruence. Qed.

Lemma get_Some oid ops op : get oid ops = Some op -> op ∈ pending ops /\ op_id op = oid.
Proof.
  unfold get. intros (Hin & Heq)%find_some. split; [by apply list_elem_of_In|]. by apply Z.eqb_eq.
Qed.

Lemma elem_of_remove oid ops op :
  op ∈ pending (remove oid ops) <-> op ∈ pending ops /\ op_id op <> oid.
Proof.
  unfold remove. simpl. rewrite list_elem_of_In, filter_In, <- list_elem_of_In.
  rewrite negb_true_iff, Z.eqb_neq. done.
Qed.

Lemma update_first_ids oid f l :
  (forall op, op_id (f op) = op_id op) -> map op_id (update_first oid f l) = map op_id l.
Proof.
  intros Hf. induction l as [|op l IH]; simpl; [done|]. case_match; simpl; [by rewrite Hf|by rewrite IH].
Qed.

Lemma filter_ids_NoDup (p : PendingMutation -> bool) l :
  NoDup (map op_id l) -> NoDup (map op_id (List.filter p l)).
Proof.
  induction l as [|op l IH]; simpl; [done|]. intros [Hn Hd]%NoDup_cons.
  case_match; simpl; [|by apply IH]. apply NoDup_cons. split; [|by apply IH].
  intros Hin. apply Hn. apply list_elem_of_In, in_map_iff in Hin as (x & <- & [Hx _]%filter_In).
  by apply list_elem_of_In, in_map.
Qed.

Lemma NoDup_ids_eq l a b :
  NoDup (map op_id l) -> a ∈ l -> b ∈ l -> op_id a = op_id b -> a = b.
Proof.
  induction l as [|op l IH]; simpl; [set_solver|]. intros [Hn Hd]%NoDup_cons.
  intros [->|Ha]%elem_of_cons [->|Hb]%elem_of_cons E; [done| | |by apply IH].
  - destruct Hn. rewrite E. by apply list_elem_of_In, in_map, list_elem_of_In.
  - destruct Hn. rewrite <- E. by apply list_elem_of_In, in_map, list_elem_of_In.
Qed.

Lemma update_first_elem_NoDup oid f l op' :
  NoDup (map op_id l) -> (forall op, op_id (f op) = op_id op) ->
  op' ∈ update_first oid f l ->
  (op' ∈ l /\ op_id op' <> oid) \/ (exists op, op ∈ l /\ op_id op = oid /\ op' = f op).
Proof.
  intros Hd Hf. induction l as [|op l IH]; simpl; [set_solver|].
  apply NoDup_cons in Hd as [Hn Hd]. case_match; bool_norm.
  - intros [->|H']%elem_of_cons; [right; exists op; set_solver|]. left. split; [set_solver|].
    intros E. apply Hn. replace (op_id op) with (op_id op') by congruence.
    by apply list_elem_of_In, in_map, list_elem_of_In.
  - intros [->|H']%elem_of_cons; [set_solver|].
    destruct (IH Hd H') as [[]|(op0 & ? & ? & ->)]; [set_solver|]. right. exists op0. set_solver.
Qed.

(** One list of operations is left of another: nobody new, the ids still distinct. *)
Definition evolves (l l' : list PendingMutation) : Prop :=
  (forall op', op' ∈ l' -> exists op, op ∈ l /\ same_op op op')
  /\ (NoDup (map op_id l) -> NoDup (map op_id l')).

Lemma evolves_refl l : evolves l l.
Proof. split; [|done]. intros op H. exists op. eauto using same_op_refl. Qed.

Lemma evolves_trans l1 l2 l3 : evolves l1 l2 -> evolves l2 l3 -> evolves l1 l3.
Proof.
  intros [H1 D1] [H2 D2]. split; [|auto]. intros op (op2 & Hin & S2)%H2.
  destruct (H1 _ Hin) as (op1 & ? & S1). exists op1. eauto using same_op_trans.
Qed.

Lemma evolves_filter p l : evolves l (List.filter p l).
Proof.
  split; [|apply filter_ids_NoDup]. intros op [H _]%list_elem_of_In%filter_In.
  exists op. split; [by apply list_elem_of_In|apply same_op_refl].
Qed.

Lemma evolves_map f l : (forall op, same_op op (f op)) -> evolves l (map f l).
Proof.
  intros Hf. split.
  - intros op' (op & <- & Hin)%list_elem_of_In%in_map_iff. exists op. by rewrite list_elem_of_In.
  - rewrite map_map, (map_ext (fun op => op_id (f op)) op_id); [done|].
    intros op. symmetry. apply (so_id _ _ (Hf op)).
Qed.

Lemma evolves_update oid f l : (forall op, same_op op (f op)) -> evolves l (update_first oid f l).
Proof.
  intros Hf. split.
  - induction l as [|op l IH]; simpl; [set_solver|]. intros op'. case_match.
    + intros [->|H']%elem_of_cons; [exists op; set_solver|].
      exists op'. split; [set_solver|apply same_op_refl].
    + intros [->|H']%elem_of_cons; [exists op; split; [set_solver|apply same_op_refl]|].
      destruct (IH _ H') as (op0 & ? & ?). exists op0. set_solver.
  - rewrite update_first_ids; [done|]. intros op. symmetry. apply (so_id _ _ (Hf op)).
Qed.

Lemma same_op_phase p op : same_op op (set_phase p op).
Proof. by constructor. Qed.
Lemma same_op_previous d op : same_op op (set_previous d op).
Proof. by constructor. Qed.
Lemma same_op_retry p n op : same_op op (set_phase p (set_attempts n op)).
Proof. by constructor. Qed.
Lemma same_op_refresh t op : same_op op (refresh_baseline t op).
Proof. unfold refresh_baseline. case_match; [apply same_op_previous|apply same_op_refl]. Qed.
Lemma same_op_recover now op : same_op op (recover_op now op).2.
Proof. unfold recover_op. case_match; simpl; auto using same_op_refl, same_op_phase. Qed.

#[export] Hint Resolve evolves_refl evolves_filter evolves_map evolves_update same_op_phase
  same_op_previous same_op_retry same_op_refresh same_op_recover : lazybox.

(** The ledger after an event that accepts nothing new. *)
Record shrinks (ops ops' : ProviderOps) : Prop := mkShrinks {
  sh_pending : evolves (pending ops) (pending ops');
  sh_next : next_id ops' = next_id ops;
  sh_gens : forall f, generation ops f <= generation ops' f;
}.

Lemma shrinks_refl ops : shrinks ops ops.
Proof. constructor; auto with lazybox. lia. Qed.

Lemma shrinks_trans a b c : shrinks a b -> shrinks b c -> shrinks a c.
Proof.
  intros [] []. constructor; [by eapply evolves_trans|congruence|].
  intros f. etrans; eauto.
Qed.

Lemma shrinks_set l ops : evolves (pending ops) l -> shrinks ops (set_pending l ops).
Proof. intros H. constructor; [done|done|]. intros f. unfold generation. simpl. lia. Qed.

Lemma shrinks_remove oid ops : shrinks ops (remove oid ops).
Proof. apply shrinks_set. auto with lazybox. Qed.

Lemma generation_bump fields ops f :
  generation (bump fields ops).2 f = if bool_decide (f ∈ fields) then generation ops f + 1 else generation ops f.
Proof.
  unfold generation at 1. simpl. case_bool_decide as Hf.
  - erewrite lookup_union_Some_l; [done|]. apply lookup_set_to_map; [by intros ??? ? [=]|]. eauto.
  - rewrite lookup_union_r; [done|]. apply eq_None_not_Some. intros [g Hg].
    apply lookup_set_to_map in Hg as (f' & ? & [= -> _]); [done|]. by intros ??? ? [=].
Qed.

Lemma shrinks_bump fields ops : shrinks ops (bump fields ops).2.
Proof.
  constructor; [apply evolves_refl|done|]. intros f. rewrite generation_bump. case_match; lia.
Qed.

#[export] Hint Resolve shrinks_refl shrinks_set shrinks_remove shrinks_bump : lazybox.

Lemma shrinks_remove_all ids ops : shrinks ops (fold_left (fun ops oid => remove oid ops) ids ops).
Proof.
  revert ops. induction ids as [|i ids IH]; intros ops; simpl; [apply shrinks_refl|].
  eapply shrinks_trans; [apply (shrinks_remove i)|apply IH].
Qed.

Lemma shrinks_cancel_op acc op : shrinks acc.1.2 (cancel_op acc op).1.2.
Proof. destruct acc as [[es ops] t]. simpl. case_match; simpl; auto with lazybox. Qed.

Lemma shrinks_cancel l acc : shrinks acc.1.2 (fold_left cancel_op l acc).1.2.
Proof.
  revert acc. induction l as [|op l IH]; intros acc; simpl; [apply shrinks_refl|].
  eapply shrinks_trans; [apply (shrinks_cancel_op acc op)|apply IH].
Qed.

Lemma shrinks_failed oid class detail now e ops :
  shrinks ops (on_failed oid class detail now e ops).1.2.
Proof.
  unfold on_failed. repeat case_match; simpl; auto with lazybox;
    apply shrinks_set; auto with lazybox.
Qed.

Lemma shrinks_cancelled i fields e ops : shrinks ops (on_cancelled i fields e ops).1.2.
Proof.
  unfold on_cancelled. case_match; [apply shrinks_refl|].
  eapply shrinks_trans; [apply (shrinks_bump fields)|].
  match goal with |- shrinks _ (fold_left _ ?l ?a).1.2 => apply (shrinks_cancel l a) end.
Qed.

(** ** Accepting a request *)

Definition superseded_ids (i : TaskId) (fields : gset MutationField) (ops : ProviderOps) : list Z :=
  map op_id (List.filter (supersedes i fields) (pending ops)).

(** The ledger when the dead weight is gone, before the new operation joins it. *)
Definition cleared (i : TaskId) (fields : gset MutationField) (ops : ProviderOps) : ProviderOps :=
  fold_left (fun ops oid => remove oid ops) (superseded_ids i fields ops) (bump fields ops).2.

Definition new_op (i : TaskId) (want : DesiredFields) (now : Z) (e : Task) (ops : ProviderOps)
    : PendingMutation :=
  mkPending (next_id ops) i want (baseline ops i want e) (bump (claimed want) ops).1 now PAccepted 0.

Lemma elem_of_remove_all ids ops op :
  op ∈ pending (fold_left (fun ops oid => remove oid ops) ids ops)
  <-> op ∈ pending ops /\ op_id op ∉ ids.
Proof.
  revert ops. induction ids as [|i ids IH]; intros ops; simpl; [set_solver|].
  rewrite IH, elem_of_remove. set_solver.
Qed.

Lemma remove_all_next ids ops :
  next_id (fold_left (fun ops oid => remove oid ops) ids ops) = next_id ops
  /\ generations (fold_left (fun ops oid => remove oid ops) ids ops) = generations ops.
Proof. revert ops. induction ids as [|i ids IH]; intros ops; simpl; [done|]. apply (IH (remove i ops)). Qed.

Lemma on_requested_empty i want now e ops :
  claimed want = ∅ -> on_requested i want now e ops = ([], ops).
Proof. intros H. unfold on_requested. by rewrite bool_decide_eq_true_2. Qed.

Lemma on_requested_spec i want now e ops :
  claimed want <> ∅ ->
  on_requested i want now e ops =
    (map Settled (superseded_ids i (claimed want) ops) ++ [Send (next_id ops)],
     mkOps (next_id ops + 1) (generations (bump (claimed want) ops).2)
       (pending (cleared i (claimed want) ops) ++ [new_op i want now e ops])).
Proof.
  intros H. unfold on_requested. rewrite bool_decide_eq_false_2 by done.
  destruct (remove_all_next (superseded_ids i (claimed want) ops) (bump (claimed want) ops).2)
    as [Hn Hg].
  unfold cleared, new_op, superseded_ids in *. simpl in *. by rewrite Hn, Hg.
Qed.

Lemma cleared_shrinks i fields ops : shrinks (bump fields ops).2 (cleared i fields ops).
Proof. apply shrinks_remove_all. Qed.

Lemma elem_of_cleared i fields ops op :
  NoDup (map op_id (pending ops)) ->
  op ∈ pending (cleared i fields ops)
  <-> op ∈ pending ops /\ supersedes i fields op = false.
Proof.
  intros Hd. unfold cleared. rewrite elem_of_remove_all. simpl. split.
  - intros [Hin Hs]. split; [done|]. apply not_true_is_false. intros Ht. apply Hs.
    apply list_elem_of_In, in_map_iff. exists op. split; [done|].
    apply filter_In. by rewrite <- list_elem_of_In.
  - intros [Hin Hs]. split; [done|]. intros (x & Hx & [Hxin Hxs]%filter_In)%list_elem_of_In%in_map_iff.
    rewrite (NoDup_ids_eq _ x op Hd) in Hxs; [congruence| |done|done]. by apply list_elem_of_In.
Qed.

(** ** Ownership *)

(** Every field of an operation was claimed at a generation of its own. *)
Record owned (ops : ProviderOps) : Prop := mkOwned {
  ow_ids : NoDup (map op_id (pending ops));
  ow_next : forall op, op ∈ pending ops -> op_id op < next_id ops;
  ow_dom : forall op, op ∈ pending ops -> dom (op_claimed op) = claimed (desired op);
  ow_gen : forall op f g, op ∈ pending ops -> op_claimed op !! f = Some g -> g <= generation ops f;
  ow_uniq : forall a b f g, a ∈ pending ops -> b ∈ pending ops ->
    op_claimed a !! f = Some g -> op_claimed b !! f = Some g -> op_id a = op_id b;
}.

Lemma owned_empty : owned empty_ops.
Proof. constructor; simpl; try set_solver. constructor. Qed.

Lemma owned_shrinks ops ops' : owned ops -> shrinks ops ops' -> owned ops'.
Proof.
  intros [Hids Hnext Hdom Hgen Huniq] [[Hsub Hnd] Hn Hg]. constructor; [by auto| | | |].
  - intros op (o & Hin & [E _ _ _ _])%Hsub. rewrite Hn, <- E. by apply Hnext.
  - intros op (o & Hin & [_ _ Ed Ec _])%Hsub. rewrite <- Ed, <- Ec. by apply Hdom.
  - intros op f g (o & Hin & [_ _ _ Ec _])%Hsub. rewrite <- Ec. intros H.
    etrans; [by eapply Hgen|apply Hg].
  - intros a b f g (a0 & Ha & [<- _ _ <- _])%Hsub (b0 & Hb & [<- _ _ <- _])%Hsub. by apply Huniq.
Qed.

Lemma lookup_bumped fields ops f g :
  (bump fields ops).1 !! f = Some g <-> f ∈ fields /\ g = generation ops f + 1.
Proof.
  simpl. rewrite lookup_set_to_map by (by intros ??? ? [=]). split.
  - intros (y & Hy & [= -> <-]). done.
  - intros [Hf ->]. eauto.
Qed.

Lemma dom_bumped fields ops : dom (bump fields ops).1 = fields.
Proof.
  apply set_eq. intros f. rewrite elem_of_dom. unfold is_Some. setoid_rewrite lookup_bumped.
  split; [by intros (? & ? & ?)|eauto].
Qed.

Lemma owned_requested i want now e ops : owned ops -> owned (on_requested i want now e ops).2.
Proof.
  intros Ho. destruct (decide (claimed want = ∅)) as [He|He]; [by rewrite on_requested_empty|].
  rewrite on_requested_spec by done. simpl.
  assert (Hc : owned (cleared i (claimed want) ops)).
  { eapply owned_shrinks; [|apply cleared_shrinks]. eapply owned_shrinks; [done|apply shrinks_bump]. }
  destruct (cleared_shrinks i (claimed want) ops) as [[Hsub _] Hn Hg].
  assert (Hgen : forall f, generation (cleared i (claimed want) ops) f
                           = generation (bump (claimed want) ops).2 f).
  { intros f. unfold generation, cleared. by rewrite (proj2 (remove_all_next _ _)). }
  destruct Hc as [Hids Hnext Hdom Hcg Huniq]. rewrite Hn in Hnext. simpl in Hnext, Hn.
  assert (Hnew : forall a f g, a ∈ pending (cleared i (claimed want) ops) ->
            op_claimed a !! f = Some g -> f ∈ claimed want -> g <= generation ops f).
  { intros a f g (a0 & Ha & [_ _ _ <- _])%Hsub H _. simpl in Ha. by eapply (ow_gen ops). }
  constructor; simpl.
  - rewrite map_app. simpl. apply NoDup_app. split_and!; [done| |apply NoDup_singleton].
    intros oid Hin ->%list_elem_of_singleton.
    apply list_elem_of_In, in_map_iff in Hin as (x & Hx & Hin). apply list_elem_of_In in Hin.
    specialize (Hnext _ Hin). lia.
  - intros op [Hin| ->%list_elem_of_singleton]%elem_of_app; simpl; [specialize (Hnext _ Hin)|]; lia.
  - intros op [Hin| ->%list_elem_of_singleton]%elem_of_app; [by apply Hdom|]. apply dom_bumped.
  - intros op f g [Hin| ->%list_elem_of_singleton]%elem_of_app H.
    + specialize (Hcg _ _ _ Hin H). by rewrite Hgen in Hcg.
    + simpl in H. apply lookup_bumped in H as [Hf ->].
      change (generation ops f + 1 <= generation (bump (claimed want) ops).2 f).
      rewrite generation_bump, bool_decide_eq_true_2 by done. lia.
  - intros a b f g [Ha| ->%list_elem_of_singleton]%elem_of_app
      [Hb| ->%list_elem_of_singleton]%elem_of_app H1 H2; [by eapply Huniq| | |done];
      simpl in H1, H2.
    + apply lookup_bumped in H2 as [Hf ->]. specialize (Hnew _ _ _ Ha H1 Hf). lia.
    + apply lookup_bumped in H1 as [Hf ->]. specialize (Hnew _ _ _ Hb H2 Hf). lia.
Qed.

(** Every step but an accepted request shrinks the ledger. *)
Lemma apply_ledger event e ops :
  (apply event e ops).1.2 = (apply_event event e ops).1.2.
Proof. unfold apply. by destruct (apply_event event e ops) as [[? ?] ?]. Qed.

Definition is_request (event : OpEvent) : bool :=
  match event with Requested _ _ _ => true | _ => false end.

Lemma apply_event_shrinks event e ops :
  is_request event = false -> shrinks ops (apply_event event e ops).1.2.
Proof.
  destruct event; simpl; intros H; [done| | | |].
  - apply shrinks_set. auto with lazybox.
  - apply shrinks_set. auto with lazybox.
  - apply shrinks_failed.
  - apply shrinks_cancelled.
Qed.

Lemma owned_apply event e ops : owned ops -> owned (apply event e ops).1.2.
Proof.
  intros Ho. rewrite apply_ledger. destruct (is_request event) eqn:Hr.
  - destruct event as [i want now| | | |]; try done. simpl.
    pose proof (owned_requested i want now e ops Ho) as H.
    by destruct (on_requested i want now e ops).
  - eapply owned_shrinks; [done|by apply apply_event_shrinks].
Qed.

Lemma shrinks_reconcile t now ops : shrinks ops (reconcile_observation t now ops).1.
Proof.
  apply shrinks_set. eapply evolves_trans; [apply evolves_filter|]. auto with lazybox.
Qed.

Lemma shrinks_recover now ops : shrinks ops (recover now ops).2.
Proof.
  apply shrinks_set. rewrite map_map. auto with lazybox.
Qed.

Lemma transition_ops i event w :
  (rows w !! i = None /\ transition i event w = ([], w))
  \/ exists e, rows w !! i = Some e /\
     transition i event w =
       ((apply event e (w_ops w)).1.1,
        mkWorld (apply event e (w_ops w)).1.2 (<[i := (apply event e (w_ops w)).2]> (rows w))
          (observed w)).
Proof.
  unfold transition. destruct (rows w !! i) as [e|]; [right; exists e; split; [done|]|by left].
  by destruct (apply event e (w_ops w)) as [[? ?] ?].
Qed.

(** What an action does to the ledger: nothing, one event, a read or a restart. *)
Lemma act_cases (P : Action -> list OpEffect -> ProviderOps -> Prop) a w :
  (forall a, P a [] (w_ops w)) ->
  (forall i want now e, rows w !! i = Some e ->
     P (ARequest i want now) (apply (Requested i want now) e (w_ops w)).1.1
       (apply (Requested i want now) e (w_ops w)).1.2) ->
  (forall a i event e, rows w !! i = Some e -> is_request event = false ->
     P a (apply event e (w_ops w)).1.1 (apply event e (w_ops w)).1.2) ->
  (forall t now, P (AObserve t now) [] (reconcile_observation t now (w_ops w)).1) ->
  (forall now, P (ARecover now) (recover now (w_ops w)).1 (recover now (w_ops w)).2) ->
  P a (act a w).1 (w_ops (act a w).2).
Proof.
  intros Hnone Hreq Hev Hobs Hrec.
  assert (Ht : forall a i event, is_request event = false ->
            P a (transition i event w).1 (w_ops (transition i event w).2)).
  { intros a' i event He. destruct (transition_ops i event w) as [[_ ->]|(e & Hi & ->)]; simpl; eauto. }
  assert (Hout : forall a op event, is_request event = false ->
            P a (outcome op event w).1 (w_ops (outcome op event w).2)).
  { intros a' op event He. unfold outcome. destruct (get op (w_ops w)); simpl; eauto. }
  destruct a; cbn [act]; eauto.
  destruct (transition_ops i (Requested i want now) w) as [[_ ->]|(e & Hi & ->)]; simpl; eauto.
Qed.

Lemma owned_act a w : owned (w_ops w) -> owned (w_ops (act a w).2).
Proof.
  intros Ho. apply (act_cases (fun _ _ ops => owned ops)); [done| | | |]; intros.
  - by apply owned_apply.
  - by apply owned_apply.
  - eapply owned_shrinks; [done|apply shrinks_reconcile].
  - eapply owned_shrinks; [done|apply shrinks_recover].
Qed.

Lemma owned_run acts : owned (w_ops (run acts start).2).
Proof.
  apply (run_invariant (fun _ _ w => owned (w_ops w))); [apply owned_empty|].
  intros _ a _ w. apply owned_act.
Qed.

(** ** How often a write is attempted *)

Definition count (p : OpEffect -> bool) (es : list OpEffect) : Z := Z.of_nat (length (List.filter p es)).

(** The effects on which the coordinator calls the provider for an operation. *)
Definition is_write (oid : Z) (e : OpEffect) : bool :=
  match e with Send i | Retry i _ => i =? oid | _ => false end.

Definition is_report (oid : Z) (e : OpEffect) : bool :=
  match e with Report i _ => i =? oid | _ => false end.

Definition restarts (acts : list Action) : Z :=
  Z.of_nat (length (List.filter (fun a => match a with ARecover _ => true | _ => false end) acts)).

Lemma count_app p a b : count p (a ++ b) = count p a + count p b.
Proof. unfold count. rewrite List.filter_app, length_app. lia. Qed.

Lemma count_cons p e es : count p (e :: es) = (if p e then 1 else 0) + count p es.
Proof. unfold count. simpl. destruct (p e); simpl; lia. Qed.

Lemma count_nil p : count p [] = 0.
Proof. done. Qed.

(** Reduce the counts of the goal to those of the effects before the step. *)
Ltac tally := rewrite ?count_app, ?count_cons, ?count_nil; simpl; unfold MAX_ATTEMPTS in *.

Lemma count_none p es : (forall e, e ∈ es -> p e = false) -> count p es = 0.
Proof.
  induction es as [|e es IH]; intros H; [done|]. unfold count in *. simpl.
  rewrite (H e) by set_solver. apply IH. set_solver.
Qed.

Lemma count_nonneg p es : 0 <= count p es.
Proof. unfold count. lia. Qed.

(** The operations of [l'] were in [l] after as many attempts. *)
Definition steady (l l' : list PendingMutation) : Prop :=
  forall op', op' ∈ l' -> exists op, op ∈ l /\ op_id op = op_id op' /\ attempts op = attempts op'.

Lemma steady_refl l : steady l l.
Proof. intros op H. eauto. Qed.

Lemma steady_sub l l' : (forall op, op ∈ l' -> op ∈ l) -> steady l l'.
Proof. intros H op Hop. eauto. Qed.

Lemma steady_update oid f l :
  (forall op, op_id (f op) = op_id op /\ attempts (f op) = attempts op) ->
  steady l (update_first oid f l).
Proof.
  intros Hf. induction l as [|op l IH]; simpl; intros op' H'; [set_solver|]. case_match.
  - apply elem_of_cons in H' as [->|H']; [|exists op'; set_solver].
    destruct (Hf op) as [? ?]. exists op. set_solver.
  - apply elem_of_cons in H' as [->|H']; [exists op; set_solver|].
    destruct (IH _ H') as (op0 & ? & ?). exists op0. set_solver.
Qed.

Lemma steady_map f l :
  (forall op, op_id (f op) = op_id op /\ attempts (f op) = attempts op) -> steady l (map f l).
Proof.
  intros Hf op' (op & <- & Hin)%list_elem_of_In%in_map_iff. destruct (Hf op).
  exists op. by rewrite list_elem_of_In.
Qed.

Lemma cancel_fold l acc :
  (forall op, op ∈ pending (fold_left cancel_op l acc).1.2 -> op ∈ pending acc.1.2)
  /\ forall oid, count (is_write oid) (fold_left cancel_op l acc).1.1 = count (is_write oid) acc.1.1
                 /\ count (is_report oid) (fold_left cancel_op l acc).1.1 = count (is_report oid) acc.1.1.
Proof.
  revert acc. induction l as [|op l IH]; intros [[es ops] t]; simpl; [done|].
  destruct (reached_provider (phase op)).
  - destruct (IH (es ++ [Reconcile (op_id op)], ops, t)) as [H1 H2]. split; [done|].
    intros oid. destruct (H2 oid) as [-> ->]. simpl. rewrite !count_app. unfold count. simpl. lia.
  - destruct (IH (es ++ [Settled (op_id op)], remove (op_id op) ops, restore op t)) as [H1 H2]. split.
    + intros o Ho. by apply H1, elem_of_remove in Ho as [? _].
    + intros oid. destruct (H2 oid) as [-> ->]. simpl. rewrite !count_app. unfold count. simpl. lia.
Qed.

(** The tally of one operation: attempts stay below the limit while it is
    pending, and it is reported when it has gone. *)
Record tally (r : Z) (es : list OpEffect) (ops : ProviderOps) : Prop := mkTally {
  ta_pending : forall op, op ∈ pending ops ->
    0 <= attempts op < MAX_ATTEMPTS
    /\ count (is_write (op_id op)) es <= attempts op + 1 + r
    /\ count (is_report (op_id op)) es = 0;
  ta_all : forall oid, count (is_write oid) es <= MAX_ATTEMPTS + r /\ count (is_report oid) es <= 1;
  ta_fresh : forall oid, next_id ops <= oid ->
    count (is_write oid) es = 0 /\ count (is_report oid) es = 0;
}.

(** A step that writes and reports nothing. *)
Lemma tally_quiet r es es' ops ops' :
  tally r es ops -> steady (pending ops) (pending ops') -> next_id ops' = next_id ops ->
  (forall oid, count (is_write oid) es' = 0 /\ count (is_report oid) es' = 0) ->
  tally r (es ++ es') ops'.
Proof.
  intros [Hp Ha Hf] Hs Hn Hq. constructor.
  - intros op' (op & Hin & Ei & Ea)%Hs. destruct (Hp _ Hin) as (? & ? & ?).
    destruct (Hq (op_id op')). rewrite !count_app, <- Ei, <- Ea in *. lia.
  - intros oid. destruct (Ha oid), (Hq oid). rewrite !count_app. lia.
  - intros oid Ho. rewrite Hn in Ho. destruct (Hf oid Ho), (Hq oid). rewrite !count_app. lia.
Qed.

Lemma tally_requested r es i want now e ops :
  0 <= r -> owned ops -> tally r es ops ->
  tally r (es ++ (on_requested i want now e ops).1) (on_requested i want now e ops).2.
Proof.
  intros Hr Ho Ht. destruct (decide (claimed want = ∅)) as [He|He].
  { rewrite on_requested_empty by done. simpl. by rewrite app_nil_r. }
  rewrite on_requested_spec by done. simpl.
  assert (Hs : forall oid, count (is_write oid) (map Settled (superseded_ids i (claimed want) ops)) = 0
                      /\ count (is_report oid) (map Settled (superseded_ids i (claimed want) ops)) = 0).
  { intros oid. split; apply count_none; intros x (y & <- & _)%list_elem_of_In%in_map_iff; done. }
  destruct Ht as [Hp Ha Hf]. pose proof (Hf (next_id ops) ltac:(lia)) as [Hw0 Hr0].
  constructor; simpl.
  - intros op [Hin| ->%list_elem_of_singleton]%elem_of_app.
    + apply elem_of_cleared in Hin as [Hin _]; [|apply ow_ids, Ho]. destruct (Hp _ Hin) as (? & ? & ?). pose proof (ow_next _ Ho _ Hin).
      destruct (Hs (op_id op)). tally.
      rewrite (proj2 (Z.eqb_neq (next_id ops) (op_id op))) by lia. simpl. lia.
    + simpl. destruct (Hs (next_id ops)). tally.
      rewrite Z.eqb_refl. unfold MAX_ATTEMPTS. simpl. lia.
  - intros oid. destruct (Ha oid), (Hs oid). tally.
    destruct (next_id ops =? oid) eqn:E; bool_norm; subst; simpl; unfold MAX_ATTEMPTS in *; lia.
  - intros oid Hoid. destruct (Hf oid), (Hs oid); [lia|]. tally.
    rewrite (proj2 (Z.eqb_neq (next_id ops) oid)) by lia. simpl. lia.
Qed.

Lemma tally_failed r es oid class detail now e ops :
  owned ops -> tally r es ops ->
  tally r (es ++ (on_failed oid class detail now e ops).1.1) (on_failed oid class detail now e ops).1.2.
Proof.
  intros Ho Ht. unfold on_failed. destruct (get oid ops) as [op|] eqn:Hg; cbn [fst snd].
  2:{ apply (tally_quiet r es [] ops); auto using steady_refl. }
  apply get_Some in Hg as [Hin Hid]. case_match.
  { apply (tally_quiet r es _ ops); [done| |done|by intros]. simpl.
    apply steady_update. done. }
  case_match.
  { apply (tally_quiet r es _ ops); [done| |done|by intros]. apply steady_sub.
    by intros o [? _]%elem_of_remove. }
  destruct Ht as [Hp Ha Hf]. destruct (Hp _ Hin) as (Hat & Hw & Hrep). rewrite Hid in Hw, Hrep.
  assert (Hlt : oid < next_id ops) by (rewrite <- Hid; by apply (ow_next _ Ho)).
  case_match; bool_norm; cbn [fst snd].
  - constructor.
    + intros op' H'. simpl in H'. apply update_first_elem_NoDup in H' as [[Hin' Hne]|(o & Ho' & Hoid & ->)];
        [| |apply ow_ids, Ho|done].
      * destruct (Hp _ Hin') as (? & ? & ?). tally.
        rewrite (proj2 (Z.eqb_neq oid (op_id op'))) by done. simpl. lia.
      * simpl. rewrite Hoid. tally. rewrite Z.eqb_refl. simpl. lia.
    + intros oid'. destruct (Ha oid'). tally.
      destruct (oid =? oid') eqn:E; bool_norm; subst; simpl; lia.
    + intros oid' Hoid'. simpl in Hoid'. destruct (Hf oid' Hoid'). tally. rewrite (proj2 (Z.eqb_neq oid oid')) by lia. simpl. lia.
  - constructor.
    + intros op' [Hin' Hne]%elem_of_remove. destruct (Hp _ Hin') as (? & ? & ?).
      tally.
      rewrite (proj2 (Z.eqb_neq oid (op_id op'))) by done. simpl. lia.
    + intros oid'. destruct (Ha oid'). tally.
      destruct (oid =? oid') eqn:E; bool_norm; subst; simpl; lia.
    + intros oid' Hoid'. simpl in Hoid'. destruct (Hf oid' Hoid'). tally. rewrite (proj2 (Z.eqb_neq oid oid')) by lia. simpl. lia.
Qed.

Lemma tally_event r es event e ops :
  0 <= r -> owned ops -> tally r es ops ->
  tally r (es ++ (apply event e ops).1.1) (apply event e ops).1.2.
Proof.
  intros Hr Ho Ht.
  assert (Heff : (apply event e ops).1.1 = (apply_event event e ops).1.1)
    by (unfold apply; by destruct (apply_event event e ops) as [[? ?] ?]).
  rewrite Heff, apply_ledger. destruct event as [i want now|oid|oid now|oid class detail now|i fields now]; simpl.
  - pose proof (tally_requested r es i want now e ops Hr Ho Ht) as H.
    by destruct (on_requested i want now e ops).
  - apply (tally_quiet r es _ ops); [done| |done|by intros]. by apply steady_update.
  - apply (tally_quiet r es _ ops); [done| |done|by intros]. by apply steady_update.
  - by apply tally_failed.
  - unfold on_cancelled. case_match; cbn [fst snd].
    { apply (tally_quiet r es [] ops); auto using steady_refl. }
    match goal with |- tally _ (_ ++ (fold_left _ ?l ?acc).1.1) _ =>
      destruct (cancel_fold l acc) as [H1 H2]; pose proof (shrinks_cancel l acc) as [_ H3 _] end.
    apply (tally_quiet r es _ ops); [done|by apply steady_sub|by rewrite H3|].
    intros oid. destruct (H2 oid) as [-> ->]. done.
Qed.

Lemma recover_tally now ops :
  steady (pending ops) (pending (recover now ops).2)
  /\ (NoDup (map op_id (pending ops)) -> forall oid,
      count (is_write oid) (recover now ops).1 <= 1
      /\ ((forall op, op ∈ pending ops -> op_id op <> oid) -> count (is_write oid) (recover now ops).1 = 0)
      /\ count (is_report oid) (recover now ops).1 = 0).
Proof.
  split.
  { simpl. rewrite map_map. apply steady_map. intros op. unfold recover_op. by case_match. }
  simpl. rewrite map_map. induction (pending ops) as [|op l IH]; intros Hd oid; [done|].
  simpl in Hd. apply NoDup_cons in Hd as [Hn Hd]. destruct (IH Hd oid) as (H1 & H0 & H2).
  simpl. rewrite !count_app, H2.
  assert (Hone : count (is_report oid) (recover_op now op).1 = 0
           /\ count (is_write oid) (recover_op now op).1 <= (if op_id op =? oid then 1 else 0)).
  { unfold recover_op, count. case_match; simpl; destruct (op_id op =? oid); simpl; lia. }
  destruct Hone as [-> Hw]. pose proof (count_nonneg (is_write oid) (recover_op now op).1).
  split_and!; [|intros Hne|lia].
  - destruct (op_id op =? oid) eqn:E; bool_norm; [|lia]. rewrite H0; [lia|].
    intros o Ho E'. apply Hn. rewrite E, <- E'. by apply list_elem_of_In, in_map, list_elem_of_In.
  - rewrite H0 by set_solver. specialize (Hne op ltac:(set_solver)).
    rewrite (proj2 (Z.eqb_neq _ _) Hne) in Hw. lia.
Qed.

Lemma tally_mono r r' es ops : r <= r' -> tally r es ops -> tally r' es ops.
Proof.
  intros Hr [Hp Ha Hf]. constructor; [| |done].
  - intros op Hop. destruct (Hp op Hop). lia.
  - intros oid. destruct (Ha oid). lia.
Qed.

Lemma tally_act a w r es :
  0 <= r -> owned (w_ops w) -> tally r es (w_ops w) ->
  tally (r + restarts [a]) (es ++ (act a w).1) (w_ops (act a w).2).
Proof.
  intros Hr Ho Ht.
  apply (act_cases (fun a es' ops => tally (r + restarts [a]) (es ++ es') ops)); intros;
    [apply (tally_mono r); [unfold restarts; lia|]..|].
  - by rewrite app_nil_r.
  - by apply tally_event.
  - by apply tally_event.
  - apply (tally_quiet r es [] (w_ops w)); [done| |done|done]. simpl.
    intros op' (op & <- & Hin%filter_In)%list_elem_of_In%in_map_iff.
    exists op. rewrite list_elem_of_In. split; [apply Hin|]. unfold refresh_baseline. by case_match.
  - destruct (recover_tally now (w_ops w)) as [Hs Hc]. specialize (Hc (ow_ids _ Ho)).
    change (restarts [ARecover now]) with 1. destruct Ht as [Hp Ha Hf]. constructor.
    + intros op' (op & Hin & Ei & Ea)%Hs. destruct (Hp _ Hin) as (? & ? & ?).
      rewrite <- Ei, <- Ea. destruct (Hc (op_id op)) as (? & _ & ?). rewrite !count_app. lia.
    + intros oid. destruct (Ha oid), (Hc oid) as (? & _ & ?). rewrite !count_app. lia.
    + intros oid Hoid. simpl in Hoid. destruct (Hf oid Hoid), (Hc oid) as (_ & H0' & ?).
      rewrite !count_app, H0'; [lia|]. intros op Hin E. pose proof (ow_next _ Ho _ Hin). lia.
Qed.

Lemma tally_run acts : owned (w_ops (run acts start).2)
  /\ tally (restarts acts) (run acts start).1 (w_ops (run acts start).2).
Proof.
  apply (run_invariant (fun acts es w => owned (w_ops w) /\ tally (restarts acts) es (w_ops w))).
  { split; [apply owned_empty|]. constructor; simpl; [set_solver| |done].
    intros oid. unfold MAX_ATTEMPTS, restarts, count. simpl. lia. }
  intros hist a es w [Ho Ht]. split; [by apply owned_act|].
  replace (restarts (hist ++ [a])) with (restarts hist + restarts [a])
    by (unfold restarts; rewrite List.filter_app, length_app; lia).
  apply tally_act; [unfold restarts; lia|done|done].
Qed.

(** ** Fields of a row *)

(** What a row shows for one field. *)
Definition read (f : MutationField) (t : Task) : DesiredFields :=
  match f with
  | FAssignees => want_assignees (assignees t)
  | FLabels => want_labels (labels t)
  | FReviewers => want_reviewers (reviewers t)
  | FState => want_state (state t) (state_label t)
  end.

(** A row shows the value a write asks for; labels up to the case of their names. *)
Definition shows (f : MutationField) (d : DesiredFields) (t : Task) : Prop :=
  match f with
  | FAssignees => df_assignees d = Some (assignees t)
  | FLabels => map to_ascii_lowercase <$> df_labels d = Some (map to_ascii_lowercase (labels t))
  | FReviewers => df_reviewers d = Some (reviewers t)
  | FState => df_state d = Some (mkWrite (state t) (state_label t))
  end.

Lemma elem_of_claimed f d :
  f ∈ claimed d <->
  match f with
  | FAssignees => is_Some (df_assignees d)
  | FLabels => is_Some (df_labels d)
  | FReviewers => is_Some (df_reviewers d)
  | FState => is_Some (df_state d)
  end.
Proof.
  unfold claimed. rewrite !elem_of_union.
  destruct d as [[] [] [] []], f; cbn [df_assignees df_labels df_reviewers df_state];
    rewrite ?elem_of_empty, ?elem_of_singleton; unfold is_Some; naive_solver.
Qed.

Lemma known_spelling_lower existing name :
  to_ascii_lowercase (known_spelling existing name) = to_ascii_lowercase name.
Proof.
  unfold known_spelling. destruct (List.find _ existing) as [l|] eqn:E; [|done]. simpl.
  apply find_some in E as [_ E]. by apply String.eqb_eq in E.
Qed.

Lemma id_paint d t : id (paint d t) = id t.
Proof. destruct d as [[] [] [] []], t; done. Qed.

Lemma read_paint f d t : f ∉ claimed d -> read f (paint d t) = read f t.
Proof.
  rewrite elem_of_claimed. destruct d as [[] [] [] []], f, t; simpl; intros H; try done;
    by destruct H.
Qed.

Lemma shows_paint f d t : f ∈ claimed d -> shows f d (paint d t).
Proof.
  rewrite elem_of_claimed. destruct d as [[a|] [l|] [r|] [s|]], f; intros Hs; try (by destruct Hs);
    destruct t; simpl; try done; try (by destruct s);
    f_equal; rewrite map_map; apply map_ext; intros n; by rewrite known_spelling_lower.
Qed.

Lemma shows_other f d t u : read f t = read f u -> shows f d t -> shows f d u.
Proof. intros E. destruct f; injection E; simpl; intros; congruence. Qed.

(** The operations that paint a task's row. *)
Definition paints (ops : ProviderOps) (i : TaskId) (op : PendingMutation) : bool :=
  bool_decide (op_task op = i) && is_current ops op.

Definition paint_one (ops : ProviderOps) (t : Task) (op : PendingMutation) : Task :=
  if paints ops (id t) op then paint (desired op) t else t.

Definition paint_all (ops : ProviderOps) (l : list PendingMutation) (t : Task) : Task :=
  fold_left (paint_one ops) l t.

Lemma id_paint_one ops t op : id (paint_one ops t op) = id t.
Proof. unfold paint_one. case_match; [apply id_paint|done]. Qed.

Lemma id_paint_all ops l t : id (paint_all ops l t) = id t.
Proof.
  revert t. induction l as [|op l IH]; intros t; [done|].
  change (paint_all ops (op :: l) t) with (paint_all ops l (paint_one ops t op)).
  rewrite IH. apply id_paint_one.
Qed.

Lemma read_paint_all ops l t f :
  (forall op, op ∈ l -> paints ops (id t) op = true -> f ∉ claimed (desired op)) ->
  read f (paint_all ops l t) = read f t.
Proof.
  revert t. induction l as [|op l IH]; intros t H; [done|].
  change (paint_all ops (op :: l) t) with (paint_all ops l (paint_one ops t op)). rewrite IH.
  - unfold paint_one. destruct (paints ops (id t) op) eqn:Hp; [|done].
    apply read_paint. apply H; [set_solver|done].
  - intros o Ho. rewrite id_paint_one. apply H. set_solver.
Qed.

Lemma paint_all_app ops l1 l2 t : paint_all ops (l1 ++ l2) t = paint_all ops l2 (paint_all ops l1 t).
Proof. unfold paint_all. by rewrite fold_left_app. Qed.

Lemma shows_paint_all ops l t f op :
  op ∈ l -> paints ops (id t) op = true -> f ∈ claimed (desired op) ->
  (forall o, o ∈ l -> paints ops (id t) o = true -> f ∈ claimed (desired o) -> o = op) ->
  NoDup l ->
  shows f (desired op) (paint_all ops l t).
Proof.
  intros (l1 & l2 & ->)%list_elem_of_split Hp Hf Hu Hd. rewrite paint_all_app.
  change (paint_all ops (op :: l2) ?x) with (paint_all ops l2 (paint_one ops x op)).
  unfold paint_one. rewrite id_paint_all, Hp.
  apply (shows_other f _ (paint (desired op) (paint_all ops l1 t))); [|by apply shows_paint].
  symmetry. apply read_paint_all. rewrite id_paint, id_paint_all. intros o Ho Hpo Hfo.
  rewrite (Hu o) in Ho; [|set_solver|done|done].
  apply NoDup_app in Hd as (_ & _ & [Hd _]%NoDup_cons). done.
Qed.

Lemma overlay_paint_all ops t : overlay ops t = paint_all ops (pending ops) t.
Proof. done. Qed.

Lemma current_claim ops op f :
  owned ops -> op ∈ pending ops -> is_current ops op = true -> f ∈ claimed (desired op) ->
  op_claimed op !! f = Some (generation ops f).
Proof.
  intros Ho Hin Hc Hf. rewrite <- (ow_dom _ Ho) in Hf by done.
  apply elem_of_dom in Hf as [g Hg]. rewrite Hg. unfold is_current in Hc.
  rewrite forallb_forall in Hc. specialize (Hc (f, g)). simpl in Hc.
  rewrite Z.eqb_eq in Hc. f_equal. symmetry. apply Hc.
  by apply list_elem_of_In, elem_of_map_to_list.
Qed.

(** At most one operation owns a field. *)
Lemma one_owner ops a b f :
  owned ops -> a ∈ pending ops -> b ∈ pending ops ->
  is_current ops a = true -> is_current ops b = true ->
  f ∈ claimed (desired a) -> f ∈ claimed (desired b) -> a = b.
Proof.
  intros Ho Ha Hb Ca Cb Fa Fb. apply (NoDup_ids_eq (pending ops)); [apply ow_ids, Ho|done|done|].
  eapply (ow_uniq _ Ho _ _ f); [done|done|by apply current_claim|by apply current_claim].
Qed.

(** What the row shows after the overlay, field by field. *)
Lemma overlay_shows ops t f :
  owned ops ->
  (forall op, op ∈ pending ops -> op_task op = id t -> is_current ops op = true ->
     f ∈ claimed (desired op) -> shows f (desired op) (overlay ops t))
  /\ ((forall op, op ∈ pending ops -> op_task op = id t -> is_current ops op = true ->
        f ∉ claimed (desired op)) -> read f (overlay ops t) = read f t).
Proof.
  intros Ho. split.
  - intros op Hin Ht Hc Hf. rewrite overlay_paint_all. apply shows_paint_all; [done| |done| |].
    + unfold paints. rewrite Hc. by rewrite bool_decide_eq_true_2.
    + intros o Hoin Hpo Hfo. unfold paints in Hpo. bool_norm. by eapply (one_owner ops o op f).
    + eapply NoDup_fmap_1. apply (ow_ids _ Ho).
  - intros H. rewrite overlay_paint_all. apply read_paint_all. intros op Hin Hp.
    unfold paints in Hp. bool_norm. by apply H.
Qed.

(** ** A row and what the provider last said *)

(** The fields no pending operation claims show the last observation, and every
    pending operation remembers it for the fields it claims. *)
Record faithful (ops : ProviderOps) (i : TaskId) (row obs : Task) : Prop := mkFaithful {
  fa_row : id row = i;
  fa_obs : id obs = i;
  fa_read : forall f,
    (forall op, op ∈ pending ops -> op_task op = i -> f ∉ claimed (desired op)) ->
    read f row = read f obs;
  fa_previous : forall op, op ∈ pending ops -> op_task op = i ->
    previous op = observed_counterpart (desired op) obs;
}.

Definition kin (a b : PendingMutation) : Prop := same_op a b /\ previous a = previous b.

(** The operations on one task are the same in both ledgers, up to their phase. *)
Definition aligned (i : TaskId) (ops ops' : ProviderOps) : Prop :=
  (forall op', op' ∈ pending ops' -> op_task op' = i ->
     exists op, op ∈ pending ops /\ kin op op')
  /\ (forall op, op ∈ pending ops -> op_task op = i ->
     exists op', op' ∈ pending ops' /\ kin op op').

Lemma kin_refl op : kin op op.
Proof. split; [apply same_op_refl|done]. Qed.

Lemma aligned_refl i ops : aligned i ops ops.
Proof. split; eauto using kin_refl. Qed.

Lemma aligned_trans i a b c : aligned i a b -> aligned i b c -> aligned i a c.
Proof.
  intros [H1 H2] [H3 H4]. split.
  - intros op Hin Ht. destruct (H3 _ Hin Ht) as (x & Hx & [Sx Px]).
    destruct (H1 x Hx) as (y & Hy & [Sy Py]); [by rewrite (so_task _ _ Sx)|].
    exists y. split; [done|]. split; [by eapply same_op_trans|congruence].
  - intros op Hin Ht. destruct (H2 _ Hin Ht) as (x & Hx & [Sx Px]).
    destruct (H4 x Hx) as (y & Hy & [Sy Py]); [by rewrite <- (so_task _ _ Sx)|].
    exists y. split; [done|]. split; [by eapply same_op_trans|congruence].
Qed.

Lemma faithful_aligned ops ops' i row obs :
  aligned i ops ops' -> faithful ops i row obs -> faithful ops' i row obs.
Proof.
  intros [H1 H2] [Hr Ho Hread Hprev]. constructor; [done|done| |].
  - intros f H. apply Hread. intros op Hin Ht. destruct (H2 _ Hin Ht) as (op' & Hin' & [[_ Et Ed _ _] _]).
    rewrite Ed. apply H; congruence.
  - intros op' Hin' Ht. destruct (H1 _ Hin' Ht) as (op & Hin & [[_ Et Ed _ _] Ep]).
    rewrite <- Ep, <- Ed. apply Hprev; congruence.
Qed.

Lemma faithful_overlay ops i row obs : faithful ops i row obs -> faithful ops i (overlay ops row) obs.
Proof.
  intros [Hr Ho Hread Hprev]. constructor; [by rewrite overlay_paint_all, id_paint_all|done| |done].
  intros f H. rewrite <- (Hread f H), overlay_paint_all. apply read_paint_all.
  intros op Hin Hp. unfold paints in Hp. bool_norm. apply H; congruence.
Qed.

Lemma aligned_update i oid f ops :
  (forall op, kin op (f op)) -> aligned i ops (update_op oid f ops).
Proof.
  intros Hf. unfold aligned, update_op. simpl. induction (pending ops) as [|op l [IH1 IH2]]; simpl.
  - split; set_solver.
  - case_match; split; intros o [->|Hin]%elem_of_cons Ht.
    + exists op. split; [set_solver|done].
    + exists o. split; [set_solver|apply kin_refl].
    + exists (f op). split; [set_solver|done].
    + exists o. split; [set_solver|apply kin_refl].
    + exists op. split; [set_solver|apply kin_refl].
    + destruct (IH1 _ Hin Ht) as (x & ? & ?). exists x. set_solver.
    + exists op. split; [set_solver|apply kin_refl].
    + destruct (IH2 _ Hin Ht) as (x & ? & ?). exists x. set_solver.
Qed.

Lemma aligned_remove i op ops :
  owned ops -> op ∈ pending ops -> op_task op <> i -> aligned i ops (remove (op_id op) ops).
Proof.
  intros Ho Hin Hne. split.
  - intros o [Hino _]%elem_of_remove _. exists o. eauto using kin_refl.
  - intros o Hino Ht. exists o. rewrite elem_of_remove. split; [|apply kin_refl]. split; [done|].
    intros E. apply Hne. rewrite <- Ht. f_equal. symmetry.
    by apply (NoDup_ids_eq (pending ops)); [apply ow_ids|..].
Qed.

Lemma id_restore op t : id (restore op t) = id t.
Proof. unfold restore. case_match; [|done]. destruct (previous op) as [[] [] [] []], t; done. Qed.

Lemma read_restore op obs t f :
  op_task op = id t -> previous op = observed_counterpart (desired op) obs ->
  read f (restore op t) = if bool_decide (f ∈ claimed (desired op)) then read f obs else read f t.
Proof.
  intros Ht Hp. unfold restore. rewrite bool_decide_eq_true_2 by done. rewrite Hp. clear Hp.
  case_bool_decide as Hf; rewrite elem_of_claimed in Hf;
    destruct (desired op) as [[] [] [] []], f; simpl in *;
    try (by destruct Hf); try (by destruct Hf; eauto); by destruct t.
Qed.

(** Dropping an operation uncovers the observation under it. *)
Lemma faithful_remove ops i row obs op :
  owned ops -> op ∈ pending ops -> op_task op = i -> faithful ops i row obs ->
  faithful (remove (op_id op) ops) i (restore op row) obs.
Proof.
  intros Ho Hin Ht [Hr Hobs Hread Hprev]. constructor; [by rewrite id_restore|done| |].
  - intros f H. rewrite (read_restore op obs) by (try congruence; by apply Hprev).
    case_bool_decide as Hf; [done|]. apply Hread. intros o Hino Hto.
    destruct (decide (op_id o = op_id op)) as [E|E].
    + by rewrite (NoDup_ids_eq (pending ops) o op (ow_ids _ Ho) Hino Hin E).
    + apply H; [by apply elem_of_remove|done].
  - intros o [Hino _]%elem_of_remove. by apply Hprev.
Qed.

Lemma faithful_cancel l es ops i row obs :
  owned ops -> NoDup (map op_id l) ->
  (forall op, op ∈ l -> op ∈ pending ops /\ op_task op = i) -> faithful ops i row obs ->
  let '(_, ops', row') := fold_left cancel_op l (es, ops, row) in faithful ops' i row' obs.
Proof.
  revert es ops row. induction l as [|op l IH]; intros es ops row Ho Hd Hl Hf; simpl; [done|].
  simpl in Hd. apply NoDup_cons in Hd as [Hn Hd]. destruct (Hl op) as [Hin Ht]; [set_solver|].
  destruct (reached_provider (phase op)).
  - apply IH; [done|done| |done]. intros o Ho'. apply Hl. set_solver.
  - apply IH; [eapply owned_shrinks; [done|apply shrinks_remove]|done| |by apply faithful_remove].
    intros o Ho'. destruct (Hl o) as [Hino Hto]; [set_solver|]. split; [|done].
    apply elem_of_remove. split; [done|]. intros E. apply Hn. rewrite <- E.
    by apply list_elem_of_In, in_map, list_elem_of_In.
Qed.

Lemma faithful_failed ops oid op class detail now i row obs :
  owned ops -> get oid ops = Some op -> op_task op = i -> faithful ops i row obs ->
  let '(_, ops', row') := on_failed oid class detail now row ops in faithful ops' i row' obs.
Proof.
  intros Ho Hg Ht Hf. unfold on_failed. rewrite Hg. apply get_Some in Hg as [Hin <-].
  repeat case_match; simplify_eq/=; try (by apply faithful_remove);
    (apply (faithful_aligned ops); [|done]); apply aligned_update; intros o; split; done.
Qed.

Lemma aligned_bump i fields ops : aligned i ops (bump fields ops).2.
Proof. split; eauto using kin_refl. Qed.

Lemma faithful_cancelled ops fields i row obs :
  owned ops -> faithful ops i row obs ->
  let '(_, ops', row') := on_cancelled i fields row ops in faithful ops' i row' obs.
Proof.
  intros Ho Hf. unfold on_cancelled. destruct (bool_decide (fields = ∅)); [done|]. apply faithful_cancel.
  - eapply owned_shrinks; [done|apply shrinks_bump].
  - apply filter_ids_NoDup. apply (ow_ids _ Ho).
  - intros op [Hin Hp]%list_elem_of_In%filter_In. bool_norm. split; [|done]. by apply list_elem_of_In.
  - eapply faithful_aligned; [apply aligned_bump|done].
Qed.

Lemma or_else_is_Some {A} (a b : option A) : is_Some (or_else a b) <-> is_Some a \/ is_Some b.
Proof. destruct a; simpl; unfold is_Some; naive_solver. Qed.

Lemma claimed_fill_from a b : claimed (fill_from a b) = claimed a ∪ claimed b.
Proof.
  apply set_eq. intros f. rewrite elem_of_union, !elem_of_claimed.
  destruct f; cbn; apply or_else_is_Some.
Qed.

Lemma claimed_restricted d fields : claimed (restricted_to d fields) = claimed d ∩ fields.
Proof.
  apply set_eq. intros f. rewrite elem_of_intersection, !elem_of_claimed.
  destruct d as [? ? ? ?], f; cbn; case_bool_decide; unfold is_Some; naive_solver.
Qed.

Lemma claimed_counterpart d t : claimed (observed_counterpart d t) = claimed d.
Proof. destruct d as [[] [] [] []]; done. Qed.

(** Every value of [d] is the one [obs] has. *)
Definition taken_from (obs : Task) (d : DesiredFields) : Prop := observed_counterpart d obs = d.

Lemma taken_fill obs a b : taken_from obs a -> taken_from obs b -> taken_from obs (fill_from a b).
Proof.
  unfold taken_from, observed_counterpart, fill_from. destruct a as [a1 a2 a3 a4], b as [b1 b2 b3 b4].
  cbn. intros [= A1 A2 A3 A4] [= B1 B2 B3 B4].
  f_equal; [destruct a1|destruct a2|destruct a3|destruct a4]; done.
Qed.

Lemma taken_restricted obs d fields : taken_from obs d -> taken_from obs (restricted_to d fields).
Proof.
  unfold taken_from, restricted_to, observed_counterpart. destruct d as [a l r s]. cbn.
  intros [= Ha Hl Hr Hs]. repeat case_bool_decide; cbn; by rewrite ?Ha, ?Hl, ?Hr, ?Hs.
Qed.

Lemma taken_counterpart obs d : taken_from obs (observed_counterpart d obs).
Proof. unfold taken_from. destruct d as [[] [] [] []]; done. Qed.

(** Filling up with the row's values is filling up with the observation's, where
    the two agree. *)
Lemma fill_row d want e obs :
  taken_from obs d -> claimed d ⊆ claimed want ->
  (forall f, f ∈ claimed want -> f ∉ claimed d -> read f e = read f obs) ->
  fill_from d (observed_counterpart want e) = observed_counterpart want obs.
Proof.
  intros Ht Hsub He.
  pose proof (He FAssignees) as H1. pose proof (He FLabels) as H2.
  pose proof (He FReviewers) as H3. pose proof (He FState) as H4. clear He.
  pose proof (Hsub FAssignees) as S1. pose proof (Hsub FLabels) as S2.
  pose proof (Hsub FReviewers) as S3. pose proof (Hsub FState) as S4. clear Hsub.
  rewrite !elem_of_claimed in *. unfold taken_from in Ht.
  destruct d as [a l r s], want as [a' l' r' s']. cbn in *. injection Ht as Ea El Er Es.
  unfold observed_counterpart, fill_from. cbn. f_equal.
  - destruct a, a'; cbn in *; try done; [by destruct S1|].
    specialize (H1 ltac:(eauto) ltac:(by intros [])). injection H1. congruence.
  - destruct l, l'; cbn in *; try done; [by destruct S2|].
    specialize (H2 ltac:(eauto) ltac:(by intros [])). injection H2. congruence.
  - destruct r, r'; cbn in *; try done; [by destruct S3|].
    specialize (H3 ltac:(eauto) ltac:(by intros [])). injection H3. congruence.
  - destruct s, s'; cbn in *; try done; [by destruct S4|].
    specialize (H4 ltac:(eauto) ltac:(by intros [])). injection H4. congruence.
Qed.

Definition single_field (d : DesiredFields) : Prop :=
  forall f g, f ∈ claimed d -> g ∈ claimed d -> f = g.

Lemma baseline_fold l d obs want :
  taken_from obs d -> claimed d ⊆ claimed want ->
  (forall op, op ∈ l -> previous op = observed_counterpart (desired op) obs) ->
  let d' := fold_left (fun d op => fill_from d (restricted_to (previous op) (claimed want))) l d in
  taken_from obs d' /\ claimed d' ⊆ claimed want /\ claimed d ⊆ claimed d'
  /\ (forall op, op ∈ l -> claimed (desired op) ∩ claimed want ⊆ claimed d').
Proof.
  revert d. induction l as [|op l IH]; intros d Ht Hs Hl; simpl.
  { split_and!; [done|done|done|]. by intros op ?%elem_of_nil. }
  assert (Hp : previous op = observed_counterpart (desired op) obs) by (apply Hl; by left).
  assert (Hc : claimed (restricted_to (previous op) (claimed want)) = claimed (desired op) ∩ claimed want)
    by (by rewrite claimed_restricted, Hp, claimed_counterpart).
  destruct (IH (fill_from d (restricted_to (previous op) (claimed want)))) as (H1 & H2 & H3 & H4).
  - apply taken_fill; [done|]. apply taken_restricted. rewrite Hp. apply taken_counterpart.
  - rewrite claimed_fill_from, Hc. apply union_least; [done|apply intersection_subseteq_r].
  - intros o Ho. apply Hl. by right.
  - rewrite claimed_fill_from, Hc in H3. split_and!; [done|done| |].
    + etrans; [apply union_subseteq_l|exact H3].
    + intros o [->|Ho]%elem_of_cons; [|by apply H4]. etrans; [apply union_subseteq_r|exact H3].
Qed.

Lemma baseline_observed ops i want row obs :
  faithful ops i row obs -> baseline ops i want row = observed_counterpart want obs.
Proof.
  intros [_ _ Hread Hprev]. unfold baseline.
  match goal with |- fill_from (fold_left _ ?l ?d) _ = _ =>
    destruct (baseline_fold l d obs want) as (Ht & Hs & _ & Hl) end.
  - done.
  - set_solver.
  - intros op [Hin Hp]%list_elem_of_In%filter_In. bool_norm.
    apply Hprev; [by apply list_elem_of_In|done].
  - apply fill_row; [done|done|]. intros f Hf Hn. apply Hread. intros op Hin Ho Hfo. apply Hn.
    apply (Hl op); [|set_solver]. apply list_elem_of_In, filter_In. split; [by apply list_elem_of_In|].
    by apply bool_decide_eq_true_2.
Qed.

Lemma supersedes_same_claim i want op :
  single_field (desired op) -> single_field want -> supersedes i (claimed want) op = true ->
  claimed (desired op) ⊆ claimed want.
Proof.
  intros So Sw Hs f Hf. unfold supersedes, disjoint_fields in Hs. bool_norm.
  assert (exists g, g ∈ claimed (desired op) /\ g ∈ claimed want) as (g & Hg & Hg').
  { apply dec_stable. intros Hn. apply H0. intros g Hg Hg'. apply Hn. eauto. }
  by rewrite (So f g).
Qed.

Definition all_single (ops : ProviderOps) : Prop :=
  forall op, op ∈ pending ops -> single_field (desired op).

Lemma faithful_requested i want now row obs ops :
  owned ops -> all_single ops -> single_field want -> faithful ops i row obs ->
  faithful (on_requested i want now row ops).2 i row obs.
Proof.
  intros Ho Hs Hw Hf. destruct (decide (claimed want = ∅)) as [He|He].
  { by rewrite on_requested_empty. }
  rewrite on_requested_spec by done. simpl.
  pose proof (baseline_observed ops i want row obs Hf) as Hb. destruct Hf as [Hr Hobs Hread Hprev].
  constructor; [done|done| |]; simpl.
  - intros f H. apply Hread. intros op Hin Ht Hfo.
    destruct (supersedes i (claimed want) op) eqn:Hsup.
    + apply (H (new_op i want now row ops)); [apply elem_of_app; right; by left|done|]. simpl.
      eapply supersedes_same_claim; eauto.
    + apply (H op); [|done|done]. apply elem_of_app. left. apply elem_of_cleared; [apply ow_ids, Ho|done].
  - intros op [Hin| ->%list_elem_of_singleton]%elem_of_app Ht; [|done].
    apply elem_of_cleared in Hin as [Hin _]; [by apply Hprev|apply ow_ids, Ho].
Qed.

Lemma all_single_shrinks ops ops' : all_single ops -> shrinks ops ops' -> all_single ops'.
Proof. intros Hs [[Hsub _] _ _] op' (op & Hin & [_ _ <- _ _])%Hsub. by apply Hs. Qed.

Definition single_event (event : OpEvent) : Prop :=
  match event with Requested _ want _ => single_field want | _ => True end.

Lemma all_single_apply event e ops :
  owned ops -> single_event event -> all_single ops -> all_single (apply event e ops).1.2.
Proof.
  intros Ho Hw Hs. rewrite apply_ledger. destruct (is_request event) eqn:Hr.
  2:{ eapply all_single_shrinks; [done|by apply apply_event_shrinks]. }
  destruct event as [i want now| | | |]; try done. simpl.
  destruct (decide (claimed want = ∅)) as [He|He]; [by rewrite on_requested_empty|].
  rewrite on_requested_spec by done. simpl.
  intros op [Hin| ->%list_elem_of_singleton]%elem_of_app; [|done].
  apply elem_of_cleared in Hin as [Hin _]; [by apply Hs|apply ow_ids, Ho].
Qed.

(** The event is about the record [i]. *)
Definition concerns (i : TaskId) (ops : ProviderOps) (event : OpEvent) : Prop :=
  match event with
  | Requested k _ _ | Cancelled k _ _ => k = i
  | Sent oid | Acked oid _ | Failed oid _ _ _ => exists op, get oid ops = Some op /\ op_task op = i
  end.

Lemma faithful_apply i event row obs ops :
  owned ops -> all_single ops -> single_event event -> concerns i ops event ->
  faithful ops i row obs -> faithful (apply event row ops).1.2 i (apply event row ops).2 obs.
Proof.
  intros Ho Hs Hw Hc Hf.
  assert (H : let '(_, ops', row') := apply_event event row ops in faithful ops' i row' obs).
  { destruct event as [k want now|oid|oid now|oid class detail now|k fields now]; simpl in *.
    - subst k. pose proof (faithful_requested i want now row obs ops Ho Hs Hw Hf) as H.
      by destruct (on_requested i want now row ops).
    - apply (faithful_aligned ops); [|done]. by apply aligned_update.
    - apply (faithful_aligned ops); [|done]. by apply aligned_update.
    - destruct Hc as (op & Hg & Ht). by apply (faithful_failed _ _ op).
    - subst k. by apply faithful_cancelled. }
  unfold apply. destruct (apply_event event row ops) as [[es ops'] row']. by apply faithful_overlay.
Qed.

Lemma aligned_cancel j i l es ops e :
  j <> i -> owned ops -> NoDup (map op_id l) ->
  (forall op, op ∈ l -> op ∈ pending ops /\ op_task op = i) ->
  aligned j ops (fold_left cancel_op l (es, ops, e)).1.2.
Proof.
  intros Hne. revert es ops e. induction l as [|op l IH]; intros es ops e Ho Hd Hl; simpl.
  { apply aligned_refl. }
  simpl in Hd. apply NoDup_cons in Hd as [Hn Hd]. destruct (Hl op) as [Hin Ht]; [by left|].
  destruct (reached_provider (phase op)).
  - apply IH; [done|done|]. intros o Ho'. apply Hl. by right.
  - eapply aligned_trans; [apply (aligned_remove j op ops Ho Hin); congruence|].
    apply IH; [eapply owned_shrinks; [done|apply shrinks_remove]|done|].
    intros o Ho'. destruct (Hl o) as [Hino Hto]; [by right|]. split; [|done].
    apply elem_of_remove. split; [done|]. intros E. apply Hn. rewrite <- E.
    by apply list_elem_of_In, in_map, list_elem_of_In.
Qed.

Lemma aligned_requested j i want now e ops :
  owned ops -> j <> i -> aligned j ops (on_requested i want now e ops).2.
Proof.
  intros Ho Hne. destruct (decide (claimed want = ∅)) as [He|He].
  { rewrite on_requested_empty by done. apply aligned_refl. }
  rewrite on_requested_spec by done. split; simpl; intros op Hin Ht.
  - exists op. split; [|apply kin_refl]. apply elem_of_app in Hin as [Hin| ->%list_elem_of_singleton].
    + apply elem_of_cleared in Hin as [Hin _]; [done|apply ow_ids, Ho].
    + simpl in Ht. congruence.
  - exists op. split; [|apply kin_refl]. apply elem_of_app. left.
    apply elem_of_cleared; [apply ow_ids, Ho|]. split; [done|]. unfold supersedes.
    rewrite bool_decide_eq_false_2; [done|congruence].
Qed.

(** An event leaves the operations on every other record where they were. *)
Lemma aligned_apply j i event e ops :
  owned ops -> j <> i -> concerns i ops event -> aligned j ops (apply event e ops).1.2.
Proof.
  intros Ho Hne Hc. rewrite apply_ledger.
  destruct event as [k want now|oid|oid now|oid class detail now|k fields now]; simpl in *.
  - subst k. pose proof (aligned_requested j i want now e ops Ho Hne) as H.
    by destruct (on_requested i want now e ops).
  - by apply aligned_update.
  - by apply aligned_update.
  - destruct Hc as (op & Hg & Ht). unfold on_failed. rewrite Hg. apply get_Some in Hg as [Hin <-].
    repeat case_match; simpl; try (by apply aligned_update); apply aligned_remove; congruence.
  - subst k. unfold on_cancelled. destruct (bool_decide (fields = ∅)); [apply aligned_refl|].
    eapply aligned_trans; [apply (aligned_bump j fields)|].
    apply (aligned_cancel j i); [done| | |].
    + eapply owned_shrinks; [done|apply shrinks_bump].
    + apply filter_ids_NoDup. apply (ow_ids _ Ho).
    + intros op [Hin Hp]%list_elem_of_In%filter_In. bool_norm. split; [|done]. by apply list_elem_of_In.
Qed.

Record coherent (w : World) : Prop := mkCoherent {
  co_owned : owned (w_ops w);
  co_single : all_single (w_ops w);
  co_rows : forall i row, rows w !! i = Some row ->
    exists obs, observed w !! i = Some obs /\ faithful (w_ops w) i row obs;
}.

Definition single_action (a : Action) : Prop :=
  match a with ARequest _ want _ => single_field want | _ => True end.

Lemma coherent_transition i event w :
  single_event event -> concerns i (w_ops w) event -> coherent w -> coherent (transition i event w).2.
Proof.
  intros Hs Hc [Ho Hsg Hrows]. destruct (transition_ops i event w) as [[_ ->]|(e & He & ->)]; [done|].
  constructor; simpl; [by apply owned_apply|by apply all_single_apply|].
  intros j row [[<- <-]|[Hne Hj]]%lookup_insert_Some.
  - destruct (Hrows _ _ He) as (obs & Hobs & Hf). exists obs. split; [done|]. by apply faithful_apply.
  - destruct (Hrows _ _ Hj) as (obs & Hobs & Hf). exists obs. split; [done|].
    eapply faithful_aligned; [|done]. by apply (aligned_apply j i).
Qed.

Lemma coherent_outcome oid event w :
  single_event event -> (forall i op, get oid (w_ops w) = Some op -> op_task op = i ->
    concerns i (w_ops w) event) -> coherent w -> coherent (outcome oid event w).2.
Proof.
  intros Hs Hc Hw. unfold outcome. destruct (get oid (w_ops w)) as [op|] eqn:Hg; [|done].
  apply coherent_transition; eauto.
Qed.

Lemma refresh_elem t now ops op' :
  op' ∈ pending (reconcile_observation t now ops).1 <->
  exists op, op ∈ pending ops /\ (op_task op <> id t \/ settled_by op (updated_at t) now = false)
        /\ op' = refresh_baseline t op.
Proof.
  simpl. rewrite list_elem_of_In, in_map_iff. setoid_rewrite filter_In.
  setoid_rewrite <- list_elem_of_In. setoid_rewrite orb_true_iff. setoid_rewrite negb_true_iff.
  setoid_rewrite bool_decide_eq_false. naive_solver.
Qed.

Lemma act_observe t now w :
  act (AObserve t now) w =
    ([], mkWorld (reconcile_observation t now (w_ops w)).1
           (<[id t := (reconcile_observation t now (w_ops w)).2]> (rows w))
           (<[id t := t]> (observed w))).
Proof. done. Qed.

Lemma coherent_observe t now w : coherent w -> coherent (act (AObserve t now) w).2.
Proof.
  intros [Ho Hs Hrows]. pose proof (shrinks_reconcile t now (w_ops w)) as Hsh.
  rewrite act_observe. cbn [snd]. constructor; cbn [w_ops rows observed];
    [by eapply owned_shrinks|by eapply all_single_shrinks|].
  intros i row [[<- <-]|[Hne Hi]]%lookup_insert_Some.
  - exists t. split; [apply lookup_insert_eq|]. apply faithful_overlay. constructor; [done|done|done|].
    intros op' (op & Hin & _ & ->)%refresh_elem Ht.
    unfold refresh_baseline in *. case_bool_decide; simpl in *; done.
  - destruct (Hrows _ _ Hi) as (obs & Hobs & Hf). exists obs. split; [by rewrite lookup_insert_ne|].
    eapply faithful_aligned; [|exact Hf]. split.
    + intros op' (op & Hin & _ & ->)%refresh_elem Ht. exists op. split; [done|].
      unfold refresh_baseline in *. case_bool_decide; simpl in *; [congruence|apply kin_refl].
    + intros op Hin Ht. exists (refresh_baseline t op). split.
      * apply refresh_elem. exists op. split; [done|]. split; [left; congruence|done].
      * unfold refresh_baseline. case_bool_decide; [congruence|apply kin_refl].
Qed.

Lemma coherent_recover now w : coherent w -> coherent (act (ARecover now) w).2.
Proof.
  intros [Ho Hs Hrows]. pose proof (shrinks_recover now (w_ops w)) as Hsh.
  constructor; [by eapply owned_shrinks|by eapply all_single_shrinks|].
  intros i row Hi. destruct (Hrows _ _ Hi) as (obs & Hobs & Hf). exists obs. split; [done|].
  eapply faithful_aligned; [|exact Hf]. simpl.
  assert (Hk : forall op, kin op (recover_op now op).2).
  { intros op. split; [apply same_op_recover|]. unfold recover_op. by case_match. }
  split; simpl; intros op; rewrite map_map.
  - intros (x & <- & Hx)%list_elem_of_In%in_map_iff _. exists x. by rewrite list_elem_of_In.
  - intros Hin _. exists (recover_op now op).2. split; [|done].
    apply list_elem_of_In, (in_map (fun x => (recover_op now x).2)). by apply list_elem_of_In.
Qed.

Lemma coherent_act a w : single_action a -> coherent w -> coherent (act a w).2.
Proof.
  intros Hs Hw. destruct a; simpl in Hs; [| | | | | | |].
  - by apply coherent_transition.
  - apply coherent_outcome; [done| |done]. intros i p Hg Ht. exists p. done.
  - apply coherent_outcome; [done| |done]. intros i p Hg Ht. exists p. done.
  - apply coherent_outcome; [done| |done]. intros i p Hg Ht. exists p. done.
  - by apply coherent_transition.
  - by apply coherent_observe.
  - destruct Hw as [Ho Hsg Hrows]. constructor; [done|done|]. simpl.
    intros j row [Hne Hj]%lookup_delete_Some. rewrite lookup_delete_ne by done. by apply Hrows.
  - by apply coherent_recover.
Qed.

Lemma coherent_run acts w : Forall single_action acts -> coherent w -> coherent (run acts w).2.
Proof.
  intros H. revert w. induction H as [|a acts Ha Hacts IH]; intros w Hw; simpl; [done|].
  pose proof (coherent_act a w Ha Hw) as H. destruct (act a w) as [e w1]. specialize (IH w1 H).
  by destruct (run acts w1).
Qed.

Lemma coherent_start : coherent start.
Proof.
  constructor; [apply owned_empty|intros op ?%elem_of_nil; done|]. intros i row. simpl.
  by rewrite lookup_empty.
Qed.

Lemma get_in ops op : owned ops -> op ∈ pending ops -> get (op_id op) ops = Some op.
Proof.
  intros Ho Hin. destruct (get (op_id op) ops) as [x|] eqn:Hg.
  - apply get_Some in Hg as [Hx E]. f_equal. by apply (NoDup_ids_eq (pending ops)); [apply ow_ids|..].
  - unfold get in Hg. apply list_elem_of_In in Hin. apply (find_none _ _ Hg) in Hin.
    by rewrite Z.eqb_refl in Hin.
Qed.

(** ** The theorems *)

(** Whatever the order of requests, outcomes, cancellations, reads and restarts,
    a write is handed to the provider at most [MAX_ATTEMPTS] times, plus once per
    restart of the daemon, and its failure is reported at most once, when it has
    left the ledger. *)
Theorem writes_are_bounded acts oid :
  let '(effects, w) := run acts start in
  count (is_write oid) effects <= MAX_ATTEMPTS + restarts acts
  /\ count (is_report oid) effects <= 1
  /\ (count (is_report oid) effects = 0 \/ get oid (w_ops w) = None).
Proof.
  pose proof (tally_run acts) as [Ho [Hp Ha _]]. destruct (run acts start) as [es w]. simpl in *.
  destruct (Ha oid) as [H1 H2]. split_and!; [done|done|].
  destruct (get oid (w_ops w)) as [op|] eqn:Hg; [left|by right].
  apply get_Some in Hg as [Hin <-]. apply (Hp _ Hin).
Qed.

(** A write that ends without being confirmed leaves no trace: a field of a row
    that no pending operation claims shows what the provider last said.  Requests
    claim one field each, as all the daemon's commands do. *)
Theorem ended_writes_uncover_the_observation acts i row obs f :
  Forall single_action acts ->
  rows (run acts start).2 !! i = Some row ->
  observed (run acts start).2 !! i = Some obs ->
  (forall op, op ∈ pending (w_ops (run acts start).2) -> op_task op = i -> f ∉ claimed (desired op)) ->
  read f row = read f obs.
Proof.
  intros Hs Hrow Hobs Hf. destruct (coherent_run acts start Hs coherent_start) as [_ _ Hrows].
  destruct (Hrows _ _ Hrow) as (obs' & Hobs' & Hfa). rewrite Hobs in Hobs'. injection Hobs' as <-.
  by apply (fa_read _ _ _ _ Hfa).
Qed.

Lemma single_want_labels names : single_field (want_labels names).
Proof. intros f g. rewrite !elem_of_claimed. destruct f, g; cbn; intros [] []; done. Qed.

Lemma single_want_assignees names : single_field (want_assignees names).
Proof. intros f g. rewrite !elem_of_claimed. destruct f, g; cbn; intros [] []; done. Qed.

Definition example_id (k : string) : TaskId := Work.mkTaskId "github" k.

Definition example_row (k : string) (ls : list string) (at_ : Z) : Task :=
  ltac:(upd eta_task updated_at at_
    (set_labels ls (plain_task (example_id k) Open_ CiNone RvNone MUnknown KPr []))).

(** Two label writes in a row: the first is refused by the provider, the second
    fails too. *)
Definition example_refused : list Action :=
  [AObserve (example_row "o/r#1" ["bug"] 10) 10;
   ARequest (example_id "o/r#1") (want_labels ["urgent"]) 20;
   ASent 0;
   ARequest (example_id "o/r#1") (want_labels ["later"]) 21;
   AFailed 0 Rejected "no" 22;
   AFailed 1 Rejected "no" 23]%string.

Lemma ended_writes_uncover_the_observation_witness :
  (rows (run example_refused start).2 !! example_id "o/r#1") ≫= (fun t => Some (labels t))
    = Some ["bug"]%string
  /\ exists row obs, rows (run example_refused start).2 !! example_id "o/r#1" = Some row
    /\ observed (run example_refused start).2 !! example_id "o/r#1" = Some obs
    /\ read FLabels row = read FLabels obs.
Proof.
  split; [by vm_compute|].
  assert (exists row, rows (run example_refused start).2 !! example_id "o/r#1" = Some row) as [row Hrow]
    by (eexists; vm_compute; reflexivity).
  assert (exists obs, observed (run example_refused start).2 !! example_id "o/r#1" = Some obs) as [obs Hobs]
    by (eexists; vm_compute; reflexivity).
  exists row, obs. split; [done|]. split; [done|].
  apply (ended_writes_uncover_the_observation example_refused (example_id "o/r#1")); [|done|done|].
  - repeat constructor; simpl; apply single_want_labels.
  - replace (pending (w_ops (run example_refused start).2)) with (@nil PendingMutation)
      by (vm_compute; reflexivity).
    intros op []%elem_of_nil.
Defined.

(** A read of the provider settles exactly the operations on its record that it
    provably postdates, that had given up on knowing, or that are ten minutes old;
    the row then shows, field by field, the value of the operation that still
    owns the field (labels up to case) and the provider's where there is none. *)
Theorem reads_settle_by_revision acts t now :
  let w := (run acts start).2 in
  let w' := (act (AObserve t now) w).2 in
  (forall op, op ∈ pending (w_ops w) ->
     is_Some (get (op_id op) (w_ops w'))
     <-> (op_task op <> id t
          \/ (is_uncertain (phase op) = false /\ updated_at t < settles_from (phase op) (issued_at op)
              /\ now - issued_at op < SETTLE_DEADLINE)))
  /\ exists row, rows w' !! id t = Some row
     /\ forall f,
       (forall op, op ∈ pending (w_ops w') -> op_task op = id t -> is_current (w_ops w') op = true ->
          f ∈ claimed (desired op) -> shows f (desired op) row)
       /\ ((forall op, op ∈ pending (w_ops w') -> op_task op = id t -> is_current (w_ops w') op = true ->
             f ∉ claimed (desired op)) -> read f row = read f t).
Proof.
  intros w w'. pose proof (owned_run acts) as Ho. fold w in Ho.
  assert (Ho' : owned (w_ops w')) by (by apply owned_act).
  unfold w' in *. rewrite act_observe in *. cbn [snd w_ops rows] in *. split.
  - intros op Hin.
    assert (Hs : settled_by op (updated_at t) now = false <->
      is_uncertain (phase op) = false /\ updated_at t < settles_from (phase op) (issued_at op)
      /\ now - issued_at op < SETTLE_DEADLINE).
    { unfold settled_by. rewrite !orb_false_iff, !Z.leb_gt. tauto. }
    rewrite <- Hs. split.
    + intros (x & (Hx & E)%get_Some). apply refresh_elem in Hx as (y & Hy & Hor & ->).
      assert (op_id y = op_id op) as Ey.
      { rewrite <- E. symmetry. rewrite <- (so_id _ _ (same_op_refresh t y)). done. }
      by rewrite <- (NoDup_ids_eq (pending (w_ops w)) y op (ow_ids _ Ho) Hy Hin Ey).
    + intros Hor. exists (refresh_baseline t op). rewrite (so_id _ _ (same_op_refresh t op)).
      apply get_in; [done|]. apply refresh_elem. eauto.
  - eexists. split; [apply lookup_insert_eq|]. intros f. by apply overlay_shows.
Qed.

(** After a request on one record nobody on another owns its fields. *)
Lemma request_disowns ops b want now rb f o :
  owned ops -> f ∈ claimed want ->
  o ∈ pending (on_requested b want now rb ops).2 -> op_task o <> b -> f ∈ claimed (desired o) ->
  is_current (on_requested b want now rb ops).2 o = false.
Proof.
  intros Ho Hw Hin Hne Hf. pose proof (owned_requested b want now rb ops Ho) as Ho1.
  apply not_true_is_false. intros Hc. pose proof (current_claim _ _ _ Ho1 Hin Hc Hf) as Hg.
  assert (Hcl : claimed want <> ∅) by (intros E; rewrite E in Hw; by apply elem_of_empty in Hw).
  rewrite on_requested_spec in Hin, Hg by done. simpl in Hin.
  apply elem_of_app in Hin as [Hin| ->%list_elem_of_singleton]; [|done].
  apply elem_of_cleared in Hin as [Hin _]; [|apply ow_ids, Ho].
  pose proof (ow_gen _ Ho _ _ _ Hin Hg) as Hle.
  change (generation (bump (claimed want) ops).2 f <= generation ops f) in Hle.
  rewrite generation_bump, bool_decide_eq_true_2 in Hle by done. lia.
Qed.

Lemma request_keeps_siblings ops b want now rb o :
  owned ops -> o ∈ pending ops -> op_task o <> b -> o ∈ pending (on_requested b want now rb ops).2.
Proof.
  intros Ho Hin Hne. destruct (decide (claimed want = ∅)); [by rewrite on_requested_empty|].
  rewrite on_requested_spec by done. simpl. apply elem_of_app. left.
  apply elem_of_cleared; [apply ow_ids, Ho|]. split; [done|]. unfold supersedes.
  by rewrite bool_decide_eq_false_2.
Qed.

Lemma is_current_ext ops ops' op op' :
  generations ops = generations ops' -> op_claimed op = op_claimed op' ->
  is_current ops op = is_current ops' op'.
Proof. intros E1 E2. unfold is_current, generation. by rewrite E1, E2. Qed.

(** A record on which nobody owns [f] shows the provider's value after a read. *)
Lemma read_uncovers t at_ w f :
  owned (w_ops w) ->
  (forall o, o ∈ pending (w_ops w) -> op_task o = id t -> f ∈ claimed (desired o) ->
     is_current (w_ops w) o = false) ->
  exists row, rows (act (AObserve t at_) w).2 !! id t = Some row /\ read f row = read f t.
Proof.
  intros Ho Hstale. rewrite act_observe. cbn [snd rows]. eexists. split; [apply lookup_insert_eq|].
  assert (Ho2 : owned (reconcile_observation t at_ (w_ops w)).1)
    by (eapply owned_shrinks; [done|apply shrinks_reconcile]).
  apply (overlay_shows _ t f Ho2). intros o Hino Hto Hc Hfo.
  apply refresh_elem in Hino as (o0 & Hin0 & _ & E0).
  pose proof (same_op_refresh t o0) as [_ Et Ed Ec _]. rewrite <- E0 in Et, Ed, Ec.
  rewrite (is_current_ext _ (w_ops w) o o0) in Hc by done. rewrite Hstale in Hc; congruence.
Qed.

Lemma act_request b want now w rb :
  rows w !! b = Some rb ->
  w_ops (act (ARequest b want now) w).2 = (on_requested b want now rb (w_ops w)).2
  /\ forall a, a <> b -> rows (act (ARequest b want now) w).2 !! a = rows w !! a.
Proof.
  intros Hrb. cbn [act]. destruct (transition_ops b (Requested b want now) w) as [[E _]|(e & He & ->)];
    [congruence|]. rewrite Hrb in He. injection He as <-. cbn [snd w_ops rows]. split.
  - rewrite apply_ledger. simpl. by destruct (on_requested b want now rb (w_ops w)).
  - intros a Hne. by rewrite lookup_insert_ne.
Qed.

(** Field generations are shared by all the records of a workspace: a request on
    one record takes the field from a pending operation on another.  That write
    stays pending, but a read from before it landed undoes it on the row, and its
    failure is dropped without a report or a retry. *)
Theorem sibling_request_disowns_a_claim acts op a b ra rb want now f :
  let w := (run acts start).2 in
  op ∈ pending (w_ops w) -> op_task op = a -> a <> b ->
  rows w !! a = Some ra -> rows w !! b = Some rb ->
  f ∈ claimed (desired op) -> f ∈ claimed want ->
  let w1 := (act (ARequest b want now) w).2 in
  get (op_id op) (w_ops w1) = Some op
  /\ (forall class detail at_, class <> Uncertain ->
        (act (AFailed (op_id op) class detail at_) w1).1 = [Settled (op_id op)])
  /\ (forall t at_, id t = a -> exists row,
        rows (act (AObserve t at_) w1).2 !! a = Some row /\ read f row = read f t).
Proof.
  intros w Hin Ha Hne Hra Hrb Hf Hw w1. pose proof (owned_run acts) as Ho. fold w in Ho.
  destruct (act_request b want now w rb Hrb) as [Hops Hrows]. fold w1 in Hops, Hrows.
  assert (Ho1 : owned (w_ops w1)) by (by apply owned_act).
  assert (Hin1 : op ∈ pending (w_ops w1)) by (rewrite Hops; apply request_keeps_siblings; congruence).
  assert (Hstale : forall o, o ∈ pending (w_ops w1) -> op_task o = a -> f ∈ claimed (desired o) ->
            is_current (w_ops w1) o = false).
  { intros o. rewrite Hops. intros. apply (request_disowns _ _ _ _ _ f); congruence. }
  split_and!.
  - by apply get_in.
  - intros class detail at_ Hcl'. cbn [act]. unfold outcome. rewrite (get_in _ _ Ho1 Hin1), Ha.
    unfold transition. rewrite (Hrows a Hne), Hra. unfold apply. simpl. unfold on_failed.
    rewrite (get_in _ _ Ho1 Hin1), bool_decide_eq_false_2 by done. by rewrite Hstale.
  - intros t at_ <-. by apply read_uncovers.
Qed.

(** A pull request and the issue it closes share a workspace; both get labels. *)
Definition example_siblings : list Action :=
  [AObserve (example_row "o/r#1" ["bug"] 10) 10;
   AObserve (example_row "o/r#2" [] 10) 10;
   ARequest (example_id "o/r#1") (want_labels ["urgent"]) 20;
   ASent 0]%string.

Lemma sibling_request_disowns_a_claim_witness :
  (act (AFailed 0 Rejected "no" 30)
     (act (ARequest (example_id "o/r#2") (want_labels ["later"]) 25) (run example_siblings start).2).2).1
  = [Settled 0].
Proof.
  assert (exists op, pending (w_ops (run example_siblings start).2) = [op] /\ op_id op = 0
            /\ op_task op = example_id "o/r#1" /\ desired op = want_labels ["urgent"%string])
    as (op & Hp & Hid & Ht & Hd) by (eexists; vm_compute; repeat split; reflexivity).
  assert (exists ra, rows (run example_siblings start).2 !! example_id "o/r#1" = Some ra) as [ra Hra]
    by (eexists; vm_compute; reflexivity).
  assert (exists rb, rows (run example_siblings start).2 !! example_id "o/r#2" = Some rb) as [rb Hrb]
    by (eexists; vm_compute; reflexivity).
  destruct (sibling_request_disowns_a_claim example_siblings op (example_id "o/r#1") (example_id "o/r#2")
    ra rb (want_labels ["later"%string]) 25 FLabels) as (_ & H & _);
    [rewrite Hp; by left|exact Ht|intros [=]|exact Hra|exact Hrb|rewrite Hd| |].
  - apply elem_of_claimed. eexists. reflexivity.
  - apply elem_of_claimed. eexists. reflexivity.
  - rewrite Hid in H. apply H. discriminate.
Defined.
