(* ===== verification/Stack.v ===== *)
(** * Stacked pull requests ([src/crates/core/src/stack.rs])

    A pull request is stacked on the open one whose head branch is its base.
    [detect_stacks] links them and gives each its place: the parent, the children,
    the position from the bottom and the height of the whole stack.

    The two walks down to the bottom are [climb]; its fuel and that of
    [subtree_height] are the number of links plus two, and running out of it makes
    the result [None], which [detect_stacks_spec] excludes.  The theorem is that
    on a chain that ends the position is the length of the chain and the depth is
    that of the tallest chain of the stack. *)

From Stdlib Require Import String.
From S2P Require Import Prelude CoreTask.

#[global] Open Scope Z_scope.

Record StackPosition : Type := mkPosition {
  sp_parent : option TaskId;
  children : list TaskId;
  position : Z;
  depth : Z;
}.

#[export] Instance StackPosition_eq_dec : EqDecision StackPosition.
Proof. solve_decision. Defined.

#[export] Instance task_id_le_total : Total task_id_le.
Proof.
  intros [s k] [s' k']. unfold task_id_le. simpl.
  destruct (decide (s = s')) as [<-|Hs].
  - destruct (total String.le k k'); [left|right]; by right.
  - destruct (total String.le s s'); [left|right]; left; split; congruence.
Qed.

#[export] Instance task_id_le_trans : Transitive task_id_le.
Proof.
  intros [s1 k1] [s2 k2] [s3 k3]. unfold task_id_le. simpl.
  intros [[N1 L1]|[-> L1]] [[N2 L2]|[-> L2]]; [left|by left|by left|right; split; [done|by etrans]].
  split; [|by etrans]. intros ->. apply N1. by apply (anti_symm String.le).
Qed.

Definition is_open_pr (t : Task) : bool :=
  is_pr t && match state t with Open_ | InProgress_ | InReview | Draft => true | _ => false end.

Definition is_some {A} (o : option A) : bool := match o with Some _ => true | None => false end.

(** The open PRs with the branch fields needed to match on. *)
Definition stackable (tasks : list Task) : list Task :=
  List.filter (fun t => is_open_pr t && is_some (repo t) && is_some (branch t)) tasks.

(** (repo, head branch) to PR; of two PRs with one head the later one stays. *)
Definition by_head (prs : list Task) : gmap (string * string) TaskId :=
  insert_all
    (omap (fun t => match repo t, branch t with
                    | Some r, Some h => Some ((r, h), id t)
                    | _, _ => None
                    end) prs) ∅.

(** The PR whose head is the base of [t], if it is another one. *)
Definition parent_of (heads : gmap (string * string) TaskId) (t : Task) : option TaskId :=
  match repo t, base_branch t with
  | Some r, Some b =>
      match heads !! (r, b) with
      | Some p => if bool_decide (p = id t) then None else Some p
      | None => None
      end
  | _, _ => None
  end.

Definition links (prs : list Task) : list (TaskId * TaskId) :=
  omap (fun t => match parent_of (by_head prs) t with Some p => Some (id t, p) | None => None end) prs.

Definition parents (prs : list Task) : gmap TaskId TaskId := insert_all (links prs) ∅.

(** [children.entry(parent).or_default().push(id)] *)
Definition add_child (m : gmap TaskId (list TaskId)) (link : TaskId * TaskId)
    : gmap TaskId (list TaskId) := <[link.2 := default [] (m !! link.2) ++ [link.1]]> m.

Definition children_map (prs : list Task) : gmap TaskId (list TaskId) :=
  merge_sort task_id_le <$> fold_left add_child (links prs) ∅.

(** Down the parent links, with the hops taken; a repeated id ends the walk. *)
Fixpoint climb (fuel : nat) (parent : gmap TaskId TaskId) (seen : gset TaskId) (cur : TaskId)
    (hops : Z) : option (TaskId * Z) :=
  match fuel with
  | O => None
  | S fuel =>
      match parent !! cur with
      | None => Some (cur, hops)
      | Some p =>
          if bool_decide (p ∈ seen) then Some (cur, hops)
          else climb fuel parent ({[ p ]} ∪ seen) p (hops + 1)
      end
  end.

Definition walk (parent : gmap TaskId TaskId) (id : TaskId) : option (TaskId * Z) :=
  climb (S (S (size parent))) parent {[ id ]} id 1.

Definition position_from_bottom (id : TaskId) (parent : gmap TaskId TaskId) : option Z :=
  snd <$> walk parent id.

(** The height with the visited set the recursion leaves. *)
Fixpoint subtree_height (fuel : nat) (children : gmap TaskId (list TaskId)) (id : TaskId)
    (seen : gset TaskId) : option (Z * gset TaskId) :=
  match fuel with
  | O => None
  | S fuel =>
      if bool_decide (id ∈ seen) then Some (0, seen)
      else
        let step acc c :=
          match acc with
          | None => None
          | Some (tallest, seen) =>
              match subtree_height fuel children c seen with
              | None => None
              | Some (h, seen) => Some (Z.max tallest h, seen)
              end
          end in
        match fold_left step (default [] (children !! id)) (Some (0, {[ id ]} ∪ seen)) with
        | None => None
        | Some (tallest, seen) => Some (1 + tallest, seen ∖ {[ id ]})
        end
  end.

Definition chain_depth (id : TaskId) (parent : gmap TaskId TaskId)
    (children : gmap TaskId (list TaskId)) : option Z :=
  match walk parent id with
  | None => None
  | Some (root, _) => fst <$> subtree_height (S (S (size parent))) children root ∅
  end.

Definition place (parent : gmap TaskId TaskId) (kids : gmap TaskId (list TaskId)) (id : TaskId)
    : option StackPosition :=
  match position_from_bottom id parent, chain_depth id parent kids with
  | Some position, Some depth => Some (mkPosition (parent !! id) (default [] (kids !! id)) position depth)
  | _, _ => None
  end.

Fixpoint place_all (parent : gmap TaskId TaskId) (kids : gmap TaskId (list TaskId))
    (prs : list Task) (out : gmap TaskId StackPosition) : option (gmap TaskId StackPosition) :=
  match prs with
  | [] => Some out
  | pr :: prs =>
      if negb (is_some (parent !! id pr)) && bool_decide (default [] (kids !! id pr) = [])
      then place_all parent kids prs out
      else
        match place parent kids (id pr) with
        | None => None
        | Some sp => place_all parent kids prs (<[id pr := sp]> out)
        end
  end.

Definition detect_stacks (tasks : list Task) : option (gmap TaskId StackPosition) :=
  let prs := stackable tasks in
  place_all (parents prs) (children_map prs) prs ∅.

(** ** The walks end *)

Lemma climb_total parent fuel seen cur hops :
  cur ∈ seen -> (size (dom parent ∖ (seen ∖ {[ cur ]})) < fuel)%nat ->
  is_Some (climb fuel parent seen cur hops).
Proof.
  revert seen cur hops. induction fuel as [|fuel IH]; intros seen cur hops Hin Hlt; [lia|]. simpl.
  destruct (parent !! cur) as [p|] eqn:Hp; [|eauto]. case_bool_decide as Hs; [eauto|].
  apply IH; [set_solver|].
  assert (size (dom parent ∖ (({[p]} ∪ seen) ∖ {[p]})) < size (dom parent ∖ (seen ∖ {[cur]})))%nat; [|lia].
  apply subset_size. assert (cur ∈ dom parent) by (apply elem_of_dom; eauto). set_solver.
Qed.

Lemma walk_total parent i : is_Some (walk parent i).
Proof.
  apply climb_total; [set_solver|].
  apply (Nat.le_lt_trans _ (size (dom parent))); [apply subseteq_size; set_solver|].
  rewrite size_dom. lia.
Qed.

(** The recursion over children, as a function of its own. *)
Definition height_step (fuel : nat) (children : gmap TaskId (list TaskId))
    (acc : option (Z * gset TaskId)) (c : TaskId) : option (Z * gset TaskId) :=
  match acc with
  | None => None
  | Some (tallest, seen) =>
      match subtree_height fuel children c seen with
      | None => None
      | Some (h, seen) => Some (Z.max tallest h, seen)
      end
  end.

Lemma subtree_height_S fuel children i seen :
  subtree_height (S fuel) children i seen =
    if bool_decide (i ∈ seen) then Some (0, seen)
    else
      match fold_left (height_step fuel children) (default [] (children !! i)) (Some (0, {[ i ]} ∪ seen)) with
      | None => None
      | Some (tallest, seen) => Some (1 + tallest, seen ∖ {[ i ]})
      end.
Proof. done. Qed.

Lemma height_fold fuel children l t seen :
  (forall c, c ∈ l -> exists h, subtree_height fuel children c seen = Some (h, seen)) ->
  exists m, fold_left (height_step fuel children) l (Some (t, seen)) = Some (m, seen)
    /\ t <= m
    /\ (forall c h, c ∈ l -> subtree_height fuel children c seen = Some (h, seen) -> h <= m)
    /\ (m = t \/ exists c, c ∈ l /\ subtree_height fuel children c seen = Some (m, seen)).
Proof.
  revert t. induction l as [|c l IH]; intros t Hl; simpl.
  { exists t. split_and!; [done|lia|by intros c h ?%elem_of_nil|by left]. }
  destruct (Hl c) as [h Hh]; [by left|]. rewrite Hh.
  destruct (IH (Z.max t h)) as (m & -> & Hle & Hall & Hor); [intros; apply Hl; by right|].
  exists m. split_and!; [done|lia| |].
  - intros c' h' [->|Hin]%elem_of_cons Hc'; [|by eapply Hall]. rewrite Hh in Hc'. injection Hc' as <-. lia.
  - destruct Hor as [->|(c' & Hin & Hc')]; [|right; exists c'; split; [by right|done]].
    destruct (Z.max_spec t h) as [[? ->]|[? ->]]; [right; exists c|by left]. split; [by left|done].
Qed.

Lemma height_total (U : gset TaskId) fuel children i seen :
  (forall k c, c ∈ default [] (children !! k) -> c ∈ U) ->
  i ∈ U -> (size (U ∖ seen) < fuel)%nat ->
  exists h, subtree_height fuel children i seen = Some (h, seen).
Proof.
  intros HU. revert i seen. induction fuel as [|fuel IH]; intros i seen Hi Hlt; [lia|].
  rewrite subtree_height_S. case_bool_decide as Hs; [eauto|].
  destruct (height_fold fuel children (default [] (children !! i)) 0 ({[ i ]} ∪ seen)) as (m & -> & _).
  - intros c Hc. apply IH; [by eapply HU|].
    assert (size (U ∖ ({[i]} ∪ seen)) < size (U ∖ seen))%nat; [|lia]. apply subset_size. set_solver.
  - exists (1 + m). do 2 f_equal. apply set_eq. set_solver.
Qed.

(** ** Links *)

Lemma elem_of_links prs c p :
  (c, p) ∈ links prs <-> exists t, t ∈ prs /\ id t = c /\ parent_of (by_head prs) t = Some p.
Proof.
  unfold links. rewrite list_elem_of_omap. split.
  - intros (t & Hin & Ht). exists t. case_match; by simplify_eq.
  - intros (t & Hin & <- & Hp). exists t. by rewrite Hp.
Qed.

Lemma lookup_add_child m l k c :
  c ∈ default [] (fold_left add_child l m !! k) <-> c ∈ default [] (m !! k) \/ (c, k) ∈ l.
Proof.
  revert m. induction l as [|[c' k'] l IH]; intros m; simpl; [set_solver|].
  rewrite IH. unfold add_child at 1. simpl. destruct (decide (k = k')) as [->|Hne].
  - rewrite lookup_insert_eq. simpl. rewrite elem_of_app, list_elem_of_singleton, elem_of_cons. naive_solver.
  - rewrite lookup_insert_ne by done. rewrite elem_of_cons. naive_solver.
Qed.

Lemma elem_of_children prs k c :
  c ∈ default [] (children_map prs !! k) <-> (c, k) ∈ links prs.
Proof.
  unfold children_map. rewrite lookup_fmap.
  pose proof (lookup_add_child ∅ (links prs) k c) as H. rewrite lookup_empty in H. simpl in H.
  destruct (fold_left add_child (links prs) ∅ !! k) as [l|]; simpl in *.
  - rewrite merge_sort_Permutation. rewrite H. set_solver.
  - rewrite H. set_solver.
Qed.

Lemma links_keys prs : map fst (links prs) `sublist_of` map id prs.
Proof.
  unfold links. generalize (by_head prs). intros heads. induction prs as [|t prs IH]; simpl; [done|].
  destruct (parent_of heads t); simpl; by constructor.
Qed.

Lemma parents_links prs c p :
  NoDup (map id prs) -> parents prs !! c = Some p <-> (c, p) ∈ links prs.
Proof.
  intros Hd. assert (NoDup (map fst (links prs))) by (eapply sublist_NoDup; [exact Hd|apply links_keys]).
  unfold parents. split.
  - intros [H'|H']%insert_all_Some; [done|by rewrite lookup_empty in H'].
  - by apply insert_all_NoDup.
Qed.

Lemma children_parents prs c p :
  NoDup (map id prs) -> c ∈ default [] (children_map prs !! p) <-> parents prs !! c = Some p.
Proof. intros Hd. by rewrite elem_of_children, parents_links. Qed.

Lemma dom_parents prs c : c ∈ dom (parents prs) <-> c ∈ map fst (links prs).
Proof.
  rewrite elem_of_dom. unfold parents. rewrite insert_all_is_Some, lookup_empty. split; [|by left].
  by intros [?|[? ?]].
Qed.

Lemma chain_depth_total prs i : is_Some (chain_depth i (parents prs) (children_map prs)).
Proof.
  unfold chain_depth. destruct (walk_total (parents prs) i) as [[r n] ->].
  destruct (height_total ({[ r ]} ∪ dom (parents prs)) (S (S (size (parents prs)))) (children_map prs) r ∅)
    as [h ->]; [| |  |by eexists].
  - intros k c Hc%elem_of_children. apply elem_of_union. right. apply dom_parents.
    by apply list_elem_of_In, (in_map fst), list_elem_of_In in Hc.
  - set_solver.
  - pose proof (size_union_alt {[ r ]} (dom (parents prs))) as Hu.
    assert (size (dom (parents prs) ∖ {[r]}) <= size (dom (parents prs)))%nat by (apply subseteq_size; set_solver).
    rewrite size_singleton in Hu. rewrite size_dom in *.
    assert (size (({[r]} ∪ dom (parents prs)) ∖ ∅) <= size ({[r]} ∪ dom (parents prs)))%nat
      by (apply subseteq_size; set_solver). lia.
Qed.

Lemma place_total prs i : is_Some (place (parents prs) (children_map prs) i).
Proof.
  unfold place, position_from_bottom. destruct (walk_total (parents prs) i) as [x ->]. simpl.
  destruct (chain_depth_total prs i) as [d ->]. by eexists.
Qed.

(** ** The result *)

Definition standalone (prs : list Task) (i : TaskId) : bool :=
  negb (is_some (parents prs !! i)) && bool_decide (default [] (children_map prs !! i) = []).

Lemma place_all_spec prs l out :
  exists out', place_all (parents prs) (children_map prs) l out = Some out'
  /\ forall i, out' !! i =
       if bool_decide (i ∈ map id l) && negb (standalone prs i)
       then place (parents prs) (children_map prs) i else out !! i.
Proof.
  revert out. induction l as [|t l IH]; intros out; simpl; [by exists out|].
  change (negb (is_some (parents prs !! id t)) && bool_decide (default [] (children_map prs !! id t) = []))
    with (standalone prs (id t)). destruct (standalone prs (id t)) eqn:Hs.
  - destruct (IH out) as (out' & -> & Hl). exists out'. split; [done|]. intros i. rewrite Hl.
    destruct (decide (i = id t)) as [->|Hne]; [by rewrite Hs, !andb_false_r|].
    rewrite (bool_decide_ext (i ∈ id t :: map id l) (i ∈ map id l)); [done|]. set_solver.
  - destruct (place_total prs (id t)) as [sp Hsp]. rewrite Hsp.
    destruct (IH (<[id t := sp]> out)) as (out' & -> & Hl). exists out'. split; [done|].
    intros i. rewrite Hl. destruct (decide (i = id t)) as [->|Hne].
    + rewrite (bool_decide_eq_true_2 (id t ∈ id t :: map id l)) by set_solver. rewrite Hs. simpl.
      rewrite lookup_insert_eq, andb_true_r, Hsp. by case_match.
    + rewrite lookup_insert_ne by done.
      rewrite (bool_decide_ext (i ∈ id t :: map id l) (i ∈ map id l)); [done|]. set_solver.
Qed.

Lemma detect_stacks_spec tasks :
  let prs := stackable tasks in
  exists out, detect_stacks tasks = Some out
  /\ forall i, out !! i =
       if bool_decide (i ∈ map id prs) && negb (standalone prs i)
       then place (parents prs) (children_map prs) i else None.
Proof.
  intros prs. destruct (place_all_spec prs prs ∅) as (out & Ho & Hl). exists out. split; [done|].
  intros i. by rewrite Hl, lookup_empty.
Qed.

(** ** Chains *)

(** [d] is [k] links above [i]. *)
Inductive up (parent : gmap TaskId TaskId) : TaskId -> Z -> TaskId -> Prop :=
| up_refl d : up parent d 0 d
| up_step c p k i : parent !! c = Some p -> up parent p k i -> up parent c (k + 1) i.

(** The chain of [i] ends [k] links below it, in [r]. *)
Definition rooted (parent : gmap TaskId TaskId) (i : TaskId) (k : Z) (r : TaskId) : Prop :=
  up parent i k r /\ parent !! r = None.

Lemma up_nonneg parent d k i : up parent d k i -> 0 <= k.
Proof. induction 1; lia. Qed.

Lemma up_snoc parent d k c i : up parent d k c -> parent !! c = Some i -> up parent d (k + 1) i.
Proof.
  induction 1 as [c|c p k r Hc Hp IH]; intros Hi.
  - apply (up_step _ c i 0); [done|constructor].
  - apply (up_step _ c p (k + 1)); [done|]. by apply IH.
Qed.

Lemma up_last parent d k i :
  up parent d k i -> (k = 0 /\ d = i) \/ exists c, up parent d (k - 1) c /\ parent !! c = Some i.
Proof.
  induction 1 as [c|c p k r Hc Hp IH]; [by left|right]. destruct IH as [[-> ->]|(x & Hx & Hxr)].
  - exists c. split; [constructor|done].
  - exists x. split; [|done]. replace (k + 1 - 1) with (k - 1 + 1) by lia. by eapply up_step.
Qed.

(** A chain that ends passes no id twice. *)
Lemma rooted_split parent i n r k j :
  rooted parent i n r -> up parent i k j -> rooted parent j (n - k) r /\ k <= n.
Proof.
  intros [Hn Hr] Hk. revert n Hn. induction Hk as [d|c p k j Hc Hp IH]; intros n Hn.
  - pose proof (up_nonneg _ _ _ _ Hn). split; [|lia]. rewrite Z.sub_0_r. done.
  - inversion Hn as [x E1 E2 E3|c' p' k' i' Hc' Hp' E1 E2 E3]; simplify_eq.
    destruct (IH _ Hp') as [IH1 ?]. replace (k' + 1 - (k + 1)) with (k' - k) by lia. split; [done|lia].
Qed.

Lemma rooted_unique parent i n r n' r' :
  rooted parent i n r -> rooted parent i n' r' -> n = n' /\ r = r'.
Proof.
  intros H1 [H2 Hr2]. destruct (rooted_split _ _ _ _ _ _ H1 H2) as [[H3 Hr] Hle].
  inversion H3 as [x E1 E2 E3|c' p' k' i' Hc' Hp' E1 E2 E3]; simplify_eq. split; [lia|done].
Qed.

Lemma rooted_no_cycle parent i n r k : rooted parent i n r -> up parent i k i -> k = 0.
Proof.
  intros H1 H2. destruct (rooted_split _ _ _ _ _ _ H1 H2) as [H3 _].
  destruct (rooted_unique _ _ _ _ _ _ H1 H3). lia.
Qed.

Lemma climb_rooted parent fuel seen cur hops n r x k :
  rooted parent cur n r ->
  (forall y, y ∈ seen -> exists j, 0 <= j /\ up parent y j cur) ->
  climb fuel parent seen cur hops = Some (x, k) -> x = r /\ k = hops + n.
Proof.
  revert seen cur hops n. induction fuel as [|fuel IH]; intros seen cur hops n Hr Hseen; simpl; [done|].
  destruct (parent !! cur) as [p|] eqn:Hp.
  - assert (Hrp : rooted parent p (n - 1) r).
    { destruct (rooted_split parent cur n r 1 p Hr) as [H _]; [|done].
      apply (up_step _ cur p 0); [done|constructor]. }
    rewrite bool_decide_eq_false_2.
    + intros H. apply (IH _ _ _ _ Hrp) in H; [destruct H as [-> ->]; split; [done|lia]|].
      intros y [->%elem_of_singleton|Hy]%elem_of_union; [exists 0; split; [lia|constructor]|].
      destruct (Hseen y Hy) as (j & Hj & Hup). exists (j + 1). split; [lia|]. by eapply up_snoc.
    + intros Hin. destruct (Hseen p Hin) as (j & Hj & Hup).
      pose proof (rooted_no_cycle _ _ _ _ _ Hr (up_step _ cur p j cur Hp Hup)). lia.
  - intros [= <- <-]. destruct Hr as [H _].
    inversion H as [y E1 E2 E3|c' p' k' i' Hc' Hp' E1 E2 E3]; simplify_eq. split; [done|lia].
Qed.

Lemma walk_rooted parent i n r : rooted parent i n r -> walk parent i = Some (r, n + 1).
Proof.
  intros Hr. destruct (walk_total parent i) as [[x k] Hw]. rewrite Hw.
  unfold walk in Hw. eapply climb_rooted in Hw as [-> ->]; [by rewrite Z.add_comm|done|].
  intros y ->%elem_of_singleton. exists 0. split; [lia|constructor].
Qed.

Section Height.
Context (parent : gmap TaskId TaskId) (kids : gmap TaskId (list TaskId)) (U : gset TaskId).
Hypothesis kids_parent : forall c k, c ∈ default [] (kids !! k) <-> parent !! c = Some k.
Hypothesis kids_in : forall k c, c ∈ default [] (kids !! k) -> c ∈ U.

Lemma height_rooted fuel i seen n r h :
  rooted parent i n r -> i ∈ U -> (size (U ∖ seen) < fuel)%nat ->
  (forall y, y ∈ seen -> exists j, 0 < j /\ up parent i j y) ->
  subtree_height fuel kids i seen = Some (h, seen) ->
  (forall d k, up parent d k i -> k + 1 <= h) /\ exists d, up parent d (h - 1) i.
Proof.
  revert i seen n h. induction fuel as [|fuel IH]; intros i seen n h Hr Hi Hlt Hseen; [done|].
  rewrite subtree_height_S. rewrite bool_decide_eq_false_2.
  2:{ intros Hin. destruct (Hseen i Hin) as (j & Hj & Hup).
      pose proof (rooted_no_cycle _ _ _ _ _ Hr Hup). lia. }
  assert (Hsmall : i ∉ seen -> (size (U ∖ ({[i]} ∪ seen)) < fuel)%nat).
  { intros Hni. assert (size (U ∖ ({[i]} ∪ seen)) < size (U ∖ seen))%nat; [|lia].
    apply subset_size. set_solver. }
  assert (Hni : i ∉ seen).
  { intros Hin. destruct (Hseen i Hin) as (j & Hj & Hup).
    pose proof (rooted_no_cycle _ _ _ _ _ Hr Hup). lia. }
  assert (Hsub : forall c h, c ∈ default [] (kids !! i) ->
            subtree_height fuel kids c ({[i]} ∪ seen) = Some (h, {[i]} ∪ seen) ->
            (forall d k, up parent d k c -> k + 1 <= h) /\ exists d, up parent d (h - 1) c).
  { intros c h' Hc. pose proof (proj1 (kids_parent c i) Hc) as Hp. destruct Hr as [Hup Hroot].
    apply (IH c _ (n + 1)); [split; [by eapply up_step|done]|by eapply kids_in|by apply Hsmall|].
    intros y [->%elem_of_singleton|Hy]%elem_of_union.
    - exists 1. split; [lia|]. apply (up_step _ c i 0); [done|constructor].
    - destruct (Hseen y Hy) as (j & Hj & Hyup). exists (j + 1). split; [lia|]. by eapply up_step. }
  destruct (height_fold fuel kids (default [] (kids !! i)) 0 ({[ i ]} ∪ seen)) as (m & -> & Hm & Hall & Hor).
  { intros c Hc. apply (height_total U); [done|by eapply kids_in|by apply Hsmall]. }
  intros [= <- _]. replace (1 + m - 1) with m by lia. split.
  - intros d k Hup. apply up_last in Hup as [[-> _]|(c & Hup & Hc)]; [lia|].
    apply kids_parent in Hc. destruct (height_total U fuel kids c ({[i]} ∪ seen)) as [h' Hh'];
      [done|by eapply kids_in|by apply Hsmall|].
    destruct (Hsub c h' Hc Hh') as [Hb _]. specialize (Hb _ _ Hup). specialize (Hall _ _ Hc Hh'). lia.
  - destruct Hor as [->|(c & Hc & Hh)]; [exists i; constructor|].
    destruct (Hsub c m Hc Hh) as [_ [d Hd]]. exists d. replace m with (m - 1 + 1) by lia.
    eapply up_snoc; [done|]. by apply kids_parent.
Qed.
End Height.

Lemma depth_rooted prs i n r :
  NoDup (map id prs) -> rooted (parents prs) i n r ->
  exists h, chain_depth i (parents prs) (children_map prs) = Some h
    /\ (forall d k, rooted (parents prs) d k r -> k + 1 <= h)
    /\ exists d, rooted (parents prs) d (h - 1) r.
Proof.
  intros Hd Hr. destruct (chain_depth_total prs i) as [h Hh]. exists h. split; [done|].
  unfold chain_depth in Hh. rewrite (walk_rooted _ _ _ _ Hr) in Hh.
  set (U := {[ r ]} ∪ dom (parents prs)).
  assert (HU : forall k c, c ∈ default [] (children_map prs !! k) -> c ∈ U).
  { intros k c Hc%children_parents; [|done]. apply elem_of_union. right. apply elem_of_dom. eauto. }
  assert (Hsz : (size (U ∖ ∅) < S (S (size (parents prs))))%nat).
  { pose proof (size_union_alt {[ r ]} (dom (parents prs))) as Hu. fold U in Hu.
    assert (size (dom (parents prs) ∖ {[r]}) <= size (dom (parents prs)))%nat by (apply subseteq_size; set_solver).
    rewrite size_singleton in Hu. rewrite size_dom in *.
    assert (size (U ∖ ∅) <= size U)%nat by (apply subseteq_size; set_solver). lia. }
  assert (HrU : r ∈ U) by (apply elem_of_union; left; by apply elem_of_singleton).
  destruct (height_total U _ (children_map prs) r ∅ HU HrU Hsz) as [h' Hh'].
  rewrite Hh' in Hh. simpl in Hh. injection Hh as ->.
  destruct Hr as [_ Hroot].
  assert (Hnone : forall y, y ∈ (∅ : gset TaskId) -> exists j, 0 < j /\ up (parents prs) r j y)
    by (intros y []%elem_of_empty).
  pose proof (height_rooted (parents prs) (children_map prs) U
    (fun c k => children_parents prs c k Hd) HU _ r ∅ 0 r h (conj (up_refl _ r) Hroot) HrU Hsz Hnone Hh')
    as [H1 [d H2]].
  split; [|by exists d]. intros d' k [Hup _]. by eapply H1.
Qed.

(** C40: A stack is read off the branches.  [detect_stacks] always returns; it omits
    exactly the open pull requests with no link; parents and children are each
    other's, children in order of id; and where a chain of parents ends, the
    position of a pull request is its height in the chain and its depth the height
    of the tallest chain on the same root. *)
Theorem stacks_are_the_branch_chains tasks :
  let prs := stackable tasks in
  NoDup (map id prs) ->
  exists out, detect_stacks tasks = Some out
  /\ forall i,
    (out !! i = None <->
       i ∉ map id prs
       \/ (parents prs !! i = None /\ forall t, t ∈ prs -> parent_of (by_head prs) t <> Some i))
    /\ forall sp, out !! i = Some sp ->
       (forall p, sp_parent sp = Some p <->
          exists t, t ∈ prs /\ id t = i /\ parent_of (by_head prs) t = Some p)
       /\ (forall c, c ∈ children sp <-> exists t, t ∈ prs /\ id t = c /\ parent_of (by_head prs) t = Some i)
       /\ StronglySorted task_id_le (children sp)
       /\ forall k r, rooted (parents prs) i k r ->
            position sp = k + 1 /\ position sp <= depth sp
            /\ (forall d k', rooted (parents prs) d k' r -> k' + 1 <= depth sp)
            /\ exists d, rooted (parents prs) d (depth sp - 1) r.
Proof.
  intros prs Hd. destruct (detect_stacks_spec tasks) as (out & Ho & Hl). fold prs in Hl.
  exists out. split; [done|]. intros i. rewrite Hl. clear Hl. split.
  - destruct (place_total prs i) as [sp Hsp]. rewrite Hsp.
    assert (Hst : standalone prs i = true <->
              parents prs !! i = None /\ forall t, t ∈ prs -> parent_of (by_head prs) t <> Some i).
    { unfold standalone. rewrite andb_true_iff, bool_decide_eq_true.
      destruct (parents prs !! i) eqn:Hp; simpl; [split; [by intros [? _]|by intros [? _]]|].
      split; intros [_ H]; (split; [done|]).
      - intros t Ht Hpt. assert (id t ∈ default [] (children_map prs !! i)) as Hin
          by (apply elem_of_children, elem_of_links; eauto). rewrite H in Hin. by apply elem_of_nil in Hin.
      - apply elem_of_nil_inv. intros c (t & Ht & _ & Hpt)%elem_of_children%elem_of_links. by apply (H t). }
    rewrite <- Hst. case_bool_decide as Hin; destruct (standalone prs i); simpl;
      split; intros H; try done; try (by left); try (by right); by destruct H.
  - intros sp. destruct (bool_decide (i ∈ map id prs) && negb (standalone prs i)); [|done].
    unfold place, position_from_bottom. destruct (walk (parents prs) i) as [[x n]|] eqn:Hw; [|done].
    simpl. destruct (chain_depth i (parents prs) (children_map prs)) as [h|] eqn:Hh; [|done].
    intros [= <-]. simpl. split_and!.
    + intros p. by rewrite parents_links, elem_of_links.
    + intros c. by rewrite elem_of_children, elem_of_links.
    + unfold children_map. rewrite lookup_fmap. destruct (fold_left _ _ _ !! i); simpl; [|constructor].
      apply StronglySorted_merge_sort; apply _.
    + intros k r Hr. rewrite (walk_rooted _ _ _ _ Hr) in Hw. injection Hw as <- <-.
      destruct (depth_rooted prs i k r Hd Hr) as (h' & Hh' & Hmax & Hex).
      rewrite Hh in Hh'. injection Hh' as <-. split_and!; [done|by eapply Hmax|done|done].
Qed.

(** A stack of three with a fork, and a pull request of its own. *)
Definition example_pr (n base head : string) : Task :=
  mkTask (Work.mkTaskId "github" n) Open_ CiSuccess RvNone EmptyString (Some "o/r") (Some head) (Some base)
    [] MMergeable false (Some KPr) None [] [] [] None Author EmptyString 0 None [] [] [] ApDefault
    false false None None [] EmptyString false [] None [] [].

Definition example_stack : list Task :=
  [example_pr "1" "main" "a"; example_pr "2" "a" "b"; example_pr "3" "b" "c";
   example_pr "4" "a" "d"; example_pr "5" "main" "e"]%string.

Example example_stack_places :
  (fun out => map (fun i => (fun sp => (position sp, depth sp, length (children sp)))
     <$> (out !! Work.mkTaskId "github" i)) ["1"; "2"; "3"; "4"; "5"]%string)
    <$> detect_stacks example_stack
  = Some [Some (1, 3, 2%nat); Some (2, 3, 1%nat); Some (3, 3, 0%nat); Some (2, 3, 0%nat); None].
Proof. by vm_compute. Qed.

Lemma stacks_are_the_branch_chains_witness :
  exists out, detect_stacks example_stack = Some out
  /\ out !! Work.mkTaskId "github" "5" = None.
Proof.
  assert (Hd : NoDup (map id (stackable example_stack))).
  { apply (bool_decide_unpack _). by vm_compute. }
  destruct (stacks_are_the_branch_chains example_stack Hd) as (out & Ho & H).
  exists out. split; [done|]. apply (proj1 (H _)). right. split; [by vm_compute|].
  intros t Ht Hp. assert (E : map (parent_of (by_head (stackable example_stack))) (stackable example_stack)
    = [None; Some (Work.mkTaskId "github" "1"); Some (Work.mkTaskId "github" "2");
       Some (Work.mkTaskId "github" "1"); None]%string) by (vm_compute; reflexivity).
  apply list_elem_of_In, (in_map (parent_of (by_head (stackable example_stack)))) in Ht.
  rewrite E, Hp in Ht. simpl in Ht. destruct Ht as [Ht|[Ht|[Ht|[Ht|[Ht|[]]]]]]; discriminate Ht.
Defined.
