(* ===== verification/Graph.v ===== *)
(** * The dependency graph of an epic ([src/crates/server/src/epics.rs])

    The graph algorithms of the resolver, over member keys and the map of each
    member's direct dependencies: Kahn leveling into waves with cycle detection
    ([waves]), the transitive dependents of every member ([downstream_counts]) and
    the longest dependency path ([critical_path]).

    [HashMap]s are [gmap]s; a [BTreeSet] iterates in byte order.  An [expect] or a
    [usize] underflow that would panic makes the result [None], and so does
    running out of fuel; [waves_total] shows that neither happens.  The theorems on
    the dependents and the longest path are in GraphPaths.v. *)

From Stdlib Require Import String.
From S2P Require Import Prelude.

#[global] Open Scope Z_scope.

Definition WorkspaceKey : Type := string.

(** [depends_on.get(m).into_iter().flatten()] *)
Definition deps_of (depends_on : gmap WorkspaceKey (gset WorkspaceKey)) (m : WorkspaceKey)
    : list WorkspaceKey :=
  match depends_on !! m with Some deps => sorted_elements deps | None => [] end.

(** [map.entry(k).or_default().push(v)] *)
Definition push_to (k v : WorkspaceKey) (map : gmap WorkspaceKey (list WorkspaceKey)) :=
  <[k := default [] (map !! k) ++ [v]]> map.

(** ** [waves] *)

(** The dependents and the indegree, as built by the first loop. *)
Definition Counts : Type := gmap WorkspaceKey (list WorkspaceKey) * gmap WorkspaceKey nat.

Definition count_dep (m : WorkspaceKey) (c : Counts) (dep : WorkspaceKey) : Counts :=
  (push_to dep m c.1, <[m := S (default O (c.2 !! m))]> c.2).

Definition count_member (depends_on : gmap WorkspaceKey (gset WorkspaceKey)) (c : Counts)
    (m : WorkspaceKey) : Counts :=
  let indegree := match c.2 !! m with Some _ => c.2 | None => <[m := O]> c.2 end in
  fold_left (count_dep m) (deps_of depends_on m) (c.1, indegree).

Definition count_members (members : list WorkspaceKey)
    (depends_on : gmap WorkspaceKey (gset WorkspaceKey)) : Counts :=
  fold_left (count_member depends_on) members (∅, ∅).

Record Kahn : Type := mkKahn {
  queue : list WorkspaceKey;
  order : list WorkspaceKey;
  wave : gmap WorkspaceKey Z;
  indegree : gmap WorkspaceKey nat;
}.

(** One dependent [m] of a drained member of wave [wx]. *)
Definition relax (wx : Z) (k : Kahn) (m : WorkspaceKey) : option Kahn :=
  match wave k !! m, indegree k !! m with
  | Some w, Some (S deg) =>
      Some (mkKahn (if Nat.eqb deg 0 then queue k ++ [m] else queue k) (order k)
              (<[m := Z.max w (sat_add u16_max wx 1)]> (wave k)) (<[m := deg]> (indegree k)))
  | _, _ => None
  end.

Fixpoint relax_all (wx : Z) (ms : list WorkspaceKey) (k : Kahn) : option Kahn :=
  match ms with
  | [] => Some k
  | m :: ms => match relax wx k m with Some k => relax_all wx ms k | None => None end
  end.

(** The drain loop; [fuel] bounds the number of members drained. *)
Fixpoint drain (fuel : nat) (dependents : gmap WorkspaceKey (list WorkspaceKey)) (k : Kahn)
    : option Kahn :=
  match queue k with
  | [] => Some k
  | x :: rest =>
      match fuel with
      | O => None
      | S fuel =>
          match wave k !! x with
          | None => None
          | Some wx =>
              let k := mkKahn rest (order k ++ [x]) (wave k) (indegree k) in
              match relax_all wx (default [] (dependents !! x)) k with
              | Some k => drain fuel dependents k
              | None => None
              end
          end
      end
  end.

Definition waves (members : list WorkspaceKey)
    (depends_on : gmap WorkspaceKey (gset WorkspaceKey))
    : option (gmap WorkspaceKey Z * list WorkspaceKey * gset WorkspaceKey) :=
  let '(dependents, indegree0) := count_members members depends_on in
  let wave0 := list_to_map (map (fun m => (m, 0)) members) in
  let queue0 := filter (fun m => default O (indegree0 !! m) = O) members in
  match drain (length members) dependents (mkKahn queue0 [] wave0 indegree0) with
  | None => None
  | Some k =>
      Some (wave k, order k,
            list_to_set (filter (fun m => (0 < default O (indegree k !! m))%nat) members))
  end.

(** ** [downstream_counts] *)

Definition dependents_of (members : list WorkspaceKey)
    (depends_on : gmap WorkspaceKey (gset WorkspaceKey)) : gmap WorkspaceKey (list WorkspaceKey) :=
  fold_left (fun map m => fold_left (fun map dep => push_to dep m map) (deps_of depends_on m) map)
    members ∅.

(** The depth-first walk; the head of [stack] is the end of the [Vec]. *)
Fixpoint walk (fuel : nat) (dependents : gmap WorkspaceKey (list WorkspaceKey))
    (start : WorkspaceKey) (seen : gset WorkspaceKey) (stack : list WorkspaceKey)
    : option (gset WorkspaceKey) :=
  match stack with
  | [] => Some seen
  | node :: stack =>
      match fuel with
      | O => None
      | S fuel =>
          if bool_decide (node = start) || bool_decide (node ∈ seen)
          then walk fuel dependents start seen stack
          else walk fuel dependents start ({[ node ]} ∪ seen)
                 (rev (default [] (dependents !! node)) ++ stack)
      end
  end.

(** Enough for every dependent of every member to be pushed twice. *)
Definition walk_fuel (members : list WorkspaceKey)
    (dependents : gmap WorkspaceKey (list WorkspaceKey)) (start : WorkspaceKey) : nat :=
  length (default [] (dependents !! start))
  + sum_list (map (fun m => length (default [] (dependents !! m))) members).

Definition downstream (members : list WorkspaceKey)
    (dependents : gmap WorkspaceKey (list WorkspaceKey)) (start : WorkspaceKey)
    : option (gset WorkspaceKey) :=
  walk (walk_fuel members dependents start) dependents start ∅
    (rev (default [] (dependents !! start))).

(** [n as u32] *)
Definition as_u32 (n : nat) : Z := Z.of_nat n mod (u32_max + 1).

Fixpoint count_downstream (members : list WorkspaceKey)
    (dependents : gmap WorkspaceKey (list WorkspaceKey)) (starts : list WorkspaceKey)
    : option (gmap WorkspaceKey Z) :=
  match starts with
  | [] => Some ∅
  | start :: starts =>
      match count_downstream members dependents starts, downstream members dependents start with
      | Some out, Some seen => Some (<[start := as_u32 (size seen)]> out)
      | _, _ => None
      end
  end.

Definition downstream_counts (members : list WorkspaceKey)
    (depends_on : gmap WorkspaceKey (gset WorkspaceKey)) : option (gmap WorkspaceKey Z) :=
  count_downstream members (dependents_of members depends_on) members.

(** ** [critical_path] *)

Record Paths : Type := mkPaths {
  best_len : gmap WorkspaceKey Z;
  prev : gmap WorkspaceKey (option WorkspaceKey);
}.

Definition candidate (best : gmap WorkspaceKey Z) (acc : Z * option WorkspaceKey)
    (dep : WorkspaceKey) : Z * option WorkspaceKey :=
  let cand := default 0 (best !! dep) + 1 in
  if acc.1 <? cand then (cand, Some dep) else acc.

Definition extend_path (depends_on : gmap WorkspaceKey (gset WorkspaceKey)) (p : Paths)
    (node : WorkspaceKey) : Paths :=
  let '(len, from) := fold_left (candidate (best_len p)) (deps_of depends_on node) (1, None) in
  mkPaths (<[node := len]> (best_len p)) (<[node := from]> (prev p)).

(** The order [max_by] maximises: the longest path, then the smallest key. *)
Definition longer (a b : WorkspaceKey * Z) : Prop :=
  b.2 < a.2 \/ a.2 = b.2 /\ String.le a.1 b.1.

#[export] Instance longer_dec : RelDecision longer.
Proof. intros [a x] [b y]. unfold longer; simpl. apply _. Defined.

(** The walk back along [prev], root first. *)
Fixpoint path_to (fuel : nat) (prev : gmap WorkspaceKey (option WorkspaceKey))
    (cur : WorkspaceKey) (path : list WorkspaceKey) : option (list WorkspaceKey) :=
  match prev !! cur with
  | Some (Some p) =>
      match fuel with O => None | S fuel => path_to fuel prev p (p :: path) end
  | _ => Some path
  end.

Definition critical_path (order : list WorkspaceKey)
    (depends_on : gmap WorkspaceKey (gset WorkspaceKey)) : option (list WorkspaceKey) :=
  let p := fold_left (extend_path depends_on) order (mkPaths ∅ ∅) in
  match merge_sort longer (map_to_list (best_len p)) with
  | [] => Some []
  | (end_, _) :: _ => path_to (length order) (prev p) end_ [end_]
  end.

(** ** The counting pass *)

Definition deps (depends_on : gmap WorkspaceKey (gset WorkspaceKey)) (m : WorkspaceKey)
    : gset WorkspaceKey := default ∅ (depends_on !! m).

Lemma deps_of_elem D m d : d ∈ deps_of D m <-> d ∈ deps D m.
Proof.
  unfold deps_of, deps. destruct (D !! m); simpl; [apply sorted_elements_elem|set_solver].
Qed.

Lemma deps_of_NoDup D m : NoDup (deps_of D m).
Proof. unfold deps_of. destruct (D !! m); [apply sorted_elements_NoDup|constructor]. Qed.

Lemma deps_of_length D m : length (deps_of D m) = size (deps D m).
Proof. unfold deps_of, deps. destruct (D !! m); simpl; [apply sorted_elements_length|done]. Qed.

Lemma push_to_lookup k v M x :
  default [] (push_to k v M !! x) = default [] (M !! x) ++ (if decide (x = k) then [v] else []).
Proof.
  unfold push_to. destruct (decide (x = k)) as [->|].
  - by rewrite lookup_insert_eq.
  - by rewrite lookup_insert_ne, app_nil_r.
Qed.

Lemma count_deps_spec m l c :
  NoDup l ->
  let c' := fold_left (count_dep m) l c in
  (forall x, default [] (c'.1 !! x) = default [] (c.1 !! x) ++ (if decide (x ∈ l) then [m] else []))
  /\ (forall y, y <> m -> c'.2 !! y = c.2 !! y)
  /\ (is_Some (c.2 !! m) -> c'.2 !! m = Some (default O (c.2 !! m) + length l)%nat).
Proof.
  intros Hnd. revert c. induction Hnd as [|d l Hd Hnd IH]; intros c; cbn [fold_left].
  { split_and!; [intros x; by rewrite decide_False, app_nil_r by set_solver|done|].
    intros [n ->]. simpl. f_equal. lia. }
  destruct (IH (count_dep m c d)) as (I1 & I2 & I3). unfold count_dep in *. cbn [fst snd] in *.
  split_and!.
  - intros x. rewrite I1, push_to_lookup, <- app_assoc. f_equal.
    destruct (decide (x = d)) as [->|Hx].
    + by rewrite decide_False, decide_True by set_solver.
    + destruct (decide (x ∈ l)); [by rewrite decide_True by set_solver|].
      by rewrite decide_False by set_solver.
  - intros y Hy. rewrite I2 by done. by rewrite lookup_insert_ne.
  - intros [n Hn]. rewrite I3 by (rewrite lookup_insert_eq; eauto).
    rewrite lookup_insert_eq, Hn. simpl. f_equal. lia.
Qed.

Lemma count_member_spec D m c :
  let c' := count_member D c m in
  (forall x, default [] (c'.1 !! x)
     = default [] (c.1 !! x) ++ (if decide (x ∈ deps D m) then [m] else []))
  /\ (forall y, y <> m -> c'.2 !! y = c.2 !! y)
  /\ (c.2 !! m = None -> c'.2 !! m = Some (size (deps D m))).
Proof.
  unfold count_member.
  set (c0 := (c.1, match c.2 !! m with Some _ => c.2 | None => <[m := O]> c.2 end)).
  destruct (count_deps_spec m (deps_of D m) c0 (deps_of_NoDup D m)) as (I1 & I2 & I3).
  split_and!.
  - intros x. rewrite I1. f_equal. apply decide_ext, deps_of_elem.
  - intros y Hy. rewrite I2 by done. unfold c0. cbn [snd]. destruct (c.2 !! m); [done|].
    by rewrite lookup_insert_ne.
  - intros Hm. rewrite I3; unfold c0; cbn [snd]; rewrite Hm, lookup_insert_eq; [|by eauto].
    simpl. f_equal. apply deps_of_length.
Qed.

Lemma count_members_from D ms c :
  NoDup ms -> (forall m, m ∈ ms -> c.2 !! m = None) ->
  let c' := fold_left (count_member D) ms c in
  (forall x, default [] (c'.1 !! x) = default [] (c.1 !! x) ++ filter (fun m => x ∈ deps D m) ms)
  /\ (forall y, c'.2 !! y = if decide (y ∈ ms) then Some (size (deps D y)) else c.2 !! y).
Proof.
  intros Hnd. revert c. induction Hnd as [|m ms Hm Hnd IH]; intros c Hc; cbn [fold_left].
  { split; [intros x; by rewrite app_nil_r|intros y; by rewrite decide_False by set_solver]. }
  destruct (count_member_spec D m c) as (I1 & I2 & I3).
  destruct (IH (count_member D c m)) as [J1 J2].
  { intros y Hy. rewrite I2; [apply Hc; set_solver|]. intros ->. done. }
  split.
  - intros x. rewrite J1, I1, <- app_assoc, filter_cons. f_equal. by destruct (decide _).
  - intros y. rewrite J2. destruct (decide (y = m)) as [->|Hy].
    + rewrite decide_False, decide_True by set_solver. apply I3, Hc. set_solver.
    + destruct (decide (y ∈ ms)); [by rewrite decide_True by set_solver|].
      rewrite decide_False by set_solver. by apply I2.
Qed.

Lemma count_members_spec D ms :
  NoDup ms ->
  (forall x, default [] ((count_members ms D).1 !! x) = filter (fun m => x ∈ deps D m) ms)
  /\ (forall y, (count_members ms D).2 !! y = if decide (y ∈ ms) then Some (size (deps D y)) else None).
Proof.
  intros Hnd. destruct (count_members_from D ms (∅, ∅) Hnd) as [I1 I2].
  { intros m _. apply lookup_empty. }
  split.
  - intros x. etrans; [apply I1|]. cbn [fst]. by rewrite lookup_empty.
  - intros y. etrans; [apply I2|]. cbn [snd]. by rewrite lookup_empty.
Qed.

Lemma dependents_of_from D ms (M : gmap WorkspaceKey (list WorkspaceKey)) x :
  default [] (fold_left (fun map m =>
      fold_left (fun map dep => push_to dep m map) (deps_of D m) map) ms M !! x)
  = default [] (M !! x) ++ filter (fun m => x ∈ deps D m) ms.
Proof.
  revert M. induction ms as [|m ms IH]; intros M; cbn [fold_left]; [by rewrite app_nil_r|].
  rewrite IH, filter_cons.
  assert (forall l M, NoDup l ->
    default [] (fold_left (fun map dep => push_to dep m map) l M !! x)
    = default [] (M !! x) ++ (if decide (x ∈ l) then [m] else [])) as E.
  { clear. intros l M Hnd. revert M. induction Hnd as [|d l Hd Hnd IH]; intros M; cbn [fold_left].
    { by rewrite decide_False, app_nil_r by set_solver. }
    rewrite IH, push_to_lookup, <- app_assoc. f_equal. destruct (decide (x = d)) as [->|Hx].
    - by rewrite decide_False, decide_True by set_solver.
    - destruct (decide (x ∈ l)); [by rewrite decide_True by set_solver|].
      by rewrite decide_False by set_solver. }
  rewrite E, <- app_assoc by apply deps_of_NoDup. f_equal.
  destruct (decide (x ∈ deps_of D m)) as [Hx|Hx]; rewrite deps_of_elem in Hx.
  - by rewrite decide_True.
  - by rewrite decide_False.
Qed.

Lemma dependents_of_spec D ms x :
  default [] (dependents_of ms D !! x) = filter (fun m => x ∈ deps D m) ms.
Proof. unfold dependents_of. by rewrite dependents_of_from, lookup_empty. Qed.

(** ** The drain loop *)

Lemma relax_all_spec wx ds k :
  NoDup ds ->
  (forall m, m ∈ ds -> is_Some (wave k !! m) /\ exists n, indegree k !! m = Some (S n)) ->
  exists k',
    relax_all wx ds k = Some k'
    /\ order k' = order k
    /\ queue k' = queue k ++ filter (fun m => indegree k !! m = Some 1%nat) ds
    /\ (forall m, wave k' !! m
          = if decide (m ∈ ds) then (fun w => Z.max w (sat_add u16_max wx 1)) <$> wave k !! m
            else wave k !! m)
    /\ (forall m, indegree k' !! m
          = if decide (m ∈ ds) then Nat.pred <$> indegree k !! m else indegree k !! m).
Proof.
  intros Hnd. revert k. induction Hnd as [|m ds Hm Hnd IH]; intros k Hk; cbn [relax_all].
  { exists k. split_and!; [done|done|by rewrite app_nil_r|..];
      intros y; by rewrite decide_False by set_solver. }
  destruct (Hk m) as [[w Hw] [n Hn]]; [set_solver|]. unfold relax. rewrite Hw, Hn.
  set (k1 := mkKahn _ _ _ _).
  assert (forall y, y <> m -> wave k1 !! y = wave k !! y /\ indegree k1 !! y = indegree k !! y) as Hne.
  { intros y Hy. unfold k1. cbn [wave indegree]. by rewrite !lookup_insert_ne. }
  destruct (IH k1) as (k' & -> & Ho & Hq & Hwv & Hi).
  { intros y Hy. destruct (Hne y) as [-> ->]; [by intros ->|]. apply Hk. set_solver. }
  exists k'. split_and!; [done|done| | |].
  - rewrite Hq, filter_cons. unfold k1 at 1. cbn [queue]. rewrite Hn.
    replace (filter (fun y => indegree k1 !! y = Some 1%nat) ds)
      with (filter (fun y => indegree k !! y = Some 1%nat) ds).
    2: { apply list_filter_ext_in. intros y Hy.
         destruct (Hne y) as [_ ->]; [by intros ->|done]. }
    destruct n as [|n]; cbn [Nat.eqb].
    + rewrite decide_True by done. by rewrite <- app_assoc.
    + by rewrite decide_False by congruence.
  - intros y. rewrite Hwv. destruct (decide (y = m)) as [->|Hy].
    + rewrite decide_False, decide_True by set_solver. unfold k1. cbn [wave].
      by rewrite lookup_insert_eq, Hw.
    + destruct (Hne y Hy) as [-> _]. destruct (decide (y ∈ ds)); [by rewrite decide_True by set_solver|].
      by rewrite decide_False by set_solver.
  - intros y. rewrite Hi. destruct (decide (y = m)) as [->|Hy].
    + rewrite decide_False, decide_True by set_solver. unfold k1. cbn [indegree].
      by rewrite lookup_insert_eq, Hn.
    + destruct (Hne y Hy) as [_ ->]. destruct (decide (y ∈ ds)); [by rewrite decide_True by set_solver|].
      by rewrite decide_False by set_solver.
Qed.

(** [w] is the wave of [m] given those of the drained members [O]: one past the
    deepest drained dependency, zero without one. *)
Definition leveled (D : gmap WorkspaceKey (gset WorkspaceKey)) (O : gset WorkspaceKey)
    (W : gmap WorkspaceKey Z) (m : WorkspaceKey) (w : Z) : Prop :=
  0 <= w
  /\ (forall d wd, d ∈ deps D m -> d ∈ O -> W !! d = Some wd -> sat_add u16_max wd 1 <= w)
  /\ (w = 0 \/ exists d wd, d ∈ deps D m /\ d ∈ O /\ W !! d = Some wd /\ w = sat_add u16_max wd 1).

Record draining (ms : list WorkspaceKey) (D : gmap WorkspaceKey (gset WorkspaceKey)) (k : Kahn)
    : Prop := {
  dr_NoDup : NoDup (order k ++ queue k);
  dr_sub m : m ∈ order k ++ queue k -> m ∈ ms;
  dr_indegree m : m ∈ ms ->
    indegree k !! m = Some (size (deps D m ∖ list_to_set (order k)));
  dr_ready m : m ∈ ms -> m ∈ order k ++ queue k <-> deps D m ⊆ list_to_set (order k);
  dr_topo i m : order k !! i = Some m -> deps D m ⊆ list_to_set (take i (order k));
  dr_wave m : m ∈ ms ->
    exists w, wave k !! m = Some w /\ leveled D (list_to_set (order k)) (wave k) m w;
}.

Lemma list_to_set_snoc (l : list WorkspaceKey) x :
  (list_to_set (l ++ [x]) : gset WorkspaceKey) = list_to_set l ∪ {[ x ]}.
Proof. apply leibniz_equiv. intros y. rewrite elem_of_list_to_set. set_solver. Qed.

Lemma size_difference_snoc (X O : gset WorkspaceKey) x :
  x ∈ X -> x ∉ O -> size (X ∖ O) = S (size (X ∖ (O ∪ {[ x ]}))).
Proof.
  intros Hx Ho. replace (X ∖ O) with ({[ x ]} ∪ X ∖ (O ∪ {[ x ]})).
  - rewrite size_union by set_solver. by rewrite size_singleton.
  - apply leibniz_equiv. intros y. destruct (decide (y = x)); set_solver.
Qed.

Lemma size_difference_0 (X Y : gset WorkspaceKey) : size (X ∖ Y) = 0%nat <-> X ⊆ Y.
Proof. rewrite size_empty_iff. split; intros H y; specialize (H y); [|set_solver]. destruct (decide (y ∈ Y)); set_solver. Qed.

Lemma Some_S_1 n : Some (S n) = Some 1%nat <-> n = 0%nat.
Proof. split; [by intros [= ?]|by intros ->]. Qed.

(** What draining [x] leaves in the queue's state before the dependents. *)
Lemma drain_step ms D k x rest :
  NoDup ms -> draining ms D k -> queue k = x :: rest ->
  exists wx k',
    wave k !! x = Some wx
    /\ relax_all wx (filter (fun m => x ∈ deps D m) ms)
         (mkKahn rest (order k ++ [x]) (wave k) (indegree k)) = Some k'
    /\ order k' = order k ++ [x] /\ draining ms D k'.
Proof.
  intros Hms [Hnd Hsub Hin Hready Htopo Hwave] Hq.
  rewrite Hq in *. set (Od := list_to_set (order k) : gset WorkspaceKey) in *.
  assert (x ∈ ms) as Hxms by (apply Hsub; set_solver).
  assert (x ∉ Od) as HxO.
  { apply NoDup_app in Hnd as (_ & Hd & _). unfold Od. rewrite elem_of_list_to_set.
    intros Hx. apply (Hd x Hx). by left. }
  assert (deps D x ⊆ Od) as Hdx by (apply Hready; [done|set_solver]).
  assert (forall d, d ∈ Od -> deps D d ⊆ Od) as Hclosed.
  { intros d Hd. unfold Od in Hd. rewrite elem_of_list_to_set in Hd.
    apply Hready; [apply Hsub|]; set_solver. }
  destruct (Hwave x Hxms) as (wx & Hwx & Hlx).
  set (ds := filter (fun m => x ∈ deps D m) ms).
  assert (forall m, m ∈ ds <-> m ∈ ms /\ x ∈ deps D m) as Hds
    by (intros m; unfold ds; rewrite list_elem_of_filter; naive_solver).
  set (k1 := mkKahn rest (order k ++ [x]) (wave k) (indegree k)).
  assert (forall m, m ∈ ds -> indegree k !! m = Some (S (size (deps D m ∖ (Od ∪ {[ x ]}))))) as Hdeg.
  { intros m [Hm Hx]%Hds. rewrite (Hin m Hm). by rewrite (size_difference_snoc _ _ x). }
  destruct (relax_all_spec wx ds k1) as (k' & Hrel & Ho & Hqk & Hwk & Hik).
  { apply NoDup_filter, Hms. }
  { intros m Hm. split; [|by eexists; apply Hdeg]. apply Hds in Hm as [Hm _].
    destruct (Hwave m Hm) as (w & Hw & _). by exists w. }
  exists wx, k'. split_and!; [done|done|done|].
  cbn [k1 order queue wave indegree] in Ho, Hqk, Hwk, Hik.
  assert (forall d, d ∈ Od ∪ {[ x ]} -> wave k' !! d = wave k !! d) as Hsame.
  { intros d Hd. rewrite Hwk, decide_False; [done|]. intros [_ Hx]%Hds.
    apply elem_of_union in Hd as [Hd|Hd%elem_of_singleton]; [|subst d]; set_solver. }
  assert (forall m, m ∈ ms -> m ∈ (order k ++ [x]) ++ rest ++ filter (fun m => indegree k !! m = Some 1%nat) ds
            <-> deps D m ⊆ Od ∪ {[ x ]}) as Hready'.
  { intros m Hm. specialize (Hready m Hm).
    destruct (decide (x ∈ deps D m)) as [Hx|Hx].
    - assert (m ∈ ds) as Hmds by (by apply Hds).
      assert (~ deps D m ⊆ Od) as Hno by set_solver.
      rewrite !elem_of_app, list_elem_of_filter, (Hdeg m Hmds).
      rewrite elem_of_app, elem_of_cons in Hready.
      rewrite list_elem_of_singleton, Some_S_1, size_difference_0. naive_solver.
    - assert (deps D m ⊆ Od ∪ {[ x ]} <-> deps D m ⊆ Od) as -> by set_solver.
      rewrite <- Hready, !elem_of_app, list_elem_of_singleton, elem_of_cons, list_elem_of_filter.
      assert (m ∉ ds) by (rewrite Hds; naive_solver). naive_solver. }
  split; rewrite ?Ho, ?Hqk, ?list_to_set_snoc; fold Od.
  - rewrite app_assoc. apply NoDup_app. split_and!.
    + by rewrite <- app_assoc.
    + intros m Hm [_ [_ Hx]%Hds]%list_elem_of_filter.
      assert (deps D m ⊆ Od) by (apply Hready; [apply Hsub|]; set_solver). set_solver.
    + apply NoDup_filter, NoDup_filter, Hms.
  - intros m. rewrite !elem_of_app, list_elem_of_filter, Hds. specialize (Hsub m). set_solver.
  - intros m Hm. rewrite Hik. case_decide as Hd; [by rewrite (Hdeg m Hd)|].
    rewrite (Hin m Hm). do 2 f_equal. rewrite Hds in Hd. set_solver.
  - done.
  - intros i m Hi. apply lookup_app_Some in Hi as [Hi|[Hge Hi]].
    + rewrite take_app_le; [by apply Htopo|]. apply lookup_lt_Some in Hi. lia.
    + apply list_lookup_singleton_Some in Hi as [Hi <-].
      replace i with (length (order k)) by lia. by rewrite take_app_length.
  - intros m Hm. destruct (Hwave m Hm) as (w & Hw & H0 & Hle & Hex). rewrite Hwk.
    assert (0 <= sat_add u16_max wx 1) as Hpos by (destruct Hlx; unfold sat_add, u16_max; lia).
    case_decide as Hc.
    + apply Hds in Hc as [_ Hx]. rewrite Hw. eexists. split; [reflexivity|].
      split; [lia|]. split.
      * intros d wd Hdm Hd Hwd. rewrite Hsame in Hwd by done.
        apply elem_of_union in Hd as [Hd|Hd%elem_of_singleton].
        -- specialize (Hle d wd Hdm Hd Hwd). lia.
        -- subst d. assert (wd = wx) as -> by congruence. lia.
      * destruct (Z.max_spec w (sat_add u16_max wx 1)) as [[_ ->]|[_ ->]].
        -- right. exists x, wx. rewrite Hsame by set_solver. set_solver.
        -- destruct Hex as [->|(d & wd & ? & ? & ? & ->)]; [by left|right].
           exists d, wd. rewrite Hsame by set_solver. set_solver.
    + rewrite Hw. eexists. split; [reflexivity|]. split; [done|]. split.
      * intros d wd Hdm Hd Hwd. rewrite Hsame in Hwd by done.
        apply elem_of_union in Hd as [Hd|Hd%elem_of_singleton]; [by apply (Hle d)|].
        subst d. exfalso. apply Hc, Hds. done.
      * destruct Hex as [->|(d & wd & ? & ? & ? & ->)]; [by left|right].
        exists d, wd. rewrite Hsame by set_solver. set_solver.
Qed.

Lemma draining_room ms D k :
  draining ms D k -> (length (order k ++ queue k) <= length ms)%nat.
Proof.
  intros [Hnd Hsub _ _ _ _]. apply submseteq_length, NoDup_submseteq; [done|]. exact Hsub.
Qed.

Lemma drain_completes ms D dependents fuel k :
  NoDup ms -> draining ms D k ->
  (forall x, default [] (dependents !! x) = filter (fun m => x ∈ deps D m) ms) ->
  (length ms <= length (order k) + fuel)%nat ->
  exists k', drain fuel dependents k = Some k' /\ draining ms D k' /\ queue k' = [].
Proof.
  intros Hms Hk Hdep. revert k Hk. induction fuel as [|fuel IH]; intros k Hk Hlen;
    pose proof (draining_room ms D k Hk) as Hroom; rewrite length_app in Hroom; cbn [drain];
    destruct (queue k) as [|x rest] eqn:Hq; simpl in Hroom.
  - by exists k.
  - lia.
  - by exists k.
  - destruct (drain_step ms D k x rest Hms Hk Hq) as (wx & k' & -> & Hrel & Ho & Hk').
    rewrite Hdep, Hrel. apply IH; [done|]. rewrite Ho, length_app. simpl. lia.
Qed.

Lemma draining_starts ms D :
  NoDup ms ->
  draining ms D
    (mkKahn (filter (fun m => default O ((count_members ms D).2 !! m) = O) ms) []
       (list_to_map (map (fun m => (m, 0)) ms)) (count_members ms D).2).
Proof.
  intros Hms. destruct (count_members_spec D ms Hms) as [_ Hdeg].
  assert (forall m, m ∈ ms -> m ∈ filter (fun m => default O ((count_members ms D).2 !! m) = O) ms
            <-> deps D m ⊆ ∅) as Hq.
  { intros m Hm. rewrite list_elem_of_filter, Hdeg, decide_True by done. simpl.
    rewrite size_empty_iff. set_solver. }
  split; cbn [order queue indegree wave list_to_set].
  - apply NoDup_filter, Hms.
  - intros m Hm. by apply list_elem_of_filter in Hm as [_ ?].
  - intros m Hm. rewrite Hdeg, decide_True by done. do 2 f_equal. set_solver.
  - intros m Hm. by rewrite <- Hq.
  - done.
  - intros m Hm. exists 0. split; [|split; [done|split; [set_solver|by left]]].
    apply elem_of_list_to_map_1.
    + rewrite map_map. simpl. by rewrite map_id.
    + apply list_elem_of_In, in_map_iff. exists m. split; [done|by apply list_elem_of_In].
Qed.

(** [waves] returns, and what it returns is a completed drain. *)
Lemma waves_total ms D :
  NoDup ms ->
  exists k,
    waves ms D = Some (wave k, order k, list_to_set (filter (fun m => m ∉ order k) ms))
    /\ draining ms D k /\ queue k = [].
Proof.
  intros Hms. unfold waves. destruct (count_members_spec D ms Hms) as [Hdep _].
  pose proof (draining_starts ms D Hms) as Hstart.
  destruct (count_members ms D) as [dependents indegree0]. cbn [fst snd] in *.
  destruct (drain_completes ms D dependents (length ms) _ Hms Hstart Hdep) as (k & -> & Hk & Hq).
  { simpl. lia. }
  exists k. split; [|done]. repeat f_equal. apply list_filter_ext_in. intros m Hm.
  rewrite (dr_indegree _ _ _ Hk m Hm). simpl.
  pose proof (dr_ready _ _ _ Hk m Hm) as Hr. rewrite Hq, app_nil_r in Hr. rewrite Hr.
  rewrite <- size_difference_0. lia.
Qed.

(** ** Walks in the graph *)

(** [m] depends directly on [d]. *)
Definition depends (D : gmap WorkspaceKey (gset WorkspaceKey)) (m d : WorkspaceKey) : Prop :=
  d ∈ deps D m.

(** A walk of [n] steps that never leaves [X]. *)
Lemma walk_within D (X : gset WorkspaceKey) n m :
  (forall x, x ∈ X -> exists d, depends D x d /\ d ∈ X) -> m ∈ X ->
  exists l, length l = S n /\ l !! 0%nat = Some m /\ (forall x, x ∈ l -> x ∈ X)
    /\ forall i x y, l !! i = Some x -> l !! S i = Some y -> depends D x y.
Proof.
  intros Hnext. revert m. induction n as [|n IH]; intros m Hm.
  { exists [m]. split_and!; [done|done|set_solver|]. intros i x y _ Hy. by destruct i. }
  destruct (Hnext m Hm) as (d & Hd & HdX). destruct (IH d HdX) as (l & Hl & H0 & Hin & Hstep).
  exists (m :: l). split_and!; [by simpl; rewrite Hl|done|set_solver|].
  intros [|i] x y Hx Hy; simpl in *; [congruence|by eapply Hstep].
Qed.

Lemma steps_tc D (l : list WorkspaceKey) i j x y :
  (forall i x y, l !! i = Some x -> l !! S i = Some y -> depends D x y) ->
  (i < j)%nat -> l !! i = Some x -> l !! j = Some y -> tc (depends D) x y.
Proof.
  intros Hstep Hij. revert y. induction Hij as [|j Hij IH]; intros y Hx Hy.
  - apply tc_once. by eapply Hstep.
  - destruct (lookup_lt_is_Some_2 l j) as [z Hz]; [apply lookup_lt_Some in Hy; lia|].
    eapply tc_r; [by apply IH|by eapply Hstep].
Qed.

(** In a finite set where everything depends on something of the set, everything
    reaches a cycle. *)
Lemma endless_reaches_a_cycle D (X : gset WorkspaceKey) m :
  (forall x, x ∈ X -> exists d, depends D x d /\ d ∈ X) -> m ∈ X ->
  exists c, rtc (depends D) m c /\ tc (depends D) c c.
Proof.
  intros Hnext Hm. destruct (walk_within D X (size X) m Hnext Hm) as (l & Hl & H0 & Hin & Hstep).
  destruct (decide (NoDup l)) as [Hnd|Hnd].
  { exfalso. assert (size (list_to_set l : gset WorkspaceKey) <= size X)%nat as Hle.
    { apply subseteq_size. intros x. rewrite elem_of_list_to_set. apply Hin. }
    rewrite size_list_to_set in Hle by done. lia. }
  assert (exists i j x, (i < j)%nat /\ l !! i = Some x /\ l !! j = Some x) as (i & j & x & Hij & Hi & Hj).
  { clear -Hnd. induction l as [|a l IH]; [by destruct Hnd; constructor|].
    destruct (decide (a ∈ l)) as [Ha|Ha].
    - apply list_elem_of_lookup in Ha as [j Hj]. exists 0%nat, (S j), a. split_and!; [lia|done|done].
    - destruct IH as (i & j & x & ? & ? & ?); [by intros ?; apply Hnd; constructor|].
      exists (S i), (S j), x. split_and!; [lia|done|done]. }
  exists x. split.
  - destruct i as [|i]; [assert (x = m) as -> by congruence; done|].
    apply tc_rtc, (steps_tc D l 0 (S i)); [done|lia|done|done].
  - by apply (steps_tc D l i j).
Qed.

Lemma tc_depends_goes_back D (l : list WorkspaceKey) i x y :
  (forall i m d, l !! i = Some m -> depends D m d -> exists j, (j < i)%nat /\ l !! j = Some d) ->
  tc (depends D) x y -> l !! i = Some x -> exists j, (j < i)%nat /\ l !! j = Some y.
Proof.
  intros Hback Ht. revert i. induction Ht as [x y Hxy|x z y Hxz Ht IH]; intros i Hi.
  - by eapply Hback.
  - destruct (Hback i x z Hi Hxz) as (j & Hj & Hz). destruct (IH j Hz) as (j' & ? & ?).
    exists j'. split; [lia|done].
Qed.

Lemma drained_wave ms D k m :
  draining ms D k -> queue k = [] -> m ∈ order k ->
  exists w, wave k !! m = Some w
    /\ (forall d wd, depends D m d -> wave k !! d = Some wd -> sat_add u16_max wd 1 <= w)
    /\ ((w = 0 /\ deps D m = ∅)
        \/ exists d wd, depends D m d /\ wave k !! d = Some wd /\ w = sat_add u16_max wd 1).
Proof.
  intros Hk Hq Hm.
  assert (m ∈ ms) as Hms by (apply (dr_sub _ _ _ Hk); set_solver).
  assert (deps D m ⊆ list_to_set (order k)) as Hd by (apply (dr_ready _ _ _ Hk m Hms); set_solver).
  destruct (dr_wave _ _ _ Hk m Hms) as (w & Hw & H0 & Hle & Hex).
  exists w. split; [done|]. split; [intros d wd Hdm; apply Hle; [done|by apply Hd]|].
  destruct Hex as [->|(d & wd & ? & _ & ? & ->)]; [left|right; by exists d, wd].
  split; [done|]. apply leibniz_equiv. intros d. split; [|set_solver]. intros Hdm. exfalso.
  assert (d ∈ ms) as Hdms by (apply (dr_sub _ _ _ Hk); set_solver).
  destruct (dr_wave _ _ _ Hk d Hdms) as (wd & Hwd & Hpos & _).
  specialize (Hle d wd Hdm (Hd _ Hdm) Hwd). unfold sat_add, u16_max in Hle. lia.
Qed.

Lemma drained_is_acyclic ms D k m :
  draining ms D k -> queue k = [] -> m ∈ ms ->
  (forall m d, m ∈ ms -> depends D m d -> d ∈ ms) ->
  m ∉ order k <-> exists c, rtc (depends D) m c /\ tc (depends D) c c.
Proof.
  intros Hk Hq Hms Hclosed.
  assert (forall i m d, order k !! i = Some m -> depends D m d ->
    exists j, (j < i)%nat /\ order k !! j = Some d) as Hback.
  { intros i x d Hi Hd. pose proof (dr_topo _ _ _ Hk i x Hi d Hd) as Ht.
    apply elem_of_list_to_set, elem_of_take in Ht as (j & Hj & ?). by exists j. }
  split.
  - intros Hm. apply (endless_reaches_a_cycle D (list_to_set (filter (fun x => x ∉ order k) ms)));
      [|rewrite elem_of_list_to_set, list_elem_of_filter; done].
    intros x. rewrite elem_of_list_to_set, list_elem_of_filter. intros [Hx Hxms].
    destruct (decide (deps D x ⊆ list_to_set (order k))) as [Hr|Hr].
    { exfalso. apply Hx. apply (dr_ready _ _ _ Hk x Hxms) in Hr. by rewrite Hq, app_nil_r in Hr. }
    destruct (set_choose_or_empty (deps D x ∖ list_to_set (order k))) as [[d Hd]|He].
    + exists d. split; [set_solver|]. rewrite elem_of_list_to_set, list_elem_of_filter.
      split; [set_solver|]. apply (Hclosed x); [done|]. set_solver.
    + exfalso. apply Hr, size_difference_0. rewrite <- size_empty_iff in He. done.
  - intros (c & Hmc & Hcc) Hm. apply list_elem_of_lookup in Hm as [i Hi].
    assert (exists j, order k !! j = Some c) as [j Hj].
    { apply rtc_tc in Hmc as [->|Hmc]; [by exists i|].
      destruct (tc_depends_goes_back D (order k) i m c Hback Hmc Hi) as (j & _ & ?). by exists j. }
    destruct (tc_depends_goes_back D (order k) j c c Hback Hcc Hj) as (j' & Hlt & Hj').
    pose proof (dr_NoDup _ _ _ Hk) as Hnd. apply NoDup_app in Hnd as (Hnd & _ & _).
    pose proof (NoDup_lookup _ _ _ _ Hnd Hj Hj'). lia.
Qed.

(** C38: [waves] is a longest-path leveling with exact cycle detection.  On a graph
    whose dependencies are members it returns without a panic; the order lists,
    once each, the members outside the cycle set, every member after all its
    dependencies; a listed member without dependency is in wave 0 and any other
    one past its deepest dependency ([u16], saturating); and the cycle set is the
    members from which a dependency cycle can be reached. *)
Theorem waves_level_the_graph ms D :
  NoDup ms -> (forall m d, m ∈ ms -> depends D m d -> d ∈ ms) ->
  exists wave order cycle,
    waves ms D = Some (wave, order, cycle)
    /\ NoDup order
    /\ (forall m, m ∈ order <-> m ∈ ms /\ m ∉ cycle)
    /\ (forall i m d, order !! i = Some m -> depends D m d ->
          exists j, (j < i)%nat /\ order !! j = Some d)
    /\ (forall m, m ∈ order -> exists w, wave !! m = Some w
          /\ (forall d wd, depends D m d -> wave !! d = Some wd -> sat_add u16_max wd 1 <= w)
          /\ ((w = 0 /\ deps D m = ∅)
              \/ exists d wd, depends D m d /\ wave !! d = Some wd /\ w = sat_add u16_max wd 1))
    /\ (forall m, m ∈ cycle
          <-> m ∈ ms /\ exists c, rtc (depends D) m c /\ tc (depends D) c c).
Proof.
  intros Hms Hclosed. destruct (waves_total ms D Hms) as (k & E & Hk & Hq).
  exists (wave k), (order k), (list_to_set (filter (fun m => m ∉ order k) ms)).
  split_and!; [done| | | | |].
  - pose proof (dr_NoDup _ _ _ Hk) as Hnd. by apply NoDup_app in Hnd as (? & _ & _).
  - intros m. rewrite elem_of_list_to_set, list_elem_of_filter.
    pose proof (dr_sub _ _ _ Hk m) as Hs. rewrite Hq, app_nil_r in Hs.
    destruct (decide (m ∈ order k)); naive_solver.
  - intros i m d Hi Hd. pose proof (dr_topo _ _ _ Hk i m Hi d Hd) as Ht.
    apply elem_of_list_to_set, elem_of_take in Ht as (j & Hj & ?). by exists j.
  - intros m. by apply drained_wave with ms.
  - intros m. rewrite elem_of_list_to_set, list_elem_of_filter.
    split; intros [H1 H2].
    + split; [done|]. by apply (drained_is_acyclic ms D k m).
    + split; [by apply (drained_is_acyclic ms D k m)|done].
Qed.

Definition example_graph : gmap WorkspaceKey (gset WorkspaceKey) :=
  {[ "a"%string := {[ "b"%string ]}; "b"%string := {[ "a"%string ]};
     "c"%string := {[ "a"%string ]}; "e"%string := {[ "d"%string ]} ]}.

Lemma waves_level_the_graph_witness :
  exists wave order cycle,
    waves ["a"; "b"; "c"; "d"; "e"]%string example_graph = Some (wave, order, cycle)
    /\ NoDup order /\ order = ["d"; "e"]%string /\ elements cycle = ["c"; "a"; "b"]%string.
Proof.
  destruct (waves_level_the_graph ["a"; "b"; "c"; "d"; "e"]%string example_graph)
    as (wave & order & cycle & E & Hnd & _).
  - apply (bool_decide_unpack _). vm_compute. done.
  - assert (Forall (fun m => deps example_graph m ⊆ list_to_set ["a"; "b"; "c"; "d"; "e"]%string)
      ["a"; "b"; "c"; "d"; "e"]%string) as Hall by (apply (bool_decide_unpack _); vm_compute; done).
    rewrite Forall_forall in Hall. intros m d Hm Hd. apply (Hall m Hm) in Hd.
    by apply elem_of_list_to_set in Hd.
  - exists wave, order, cycle. split; [exact E|]. split; [exact Hnd|].
    assert ((fun r => (r.1.2, elements r.2)) <$> waves ["a"; "b"; "c"; "d"; "e"]%string example_graph
      = Some (["d"; "e"], ["c"; "a"; "b"])%string) as F by (vm_compute; reflexivity).
    rewrite E in F. injection F as Ho Hc. split; [exact Ho|exact Hc].
Defined.
