(* ===== verification/GraphPaths.v ===== *)
(** * Transitive dependents and longest paths

    The theorems on [downstream_counts] and [critical_path] of [Graph.v]: the
    depth-first walk visits exactly the transitive dependents, and the path read
    back from the recorded predecessors is a longest dependency chain. *)

From Stdlib Require Import String.
From S2P Require Import Prelude Graph.

#[global] Open Scope Z_scope.

(** ** Transitive dependents *)

Lemma elem_of_rev (l : list WorkspaceKey) n : n ∈ rev l <-> n ∈ l.
Proof. rewrite !list_elem_of_In. symmetry. apply in_rev. Qed.

Lemma sum_unseen (f : WorkspaceKey -> nat) ms seen node :
  NoDup ms -> node ∈ ms -> node ∉ seen ->
  (sum_list (map f (filter (fun m => m ∉ {[ node ]} ∪ (seen : gset WorkspaceKey)) ms)) + f node
   = sum_list (map f (filter (fun m => m ∉ seen) ms)))%nat.
Proof.
  intros Hms. induction Hms as [|m l Hm Hnd IH]; intros Hin Hs; [by apply elem_of_nil in Hin|].
  rewrite !filter_cons. apply elem_of_cons in Hin as [->|Hin].
  - rewrite decide_False, decide_True by set_solver. simpl.
    rewrite (list_filter_ext_in (fun y => y ∉ {[ m ]} ∪ seen) (fun y => y ∉ seen)); [lia|].
    intros y Hy. assert (y <> m) by (by intros ->). set_solver.
  - specialize (IH Hin Hs). assert (m <> node) by (by intros ->).
    destruct (decide (m ∈ seen)).
    + rewrite !decide_False by set_solver. done.
    + rewrite !decide_True by set_solver. simpl. lia.
Qed.

Section Downstream.
Context (ms : list WorkspaceKey) (D : gmap WorkspaceKey (gset WorkspaceKey)).
Context (Hms : NoDup ms) (Hclosed : forall m d, m ∈ ms -> depends D m d -> d ∈ ms).
Context (start : WorkspaceKey).

(** The dependents that a walk which has seen [seen] may still push. *)
Definition unpushed (seen : gset WorkspaceKey) : nat :=
  sum_list (map (fun m => length (default [] (dependents_of ms D !! m)))
    (filter (fun m => m ∉ seen) ms)).

Lemma unpushed_add seen node :
  node ∈ ms -> node ∉ seen ->
  (unpushed ({[ node ]} ∪ seen) + length (default [] (dependents_of ms D !! node)) = unpushed seen)%nat.
Proof.
  apply (sum_unseen (fun m => length (default [] (dependents_of ms D !! m)))). done.
Qed.

Lemma dependents_elem x n : n ∈ default [] (dependents_of ms D !! x) <-> n ∈ ms /\ depends D n x.
Proof. rewrite dependents_of_spec, list_elem_of_filter. unfold depends. naive_solver. Qed.

Lemma tc_closed (P : WorkspaceKey -> Prop) n :
  (forall x n, x = start \/ P x -> n ∈ ms -> depends D n x -> n = start \/ P n) ->
  n ∈ ms -> tc (depends D) n start -> n = start \/ P n.
Proof.
  intros Hcl Hn Ht. remember start as z eqn:Hz.
  induction Ht as [n z Hd|n d z Hd _ IH]; subst z; [by apply (Hcl start n); auto|].
  apply (Hcl d n); [|done|done]. apply IH; try done. by apply (Hclosed n).
Qed.

Lemma walk_done (seen : gset WorkspaceKey) :
  start ∉ seen ->
  (forall n, n ∈ seen -> n ∈ ms /\ tc (depends D) n start) ->
  (forall x n, x = start \/ x ∈ seen -> n ∈ ms -> depends D n x -> n = start \/ n ∈ seen) ->
  forall n, n ∈ seen <-> n ∈ ms /\ n <> start /\ tc (depends D) n start.
Proof.
  intros Hstart Hin Hcl n. split.
  - intros Hn. destruct (Hin n Hn). split_and!; [done|by intros ->|done].
  - intros (Hn & Hne & Ht). by destruct (tc_closed (fun x => x ∈ seen) n Hcl Hn Ht).
Qed.

Lemma walk_spec fuel (seen : gset WorkspaceKey) (stack : list WorkspaceKey) :
  (length stack + unpushed seen <= fuel)%nat ->
  start ∉ seen ->
  (forall n, n ∈ seen \/ n ∈ stack -> n ∈ ms /\ tc (depends D) n start) ->
  (forall x n, x = start \/ x ∈ seen -> n ∈ ms -> depends D n x ->
     n = start \/ n ∈ seen \/ n ∈ stack) ->
  exists out, walk fuel (dependents_of ms D) start seen stack = Some out
    /\ forall n, n ∈ out <-> n ∈ ms /\ n <> start /\ tc (depends D) n start.
Proof.
  revert seen stack. induction fuel as [|fuel IH]; intros seen [|node stack] Hfuel Hstart Hin Hcl;
    cbn [walk]; try (simpl in Hfuel; lia);
    try (exists seen; split; [done|]; apply walk_done;
         [done|intros n Hn; apply Hin; auto
         |intros x n Hx Hn Hd; destruct (Hcl x n Hx Hn Hd) as [?|[?|[]%elem_of_nil]]; auto]).
  destruct (bool_decide (node = start) || bool_decide (node ∈ seen)) eqn:Hb.
  - apply IH; [simpl in Hfuel; lia|done|intros n Hn; apply Hin; set_solver|].
    intros x n Hx Hn Hd. destruct (Hcl x n Hx Hn Hd) as [?|[?|[->|?]%elem_of_cons]]; auto.
    apply orb_true_iff in Hb as [?%bool_decide_eq_true|?%bool_decide_eq_true]; auto.
  - apply orb_false_iff in Hb as [Hns%bool_decide_eq_false Hnn%bool_decide_eq_false].
    destruct (Hin node) as [Hnode Htc]; [right; by left|].
    apply IH.
    + rewrite length_app, length_rev. pose proof (unpushed_add seen node Hnode Hnn).
      simpl in Hfuel. lia.
    + set_solver.
    + intros n Hn. rewrite elem_of_app, elem_of_rev, dependents_elem in Hn.
      destruct Hn as [[->%elem_of_singleton|Hn]%elem_of_union|[[Hn Hd]|Hn]]; [done| | |].
      * apply Hin. auto.
      * split; [done|]. by eapply tc_l.
      * apply Hin. right. by right.
    + intros x n Hx Hn Hd. rewrite elem_of_app, elem_of_rev, dependents_elem.
      destruct Hx as [->|[->%elem_of_singleton|Hx]%elem_of_union]; [| |].
      * destruct (Hcl start n (or_introl eq_refl) Hn Hd) as [?|[?|[->|?]%elem_of_cons]]; set_solver.
      * auto.
      * destruct (Hcl x n (or_intror Hx) Hn Hd) as [?|[?|[->|?]%elem_of_cons]]; set_solver.
Qed.

Lemma downstream_spec :
  start ∈ ms ->
  exists out, downstream ms (dependents_of ms D) start = Some out
    /\ forall n, n ∈ out <-> n ∈ ms /\ n <> start /\ tc (depends D) n start.
Proof.
  intros Hstart. unfold downstream, walk_fuel. apply walk_spec.
  - rewrite length_rev. unfold unpushed. rewrite (list_filter_ext_in (fun m => m ∉ ∅) (fun _ => True)).
    + assert (forall l : list WorkspaceKey, filter (fun _ => True) l = l) as ->; [|lia].
      induction l as [|y l IH]; [done|]. by rewrite filter_cons, decide_True, IH.
    + set_solver.
  - set_solver.
  - intros n [?|Hn]; [set_solver|]. rewrite elem_of_rev, dependents_elem in Hn.
    split; [naive_solver|]. apply tc_once. naive_solver.
  - intros x n [->|?] Hn Hd; [|set_solver]. right. right.
    rewrite elem_of_rev, dependents_elem. done.
Qed.
End Downstream.

Lemma count_downstream_spec ms D starts :
  NoDup ms -> (forall m d, m ∈ ms -> depends D m d -> d ∈ ms) ->
  (forall m, m ∈ starts -> m ∈ ms) ->
  exists out, count_downstream ms (dependents_of ms D) starts = Some out
    /\ forall m, m ∈ starts -> exists X : gset WorkspaceKey,
         (forall n, n ∈ X <-> n ∈ ms /\ n <> m /\ tc (depends D) n m)
         /\ out !! m = Some (as_u32 (size X)).
Proof.
  intros Hms Hclosed. induction starts as [|s starts IH]; intros Hsub; cbn [count_downstream].
  { exists ∅. split; [done|]. intros m Hm. by apply elem_of_nil in Hm. }
  destruct IH as (out & -> & Hout); [intros m Hm; apply Hsub; by right|].
  destruct (downstream_spec ms D Hms Hclosed s) as (X & -> & HX); [apply Hsub; by left|].
  eexists. split; [done|]. intros m Hm. destruct (decide (m = s)) as [->|Hne].
  - exists X. split; [done|]. by rewrite lookup_insert_eq.
  - apply elem_of_cons in Hm as [->|Hm]; [done|]. destruct (Hout m Hm) as (Y & HY & E).
    exists Y. split; [done|]. by rewrite lookup_insert_ne.
Qed.

(** [downstream_counts] is the number of other members that transitively depend
    on a member.  The depth-first walks end (each dependent is pushed at most once
    per member expanded), cycles included, and each count is the size of exactly
    that set. *)
Theorem downstream_counts_transitive ms D :
  NoDup ms -> (forall m d, m ∈ ms -> depends D m d -> d ∈ ms) ->
  exists out, downstream_counts ms D = Some out
    /\ forall m, m ∈ ms -> exists X : gset WorkspaceKey,
         (forall n, n ∈ X <-> n ∈ ms /\ n <> m /\ tc (depends D) n m)
         /\ out !! m = Some (as_u32 (size X)).
Proof. intros Hms Hclosed. unfold downstream_counts. by apply count_downstream_spec. Qed.

Lemma downstream_counts_transitive_witness :
  exists out, downstream_counts ["a"; "b"; "c"; "d"; "e"]%string example_graph = Some out
    /\ map_to_list out ≡ₚ [("a", 2); ("b", 2); ("c", 0); ("d", 1); ("e", 0)]%string
    /\ exists X : gset WorkspaceKey, out !! "a"%string = Some (as_u32 (size X)) /\ "c"%string ∈ X.
Proof.
  destruct (downstream_counts_transitive ["a"; "b"; "c"; "d"; "e"]%string example_graph)
    as (out & E & Hout).
  - apply (bool_decide_unpack _). vm_compute. done.
  - assert (Forall (fun m => deps example_graph m ⊆ list_to_set ["a"; "b"; "c"; "d"; "e"]%string)
      ["a"; "b"; "c"; "d"; "e"]%string) as Hall by (apply (bool_decide_unpack _); vm_compute; done).
    rewrite Forall_forall in Hall. intros m d Hm Hd. apply (Hall m Hm) in Hd.
    by apply elem_of_list_to_set in Hd.
  - exists out. split; [exact E|]. split.
    + assert ((fun o => bool_decide (map_to_list o
        ≡ₚ [("a", 2); ("b", 2); ("c", 0); ("d", 1); ("e", 0)]%string))
        <$> downstream_counts ["a"; "b"; "c"; "d"; "e"]%string example_graph = Some true) as F
        by (vm_compute; reflexivity).
      rewrite E in F. injection F as F. by apply bool_decide_eq_true in F.
    + destruct (Hout "a"%string) as (X & HX & Ha); [by left|]. exists X. split; [exact Ha|].
      apply HX. split; [set_solver|]. split; [done|]. apply tc_once.
      change ("a"%string ∈ deps example_graph "c"%string). apply (bool_decide_unpack _). vm_compute. done.
Defined.

(** ** The longest path *)

Lemma candidate_spec best l acc :
  let r := fold_left (candidate best) l acc in
  acc.1 <= r.1
  /\ (forall d, d ∈ l -> default 0 (best !! d) + 1 <= r.1)
  /\ (r = acc \/ exists d, d ∈ l /\ r = (default 0 (best !! d) + 1, Some d)).
Proof.
  revert acc. induction l as [|d l IH]; intros acc; cbn [fold_left].
  { split_and!; [lia|set_solver|by left]. }
  destruct (IH (candidate best acc d)) as (I1 & I2 & I3).
  assert (acc.1 <= (candidate best acc d).1 /\ default 0 (best !! d) + 1 <= (candidate best acc d).1) as [L1 L2]
    by (unfold candidate; destruct (Z.ltb_spec acc.1 (default 0 (best !! d) + 1)); simpl; lia).
  split_and!; [lia| |].
  - intros e [->|He]%elem_of_cons; [lia|by apply I2].
  - destruct I3 as [->|(e & He & ->)]; [|right; exists e; set_solver].
    unfold candidate. destruct (_ <? _); [right; exists d; set_solver|by left].
Qed.

(** What the loop knows of the members [o] it has passed. *)
Record paths_ok (D : gmap WorkspaceKey (gset WorkspaceKey)) (o : list WorkspaceKey) (p : Paths)
    : Prop := {
  po_out m : m ∉ o -> best_len p !! m = None /\ prev p !! m = None;
  po_in m : m ∈ o -> exists len from,
    best_len p !! m = Some len /\ prev p !! m = Some from
    /\ 1 <= len <= Z.of_nat (length o)
    /\ (forall d, depends D m d -> exists ld, best_len p !! d = Some ld /\ ld + 1 <= len)
    /\ match from with
       | None => len = 1
       | Some d => depends D m d /\ best_len p !! d = Some (len - 1)
       end;
}.

Lemma extend_path_ok D o p node :
  paths_ok D o p -> node ∉ o -> (forall d, depends D node d -> d ∈ o) ->
  paths_ok D (o ++ [node]) (extend_path D p node).
Proof.
  intros [Hout Hin] Hnode Hdeps. unfold extend_path.
  destruct (candidate_spec (best_len p) (deps_of D node) (1, None)) as (C1 & C2 & C3).
  destruct (fold_left _ _ _) as [len from]. cbn [fst snd] in *.
  assert (forall d, depends D node d -> exists ld, best_len p !! d = Some ld
    /\ ld + 1 <= len /\ 1 <= ld <= Z.of_nat (length o)) as Hd.
  { intros d Hd. destruct (Hin d (Hdeps d Hd)) as (ld & _ & Hld & _ & Hb & _). exists ld.
    split_and!; [done| |lia..]. specialize (C2 d). rewrite Hld in C2. apply C2. by apply deps_of_elem. }
  assert (forall d, d ∈ o -> d <> node) as Hne by (intros d Ho ->; done).
  split; cbn [best_len prev].
  - intros m Hm. rewrite !lookup_insert_ne by set_solver. apply Hout. set_solver.
  - intros m [Hm| ->%list_elem_of_singleton]%elem_of_app.
    + destruct (Hin m Hm) as (l & f & Hl & Hf & Hb & Hall & Hfrom). exists l, f.
      rewrite !lookup_insert_ne by (apply not_eq_sym, Hne, Hm). split_and!; [done|done|lia|..].
      * rewrite length_app. simpl. lia.
      * intros d Hdd. destruct (Hall d Hdd) as (ld & Hld & Hle). exists ld.
        rewrite lookup_insert_ne; [done|]. intros ->. by destruct (Hout d Hnode) as [E _]; congruence.
      * destruct f as [d|]; [|done]. destruct Hfrom as [? Hld]. split; [done|].
        rewrite lookup_insert_ne; [done|]. intros ->. by destruct (Hout d Hnode) as [E _]; congruence.
    + exists len, from. rewrite !lookup_insert_eq. split_and!; [done|done|lia|..].
      * rewrite length_app. simpl. destruct C3 as [[= -> ->]|(d & Hdd & [= -> ->])]; [lia|].
        apply deps_of_elem in Hdd. destruct (Hd d Hdd) as (ld & -> & _ & ?). simpl. lia.
      * intros d Hdd. destruct (Hd d Hdd) as (ld & Hld & Hle & _). exists ld.
        rewrite lookup_insert_ne; [done|]. apply not_eq_sym, Hne, Hdeps, Hdd.
      * destruct C3 as [[= -> ->]|(d & Hdd & [= -> ->])]; [done|].
        apply deps_of_elem in Hdd. destruct (Hd d Hdd) as (ld & Hld & _ & _). split; [done|].
        rewrite lookup_insert_ne by (apply not_eq_sym, Hne, Hdeps, Hdd). rewrite Hld. simpl. f_equal. lia.
Qed.

Lemma paths_all_ok D order o p :
  paths_ok D o p -> NoDup (o ++ order) ->
  (forall i m d, (o ++ order) !! i = Some m -> depends D m d -> d ∈ take i (o ++ order)) ->
  paths_ok D (o ++ order) (fold_left (extend_path D) order p).
Proof.
  revert o p. induction order as [|node order IH]; intros o p Hp Hnd Htopo; cbn [fold_left].
  { by rewrite app_nil_r. }
  assert (o ++ node :: order = (o ++ [node]) ++ order) as E by (by rewrite <- app_assoc).
  rewrite E in *. apply IH; [|done|done]. apply extend_path_ok; [done| |].
  - apply NoDup_app in Hnd as (Hnd & _ & _). apply NoDup_app in Hnd as (_ & Hdj & _).
    intros Hn. apply (Hdj node Hn). by left.
  - intros d Hd. specialize (Htopo (length o) node d). rewrite <- E in Htopo.
    rewrite list_lookup_middle, take_app_length in Htopo by done. by apply Htopo.
Qed.

(** Consecutive members, root first. *)
Definition chain (D : gmap WorkspaceKey (gset WorkspaceKey)) (l : list WorkspaceKey) : Prop :=
  forall i x y, l !! i = Some x -> l !! S i = Some y -> depends D y x.

Lemma chain_cons D x y l : depends D y x -> chain D (y :: l) -> chain D (x :: y :: l).
Proof. intros Hd Hc [|i] a b Ha Hb; simpl in *; [congruence|by apply (Hc i)]. Qed.

Lemma path_to_spec D o p fuel cur path len :
  paths_ok D o p -> cur ∈ o -> best_len p !! cur = Some len ->
  len <= Z.of_nat fuel + 1 ->
  (forall m, m ∈ cur :: path -> m ∈ o) -> chain D (cur :: path) ->
  exists q, path_to fuel (prev p) cur (cur :: path) = Some q
    /\ chain D q /\ (forall m, m ∈ q -> m ∈ o)
    /\ Z.of_nat (length q) = len + Z.of_nat (length path).
Proof.
  intros Hp. revert cur path len. induction fuel as [|fuel IH]; intros cur path len Hcur Hlen Hfuel Hin Hc;
    destruct (po_in _ _ _ Hp cur Hcur) as (len' & from & Hl & Hf & Hb & _ & Hfrom);
    assert (len' = len) as -> by congruence; cbn [path_to]; rewrite Hf.
  - destruct from as [d|].
    + destruct Hfrom as [Hd Hld]. exfalso.
      assert (d ∈ o) as Hdo.
      { destruct (decide (d ∈ o)) as [|Hd']; [done|]. destruct (po_out _ _ _ Hp d Hd'). congruence. }
      destruct (po_in _ _ _ Hp d Hdo) as (ld & _ & Hld' & _ & Hb' & _).
      rewrite Hld in Hld'. injection Hld' as <-. lia.
    + exists (cur :: path). split_and!; [done|done|done|simpl; lia].
  - destruct from as [d|]; [|exists (cur :: path); split_and!; [done|done|done|simpl; lia]].
    destruct Hfrom as [Hd Hld].
    assert (d ∈ o) as Hdo.
    { destruct (decide (d ∈ o)) as [|Hd']; [done|]. destruct (po_out _ _ _ Hp d Hd'). congruence. }
    destruct (IH d (cur :: path) (len - 1) Hdo Hld) as (q & Hq & ? & ? & Hlenq); [lia| | |].
    + intros m [->|Hm]%elem_of_cons; [done|by apply Hin].
    + by apply chain_cons.
    + exists q. split_and!; [done|done|done|]. rewrite Hlenq. simpl. lia.
Qed.

(** Every chain is at most as long as the path recorded for its end. *)
Lemma chain_bounded D o p x l :
  paths_ok D o p -> chain D (x :: l) -> (forall m, m ∈ x :: l -> m ∈ o) ->
  exists y lx ly, y ∈ o /\ best_len p !! x = Some lx /\ best_len p !! y = Some ly
    /\ lx + Z.of_nat (length l) <= ly.
Proof.
  intros Hp. revert x. induction l as [|z l IH]; intros x Hc Hin.
  - destruct (po_in _ _ _ Hp x) as (lx & _ & Hx & _); [set_solver|].
    exists x, lx, lx. split_and!; [set_solver|done|done|simpl; lia].
  - destruct (IH z) as (y & lz & ly & Hy & Hz & Hly & Hle).
    + intros i a b Ha Hb. by apply (Hc (S i)).
    + intros m Hm. apply Hin. by right.
    + destruct (po_in _ _ _ Hp z) as (lz' & _ & Hz' & _ & _ & Hall & _); [set_solver|].
      destruct (Hall x) as (lx & Hx & Hxz); [by apply (Hc 0%nat)|].
      exists y, lx, ly. split_and!; [done|done|done|]. assert (lz' = lz) by congruence. simpl. lia.
Qed.

#[export] Instance longer_trans : Transitive longer.
Proof.
  intros [a x] [b y] [c z]. unfold longer; simpl. intros [?|[-> ?]] [?|[-> ?]]; [lia|lia|lia|].
  right. split; [done|by etrans].
Qed.

#[export] Instance longer_total : Total longer.
Proof.
  intros [a x] [b y]. unfold longer; simpl. destruct (Z.lt_trichotomy x y) as [?|[->|?]]; [auto| |auto].
  destruct (total String.le a b); auto.
Qed.

(** The end of the path has the longest recorded length. *)
Lemma longest_end (best : gmap WorkspaceKey Z) e le rest :
  merge_sort longer (map_to_list best) = (e, le) :: rest ->
  best !! e = Some le /\ forall m l, best !! m = Some l -> l <= le.
Proof.
  intros E. assert (StronglySorted longer ((e, le) :: rest)) as Hs
    by (rewrite <- E; apply StronglySorted_merge_sort; apply _).
  assert (forall m l, (m, l) ∈ (e, le) :: rest <-> best !! m = Some l) as Hin.
  { intros m l. rewrite <- E, merge_sort_Permutation. apply elem_of_map_to_list. }
  split; [apply Hin; by left|]. intros m l Hm. apply Hin in Hm as [[= -> ->]|Hm]%elem_of_cons; [done|].
  apply StronglySorted_inv in Hs as [_ Hs]. rewrite Forall_forall in Hs.
  destruct (Hs _ Hm) as [?|[? _]]; simpl in *; lia.
Qed.

(** The path is read back in full, and [chain_bounded] bounds every other. *)
Lemma critical_path_spec ms D wave order cycle :
  NoDup ms -> (forall m d, m ∈ ms -> depends D m d -> d ∈ ms) ->
  waves ms D = Some (wave, order, cycle) ->
  exists path, critical_path order D = Some path
    /\ chain D path /\ (forall m, m ∈ path -> m ∈ order)
    /\ (forall l, chain D l -> (forall m, m ∈ l -> m ∈ order) -> (length l <= length path)%nat).
Proof.
  intros Hms Hclosed Hw. destruct (waves_total ms D Hms) as (k & E & Hk & Hq).
  rewrite E in Hw. injection Hw as <- <- <-. clear E.
  assert (paths_ok D (order k) (fold_left (extend_path D) (order k) (mkPaths ∅ ∅))) as Hp.
  { apply (paths_all_ok D (order k) []).
    - split; cbn [best_len prev]; [intros m _; by rewrite !lookup_empty|]. intros m Hm. by apply elem_of_nil in Hm.
    - pose proof (dr_NoDup _ _ _ Hk) as Hnd. by apply NoDup_app in Hnd as (? & _ & _).
    - intros i m d Hi Hd. pose proof (dr_topo _ _ _ Hk i m Hi d Hd) as Ht.
      by apply elem_of_list_to_set in Ht. }
  unfold critical_path. set (p := fold_left _ _ _) in *.
  destruct (merge_sort longer (map_to_list (best_len p))) as [|[e le] rest] eqn:Es.
  - exists []. split_and!; [done|by intros i x y Hx|set_solver|]. intros [|x l] _ Hin; [simpl; lia|].
    exfalso. destruct (po_in _ _ _ Hp x) as (lx & _ & Hx & _); [apply Hin; by left|].
    apply elem_of_map_to_list in Hx. rewrite <- (merge_sort_Permutation longer), Es in Hx.
    by apply elem_of_nil in Hx.
  - apply longest_end in Es as [He Hmax].
    assert (e ∈ order k) as Heo.
    { destruct (decide (e ∈ order k)) as [|Hn]; [done|]. destruct (po_out _ _ _ Hp e Hn). congruence. }
    destruct (path_to_spec D (order k) p (length (order k)) e [] le Hp Heo He) as (q & Hpath & Hc & Hin & Hlen).
    + destruct (po_in _ _ _ Hp e Heo) as (le' & _ & He' & _ & Hb & _).
      assert (le' = le) by congruence. lia.
    + set_solver.
    + by intros [|i] x y Hx Hy.
    + exists q. split_and!; [done|done|done|]. intros [|x l] Hcl Hinl; [simpl; lia|].
      destruct (chain_bounded D (order k) p x l Hp Hcl Hinl) as (y & lx & ly & Hy & Hx & Hly & Hle).
      specialize (Hmax y ly Hly). simpl in *.
      destruct (po_in _ _ _ Hp x) as (lx' & _ & Hx' & _ & Hb & _); [apply Hinl; by left|].
      assert (lx' = lx) by congruence. lia.
Qed.

(** the critical path is a longest dependency chain of the drained members: it
    is found, it runs from root to leaf along direct dependencies, and no chain of
    drained members is longer.  Without a cycle the drained members are all
    members; with one the path is not empty as documented but runs over the
    members outside the cycle set. *)
Theorem critical_path_is_longest ms D wave order cycle :
  NoDup ms -> (forall m d, m ∈ ms -> depends D m d -> d ∈ ms) ->
  waves ms D = Some (wave, order, cycle) ->
  exists path, critical_path order D = Some path
    /\ chain D path /\ (forall m, m ∈ path -> m ∈ order)
    /\ (forall l, chain D l -> (forall m, m ∈ l -> m ∈ order) -> (length l <= length path)%nat).
Proof. apply critical_path_spec. Qed.

Lemma critical_path_is_longest_witness :
  exists wave order cycle path,
    waves ["a"; "b"; "c"; "d"; "e"]%string example_graph = Some (wave, order, cycle)
    /\ critical_path order example_graph = Some path /\ chain example_graph path
    /\ path = ["d"; "e"]%string.
Proof.
  destruct (waves ["a"; "b"; "c"; "d"; "e"]%string example_graph) as [[[wave order] cycle]|] eqn:E;
    [|exfalso; revert E; vm_compute; done].
  destruct (critical_path_is_longest ["a"; "b"; "c"; "d"; "e"]%string example_graph wave order cycle)
    as (path & Hp & Hc & _); [| |exact E|].
  - apply (bool_decide_unpack _). vm_compute. done.
  - assert (Forall (fun m => deps example_graph m ⊆ list_to_set ["a"; "b"; "c"; "d"; "e"]%string)
      ["a"; "b"; "c"; "d"; "e"]%string) as Hall by (apply (bool_decide_unpack _); vm_compute; done).
    rewrite Forall_forall in Hall. intros m d Hm Hd. apply (Hall m Hm) in Hd.
    by apply elem_of_list_to_set in Hd.
  - exists wave, order, cycle, path. split; [reflexivity|]. split; [exact Hp|]. split; [exact Hc|].
    assert (match waves ["a"; "b"; "c"; "d"; "e"]%string example_graph with
      | Some (_, order, _) => critical_path order example_graph | None => None end
      = Some ["d"; "e"]%string) as F by (vm_compute; reflexivity).
    rewrite E, Hp in F. by injection F as ->.
Defined.
