(* ===== verification/Epics.v ===== *)
(** * The epic resolver ([src/crates/server/src/epics.rs])

    The pure part of the resolver: membership and the dependency graph of one epic
    ([resolved_graph]), each member's blockers and status, the full snapshot
    ([resolve]), what changed between two snapshots ([diff]), and the decisions
    taken from them (the merge-after hold, the release fan-out, the dispatch,
    review and merge-arming plans).  The wire types are those of
    [src/crates/ipc/src/lib.rs], the record and its policies those of
    [src/crates/core/src/epic.rs] and [src/crates/core/src/policy.rs].

    [None] stands for a panic of the graph part or for exhausted fuel, neither of
    which happens (see [Graph.v]).  The blocker-age latch, a closure over a map in
    the code, is a state threaded through [blockers_for]. *)

From Stdlib Require Import String.
From S2P Require Import Prelude Text CoreTask Graph.
From S2P Require StateMachine.

#[global] Open Scope Z_scope.

Notation AgentState := StateMachine.AgentState.

#[export] Existing Instance StateMachine.AgentState_eq_dec.

(** ** Wire types *)

Inductive BlockerKind : Type :=
| Dependency | External | Decision_ | Credential | Review | MergeOrder | Contract | Cycle | Other.

#[export] Instance BlockerKind_eq_dec : EqDecision BlockerKind.
Proof. solve_decision. Defined.

(** [BlockerKind::as_str] *)
Definition as_str (k : BlockerKind) : string :=
  match k with
  | Dependency => "dependency"
  | External => "external"
  | Decision_ => "decision"
  | Credential => "credential"
  | Review => "review"
  | MergeOrder => "mergeorder"
  | Contract => "contract"
  | Cycle => "cycle"
  | Other => "other"
  end.

(** [BlockerKind::parse] *)
Definition parse_kind (s : string) : BlockerKind :=
  let s := to_ascii_lowercase (trim s) in
  if String.eqb s "dependency" then Dependency
  else if String.eqb s "external" then External
  else if String.eqb s "decision" then Decision_
  else if String.eqb s "credential" then Credential
  else if String.eqb s "review" then Review
  else if String.eqb s "mergeorder" || String.eqb s "merge-order" then MergeOrder
  else if String.eqb s "contract" then Contract
  else if String.eqb s "cycle" then Cycle
  else Other.

#[export] Instance BlockerKind_countable : Countable BlockerKind.
Proof.
  refine (inj_countable' as_str parse_kind _). by intros []; vm_compute.
Defined.

Inductive BlockerOwner : Type :=
| Operator
| OAgent (workspace : WorkspaceKey)
| OExternal (who : string).

#[export] Instance BlockerOwner_eq_dec : EqDecision BlockerOwner.
Proof. solve_decision. Defined.

Record Blocker : Type := mkBlocker {
  b_kind : BlockerKind;
  reason : string;
  owner : BlockerOwner;
  since : Z;
  holds : Z;
}.

#[export] Instance Blocker_eq_dec : EqDecision Blocker.
Proof. solve_decision. Defined.

Inductive EdgeKind : Type := EBlocks | EMergeAfter | EContract.

Record EpicEdge : Type := mkEdge { from : WorkspaceKey; to : WorkspaceKey; e_kind : EdgeKind }.

Record MergeOrderEntry : Type := mkEntry { mo_key : WorkspaceKey; mo_held_by : list WorkspaceKey }.

Inductive EpicMemberStatus : Type :=
| Blocked
| Ready
| Claimed
| InProgress
| Asking
| PrOpen (ci_failing changes_requested : bool)
| SMergeable (held_by : list WorkspaceKey)
| Done
| Failed
| ReviewBlocked.

#[export] Instance EpicMemberStatus_eq_dec : EqDecision EpicMemberStatus.
Proof. solve_decision. Defined.

Record EpicMember : Type := mkMember {
  em_key : WorkspaceKey;
  em_wave : Z;
  em_status : EpicMemberStatus;
  em_blocked_by : list WorkspaceKey;
  external_blockers : list TaskId;
  blockers : list Blocker;
  blocked_reason : option string;
}.

Inductive PolicyArm : Type := ArmDefault | Arm | Disarm.

#[export] Instance PolicyArm_eq_dec : EqDecision PolicyArm.
Proof. solve_decision. Defined.

Record EpicPolicies : Type := mkPolicies {
  auto_dispatch : PolicyArm;
  auto_review : PolicyArm;
  merge_in_order : PolicyArm;
}.

Inductive EpicLatch : Type := AutoDispatch | AutoReview | MergeInOrder.

Definition arm (p : EpicPolicies) (latch : EpicLatch) : PolicyArm :=
  match latch with
  | AutoDispatch => auto_dispatch p
  | AutoReview => auto_review p
  | MergeInOrder => merge_in_order p
  end.

Definition armed (p : EpicPolicies) (latch : EpicLatch) : bool := bool_decide (arm p latch = Arm).

Record EpicSnapshot : Type := mkSnapshot {
  sn_key : string;
  sn_name : string;
  members : list EpicMember;
  done : Z;
  total : Z;
  ready : Z;
  blocked : Z;
  asking : Z;
  failing : Z;
  blockers_needing_operator : Z;
  sn_cycle : bool;
  sn_critical_path : list WorkspaceKey;
  edges : list EpicEdge;
  sn_merge_order : list MergeOrderEntry;
  sn_policies : EpicPolicies;
  computed_at : Z;
}.

Inductive EpicDelta : Type :=
| Unblocked (key : WorkspaceKey) (because : list WorkspaceKey)
| StatusChanged (key : WorkspaceKey) (from_ to_ : EpicMemberStatus)
| BlockerAdded (key : WorkspaceKey) (blocker : Blocker)
| BlockerCleared (key : WorkspaceKey) (k : BlockerKind) (why : string)
| DStalled (why : string)
| Held (key : WorkspaceKey) (by_ : list WorkspaceKey)
| Released (key : WorkspaceKey)
| DCompleted
| Reviewed (key : WorkspaceKey) (blocking : bool).

Record EpicRecord : Type := mkRecord {
  r_key : string;
  r_name : string;
  anchor : option TaskId;
  r_members : list WorkspaceKey;
  publish_status_labels : bool;
  implied_merge_after : bool;
  policies : EpicPolicies;
  archived : bool;
}.

Definition EPIC_LABEL_PREFIX : string := "epic:".
Definition project_label (key : string) : string := String.append EPIC_LABEL_PREFIX key.

(** ** The resolved graph *)

Record Resolved : Type := mkResolved {
  rs_members : list WorkspaceKey;
  by_key : gmap WorkspaceKey Workspace;
  depends_on : gmap WorkspaceKey (gset WorkspaceKey);
  rs_merge_after : gmap WorkspaceKey (gset WorkspaceKey);
  external : gmap WorkspaceKey (gset TaskId);
  rs_done : gmap WorkspaceKey bool;
  landing_settled : gmap WorkspaceKey bool;
  has_pr : gmap WorkspaceKey bool;
  rs_contracts : gmap WorkspaceKey (gset WorkspaceKey);
}.

Definition tasks_of (ws : Workspace) : list Task :=
  match pr ws with Some p => [p] | None => [] end ++ gh_issues ws ++ linear_issues ws.

(** The walk up the parent chain; [fuel] bounds its length. *)
Fixpoint climb (fuel : nat) (anchor : TaskId) (parents : gmap TaskId TaskId)
    (visited : gset TaskId) (cur : option TaskId) : bool :=
  match cur, fuel with
  | None, _ | _, O => false
  | Some id, S fuel =>
      if bool_decide (id = anchor) then true
      else if bool_decide (id ∈ visited) then false
      else climb fuel anchor parents ({[ id ]} ∪ visited) (parents !! id)
  end.

Definition reaches_anchor (start anchor : TaskId) (parents : gmap TaskId TaskId) : bool :=
  climb (S (S (size parents))) anchor parents ∅ (parents !! start).

Definition is_terminal_state (s : TaskState) : bool :=
  match s with Merged | Closed => true | _ => false end.

Definition member_done (ws : Workspace) : bool :=
  match pr ws with
  | Some p => bool_decide (state p = Merged)
  | None => match tasks_of ws with t :: _ => is_terminal_state (state t) | [] => false end
  end.

Definition landing_settled_for (ws : Workspace) : bool :=
  match pr ws with
  | Some p => is_terminal_state (state p)
  | None => match tasks_of ws with t :: _ => is_terminal_state (state t) | [] => false end
  end.

Definition has_live_pr (ws : Workspace) : bool :=
  match pr ws with
  | Some p => negb (bool_decide (state p = Merged)) && negb (bool_decide (state p = Closed))
  | None => false
  end.

Definition workspaces_by_key (workspaces : list Workspace) : gmap WorkspaceKey Workspace :=
  insert_all (map (fun w => (ws_key w, w)) workspaces) ∅.

Definition task_workspaces (workspaces : list Workspace) : gmap TaskId WorkspaceKey :=
  insert_all (concat (map (fun w => map (fun t => (id t, ws_key w)) (tasks_of w)) workspaces)) ∅.

Definition task_parents (workspaces : list Workspace) : gmap TaskId TaskId :=
  insert_all
    (concat (map (fun w =>
       omap (fun t => match parent t with Some p => Some (id t, p) | None => None end) (tasks_of w))
       workspaces)) ∅.

(** [if seen.insert(key) { members.push(key) }] for each of a list. *)
Definition push_new (members keys : list WorkspaceKey) : list WorkspaceKey :=
  fold_left (fun members key => if bool_decide (key ∈ members) then members else members ++ [key])
    keys members.

Definition anchored (a : TaskId) (parents : gmap TaskId TaskId) (ws : Workspace) : bool :=
  existsb (fun t => reaches_anchor (id t) a parents) (tasks_of ws).

Definition labeled (label : string) (ws : Workspace) : bool :=
  existsb (fun t => existsb (fun l => eq_ignore_ascii_case l label) (labels t)) (tasks_of ws).

Definition sorted_keys_where (f : Workspace -> bool) (workspaces : list Workspace)
    : list WorkspaceKey :=
  merge_sort String.le (map ws_key (List.filter f workspaces)).

Definition epic_members (record : EpicRecord) (workspaces : list Workspace) : list WorkspaceKey :=
  let explicit :=
    filter (fun key => is_Some (workspaces_by_key workspaces !! key)) (r_members record) in
  let members := push_new [] explicit in
  let members :=
    match anchor record with
    | Some a => push_new members (sorted_keys_where (anchored a (task_parents workspaces)) workspaces)
    | None => members
    end in
  push_new members (sorted_keys_where (labeled (project_label (r_key record))) workspaces).

(** How a linked task is classified for the member [key]. *)
Inductive LinkClass : Type := OwnTask | OfMember (other : WorkspaceKey) | Outside (t : TaskId).

Definition classify (task_ws : gmap TaskId WorkspaceKey) (member_set : gset WorkspaceKey)
    (key : WorkspaceKey) (t : TaskId) : LinkClass :=
  match task_ws !! t with
  | Some other =>
      if bool_decide (other = key) then OwnTask
      else if bool_decide (other ∈ member_set) then OfMember other
      else Outside t
  | None => Outside t
  end.

Definition class_member (c : LinkClass) : option WorkspaceKey :=
  match c with OfMember other => Some other | _ => None end.
Definition class_outside (c : LinkClass) : option TaskId :=
  match c with Outside t => Some t | _ => None end.

(** The members that one kind of link of a workspace's tasks points to. *)
Definition linked_members (class : TaskId -> LinkClass) (links : Task -> list TaskId)
    (ws : Workspace) : gset WorkspaceKey :=
  list_to_set (omap (fun t => class_member (class t)) (concat (map links (tasks_of ws)))).

Definition external_links (class : TaskId -> LinkClass) (ws : Workspace) : gset TaskId :=
  list_to_set (omap (fun t => class_outside (class t)) (concat (map blocked_by (tasks_of ws)))).

(** A map with one entry per member. *)
Definition per_member {A} (members : list WorkspaceKey) (by_key : gmap WorkspaceKey Workspace)
    (f : WorkspaceKey -> Workspace -> A) : gmap WorkspaceKey A :=
  insert_all
    (omap (fun key => match by_key !! key with Some ws => Some (key, f key ws) | None => None end)
       members) ∅.

Definition resolved_graph (record : EpicRecord) (workspaces : list Workspace) : Resolved :=
  let by_key := workspaces_by_key workspaces in
  let task_ws := task_workspaces workspaces in
  let members := epic_members record workspaces in
  let class := classify task_ws (list_to_set members) in
  let each {A} (f : WorkspaceKey -> Workspace -> A) := per_member members by_key f in
  let deps key ws := linked_members (class key) blocked_by ws in
  mkResolved members by_key
    (each deps)
    (each (fun key ws =>
       linked_members (class key) merge_after ws
       ∪ (if implied_merge_after record then deps key ws else ∅)))
    (each (fun key ws => external_links (class key) ws))
    (each (fun _ ws => member_done ws))
    (each (fun _ ws => landing_settled_for ws))
    (each (fun _ ws => has_live_pr ws))
    (each (fun key ws => linked_members (class key) contracts ws)).

(** ** Blockers and status *)

(** The blocker-age latch: when a blocker was first seen, and which were seen in
    this recompute. *)
Notation LatchKey := (WorkspaceKey * BlockerKind * string)%type.

Record SinceLatch : Type := mkLatch { ages : gmap LatchKey Z; seen : gset LatchKey }.

(** [since_latch.entry(key).or_insert(now)] *)
Definition since_at (now : Z) (key : WorkspaceKey) (kind : BlockerKind) (why : string)
    (latch : SinceLatch) : Z * SinceLatch :=
  let k := (key, kind, why) in
  match ages latch !! k with
  | Some at_ => (at_, mkLatch (ages latch) ({[ k ]} ∪ seen latch))
  | None => (now, mkLatch (<[k := now]> (ages latch)) ({[ k ]} ∪ seen latch))
  end.

Definition push_blocker (now : Z) (key : WorkspaceKey) (kind : BlockerKind) (why : string)
    (who : BlockerOwner) (holds : Z) (acc : list Blocker * SinceLatch) : list Blocker * SinceLatch :=
  let '(at_, latch) := since_at now key kind why acc.2 in
  (acc.1 ++ [mkBlocker kind why who at_ holds], latch).

(** [labels.find_map(strip_prefix("blocked:").map(parse))] *)
Definition declared_kind (t : Task) : option BlockerKind :=
  head (omap (fun l => parse_kind <$> strip_prefix "blocked:"%string l) (labels t)).

Record DeclaredBlocker : Type := mkDeclared {
  d_workspace : WorkspaceKey;
  d_reason : string;
  d_kind : BlockerKind;
  d_owner : BlockerOwner;
  d_since : Z;
}.

Definition member_name (by_key : gmap WorkspaceKey Workspace) (key : WorkspaceKey) : string :=
  match by_key !! key with Some w => ws_name w | None => key end.

(** By kind keyword, then by reason. *)
Definition blocker_le (a b : Blocker) : Prop :=
  (as_str (b_kind a) <> as_str (b_kind b) /\ String.le (as_str (b_kind a)) (as_str (b_kind b)))
  \/ (as_str (b_kind a) = as_str (b_kind b) /\ String.le (reason a) (reason b)).

#[export] Instance blocker_le_dec : RelDecision blocker_le.
Proof. intros a b. unfold blocker_le. apply _. Defined.

(** [dedup_by]: of consecutive equal ones the first stays. *)
Fixpoint dedup_from (prev : Blocker) (l : list Blocker) : list Blocker :=
  match l with
  | [] => []
  | b :: l =>
      if bool_decide (b_kind b = b_kind prev /\ reason b = reason prev)
      then dedup_from prev l
      else b :: dedup_from b l
  end.

Definition dedup_blockers (l : list Blocker) : list Blocker :=
  match l with [] => [] | b :: l => b :: dedup_from b l end.

Definition set_elements {A} `{Countable A} (m : gmap WorkspaceKey (gset A)) (key : WorkspaceKey)
    (sort : gset A -> list A) : list A :=
  match m !! key with Some s => sort s | None => [] end.

Definition sorted_tasks (s : gset TaskId) : list TaskId := merge_sort task_id_le (elements s).

Definition blockers_for (now : Z) (key : WorkspaceKey) (r : Resolved) (in_cycle : bool) (holds : Z)
    (declared : option DeclaredBlocker) (published_contracts : option (gset WorkspaceKey))
    (latch : SinceLatch) : list Blocker * SinceLatch :=
  let push kind why who := push_blocker now key kind why who holds in
  let acc := ([], latch) in
  let acc := if in_cycle then push Cycle "dependency cycle"%string Operator acc else acc in
  let acc := fold_left (fun acc dep =>
      if default false (rs_done r !! dep) then acc
      else push Dependency (String.append "waiting on " (member_name (by_key r) dep)) (OAgent dep) acc)
    (set_elements (depends_on r) key sorted_elements) acc in
  let acc := fold_left (fun acc producer =>
      if is_some_and (fun published => bool_decide (producer ∈ published)) published_contracts then acc
      else push Contract (String.append "waiting on contract from " (member_name (by_key r) producer))
             (OAgent producer) acc)
    (set_elements (rs_contracts r) key sorted_elements) acc in
  let acc := fold_left (fun acc ext =>
      push External (String.append "waiting on " (show_task_id ext)) (OExternal (show_task_id ext)) acc)
    (set_elements (external r) key sorted_tasks) acc in
  let acc := fold_left (fun acc t =>
      match blocked_on t with
      | Some why =>
          if is_empty (trim why) then acc
          else push (default Decision_ (declared_kind t)) why Operator acc
      | None => acc
      end)
    (match by_key r !! key with Some ws => tasks_of ws | None => [] end) acc in
  let acc :=
    match declared with
    | Some d =>
        let why := trim (d_reason d) in
        if is_empty why then acc
        else (acc.1 ++ [mkBlocker (d_kind d) why (d_owner d) (d_since d) holds], acc.2)
    | None => acc
    end in
  (dedup_blockers (merge_sort blocker_le acc.1), acc.2).

Definition has_working_claim (ws : Workspace) : bool :=
  existsb (fun t =>
    existsb (fun l => String.eqb l WORKING_LABEL_NAME || starts_with WORKING_CLAIM_LABEL_PREFIX l)
      (labels t)) (tasks_of ws).

Definition failed_exit (agent : option AgentState) : bool :=
  match agent with Some (StateMachine.Exited (Some c)) => negb (c =? 0) | _ => false end.

Definition asking_state (agent : option AgentState) : bool :=
  match agent with
  | Some (StateMachine.InputNeeded | StateMachine.LimitReached | StateMachine.CreditExhausted
         | StateMachine.Stalled) => true
  | _ => false
  end.

Definition pr_status (held_by : list WorkspaceKey) (p : Task) : EpicMemberStatus :=
  let ci_failing := bool_decide (ci p = CiFailure) || bool_decide (ci p = CiMixed) in
  let changes_requested := bool_decide (review p = RvChangesRequested) in
  if bool_decide (ci p = CiSuccess) && bool_decide (mergeable p = MMergeable)
     && negb changes_requested && negb (merge_blocked p)
  then SMergeable held_by
  else PrOpen ci_failing changes_requested.

Definition member_status (ws : Workspace) (agent : option AgentState) (blockers : list Blocker)
    (held_by : list WorkspaceKey) (review_blocking : bool) : EpicMemberStatus :=
  if member_done ws then Done
  else
    let live := match pr ws with
                | Some p => if bool_decide (state p = Closed) then None else Some p
                | None => None
                end in
    if bool_decide (live = None) && failed_exit agent then Failed
    else if asking_state agent then Asking
    else if bool_decide (agent = Some StateMachine.Working) then InProgress
    else if review_blocking && negb (bool_decide (live = None)) then ReviewBlocked
    else
      match live with
      | Some p => pr_status held_by p
      | None =>
          if bool_decide (agent = None) && has_working_claim ws then Claimed
          else match blockers with [] => Ready | _ => Blocked end
      end.

(** ** The snapshot *)

(** The merge-after predecessors that still gate a landing. *)
Definition unsettled_preds (r : Resolved) (key : WorkspaceKey) : list WorkspaceKey :=
  filter (fun pred => default false (landing_settled r !! pred) = false)
    (set_elements (rs_merge_after r) key sorted_elements).

Definition edge_list (k : EdgeKind) (m : gmap WorkspaceKey (gset WorkspaceKey)) : list EpicEdge :=
  concat (map (fun kv => map (fun to => mkEdge kv.1 to k) (sorted_elements kv.2)) (map_to_list m)).

Definition edge_rank (k : EdgeKind) : nat :=
  match k with EBlocks => 0 | EMergeAfter => 1 | EContract => 2 end.

(** The derived order of [EpicEdge]. *)
Definition edge_le (a b : EpicEdge) : Prop :=
  (from a <> from b /\ String.le (from a) (from b))
  \/ (from a = from b
      /\ ((to a <> to b /\ String.le (to a) (to b))
          \/ (to a = to b /\ (edge_rank (e_kind a) <= edge_rank (e_kind b))%nat))).

#[export] Instance edge_le_dec : RelDecision edge_le.
Proof. intros a b. unfold edge_le. apply _. Defined.

Definition graph_edges (r : Resolved) : list EpicEdge :=
  merge_sort edge_le
    (edge_list EBlocks (depends_on r) ++ edge_list EMergeAfter (rs_merge_after r)
     ++ edge_list EContract (rs_contracts r)).

Definition epic_graph (record : EpicRecord) (workspaces : list Workspace) : list EpicEdge :=
  graph_edges (resolved_graph record workspaces).

Definition pr_members (r : Resolved) : list WorkspaceKey :=
  filter (fun m => default false (has_pr r !! m) = true) (rs_members r).

(** The merge-after edges between members with a live PR. *)
Definition restricted (r : Resolved) : gmap WorkspaceKey (gset WorkspaceKey) :=
  insert_all
    (map (fun m => (m, default ∅ (rs_merge_after r !! m) ∩ list_to_set (pr_members r)))
       (pr_members r)) ∅.

Definition merge_order_of (r : Resolved) : option (list MergeOrderEntry) :=
  match waves (pr_members r) (restricted r) with
  | None => None
  | Some (_, order, cycle) =>
      Some (map (fun key => mkEntry key (unsettled_preds r key))
              (push_new order (sorted_elements cycle)))
  end.

Record LatchInputs : Type := mkLatches {
  published_contracts : gmap string (gset WorkspaceKey);
  review_blocking : gset WorkspaceKey;
}.

(** What [resolve] is given besides the record and the workspaces. *)
Record Inputs : Type := mkInputs {
  agent_states : gmap WorkspaceKey AgentState;
  declared : gmap WorkspaceKey DeclaredBlocker;
  latches : LatchInputs;
  now : Z;
}.

Definition resolve_member (record : EpicRecord) (inp : Inputs) (r : Resolved)
    (wave downstream : gmap WorkspaceKey Z) (cycle : gset WorkspaceKey) (key : WorkspaceKey)
    (latch : SinceLatch) : EpicMember * SinceLatch :=
  let '(bs, latch) :=
    blockers_for (now inp) key r (bool_decide (key ∈ cycle)) (default 0 (downstream !! key))
      (declared inp !! key) (published_contracts (latches inp) !! r_key record) latch in
  let status :=
    match by_key r !! key with
    | Some ws =>
        member_status ws (agent_states inp !! key) bs (unsettled_preds r key)
          (bool_decide (key ∈ review_blocking (latches inp)))
    | None => Ready
    end in
  (mkMember key (default 0 (wave !! key)) status
     (set_elements (depends_on r) key sorted_elements)
     (set_elements (external r) key sorted_tasks) bs
     (if existsb (fun b => bool_decide (b_kind b = Contract)) bs then Some (as_str Contract) else None),
   latch).

Fixpoint resolve_members (record : EpicRecord) (inp : Inputs) (r : Resolved)
    (wave downstream : gmap WorkspaceKey Z) (cycle : gset WorkspaceKey) (keys : list WorkspaceKey)
    (latch : SinceLatch) : list EpicMember * SinceLatch :=
  match keys with
  | [] => ([], latch)
  | key :: keys =>
      let '(m, latch) := resolve_member record inp r wave downstream cycle key latch in
      let '(ms, latch) := resolve_members record inp r wave downstream cycle keys latch in
      (m :: ms, latch)
  end.

(** By wave, then by key. *)
Definition member_le (a b : EpicMember) : Prop :=
  em_wave a < em_wave b \/ (em_wave a = em_wave b /\ String.le (em_key a) (em_key b)).

#[export] Instance member_le_dec : RelDecision member_le.
Proof. intros a b. unfold member_le. apply _. Defined.

Definition count_status (f : EpicMemberStatus -> bool) (ms : list EpicMember) : Z :=
  as_u32 (length (List.filter (fun m => f (em_status m)) ms)).

Definition is_done (s : EpicMemberStatus) : bool := match s with Done => true | _ => false end.
Definition is_ready (s : EpicMemberStatus) : bool := match s with Ready => true | _ => false end.
Definition is_held_up (s : EpicMemberStatus) : bool :=
  match s with Blocked | ReviewBlocked => true | _ => false end.
Definition is_asking (s : EpicMemberStatus) : bool := match s with Asking => true | _ => false end.
Definition is_failing (s : EpicMemberStatus) : bool :=
  match s with Failed => true | PrOpen ci_failing _ => ci_failing | _ => false end.

Definition resolve (record : EpicRecord) (workspaces : list Workspace) (inp : Inputs)
    (since_latch : gmap LatchKey Z) : option (EpicSnapshot * gmap LatchKey Z) :=
  let r := resolved_graph record workspaces in
  match waves (rs_members r) (depends_on r), downstream_counts (rs_members r) (depends_on r) with
  | Some (wave, order, cycle), Some downstream =>
      let '(ms, latch) :=
        resolve_members record inp r wave downstream cycle (rs_members r) (mkLatch since_latch ∅) in
      let ms := merge_sort member_le ms in
      match critical_path order (depends_on r), merge_order_of r with
      | Some path, Some mo =>
          Some (mkSnapshot (r_key record) (r_name record) ms
                  (count_status is_done ms) (as_u32 (length ms)) (count_status is_ready ms)
                  (count_status is_held_up ms) (count_status is_asking ms) (count_status is_failing ms)
                  (as_u32 (length (List.filter (fun b => bool_decide (owner b = Operator))
                     (concat (map blockers ms)))))
                  (negb (bool_decide (cycle = ∅))) path (graph_edges r) mo (policies record) (now inp),
                filter (fun kv => kv.1 ∈ seen latch) (ages latch))
      | _, _ => None
      end
  | _, _ => None
  end.

(** ** What changed between two snapshots *)

(** [held_preds] *)
Definition held_preds (s : EpicMemberStatus) : option (list WorkspaceKey) :=
  match s with SMergeable held_by => Some held_by | _ => None end.

Definition is_held (s : EpicMemberStatus) : bool :=
  is_some_and (fun h => negb (bool_decide (h = []))) (held_preds s).

Definition status_delta (new_members : list EpicMember) (prev m : EpicMember) : list EpicDelta :=
  let prev_held := held_preds (em_status prev) in
  let new_held := held_preds (em_status m) in
  if bool_decide (em_status prev = em_status m) then []
  else if bool_decide (em_status prev = ReviewBlocked) || bool_decide (em_status m = ReviewBlocked) then
    [Reviewed (em_key m) (bool_decide (em_status m = ReviewBlocked))]
  else if bool_decide (em_status prev = Blocked) && negb (bool_decide (em_status m = Blocked)) then
    [Unblocked (em_key m)
       (List.filter (fun dep =>
          existsb (fun x => String.eqb (em_key x) dep && is_done (em_status x)) new_members)
          (em_blocked_by prev))]
  else if is_held (em_status m) && negb (is_held (em_status prev)) then
    [Held (em_key m) (default [] new_held)]
  else if is_held (em_status prev) && is_some_and (fun h => bool_decide (h = [])) new_held then
    [Released (em_key m)]
  else if negb (bool_decide (is_Some prev_held) && bool_decide (is_Some new_held)) then
    [StatusChanged (em_key m) (em_status prev) (em_status m)]
  else [].

Definition same_blocker (a b : Blocker) : bool :=
  bool_decide (b_kind a = b_kind b) && String.eqb (reason a) (reason b).

Definition blocker_deltas (prev m : EpicMember) : list EpicDelta :=
  map (BlockerAdded (em_key m))
    (List.filter (fun b => negb (existsb (same_blocker b) (blockers prev))) (blockers m))
  ++ map (fun b => BlockerCleared (em_key m) (b_kind b) (reason b))
       (List.filter (fun b => negb (existsb (same_blocker b) (blockers m))) (blockers prev)).

Definition complete (s : EpicSnapshot) : bool := (0 <? total s) && (done s =? total s).

Definition can_move (s : EpicMemberStatus) : bool :=
  match s with Ready | InProgress | Asking | SMergeable _ | ReviewBlocked => true | _ => false end.

Definition stalled (s : EpicSnapshot) : bool :=
  if (total s =? 0) || (done s =? total s) then false
  else negb (existsb (fun m => can_move (em_status m)) (members s)).

(** The last member of a key stays in a [HashMap]. *)
Definition member_of (s : EpicSnapshot) (key : WorkspaceKey) : option EpicMember :=
  insert_all (map (fun m => (em_key m, m)) (members s)) (∅ : gmap WorkspaceKey EpicMember) !! key.

Definition diff (old : option EpicSnapshot) (new : EpicSnapshot) : list EpicDelta :=
  match old with
  | None => []
  | Some old =>
      concat (map (fun m =>
        match member_of old (em_key m) with
        | None => []
        | Some prev => status_delta (members new) prev m ++ blocker_deltas prev m
        end) (members new))
      ++ (if complete new && negb (complete old) then [DCompleted] else [])
      ++ (if stalled new && negb (stalled old) then
            [DStalled (if sn_cycle new then "dependency cycle"
                       else "every remaining member is blocked")%string]
          else [])
  end.

(** ** Decisions *)

(** The dependents as the snapshot's members list them. *)
Definition snapshot_dependents (s : EpicSnapshot) : gmap WorkspaceKey (list WorkspaceKey) :=
  fold_left (fun map m => fold_left (fun map dep => push_to dep (em_key m) map) (em_blocked_by m) map)
    (members s) ∅.

Fixpoint with_unblocks (keys : list WorkspaceKey) (dependents : gmap WorkspaceKey (list WorkspaceKey))
    (ready : list WorkspaceKey) : option (list (WorkspaceKey * Z)) :=
  match ready with
  | [] => Some []
  | key :: ready =>
      match downstream keys dependents key, with_unblocks keys dependents ready with
      | Some unblocks, Some out => Some ((key, as_u32 (size unblocks)) :: out)
      | _, _ => None
      end
  end.

(** The most unblocking first, then by key. *)
Definition ready_queue (s : EpicSnapshot) : option (list (WorkspaceKey * Z)) :=
  match with_unblocks (map em_key (members s)) (snapshot_dependents s)
          (map em_key (List.filter (fun m => is_ready (em_status m)) (members s))) with
  | Some out => Some (merge_sort longer out)
  | None => None
  end.

Definition live_records (records : list EpicRecord) : list EpicRecord :=
  List.filter (fun r => negb (archived r)) records.

Definition merge_in_order_member_in (records : list EpicRecord) (workspaces : list Workspace)
    (key : WorkspaceKey) : bool :=
  existsb (fun record =>
    negb (archived record) && armed (policies record) MergeInOrder
    && bool_decide (key ∈ rs_members (resolved_graph record workspaces))) records.

Definition held_by_in (records : list EpicRecord) (workspaces : list Workspace)
    (key : WorkspaceKey) : list WorkspaceKey :=
  sorted_elements (list_to_set
    (concat (map (fun record => unsettled_preds (resolved_graph record workspaces) key)
       (live_records records)))).

Definition merged_successors (records : list EpicRecord) (workspaces : list Workspace)
    (merged : WorkspaceKey) : list WorkspaceKey :=
  sorted_elements (list_to_set
    (concat (map (fun record =>
       map fst (List.filter (fun kv : WorkspaceKey * gset WorkspaceKey => negb (String.eqb kv.1 merged) && bool_decide (merged ∈ kv.2))
         (map_to_list (rs_merge_after (resolved_graph record workspaces)))))
       (live_records records)))).

Record DispatchTicket : Type := mkTicket { dt_member : WorkspaceKey; dedup_key : string }.

Record DispatchContext : Type := mkContext {
  live_workers : nat;
  max_workers : nat;
  excluded : gset WorkspaceKey;
  opted_out : gset WorkspaceKey;
}.

Definition dispatch_dedup_key (epic : string) (member : WorkspaceKey) : string :=
  String.append "autospawn-epic:" (String.append epic (String.append ":" member)).

Definition plan_dispatch (s : EpicSnapshot) (p : EpicPolicies) (ctx : DispatchContext)
    : option (list DispatchTicket) :=
  if negb (armed p AutoDispatch) then Some []
  else
    let headroom := (max_workers ctx - live_workers ctx)%nat in
    if Nat.eqb headroom 0 then Some []
    else
      match ready_queue s with
      | None => None
      | Some queue =>
          Some (map (fun m => mkTicket m (dispatch_dedup_key (sn_key s) m))
            (take headroom
              (filter (fun key => key ∉ excluded ctx /\ key ∉ opted_out ctx) (map fst queue))))
      end.

Definition member_is_green (s : EpicMemberStatus) : bool :=
  match s with
  | SMergeable _ => true
  | PrOpen ci_failing changes_requested => negb ci_failing && negb changes_requested
  | _ => false
  end.

Record ReviewState : Type := mkReview { dispatched : bool; blocking : bool; rv_since : Z }.

Record ReviewPlan : Type := mkReviewPlan { dispatch : list WorkspaceKey; clear : list WorkspaceKey }.

Definition plan_review (latch_armed : bool) (reviews : gmap WorkspaceKey ReviewState)
    (opted_out : gset WorkspaceKey) (plan : ReviewPlan) (m : EpicMember) : ReviewPlan :=
  let green := member_is_green (em_status m) in
  let held := bool_decide (em_status m = ReviewBlocked) in
  match reviews !! em_key m with
  | Some _ =>
      if negb green && negb held then mkReviewPlan (dispatch plan) (clear plan ++ [em_key m]) else plan
  | None =>
      if latch_armed && green && negb (bool_decide (em_key m ∈ opted_out))
      then mkReviewPlan (dispatch plan ++ [em_key m]) (clear plan) else plan
  end.

Definition plan_reviews (s : EpicSnapshot) (p : EpicPolicies)
    (reviews : gmap WorkspaceKey ReviewState) (opted_out : gset WorkspaceKey) : ReviewPlan :=
  fold_left (plan_review (armed p AutoReview) reviews opted_out) (members s) (mkReviewPlan [] []).

Definition has_open_pr (s : EpicMemberStatus) : bool :=
  match s with PrOpen _ _ | SMergeable _ => true | _ => false end.

Definition plan_merge_arming (s : EpicSnapshot) (p : EpicPolicies)
    (already_armed opted_out : gset WorkspaceKey) : list WorkspaceKey :=
  if negb (armed p MergeInOrder) then []
  else
    filter (fun key => key ∉ already_armed /\ key ∉ opted_out)
      (map em_key (List.filter (fun m => has_open_pr (em_status m)) (members s))).

Definition labels_opt_out (ws : Workspace) (opt_out_labels : list string) : bool :=
  existsb (fun t =>
    existsb (fun l => existsb (fun opt => eq_ignore_ascii_case opt l) opt_out_labels) (labels t))
    (tasks_of ws).

(** ** Labels published upstream *)

Definition STATUS_LABEL_BLOCKED : string := "lazybox:blocked".
Definition STATUS_LABEL_DONE : string := "lazybox:done".

Definition status_projection_label (s : EpicMemberStatus) : option string :=
  match s with
  | Blocked | ReviewBlocked => Some STATUS_LABEL_BLOCKED
  | Done => Some STATUS_LABEL_DONE
  | Ready | Claimed | InProgress | Asking | PrOpen _ _ | SMergeable _ | Failed => None
  end.

Definition fold_status_label (publish : bool) (into : gmap WorkspaceKey (option string))
    (m : EpicMember) : gmap WorkspaceKey (option string) :=
  let entry := default None (into !! em_key m) in
  let next :=
    if negb publish then entry
    else if bool_decide (entry = Some STATUS_LABEL_BLOCKED) then entry
    else match status_projection_label (em_status m) with Some l => Some l | None => entry end in
  <[em_key m := next]> into.

Definition fold_status_labels (record : EpicRecord) (s : EpicSnapshot)
    (into : gmap WorkspaceKey (option string)) : gmap WorkspaceKey (option string) :=
  fold_left (fold_status_label (publish_status_labels record)) (members s) into.

(** ** Declared blockers across an issue-to-PR fold *)

Definition since_le (a b : DeclaredBlocker) : Prop := d_since a <= d_since b.

#[export] Instance since_le_dec : RelDecision since_le.
Proof. intros a b. unfold since_le. apply _. Defined.

Definition join_reasons (rs : list string) : string :=
  match rs with [] => EmptyString | r :: rs => fold_left (fun a r => String.append a (String.append "; " r)) rs r end.

(** [None]: [swap_remove(0)] on an empty list, which the caller excludes. *)
Definition merge_declared (candidates : list DeclaredBlocker) (into : WorkspaceKey)
    : option DeclaredBlocker :=
  let candidates := merge_sort since_le candidates in
  let operator_owned := existsb (fun b => bool_decide (d_owner b = Operator)) candidates in
  let reasons := fold_left (fun rs b => if bool_decide (d_reason b ∈ rs) then rs else rs ++ [d_reason b])
                   candidates [] in
  match candidates with
  | [] => None
  | oldest :: _ =>
      Some (mkDeclared into (join_reasons reasons) (d_kind oldest)
              (if operator_owned then Operator else d_owner oldest) (d_since oldest))
  end.
