(* ===== verification/EpicProps.v ===== *)
(** * What the epic resolver guarantees

    The theorems on [Epics.v]: the graph of a record is well formed and depends
    only on the links between tasks, so a landing releases every member it held;
    the resolver is total and its snapshot agrees with the merge gate; the order
    of landing, the deltas and the dispatch plan. *)

From Stdlib Require Import String.
From S2P Require Import Prelude Text CoreTask Graph GraphPaths Epics.

#[global] Open Scope Z_scope.

(** ** Members *)

Lemma push_new_elem ms keys k : k ∈ push_new ms keys <-> k ∈ ms \/ k ∈ keys.
Proof.
  revert ms. induction keys as [|key keys IH]; intros ms; simpl; [set_solver|].
  etrans; [apply IH|]. case_bool_decide; set_solver.
Qed.

Lemma push_new_NoDup ms keys : NoDup ms -> NoDup (push_new ms keys).
Proof.
  revert ms. induction keys as [|key keys IH]; intros ms Hnd; simpl; [done|].
  apply IH. case_bool_decide; [done|]. apply NoDup_app. split_and!; [done|set_solver|apply NoDup_singleton].
Qed.

Lemma epic_members_NoDup record W : NoDup (epic_members record W).
Proof.
  unfold epic_members. apply push_new_NoDup.
  destruct (anchor record); [apply push_new_NoDup|]; apply push_new_NoDup, NoDup_nil_2.
Qed.

Lemma sorted_keys_where_elem f W k :
  k ∈ sorted_keys_where f W -> exists w, w ∈ W /\ ws_key w = k.
Proof.
  unfold sorted_keys_where. rewrite merge_sort_Permutation, list_elem_of_In, in_map_iff.
  intros (w & <- & [Hw _]%filter_In). exists w. split; [by apply list_elem_of_In|done].
Qed.

Lemma workspaces_by_key_is_Some W k :
  is_Some (workspaces_by_key W !! k) <-> exists w, w ∈ W /\ ws_key w = k.
Proof.
  unfold workspaces_by_key. rewrite insert_all_is_Some, map_map, lookup_empty. simpl.
  rewrite list_elem_of_In, in_map_iff. setoid_rewrite list_elem_of_In.
  split; [intros [(w & ? & ?)|[? ?]]; [eauto|done]|naive_solver].
Qed.

Lemma workspaces_by_key_Some W k w :
  workspaces_by_key W !! k = Some w -> w ∈ W /\ ws_key w = k.
Proof.
  unfold workspaces_by_key. intros [Hin|Hin]%insert_all_Some; [|by rewrite lookup_empty in Hin].
  apply list_elem_of_In, in_map_iff in Hin as (w' & [= <- <-] & Hw). split; [by apply list_elem_of_In|done].
Qed.

(** Every member is a loaded workspace. *)
Lemma epic_members_loaded record W k :
  k ∈ epic_members record W -> exists w, workspaces_by_key W !! k = Some w /\ ws_key w = k.
Proof.
  intros Hk. assert (is_Some (workspaces_by_key W !! k)) as [w Hw].
  { apply workspaces_by_key_is_Some. unfold epic_members in Hk.
    apply push_new_elem in Hk as [Hk|Hk%sorted_keys_where_elem]; [|done].
    destruct (anchor record) as [a|].
    - apply push_new_elem in Hk as [Hk|Hk%sorted_keys_where_elem]; [|done].
      apply push_new_elem in Hk as [[]%elem_of_nil|[Hk _]%list_elem_of_filter].
      by apply workspaces_by_key_is_Some.
    - apply push_new_elem in Hk as [[]%elem_of_nil|[Hk _]%list_elem_of_filter].
      by apply workspaces_by_key_is_Some. }
  exists w. split; [done|]. by apply workspaces_by_key_Some in Hw as [_ ?].
Qed.

Lemma per_member_keys {A} (ms : list WorkspaceKey) (bk : gmap WorkspaceKey Workspace) (f : WorkspaceKey -> Workspace -> A) :
  map fst (omap (fun key => match bk !! key with Some ws => Some (key, f key ws) | None => None end) ms)
  = filter (fun key => is_Some (bk !! key)) ms.
Proof.
  induction ms as [|k ms IH]; [done|]. rewrite filter_cons, <- IH. csimpl.
  by destruct (bk !! k).
Qed.

Lemma per_member_lookup {A} (ms : list WorkspaceKey) (bk : gmap WorkspaceKey Workspace) (f : WorkspaceKey -> Workspace -> A) k :
  NoDup ms ->
  per_member ms bk f !! k
  = if decide (k ∈ ms) then match bk !! k with Some ws => Some (f k ws) | None => None end else None.
Proof.
  intros Hnd. unfold per_member. set (l := omap _ ms).
  assert (NoDup (map fst l)) as Hl by (unfold l; rewrite per_member_keys; by apply NoDup_filter).
  destruct (decide (k ∈ ms)) as [Hk|Hk].
  - destruct (bk !! k) as [w|] eqn:E.
    + apply insert_all_NoDup; [done|]. unfold l. apply list_elem_of_omap. exists k. by rewrite E.
    + rewrite insert_all_notin; [apply lookup_empty|]. unfold l. rewrite per_member_keys, list_elem_of_filter.
      rewrite E. by intros [[? ?] _].
  - rewrite insert_all_notin; [apply lookup_empty|]. unfold l. rewrite per_member_keys, list_elem_of_filter.
    naive_solver.
Qed.

(** ** What the graph is a function of *)

(** Two readings of one task: its state, CI, review and mergeability may differ, its
    identity, labels and links do not. *)
Record same_task_links (t t' : Task) : Prop := {
  stl_id : id t = id t';
  stl_parent : parent t = parent t';
  stl_labels : labels t = labels t';
  stl_blocked_by : blocked_by t = blocked_by t';
  stl_merge_after : merge_after t = merge_after t';
}.

Record same_links (w w' : Workspace) : Prop := {
  sl_key : ws_key w = ws_key w';
  sl_tasks : Forall2 same_task_links (tasks_of w) (tasks_of w');
}.

Lemma Forall2_map_eq {A B} (R : relation A) (f g : A -> B) l l' :
  Forall2 R l l' -> (forall x y, R x y -> f x = g y) -> map f l = map g l'.
Proof. intros Hl Hf. induction Hl; simpl; [done|]. f_equal; auto. Qed.

Lemma Forall2_omap_eq {A B} (R : relation A) (f g : A -> option B) l l' :
  Forall2 R l l' -> (forall x y, R x y -> f x = g y) -> omap f l = omap g l'.
Proof. intros Hl Hf. induction Hl as [|x y l l' Hxy Hl IH]; [done|]. csimpl. by rewrite (Hf x y Hxy), IH. Qed.

Lemma Forall2_existsb {A} (R : relation A) (f g : A -> bool) l l' :
  Forall2 R l l' -> (forall x y, R x y -> f x = g y) -> existsb f l = existsb g l'.
Proof. intros Hl Hf. induction Hl as [|x y l l' Hxy Hl IH]; simpl; [done|]. by rewrite (Hf x y Hxy), IH. Qed.

Lemma same_links_filter f W W' :
  Forall2 same_links W W' -> (forall w w', same_links w w' -> f w = f w') ->
  sorted_keys_where f W = sorted_keys_where f W'.
Proof.
  intros HW Hf. unfold sorted_keys_where. f_equal.
  induction HW as [|w w' W W' Hw HW IH]; simpl; [done|]. rewrite (Hf w w' Hw).
  destruct (f w'); simpl; [by rewrite IH, (sl_key _ _ Hw)|done].
Qed.

Section SameLinks.
Context (W W' : list Workspace) (HW : Forall2 same_links W W').

Lemma same_task_workspaces : task_workspaces W = task_workspaces W'.
Proof.
  unfold task_workspaces. do 2 f_equal. apply (Forall2_map_eq same_links); [done|].
  intros w w' [Hk Ht]. apply (Forall2_map_eq same_task_links); [done|].
  intros t t' Htt. by rewrite Hk, (stl_id _ _ Htt).
Qed.

Lemma same_task_parents : task_parents W = task_parents W'.
Proof.
  unfold task_parents. do 2 f_equal. apply (Forall2_map_eq same_links); [done|].
  intros w w' [_ Ht]. apply (Forall2_omap_eq same_task_links); [done|].
  intros t t' Htt. by rewrite (stl_id _ _ Htt), (stl_parent _ _ Htt).
Qed.

Lemma same_by_key k :
  option_Forall2 same_links (workspaces_by_key W !! k) (workspaces_by_key W' !! k).
Proof.
  unfold workspaces_by_key.
  assert (forall m m' : gmap WorkspaceKey Workspace,
    option_Forall2 same_links (m !! k) (m' !! k) ->
    option_Forall2 same_links (insert_all (map (fun w => (ws_key w, w)) W) m !! k)
      (insert_all (map (fun w => (ws_key w, w)) W') m' !! k)) as H.
  { induction HW as [|w w' V V' Hw HV IH]; intros m m' Hm; [done|]. cbn [map].
    rewrite !insert_all_cons. apply (IH HV). rewrite (sl_key _ _ Hw). destruct (decide (k = ws_key w')) as [->|Hne].
    - rewrite !lookup_insert_eq. by constructor.
    - by rewrite !lookup_insert_ne. }
  apply H. rewrite !lookup_empty. constructor.
Qed.

Lemma same_members record : epic_members record W = epic_members record W'.
Proof.
  unfold epic_members.
  assert (filter (fun key => is_Some (workspaces_by_key W !! key)) (r_members record)
    = filter (fun key => is_Some (workspaces_by_key W' !! key)) (r_members record)) as ->.
  { apply list_filter_ext_in. intros k _. by destruct (same_by_key k). }
  rewrite same_task_parents.
  assert (forall label, sorted_keys_where (labeled label) W = sorted_keys_where (labeled label) W') as ->.
  { intros label. apply same_links_filter; [done|]. intros w w' [_ Ht].
    apply (Forall2_existsb same_task_links); [done|]. intros t t' Htt. by rewrite (stl_labels _ _ Htt). }
  assert (forall a, sorted_keys_where (anchored a (task_parents W')) W
    = sorted_keys_where (anchored a (task_parents W')) W') as Ha.
  { intros a. apply same_links_filter; [done|]. intros w w' [_ Ht].
    apply (Forall2_existsb same_task_links); [done|]. intros t t' Htt. by rewrite (stl_id _ _ Htt). }
  destruct (anchor record); [by rewrite Ha|done].
Qed.

Lemma same_linked_members class links w w' :
  (forall t t', same_task_links t t' -> links t = links t') -> same_links w w' ->
  linked_members class links w = linked_members class links w'.
Proof.
  intros Hl [_ Ht]. unfold linked_members.
  by rewrite (Forall2_map_eq same_task_links links links (tasks_of w) (tasks_of w') Ht Hl).
Qed.

(** The landing order is a function of the links only. *)
Lemma same_merge_after record k :
  rs_merge_after (resolved_graph record W) !! k = rs_merge_after (resolved_graph record W') !! k.
Proof.
  unfold resolved_graph. cbn [rs_merge_after].
  rewrite !per_member_lookup by apply epic_members_NoDup.
  rewrite <- same_members, <- same_task_workspaces. case_decide; [|done].
  destruct (same_by_key k) as [w w' Hw|]; [|done]. f_equal. f_equal.
  - apply same_linked_members; [apply stl_merge_after|done].
  - destruct (implied_merge_after record); [|done]. apply same_linked_members; [apply stl_blocked_by|done].
Qed.
End SameLinks.

(** ** The landing hold *)

Definition preds (r : Resolved) (key : WorkspaceKey) : gset WorkspaceKey :=
  default ∅ (rs_merge_after r !! key).

Lemma linked_members_class class links w q :
  q ∈ linked_members class links w -> exists t, class t = OfMember q.
Proof.
  unfold linked_members. rewrite elem_of_list_to_set, list_elem_of_omap.
  intros (t & _ & E). exists t. unfold class_member in E. destruct (class t); congruence.
Qed.

Lemma classify_member task_ws ms key t q :
  classify task_ws ms key t = OfMember q -> q ∈ ms /\ q <> key.
Proof.
  unfold classify. destruct (task_ws !! t) as [o|]; [|done].
  case_bool_decide; [done|]. case_bool_decide; [|done]. by intros [= <-].
Qed.

(** Every link kind relates a member to another member. *)
Lemma linked_members_member class links w q task_ws ms key :
  class = classify task_ws (list_to_set ms) key ->
  q ∈ linked_members class links w -> q ∈ ms /\ q <> key.
Proof.
  intros -> (t & Ht)%linked_members_class. apply classify_member in Ht as [Hq Hne].
  by rewrite elem_of_list_to_set in Hq.
Qed.

Lemma preds_member record W key q :
  q ∈ preds (resolved_graph record W) key -> q ∈ epic_members record W /\ q <> key.
Proof.
  unfold preds, resolved_graph. cbn [rs_merge_after].
  rewrite per_member_lookup by apply epic_members_NoDup. case_decide; [|set_solver].
  destruct (workspaces_by_key W !! key) as [w|]; [|set_solver]. cbn [from_option]; unfold Datatypes.id.
  rewrite elem_of_union. intros [Hq|Hq]; [by eapply linked_members_member|].
  destruct (implied_merge_after record); [by eapply linked_members_member|set_solver].
Qed.

Lemma landing_settled_lookup record W q :
  q ∈ epic_members record W ->
  landing_settled (resolved_graph record W) !! q = landing_settled_for <$> workspaces_by_key W !! q.
Proof.
  intros Hq. unfold resolved_graph. cbn [landing_settled].
  rewrite per_member_lookup by apply epic_members_NoDup. rewrite decide_True by done.
  by destruct (workspaces_by_key W !! q).
Qed.

Lemma unsettled_preds_elem record W key q :
  q ∈ unsettled_preds (resolved_graph record W) key
  <-> q ∈ preds (resolved_graph record W) key
      /\ forall w, workspaces_by_key W !! q = Some w -> landing_settled_for w = false.
Proof.
  unfold unsettled_preds. rewrite list_elem_of_filter.
  assert (q ∈ set_elements (rs_merge_after (resolved_graph record W)) key sorted_elements
    <-> q ∈ preds (resolved_graph record W) key) as ->.
  { unfold set_elements, preds. destruct (rs_merge_after _ !! key); simpl;
      [apply sorted_elements_elem|set_solver]. }
  split; intros [H1 H2].
  - split; [done|]. intros w Hw. destruct (preds_member record W key q H2) as [Hm _].
    rewrite (landing_settled_lookup record W q Hm), Hw in H1. done.
  - split; [|done]. destruct (preds_member record W key q H1) as [Hm _].
    rewrite (landing_settled_lookup record W q Hm).
    destruct (workspaces_by_key W !! q) as [w|]; [|done]. by apply H2.
Qed.

Lemma held_by_in_elem records W key q :
  q ∈ held_by_in records W key
  <-> exists record, record ∈ live_records records
        /\ q ∈ unsettled_preds (resolved_graph record W) key.
Proof.
  unfold held_by_in. rewrite sorted_elements_elem, elem_of_list_to_set, list_elem_of_In, in_concat.
  split.
  - intros (l & (record & <- & Hr)%in_map_iff & Hq). exists record. by rewrite !list_elem_of_In.
  - intros (record & Hr & Hq). exists (unsettled_preds (resolved_graph record W) key).
    split; [|by apply list_elem_of_In]. apply in_map_iff. exists record.
    split; [done|by apply list_elem_of_In].
Qed.

Lemma merged_successors_elem records W merged key :
  key ∈ merged_successors records W merged
  <-> exists record, record ∈ live_records records /\ key <> merged
        /\ merged ∈ preds (resolved_graph record W) key.
Proof.
  unfold merged_successors. rewrite sorted_elements_elem, elem_of_list_to_set, list_elem_of_In, in_concat.
  split.
  - intros (l & (record & <- & Hr)%in_map_iff & Hk). exists record. rewrite list_elem_of_In.
    split; [done|]. apply in_map_iff in Hk as ([k s] & <- & [Hin Hf]%filter_In). cbn [fst snd] in *.
    apply list_elem_of_In, elem_of_map_to_list in Hin.
    apply andb_true_iff in Hf as [Hne Hm%bool_decide_eq_true]. apply negb_true_iff, String.eqb_neq in Hne.
    split; [done|]. unfold preds. by rewrite Hin.
  - intros (record & Hr & Hne & Hm). eexists. split.
    { apply in_map_iff. exists record. split; [done|by apply list_elem_of_In]. }
    unfold preds in Hm. destruct (rs_merge_after _ !! key) as [s|] eqn:E; [|set_solver].
    apply in_map_iff. exists (key, s). split; [done|]. apply filter_In. split.
    + apply list_elem_of_In. by apply elem_of_map_to_list.
    + simpl. apply andb_true_iff. split; [by apply negb_true_iff, String.eqb_neq|by apply bool_decide_eq_true].
Qed.

(** a landing releases what it held.  Let the workspaces move from [W] to [W']
    by any change of task states that keeps the links (a merge, a close).  Every
    member that [merged] was holding is among the successors re-probed when it
    lands, and what still holds it then is exactly its recorded predecessors whose
    deliverable is not settled: neither merged nor closed. *)
Theorem landing_releases_what_it_held records W W' key merged :
  Forall2 same_links W W' -> merged ∈ held_by_in records W key ->
  key ∈ merged_successors records W' merged
  /\ forall q, q ∈ held_by_in records W' key
       <-> (exists record, record ∈ live_records records
              /\ q ∈ preds (resolved_graph record W) key)
           /\ forall w, workspaces_by_key W' !! q = Some w -> landing_settled_for w = false.
Proof.
  intros HW Hheld.
  assert (forall record k, preds (resolved_graph record W) k = preds (resolved_graph record W') k) as Hp.
  { intros record k. unfold preds. by rewrite (same_merge_after W W' HW). }
  split.
  - apply held_by_in_elem in Hheld as (record & Hr & [Hm _]%unsettled_preds_elem).
    apply merged_successors_elem. exists record. split; [done|].
    split; [|by rewrite <- Hp]. apply not_eq_sym. by eapply preds_member.
  - intros q. rewrite held_by_in_elem. setoid_rewrite unsettled_preds_elem.
    setoid_rewrite Hp. naive_solver.
Qed.

(** A two-member epic: [b] is blocked by [a], both with an open pull request. *)
Definition example_task (k : string) (s : TaskState) (blockers : list string) : Task :=
  plain_task (Work.mkTaskId "github" k) s CiSuccess RvApproved MMergeable KPr
    (map (Work.mkTaskId "github") blockers).

Definition example_ws (k : string) (s : TaskState) (blockers : list string) : Workspace :=
  mkWorkspace k k (Some (example_task k s blockers)) [] [] false false.

Definition example_record : EpicRecord :=
  mkRecord "e" "Epic" None ["a"; "b"]%string false true (mkPolicies Arm Arm Arm) false.

Definition example_before : list Workspace :=
  [example_ws "a" InReview []; example_ws "b" InReview ["a"]]%string.
Definition example_after : list Workspace :=
  [example_ws "a" Merged []; example_ws "b" InReview ["a"]]%string.

Lemma landing_releases_what_it_held_witness :
  "b"%string ∈ merged_successors [example_record] example_after "a"
  /\ held_by_in [example_record] example_before "b" = ["a"]%string
  /\ held_by_in [example_record] example_after "b" = [].
Proof.
  split; [|split; vm_compute; reflexivity].
  refine (proj1 (landing_releases_what_it_held [example_record] example_before example_after
    "b"%string "a"%string _ _)).
  - repeat constructor.
  - apply (bool_decide_unpack _). vm_compute. exact I.
Defined.

(** ** The snapshot *)

Lemma member_status_Done ws agent bs held blocking :
  member_status ws agent bs held blocking = Done <-> member_done ws = true.
Proof.
  unfold member_status. destruct (member_done ws); [done|]. split; [|done].
  unfold pr_status. intros H. exfalso. repeat (case_match; try done).
Qed.

Lemma member_status_SMergeable ws agent bs held blocking h :
  member_status ws agent bs held blocking = SMergeable h -> h = held.
Proof.
  unfold member_status, pr_status. intros H. repeat (case_match; simplify_eq; try done).
Qed.

(** [l'] extends [l] in a recompute at [now]: old ages stay, new ones are [now]. *)
Record ages_extend (now : Z) (l l' : SinceLatch) : Prop := {
  ae_keep k v : ages l !! k = Some v -> ages l' !! k = Some v;
  ae_new k v : ages l' !! k = Some v -> v = default now (ages l !! k);
  ae_seen k : k ∈ seen l -> k ∈ seen l';
}.

#[export] Instance ages_extend_refl now : Reflexive (ages_extend now).
Proof. intros l. split; [done| |done]. intros k v Hk. by rewrite Hk. Qed.

#[export] Instance ages_extend_trans now : Transitive (ages_extend now).
Proof.
  intros l1 l2 l3 [K1 N1 S1] [K2 N2 S2]. split; [auto| |auto].
  intros k v Hv. specialize (N2 k v Hv). destruct (ages l2 !! k) as [v2|] eqn:E2; simpl in N2; subst.
  - by apply N1.
  - destruct (ages l1 !! k) as [v1|] eqn:E1; [|done]. rewrite (K1 k v1 E1) in E2. done.
Qed.

(** What every blocker collected so far satisfies: its age is latched, or it is the
    declared one. *)
Record collected (now : Z) (key : WorkspaceKey) (decl : option DeclaredBlocker) (l0 : SinceLatch)
    (acc : list Blocker * SinceLatch) : Prop := {
  co_ext : ages_extend now l0 acc.2;
  co_in b : b ∈ acc.1 ->
    (ages acc.2 !! (key, b_kind b, reason b) = Some (since b) /\ (key, b_kind b, reason b) ∈ seen acc.2)
    \/ exists d, decl = Some d /\ since b = d_since d;
}.

Lemma since_at_extends now key kind why l :
  let r := since_at now key kind why l in
  ages_extend now l r.2 /\ ages r.2 !! (key, kind, why) = Some r.1 /\ (key, kind, why) ∈ seen r.2.
Proof.
  unfold since_at. destruct (ages l !! (key, kind, why)) as [v|] eqn:E; cbn [fst snd ages seen].
  - split_and!; [|done|set_solver]. split; cbn [ages seen]; [done| |set_solver].
    intros k w Hk. by rewrite Hk.
  - split_and!; [|by rewrite lookup_insert_eq|set_solver]. split; cbn [ages seen]; [| |set_solver].
    + intros k w Hk. rewrite lookup_insert_ne; [done|]. intros <-. congruence.
    + intros k w Hk. destruct (decide (k = (key, kind, why))) as [->|Hne].
      * rewrite lookup_insert_eq in Hk. rewrite E. by injection Hk as <-.
      * rewrite lookup_insert_ne in Hk by done. by rewrite Hk.
Qed.

Lemma push_blocker_collected now key decl l0 kind why who holds acc :
  collected now key decl l0 acc -> collected now key decl l0 (push_blocker now key kind why who holds acc).
Proof.
  intros [Hext Hin]. unfold push_blocker.
  destruct (since_at_extends now key kind why acc.2) as (Hs & Hage & Hseen).
  destruct (since_at now key kind why acc.2) as [v l]. cbn [fst snd] in *.
  split; cbn [fst snd]; [by etrans|]. intros b [Hb| ->%list_elem_of_singleton]%elem_of_app.
  - destruct (Hin b Hb) as [[Ha Hb']|?]; [left|by right].
    split; [by apply (ae_keep _ _ _ Hs)|by apply (ae_seen _ _ _ Hs)].
  - by left.
Qed.

Lemma fold_collected {A} now key decl l0 (f : list Blocker * SinceLatch -> A -> _) l acc :
  (forall acc x, collected now key decl l0 acc -> collected now key decl l0 (f acc x)) ->
  collected now key decl l0 acc -> collected now key decl l0 (fold_left f l acc).
Proof. intros Hf. revert acc. induction l as [|x l IH]; intros acc Hacc; simpl; [done|]. auto. Qed.

Lemma dedup_from_elem p l b : b ∈ dedup_from p l -> b ∈ l.
Proof.
  revert p. induction l as [|x l IH]; intros p; simpl; [done|]. case_bool_decide.
  - intros Hb%IH. by right.
  - intros [->|Hb%IH]%elem_of_cons; [by left|by right].
Qed.

Lemma dedup_blockers_elem l b : b ∈ dedup_blockers l -> b ∈ l.
Proof.
  destruct l as [|x l]; simpl; [done|]. intros [->|Hb%dedup_from_elem]%elem_of_cons; [by left|by right].
Qed.

Lemma blockers_for_collected now key r in_cycle holds decl published l0 :
  collected now key decl l0 (blockers_for now key r in_cycle holds decl published l0).
Proof.
  assert (forall acc, collected now key decl l0 acc ->
    collected now key decl l0 (dedup_blockers (merge_sort blocker_le acc.1), acc.2)) as Hfinal.
  { intros acc [Hext Hin]. split; cbn [fst snd]; [done|]. intros b Hb%dedup_blockers_elem.
    rewrite merge_sort_Permutation in Hb. by apply Hin. }
  unfold blockers_for. apply Hfinal.
  assert (forall acc d, decl = Some d -> collected now key decl l0 acc -> forall b, since b = d_since d ->
    collected now key decl l0 (acc.1 ++ [b], acc.2)) as Hdecl.
  { intros acc d Hd [Hext Hin] b Hb. split; cbn [fst snd]; [done|].
    intros b' [Hb'| ->%list_elem_of_singleton]%elem_of_app; [by apply Hin|]. right. by exists d. }
  assert (collected now key decl l0 ([], l0)) as H0 by (split; cbn [fst snd]; [done|set_solver]).
  match goal with |- collected _ _ _ _ (match _ with Some d => if _ then ?acc else _ | None => _ end) =>
    assert (collected now key decl l0 acc) as H1 end.
  { repeat first
      [ apply fold_collected; [intros acc x Hacc; repeat case_match; by try apply push_blocker_collected|]
      | by destruct in_cycle; [apply push_blocker_collected|] ]. }
  destruct decl as [d|]; [|done]. destruct (is_empty (trim (d_reason d))); [done|]. by eapply Hdecl.
Qed.

Lemma push_blocker_app now key kind why who holds acc :
  exists b, (push_blocker now key kind why who holds acc).1 = acc.1 ++ [b] /\ b_kind b = kind /\ reason b = why.
Proof. unfold push_blocker. destruct (since_at _ _ _ _ _) as [v l]. eexists. split; [reflexivity|done]. Qed.

(** The list of blockers only grows while it is collected. *)
Definition grows (b : Blocker) (acc : list Blocker * SinceLatch) : Prop := b ∈ acc.1.

Lemma push_blocker_grows b now key kind why who holds acc :
  grows b acc -> grows b (push_blocker now key kind why who holds acc).
Proof.
  unfold grows. destruct (push_blocker_app now key kind why who holds acc) as (b' & -> & _). set_solver.
Qed.

Lemma fold_grows {A} b (f : list Blocker * SinceLatch -> A -> _) l acc :
  (forall acc x, grows b acc -> grows b (f acc x)) -> grows b acc -> grows b (fold_left f l acc).
Proof. intros Hf. revert acc. induction l as [|x l IH]; intros acc Hacc; simpl; [done|]. auto. Qed.

Lemma dedup_from_keeps p l b :
  b ∈ l -> (b_kind b = b_kind p /\ reason b = reason p)
           \/ exists b', b' ∈ dedup_from p l /\ b_kind b' = b_kind b /\ reason b' = reason b.
Proof.
  revert p. induction l as [|x l IH]; intros p; [set_solver|]. simpl.
  intros [->|Hb]%elem_of_cons; case_bool_decide as Hx.
  - by left.
  - right. exists x. split; [by left|done].
  - by apply IH.
  - destruct (IH x Hb) as [[-> ->]|(b' & ? & ?)]; right; [exists x|exists b']; split; try done; [by left|by right].
Qed.

Lemma dedup_blockers_keeps l b :
  b ∈ l -> exists b', b' ∈ dedup_blockers l /\ b_kind b' = b_kind b /\ reason b' = reason b.
Proof.
  destruct l as [|x l]; [set_solver|]. simpl. intros [->|Hb]%elem_of_cons.
  - exists x. split; [by left|done].
  - destruct (dedup_from_keeps x l b Hb) as [[? ?]|(b' & ? & ?)]; [exists x|exists b']; split;
      try done; [by left|by right].
Qed.

Lemma cycle_is_reported now key r holds decl published l0 :
  exists b, b ∈ (blockers_for now key r true holds decl published l0).1
    /\ b_kind b = Cycle /\ reason b = "dependency cycle"%string.
Proof.
  unfold blockers_for.
  destruct (push_blocker_app now key Cycle "dependency cycle" Operator holds ([], l0)) as (b & Hb & Hk & Hr).
  assert (grows b (push_blocker now key Cycle "dependency cycle" Operator holds ([], l0))) as Hg
    by (unfold grows; rewrite Hb; simpl; by left).
  cbn [fst snd].
  match goal with |- exists _, _ ∈ dedup_blockers (merge_sort _ ?l) /\ _ =>
    assert (b ∈ merge_sort blocker_le l) as Hin end.
  { rewrite merge_sort_Permutation.
    match goal with |- _ ∈ (match _ with Some d => if _ then ?acc else _ | None => _ end).1 =>
      assert (grows b acc) as H1 end.
    { repeat first [ exact Hg
        | apply fold_grows; [intros acc x Hacc; repeat case_match; by try apply push_blocker_grows|] ]. }
    destruct decl as [d|]; [|done]. destruct (is_empty (trim (d_reason d))); [done|].
    apply elem_of_app. by left. }
  destruct (dedup_blockers_keeps _ b Hin) as (b' & ? & ? & ?). exists b'. split; [done|]. split; congruence.
Qed.

(** What [resolve] reports of one member, with the latch it ends with. *)
Record member_facts (record : EpicRecord) (inp : Inputs) (r : Resolved) (wave : gmap WorkspaceKey Z)
    (cycle : gset WorkspaceKey) (latch : SinceLatch) (m : EpicMember) : Prop := {
  mf_status w : by_key r !! em_key m = Some w ->
    em_status m = member_status w (agent_states inp !! em_key m) (blockers m)
      (unsettled_preds r (em_key m)) (bool_decide (em_key m ∈ review_blocking (latches inp)));
  mf_wave : em_wave m = default 0 (wave !! em_key m);
  mf_ages b : b ∈ blockers m ->
    (ages latch !! (em_key m, b_kind b, reason b) = Some (since b)
     /\ (em_key m, b_kind b, reason b) ∈ seen latch)
    \/ exists d, declared inp !! em_key m = Some d /\ since b = d_since d;
  mf_cycle : em_key m ∈ cycle ->
    exists b, b ∈ blockers m /\ b_kind b = Cycle /\ reason b = "dependency cycle"%string;
}.

Lemma resolve_members_spec record inp r wave downstream cycle keys l0 :
  let out := resolve_members record inp r wave downstream cycle keys l0 in
  map em_key out.1 = keys /\ ages_extend (now inp) l0 out.2
  /\ Forall (member_facts record inp r wave cycle out.2) out.1.
Proof.
  revert l0. induction keys as [|key keys IH]; intros l0; cbn [resolve_members]; [split_and!; [done|done|constructor]|].
  unfold resolve_member.
  pose proof (blockers_for_collected (now inp) key r (bool_decide (key ∈ cycle)) (default 0 (downstream !! key))
    (declared inp !! key) (published_contracts (latches inp) !! r_key record) l0) as [Hext Hin].
  assert (key ∈ cycle -> exists b, b ∈ (blockers_for (now inp) key r (bool_decide (key ∈ cycle))
      (default 0 (downstream !! key)) (declared inp !! key)
      (published_contracts (latches inp) !! r_key record) l0).1
      /\ b_kind b = Cycle /\ reason b = "dependency cycle"%string) as Hcyc.
  { intros Hc. rewrite bool_decide_eq_true_2 by done. apply cycle_is_reported. }
  destruct (blockers_for _ _ _ _ _ _ _ _) as [bs l1]. cbn [fst snd] in *.
  destruct (IH l1) as (Hk & Hext' & Hall). destruct (resolve_members _ _ _ _ _ _ _ _) as [ms l2].
  cbn [fst snd] in *. split_and!; [by simpl; rewrite Hk|by etrans|]. constructor; [|done].
  split; cbn [em_key em_status blockers em_wave]; [|done| |done].
  - intros w Hw. by rewrite Hw.
  - intros b Hb. destruct (Hin b Hb) as [[Ha Hs]|?]; [left|by right].
    split; [by apply (ae_keep _ _ _ Hext')|by apply (ae_seen _ _ _ Hext')].
Qed.

Lemma rs_members_eq record W : rs_members (resolved_graph record W) = epic_members record W.
Proof. done. Qed.

Lemma graph_closed record W m d :
  m ∈ epic_members record W -> depends (depends_on (resolved_graph record W)) m d ->
  d ∈ epic_members record W.
Proof.
  intros Hm. unfold depends, deps, resolved_graph. cbn [depends_on].
  rewrite per_member_lookup by apply epic_members_NoDup. case_decide; [|set_solver].
  destruct (workspaces_by_key W !! m) as [w|]; [|set_solver]. cbn [from_option]; unfold Datatypes.id.
  intros Hd. by eapply linked_members_member.
Qed.

Lemma merge_order_total r :
  NoDup (pr_members r) ->
  exists k, merge_order_of r = Some (map (fun key => mkEntry key (unsettled_preds r key))
      (push_new (order k) (sorted_elements (list_to_set (filter (fun m => m ∉ order k) (pr_members r))))))
    /\ draining (pr_members r) (restricted r) k /\ queue k = [].
Proof.
  intros Hnd. destruct (waves_total (pr_members r) (restricted r) Hnd) as (k & E & Hk & Hq).
  exists k. unfold merge_order_of. by rewrite E.
Qed.

Lemma pr_members_NoDup record W : NoDup (pr_members (resolved_graph record W)).
Proof. unfold pr_members. apply NoDup_filter. rewrite rs_members_eq. apply epic_members_NoDup. Qed.

(** The parts a snapshot is made of; they always exist. *)
Lemma resolve_parts record W inp latch :
  let r := resolved_graph record W in
  exists k downstream ms l snap,
    waves (epic_members record W) (depends_on r)
    = Some (wave k, order k, list_to_set (filter (fun m => m ∉ order k) (epic_members record W)))
    /\ draining (epic_members record W) (depends_on r) k /\ queue k = []
    /\ resolve_members record inp r (wave k) downstream
         (list_to_set (filter (fun m => m ∉ order k) (epic_members record W)))
         (epic_members record W) (mkLatch latch ∅) = (ms, l)
    /\ resolve record W inp latch = Some (snap, filter (fun kv => kv.1 ∈ seen l) (ages l))
    /\ members snap = merge_sort member_le ms
    /\ total snap = as_u32 (length (members snap))
    /\ done snap = count_status is_done (members snap)
    /\ merge_order_of r = Some (sn_merge_order snap)
    /\ critical_path (order k) (depends_on r) = Some (sn_critical_path snap)
    /\ sn_key snap = r_key record.
Proof.
  intros r. unfold resolve. fold r. change (rs_members r) with (epic_members record W).
  destruct (waves_total (epic_members record W) (depends_on r) (epic_members_NoDup record W))
    as (k & E & Hk & Hq).
  destruct (count_downstream_spec (epic_members record W) (depends_on r) (epic_members record W)
    (epic_members_NoDup record W) (graph_closed record W)) as (downstream & Ed & _); [done|].
  fold (downstream_counts (epic_members record W) (depends_on r)) in Ed.
  destruct (critical_path_spec (epic_members record W) (depends_on r) _ _ _
    (epic_members_NoDup record W) (graph_closed record W) E) as (path & Ep & _).
  destruct (merge_order_total r (pr_members_NoDup record W)) as (k' & Em & _).
  destruct (resolve_members record inp r (wave k) downstream
    (list_to_set (filter (fun m => m ∉ order k) (epic_members record W)))
    (epic_members record W) (mkLatch latch ∅)) as [ms l] eqn:Er.
  exists k, downstream, ms, l. eexists. rewrite E, Ed, Er, Ep, Em. split_and!; try done.
Qed.

Lemma resolve_total record W inp latch :
  exists snap latch', resolve record W inp latch = Some (snap, latch').
Proof.
  destruct (resolve_parts record W inp latch) as (k & downstream & ms & l & snap & _ & _ & _ & _ & E & _).
  by eexists _, _.
Qed.

#[export] Instance member_le_trans : Transitive member_le.
Proof.
  intros a b c. unfold member_le. intros [?|[E1 ?]] [?|[E2 ?]]; [lia|lia|lia|].
  right. split; [lia|by etrans].
Qed.

#[export] Instance member_le_total : Total member_le.
Proof.
  intros a b. unfold member_le. destruct (Z.lt_trichotomy (em_wave a) (em_wave b)) as [?|[E|?]]; [auto| |auto].
  destruct (stdpp.base.total String.le (em_key a) (em_key b)); auto.
Qed.

(** C39: the resolver is total and reports every member once.  Whatever the
    workspaces, the agents and the latch, [resolve] returns a snapshot; its members
    are exactly the resolved members of the record, sorted by wave and key; each is
    [Done] exactly when its deliverable landed; and every member from which a
    dependency cycle can be reached carries the dependency-cycle blocker. *)
Theorem resolve_reports_every_member record W inp latch :
  exists snap latch',
    resolve record W inp latch = Some (snap, latch')
    /\ map em_key (members snap) ≡ₚ epic_members record W
    /\ StronglySorted member_le (members snap)
    /\ total snap = as_u32 (length (epic_members record W))
    /\ (forall m w, m ∈ members snap -> workspaces_by_key W !! em_key m = Some w ->
          em_status m = Done <-> member_done w = true)
    /\ (forall m c, m ∈ members snap ->
          rtc (depends (depends_on (resolved_graph record W))) (em_key m) c ->
          tc (depends (depends_on (resolved_graph record W))) c c ->
          exists b, b ∈ blockers m /\ b_kind b = Cycle /\ reason b = "dependency cycle"%string).
Proof.
  destruct (resolve_parts record W inp latch)
    as (k & downstream & ms & l & snap & _ & Hk & Hq & Er & Hres & Hms & Htot & _ & _).
  destruct (resolve_members_spec record inp (resolved_graph record W) (wave k) downstream
    (list_to_set (filter (fun m => m ∉ order k) (epic_members record W)))
    (epic_members record W) (mkLatch latch ∅)) as (Hkeys & _ & Hall).
  rewrite Er in Hkeys, Hall. cbn [fst snd] in *. rewrite Forall_forall in Hall.
  assert (forall m, m ∈ members snap <-> m ∈ ms) as Hin
    by (intros m; by rewrite Hms, merge_sort_Permutation).
  eexists snap, _. split_and!; [exact Hres| | | | |].
  - rewrite Hms, merge_sort_Permutation. by rewrite Hkeys.
  - rewrite Hms. apply StronglySorted_merge_sort; apply _.
  - rewrite Htot, Hms. f_equal. by rewrite merge_sort_Permutation, <- Hkeys, length_map.
  - intros m w Hm Hw. apply Hin in Hm. rewrite (mf_status _ _ _ _ _ _ _ (Hall m Hm) w Hw).
    apply member_status_Done.
  - intros m c Hm Hmc Hcc. apply Hin in Hm.
    apply (mf_cycle _ _ _ _ _ _ _ (Hall m Hm)). rewrite elem_of_list_to_set, list_elem_of_filter.
    assert (em_key m ∈ epic_members record W) as Hmem
      by (rewrite <- Hkeys; apply list_elem_of_In, in_map, list_elem_of_In, Hm).
    split; [|done]. apply (drained_is_acyclic _ _ k _ Hk Hq Hmem (graph_closed record W)). by exists c.
Qed.

(** the age of a blocker survives recomputes.  When a second resolve, at any
    later time and on any workspaces, runs on the latch the first one left, a
    derived blocker that is still there with the same kind and reason keeps the
    [since] it was first reported with; a blocker not in the latch is stamped with
    the time of the recompute. *)
Theorem blocker_ages_are_stable record W1 W2 inp1 inp2 latch0 snap1 latch1 snap2 latch2 m1 m2 b1 b2 :
  resolve record W1 inp1 latch0 = Some (snap1, latch1) ->
  resolve record W2 inp2 latch1 = Some (snap2, latch2) ->
  m1 ∈ members snap1 -> m2 ∈ members snap2 -> em_key m1 = em_key m2 ->
  declared inp1 !! em_key m1 = None -> declared inp2 !! em_key m2 = None ->
  b1 ∈ blockers m1 -> b2 ∈ blockers m2 ->
  b_kind b1 = b_kind b2 -> reason b1 = reason b2 ->
  since b2 = since b1
  /\ since b1 = default (now inp1) (latch0 !! (em_key m1, b_kind b1, reason b1)).
Proof.
  assert (forall record W inp latch snap latch' m b,
    resolve record W inp latch = Some (snap, latch') -> m ∈ members snap ->
    declared inp !! em_key m = None -> b ∈ blockers m ->
    latch' !! (em_key m, b_kind b, reason b) = Some (since b)
    /\ since b = default (now inp) (latch !! (em_key m, b_kind b, reason b))) as Hage.
  { clear. intros record W inp latch snap latch' m b Hres Hm Hd Hb.
    destruct (resolve_parts record W inp latch)
      as (k & downstream & ms & l & snap' & _ & _ & _ & Er & Hres' & Hms & _).
    rewrite Hres in Hres'. injection Hres' as <- ->.
    destruct (resolve_members_spec record inp (resolved_graph record W) (wave k) downstream
      (list_to_set (filter (fun m => m ∉ order k) (epic_members record W)))
      (epic_members record W) (mkLatch latch ∅)) as (_ & Hext & Hall).
    rewrite Er in Hext, Hall. cbn [fst snd] in *. rewrite Forall_forall in Hall.
    rewrite Hms, merge_sort_Permutation in Hm.
    destruct (mf_ages _ _ _ _ _ _ _ (Hall m Hm) b Hb) as [[Ha Hs]|(d & Hd' & _)]; [|congruence].
    split.
    - apply map_lookup_filter_Some. by split.
    - apply (ae_new _ _ _ Hext _ _ Ha). }
  intros H1 H2 Hm1 Hm2 Hk Hd1 Hd2 Hb1 Hb2 Hkind Hreason.
  destruct (Hage _ _ _ _ _ _ _ _ H1 Hm1 Hd1 Hb1) as [Hl1 Hs1].
  destruct (Hage _ _ _ _ _ _ _ _ H2 Hm2 Hd2 Hb2) as [_ Hs2].
  split; [|done]. rewrite Hs2, <- Hk, <- Hkind, <- Hreason, Hl1. done.
Qed.

(** what the snapshot shows as held is what the merge gate enforces.  For every
    record that is not archived, the predecessors a mergeable member is shown held
    behind, and those of any entry of the landing order, are all returned by the
    gate of the auto-merge and manual-merge paths; so a member the gate frees is
    shown free. *)
Theorem shown_hold_is_enforced record records W inp latch snap latch' :
  resolve record W inp latch = Some (snap, latch') -> record ∈ records -> archived record = false ->
  (forall m h p, m ∈ members snap -> em_status m = SMergeable h -> p ∈ h ->
     p ∈ held_by_in records W (em_key m))
  /\ (forall e p, e ∈ sn_merge_order snap -> p ∈ mo_held_by e -> p ∈ held_by_in records W (mo_key e)).
Proof.
  intros Hres Hin Harch.
  assert (forall key p, p ∈ unsettled_preds (resolved_graph record W) key ->
    p ∈ held_by_in records W key) as Hgate.
  { intros key p Hp. apply held_by_in_elem. exists record. split; [|done].
    apply list_elem_of_In, filter_In. rewrite Harch. split; [by apply list_elem_of_In|done]. }
  destruct (resolve_parts record W inp latch)
    as (k & downstream & ms & l & snap' & _ & _ & _ & Er & Hres' & Hms & _ & _ & Hmo & _).
  rewrite Hres in Hres'. injection Hres' as <- _.
  destruct (resolve_members_spec record inp (resolved_graph record W) (wave k) downstream
    (list_to_set (filter (fun m => m ∉ order k) (epic_members record W)))
    (epic_members record W) (mkLatch latch ∅)) as (Hkeys & _ & Hall).
  rewrite Er in Hkeys, Hall. cbn [fst snd] in *. rewrite Forall_forall in Hall. split.
  - intros m h p Hm Hst Hp. rewrite Hms, merge_sort_Permutation in Hm. apply Hgate.
    destruct (epic_members_loaded record W (em_key m)) as (w & Hw & _).
    { rewrite <- Hkeys. by apply list_elem_of_In, in_map, list_elem_of_In. }
    rewrite (mf_status _ _ _ _ _ _ _ (Hall m Hm) w Hw) in Hst.
    by apply member_status_SMergeable in Hst as ->.
  - intros e p He Hp. destruct (merge_order_total (resolved_graph record W) (pr_members_NoDup record W))
      as (k' & Em & _). rewrite Em in Hmo. injection Hmo as Hmo. rewrite <- Hmo in He.
    apply list_elem_of_In, in_map_iff in He as (key & <- & _). by apply Hgate.
Qed.

Lemma push_new_prefix ms keys : exists rest, push_new ms keys = ms ++ rest.
Proof.
  revert ms. induction keys as [|key keys IH]; intros ms; simpl; [exists []; by rewrite app_nil_r|].
  case_bool_decide; [apply IH|]. destruct (IH (ms ++ [key])) as [rest E]. exists (key :: rest).
  unfold push_new in *. by rewrite E, <- app_assoc.
Qed.

Lemma restricted_deps r m p :
  NoDup (pr_members r) -> m ∈ pr_members r ->
  depends (restricted r) m p <-> p ∈ preds r m /\ p ∈ pr_members r.
Proof.
  intros Hnd Hm. unfold depends, deps, restricted.
  rewrite (insert_all_NoDup _ _ m (preds r m ∩ list_to_set (pr_members r))).
  - cbn [from_option]; unfold Datatypes.id. by rewrite elem_of_intersection, elem_of_list_to_set.
  - rewrite map_map. simpl. by rewrite map_id.
  - apply list_elem_of_In, in_map_iff. exists m. split; [done|by apply list_elem_of_In].
Qed.

Lemma pr_members_elem r m : m ∈ pr_members r <-> m ∈ rs_members r /\ has_pr r !! m = Some true.
Proof.
  unfold pr_members. rewrite list_elem_of_filter. destruct (has_pr r !! m) as [[]|]; simpl; naive_solver.
Qed.

(** the landing order lists every live pull request once, and it is an order one
    can land in: a predecessor with a live pull request comes before every listed
    member that waits for it, unless that member waits on a cycle of the landing
    graph. *)
Theorem merge_order_can_be_landed record W :
  let r := resolved_graph record W in
  exists mo, merge_order_of r = Some mo
    /\ NoDup (map mo_key mo)
    /\ (forall m, m ∈ map mo_key mo <-> m ∈ epic_members record W /\ has_pr r !! m = Some true)
    /\ (forall i m p, map mo_key mo !! i = Some m -> p ∈ preds r m -> p ∈ map mo_key mo ->
          ~ (exists c, rtc (depends (restricted r)) m c /\ tc (depends (restricted r)) c c) ->
          exists j, (j < i)%nat /\ map mo_key mo !! j = Some p)
    /\ (forall e, e ∈ mo -> mo_held_by e = unsettled_preds r (mo_key e)).
Proof.
  intros r. pose proof (pr_members_NoDup record W) as Hnd. fold r in Hnd.
  destruct (merge_order_total r Hnd) as (k & Em & Hk & Hq). eexists. split; [exact Em|].
  rewrite map_map. cbn [mo_key]. rewrite map_id.
  assert (forall m d, m ∈ pr_members r -> depends (restricted r) m d -> d ∈ pr_members r) as Hclosed
    by (intros m d Hm Hd; by apply restricted_deps in Hd as [_ ?]).
  set (cyc := sorted_elements _).
  assert (forall m, m ∈ push_new (order k) cyc <-> m ∈ pr_members r) as Hin.
  { intros m. rewrite push_new_elem. unfold cyc.
    rewrite sorted_elements_elem, elem_of_list_to_set, list_elem_of_filter.
    pose proof (dr_sub _ _ _ Hk m) as Hs. rewrite Hq, app_nil_r in Hs.
    destruct (decide (m ∈ order k)); naive_solver. }
  split_and!.
  - apply push_new_NoDup. pose proof (dr_NoDup _ _ _ Hk) as Ho. by apply NoDup_app in Ho as (? & _ & _).
  - intros m. rewrite Hin. apply pr_members_elem.
  - intros i m p Hi Hp Hpin Hno. rewrite Hin in Hpin.
    assert (m ∈ pr_members r) as Hm by (apply Hin; by eapply list_elem_of_lookup_2).
    destruct (decide (m ∈ order k)) as [Ho|Ho].
    2: { exfalso. apply Hno. by apply (drained_is_acyclic _ _ k m Hk Hq Hm Hclosed). }
    destruct (push_new_prefix (order k) cyc) as [rest E].
    apply list_elem_of_lookup in Ho as [i' Hi'].
    assert (i = i') as ->.
    { apply (NoDup_lookup (push_new (order k) cyc) i i' m); [|done|by rewrite E; apply lookup_app_l_Some].
      apply push_new_NoDup. pose proof (dr_NoDup _ _ _ Hk) as Ho. by apply NoDup_app in Ho as (? & _ & _). }
    pose proof (dr_topo _ _ _ Hk i' m Hi' p) as Ht.
    rewrite elem_of_list_to_set in Ht.
    assert (p ∈ take i' (order k)) as Hpt by (apply Ht, restricted_deps; done).
    apply elem_of_take in Hpt as (j & Hj & Hlt). exists j. split; [done|]. rewrite E.
    by apply lookup_app_l_Some.
  - intros e (key & <- & _)%list_elem_of_In%in_map_iff. done.
Qed.

Definition example_inputs (now : Z) : Inputs := mkInputs ∅ ∅ (mkLatches ∅ ∅) now.

Definition waiting_b : Blocker := mkBlocker Dependency "waiting on a" (OAgent "a"%string) 5 0.

Definition row_a : EpicMember := mkMember "a" 0 (SMergeable []) [] [] [] None.
Definition row_b : EpicMember :=
  mkMember "b" 1 (SMergeable ["a"%string]) ["a"%string] [] [waiting_b] None.

(** The two snapshots of consecutive recomputes. *)
Definition two_resolves (W1 W2 : list Workspace) : option (EpicSnapshot * EpicSnapshot) :=
  match resolve example_record W1 (example_inputs 5) ∅ with
  | Some (s1, l1) =>
      match resolve example_record W2 (example_inputs 9) l1 with
      | Some (s2, _) => Some (s1, s2)
      | None => None
      end
  | None => None
  end.

Lemma blocker_ages_are_stable_witness :
  exists snap1 latch1 snap2 latch2 m1 m2,
    resolve example_record example_before (example_inputs 5) ∅ = Some (snap1, latch1)
    /\ resolve example_record example_before (example_inputs 9) latch1 = Some (snap2, latch2)
    /\ m1 ∈ members snap1 /\ m2 ∈ members snap2 /\ waiting_b ∈ blockers m1 /\ waiting_b ∈ blockers m2
    /\ since waiting_b = default 5 ((∅ : gmap LatchKey Z) !! (em_key m1, b_kind waiting_b, reason waiting_b)).
Proof.
  destruct (resolve_total example_record example_before (example_inputs 5) ∅) as (snap1 & latch1 & E1).
  destruct (resolve_total example_record example_before (example_inputs 9) latch1) as (snap2 & latch2 & E2).
  assert (exists m1 m2, m1 ∈ members snap1 /\ m2 ∈ members snap2 /\ em_key m1 = em_key m2
    /\ waiting_b ∈ blockers m1 /\ waiting_b ∈ blockers m2) as (m1 & m2 & Hm1 & Hm2 & Hk & Hb1 & Hb2).
  { assert ((fun p => (members p.1, members p.2)) <$> two_resolves example_before example_before
      = Some ([row_a; row_b], [row_a; row_b])) as F by (vm_compute; reflexivity).
    unfold two_resolves in F. rewrite E1, E2 in F. injection F as -> ->.
    exists row_b, row_b. split; [right; left|]. split; [right; left|]. split; [reflexivity|].
    split; left. }
  exists snap1, latch1, snap2, latch2, m1, m2. split; [exact E1|]. split; [exact E2|].
  do 4 (split; [assumption|]).
  exact (proj2 (blocker_ages_are_stable example_record example_before example_before (example_inputs 5)
    (example_inputs 9) ∅ snap1 latch1 snap2 latch2 m1 m2 waiting_b waiting_b E1 E2 Hm1 Hm2 Hk
    (lookup_empty _) (lookup_empty _) Hb1 Hb2 eq_refl eq_refl)).
Defined.

Lemma shown_hold_is_enforced_witness :
  exists snap latch' m, resolve example_record example_before (example_inputs 5) ∅ = Some (snap, latch')
    /\ m ∈ members snap /\ em_status m = SMergeable ["a"%string]
    /\ "a"%string ∈ held_by_in [example_record] example_before (em_key m).
Proof.
  destruct (resolve_total example_record example_before (example_inputs 5) ∅) as (snap & latch' & E).
  assert (exists m, m ∈ members snap /\ em_status m = SMergeable ["a"%string]) as (m & Hm & Hs).
  { assert ((fun p => members p.1) <$> resolve example_record example_before (example_inputs 5) ∅
      = Some [row_a; row_b]) as F by (vm_compute; reflexivity).
    rewrite E in F. injection F as ->. exists row_b. split; [right; left|reflexivity]. }
  exists snap, latch', m. split; [exact E|]. split; [exact Hm|]. split; [exact Hs|].
  refine (proj1 (shown_hold_is_enforced example_record [example_record] example_before
    (example_inputs 5) ∅ snap latch' E _ eq_refl) m ["a"%string] "a"%string Hm Hs _); left.
Defined.

(** ** Dispatch *)

Lemma with_unblocks_total ms D keys :
  NoDup ms -> (forall m d, m ∈ ms -> depends D m d -> d ∈ ms) -> (forall k, k ∈ keys -> k ∈ ms) ->
  exists out, with_unblocks ms (dependents_of ms D) keys = Some out /\ map fst out = keys
    /\ forall k n, (k, n) ∈ out -> exists X : gset WorkspaceKey, n = as_u32 (size X)
         /\ forall x, x ∈ X <-> x ∈ ms /\ x <> k /\ tc (depends D) x k.
Proof.
  intros Hms Hclosed. induction keys as [|key keys IH]; intros Hsub; cbn [with_unblocks].
  { exists []. split_and!; [done|done|]. intros k n Hk. by apply elem_of_nil in Hk. }
  destruct (downstream_spec ms D Hms Hclosed key) as (X & -> & HX); [apply Hsub; by left|].
  destruct IH as (out & -> & Hfst & Hout); [intros k Hk; apply Hsub; by right|].
  eexists. split; [reflexivity|]. split; [simpl; by rewrite Hfst|].
  intros k n [[= -> ->]|Hin]%elem_of_cons; [by exists X|by apply Hout].
Qed.

(** The snapshot's dependents are those of the resolved graph. *)
Lemma snapshot_dependents_eq record inp r wave downstream cycle keys l0 ms l s :
  resolve_members record inp r wave downstream cycle keys l0 = (ms, l) ->
  members s = merge_sort member_le ms ->
  snapshot_dependents s = dependents_of (map em_key (members s)) (depends_on r).
Proof.
  intros Er Hs.
  assert (forall m, m ∈ ms -> em_blocked_by m = deps_of (depends_on r) (em_key m)) as Hb.
  { clear Hs s. revert l0 ms l Er. induction keys as [|key keys IH]; intros l0 ms l Er; cbn [resolve_members] in Er.
    - injection Er as <- <-. intros m Hm. by apply elem_of_nil in Hm.
    - unfold resolve_member in Er. destruct (blockers_for _ _ _ _ _ _ _ _) as [bs l1].
      destruct (resolve_members _ _ _ _ _ _ _ _) as [ms' l2] eqn:Er'. injection Er as <- <-.
      intros m [->|Hm]%elem_of_cons; [|by eapply IH]. done. }
  assert (forall m, m ∈ members s -> em_blocked_by m = deps_of (depends_on r) (em_key m)) as Hb'
    by (intros m; rewrite Hs, merge_sort_Permutation; apply Hb).
  unfold snapshot_dependents, dependents_of. clear -Hb'. generalize (∅ : gmap WorkspaceKey (list WorkspaceKey)).
  induction (members s) as [|m l IH]; intros M; [done|]. cbn [map fold_left].
  rewrite (Hb' m) by by left. apply IH. intros m' Hm'. apply Hb'. by right.
Qed.

Lemma take_filter_keeps (P : WorkspaceKey -> Prop) `{!forall k, Decision (P k)} n (l : list WorkspaceKey) k :
  k ∈ l -> P k -> k ∉ take n (filter P l) -> length (take n (filter P l)) = n.
Proof.
  intros Hk HP Hn. rewrite length_take. destruct (decide (n <= length (filter P l))%nat); [lia|].
  exfalso. apply Hn. rewrite take_ge by lia. by apply list_elem_of_filter.
Qed.

Lemma map_dt_member epic keys :
  map dt_member (map (fun m => mkTicket m (dispatch_dedup_key epic m)) keys) = keys.
Proof. rewrite map_map. simpl. apply map_id. Qed.

(** The members shown [Ready]. *)
Definition ready_members (s : EpicSnapshot) : list WorkspaceKey :=
  map em_key (List.filter (fun m => is_ready (em_status m)) (members s)).

Lemma ready_members_elem s x :
  x ∈ ready_members s <-> exists m, m ∈ members s /\ em_key m = x /\ em_status m = Ready.
Proof.
  unfold ready_members. rewrite list_elem_of_In, in_map_iff. split.
  - intros (m & <- & [Hm Hr]%filter_In). exists m. split; [by apply list_elem_of_In|].
    by destruct (em_status m).
  - intros (m & Hm & <- & Hr). exists m. split; [done|]. apply filter_In. rewrite Hr.
    split; [by apply list_elem_of_In|done].
Qed.

Lemma ready_members_NoDup s : NoDup (map em_key (members s)) -> NoDup (ready_members s).
Proof.
  unfold ready_members. induction (members s) as [|m l IH]; intros Hnd; simpl in *; [constructor|].
  apply NoDup_cons in Hnd as [Hm Hnd]. destruct (is_ready (em_status m)); simpl; [|by apply IH].
  apply NoDup_cons. split; [|by apply IH]. contradict Hm.
  apply list_elem_of_In, in_map_iff in Hm as (m' & <- & [Hm' _]%filter_In).
  by apply list_elem_of_In, in_map.
Qed.

(** On a snapshot the resolver produced, the ready queue exists and holds the
    ready members once each, with the number of members waiting for them. *)
Lemma ready_queue_spec record W inp latch snap latch' :
  resolve record W inp latch = Some (snap, latch') ->
  sn_key snap = r_key record /\
  exists out, ready_queue snap = Some (merge_sort longer out)
    /\ map fst (merge_sort longer out) ≡ₚ ready_members snap /\ NoDup (ready_members snap)
    /\ forall k n, (k, n) ∈ out -> exists X : gset WorkspaceKey, n = as_u32 (size X)
         /\ forall x, x ∈ X <-> x ∈ epic_members record W /\ x <> k
              /\ tc (depends (depends_on (resolved_graph record W))) x k.
Proof.
  intros Hres.
  destruct (resolve_parts record W inp latch)
    as (k & dn & ms & l & snap' & _ & _ & _ & Er & Hres' & Hms & _ & _ & _ & _ & Hkey).
  rewrite Hres in Hres'. injection Hres' as <- _. split; [done|].
  destruct (resolve_members_spec record inp (resolved_graph record W) (wave k) dn
    (list_to_set (filter (fun m => m ∉ order k) (epic_members record W)))
    (epic_members record W) (mkLatch latch ∅)) as (Hkeys & _ & _).
  rewrite Er in Hkeys. cbn [fst] in Hkeys.
  assert (map em_key (members snap) ≡ₚ epic_members record W) as Hperm
    by (rewrite Hms, merge_sort_Permutation; by rewrite Hkeys).
  assert (NoDup (map em_key (members snap))) as Hnd by (rewrite Hperm; apply epic_members_NoDup).
  destruct (with_unblocks_total (map em_key (members snap)) (depends_on (resolved_graph record W))
    (ready_members snap) Hnd) as (out & Hout & Hfst & HX).
  { intros m d Hm Hd. rewrite Hperm in *. by eapply graph_closed. }
  { intros x (m & Hm & <- & _)%ready_members_elem. apply list_elem_of_In, in_map, list_elem_of_In, Hm. }
  exists out. split_and!.
  - unfold ready_queue. rewrite (snapshot_dependents_eq _ _ _ _ _ _ _ _ _ _ _ Er Hms).
    fold (ready_members snap). by rewrite Hout.
  - rewrite <- Hfst. apply Permutation_map, merge_sort_Permutation.
  - by apply ready_members_NoDup.
  - intros x n Hin. destruct (HX x n Hin) as (X & -> & HX'). exists X. split; [done|].
    intros y. rewrite HX'. by rewrite Hperm.
Qed.

(** The members a plan starts: what is left of the queue after the exclusions,
    up to the room under the cap. *)
Lemma plan_dispatch_members snap p ctx queue :
  ready_queue snap = Some queue ->
  let elig := filter (fun key => key ∉ excluded ctx /\ key ∉ opted_out ctx) (map fst queue) in
  let picked := if armed p AutoDispatch then take (max_workers ctx - live_workers ctx) elig else [] in
  exists tickets, plan_dispatch snap p ctx = Some tickets /\ map dt_member tickets = picked
    /\ forall t, t ∈ tickets -> dedup_key t = dispatch_dedup_key (sn_key snap) (dt_member t).
Proof.
  intros Hq elig picked.
  exists (map (fun m => mkTicket m (dispatch_dedup_key (sn_key snap) m)) picked). split_and!.
  - unfold plan_dispatch, picked. destruct (armed p AutoDispatch); [|done]. cbn [negb].
    destruct (Nat.eqb_spec (max_workers ctx - live_workers ctx) 0) as [->|_]; [done|].
    by rewrite Hq.
  - apply map_dt_member.
  - intros t Hin. by apply list_elem_of_In, in_map_iff in Hin as (m & <- & _).
Qed.

(** auto-dispatch stays inside the dial.  On every snapshot the resolver produces
    the plan exists; it is empty unless the latch is armed; it starts no more
    workers than the cap leaves, never two on one member, only on members that are
    [Ready] and neither excluded nor opted out; it leaves a startable member out
    only when the cap is reached; and the members are taken in the order of how
    many others transitively wait for them. *)
Theorem dispatch_stays_inside_the_dial record W inp latch snap latch' p ctx :
  resolve record W inp latch = Some (snap, latch') ->
  let D := depends_on (resolved_graph record W) in
  let startable k := (exists m, m ∈ members snap /\ em_key m = k /\ em_status m = Ready)
                     /\ k ∉ excluded ctx /\ k ∉ opted_out ctx in
  exists tickets queue, plan_dispatch snap p ctx = Some tickets
    /\ (armed p AutoDispatch = false -> tickets = [])
    /\ (length tickets <= max_workers ctx - live_workers ctx)%nat
    /\ NoDup (map dt_member tickets)
    /\ (forall t, t ∈ tickets -> startable (dt_member t)
          /\ dedup_key t = dispatch_dedup_key (r_key record) (dt_member t))
    /\ (armed p AutoDispatch = true -> forall k, startable k -> k ∉ map dt_member tickets ->
          length tickets = (max_workers ctx - live_workers ctx)%nat)
    /\ StronglySorted longer queue /\ map dt_member tickets `sublist_of` map fst queue
    /\ (forall k n, (k, n) ∈ queue -> exists X : gset WorkspaceKey, n = as_u32 (size X)
          /\ forall x, x ∈ X <-> x ∈ epic_members record W /\ x <> k /\ tc (depends D) x k).
Proof.
  intros Hres D startable.
  destruct (ready_queue_spec _ _ _ _ _ _ Hres) as (Hkey & out & Hq & Hmf & Hrnd & HX).
  destruct (plan_dispatch_members snap p ctx _ Hq) as (tickets & Hp & Hdt & Hdd).
  set (elig := filter _ _) in Hdt.
  assert (forall x, x ∈ elig <-> startable x) as Helig.
  { intros x. unfold elig. rewrite list_elem_of_filter, Hmf, ready_members_elem.
    unfold startable. naive_solver. }
  exists tickets, (merge_sort longer out). split; [done|]. split_and!.
  - intros Ha. rewrite Ha in Hdt. by destruct tickets.
  - rewrite <- (length_map dt_member), Hdt. destruct (armed _ _); [rewrite length_take; lia|simpl; lia].
  - rewrite Hdt. destruct (armed _ _); [|constructor].
    eapply sublist_NoDup; [|apply sublist_take]. unfold elig. apply NoDup_filter. by rewrite Hmf.
  - intros t Hin. split; [|by rewrite <- Hkey; apply Hdd].
    assert (dt_member t ∈ map dt_member tickets) as Hm
      by (by apply list_elem_of_In, in_map, list_elem_of_In).
    rewrite Hdt in Hm. apply Helig. destruct (armed _ _); [|by apply elem_of_nil in Hm].
    apply elem_of_take in Hm as (i & Hi & _). by eapply list_elem_of_lookup_2.
  - intros Ha x Hx Hnx. rewrite <- (length_map dt_member). rewrite Hdt, Ha in *.
    unfold elig in *. apply (take_filter_keeps _ _ _ x); [|apply Hx|done].
    apply Helig, list_elem_of_filter in Hx. apply Hx.
  - apply StronglySorted_merge_sort; apply _.
  - rewrite Hdt. destruct (armed _ _); [|apply sublist_nil_l].
    etrans; [apply sublist_take|apply sublist_filter].
  - intros x n Hin. rewrite merge_sort_Permutation in Hin. by apply HX.
Qed.

(** Two issues ready to start, under a cap of one more worker. *)
Definition example_issue (k : string) (blockers : list string) : Workspace :=
  mkWorkspace k k None
    [plain_task (Work.mkTaskId "github" k) Open_ CiNone RvNone MUnknown KIssue
       (map (Work.mkTaskId "github") blockers)] [] false false.

Definition example_issues : list Workspace :=
  [example_issue "a" []; example_issue "b" ["a"]; example_issue "c" []]%string.

Definition example_issues_record : EpicRecord :=
  mkRecord "e" "Epic" None ["c"; "a"; "b"]%string false true (mkPolicies Arm Arm Arm) false.

Lemma dispatch_stays_inside_the_dial_witness :
  exists snap latch' tickets,
    resolve example_issues_record example_issues (example_inputs 5) ∅ = Some (snap, latch')
    /\ plan_dispatch snap (mkPolicies Arm Arm Arm) (mkContext 1 2 ∅ ∅) = Some tickets
    /\ (length tickets <= 1)%nat
    /\ tickets = [mkTicket "a" "autospawn-epic:e:a"].
Proof.
  destruct (resolve_total example_issues_record example_issues (example_inputs 5) ∅) as (snap & latch' & E).
  destruct (dispatch_stays_inside_the_dial example_issues_record example_issues (example_inputs 5) ∅
    snap latch' (mkPolicies Arm Arm Arm) (mkContext 1 2 ∅ ∅) E) as (tickets & queue & Hp & _ & Hl & _).
  exists snap, latch', tickets. split; [exact E|]. split; [exact Hp|]. split; [exact Hl|].
  assert (match resolve example_issues_record example_issues (example_inputs 5) ∅ with
    | Some (s, _) => plan_dispatch s (mkPolicies Arm Arm Arm) (mkContext 1 2 ∅ ∅) | None => None end
    = Some [mkTicket "a" "autospawn-epic:e:a"]) as F by (vm_compute; reflexivity).
  rewrite E, Hp in F. by injection F as ->.
Defined.

(** ** Deltas *)

(** The member a status delta is about. *)
Definition status_about (d : EpicDelta) : option WorkspaceKey :=
  match d with
  | Unblocked k _ | StatusChanged k _ _ | Held k _ | Released k | Reviewed k _ => Some k
  | _ => None
  end.

Lemma member_of_Some s m :
  NoDup (map em_key (members s)) -> m ∈ members s -> member_of s (em_key m) = Some m.
Proof.
  intros Hnd Hm. unfold member_of. apply insert_all_NoDup.
  - by rewrite map_map.
  - apply list_elem_of_In, in_map_iff. exists m. split; [done|by apply list_elem_of_In].
Qed.

Lemma status_delta_same ms prev m : em_status prev = em_status m -> status_delta ms prev m = [].
Proof. intros H. unfold status_delta. by rewrite bool_decide_eq_true_2. Qed.

(** At most one status delta per member, and one for every change but a change among
    non-empty holds. *)
Lemma status_delta_announces ms prev m :
  em_status prev <> em_status m ->
  (exists d, status_delta ms prev m = [d] /\ status_about d = Some (em_key m))
  \/ (status_delta ms prev m = [] /\ is_held (em_status prev) = true /\ is_held (em_status m) = true).
Proof.
  intros Hne. unfold status_delta. rewrite bool_decide_eq_false_2 by done.
  destruct (bool_decide (em_status prev = ReviewBlocked) || _); [left; by eexists|].
  destruct (bool_decide (em_status prev = Blocked) && _); [left; by eexists|].
  destruct (is_held (em_status m) && _) eqn:C; [left; by eexists|].
  destruct (is_held (em_status prev) && _) eqn:D; [left; by eexists|].
  destruct (negb (_ && _)) eqn:E; [left; by eexists|]. right. split; [done|].
  apply negb_false_iff, andb_true_iff in E as [[h Hh]%bool_decide_eq_true [h' Hh']%bool_decide_eq_true].
  destruct (em_status prev) as [| | | | | |hp| | |] eqn:Ep; try done.
  destruct (em_status m) as [| | | | | |hm| | |] eqn:Em; try done.
  unfold is_held in *. cbn [held_preds is_some_and] in *.
  repeat case_bool_decide; subst; try done.
Qed.

Lemma same_blocker_refl b : same_blocker b b = true.
Proof. unfold same_blocker. by rewrite bool_decide_eq_true_2, String.eqb_refl by done. Qed.

Lemma existsb_same b l : b ∈ l -> existsb (same_blocker b) l = true.
Proof. intros Hb. apply existsb_exists. exists b. split; [by apply list_elem_of_In|apply same_blocker_refl]. Qed.

Lemma blocker_deltas_same m : blocker_deltas m m = [].
Proof.
  unfold blocker_deltas.
  assert (List.filter (fun b => negb (existsb (same_blocker b) (blockers m))) (blockers m) = []) as ->; [|done].
  assert (forall l, (forall b, b ∈ l -> b ∈ blockers m) ->
    List.filter (fun b => negb (existsb (same_blocker b) (blockers m))) l = []) as H; [|by apply H].
  induction l as [|b l IH]; intros Hl; simpl; [done|].
  rewrite (existsb_same b) by (apply Hl; by left). apply IH. intros b' Hb'. apply Hl. by right.
Qed.

Lemma status_delta_about ms prev m d :
  d ∈ status_delta ms prev m -> status_about d = Some (em_key m).
Proof.
  intros Hd. destruct (decide (em_status prev = em_status m)) as [E|E].
  - rewrite status_delta_same in Hd by done. by apply elem_of_nil in Hd.
  - destruct (status_delta_announces ms prev m E) as [(d' & Ed & ?)|(Ed & _)]; rewrite Ed in Hd.
    + by apply list_elem_of_singleton in Hd as ->.
    + by apply elem_of_nil in Hd.
Qed.

Lemma existsb_none b l : existsb (same_blocker b) l = false <-> forall b', b' ∈ l -> same_blocker b b' = false.
Proof.
  rewrite <- not_true_iff_false, existsb_exists. setoid_rewrite <- list_elem_of_In.
  setoid_rewrite <- not_true_iff_false. naive_solver.
Qed.

Lemma blocker_deltas_elem prev m d :
  d ∈ blocker_deltas prev m
  <-> (exists b, b ∈ blockers m /\ d = BlockerAdded (em_key m) b
         /\ forall b', b' ∈ blockers prev -> same_blocker b b' = false)
      \/ (exists b, b ∈ blockers prev /\ d = BlockerCleared (em_key m) (b_kind b) (reason b)
            /\ forall b', b' ∈ blockers m -> same_blocker b b' = false).
Proof.
  unfold blocker_deltas. rewrite elem_of_app, !list_elem_of_In, !in_map_iff.
  setoid_rewrite filter_In. setoid_rewrite negb_true_iff. setoid_rewrite existsb_none.
  setoid_rewrite <- list_elem_of_In. naive_solver.
Qed.

Lemma member_of_elem s key m : member_of s key = Some m -> m ∈ members s /\ em_key m = key.
Proof.
  unfold member_of. intros [Hin|Hin]%insert_all_Some; [|by rewrite lookup_empty in Hin].
  apply list_elem_of_In, in_map_iff in Hin as (m' & [= <- <-] & Hm). split; [by apply list_elem_of_In|done].
Qed.

(** Every delta is of a member that was there before, or of the whole epic. *)
Lemma diff_elem old new d :
  d ∈ diff (Some old) new
  <-> (exists prev m, m ∈ members new /\ member_of old (em_key m) = Some prev
         /\ (d ∈ status_delta (members new) prev m \/ d ∈ blocker_deltas prev m))
      \/ (d = DCompleted /\ complete new = true /\ complete old = false)
      \/ (d = DStalled (if sn_cycle new then "dependency cycle"
                        else "every remaining member is blocked")%string
          /\ stalled new = true /\ stalled old = false).
Proof.
  unfold diff. rewrite !elem_of_app.
  match goal with |- (_ ∈ concat ?l \/ _) <-> _ => assert (d ∈ concat l
    <-> exists prev m, m ∈ members new /\ member_of old (em_key m) = Some prev
         /\ (d ∈ status_delta (members new) prev m \/ d ∈ blocker_deltas prev m)) as -> end.
  { rewrite list_elem_of_In, in_concat. split.
    - intros (l & (m & <- & Hm)%in_map_iff & Hd%list_elem_of_In).
      destruct (member_of old (em_key m)) as [prev|] eqn:E; [|by apply elem_of_nil in Hd].
      exists prev, m. split_and!; [by apply list_elem_of_In|done|by apply elem_of_app].
    - intros (prev & m & Hm & E & Hd). eexists. split.
      + apply in_map_iff. exists m. split; [reflexivity|by apply list_elem_of_In].
      + rewrite E. by apply list_elem_of_In, elem_of_app. }
  assert (forall (c : bool) x, (d ∈ (if c then [x] else [])) <-> c = true /\ d = x) as Hif
    by (intros [] x; [rewrite list_elem_of_singleton|rewrite elem_of_nil]; naive_solver).
  rewrite !Hif, !andb_true_iff, !negb_true_iff. clear Hif. tauto.
Qed.

(** the deltas announce what changed.  A first sight and an unchanged snapshot
    yield none.  Between two snapshots, each with one row per member: every status
    change of a member is announced, except a change among non-empty holds; a
    blocker is announced as added exactly when no blocker of its kind and reason
    was there before, and as cleared exactly when none is left; and completion is
    announced exactly when it is newly reached. *)
Theorem diff_announces_what_changed old new :
  NoDup (map em_key (members old)) -> NoDup (map em_key (members new)) ->
  diff None new = [] /\ diff (Some new) new = []
  /\ (forall prev m, prev ∈ members old -> m ∈ members new -> em_key prev = em_key m ->
        em_status prev <> em_status m ->
        (is_held (em_status prev) = true /\ is_held (em_status m) = true)
        \/ exists d, d ∈ diff (Some old) new /\ status_about d = Some (em_key m))
  /\ (forall prev m b, prev ∈ members old -> m ∈ members new -> em_key prev = em_key m ->
        b ∈ blockers m ->
        BlockerAdded (em_key m) b ∈ diff (Some old) new
        <-> forall b', b' ∈ blockers prev -> same_blocker b b' = false)
  /\ (forall prev m b, prev ∈ members old -> m ∈ members new -> em_key prev = em_key m ->
        b ∈ blockers prev -> (forall b', b' ∈ blockers m -> same_blocker b b' = false) ->
        BlockerCleared (em_key m) (b_kind b) (reason b) ∈ diff (Some old) new)
  /\ (DCompleted ∈ diff (Some old) new <-> complete new = true /\ complete old = false).
Proof.
  intros Hold Hnew.
  assert (forall prev m, prev ∈ members old -> em_key prev = em_key m ->
    member_of old (em_key m) = Some prev) as Hprev by (intros prev m Hp <-; by apply member_of_Some).
  split_and!.
  - done.
  - apply elem_of_nil_inv. intros d [(prev & m & Hm & E & Hd)|[(_ & ? & ?)|(_ & ? & ?)]]%diff_elem;
      [|congruence..]. rewrite member_of_Some in E by done. injection E as <-.
    rewrite status_delta_same, blocker_deltas_same in Hd by done. by destruct Hd as [[]%elem_of_nil|[]%elem_of_nil].
  - intros prev m Hp Hm Hk Hne.
    destruct (status_delta_announces (members new) prev m Hne) as [(d & Ed & Hd)|(_ & ? & ?)]; [right|by left].
    exists d. split; [|done]. apply diff_elem. left. exists prev, m. split_and!; [done|by apply Hprev|].
    left. rewrite Ed. by left.
  - intros prev m b Hp Hm Hk Hb. rewrite diff_elem. split.
    + intros [(prev' & m' & Hm' & E & Hd)|[[? _]|[? _]]]; [|done..].
      destruct Hd as [Hd%status_delta_about|Hd]; [done|].
      apply blocker_deltas_elem in Hd as [(b' & _ & [= Hkk <-] & Hno)|(? & _ & ? & _)]; [|done].
      rewrite <- Hkk in E. rewrite (Hprev prev m Hp Hk) in E. by injection E as <-.
    + intros Hno. left. exists prev, m. split_and!; [done|by apply Hprev|right].
      apply blocker_deltas_elem. left. by exists b.
  - intros prev m b Hp Hm Hk Hb Hno. apply diff_elem. left. exists prev, m.
    split_and!; [done|by apply Hprev|right]. apply blocker_deltas_elem. right. by exists b.
  - rewrite diff_elem. split; [|intros [? ?]; right; left; done].
    intros [(prev & m & _ & _ & [Hd%status_delta_about|Hd])|[(_ & ? & ?)|[? _]]]; [done| |done|done].
    apply blocker_deltas_elem in Hd as [(? & _ & ? & _)|(? & _ & ? & _)]; done.
Qed.

(** A change the deltas announce: [a] lands, and [b] is released. *)
Lemma diff_announces_what_changed_witness :
  exists old new latch1 latch2,
    resolve example_record example_before (example_inputs 5) ∅ = Some (old, latch1)
    /\ resolve example_record example_after (example_inputs 9) latch1 = Some (new, latch2)
    /\ diff (Some new) new = []
    /\ Released "b" ∈ diff (Some old) new.
Proof.
  destruct (resolve_total example_record example_before (example_inputs 5) ∅) as (old & latch1 & E1).
  destruct (resolve_total example_record example_after (example_inputs 9) latch1) as (new & latch2 & E2).
  exists old, new, latch1, latch2. split; [exact E1|]. split; [exact E2|]. split.
  - assert (NoDup (map em_key (members old)) /\ NoDup (map em_key (members new))) as [H1 H2].
    { assert ((fun p => (map em_key (members p.1), map em_key (members p.2)))
        <$> two_resolves example_before example_after = Some (["a"; "b"], ["a"; "b"])%string) as F
        by (vm_compute; reflexivity).
      unfold two_resolves in F. rewrite E1, E2 in F. injection F as -> ->.
      split; apply (bool_decide_unpack _); vm_compute; exact I. }
    exact (proj1 (proj2 (diff_announces_what_changed old new H1 H2))).
  - assert ((fun p => diff (Some p.1) p.2) <$> two_resolves example_before example_after
      = Some [StatusChanged "a" (SMergeable []) Done; Released "b";
              BlockerCleared "b" Dependency "waiting on a"]) as F by (vm_compute; reflexivity).
    unfold two_resolves in F. rewrite E1, E2 in F. apply (inj Some) in F.
    change (diff (Some old) new = [StatusChanged "a" (SMergeable []) Done; Released "b";
              BlockerCleared "b" Dependency "waiting on a"]) in F.
    rewrite F. right. left.
Defined.
