(* ===== verification/Policy.v ===== *)
(** * The merge and repair gates ([src/crates/core/src/policy.rs],
      [src/crates/core/src/autofix.rs])

    The pure decisions about acting on a pull request without the user: may it be
    merged (by hand, or automatically), and may an agent be sent to repair it.
    The phrases are the ones shown to the user.  The per-workspace and per-epic
    arms, with their precedence when two workspaces fold into one. *)

From Stdlib Require Import String.
From S2P Require Import Prelude Text CoreTask Epics.

#[global] Open Scope Z_scope.

(** ** Merging *)

(** The allowlist of [merge_on_green.allow_authors]; [None] opens the gate. *)
Definition MergeOnGreenPolicy : Type := option (gset string).

Definition default_policy : MergeOnGreenPolicy := Some ∅.

Definition normalize_author (login : string) : string :=
  to_ascii_lowercase (trim_end_matches "[bot]" (trim login)).

Definition from_allow_authors (authors : list string) : MergeOnGreenPolicy :=
  Some (list_to_set (List.filter (fun a => negb (is_empty a)) (map normalize_author authors))).

Definition allow_all : MergeOnGreenPolicy := None.

Definition allows_author (p : MergeOnGreenPolicy) (login : string) : bool :=
  match p with
  | None => true
  | Some set =>
      let norm := normalize_author login in
      negb (is_empty norm) && bool_decide (norm ∈ set)
  end.

Definition NON_AUTHOR_BLOCK : string := "only your own PRs auto-merge".

Definition has_human_approval (pr : Task) : bool :=
  existsb (fun r => bool_decide (rv_state r = Approved_) && negb (is_bot r)) (reviews pr).

Definition approval_policy_blocks (pr : Task) : option string :=
  match approval_policy pr with
  | ApDefault => None
  | Human =>
      if has_human_approval pr then None
      else Some "a human approval is required by this repo's policy"%string
  end.

Definition author_gate_blocks (pr : Task) (policy : MergeOnGreenPolicy) : bool :=
  negb (bool_decide (role pr = Author)) && negb (allows_author policy (author pr)).

Definition is_conflicting (m : Mergeable) : bool := bool_decide (m = MConflicting).

Definition merge_block_reason (pr : Task) : option string :=
  if negb (bool_decide (state pr = Open_) || bool_decide (state pr = InReview))
  then Some "the PR isn't open"%string
  else if bool_decide (review pr = RvChangesRequested)
  then Some "changes were requested — address the review first"%string
  else
    match approval_policy_blocks pr with
    | Some reason => Some reason
    | None =>
        if negb (bool_decide (ci pr = CiSuccess) || bool_decide (ci pr = CiNone))
        then Some "CI isn't green yet"%string
        else if is_conflicting (mergeable pr)
        then Some "the branch has merge conflicts"%string
        else if merge_blocked pr
        then Some "a repository rule blocks the merge — required reviews, checks, or signatures aren't satisfied"%string
        else None
    end.

Definition auto_merge_block_reason (ws : Workspace) (policy : MergeOnGreenPolicy) : option string :=
  if negb (auto_merge_on_green ws) then Some "auto-merge on green isn't armed"%string
  else
    match pr ws with
    | None => Some "the workspace has no PR"%string
    | Some p =>
        if auto_merge_enabled p then
          Some (if native_auto_merge_by_lazybox ws
                then "GitHub's native auto-merge — armed by lazybox — will land it"
                else "GitHub's native auto-merge is already enabled")%string
        else if author_gate_blocks p policy then Some NON_AUTHOR_BLOCK
        else if negb (bool_decide (ci p = CiSuccess)) then Some "CI isn't green"%string
        else merge_block_reason p
    end.

Definition is_none {A} (o : option A) : bool := match o with None => true | Some _ => false end.

Definition should_auto_merge (ws : Workspace) (policy : MergeOnGreenPolicy) : bool :=
  is_none (auto_merge_block_reason ws policy).

(** ** Arms *)

Definition arm_rank (a : PolicyArm) : Z :=
  match a with ArmDefault => 0 | Arm => 1 | Disarm => 2 end.

Definition max_decided (a other : PolicyArm) : PolicyArm :=
  if arm_rank a <? arm_rank other then other else a.

Definition toggled_arm (a : PolicyArm) : PolicyArm :=
  match a with ArmDefault => Disarm | Disarm => Arm | Arm => ArmDefault end.

Definition auto_fix_permitted (a : PolicyArm) (label_opted_out : bool) : bool :=
  match a with Disarm => false | Arm => true | ArmDefault => negb label_opted_out end.

(** ** Repairing *)

Inductive AutoFixKind : Type := CiFailure_ | MergeConflict.

#[export] Instance AutoFixKind_eq_dec : EqDecision AutoFixKind.
Proof. solve_decision. Defined.

Definition store_key (k : AutoFixKind) : string :=
  match k with CiFailure_ => "ci" | MergeConflict => "conflict" end.

Record AutomationPolicies : Type := mkAutomation { auto_fix_ci : PolicyArm; auto_fix_conflict : PolicyArm }.

Definition fix_arm (p : AutomationPolicies) (k : AutoFixKind) : PolicyArm :=
  match k with CiFailure_ => auto_fix_ci p | MergeConflict => auto_fix_conflict p end.

Definition set_fix_arm (p : AutomationPolicies) (k : AutoFixKind) (a : PolicyArm) : AutomationPolicies :=
  match k with
  | CiFailure_ => mkAutomation a (auto_fix_conflict p)
  | MergeConflict => mkAutomation (auto_fix_ci p) a
  end.

Definition any_auto_fix_armed (p : AutomationPolicies) : bool :=
  bool_decide (auto_fix_ci p = Arm) || bool_decide (auto_fix_conflict p = Arm).

Definition absorb_automation (p other : AutomationPolicies) : AutomationPolicies :=
  mkAutomation (max_decided (auto_fix_ci p) (auto_fix_ci other))
    (max_decided (auto_fix_conflict p) (auto_fix_conflict other)).

Definition set_latch (p : EpicPolicies) (latch : EpicLatch) (a : PolicyArm) : EpicPolicies :=
  match latch with
  | AutoDispatch => mkPolicies a (auto_review p) (merge_in_order p)
  | AutoReview => mkPolicies (auto_dispatch p) a (merge_in_order p)
  | MergeInOrder => mkPolicies (auto_dispatch p) (auto_review p) a
  end.

Definition toggled (p : EpicPolicies) (latch : EpicLatch) : PolicyArm :=
  match arm p latch with Arm => ArmDefault | ArmDefault | Disarm => Arm end.

Definition armed_latches (p : EpicPolicies) : list EpicLatch :=
  List.filter (armed p) [AutoDispatch; AutoReview; MergeInOrder].

Definition absorb_latches (p other : EpicPolicies) : EpicPolicies :=
  mkPolicies (max_decided (auto_dispatch p) (auto_dispatch other))
    (max_decided (auto_review p) (auto_review other))
    (max_decided (merge_in_order p) (merge_in_order other)).

(** Durations in nanoseconds. *)
Record AutoFixSettings : Type := mkFixSettings {
  enabled : bool;
  opt_out_labels : list string;
  max_attempts : Z;
  cooldown : Z;
  window : Z;
}.

Definition auto_fix_candidate (t : Task) : option AutoFixKind :=
  if negb (is_pr t) then None
  else if bool_decide (state t = Closed) || bool_decide (state t = Merged) || bool_decide (state t = Draft)
  then None
  else if negb (bool_decide (role t = Author)) then None
  else if negb (bool_decide (reviewers t = [])) || bool_decide (review t = RvChangesRequested) then None
  else if is_in_merge_queue t then None
  else if is_conflicting (mergeable t) then Some MergeConflict
  else if bool_decide (ci t = CiFailure) then Some CiFailure_
  else None.

Definition is_auto_fix_opted_out (t : Task) (s : AutoFixSettings) : bool :=
  existsb (fun l => existsb (fun opt => eq_ignore_ascii_case opt l) (opt_out_labels s)) (labels t).

Definition auto_fix_enabled_and_permitted (enabled label_opted_out : bool) (a : PolicyArm) : bool :=
  enabled && auto_fix_permitted a label_opted_out.

Definition resolve_auto_fix (t : Task) (s : AutoFixSettings) (a : PolicyArm) : option AutoFixKind :=
  match auto_fix_candidate t with
  | None => None
  | Some kind =>
      if auto_fix_enabled_and_permitted (enabled s) (is_auto_fix_opted_out t s) a
      then Some kind else None
  end.

Definition evaluate_auto_fix (t : Task) (s : AutoFixSettings) : option AutoFixKind :=
  resolve_auto_fix t s ArmDefault.

(** ** Folding *)

(** The arm a list of arms folds to. *)
Definition most_decisive (l : list PolicyArm) : PolicyArm :=
  if bool_decide (Disarm ∈ l) then Disarm else if bool_decide (Arm ∈ l) then Arm else ArmDefault.

Lemma max_decided_fold a l : fold_left max_decided l a = most_decisive (a :: l).
Proof.
  revert a. induction l as [|b l IH]; intros a; [by destruct a|]. simpl. rewrite IH.
  assert (He : forall x, x ∈ max_decided a b :: l <->
    (x = max_decided a b \/ x ∈ l)) by (intros x; apply elem_of_cons).
  assert (He' : forall x, x ∈ a :: b :: l <-> (x = a \/ x = b \/ x ∈ l))
    by (intros x; by rewrite !elem_of_cons).
  unfold most_decisive. rewrite !(bool_decide_ext _ _ (He _)), !(bool_decide_ext _ _ (He' _)).
  destruct (decide (Disarm ∈ l)) as [Hd|Hd].
  { by rewrite !bool_decide_eq_true_2 by tauto. }
  destruct (decide (Arm ∈ l)) as [Ha|Ha]; destruct a, b; unfold max_decided; simpl;
    repeat first [rewrite bool_decide_eq_true_2 by tauto
                 |rewrite bool_decide_eq_false_2 by intuition discriminate]; done.
Qed.

(** Workspaces fold to their most decisive arms.  When the policies of any
    number of workspaces, or of epics, are absorbed into one, each arm is off if one
    of them turned it off, else on if one turned it on, else at its default,
    whatever the order; nothing permits an automatic repair one of them forbade. *)
Theorem folded_policies_are_the_most_decisive (p : AutomationPolicies) ps (e : EpicPolicies) es k latch optout :
  fix_arm (fold_left absorb_automation ps p) k = most_decisive (map (fun q => fix_arm q k) (p :: ps))
  /\ arm (fold_left absorb_latches es e) latch = most_decisive (map (fun q => arm q latch) (e :: es))
  /\ (auto_fix_permitted (fix_arm (fold_left absorb_automation ps p) k) optout = true ->
        forall q, q ∈ p :: ps -> fix_arm q k <> Disarm).
Proof.
  assert (H1 : fix_arm (fold_left absorb_automation ps p) k = most_decisive (map (fun q => fix_arm q k) (p :: ps))).
  { cbn [map]. rewrite <- max_decided_fold. revert p. induction ps as [|q ps IH]; intros p; [done|].
    simpl. rewrite IH. by destruct k. }
  split_and!; [done| |].
  - cbn [map]. rewrite <- max_decided_fold. revert e. induction es as [|q es IH]; intros e; [done|].
    simpl. rewrite IH. by destruct latch.
  - rewrite H1. intros Hp q Hq Hd. unfold most_decisive in Hp. rewrite bool_decide_eq_true_2 in Hp; [done|].
    rewrite <- Hd. apply list_elem_of_In, (in_map (fun q => fix_arm q k)). by apply list_elem_of_In.
Qed.
