(* ===== verification/WorkspaceRow.v ===== *)
(** * The workspace record ([src/crates/core/src/workspace.rs])

    What the daemon stores of a unit of work: its tasks (a pull request and issues,
    [CoreTask.Workspace]), the ledger of pending writes, the activity feed, and the
    state its user owns.  Attaching an observed task, folding two records into one,
    snoozes, the checklist, and the names derived from a record.

    Of a session only the id, the workspace and the time are kept; its worktree, its
    terminals and its layout (TileSession.v) are not read here.  Characters outside
    ASCII are handled by their UTF-8 bytes. *)

From Stdlib Require Import Ascii String.
From S2P Require Import Prelude Text ActivityFeed Slug CoreTask ProviderOps Epics Policy.
From S2P Require Work.

#[global] Open Scope Z_scope.
#[local] Open Scope string_scope.
#[local] Open Scope list_scope.

Definition WORKSPACE_SCHEMA_VERSION : Z := 16.
Definition SENT_SNIPPETS_MAX : nat := 12.
(** Four hours. *)
Definition WOKE_WINDOW : Z := secs (4 * 3600).

(** ** Parts of the record *)

Record SnippetDeliveryLog : Type := mkLog { total : Z; recent : list string }.

Definition empty_log : SnippetDeliveryLog := mkLog 0 [].

Definition record_delivery (key : string) (log : SnippetDeliveryLog) : SnippetDeliveryLog :=
  mkLog (sat_add u64_max (total log) 1)
    (take SENT_SNIPPETS_MAX (key :: List.filter (fun k => negb (String.eqb k key)) (recent log))).

Definition push_new (out : list string) (key : string) : list string :=
  if bool_decide (key ∈ out) then out else out ++ [key].

Definition merge_sent_snippets (dst src : list string) : list string :=
  take SENT_SNIPPETS_MAX (fold_left push_new (dst ++ src) []).

Definition absorb_log (log other : SnippetDeliveryLog) : SnippetDeliveryLog :=
  mkLog (sat_add u64_max (total log) (total other)) (merge_sent_snippets (recent log) (recent other)).

Definition from_recent (keys : list string) : SnippetDeliveryLog :=
  let r := take SENT_SNIPPETS_MAX
             (fold_left (fun r key => List.filter (fun k => negb (String.eqb k key)) r ++ [key]) keys []) in
  mkLog (Z.of_nat (length r)) r.

Inductive CleanupPrompt : Type := Unresolved | Declined.
Inductive SnoozeWake : Type := WakeActivity | CiSettled | ReviewLanded.
Inductive FloatingWorkspaceKind : Type := Thinking | Coordination.
Inductive Role : Type := Planner | Coordinator | Worker | RoleReviewer | Integrator.

#[export] Instance Role_eq_dec : EqDecision Role.
Proof. solve_decision. Defined.

Record HopperMeta : Type := mkHopper { position : Z; completed_at : option Z; hopper_canceled_at : option Z }.

Inductive TodoLink : Type := LinkTask (id : TaskId) | LinkWorkspace (key : string) | LinkUrl (url : string).

Record TodoItem : Type := mkTodo {
  todo_id : string;
  todo_parent : option string;
  todo_text : string;
  done_at : option Z;
  canceled_at : option Z;
  link : option TodoLink;
  auto_checked : bool;
}.

Definition is_some {A} (o : option A) : bool := match o with Some _ => true | None => false end.

Definition is_done (i : TodoItem) : bool := is_some (done_at i).
Definition is_canceled (i : TodoItem) : bool := is_some (canceled_at i).

Record Session : Type := mkSession { s_id : Z; s_workspace : string; s_created_at : Z }.

(** The record; [core] holds the key, the name, the tasks and the two merge arms. *)
Record Row : Type := mkRow {
  core : Workspace;
  schema : Z;
  project_key : option string;
  local_row : bool;
  floating : option FloatingWorkspaceKind;
  hopper : option HopperMeta;
  todo_items : list TodoItem;
  linked_checkout : option string;
  branch_name : string;
  sessions : list Session;
  provider_ops : ProviderOps;
  feed : Feed;
  snoozed_until : option Z;
  snooze_wake : option SnoozeWake;
  woke_at : option Z;
  track_main : bool;
  main_branch : option string;
  track_main_behind : bool;
  metered : bool;
  compact_context : bool;
  policies : AutomationPolicies;
  notes : string;
  sent_snippets : SnippetDeliveryLog;
  cleanup_prompt : CleanupPrompt;
  remote : option string;
  row_role : option Role;
  row_created_at : Z;
  last_viewed_at : option Z;
}.

Definition eta_row (w : Row) : Row :=
  mkRow (core w) (schema w) (project_key w) (local_row w) (floating w) (hopper w) (todo_items w)
    (linked_checkout w) (branch_name w) (sessions w) (provider_ops w) (feed w) (snoozed_until w)
    (snooze_wake w) (woke_at w) (track_main w) (main_branch w) (track_main_behind w) (metered w)
    (compact_context w) (policies w) (notes w) (sent_snippets w) (cleanup_prompt w) (remote w)
    (row_role w) (row_created_at w) (last_viewed_at w).

Definition set_core (v : Workspace) (w : Row) : Row := ltac:(upd eta_row core v w).
Definition set_project (v : option string) (w : Row) : Row := ltac:(upd eta_row project_key v w).
Definition set_todo_items (v : list TodoItem) (w : Row) : Row := ltac:(upd eta_row todo_items v w).
Definition set_sessions (v : list Session) (w : Row) : Row := ltac:(upd eta_row sessions v w).
Definition set_ops (v : ProviderOps) (w : Row) : Row := ltac:(upd eta_row provider_ops v w).
Definition set_feed (v : Feed) (w : Row) : Row := ltac:(upd eta_row feed v w).
Definition set_snoozed (v : option Z) (w : Row) : Row := ltac:(upd eta_row snoozed_until v w).
Definition set_wake (v : option SnoozeWake) (w : Row) : Row := ltac:(upd eta_row snooze_wake v w).
Definition set_woke (v : option Z) (w : Row) : Row := ltac:(upd eta_row woke_at v w).
Definition set_track_main (v : bool) (w : Row) : Row := ltac:(upd eta_row track_main v w).
Definition set_main_branch (v : option string) (w : Row) : Row := ltac:(upd eta_row main_branch v w).
Definition set_behind (v : bool) (w : Row) : Row := ltac:(upd eta_row track_main_behind v w).
Definition set_metered (v : bool) (w : Row) : Row := ltac:(upd eta_row metered v w).
Definition set_row_policies (v : AutomationPolicies) (w : Row) : Row := ltac:(upd eta_row policies v w).
Definition set_notes (v : string) (w : Row) : Row := ltac:(upd eta_row notes v w).
Definition set_snippets (v : SnippetDeliveryLog) (w : Row) : Row := ltac:(upd eta_row sent_snippets v w).
Definition set_row_role (v : option Role) (w : Row) : Row := ltac:(upd eta_row row_role v w).
Definition set_viewed (v : option Z) (w : Row) : Row := ltac:(upd eta_row last_viewed_at v w).

Definition eta_core (c : Workspace) : Workspace :=
  mkWorkspace (ws_key c) (ws_name c) (pr c) (gh_issues c) (linear_issues c) (auto_merge_on_green c)
    (native_auto_merge_by_lazybox c).

Definition set_name (v : string) (c : Workspace) : Workspace := ltac:(upd eta_core ws_name v c).
Definition set_pr (v : option Task) (c : Workspace) : Workspace := ltac:(upd eta_core pr v c).
Definition set_gh (v : list Task) (c : Workspace) : Workspace := ltac:(upd eta_core gh_issues v c).
Definition set_linear (v : list Task) (c : Workspace) : Workspace := ltac:(upd eta_core linear_issues v c).
Definition set_green (v : bool) (c : Workspace) : Workspace := ltac:(upd eta_core auto_merge_on_green v c).
Definition set_native (v : bool) (c : Workspace) : Workspace :=
  ltac:(upd eta_core native_auto_merge_by_lazybox v c).

Definition empty (key branch : string) (now : Z) : Row :=
  mkRow (mkWorkspace key key None [] [] false false) WORKSPACE_SCHEMA_VERSION None false None None []
    None branch [] empty_ops (mkFeed [] 0 ∅) None None None false None false true false
    (mkAutomation ArmDefault ArmDefault) EmptyString empty_log Unresolved None None now None.

(** ** Keys *)

Definition key_char (c : ascii) : bool :=
  is_ascii_alphanumeric c || Ascii.eqb c "-" || Ascii.eqb c "_" || Ascii.eqb c ".".

(** One dash for every other character; a continuation byte belongs to the one before. *)
Fixpoint sanitize_chars (s : string) : string :=
  match s with
  | EmptyString => EmptyString
  | String c s =>
      if key_char c then String c (sanitize_chars s)
      else if is_continuation c then sanitize_chars s
      else String "-" (sanitize_chars s)
  end.

Definition sanitize_key (raw : string) : string := trim_matches ["-"] (sanitize_chars raw).

Definition workspace_key_for_id (i : TaskId) : string :=
  sanitize_key (Work.source i +:+ "-" +:+ Work.key i).
Definition workspace_key_for (t : Task) : string := workspace_key_for_id (id t).

(** A [ProjectKey] is its text. *)
Definition project_github (owner name : string) : string := "github-" +:+ owner +:+ "-" +:+ name.
Definition project_linear (team : string) : string := "linear-" +:+ team.

Definition project_key_for_task (t : Task) : option string :=
  r ← repo t;
  let r := trim r in
  if is_empty r then None
  else if String.eqb (Work.source (id t)) "github" then
    match split_once "/" r with
    | Some (owner, name) => Some (project_github owner name)
    | None => Some ("github-" +:+ r)
    end
  else if String.eqb (Work.source (id t)) "linear" then Some (project_linear r)
  else Some (Work.source (id t) +:+ "-" +:+ sanitize_key r).

Definition source_prefix (key : string) : string :=
  match split_once "-" key with Some (p, _) => p | None => EmptyString end.

Definition unambiguous_github_slug (key : string) : option string :=
  rest ← strip_prefix "github-" key;
  match split "-" rest with
  | [owner; name] =>
      if negb (is_empty owner) && negb (is_empty name) then Some (owner +:+ "/" +:+ name) else None
  | _ => None
  end.

(** ** Reading the tasks *)

Definition all_tasks (c : Workspace) : list Task :=
  match pr c with Some t => [t] | None => [] end ++ gh_issues c ++ linear_issues c.

Definition primary_task (c : Workspace) : option Task :=
  match pr c with
  | Some t => Some t
  | None => match head (gh_issues c) with Some t => Some t | None => head (linear_issues c) end
  end.

Definition has_id (i : TaskId) (t : Task) : bool := bool_decide (id t = i).

Definition task_by_id (c : Workspace) (i : TaskId) : option Task := List.find (has_id i) (all_tasks c).

Definition linked_task_ids (c : Workspace) : list TaskId := map id (all_tasks c).

(** The first [Some] of [f] over a list. *)
Fixpoint find_map {A B} (f : A -> option B) (l : list A) : option B :=
  match l with [] => None | x :: l => match f x with Some y => Some y | None => find_map f l end end.

(** The first occurrence of each id. *)
Definition distinct_ids (l : list TaskId) : list TaskId :=
  fold_left (fun out i => if bool_decide (i ∈ out) then out else out ++ [i]) l [].

Definition hierarchy_parent (c : Workspace) : option TaskId := find_map parent (all_tasks c).
Definition hierarchy_blocked_by (c : Workspace) : list TaskId :=
  distinct_ids (flat_map blocked_by (all_tasks c)).
Definition hierarchy_merge_after (c : Workspace) : list TaskId :=
  distinct_ids (flat_map merge_after (all_tasks c)).
Definition declared_blocker (c : Workspace) : option string := find_map blocked_on (all_tasks c).

Definition ROLE_LABEL_PREFIX : string := "role:".

Definition role_label (r : Role) : string :=
  match r with
  | Planner => "planner" | Coordinator => "coordinator" | Worker => "worker"
  | RoleReviewer => "reviewer" | Integrator => "integrator"
  end.

Definition role_from_label (s : string) : option Role :=
  let s := to_ascii_lowercase (trim s) in
  if String.eqb s "planner" then Some Planner
  else if String.eqb s "coordinator" then Some Coordinator
  else if String.eqb s "worker" then Some Worker
  else if String.eqb s "reviewer" then Some RoleReviewer
  else if String.eqb s "integrator" then Some Integrator
  else None.

Definition project_label (r : Role) : string := ROLE_LABEL_PREFIX +:+ role_label r.
Definition from_project_label (name : string) : option Role :=
  strip_prefix ROLE_LABEL_PREFIX name ≫= role_from_label.

Definition effective_role (w : Row) : option Role :=
  match row_role w with
  | Some r => Some r
  | None => t ← primary_task (core w); find_map from_project_label (labels t)
  end.

Definition workspace_project_key (w : Row) : option string :=
  match project_key w with
  | Some k => Some k
  | None => primary_task (core w) ≫= project_key_for_task
  end.

Definition repo_slug (w : Row) : option string :=
  match t ← primary_task (core w); repo t with
  | Some r => Some r
  | None => workspace_project_key w ≫= unambiguous_github_slug
  end.

Definition is_linked (w : Row) : bool := is_some (linked_checkout w).

Definition supports_track_main (w : Row) : bool :=
  negb (is_some (pr (core w))) && negb (is_linked w)
  && is_some_and (fun k => String.eqb (source_prefix k) "github") (workspace_project_key w).

Definition has_notes (w : Row) : bool := negb (is_empty (trim (notes w))).

(** ** Sessions *)

Definition add_session (s : Session) (w : Row) : Row :=
  if existsb (fun s' => s_id s' =? s_id s)%Z (sessions w) then w else set_sessions (sessions w ++ [s]) w.

(** The row without the session, and whether there was one. *)
Definition remove_session (i : Z) (w : Row) : Row * bool :=
  let kept := List.filter (fun s => negb (s_id s =? i)%Z) (sessions w) in
  (set_sessions kept w, negb (length kept =? length (sessions w))%nat).

Definition find_session (i : Z) (w : Row) : option Session := List.find (fun s => s_id s =? i)%Z (sessions w).

(** [max_by_key]: the last of the latest. *)
Definition default_session (w : Row) : option Session :=
  fold_left (fun best s => match best with
                           | Some b => if (s_created_at b <=? s_created_at s)%Z then Some s else best
                           | None => Some s
                           end) (sessions w) None.

(** ** Attaching a task *)

Inductive TaskSlot : Type := SlotPr | SlotGhIssue | SlotLinearIssue | SlotUnknown.

Definition classify (t : Task) : TaskSlot :=
  if String.eqb (Work.source (id t)) "linear" then SlotLinearIssue
  else if is_pr t then SlotPr
  else if contains "/issues/" (url t) || String.eqb (Work.source (id t)) "github"
          || bool_decide (kind t = Some KIssue) then SlotGhIssue
  else SlotUnknown.

Definition set_kind (v : option TaskKind) (t : Task) : Task := ltac:(upd eta_task kind v t).
Definition set_checks (v : list CheckRun) (t : Task) : Task := ltac:(upd eta_task checks v t).
Definition set_reviews (v : list Reviewer) (t : Task) : Task := ltac:(upd eta_task reviews v t).
Definition set_mergeable (v : Mergeable) (t : Task) : Task := ltac:(upd eta_task mergeable v t).
Definition set_is_behind_base (v : bool) (t : Task) : Task := ltac:(upd eta_task is_behind_base v t).

Definition keep_kind (incoming existing : Task) : Task :=
  match kind incoming with None => set_kind (kind existing) incoming | Some _ => incoming end.

Fixpoint upsert_by_id (l : list Task) (t : Task) : list Task :=
  match l with
  | [] => [t]
  | slot :: l => if has_id (id t) slot then keep_kind t slot :: l else slot :: upsert_by_id l t
  end.

Definition preserve_lazy_pr_fields (incoming existing : Task) : Task :=
  let incoming := match checks incoming with [] => set_checks (checks existing) incoming | _ => incoming end in
  let incoming := match reviews incoming with [] => set_reviews (reviews existing) incoming | _ => incoming end in
  let incoming :=
    if bool_decide (mergeable incoming = MUnknown) && negb (bool_decide (mergeable existing = MUnknown))
    then set_is_behind_base (is_behind_base existing) (set_mergeable (mergeable existing) incoming)
    else incoming in
  keep_kind incoming existing.

(** [task_by_id_mut] followed by a write through it. *)
Fixpoint update_first_task (i : TaskId) (f : Task -> Task) (l : list Task) : list Task :=
  match l with
  | [] => []
  | t :: l => if has_id i t then f t :: l else t :: update_first_task i f l
  end.

Definition update_task (i : TaskId) (f : Task -> Task) (c : Workspace) : Workspace :=
  if is_some_and (has_id i) (pr c) then set_pr (f <$> pr c) c
  else if existsb (has_id i) (gh_issues c) then set_gh (update_first_task i f (gh_issues c)) c
  else set_linear (update_first_task i f (linear_issues c)) c.

(** The slot takes the observation. *)
Definition place_task (t : Task) (c : Workspace) : option Workspace :=
  match classify t with
  | SlotPr =>
      let c := if is_some_and (fun old => negb (has_id (id t) old)) (pr c) then set_native false c else c in
      let merged := match pr c with Some existing => preserve_lazy_pr_fields t existing | None => t end in
      Some (set_pr (Some merged) c)
  | SlotGhIssue => Some (set_gh (upsert_by_id (gh_issues c) t) c)
  | SlotLinearIssue => Some (set_linear (upsert_by_id (linear_issues c) t) c)
  | SlotUnknown => None
  end.

Definition attach_task_at (t : Task) (now : Z) (w : Row) : Row :=
  match place_task t (core w) with
  | None => w
  | Some c =>
      let '(c, ops) :=
        match task_by_id c (id t) with
        | Some stored =>
            let '(ops, stored') := reconcile_observation stored now (provider_ops w) in
            (update_task (id t) (fun _ => stored') c, ops)
        | None => (c, provider_ops w)
        end in
      set_feed (attach_activity (last_viewed_at w) (recent_activity t) (feed w)) (set_ops ops (set_core c w))
  end.

Definition detach_task (i : TaskId) (c : Workspace) : Workspace :=
  let c := if is_some_and (has_id i) (pr c) then set_pr None c else c in
  let keep := List.filter (fun t => negb (has_id i t)) in
  set_linear (keep (linear_issues c)) (set_gh (keep (gh_issues c)) c).

Definition from_task (t : Task) (now clock : Z) : Row :=
  let key := workspace_key_for t in
  let w := empty key (default key (branch t)) now in
  let w := set_core (set_name (title t) (core w)) w in
  let w := set_feed (mkFeed (recent_activity t) 0 ∅) w in
  attach_task_at t clock (set_project (project_key_for_task t) w).

(** ** The checklist *)

(** Done and total over the leaves that are not cancelled. *)
Definition todo_progress (items : list TodoItem) : nat * nat :=
  let live := List.filter (fun i => negb (is_canceled i)) items in
  let is_heading i := existsb (fun c => bool_decide (todo_parent c = Some (todo_id i))) live in
  let leaves := List.filter (fun i => negb (is_heading i)) live in
  (length (List.filter is_done leaves), length leaves).

Definition check_off (now : Z) (i : TodoItem) : TodoItem :=
  mkTodo (todo_id i) (todo_parent i) (todo_text i) (Some now) (canceled_at i) (link i) true.

Definition links_to_task (t : TaskId) (i : TodoItem) : bool :=
  match link i with Some (LinkTask t') => bool_decide (t' = t) | _ => false end.

Definition check_items_linked_to (t : TaskId) (now : Z) (items : list TodoItem) : list TodoItem * nat :=
  let due i := links_to_task t i && negb (is_done i) && negb (is_canceled i) in
  (map (fun i => if due i then check_off now i else i) items, length (List.filter due items)).

(** ** Snoozes *)

Definition is_snoozed (w : Row) (now : Z) : bool :=
  match snoozed_until w with Some until => (now <? until)%Z | None => false end.

Definition snooze_wake_due (wake : SnoozeWake) (old new : Task) : bool :=
  match wake with
  | WakeActivity => (updated_at old <? updated_at new)%Z
  | CiSettled =>
      negb (bool_decide (ci new = ci old))
      && match ci new with CiSuccess | CiFailure | CiMixed => true | _ => false end
  | ReviewLanded =>
      (length (reviews old) <? length (reviews new))%nat
      || (negb (bool_decide (review new = review old))
          && match review new with RvApproved | RvChangesRequested => true | _ => false end)
  end.

Definition maybe_wake_on (incoming : Task) (now : Z) (w : Row) : Row * bool :=
  if negb (is_snoozed w now) then (w, false)
  else match snooze_wake w with
       | None => (w, false)
       | Some wake =>
           match primary_task (core w) with
           | Some old =>
               if has_id (id incoming) old && snooze_wake_due wake old incoming
               then (set_woke (Some now) (set_wake None (set_snoozed None w)), true)
               else (w, false)
           | None => (w, false)
           end
       end.

Definition is_recently_woken (w : Row) (now : Z) : bool :=
  is_some_and (fun at_ => (at_ <=? now)%Z && (now - at_ <? WOKE_WINDOW)%Z) (woke_at w).

(** The daemon's command ([set_snooze] of server/src/workspace/mod.rs). *)
Definition set_snooze (until : option Z) (wake : option SnoozeWake) (w : Row) : Row :=
  let w := set_snoozed until w in
  let w := set_wake (if is_some until then wake else None) w in
  if is_some until then w else set_woke None w.

(** ** Folding one record into another *)

Definition later_opt (a b : option Z) : option Z :=
  match a, b with
  | Some a, Some b => Some (Z.max a b)
  | Some a, None => Some a
  | None, b => b
  end.

Definition merge_notes (dst src : string) : string :=
  if is_empty (trim dst) then src
  else if is_empty (trim src) then dst
  else if String.eqb dst src then dst
  else dst +:+ bytes_of [10; 10]%nat +:+ src.

(** A snooze the row has is extended; a row that has none is not hidden. *)
Definition absorb_snooze (other w : Row) : Row :=
  if is_some (snoozed_until w) then
    let w := set_snoozed (later_opt (snoozed_until w) (snoozed_until other)) w in
    match snooze_wake w with None => set_wake (snooze_wake other) w | Some _ => w end
  else w.

(** The merge arms mean something where there is a pull request. *)
Definition absorb_arms (other w : Row) : Row :=
  if is_some (pr (core w)) then
    set_core (set_native (native_auto_merge_by_lazybox (core w) || native_auto_merge_by_lazybox (core other))
               (set_green (auto_merge_on_green (core w) || auto_merge_on_green (core other)) (core w))) w
  else w.

Definition absorb_track_main (other w : Row) : Row :=
  if supports_track_main w then
    let w := set_behind (track_main_behind w || track_main_behind other)
               (set_track_main (track_main w || track_main other) w) in
    match main_branch w with None => set_main_branch (main_branch other) w | Some _ => w end
  else w.

Definition absorb_flags (other w : Row) : Row :=
  set_row_role (match row_role w with Some r => Some r | None => row_role other end)
    (set_metered (metered w || metered other) w).

Definition absorb_rest (other w : Row) : Row :=
  set_viewed (later_opt (last_viewed_at w) (last_viewed_at other))
    (set_snippets (absorb_log (sent_snippets w) (sent_snippets other))
       (set_notes (merge_notes (notes w) (notes other))
          (set_row_policies (absorb_automation (policies w) (policies other)) w))).

Definition absorb_user_state_from (other w : Row) : Row :=
  absorb_rest other (absorb_track_main other (absorb_arms other (absorb_flags other (absorb_snooze other w)))).

Definition absorb_feed (other w : Row) : Row := set_feed (absorb_activity_from (feed other) (feed w)) w.

Definition move_session (s : Session) (w : Row) : Row :=
  add_session (mkSession (s_id s) (ws_key (core w)) (s_created_at s)) w.

(** [absorb_issue_workspace] of server/src/polling/mod.rs: an issue's record folds into
    that of its pull request.  [clock] is the time each [attach_task] reads. *)
Definition absorb_issue_workspace (clock : Z) (issue w : Row) : Row * list Z :=
  let w := absorb_user_state_from issue (absorb_feed issue w) in
  let w := fold_left (fun w s => move_session s w) (sessions issue) w in
  let attach w t := attach_task_at t clock w in
  let w := fold_left attach (gh_issues (core issue)) w in
  (fold_left attach (linear_issues (core issue)) w, map s_id (sessions issue)).

(** The two rows [handle_adopt_sessions] commits, source and target; [None] when there
    is nothing to move.  The moved paths and the commit are not modelled. *)
Definition adopt_sessions (source target : Row) : option (Row * Row) :=
  if bool_decide (ws_key (core source) = ws_key (core target)) then None
  else match sessions source with
       | [] => None
       | moved =>
           let target := absorb_user_state_from source (absorb_feed source target) in
           Some (set_sessions [] source, fold_left (fun w s => move_session s w) moved target)
       end.

(** ** Names on disk *)

(** The last [n] characters, on the reversed bytes. *)
Fixpoint last_bytes (n : nat) (reversed : string) : string :=
  match reversed with
  | EmptyString => EmptyString
  | String c r =>
      match n with
      | O => EmptyString
      | S m => String c (last_bytes (if is_continuation c then n else m) r)
      end
  end.

Definition last_chars (n : nat) (s : string) : string := rev_str (last_bytes n (rev_str s)).

(** The digits after the last [#]. *)
Definition numeric_tail (key : string) : option string :=
  match rsplit_once "#" key with
  | Some (_, n) => if negb (is_empty n) && all_chars is_digit n then Some n else None
  | None => None
  end.

Definition name_derived (name_slug key : string) : bool :=
  String.eqb key name_slug
  || match strip_prefix (name_slug +:+ "-") key with
     | Some rest => negb (is_empty rest) && all_chars is_digit rest
     | None => false
     end.

Definition nameless_slug (c : Workspace) (name_slug : string) : string :=
  if negb (is_empty name_slug) then
    if name_derived name_slug (ws_key c) then ws_key c else name_slug
  else "workspace-" +:+ last_chars 8 (ws_key c).

(** The part behind the pull request's arm. *)
Definition issue_or_name_slug (c : Workspace) : string :=
  let name_slug := slugify (ws_name c) in
  let stem :=
    match pr c with
    | Some _ => None
    | None =>
        t ← primary_task c;
        match numeric_tail (Work.key (id t)) with
        | Some n => Some ("issue-" +:+ n)
        | None => let key_slug := slugify (Work.key (id t)) in
                  if is_empty key_slug then None else Some key_slug
        end
    end in
  match stem with
  | Some stem => if is_empty name_slug then stem else stem +:+ "-" +:+ name_slug
  | None => nameless_slug c name_slug
  end.

Definition pr_number (t : Task) : option Z :=
  match rsplit_once "#" (Work.key (id t)) with Some (_, n) => parse_u64 n | None => None end.

Definition worktree_slug (c : Workspace) : string :=
  match t ← pr c; num ← pr_number t; Some (pr_slug num (title t)) with
  | Some slug => slug
  | None => issue_or_name_slug c
  end.

Definition worktree_scope (w : Row) : option string :=
  key ← workspace_project_key w;
  let slug := slugify key in
  if is_empty slug then None else Some slug.

(** ** The stored form *)

Section persisted.
(** serde: the text's JSON with old snippet arrays rewritten, read as a record. *)
Context (from_str : string -> option Row).

Inductive WorkspaceDecodeError : Type := BadJson | NewerSchema (found supported : Z).

Definition decode_persisted (json : string) : Row + WorkspaceDecodeError :=
  match from_str json with
  | None => inr BadJson
  | Some ws =>
      if (WORKSPACE_SCHEMA_VERSION <? schema ws)%Z
      then inr (NewerSchema (schema ws) WORKSPACE_SCHEMA_VERSION)
      else inl ws
  end.

End persisted.
