(* ===== verification/WorkspaceRowProps.v ===== *)
(** * What attaching and folding keep ([src/crates/core/src/workspace.rs]) *)

From Stdlib Require Import Ascii String.
From S2P Require Import Prelude Text ActivityFeed Slug CoreTask ProviderOps Epics Policy WorkspaceRow.
From S2P Require Work.

#[global] Open Scope Z_scope.
#[local] Open Scope string_scope.
#[local] Open Scope list_scope.

(** ** The observed task in its slot *)

Lemma overlay_keeps ops t :
  id (overlay ops t) = id t /\ reviews (overlay ops t) = reviews t /\ checks (overlay ops t) = checks t
  /\ mergeable (overlay ops t) = mergeable t /\ kind (overlay ops t) = kind t
  /\ ci (overlay ops t) = ci t.
Proof.
  unfold overlay. revert t. induction (pending ops) as [|op l IH]; intros t; [done|]. cbn [fold_left].
  destruct (IH (if bool_decide (op_task op = id t) && is_current ops op then paint (desired op) t else t))
    as (-> & -> & -> & -> & -> & ->).
  case_match; [|done]. unfold paint, set_when. destruct (desired op) as [[] [] [] []]; done.
Qed.

Lemma keep_kind_fields t old :
  id (keep_kind t old) = id t /\ reviews (keep_kind t old) = reviews t /\ checks (keep_kind t old) = checks t
  /\ mergeable (keep_kind t old) = mergeable t /\ ci (keep_kind t old) = ci t
  /\ kind (keep_kind t old) = match kind t with Some k => Some k | None => kind old end.
Proof. unfold keep_kind. destruct (kind t) eqn:E; rewrite ?E; done. Qed.

Lemma preserve_fields t old :
  let m := preserve_lazy_pr_fields t old in
  id m = id t /\ ci m = ci t
  /\ reviews m = match reviews t with [] => reviews old | l => l end
  /\ checks m = match checks t with [] => checks old | l => l end
  /\ mergeable m = match mergeable t with MUnknown => mergeable old | v => v end
  /\ kind m = match kind t with Some k => Some k | None => kind old end.
Proof.
  cbv zeta. unfold preserve_lazy_pr_fields.
  match goal with |- context [keep_kind ?x ?y] => destruct (keep_kind_fields x y) as (-> & -> & -> & -> & -> & ->) end.
  destruct (checks t) eqn:Ec, (reviews t) eqn:Er; cbn [reviews checks mergeable kind id ci set_checks set_reviews];
    rewrite ?Er, ?Ec; repeat case_bool_decide; cbn [andb negb];
    destruct (mergeable t) eqn:Em; split_and!; try done; simpl in *; try congruence.
Qed.

Lemma upsert_by_id_ids l t :
  map id (upsert_by_id l t) = if bool_decide (id t ∈ map id l) then map id l else map id l ++ [id t].
Proof.
  induction l as [|s l IH]; [done|]. cbn [upsert_by_id map]. unfold has_id.
  destruct (decide (id s = id t)) as [Hs|Hs].
  - rewrite (bool_decide_eq_true_2 _ Hs). cbn [map]. destruct (keep_kind_fields t s) as (-> & _).
    rewrite Hs, bool_decide_eq_true_2; [done|by left].
  - rewrite (bool_decide_eq_false_2 _ Hs). cbn [map]. rewrite IH. destruct (decide (id t ∈ map id l)) as [Hin|Hin].
    + rewrite !bool_decide_eq_true_2; [done|by right|done].
    + rewrite !bool_decide_eq_false_2; [done| |done]. intros [?|?]%elem_of_cons; congruence.
Qed.

Lemma find_has_id i l : List.find (has_id i) l = None <-> i ∉ map id l.
Proof.
  induction l as [|t l IH]; simpl; [set_solver|]. unfold has_id at 1. case_bool_decide as Ht.
  - split; [done|]. intros H. exfalso. apply H. rewrite Ht. by left.
  - rewrite IH, not_elem_of_cons. naive_solver.
Qed.

(** The slot holds the observed id. *)
Lemma placed t c0 c : place_task t c0 = Some c -> exists stored, task_by_id c (id t) = Some stored /\ id stored = id t.
Proof.
  intros Hp. destruct (task_by_id c (id t)) as [s|] eqn:Es.
  { exists s. split; [done|]. apply find_some in Es as [_ Hid]. by apply bool_decide_eq_true in Hid. }
  exfalso. apply find_has_id in Es. apply Es. clear Es. unfold all_tasks. rewrite !map_app.
  assert (forall l, id t ∈ map id (upsert_by_id l t)) as Hu.
  { intros l. rewrite upsert_by_id_ids. case_bool_decide; [done|]. apply elem_of_app. right. by left. }
  unfold place_task in Hp. destruct (classify t); [..|done]; injection Hp as <-; cbn [pr gh_issues linear_issues set_gh set_linear set_pr].
  - rewrite elem_of_app. left. destruct (is_some_and _ (pr c0)); cbn [pr set_native];
      (destruct (pr c0); cbn [map]; [destruct (preserve_fields t t0) as (-> & _)|]; by left).
  - rewrite !elem_of_app. right. left. apply Hu.
  - rewrite !elem_of_app. right. right. apply Hu.
Qed.

(** The fields an overlay of pending writes leaves alone. *)
Definition same_observation (a b : Task) : Prop :=
  id a = id b /\ reviews a = reviews b /\ checks a = checks b /\ mergeable a = mergeable b
  /\ kind a = kind b /\ ci a = ci b.

Lemma attach_core t now w c stored :
  place_task t (core w) = Some c -> task_by_id c (id t) = Some stored ->
  exists stored', core (attach_task_at t now w) = update_task (id t) (fun _ => stored') c
    /\ same_observation stored' stored.
Proof.
  intros Hc Hs. unfold attach_task_at. rewrite Hc, Hs. unfold reconcile_observation.
  eexists. split; [reflexivity|]. apply overlay_keeps.
Qed.

(** What the slot of the pull request holds once a poll was attached: what the poll
    carries, and what it leaves blank from the record that was there. *)
Lemma attached_pr t now w :
  classify t = SlotPr ->
  exists t', pr (core (attach_task_at t now w)) = Some t'
    /\ same_observation t' (match pr (core w) with Some old => preserve_lazy_pr_fields t old | None => t end).
Proof.
  intros Hcl. set (m := match pr (core w) with Some old => preserve_lazy_pr_fields t old | None => t end).
  assert (exists c, place_task t (core w) = Some c /\ pr c = Some m) as (c & Hp & Hpr).
  { unfold place_task. rewrite Hcl. eexists. split; [done|]. cbn [pr set_pr].
    destruct (is_some_and _ _); cbn [pr set_native]; done. }
  assert (id m = id t) as Hm by (unfold m; destruct (pr (core w)); [apply preserve_fields|done]).
  assert (task_by_id c (id t) = Some m) as Hs.
  { unfold task_by_id, all_tasks. rewrite Hpr. simpl. unfold has_id. by rewrite bool_decide_eq_true_2. }
  destruct (attach_core t now w c m Hp Hs) as (t' & -> & Ht'). exists t'. split; [|done].
  unfold update_task. rewrite Hpr. simpl. unfold has_id. by rewrite bool_decide_eq_true_2.
Qed.

Lemma update_first_task_ids i s l : id s = i -> map id (update_first_task i (fun _ => s) l) = map id l.
Proof.
  intros Hs. induction l as [|t l IH]; [done|]. cbn [update_first_task]. unfold has_id.
  case_bool_decide as Ht; cbn [map]; [by rewrite Hs, Ht|by rewrite IH].
Qed.

Lemma update_task_ids i s c :
  id s = i ->
  linked_task_ids (update_task i (fun _ => s) c) = linked_task_ids c
  /\ map id (gh_issues (update_task i (fun _ => s) c)) = map id (gh_issues c)
  /\ map id (linear_issues (update_task i (fun _ => s) c)) = map id (linear_issues c).
Proof.
  intros Hs. unfold update_task, linked_task_ids, all_tasks.
  destruct (is_some_and (has_id i) (pr c)) eqn:Hp.
  - destruct (pr c) as [p|] eqn:Ep; [|done]. simpl in Hp. apply bool_decide_eq_true in Hp.
    cbn [pr gh_issues linear_issues set_pr fmap option_fmap option_map]. rewrite !map_app. cbn [map].
    by rewrite Hs, Hp.
  - destruct (existsb (has_id i) (gh_issues c)); cbn [pr gh_issues linear_issues set_gh set_linear];
      by rewrite !map_app, !update_first_task_ids.
Qed.

Lemma upsert_ids_elem l t i : i ∈ map id (upsert_by_id l t) <-> i = id t \/ i ∈ map id l.
Proof. rewrite upsert_by_id_ids. case_bool_decide; set_solver. Qed.

Lemma upsert_ids_NoDup l t : NoDup (map id l) -> NoDup (map id (upsert_by_id l t)).
Proof.
  intros Hn. rewrite upsert_by_id_ids. case_bool_decide as Hin; [done|].
  apply NoDup_app. split_and!; [done|set_solver|apply NoDup_singleton].
Qed.

(** An observed task that has a slot is linked afterwards, and of the tasks linked
    before none is lost but a pull request that another one replaces; a task keeps one
    entry among the issues. *)
Theorem an_attached_task_is_linked t now w :
  classify t <> SlotUnknown ->
  let c := core w in
  let c' := core (attach_task_at t now w) in
  id t ∈ linked_task_ids c'
  /\ (forall i, i ∈ linked_task_ids c' -> i = id t \/ i ∈ linked_task_ids c)
  /\ (forall i, i ∈ linked_task_ids c -> i ∈ linked_task_ids c' \/ (classify t = SlotPr /\ exists old, pr c = Some old /\ id old = i))
  /\ (NoDup (map id (gh_issues c)) -> NoDup (map id (gh_issues c')))
  /\ (NoDup (map id (linear_issues c)) -> NoDup (map id (linear_issues c'))).
Proof.
  intros Hcl. cbv zeta.
  destruct (place_task t (core w)) as [c1|] eqn:Hp; [|unfold place_task in Hp; by destruct (classify t)].
  destruct (placed _ _ _ Hp) as (stored & Hs & Hid).
  destruct (attach_core t now w c1 stored Hp Hs) as (s' & -> & Hs' & _).
  destruct (update_task_ids (id t) s' c1) as (-> & -> & ->); [congruence|].
  split; [|].
  { unfold task_by_id in Hs. apply find_some in Hs as [Hin _]. rewrite <- Hid.
    by apply list_elem_of_In, in_map. }
  unfold place_task in Hp. unfold linked_task_ids, all_tasks.
  destruct (classify t); [..|done]; injection Hp as <-.
  - assert (forall b, let c := (if b : bool then set_native false (core w) else core w) in
      pr c = pr (core w) /\ gh_issues c = gh_issues (core w) /\ linear_issues c = linear_issues (core w)) as Hn
      by (by intros []).
    cbn [pr gh_issues linear_issues set_pr].
    destruct (Hn (is_some_and (fun old => negb (has_id (id t) old)) (pr (core w)))) as (-> & -> & ->).
    rewrite !map_app. cbn [map].
    destruct (pr (core w)) as [old|]; cbn [map].
    + destruct (preserve_fields t old) as (-> & _). split_and!; [set_solver| |done|done].
      intros i [Hi|Hi]%elem_of_app; [|left; set_solver].
      apply list_elem_of_singleton in Hi. right. split; [done|]. by exists old.
    + split_and!; [set_solver|set_solver|done|done].
  - cbn [pr gh_issues linear_issues set_gh]. rewrite !map_app. setoid_rewrite elem_of_app. setoid_rewrite elem_of_app.
    setoid_rewrite upsert_ids_elem. split_and!; [naive_solver|naive_solver|apply upsert_ids_NoDup|done].
  - cbn [pr gh_issues linear_issues set_linear]. rewrite !map_app. setoid_rewrite elem_of_app. setoid_rewrite elem_of_app.
    setoid_rewrite upsert_ids_elem. split_and!; [naive_solver|naive_solver|done|apply upsert_ids_NoDup].
Qed.

(** A pull request that takes the slot of another one without its own reviews is
    stored with the other's: a person's approval of the old one counts for the new. *)
Theorem another_pull_request_inherits_the_reviews t old now w :
  classify t = SlotPr -> pr (core w) = Some old -> id old <> id t -> reviews t = [] ->
  exists t', pr (core (attach_task_at t now w)) = Some t' /\ id t' = id t
    /\ reviews t' = reviews old /\ has_human_approval t' = has_human_approval old.
Proof.
  intros Hcl Hpr _ Hr. destruct (attached_pr t now w Hcl) as (t' & Ht' & Hsame). rewrite Hpr in Hsame.
  destruct Hsame as (Hid & Hrev & _). destruct (preserve_fields t old) as (Hpid & _ & Hprev & _).
  rewrite Hr in Hprev. exists t'. unfold has_human_approval. rewrite Hrev, Hprev. split_and!; congruence.
Qed.

(** ** Folding *)

(** The steps of a fold, as writes of fields. *)
Lemma absorb_snooze_eq other w :
  absorb_snooze other w
  = set_wake (if is_some (snoozed_until w)
              then match snooze_wake w with None => snooze_wake other | s => s end else snooze_wake w)
      (set_snoozed (if is_some (snoozed_until w) then later_opt (snoozed_until w) (snoozed_until other) else None) w).
Proof.
  unfold absorb_snooze. destruct w as [? ? ? ? ? ? ? ? ? ? ? ? sn wk ? ? ? ? ? ? ? ? ? ? ? ? ? ?].
  by destruct sn, wk.
Qed.

Lemma absorb_arms_eq other w :
  absorb_arms other w
  = set_core (set_native (native_auto_merge_by_lazybox (core w)
                          || (is_some (pr (core w)) && native_auto_merge_by_lazybox (core other)))
       (set_green (auto_merge_on_green (core w) || (is_some (pr (core w)) && auto_merge_on_green (core other)))
          (core w))) w.
Proof.
  unfold absorb_arms. destruct w as [c ? ? ? ? ? ? ? ? ? ? ? ? ? ? ? ? ? ? ? ? ? ? ? ? ? ? ?].
  destruct c as [? ? p ? ? ? ?]. destruct p; [done|]. cbn. by rewrite !orb_false_r.
Qed.

Lemma absorb_track_main_eq other w :
  absorb_track_main other w
  = set_main_branch (match main_branch w with
                     | None => if supports_track_main w then main_branch other else None
                     | b => b end)
      (set_behind (track_main_behind w || (supports_track_main w && track_main_behind other))
         (set_track_main (track_main w || (supports_track_main w && track_main other)) w)).
Proof.
  unfold absorb_track_main. destruct (supports_track_main w).
  - destruct w as [? ? ? ? ? ? ? ? ? ? ? ? ? ? ? ? mb ? ? ? ? ? ? ? ? ? ? ?]. by destruct mb.
  - destruct w as [? ? ? ? ? ? ? ? ? ? ? ? ? ? ? ? mb ? ? ? ? ? ? ? ? ? ? ?]. cbn.
    rewrite !orb_false_r. by destruct mb.
Qed.

(** Everything a track-main decision reads is left alone by the steps before it. *)
Lemma supports_before other w :
  supports_track_main (absorb_arms other (absorb_flags other (absorb_snooze other w))) = supports_track_main w.
Proof. by rewrite absorb_arms_eq, absorb_snooze_eq. Qed.

Lemma absorb_fields other w :
  let w' := absorb_user_state_from other w in
  (snoozed_until w' = if is_some (snoozed_until w) then later_opt (snoozed_until w) (snoozed_until other) else None)
  /\ snooze_wake w' = (if is_some (snoozed_until w)
                       then match snooze_wake w with None => snooze_wake other | s => s end else snooze_wake w)
  /\ metered w' = metered w || metered other
  /\ row_role w' = match row_role w with None => row_role other | r => r end
  /\ pr (core w') = pr (core w) /\ gh_issues (core w') = gh_issues (core w)
  /\ linear_issues (core w') = linear_issues (core w)
  /\ auto_merge_on_green (core w')
     = auto_merge_on_green (core w) || (is_some (pr (core w)) && auto_merge_on_green (core other))
  /\ native_auto_merge_by_lazybox (core w')
     = native_auto_merge_by_lazybox (core w)
       || (is_some (pr (core w)) && native_auto_merge_by_lazybox (core other))
  /\ track_main w' = track_main w || (supports_track_main w && track_main other)
  /\ policies w' = absorb_automation (policies w) (policies other)
  /\ notes w' = merge_notes (notes w) (notes other)
  /\ sent_snippets w' = absorb_log (sent_snippets w) (sent_snippets other)
  /\ last_viewed_at w' = later_opt (last_viewed_at w) (last_viewed_at other)
  /\ feed w' = feed w /\ sessions w' = sessions w /\ provider_ops w' = provider_ops w
  /\ cleanup_prompt w' = cleanup_prompt w /\ compact_context w' = compact_context w.
Proof.
  cbv zeta. unfold absorb_user_state_from. rewrite absorb_track_main_eq, supports_before.
  set (w1 := absorb_arms other _).
  assert (w1 = absorb_arms other (absorb_flags other (absorb_snooze other w))) as Hw1 by done.
  rewrite absorb_arms_eq, absorb_snooze_eq in Hw1. clearbody w1. subst w1.
  split_and!; reflexivity.
Qed.

Lemma max_decided_disarm a b : a = Disarm \/ b = Disarm -> max_decided a b = Disarm.
Proof. by intros [->| ->]; [destruct b|destruct a]. Qed.

Lemma max_decided_arm a b : max_decided a b = Arm -> a = Arm \/ b = Arm.
Proof. destruct a, b; cbn; auto. Qed.

(** C21: What a fold of another record takes over.  A row that has no snooze of its own is not
    hidden by it, and one that is hidden stays so (of a row whose snooze has run out nothing
    is said).  A merge arm and its native half come over only where there is a pull
    request, tracking of the main branch only where it can apply, and an arm of the automatic
    repairs is armed only if it was in one of the two, and disarmed if it was in one.  The row
    keeps its own role and takes the other's where it has none; it is metered if one of the two
    was; the notes of either are in its notes; its own cleanup prompt and compaction
    settings stay. *)
Theorem a_fold_is_conservative other w :
  let w' := absorb_user_state_from other w in
  (snoozed_until w = None -> forall now, is_snoozed w' now = false)
  /\ (forall now, is_snoozed w now = true -> is_snoozed w' now = true)
  /\ (auto_merge_on_green (core w') = true <->
      auto_merge_on_green (core w) = true \/ (is_some (pr (core w)) = true /\ auto_merge_on_green (core other) = true))
  /\ (native_auto_merge_by_lazybox (core w') = true <->
      native_auto_merge_by_lazybox (core w) = true
      \/ (is_some (pr (core w)) = true /\ native_auto_merge_by_lazybox (core other) = true))
  /\ (track_main w' = true <->
      track_main w = true \/ (supports_track_main w = true /\ track_main other = true))
  /\ (row_role w' = match row_role w with None => row_role other | r => r end)
  /\ (metered w' = metered w || metered other)
  /\ (forall k, (fix_arm (policies w) k = Disarm \/ fix_arm (policies other) k = Disarm -> fix_arm (policies w') k = Disarm)
              /\ (fix_arm (policies w') k = Arm -> fix_arm (policies w) k = Arm \/ fix_arm (policies other) k = Arm))
  /\ (has_notes w = true -> exists rest, notes w' = notes w +:+ rest)
  /\ (has_notes other = true -> exists pre, notes w' = pre +:+ notes other)
  /\ cleanup_prompt w' = cleanup_prompt w /\ compact_context w' = compact_context w.
Proof.
  destruct (absorb_fields other w) as
    (Hsn & _ & Hm & Hr & _ & _ & _ & Hg & Hnat & Ht & Hp & Hn & _ & _ & _ & _ & _ & Hc & Hcc). cbv zeta in *.
  unfold is_snoozed, has_notes. rewrite Hsn, Hm, Hr, Hg, Hnat, Ht, Hp, Hn, Hc, Hcc. split_and!; try done.
  - by intros ->.
  - intros now. destruct (snoozed_until w) as [u|]; [|done]. simpl. destruct (snoozed_until other); [|done].
    simpl. rewrite !Z.ltb_lt. lia.
  - by rewrite orb_true_iff, andb_true_iff.
  - by rewrite orb_true_iff, andb_true_iff.
  - by rewrite orb_true_iff, andb_true_iff.
  - intros k. destruct k; split; first [apply max_decided_disarm|apply max_decided_arm].
  - intros H%negb_true_iff. unfold merge_notes. rewrite H.
    assert (exists rest, notes w = notes w +:+ rest) by (exists EmptyString; by rewrite app_nil_r_str).
    destruct (is_empty (trim (notes other))); [done|]. destruct (String.eqb _ _); [done|]. by eexists.
  - intros H%negb_true_iff. unfold merge_notes. rewrite H.
    destruct (is_empty (trim (notes w))); [by exists EmptyString|].
    destruct (String.eqb_spec (notes w) (notes other)) as [E|]; [by exists EmptyString|].
    exists (notes w +:+ bytes_of [10; 10]%nat). by rewrite app_assoc_str.
Qed.

(** A snoozed record without a pull request, and an issue that is metered and armed. *)
Lemma a_fold_is_conservative_witness :
  let w := set_notes "of the request" (set_snoozed (Some 90) (empty "b" "b" 0)) in
  let other := set_metered true (set_snoozed (Some 20) (set_notes "from the issue" (set_core (set_green true (core (empty "a" "a" 0))) (empty "a" "a" 0)))) in
  let w' := absorb_user_state_from other w in
  is_snoozed w' 50 = true /\ auto_merge_on_green (core w') <> true /\ metered w' = true
  /\ (exists rest, notes w' = "of the request" +:+ rest) /\ (exists pre, notes w' = pre +:+ "from the issue").
Proof.
  intros w other w'. destruct (a_fold_is_conservative other w) as (_ & Hs & Hg & _ & _ & _ & Hm & _ & Hn & Ho & _).
  split_and!.
  - apply Hs. reflexivity.
  - intros Ha. apply Hg in Ha as [Ha|[Ha _]]; discriminate.
  - etrans; [exact Hm|]. reflexivity.
  - apply Hn. reflexivity.
  - apply Ho. reflexivity.
Defined.

(** A snooze that has run out is not cleared: folding in a record that is snoozed
    hides a row its user can see. *)
Theorem an_expired_snooze_hides_the_fold other w past until now :
  snoozed_until w = Some past -> past <= now ->
  snoozed_until other = Some until -> now < until ->
  is_snoozed w now = false /\ is_snoozed (absorb_user_state_from other w) now = true.
Proof.
  intros Hw Hp Ho Hu. destruct (absorb_fields other w) as (Hsn & _). unfold is_snoozed. rewrite Hsn, Hw, Ho.
  simpl. split; [apply Z.ltb_ge|apply Z.ltb_lt]; lia.
Qed.

(** *** Snippets *)

Lemma fold_push_new l out :
  NoDup out -> NoDup (fold_left push_new l out) /\ forall k, k ∈ fold_left push_new l out <-> k ∈ out \/ k ∈ l.
Proof.
  revert out. induction l as [|x l IH]; intros out Hn; cbn [fold_left]; [set_solver|].
  assert (NoDup (push_new out x)) as Hp.
  { unfold push_new. case_bool_decide; [done|]. apply NoDup_app. split_and!; [done|set_solver|apply NoDup_singleton]. }
  destruct (IH _ Hp) as [H1 H2]. split; [done|]. intros k. rewrite H2. unfold push_new.
  case_bool_decide; set_solver.
Qed.

(** The badge and the list of recent keys of a delivery log. *)
Definition log_ok (log : SnippetDeliveryLog) : Prop :=
  NoDup (recent log) /\ (length (recent log) <= SENT_SNIPPETS_MAX)%nat
  /\ Z.of_nat (length (recent log)) <= total log <= u64_max.

Lemma recent_short (l : list string) : (length (take SENT_SNIPPETS_MAX l) <= SENT_SNIPPETS_MAX)%nat.
Proof. rewrite length_take. lia. Qed.

Lemma NoDup_take {A} n (l : list A) : NoDup l -> NoDup (take n l).
Proof. rewrite <- (take_drop n l) at 1. by intros [? _]%NoDup_app. Qed.

Lemma record_delivery_ok k log : log_ok log -> log_ok (record_delivery k log).
Proof.
  intros (Hn & Hl & Ht). unfold record_delivery. split_and!; cbn [recent total].
  - apply NoDup_take. constructor.
    + intros [_ Hk]%list_elem_of_In%filter_In. by rewrite String.eqb_refl in Hk.
    + apply NoDup_ListNoDup. by apply List.NoDup_filter, NoDup_ListNoDup.
  - apply recent_short.
  - unfold sat_add. rewrite length_take. cbn [length].
    pose proof (filter_length_le (fun k' => negb (String.eqb k' k)) (recent log)).
    unfold SENT_SNIPPETS_MAX, u64_max in *. lia.
  - unfold sat_add. lia.
Qed.

Lemma absorb_log_ok log other : log_ok log -> log_ok other -> log_ok (absorb_log log other).
Proof.
  intros (Hn & Hl & Ht) (Hn' & Hl' & Ht'). unfold absorb_log, merge_sent_snippets.
  destruct (fold_push_new (recent log ++ recent other) [] (NoDup_nil_2)) as [Hnd Hm].
  assert (length (fold_left push_new (recent log ++ recent other) []) <= length (recent log ++ recent other))%nat as Hlen.
  { apply submseteq_length, NoDup_submseteq; [done|]. intros k Hk. apply Hm in Hk as [Hk|Hk]; [by apply elem_of_nil in Hk|done]. }
  rewrite length_app in Hlen. split_and!; cbn [recent total].
  - by apply NoDup_take.
  - apply recent_short.
  - unfold sat_add. rewrite length_take. unfold SENT_SNIPPETS_MAX, u64_max in *. lia.
  - unfold sat_add. lia.
Qed.

(** A delivery moves its key to the front. *)
Lemma record_delivery_head k log : head (recent (record_delivery k log)) = Some k.
Proof. reflexivity. Qed.

(** *** Adopting twice *)

(** Adopting the sessions of a row again, when it has new ones, counts its snippets again
    and repeats its notes. *)
Example adopting_again_repeats_the_notes :
  let source := set_notes "from the issue" (set_sessions [mkSession 1 "a" 0] (empty "a" "a" 0)) in
  let target := set_notes "of the request" (empty "b" "b" 0) in
  match adopt_sessions source target with
  | Some (source', target') =>
      match adopt_sessions (set_sessions [mkSession 2 "a" 1] source') target' with
      | Some (_, t2) => notes t2 = "of the request" +:+ bytes_of [10; 10]%nat +:+ "from the issue"
                                   +:+ bytes_of [10; 10]%nat +:+ "from the issue"
      | None => False
      end
  | None => False
  end.
Proof. reflexivity. Qed.

(** ** The checklist *)

Lemma check_items_same_tree t now items :
  let items' := (check_items_linked_to t now items).1 in
  map todo_id items' = map todo_id items /\ map todo_parent items' = map todo_parent items
  /\ map is_canceled items' = map is_canceled items.
Proof.
  unfold check_items_linked_to. cbn [fst]. cbv zeta. rewrite !map_map.
  split_and!; apply map_ext; intros i; by case_match.
Qed.

(** The leaves [todo_progress] counts. *)
Definition todo_leaves (items : list TodoItem) : list TodoItem :=
  let live := List.filter (fun i => negb (is_canceled i)) items in
  List.filter (fun i => negb (existsb (fun c => bool_decide (todo_parent c = Some (todo_id i))) live)) live.

Lemma todo_progress_leaves items :
  todo_progress items = (length (List.filter is_done (todo_leaves items)), length (todo_leaves items)).
Proof. reflexivity. Qed.

Section map_filter.
Context {A : Type} (f : A -> A) (p : A -> bool).

Lemma filter_map_same l : (forall x, p (f x) = p x) -> List.filter p (map f l) = map f (List.filter p l).
Proof. intros H. induction l as [|x l IH]; [done|]. simpl. rewrite H, IH. by destruct (p x). Qed.

Lemma existsb_map_same l : (forall x, p (f x) = p x) -> existsb p (map f l) = existsb p l.
Proof. intros H. induction l as [|x l IH]; [done|]. simpl. by rewrite H, IH. Qed.

End map_filter.

Definition due_for (t : TaskId) (i : TodoItem) : bool :=
  links_to_task t i && negb (is_done i) && negb (is_canceled i).

Lemma check_items_due t now items :
  check_items_linked_to t now items
  = (map (fun i => if due_for t i then check_off now i else i) items, length (List.filter (due_for t) items)).
Proof. reflexivity. Qed.

Lemma check_items_leaves t now items :
  todo_leaves (check_items_linked_to t now items).1
  = map (fun i => if due_for t i then check_off now i else i) (todo_leaves items).
Proof.
  rewrite check_items_due. unfold todo_leaves. cbn [fst].
  assert (forall i, is_canceled (if due_for t i then check_off now i else i) = is_canceled i) as Hc
    by (intros i; by case_match).
  rewrite filter_map_same by (intros i; by rewrite Hc). rewrite filter_map_same.
  2: { intros i. by destruct (due_for t i). }
  f_equal. apply List.filter_ext. intros i. f_equal. apply existsb_map_same.
  intros j. by destruct (due_for t j).
Qed.

(** Closing a task checks off the items linked to it: the total shown for the
    checklist stays, and the count of those done grows by just the leaves that were
    linked to the task and neither done nor cancelled. *)
Theorem closing_a_task_checks_its_items_off t now items :
  let '(items', n) := check_items_linked_to t now items in
  (todo_progress items').2 = (todo_progress items).2
  /\ ((todo_progress items').1 = (todo_progress items).1 + length (List.filter (due_for t) (todo_leaves items)))%nat
  /\ ((todo_progress items').1 <= (todo_progress items').2)%nat
  /\ check_items_linked_to t now items' = (items', O)
  /\ (n = O -> items' = items).
Proof.
  pose proof (check_items_leaves t now items) as Hl.
  destruct (check_items_linked_to t now items) as [items' n] eqn:E. cbn [fst] in Hl.
  rewrite !todo_progress_leaves, Hl. clear Hl. cbn [fst snd]. split_and!.
  - apply length_map.
  - clear. induction (todo_leaves items) as [|i l IH]; [done|]. cbn [map List.filter].
    destruct (due_for t i) eqn:Ed.
    + change (is_done (check_off now i)) with true. unfold due_for in Ed. bool_norm.
      match goal with H : is_done i = false |- _ => rewrite H end. cbn [length]. rewrite IH. lia.
    + destruct (is_done i); cbn [length]; rewrite IH; lia.
  - apply filter_length_le.
  - rewrite check_items_due in *. injection E as <- <-.
    assert (forall i, due_for t (if due_for t i then check_off now i else i) = false) as Hd.
    { intros i. destruct (due_for t i) eqn:Ed; [|done]. unfold due_for. simpl. by rewrite andb_false_r. }
    f_equal.
    + rewrite map_map. apply map_ext. intros i. rewrite Hd. done.
    + induction items as [|i l IH]; [done|]. cbn [map List.filter]. rewrite Hd. apply IH.
  - rewrite check_items_due in E. injection E as <- <-. intros Hn%length_zero_iff_nil.
    induction items as [|i l IH]; [done|]. cbn [map List.filter] in *. 
    destruct (due_for t i); [done|].
    f_equal. by apply IH.
Qed.

(** ** Names on disk *)

(** A file name: characters of a key, the first a letter or a digit, so that it is
    neither empty nor a path to a parent. *)
Definition safe_segment (s : string) : Prop :=
  match s with EmptyString => False | String c _ => is_ascii_alphanumeric c = true end
  /\ all_chars key_char s = true.

Lemma slug_char_key c : slug_char c = true -> is_ascii_alphanumeric c = true /\ key_char c = true.
Proof. destruct c as [[] [] [] [] [] [] [] []]; try discriminate; split; reflexivity. Qed.

Lemma digit_key c : is_digit c = true -> key_char c = true.
Proof. intros H. apply slug_char_key. unfold slug_char. by rewrite H. Qed.

Lemma safe_app a b : safe_segment a -> all_chars key_char b = true -> safe_segment (a +:+ b).
Proof. destruct a as [|c a]; intros [? ?] Hb; [done|]. split; [done|]. by rewrite all_chars_app, Hb, andb_true_r. Qed.

Lemma good_word_safe w : good_word w -> safe_segment w.
Proof.
  intros [Hne Hw]. destruct w as [|c w]; [done|]. split.
  - cbn [all_chars] in Hw. bool_norm. by apply slug_char_key.
  - eapply all_chars_impl, Hw. intros x Hx. by apply slug_char_key.
Qed.

Lemma slug_safe s : is_slug s -> s = EmptyString \/ safe_segment s.
Proof.
  intros (_ & ws & -> & Hg & _). induction Hg as [|w ws Hw Hws IH]; [by left|right].
  destruct ws as [|w' ws]; [by apply good_word_safe|].
  change (join_dashes (w :: w' :: ws)) with (w +:+ String "-" (join_dashes (w' :: ws))).
  apply safe_app; [by apply good_word_safe|]. cbn [all_chars].
  destruct IH as [->|[_ ->]]; reflexivity.
Qed.

Lemma slug_key_chars s : is_slug s -> all_chars key_char s = true.
Proof. intros [->|[_ H]]%slug_safe; done. Qed.

Lemma slug_nonempty_safe s : is_slug s -> is_empty s = false -> safe_segment s.
Proof. intros [->|H]%slug_safe; done. Qed.

(** The last characters of a text are of the text. *)
Lemma all_chars_rev f s : all_chars f (rev_str s) = all_chars f s.
Proof.
  induction s as [|c s IH]; [done|]. rewrite rev_str_cons, all_chars_app, IH. simpl.
  rewrite andb_true_r. apply andb_comm.
Qed.

Lemma all_chars_last f n s : all_chars f s = true -> all_chars f (last_chars n s) = true.
Proof.
  unfold last_chars. rewrite all_chars_rev, <- (all_chars_rev f s). generalize (rev_str s). intros r. clear s.
  revert n. induction r as [|c r IH]; intros n H; [done|]. cbn [all_chars] in H. bool_norm.
  cbn [last_bytes]. destruct n; [done|]. cbn [all_chars]. rewrite H. by apply IH.
Qed.

(** The directory of a workspace is one file name: it is not empty, starts with a
    letter or a digit, so that it is neither hidden nor a path to a parent, and has no
    separator, whatever the titles and names it is made from. *)
Theorem a_worktree_is_one_directory c :
  all_chars key_char (ws_key c) = true -> safe_segment (worktree_slug c).
Proof.
  intros Hk. unfold worktree_slug.
  destruct (t ← pr c; num ← pr_number t; Some (pr_slug num (title t))) as [slug|] eqn:E.
  { destruct (pr c) as [t|]; [|done]. simpl in E. destruct (pr_number t) as [num|]; [|done].
    injection E as <-. unfold pr_slug. pose proof (slugify_is_slug (title t)) as Hs.
    destruct (show_uint_digits num) as [Hd _].
    assert (all_chars key_char (show_uint num) = true) as Hn by (eapply all_chars_impl, Hd; apply digit_key).
    case_match; apply safe_app; try done. rewrite all_chars_app, Hn. cbn [all_chars].
    by rewrite slug_key_chars. }
  clear E. unfold issue_or_name_slug.
  pose proof (slugify_is_slug (ws_name c)) as Hs. set (name_slug := slugify (ws_name c)) in *.
  match goal with |- context [match ?stem with Some s => _ | None => nameless_slug _ _ end] => set (st := stem) end.
  destruct st as [s|] eqn:Est; subst st.
  - assert (safe_segment s) as Hss.
    { destruct (pr c); [done|]. destruct (primary_task c) as [t|]; [|done]. simpl in Est.
      destruct (numeric_tail (Work.key (id t))) as [n|] eqn:En.
      - injection Est as <-. apply safe_app; [done|]. unfold numeric_tail in En.
        destruct (rsplit_once "#" _) as [[? n']|]; [|done].
        destruct (is_empty n'); [done|]. cbn [negb andb] in En.
        destruct (all_chars is_digit n') eqn:Ed; [|done]. injection En as <-.
        eapply all_chars_impl, Ed. apply digit_key.
      - pose proof (slugify_is_slug (Work.key (id t))) as Hks.
        destruct (is_empty (slugify _)) eqn:Ee; [done|]. injection Est as <-. by apply slug_nonempty_safe. }
    destruct (is_empty name_slug); [done|]. apply safe_app; [done|].
    rewrite all_chars_app. cbn [all_chars]. by rewrite slug_key_chars.
  - unfold nameless_slug. destruct (is_empty name_slug) eqn:Ee; cbn [negb].
    + apply safe_app; [done|]. by apply all_chars_last.
    + pose proof (slug_nonempty_safe _ Hs Ee) as Hn. clearbody name_slug.
      destruct (name_derived name_slug (ws_key c)) eqn:Ed; [|done].
      unfold name_derived in Ed. apply orb_true_iff in Ed as [->%String.eqb_eq|Ed]; [done|].
      destruct (strip_prefix _ _) as [rest|] eqn:Er; [|done]. apply strip_prefix_Some in Er as Hkey.
      rewrite Hkey in *. rewrite app_assoc_str. apply safe_app; [done|].
      rewrite !all_chars_app, !andb_true_iff in Hk. destruct Hk as [[_ Hd] Hr].
      by rewrite all_chars_app, Hd, Hr.
Qed.

(** ** Names that meet *)

(** The owner's and the repository's dashes are the separator's. *)
Example two_repositories_share_a_workspace_key :
  workspace_key_for_id (Work.mkTaskId "github" "my-org/tools#42")
  = workspace_key_for_id (Work.mkTaskId "github" "my/org-tools#42").
Proof. reflexivity. Qed.

(** Eight words of the project's key are kept. *)
Example two_repositories_share_a_scope :
  let row r := set_project (Some (project_github "the-long-named-org" r)) (empty "k" "main" 0) in
  worktree_scope (row "data-pipeline-core-api") = worktree_scope (row "data-pipeline-core-web").
Proof. reflexivity. Qed.

(** ** Witnesses *)

Definition sample_pr (k : string) : Task :=
  plain_task (Work.mkTaskId "github" k) Open_ CiSuccess RvApproved MMergeable KPr [].

Lemma an_attached_task_is_linked_witness :
  classify (sample_pr "o/r#7") <> SlotUnknown
  /\ Work.mkTaskId "github" "o/r#7"
     ∈ linked_task_ids (core (attach_task_at (sample_pr "o/r#7") 5 (empty "k" "main" 0))).
Proof.
  assert (classify (sample_pr "o/r#7") <> SlotUnknown) as H by (vm_compute; discriminate).
  split; [exact H|].
  apply (an_attached_task_is_linked (sample_pr "o/r#7") 5 (empty "k" "main" 0) H).
Defined.

Definition reviewed_pr : Task := set_reviews [mkReviewer "ann" Approved_ false] (sample_pr "o/r#7").

Lemma another_pull_request_inherits_the_reviews_witness :
  exists t', pr (core (attach_task_at (sample_pr "o/r#8") 6
                         (set_core (set_pr (Some reviewed_pr) (core (empty "k" "main" 0))) (empty "k" "main" 0)))) = Some t'
    /\ id t' = Work.mkTaskId "github" "o/r#8" /\ reviews t' = reviews reviewed_pr
    /\ has_human_approval t' = true.
Proof.
  apply (another_pull_request_inherits_the_reviews (sample_pr "o/r#8") reviewed_pr 6
           (set_core (set_pr (Some reviewed_pr) (core (empty "k" "main" 0))) (empty "k" "main" 0)));
    [vm_compute; reflexivity|reflexivity|discriminate|reflexivity].
Defined.

Lemma an_expired_snooze_hides_the_fold_witness :
  let w := set_snoozed (Some 10) (empty "k" "main" 0) in
  let other := set_snoozed (Some 90) (empty "i" "main" 0) in
  is_snoozed w 50 = false /\ is_snoozed (absorb_user_state_from other w) 50 = true.
Proof.
  apply (an_expired_snooze_hides_the_fold (set_snoozed (Some 90) (empty "i" "main" 0))
           (set_snoozed (Some 10) (empty "k" "main" 0)) 10 90 50); try reflexivity; lia.
Defined.

Lemma a_worktree_is_one_directory_witness :
  let c := set_name "../.." (core (empty (sanitize_key "github-o/r#7") "main" 0)) in
  worktree_slug c = "workspace-ub-o-r-7" /\ safe_segment (worktree_slug c).
Proof.
  split; [reflexivity|].
  apply (a_worktree_is_one_directory (set_name "../.." (core (empty (sanitize_key "github-o/r#7") "main" 0)))).
  reflexivity.
Defined.
