(* ===== verification/AutoMerge.v ===== *)
(** * Auto-merge on green ([src/crates/server/src/polling/auto_merge.rs])

    The daemon's merge trigger: the one-shot latch per workspace ([plan]) and the
    attempt itself ([run_attempt]).  GitHub's own auto-merge, armed beside it, is
    in NativeArm.v and the theorems are in AutoMergeProps.v.

    An attempt is a function from what its calls answered ([AttemptInputs]: the
    stored rows, the provider, the configuration) to the effects it has, in order
    ([Effect]); each call is made at most once and in the order of the source, so
    the answers determine the run.  Writing the refreshed row back ([ECommit]) and
    the cost trailers are effects like the others.  The per-key [HashMap] is a
    [gmap]. *)

From Stdlib Require Import Ascii String.
From S2P Require Import Prelude Text CoreTask Graph Stack Epics Policy.

#[global] Open Scope Z_scope.

Inductive Latch : Type :=
| InFlight
| LDone (head : option string)
| LBlocked (head : option string)
| LRejected (head : option string).

#[export] Instance Latch_eq_dec : EqDecision Latch.
Proof. solve_decision. Defined.

Record AutoMergeMemory : Type := mkMemory {
  latches : gmap string Latch;
  attempts_started : Z;
}.

Definition latch (m : AutoMergeMemory) (key : string) : option Latch := latches m !! key.

Definition settle (key : string) (l : option Latch) (m : AutoMergeMemory) : AutoMergeMemory :=
  match l with
  | Some l => mkMemory (<[key := l]> (latches m)) (attempts_started m)
  | None => mkMemory (delete key (latches m)) (attempts_started m)
  end.

Inductive Signal : Type := Fire | Hold | Release.

#[export] Instance Signal_eq_dec : EqDecision Signal.
Proof. solve_decision. Defined.

Inductive NativeArm : Type := OursAndLive | NotOurs.

Definition native_arm_for (ws : Workspace) : NativeArm :=
  if native_auto_merge_by_lazybox ws && is_some_and auto_merge_enabled (pr ws)
  then OursAndLive else NotOurs.

Definition signal_for (ws : Workspace) : Signal :=
  let terminal := is_some_and (fun p => is_terminal_state (state p)) (pr ws) in
  if negb (auto_merge_on_green ws) || is_none (pr ws) || terminal then Release
  else if should_auto_merge ws allow_all then Fire
  else Hold.

Record AttemptPlan : Type := mkPlan {
  workspace_key : string;
  skip_if_head : option string;
  restore_latch : option Latch;
}.

#[export] Instance AttemptPlan_eq_dec : EqDecision AttemptPlan.
Proof. solve_decision. Defined.

Definition dispatch_attempt (key : string) (skip : option string) (restore : option Latch)
    (m : AutoMergeMemory) : AutoMergeMemory * option AttemptPlan :=
  let m := settle key (Some InFlight) m in
  (mkMemory (latches m) (attempts_started m + 1), Some (mkPlan key skip restore)).

Definition plan (m : AutoMergeMemory) (key : string) (signal : Signal) (changed : bool)
    : AutoMergeMemory * option AttemptPlan :=
  match signal with
  | Release => (settle key None m, None)
  | Hold => (m, None)
  | Fire =>
      match latch m key with
      | None => dispatch_attempt key None None m
      | Some InFlight | Some (LDone _) => (m, None)
      | Some (LBlocked head) =>
          if changed then dispatch_attempt key None (Some (LBlocked head)) m else (m, None)
      | Some (LRejected head) =>
          if changed then dispatch_attempt key head (Some (LRejected head)) m else (m, None)
      end
  end.

(** The epic constraints turn [Fire] into [Hold]; [held] is [None] when the epic
    graph could not be read. *)
Definition epic_hold (signal : Signal) (review_blocked : bool) (held : option (list WorkspaceKey))
    : Signal :=
  match signal with
  | Fire =>
      if review_blocked then Hold
      else match held with Some [] => Fire | _ => Hold end
  | s => s
  end.

(** The latch half of [on_workspace_committed]; the native half is
    [revoke_native_if_unsafe]. *)
Definition on_workspace_committed (m : AutoMergeMemory) (key : string) (signal : Signal)
    (review_blocked : bool) (held : option (list WorkspaceKey)) (changed : bool)
    : AutoMergeMemory * option AttemptPlan :=
  plan m key (epic_hold signal review_blocked held) changed.

(** ** The attempt *)

Definition github_target (task : Task) : option (string * string * Z) :=
  match repo task with
  | None => None
  | Some r =>
      match split_once "/"%char r with
      | None => None
      | Some (owner, name) =>
          match rsplit_once "#"%char (Work.key (id task)) with
          | None => None
          | Some (_, n) => (fun n => (owner, name, n)) <$> parse_u64 n
          end
      end
  end.

Inductive TrailerOutcome : Type := TNothing | TInCommit | TInComment | TDropped (why : string).

Inductive MergeAnswer : Type :=
| MQueued
| MMerged (outcome : TrailerOutcome)
| MFailed (retryable : bool) (diagnostic : string).

Inductive Fetched : Type :=
| FetchFailed
| FetchGone
| FetchOk (fresh : Task) (head : option string).

(** What the calls of one attempt answer; [policy_read] is [None] when the
    configuration cannot be read. *)
Record AttemptInputs : Type := mkInputs {
  loaded : option Workspace;
  paused : bool;
  fetched : Fetched;
  policy_read : option ApprovalPolicy;
  other_prs : list Task;
  merge_answer : MergeAnswer;
}.

Inductive Effect : Type :=
| ESettle (l : option Latch)
| EMerge (ws : Workspace) (expected_head : option string)
| ECommit (fresh : Task)
| ENotice (message : string)
| EMarkReported (outcome : TrailerOutcome)
| EPrQueued
| EPrMerged
| EPrMergeFailed
| EWake.

Definition is_already_in_merge_queue (lower : string) : bool :=
  contains "is in the merge queue" lower || contains "already in the merge queue" lower.

Definition transient_markers : list string :=
  ["status check"; "branch was modified"; "changes requested"; "approving review";
   "review is required"; "merge already in progress"]%string.

Definition transient_merge_rejection (message : string) : bool :=
  let lower := to_ascii_lowercase message in
  existsb (fun marker => contains marker lower) transient_markers
  || is_already_in_merge_queue lower.

(** [child] replaces its stored row among the candidates. *)
Definition stacked_on_open_parent_among (others : list Task) (child : Task) : bool :=
  let prs := List.filter (fun t => negb (bool_decide (id t = id child))) others ++ [child] in
  match detect_stacks prs with
  | Some stacks => is_some_and (fun sp => is_some (sp_parent sp)) (stacks !! id child)
  | None => false
  end.

Definition stacked_on_open_parent (others : list Task) (child : Task) : bool :=
  if is_none (repo child) || is_none (base_branch child) then false
  else stacked_on_open_parent_among others child.

Definition eta_workspace (w : Workspace) : Workspace :=
  mkWorkspace (ws_key w) (ws_name w) (pr w) (gh_issues w) (linear_issues w) (auto_merge_on_green w)
    (native_auto_merge_by_lazybox w).

Definition with_pr (v : option Task) (w : Workspace) : Workspace := ltac:(upd eta_workspace pr v w).

Definition eta_pr (t : Task) : Task :=
  mkTask (id t) (state t) (ci t) (review t) (url t) (repo t) (branch t) (base_branch t) (labels t)
    (mergeable t) (merge_blocked t) (kind t) (parent t) (blocked_by t) (merge_after t) (contracts t)
    (blocked_on t) (role t) (author t) (updated_at t) (closed_at t) (assignees t) (reviewers t)
    (reviews t) (approval_policy t) (auto_merge_enabled t) (is_in_merge_queue t) (state_label t)
    (node_id t) (checks t) (title t) (is_behind_base t)
    (recent_activity t) (body t) (closes_issues t) (linked_tasks t).

Definition stamp_approval (v : ApprovalPolicy) (t : Task) : Task := ltac:(upd eta_pr approval_policy v t).
Definition set_queued (v : bool) (t : Task) : Task := ltac:(upd eta_pr is_in_merge_queue v t).

Definition same_head (prior current : option string) : bool :=
  match prior, current with Some p, Some c => String.eqb p c | _, _ => false end.

(** The merge call and what follows from its answer. *)
Definition merge_and_settle (answer : MergeAnswer) (probe : Workspace) (fresh : Task)
    (head : option string) : list Effect :=
  EMerge probe head ::
  match answer with
  | MQueued => [ESettle (Some (LDone head)); EPrQueued; ECommit (set_queued true fresh); EWake]
  | MMerged outcome =>
      EMarkReported outcome
      :: match outcome with TDropped why => [ENotice why] | _ => [] end
      ++ [ESettle (Some (LDone head)); EPrMerged; EWake]
  | MFailed true _ => [ESettle None; ECommit fresh]
  | MFailed false diagnostic =>
      [ESettle (Some (if transient_merge_rejection diagnostic then LBlocked head else LRejected head));
       EPrMergeFailed; ECommit fresh]
  end.

Definition stand_down (announced : bool) (why : string) (head : option string) (fresh : Task)
    : list Effect :=
  (if announced then [] else [ENotice why]) ++ [ESettle (Some (LBlocked head)); ECommit fresh].

Definition run_attempt (ticket : AttemptPlan) (policy : MergeOnGreenPolicy) (inp : AttemptInputs)
    : list Effect :=
  match loaded inp with
  | None => [ESettle None]
  | Some ws =>
      if negb (auto_merge_on_green ws) then [ESettle None]
      else
        match pr ws ≫= github_target with
        | None => [ESettle (Some (LBlocked None))]
        | Some _ =>
            if paused inp then [ESettle (restore_latch ticket)]
            else
              match fetched inp with
              | FetchFailed => [ESettle (restore_latch ticket)]
              | FetchGone => [ESettle (Some (LBlocked None))]
              | FetchOk fresh head =>
                  match policy_read inp with
                  | None => [ESettle (restore_latch ticket)]
                  | Some approval =>
                      let fresh := stamp_approval approval fresh in
                      if same_head (skip_if_head ticket) head then
                        [ESettle (Some (LRejected head)); ECommit fresh]
                      else
                        let announced := bool_decide (restore_latch ticket = Some (LBlocked head)) in
                        let probe := with_pr (Some fresh) ws in
                        match auto_merge_block_reason probe policy with
                        | Some reason => stand_down announced reason head fresh
                        | None =>
                            if stacked_on_open_parent (other_prs inp) fresh then
                              stand_down announced "stacked on a still-open parent PR" head fresh
                            else merge_and_settle (merge_answer inp) probe fresh head
                        end
                  end
              end
        end
  end.

(** [first]: the row as read before a GitHub client was resolved, if it could be
    ([client]); the attempt reads it again. *)
Definition run_real_attempt (ticket : AttemptPlan) (first : option Workspace) (client : bool)
    (policy : MergeOnGreenPolicy) (inp : AttemptInputs) : list Effect :=
  match first with
  | None => [ESettle None]
  | Some ws =>
      if negb (auto_merge_on_green ws) then [ESettle None]
      else if is_none (pr ws ≫= github_target) then [ESettle (Some (LBlocked None))]
      else if client then run_attempt ticket policy inp
      else [ESettle (match restore_latch ticket with Some l => Some l | None => Some (LBlocked None) end)]
  end.
