(* ===== verification/AutoMergeProps.v ===== *)
(** * What the merge trigger guarantees

    An attempt merges nothing it has not verified on a fresh read, and pins the
    head it verified; over any history of commits and attempts a workspace has one
    attempt in flight at most, and a head the provider accepted is merged once.  The
    history is a step relation on the latches, the attempts in flight and the log
    of merge calls. *)

From Stdlib Require Import Ascii String.
From S2P Require Import Prelude Text Work CoreTask Graph Stack Epics Policy AutoMerge.

#[global] Open Scope Z_scope.

(** ** The gates *)

Lemma merge_gate_open p :
  merge_block_reason p = None ->
  (state p = Open_ \/ state p = InReview) /\ review p <> RvChangesRequested
  /\ (approval_policy p = Human -> exists r, r ∈ reviews p /\ rv_state r = Approved_ /\ is_bot r = false)
  /\ (ci p = CiSuccess \/ ci p = CiNone) /\ mergeable p <> MConflicting /\ merge_blocked p = false.
Proof.
  unfold merge_block_reason, approval_policy_blocks, is_conflicting. intros H.
  destruct (bool_decide (state p = Open_) || bool_decide (state p = InReview)) eqn:E1; [|done]. simpl in H.
  destruct (bool_decide (review p = RvChangesRequested)) eqn:E2; [done|].
  destruct (approval_policy p) eqn:E3; [|destruct (has_human_approval p) eqn:E4; [|done]];
    (destruct (bool_decide (ci p = CiSuccess) || bool_decide (ci p = CiNone)) eqn:E5; [|done]); simpl in H;
    (destruct (bool_decide (mergeable p = MConflicting)) eqn:E6; [done|]);
    (destruct (merge_blocked p); [done|]);
    apply orb_true_iff in E1, E5; rewrite !bool_decide_eq_true in E1, E5; bool_norm;
    split_and!; try done.
  intros _. apply existsb_exists in E4 as (r & Hr & E4). bool_norm. exists r.
  split; [by apply list_elem_of_In|done].
Qed.

Lemma auto_gate_open ws policy p :
  pr ws = Some p -> auto_merge_block_reason ws policy = None ->
  auto_merge_on_green ws = true /\ auto_merge_enabled p = false
  /\ (role p = Author \/ allows_author policy (author p) = true)
  /\ ci p = CiSuccess /\ merge_block_reason p = None.
Proof.
  unfold auto_merge_block_reason, author_gate_blocks. intros ->. intros H.
  repeat (case_match; try discriminate); bool_norm; split_and!; try done.
  destruct (decide (role p = Author)); [by left|right]. destruct (allows_author _ _); [done|].
  rewrite bool_decide_eq_false_2 in * by done. discriminate.
Qed.

(** A pull request based on the head of another open one is not let through. *)
Lemma not_stacked_spec others child r b h t :
  stacked_on_open_parent others child = false ->
  is_open_pr child = true -> repo child = Some r -> base_branch child = Some b ->
  branch child = Some h -> h <> b ->
  t ∈ others -> is_open_pr t = true -> id t <> id child -> repo t = Some r -> branch t <> Some b.
Proof.
  unfold stacked_on_open_parent, stacked_on_open_parent_among.
  intros Hs Hco Hcr Hcb Hch Hhb Ht Hto Hid Htr Htb. rewrite Hcr, Hcb in Hs. simpl in Hs.
  set (prs := List.filter _ others ++ [child]) in Hs.
  destruct (detect_stacks_spec prs) as (out & Ho & Hl). rewrite Ho in Hs.
  set (sp := stackable prs) in Hl.
  assert (Hin : forall x, x ∈ sp <-> x ∈ prs /\ is_open_pr x = true /\ is_some (repo x) = true /\ is_some (branch x) = true).
  { intros x. unfold sp, stackable. rewrite !list_elem_of_In, filter_In, !andb_true_iff. tauto. }
  assert (Hchild : child ∈ sp).
  { apply Hin. rewrite Hco, Hcr, Hch. split; [|done]. apply elem_of_app. right. by apply list_elem_of_singleton. }
  assert (Htin : t ∈ sp).
  { apply Hin. rewrite Hto, Htr, Htb. split; [|done]. apply elem_of_app. left.
    apply list_elem_of_In, filter_In. split; [by apply list_elem_of_In|]. by rewrite bool_decide_eq_false_2. }
  assert (Hhead : exists p, by_head sp !! (r, b) = Some p /\ p <> id child).
  { assert (is_Some (by_head sp !! (r, b))) as [p Hp].
    { unfold by_head. apply insert_all_is_Some. left. apply list_elem_of_In, in_map_iff.
      exists ((r, b), id t). split; [done|]. apply list_elem_of_In, list_elem_of_omap.
      exists t. by rewrite Htr, Htb. }
    exists p. split; [done|]. intros ->. unfold by_head in Hp.
    apply insert_all_Some in Hp as [Hp|Hp]; [|by rewrite lookup_empty in Hp].
    apply list_elem_of_omap in Hp as (x & Hx & E). destruct (repo x), (branch x) eqn:Hxb; simplify_eq/=.
    apply Hin in Hx as [Hx _]. apply elem_of_app in Hx as [Hx|Hx].
    - apply list_elem_of_In, filter_In in Hx as [_ Hx]. rewrite bool_decide_eq_true_2 in Hx by congruence. done.
    - apply list_elem_of_singleton in Hx as ->. congruence. }
  destruct Hhead as (p & Hp & Hpid).
  assert (Hlink : (id child, p) ∈ links sp).
  { apply elem_of_links. exists child. split_and!; [done|done|]. unfold parent_of.
    by rewrite Hcr, Hcb, Hp, bool_decide_eq_false_2. }
  assert (is_Some (parents sp !! id child)) as [q Hq].
  { apply elem_of_dom, dom_parents. apply list_elem_of_In, (in_map fst) in Hlink. by apply list_elem_of_In. }
  specialize (Hl (id child)). unfold standalone in Hl. rewrite Hq in Hl. simpl in Hl.
  rewrite bool_decide_eq_true_2 in Hl.
  2:{ apply list_elem_of_In, in_map. by apply list_elem_of_In. }
  simpl in Hl. destruct (place_total sp (id child)) as [pos Hpos]. rewrite Hpos in Hl. rewrite Hl in Hs. simpl in Hs.
  unfold place in Hpos. repeat (case_match; try discriminate). injection Hpos as <-.
  simpl in Hs. by rewrite Hq in Hs.
Qed.

(** ** One attempt *)

Definition settled (l : list Effect) : list (option Latch) :=
  omap (fun e => match e with ESettle l => Some l | _ => None end) l.

Definition merged_heads (l : list Effect) : list (option string) :=
  omap (fun e => match e with EMerge _ h => Some h | _ => None end) l.

Definition accepted (a : MergeAnswer) : bool :=
  match a with MQueued | MMerged _ => true | MFailed _ _ => false end.

(** What a settled attempt may leave, given its ticket: the latch it restores, a
    release, a block, or the rejection it was told of. *)
Definition stood_down (t : AttemptPlan) (l : option Latch) : Prop :=
  l = None \/ l = restore_latch t \/ (exists h, l = Some (LBlocked h))
  \/ exists h, skip_if_head t = Some h /\ l = Some (LRejected (Some h)).

(** What an answer of the provider leaves. *)
Definition after_merge (a : MergeAnswer) (head : option string) : option Latch :=
  match a with
  | MQueued | MMerged _ => Some (LDone head)
  | MFailed true _ => None
  | MFailed false d => Some (if transient_merge_rejection d then LBlocked head else LRejected head)
  end.

Lemma merge_and_settle_spec a probe fresh head :
  settled (merge_and_settle a probe fresh head) = [after_merge a head]
  /\ merged_heads (merge_and_settle a probe fresh head) = [head].
Proof. by destruct a as [|[| | |]|[]]. Qed.

Lemma stand_down_spec b why head fresh :
  settled (stand_down b why head fresh) = [Some (LBlocked head)]
  /\ merged_heads (stand_down b why head fresh) = [].
Proof. by destruct b. Qed.

Lemma same_head_true prior head :
  same_head prior head = true -> exists h, prior = Some h /\ head = Some h.
Proof.
  unfold same_head. destruct prior as [p|], head as [c|]; try done. intros ->%String.eqb_eq. eauto.
Qed.

(** Everything an attempt that calls the provider has checked. *)
Definition verified (policy : MergeOnGreenPolicy) (t : AttemptPlan) (inp : AttemptInputs)
    (ws : Workspace) (fresh : Task) (head : option string) : Prop :=
  loaded inp = Some ws /\ auto_merge_on_green ws = true /\ paused inp = false
  /\ (exists raw approval, fetched inp = FetchOk raw head /\ policy_read inp = Some approval
       /\ fresh = stamp_approval approval raw)
  /\ same_head (skip_if_head t) head = false
  /\ auto_merge_block_reason (with_pr (Some fresh) ws) policy = None
  /\ stacked_on_open_parent (other_prs inp) fresh = false.

Lemma attempt_cases t policy inp :
  (exists ws fresh head, verified policy t inp ws fresh head
     /\ run_attempt t policy inp = merge_and_settle (merge_answer inp) (with_pr (Some fresh) ws) fresh head)
  \/ (merged_heads (run_attempt t policy inp) = []
      /\ exists l, settled (run_attempt t policy inp) = [l] /\ stood_down t l).
Proof.
  unfold run_attempt, stood_down.
  destruct (loaded inp) as [ws|] eqn:Hl; [|by right; simpl; eauto 8].
  destruct (auto_merge_on_green ws) eqn:Ha; [|by right; simpl; eauto 8]. simpl.
  destruct (pr ws ≫= github_target) as [tgt|] eqn:Hg; [|by right; simpl; eauto 8].
  destruct (paused inp) eqn:Hp; [by right; simpl; eauto 8|].
  destruct (fetched inp) as [| |fresh head] eqn:Hf; simpl in *.
  1: by right; split; [done|]; eexists; split; [done|]; right; left.
  1: by right; split; [done|]; eexists; split; [done|]; right; right; left; eexists.
  destruct (policy_read inp) as [ap|] eqn:Hr; [|by right; simpl; eauto 8]. cbv zeta.
  destruct (same_head (skip_if_head t) head) eqn:Hs.
  { right. apply same_head_true in Hs as (h & Hh & ->). simpl. split; [done|]. eauto 8. }
  destruct (auto_merge_block_reason _ _) as [why|] eqn:Hb.
  { right. destruct (stand_down_spec (bool_decide (restore_latch t = Some (LBlocked head))) why head
      (stamp_approval ap fresh)) as [-> ->]. eauto 8. }
  destruct (stacked_on_open_parent _ _) eqn:Hst.
  { right. destruct (stand_down_spec (bool_decide (restore_latch t = Some (LBlocked head)))
      "stacked on a still-open parent PR" head (stamp_approval ap fresh)) as [-> ->]. eauto 8. }
  left. exists ws, (stamp_approval ap fresh), head. split; [|done].
  split_and!; try done. by exists fresh, ap.
Qed.

Lemma merged_heads_in probe h l : EMerge probe h ∈ l -> h ∈ merged_heads l.
Proof. intros Hin. apply list_elem_of_omap. by exists (EMerge probe h). Qed.

(** C1: Nothing is merged that was not verified on a fresh read.  A merge call
    pins the head of that read; the workspace is still armed and the provider is
    not paused; the pull request as just fetched is open, of an author the
    allowlist admits, with green checks, no change requested, the human approval a
    repository demands, no conflict and no rule in the way, and GitHub's own
    auto-merge off; its head is not one the provider refused; and it is not based
    on the head of another open pull request lazybox tracks. *)
Theorem attempt_merges_only_what_it_verified t policy inp probe h :
  EMerge probe h ∈ run_attempt t policy inp ->
  exists ws raw approval,
    let fresh := stamp_approval approval raw in
    loaded inp = Some ws /\ auto_merge_on_green ws = true /\ paused inp = false
    /\ fetched inp = FetchOk raw h /\ policy_read inp = Some approval
    /\ probe = with_pr (Some fresh) ws
    /\ (state raw = Open_ \/ state raw = InReview) /\ ci raw = CiSuccess
    /\ review raw <> RvChangesRequested /\ mergeable raw <> MConflicting
    /\ merge_blocked raw = false /\ auto_merge_enabled raw = false
    /\ (role raw = Author \/ allows_author policy (author raw) = true)
    /\ (approval = Human -> exists r, r ∈ reviews raw /\ rv_state r = Approved_ /\ is_bot r = false)
    /\ (h <> None -> skip_if_head t <> h)
    /\ (forall o r b hd, o ∈ other_prs inp -> is_open_pr o = true -> is_open_pr raw = true ->
          repo raw = Some r -> base_branch raw = Some b -> branch raw = Some hd -> hd <> b ->
          id o <> id raw -> repo o = Some r -> branch o <> Some b).
Proof.
  intros Hin.
  destruct (attempt_cases t policy inp) as [(ws & fresh & head & Hv & E)|[E _]].
  2:{ apply merged_heads_in in Hin. rewrite E in Hin. by apply elem_of_nil in Hin. }
  rewrite E in Hin.
  assert (probe = with_pr (Some fresh) ws /\ h = head) as [-> ->].
  { apply elem_of_cons in Hin as [[= -> ->]|Hin]; [done|]. exfalso.
    apply merged_heads_in in Hin. destruct (merge_answer inp) as [|[]|[]]; by apply elem_of_nil in Hin. }
  destruct Hv as (Hl & Ha & Hp & (raw & ap & Hf & Hr & ->) & Hs & Hb & Hst).
  destruct (auto_gate_open (with_pr (Some (stamp_approval ap raw)) ws) policy (stamp_approval ap raw) eq_refl Hb) as (_ & Hn & Hau & Hci & Hm).
  destruct (merge_gate_open _ Hm) as (Ho & Hrv & Hhu & _ & Hc & Hmb). simpl in *.
  exists ws, raw, ap. cbv zeta. split_and!; try done.
  - intros Hne Hsk. rewrite Hsk in Hs. destruct head as [x|]; [|done]. simpl in Hs. by rewrite String.eqb_refl in Hs.
  - intros o r b hd Hoin Hoo Hop Hrr Hrb Hrh Hne Hid Hor. by eapply (not_stacked_spec _ _ r b hd o Hst).
Qed.

(** An armed workspace whose pull request is green. *)
Definition green_pr : Task :=
  mkTask (Work.mkTaskId "github" "o/r#7") Open_ CiSuccess RvApproved EmptyString (Some "o/r"%string)
    (Some "feature"%string) (Some "main"%string) [] MMergeable false (Some KPr) None [] [] [] None Author
    "me" 0 None [] [] [] ApDefault false false None (Some "PR_node"%string) [mkCheck "build" CiSuccess] EmptyString false [] None [] [].

Definition armed_workspace : Workspace := mkWorkspace "w" "w" (Some green_pr) [] [] true false.

Definition green_inputs (a : MergeAnswer) : AttemptInputs :=
  mkInputs (Some armed_workspace) false (FetchOk green_pr (Some "h1"%string)) (Some ApDefault) [] a.

Lemma attempt_merges_only_what_it_verified_witness :
  exists ws raw approval,
    loaded (green_inputs MQueued) = Some ws /\ fetched (green_inputs MQueued) = FetchOk raw (Some "h1"%string)
    /\ policy_read (green_inputs MQueued) = Some approval /\ ci raw = CiSuccess.
Proof.
  destruct (attempt_merges_only_what_it_verified (mkPlan "w" None None) default_policy (green_inputs MQueued)
    (with_pr (Some green_pr) armed_workspace) (Some "h1"%string))
    as (ws & raw & ap & H1 & _ & _ & H2 & H3 & _ & _ & H4 & _); [|eauto 8].
  assert (E : exists l, run_attempt (mkPlan "w" None None) default_policy (green_inputs MQueued)
    = EMerge (with_pr (Some green_pr) armed_workspace) (Some "h1"%string) :: l) by (eexists; vm_compute; reflexivity).
  destruct E as [l ->]. apply list_elem_of_here.
Defined.

(** ** Histories *)

(** The latches, the attempts in flight and the merge calls made, newest first. *)
Record History : Type := mkHistory {
  memory : AutoMergeMemory;
  flights : list AttemptPlan;
  merge_log : list (string * option string * MergeAnswer);
}.

(** A workspace is committed, or the attempt at a position of the list of those in
    flight ends with the answers it got. *)
Inductive Event : Type :=
| Commit (key : string) (signal : Signal) (review_blocked : bool)
    (held : option (list WorkspaceKey)) (changed : bool)
| Finish (n : nat) (first : option Workspace) (client : bool) (policy : MergeOnGreenPolicy)
    (inp : AttemptInputs).

Definition settle_all (key : string) (ls : list (option Latch)) (m : AutoMergeMemory) : AutoMergeMemory :=
  fold_left (fun m l => settle key l m) ls m.

Definition step (s : History) (e : Event) : History :=
  match e with
  | Commit key signal review_blocked held changed =>
      match on_workspace_committed (memory s) key signal review_blocked held changed with
      | (m, Some t) => mkHistory m (t :: flights s) (merge_log s)
      | (m, None) => mkHistory m (flights s) (merge_log s)
      end
  | Finish n first client policy inp =>
      match flights s !! n with
      | None => s
      | Some t =>
          let effects := run_real_attempt t first client policy inp in
          mkHistory (settle_all (workspace_key t) (settled effects) (memory s))
            (delete n (flights s))
            (map (fun h => (workspace_key t, h, merge_answer inp)) (merged_heads effects) ++ merge_log s)
      end
  end.

Definition start : History := mkHistory (mkMemory ∅ 0) [] [].

Definition run (s : History) (es : list Event) : History := fold_left step es s.

Definition of_key {A} (f : A -> string) (k : string) (l : list A) : list A :=
  List.filter (fun x => String.eqb (f x) k) l.

Definition flights_of (k : string) (s : History) : list AttemptPlan := of_key workspace_key k (flights s).
Definition log_of (k : string) (s : History) : list (string * option string * MergeAnswer) :=
  of_key (fun e => e.1.1) k (merge_log s).

(** The commit that gives the latch up: the arm is off, or the pull request is
    gone or has ended. *)
Definition releases (k : string) (e : Event) : bool :=
  match e with Commit key Release _ _ _ => String.eqb key k | _ => false end.

Lemma run_snoc s es e : run s (es ++ [e]) = step (run s es) e.
Proof. unfold run. by rewrite fold_left_app. Qed.

Lemma real_attempt_cases t first client policy inp :
  (exists ws fresh head, verified policy t inp ws fresh head
     /\ run_real_attempt t first client policy inp
        = merge_and_settle (merge_answer inp) (with_pr (Some fresh) ws) fresh head)
  \/ (merged_heads (run_real_attempt t first client policy inp) = []
      /\ exists l, settled (run_real_attempt t first client policy inp) = [l] /\ stood_down t l).
Proof.
  unfold run_real_attempt, stood_down. destruct first as [ws|]; [|right; simpl; eauto].
  destruct (auto_merge_on_green ws); [|right; simpl; eauto]. simpl.
  destruct (is_none (pr ws ≫= github_target)); [right; simpl; eauto 8|].
  destruct client; [apply attempt_cases|]. right. simpl. split; [done|].
  eexists. split; [done|]. destruct (restore_latch t); eauto 8.
Qed.

Lemma lookup_settle k k' l m :
  latch (settle k l m) k' = if String.eqb k k' then l else latch m k'.
Proof.
  unfold latch. destruct (String.eqb_spec k k') as [<-|Hne]; destruct l; simpl.
  - by rewrite lookup_insert_eq.
  - by rewrite lookup_delete_eq.
  - by rewrite lookup_insert_ne.
  - by rewrite lookup_delete_ne.
Qed.

(** What a ticket of the latch machine carries. *)
Definition ticket_of (t : AttemptPlan) (l : option Latch) : Prop :=
  restore_latch t = l
  /\ match l with
     | None | Some (LBlocked _) => skip_if_head t = None
     | Some (LRejected h) => skip_if_head t = h
     | _ => False
     end.

Lemma plan_cases m k sg ch m' r :
  plan m k sg ch = (m', r) ->
  (forall k', k' <> k -> latch m' k' = latch m k')
  /\ match r with
     | None => latch m' k = (if bool_decide (sg = Release) then None else latch m k)
     | Some t => workspace_key t = k /\ latch m' k = Some InFlight /\ ticket_of t (latch m k)
     end.
Proof.
  assert (Hset : forall l, (forall k', k' <> k -> latch (settle k l m) k' = latch m k') /\ latch (settle k l m) k = l).
  { intros l. split; [intros k' Hne|]; rewrite lookup_settle; [|by rewrite String.eqb_refl].
    by rewrite (proj2 (String.eqb_neq k k')). }
  unfold plan, dispatch_attempt, ticket_of. intros H. destruct sg; simplify_eq/=; [|done|].
  2:{ apply (Hset None). }
  destruct (latch m k) as [[]|] eqn:Hl; try destruct ch; simplify_eq/=; try by rewrite Hl.
  all: split; [apply (Hset (Some InFlight))|]; split; [done|]; split; [apply (Hset (Some InFlight))|done].
Qed.

Lemma step_commit k s key sg rb held ch :
  let s' := step s (Commit key sg rb held ch) in
  releases k (Commit key sg rb held ch) = false ->
  log_of k s' = log_of k s
  /\ ((latch (memory s') k = latch (memory s) k /\ flights_of k s' = flights_of k s)
      \/ exists t, latch (memory s') k = Some InFlight /\ flights_of k s' = t :: flights_of k s
           /\ ticket_of t (latch (memory s) k) /\ workspace_key t = k).
Proof.
  cbv zeta. intros Hr. simpl. unfold on_workspace_committed.
  destruct (plan (memory s) key (epic_hold sg rb held) ch) as [m' r] eqn:Hp.
  apply plan_cases in Hp as [Ho Hk].
  assert (Hrel : key = k -> bool_decide (epic_hold sg rb held = Release) = false).
  { intros ->. apply bool_decide_eq_false. intros E. destruct sg; simpl in *; [|done|].
    - destruct rb; [done|]. destruct held as [[|]|]; done.
    - by rewrite String.eqb_refl in Hr. }
  destruct r as [t|]; simpl; (split; [done|]).
  - destruct Hk as (Htk & Hm & Ht). unfold flights_of, of_key. simpl. rewrite Htk.
    destruct (String.eqb_spec key k) as [->|Hne]; [right; exists t; done|left].
    split; [by apply Ho|done].
  - left. split; [|done]. destruct (decide (k = key)) as [->|Hne]; [|by apply Ho].
    rewrite Hk. by rewrite Hrel.
Qed.

(** A finish ends one attempt, which leaves its latch and logs what it called. *)
Lemma step_finish k s n first client policy inp :
  let s' := step s (Finish n first client policy inp) in
  (latch (memory s') k = latch (memory s) k /\ flights_of k s' = flights_of k s /\ log_of k s' = log_of k s)
  \/ exists t, flights s !! n = Some t /\ workspace_key t = k
       /\ flights_of k s' = of_key workspace_key k (delete n (flights s))
       /\ ((exists ws fresh head, verified policy t inp ws fresh head
              /\ latch (memory s') k = after_merge (merge_answer inp) head
              /\ log_of k s' = (k, head, merge_answer inp) :: log_of k s)
           \/ (stood_down t (latch (memory s') k) /\ log_of k s' = log_of k s)).
Proof.
  cbv zeta. simpl. destruct (flights s !! n) as [t|] eqn:Hn; [|by left].
  destruct (decide (workspace_key t = k)) as [Hk|Hk].
  - right. exists t. simpl. split_and!; [done|done|done|].
    destruct (real_attempt_cases t first client policy inp) as [(ws & fresh & head & Hv & ->)|[-> (l & -> & Hl)]].
    + left. exists ws, fresh, head. destruct (merge_and_settle_spec (merge_answer inp) (with_pr (Some fresh) ws) fresh head)
        as [-> ->]. simpl. rewrite lookup_settle, Hk, String.eqb_refl. split_and!; [done|done|].
      unfold log_of, of_key. simpl. by rewrite String.eqb_refl.
    + right. simpl. by rewrite lookup_settle, Hk, String.eqb_refl.
  - left. simpl.
    assert (Hf : forall l, of_key workspace_key k (delete n l) = of_key workspace_key k l \/ l !! n <> Some t).
    { clear - Hk. intros l. unfold of_key. revert n. induction l as [|x l IH]; intros [|n]; simpl; [by left|by left| |].
      - destruct (decide (x = t)) as [->|]; [left|right; congruence]. by rewrite (proj2 (String.eqb_neq _ _)).
      - destruct (IH n) as [->|?]; [by left|by right]. }
    assert (Hm : forall ls m, latch (settle_all (workspace_key t) ls m) k = latch m k).
    { intros ls. induction ls as [|l ls IH]; intros m; [done|].
      etrans; [apply (IH (settle _ l m))|]. rewrite lookup_settle. by rewrite (proj2 (String.eqb_neq _ _)). }
    split; [apply Hm|]. split; [by destruct (Hf (flights s))|].
    unfold log_of, of_key. simpl. rewrite List.filter_app. induction (merged_heads _) as [|h hs IH]; [done|].
    simpl. by rewrite (proj2 (String.eqb_neq _ _)).
Qed.

Lemma filter_delete_lookup {A} (f : A -> bool) (l : list A) n x :
  l !! n = Some x -> f x = true ->
  List.filter f l ≡ₚ x :: List.filter f (delete n l).
Proof.
  revert n. induction l as [|y l IH]; intros [|n] Hn Hf; simplify_eq/=; [by rewrite Hf|].
  destruct (f y); [|by apply IH]. etrans; [apply perm_skip, (IH n Hn Hf)|apply perm_swap].
Qed.

Definition refused (e : string * option string * MergeAnswer) : Prop := accepted e.2 = false.

(** The invariant of a key: its latch against its attempts and its merges. *)
Definition key_inv (k : string) (s : History) : Prop :=
  match latch (memory s) k with
  | Some InFlight => exists t l, flights_of k s = [t] /\ ticket_of t l /\ Forall refused (log_of k s)
  | Some (LDone h) => flights_of k s = [] /\ exists a l, log_of k s = (k, h, a) :: l /\ accepted a = true /\ Forall refused l
  | _ => flights_of k s = [] /\ Forall refused (log_of k s)
  end.

Lemma stood_down_settled t l l' :
  ticket_of t l -> stood_down t l' ->
  match l' with Some InFlight | Some (LDone _) => False | _ => True end.
Proof.
  intros [Hr Ht] [->|[->|[[h ->]|(h & _ & ->)]]]; try done. rewrite Hr. by destruct l as [[]|].
Qed.

Lemma key_inv_step k s e : releases k e = false -> key_inv k s -> key_inv k (step s e).
Proof.
  intros Hr Hi. unfold key_inv in *. destruct e as [key sg rb held ch|n first client policy inp].
  - destruct (step_commit k s key sg rb held ch Hr) as [Hlog [[Hl Hf]|(t & Hl & Hf & Ht & _)]];
      cbv zeta in *; rewrite Hl, Hlog, Hf; [done|]. exists t.
    destruct (latch (memory s) k) as [[| | |]|] eqn:E; destruct Hi as [Hfl Hlg]; rewrite ?Hfl;
      try (by destruct Ht as [_ []]); eauto.
  - destruct (step_finish k s n first client policy inp) as [(Hl & Hf & Hlog)|(t & Hn & Hk & Hf & Hres)];
      cbv zeta in *; [by rewrite Hl, Hf, Hlog|].
    assert (Hp : flights_of k s ≡ₚ t :: of_key workspace_key k (delete n (flights s))).
    { apply filter_delete_lookup; [done|]. rewrite Hk. apply String.eqb_refl. }
    assert (exists l, latch (memory s) k = Some InFlight /\ flights_of k s = [t] /\ ticket_of t l
              /\ of_key workspace_key k (delete n (flights s)) = [] /\ Forall refused (log_of k s))
      as (l & _ & _ & Ht & Hd & Hlg).
    { destruct (latch (memory s) k) as [[| | |]|]; try (destruct Hi as [Hfl _]; rewrite Hfl in Hp; by apply Permutation_nil_cons in Hp).
      destruct Hi as (t' & l & Hfl & Ht & Hlg). rewrite Hfl in Hp. apply Permutation_length_1_inv in Hp as [= Et Ed].
      exists l. subst t'. by rewrite Ed. }
    rewrite Hf, Hd. destruct Hres as [(ws & fresh & head & _ & -> & ->)|[Hst ->]].
    + destruct (merge_answer inp) as [|o|[] d] eqn:Ha; cbn [after_merge].
      1-2: (split; [done|]; eexists _, _; split; [reflexivity|by split]).
      1: (split; [reflexivity|constructor; [reflexivity|exact Hlg]]).
      destruct (transient_merge_rejection d); (split; [reflexivity|constructor; [reflexivity|exact Hlg]]).
    + pose proof (stood_down_settled t l _ Ht Hst) as Hs. clear - Hs Hlg.
      by destruct (latch (memory (step _ _)) k) as [[]|].
Qed.

Lemma key_inv_run k es :
  Forall (fun e => releases k e = false) es -> key_inv k (run start es).
Proof.
  induction es as [|e es IH] using rev_ind; intros H.
  - split; [done|]. constructor.
  - apply Forall_app in H as [H He]. rewrite run_snoc. apply key_inv_step; [|by apply IH].
    by apply Forall_cons in He as [He _].
Qed.

Lemma done_step k s e h :
  releases k e = false -> latch (memory s) k = Some (LDone h) -> flights_of k s = [] ->
  latch (memory (step s e)) k = Some (LDone h) /\ flights_of k (step s e) = []
  /\ log_of k (step s e) = log_of k s.
Proof.
  intros Hr Hl Hf. destruct e as [key sg rb held ch|n first client policy inp].
  - destruct (step_commit k s key sg rb held ch Hr) as [Hlog [[Hl' Hf']|(t & _ & _ & [_ Ht] & _)]]; cbv zeta in *.
    + by rewrite Hl', Hf', Hlog.
    + by rewrite Hl in Ht.
  - destruct (step_finish k s n first client policy inp) as [(-> & -> & ->)|(t & Hn & Hk & _)]; [done|].
    assert (Hp : flights_of k s ≡ₚ t :: of_key workspace_key k (delete n (flights s))).
    { apply filter_delete_lookup; [done|]. rewrite Hk. apply String.eqb_refl. }
    rewrite Hf in Hp. by apply Permutation_nil_cons in Hp.
Qed.

Lemma done_run k s es h :
  Forall (fun e => releases k e = false) es ->
  latch (memory s) k = Some (LDone h) -> flights_of k s = [] -> log_of k (run s es) = log_of k s.
Proof.
  intros H. revert s. induction H as [|e es He _ IH]; intros s Hl Hf; [done|].
  destruct (done_step k s e h He Hl Hf) as (Hl' & Hf' & Hlog). change (run s (e :: es)) with (run (step s e) es).
  by rewrite (IH _ Hl' Hf').
Qed.

(** Where a merge of a key was accepted, it is the newest call of the key. *)
Lemma accepted_is_newest k es newer h a older :
  Forall (fun e => releases k e = false) es ->
  log_of k (run start es) = newer ++ (k, h, a) :: older -> accepted a = true ->
  newer = [] /\ latch (memory (run start es)) k = Some (LDone h).
Proof.
  intros H Hlog Ha. pose proof (key_inv_run k es H) as Hi. unfold key_inv in Hi. rewrite Hlog in Hi.
  assert (forall l, Forall refused (l ++ (k, h, a) :: older) -> False) as Hno.
  { intros l [_ [Hr _]%Forall_cons]%Forall_app. unfold refused in Hr. cbn in Hr. congruence. }
  destruct (latch (memory (run start es)) k) as [[|h'|h'|h']|] eqn:Hl; try by destruct Hi as [_ []%Hno].
  - by destruct Hi as (t & l & _ & _ & []%Hno).
  - destruct Hi as (_ & b & l & Heq & _ & Hr). destruct newer as [|e newer]; [by injection Heq as -> _ _|].
    injection Heq as _ <-. by destruct (Hno newer).
Qed.

(** C2: As long as its latch is not released, a workspace has one attempt at a time and a head
    is merged once.  After any history of commits and attempts with no release of the key, at
    most one attempt of it is in flight, exactly when its latch says so; a merge call that
    is accepted is remembered by the latch with its head; and no merge call for a head comes
    behind an accepted one for the same head. *)
Theorem a_green_head_is_merged_once k es :
  Forall (fun e => releases k e = false) es ->
  let s := run start es in
  (length (flights_of k s) <= 1)%nat
  /\ (flights_of k s <> [] <-> latch (memory s) k = Some InFlight)
  /\ (forall h a older, log_of k s = (k, h, a) :: older -> accepted a = true -> latch (memory s) k = Some (LDone h))
  /\ forall newer h a older, log_of k s = newer ++ (k, h, a) :: older -> accepted a = true ->
       Forall (fun e => e.1.2 <> h) newer.
Proof.
  intros H s. pose proof (key_inv_run k es H) as Hi. fold s in Hi. unfold key_inv in Hi.
  assert ((length (flights_of k s) <= 1)%nat /\ (flights_of k s <> [] <-> latch (memory s) k = Some InFlight)) as [Hone Hin].
  { destruct (latch (memory s) k) as [[|h|h|h]|] eqn:Hl; [destruct Hi as (t & l & -> & _)|destruct Hi as [-> _]..];
      (split; [cbn; lia|done]). }
  split_and!; [done|done| |].
  - intros h a older Hlog Ha. by destruct (accepted_is_newest k es [] h a older H Hlog Ha).
  - intros newer h a older Hlog Ha. by destruct (accepted_is_newest k es newer h a older H Hlog Ha) as [-> _].
Qed.

(** The head is merged, then the row is committed again. *)
Definition commit_green : Event := Commit "w" Fire false (Some []) true.
Definition finish_green (a : MergeAnswer) : Event :=
  Finish 0 (Some armed_workspace) true default_policy (green_inputs a).

Lemma a_green_head_is_merged_once_witness :
  let es := [commit_green; finish_green MQueued; commit_green] in
  log_of "w" (run start es) = [("w"%string, Some "h1"%string, MQueued)]
  /\ latch (memory (run start es)) "w" = Some (LDone (Some "h1"%string))
  /\ flights_of "w" (run start es) = [].
Proof.
  intros es. assert (Forall (fun e => releases "w" e = false) es) as H by (repeat constructor).
  assert (log_of "w" (run start es) = [("w"%string, Some "h1"%string, MQueued)]) as E by (vm_compute; reflexivity).
  destruct (a_green_head_is_merged_once "w" es H) as (Hone & Hin & Hdone & _).
  pose proof (Hdone _ _ _ E eq_refl) as Hl. split; [exact E|]. split; [exact Hl|].
  rewrite Hl in Hin. destruct (flights_of "w" (run start es)) as [|x l]; [reflexivity|].
  assert (x :: l <> []) as Hne by discriminate. apply Hin in Hne. discriminate.
Defined.

(** Behind an accepted merge no commit leads to an attempt, whatever its head, until the
    latch is released. *)
Lemma a_done_latch_skips_every_head k es es' newer h a older :
  Forall (fun e => releases k e = false) es -> Forall (fun e => releases k e = false) es' ->
  log_of k (run start es) = newer ++ (k, h, a) :: older -> accepted a = true ->
  log_of k (run (run start es) es') = log_of k (run start es).
Proof.
  intros H H' Hlog Ha. destruct (accepted_is_newest k es newer h a older H Hlog Ha) as [_ Hl].
  apply (done_run k _ es' h H' Hl). pose proof (key_inv_run k es H) as Hi. unfold key_inv in Hi. rewrite Hl in Hi.
  by destruct Hi.
Qed.

(** ** A refused head *)

Definition armed_at (row : option Workspace) : Prop :=
  exists ws, row = Some ws /\ auto_merge_on_green ws = true /\ is_none (pr ws ≫= github_target) = false.

(** The commits do not release the key, and its attempts find the workspace armed
    and, where they get to see the pull request, the head [h]. *)
Definition quiet (k h : string) (s : History) (e : Event) : Prop :=
  match e with
  | Commit _ _ _ _ _ => releases k e = false
  | Finish n first _ _ inp =>
      forall t, flights s !! n = Some t -> workspace_key t = k ->
        armed_at first /\ armed_at (loaded inp)
        /\ (fetched inp = FetchFailed \/ exists raw, fetched inp = FetchOk raw (Some h))
  end.

Fixpoint all_quiet (k h : string) (s : History) (es : list Event) : Prop :=
  match es with
  | [] => True
  | e :: es => quiet k h s e /\ all_quiet k h (step s e) es
  end.

Definition waits (k h : string) (s : History) : Prop :=
  (latch (memory s) k = Some (LRejected (Some h)) /\ flights_of k s = [])
  \/ exists t, latch (memory s) k = Some InFlight /\ flights_of k s = [t]
       /\ ticket_of t (Some (LRejected (Some h))).

Lemma attempt_on_refused_head t first client policy inp h :
  ticket_of t (Some (LRejected (Some h))) -> armed_at first -> armed_at (loaded inp) ->
  (fetched inp = FetchFailed \/ exists raw, fetched inp = FetchOk raw (Some h)) ->
  settled (run_real_attempt t first client policy inp) = [Some (LRejected (Some h))]
  /\ merged_heads (run_real_attempt t first client policy inp) = [].
Proof.
  intros [Hre Hsk] (ws & -> & Ha & Hg) (ws' & Hl & Ha' & Hg') Hf.
  unfold run_real_attempt, run_attempt. rewrite Ha, Hg, Hl, Ha', Hre, Hsk. simpl.
  destruct client; [|done]. destruct (pr ws' ≫= github_target); [|done].
  destruct (paused inp); [done|]. destruct Hf as [->|[raw ->]]; [done|].
  destruct (policy_read inp); [|done]. unfold same_head. by rewrite String.eqb_refl.
Qed.

Lemma waits_step k h s e :
  quiet k h s e -> waits k h s -> waits k h (step s e) /\ log_of k (step s e) = log_of k s.
Proof.
  intros Hq Hw. destruct e as [key sg rb held ch|n first client policy inp].
  - destruct (step_commit k s key sg rb held ch Hq) as [Hlog Hc]; cbv zeta in *. split; [|done].
    destruct Hc as [[Hl Hf]|(t & Hl & Hf & Ht & _)]; unfold waits; rewrite Hl, Hf; [done|].
    right. exists t. destruct Hw as [[Hl' Hf']|(t' & Hl' & _)]; rewrite Hl' in Ht; [by rewrite Hf'|].
    by destruct Ht as [_ []].
  - destruct (flights s !! n) as [t|] eqn:Hn.
    2:{ simpl. by rewrite Hn. }
    destruct (decide (workspace_key t = k)) as [Hk|Hk].
    + destruct (Hq t Hn Hk) as (Hf1 & Hf2 & Hf3).
      assert (Hp : flights_of k s ≡ₚ t :: of_key workspace_key k (delete n (flights s))).
      { apply filter_delete_lookup; [done|]. rewrite Hk. apply String.eqb_refl. }
      destruct Hw as [[_ Hf]|(t' & _ & Hf & Ht)]; rewrite Hf in Hp; [by apply Permutation_nil_cons in Hp|].
      apply Permutation_length_1_inv in Hp as [= Et Ed]. subst t'.
      destruct (attempt_on_refused_head t first client policy inp h Ht Hf1 Hf2 Hf3) as [Es Em].
      simpl. rewrite Hn, Es, Em. split; [|done]. left.
      unfold settle_all. cbn [memory fold_left]. rewrite lookup_settle, Hk, String.eqb_refl.
      split; [done|]. exact Ed.
    + destruct (step_finish k s n first client policy inp) as [(Hl & Hf & Hlog)|(t' & Hn' & Hk' & _)];
        cbv zeta in *; [|congruence]. unfold waits. by rewrite Hl, Hf, Hlog.
Qed.

(** A head the provider refused waits for a new commit.  From a latch that says
    so, as long as the workspace stays armed and the attempts that see the pull
    request see that head, no merge is called again, whatever is committed and
    however the attempts end: paused, without a client, without an answer or
    without a readable configuration. *)
Theorem refused_head_waits_for_a_commit k h s es :
  latch (memory s) k = Some (LRejected (Some h)) -> flights_of k s = [] -> all_quiet k h s es ->
  log_of k (run s es) = log_of k s.
Proof.
  intros Hl Hf. assert (Hw : waits k h s) by by left. clear Hl Hf. revert s Hw.
  induction es as [|e es IH]; intros s Hw; [done|]. intros [Hq Hes].
  destruct (waits_step k h s e Hq Hw) as [Hw' Hlog].
  change (run s (e :: es)) with (run (step s e) es). by rewrite (IH _ Hw' Hes).
Qed.

Lemma refused_head_waits_for_a_commit_witness :
  let s := run start [commit_green; finish_green (MFailed false "Merge conflict")] in
  latch (memory s) "w" = Some (LRejected (Some "h1"%string))
  /\ log_of "w" (run s [commit_green; finish_green MQueued]) = log_of "w" s.
Proof.
  cbv zeta. assert (Hl : latch (memory (run start [commit_green; finish_green (MFailed false "Merge conflict")])) "w"
      = Some (LRejected (Some "h1"%string))) by (vm_compute; reflexivity).
  split; [exact Hl|]. apply (refused_head_waits_for_a_commit "w" "h1" _ _ Hl); [vm_compute; reflexivity|].
  assert (Ha : armed_at (Some armed_workspace)) by (exists armed_workspace; vm_compute; auto).
  split; [reflexivity|]. split; [|exact I]. intros t _ _. split; [exact Ha|]. split; [exact Ha|].
  right. exists green_pr. reflexivity.
Defined.
