(* ===== verification/NativeArm.v ===== *)
(** * GitHub's own auto-merge ([src/crates/server/src/polling/auto_merge.rs],
      [src/crates/gh-provider/src/client.rs])

    The durable half of the merge-on-green arm: turning GitHub's auto-merge on or
    off beside lazybox's latch ([apply_native_arm]), and taking it back when the
    pull request is no longer safe to leave with GitHub
    ([revoke_native_if_unsafe]).  The gate of a base branch and why it falls short
    of lazybox's own is [shortfall_for].

    Both entry points read the workspace under the per-workspace lock and make
    each call at most once, so, as for an attempt, a run is a function from what
    its calls answered ([NativeInputs]) to its effects in order. *)

From Stdlib Require Import Ascii String.
From S2P Require Import Prelude Text Work CoreTask Graph Stack Epics Policy AutoMerge.

#[global] Open Scope Z_scope.

(** ** The gate of a base branch *)

Record BranchMergeGate : Type := mkGate {
  required_contexts : list string;
  required_reviews : Z;
}.

Definition unknown_gate : BranchMergeGate := mkGate [] 0.

Definition ROLLUP_CONTEXT_PAGE : nat := 20.

Record GateShortfall : Type := mkShortfall { sf_message : string; per_pr : bool }.

Definition text (parts : list string) : string := String.concat EmptyString parts.

(** The distinct checks of the pull request the base does not require, sorted. *)
Definition uncovered (gate : BranchMergeGate) (p : Task) : list string :=
  sorted_elements (list_to_set
    (List.filter (fun n => negb (bool_decide (n ∈ required_contexts gate)))
       (map check_name (checks p)))).

Definition shortfall_for (gate : BranchMergeGate) (p : Task) : option GateShortfall :=
  if bool_decide (required_contexts gate = []) then
    Some (mkShortfall "has no required status checks, so GitHub would merge without waiting for CI" false)
  else if bool_decide (checks p = []) then
    Some (mkShortfall "gates on required checks, but this PR's check list isn't known yet, so they can't be proven to cover it" true)
  else if Nat.leb ROLLUP_CONTEXT_PAGE (length (checks p)) then
    Some (mkShortfall (text ["gates on required checks, but this PR runs at least ";
            show_uint (Z.of_nat ROLLUP_CONTEXT_PAGE);
            " of them — more than lazybox pages in — so they can't be proven to cover it"]%string) true)
  else
    match uncovered gate p with
    | first :: rest =>
        Some (mkShortfall (text ["doesn't require "; show_uint (Z.of_nat (S (length rest)));
                " of this PR's checks (e.g. `"; first;
                "`), so GitHub would merge without waiting for them"]%string) true)
    | [] =>
        if required_reviews gate =? 0 then
          Some (mkShortfall "requires no approving review, so GitHub would merge over a changes-requested review lazybox refuses" false)
        else None
    end.

(** ** What the calls answer *)

Inductive GithubNativeConfig : Type := Auto | Always | Never.

#[export] Instance GithubNativeConfig_eq_dec : EqDecision GithubNativeConfig.
Proof. solve_decision. Defined.

Inductive NativeArmError : Type := Throttled (message : string) | Refused (message : string).

Definition native_message (e : NativeArmError) : string :=
  match e with Throttled m | Refused m => m end.

Inductive ReviewRow : Type := RowUnreadable | RowAbsent | RowUndecodable | RowState (s : ReviewState).

Definition review_blocks_merge (row : ReviewRow) : bool :=
  match row with
  | RowAbsent => false
  | RowState s => blocking s
  | RowUndecodable | RowUnreadable => true
  end.

(** [n_records] and [n_policy] are [None] when they cannot be read, [n_gate] is
    the gate with whether it came from the cache, [n_enable] and [n_disable] are
    [None] on success. *)
Record NativeInputs : Type := mkNative {
  n_loaded : option Workspace;
  n_mode : GithubNativeConfig;
  n_records : option (list EpicRecord);
  n_workspaces : list Workspace;
  n_review_row : ReviewRow;
  n_policy : option ApprovalPolicy;
  n_client : bool;
  n_paused : bool;
  n_gate : BranchMergeGate * bool;
  n_enable : option NativeArmError;
  n_disable : option NativeArmError;
}.

Inductive NoticeLevel : Type := NInfo | NWarn.

Inductive NativeEffect : Type :=
| NEnable
| NDisable
| NProvenance (ours : bool)
| NNotice (level : NoticeLevel) (message : string).

Record NativeTarget : Type := mkTarget {
  t_owner : string;
  t_repo : string;
  t_node_id : string;
  t_base_branch : option string;
  t_label : string;
  t_pr : Task;
}.

Definition repo_path (t : NativeTarget) : string := text [t_owner t; "/"; t_repo t]%string.

Definition target_of (p : Task) (node owner name : string) : NativeTarget :=
  mkTarget owner name node (base_branch p) (Work.key (id p)) p.

(** ** Holds GitHub cannot see *)

Definition stacked_on_open_parent_in (workspaces : list Workspace) (child : Task) : bool :=
  if is_none (repo child) || is_none (base_branch child) then false
  else stacked_on_open_parent_among (omap pr workspaces) child.

Definition native_arm_block_reason (key : WorkspaceKey) (p : Task) (inp : NativeInputs)
    : option string :=
  match n_records inp with
  | None => Some "its epic graph could not be read"%string
  | Some records =>
      if merge_in_order_member_in records (n_workspaces inp) key
      then Some "its epic lands members in merge order"%string
      else if negb (bool_decide (held_by_in records (n_workspaces inp) key = []))
      then Some "a merge-after predecessor hasn't landed"%string
      else if review_blocks_merge (n_review_row inp)
      then Some "the review stage reported blocking findings"%string
      else
        match n_policy inp with
        | Some Human => Some "this repo requires a human approval"%string
        | None => Some "config.yaml could not be read, so its approval policy is unknown"%string
        | Some ApDefault =>
            if stacked_on_open_parent_in (n_workspaces inp) p
            then Some "it is stacked on a still-open parent PR"%string
            else None
        end
  end.

Definition already_mergeable_rejection (message : string) : bool :=
  contains "clean status" (to_ascii_lowercase message).

(** ** Arming and disarming *)

(** Turning GitHub's auto-merge off, as a disarm does. *)
Definition native_disarm (t : NativeTarget) (answer : option NativeArmError) : list NativeEffect :=
  NDisable ::
  match answer with
  | None => [NProvenance false; NNotice NInfo (text [t_label t; ": GitHub auto-merge turned off too"]%string)]
  | Some e =>
      [NNotice NWarn (text ["disarmed merge-on-green for "; t_label t;
         ", but GitHub auto-merge is still on ("; native_message e; ")"]%string)]
  end.

(** Turning it on, once every gate let it through. *)
Definition native_enable (t : NativeTarget) (answer : option NativeArmError) : list NativeEffect :=
  NEnable ::
  match answer with
  | None =>
      [NProvenance true;
       NNotice NInfo (text [t_label t; ": GitHub auto-merge armed too — it lands even with lazybox closed"]%string)]
  | Some (Refused message) =>
      if already_mergeable_rejection message then []
      else [NNotice NWarn (text [t_label t; ": armed in lazybox only — GitHub auto-merge was refused (";
              message; ")"]%string)]
  | Some (Throttled message) =>
      [NNotice NWarn (text [t_label t;
         ": armed in lazybox only — GitHub auto-merge deferred, rate-limited ("; message; ")"]%string)]
  end.

Definition run_native_arm (t : NativeTarget) (enabled : bool) (inp : NativeInputs) : list NativeEffect :=
  if n_paused inp then
    if enabled then []
    else [NNotice NWarn (text ["disarmed merge-on-green for "; t_label t;
            ", but GitHub auto-merge is still on — GitHub is rate-limited right now"]%string)]
  else if negb enabled then native_disarm t (n_disable inp)
  else if bool_decide (n_mode inp = Auto) then
    match t_base_branch t with
    | None =>
        [NNotice NWarn (text [t_label t;
           ": armed in lazybox only — its base branch is unknown, so GitHub's merge gate can't be checked."]%string)]
    | Some base =>
        match shortfall_for (n_gate inp).1 (t_pr t) with
        | Some sf =>
            if negb (n_gate inp).2 || per_pr sf then
              [NNotice NWarn (text [t_label t; ": armed in lazybox only — "; repo_path t; "@"; base; " ";
                 sf_message sf;
                 ". lazybox merges it within ~15s of green instead, but only while it is running."]%string)]
            else []
        | None => native_enable t (n_enable inp)
        end
    end
  else native_enable t (n_enable inp).

(** The pull request of the row and what addresses it on GitHub. *)
Definition native_target (ws : Workspace) : option NativeTarget :=
  match pr ws with
  | None => None
  | Some p =>
      match node_id p with
      | None => None
      | Some node =>
          match github_target p with
          | None => None
          | Some (owner, name, _) => Some (target_of p node owner name)
          end
      end
  end.

Definition apply_native_arm (key : WorkspaceKey) (enabled : bool) (inp : NativeInputs)
    : list NativeEffect :=
  match n_loaded inp with
  | None => []
  | Some ws =>
      match native_target ws with
      | None => []
      | Some t =>
          let declined :=
            if enabled then
              negb (auto_merge_on_green ws) || auto_merge_enabled (t_pr t)
              || bool_decide (n_mode inp = Never)
              || negb (is_none (native_arm_block_reason key (t_pr t) inp))
            else negb (native_auto_merge_by_lazybox ws) in
          if declined then []
          else if n_client inp then run_native_arm t enabled inp
          else if enabled then []
          else [NNotice NWarn (text ["disarmed merge-on-green for "; t_label t;
                  ", but GitHub auto-merge is still on — no GitHub client to turn it off"]%string)]
      end
  end.

(** ** Taking it back *)

Definition native_revoke_reason (key : WorkspaceKey) (t : NativeTarget) (inp : NativeInputs)
    : option string :=
  if bool_decide (n_mode inp = Never)
  then Some "GitHub-native auto-merge was turned off in config"%string
  else native_arm_block_reason key (t_pr t) inp.

(** Why it must be taken back, the base's gate re-read only when nothing local
    decides. *)
Definition revoke_reason (key : WorkspaceKey) (t : NativeTarget) (inp : NativeInputs) : option string :=
  match native_revoke_reason key t inp with
  | Some reason => Some reason
  | None =>
      if bool_decide (n_mode inp = Auto) then
        match t_base_branch t with
        | None => None
        | Some base =>
            match shortfall_for (n_gate inp).1 (t_pr t) with
            | Some sf => Some (text [repo_path t; "@"; base; " "; sf_message sf]%string)
            | None => None
            end
        end
      else None
  end.

Definition revoke_native_if_unsafe (key : WorkspaceKey) (inp : NativeInputs) : list NativeEffect :=
  match n_loaded inp with
  | None => []
  | Some ws =>
      if negb (native_auto_merge_by_lazybox ws) then []
      else
        match native_target ws with
        | None => []
        | Some t =>
            if negb (auto_merge_enabled (t_pr t)) then [NProvenance false]
            else if negb (n_client inp) then []
            else
              match revoke_reason key t inp with
              | None => []
              | Some reason =>
                  NDisable ::
                  match n_disable inp with
                  | None =>
                      [NProvenance false;
                       NNotice NWarn (text [t_label t; ": GitHub auto-merge turned back off — "; reason;
                         ". lazybox holds the merge instead."]%string)]
                  | Some e =>
                      [NNotice NWarn (text [t_label t; ": GitHub auto-merge should be off ("; reason;
                         ") but could not be turned off ("; native_message e;
                         ") — turn it off on github.com"]%string)]
                  end
              end
        end
  end.

(** The native half of [on_workspace_committed]: the row as committed decides
    whether the re-check runs. *)
Definition on_committed_native (key : WorkspaceKey) (ws : Workspace) (inp : NativeInputs)
    : list NativeEffect :=
  match native_arm_for ws with
  | OursAndLive => revoke_native_if_unsafe key inp
  | NotOurs => []
  end.

(** ** Theorems *)

Lemma uncovered_nil gate p :
  uncovered gate p = [] -> forall c, c ∈ checks p -> check_name c ∈ required_contexts gate.
Proof.
  intros H c Hc. destruct (decide (check_name c ∈ required_contexts gate)) as [|Hn]; [done|]. exfalso.
  assert (Hin : check_name c ∈ uncovered gate p).
  { apply sorted_elements_elem, elem_of_list_to_set, list_elem_of_In, filter_In. split.
    - by apply in_map, list_elem_of_In.
    - by rewrite bool_decide_eq_false_2. }
  rewrite H in Hin. by apply elem_of_nil in Hin.
Qed.

Lemma shortfall_none gate p :
  shortfall_for gate p = None ->
  checks p <> [] /\ (length (checks p) < ROLLUP_CONTEXT_PAGE)%nat /\ required_reviews gate <> 0
  /\ forall c, c ∈ checks p -> check_name c ∈ required_contexts gate.
Proof.
  unfold shortfall_for. intros H.
  destruct (bool_decide (required_contexts gate = [])); [done|].
  destruct (bool_decide (checks p = [])) eqn:Hc; [done|]. bool_norm.
  destruct (Nat.leb ROLLUP_CONTEXT_PAGE (length (checks p))) eqn:Hl; [done|]. apply Nat.leb_gt in Hl.
  destruct (uncovered gate p) eqn:Hu; [|done].
  destruct (required_reviews gate =? 0) eqn:Hr; [done|]. bool_norm.
  split_and!; [done|done|done|by apply uncovered_nil].
Qed.

Lemma block_reason_none key p inp :
  native_arm_block_reason key p inp = None ->
  exists records, n_records inp = Some records
  /\ merge_in_order_member_in records (n_workspaces inp) key = false
  /\ held_by_in records (n_workspaces inp) key = []
  /\ review_blocks_merge (n_review_row inp) = false
  /\ n_policy inp = Some ApDefault
  /\ stacked_on_open_parent_in (n_workspaces inp) p = false.
Proof.
  unfold native_arm_block_reason. intros H. destruct (n_records inp) as [rs|]; [|done]. exists rs.
  destruct (merge_in_order_member_in _ _ _); [done|].
  destruct (bool_decide (held_by_in rs (n_workspaces inp) key = [])) eqn:Hh; [|done]. bool_norm.
  destruct (review_blocks_merge _); [done|].
  destruct (n_policy inp) as [[]|]; [|done|done].
  by destruct (stacked_on_open_parent_in _ _).
Qed.

Lemma native_target_pr ws t :
  native_target ws = Some t ->
  pr ws = Some (t_pr t) /\ node_id (t_pr t) = Some (t_node_id t) /\ t_base_branch t = base_branch (t_pr t).
Proof.
  unfold native_target. intros H. repeat (case_match; try discriminate). simplify_eq/=. done.
Qed.

Lemma disarm_enables_nothing t a : NEnable ∉ native_disarm t a.
Proof.
  unfold native_disarm. intros H.
  destruct a; repeat (apply elem_of_cons in H as [H|H]; [discriminate H|]); by apply elem_of_nil in H.
Qed.

(** What GitHub waits for before it lands the pull request: the required contexts,
    by the verdicts of the checks. *)
Definition github_green (gate : BranchMergeGate) (verdict : string -> CiStatus) : Prop :=
  forall c, c ∈ required_contexts gate -> verdict c = CiSuccess.

(** C14: GitHub is handed a pull request only where its gate covers lazybox's.  When
    GitHub's auto-merge is turned on, the workspace is armed and the configuration
    does not forbid it; nothing GitHub cannot see holds the merge: not the epic's
    landing order, an unlanded predecessor, a blocking review, a human-approval
    policy or an open parent, each of them known; and, unless the configuration
    says always, the base requires a review and whatever the verdicts of the checks,
    when GitHub finds those it requires green, every check of the pull request is. *)
Theorem native_arm_covers_the_gate key on inp :
  NEnable ∈ apply_native_arm key on inp ->
  on = true /\ exists ws p records base_known,
    n_loaded inp = Some ws /\ pr ws = Some p /\ is_some (node_id p) = true
    /\ auto_merge_on_green ws = true /\ auto_merge_enabled p = false
    /\ n_paused inp = false /\ n_records inp = Some records
    /\ merge_in_order_member_in records (n_workspaces inp) key = false
    /\ held_by_in records (n_workspaces inp) key = []
    /\ review_blocks_merge (n_review_row inp) = false /\ n_policy inp = Some ApDefault
    /\ stacked_on_open_parent_in (n_workspaces inp) p = false
    /\ base_known = is_some (base_branch p)
    /\ (n_mode inp = Always
        \/ n_mode inp = Auto /\ base_known = true /\ required_reviews (n_gate inp).1 <> 0
           /\ (0 < length (checks p) < ROLLUP_CONTEXT_PAGE)%nat
           /\ forall verdict, github_green (n_gate inp).1 verdict ->
                forall c, c ∈ checks p -> verdict (check_name c) = CiSuccess).
Proof.
  unfold apply_native_arm. intros H.
  destruct (n_loaded inp) as [ws|]; [|by apply elem_of_nil in H].
  destruct (native_target ws) as [t|] eqn:Ht; [|by apply elem_of_nil in H]. cbv zeta in H.
  apply native_target_pr in Ht as (Hpr & Hnode & Hbase).
  destruct on; simpl in H.
  2:{ exfalso. destruct (native_auto_merge_by_lazybox ws); simpl in H; [|by apply elem_of_nil in H].
      destruct (n_client inp); [|by apply list_elem_of_singleton in H].
      unfold run_native_arm in H. destruct (n_paused inp); simpl in H; [by apply list_elem_of_singleton in H|].
      by apply disarm_enables_nothing in H. }
  destruct (negb (auto_merge_on_green ws) || auto_merge_enabled (t_pr t) || bool_decide (n_mode inp = Never)
      || negb (is_none (native_arm_block_reason key (t_pr t) inp))) eqn:Hd; [by apply elem_of_nil in H|].
  bool_norm. destruct (native_arm_block_reason key (t_pr t) inp) eqn:Hb; [done|].
  apply block_reason_none in Hb as (rs & Hrs & Ho & Hh & Hr & Hp & Hs).
  destruct (n_client inp); [|by apply elem_of_nil in H].
  unfold run_native_arm in H. destruct (n_paused inp); [by apply elem_of_nil in H|]. simpl in H.
  split; [done|]. exists ws, (t_pr t), rs, (is_some (base_branch (t_pr t))).
  rewrite Hnode. split_and!; try done.
  case_bool_decide as Hm.
  2:{ left. by destruct (n_mode inp). }
  right. split; [done|]. rewrite <- Hbase in *. destruct (t_base_branch t) as [base|]; simpl.
  2:{ by apply list_elem_of_singleton in H. }
  destruct (shortfall_for (n_gate inp).1 (t_pr t)) eqn:Hsf.
  { destruct (_ || _); [by apply list_elem_of_singleton in H|by apply elem_of_nil in H]. }
  apply shortfall_none in Hsf as (Hc & Hl & Hrv & Hcov). split_and!; try done.
  - destruct (checks (t_pr t)); [done|simpl; lia].
  - intros verdict Hg c Hin. by apply Hg, Hcov.
Qed.

Definition example_native (ws : Workspace) (gate : BranchMergeGate) : NativeInputs :=
  mkNative (Some ws) Auto (Some []) [ws] RowAbsent (Some ApDefault) true false (gate, false) None None.

Definition native_pr (on : bool) : Task :=
  mkTask (Work.mkTaskId "github" "o/r#7") Open_ CiPending RvApproved EmptyString (Some "o/r"%string)
    (Some "feature"%string) (Some "main"%string) [] MMergeable false (Some KPr) None [] [] [] None Author
    "me" 0 None [] [] [] ApDefault on false None (Some "PR_node"%string) [mkCheck "build" CiPending] EmptyString false [] None [] [].

Definition native_workspace (armed on ours : bool) : Workspace :=
  mkWorkspace "w" "w" (Some (native_pr on)) [] [] armed ours.

Lemma native_arm_covers_the_gate_witness :
  NEnable ∈ apply_native_arm "w" true (example_native (native_workspace true false false) (mkGate ["build"%string] 1))
  /\ exists ws p, n_loaded (example_native (native_workspace true false false) (mkGate ["build"%string] 1)) = Some ws
     /\ pr ws = Some p /\ auto_merge_enabled p = false.
Proof.
  assert (E : exists l, apply_native_arm "w" true
    (example_native (native_workspace true false false) (mkGate ["build"%string] 1)) = NEnable :: l)
    by (eexists; vm_compute; reflexivity).
  assert (Hin : NEnable ∈ apply_native_arm "w" true
    (example_native (native_workspace true false false) (mkGate ["build"%string] 1)))
    by (destruct E as [l ->]; apply list_elem_of_here).
  split; [exact Hin|].
  destruct (native_arm_covers_the_gate _ _ _ Hin) as (_ & ws & p & _ & _ & H1 & H2 & _ & _ & H3 & _).
  exists ws, p. split; [exact H1|]. split; [exact H2|exact H3].
Defined.

(** A native arm GitHub dropped stays claimed.  The clean-up that would stop
    claiming it is in [revoke_native_if_unsafe], but a commit of a row whose
    auto-merge is seen off never runs it; so once someone turns auto-merge on for
    the pull request on GitHub, disarming the workspace asks GitHub to turn that
    one off. *)
Theorem dropped_arm_stays_claimed key ws p t :
  pr ws = Some p -> auto_merge_enabled p = false -> native_auto_merge_by_lazybox ws = true ->
  native_target ws = Some t ->
  (forall inp, on_committed_native key ws inp = [])
  /\ (forall inp, n_loaded inp = Some ws -> revoke_native_if_unsafe key inp = [NProvenance false])
  /\ (forall inp p' t', n_loaded inp = Some (with_pr (Some p') ws) -> auto_merge_enabled p' = true ->
        native_target (with_pr (Some p') ws) = Some t' -> n_client inp = true -> n_paused inp = false ->
        NDisable ∈ apply_native_arm key false inp).
Proof.
  intros Hp Hoff Hours Ht. pose proof (native_target_pr ws t Ht) as (Hp' & _ & _).
  assert (t_pr t = p) by congruence. split_and!.
  - intros inp. unfold on_committed_native, native_arm_for. rewrite Hp, Hours. simpl. by rewrite Hoff.
  - intros inp Hl. unfold revoke_native_if_unsafe. rewrite Hl, Hours, Ht. simpl. subst p. by rewrite Hoff.
  - intros inp p' t' Hl Hon Ht' Hc Hpa. unfold apply_native_arm. rewrite Hl, Ht'. simpl.
    rewrite Hours, Hc. simpl. unfold run_native_arm. rewrite Hpa. simpl. apply list_elem_of_here.
Qed.

Lemma dropped_arm_stays_claimed_witness :
  on_committed_native "w" (native_workspace true false true) (example_native (native_workspace true false true) unknown_gate) = []
  /\ NDisable ∈ apply_native_arm "w" false (example_native (native_workspace true true true) unknown_gate).
Proof.
  destruct (native_target (native_workspace true false true)) as [t|] eqn:Ht; [|vm_compute in Ht; discriminate Ht].
  destruct (dropped_arm_stays_claimed "w" (native_workspace true false true) (native_pr false) t
    eq_refl eq_refl eq_refl Ht) as (H1 & _ & H2).
  split; [apply H1|].
  destruct (native_target (with_pr (Some (native_pr true)) (native_workspace true false true))) as [t'|] eqn:Ht';
    [|vm_compute in Ht'; discriminate Ht'].
  exact (H2 (example_native (native_workspace true true true) unknown_gate) (native_pr true) t'
    eq_refl eq_refl Ht' eq_refl eq_refl).
Defined.
