(* ===== verification/AutoFix.v ===== *)
(** * The budget of automatic repairs ([src/crates/server/src/polling/autofix.rs])

    Whether a repair of a red pull request may run now: a record per workspace and
    failure kind, kept as a row of the store, limits the attempts of a window and
    spaces them by a cooldown.  [dispatch_auto_fix] is the handler that consults it
    ([ProviderAction::AutoFixPr] of [src/crates/server/src/polling/sources/mod.rs]).

    The store is the interface [Store] of WorkStore.v, the JSON codec of a record a
    parameter.  The theorem: over any history of sweeps the record is a function of
    the repairs delivered ([record_of]), which bounds and spaces them. *)

From Stdlib Require Import Ascii String.
From S2P Require Import Prelude Text WorkStore CoreTask Epics Policy.

#[global] Open Scope Z_scope.

Record AttemptRecord : Type := mkAttempt {
  attempts : Z;
  window_start : option Z;
  last_attempt : option Z;
  exhausted_notified : bool;
}.

Definition default_record : AttemptRecord := mkAttempt 0 None None false.

Inductive AttemptDecision : Type :=
| Proceed (attempt max : Z)
| Cooldown
| Exhausted (notify : bool).

#[export] Instance AttemptDecision_eq_dec : EqDecision AttemptDecision.
Proof. solve_decision. Defined.

(** A [std::time::Duration] in the signed milliseconds of chrono, saturating. *)
Definition chrono_max : Z := 9223372036854775807 * 1000000.
Definition to_chrono (d : Z) : Z := Z.min d chrono_max.

Definition record_key (session : string) (k : AutoFixKind) : string :=
  ("autofix:" ++ session ++ ":" ++ store_key k)%string.

(** Never started, or begun a whole window ago. *)
Definition window_expired (r : AttemptRecord) (w now : Z) : bool :=
  match window_start r with None => true | Some start => to_chrono w <=? now - start end.

Definition refreshed (r : AttemptRecord) (w now : Z) : AttemptRecord :=
  if window_expired r w now then default_record else r.

Definition noted (r : AttemptRecord) : AttemptRecord :=
  mkAttempt (attempts r) (window_start r) (last_attempt r) true.

Definition counted (r : AttemptRecord) (now : Z) : AttemptRecord :=
  mkAttempt (wrap_add u32_max (attempts r) 1)
    (match window_start r with None => Some now | s => s end) (Some now) (exhausted_notified r).

(** ** The configuration ([src/crates/config/src/lib.rs]) *)

Definition MIN_AUTO_FIX_COOLDOWN : Z := secs 60.

Definition to_settings (s : AutoFixSettings) : AutoFixSettings :=
  mkFixSettings (enabled s) (opt_out_labels s) (max_attempts s)
    (Z.max (cooldown s) MIN_AUTO_FIX_COOLDOWN) (window s).

Definition describe (k : AutoFixKind) : string :=
  match k with CiFailure_ => "fixing CI" | MergeConflict => "resolving merge conflicts" end.

(** ** The guard and the handler *)

Inductive DoneGatedPromptOutcome : Type := WaitingForDone | DeliveryFailed | Delivered.

(** What the sweep finds: the arm of the workspace, [None] when its row cannot be
    read; whether the label opts it out; whether the failure survives a re-read;
    what became of the prompt; whether a GitHub client is there to comment. *)
Record Sweep : Type := mkSweep {
  sw_session : string;
  sw_kind : AutoFixKind;
  sw_now : Z;
  sw_arm : option PolicyArm;
  sw_opted_out : bool;
  sw_stands : bool;
  sw_outcome : DoneGatedPromptOutcome;
  sw_github : bool;
}.

Inductive FixEffect : Type :=
| FDeliver
| FKickoff (what : string) (attempt max : Z)
| FBackOff (what opt_out : string) (max hours : Z).

Section guard.
Context {S Raw : Type} `{Store S Raw}.
Context (encode : AttemptRecord -> option Raw) (decode : Raw -> option AttemptRecord).

Definition load (store : S) (key : string) : AttemptRecord :=
  match get_kv store key with
  | inl (Some raw) => default default_record (decode raw)
  | _ => default_record
  end.

(** A row that cannot be written is only logged. *)
Definition persist (store : S) (key : string) (r : AttemptRecord) : S :=
  match encode r with
  | Some raw => match set_kv store key raw with inl store' => store' | inr _ => store end
  | None => store
  end.

Definition ci_attempts_so_far (store : S) (session : string) : Z :=
  attempts (load store (record_key session CiFailure_)).

Definition check (store : S) (session : string) (k : AutoFixKind) (s : AutoFixSettings) (now : Z)
    : S * AttemptDecision :=
  if max_attempts s =? 0 then (store, Exhausted false)
  else
    let key := record_key session k in
    let r := refreshed (load store key) (window s) now in
    if max_attempts s <=? attempts r then
      if exhausted_notified r then (store, Exhausted false)
      else (persist store key (noted r), Exhausted true)
    else
      match last_attempt r with
      | Some last =>
          if now - last <? to_chrono (cooldown s) then (store, Cooldown)
          else (store, Proceed (wrap_add u32_max (attempts r) 1) (max_attempts s))
      | None => (store, Proceed (wrap_add u32_max (attempts r) 1) (max_attempts s))
      end.

Definition record_attempt (store : S) (session : string) (k : AutoFixKind) (s : AutoFixSettings)
    (now : Z) : S :=
  let key := record_key session k in
  persist store key (counted (refreshed (load store key) (window s) now) now).

Definition back_off (k : AutoFixKind) (s : AutoFixSettings) : FixEffect :=
  FBackOff (describe k) (default "no-auto-fix"%string (head (opt_out_labels s)))
    (max_attempts s) (as_secs (window s) / 3600).

Definition dispatch_auto_fix (s : AutoFixSettings) (store : S) (w : Sweep) : S * list FixEffect :=
  match sw_arm w with
  | None => (store, [])
  | Some a =>
      if negb (auto_fix_enabled_and_permitted (enabled s) (sw_opted_out w) a) then (store, [])
      else
        match check store (sw_session w) (sw_kind w) s (sw_now w) with
        | (store, Cooldown) => (store, [])
        | (store, Exhausted notify) =>
            (store, if notify && sw_github w then [back_off (sw_kind w) s] else [])
        | (store, Proceed attempt max) =>
            if bool_decide (sw_kind w = CiFailure_) && negb (sw_stands w) then (store, [])
            else
              match sw_outcome w with
              | WaitingForDone | DeliveryFailed => (store, [])
              | Delivered =>
                  (record_attempt store (sw_session w) (sw_kind w) s (sw_now w),
                   FDeliver :: if sw_github w then [FKickoff (describe (sw_kind w)) attempt max] else [])
              end
        end
  end.
End guard.

(** ** The reference: what the repairs of a pull request say about its budget *)

(** The start of the current window, the newest repair first. *)
Fixpoint start_of (w : Z) (ds : list Z) : option Z :=
  match ds with
  | [] => None
  | d :: ds =>
      match start_of w ds with
      | Some st => if w <=? d - st then Some d else Some st
      | None => Some d
      end
  end.

(** The repairs of the current window. *)
Fixpoint count_of (w : Z) (ds : list Z) : Z :=
  match ds with
  | [] => 0
  | d :: ds =>
      match start_of w ds with
      | Some st => if w <=? d - st then 1 else count_of w ds + 1
      | None => 1
      end
  end.

Definition record_of (w : Z) (ds : list Z) (notified : bool) : AttemptRecord :=
  mkAttempt (count_of w ds) (start_of w ds) (head ds) notified.

(** A repair is no earlier than the one before it and either opens a window or
    finds budget left and the cooldown over. *)
Inductive paced (max cd w : Z) : list Z -> Prop :=
| paced_nil : paced max cd w []
| paced_one d : 0 < max -> paced max cd w [d]
| paced_next d p ds st :
    paced max cd w (p :: ds) -> p <= d -> start_of w (p :: ds) = Some st ->
    (st + w <= d \/ (count_of w (p :: ds) < max /\ p + cd <= d)) ->
    paced max cd w (d :: p :: ds).

Lemma start_cons w d ds : exists st, start_of w (d :: ds) = Some st.
Proof. simpl. destruct (start_of w ds); [destruct (_ <=? _)|]; eauto. Qed.

Lemma paced_budget max cd w ds : 0 < max -> paced max cd w ds -> 0 <= count_of w ds <= max.
Proof.
  intros Hm H. induction H as [|d _|d p ds st H IH Hp Hst Hc]; [simpl; lia|simpl; lia|].
  change (0 <= match start_of w (p :: ds) with
    | Some st => if w <=? d - st then 1 else count_of w (p :: ds) + 1 | None => 1 end <= max).
  rewrite Hst. destruct (w <=? d - st) eqn:E; bool_norm; lia.
Qed.

(** The current window is the newest part of the log; what is older ended before. *)
Lemma paced_window max cd w ds d0 :
  0 <= w -> paced max cd w (d0 :: ds) ->
  exists cur old st,
    d0 :: ds = cur ++ old /\ Z.of_nat (length cur) = count_of w (d0 :: ds)
    /\ start_of w (d0 :: ds) = Some st /\ last cur = Some st /\ st <= d0
    /\ paced max cd w old
    /\ (forall x, x ∈ old -> x <= st)
    /\ (forall st', start_of w old = Some st' -> st' + w <= st).
Proof.
  intros Hw H. remember (d0 :: ds) as l eqn:El. revert d0 ds El.
  induction H as [|d Hm|d p ds st H IH Hp Hst Hc]; intros d0 ds0 [= <- <-].
  - exists [d], [], d. simpl. split_and!; try done; [constructor|]. intros x Hx. by apply elem_of_nil in Hx.
  - destruct (IH p ds eq_refl) as (cur & old & st' & El & Hl & Hs & Hlast & Hle & Hold & Hx & Hso).
    assert (st' = st) as -> by congruence.
    destruct (w <=? d - st) eqn:E.
    + exists [d], (p :: ds), d. change (start_of w (d :: p :: ds)) with
        (match start_of w (p :: ds) with Some st => if w <=? d - st then Some d else Some st | None => Some d end).
      change (count_of w (d :: p :: ds)) with
        (match start_of w (p :: ds) with Some st => if w <=? d - st then 1 else count_of w (p :: ds) + 1 | None => 1 end).
      rewrite Hst, E. bool_norm. split_and!; try done.
      * intros x Hin. apply Z.le_trans with p; [|done].
        clear - H Hin. remember (p :: ds) as l eqn:El. revert p ds El x Hin.
        induction H as [|e He|e q es s He IHe Hq Hs' _]; intros p ds [= <- <-] x Hin.
        -- by apply list_elem_of_singleton in Hin as ->.
        -- apply elem_of_cons in Hin as [->|Hin]; [lia|]. pose proof (IHe q es eq_refl x Hin). lia.
      * intros s Hs'. assert (s = st) by congruence. lia.
    + exists (d :: cur), old, st. change (start_of w (d :: p :: ds)) with
        (match start_of w (p :: ds) with Some st => if w <=? d - st then Some d else Some st | None => Some d end).
      change (count_of w (d :: p :: ds)) with
        (match start_of w (p :: ds) with Some st => if w <=? d - st then 1 else count_of w (p :: ds) + 1 | None => 1 end).
      rewrite Hst, E. bool_norm. split_and!; try done; [by rewrite El|cbn [length]; lia| |lia].
      destruct cur; [done|]. exact Hlast.
Qed.

Lemma filter_length_all {A} (f : A -> bool) (l : list A) : (length (List.filter f l) <= length l)%nat.
Proof. induction l as [|x l IH]; simpl; [lia|]. destruct (f x); simpl; lia. Qed.

Lemma filter_none {A} (f : A -> bool) (l : list A) :
  (forall x, x ∈ l -> f x = false) -> List.filter f l = [].
Proof.
  induction l as [|x l IH]; intros Hf; simpl; [done|]. rewrite (Hf x); [|apply list_elem_of_here].
  apply IH. intros y Hy. apply Hf. by apply list_elem_of_further.
Qed.

(** The repairs of the last [w] are those of the current window and, but for the
    one that opened it, of the window before. *)
Lemma paced_span max cd w d ds :
  0 <= w -> 0 < max -> paced max cd w (d :: ds) ->
  Z.of_nat (length (List.filter (fun x => d - w <? x) (d :: ds))) <= 2 * max - 1.
Proof.
  intros Hw Hm H. pose proof (paced_budget _ _ _ _ Hm H) as Hb.
  destruct (paced_window _ _ _ _ _ Hw H) as (cur & old & st & El & Hl & Hs & Hlast & Hle & Hold & Hx & Hso).
  replace (List.filter (fun x => d - w <? x) (d :: ds)) with (List.filter (fun x => d - w <? x) (cur ++ old)) by (by rewrite El).
  rewrite List.filter_app, length_app. pose proof (filter_length_all (fun x => d - w <? x) cur).
  destruct old as [|o os]; [simpl; lia|].
  pose proof (paced_budget _ _ _ _ Hm Hold) as Hb'.
  destruct (paced_window _ _ _ _ _ Hw Hold) as (cur' & old' & st' & E' & Hl' & Hs' & Hlast' & _ & _ & Hx' & _).
  replace (List.filter (fun x => d - w <? x) (o :: os)) with (List.filter (fun x => d - w <? x) (cur' ++ old')) by (by rewrite E').
  specialize (Hso st' Hs'). rewrite List.filter_app, length_app.
  rewrite (filter_none _ old').
  2:{ intros x Hin. apply Z.ltb_ge. specialize (Hx' x Hin). lia. }
  assert (Hc : (length (List.filter (fun x => (d - w <? x)%Z) cur') + 1 <= length cur')%nat).
  { apply last_Some in Hlast' as [pre ->]. rewrite List.filter_app, !length_app.
    pose proof (filter_length_all (fun x => (d - w <? x)%Z) pre). simpl.
    rewrite (proj2 (Z.ltb_ge (d - w) st')) by lia. simpl. lia. }
  cbn [length]. lia.
Qed.

(** ** Histories *)

Lemma chars_append a b :
  list_ascii_of_string (String.append a b) = list_ascii_of_string a ++ list_ascii_of_string b.
Proof. induction a as [|c a IH]; simpl; [done|]. by rewrite IH. Qed.

Lemma chars_inj a b : list_ascii_of_string a = list_ascii_of_string b -> a = b.
Proof. intros H. by rewrite <- (string_of_list_ascii_of_string a), H, string_of_list_ascii_of_string. Qed.

Lemma record_key_inj s k s' k' : record_key s k = record_key s' k' -> s = s' /\ k = k'.
Proof.
  unfold record_key. intros H%(f_equal list_ascii_of_string).
  rewrite !chars_append in H. apply app_inv_head in H.
  assert (Hk : k = k').
  { apply (f_equal (@rev ascii)) in H. rewrite !rev_app_distr in H. by destruct k, k'. }
  split; [|done]. subst k'. apply app_inv_tail in H. by apply chars_inj.
Qed.

Lemma paced_suffix max cd w l1 l2 : paced max cd w (l1 ++ l2) -> paced max cd w l2.
Proof.
  induction l1 as [|x l1 IH]; simpl; [done|]. intros H. apply IH. inversion H; by try constructor.
Qed.

Lemma paced_positive max cd w d ds : paced max cd w (d :: ds) -> 0 < max.
Proof.
  intros H. remember (d :: ds) as l eqn:El. revert d ds El.
  induction H as [|e He|e p ds' st H IH _ _ _]; intros d ds [= <- <-]; [done|]. by eapply IH.
Qed.

(** The clock of the daemon does not go back from one sweep to the next. *)
Fixpoint clock_from (t : Z) (ws : list Sweep) : Prop :=
  match ws with [] => True | w :: ws => t <= sw_now w /\ clock_from (sw_now w) ws end.

(** The repairs delivered, per workspace and kind, newest first. *)
#[local] Notation Log := (gmap (string * string) (list Z)).

Section budget.
Context {S Raw : Type} `{StoreLaws S Raw}.
Context (encode : AttemptRecord -> option Raw) (decode : Raw -> option AttemptRecord).
Context (codec : forall r, exists raw, encode r = Some raw /\ decode raw = Some r).
Context (reads : forall s k, exists v, get_kv s k = inl v).
Context (writes : forall s k v, exists s', set_kv s k v = inl s').
Context (cfg : AutoFixSettings).
Context (max_u32 : 0 <= max_attempts cfg <= u32_max) (window_nonneg : 0 <= window cfg).

Notation load := (load decode).
Notation dispatch := (dispatch_auto_fix encode decode cfg).

Lemma load_spec s k : load s k = match rows_of s !! k with
  | Some raw => default default_record (decode raw) | None => default_record end.
Proof.
  unfold AutoFix.load. destruct (reads s k) as [v Hv]. rewrite Hv. apply get_kv_ok in Hv as ->.
  by destruct (rows_of s !! k).
Qed.

Lemma load_persist s k r k' :
  load (persist encode s k r) k' = if String.eqb k k' then r else load s k'.
Proof.
  unfold persist. destruct (codec r) as (raw & -> & Hd). destruct (writes s k raw) as [s' Hs'].
  rewrite Hs'. apply set_kv_ok in Hs'. rewrite !load_spec, Hs'.
  destruct (String.eqb_spec k k') as [<-|Hne]; [by rewrite lookup_insert_eq, Hd|by rewrite lookup_insert_ne].
Qed.

Definition logged (l : Log) (session : string) (k : AutoFixKind) : list Z :=
  default [] (l !! (session, store_key k)).

Definition delivers (es : list FixEffect) : bool :=
  existsb (fun e => match e with FDeliver => true | _ => false end) es.

Definition sweep_step (x : S * Log) (w : Sweep) : S * Log :=
  match dispatch x.1 w with
  | (s, es) =>
      (s, if delivers es
          then <[(sw_session w, store_key (sw_kind w)) := sw_now w :: logged x.2 (sw_session w) (sw_kind w)]> x.2
          else x.2)
  end.

(** What the row of a key is, given its log. *)
Definition tracks (s : S) (session : string) (k : AutoFixKind) (ds : list Z) : Prop :=
  exists notified, load s (record_key session k) = record_of (window cfg) ds notified.

Notation pace := (paced (max_attempts cfg) (to_chrono (cooldown cfg)) (to_chrono (window cfg))).
Notation rec_of := (record_of (to_chrono (window cfg))).

Lemma expired_of ds n now :
  window_expired (rec_of ds n) (window cfg) now
  = match start_of (to_chrono (window cfg)) ds with None => true | Some st => to_chrono (window cfg) <=? now - st end.
Proof. done. Qed.

Lemma counted_of ds n now :
  (forall d, start_of (to_chrono (window cfg)) ds = Some d -> now - d < to_chrono (window cfg) ->
     count_of (to_chrono (window cfg)) ds < u32_max) ->
  0 <= count_of (to_chrono (window cfg)) ds ->
  exists n', counted (refreshed (rec_of ds n) (window cfg) now) now = rec_of (now :: ds) n'.
Proof.
  intros Hc Hnn. unfold refreshed. rewrite expired_of. unfold counted, record_of. cbn [start_of count_of head].
  destruct (start_of (to_chrono (window cfg)) ds) as [st|] eqn:Hs; [|by exists false].
  destruct (to_chrono (window cfg) <=? now - st) eqn:E; [by exists false|].
  exists n. simpl. bool_norm. f_equal. unfold wrap_add. apply Z.mod_small.
  specialize (Hc st eq_refl E). unfold u32_max in *. lia.
Qed.

(** One sweep, for the key it is about: it leaves the record what the log says, and
    a repair is delivered only as the pace allows. *)
Lemma sweep_key s w ds n :
  load s (record_key (sw_session w) (sw_kind w)) = rec_of ds n -> pace ds ->
  (forall d, head ds = Some d -> d <= sw_now w) ->
  let r := dispatch s w in
  (forall key, key <> record_key (sw_session w) (sw_kind w) -> load r.1 key = load s key)
  /\ (if delivers r.2
      then pace (sw_now w :: ds)
           /\ exists n', load r.1 (record_key (sw_session w) (sw_kind w)) = rec_of (sw_now w :: ds) n'
      else exists n', load r.1 (record_key (sw_session w) (sw_kind w)) = rec_of ds n').
Proof.
  cbv zeta. intros Hl Hp Hh. unfold dispatch_auto_fix.
  destruct (sw_arm w) as [a|]; [|by split; [|exists n]].
  destruct (auto_fix_enabled_and_permitted _ _ _); [|by split; [|exists n]]. cbn [negb]. unfold check.
  destruct (max_attempts cfg =? 0) eqn:Hm; [by split; [|exists n]|]. cbv zeta. bool_norm. rewrite Hl.
  assert (Hpos : 0 < max_attempts cfg) by lia.
  pose proof (paced_budget _ _ _ _ Hpos Hp) as Hb.
  set (key := record_key (sw_session w) (sw_kind w)) in *.
  assert (Hoth : forall s r key', key' <> key -> load (persist encode s key r) key' = load s key').
  { intros s' r key' Hne. rewrite load_persist. by rewrite (proj2 (String.eqb_neq key key')). }
  assert (Heq : forall s r, load (persist encode s key r) key = r).
  { intros s' r. by rewrite load_persist, String.eqb_refl. }
  set (r := refreshed (rec_of ds n) (window cfg) (sw_now w)).
  assert (Hr : (r = default_record /\ (ds = [] \/ exists st, start_of (to_chrono (window cfg)) ds = Some st
                  /\ st + to_chrono (window cfg) <= sw_now w))
            \/ (r = rec_of ds n /\ exists st, start_of (to_chrono (window cfg)) ds = Some st)).
  { unfold r, refreshed. rewrite expired_of. destruct (start_of (to_chrono (window cfg)) ds) as [st|] eqn:Hs.
    - destruct (_ <=? _) eqn:E; [left|right; eauto]. split; [done|]. right. exists st. bool_norm. split; [done|lia].
    - left. split; [done|]. left. destruct ds; [done|]. destruct (start_cons (to_chrono (window cfg)) z ds). congruence. }
  destruct (max_attempts cfg <=? attempts r) eqn:Hex.
  { destruct (exhausted_notified r); [by split; [|exists n]|]. bool_norm.
    destruct Hr as [[Hr _]|[Hr _]]; rewrite Hr in Hex |- *; [simpl in Hex; lia|].
    destruct (true && sw_github w); cbn [fst snd delivers existsb back_off];
      (split; [intros key' Hne; by apply Hoth|exists true; by rewrite Heq]). }
  bool_norm.
  assert (Hdel : (match last_attempt r with Some last => to_chrono (cooldown cfg) <= sw_now w - last | None => True end) ->
    pace (sw_now w :: ds)).
  { intros Hcd. destruct ds as [|p ds]; [by constructor|].
    destruct Hr as [[Hr [?|(st & Hst & Hle)]]|[Hr (st & Hst)]]; [done| |].
    - apply (paced_next _ _ _ _ _ _ st); [done|by apply Hh|done|by left].
    - apply (paced_next _ _ _ _ _ _ st); [done|by apply Hh|done|]. right. rewrite Hr in *. simpl in Hcd.
      split; [exact Hex|lia]. }
  assert (Hwrite : exists n', load (record_attempt encode decode s (sw_session w) (sw_kind w) cfg (sw_now w)) key
      = rec_of (sw_now w :: ds) n').
  { unfold record_attempt. fold key. rewrite Heq, Hl. apply counted_of; [|lia].
    intros d Hd Hlt. assert (r = rec_of ds n) as Er.
    { unfold r, refreshed. rewrite expired_of, Hd. by rewrite (proj2 (Z.leb_gt _ _)). }
    rewrite Er in Hex. simpl in Hex. lia. }
  assert (Hfin : forall att mx, (match last_attempt r with
      Some last => to_chrono (cooldown cfg) <= sw_now w - last | None => True end) ->
    let x := (if bool_decide (sw_kind w = CiFailure_) && negb (sw_stands w) then (s, [])
       else match sw_outcome w with
            | WaitingForDone | DeliveryFailed => (s, [])
            | Delivered => (record_attempt encode decode s (sw_session w) (sw_kind w) cfg (sw_now w),
                FDeliver :: if sw_github w then [FKickoff (describe (sw_kind w)) att mx] else [])
            end) in
    (forall key', key' <> key -> load x.1 key' = load s key')
    /\ (if delivers x.2 then pace (sw_now w :: ds) /\ exists n', load x.1 key = rec_of (sw_now w :: ds) n'
        else exists n', load x.1 key = rec_of ds n')).
  { intros att mx Hcd. cbv zeta. destruct (_ && _); [by split; [|exists n]|].
    destruct (sw_outcome w); [by split; [|exists n]|by split; [|exists n]|]. simpl.
    split; [|split; [by apply Hdel|done]]. intros key' Hne. unfold record_attempt. fold key. by apply Hoth. }
  destruct (last_attempt r) as [last|]; [|by apply Hfin].
  destruct (sw_now w - last <? to_chrono (cooldown cfg)) eqn:Hcd; [by split; [|exists n]|].
  bool_norm. by apply Hfin.
Qed.

Definition budget_inv (t : Z) (x : S * Log) : Prop :=
  forall session k,
    let ds := logged x.2 session k in
    pace ds /\ (exists n, load x.1 (record_key session k) = rec_of ds n)
    /\ forall d, head ds = Some d -> d <= t.

Lemma budget_step t x w :
  budget_inv t x -> t <= sw_now w -> budget_inv (sw_now w) (sweep_step x w).
Proof.
  intros Hi Ht session k. cbv zeta. unfold sweep_step.
  destruct (Hi (sw_session w) (sw_kind w)) as (Hp & [n Hl] & Hh).
  destruct (sweep_key x.1 w _ n Hl Hp) as [Ho Hk]; [intros d Hd; specialize (Hh d Hd); lia|].
  destruct (dispatch x.1 w) as [s' es]. cbn [fst snd] in *.
  destruct (decide (session = sw_session w /\ k = sw_kind w)) as [[-> ->]|Hne].
  - unfold logged. destruct (delivers es).
    + destruct Hk as [Hp' Hl']. rewrite lookup_insert_eq. simpl. split_and!; [done|done|]. by intros d [= <-].
    + split_and!; [done|done|]. intros d Hd. specialize (Hh d Hd). lia.
  - assert (Hlog : forall l, logged (if delivers es then <[(sw_session w, store_key (sw_kind w)) := l]> x.2 else x.2) session k
      = logged x.2 session k).
    { intros l. destruct (delivers es); [|done]. unfold logged. rewrite lookup_insert_ne; [done|].
      intros [= E1 E2]. apply Hne. split; [done|]. by destruct k, (sw_kind w). }
    rewrite Hlog. destruct (Hi session k) as (Hp' & [n' Hl'] & Hh').
    split_and!; [done| |intros d Hd; specialize (Hh' d Hd); lia].
    exists n'. rewrite Ho; [done|]. intros [-> ->]%record_key_inj. by apply Hne.
Qed.

End budget.

(** A budget of two repairs an hour, ten minutes apart.  The second window opens
    as the first ends, a second after its last repair, and the hour that ends at
    4200 s holds three repairs. *)
Definition example_settings : AutoFixSettings := mkFixSettings true [] 2 (secs 600) (secs 3600).

Definition example_sweep (now : Z) : Sweep :=
  mkSweep "w" MergeConflict (secs now) (Some ArmDefault) false true Delivered true.

Definition example_sweeps : list Sweep := map example_sweep [0; 300; 3599; 3600; 4200; 4300].

Definition raw_store : Store (gmap string AttemptRecord) AttemptRecord :=
  memory_store (fun _ => false).

Definition example_run : gmap string AttemptRecord * Log :=
  fold_left (@sweep_step _ _ raw_store Some Some example_settings) example_sweeps (∅, ∅).

Example cooldown_ends_with_the_window :
  map as_secs (logged example_run.2 "w" MergeConflict) = [4200; 3600; 3599; 0].
Proof. by vm_compute. Qed.

