(* ===== verification/AgentPolicy.v ===== *)
(** * Standing agent policies ([src/crates/core/src/agent_policy.rs])

    The rules stated in every agent's briefing: the built-in ones, overridden by
    the layers of the configuration (global, then per repository).  [resolve] is the
    code's merge of the layers, a [BTreeMap] iterated in key order; the theorem is
    that each rule is decided by the last layer that names it. *)

From Stdlib Require Import Ascii String.
From S2P Require Import Prelude Text.

#[global] Open Scope Z_scope.
#[local] Open Scope string_scope.

Record AgentPolicy : Type := mkPolicy { p_id : string; p_text : string }.

Inductive AgentPolicyOverride : Type :=
| Enabled (on : bool)
| Reworded (text : string).

(** The [policies:] map of one layer. *)
Notation AgentPolicyOverrides := (gmap string AgentPolicyOverride).

Definition ASK_BEFORE_FILING : string := "ask-before-filing-a-record".
Definition ONE_SELF_CONTAINED_PR : string := "one-self-contained-pr".
Definition CHECK_FOR_EXISTING_WORK : string := "check-for-existing-work".
Definition DOCS_CURRENT_IN_PR : string := "docs-current-in-pr".
Definition WORKSPACE_OVER_SUBAGENT : string := "workspace-over-subagent".

Definition quote : string := bytes_of [34%nat].

Definition builtin_policies : list AgentPolicy :=
  [mkPolicy ASK_BEFORE_FILING ("Never open a GitHub issue or a Linear ticket without the user's explicit go-ahead — not for a follow-up you noticed, not for a slice you carved out, not because a prompt said to file one " ++ quote ++ "if needed" ++ quote ++ ". Say what you would file and wait for a yes. Once you have it, the filed record is the deliverable: report its URL.");
   mkPolicy ONE_SELF_CONTAINED_PR "Prefer one self-contained pull request, even a large one, over a stack of dependent PRs. A stack moves merge-order work onto the reviewer, and a stacked child that lands by squash can strand its parent's commits off the default branch. Split only when the user asks you to.";
   mkPolicy CHECK_FOR_EXISTING_WORK "Before starting, check no open issue or PR already covers or conflicts with the work (`list_issues` / `task_status` are free); build on overlap or say so, never duplicate.";
   mkPolicy DOCS_CURRENT_IN_PR "A PR that changes behaviour updates the docs describing it (README, `AGENTS.md`, `docs/`) in the same PR, and names them in its body.";
   mkPolicy WORKSPACE_OVER_SUBAGENT "Give independent work its own workspace (`start_workspace` on its record), not a sub-agent: it stays visible, resumable and costed. Sub-agents are for research feeding your own task."].

(** The prose of an override, unless it is blank. *)
Definition non_blank (text : string) : option string :=
  let text := trim text in if is_empty text then None else Some text.

Definition merge_layer (merged layer : AgentPolicyOverrides) : AgentPolicyOverrides :=
  fold_left (fun m kv => <[kv.1 := kv.2]> m) (map_to_list layer) merged.

Definition merge_layers (layers : list AgentPolicyOverrides) : AgentPolicyOverrides :=
  fold_left merge_layer layers ∅.

(** A built-in rule under what is merged, which gives its entry up. *)
Definition place_builtin (acc : list AgentPolicy * AgentPolicyOverrides) (b : AgentPolicy)
    : list AgentPolicy * AgentPolicyOverrides :=
  let policies := acc.1 in
  let merged := delete (p_id b) acc.2 in
  match acc.2 !! p_id b with
  | None | Some (Enabled true) => (policies ++ [b], merged)
  | Some (Enabled false) => (policies, merged)
  | Some (Reworded text) =>
      match non_blank text with
      | Some text => (policies ++ [mkPolicy (p_id b) text], merged)
      | None => (policies, merged)
      end
  end%list.

(** A rule the user adds. *)
Definition added (merged : AgentPolicyOverrides) (i : string) : option AgentPolicy :=
  match merged !! i with
  | Some (Reworded text) =>
      match non_blank text with Some text => Some (mkPolicy i text) | None => None end
  | _ => None
  end.

Definition resolve (layers : list AgentPolicyOverrides) : list AgentPolicy :=
  let '(policies, merged) := fold_left place_builtin builtin_policies ([], merge_layers layers) in
  (policies ++ omap (added merged) (sorted_elements (dom merged)))%list.

Definition text_of (policies : list AgentPolicy) (i : string) : option string :=
  p_text <$> List.find (fun p => String.eqb (p_id p) i) policies.

Definition render (policies : list AgentPolicy) : string :=
  match policies with
  | [] => EmptyString
  | _ =>
      fold_left (fun out p => out ++ bytes_of [10%nat] ++ "  - " ++ p_text p) policies
        "Standing rules — how this user wants work done here. They hold for the whole session unless the user says otherwise in it, and they outrank a habit or a default you brought with you:"
  end.

(** ** The reference: the last word on a rule *)

Fixpoint last_say (layers : list AgentPolicyOverrides) (i : string) : option AgentPolicyOverride :=
  match layers with
  | [] => None
  | l :: layers => match last_say layers i with Some v => Some v | None => l !! i end
  end.

Definition builtin_text (i : string) : option string := text_of builtin_policies i.

Definition said (layers : list AgentPolicyOverrides) (i : string) : option string :=
  match last_say layers i with
  | None | Some (Enabled true) => builtin_text i
  | Some (Enabled false) => None
  | Some (Reworded text) => non_blank text
  end.

Definition builtin_ids : list string := map p_id builtin_policies.

(** ** Theorems *)

Lemma merge_layer_lookup m l i : merge_layer m l !! i = match l !! i with Some v => Some v | None => m !! i end.
Proof.
  change (merge_layer m l) with (insert_all (map_to_list l) m).
  destruct (l !! i) as [v|] eqn:E.
  - apply insert_all_NoDup; [apply NoDup_fst_map_to_list|]. by apply elem_of_map_to_list.
  - apply insert_all_notin. intros Hin%list_elem_of_In%in_map_iff. destruct Hin as ([k v] & <- & Hin).
    apply list_elem_of_In, elem_of_map_to_list in Hin. simpl in E. congruence.
Qed.

Lemma merge_layers_lookup layers i : merge_layers layers !! i = last_say layers i.
Proof.
  unfold merge_layers.
  assert (H : forall m, fold_left merge_layer layers m !! i
    = match last_say layers i with Some v => Some v | None => m !! i end).
  { induction layers as [|l layers IH]; intros m; [done|]. simpl. rewrite IH, merge_layer_lookup.
    by destruct (last_say layers i). }
  rewrite H. by destruct (last_say layers i).
Qed.

(** The built-in rules that stay, with the prose in force. *)
Definition kept (m : AgentPolicyOverrides) (b : AgentPolicy) : option AgentPolicy :=
  match m !! p_id b with
  | None | Some (Enabled true) => Some b
  | Some (Enabled false) => None
  | Some (Reworded text) => mkPolicy (p_id b) <$> non_blank text
  end.

Lemma place_builtins bs ps m :
  NoDup (map p_id bs) ->
  fold_left place_builtin bs (ps, m)
  = ((ps ++ omap (kept m) bs)%list, fold_left (fun m b => delete (p_id b) m) bs m).
Proof.
  revert ps m. induction bs as [|b bs IH]; intros ps m Hd; [by rewrite app_nil_r|].
  cbn [map] in Hd. apply NoDup_cons in Hd as [Hb Hd]. cbn [fold_left].
  assert (Hk : omap (kept (delete (p_id b) m)) bs = omap (kept m) bs).
  { clear IH Hd. induction bs as [|c bs IH]; [done|]. cbn [map] in Hb.
    apply not_elem_of_cons in Hb as [Hne Hb]. cbn [omap list_omap]. rewrite (IH Hb).
    replace (kept (delete (p_id b) m) c) with (kept m c); [done|]. unfold kept. by rewrite lookup_delete_ne. }
  assert (E : place_builtin (ps, m) b
    = ((ps ++ match kept m b with Some p => [p] | None => [] end)%list, delete (p_id b) m)).
  { unfold place_builtin, kept. cbn [fst snd].
    destruct (m !! p_id b) as [[[]|t]|]; [done|by rewrite app_nil_r| |done].
    destruct (non_blank t); [done|]. simpl. by rewrite app_nil_r. }
  rewrite E, IH, Hk by done. f_equal. cbn [omap list_omap]. rewrite <- app_assoc. f_equal.
  by destruct (kept m b).
Qed.

Lemma deleted_lookup (bs : list AgentPolicy) (m : AgentPolicyOverrides) i :
  fold_left (fun m b => delete (p_id b) m) bs m !! i = if bool_decide (i ∈ map p_id bs) then None else m !! i.
Proof.
  revert m. induction bs as [|b bs IH]; intros m; [done|]. cbn [fold_left map]. rewrite IH.
  destruct (decide (i ∈ map p_id bs)) as [Hin|Hin].
  - rewrite !bool_decide_eq_true_2; [done|by right|done].
  - rewrite (bool_decide_eq_false_2 _ Hin). destruct (decide (i = p_id b)) as [->|Hne].
    + rewrite bool_decide_eq_true_2 by left. apply lookup_delete_eq.
    + rewrite bool_decide_eq_false_2 by (intros [|]%elem_of_cons; done). by apply lookup_delete_ne.
Qed.

Lemma builtin_NoDup : NoDup builtin_ids.
Proof. apply (bool_decide_unpack _). by vm_compute. Qed.

Lemma resolve_spec layers :
  exists rest,
    resolve layers = (omap (kept (merge_layers layers)) builtin_policies
                      ++ omap (added rest) (sorted_elements (dom rest)))%list
    /\ forall i, rest !! i = if bool_decide (i ∈ builtin_ids) then None else last_say layers i.
Proof.
  unfold resolve. rewrite place_builtins by apply builtin_NoDup. eexists. split; [done|].
  intros i. by rewrite deleted_lookup, merge_layers_lookup.
Qed.

(** Looking a rule up among rules made from a list of distinct ids. *)
Lemma find_omap {B} (g : B -> option AgentPolicy) (key : B -> string) l i :
  (forall b p, g b = Some p -> p_id p = key b) -> NoDup (map key l) ->
  List.find (fun p => String.eqb (p_id p) i) (omap g l)
  = List.find (fun b => String.eqb (key b) i) l ≫= g.
Proof.
  intros Hg. induction l as [|b l IH]; intros Hd; [done|]. cbn [map] in Hd. apply NoDup_cons in Hd as [Hb Hd].
  cbn [omap list_omap List.find]. destruct (g b) as [p|] eqn:E.
  - simpl. rewrite (Hg b p E). destruct (String.eqb_spec (key b) i); [by rewrite <- E|by apply IH].
  - destruct (String.eqb_spec (key b) i) as [<-|]; [|by apply IH]. simpl. rewrite E, (IH Hd).
    destruct (List.find (fun b0 => String.eqb (key b0) (key b)) l) as [c|] eqn:Ef; [|done].
    apply find_some in Ef as [Hc Hk]. apply String.eqb_eq in Hk. exfalso. apply Hb.
    rewrite <- Hk. by apply list_elem_of_In, in_map.
Qed.

Lemma kept_id m b p : kept m b = Some p -> p_id p = p_id b.
Proof.
  unfold kept. destruct (m !! p_id b) as [[[]|t]|]; try by intros [= <-].
  destruct (non_blank t); [by intros [= <-]|done].
Qed.

(** What is left names no built-in. *)
Definition leftover (layers : list AgentPolicyOverrides) (rest : AgentPolicyOverrides) : Prop :=
  forall i, rest !! i = if bool_decide (i ∈ builtin_ids) then None else last_say layers i.

Lemma added_id layers rest i p :
  leftover layers rest -> added rest i = Some p -> p_id p = i /\ i ∉ builtin_ids.
Proof.
  intros Hrest. unfold added. rewrite Hrest. case_bool_decide; [done|].
  destruct (last_say layers i) as [[|t]|]; try done. destruct (non_blank t); [by intros [= <-]|done].
Qed.

(** The ids of rules made from a list of ids are among them, in order. *)
Lemma omap_ids {B} (g : B -> option AgentPolicy) (key : B -> string) l :
  (forall b p, g b = Some p -> p_id p = key b) -> map p_id (omap g l) `sublist_of` map key l.
Proof.
  intros Hg. induction l as [|b l IH]; [done|]. cbn [omap list_omap]. destruct (g b) as [p|] eqn:E; simpl.
  - rewrite (Hg b p E). by constructor.
  - by constructor.
Qed.

Lemma sublist_sorted (l l' : list string) :
  l `sublist_of` l' -> StronglySorted String.le l' -> StronglySorted String.le l.
Proof.
  intros Hx. induction Hx as [|x l1 l2 Hx IH|x l1 l2 Hx IH]; intros Hs; [constructor| |].
  - apply StronglySorted_inv in Hs as [Hs Hall]. constructor; [by apply IH|].
    apply Forall_forall. intros y Hy. rewrite Forall_forall in Hall. apply Hall. by eapply elem_of_sublist.
  - apply StronglySorted_inv in Hs as [Hs _]. by apply IH.
Qed.

Lemma find_key {B} (key : B -> string) (l : list B) i :
  match List.find (fun b => String.eqb (key b) i) l with
  | Some b => b ∈ l /\ key b = i
  | None => i ∉ map key l
  end.
Proof.
  destruct (List.find _ l) as [b|] eqn:E.
  - apply find_some in E as [Hb Hi]. split; [by apply list_elem_of_In|by apply String.eqb_eq].
  - intros Hin. apply list_elem_of_In, in_map_iff in Hin as (b & <- & Hb).
    apply (find_none _ _ E) in Hb. by rewrite String.eqb_refl in Hb.
Qed.

(** The prose of a rule among the kept and the added ones. *)
Lemma resolved_text layers rest i :
  leftover layers rest ->
  text_of (omap (kept (merge_layers layers)) builtin_policies
           ++ omap (added rest) (sorted_elements (dom rest)))%list i = said layers i.
Proof.
  intros Hrest. unfold text_of.
  rewrite find_app, (find_omap (kept _) p_id) by first [intros ??; apply kept_id|apply builtin_NoDup].
  rewrite (find_omap (added rest) (fun i => i))
    by first [intros ?? H; by apply (added_id layers) in H as [? _]|rewrite map_id; apply sorted_elements_NoDup].
  pose proof (find_key (fun j : string => j) (sorted_elements (dom rest)) i) as Hr. rewrite map_id in Hr.
  unfold said, builtin_text, text_of. rewrite <- (merge_layers_lookup layers i).
  pose proof (find_key p_id builtin_policies i) as Hb.
  destruct (List.find _ builtin_policies) as [b|].
  - destruct Hb as [Hb <-]. assert (Hin : p_id b ∈ builtin_ids) by (by apply list_elem_of_In, in_map, list_elem_of_In).
    assert (Hn : rest !! p_id b = None) by (by rewrite Hrest, bool_decide_eq_true_2).
    destruct (List.find _ (sorted_elements _)) as [j|].
    { destruct Hr as [Hj ->]. apply sorted_elements_elem, elem_of_dom in Hj as [? Hj]. congruence. }
    simpl. unfold kept. destruct (merge_layers layers !! p_id b) as [[[]|t]|]; try done. by destruct (non_blank t).
  - fold builtin_ids in Hb. pose proof (Hrest i) as E.
    rewrite bool_decide_eq_false_2, <- merge_layers_lookup in E by done. simpl.
    destruct (List.find _ (sorted_elements _)) as [j|].
    + destruct Hr as [_ ->]. simpl. unfold added. rewrite E.
      destruct (merge_layers layers !! i) as [[[]|t]|]; try done. by destruct (non_blank t).
    + rewrite sorted_elements_elem, not_elem_of_dom in Hr. by rewrite <- E, Hr.
Qed.

(** A standing rule is decided by the last layer that names it.  Whatever the
    layers, a rule is in force with the prose of the last override of its id: off
    if that says off or is blank, in the built-in wording if it says on or none
    names it, else reworded; an id that is no built-in adds a rule only where the
    last word on it is prose.  No rule appears twice, and the built-in ones come
    first, in their order, the added ones after them in the order of their ids. *)
Theorem policies_resolve_by_last_say layers :
  (forall i, text_of (resolve layers) i = said layers i)
  /\ NoDup (map p_id (resolve layers))
  /\ exists ids extra, map p_id (resolve layers) = (ids ++ extra)%list
       /\ ids `sublist_of` builtin_ids
       /\ StronglySorted String.le extra /\ (forall i, i ∈ extra -> i ∉ builtin_ids).
Proof.
  destruct (resolve_spec layers) as (rest & E & Hrest). fold (leftover layers rest) in Hrest. rewrite E.
  set (ids := map p_id (omap (kept (merge_layers layers)) builtin_policies)).
  set (extra := map p_id (omap (added rest) (sorted_elements (dom rest)))).
  assert (Hsub : ids `sublist_of` builtin_ids) by (apply (omap_ids _ p_id); intros ??; apply kept_id).
  assert (Hext : extra `sublist_of` sorted_elements (dom rest)).
  { rewrite <- (map_id (sorted_elements (dom rest))). apply (omap_ids _ (fun i => i)).
    intros i p H. by apply (added_id layers) in H as [? _]. }
  assert (Hnot : forall i, i ∈ extra -> i ∉ builtin_ids).
  { intros i Hi. apply list_elem_of_In, in_map_iff in Hi as (p & <- & Hp).
    apply list_elem_of_In, list_elem_of_omap in Hp as (j & _ & Hj).
    by destruct (added_id layers rest j p Hrest Hj) as [-> ?]. }
  split_and!.
  - intros i. by apply resolved_text.
  - rewrite map_app. apply NoDup_app. split_and!.
    + eapply sublist_NoDup; [apply builtin_NoDup|exact Hsub].
    + intros i Hi Hi'. apply (Hnot i Hi'). eapply elem_of_sublist; [exact Hi|exact Hsub].
    + eapply sublist_NoDup; [apply (sorted_elements_NoDup (dom rest))|exact Hext].
  - exists ids, extra. split_and!; [by rewrite map_app|done| |done].
    eapply sublist_sorted; [exact Hext|apply sorted_elements_sorted].
Qed.

(** A rule the user added globally and a repository says [true] of is gone: that
    word re-asserts a built-in wording, and there is none. *)
Example true_drops_an_added_rule :
  text_of (resolve [{[ "house-rule" := Reworded "Never touch `main` directly." ]};
                    {[ "house-rule" := Enabled true ]}]) "house-rule" = None.
Proof. by vm_compute. Qed.
