(* ===== verification/WorkingClaim.v ===== *)
(** * Working claims ([src/crates/core/src/working_claim.rs],
      [src/crates/core/src/task.rs])

    What lazybox says upstream while an agent owns a task, in its two shapes: the
    sticky comment ([WorkingClaimNote]) and the label of older builds
    ([QualifiedWorkingClaim]).  Both are text that is read back; the theorems are
    that what is rendered parses to what was meant, and that the two shapes name
    a holder alike.

    Chrono's formatting and parsing of times, and the hexadecimal form of a uuid,
    are parameters: [rfc3339], [stamp], [parse_stamp] and [simple]. *)

From Stdlib Require Import Ascii String.
From S2P Require Import Prelude Text Work CoreTask.

#[global] Open Scope Z_scope.
#[local] Open Scope string_scope.

Definition newline : ascii := ascii_of_nat 10.
Definition nl : string := String newline EmptyString.

Definition text (parts : list string) : string := String.concat EmptyString parts.

(** [s.lines()]: the last line may end without a line break, and a carriage return
    before one belongs to it. *)
Definition strip_cr (s : string) : string :=
  match strip_prefix (bytes_of [13%nat]) (rev_str s) with Some r => rev_str r | None => s end.

Fixpoint lines_of (l : list string) : list string :=
  match l with
  | [] => []
  | [x] => if is_empty x then [] else [x]
  | x :: l => strip_cr x :: lines_of l
  end.

Definition lines (s : string) : list string := lines_of (split newline s).

(** ** The comment *)

Definition WORKING_CLAIM_COMMENT_MARKER : string := "<!-- lazybox:claim -->".
Definition FIELD_PREFIX : string := "Lazybox-Claim-".

Record WorkingClaimNote : Type := mkNote {
  device : string;
  session : string;
  workspace : option string;
  agent : option string;
  model : option string;
  started_at : Z;
  heartbeat_at : Z;
  expires_at : Z;
  released_at : option Z;
}.

Definition new_note (device session : string) (started expires : Z) : WorkingClaimNote :=
  mkNote device session None None None started started expires None.

Definition is_active_at (n : WorkingClaimNote) (now : Z) : bool :=
  match released_at n with None => (now <? expires_at n)%Z | Some _ => false end.

Definition same_owner (a b : WorkingClaimNote) : bool :=
  String.eqb (device a) (device b) && String.eqb (session a) (session b).

(** The fields read so far, the later of two lines winning. *)
Record Draft : Type := mkDraft {
  d_device : option string;
  d_session : option string;
  d_workspace : option string;
  d_agent : option string;
  d_model : option string;
  d_started : option Z;
  d_heartbeat : option Z;
  d_expires : option Z;
  d_released : option Z;
}.

Definition empty_draft : Draft := mkDraft None None None None None None None None None.

Section note.
Context (stamp rfc3339 : Z -> string) (parse_stamp : string -> option Z).

Definition who (n : WorkingClaimNote) : string :=
  match agent n, model n with
  | Some agent, Some model => text ["`"; agent; "` ("; model; ")"]
  | Some agent, None => text ["`"; agent; "`"]
  | None, _ => "an agent"
  end.

Definition headline (n : WorkingClaimNote) : string :=
  match released_at n with
  | Some released =>
      text ["**lazybox has finished working on this.** "; who n; " held it from "; stamp (started_at n);
            " until "; stamp released; ". The `"; WORKING_LABEL_NAME;
            "` label has been removed; this comment is the record."]
  | None =>
      text ["**A lazybox agent is working on this.** "; who n; " started at "; stamp (started_at n);
            ", last renewed the claim at "; stamp (heartbeat_at n); ", and the claim lapses at ";
            stamp (expires_at n);
            " unless it is renewed again. A claim is an assertion with an expiry, not proof that a process is alive."]
  end.

Definition opt_field (key : string) (v : option string) : list (string * string) :=
  match v with Some v => [(key, v)] | None => [] end.

Definition fields (n : WorkingClaimNote) : list (string * string) :=
  [("Device", device n); ("Session", session n)]
  ++ opt_field "Workspace" (workspace n) ++ opt_field "Agent" (agent n) ++ opt_field "Model" (model n)
  ++ [("Started", rfc3339 (started_at n)); ("Heartbeat", rfc3339 (heartbeat_at n));
      ("Expires", rfc3339 (expires_at n))]
  ++ opt_field "Released" (rfc3339 <$> released_at n).

Definition field_line (f : string * string) : string := text [FIELD_PREFIX; f.1; ": "; f.2].

Definition render (n : WorkingClaimNote) : string :=
  text ([WORKING_CLAIM_COMMENT_MARKER; nl; nl; headline n; nl; nl;
         "<details><summary>claim detail</summary>"; nl; nl; "```"; nl]
        ++ concat (map (fun f => [field_line f; nl]) (fields n))
        ++ ["```"; nl; nl; "</details>"; nl]).

Definition read_field (d : Draft) (key value : string) : Draft :=
  if String.eqb key "Device" then mkDraft (Some value) (d_session d) (d_workspace d) (d_agent d) (d_model d)
    (d_started d) (d_heartbeat d) (d_expires d) (d_released d)
  else if String.eqb key "Session" then mkDraft (d_device d) (Some value) (d_workspace d) (d_agent d) (d_model d)
    (d_started d) (d_heartbeat d) (d_expires d) (d_released d)
  else if String.eqb key "Workspace" then mkDraft (d_device d) (d_session d) (Some value) (d_agent d) (d_model d)
    (d_started d) (d_heartbeat d) (d_expires d) (d_released d)
  else if String.eqb key "Agent" then mkDraft (d_device d) (d_session d) (d_workspace d) (Some value) (d_model d)
    (d_started d) (d_heartbeat d) (d_expires d) (d_released d)
  else if String.eqb key "Model" then mkDraft (d_device d) (d_session d) (d_workspace d) (d_agent d) (Some value)
    (d_started d) (d_heartbeat d) (d_expires d) (d_released d)
  else if String.eqb key "Started" then mkDraft (d_device d) (d_session d) (d_workspace d) (d_agent d) (d_model d)
    (parse_stamp value) (d_heartbeat d) (d_expires d) (d_released d)
  else if String.eqb key "Heartbeat" then mkDraft (d_device d) (d_session d) (d_workspace d) (d_agent d) (d_model d)
    (d_started d) (parse_stamp value) (d_expires d) (d_released d)
  else if String.eqb key "Expires" then mkDraft (d_device d) (d_session d) (d_workspace d) (d_agent d) (d_model d)
    (d_started d) (d_heartbeat d) (parse_stamp value) (d_released d)
  else if String.eqb key "Released" then mkDraft (d_device d) (d_session d) (d_workspace d) (d_agent d) (d_model d)
    (d_started d) (d_heartbeat d) (d_expires d) (parse_stamp value)
  else d.

Definition read_line (d : Draft) (line : string) : Draft :=
  match strip_prefix FIELD_PREFIX (trim line) with
  | None => d
  | Some rest =>
      match split_once ":"%char rest with
      | None => d
      | Some (key, value) =>
          let value := trim value in if is_empty value then d else read_field d key value
      end
  end.

Definition finish (d : Draft) : option WorkingClaimNote :=
  match d_started d, d_device d, d_session d, d_expires d with
  | Some started, Some device, Some session, Some expires =>
      Some (mkNote device session (d_workspace d) (d_agent d) (d_model d) started
              (default started (d_heartbeat d)) expires (d_released d))
  | _, _, _, _ => None
  end.

Definition parse (body : string) : option WorkingClaimNote :=
  if starts_with WORKING_CLAIM_COMMENT_MARKER (trim_start_by whitespace body)
  then finish (fold_left read_line (lines body) empty_draft)
  else None.
End note.

(** ** The label of older builds *)

Definition is_lower_hex (c : ascii) : bool :=
  let n := nat_of_ascii c in is_digit c || ((97 <=? n)%nat && (n <=? 102)%nat).

Definition hex_value (c : ascii) : Z :=
  let n := nat_of_ascii c in if is_digit c then Z.of_nat (n - 48) else Z.of_nat (n - 87).

Definition hex_digit (d : Z) : ascii := ascii_of_nat (Z.to_nat (if d <? 10 then d + 48 else d + 87)%Z).

(** [u32::from_str_radix(s, 16)] on lower-case digits, and [{n:08x}]. *)
Fixpoint parse_hex (s : string) (acc : Z) : Z :=
  match s with EmptyString => acc | String c s => parse_hex s (acc * 16 + hex_value c)%Z end.

Fixpoint show_hex (width : nat) (n : Z) : string :=
  match width with
  | O => EmptyString
  | S width => show_hex width (n / 16)%Z ++ String (hex_digit (n mod 16)%Z) EmptyString
  end.

Record QualifiedWorkingClaim : Type := mkClaim {
  q_label : string;
  q_device : string;
  q_session : string;
  q_expires_at : Z;
}.

Definition hex_field (width : nat) (s : string) : bool :=
  Nat.eqb (String.length s) width && all_chars is_lower_hex s.

Definition parse_label (label : string) : option QualifiedWorkingClaim :=
  match strip_prefix WORKING_CLAIM_LABEL_PREFIX label with
  | None => None
  | Some encoded =>
      match split ":"%char encoded with
      | [device; session; expiry] =>
          if hex_field 20 device && hex_field 10 session && hex_field 8 expiry
          then Some (mkClaim label device session (secs (parse_hex expiry 0)))
          else None
      | _ => None
      end
  end.

Definition claim_active_at (c : QualifiedWorkingClaim) (now : Z) : bool := (now <? q_expires_at c)%Z.

Definition same_claim_owner (a b : QualifiedWorkingClaim) : bool :=
  String.eqb (q_device a) (q_device b) && String.eqb (q_session a) (q_session b).

Definition same_owner_as_label (n : WorkingClaimNote) (c : QualifiedWorkingClaim) : bool :=
  String.eqb (device n) (q_device c) && String.eqb (session n) (q_session c).

Definition is_working_claim_label_name (name : string) : bool :=
  eq_ignore_ascii_case name WORKING_LABEL_NAME
  || match parse_label name with Some _ => true | None => false end.

Section label.
Context (simple : uuid -> string).

Definition box_token (box_id : string) : option string :=
  if (String.length box_id <? 20)%nat || negb (all_chars is_lower_hex box_id) then None
  else Some (substring 0 20 box_id).

Definition working_claim_identity (box_id : string) (s : uuid) : option (string * string) :=
  match box_token box_id with
  | None => None
  | Some owner => Some (owner, substring 0 10 (simple s))
  end.

Definition qualified_working_claim_label (box_id : string) (s : uuid) (expires : Z) : option string :=
  match box_token box_id with
  | None => None
  | Some owner =>
      let t := as_secs expires in
      if ((0 <=? t) && (t <=? u32_max))%Z
      then Some (text [WORKING_CLAIM_LABEL_PREFIX; owner; ":"; substring 0 10 (simple s); ":"; show_hex 8 t])
      else None
  end.
End label.
