(* ===== verification/WorkingClaimProps.v ===== *)
(** * Working claims read back

    A rendered comment parses to the note it renders, its times to the second, and
    a rendered label to the claim it encodes; both name the holder by the same
    pair. *)

From Stdlib Require Import Ascii String.
From S2P Require Import Prelude Text Work CoreTask WorkingClaim.

#[global] Open Scope Z_scope.
#[local] Open Scope string_scope.

(** ** Lines *)

Definition free_of (c : ascii) (s : string) : bool := all_chars (fun x => negb (Ascii.eqb x c)) s.

Lemma free_of_app c a b : free_of c (a ++ b) = free_of c a && free_of c b.
Proof. apply all_chars_app. Qed.

Lemma split_cons c l r : free_of c l = true -> split c (l ++ String c r) = l :: split c r.
Proof.
  induction l as [|a l IH]; intros Hl.
  - rewrite app_nil_str. simpl. by rewrite Ascii.eqb_refl.
  - rewrite app_cons_str. unfold free_of in *. simpl in Hl |- *. apply andb_true_iff in Hl as [Ha Hl].
    destruct (Ascii.eqb a c); [done|]. by rewrite (IH Hl).
Qed.

Lemma split_free c s : free_of c s = true -> split c s = [s].
Proof.
  unfold free_of. induction s as [|a s IH]; simpl; intros Hs; [done|].
  apply andb_true_iff in Hs as [Ha Hs]. destruct (Ascii.eqb a c); [done|]. by rewrite (IH Hs).
Qed.

Lemma split_nonempty c s : split c s <> [].
Proof. destruct s as [|a s]; simpl; [done|]. destruct (Ascii.eqb a c); [done|]. by destruct (split c s). Qed.

Lemma text_cons x l : text (x :: l) = x ++ text l.
Proof.
  destruct l as [|y l]; [|done]. unfold text. simpl. by rewrite app_nil_r_str.
Qed.

Lemma text_app a b : text (a ++ b)%list = text a ++ text b.
Proof.
  induction a as [|x a IH]; [done|]. change ((x :: a) ++ b)%list with (x :: (a ++ b)%list).
  by rewrite !text_cons, IH, app_assoc_str.
Qed.

(** The lines of a text made of whole lines. *)
Definition joined (ls : list string) : string := text (concat (map (fun l => [l; nl]) ls)).

Lemma joined_cons l ls : joined (l :: ls) = l ++ String newline (joined ls).
Proof. unfold joined. cbn [map concat app]. by rewrite !text_cons. Qed.

Lemma lines_joined ls : Forall (fun l => free_of newline l = true) ls -> lines (joined ls) = map strip_cr ls.
Proof.
  intros H. unfold lines. assert (E : split newline (joined ls) = (ls ++ [EmptyString])%list).
  { induction H as [|l ls Hl H IH]; [done|]. rewrite joined_cons, split_cons by done. by rewrite IH. }
  rewrite E. clear. induction ls as [|l ls IH]; [done|].
  cbn [app map]. destruct ls; [done|]. cbn [lines_of app] in *. by rewrite IH.
Qed.

Lemma read_all_joined f ls d :
  Forall (fun l => free_of newline l = true) ls ->
  fold_left (read_line f) (lines (joined ls)) d = fold_left (fun d l => read_line f d (strip_cr l)) ls d.
Proof.
  intros H. rewrite (lines_joined _ H). clear H. revert d. induction ls as [|l ls IH]; intros d; [done|apply IH].
Qed.

(** ** White space *)

Lemma strip_prefix_space p a b :
  free_of " " p = true -> forall r, strip_prefix p (a ++ String " " b) = Some r ->
  exists r', strip_prefix p a = Some r'.
Proof.
  revert a. induction p as [|c p IH]; intros a Hp r H; [simpl; by destruct a; eexists|].
  unfold free_of in *. simpl in Hp. apply andb_true_iff in Hp as [Hc Hp].
  destruct a as [|x a].
  - rewrite app_nil_str in H. simpl in H. by destruct (Ascii.eqb c " ").
  - rewrite app_cons_str in H. simpl in *. destruct (Ascii.eqb c x); [|done]. by apply (IH a Hp r).
Qed.

(** White space found at the start of a text is found in what precedes its first
    space, if anything does. *)
Lemma strip_any_space ps a b :
  Forall (fun p => match p with String _ p => free_of " " p = true | EmptyString => True end) ps ->
  a <> EmptyString -> strip_any ps a = None -> strip_any ps (a ++ String " " b) = None.
Proof.
  intros H Ha. induction H as [|p ps Hp _ IH]; [done|]. simpl.
  destruct (strip_prefix p a) eqn:E; [done|]. intros Hn.
  destruct (strip_prefix p (a ++ String " " b)) as [r|] eqn:E'; [|by apply IH].
  destruct p as [|c p]; [by destruct a|]. destruct a as [|x a]; [done|].
  rewrite app_cons_str in E'. simpl in *. destruct (Ascii.eqb c x); [|done].
  destruct (strip_prefix_space p a b Hp r E') as [r' Hr']. congruence.
Qed.

Lemma whitespace_tails :
  Forall (fun p => match p with String _ p => free_of " " p = true | EmptyString => True end)
    (map rev_str whitespace).
Proof. repeat constructor. Qed.

(** A value of a field: not blank, no white space around it, on one line. *)
Definition clean (v : string) : Prop := v <> EmptyString /\ trimmed v /\ free_of newline v = true.

Lemma rev_nonempty v : v <> EmptyString -> rev_str v <> EmptyString.
Proof. intros Hv E. apply Hv. by rewrite <- (rev_str_involutive v), E. Qed.

Lemma trim_value v : clean v -> trim (String " " v) = v.
Proof.
  intros (Hv & [H1 H2] & _). unfold trim.
  assert (E : trim_start_by whitespace (String " " v) = v).
  { unfold trim_start_by. cbn [String.length strip_all]. change (strip_any whitespace (String " " v)) with (Some v).
    by apply (trim_start_fixed whitespace). }
  rewrite E. unfold trim_end_by. by rewrite trim_start_fixed, rev_str_involutive.
Qed.

Lemma trim_field_line k v :
  clean v -> trimmed (field_line (k, v)).
Proof.
  intros (Hv & [H1 H2] & _). split; [reflexivity|].
  unfold field_line. rewrite !text_cons. cbn [fst snd]. change (text []) with EmptyString.
  rewrite app_nil_r_str, !rev_str_app, !app_assoc_str.
  change (rev_str ": ") with (String " " (String ":" EmptyString)). rewrite app_cons_str.
  apply strip_any_space; [apply whitespace_tails|by apply rev_nonempty|done].
Qed.

Lemma strip_cr_trimmed s : trimmed s -> strip_cr s = s.
Proof.
  intros [_ H]. unfold strip_cr. destruct (strip_prefix (bytes_of [13%nat]) (rev_str s)) as [r|] eqn:E; [|done].
  apply strip_prefix_Some in E. rewrite E in H. vm_compute in H. done.
Qed.

Lemma read_field_line f d k v :
  clean v -> free_of ":" k = true ->
  read_line f d (strip_cr (field_line (k, v))) = read_field f d k v.
Proof.
  intros Hc Hk. rewrite strip_cr_trimmed by by apply trim_field_line.
  unfold read_line. rewrite trim_fixed by by apply trim_field_line.
  unfold field_line. rewrite text_cons, strip_prefix_app. cbn [fst snd]. rewrite !text_cons.
  change (text []) with EmptyString. rewrite app_nil_r_str.
  assert (E : split_once ":" (k ++ ": " ++ v) = Some (k, String " " v)).
  { clear Hc. unfold free_of in Hk. induction k as [|c k IH]; [done|]. simpl in Hk.
    apply andb_true_iff in Hk as [Hc Hk]. rewrite app_cons_str. simpl.
    destruct (Ascii.eqb c ":"); [done|]. by rewrite IH. }
  rewrite E, trim_value by done. destruct Hc as (Hv & _ & _). by destruct v.
Qed.

(** ** The comment *)

(** A line that begins with an asterisk is no field. *)
Lemma skip_starred f d s : read_line f d (strip_cr (String "*" s)) = d.
Proof.
  assert (Hpre : forall t q, String "*" s = t ++ q -> strip_prefix FIELD_PREFIX t = None).
  { intros [|c t] q E; [done|]. rewrite app_cons_str in E. injection E as <- _. reflexivity. }
  assert (Hcr : exists q, String "*" s = strip_cr (String "*" s) ++ q).
  { unfold strip_cr. destruct (strip_prefix _ _) as [r|] eqn:E; [|exists EmptyString; by rewrite app_nil_r_str].
    apply strip_prefix_Some in E. exists (rev_str (bytes_of [13%nat])). by rewrite <- rev_str_app, <- E, rev_str_involutive. }
  unfold read_line. destruct Hcr as [q Hq]. set (u := strip_cr (String "*" s)) in *. unfold trim.
  assert (Hu : trim_start_by whitespace u = u).
  { apply trim_start_fixed. destruct u as [|c u]; [reflexivity|]. rewrite app_cons_str in Hq. injection Hq as <- _.
    reflexivity. }
  rewrite Hu. destruct (trim_end_prefix u) as [q' Hq'].
  rewrite (Hpre _ (q' ++ q)); [done|]. by rewrite <- app_assoc_str, <- Hq'.
Qed.

Section note.
Context (stamp rfc3339 : Z -> string) (parse_stamp : string -> option Z).

(** The years 1 to 9999, which RFC 3339 covers. *)
Definition in_range (t : Z) : Prop := -62135596800 <= as_secs t <= 253402300799.

Context (stamp_line : forall t, in_range t -> free_of newline (stamp t) = true).
Context (rfc_clean : forall t, in_range t -> clean (rfc3339 t)).
Context (rfc_read : forall t, in_range t -> parse_stamp (rfc3339 t) = Some (secs (as_secs t))).

Definition clean_opt (v : option string) : Prop := match v with Some v => clean v | None => True end.

(** The tokens of a holder and the names shown are single words of a line; the
    times are ones the format can write. *)
Definition well_formed (n : WorkingClaimNote) : Prop :=
  clean (device n) /\ clean (session n)
  /\ clean_opt (workspace n) /\ clean_opt (agent n) /\ clean_opt (model n)
  /\ in_range (started_at n) /\ in_range (heartbeat_at n) /\ in_range (expires_at n)
  /\ match released_at n with Some t => in_range t | None => True end.

Definition to_the_second (t : Z) : Z := secs (as_secs t).

Definition truncated (n : WorkingClaimNote) : WorkingClaimNote :=
  mkNote (device n) (session n) (workspace n) (agent n) (model n) (to_the_second (started_at n))
    (to_the_second (heartbeat_at n)) (to_the_second (expires_at n)) (to_the_second <$> released_at n).

Definition preamble (n : WorkingClaimNote) : list string :=
  [WORKING_CLAIM_COMMENT_MARKER; EmptyString; headline stamp n; EmptyString;
   "<details><summary>claim detail</summary>"; EmptyString; "```"].
Definition postamble : list string := ["```"; EmptyString; "</details>"].

Lemma render_joined n :
  render stamp rfc3339 n = joined (preamble n ++ map field_line (fields rfc3339 n) ++ postamble).
Proof.
  unfold render, joined, preamble. rewrite !map_app, !concat_app, !text_app, !text_cons.
  cbn [map concat app]. rewrite !text_cons.
  change (text []) with EmptyString. rewrite !app_nil_r_str.
  assert (E : concat (map (fun f => [field_line f; nl]) (fields rfc3339 n))
    = concat (map (fun l => [l; nl]) (map field_line (fields rfc3339 n)))) by by rewrite map_map.
  rewrite E, !app_nil_str. by rewrite !app_assoc_str.
Qed.

Lemma free_of_text l : Forall (fun s => free_of newline s = true) l -> free_of newline (text l) = true.
Proof.
  intros H. induction H as [|x l Hx _ IH]; [done|]. by rewrite text_cons, free_of_app, Hx, IH.
Qed.

Lemma headline_line n : well_formed n -> free_of newline (headline stamp n) = true.
Proof.
  intros (_ & _ & _ & Ha & Hm & Hs & Hh & He & Hr).
  assert (Hw : free_of newline (who n) = true).
  { unfold who. destruct (agent n) as [a|]; [|reflexivity]. destruct (model n) as [m|]; simpl in Ha, Hm.
    - apply free_of_text. repeat constructor; [by destruct Ha as (_ & _ & ?)|by destruct Hm as (_ & _ & ?)].
    - apply free_of_text. repeat constructor. by destruct Ha as (_ & _ & ?). }
  unfold headline. destruct (released_at n) as [t|]; apply free_of_text;
    repeat constructor; auto.
Qed.

Definition clean_field (f : string * string) : Prop :=
  clean f.2 /\ free_of ":" f.1 = true /\ free_of newline f.1 = true.

Lemma opt_field_clean k v :
  clean_opt v -> free_of ":" k = true -> free_of newline k = true -> Forall clean_field (opt_field k v).
Proof. intros Hv Hk Hn. destruct v; [|constructor]. apply Forall_cons. by split; [|constructor]. Qed.

Lemma fields_clean n : well_formed n -> Forall clean_field (fields rfc3339 n).
Proof.
  intros (Hd & Hses & Hw & Ha & Hm & Hs & Hh & He & Hr). unfold fields.
  assert (Hone : forall k v l, clean v -> free_of ":" k = true -> free_of newline k = true ->
    Forall clean_field l -> Forall clean_field ((k, v) :: l)) by (intros; by apply Forall_cons).
  repeat first [apply Forall_app; split | apply Hone; [by auto|reflexivity|reflexivity|]
    | apply opt_field_clean; [|reflexivity|reflexivity] | apply Forall_nil_2]; try done.
  destruct (released_at n); [|done]. by apply rfc_clean.
Qed.

Lemma field_line_line f :
  clean f.2 -> free_of newline f.1 = true -> free_of newline (field_line f) = true.
Proof.
  intros (_ & _ & Hv) Hk. apply free_of_text. repeat constructor; [exact Hk|exact Hv].
Qed.

Lemma read_fields fs d :
  Forall clean_field fs ->
  fold_left (fun d l => read_line parse_stamp d (strip_cr l)) (map field_line fs) d
  = fold_left (fun d f => read_field parse_stamp d f.1 f.2) fs d.
Proof.
  intros H. revert d. induction H as [|[k v] fs (Hc & Hk & _) _ IH]; intros d; [done|].
  cbn [map fold_left fst snd] in *. by rewrite read_field_line.
Qed.

Lemma is_empty_clean v : clean v -> is_empty v = false.
Proof. intros [Hv _]. by destruct v. Qed.

(** The body rendered for a note parses to it, each time to the second. *)
Lemma parse_render n :
  well_formed n -> parse parse_stamp (render stamp rfc3339 n) = Some (truncated n).
Proof.
  intros Hn. pose proof (fields_clean n Hn) as Hf. rewrite render_joined. unfold parse.
  assert (Hm : starts_with WORKING_CLAIM_COMMENT_MARKER (trim_start_by whitespace
    (joined (preamble n ++ map field_line (fields rfc3339 n) ++ postamble))) = true).
  { unfold preamble. cbn [app]. rewrite joined_cons, trim_start_fixed by reflexivity.
    unfold starts_with. by rewrite strip_prefix_app. }
  rewrite Hm, read_all_joined.
  2:{ repeat (apply Forall_app; split); [| |repeat constructor].
      - repeat (apply Forall_cons; split; [try reflexivity; by apply headline_line|]). apply Forall_nil_2.
      - apply Forall_map. eapply Forall_impl; [exact Hf|]. intros f (Hc & _ & Hk). by apply field_line_line. }
  rewrite !fold_left_app, read_fields by done.
  assert (Hpre : fold_left (fun d l => read_line parse_stamp d (strip_cr l)) (preamble n) empty_draft = empty_draft).
  { unfold preamble. cbn [fold_left].
    assert (Hh : exists h, headline stamp n = String "*" h).
    { unfold headline. destruct (released_at n); rewrite text_cons; eexists; reflexivity. }
    destruct Hh as [h ->].
    change (read_line parse_stamp empty_draft (strip_cr WORKING_CLAIM_COMMENT_MARKER)) with empty_draft.
    change (read_line parse_stamp empty_draft (strip_cr EmptyString)) with empty_draft.
    rewrite skip_starred. reflexivity. }
  rewrite Hpre. destruct Hn as (Hd & Hses & Hw & Ha & Hmo & Hs & Hh & He & Hr).
  unfold fields, truncated, to_the_second.
  destruct n as [dv se wo ag mo st hb ex re]; cbn [device session workspace agent model started_at heartbeat_at
    expires_at released_at] in *.
  destruct wo, ag, mo, re; cbn; rewrite !rfc_read by done; reflexivity.
Qed.

(** A claim comment reads back as the claim.  The body rendered for a note whose
    words hold no line break parses to that note, each time to the second, released
    or not; so a holder recognises its own lease in it, and where the times are
    whole seconds nothing is lost. *)
Theorem claim_note_round_trip n :
  well_formed n ->
  parse parse_stamp (render stamp rfc3339 n) = Some (truncated n)
  /\ same_owner n (truncated n) = true
  /\ ((forall t, t = started_at n \/ t = heartbeat_at n \/ t = expires_at n \/ released_at n = Some t ->
        to_the_second t = t) -> parse parse_stamp (render stamp rfc3339 n) = Some n).
Proof.
  intros Hn.
  pose proof (parse_render n Hn) as Hp.
  split; [exact Hp|]. split.
  - unfold same_owner, truncated. simpl. by rewrite !String.eqb_refl.
  - intros Ht. rewrite Hp. f_equal. destruct n as [dv se wo ag mo st hb ex re]. unfold truncated. simpl in *.
    rewrite !Ht by tauto. f_equal. destruct re as [t|]; [|done]. simpl. by rewrite Ht by tauto.
Qed.
End note.

(** ** Hexadecimal *)

Lemma hex_digit_value d :
  (0 <= d < 16)%Z -> hex_value (hex_digit d) = d /\ is_lower_hex (hex_digit d) = true.
Proof.
  intros H. assert (E : d = Z.of_nat (Z.to_nat d)) by lia. assert (Hk : (Z.to_nat d < 16)%nat) by lia.
  rewrite E. clear E H. revert Hk. generalize (Z.to_nat d). intros k Hk.
  do 16 (destruct k as [|k]; [by vm_compute|]). lia.
Qed.

Lemma value_hex_digit c :
  is_lower_hex c = true -> hex_digit (hex_value c) = c /\ (0 <= hex_value c < 16)%Z.
Proof.
  destruct c as [[] [] [] [] [] [] [] []]; vm_compute; intros H; try discriminate H;
    (split; [reflexivity|split; [discriminate|reflexivity]]).
Qed.

Lemma parse_hex_app a b acc : parse_hex (a ++ b) acc = parse_hex b (parse_hex a acc).
Proof. revert acc. induction a as [|c a IH]; intros acc; [done|]. rewrite app_cons_str. simpl. apply IH. Qed.

Lemma parse_hex_nonneg s acc :
  all_chars is_lower_hex s = true -> (0 <= acc)%Z -> (0 <= parse_hex s acc)%Z.
Proof.
  revert acc. induction s as [|c s IH]; intros acc Hs Ha; [done|]. simpl in *.
  apply andb_true_iff in Hs as [Hc Hs]. apply IH; [done|]. destruct (value_hex_digit c Hc). lia.
Qed.

Lemma parse_show_hex w n acc :
  (0 <= n)%Z -> parse_hex (show_hex w n) acc = (acc * 16 ^ Z.of_nat w + n mod 16 ^ Z.of_nat w)%Z.
Proof.
  revert n acc. induction w as [|w IH]; intros n acc Hn.
  - change (16 ^ Z.of_nat 0)%Z with 1%Z. simpl. rewrite Z.mod_1_r. lia.
  - simpl show_hex. rewrite parse_hex_app, IH by (apply Z.div_pos; lia). simpl parse_hex.
    pose proof (Z.mod_pos_bound n 16 ltac:(lia)) as Hb.
    destruct (hex_digit_value (n mod 16) Hb) as [-> _].
    rewrite Nat2Z.inj_succ, Z.pow_succ_r by lia.
    rewrite (Z.rem_mul_r n 16 (16 ^ Z.of_nat w)) by (try lia; apply Z.pow_pos_nonneg; lia). lia.
Qed.

Lemma show_hex_shape w n :
  (0 <= n)%Z -> String.length (show_hex w n) = w /\ all_chars is_lower_hex (show_hex w n) = true.
Proof.
  revert n. induction w as [|w IH]; intros n Hn; [done|]. simpl.
  destruct (IH (n / 16)%Z) as [Hl Ha]; [apply Z.div_pos; lia|].
  rewrite length_app_str, all_chars_app, Hl, Ha. simpl.
  destruct (hex_digit_value (n mod 16) (Z.mod_pos_bound n 16 ltac:(lia))) as [_ ->]. split; [lia|done].
Qed.

Lemma show_parse_hex s :
  all_chars is_lower_hex s = true -> show_hex (String.length s) (parse_hex s 0) = s.
Proof.
  intros H. remember (String.length s) as w eqn:Hw. revert s Hw H.
  induction w as [|w IH]; intros s Hw H; [by destruct s|].
  destruct (string_last s) as (p & c & ->); [by intros ->|].
  rewrite all_chars_app in H. apply andb_true_iff in H as [Hp Hc]. simpl in Hc. rewrite andb_true_r in Hc.
  rewrite length_app_str in Hw. simpl in Hw. rewrite parse_hex_app. simpl parse_hex. simpl show_hex.
  destruct (value_hex_digit c Hc) as [Hd Hb]. pose proof (parse_hex_nonneg p 0 Hp ltac:(lia)).
  rewrite Z.div_add_l, (Z.div_small (hex_value c)), Z.add_0_r by lia.
  rewrite (Z.add_comm (_ * 16)), Z.mod_add, Z.mod_small by lia.
  rewrite Hd. by rewrite (IH p) by (done || lia).
Qed.

(** ** The label *)

Lemma hex_free_of_colon s : all_chars is_lower_hex s = true -> free_of ":" s = true.
Proof.
  unfold free_of. induction s as [|c s IH]; simpl; [done|]. intros [Hc Hs]%andb_true_iff.
  rewrite (IH Hs), andb_true_r. destruct (Ascii.eqb_spec c ":"%char) as [->|]; [discriminate Hc|done].
Qed.

Lemma substring_shape f s k :
  (k <= String.length s)%nat -> all_chars f s = true ->
  String.length (substring 0 k s) = k /\ all_chars f (substring 0 k s) = true.
Proof.
  revert k. induction s as [|c s IH]; intros [|k] Hk Hs; simpl in *; try done; [lia|].
  apply andb_true_iff in Hs as [Hc Hs]. destruct (IH k) as [Hl Ha]; [lia|done|]. by rewrite Hl, Hc, Ha.
Qed.

Lemma parse_label_fields d s e :
  hex_field 20 d = true -> hex_field 10 s = true -> hex_field 8 e = true ->
  let l := text [WORKING_CLAIM_LABEL_PREFIX; d; ":"; s; ":"; e] in
  parse_label l = Some (mkClaim l d s (secs (parse_hex e 0))).
Proof.
  intros Hd Hs He l. unfold parse_label. unfold l at 1. rewrite text_cons, strip_prefix_app, !text_cons.
  assert (Hc : forall w x, hex_field w x = true -> free_of ":" x = true).
  { intros w x [_ Hx]%andb_true_iff. by apply hex_free_of_colon. }
  change (text []) with EmptyString. rewrite app_nil_r_str.
  rewrite !app_cons_str, !app_nil_str.
  rewrite split_cons by by eapply Hc. rewrite split_cons by by eapply Hc. rewrite split_free by by eapply Hc.
  by rewrite Hd, Hs, He.
Qed.

(** Fields joined by a colon split back into them. *)
Lemma split_join c x y ys :
  split c x = y :: ys -> x = match ys with [] => y | _ => y ++ String c (String.concat (String c EmptyString) ys) end.
Proof.
  revert y ys. induction x as [|a x IH]; intros y ys E; simpl in E; [by injection E as <- <-|].
  destruct (split c x) as [|z zs] eqn:Ez; [by apply split_nonempty in Ez|].
  destruct (Ascii.eqb_spec a c) as [->|Hne]; injection E as <- <-.
  - rewrite (IH z zs eq_refl). by rewrite app_nil_str.
  - rewrite (IH z zs eq_refl) at 1. destruct zs; [done|]. by rewrite app_cons_str.
Qed.

(** Eight digits hold a [u32]. *)
Lemma parse_hex_u32 e : hex_field 8 e = true -> (0 <= parse_hex e 0 <= u32_max)%Z /\ show_hex 8 (parse_hex e 0) = e.
Proof.
  intros [Hl He]%andb_true_iff. apply Nat.eqb_eq in Hl.
  pose proof (parse_hex_nonneg e 0 He ltac:(lia)) as Hnn. pose proof (show_parse_hex e He) as Hse.
  pose proof (parse_show_hex (String.length e) (parse_hex e 0) 0 Hnn) as Hps. rewrite Hse, Hl in *.
  change (16 ^ Z.of_nat 8)%Z with 4294967296%Z in Hps.
  pose proof (Z.mod_pos_bound (parse_hex e 0) 4294967296 ltac:(lia)). unfold u32_max. split; [lia|done].
Qed.

Lemma parse_label_spells l c :
  parse_label l = Some c ->
  l = text [WORKING_CLAIM_LABEL_PREFIX; q_device c; ":"; q_session c; ":"; show_hex 8 (as_secs (q_expires_at c))]
  /\ 0 <= as_secs (q_expires_at c) <= u32_max.
Proof.
  unfold parse_label. destruct (strip_prefix WORKING_CLAIM_LABEL_PREFIX l) as [enc|] eqn:Ep; [|done].
  apply strip_prefix_Some in Ep. destruct (split ":" enc) as [|d [|s [|e [|]]]] eqn:Es; try done.
  destruct (hex_field 20 d && hex_field 10 s && hex_field 8 e) eqn:Eh; [|done]. intros [= <-].
  cbn [q_device q_session q_expires_at]. apply andb_true_iff in Eh as [_ He].
  destruct (parse_hex_u32 e He) as [Hle Hse].
  assert (Ht : as_secs (secs (parse_hex e 0)) = parse_hex e 0).
  { unfold as_secs, secs, nanos_per_sec. by rewrite Z.div_mul. }
  rewrite Ht, Hse. split; [|lia]. rewrite !text_cons. change (text []) with EmptyString.
  rewrite app_nil_r_str, Ep. f_equal. by rewrite (split_join ":" enc d [s; e] Es).
Qed.

Section label.
Context (simple : uuid -> string).
Context (simple_hex : forall s, String.length (simple s) = 32%nat /\ all_chars is_lower_hex (simple s) = true).

Lemma label_reads_back box s expires l :
  qualified_working_claim_label simple box s expires = Some l ->
  exists d se, working_claim_identity simple box s = Some (d, se)
  /\ parse_label l = Some (mkClaim l d se (to_the_second expires)).
Proof.
  unfold qualified_working_claim_label, working_claim_identity, box_token.
  destruct ((String.length box <? 20)%nat || negb (all_chars is_lower_hex box)) eqn:E; [done|].
  apply orb_false_iff in E as [Hl Hh]. apply Nat.ltb_ge in Hl. apply negb_false_iff in Hh.
  destruct ((0 <=? as_secs expires) && (as_secs expires <=? u32_max))%Z eqn:Ht; [|done].
  apply andb_true_iff in Ht as [Ht0 Ht1]. apply Z.leb_le in Ht0, Ht1.
  pose proof (parse_show_hex 8 (as_secs expires) 0 Ht0) as Hback.
  destruct (substring_shape is_lower_hex box 20 Hl Hh) as [H1 H2]. destruct (simple_hex s) as [Hsl Hsh].
  destruct (substring_shape is_lower_hex (simple s) 10 ltac:(lia) Hsh) as [H3 H4].
  destruct (show_hex_shape 8 (as_secs expires) Ht0) as [H5 H6].
  revert Hback H5 H6. generalize (show_hex 8 (as_secs expires)) as e. intros e Hback H5 H6 [= <-].
  exists (substring 0 20 box), (substring 0 10 (simple s)). split; [done|].
  pose proof (parse_label_fields (substring 0 20 box) (substring 0 10 (simple s)) e) as Hp.
  unfold hex_field in Hp. rewrite H1, H2, H3, H4, H5, H6 in Hp. rewrite (Hp eq_refl eq_refl eq_refl).
  rewrite Hback. unfold to_the_second. do 2 f_equal. f_equal. rewrite Z.mul_0_l, Z.add_0_l.
  apply Z.mod_small. unfold u32_max in Ht1. change (16 ^ Z.of_nat 8)%Z with 4294967296%Z. lia.
Qed.

(** A claim label of an older build is read as what it claims.  The label built
    for a box and a session parses to exactly the pair the comment names its holder
    by, with the expiry to the second, so one lease is recognised in either shape;
    and a label that parses is the one those fields spell: no two labels claim the
    same. *)
Theorem claim_label_round_trip :
  (forall box s expires l, qualified_working_claim_label simple box s expires = Some l ->
     exists d se c, working_claim_identity simple box s = Some (d, se)
     /\ parse_label l = Some c /\ q_label c = l /\ q_expires_at c = to_the_second expires
     /\ is_working_claim_label_name l = true
     /\ forall a b, same_owner_as_label (new_note d se a b) c = true)
  /\ (forall l c, parse_label l = Some c ->
        l = text [WORKING_CLAIM_LABEL_PREFIX; q_device c; ":"; q_session c; ":"; show_hex 8 (as_secs (q_expires_at c))]
        /\ 0 <= as_secs (q_expires_at c) <= u32_max).
Proof.
  split; [|apply parse_label_spells]. intros box s expires l Hl.
  destruct (label_reads_back box s expires l Hl) as (d & se & Hid & Hp).
  eexists d, se, _. split; [done|]. split; [exact Hp|]. split; [done|]. split; [done|]. split.
  - unfold is_working_claim_label_name. by rewrite Hp, orb_true_r.
  - intros a b. unfold same_owner_as_label. simpl. by rewrite !String.eqb_refl.
Qed.
End label.

(** ** At work *)

Lemma hex_not_whitespace c s :
  is_lower_hex c = true ->
  strip_any whitespace (String c s) = None /\ strip_any (map rev_str whitespace) (String c s) = None.
Proof. destruct c as [[] [] [] [] [] [] [] []]; try discriminate; split; reflexivity. Qed.

Lemma hex_clean s : s <> EmptyString -> all_chars is_lower_hex s = true -> clean s.
Proof.
  intros Hs Hh. split; [done|]. split; [split|].
  - destruct s as [|c s]; [done|]. simpl in Hh. apply andb_true_iff in Hh as [Hc _].
    exact (proj1 (hex_not_whitespace c s Hc)).
  - destruct (string_last s Hs) as (p & c & ->). rewrite all_chars_app in Hh.
    apply andb_true_iff in Hh as [_ Hc]. simpl in Hc. rewrite andb_true_r in Hc.
    rewrite rev_str_app. change (rev_str (String c EmptyString)) with (String c EmptyString).
    rewrite app_cons_str. exact (proj2 (hex_not_whitespace c _ Hc)).
  - clear Hs. unfold free_of. induction s as [|c s IH]; simpl in *; [done|].
    apply andb_true_iff in Hh as [Hc Hh]. rewrite (IH Hh), andb_true_r.
    destruct (Ascii.eqb_spec c newline) as [->|]; [discriminate Hc|done].
Qed.

(** Times as the hexadecimal seconds since the year 1, and the session itself as
    its hexadecimal form. *)
Definition example_epoch : Z := 62135596800.
Definition example_format (t : Z) : string := show_hex 10 (Z.max 0 (as_secs t + example_epoch)).
Definition example_parse (v : string) : option Z := Some (secs (parse_hex v 0 - example_epoch)).
Definition example_simple (s : uuid) : string := show_hex 32 (Z.max 0 s).

Lemma example_clean t : clean (example_format t).
Proof.
  destruct (show_hex_shape 10 (Z.max 0 (as_secs t + example_epoch)) ltac:(lia)) as [Hl Ha].
  apply hex_clean; [|done]. intros E. unfold example_format in E. by rewrite E in Hl.
Qed.

Lemma example_read t : in_range t -> example_parse (example_format t) = Some (secs (as_secs t)).
Proof.
  intros Ht. unfold example_parse, example_format. rewrite parse_show_hex by lia.
  unfold in_range, example_epoch in *. change (16 ^ Z.of_nat 10)%Z with 1099511627776%Z.
  rewrite Z.mod_small by lia. do 2 f_equal. lia.
Qed.

Definition example_note : WorkingClaimNote :=
  mkNote "effacd542b611010656e" "4c46621014" (Some "github-acme-widget-1922") (Some "claude") (Some "Opus 5")
    (secs 1790000000) (secs 1790000900) (secs 1790003600) None.

Lemma clean_word v :
  v <> EmptyString -> strip_any whitespace v = None -> strip_any (map rev_str whitespace) (rev_str v) = None ->
  free_of newline v = true -> clean v.
Proof. intros H1 H2 H3 H4. split; [done|]. split; [by split|done]. Qed.

(** A concrete note, word by word. *)
Ltac well_formed_note :=
  unfold well_formed, in_range; simpl;
  repeat split; try (apply clean_word; [discriminate|reflexivity|reflexivity|reflexivity]); try discriminate;
  try reflexivity; unfold as_secs, secs, nanos_per_sec; rewrite ?Z.div_mul by lia; try lia; discriminate.

Lemma example_well_formed : well_formed example_note.
Proof. unfold example_note. well_formed_note. Qed.

Lemma claim_note_round_trip_witness :
  well_formed example_note
  /\ parse example_parse (render example_format example_format example_note) = Some (truncated example_note).
Proof.
  split; [exact example_well_formed|].
  exact (proj1 (claim_note_round_trip example_format example_format example_parse
    (fun t _ => proj2 (proj2 (example_clean t))) (fun t _ => example_clean t) example_read
    example_note example_well_formed)).
Defined.

Lemma claim_label_round_trip_witness :
  exists d se c l,
    qualified_working_claim_label example_simple "effacd542b611010656e00" 7 (secs 1790003600) = Some l
    /\ working_claim_identity example_simple "effacd542b611010656e00" 7 = Some (d, se)
    /\ parse_label l = Some c.
Proof.
  assert (E : exists l, qualified_working_claim_label example_simple "effacd542b611010656e00" 7 (secs 1790003600)
    = Some l) by (eexists; vm_compute; reflexivity).
  destruct E as [l E].
  destruct (proj1 (claim_label_round_trip example_simple
    (fun s => show_hex_shape 32 (Z.max 0 s) (Z.le_max_l 0 s))) _ _ _ _ E) as (d & se & c & H1 & H2 & _).
  exists d, se, c, l. split; [exact E|]. split; [exact H1|exact H2].
Defined.
