(* ===== verification/ClaimRemote.v ===== *)
(** * Working claims on GitHub ([src/crates/gh-provider/src/client.rs])

    The requests with which a claim is kept on an issue or a pull request: the shared
    [working] label, one sticky comment edited in place, the release and the cleanup of
    labels of older builds.  GitHub is the class [Issues]: one operation per request of
    the client, each of which may fail, the governor's refusal and the caller's
    deadline (a [timed] call cut short) included.  [IssuesLaws] has what GitHub's
    documentation says of them; [memory_issues] is an instance. *)

From Stdlib Require Import Ascii String.
From S2P Require Import Prelude Text CoreTask WorkingClaim.
From S2P Require Work.

#[global] Open Scope Z_scope.
#[local] Open Scope string_scope.
#[local] Open Scope list_scope.

(** An error: GitHub's, with its status if it answered; one of the client's own; the
    governor's refusal; a request the deadline cut short. *)
Inductive GhError : Type :=
| Api (status : option Z)
| Graphql (message : string)
| Refused
| Cut.

(** A repository and the number of an issue or pull request in it. *)
Record Target : Type := mkTarget { t_owner : string; t_name : string; t_number : Z }.

#[export] Instance Target_eq_dec : EqDecision Target.
Proof. solve_decision. Defined.
#[export] Instance Target_countable : Countable Target.
Proof.
  refine (inj_countable' (fun t => (t_owner t, t_name t, t_number t))
            (fun p => mkTarget p.1.1 p.1.2 p.2) _). by intros [].
Defined.

Record Comment : Type := mkComment { c_id : Z; c_login : string; c_body : option string }.

(** A computation over GitHub. *)
Definition Request (R A : Type) : Type := R -> R * (A + GhError).

#[export] Instance request_ret {R} : MRet (Request R) := fun A a r => (r, inl a).
#[export] Instance request_bind {R} : MBind (Request R) := fun A B k m r =>
  match m r with (r', inl a) => k a r' | (r', inr e) => (r', inr e) end.
Definition fail {R A} (e : GhError) : Request R A := fun r => (r, inr e).
(** [match] on an error that may be excused. *)
Definition catch {R A} (m : Request R A) (excused : GhError -> bool) (k : Request R A) : Request R A :=
  fun r => match m r with
           | (r', inl a) => (r', inl a)
           | (r', inr e) => if excused e then k r' else (r', inr e)
           end.

(** The requests.  A listing gives its first page and the link to the last one. *)
Class Issues (R : Type) := {
  add_labels : Target -> string -> Request R unit;
  create_label : string * string -> string -> Request R unit;
  remove_label : Target -> string -> Request R unit;
  delete_label : string * string -> string -> Request R unit;
  list_comments : Target -> Request R (list Comment * option Z);
  get_page : Target -> Z -> Request R (option (list Comment));
  get_comment : string * string -> Z -> Request R Comment;
  update_comment : string * string -> Z -> string -> Request R unit;
  create_comment : Target -> string -> Request R Z;
}.

(** [gh_error_status] *)
Definition gh_error_status (e : GhError) : option Z := match e with Api s => s | _ => None end.
Definition status_in (l : list Z) (e : GhError) : bool :=
  match gh_error_status e with Some s => bool_decide (s ∈ l) | None => false end.

(** [debug] is [{:?}] of a string. *)
Definition working_claim_target (debug : string -> string) (i : TaskId) (repo : string) : Target + GhError :=
  if negb (String.eqb (Work.source i) "github")
  then inr (Graphql (text ["working claim: task source "; debug (Work.source i); " is not GitHub"]))
  else match split_once "/" repo with
       | None => inr (Graphql (text ["working claim: invalid repository `"; repo; "`"]))
       | Some (owner, name) =>
           match (kn ← rsplit_once "#" (Work.key i); n ← parse_u64 kn.2; Some (kn.1, n)) with
           | None => inr (Graphql (text ["working claim: cannot parse issue number from `"; Work.key i; "`"]))
           | Some (task_repo, number) =>
               if negb (String.eqb task_repo repo)
               then inr (Graphql (text ["working claim: task key repository `"; task_repo;
                                        "` does not match `"; repo; "`"]))
               else inl (mkTarget owner name number)
           end
       end.

Definition repo_of (t : Target) : string * string := (t_owner t, t_name t).

Section client.
Context {R : Type} `{Issues R}.
(** The login the client is authenticated as. *)
Context (user : string) (debug : string -> string).

Definition on_target {A} (i : TaskId) (repo : string) (k : Target -> Request R A) : Request R A :=
  match working_claim_target debug i repo with inl t => k t | inr e => fail e end.

Definition attach_stable_working_label (t : Target) : Request R unit :=
  catch (add_labels t WORKING_LABEL_NAME) (status_in [404; 422])
    (catch (create_label (repo_of t) WORKING_LABEL_NAME) (status_in [422]) (mret tt) ;;
     add_labels t WORKING_LABEL_NAME).

(** ** The sticky comment *)

Definition bears_marker (b : string) : bool := starts_with WORKING_CLAIM_COMMENT_MARKER b.

(** A comment of ours that opens with the marker. *)
Definition is_sticky (c : Comment) : bool :=
  String.eqb (c_login c) user && match c_body c with Some b => bears_marker b | None => false end.

(** [.rev().find(..).and_then(|c| c.body.map(..))] *)
Definition newest_sticky (l : list Comment) : option (Z * string) :=
  c ← List.find is_sticky (rev l); b ← c_body c; Some (c_id c, b).

Definition find_sticky_comment_body (t : Target) : Request R (option (Z * string)) :=
  first ← list_comments t;
  newest ← match first.2 with
            | Some last => page ← get_page t last; mret (default first.1 page)
            | None => mret first.1
            end;
  mret (newest_sticky newest).

Definition find_sticky_comment (t : Target) : Request R (option Z) :=
  found ← find_sticky_comment_body t; mret (fst <$> found).

Definition write_sticky_comment (t : Target) (body : string) (known : option Z) : Request R Z :=
  let search :=
    found ← find_sticky_comment t;
    match found with
    | Some i => update_comment (repo_of t) i body ;; mret i
    | None => create_comment t body
    end in
  match known with
  | Some i => catch (update_comment (repo_of t) i body ;; mret i) (status_in [403; 404; 410]) search
  | None => search
  end.

Definition read_sticky_comment_by_id (t : Target) (i : Z) : Request R (option string) :=
  catch (c ← get_comment (repo_of t) i;
         mret (if negb (String.eqb (c_login c) user) then None
              else b ← c_body c;
                   if bears_marker (trim_start_by whitespace b) then Some b else None))
    (status_in [403; 404; 410]) (mret None).

(** ** The claim *)

Context (stamp rfc3339 : Z -> string) (parse_stamp : string -> option Z).

Definition apply_working_claim (i : TaskId) (repo : string) (note : WorkingClaimNote)
    (known_comment : option Z) (attach_label : bool) : Request R Z :=
  on_target i repo (fun t =>
    (if attach_label then attach_stable_working_label t else mret tt) ;;
    write_sticky_comment t (render stamp rfc3339 note) known_comment).

Definition remove_working_label_target (i : TaskId) (repo : string) : Request R unit :=
  on_target i repo (fun t => catch (remove_label t WORKING_LABEL_NAME) (status_in [404]) (mret tt)).

Inductive WorkingClaimRelease : Type := Released | SupersededBy (by_device by_session : string).

(** [released.released_at = Some(now)], and the start the standing note knew. *)
Definition released_note (note : WorkingClaimNote) (standing : option WorkingClaimNote) (now : Z)
    : WorkingClaimNote :=
  let started := match standing with
                 | Some s => if same_owner s note then started_at s else started_at note
                 | None => started_at note
                 end in
  mkNote (device note) (session note) (workspace note) (agent note) (model note) started
    (heartbeat_at note) (expires_at note) (Some now).

Definition superseding (note : WorkingClaimNote) (standing : option WorkingClaimNote) (now : Z)
    : option WorkingClaimNote :=
  s ← standing; if negb (same_owner s note) && is_active_at s now then Some s else None.

Definition standing_comment (t : Target) (known_comment : option Z) : Request R (option (Z * string)) :=
  match known_comment with
  | Some i => body ← read_sticky_comment_by_id t i; mret ((fun b => (i, b)) <$> body)
  | None => find_sticky_comment_body t
  end.

Definition release_working_claim (i : TaskId) (repo : string) (note : WorkingClaimNote)
    (known_comment : option Z) (now : Z) : Request R WorkingClaimRelease :=
  on_target i repo (fun t =>
    found ← standing_comment t known_comment;
    let standing := found ≫= (fun f => parse parse_stamp f.2) in
    match superseding note standing now with
    | Some s => mret (SupersededBy (device s) (session s))
    | None =>
        match found with
        | Some (c, _) => write_sticky_comment t (render stamp rfc3339 (released_note note standing now)) (Some c) ;; mret tt
        | None => mret tt
        end ;;
        remove_working_label_target i repo ;;
        mret Released
    end).

Definition read_working_claim_note (i : TaskId) (repo : string) : Request R (option WorkingClaimNote) :=
  on_target i repo (fun t =>
    found ← find_sticky_comment_body t; mret (found ≫= fun f => parse parse_stamp f.2)).

Fixpoint delete_claim_labels (repo : string * string) (labels : list string) : Request R unit :=
  match labels with
  | [] => mret tt
  | l :: labels =>
      match parse_label l with
      | None => fail (Graphql "working claim cleanup: refusing malformed or legacy label")
      | Some _ => catch (delete_label repo l) (status_in [404]) (mret tt) ;; delete_claim_labels repo labels
      end
  end.

Definition remove_working_claim_labels_target (i : TaskId) (repo : string) (labels : list string) : Request R unit :=
  match labels with
  | [] => mret tt
  | _ => on_target i repo (fun t => delete_claim_labels (repo_of t) labels)
  end.

End client.

(** ** What GitHub promises

    Reads change nothing, and neither does a request it rejects (a status of the
    four-hundreds); of a write that succeeded the effect is seen on the issue it
    names, and a label that goes takes no comment with it.  A thread of up to a hundred comments is one page, oldest first. *)
Definition rejected (e : GhError) : Prop := exists s, e = Api (Some s) /\ 400 <= s < 500.

Definition with_body (i : Z) (b : string) (c : Comment) : Comment :=
  if (c_id c =? i)%Z then mkComment (c_id c) (c_login c) (Some b) else c.

Definition add_missing (l : list string) (name : string) : list string :=
  if existsb (fun x => eq_ignore_ascii_case x name) l then l else l ++ [name].
Definition without_label (name : string) (l : list string) : list string :=
  List.filter (fun x => negb (eq_ignore_ascii_case x name)) l.

Class IssuesLaws (R : Type) (user : string) `{Issues R} := {
  labels_of : R -> Target -> list string;
  comments_of : R -> Target -> list Comment;
  same_issues (r r' : R) : Prop :=
    (forall t, labels_of r' t = labels_of r t) /\ (forall t, comments_of r' t = comments_of r t);
  list_comments_reads t r : same_issues r (list_comments t r).1;
  get_page_reads t n r : same_issues r (get_page t n r).1;
  get_comment_reads p i r : same_issues r (get_comment p i r).1;
  create_label_ok p l r : same_issues r (create_label p l r).1;
  list_comments_short t r r' x :
    list_comments t r = (r', inl x) -> (length (comments_of r t) <= 100)%nat -> x = (comments_of r t, None);
  get_comment_ok t i r r' c :
    get_comment (repo_of t) i r = (r', inl c) ->
    exists t', repo_of t' = repo_of t /\ c ∈ comments_of r t' /\ c_id c = i;
  add_labels_ok t l r r' :
    add_labels t l r = (r', inl tt) ->
    (forall t', labels_of r' t' = if decide (t' = t) then add_missing (labels_of r t) l else labels_of r t')
    /\ forall t', comments_of r' t' = comments_of r t';
  add_labels_rejected t l r r' e : add_labels t l r = (r', inr e) -> rejected e -> same_issues r r';
  remove_label_ok t l r r' :
    remove_label t l r = (r', inl tt) ->
    (forall t', labels_of r' t' = if decide (t' = t) then without_label l (labels_of r t) else labels_of r t')
    /\ forall t', comments_of r' t' = comments_of r t';
  remove_label_rejected t l r r' e : remove_label t l r = (r', inr e) -> rejected e -> same_issues r r';
  remove_label_scope t l r :
    (forall t', comments_of (remove_label t l r).1 t' = comments_of r t')
    /\ forall t', t' <> t -> labels_of (remove_label t l r).1 t' = labels_of r t';
  delete_label_scope p l r :
    (forall t', comments_of (delete_label p l r).1 t' = comments_of r t')
    /\ forall t', labels_of (delete_label p l r).1 t' = labels_of r t'
                  \/ labels_of (delete_label p l r).1 t' = without_label l (labels_of r t');
  update_comment_ok t i b r r' :
    update_comment (repo_of t) i b r = (r', inl tt) ->
    (exists t' c, repo_of t' = repo_of t /\ c ∈ comments_of r t' /\ c_id c = i)
    /\ (forall t', comments_of r' t'
         = if decide (repo_of t' = repo_of t) then map (with_body i b) (comments_of r t') else comments_of r t')
    /\ forall t', labels_of r' t' = labels_of r t';
  update_comment_rejected p i b r r' e : update_comment p i b r = (r', inr e) -> rejected e -> same_issues r r';
  create_comment_ok t b r r' i :
    create_comment t b r = (r', inl i) ->
    (forall t', comments_of r' t'
       = if decide (t' = t) then comments_of r t ++ [mkComment i user (Some b)] else comments_of r t')
    /\ (forall t' c, c ∈ comments_of r t' -> repo_of t' = repo_of t -> c_id c <> i)
    /\ forall t', labels_of r' t' = labels_of r t';
}.

(** *** In memory

    The issues of one or more repositories and the faults the next requests meet. *)
Record MemIssues : Type := mkMem {
  m_labels : gmap Target (list string);
  m_comments : gmap Target (list Comment);
  m_next : Z;
  m_faults : list (option GhError);
}.

Definition mem_labels (r : MemIssues) (t : Target) : list string := default [] (m_labels r !! t).
Definition mem_comments (r : MemIssues) (t : Target) : list Comment := default [] (m_comments r !! t).

(** The next request fails or is answered by [k]. *)
Definition faulty {A} (k : MemIssues -> MemIssues * (A + GhError)) (r : MemIssues) : MemIssues * (A + GhError) :=
  match m_faults r with
  | [] => k r
  | f :: fs =>
      let r := mkMem (m_labels r) (m_comments r) (m_next r) fs in
      match f with Some e => (r, inr e) | None => k r end
  end.

Definition in_repo (p : string * string) (t : Target) : bool := bool_decide (repo_of t = p).
Definition repo_comments (p : string * string) (r : MemIssues) : list Comment :=
  flat_map (fun tc => if in_repo p tc.1 then tc.2 else []) (map_to_list (m_comments r)).
Definition has_comment (i : Z) (c : Comment) : bool := (c_id c =? i)%Z.

Definition memory_issues (user : string) : Issues MemIssues := {|
  add_labels t l := faulty (fun r =>
    (mkMem (<[t := add_missing (mem_labels r t) l]> (m_labels r)) (m_comments r) (m_next r) (m_faults r), inl tt));
  create_label p l := faulty (fun r => (r, inl tt));
  remove_label t l := faulty (fun r =>
    (mkMem (<[t := without_label l (mem_labels r t)]> (m_labels r)) (m_comments r) (m_next r) (m_faults r), inl tt));
  delete_label p l := faulty (fun r =>
    (mkMem (map_imap (fun t ls => Some (if in_repo p t then without_label l ls else ls)) (m_labels r))
       (m_comments r) (m_next r) (m_faults r), inl tt));
  list_comments t := faulty (fun r =>
    let l := mem_comments r t in
    (r, inl (if (length l <=? 100)%nat then (l, None) else (take 100 l, Some 0))));
  get_page t n := faulty (fun r =>
    let l := mem_comments r t in (r, inl (Some (drop (100 * ((length l - 1) / 100)) l))));
  get_comment p i := faulty (fun r =>
    (r, match List.find (has_comment i) (repo_comments p r) with Some c => inl c | None => inr (Api (Some 404)) end));
  update_comment p i b := faulty (fun r =>
    if existsb (has_comment i) (repo_comments p r)
    then (mkMem (m_labels r)
            (map_imap (fun t cs => Some (if in_repo p t then map (with_body i b) cs else cs)) (m_comments r))
            (m_next r) (m_faults r), inl tt)
    else (r, inr (Api (Some 404))));
  create_comment t b := faulty (fun r =>
    let i := 1 + foldr Z.max (m_next r) (map c_id (repo_comments (repo_of t) r)) in
    (mkMem (m_labels r) (<[t := mem_comments r t ++ [mkComment i user (Some b)]]> (m_comments r)) i (m_faults r), inl i));
|}.
