(* ===== verification/ClaimRemoteProps.v ===== *)
(** * A claim on GitHub is one comment and one label
      ([src/crates/gh-provider/src/client.rs]) *)

From Stdlib Require Import Ascii String.
From S2P Require Import Prelude Text CoreTask WorkingClaim WorkingClaimProps ClaimRemote.
From S2P Require Work.

#[global] Open Scope Z_scope.
#[local] Open Scope string_scope.
#[local] Open Scope list_scope.

(** ** The in-memory issues keep the promises *)

Lemma repo_comments_elem p r c :
  c ∈ repo_comments p r <-> exists t, repo_of t = p /\ c ∈ mem_comments r t.
Proof.
  unfold repo_comments, mem_comments, in_repo. rewrite list_elem_of_In, in_flat_map. split.
  - intros ([t l] & Hin & Hc). exists t. cbn [fst snd] in Hc. case_bool_decide; [|by destruct Hc].
    split; [done|]. apply list_elem_of_In, elem_of_map_to_list in Hin. rewrite Hin. by apply list_elem_of_In.
  - intros (t & Ht & Hc). destruct (m_comments r !! t) as [l|] eqn:E; [|by apply elem_of_nil in Hc].
    exists (t, l). split; [by apply list_elem_of_In, elem_of_map_to_list|]. cbn [fst snd].
    rewrite bool_decide_eq_true_2 by done. by apply list_elem_of_In.
Qed.

Lemma repo_comments_find p r i :
  existsb (has_comment i) (repo_comments p r) = true ->
  exists t c, repo_of t = p /\ c ∈ mem_comments r t /\ c_id c = i.
Proof.
  intros (c & Hin & Hc)%existsb_exists. apply list_elem_of_In, repo_comments_elem in Hin as (t & Ht & Hin).
  exists t, c. apply Z.eqb_eq in Hc. done.
Qed.

Lemma fresh_id l n i : i ∈ l -> i < 1 + foldr Z.max n l.
Proof. induction 1; simpl; lia. Qed.

(** A fault changes no issue, nor does a rejected request. *)
Ltac faulty :=
  cbv [add_labels create_label remove_label delete_label list_comments get_page get_comment update_comment
       create_comment memory_issues faulty] in *;
  intros; repeat match goal with
  | H : context [match ?x with [] => _ | _ => _ end] |- _ => destruct x as [|[]] eqn:?
  | H : context [match ?x with Some _ => _ | None => _ end] |- _ => destruct x eqn:?
  | H : context [if ?b then (mkMem _ _ _ _, _) else _] |- _ => destruct b eqn:?
  | |- context [match m_faults ?x with [] => _ | _ => _ end] => destruct (m_faults x) as [|[]] eqn:?
  end; simplify_eq/=.

#[refine] Definition memory_laws user : @IssuesLaws MemIssues user (memory_issues user) := {|
  labels_of := mem_labels;
  comments_of := mem_comments;
|}.
Proof.
  - faulty; done.
  - faulty; done.
  - faulty; done.
  - faulty; done.
  - intros t r r' x Hl Hs. faulty; rewrite (proj2 (Nat.leb_le _ _)) by done; done.
  - intros t i r r' c Hg. faulty;
      match goal with H : List.find _ _ = Some _ |- _ => apply find_some in H as [Hin Hc] end;
      apply list_elem_of_In, repo_comments_elem in Hin as (t' & Ht & Hin); apply Z.eqb_eq in Hc; by exists t'.
  - intros t l r r' Hl. faulty; (split; [|done]); intros t'; unfold mem_labels; cbn [m_labels];
      (destruct (decide (t' = t)) as [->|]; [by rewrite lookup_insert_eq|by rewrite lookup_insert_ne]).
  - intros t l r r' e Hl He. faulty; done.
  - intros t l r r' Hl. faulty; (split; [|done]); intros t'; unfold mem_labels; cbn [m_labels];
      (destruct (decide (t' = t)) as [->|]; [by rewrite lookup_insert_eq|by rewrite lookup_insert_ne]).
  - intros t l r r' e Hl He. faulty; done.
  - intros t l r. faulty; (split; [done|]); intros t' Ht'; unfold mem_labels; cbn [m_labels]; try done;
      by rewrite lookup_insert_ne.
  - intros p l r. faulty; (split; [done|]); intros t'; unfold mem_labels; cbn [m_labels];
      try (by left); rewrite map_lookup_imap; destruct (m_labels r !! t') eqn:Et; simpl;
      unfold in_repo; repeat case_bool_decide; auto.
  - intros t i b r r' Hu. faulty;
      (split; [match goal with H : existsb _ _ = true |- _ => apply repo_comments_find in H as (t' & c & Ht & Hin & Hc) end;
               exists t', c; done|]); (split; [|done]); intros t'; unfold mem_comments; cbn [m_comments];
      rewrite map_lookup_imap; destruct (m_comments r !! t') eqn:Et; simpl; unfold in_repo;
      repeat case_bool_decide; repeat case_decide; done.
  - intros p i b r r' e Hu He. faulty; done.
  - intros t b r r' i Hc. faulty;
      (split; [intros t'; unfold mem_comments; cbn [m_comments];
               destruct (decide (t' = t)) as [->|]; [by rewrite lookup_insert_eq|by rewrite lookup_insert_ne]|]);
      (split; [|done]); intros t' c Hin Ht' Hid;
      match goal with Hid : c_id c = 1 + foldr Z.max ?n (map c_id (repo_comments ?p ?x)) |- _ =>
        assert (c ∈ repo_comments p x) as Hr by (apply repo_comments_elem; exists t'; done);
        apply (list_elem_of_fmap_2 c_id) in Hr; pose proof (fresh_id (map c_id (repo_comments p x)) n (c_id c) Hr); lia
      end.
Defined.

(** ** The client *)

Section client.
Context {R : Type} (user : string) `{IssuesLaws R user}.
Context (debug : string -> string).
Context (stamp rfc3339 : Z -> string).

Notation find_body := (find_sticky_comment_body user).
Notation write := (write_sticky_comment user).

Lemma same_refl r : same_issues r r.
Proof. by split. Qed.

Lemma same_trans r1 r2 r3 : same_issues r1 r2 -> same_issues r2 r3 -> same_issues r1 r3.
Proof. intros [A B] [C D]. split; intros t; [by rewrite C|by rewrite D]. Qed.

Lemma same_sym r1 r2 : same_issues r1 r2 -> same_issues r2 r1.
Proof. intros [A B]. split; intros t; [by rewrite A|by rewrite B]. Qed.

(** Requests that only read. *)
Definition reads {A} (m : Request R A) : Prop := forall r, same_issues r (m r).1.

Lemma reads_ret {A} (a : A) : reads (mret a).
Proof. intros r. apply same_refl. Qed.

Lemma reads_bind {A B} (m : Request R A) (k : A -> Request R B) :
  reads m -> (forall a, reads (k a)) -> reads (m ≫= k).
Proof.
  intros Hm Hk r. specialize (Hm r). unfold mbind, request_bind. destruct (m r) as [r' [a|e]]; [|done].
  eapply same_trans, Hk. done.
Qed.

Lemma reads_catch {A} (m : Request R A) f k : reads m -> reads k -> reads (catch m f k).
Proof.
  intros Hm Hk r. specialize (Hm r). unfold catch. destruct (m r) as [r' [a|e]]; [done|].
  case_match; [|done]. eapply same_trans, Hk. done.
Qed.

Lemma find_body_reads t : reads (find_body t).
Proof.
  apply reads_bind; [intros r; apply list_comments_reads|]. intros [l [n|]]; (apply reads_bind; [|intros; apply reads_ret]).
  - apply reads_bind; [intros r; apply get_page_reads|]. intros p. apply reads_ret.
  - apply reads_ret.
Qed.

Lemma standing_reads t known : reads (standing_comment user t known).
Proof.
  unfold standing_comment. destruct known as [i|]; [|apply find_body_reads].
  apply reads_bind; [|intros; apply reads_ret]. apply reads_catch; [|apply reads_ret].
  apply reads_bind; [intros r; apply get_comment_reads|]. intros c. apply reads_ret.
Qed.

(** A short thread is searched whole. *)
Lemma find_body_short t r r' x :
  find_body t r = (r', inl x) -> (length (comments_of r t) <= 100)%nat ->
  x = newest_sticky user (comments_of r t) /\ same_issues r r'.
Proof.
  intros Hf Hl. pose proof (find_body_reads t r) as Hr. rewrite Hf in Hr. split; [|done].
  unfold find_sticky_comment_body, mbind, request_bind in Hf.
  destruct (list_comments t r) as [r1 [y|e]] eqn:E; [|done].
  apply list_comments_short in E as ->; [|done]. cbn in Hf. by injection Hf as _ <-.
Qed.

(** *** The claim *)

Definition stickies (l : list Comment) : list Comment := List.filter (is_sticky user) l.
Definition others (l : list Comment) : list Comment := List.filter (fun c => negb (is_sticky user c)) l.

Lemma no_stickies l : stickies l = [] <-> Forall (fun c => is_sticky user c = false) l.
Proof.
  unfold stickies. induction l as [|c l IH]; simpl; [split; [constructor|done]|]. rewrite Forall_cons.
  destruct (is_sticky user c) eqn:E; [split; [done|by intros [? _]]|]. rewrite IH. naive_solver.
Qed.

(** The one sticky comment of a thread that has one at most. *)
Lemma one_sticky l c :
  (length (stickies l) <= 1)%nat -> c ∈ l -> is_sticky user c = true ->
  exists l1 l2, l = l1 ++ c :: l2 /\ stickies l1 = [] /\ stickies l2 = [].
Proof.
  intros Hl Hin Hc. apply list_elem_of_split in Hin as (l1 & l2 & ->). exists l1, l2. split; [done|].
  unfold stickies in *. rewrite List.filter_app, length_app in Hl. cbn [List.filter] in Hl. rewrite Hc in Hl.
  cbn [length] in Hl. split; apply length_zero_iff_nil; lia.
Qed.

Lemma with_body_others i b l :
  (forall c, c ∈ l -> c_id c <> i) -> map (with_body i b) l = l.
Proof.
  induction l as [|c l IH]; intros Hn; [done|]. cbn [map]. rewrite IH by set_solver. f_equal.
  unfold with_body. destruct (Z.eqb_spec (c_id c) i) as [E|]; [|done]. exfalso. apply (Hn c); [left|done].
Qed.

Lemma update_sticky l c b :
  (length (stickies l) <= 1)%nat -> c ∈ l -> is_sticky user c = true -> bears_marker b = true ->
  (forall d, d ∈ l -> c_id d = c_id c -> d = c) ->
  stickies (map (with_body (c_id c) b) l) = [mkComment (c_id c) user (Some b)]
  /\ others (map (with_body (c_id c) b) l) = others l.
Proof.
  intros Hl Hin Hc Hb Hid. destruct (one_sticky l c Hl Hin Hc) as (l1 & l2 & -> & H1 & H2).
  assert (c_login c = user) as Hlog.
  { unfold is_sticky in Hc. apply andb_true_iff in Hc as [Hc _]. by apply String.eqb_eq in Hc. }
  assert (is_sticky user (mkComment (c_id c) user (Some b)) = true) as Hnew
    by (unfold is_sticky; simpl; by rewrite String.eqb_refl, Hb).
  assert (forall l', Forall (fun d => is_sticky user d = false) l' -> (forall d, d ∈ l' -> d ∈ l1 ++ c :: l2) ->
    map (with_body (c_id c) b) l' = l') as Hm.
  { intros l' Hf Hs. apply with_body_others. intros d Hd Hdid. rewrite (Hid d (Hs d Hd) Hdid) in Hd.
    rewrite Forall_forall in Hf. specialize (Hf c Hd). congruence. }
  rewrite map_app. cbn [map].
  apply no_stickies in H1 as H1', H2 as H2'. rewrite (Hm l1), (Hm l2) by (done || set_solver).
  unfold with_body at 1 2. rewrite Z.eqb_refl, Hlog. unfold stickies, others in *.
  rewrite !List.filter_app, H1. cbn [List.filter]. rewrite Hnew, Hc, H2. done.
Qed.

Lemma newest_sticky_Some l i b :
  newest_sticky user l = Some (i, b) -> exists c, c ∈ l /\ is_sticky user c = true /\ c_id c = i.
Proof.
  unfold newest_sticky. destruct (List.find (is_sticky user) (rev l)) as [c|] eqn:E; [|done].
  apply find_some in E as [Hin Hc]. cbn. intros Hb. destruct (c_body c); [|done]. injection Hb as <- _.
  exists c. split; [|done]. apply list_elem_of_In, in_rev. done.
Qed.

Lemma newest_sticky_None l : newest_sticky user l = None -> stickies l = [].
Proof.
  unfold newest_sticky. destruct (List.find (is_sticky user) (rev l)) as [c|] eqn:E.
  - apply find_some in E as [_ Hc]. unfold is_sticky in Hc. cbn.
    destruct (c_body c); [done|]. by rewrite andb_false_r in Hc.
  - intros _. apply no_stickies, Forall_forall. intros c Hc. apply (find_none _ _ E).
    apply in_rev. rewrite rev_involutive. by apply list_elem_of_In.
Qed.

(** Within the repository an id names one comment. *)
Definition ids_unique (r : R) (t : Target) : Prop :=
  forall t1 t2 c1 c2, repo_of t1 = repo_of t -> repo_of t2 = repo_of t ->
    c1 ∈ comments_of r t1 -> c2 ∈ comments_of r t2 -> c_id c1 = c_id c2 -> t1 = t2 /\ c1 = c2.

(** The issue [t] between [r] and [r']: one sticky comment, the rest as it was. *)
Definition one_comment (t : Target) (i : Z) (b : string) (r r' : R) : Prop :=
  stickies (comments_of r' t) = [mkComment i user (Some b)]
  /\ others (comments_of r' t) = others (comments_of r t)
  /\ (forall t', t' <> t -> comments_of r' t' = comments_of r t')
  /\ forall t', labels_of r' t' = labels_of r t'.

Lemma update_one_comment t c b r r' :
  update_comment (repo_of t) (c_id c) b r = (r', inl tt) -> ids_unique r t ->
  (length (stickies (comments_of r t)) <= 1)%nat -> c ∈ comments_of r t -> is_sticky user c = true ->
  bears_marker b = true -> one_comment t (c_id c) b r r'.
Proof.
  intros (_ & Hcs & Hls)%update_comment_ok Hu Hl Hin Hc Hb.
  destruct (update_sticky (comments_of r t) c b Hl Hin Hc Hb) as [H1 H2].
  { intros d Hd Hid. by apply (Hu t t d c). }
  unfold one_comment. rewrite Hcs, decide_True by done. split_and!; [done|done| |done].
  intros t' Ht'. rewrite Hcs. case_decide; [|done]. apply with_body_others. intros d Hd Hid.
  apply Ht'. by destruct (Hu t' t d c).
Qed.

Lemma search_one_comment t b r r' n :
  (found ← find_sticky_comment user t;
   match found with
   | Some i => update_comment (repo_of t) i b;; mret i
   | None => create_comment t b
   end) r = (r', inl n) ->
  ids_unique r t -> (length (comments_of r t) <= 100)%nat ->
  (length (stickies (comments_of r t)) <= 1)%nat -> bears_marker b = true ->
  one_comment t n b r r'.
Proof.
  intros Hrun Hu Hlen Hl Hb. unfold find_sticky_comment in Hrun. unfold mbind at 1, request_bind at 1 in Hrun.
  unfold mbind at 1, request_bind at 1 in Hrun.
  destruct (find_body t r) as [r1 [x|e]] eqn:Ef; [|done].
  apply find_body_short in Ef as [-> Hs]; [|done]. cbn in Hrun.
  assert (forall x, comments_of r1 x = comments_of r x) as Hc1 by apply Hs.
  assert (one_comment t n b r1 r') as Ho.
  2: { destruct Ho as (A & B & C & D). destruct Hs as [Hs1 Hs2].
       unfold one_comment. rewrite <- Hc1. split_and!; [done|done| |].
       - intros t' Ht'. by rewrite C, Hc1.
       - intros t'. by rewrite D, Hs1. }
  assert (ids_unique r1 t) as Hu1 by (intros t1 t2 c1 c2; rewrite !Hc1; apply Hu).
  destruct (newest_sticky user (comments_of r t)) as [[i b']|] eqn:En.
  - apply newest_sticky_Some in En as (c & Hin & Hc & <-). cbn in Hrun.
    unfold mbind, request_bind in Hrun.
    destruct (update_comment (repo_of t) (c_id c) b r1) as [r2 [[]|e]] eqn:Eu; [|done]. injection Hrun as <- <-.
    apply update_one_comment; rewrite ?Hc1; done.
  - apply newest_sticky_None in En. cbn in Hrun. apply create_comment_ok in Hrun as (Hcs & _ & Hls).
    assert (is_sticky user (mkComment n user (Some b)) = true) as Hnew
      by (unfold is_sticky; simpl; by rewrite String.eqb_refl, Hb).
    unfold one_comment. rewrite Hcs, decide_True by done. rewrite Hc1. unfold stickies, others in *.
    rewrite !List.filter_app, En. cbn [List.filter]. rewrite Hnew. cbn [negb]. rewrite app_nil_r.
    split_and!; [done|done| |done]. intros t' Ht'. by rewrite Hcs, decide_False.
Qed.

Lemma rejected_status l e : (forall s, s ∈ l -> 400 <= s < 500) -> status_in l e = true -> rejected e.
Proof.
  intros Hl. unfold status_in, gh_error_status. destruct e as [[s|]| | |]; try done.
  case_bool_decide as Hs; [|done]. intros _. exists s. by split; [|apply Hl].
Qed.

Lemma write_one_comment t b known r r' n :
  write t b known r = (r', inl n) ->
  ids_unique r t -> (length (comments_of r t) <= 100)%nat ->
  (length (stickies (comments_of r t)) <= 1)%nat -> bears_marker b = true ->
  (forall k t' c, known = Some k -> repo_of t' = repo_of t -> c ∈ comments_of r t' -> c_id c = k ->
     t' = t /\ is_sticky user c = true) ->
  one_comment t n b r r'.
Proof.
  intros Hw Hu Hlen Hl Hb Hk. unfold write_sticky_comment in Hw.
  destruct known as [k|]; [|by apply search_one_comment].
  unfold catch in Hw. unfold mbind at 1, request_bind at 1 in Hw.
  destruct (update_comment (repo_of t) k b r) as [r1 [[]|e]] eqn:Eu.
  - injection Hw as <- <-. pose proof (update_comment_ok t k b r r1 Eu) as ((t' & c & Ht' & Hin & Hid) & _).
    destruct (Hk k t' c eq_refl Ht' Hin Hid) as [-> Hc]. subst k. by apply update_one_comment.
  - destruct (status_in [403; 404; 410] e) eqn:Es; [|done].
    assert (rejected e) as Hrej.
    { apply (rejected_status [403; 404; 410]); [|done]. intros s. rewrite !elem_of_cons, elem_of_nil. lia. }
    pose proof (update_comment_rejected _ _ _ _ _ _ Eu Hrej) as Hs.
    assert (forall x, comments_of r1 x = comments_of r x) as Hc1 by apply Hs.
    assert (one_comment t n b r1 r') as (A & B & C & D).
    { apply search_one_comment; rewrite ?Hc1; try done. intros t1 t2 c1 c2. rewrite !Hc1. apply Hu. }
    destruct Hs as [Hs1 Hs2]. unfold one_comment. rewrite <- Hc1. split_and!; [done|done| |].
    + intros t' Ht'. by rewrite C, Hc1.
    + intros t'. by rewrite D, Hs1.
Qed.

Lemma add_missing_has l name : existsb (fun x => eq_ignore_ascii_case x name) (add_missing l name) = true.
Proof.
  unfold add_missing. destruct (existsb _ l) eqn:E; [done|]. rewrite existsb_app. simpl.
  unfold eq_ignore_ascii_case. by rewrite String.eqb_refl, orb_true_r.
Qed.

(** What attaching the label leaves: comments alone, the label on the issue. *)
Lemma attach_labels t r r' :
  attach_stable_working_label t r = (r', inl tt) ->
  (forall t', comments_of r' t' = comments_of r t')
  /\ forall t', labels_of r' t' = if decide (t' = t) then add_missing (labels_of r t) WORKING_LABEL_NAME else labels_of r t'.
Proof.
  unfold attach_stable_working_label, catch at 1. destruct (add_labels t WORKING_LABEL_NAME r) as [r1 [[]|e]] eqn:Ea.
  - intros [= <-]. by apply add_labels_ok in Ea as [? ?].
  - destruct (status_in [404; 422] e) eqn:Es; [|done].
    assert (rejected e) as Hrej.
    { apply (rejected_status [404; 422]); [|done]. intros s. rewrite !elem_of_cons, elem_of_nil. lia. }
    pose proof (add_labels_rejected _ _ _ _ _ Ea Hrej) as [H1 H2].
    unfold mbind, request_bind, catch. pose proof (create_label_ok (repo_of t) WORKING_LABEL_NAME r1) as [H3 H4].
    destruct (create_label (repo_of t) WORKING_LABEL_NAME r1) as [r2 [[]|e2]]; cbn [fst] in H3, H4.
    + intros [Hl Hc]%add_labels_ok. split; intros t'; [by rewrite Hc, H4, H2|]. rewrite Hl, !H3, !H1. done.
    + destruct (status_in [422] e2); [|done]. cbn. intros [Hl Hc]%add_labels_ok.
      split; intros t'; [by rewrite Hc, H4, H2|]. rewrite Hl, !H3, !H1. done.
Qed.

Lemma render_bears_marker n : bears_marker (render stamp rfc3339 n) = true.
Proof. unfold bears_marker, starts_with, render. cbn [app]. rewrite text_cons. by rewrite strip_prefix_app. Qed.

(** A thread as the client keeps it: short, with one claim comment of ours at most, the
    one remembered if it is still there. *)
Definition thread_ok (r : R) (t : Target) (known : option Z) : Prop :=
  ids_unique r t /\ (length (comments_of r t) <= 100)%nat /\ (length (stickies (comments_of r t)) <= 1)%nat
  /\ forall k t' c, known = Some k -> repo_of t' = repo_of t -> c ∈ comments_of r t' -> c_id c = k ->
       t' = t /\ is_sticky user c = true.

Lemma apply_one_comment i repo note known attach t r r' n :
  working_claim_target debug i repo = inl t ->
  apply_working_claim user debug stamp rfc3339 i repo note known attach r = (r', inl n) ->
  thread_ok r t known ->
  stickies (comments_of r' t) = [mkComment n user (Some (render stamp rfc3339 note))]
  /\ others (comments_of r' t) = others (comments_of r t)
  /\ (forall t', t' <> t -> comments_of r' t' = comments_of r t' /\ labels_of r' t' = labels_of r t')
  /\ labels_of r' t = (if attach then add_missing (labels_of r t) WORKING_LABEL_NAME else labels_of r t).
Proof.
  intros Ht Hrun (Hu & Hlen & Hl & Hk). unfold apply_working_claim, on_target in Hrun. rewrite Ht in Hrun.
  unfold mbind, request_bind in Hrun.
  destruct ((if attach then attach_stable_working_label t else mret tt) r) as [r1 [[]|e]] eqn:Ea; [|done].
  assert ((forall t', comments_of r1 t' = comments_of r t')
    /\ forall t', labels_of r1 t' = if attach then (if decide (t' = t) then add_missing (labels_of r t) WORKING_LABEL_NAME
                                                   else labels_of r t') else labels_of r t') as [Hc1 Hl1].
  { destruct attach; [exact (attach_labels _ _ _ Ea)|]. unfold mret, request_ret in Ea. by injection Ea as <-. }
  assert (one_comment t n (render stamp rfc3339 note) r1 r') as (A & B & C & D).
  { eapply write_one_comment; [exact Hrun|..]; rewrite ?Hc1; try done.
    - intros t1 t2 c1 c2. rewrite !Hc1. apply Hu.
    - intros k t' c. rewrite Hc1. apply Hk. }
  rewrite <- (Hc1 t). split_and!; [done|done| |].
  - intros t' Ht'. rewrite C by done. rewrite D, Hc1, Hl1. split; [done|]. destruct attach; [|done]. by rewrite decide_False.
  - rewrite D, Hl1. destruct attach; [|done]. by rewrite decide_True.
Qed.

(** A claim is one comment and one label.  On a thread of up to a hundred comments
    with at most one claim comment of ours, a heartbeat that succeeds leaves exactly
    one, with the text of the lease, whether it edited the remembered one, found one
    or posted it; no other comment changes, here or elsewhere, and of the labels only
    [working] is added, on this issue, if it was to be attached. *)
Theorem a_claim_is_one_comment i repo note known attach t r r' n :
  working_claim_target debug i repo = inl t ->
  apply_working_claim user debug stamp rfc3339 i repo note known attach r = (r', inl n) ->
  thread_ok r t known ->
  stickies (comments_of r' t) = [mkComment n user (Some (render stamp rfc3339 note))]
  /\ others (comments_of r' t) = others (comments_of r t)
  /\ (forall t', t' <> t -> comments_of r' t' = comments_of r t' /\ labels_of r' t' = labels_of r t')
  /\ labels_of r' t = (if attach then add_missing (labels_of r t) WORKING_LABEL_NAME else labels_of r t).
Proof. apply apply_one_comment. Qed.

(** *** Release *)

Context (parse_stamp : string -> option Z).

(** A release never cancels another lease it can see: when the claim comment -- the
    one remembered, or the newest of ours -- carries a lease of another holder that is
    still live, the release changes no issue and names that holder. *)
Theorem a_release_spares_a_live_lease i repo note known now t r r1 c body s :
  working_claim_target debug i repo = inl t ->
  standing_comment user t known r = (r1, inl (Some (c, body))) ->
  parse parse_stamp body = Some s -> same_owner s note = false -> is_active_at s now = true ->
  let '(r', res) := release_working_claim user debug stamp rfc3339 parse_stamp i repo note known now r in
  same_issues r r' /\ res = inl (SupersededBy (device s) (session s)).
Proof.
  intros Ht Hst Hp Ho Ha. unfold release_working_claim, on_target. rewrite Ht.
  pose proof (standing_reads t known r) as Hr. rewrite Hst in Hr.
  unfold mbind, request_bind. rewrite Hst. cbn [option_bind mbind]. cbn. rewrite Hp. unfold superseding. cbn.
  rewrite Ho, Ha. by split.
Qed.

End client.

(** ** Witnesses *)

Section witnesses.

#[local] Existing Instance memory_laws.
#[local] Instance bot_issues : Issues MemIssues := memory_issues "bot".

Definition sample_issue : TaskId := Work.mkTaskId "github" "o/r#7".
Definition sample_target : Target := mkTarget "o" "r" 7.
Definition note_of (box session : string) (now : Z) : WorkingClaimNote :=
  mkNote box session None None None (secs now) (secs now) (secs (now + 3600)) None.

Notation claims := (apply_working_claim "bot" Datatypes.id example_format example_format).
Notation releases := (release_working_claim "bot" Datatypes.id example_format example_format example_parse).

Definition no_issues : MemIssues := mkMem ∅ ∅ 0 [].

Lemma no_issues_ok t : @thread_ok _ "bot" (memory_issues "bot") (memory_laws "bot") no_issues t None.
Proof.
  assert (forall t', mem_comments no_issues t' = []) as Hn by done.
  split_and!; cbn [comments_of memory_laws]; rewrite ?Hn; simpl; try lia.
  - intros t1 t2 c1 c2 _ _. cbn [comments_of memory_laws]. rewrite Hn. by intros ?%elem_of_nil.
  - done.
Qed.

Lemma a_claim_is_one_comment_witness :
  exists r' n, claims sample_issue "o/r" (note_of "aa" "11" 1000) None true no_issues = (r', inl n)
    /\ stickies "bot" (mem_comments r' sample_target)
       = [mkComment n "bot" (Some (render example_format example_format (note_of "aa" "11" 1000)))].
Proof.
  assert (exists n, (claims sample_issue "o/r" (note_of "aa" "11" 1000) None true no_issues).2 = inl n) as [n Hn]
    by (eexists; vm_compute; reflexivity).
  destruct (claims sample_issue "o/r" (note_of "aa" "11" 1000) None true no_issues) as [r' res] eqn:E.
  cbn [snd] in Hn. rewrite Hn in E. exists r', n. split; [exact (eq_trans (eq_sym (eq_refl _)) (f_equal (pair r') Hn))|].
  exact (proj1 (a_claim_is_one_comment "bot" Datatypes.id example_format example_format sample_issue "o/r"
    (note_of "aa" "11" 1000) None true sample_target no_issues r' n eq_refl E (no_issues_ok sample_target))).
Defined.

Definition held_by_bb : MemIssues :=
  mkMem {[sample_target := ["working"]]}
    {[sample_target := [mkComment 1 "bot" (Some (render example_format example_format (note_of "bb" "22" 1300)))]]} 1 [].

Lemma a_release_spares_a_live_lease_witness :
  (releases sample_issue "o/r" (note_of "aa" "11" 1000) None (secs 2000) held_by_bb).2
  = inl (SupersededBy "bb" "22").
Proof.
  assert (standing_comment "bot" sample_target None held_by_bb
    = (held_by_bb, inl (Some (1, render example_format example_format (note_of "bb" "22" 1300))))) as Hst
    by (vm_compute; reflexivity).
  assert (parse example_parse (render example_format example_format (note_of "bb" "22" 1300))
    = Some (note_of "bb" "22" 1300)) as Hp by (vm_compute; reflexivity).
  pose proof (a_release_spares_a_live_lease "bot" Datatypes.id example_format example_format example_parse
    sample_issue "o/r" (note_of "aa" "11" 1000) None (secs 2000) sample_target held_by_bb held_by_bb 1
    (render example_format example_format (note_of "bb" "22" 1300)) (note_of "bb" "22" 1300)
    eq_refl Hst Hp eq_refl eq_refl) as Hr.
  destruct (releases sample_issue "o/r" (note_of "aa" "11" 1000) None (secs 2000) held_by_bb) as [r' res].
  exact (proj2 Hr).
Defined.

(** *** Two boxes on one issue

    Box [aa] claims, box [bb] claims after it, [aa] renews -- which rewrites the comment
    -- and lets go: the comment was its own again, so the shared label comes off while
    the lease of [bb] is live. *)
Definition two_boxes : Request MemIssues WorkingClaimRelease :=
  (_ ← claims sample_issue "o/r" (note_of "aa" "11" 1000) None true;
   b ← claims sample_issue "o/r" (note_of "bb" "22" 1300) None false;
   a ← claims sample_issue "o/r" (note_of "aa" "11" 1900) None false;
   releases sample_issue "o/r" (note_of "aa" "11" 1900) (Some a) (secs 2000)).

Example a_renewal_takes_over_the_comment :
  let '(r, res) := two_boxes no_issues in
  match res with
  | inl Released => negb (existsb (String.eqb "working") (mem_labels r sample_target))
                    && is_active_at (note_of "bb" "22" 1300) (secs 2000)
  | _ => false
  end = true.
Proof. vm_compute. reflexivity. Qed.

End witnesses.
