(* ===== verification/ClaimLease.v ===== *)
(** * Leases of working claims ([src/crates/server/src/working_claims.rs])

    One durable record per agent that holds a task: acquired when the agent starts,
    renewed upstream while it lives, released when it is gone, and the sweeps that
    retire what other builds and other boxes left behind.  Operations of one holder are
    serialized by its lock; each is a function on the daemon's state, which holds the
    store, the workspace rows, GitHub, and the notices shown.

    Rows that do not decode are absent from [rows].  The lock map and its pruning, the
    wake of the poller and log lines are left out, and so is the backstop on the lock
    of a row: a projection that gives up there is one that [commits] refuses. *)

From Stdlib Require Import Ascii String.
From S2P Require Import Prelude Text CoreTask WorkStore WorkingClaim ClaimRemote WorkspaceRow.
From S2P Require Work ProviderOps.

#[global] Open Scope Z_scope.
#[local] Open Scope string_scope.
#[local] Open Scope list_scope.

Definition CLAIM_KEY_PREFIX : string := "terminal-working-claim:".
Definition WORKING_CLAIM_HEARTBEAT : Z := secs (15 * 60).
Definition WORKING_CLAIM_TTL : Z := secs (60 * 60).
Definition TRANSIENT_ERROR_DEBOUNCE : Z := secs (60 * 60).

Inductive ClaimHolder : Type := Pty (backend_key : string) | Structured (run : string).

#[export] Instance ClaimHolder_eq_dec : EqDecision ClaimHolder.
Proof. solve_decision. Defined.

Definition holder_id (h : ClaimHolder) : string := match h with Pty k => k | Structured k => k end.
Definition storage_key (h : ClaimHolder) : string := CLAIM_KEY_PREFIX +:+ holder_id h.

Record WorkingClaimTarget : Type := mkClaimTarget { tg_id : TaskId; tg_repo : string }.

Definition target_of (t : Task) : option WorkingClaimTarget := r ← repo t; Some (mkClaimTarget (id t) r).

Record WorkingClaimRecord : Type := mkLease {
  holder : ClaimHolder;
  workspace_key : string;
  session_id : option Z;
  claim_session : Work.uuid;
  owner_id : string;
  target : WorkingClaimTarget;
  legacy_label : option string;
  lease_started_at : option Z;
  claim_comment_id : option Z;
  lease_agent : option string;
  lease_model : option string;
  lease_expires_at : Z;
  applied : bool;
}.

Definition eta_lease (l : WorkingClaimRecord) : WorkingClaimRecord :=
  mkLease (holder l) (workspace_key l) (session_id l) (claim_session l) (owner_id l) (target l) (legacy_label l)
    (lease_started_at l) (claim_comment_id l) (lease_agent l) (lease_model l) (lease_expires_at l) (applied l).

Definition set_legacy (v : option string) (l : WorkingClaimRecord) : WorkingClaimRecord := ltac:(upd eta_lease legacy_label v l).
Definition set_comment (v : option Z) (l : WorkingClaimRecord) : WorkingClaimRecord := ltac:(upd eta_lease claim_comment_id v l).
Definition set_agent (v : option string) (l : WorkingClaimRecord) : WorkingClaimRecord := ltac:(upd eta_lease lease_agent v l).
Definition set_model (v : option string) (l : WorkingClaimRecord) : WorkingClaimRecord := ltac:(upd eta_lease lease_model v l).
Definition set_expires (v : Z) (l : WorkingClaimRecord) : WorkingClaimRecord := ltac:(upd eta_lease lease_expires_at v l).
Definition set_applied (v : bool) (l : WorkingClaimRecord) : WorkingClaimRecord := ltac:(upd eta_lease applied v l).

(** ** The lease *)

(** The soonest end a fresh lease may have. *)
Definition refresh_at (now : Z) : Z := now + (WORKING_CLAIM_TTL - WORKING_CLAIM_HEARTBEAT).

Definition needs_heartbeat (l : WorkingClaimRecord) (now : Z) : bool :=
  negb (applied l) || (lease_expires_at l <=? refresh_at now)%Z
  || match legacy_label l with Some _ => true | None => false end.

(** The record and whether there is upstream work to do. *)
Definition prepare_heartbeat (now : Z) (l : WorkingClaimRecord) : WorkingClaimRecord * bool :=
  if negb (needs_heartbeat l now) then (l, false)
  else if negb (applied l) && (refresh_at now <? lease_expires_at l)%Z
          && match legacy_label l with None => true | Some _ => false end
  then (l, true)
  else (set_applied false (set_expires (now + WORKING_CLAIM_TTL) l), true).

Section identity.
Context (simple : Work.uuid -> string).

Definition new_lease (h : ClaimHolder) (ws : string) (session : option Z) (owner : string)
    (t : WorkingClaimTarget) (claim : Work.uuid) (now : Z) : option WorkingClaimRecord :=
  _ ← working_claim_identity simple owner claim;
  Some (mkLease h ws session claim owner t None (Some now) None None None (now + WORKING_CLAIM_TTL) false).

Definition identity (l : WorkingClaimRecord) : option (string * string) :=
  working_claim_identity simple (owner_id l) (claim_session l).

Definition lease_note (now : Z) (l : WorkingClaimRecord) : option WorkingClaimNote :=
  who ← identity l;
  Some (mkNote who.1 who.2 (Some (workspace_key l)) (lease_agent l) (lease_model l)
          (default now (lease_started_at l)) now (lease_expires_at l) None).
End identity.

(** ** The daemon *)

Inductive Notice : Type := Permanent (message : string) | Retryable (message : string).

Record Daemon (S R : Type) : Type := mkDaemon {
  store : S;
  rows : gmap string Workspace;
  hub : R;
  notices : list Notice;
  reports : gmap string Z;
}.
Arguments mkDaemon {S R}. Arguments store {S R}. Arguments rows {S R}. Arguments hub {S R}.
Arguments notices {S R}. Arguments reports {S R}.

Definition put_store {S R} (v : S) (d : Daemon S R) : Daemon S R := mkDaemon v (rows d) (hub d) (notices d) (reports d).
Definition put_rows {S R} v (d : Daemon S R) : Daemon S R := mkDaemon (store d) v (hub d) (notices d) (reports d).
Definition put_hub {S R} (v : R) (d : Daemon S R) : Daemon S R := mkDaemon (store d) (rows d) v (notices d) (reports d).
Definition put_reports {S R} v (d : Daemon S R) : Daemon S R := mkDaemon (store d) (rows d) (hub d) (notices d) v.
Definition notify {S R} n (d : Daemon S R) : Daemon S R :=
  mkDaemon (store d) (rows d) (hub d) (notices d ++ [n]) (reports d).

(** An entry of the terminal registry, as far as a claim reads it. *)
Record TerminalView : Type := mkView { v_backend_key : option string; v_agent : option string; v_model : option string }.

(** What an operation finds: its settings, the client that could be resolved, the
    registry, the monotonic clock, and which writes of a row the store takes. *)
Record Env : Type := mkEnv {
  working_claims_enabled : bool;
  working_claim_owner_id : string;
  client : unit + string;
  registry : list TerminalView;
  instant : Z;
  commits : string -> Workspace -> bool;
}.

Inductive ClaimRelease : Type := Project | WorkspaceLockHeld.
Inductive ClaimIntent : Type := Hold (now : Z) | Release (now : Z).

(** [Task::has_stable_working_claim] and [Task::expired_working_claim_labels] *)
Definition has_label (t : Task) (name : string) : bool := existsb (fun l => eq_ignore_ascii_case l name) (labels t).
Definition has_stable_working_claim (t : Task) : bool :=
  String.eqb (Work.source (id t)) "github" && has_label t WORKING_LABEL_NAME.
Definition expired_working_claim_labels (t : Task) (now : Z) : list string :=
  if negb (String.eqb (Work.source (id t)) "github") then []
  else map q_label (List.filter (fun c => negb (claim_active_at c now)) (omap parse_label (labels t))).

(** Whether a label stays through a projection. *)
Definition stays (who : string * string) (legacy : option string) (l : string) : bool :=
  negb (eq_ignore_ascii_case l WORKING_LABEL_NAME)
  && negb (match legacy with Some stale => String.eqb stale l | None => false end)
  && match parse_label l with
     | None => true
     | Some c => negb (String.eqb (q_device c) who.1) || negb (String.eqb (q_session c) who.2)
     end.

Definition project_labels (who : string * string) (legacy : option string) (claimed : bool) (t : Task) : Task :=
  ProviderOps.set_labels (List.filter (stays who legacy) (labels t)
                   ++ (if claimed then [WORKING_LABEL_NAME] else [])) t.

Definition project_identity (i : TaskId) (who : string * string) (legacy : option string) (claimed : bool)
    (w : Workspace) : Workspace := update_task i (project_labels who legacy claimed) w.

(** [rotate_left] by the number of the cycle. *)
Definition rotate_for_fairness {A} (records : list A) (cycle : nat) : list A :=
  match records with
  | [] => []
  | _ => let start := (cycle mod length records)%nat in drop start records ++ take start records
  end.

(** The agent of a live terminal. *)
Definition observe_agent (env : Env) (h : ClaimHolder) : option (string * option string) :=
  match h with
  | Structured _ => None
  | Pty k =>
      find_map (fun v => if bool_decide (v_backend_key v = Some k)
                         then a ← v_agent v; Some (a, v_model v) else None) (registry env)
  end.

Definition failed_message (action ws reason : string) : string :=
  text ["agent coordination failed: could not "; action; " working claim on "; ws; ": "; reason].
Definition degraded_message (action ws reason : string) : string :=
  text ["agent coordination degraded: could not "; action; " working claim on "; ws; ": "; reason;
        " (retrying automatically)"].

Definition emit_error {S R} (ws action reason : string) (d : Daemon S R) : Daemon S R :=
  notify (Permanent (failed_message action ws reason)) d.

Definition emit_transient_error {S R} (env : Env) (ws action reason : string) (d : Daemon S R) : Daemon S R :=
  let debounce_key := text [ws; ":"; action] in
  let report d := notify (Retryable (degraded_message action ws reason))
                    (put_reports (<[debounce_key := instant env]> (reports d)) d) in
  match reports d !! debounce_key with
  | Some last => if (instant env - last <? TRANSIENT_ERROR_DEBOUNCE)%Z then d else report d
  | None => report d
  end.

Definition TIMED_OUT : string :=
  "claim sync timed out after 20s (GitHub slow, or throttled behind lazybox's rate budget)".
Definition EXPIRY_TIMED_OUT : string :=
  "claim expiry timed out after 20s (GitHub slow, or throttled behind lazybox's rate budget)".
Definition MALFORMED : string := "the persisted claim identity is malformed".

Section daemon.
Context {S Raw R : Type} `{Store S Raw} `{Issues R}.
(** serde, the texts of errors, uuids and times, and the daemon's login. *)
Context (encode : WorkingClaimRecord -> Raw) (decode : Raw -> option WorkingClaimRecord) (bad_json : string).
Context (show_store : StoreError -> string) (show_gh : GhError -> string) (debug : string -> string).
Context (simple : Work.uuid -> string).
Context (stamp rfc3339 : Z -> string) (parse_stamp : string -> option Z).
Context (user : string).

Definition State : Type := Daemon S R.

Definition persist_record (l : WorkingClaimRecord) (d : State) : State + string :=
  match set_kv (store d) (storage_key (holder l)) (encode l) with
  | inl s => inl (put_store s d)
  | inr e => inr (show_store e)
  end.

Definition load_record (key : string) (d : State) : option WorkingClaimRecord + string :=
  match get_kv (store d) key with
  | inr e => inr (show_store e)
  | inl None => inl None
  | inl (Some raw) => match decode raw with Some l => inl (Some l) | None => inr bad_json end
  end.

Definition list_records (d : State) : list WorkingClaimRecord + string :=
  match list_kv_prefix (store d) CLAIM_KEY_PREFIX with
  | inr e => inr (show_store e)
  | inl kvs => inl (omap (fun kv => decode kv.2) kvs)
  end.

Definition records_or_none (d : State) : list WorkingClaimRecord :=
  match list_records d with inl l => l | inr _ => [] end.

Definition locally_held_claims (owner : string) (d : State) : list (string * string) :=
  omap (identity simple) (List.filter (fun l => String.eqb (owner_id l) owner) (records_or_none d)).

(** One request of the client, with its requests to GitHub. *)
Definition call {A} (m : Request R A) (d : State) : State * (A + GhError) :=
  let '(r, res) := m (hub d) in (put_hub r d, res).

Definition reason (timed_out : string) (e : GhError) : string :=
  match e with Cut => timed_out | e => show_gh e end.

(** [apply_and_commit] of [polling/mutate.rs] *)
Definition apply_and_commit (env : Env) (key : string) (f : Workspace -> Workspace) (d : State) : State :=
  match rows d !! key with
  | Some w => if commits env key (f w) then put_rows (<[key := f w]> (rows d)) d else d
  | None => d
  end.

Definition stable_label_attached (l : WorkingClaimRecord) (d : State) : bool :=
  match w ← rows d !! workspace_key l; task_by_id w (tg_id (target l)) with
  | Some t => has_stable_working_claim t
  | None => false
  end.

Definition project_synced_claim (env : Env) (l : WorkingClaimRecord) (claimed : bool) (who : string * string)
    (mode : ClaimRelease) (d : State) : State :=
  match mode with
  | WorkspaceLockHeld => d
  | Project =>
      apply_and_commit env (workspace_key l)
        (project_identity (tg_id (target l)) who (legacy_label l) claimed) d
  end.

(** The mutation a sync asks for: the record, and what the row should say. *)
Definition mutate_remote (intent : ClaimIntent) (note : WorkingClaimNote) (l : WorkingClaimRecord) (d : State)
    : State * (WorkingClaimRecord * option bool + GhError) :=
  let i := tg_id (target l) in let repo := tg_repo (target l) in
  match intent with
  | Hold _ =>
      let attach := negb (stable_label_attached l d) in
      match call (apply_working_claim user debug stamp rfc3339 i repo note (claim_comment_id l) attach) d with
      | (d, inl c) => (d, inl (set_comment (Some c) l, Some true))
      | (d, inr e) => (d, inr e)
      end
  | Release now =>
      match call (release_working_claim user debug stamp rfc3339 parse_stamp i repo note (claim_comment_id l) now) d with
      | (d, inl Released) => (d, inl (l, Some false))
      | (d, inl (SupersededBy _ _)) => (d, inl (l, None))
      | (d, inr e) => (d, inr e)
      end
  end.

(** The label of an older build comes off once the stable one is on. *)
Definition retire_legacy (l : WorkingClaimRecord) (d : State) : State * WorkingClaimRecord :=
  match legacy_label l with
  | None => (d, l)
  | Some stale =>
      match call (remove_working_claim_labels_target debug (tg_id (target l)) (tg_repo (target l)) [stale]) d with
      | (d, inl _) => (d, set_legacy None l)
      | (d, inr _) => (d, l)
      end
  end.

Definition sync_remote (env : Env) (l : WorkingClaimRecord) (intent : ClaimIntent) (mode : ClaimRelease) (d : State)
    : State * WorkingClaimRecord * bool :=
  let now := match intent with Hold now => now | Release now => now end in
  match identity simple l, lease_note simple now l with
  | Some who, Some note =>
      match client env with
      | inr error => (emit_transient_error env (workspace_key l) "synchronize" error d, l, false)
      | inl _ =>
          match mutate_remote intent note l d with
          | (d, inr e) => (emit_transient_error env (workspace_key l) "synchronize" (reason TIMED_OUT e) d, l, false)
          | (d, inl (l, project_as)) =>
              let '(d, l) := if bool_decide (project_as = Some true) then retire_legacy l d else (d, l) in
              let d := match project_as with
                       | Some claimed => project_synced_claim env l claimed who mode d
                       | None => d
                       end in
              (d, l, true)
          end
      end
  | _, _ => (emit_error (workspace_key l) "synchronize" MALFORMED d, l, false)
  end.

Definition observed (env : Env) (l : WorkingClaimRecord) : WorkingClaimRecord :=
  match observe_agent env (holder l) with
  | None => l
  | Some (agent, model) =>
      let l := set_agent (Some agent) l in
      match model with Some _ => set_model model l | None => l end
  end.

(** [emit_error(.., "persist", ..)] on a failed write. *)
Definition persist_reported (l : WorkingClaimRecord) (d : State) : State :=
  match persist_record l d with inl d => d | inr e => emit_error (workspace_key l) "persist" e d end.

Definition heartbeat_record (env : Env) (l : WorkingClaimRecord) (now : Z) (d : State) : State * WorkingClaimRecord :=
  if negb (String.eqb (owner_id l) (working_claim_owner_id env)) then (d, l)
  else
    let '(l, due) := prepare_heartbeat now l in
    if negb due then (d, l)
    else
      let l := observed env l in
      match persist_record l d with
      | inr e => (emit_error (workspace_key l) "persist" e d, l)
      | inl d =>
          let '(d, l, synced) := sync_remote env l (Hold now) Project d in
          if synced then let l := set_applied true l in (persist_reported l d, l) else (d, l)
      end.

Definition release (env : Env) (h : ClaimHolder) (mode : ClaimRelease) (now : Z) (d : State) : State :=
  if negb (working_claims_enabled env) then d
  else
    match load_record (storage_key h) d with
    | inl (Some l) =>
        if negb (String.eqb (owner_id l) (working_claim_owner_id env)) then d
        else
          let '(d, l, synced) := sync_remote env l (Release now) mode d in
          if synced then
            match delete_kv (store d) (storage_key h) with
            | inl s => put_store s d
            | inr e => emit_error (workspace_key l) "forget" (show_store e) d
            end
          else d
    | _ => d
    end.

(** The record an agent that starts holds: the durable one, or a new one for the
    headline task of its workspace. *)
Definition acquire_record (env : Env) (ws : string) (h : ClaimHolder) (session : option Z) (claim : Work.uuid)
    (now : Z) (d : State) : State * option WorkingClaimRecord :=
  match load_record (storage_key h) d with
  | inr e => (emit_error ws "recover" e d, None)
  | inl (Some l) => (d, Some l)
  | inl None =>
      match rows d !! ws with
      | None => (if starts_with "github-" ws then emit_error ws "apply" "workspace no longer exists" d else d, None)
      | Some w =>
          match primary_task w with
          | None => (d, None)
          | Some t =>
              if negb (String.eqb (Work.source (id t)) "github") then (d, None)
              else match target_of t with
                   | None => (emit_error ws "apply" "task has no repository" d, None)
                   | Some tg =>
                       match new_lease simple h ws session (working_claim_owner_id env) tg claim now with
                       | None => (emit_error ws "apply" "box identity is malformed" d, None)
                       | Some l =>
                           match persist_record l d with
                           | inr e => (emit_error ws "persist" e d, None)
                           | inl d => (d, Some l)
                           end
                       end
                   end
          end
      end
  end.

(** [later] is the time the spawned heartbeat reads. *)
Definition acquire (env : Env) (ws : string) (h : ClaimHolder) (session : option Z) (claim : Work.uuid)
    (now later : Z) (d : State) : State :=
  if negb (working_claims_enabled env) then d
  else match acquire_record env ws h session claim now d with
       | (d, Some l) => (heartbeat_record env l later d).1
       | (d, None) => d
       end.

(** ** Maintenance *)

Definition heartbeat_holder (env : Env) (h : ClaimHolder) (now : Z) (d : State) : State :=
  match load_record (storage_key h) d with
  | inl (Some l) => (heartbeat_record env l now d).1
  | _ => d
  end.

(** What a pass finds alive: the backend's terminals, unless it cannot list them, and
    the structured runs. *)
Record Alive : Type := mkAlive { backend_keys : option (list string); live_structured : list string }.

(** [None] when it cannot be told. *)
Definition is_live (alive : Alive) (h : ClaimHolder) : option bool :=
  match h with
  | Pty k => (fun keys => bool_decide (k ∈ keys)) <$> backend_keys alive
  | Structured k => Some (bool_decide (k ∈ live_structured alive))
  end.

(** [utc] is the time a release reads. *)
Definition maintain_record (env : Env) (alive : Alive) (now : Z) (utc : ClaimHolder -> Z) (l : WorkingClaimRecord) (d : State) : State :=
  if negb (String.eqb (owner_id l) (working_claim_owner_id env)) then
    if (lease_expires_at l + WORKING_CLAIM_TTL <=? now)%Z
    then match delete_kv (store d) (storage_key (holder l)) with inl s => put_store s d | inr _ => d end
    else d
  else match is_live alive (holder l) with
       | None => d
       | Some true => heartbeat_holder env (holder l) now d
       | Some false => release env (holder l) Project (utc (holder l)) d
       end.

(** The workspaces a sweep lists, as they are then. *)
Definition snapshot (listing : list string) (d : State) : list (string * Workspace) :=
  omap (fun k => w ← rows d !! k; Some (k, w)) listing.

Definition claim_tasks (w : Workspace) : list Task :=
  match pr w with Some t => [t] | None => [] end ++ gh_issues w.

(** A sweep goes over the tasks until it finds no client. *)
Fixpoint sweep (f : string -> Task -> State -> State * bool) (tasks : list (string * Task)) (d : State) : State :=
  match tasks with
  | [] => d
  | (k, t) :: tasks => let '(d, go_on) := f k t d in if go_on then sweep f tasks d else d
  end.

Definition listed_tasks (ws : list (string * Workspace)) : list (string * Task) :=
  flat_map (fun kw => map (pair kw.1) (claim_tasks kw.2)) ws.

Definition expire_task (env : Env) (now : Z) (k : string) (t : Task) (d : State) : State * bool :=
  match expired_working_claim_labels t now with
  | [] => (d, true)
  | expired =>
      match repo t with
      | None => (d, true)
      | Some repo =>
          match client env with
          | inr error => (emit_transient_error env k "expire" error d, false)
          | inl _ =>
              match call (remove_working_claim_labels_target debug (id t) repo expired) d with
              | (d, inr e) => (emit_transient_error env k "expire" (reason EXPIRY_TIMED_OUT e) d, true)
              | (d, inl _) =>
                  (apply_and_commit env k
                     (update_task (id t) (fun t => ProviderOps.set_labels
                        (List.filter (fun l => negb (bool_decide (l ∈ expired))) (labels t)) t)) d, true)
              end
          end
      end
  end.

Definition cleanup_expired (env : Env) (listing : option (list string)) (now : Z) (d : State) : State :=
  match listing with
  | None => d
  | Some keys => sweep (expire_task env now) (listed_tasks (snapshot keys d)) d
  end.

Definition retire_task (env : Env) (held_here : list (string * string)) (now : Z) (k : string) (t : Task) (d : State)
    : State * bool :=
  if negb (has_stable_working_claim t) then (d, true)
  else match repo t with
       | None => (d, true)
       | Some repo =>
           match client env with
           | inr error => (emit_transient_error env k "expire" error d, false)
           | inl _ =>
               match call (read_working_claim_note user debug parse_stamp (id t) repo) d with
               | (d, inr _) | (d, inl None) => (d, true)
               | (d, inl (Some note)) =>
                   if is_active_at note now then (d, true)
                   else if bool_decide ((device note, session note) ∈ held_here) then (d, true)
                   else match call (remove_working_label_target debug (id t) repo) d with
                        | (d, inr _) => (d, true)
                        | (d, inl _) =>
                            (apply_and_commit env k
                               (update_task (id t) (fun t => ProviderOps.set_labels
                                  (List.filter (fun l => negb (eq_ignore_ascii_case l WORKING_LABEL_NAME)) (labels t)) t))
                               d, true)
                        end
               end
           end
       end.

Definition retire_lapsed_stable_claims (env : Env) (listing : option (list string)) (now : Z) (d : State) : State :=
  let held_here := locally_held_claims (working_claim_owner_id env) d in
  let accounted := map workspace_key (records_or_none d) in
  match listing with
  | None => d
  | Some keys =>
      sweep (retire_task env held_here now)
        (listed_tasks (List.filter (fun kw => negb (bool_decide (kw.1 ∈ accounted))) (snapshot keys d))) d
  end.

(** [first] and [second] are the listings the two sweeps read, one after the other. *)
Definition maintain_once (env : Env) (alive : Alive) (cycle : nat) (first second : option (list string))
    (now : Z) (utc : ClaimHolder -> Z) (d : State) : State :=
  if negb (working_claims_enabled env) then d
  else match list_records d with
       | inr _ => d
       | inl records =>
           let d := fold_left (fun d l => maintain_record env alive now utc l d) (rotate_for_fairness records cycle) d in
           retire_lapsed_stable_claims env second now (cleanup_expired env first now d)
       end.

End daemon.
