(* ===== verification/ClaimLeaseProps.v ===== *)
(** * What the leases of working claims keep true
      ([src/crates/server/src/working_claims.rs]) *)

From Stdlib Require Import Ascii String.
From S2P Require Import Prelude Text CoreTask WorkStore WorkingClaim WorkingClaimProps ClaimRemote ClaimRemoteProps.
From S2P Require Import WorkspaceRow ClaimLease.
From S2P Require Work ProviderOps.

#[global] Open Scope Z_scope.
#[local] Open Scope string_scope.
#[local] Open Scope list_scope.

(** ** The lease *)

Lemma prepare_due now l l' :
  prepare_heartbeat now l = (l', true) ->
  needs_heartbeat l now = true /\ applied l' = false /\ refresh_at now < lease_expires_at l'
  /\ holder l' = holder l /\ owner_id l' = owner_id l /\ claim_session l' = claim_session l
  /\ target l' = target l /\ workspace_key l' = workspace_key l /\ claim_comment_id l' = claim_comment_id l
  /\ lease_started_at l' = lease_started_at l /\ lease_agent l' = lease_agent l /\ lease_model l' = lease_model l.
Proof.
  unfold prepare_heartbeat. destruct (needs_heartbeat l now); [|done]. cbn [negb].
  destruct (negb (applied l) && (refresh_at now <? lease_expires_at l)%Z && _) eqn:E; intros [= <-].
  - apply andb_true_iff in E as [[Ha Hr]%andb_true_iff _]. apply negb_true_iff in Ha. apply Z.ltb_lt in Hr. done.
  - split_and!; try done. cbn [lease_expires_at set_applied set_expires]. unfold refresh_at, WORKING_CLAIM_HEARTBEAT, secs, nanos_per_sec. lia.
Qed.

Lemma prepare_idle now l l' :
  prepare_heartbeat now l = (l', false) ->
  l' = l /\ applied l = true /\ refresh_at now < lease_expires_at l /\ legacy_label l = None.
Proof.
  unfold prepare_heartbeat. destruct (needs_heartbeat l now) eqn:E.
  - cbn [negb]. by case_match.
  - intros [= <-]. unfold needs_heartbeat in E. apply orb_false_iff in E as [[Ha Hr]%orb_false_iff Hl].
    apply negb_false_iff in Ha. apply Z.leb_gt in Hr. destruct (legacy_label l); done.
Qed.

(** The steps of a heartbeat that succeed leave a lease of three quarters of an hour,
    whether there was anything to renew or not. *)
Lemma observed_fields env l :
  holder (observed env l) = holder l /\ owner_id (observed env l) = owner_id l
  /\ claim_session (observed env l) = claim_session l /\ target (observed env l) = target l
  /\ workspace_key (observed env l) = workspace_key l /\ claim_comment_id (observed env l) = claim_comment_id l
  /\ lease_started_at (observed env l) = lease_started_at l /\ lease_expires_at (observed env l) = lease_expires_at l
  /\ applied (observed env l) = applied l /\ legacy_label (observed env l) = legacy_label l.
Proof. unfold observed. destruct (observe_agent env (holder l)) as [[a [m|]]|]; done. Qed.

(** ** Turns *)

Lemma rotate_perm {A} (l : list A) n : rotate_for_fairness l n ≡ₚ l.
Proof.
  unfold rotate_for_fairness. destruct l as [|x l]; [done|].
  rewrite Permutation_app_comm. by rewrite take_drop.
Qed.

Lemma rotate_head {A} (l : list A) n x : l !! (n mod length l)%nat = Some x -> head (rotate_for_fairness l n) = Some x.
Proof.
  intros Hx. unfold rotate_for_fairness. destruct l as [|y l]; [done|]. by rewrite (drop_S _ _ _ Hx).
Qed.

(** Every pass of maintenance sees every record, and of any round of as many passes
    as there are records each record comes first in one. *)
Theorem every_claim_gets_its_turn {A} (l : list A) cycle j x :
  l !! j = Some x ->
  (forall n, rotate_for_fairness l n ≡ₚ l)
  /\ exists k, (k < length l)%nat /\ head (rotate_for_fairness l (cycle + k)) = Some x.
Proof.
  intros Hx. split; [apply rotate_perm|]. pose proof (lookup_lt_Some _ _ _ Hx) as Hj.
  exists ((j + length l - cycle mod length l) mod length l)%nat. split; [apply Nat.mod_upper_bound; lia|].
  apply rotate_head. rewrite Nat.Div0.add_mod_idemp_r.
  rewrite <- Nat.Div0.add_mod_idemp_l. pose proof (Nat.mod_upper_bound cycle (length l) ltac:(lia)).
  replace (cycle mod length l + (j + length l - cycle mod length l))%nat with (j + 1 * length l)%nat by lia.
  rewrite Nat.Div0.mod_add, Nat.mod_small; done.
Qed.

(** ** The row *)

Lemma label_kept who legacy claimed t x :
  eq_ignore_ascii_case x WORKING_LABEL_NAME = false ->
  x ∈ labels (project_labels who legacy claimed t) <-> x ∈ labels t /\ stays who legacy x = true.
Proof.
  intros Hx. cbn [labels project_labels ProviderOps.set_labels]. rewrite elem_of_app, !list_elem_of_In, filter_In.
  split; [|by left]. intros [?|Hw]; [done|]. destruct claimed; [|done]. destruct Hw as [<-|[]]. discriminate.
Qed.

Lemma stays_not_stable who legacy l :
  List.filter (fun x => eq_ignore_ascii_case x WORKING_LABEL_NAME) (List.filter (stays who legacy) l) = [].
Proof.
  induction l as [|x l IH]; [done|]. cbn [List.filter]. destruct (stays who legacy x) eqn:E; [|done].
  cbn [List.filter]. unfold stays in E. destruct (eq_ignore_ascii_case x WORKING_LABEL_NAME); [done|done].
Qed.

(** What a synchronized claim writes into the row: the shared label exactly once while
    it is held and not at all once it is released; the holder's own labels of older
    builds go; the labels of other holders and everyone else's stay. *)
Theorem the_row_shows_the_claim who legacy claimed t :
  let t' := project_labels who legacy claimed t in
  List.filter (fun x => eq_ignore_ascii_case x WORKING_LABEL_NAME) (labels t')
    = (if claimed then [WORKING_LABEL_NAME] else [])
  /\ (forall x, eq_ignore_ascii_case x WORKING_LABEL_NAME = false -> legacy <> Some x ->
       match parse_label x with
       | Some c => (q_device c, q_session c) = who
       | None => False
       end \/ (x ∈ labels t' <-> x ∈ labels t))
  /\ (forall x c, parse_label x = Some c -> (q_device c, q_session c) = who -> x ∉ labels t')
  /\ project_labels who legacy claimed t' = t'.
Proof.
  intros t'. assert (labels t' = List.filter (stays who legacy) (labels t)
                                 ++ (if claimed then [WORKING_LABEL_NAME] else [])) as Hl by done.
  split_and!.
  - rewrite Hl, List.filter_app, stays_not_stable. by destruct claimed.
  - intros x Hx Hleg. unfold t'. rewrite label_kept by done. unfold stays. rewrite Hx.
    assert (match legacy with Some stale => String.eqb stale x | None => false end = false) as ->.
    { destruct legacy as [s|]; [|done]. apply String.eqb_neq. congruence. }
    cbn [negb andb]. destruct (parse_label x) as [c|]; [|right; tauto].
    destruct (decide ((q_device c, q_session c) = who)) as [|Hne]; [by left|right].
    destruct (String.eqb_spec (q_device c) who.1), (String.eqb_spec (q_session c) who.2); cbn [negb orb]; try tauto.
    exfalso. apply Hne. rewrite (surjective_pairing who). congruence.
  - intros x c Hp Hc Hin. rewrite Hl, elem_of_app, !list_elem_of_In, filter_In in Hin.
    destruct Hin as [[_ Hs]|Hin].
    + unfold stays in Hs. rewrite Hp in Hs. destruct who as [w1 w2]. injection Hc as <- <-. cbn [fst snd] in Hs.
      rewrite !String.eqb_refl in Hs. by rewrite andb_false_r in Hs.
    + destruct claimed; [|done]. destruct Hin as [<-|[]]. vm_compute in Hp. discriminate Hp.
  - assert (labels (project_labels who legacy claimed t') = labels t') as He.
    { cbn [labels project_labels ProviderOps.set_labels]. fold (labels t'). rewrite Hl, List.filter_app.
      assert (forall l, List.filter (stays who legacy) (List.filter (stays who legacy) l) = List.filter (stays who legacy) l) as ->.
      { induction l as [|x l IH]; [done|]. cbn [List.filter]. destruct (stays who legacy x) eqn:E; [|done].
        cbn [List.filter]. by rewrite E, IH. }
      rewrite <- app_assoc. f_equal. by destruct claimed. }
    change (ProviderOps.set_labels (labels (project_labels who legacy claimed t')) t' = t'). by rewrite He.
Qed.

Section daemon.
Context {S Raw R : Type} `{Store S Raw} (user : string) `{IssuesLaws R user}.
Context (encode : WorkingClaimRecord -> Raw) (decode : Raw -> option WorkingClaimRecord) (bad_json : string).
Context (show_store : StoreError -> string) (show_gh : GhError -> string) (debug : string -> string).
Context (simple : Work.uuid -> string).
Context (stamp rfc3339 : Z -> string) (parse_stamp : string -> option Z).

Notation State := (Daemon S R).
Notation sync := (sync_remote show_gh debug simple stamp rfc3339 parse_stamp user).
Notation heartbeat := (heartbeat_record encode show_store show_gh debug simple stamp rfc3339 parse_stamp user).

(** ** A heartbeat *)

Lemma persist_hub l (d d' : State) : persist_record encode show_store l d = inl d' -> hub d' = hub d /\ rows d' = rows d.
Proof. unfold persist_record. destruct (set_kv _ _ _); [|done]. by intros [= <-]. Qed.

Lemma persist_reported_hub l (d : State) : hub (persist_reported encode show_store l d) = hub d.
Proof.
  unfold persist_reported. destruct (persist_record _ _ l d) as [d'|e] eqn:E; [|done]. by apply persist_hub in E as [? _].
Qed.

Lemma commit_hub env k f (d : State) : hub (apply_and_commit env k f d) = hub d.
Proof. unfold apply_and_commit. destruct (rows d !! k); [|done]. by case_match. Qed.

Lemma project_hub env l claimed who mode (d : State) : hub (project_synced_claim env l claimed who mode d) = hub d.
Proof. destruct mode; [apply commit_hub|done]. Qed.

Lemma catch_not_found {A} (m : Request R A) k r :
  (catch m (status_in [404]) (mret k) r).1 = (m r).1.
Proof. unfold catch. destruct (m r) as [r' [a|e]]; [done|]. by case_match. Qed.

(** A label of an older build is not the shared one. *)
Lemma legacy_not_stable l c : parse_label l = Some c -> forall x,
  eq_ignore_ascii_case x WORKING_LABEL_NAME = true -> eq_ignore_ascii_case x l = false.
Proof.
  unfold parse_label. destruct (strip_prefix WORKING_CLAIM_LABEL_PREFIX l) as [e|] eqn:E; [|done]. intros _ x.
  apply strip_prefix_Some in E as ->. unfold eq_ignore_ascii_case. intros ->%String.eqb_eq. reflexivity.
Qed.

(** Taking off the label of an older build leaves comments and the shared label alone. *)
Definition shows_claim (ls : list string) : bool := existsb (fun x => eq_ignore_ascii_case x WORKING_LABEL_NAME) ls.

Lemma without_legacy stale c ls : parse_label stale = Some c -> shows_claim (without_label stale ls) = shows_claim ls.
Proof.
  intros Hp. unfold shows_claim, without_label. induction ls as [|x ls IH]; [done|]. cbn [List.filter existsb].
  destruct (eq_ignore_ascii_case x WORKING_LABEL_NAME) eqn:Ex.
  - rewrite (legacy_not_stable _ _ Hp x Ex). cbn [negb existsb]. by rewrite Ex.
  - destruct (eq_ignore_ascii_case x stale); cbn [negb existsb]; rewrite ?Ex; exact IH.
Qed.

Lemma retire_legacy_hub l (d : State) :
  (forall t, comments_of (hub (retire_legacy debug l d).1) t = comments_of (hub d) t)
  /\ (forall t, shows_claim (labels_of (hub (retire_legacy debug l d).1) t) = shows_claim (labels_of (hub d) t))
  /\ (exists v, (retire_legacy debug l d).2 = set_legacy v l).
Proof.
  assert (exists v, l = set_legacy v l) as Hv by (exists (legacy_label l); by destruct l).
  unfold retire_legacy. destruct (legacy_label l) as [stale|] eqn:El; [|by split_and!].
  unfold call, remove_working_claim_labels_target, on_target.
  destruct (working_claim_target debug (tg_id (target l)) (tg_repo (target l))) as [t|e]; [|by split_and!].
  cbn [delete_claim_labels]. destruct (parse_label stale) as [c|] eqn:Ep; [|by split_and!].
  pose proof (catch_not_found (delete_label (repo_of t) stale) tt (hub d)) as Hf.
  destruct (delete_label_scope (repo_of t) stale (hub d)) as [Hc Hl]. rewrite <- Hf in Hc, Hl. clear Hf.
  unfold mbind, request_bind.
  destruct (catch (delete_label (repo_of t) stale) (status_in [404]) (mret tt) (hub d)) as [r' [[]|e]];
    cbn [fst] in Hc, Hl; cbn; (split_and!; [done| |eauto]); intros t'; (destruct (Hl t') as [->| ->]; [done|]);
    by apply (without_legacy _ c).
Qed.

(** What a renewal that came through did upstream. *)
Lemma sync_hold env l now mode (d d' : State) l' :
  sync env l (Hold now) mode d = (d', l', true) ->
  exists note r1 c, lease_note simple now l = Some note
    /\ apply_working_claim user debug stamp rfc3339 (tg_id (target l)) (tg_repo (target l)) note
         (claim_comment_id l) (negb (stable_label_attached l d)) (hub d) = (r1, inl c)
    /\ (forall t, comments_of (hub d') t = comments_of r1 t)
    /\ (forall t, shows_claim (labels_of (hub d') t) = shows_claim (labels_of r1 t))
    /\ claim_comment_id l' = Some c /\ lease_expires_at l' = lease_expires_at l
    /\ identity simple l' = identity simple l.
Proof.
  unfold sync_remote. destruct (identity simple l) as [who|] eqn:Ei; [|done].
  destruct (lease_note simple now l) as [note|]; [|done]. destruct (client env); [|done].
  unfold mutate_remote, call. 
  destruct (apply_working_claim _ _ _ _ _ _ _ _ _ (hub d)) as [r1 [c|e]] eqn:Ea; [|done].
  rewrite bool_decide_eq_true_2 by done. intros Hs.
  destruct (retire_legacy_hub (set_comment (Some c) l) (put_hub r1 d)) as (Hc & Hl & v & Hv).
  destruct (retire_legacy debug (set_comment (Some c) l) (put_hub r1 d)) as [d2 l2] eqn:Er.
  cbn [fst snd] in Hc, Hl, Hv. injection Hs as <- <-. exists note, r1, c.
  split_and!; [done|exact Ea| | |by subst|by subst|by subst].
  - intros t. by rewrite project_hub, Hc.
  - intros t. by rewrite project_hub, Hl.
Qed.

(** What a heartbeat that had work to do and came through did. *)
Lemma heartbeat_due env l now (d d' : State) l1 l' :
  heartbeat env l now d = (d', l') -> owner_id l = working_claim_owner_id env ->
  prepare_heartbeat now l = (l1, true) -> applied l' = true ->
  exists note r1 c, lease_note simple now (observed env l1) = Some note
    /\ apply_working_claim user debug stamp rfc3339 (tg_id (target l)) (tg_repo (target l)) note
         (claim_comment_id l) (negb (stable_label_attached l d)) (hub d) = (r1, inl c)
    /\ (forall t, comments_of (hub d') t = comments_of r1 t)
    /\ (forall t, shows_claim (labels_of (hub d') t) = shows_claim (labels_of r1 t))
    /\ claim_comment_id l' = Some c /\ lease_expires_at l' = lease_expires_at l1
    /\ identity simple l' = identity simple l.
Proof.
  intros Hh Ho Hp Ha. unfold heartbeat_record in Hh. rewrite Ho, String.eqb_refl, Hp in Hh. cbn [negb] in Hh.
  destruct (prepare_due _ _ _ Hp) as (_ & Hap & _ & Hho & How & Hcs & Ht & Hws & Hcc & _).
  destruct (observed_fields env l1) as (Ho1 & Ho2 & Ho3 & Ho4 & Ho5 & Ho6 & _ & Ho8 & Ho9 & _).
  set (l2 := observed env l1) in *.
  destruct (persist_record encode show_store l2 d) as [d1|e] eqn:Ep; [|injection Hh as _ <-; congruence].
  apply persist_hub in Ep as [Hd1 Hr1].
  destruct (sync env l2 (Hold now) Project d1) as [[d2 l3] b] eqn:Es. destruct b.
  - injection Hh as <- <-. apply sync_hold in Es as (note & r1 & c & Hn & Hrun & Hc & Hl & Hcom & Hexp & Hid).
    assert (stable_label_attached l2 d1 = stable_label_attached l d) as Hst
      by (unfold stable_label_attached; by rewrite Ho5, Ho4, Hws, Ht, Hr1).
    rewrite Hst, Ho6, Hcc, Ho4, Ht, Hd1 in Hrun.
    exists note, r1, c. split_and!; try done.
    + intros t. by rewrite persist_reported_hub, Hc.
    + intros t. by rewrite persist_reported_hub, Hl.
    + cbn [lease_expires_at set_applied]. congruence.
    + transitivity (identity simple l3); [reflexivity|]. rewrite Hid. unfold identity. by rewrite Ho2, Ho3, How, Hcs.
  - injection Hh as _ <-. unfold sync_remote in Es. revert Es.
    assert (forall l4, l4 = l2 -> applied l4 = true -> False) as Hno by (intros l4 -> ?; congruence).
    destruct (identity simple l2); [|intros [= _ <-]; congruence].
    destruct (lease_note simple now l2); [|intros [= _ <-]; congruence].
    destruct (client env); [|intros [= _ <-]; congruence].
    destruct (mutate_remote _ _ _ _ _ _ _ _ _) as [d3 [[l4 pa]|e]]; [|intros [= _ <-]; congruence].
    destruct (if bool_decide (pa = Some true) then _ else _). done.
Qed.

Lemma is_active_truncated n m : released_at n = None -> m + nanos_per_sec <= expires_at n -> is_active_at (truncated n) m = true.
Proof.
  intros Hr Hm. unfold is_active_at, truncated. cbn [released_at expires_at]. rewrite Hr. cbn. apply Z.ltb_lt.
  unfold to_the_second, secs, as_secs, nanos_per_sec in *. pose proof (Z.mod_pos_bound (expires_at n) 1000000000 ltac:(lia)).
  pose proof (Z.div_mod (expires_at n) 1000000000 ltac:(lia)). lia.
Qed.

Lemma shows_claim_missing ls : shows_claim (add_missing ls WORKING_LABEL_NAME) = true.
Proof. apply add_missing_has. Qed.

(** ** The sweep of lapsed claims *)

(** The claim comment of [t] reads as a lease that is over and not ours. *)
Definition lapsed (held : list (string * string)) (now : Z) (r : R) (t : Target) : Prop :=
  exists c n, newest_sticky user (comments_of r t) = Some c /\ parse parse_stamp c.2 = Some n
    /\ is_active_at n now = false /\ (device n, session n) ∉ held.

Notation retire := (retire_task debug parse_stamp user).

(** From [r0] to [r]: no comment has changed, and labels only where the claim has lapsed. *)
Definition only_lapsed held now (r0 r : R) : Prop :=
  (forall t, comments_of r t = comments_of r0 t)
  /\ forall t, (length (comments_of r0 t) <= 100)%nat -> labels_of r t = labels_of r0 t \/ lapsed held now r0 t.

Lemma only_lapsed_same held now r0 r r' : only_lapsed held now r0 r -> same_issues r r' -> only_lapsed held now r0 r'.
Proof.
  intros [Hc Hl] [Sl Sc]. split; intros t; [by rewrite Sc, Hc|]. rewrite Sl. apply Hl.
Qed.

Lemma read_note_reads i repo : reads user (read_working_claim_note user debug parse_stamp i repo).
Proof.
  unfold read_working_claim_note, on_target. destruct (working_claim_target debug i repo) as [t|e].
  - apply reads_bind; [apply find_body_reads|]. intros x. apply reads_ret.
  - intros r. apply same_refl.
Qed.

Lemma read_note_short i repo t r r' n :
  working_claim_target debug i repo = inl t ->
  read_working_claim_note user debug parse_stamp i repo r = (r', inl (Some n)) ->
  (length (comments_of r t) <= 100)%nat ->
  exists c, newest_sticky user (comments_of r t) = Some c /\ parse parse_stamp c.2 = Some n.
Proof.
  unfold read_working_claim_note, on_target. intros -> Hr Hl. unfold mbind at 1, request_bind at 1 in Hr.
  destruct (find_sticky_comment_body user t r) as [r1 [x|e]] eqn:Ef; [|done].
  destruct (find_body_short user t r r1 x Ef Hl) as [-> _]. injection Hr as _ Hp.
  destruct (newest_sticky user (comments_of r t)) as [c|]; [|done]. by exists c.
Qed.

Lemma retire_step env held now k t (d d' : State) b r0 :
  retire env held now k t d = (d', b) -> only_lapsed held now r0 (hub d) -> only_lapsed held now r0 (hub d').
Proof.
  intros Hr Hd. unfold retire_task in Hr.
  destruct (has_stable_working_claim t); [|by injection Hr as <- _].
  destruct (repo t) as [rp|]; [|by injection Hr as <- _].
  destruct (client env).
  2: { injection Hr as <- _. unfold emit_transient_error. destruct (reports d !! _); [|done]. by case_match. }
  cbn [negb] in Hr. unfold call in Hr.
  pose proof (read_note_reads (id t) rp (hub d)) as Hs.
  destruct (read_working_claim_note user debug parse_stamp (id t) rp (hub d)) as [r1 [[n|]|e]] eqn:En;
    cbn [fst] in Hs; pose proof (only_lapsed_same _ _ _ _ _ Hd Hs) as Hd1; [|by injection Hr as <- _..].
  destruct (is_active_at n now) eqn:Ea; [by injection Hr as <- _|].
  case_bool_decide as Hh; [by injection Hr as <- _|].
  unfold remove_working_label_target, on_target in Hr. cbn [hub put_hub] in Hr.
  destruct (working_claim_target debug (id t) rp) as [tg|e] eqn:Et; [|by injection Hr as <- _].
  destruct (remove_label_scope tg WORKING_LABEL_NAME r1) as [Sc Sl].
  pose proof (catch_not_found (remove_label tg WORKING_LABEL_NAME) tt r1) as Hf. rewrite <- Hf in Sc, Sl. clear Hf.
  assert (forall r2, (forall t', comments_of r2 t' = comments_of r1 t') ->
    (forall t', t' <> tg -> labels_of r2 t' = labels_of r1 t') -> only_lapsed held now r0 r2) as Hgoal.
  { intros r2 C2 L2. destruct Hd1 as [Hc1 Hl1], Hd as [Hc Hl]. split; [intros t'; by rewrite C2, Hc1|].
    intros t' Hlen. destruct (decide (t' = tg)) as [->|Hne]; [|rewrite L2 by done; by apply Hl1].
    right. destruct (read_note_short (id t) rp tg (hub d) r1 n Et En) as (c & Hc2 & Hp); [by rewrite Hc|].
    exists c, n. by rewrite <- (Hc tg). }
  destruct (catch (remove_label tg WORKING_LABEL_NAME) (status_in [404]) (mret tt) r1) as [r2 [[]|e]];
    cbn [fst] in Sc, Sl; injection Hr as <- _; rewrite ?commit_hub; by apply Hgoal.
Qed.

(** The sweep of maintenance takes the shared label off no issue whose claim may stand:
    on a thread it can see whole, only where a claim comment of ours says the lease is
    over and its holder is none this daemon renews.  It writes no comment. *)
Theorem only_lapsed_claims_are_retired env listing now (d : State) :
  let held := locally_held_claims decode show_store simple (working_claim_owner_id env) d in
  let d' := retire_lapsed_stable_claims decode show_store debug simple parse_stamp user env listing now d in
  (forall t, comments_of (hub d') t = comments_of (hub d) t)
  /\ forall t, (length (comments_of (hub d) t) <= 100)%nat ->
       labels_of (hub d') t = labels_of (hub d) t \/ lapsed held now (hub d) t.
Proof.
  intros held d'. change (only_lapsed held now (hub d) (hub d')). subst d'.
  unfold retire_lapsed_stable_claims. fold held.
  assert (only_lapsed held now (hub d) (hub d)) as H0' by (split; [done|intros; by left]).
  assert (forall tasks (d1 : State), only_lapsed held now (hub d) (hub d1) ->
    only_lapsed held now (hub d) (hub (sweep (retire env held now) tasks d1))) as Hsw.
  { intros tasks. induction tasks as [|[k t] tasks IH]; intros d1 Hd1; [done|]. cbn [sweep].
    destruct (retire env held now k t d1) as [d2 b] eqn:Er. apply (retire_step _ _ _ _ _ _ _ _ (hub d)) in Er; [|done].
    destruct b; [by apply IH|done]. }
  destruct listing as [keys|]; [by apply Hsw|done].
Qed.

Context (stamp_line : forall t, in_range t -> free_of newline (stamp t) = true).
Context (rfc_clean : forall t, in_range t -> clean (rfc3339 t)).
Context (rfc_read : forall t, in_range t -> parse_stamp (rfc3339 t) = Some (secs (as_secs t))).

(** C25: A heartbeat of a lease of this daemon that had work to do and came through
    leaves the claim upstream: the one claim comment of ours is remembered and reads as
    a lease of this holder, live for another three quarters of an hour to the second --
    so two passes of maintenance may fail before it can lapse -- and the issue has the
    label, unless the row said it had.  The thread is one the client sees whole: its
    comments have distinct ids and are at most a hundred, at most one of them is a claim
    comment of ours, and a comment id the lease remembers is, where it is found in the
    repository, such a comment of this issue; and the words and times of the note are
    ones its format can carry. *)
Theorem a_live_agent_stays_claimed env l now (d d' : State) l1 l' t :
  heartbeat env l now d = (d', l') -> owner_id l = working_claim_owner_id env ->
  prepare_heartbeat now l = (l1, true) -> applied l' = true ->
  working_claim_target debug (tg_id (target l)) (tg_repo (target l)) = inl t ->
  thread_ok user (hub d) t (claim_comment_id l) ->
  (forall note, lease_note simple now (observed env l1) = Some note -> well_formed note) ->
  exists c b n, stickies user (comments_of (hub d') t) = [c] /\ claim_comment_id l' = Some (c_id c)
    /\ c_body c = Some b /\ parse parse_stamp b = Some n
    /\ identity simple l = Some (device n, session n)
    /\ (forall m, m + nanos_per_sec <= now + secs (45 * 60) -> is_active_at n m = true)
    /\ (shows_claim (labels_of (hub d') t) = true \/ stable_label_attached l d = true).
Proof.
  intros Hh Ho Hp Ha Ht Hok Hwf.
  destruct (heartbeat_due env l now d d' l1 l' Hh Ho Hp Ha) as
    (note & r1 & c & Hn & Hrun & Hc & Hl & Hcom & _ & _).
  specialize (Hwf note Hn).
  destruct (apply_one_comment user debug stamp rfc3339 _ _ _ _ _ t _ _ _ Ht Hrun Hok) as (Hst & _ & _ & Hlab).
  exists (mkComment c user (Some (render stamp rfc3339 note))), (render stamp rfc3339 note), (truncated note).
  destruct (prepare_due _ _ _ Hp) as (_ & _ & Hexp & _ & How & Hcs & _).
  destruct (observed_fields env l1) as (_ & Ho2 & Ho3 & _ & _ & _ & _ & Ho8 & _).
  unfold lease_note in Hn. destruct (identity simple (observed env l1)) as [who|] eqn:Ei; [|done].
  injection Hn as <-. split_and!; [by rewrite Hc|done|done|by apply parse_render| | |].
  - unfold identity in *. rewrite Ho2, Ho3, How, Hcs in Ei. rewrite Ei. by destruct who.
  - intros m Hm. apply is_active_truncated; [done|]. cbn [expires_at]. rewrite Ho8.
    unfold refresh_at, WORKING_CLAIM_TTL, WORKING_CLAIM_HEARTBEAT in Hexp. unfold secs, nanos_per_sec in *. lia.
  - rewrite Hl, Hlab. destruct (stable_label_attached l d); [by right|left]. apply shows_claim_missing.
Qed.

End daemon.

(** ** Another box's records *)

Section foreign.
Context {S Raw R : Type} `{Store S Raw} `{Issues R}.
Context (encode : WorkingClaimRecord -> Raw) (decode : Raw -> option WorkingClaimRecord) (bad_json : string).
Context (show_store : StoreError -> string) (show_gh : GhError -> string) (debug : string -> string).
Context (simple : Work.uuid -> string).
Context (stamp rfc3339 : Z -> string) (parse_stamp : string -> option Z) (user : string).

(** A record of another identity is left alone: no heartbeat and no release touches
    GitHub, the rows or the record, and maintenance deletes it once it is a whole term
    past its end, nothing else. *)
Theorem a_foreign_claim_is_left_alone env alive now utc l (d : Daemon S R) :
  owner_id l <> working_claim_owner_id env ->
  heartbeat_record encode show_store show_gh debug simple stamp rfc3339 parse_stamp user env l now d = (d, l)
  /\ (forall h mode, load_record decode bad_json show_store (storage_key h) d = inl (Some l) ->
        release decode bad_json show_store show_gh debug simple stamp rfc3339 parse_stamp user env h mode now d = d)
  /\ (let d' := maintain_record encode decode bad_json show_store show_gh debug simple stamp rfc3339 parse_stamp user
                 env alive now utc l d in
      (hub d', rows d', notices d', reports d') = (hub d, rows d, notices d, reports d)
      /\ (now < lease_expires_at l + WORKING_CLAIM_TTL -> d' = d)).
Proof.
  intros Hne%String.eqb_neq. unfold heartbeat_record, release, maintain_record. rewrite Hne. cbn [negb]. split_and!.
  - done.
  - intros h mode ->. rewrite Hne. by destruct (working_claims_enabled env).
  - destruct (lease_expires_at l + WORKING_CLAIM_TTL <=? now)%Z; [|done]. by destruct (delete_kv _ _).
  - intros Hlt. destruct (Z.leb_spec (lease_expires_at l + WORKING_CLAIM_TTL) now); [lia|done].
Qed.

End foreign.

(** ** Witnesses *)

Section witnesses.

#[local] Existing Instance memory_laws.
#[local] Instance bot_hub : Issues MemIssues := memory_issues "bot".
#[local] Instance record_store : Store (gmap string WorkingClaimRecord) WorkingClaimRecord := memory_store (fun _ => false).

Lemma every_claim_gets_its_turn_witness :
  exists k, (k < 3)%nat /\ head (rotate_for_fairness ["a"; "b"; "c"] (7 + k)) = Some "a".
Proof. exact (proj2 (every_claim_gets_its_turn ["a"; "b"; "c"] 7 0 "a" eq_refl)). Defined.

Definition claimed_workspace : Workspace :=
  mkWorkspace "github-o-r-7" "fix" None
    [set_kind (Some KIssue) (plain_task sample_issue Open_ CiNone RvNone MUnknown KIssue [])] [] false false.

Definition idle_daemon : Daemon (gmap string WorkingClaimRecord) MemIssues :=
  mkDaemon ∅ {["github-o-r-7" := claimed_workspace]} no_issues [] ∅.

Definition sample_env : Env := mkEnv true "effacd542b611010656e00" (inl tt) [] 0 (fun _ _ => true).

Definition sample_lease : WorkingClaimRecord :=
  mkLease (Pty "pty-1") "github-o-r-7" None 7 "effacd542b611010656e00" (mkClaimTarget sample_issue "o/r") None
    (Some (secs 1790000000)) None None None (secs 1790003600) false.

Notation sample_heartbeat :=
  (heartbeat_record Datatypes.id (fun _ => EmptyString) (fun _ => EmptyString) Datatypes.id example_simple
     example_format example_format example_parse "bot" sample_env sample_lease (secs 1790000900) idle_daemon).

Lemma sample_note_ok :
  well_formed (mkNote "effacd542b611010656e" "0000000000" (Some "github-o-r-7") None None
    (secs 1790000000) (secs 1790000900) (secs 1790004500) None).
Proof. well_formed_note. Qed.

Lemma a_live_agent_stays_claimed_witness :
  exists c b n, stickies "bot" (mem_comments (hub sample_heartbeat.1) sample_target) = [c]
    /\ c_body c = Some b /\ parse example_parse b = Some n /\ is_active_at n (secs 1790003000) = true.
Proof.
  assert (applied sample_heartbeat.2 = true) as Ha by (vm_compute; reflexivity).
  destruct sample_heartbeat as [d' l'] eqn:E. cbn [snd] in Ha.
  destruct (a_live_agent_stays_claimed "bot" Datatypes.id (fun _ => EmptyString) (fun _ => EmptyString) Datatypes.id
    example_simple example_format example_format example_parse
    (fun t _ => proj2 (proj2 (example_clean t))) (fun t _ => example_clean t) example_read
    sample_env sample_lease (secs 1790000900) idle_daemon d' _ l' sample_target E eq_refl eq_refl Ha eq_refl
    (no_issues_ok sample_target)) as (c & b & n & H1 & _ & H2 & H3 & _ & H4 & _).
  - intros note Hn. vm_compute in Hn. injection Hn as <-. apply sample_note_ok.
  - exists c, b, n. split; [exact H1|]. split; [exact H2|]. split; [exact H3|]. apply H4. vm_compute. discriminate.
Defined.

Lemma a_foreign_claim_is_left_alone_witness :
  let d' := maintain_record Datatypes.id Some EmptyString (fun _ => EmptyString) (fun _ => EmptyString) Datatypes.id
    example_simple example_format example_format example_parse "bot"
    (mkEnv true "another box" (inl tt) [] 0 (fun _ _ => true)) (mkAlive None []) (secs 1790000900) (fun _ => 0)
    sample_lease idle_daemon in
  d' = idle_daemon.
Proof.
  refine (proj2 (proj2 (proj2 (a_foreign_claim_is_left_alone Datatypes.id Some EmptyString (fun _ => EmptyString)
    (fun _ => EmptyString) Datatypes.id example_simple example_format example_format example_parse "bot"
    (mkEnv true "another box" (inl tt) [] 0 (fun _ _ => true)) (mkAlive None []) (secs 1790000900) (fun _ => 0)
    sample_lease idle_daemon _))) _); [discriminate|reflexivity].
Defined.

End witnesses.
