(* ===== verification/RowStore.v ===== *)
(** * The rows of workspaces on disk ([src/crates/server/src/polling/upsert.rs])

    Reading the stored record of a workspace, the archived keys, and the one way a
    change is committed: an atomic batch of rows, projects, deletions and the key-value
    rows that move with a workspace, published on the bus once it is durable.  The store
    is the class [Store] of WorkStore.v; JSON is text, and serde is the class [Codec]
    (for a workspace [RowCodec], whose reader has the rewrite of old snippet lists).

    The workspace locks and the terminal registry's own lock are held throughout; a
    record's worktree paths, and so their migration, are not part of [Row].  The cache
    age of a row ([note_tasks_fetched]) is left out. *)

From Stdlib Require Import Ascii String.
From S2P Require Import Prelude Text CoreTask WorkStore Epics WorkspaceRow.
From S2P Require Work.

#[global] Open Scope Z_scope.
#[local] Open Scope string_scope.
#[local] Open Scope list_scope.

(** ** JSON *)

Class Codec (A : Type) := { to_json : A -> option string; from_json : string -> option A }.

Definition set_schema (v : Z) (w : Row) : Row := ltac:(upd eta_row schema v w).
(** What [serialize_with] writes for the version. *)
Definition stamped (w : Row) : Row := set_schema WORKSPACE_SCHEMA_VERSION w.

(** [row_of_json] is plain serde, [row_of_value] reads after the rewrite. *)
Class RowCodec := {
  row_json : Row -> option string;
  row_of_json : string -> option Row;
  row_of_value : string -> option Row;
}.

(** What serde wrote it reads back, with the version every save stamps. *)
Class RowCodecLaws `{RowCodec} := {
  row_round_trip w j : row_json w = Some j -> row_of_value j = Some (stamped w);
}.

(** ** Projects ([src/crates/core/src/project.rs]) *)

Record Project : Type := mkProject {
  p_key : string;
  p_name : string;
  p_github_repo : option string;
  p_root_dir : option string;
  p_created_at : Z;
}.

Definition matches_github_slug (key slug : string) : bool :=
  match split_once "/" slug with
  | Some (owner, name) =>
      negb (is_empty owner) && negb (is_empty name) && negb (contains "/" name)
      && String.eqb (project_github owner name) key
  | None => false
  end.

Definition github_slug_from_scopes (key : string) (scopes : list string) : option string :=
  if negb (String.eqb (source_prefix key) "github") then None
  else find_map (fun scope => slug ← strip_prefix "github:" scope;
                              if matches_github_slug key slug then Some slug else None) scopes.

Definition github_repo (p : Project) : option string :=
  slug ← p_github_repo p; if matches_github_slug (p_key p) slug then Some slug else None.

Definition set_github_repo (slug : string) (p : Project) : option Project :=
  if matches_github_slug (p_key p) slug
  then Some (mkProject (p_key p) slug (Some slug) (p_root_dir p) (p_created_at p))
  else None.

(** [ProjectKey::display_name] *)
Definition key_display_name (key : string) : string :=
  match split_once "-" key with
  | Some (p, rest) =>
      if String.eqb p "github" then
        match split_once "-" rest with
        | Some (owner, name) => owner +:+ "/" +:+ name
        | None => rest
        end
      else rest
  | None => key
  end.

(** ** Errors, events and calls *)

Inductive CommitError : Type :=
| SerializeWorkspace (key : string)
| SerializeProject (key : string)
| SerializeTerminalMetadata (backend_key : string)
| KeyMismatch (expected actual : string)
| StoreFailed (e : StoreError).

Inductive CommitOutcome : Type := Changed | Unchanged.

#[export] Instance CommitOutcome_eq_dec : EqDecision CommitOutcome.
Proof. solve_decision. Defined.

Inductive TerminalCleanup : Type := MergedPr (number : Z) | ClosedIssue (number : Z).

(** The events of the bus. *)
Inductive Event : Type :=
| WorkspaceUpserted (w : Row)
| ProjectUpserted (p : Project)
| WorkspaceRemoved (key : string)
| WorkspaceMerged (issue_key pr_key issue_label pr_label : string)
| WorkspaceMergePending (issue_key pr_key issue_label pr_label : string) (live : nat)
| TerminalsRebadged (from to : string)
| SessionCosts (costs : list (string * Z))
| ProviderErrorPermanent (source message : string)
| ProviderErrorRetryable (source message : string).

(** Calls to other components, in order with the events: what they do is theirs. *)
Inductive Call : Type :=
| RebadgeRecovery (terminals : list Z) (to : string)
| RebadgeTokens (from to : string)
| OnWorkspaceCommitted (key : string) (ws : Workspace) (changed : bool)
| OnPrMerged (key : string)
| NoteMergeOwesCost (key : string)
| RecordMergeTrailers (key : string)
| OnTerminalTransition (key : string) (cleanup : TerminalCleanup)
| CancelPendingRemoval (key : string).

Inductive Effect : Type := Emit (e : Event) | Run (c : Call).

(** ** The daemon's state *)

Inductive TerminalKind : Type := AgentTerminal (agent : string) | Shell | LogTail (path : string).

Record TerminalEntry : Type := mkEntry {
  meta : option (string * TerminalKind);
  backend_key : option string;
  session_id : option Z;
  finishing : bool;
}.

Record UserPrompt : Type := mkPrompt { prompt_text : string; timestamp_ms : Z; from_snippet : bool }.

Record Daemon (S : Type) : Type := mkDaemon {
  store : S;
  trace : list Effect;
  entries : gmap Z TerminalEntry;
  deleted_workspaces : gset string;
  undecodable_row_reports : gmap string Z;
  prompted : gmap string Z;
  rejected : gset string;
}.
Arguments mkDaemon {S}. Arguments store {S}. Arguments trace {S}. Arguments entries {S}.
Arguments deleted_workspaces {S}. Arguments undecodable_row_reports {S}.
Arguments prompted {S}. Arguments rejected {S}.

Definition put_store {S} (v : S) (d : Daemon S) : Daemon S :=
  mkDaemon v (trace d) (entries d) (deleted_workspaces d) (undecodable_row_reports d) (prompted d) (rejected d).
Definition put_entries {S} v (d : Daemon S) : Daemon S :=
  mkDaemon (store d) (trace d) v (deleted_workspaces d) (undecodable_row_reports d) (prompted d) (rejected d).
Definition put_reports {S} v (d : Daemon S) : Daemon S :=
  mkDaemon (store d) (trace d) (entries d) (deleted_workspaces d) v (prompted d) (rejected d).
Definition put_prompts {S} asked refused (d : Daemon S) : Daemon S :=
  mkDaemon (store d) (trace d) (entries d) (deleted_workspaces d) (undecodable_row_reports d) asked refused.
Definition effects {S} (es : list Effect) (d : Daemon S) : Daemon S :=
  mkDaemon (store d) (trace d ++ es) (entries d) (deleted_workspaces d) (undecodable_row_reports d)
    (prompted d) (rejected d).
Definition emit {S} (e : Event) (d : Daemon S) : Daemon S := effects [Emit e] d.

Section rows.
Context {S : Type} `{Store S string} `{RowCodec}.
Context `{Codec Project} `{Codec (list string)} `{Codec (list UserPrompt)} `{Codec DeclaredBlocker}
  `{Codec (string * TerminalKind)}.
(** The texts of errors. *)
Context (show_commit_error : CommitError -> string) (show_decode : WorkspaceDecodeError -> string)
  (show_store : StoreError -> string).

(** ** Reading *)

Definition row_key (key : string) : string := "workspace:" +:+ key.
Definition project_row_key (key : string) : string := "project:" +:+ key.

(** [get_workspace] and [get_project]: an empty payload is absent. *)
Definition get_payload (s : S) (key : string) : option string + StoreError :=
  match get_kv s key with
  | inr e => inr e
  | inl (Some json) => inl (if is_empty json then None else Some json)
  | inl None => inl None
  end.
Definition get_workspace (s : S) (key : string) := get_payload s (row_key key).
Definition get_project (s : S) (key : string) := get_payload s (project_row_key key).

Definition list_workspaces (s : S) : list (string * string) + StoreError :=
  match list_kv_prefix s "workspace:" with
  | inr e => inr e
  | inl kvs => inl (omap (fun kv => if is_empty kv.2 then None
                                    else key ← strip_prefix "workspace:" kv.1; Some (key, kv.2)) kvs)
  end.

(** Every row plain serde can read, in the order of the listing. *)
Definition listed_rows (s : S) : list Row :=
  match list_workspaces s with inl l => omap (fun kv => row_of_json kv.2) l | inr _ => [] end.

Definition decode_row (json : string) : Row + WorkspaceDecodeError := decode_persisted row_of_value json.

Definition load_workspace (s : S) (key : string) : option Row :=
  match get_workspace s key with
  | inl (Some json) => match decode_row json with inl w => Some w | inr _ => None end
  | _ => None
  end.

Inductive StoredWorkspace : Type := Absent | Present (w : Row) | Unreadable (reason : string).

Definition load_stored_workspace (s : S) (key : string) : StoredWorkspace :=
  match get_workspace s key with
  | inr e => Unreadable ("store read failed: " +:+ show_store e)
  | inl None => Absent
  | inl (Some json) => match decode_row json with inl w => Present w | inr e => Unreadable (show_decode e) end
  end.

Definition KV_PREFIX_ARCHIVED : string := "archived_workspace:".
Definition KV_KEY_ARCHIVED : string := "archived_workspaces_v1".

Definition read_legacy_archived_blob (s : S) : option (list string) + unit :=
  match get_kv s KV_KEY_ARCHIVED with
  | inr _ => inr tt
  | inl None => inl None
  | inl (Some json) =>
      if is_empty (trim json) then inl None
      else match from_json json with Some l => inl (Some l) | None => inr tt end
  end.

Definition load_archived_set_strict (s : S) : gset string + unit :=
  match list_kv_prefix s KV_PREFIX_ARCHIVED with
  | inr _ => inr tt
  | inl kvs =>
      match read_legacy_archived_blob s with
      | inr _ => inr tt
      | inl legacy =>
          inl (list_to_set (omap (fun kv => strip_prefix KV_PREFIX_ARCHIVED kv.1) kvs)
               ∪ list_to_set (default [] legacy))
      end
  end.

Definition load_archived_set (s : S) : gset string :=
  match load_archived_set_strict s with inl set => set | inr _ => ∅ end.

(** ** The parent project *)

Definition github_slug_for_workspace (scopes : option (list string)) (key : string) (w : Row) : option string :=
  if negb (String.eqb (source_prefix key) "github") then None
  else
    match t ← primary_task (core w); slug ← repo t; if matches_github_slug key slug then Some slug else None with
    | Some slug => Some slug
    | None =>
        match scopes ≫= github_slug_from_scopes key with
        | Some slug => Some slug
        | None => unambiguous_github_slug key
        end
    end.

(** [None] in the source's [expect]: a slug without its [/]. *)
Definition new_project (key : string) (slug : option string) (w : Row) (now : Z) : option Project :=
  match slug with
  | Some slug =>
      '(owner, name) ← split_once "/" slug;
      Some (mkProject (project_github owner name) (owner +:+ "/" +:+ name) (Some (owner +:+ "/" +:+ name)) None now)
  | None =>
      let name := match t ← primary_task (core w); repo t with
                  | Some r => r
                  | None => if String.eqb (source_prefix key) "github" then key else key_display_name key
                  end in
      Some (mkProject key name None None now)
  end.

Definition encoded_project (key : string) (p : Project) : option (Project * (string * string)) + CommitError :=
  match to_json p with
  | Some json => inl (Some (p, (key, json)))
  | None => inr (SerializeProject key)
  end.

(** The project to save beside a row, with its key and JSON. *)
Definition project_record_for_workspace (scopes : option (list string)) (now : Z) (s : S) (w : Row)
    : option (Project * (string * string)) + CommitError :=
  match project_key w with
  | None => inl None
  | Some key =>
      let slug := github_slug_for_workspace scopes key w in
      match get_project s key with
      | inr e => inr (StoreFailed e)
      | inl (Some json) =>
          match p ← from_json json;
                if is_some (github_repo p) then None else slug ← slug; set_github_repo slug p with
          | Some p => encoded_project key p
          | None => inl None
          end
      | inl None => match new_project key slug w now with
                    | Some p => encoded_project key p
                    | None => inl None
                    end
      end
  end.

(** ** The batch *)

Record Batch : Type := mkBatch {
  mutations : list (StoreMutation string);
  project_events : list Project;
  workspace_events : list Row;
  planned_projects : gset string;
}.

Definition add_project (p : Project) (key json : string) (b : Batch) : Batch :=
  if bool_decide (key ∈ planned_projects b) then b
  else mkBatch (mutations b ++ [SaveProject key (Some json)]) (project_events b ++ [p]) (workspace_events b)
         ({[ key ]} ∪ planned_projects b).

Definition add_row (key json : string) (w : Row) (b : Batch) : Batch :=
  mkBatch (mutations b ++ [SaveWorkspace key (Some json)]) (project_events b) (workspace_events b ++ [w])
    (planned_projects b).

Definition plan_upsert (scopes : option (list string)) (now : Z) (s : S) (key : string) (w : Row) (b : Batch)
    : Batch + CommitError :=
  if negb (String.eqb (ws_key (core w)) key) then inr (KeyMismatch key (ws_key (core w)))
  else
    match project_record_for_workspace scopes now s w with
    | inr e => inr e
    | inl project =>
        let b := match project with Some (p, (k, json)) => add_project p k json b | None => b end in
        match row_json w with
        | None => inr (SerializeWorkspace key)
        | Some json =>
            match get_workspace s key with
            | inr e => inr (StoreFailed e)
            | inl previous => inl (if bool_decide (previous = Some json) then b else add_row key json w b)
            end
        end
    end.

Fixpoint plan_upserts scopes now (s : S) (upserts : list (string * Row)) (b : Batch) : Batch + CommitError :=
  match upserts with
  | [] => inl b
  | (key, w) :: upserts =>
      match plan_upsert scopes now s key w b with
      | inr e => inr e
      | inl b => plan_upserts scopes now s upserts b
      end
  end.

(** The store afterwards, the outcome and what there is to publish. *)
Definition persist_workspace_batch scopes now (upserts : list (string * Row)) (deletes : list string)
    (extra : list (StoreMutation string)) (s : S) : S * CommitOutcome * Batch + CommitError :=
  match plan_upserts scopes now s upserts (mkBatch extra [] [] ∅) with
  | inr e => inr e
  | inl b =>
      let ms := mutations b ++ map DeleteWorkspace deletes in
      match ms with
      | [] => inl (s, Unchanged, b)
      | _ => match apply_batch s ms with
             | inl s => inl (s, Changed, b)
             | inr e => inr (StoreFailed e)
             end
      end
  end.

Definition published (b : Batch) : list Effect :=
  map (fun p => Emit (ProjectUpserted p)) (project_events b)
  ++ map (fun w => Emit (WorkspaceUpserted w)) (workspace_events b).

Definition commit_upsert scopes now (key : string) (w : Row) (d : Daemon S)
    : Daemon S * CommitOutcome + CommitError :=
  match persist_workspace_batch scopes now [(key, w)] [] [] (store d) with
  | inl (s, outcome, b) => inl (effects (published b) (put_store s d), outcome)
  | inr e => inr e
  end.

Definition report_commit_error (context : string) (e : CommitError) (d : Daemon S) : Daemon S :=
  emit (ProviderErrorRetryable "store" (context +:+ ": " +:+ show_commit_error e)) d.

Definition commit_upsert_reported scopes now (key : string) (w : Row) (context : string) (d : Daemon S)
    : Daemon S :=
  match commit_upsert scopes now key w d with
  | inl (d, _) => d
  | inr e => report_commit_error context e d
  end.

(** ** What moves with a workspace *)

Record TerminalRebadgePlan : Type := mkRebadge { rb_from : string; rb_to : string; terminal_ids : list Z }.

Definition metadata_key (backend : string) : string := "terminal:" +:+ backend.

(** The terminals of one workspace and their new metadata. *)
Fixpoint rebadge_entries (from to : string) (l : list (Z * TerminalEntry))
    : list (StoreMutation string) * list Z + CommitError :=
  match l with
  | [] => inl ([], [])
  | (i, e) :: l =>
      match meta e, backend_key e with
      | Some (session, kind), Some backend =>
          if negb (String.eqb session from) || finishing e then rebadge_entries from to l
          else
            match to_json (to, kind) with
            | None => inr (SerializeTerminalMetadata backend)
            | Some value =>
                match rebadge_entries from to l with
                | inl (ms, ids) => inl (SetKv (metadata_key backend) value :: ms, i :: ids)
                | inr e => inr e
                end
            end
      | _, _ => rebadge_entries from to l
      end
  end.

Fixpoint prepare_terminal_rebadges (registry : list (Z * TerminalEntry)) (moves : list (string * string))
    : list (StoreMutation string) * list TerminalRebadgePlan + CommitError :=
  match moves with
  | [] => inl ([], [])
  | (from, to) :: moves =>
      match rebadge_entries from to registry with
      | inr e => inr e
      | inl (ms, ids) =>
          match prepare_terminal_rebadges registry moves with
          | inr e => inr e
          | inl (ms', plans) =>
              inl (ms ++ ms', match ids with [] => plans | _ => mkRebadge from to ids :: plans end)
          end
      end
  end.

Definition PROMPT_HISTORY_MAX_ENTRIES : nat := 200.
Definition PROMPT_HISTORY_MAX_BYTES : nat := Z.to_nat (128 * 1024).

Definition history_bytes (h : list UserPrompt) : nat :=
  foldr (fun p n => (String.length (prompt_text p) + n)%nat) O h.

(** Both loops drop the oldest. *)
Fixpoint cap_bytes (h : list UserPrompt) : list UserPrompt :=
  match h with
  | _ :: (_ :: _) as rest => if (PROMPT_HISTORY_MAX_BYTES <? history_bytes h)%nat then cap_bytes rest else h
  | _ => h
  end.
Definition cap_prompt_history (h : list UserPrompt) : list UserPrompt :=
  cap_bytes (drop (length h - PROMPT_HISTORY_MAX_ENTRIES) h).

Definition prompt_le (a b : UserPrompt) : Prop := timestamp_ms a <= timestamp_ms b.
#[local] Instance prompt_le_dec : RelDecision prompt_le.
Proof. intros a b. unfold prompt_le. apply _. Defined.

Definition workspace_prompt_history_key (session : string) : string := "workspace-msgs:" +:+ session.
Definition workspace_draft_key (session : string) : string := "workspace-draft:" +:+ session.

Definition try_load_prompt_history (s : S) (key : string) : option (list UserPrompt) :=
  match get_kv s key with
  | inl None => Some []
  | inl (Some json) => from_json json
  | inr _ => None
  end.

Definition history_mutations (s : S) (from to : string) : list (StoreMutation string) :=
  let from_msgs := workspace_prompt_history_key from in
  let to_msgs := workspace_prompt_history_key to in
  match try_load_prompt_history s from_msgs, try_load_prompt_history s to_msgs with
  | Some ((_ :: _) as moved), Some kept =>
      match to_json (cap_prompt_history (merge_sort prompt_le (kept ++ moved))) with
      | Some json => [SetKv to_msgs json]
      | None => []
      end ++ [DeleteKv from_msgs]
  | _, _ => []
  end.

Definition draft_mutations (s : S) (from to : string) : list (StoreMutation string) :=
  let from_draft := workspace_draft_key from in
  let to_draft := workspace_draft_key to in
  match get_kv s from_draft with
  | inl (Some draft) =>
      let taken := match get_kv s to_draft with inl (Some _) => true | _ => false end in
      (if negb (is_empty draft) && negb taken then [SetKv to_draft draft] else []) ++ [DeleteKv from_draft]
  | _ => []
  end.

Definition rebadge_workspace_history_mutations (s : S) (from to : string) : list (StoreMutation string) :=
  if String.eqb from to then [] else history_mutations s from to ++ draft_mutations s from to.

Definition declared_storage_key (ws : string) : string := "declared-blocker:" +:+ ws.

Definition load_declared (s : S) (ws : string) : option DeclaredBlocker :=
  match get_kv s (declared_storage_key ws) with inl (Some json) => from_json json | _ => None end.

Definition absorb_declared_mutations (s : S) (from : list string) (into : string) : list (StoreMutation string) :=
  let found := omap (fun key => b ← load_declared s key; Some (key, b)) from in
  match found with
  | [] => []
  | _ =>
      let candidates := map snd found ++ match load_declared s into with Some b => [b] | None => [] end in
      match merge_declared candidates into ≫= to_json with
      | Some json => map (fun kb => DeleteKv (declared_storage_key kb.1)) found
                     ++ [SetKv (declared_storage_key into) json]
      | None => []
      end
  end.

(** ** Moving rows and terminals in one commit *)

Definition rebadge_entry (from to : string) (e : TerminalEntry) : TerminalEntry :=
  match meta e with
  | Some (session, kind) =>
      if String.eqb session from then mkEntry (Some (to, kind)) (backend_key e) (session_id e) (finishing e) else e
  | None => e
  end.

Definition wears (from : string) (reg : gmap Z TerminalEntry) (i : Z) : bool :=
  match e ← reg !! i; meta e with Some (session, _) => String.eqb session from | None => false end.

Definition apply_rebadge (d : Daemon S) (p : TerminalRebadgePlan) : Daemon S :=
  let changed := existsb (wears (rb_from p) (entries d)) (terminal_ids p) in
  let reg := fold_left (fun reg i => alter (rebadge_entry (rb_from p) (rb_to p)) i reg) (terminal_ids p) (entries d) in
  if changed
  then effects [Run (RebadgeRecovery (terminal_ids p) (rb_to p)); Run (RebadgeTokens (rb_from p) (rb_to p));
                Emit (TerminalsRebadged (rb_from p) (rb_to p))] (put_entries reg d)
  else d.

Definition commit_workspace_move scopes now (upserts : list (string * Row)) (deletes : list string)
    (terminal_moves : list (string * string)) (extra : list (StoreMutation string)) (post_commit_events : list Event)
    (d : Daemon S) : Daemon S * CommitOutcome + CommitError :=
  match prepare_terminal_rebadges (map_to_list (entries d)) terminal_moves with
  | inr e => inr e
  | inl (kv, plans) =>
      let history := flat_map (fun p => rebadge_workspace_history_mutations (store d) (rb_from p) (rb_to p)) plans in
      match persist_workspace_batch scopes now upserts deletes (kv ++ extra ++ history) (store d) with
      | inr e => inr e
      | inl (s, outcome, b) =>
          let d := fold_left apply_rebadge plans (put_store s d) in
          inl (effects (published b ++ map Emit post_commit_events) d, outcome)
      end
  end.

(** ** Costs *)

Definition SESSION_COST_KV_PREFIX : string := "meter-cost:".
Definition SESSION_COST_MARK_KV_PREFIX : string := "meter-cost-mark:".

Definition read_cost (s : S) (key : string) : Z :=
  match get_kv s (SESSION_COST_KV_PREFIX +:+ key) with
  | inl (Some text) => default 0 (parse_u64 text)
  | _ => 0
  end.

Definition delete_or_keep (key : string) (s : S) : S := match delete_kv s key with inl s => s | inr _ => s end.

Definition clear_session_cost (s : S) (key : string) : S :=
  delete_or_keep (SESSION_COST_MARK_KV_PREFIX +:+ key) (delete_or_keep (SESSION_COST_KV_PREFIX +:+ key) s).

Definition move_session_cost (s : S) (from to : string) : S * bool :=
  if String.eqb from to then (s, false)
  else
    let moving := read_cost s from in
    if (moving =? 0)%Z then (s, false)
    else
      let total := sat_add u64_max (read_cost s to) moving in
      match set_kv s (SESSION_COST_KV_PREFIX +:+ to) (show_uint total) with
      | inl s => (clear_session_cost s from, true)
      | inr _ => (s, false)
      end.

Definition session_costs (s : S) : list (string * Z) :=
  match list_kv_prefix s SESSION_COST_KV_PREFIX with
  | inl rows => omap (fun kv => key ← strip_prefix SESSION_COST_KV_PREFIX kv.1;
                                micros ← parse_u64 kv.2; Some (key, micros)) rows
  | inr _ => []
  end.

Definition fold_cost (pr_key : string) (acc : S * bool) (key : string) : S * bool :=
  let '(s, moved) := acc in
  let '(s, m) := move_session_cost s key pr_key in (s, moved || m).

Definition fold_issue_costs_into_pr (issue_keys : list string) (pr_key : string) (d : Daemon S) : Daemon S :=
  let '(s, moved_any) := fold_left (fold_cost pr_key) issue_keys (store d, false) in
  let d := put_store s d in
  if moved_any then emit (SessionCosts (session_costs s)) d else d.

End rows.
