(* ===== verification/RowStoreProps.v ===== *)
(** * What a commit of workspace rows keeps true
      ([src/crates/server/src/polling/upsert.rs])

    A client knows the rows from the events of the bus alone.  [synced] says that a step
    of the daemon appended to the bus just what turns the rows stored before it into the
    rows stored after it; every operation that commits is shown to be such a step. *)

From Stdlib Require Import Ascii String.
From S2P Require Import Prelude Text CoreTask WorkStore Epics WorkspaceRow RowStore.

#[global] Open Scope Z_scope.
#[local] Open Scope string_scope.
#[local] Open Scope list_scope.

(** ** Batches

    A batch that is accepted had no empty payload and ran in order. *)
Class BatchLaws (S : Type) `{StoreLaws S string} := {
  apply_batch_runs s ms s' :
    apply_batch s ms = inl s' ->
    exists ops, resolve_all is_empty ms = inl ops /\ rows_of s' = fold_left run_op ops (rows_of s);
}.

Definition memory_batches :
  @BatchLaws (gmap string string) (memory_store is_empty) (memory_laws is_empty).
Proof.
  split. intros s ms s'. cbn. destruct (resolve_all is_empty ms) as [ops|]; [|done].
  intros [= <-]. by exists ops.
Defined.

(** ** What a client sees of one row *)

Definition client_step (key : string) (seen : option Row) (e : Effect) : option Row :=
  match e with
  | Emit (WorkspaceUpserted w) => if String.eqb (ws_key (core w)) key then Some (stamped w) else seen
  | Emit (WorkspaceRemoved k) => if String.eqb k key then None else seen
  | _ => seen
  end.

Definition client_view (key : string) (es : list Effect) (seen : option Row) : option Row :=
  fold_left (client_step key) es seen.

(** An effect that tells a client nothing about rows. *)
Definition quiet (e : Effect) : Prop := forall key seen, client_step key seen e = seen.

Lemma quiet_view key es seen : Forall quiet es -> client_view key es seen = seen.
Proof.
  intros Hq. revert seen. induction Hq as [|e es He _ IH]; intros seen; [done|].
  unfold client_view in *. cbn [fold_left]. by rewrite He.
Qed.

Section keys.

Lemma workspace_row_key_inj a b : row_key a = row_key b -> a = b.
Proof.
  intros H. pose proof (strip_prefix_app "workspace:" a) as Ha. unfold row_key in H.
  rewrite H, strip_prefix_app in Ha. congruence.
Qed.

Lemma row_key_starts a : starts_with "workspace:" (row_key a) = true.
Proof. unfold starts_with, row_key. by rewrite strip_prefix_app. Qed.

Lemma off_row_key k a : starts_with "workspace:" k = false -> k <> row_key a.
Proof. intros Hk ->. by rewrite row_key_starts in Hk. Qed.

End keys.

(** A write beside the rows. *)
Definition off_rows (m : StoreMutation string) : Prop :=
  match m with
  | SetKv k _ | DeleteKv k => starts_with "workspace:" k = false
  | SaveProject _ _ | DeleteProject _ => True
  | SaveWorkspace _ _ | DeleteWorkspace _ => False
  end.

Section view.
Context {S : Type} `{BatchLaws S} `{RowCodecLaws}.

Definition row_read (json : string) : option Row :=
  if is_empty json then None else match decode_row json with inl w => Some w | inr _ => None end.

(** The row a key stands for. *)
Definition stored (s : S) (key : string) : option Row := rows_of s !! row_key key ≫= row_read.

Lemma get_workspace_stored s key r :
  get_workspace s key = inl r ->
  stored s key = match r with Some json => match decode_row json with inl w => Some w | inr _ => None end | None => None end.
Proof.
  unfold get_workspace, get_payload, stored. destruct (get_kv s (row_key key)) as [v|] eqn:E; [|done].
  rewrite <- (get_kv_ok _ _ _ E). destruct v as [json|]; intros [= <-]; [|done]. simpl. unfold row_read.
  by destruct (is_empty json).
Qed.

Lemma load_workspace_stored s key w : load_workspace s key = Some w -> stored s key = Some w.
Proof.
  unfold load_workspace. destruct (get_workspace s key) as [[json|]|] eqn:E; [|done..].
  rewrite (get_workspace_stored _ _ _ E). by destruct (decode_row json).
Qed.

(** *** One mutation, as one row sees it *)

Definition mutation_step (key : string) (v : option Row) (m : StoreMutation string) : option Row :=
  match m with
  | SaveWorkspace k (Some json) => if String.eqb k key then row_read json else v
  | DeleteWorkspace k => if String.eqb k key then None else v
  | _ => v
  end.

Definition plain (m : StoreMutation string) : Prop :=
  match m with SetKv k _ | DeleteKv k => starts_with "workspace:" k = false | _ => True end.

Lemma project_not_row k a : project_row_key k <> row_key a.
Proof. done. Qed.

Lemma run_op_step key m op rows :
  plain m -> WorkStore.resolve is_empty m = inl op ->
  run_op rows op !! row_key key ≫= row_read = mutation_step key (rows !! row_key key ≫= row_read) m.
Proof.
  assert (forall k v, starts_with "workspace:" k = false -> <[k := v]> rows !! row_key key = rows !! row_key key) as Hi.
  { intros k v Hk. by rewrite lookup_insert_ne by by apply off_row_key. }
  assert (forall k, starts_with "workspace:" k = false -> delete k rows !! row_key key = rows !! row_key key) as Hd.
  { intros k Hk. by rewrite lookup_delete_ne by by apply off_row_key. }
  intros Hp. destruct m as [k v|k|k json|k|k json|k]; simpl in Hp |- *.
  - intros [= <-]. cbn. by rewrite Hi.
  - intros [= <-]. cbn. by rewrite Hd.
  - destruct json as [json|]; [|done]. simpl. destruct (is_empty json) eqn:Ej; [done|]. intros [= <-]. cbn [run_op].
    change ("workspace:" ++ k)%string with (row_key k).
    destruct (String.eqb_spec k key) as [->|Hk]; [by rewrite lookup_insert_eq|].
    rewrite lookup_insert_ne; [done|]. by intros ?%workspace_row_key_inj.
  - intros [= <-]. cbn [run_op]. change ("workspace:" ++ k)%string with (row_key k).
    destruct (String.eqb_spec k key) as [->|Hk]; [by rewrite lookup_delete_eq|].
    rewrite lookup_delete_ne; [done|]. by intros ?%workspace_row_key_inj.
  - destruct json as [json|]; [|done]. simpl. destruct (is_empty json); [done|]. intros [= <-]. cbn. by rewrite Hi.
  - intros [= <-]. cbn. by rewrite Hd.
Qed.

Lemma run_ops_steps key ms ops rows :
  Forall plain ms -> resolve_all is_empty ms = inl ops ->
  fold_left run_op ops rows !! row_key key ≫= row_read
  = fold_left (mutation_step key) ms (rows !! row_key key ≫= row_read).
Proof.
  intros Hp. revert ops rows. induction Hp as [|m ms Hm _ IH]; intros ops rows; cbn [resolve_all].
  - by intros [= <-].
  - destruct (WorkStore.resolve is_empty m) as [op|] eqn:Er; [|done].
    destruct (resolve_all is_empty ms) as [ops'|] eqn:Ea; [|done]. intros [= <-]. cbn [fold_left].
    rewrite (IH ops') by done. f_equal. by apply run_op_step.
Qed.

(** No row with an empty payload. *)
Definition filled (m : StoreMutation string) : Prop :=
  match m with SaveWorkspace _ (Some json) => is_empty json = false | _ => True end.

Lemma resolved_filled ms ops : resolve_all is_empty ms = inl ops -> Forall filled ms.
Proof.
  revert ops. induction ms as [|m ms IH]; intros ops; [constructor|]. cbn [resolve_all].
  destruct (WorkStore.resolve is_empty m) as [op|] eqn:Er; [|done]. destruct (resolve_all is_empty ms); [|done].
  intros _. constructor; [|by eapply IH]. destruct m as [| |k [json|]| | |]; try done. simpl in *. by destruct (is_empty json).
Qed.

Lemma batch_view key s ms s' :
  Forall plain ms -> apply_batch s ms = inl s' ->
  Forall filled ms /\ stored s' key = fold_left (mutation_step key) ms (stored s key).
Proof.
  intros Hp Ha. destruct (apply_batch_runs _ _ _ Ha) as (ops & Hr & He). split; [by eapply resolved_filled|].
  unfold stored. rewrite He. by apply run_ops_steps.
Qed.

Lemma off_steps key ms v : Forall off_rows ms -> fold_left (mutation_step key) ms v = v.
Proof. intros Hq. revert v. induction Hq as [|m ms Hm _ IH]; intros v; [done|]. cbn [fold_left]. rewrite IH. by destruct m. Qed.

Lemma off_plain ms : Forall off_rows ms -> Forall plain ms.
Proof. intros Hx. apply (Forall_impl _ _ _ Hx). by intros []. Qed.

Lemma delete_steps key ks v :
  fold_left (mutation_step key) (map DeleteWorkspace ks) v = if bool_decide (key ∈ ks) then None else v.
Proof.
  revert v. induction ks as [|k ks IH]; intros v; [done|]. cbn [map fold_left mutation_step]. rewrite IH.
  destruct (String.eqb_spec k key) as [->|Hk].
  - rewrite (bool_decide_eq_true_2 (key ∈ key :: ks)) by by left. by destruct (bool_decide _).
  - destruct (decide (key ∈ ks)) as [Hin|Hin].
    { by rewrite !bool_decide_eq_true_2 by (done || by right). }
    rewrite !bool_decide_eq_false_2; [done| |done]. intros [?|?]%elem_of_cons; congruence.
Qed.

(** *** One row's payload *)

Definition touches (key : string) (m : StoreMutation string) : bool :=
  match m with SaveWorkspace k _ | DeleteWorkspace k => String.eqb k key | _ => false end.

Lemma run_op_payload key m op rows :
  plain m -> touches key m = false -> WorkStore.resolve is_empty m = inl op -> run_op rows op !! row_key key = rows !! row_key key.
Proof.
  intros Hp Ht Hr. destruct m as [k v|k|k [json|]|k|k [json|]|k]; simpl in Hp, Ht, Hr;
    try (destruct (is_empty json); [done|]); try done; injection Hr as <-; cbn [run_op].
  - rewrite lookup_insert_ne; [done|]. by apply off_row_key.
  - rewrite lookup_delete_ne; [done|]. by apply off_row_key.
  - apply String.eqb_neq in Ht. rewrite lookup_insert_ne; [done|]. by intros ?%workspace_row_key_inj.
  - apply String.eqb_neq in Ht. rewrite lookup_delete_ne; [done|]. by intros ?%workspace_row_key_inj.
  - by rewrite lookup_insert_ne.
  - by rewrite lookup_delete_ne.
Qed.

Lemma batch_payload key s ms s' :
  Forall plain ms -> Forall (fun m => touches key m = false) ms -> apply_batch s ms = inl s' ->
  rows_of s' !! row_key key = rows_of s !! row_key key.
Proof.
  intros Hp Ht Ha. destruct (apply_batch_runs _ _ _ Ha) as (ops & Hr & ->). clear Ha. revert ops Hr.
  generalize (rows_of s). induction ms as [|m ms IH]; intros rows ops; cbn [resolve_all]; [by intros [= <-]|].
  apply Forall_cons in Hp as [Hm Hp]. apply Forall_cons in Ht as [Htm Ht].
  destruct (WorkStore.resolve is_empty m) as [op|] eqn:Er; [|done].
  destruct (resolve_all is_empty ms) as [ops'|]; [|done]. intros [= <-]. cbn [fold_left].
  rewrite (IH Hp Ht _ ops') by done. by eapply run_op_payload.
Qed.

Lemma off_untouched key ms : Forall off_rows ms -> Forall (fun m => touches key m = false) ms.
Proof. intros Hx. apply (Forall_impl _ _ _ Hx). by intros []. Qed.

(** *** A planned batch *)

(** The mutations of a batch say to a store what its events say to a client. *)
Definition matched (b : Batch) (extra : list (StoreMutation string)) : Prop :=
  exists ms, mutations b = extra ++ ms /\ Forall plain ms
    /\ (Forall filled ms -> forall key v, fold_left (mutation_step key) ms v = client_view key (published b) v).

Lemma published_rows key b v :
  client_view key (published b) v = client_view key (map (fun w => Emit (WorkspaceUpserted w)) (workspace_events b)) v.
Proof.
  unfold published, client_view. rewrite fold_left_app. f_equal. apply quiet_view.
  apply Forall_fmap, Forall_true. by intros.
Qed.

Lemma matched_project p k j b extra : matched b extra -> matched (add_project p k j b) extra.
Proof.
  intros (ms & Hm & Hp & Hv). unfold add_project. case_bool_decide; [by exists ms|].
  exists (ms ++ [SaveProject k (Some j)]). cbn [mutations]. rewrite Hm, app_assoc. split_and!; [done| |].
  - apply Forall_app. split; [done|]. by constructor.
  - intros [Hf _]%Forall_app key v. rewrite fold_left_app, Hv by done. by rewrite !published_rows.
Qed.

Lemma decode_stamped w j : row_json w = Some j -> is_empty j = false -> row_read j = Some (stamped w).
Proof.
  intros Hj Hne. unfold row_read, decode_row, decode_persisted. rewrite Hne, (row_round_trip _ _ Hj).
  change (schema (stamped w)) with WORKSPACE_SCHEMA_VERSION. by rewrite Z.ltb_irrefl.
Qed.

Lemma matched_row k j w b extra :
  row_json w = Some j -> ws_key (core w) = k -> matched b extra -> matched (add_row k j w b) extra.
Proof.
  intros Hj Hk (ms & Hm & Hp & Hv). exists (ms ++ [SaveWorkspace k (Some j)]). unfold add_row. cbn [mutations].
  rewrite Hm, app_assoc. split_and!; [done| |].
  - apply Forall_app. split; [done|]. by constructor.
  - intros [Hf Hne]%Forall_app key v. rewrite fold_left_app, Hv by done. apply Forall_inv in Hne.
    rewrite !published_rows. cbn [workspace_events fold_left mutation_step].
    rewrite map_app. unfold client_view. rewrite fold_left_app. cbn [map fold_left client_step]. by rewrite Hk, (decode_stamped w j Hj Hne).
Qed.

Context `{Codec Project}.

Lemma plan_upsert_matched scopes now (s : S) key w b b' extra :
  plan_upsert scopes now s key w b = inl b' -> matched b extra -> matched b' extra.
Proof.
  unfold plan_upsert. destruct (String.eqb_spec (ws_key (core w)) key) as [Hk|]; [|done]. cbn [negb].
  destruct (project_record_for_workspace scopes now s w) as [project|]; [|done].
  destruct (row_json w) as [json|] eqn:Ej; [|done]. destruct (get_workspace s key) as [previous|]; [|done].
  intros [= <-] Hm.
  assert (matched match project with Some (p, (k, j)) => add_project p k j b | None => b end extra) as Hm'.
  { destruct project as [[p [k j]]|]; [by apply matched_project|done]. }
  case_bool_decide; [done|by apply matched_row].
Qed.

Lemma plan_upserts_matched scopes now (s : S) ups b b' extra :
  plan_upserts scopes now s ups b = inl b' -> matched b extra -> matched b' extra.
Proof.
  revert b. induction ups as [|[key w] ups IH]; intros b; cbn [plan_upserts]; [by intros [= <-]|].
  destruct (plan_upsert scopes now s key w b) as [b1|] eqn:E; [|done]. intros Hp Hm.
  eapply IH; [done|]. by eapply plan_upsert_matched.
Qed.

(** Only the planned rows are touched. *)
Lemma plan_upserts_touch scopes now (s : S) ups b b' key :
  plan_upserts scopes now s ups b = inl b' -> key ∉ map fst ups ->
  Forall (fun m => touches key m = false) (mutations b) -> Forall (fun m => touches key m = false) (mutations b').
Proof.
  revert b. induction ups as [|[k w] ups IH]; intros b; cbn [plan_upserts map]; [by intros [= <-]|].
  destruct (plan_upsert scopes now s k w b) as [b1|] eqn:E; [|done]. intros Hp [Hk Hin]%not_elem_of_cons Hb.
  eapply IH; [done..|]. revert E. unfold plan_upsert. destruct (negb _); [done|].
  destruct (project_record_for_workspace scopes now s w) as [project|]; [|done].
  destruct (row_json w) as [json|]; [|done]. destruct (get_workspace s k) as [previous|]; [|done]. intros [= <-].
  assert (Forall (fun m => touches key m = false)
    (mutations match project with Some (p, (k', j)) => add_project p k' j b | None => b end)) as Hb1.
  { destruct project as [[p [k' j]]|]; [|done]. unfold add_project. destruct (bool_decide (k' ∈ planned_projects b)); [exact Hb|].
    cbn [mutations]. apply Forall_app. split; [done|by constructor]. }
  destruct (bool_decide _); [done|]. unfold add_row. cbn [mutations]. apply Forall_app. split; [done|].
  constructor; [|done]. cbn. apply String.eqb_neq. simpl in Hk. congruence.
Qed.

Lemma persist_payload scopes now ups deletes extra s s' outcome b key :
  Forall off_rows extra -> key ∉ map fst ups -> key ∉ deletes ->
  persist_workspace_batch scopes now ups deletes extra s = inl (s', outcome, b) ->
  rows_of s' !! row_key key = rows_of s !! row_key key.
Proof.
  intros Hx Hu Hd. unfold persist_workspace_batch.
  destruct (plan_upserts scopes now s ups (mkBatch extra [] [] ∅)) as [b'|] eqn:Ep; [|done].
  assert (matched b' extra) as (ms & Hms & Hp & _).
  { eapply plan_upserts_matched; [done|]. exists []. split_and!; [by rewrite app_nil_r|constructor|done]. }
  pose proof (plan_upserts_touch _ _ _ _ _ _ key Ep Hu (off_untouched key _ Hx)) as Ht.
  assert (forall s', apply_batch s (mutations b' ++ map DeleteWorkspace deletes) = inl s' ->
    rows_of s' !! row_key key = rows_of s !! row_key key) as Hb.
  { intros s1. apply batch_payload.
    - rewrite Hms, !Forall_app. split_and!; [by apply off_plain|done|]. apply Forall_fmap, Forall_true. by intros.
    - apply Forall_app. split; [done|]. apply Forall_fmap, Forall_forall. intros k Hk. cbn.
      apply String.eqb_neq. congruence. }
  destruct (mutations b' ++ map DeleteWorkspace deletes) as [|m l]; [by intros [= <- _ _]|].
  destruct (apply_batch s (m :: l)) as [s1|] eqn:Ea; [|done]. intros [= <- _ _]. by apply Hb.
Qed.

(** A batch that is committed changes the rows the way its events say. *)
Lemma persist_view scopes now ups deletes extra s s' outcome b key :
  Forall off_rows extra ->
  persist_workspace_batch scopes now ups deletes extra s = inl (s', outcome, b) ->
  stored s' key = if bool_decide (key ∈ deletes) then None else client_view key (published b) (stored s key).
Proof.
  intros Hx. unfold persist_workspace_batch.
  destruct (plan_upserts scopes now s ups (mkBatch extra [] [] ∅)) as [b'|] eqn:Ep; [|done].
  assert (matched b' extra) as (ms & Hms & Hp & Hv).
  { eapply plan_upserts_matched; [done|]. exists []. split_and!; [by rewrite app_nil_r|constructor|done]. }
  assert (forall s', apply_batch s (mutations b' ++ map DeleteWorkspace deletes) = inl s' ->
    stored s' key = if bool_decide (key ∈ deletes) then None else client_view key (published b') (stored s key)) as Hb.
  { intros s1 Ha. apply (batch_view key) in Ha as [Hf ->].
    - rewrite Hms in *. apply Forall_app in Hf as [[_ Hf]%Forall_app _].
      rewrite !fold_left_app, (off_steps _ extra) by done. by rewrite Hv, delete_steps.
    - rewrite Hms, !Forall_app. split_and!; [by apply off_plain|done|]. apply Forall_fmap, Forall_true. by intros. }
  destruct (mutations b' ++ map DeleteWorkspace deletes) as [|m l] eqn:El.
  - intros [= <- _ <-]. apply app_eq_nil in El as [El Ed]. rewrite El in Hms. symmetry in Hms.
    apply app_eq_nil in Hms as [_ ->]. destruct deletes; [|done]. rewrite <- (Hv (Forall_nil_2 _)). done.
  - destruct (apply_batch s (m :: l)) as [s1|] eqn:Ea; [|done]. intros [= <- _ <-]. by apply Hb.
Qed.

(** ** Steps a client can follow *)

Definition synced (d d' : Daemon S) : Prop :=
  exists es, trace d' = trace d ++ es
    /\ forall key, stored (store d') key = client_view key es (stored (store d) key).

#[export] Instance synced_preorder : PreOrder synced.
Proof.
  split.
  - intros d. exists []. by rewrite app_nil_r.
  - intros d1 d2 d3 (es & Ht & Hs) (es' & Ht' & Hs'). exists (es ++ es'). rewrite Ht', Ht, app_assoc. split; [done|].
    intros key. unfold client_view in *. by rewrite Hs', Hs, fold_left_app.
Qed.

Lemma synced_effects es d : Forall quiet es -> synced d (effects es d).
Proof. intros Hq. exists es. split; [done|]. intros key. by rewrite quiet_view. Qed.

Lemma synced_same d d' : store d' = store d -> trace d' = trace d -> synced d d'.
Proof. intros Hs Ht. exists []. rewrite Ht, app_nil_r. split; [done|]. intros key. by rewrite Hs. Qed.

(** A store whose rows are those of before, to the byte. *)
Definition same_rows (s s' : S) : Prop := forall key, rows_of s' !! row_key key = rows_of s !! row_key key.

Lemma same_stored s s' key : same_rows s s' -> stored s' key = stored s key.
Proof. intros Hs. unfold stored. by rewrite Hs. Qed.

Lemma synced_store s d : same_rows (store d) s -> synced d (put_store s d).
Proof. intros Hs. exists []. split; [by rewrite app_nil_r|]. intros key. by apply same_stored. Qed.

Lemma set_kv_same k v s s' : starts_with "workspace:" k = false -> set_kv s k v = inl s' -> same_rows s s'.
Proof.
  intros Hk Hs key. rewrite (set_kv_ok _ _ _ _ Hs), lookup_insert_ne; [done|]. by apply off_row_key.
Qed.

Lemma delete_kv_same k s s' : starts_with "workspace:" k = false -> delete_kv s k = inl s' -> same_rows s s'.
Proof.
  intros Hk Hs key. rewrite (delete_kv_ok _ _ _ Hs), lookup_delete_ne; [done|]. by apply off_row_key.
Qed.

Lemma commit_upsert_synced scopes now key w (d d' : Daemon S) outcome :
  commit_upsert scopes now key w d = inl (d', outcome) -> synced d d'.
Proof.
  unfold commit_upsert. destruct (persist_workspace_batch _ _ _ _ _ _) as [[[s o] b]|] eqn:Ep; [|done].
  intros [= <- <-]. exists (published b). split; [done|]. intros k.
  exact (persist_view _ _ _ _ _ _ _ _ _ k (Forall_nil_2 _) Ep).
Qed.

Lemma report_synced show context e (d : Daemon S) : synced d (report_commit_error show context e d).
Proof. apply synced_effects. by constructor. Qed.

Lemma commit_reported_synced show scopes now key w context (d : Daemon S) :
  synced d (commit_upsert_reported show scopes now key w context d).
Proof.
  unfold commit_upsert_reported. destruct (commit_upsert scopes now key w d) as [[d' o]|e] eqn:Ec.
  - by eapply commit_upsert_synced.
  - apply report_synced.
Qed.

(** *** What moves beside the rows *)

Context `{Codec (list UserPrompt)} `{Codec DeclaredBlocker} `{Codec (string * TerminalKind)}.

Lemma rebadge_entries_off from to l ms ids : rebadge_entries from to l = inl (ms, ids) -> Forall off_rows ms.
Proof.
  revert ms ids. induction l as [|[i e] l IH]; intros ms ids; cbn [rebadge_entries]; [by intros [= <- _]|].
  destruct (meta e) as [[session kind]|]; [|by apply IH]. destruct (backend_key e) as [backend|]; [|by apply IH].
  destruct (negb _ || finishing e); [by apply IH|]. destruct (to_json (to, kind)) as [value|]; [|done].
  destruct (rebadge_entries from to l) as [[ms' ids']|] eqn:E; [|done]. intros [= <- _].
  constructor; [done|]. by eapply IH.
Qed.

Lemma terminal_rebadges_off reg moves ms plans :
  prepare_terminal_rebadges reg moves = inl (ms, plans) -> Forall off_rows ms.
Proof.
  revert ms plans. induction moves as [|[from to] moves IH]; intros ms plans; cbn [prepare_terminal_rebadges].
  - by intros [= <- _].
  - destruct (rebadge_entries from to reg) as [[ms1 ids]|] eqn:E1; [|done].
    destruct (prepare_terminal_rebadges reg moves) as [[ms2 ps]|]; [|done]. intros [= <- _].
    apply Forall_app. split; [by eapply rebadge_entries_off|by eapply IH].
Qed.

Lemma history_off (s : S) from to : Forall off_rows (rebadge_workspace_history_mutations s from to).
Proof.
  unfold rebadge_workspace_history_mutations. destruct (String.eqb from to); [done|]. apply Forall_app. split.
  - unfold history_mutations. destruct (try_load_prompt_history s _) as [[|p l]|]; [done| |done].
    destruct (try_load_prompt_history s _); [|done]. apply Forall_app. split; [|by constructor].
    destruct (to_json _); [by constructor|done].
  - unfold draft_mutations. destruct (get_kv s _) as [[draft|]|]; [|done..]. apply Forall_app. split; [|by constructor].
    destruct (negb _ && negb _); [by constructor|done].
Qed.

Lemma declared_off (s : S) from into : Forall off_rows (absorb_declared_mutations s from into).
Proof.
  unfold absorb_declared_mutations. destruct (omap _ from) as [|kb l]; [done|].
  destruct (merge_declared _ into ≫= to_json); [|done]. apply Forall_app. split; [|by constructor].
  apply Forall_fmap, Forall_true. by intros.
Qed.

(** Terminals that change their badge tell a client nothing about rows. *)
Lemma rebadge_frame plans (d : Daemon S) :
  exists es, Forall quiet es /\ trace (fold_left apply_rebadge plans d) = trace d ++ es
    /\ store (fold_left apply_rebadge plans d) = store d /\ rejected (fold_left apply_rebadge plans d) = rejected d
    /\ deleted_workspaces (fold_left apply_rebadge plans d) = deleted_workspaces d.
Proof.
  revert d. induction plans as [|p plans IH]; intros d; cbn [fold_left].
  - exists []. by rewrite app_nil_r.
  - destruct (IH (apply_rebadge d p)) as (es & Hq & Ht & Hs & Hr & Hd). unfold apply_rebadge in *.
    destruct (existsb _ _); [|by exists es].
    exists ([Run (RebadgeRecovery (terminal_ids p) (rb_to p)); Run (RebadgeTokens (rb_from p) (rb_to p));
             Emit (TerminalsRebadged (rb_from p) (rb_to p))] ++ es).
    rewrite Ht, Hs, Hr, Hd. cbn [trace effects put_entries]. rewrite <- app_assoc.
    split_and!; [|done..]. apply Forall_app. split; [|done]. do 3 (constructor; [done|]). constructor.
Qed.

(** The rows of a move, when it commits: what is published, then the deleted rows go. *)
Lemma move_commits scopes now ups deletes moves extra post (d d' : Daemon S) outcome :
  Forall off_rows extra ->
  commit_workspace_move scopes now ups deletes moves extra post d = inl (d', outcome) ->
  rejected d' = rejected d /\ deleted_workspaces d' = deleted_workspaces d
  /\ exists es b, Forall quiet es /\ trace d' = trace d ++ es ++ published b ++ map Emit post
    /\ (exists before, plan_upserts scopes now (store d) ups (mkBatch before [] [] ∅) = inl b)
    /\ (forall key, stored (store d') key
         = if bool_decide (key ∈ deletes) then None else client_view key (published b) (stored (store d) key))
    /\ (forall key, key ∉ map fst ups -> key ∉ deletes ->
         rows_of (store d') !! row_key key = rows_of (store d) !! row_key key).
Proof.
  intros Hx. unfold commit_workspace_move.
  destruct (prepare_terminal_rebadges _ moves) as [[kv plans]|] eqn:Er; [|done].
  destruct (persist_workspace_batch _ _ _ _ _ _) as [[[s o] b]|] eqn:Ep; [|done]. intros [= <- <-].
  destruct (rebadge_frame plans (put_store s d)) as (es & Hq & Ht & Hs & Hr & Hd).
  cbn [effects trace store rejected deleted_workspaces]. rewrite Ht, Hs, Hr, Hd. split_and!; [done..|].
  assert (Forall off_rows (kv ++ extra ++ flat_map (fun p =>
    rebadge_workspace_history_mutations (store d) (rb_from p) (rb_to p)) plans)) as Hoff.
  { rewrite !Forall_app. split_and!; [by eapply terminal_rebadges_off|done|].
    apply Forall_flat_map, Forall_true. intros p. apply history_off. }
  exists es, b. split_and!; [done|by rewrite <- !app_assoc| | |].
  - unfold persist_workspace_batch in Ep. destruct (plan_upserts _ _ _ _ _) as [b'|] eqn:El; [|done].
    destruct (mutations b' ++ _); [|destruct (apply_batch _ _); [|done]]; injection Ep as <- _ <-; by eauto.
  - intros key. by eapply persist_view.
  - intros key Hu Hd'. by eapply persist_payload.
Qed.

Lemma move_synced scopes now ups deletes moves extra post (d d' : Daemon S) outcome :
  Forall off_rows extra ->
  (forall key v, client_view key (map Emit post) v = if bool_decide (key ∈ deletes) then None else v) ->
  commit_workspace_move scopes now ups deletes moves extra post d = inl (d', outcome) -> synced d d'.
Proof.
  intros Hx Hpost Hc. destruct (move_commits _ _ _ _ _ _ _ _ _ _ Hx Hc) as (_ & _ & es & b & Hq & Ht & _ & Hv & _).
  exists (es ++ published b ++ map Emit post). split; [done|]. intros key. rewrite Hv.
  pose proof (quiet_view key es (stored (store d) key) Hq) as Hes. unfold client_view in *.
  by rewrite !fold_left_app, Hpost, Hes.
Qed.

(** *** Costs *)

Lemma same_rows_trans (s1 s2 s3 : S) : same_rows s1 s2 -> same_rows s2 s3 -> same_rows s1 s3.
Proof. intros H1' H2' key. by rewrite H2', H1'. Qed.

Lemma delete_or_keep_same k (s : S) : starts_with "workspace:" k = false -> same_rows s (delete_or_keep k s).
Proof. intros Hk. unfold delete_or_keep. destruct (delete_kv s k) eqn:E; [by eapply delete_kv_same|done]. Qed.

Lemma move_cost_same (s : S) from to : same_rows s (move_session_cost s from to).1.
Proof.
  unfold move_session_cost. destruct (String.eqb from to); [done|]. destruct (_ =? 0)%Z; [done|].
  destruct (set_kv s _ _) as [s'|] eqn:E; [|done]. cbn [fst]. eapply same_rows_trans.
  - by eapply set_kv_same; [|exact E].
  - unfold clear_session_cost. eapply same_rows_trans; by apply delete_or_keep_same.
Qed.

Lemma fold_cost_same pr_key keys acc : same_rows acc.1 (fold_left (fold_cost pr_key) keys acc).1.
Proof.
  revert acc. induction keys as [|k keys IH]; intros acc; [done|]. cbn [fold_left].
  apply (same_rows_trans _ (fold_cost pr_key acc k).1); [|apply IH]. destruct acc as [s m].
  pose proof (move_cost_same s k pr_key) as Hm. unfold fold_cost. by destruct (move_session_cost s k pr_key).
Qed.

Lemma fold_costs_synced keys pr_key (d : Daemon S) : synced d (fold_issue_costs_into_pr keys pr_key d).
Proof.
  unfold fold_issue_costs_into_pr. pose proof (fold_cost_same pr_key keys (store d, false)) as Hs.
  destruct (fold_left _ keys _) as [s moved]. cbn [fst] in Hs. destruct moved; [|by apply synced_store].
  transitivity (put_store s d); [by apply synced_store|]. apply synced_effects. by constructor.
Qed.

Lemma fold_costs_frame keys pr_key (d : Daemon S) :
  rejected (fold_issue_costs_into_pr keys pr_key d) = rejected d
  /\ deleted_workspaces (fold_issue_costs_into_pr keys pr_key d) = deleted_workspaces d
  /\ same_rows (store d) (store (fold_issue_costs_into_pr keys pr_key d)).
Proof.
  unfold fold_issue_costs_into_pr. pose proof (fold_cost_same pr_key keys (store d, false)) as Hs.
  destruct (fold_left _ keys _) as [s moved]. by destruct moved.
Qed.

End view.
