(* ===== verification/Reaper.v ===== *)
(** * The session reaper

    The opt-in sweep that stops the terminals of workspaces whose work is over
    ([src/crates/server/src/session_reaper.rs]).

    A stored row is read by plain serde ([row_of_json] of RowStore.v).  Between the choice of
    terminals and the kill others run: whether a terminal is still live when its lock is
    held, and whether the backend kills it, are arguments.  What [detach_killed_terminal]
    does beside the registry -- events, claims, rows -- is left out, as is the notice. *)

From S2P Require Import Prelude CoreTask WorkspaceRow RowStore AutoFix StateMachine TerminalFold.

Definition FIRST_SWEEP_DELAY : Z := secs 120.
Definition SWEEP_INTERVAL : Z := secs 3600.

Definition is_ended (s : TaskState) : bool := match s with Merged | Closed => true | _ => false end.

Definition closed_beyond (w : Workspace) (threshold now : Z) : bool :=
  match primary_task w with
  | None => false
  | Some task =>
      if negb (is_ended (state task)) then false
      else let ended := default (updated_at task) (closed_at task) in
           if chrono_max <? threshold then false else threshold <=? now - ended
  end.

Section Sweep.
Context `{RowCodec} (acquire_live kill : Z -> string -> bool).

(** The terminals of a workspace, by the registry. *)
Definition to_kill (key_str : string) (reg : Registry) : list (Z * string) :=
  omap (fun '(tid, e) =>
    if negb (finishing e) && bool_decide (meta e = Some key_str) then (fun k => (tid, k)) <$> backend_key e else None)
    (map_to_list reg).

Definition detach_killed_terminal (tid : Z) (backend_key : string) (reg : Registry) : Registry :=
  match claim_teardown tid backend_key reg with
  | (reg, Claimed _ _) => finish_teardown tid reg
  | (reg, _) => reg
  end.

(** The registry and the terminals killed so far. *)
Definition reap_terminal (s : Registry * list (Z * string)) (x : Z * string) : Registry * list (Z * string) :=
  let '(reg, killed) := s in
  let '(tid, backend_key) := x in
  if negb (acquire_live tid backend_key) then s
  else if negb (kill tid backend_key) then s
  else (detach_killed_terminal tid backend_key reg, killed ++ [x]).

Definition reap_workspace_terminals (key_str : string) (s : Registry * list (Z * string)) : Registry * list (Z * string) :=
  fold_left reap_terminal (to_kill key_str s.1) s.

(** The key of a row whose terminals are to go. *)
Definition reaped_key (threshold now : Z) (workspace_json : option string) : option string :=
  match workspace_json with
  | None => None
  | Some json =>
      match row_of_json json with
      | None => None
      | Some w => if closed_beyond (core w) threshold now then Some (ws_key (core w)) else None
      end
  end.

Definition sweep_record (threshold now : Z) (s : Registry * list (Z * string)) (workspace_json : option string) : Registry * list (Z * string) :=
  match reaped_key threshold now workspace_json with Some key_str => reap_workspace_terminals key_str s | None => s end.

(** [None]: the rows could not be listed. *)
Definition sweep_with (records : option (list (option string))) (threshold now : Z) (reg : Registry) : Registry * list (Z * string) :=
  match records with
  | None => (reg, [])
  | Some records => fold_left (sweep_record threshold now) records (reg, [])
  end.

(** [reap_closed_after] is [None] unless the user asked for the sweep. *)
Definition sweep (reap_closed_after : option Z) (records : option (list (option string))) (now : Z) (reg : Registry) : Registry * list (Z * string) :=
  match reap_closed_after with None => (reg, []) | Some threshold => sweep_with records threshold now reg end.

(** ** What a sweep does *)

(** A terminal that is live under a key. *)
Definition live_under (reg : Registry) (tid : Z) (backend : string) (key_str : string) : Prop :=
  exists e, reg !! tid = Some e /\ finishing e = false /\ meta e = Some key_str /\ backend_key e = Some backend.

Lemma to_kill_spec key_str reg tid backend : (tid, backend) ∈ to_kill key_str reg <-> live_under reg tid backend key_str.
Proof.
  unfold to_kill, live_under. rewrite list_elem_of_omap. split.
  - intros ([t e] & Hin & He). apply elem_of_map_to_list in Hin. destruct (finishing e) eqn:Ef; [done|]. cbn in He.
    case_bool_decide as Hm; [|done]. destruct (backend_key e) as [k|] eqn:Ek; [|done]. cbn in He. injection He as -> ->. by exists e.
  - intros (e & Hl & Hf & Hm & Hk). exists (tid, e). split; [by apply elem_of_map_to_list|]. by rewrite Hf, bool_decide_eq_true_2, Hk by done.
Qed.

(** The registry without what was killed, and what was. *)
Definition swept (keys : string -> Prop) (reg : Registry) (s : Registry * list (Z * string)) : Prop :=
  (forall tid, s.1 !! tid = if bool_decide (tid ∈ map fst s.2) then None else reg !! tid)
  /\ (forall tid backend, (tid, backend) ∈ s.2 ->
        acquire_live tid backend = true /\ kill tid backend = true /\ exists key_str, keys key_str /\ live_under reg tid backend key_str).

Lemma swept_terminal keys reg s x key_str :
  keys key_str -> swept keys reg s -> live_under reg x.1 x.2 key_str ->
  swept keys reg (reap_terminal s x) /\ (forall y, y ∈ s.2 -> y ∈ (reap_terminal s x).2)
  /\ (acquire_live x.1 x.2 = true -> kill x.1 x.2 = true -> x ∈ (reap_terminal s x).2).
Proof.
  intros Hkey [Hreg Hk] Hx. destruct s as [r killed], x as [tid backend]. cbn in *.
  destruct (acquire_live tid backend) eqn:Ea; [|split; [by split|]; split; [done|]; congruence].
  destruct (kill tid backend) eqn:Eb; [|split; [by split|]; split; [done|]; congruence]. cbn.
  split; [|split; [intros y Hy; apply elem_of_app; by left|intros _ _; apply elem_of_app; right; by apply list_elem_of_singleton]].
  assert (forall u, detach_killed_terminal tid backend r !! u = if decide (u = tid) then None else r !! u) as Hd.
  { intros u. unfold detach_killed_terminal, claim_teardown. destruct (r !! tid) as [e|] eqn:E.
    - rewrite Hreg in E. case_bool_decide; [done|]. destruct Hx as (e' & He' & Hf & _ & Hbk). rewrite He' in E. injection E as ->.
      rewrite Hbk. rewrite bool_decide_eq_true_2 by done. cbn. rewrite Hf. unfold finish_teardown. destruct (decide (u = tid)) as [->|Hne].
      + apply lookup_delete_eq.
      + rewrite lookup_delete_ne, lookup_insert_ne by done. done.
    - destruct (decide (u = tid)) as [->|Hne]; [done|done]. }
  split.
  - intros u. cbn [fst snd]. rewrite Hd, Hreg, map_app. cbn [map fst]. destruct (decide (u = tid)) as [->|Hne].
    + rewrite bool_decide_eq_true_2; [done|]. apply elem_of_app. right. by apply list_elem_of_singleton.
    + erewrite bool_decide_ext; [done|]. rewrite elem_of_app, list_elem_of_singleton. naive_solver.
  - intros t b [Hin|Hin]%elem_of_app; [by apply Hk|]. apply list_elem_of_singleton in Hin as [= -> ->]. split; [done|]. split; [done|]. by exists key_str.
Qed.

Lemma swept_all keys reg key_str l s :
  keys key_str -> swept keys reg s -> (forall x, x ∈ l -> live_under reg x.1 x.2 key_str) ->
  swept keys reg (fold_left reap_terminal l s) /\ (forall y, y ∈ s.2 -> y ∈ (fold_left reap_terminal l s).2)
  /\ (forall x, x ∈ l -> acquire_live x.1 x.2 = true -> kill x.1 x.2 = true -> x ∈ (fold_left reap_terminal l s).2).
Proof.
  intros Hkey. revert s. induction l as [|x l IH]; intros s Hs Hl; [split; [done|]; split; [done|]; intros x Hx; by apply elem_of_nil in Hx|].
  destruct (swept_terminal keys reg s x key_str Hkey Hs (Hl x ltac:(by left))) as (Hs' & Hmon & Hin).
  destruct (IH (reap_terminal s x) Hs' ltac:(intros y Hy; apply Hl; by right)) as (H1 & H2 & H3). cbn [fold_left].
  split; [done|]. split; [intros y Hy; by apply H2, Hmon|]. intros y [->|Hy]%elem_of_cons Ha Hk; [by apply H2, Hin|by apply H3].
Qed.

Lemma swept_live reg s keys tid backend key_str : swept keys reg s -> live_under s.1 tid backend key_str -> live_under reg tid backend key_str.
Proof. intros [Hreg _] (e & Hl & Hr). rewrite Hreg in Hl. case_bool_decide; [done|]. by exists e. Qed.

Lemma swept_records keys reg threshold now records s :
  (forall json key_str, json ∈ records -> reaped_key threshold now json = Some key_str -> keys key_str) -> swept keys reg s ->
  let s' := fold_left (sweep_record threshold now) records s in
  swept keys reg s' /\ (forall y, y ∈ s.2 -> y ∈ s'.2)
  /\ forall json key_str tid backend, json ∈ records -> reaped_key threshold now json = Some key_str -> live_under reg tid backend key_str ->
       acquire_live tid backend = true -> kill tid backend = true -> (tid, backend) ∈ s'.2.
Proof.
  cbv zeta. revert s. induction records as [|json records IH]; intros s Hkeys Hs.
  { split; [done|]. split; [done|]. intros json k t b Hj. by apply elem_of_nil in Hj. }
  cbn [fold_left]. set (s1 := sweep_record threshold now s json).
  assert (swept keys reg s1 /\ (forall y, y ∈ s.2 -> y ∈ s1.2)
    /\ forall key_str tid backend, reaped_key threshold now json = Some key_str -> live_under reg tid backend key_str ->
         acquire_live tid backend = true -> kill tid backend = true -> (tid, backend) ∈ s1.2) as (H1 & H2 & H3).
  { unfold s1, sweep_record. destruct (reaped_key threshold now json) as [key_str|] eqn:E; [|split; [done|]; split; [done|]; intros ? ? ? [=]].
    assert (keys key_str) as Hk by (eapply Hkeys; [by left|exact E]).
    destruct (swept_all keys reg key_str (to_kill key_str s.1) s Hk Hs) as (Ha & Hb & Hc).
    { intros [t b] Hin. apply to_kill_spec in Hin. by eapply swept_live. }
    split; [exact Ha|]. split; [exact Hb|]. intros k t b [= <-] Hl Hacq Hkill.
    destruct (decide (t ∈ map fst s.2)) as [Hin|Hin].
    - apply list_elem_of_fmap in Hin as ([t' b'] & Ht & Hin). cbn in Ht. subst t'. destruct Hs as [_ Hs]. destruct (Hs _ _ Hin) as (_ & _ & k' & _ & e' & He' & _ & _ & Hb').
      destruct Hl as (e & He & _ & _ & Hbe). assert (b' = b) as -> by congruence. by apply Hb.
    - apply (Hc (t, b)); [|done|done]. apply to_kill_spec. destruct Hl as (e & He & Hr). exists e. destruct Hs as [Hs _]. rewrite Hs.
      by rewrite bool_decide_eq_false_2. }
  destruct (IH s1) as (I1 & I2 & I3); [intros j k Hj; apply Hkeys; by right|done|]. split; [done|]. split; [intros y Hy; by apply I2, H2|].
  intros j k t b [->|Hj]%elem_of_cons Hr Hl Ha Hk; [by apply I2, (H3 k)|by apply (I3 j k)].
Qed.

(** A sweep stops exactly the terminals that are live under the key of a readable row whose
    work was merged or closed for the time the user asked for, as long as they are still live
    and the backend kills them; these leave the registry, every other entry stays as it is,
    and a sweep the user did not ask for, or that cannot list the rows, stops nothing. *)
Theorem a_sweep_stops_what_is_over records reap_closed_after now reg :
  let '(reg', killed) := sweep reap_closed_after records now reg in
  (forall tid backend, (tid, backend) ∈ killed <->
     acquire_live tid backend = true /\ kill tid backend = true
     /\ exists threshold rows json w, reap_closed_after = Some threshold /\ records = Some rows /\ Some json ∈ rows /\ row_of_json json = Some w
          /\ closed_beyond (core w) threshold now = true /\ live_under reg tid backend (ws_key (core w)))
  /\ forall tid, reg' !! tid = if bool_decide (tid ∈ map fst killed) then None else reg !! tid.
Proof.
  unfold sweep, sweep_with. destruct reap_closed_after as [threshold|].
  2:{ split; [|intros tid; by rewrite bool_decide_eq_false_2 by apply not_elem_of_nil]. intros tid backend. split; [intros Hin; by apply elem_of_nil in Hin|].
      by intros (_ & _ & ? & ? & ? & ? & ? & _). }
  destruct records as [rows|].
  2:{ split; [|intros tid; by rewrite bool_decide_eq_false_2 by apply not_elem_of_nil]. intros tid backend. split; [intros Hin; by apply elem_of_nil in Hin|].
      by intros (_ & _ & ? & ? & ? & ? & _ & ? & _). }
  set (keys := fun k => exists json w, Some json ∈ rows /\ row_of_json json = Some w /\ closed_beyond (core w) threshold now = true /\ ws_key (core w) = k).
  assert (forall json k, json ∈ rows -> reaped_key threshold now json = Some k -> keys k) as Hkeys.
  { intros json k Hj Hk. unfold reaped_key in Hk. destruct json as [json|]; [|done]. destruct (row_of_json json) as [w|] eqn:Ew; [|done].
    destruct (closed_beyond _ _ _) eqn:Ec; [|done]. injection Hk as <-. by exists json, w. }
  destruct (swept_records keys reg threshold now rows (reg, [])) as ([Hreg Hk] & _ & Hall); [done|by split; [intros tid; rewrite bool_decide_eq_false_2 by apply not_elem_of_nil|intros t b Hin; apply elem_of_nil in Hin]|].
  destruct (fold_left (sweep_record threshold now) rows (reg, [])) as [reg' killed]. cbn in *. split; [|done]. intros tid backend. split.
  - intros Hin. destruct (Hk _ _ Hin) as (Ha & Hb & k & (json & w & Hj & Hw & Hc & <-) & Hl). split; [done|]. split; [done|]. by exists threshold, rows, json, w.
  - intros (Ha & Hb & t & r & json & w & [= <-] & [= <-] & Hj & Hw & Hc & Hl). eapply (Hall (Some json)); [done| |exact Hl|done|done].
    unfold reaped_key. by rewrite Hw, Hc.
Qed.

End Sweep.
