(* ===== verification/Collapse.v ===== *)
(** * Which rows a pull request absorbs ([src/crates/server/src/polling/mod.rs])

    A pull request stands for the issues it closes: their rows fold into its own.  What
    names a row to fold: the closing references of the tracker, the name of a branch
    lazybox cut for an issue, a ticket that links to the pull request, and a scratch row
    the pull request grew out of.  The same list plans the locks and drives the merge
    (PollUpsert.v). *)

From Stdlib Require Import Ascii String.
From S2P Require Import Prelude Text CoreTask WorkStore Epics WorkspaceRow RowStore.
From S2P Require Work.

#[global] Open Scope Z_scope.
#[local] Open Scope string_scope.
#[local] Open Scope list_scope.

(** The row an issue's id stands for. *)
Definition issue_id_to_workspace_key (i : TaskId) : string := workspace_key_for_id i.

Definition last_segment (c : ascii) (s : string) : string :=
  match rsplit_once c s with Some (_, r) => r | None => s end.

(** [lazybox] names a branch [<prefix>/issue-<n>-<slug>]. *)
Definition issue_id_from_branch (pr : Task) : option TaskId :=
  if negb (eq_ignore_ascii_case (Work.source (id pr)) "github") then None
  else
    b ← branch pr;
    rest ← strip_prefix "issue-" (last_segment "/" b);
    let number := before (Ascii.eqb "-") rest in
    r ← repo pr;
    if negb (is_empty number) && all_chars is_digit number && negb (is_empty r)
    then Some (Work.mkTaskId (Work.source (id pr)) (r +:+ "#" +:+ number))
    else None.

Definition after_keyword_blanks : list string := [" "; bytes_of [9]%nat; bytes_of [13]%nat; bytes_of [10]%nat; ":"].

Definition starts_with_digit (s : string) : bool := match s with String c _ => is_digit c | EmptyString => false end.

Definition reference_number_follows (after_keyword number : string) : bool :=
  match rest ← strip_prefix "#" (trim_start_by after_keyword_blanks after_keyword); strip_prefix number rest with
  | Some tail => negb (starts_with_digit tail)
  | None => false
  end.

Definition NON_CLOSING_KEYWORDS : list string := ["part of"; "refs"; "ref"; "related to"].

(** The occurrences of the keyword from the left, none overlapping the one before:
    [skip] bytes of that one remain. *)
Fixpoint mentioned (keyword number : string) (skip : nat) (s : string) : bool :=
  match s with
  | EmptyString => false
  | String _ s' =>
      match skip with
      | S k => mentioned keyword number k s'
      | O =>
          match strip_prefix keyword s with
          | Some rest => reference_number_follows rest number || mentioned keyword number (String.length keyword - 1) s'
          | None => mentioned keyword number O s'
          end
      end
  end.

Definition body_references_issue_non_closing (pr : Task) (issue : TaskId) : bool :=
  let number := last_segment "#" (Work.key issue) in
  if is_empty number then false
  else match body pr with
       | None => false
       | Some b => existsb (fun k => mentioned k number O (to_ascii_lowercase b)) NON_CLOSING_KEYWORDS
       end.

(** The weak signal of a branch's name, where no closing reference is known. *)
Definition branch_issue (pr : Task) : option TaskId :=
  match closes_issues pr with
  | [] => i ← issue_id_from_branch pr; if body_references_issue_non_closing pr i then None else Some i
  | _ => None
  end.

(** Sorted and without duplicates. *)
Definition sorted_keys (keys : list string) : list string := sorted_elements (list_to_set keys).

Definition closing_issue_workspace_keys (pr : Task) : list string :=
  let ids := closes_issues pr ++ option_list (branch_issue pr) ++ linked_tasks pr in
  sorted_keys (map issue_id_to_workspace_key ids).

(** A hand-made row with no task of its own. *)
Definition is_scratch (w : Row) : bool :=
  local_row w && match gh_issues (core w) with [] => true | _ => false end
  && match linear_issues (core w) with [] => true | _ => false end
  && negb (is_some (hopper w)) && negb (is_linked w).

Definition marked_by (pr : Task) (w : Row) : bool :=
  match body pr with Some b => contains ("lazybox:" +:+ ws_key (core w)) b | None => false end.

Definition head_branch (pr : Task) : option string :=
  b ← branch pr; let b := trim b in if is_empty b then None else Some b.

(** A branch counts once a session has checked it out. *)
Definition same_branch (pr : Task) (w : Row) : bool :=
  match sessions w with [] => false | _ => true end
  && bool_decide (head_branch pr = Some (trim (branch_name w)))
  && is_some (project_key_for_task pr)
  && bool_decide (workspace_project_key w = project_key_for_task pr).

Definition links_back (pr : Task) (w : Row) : bool :=
  existsb (fun ticket => bool_decide (id pr ∈ linked_tasks ticket)) (linear_issues (core w)).

Definition adopted_by (pr : Task) (w : Row) : bool :=
  match CoreTask.pr (core w) with
  | Some _ => false
  | None => links_back pr w || (is_scratch w && (marked_by pr w || same_branch pr w))
  end.

(** [workspace_label_for] *)
Definition workspace_label_for (w : Row) (key : string) : string :=
  match primary_task (core w) with Some t => Work.key (id t) | None => key end.

Section candidates.
Context {S : Type} `{Store S string} `{RowCodec}.

Definition store_side_collapse_candidates (s : S) (pr : Task) : list string :=
  map (fun w => ws_key (core w)) (List.filter (adopted_by pr) (listed_rows s)).

Definition collapse_candidate_keys (s : S) (pr : Task) : list string :=
  sorted_keys (closing_issue_workspace_keys pr ++ store_side_collapse_candidates s pr).

(** The rows whose locks an upsert at [key] takes: [lock_workspace_with_closing_issues].
    A round reads the store under the locks it has; the list holds one reading per round. *)
Definition stored_pr (s : S) (key : string) : option Task := w ← load_workspace s key; CoreTask.pr (core w).

Definition candidates_of (s : S) (pr : option Task) : gset string :=
  match pr with Some pr => list_to_set (collapse_candidate_keys s pr) | None => ∅ end.

Definition first_keys (s : S) (key : string) (incoming : option Task) : gset string :=
  {[ key ]} ∪ candidates_of s (t ← incoming; if is_pr t then Some t else None).

Fixpoint lock_rounds (key : string) (keys : gset string) (reads : list S) : option (gset string) :=
  match reads with
  | [] => None
  | s :: reads =>
      let required := keys ∪ candidates_of s (stored_pr s key) in
      if bool_decide (required = keys) then Some keys else lock_rounds key required reads
  end.

(** The first reading plans, the others are made under the locks. *)
Definition lock_workspace_with_closing_issues (key : string) (incoming : option Task) (planned : S) (reads : list S)
    : option (gset string) := lock_rounds key (first_keys planned key incoming) reads.

(** The first stored pull request that closes the issue. *)
Definition pr_workspace_claiming_issue (s : S) (issue : TaskId) : option string :=
  find_map (fun w => p ← CoreTask.pr (core w);
                     if bool_decide (issue ∈ closes_issues p) then Some (ws_key (core w)) else None)
    (listed_rows s).

Definition pr_workspace_for_linked_tasks (s : S) (linked : list TaskId) : option string :=
  find_map (fun i => if String.eqb (Work.source i) "github" then
                       let key := issue_id_to_workspace_key i in
                       match stored_pr s key with Some _ => Some key | None => None end
                     else None) linked.

End candidates.
