(* ===== verification/PollUpsert.v ===== *)
(** * A polled task becomes a row ([src/crates/server/src/polling/upsert.rs], [mod.rs])

    One observation of a task from a provider: where it is stored, whether it may be
    stored at all, what it changes, which rows fold into its own, and what is announced.
    Then the user's answers to a fold that was held back, the fold on demand, and the
    adoption of another row's sessions.

    An upsert is a function of the daemon's state.  What may happen between its gate
    and its critical section is [meanwhile], any change of the daemon; the critical
    section holds the row's locks and is one step.  The disk's answers about a worktree,
    the instants read and the configuration are in [Env].  Latency metrics, the
    cache-age stamps and the work of the components called ([Call]) are left out. *)

From Stdlib Require Import Ascii String.
From S2P Require Import Prelude Text CoreTask WorkStore Epics WorkspaceRow RowStore Collapse.
From S2P Require Work AutoMerge.

#[global] Open Scope Z_scope.
#[local] Open Scope string_scope.
#[local] Open Scope list_scope.

Definition MERGE_REPROMPT_AFTER : Z := secs 300.
Definition UNDECODABLE_REPORT_EVERY : Z := secs 600.

(** ** Transitions *)

(** A pull request lands by merging, an issue by closing. *)
Definition task_landed (t : Task) : bool :=
  if is_pr t then bool_decide (state t = Merged) else bool_decide (state t = Closed).

Definition previous_state (prev : option Row) (i : TaskId) : option TaskState :=
  w ← prev; t ← task_by_id (core w) i; Some (state t).

Definition merged_transition_pr_number (prev : option Row) (t : Task) : option Z :=
  if negb (is_pr t) || negb (bool_decide (state t = Merged)) then None
  else s ← previous_state prev (id t); if bool_decide (s = Merged) then None else pr_number t.

Definition closed_issue_transition (prev : option Row) (t : Task) : option Z :=
  if is_pr t || negb (bool_decide (state t = Closed)) then None
  else s ← previous_state prev (id t); if bool_decide (s = Closed) then None else pr_number t.

Definition issue_reopened (prev : option Row) (t : Task) : bool :=
  negb (is_pr t) && bool_decide (state t = Open_) && bool_decide (previous_state prev (id t) = Some Closed).

(** ** The context of a tick *)

Record UpsertContext : Type := mkContext {
  closes_index : gmap TaskId string;
  approvals : gmap string ApprovalPolicy;
}.

(** [entry(id).or_insert(key)] for each id. *)
Definition claim_ids (key : string) (ids : list TaskId) (index : gmap TaskId string) : gmap TaskId string :=
  fold_left (fun index i => match index !! i with Some _ => index | None => <[i := key]> index end) ids index.

Definition approval_map_from_config (repos : list (string * ApprovalPolicy)) : gmap string ApprovalPolicy :=
  fold_left (fun m rp => match rp.2 with ApDefault => m | p => <[to_ascii_lowercase rp.1 := p]> m end) repos ∅.

Definition approval_for (ctx : UpsertContext) (r : option string) : ApprovalPolicy :=
  default ApDefault (r ← r; approvals ctx !! to_ascii_lowercase r).

Definition index_row (index : gmap TaskId string) (w : Row) : gmap TaskId string :=
  match pr (core w) with
  | Some p => claim_ids (ws_key (core w)) (closes_issues p ++ linked_tasks p) index
  | None => index
  end.

(** ** What an upsert finds *)

Record Env (S : Type) : Type := mkEnv {
  now : Z;
  instant : Z;
  github_scopes : option (list string);
  lock_acquired : bool;
  meanwhile : Daemon S -> Daemon S;
  on_disk : Z -> bool;
  has_git : Z -> bool;
  pristine : Z -> bool;
  empty_dir : Z -> bool;
  reclaimed : Z -> bool;
}.
Arguments mkEnv {S}. Arguments now {S}. Arguments instant {S}. Arguments github_scopes {S}.
Arguments lock_acquired {S}. Arguments meanwhile {S}. Arguments on_disk {S}. Arguments has_git {S}.
Arguments pristine {S}. Arguments empty_dir {S}. Arguments reclaimed {S}.

(** A row folded in memory whose own record is still to be deleted. *)
Record PendingIssueMerge : Type := mkPendingMerge {
  issue_key : string;
  issue_label : string;
  pr_label : string;
  moved_session_ids : list Z;
}.

Definition count_live_terminals (reg : gmap Z TerminalEntry) (key : string) : nat :=
  length (List.filter (fun ie => negb (finishing ie.2)
                                 && match meta ie.2 with Some (session, _) => String.eqb session key | None => false end)
            (map_to_list reg)).

Definition issue_merge_events (pr_key : string) (pending : list PendingIssueMerge) : list Event :=
  flat_map (fun m => [WorkspaceRemoved (issue_key m);
                      WorkspaceMerged (issue_key m) pr_key (issue_label m) (pr_label m)]) pending.

(** ** Sessions the fold makes superfluous *)

Definition bound_sessions (reg : gmap Z TerminalEntry) : list Z := omap (fun ie => session_id ie.2) (map_to_list reg).

Definition retired {S} (env : Env S) (live : list Z) (moved : list Z) (s : Session) : bool :=
  let i := s_id s in
  if bool_decide (i ∈ moved) || bool_decide (i ∈ live) then false
  else if negb (on_disk env i) then true
  else (if has_git env i then pristine env i else empty_dir env i) && reclaimed env i.

Definition retire_pr_stub_sessions {S} (env : Env S) (d : Daemon S) (moved : list Z) (w : Row) : Row :=
  if existsb (fun s => bool_decide (s_id s ∈ moved) && on_disk env (s_id s)) (sessions w) then
    set_sessions (List.filter (fun s => negb (retired env (bound_sessions (entries d)) moved s)) (sessions w)) w
  else w.

Section upsert.
Context {S : Type} `{Store S string} `{RowCodec}.
Context `{Codec Project} `{Codec (list string)} `{Codec (list UserPrompt)} `{Codec DeclaredBlocker}
  `{Codec (string * TerminalKind)} `{Codec Work.Task}.
Context (show_commit_error : CommitError -> string) (show_decode : WorkspaceDecodeError -> string)
  (show_store : StoreError -> string) (render : Work.uuid -> string).

Definition build (repos : list (string * ApprovalPolicy)) (s : S) : UpsertContext :=
  mkContext (fold_left index_row (listed_rows s) ∅) (approval_map_from_config repos).

(** ** The checklists of a task that landed *)

Definition has_open_link (i : TaskId) (w : Row) : bool :=
  existsb (fun item => links_to_task i item && negb (is_done item) && negb (is_canceled item)) (todo_items w).

Definition rows_linked_to (s : S) (i : TaskId) : list string :=
  match list_workspaces s with
  | inl l => omap (fun kv => match decode_row kv.2 with
                             | inl w => if has_open_link i w then Some (ws_key (core w)) else None
                             | inr _ => None
                             end) l
  | inr _ => []
  end.

Definition check_row (env : Env S) (i : TaskId) (d : Daemon S) (key : string) : Daemon S :=
  match load_workspace (store d) key with
  | None => d
  | Some w =>
      let '(items, n) := check_items_linked_to i (now env) (todo_items w) in
      if (0 <? n)%nat
      then commit_upsert_reported show_commit_error (github_scopes env) (now env) key (set_todo_items items w)
             "auto-check todo items" d
      else d
  end.

Definition check_work_linked_to (env : Env S) (i : TaskId) (d : Daemon S) : Daemon S :=
  match store_complete_linked_to to_json from_json render (store d) (Work.LTracker i) Work.Lazybox (now env) with
  | inl (s, _) => put_store s d
  | inr _ => d
  end.

Definition check_todo_items_linked_to (env : Env S) (i : TaskId) (d : Daemon S) : Daemon S :=
  check_work_linked_to env i (fold_left (check_row env i) (rows_linked_to (store d) i) d).

(** ** Folding rows into a pull request's *)

(** Whether a fold with live terminals asks now: [None] after an explicit no, [Some true]
    when the question is due. *)
Definition should_prompt (env : Env S) (key : string) (live : nat) (d : Daemon S) : Daemon S * option bool :=
  if bool_decide (key ∈ rejected d) then (d, None)
  else if (live =? 0)%nat then (d, Some false)
  else
    let stale := match prompted d !! key with
                 | Some prev => (MERGE_REPROMPT_AFTER <=? instant env - prev)%Z
                 | None => true
                 end in
    if stale then (put_prompts (<[key := instant env]> (prompted d)) (rejected d) d, Some true)
    else (d, Some false).

Definition merge_one (env : Env S) (acc : Daemon S * Row * list PendingIssueMerge) (key : string)
    : Daemon S * Row * list PendingIssueMerge :=
  let '(d, w, pending) := acc in
  if String.eqb key (ws_key (core w)) then acc
  else
    match load_workspace (store d) key with
    | None => acc
    | Some issue =>
        match pr (core issue) with
        | Some _ => acc
        | None =>
            let live := count_live_terminals (entries d) key in
            match should_prompt env key live d with
            | (d, None) => (d, w, pending)
            | (d, Some ask) =>
                if (0 <? live)%nat then
                  (if ask then emit (WorkspaceMergePending key (ws_key (core w)) (workspace_label_for issue key)
                                       (workspace_label_for w (ws_key (core w))) live) d
                   else d, w, pending)
                else
                  let label := workspace_label_for w (ws_key (core w)) in
                  let '(w', moved) := absorb_issue_workspace (now env) issue w in
                  (d, w', pending ++ [mkPendingMerge key (workspace_label_for issue key) label moved])
            end
        end
    end.

Definition merge_closing_issue_workspaces (env : Env S) (d : Daemon S) (w : Row)
    : Daemon S * Row * list PendingIssueMerge :=
  match pr (core w) with
  | None => (d, w, [])
  | Some p => fold_left (merge_one env) (collapse_candidate_keys (store d) p) (d, w, [])
  end.

Definition commit_merge (env : Env S) (w : Row) (pending : list PendingIssueMerge) (d : Daemon S)
    : Daemon S * CommitOutcome :=
  let w := retire_pr_stub_sessions env d (flat_map moved_session_ids pending) w in
  let pr_key := ws_key (core w) in
  let deletes := map issue_key pending in
  let terminal_moves := map (fun m => (issue_key m, pr_key)) pending in
  let blocker_mutations := absorb_declared_mutations (store d) deletes pr_key in
  match commit_workspace_move (github_scopes env) (now env) [(pr_key, w)] deletes terminal_moves blocker_mutations
          (issue_merge_events pr_key pending) d with
  | inl (d, outcome) => (fold_issue_costs_into_pr deletes pr_key d, outcome)
  | inr e => (report_commit_error show_commit_error "merge issue workspace into PR" e d, Unchanged)
  end.

(** ** Preparing and storing one task *)

Definition unreadable_message (key reason : string) : string :=
  "workspace " +:+ key +:+ " could not be loaded (" +:+ reason
  +:+ "). It was preserved, not overwritten; provider updates for it are paused. Back up the state "
  +:+ "directory and follow the recovery guide.".

Definition report_unreadable_workspace_row (env : Env S) (key reason : string) (d : Daemon S) : Daemon S :=
  let due := match undecodable_row_reports d !! key with
             | Some last => negb (instant env - last <? UNDECODABLE_REPORT_EVERY)%Z
             | None => true
             end in
  if due then emit (ProviderErrorPermanent "storage" (unreadable_message key reason))
                (put_reports (<[key := instant env]> (undecodable_row_reports d)) d)
  else d.

(** The stored row with the task in it, or a new row of the task. *)
Definition attached_row (env : Env S) (existing : option Row) (t : Task) : Row :=
  match existing with
  | Some w =>
      let '(w, _) := maybe_wake_on t (now env) w in
      let w := match primary_task (core w) with
               | None => set_project (project_key_for_task t) w
               | Some _ => w
               end in
      attach_task_at t (now env) w
  | None => from_task t (now env) (now env)
  end.

Definition prepare_upsert (env : Env S) (key : string) (t : Task) (d : Daemon S)
    : Daemon S * option (Row * list PendingIssueMerge) :=
  let prepared existing :=
    let '(d, w, pending) := merge_closing_issue_workspaces env d (attached_row env existing t) in
    (d, Some (w, pending)) in
  match load_stored_workspace show_decode show_store (store d) key with
  | Present w => prepared (Some w)
  | Absent => prepared None
  | Unreadable reason => (report_unreadable_workspace_row env key reason d, None)
  end.

(** [None]: a merged pull request without a row, which the sweep does not bring back. *)
Definition terminal_cleanup (s : S) (key : string) (t : Task) : option (option TerminalCleanup) :=
  if is_pr t && bool_decide (state t = Merged) then
    match load_workspace s key with
    | None => None
    | Some w => Some (MergedPr <$> merged_transition_pr_number (Some w) t)
    end
  else if negb (is_pr t) && bool_decide (state t = Closed) then
    match pr_workspace_claiming_issue s (id t) with
    | Some _ => Some None
    | None => Some (ClosedIssue <$> closed_issue_transition (load_workspace s key) t)
    end
  else Some None.

Definition merge_calls (key : string) : list Effect :=
  map Run [OnPrMerged key; NoteMergeOwesCost key; RecordMergeTrailers key].

Definition after_commit (key : string) (committed : Workspace) (outcome : CommitOutcome)
    (cleanup : option TerminalCleanup) (reopened : bool) : list Effect :=
  [Run (OnWorkspaceCommitted key committed (bool_decide (outcome = Changed)))]
  ++ match cleanup with Some (MergedPr _) => merge_calls key | _ => [] end
  ++ match cleanup with
     | Some c => [Run (OnTerminalTransition key c)]
     | None => if reopened then [Run (CancelPendingRemoval key)] else []
     end.

(** The section under the locks. *)
Definition upsert_locked (env : Env S) (key : string) (t : Task) (d : Daemon S) : Daemon S * CommitOutcome :=
  if bool_decide (key ∈ load_archived_set (store d)) || bool_decide (key ∈ deleted_workspaces d)
  then (d, Unchanged)
  else
    match terminal_cleanup (store d) key t with
    | None => (d, Unchanged)
    | Some cleanup =>
        let reopened := issue_reopened (load_workspace (store d) key) t in
        match prepare_upsert env key t d with
        | (d, None) => (d, Unchanged)
        | (d, Some (w, pending)) =>
            let '(d, outcome) := commit_merge env w pending d in
            (effects (after_commit key (core w) outcome cleanup reopened) d, outcome)
        end
    end.

Definition upsert_into_workspace_key (env : Env S) (key : string) (t : Task) (d : Daemon S)
    : Daemon S * CommitOutcome :=
  let d := if task_landed t then check_todo_items_linked_to env (id t) d else d in
  let d := meanwhile env d in
  if lock_acquired env then upsert_locked env key t d else (d, Unchanged).

(** The row an observation goes to: an issue without a row of its own may belong to a
    pull request's. *)
Definition route (ctx : UpsertContext) (s : S) (t : Task) : string :=
  let own := workspace_key_for t in
  if is_pr t then own
  else
    match get_workspace s own with
    | inl (Some _) => own
    | _ =>
        match closes_index ctx !! id t with
        | Some pr_key => pr_key
        | None => default own (pr_workspace_for_linked_tasks s (linked_tasks t))
        end
    end.

Definition upsert_with_context (env : Env S) (ctx : UpsertContext) (t : Task) (d : Daemon S)
    : Daemon S * UpsertContext * CommitOutcome :=
  let t := AutoMerge.stamp_approval (approval_for ctx (repo t)) t in
  let own := workspace_key_for t in
  if bool_decide (own ∈ load_archived_set (store d)) then (d, ctx, Unchanged)
  else
    let ctx := if is_pr t
               then mkContext (claim_ids own (closes_issues t ++ linked_tasks t) (closes_index ctx)) (approvals ctx)
               else ctx in
    let '(d, outcome) := upsert_into_workspace_key env (route ctx (store d) t) t d in
    (d, ctx, outcome).

Definition upsert (env : Env S) (repos : list (string * ApprovalPolicy)) (t : Task) (d : Daemon S) : Daemon S :=
  (upsert_with_context env (build repos (store d)) t d).1.1.

(** ** Folds outside a poll *)

Definition collapse_closing_issues_for (env : Env S) (key : string) (d : Daemon S) : Daemon S :=
  match load_workspace (store d) key with
  | None => d
  | Some w =>
      match merge_closing_issue_workspaces env d w with
      | (d, _, []) => d
      | (d, w, pending) => (commit_merge env w pending d).1
      end
  end.

Definition handle_confirm_merge (env : Env S) (issue pr_key : string) (accept : bool) (d : Daemon S) : Daemon S :=
  let d := put_prompts (delete issue (prompted d)) (if accept then rejected d else {[ issue ]} ∪ rejected d) d in
  if negb accept then d
  else
    match load_workspace (store d) pr_key, load_workspace (store d) issue with
    | Some w, Some issue_ws =>
        match pr (core issue_ws) with
        | Some _ => d
        | None =>
            let '(w', moved) := absorb_issue_workspace (now env) issue_ws w in
            (commit_merge env w' [mkPendingMerge issue (workspace_label_for issue_ws issue)
                                    (workspace_label_for w pr_key) moved] d).1
        end
    | _, _ => d
    end.

Definition handle_collapse_into_pr (env : Env S) (issue : string) (d : Daemon S) : Daemon S :=
  match load_workspace (store d) issue with
  | None => d
  | Some issue_ws =>
      match pr (core issue_ws), primary_task (core issue_ws) with
      | None, Some primary =>
          match pr_workspace_claiming_issue (store d) (id primary) with
          | None => d
          | Some pr_key =>
              handle_confirm_merge env issue pr_key true
                (put_prompts (delete issue (prompted d)) (rejected d ∖ {[ issue ]}) d)
          end
      | _, _ => d
      end
  end.

Definition handle_adopt_sessions (env : Env S) (source target : string) (d : Daemon S) : Daemon S :=
  if String.eqb source target then d
  else
    match load_workspace (store d) source, load_workspace (store d) target with
    | Some source_ws, Some target_ws =>
        match adopt_sessions source_ws target_ws with
        | None => d
        | Some (source_ws, target_ws) =>
            match commit_workspace_move (github_scopes env) (now env)
                    [(ws_key (core source_ws), source_ws); (ws_key (core target_ws), target_ws)] []
                    [(source, target)] [] [] d with
            | inl (d, _) => d
            | inr e => report_commit_error show_commit_error "adopt sessions across workspaces" e d
            end
        end
    | _, _ => d
    end.

End upsert.
