(* ===== verification/PollUpsertProps.v ===== *)
(** * What an upsert keeps true ([src/crates/server/src/polling/upsert.rs], [mod.rs]) *)

From Stdlib Require Import Ascii String.
From S2P Require Import Prelude Text CoreTask WorkStore Epics WorkspaceRow WorkspaceRowProps RowStore RowStoreProps.
From S2P Require Import Collapse PollUpsert.
From S2P Require Work ProviderOps AutoMerge.

#[global] Open Scope Z_scope.
#[local] Open Scope string_scope.
#[local] Open Scope list_scope.

(** ** The key and the sessions of a row *)

(** What attaching and folding leave alone. *)
Definition same_place (w w' : Row) : Prop := ws_key (core w') = ws_key (core w).

Lemma update_task_key i f c : ws_key (update_task i f c) = ws_key c.
Proof. unfold update_task. destruct (is_some_and _ _); [done|]. by destruct (existsb _ _). Qed.

Lemma attach_keeps t now w : same_place w (attach_task_at t now w) /\ sessions (attach_task_at t now w) = sessions w.
Proof.
  unfold attach_task_at. destruct (place_task t (core w)) as [c|] eqn:Ep; [|done].
  assert (ws_key c = ws_key (core w)) as Hc.
  { revert Ep. unfold place_task. destruct (classify t); [..|done]; intros [= <-]; [|done..]. cbn [ws_key set_pr].
    by destruct (is_some_and _ _). }
  destruct (task_by_id c (id t)) as [stored|].
  - destruct (ProviderOps.reconcile_observation stored now (provider_ops w)) as [ops s']. split; [|done].
    unfold same_place. cbn [core set_feed set_ops set_core]. by rewrite update_task_key.
  - split; [|done]. exact Hc.
Qed.

Lemma attach_all_keeps now l w :
  same_place w (fold_left (fun w t => attach_task_at t now w) l w)
  /\ sessions (fold_left (fun w t => attach_task_at t now w) l w) = sessions w.
Proof.
  revert w. induction l as [|t l IH]; intros w; [done|]. cbn [fold_left].
  destruct (IH (attach_task_at t now w)) as [Hk Hs]. destruct (attach_keeps t now w) as [Hk' Hs']. unfold same_place in *.
  split; congruence.
Qed.

Lemma absorbed_key other w : same_place w (absorb_user_state_from other w).
Proof.
  unfold same_place, absorb_user_state_from. rewrite absorb_track_main_eq, absorb_arms_eq, absorb_snooze_eq. done.
Qed.

Definition session_ids (w : Row) : list Z := map s_id (sessions w).

Lemma move_session_ids s w :
  same_place w (move_session s w) /\ forall i, i ∈ session_ids (move_session s w) <-> i = s_id s \/ i ∈ session_ids w.
Proof.
  unfold move_session, add_session. cbn [s_id].
  destruct (existsb (fun s' => (s_id s' =? s_id s)%Z) (sessions w)) eqn:E; (split; [done|]); intros i.
  - apply existsb_exists in E as (s' & Hin & He%Z.eqb_eq). split; [by right|]. intros [-> |]; [|done].
    rewrite <- He. unfold session_ids. by apply list_elem_of_fmap_2, list_elem_of_In.
  - unfold session_ids. cbn [sessions set_sessions]. rewrite map_app. cbn [map s_id]. set_solver.
Qed.

Lemma move_sessions_ids l w :
  let w' := fold_left (fun w s => move_session s w) l w in
  same_place w w' /\ forall i, i ∈ session_ids w' <-> i ∈ map s_id l \/ i ∈ session_ids w.
Proof.
  cbv zeta. revert w. induction l as [|s l IH]; intros w; [set_solver|]. cbn [fold_left map].
  destruct (IH (move_session s w)) as [Hk Hi]. destruct (move_session_ids s w) as [Hk' Hi']. unfold same_place in *.
  split; [congruence|]. intros i. rewrite Hi, Hi'. set_solver.
Qed.

(** A fold takes every session of the folded row over. *)
Lemma absorb_issue_spec clock issue w w' moved :
  absorb_issue_workspace clock issue w = (w', moved) ->
  same_place w w' /\ moved = session_ids issue
  /\ forall i, i ∈ session_ids w' <-> i ∈ session_ids issue \/ i ∈ session_ids w.
Proof.
  unfold absorb_issue_workspace. set (w1 := absorb_user_state_from issue (absorb_feed issue w)).
  set (w2 := fold_left (fun w s => move_session s w) (sessions issue) w1). intros [= <- <-].
  set (w3 := fold_left _ (gh_issues (core issue)) w2).
  destruct (attach_all_keeps clock (linear_issues (core issue)) w3) as [Hk4 Hs4].
  destruct (attach_all_keeps clock (gh_issues (core issue)) w2) as [Hk3 Hs3]. fold w3 in Hk3, Hs3.
  destruct (move_sessions_ids (sessions issue) w1) as [Hk2 Hs2]. fold w2 in Hk2, Hs2.
  assert (same_place w w1 /\ session_ids w1 = session_ids w) as [Hk1 Hs1].
  { split; [exact (absorbed_key issue (absorb_feed issue w))|]. unfold session_ids.
    destruct (absorb_fields issue (absorb_feed issue w)) as (_ & _ & _ & _ & _ & _ & _ & _ & _ & _ & _ & _ & _ & _ & _ & He & _).
    fold w1 in He. by rewrite He. }
  unfold same_place in *. split_and!; [congruence|done|]. intros i. rewrite <- Hs1, <- Hs2. unfold session_ids.
  by rewrite Hs4, Hs3.
Qed.

Lemma maybe_wake_keeps t now w :
  let w' := (maybe_wake_on t now w).1 in core w' = core w /\ sessions w' = sessions w.
Proof.
  cbv zeta. unfold maybe_wake_on. destruct (negb (is_snoozed w now)); [done|]. destruct (snooze_wake w); [|done].
  destruct (primary_task (core w)); [|done]. by destruct (_ && _).
Qed.

Section props.
Context {S : Type} `{BatchLaws S} `{RowCodecLaws}.
Context `{Codec Project} `{Codec (list string)} `{Codec (list UserPrompt)} `{Codec DeclaredBlocker}
  `{Codec (string * TerminalKind)} `{Codec Work.Task}.
Context (show_commit_error : CommitError -> string) (show_decode : WorkspaceDecodeError -> string)
  (show_store : StoreError -> string) (render : Work.uuid -> string).

Abbreviation commit_merge := (commit_merge show_commit_error).
Abbreviation upsert_locked := (upsert_locked show_commit_error show_decode show_store).
Abbreviation check_todo := (check_todo_items_linked_to show_commit_error render).
Abbreviation upsert_at := (upsert_into_workspace_key show_commit_error show_decode show_store render).
Abbreviation upsert_with_context := (upsert_with_context show_commit_error show_decode show_store render).

(** Every row is stored under its own key. *)
Definition own_keys (s : S) : Prop := forall key w, stored s key = Some w -> ws_key (core w) = key.

Lemma attached_row_key (env : Env S) existing t :
  ws_key (core (attached_row env existing t))
  = match existing with Some w => ws_key (core w) | None => workspace_key_for t end.
Proof.
  unfold attached_row, from_task. destruct existing as [w|].
  - pose proof (maybe_wake_keeps t (now env) w) as [Hk _]. destruct (maybe_wake_on t (now env) w) as [w1 b].
    cbn [fst] in Hk. set (w2 := match primary_task (core w1) with None => _ | Some _ => w1 end).
    assert (core w2 = core w1) as Hw2 by (unfold w2; by destruct (primary_task (core w1))).
    destruct (attach_keeps t (now env) w2) as [-> _]. by rewrite Hw2, Hk.
  - match goal with |- context [attach_task_at t ?n ?w] => destruct (attach_keeps t n w) as [-> _] end. done.
Qed.

(** ** The merge pass *)

(** A row that may be folded away: readable, of no pull request, without live terminals,
    and not one its user refused to fold. *)
Definition foldable (d : Daemon S) (w : Row) (key : string) (issue : Row) : Prop :=
  key <> ws_key (core w) /\ load_workspace (store d) key = Some issue /\ pr (core issue) = None
  /\ count_live_terminals (entries d) key = O /\ key ∉ rejected d.

(** What the pass leaves alone, and what it may say. *)
Definition pass_frame (d d' : Daemon S) : Prop :=
  store d' = store d /\ entries d' = entries d /\ rejected d' = rejected d
  /\ deleted_workspaces d' = deleted_workspaces d
  /\ exists es, trace d' = trace d ++ es
       /\ Forall (fun e => exists key other l1 l2 n,
            e = Emit (WorkspaceMergePending key other l1 l2 n) /\ key ∉ rejected d) es.

Lemma pass_frame_refl d : pass_frame d d.
Proof. repeat split. exists []. by rewrite app_nil_r. Qed.

Lemma pass_frame_trans d1 d2 d3 : pass_frame d1 d2 -> pass_frame d2 d3 -> pass_frame d1 d3.
Proof.
  intros (Hs & He & Hr & Hd & es & Ht & Hq) (Hs' & He' & Hr' & Hd' & es' & Ht' & Hq'). unfold pass_frame.
  rewrite Hs', He', Hr', Hd'. split_and!; [done..|]. exists (es ++ es'). rewrite Ht', Ht, app_assoc. split; [done|].
  apply Forall_app. split; [done|]. by rewrite Hr in Hq'.
Qed.

Lemma pass_synced d d' : pass_frame d d' -> synced d d'.
Proof.
  intros (Hs & _ & _ & _ & es & Ht & Hq). exists es. split; [done|]. intros key. rewrite Hs. symmetry. apply quiet_view.
  apply (Forall_impl _ _ _ Hq). by intros e (? & ? & ? & ? & ? & -> & _).
Qed.

Lemma should_prompt_spec (env : Env S) key live d d' ask :
  should_prompt env key live d = (d', ask) ->
  store d' = store d /\ entries d' = entries d /\ rejected d' = rejected d /\ trace d' = trace d
  /\ deleted_workspaces d' = deleted_workspaces d /\ (is_Some ask <-> key ∉ rejected d).
Proof.
  unfold should_prompt. case_bool_decide as Hr.
  - intros [= <- <-]. split_and!; [done..|]. split; [by intros [? ?]|done].
  - cbv zeta. destruct (live =? 0)%nat; [|match goal with |- (if ?b then _ else _) = _ -> _ => destruct b end]; intros [= <- <-];
      (split_and!; [done..|]; split; [done|by eexists]).
Qed.

(** One candidate: nothing, a question, or a fold. *)
Lemma merge_one_spec (env : Env S) d w pending key d' w' pending' :
  merge_one env (d, w, pending) key = (d', w', pending') ->
  pass_frame d d'
  /\ (w' = w /\ pending' = pending
      \/ exists issue m, foldable d w key issue /\ issue_key m = key /\ pending' = pending ++ [m]
         /\ absorb_issue_workspace (now env) issue w = (w', moved_session_ids m)).
Proof.
  unfold merge_one. destruct (String.eqb_spec key (ws_key (core w))) as [|Hne].
  { intros [= <- <- <-]. split; [apply pass_frame_refl|by left]. }
  destruct (load_workspace (store d) key) as [issue|] eqn:El; [|intros [= <- <- <-]; split; [apply pass_frame_refl|by left]].
  destruct (pr (core issue)) eqn:Epr; [intros [= <- <- <-]; split; [apply pass_frame_refl|by left]|].
  destruct (should_prompt env key _ d) as [d1 ask] eqn:Es.
  destruct (should_prompt_spec _ _ _ _ _ _ Es) as (Hs & He & Hr & Ht & Hd & Hask).
  assert (pass_frame d d1) as Hf by (repeat split; [done..|]; exists []; by rewrite app_nil_r).
  destruct ask as [ask|]; [|intros [= <- <- <-]; split; [done|by left]].
  destruct (0 <? count_live_terminals (entries d) key)%nat eqn:Elive.
  - intros [= <- <- <-]. split; [|by left]. destruct ask; [|done].
    unfold pass_frame. cbn [emit effects store entries rejected deleted_workspaces trace].
    rewrite Hs, He, Hr, Hd, Ht. split_and!; [done..|]. eexists. split; [done|]. constructor; [|done].
    repeat eexists. by apply Hask.
  - destruct (absorb_issue_workspace (now env) issue w) as [w1 moved] eqn:Ea. intros [= <- <- <-].
    split; [done|]. right. exists issue. eexists (mkPendingMerge _ _ _ _). cbn [issue_key moved_session_ids].
    split_and!; [|done..]. unfold foldable. split_and!; try done; [|by apply Hask].
    apply Nat.ltb_ge in Elive. lia.
Qed.

(** The pass: every fold it made was allowed, and the row has the folded sessions. *)
Lemma merge_all_spec (env : Env S) keys d0 w0 pending0 d' w' pending' :
  fold_left (merge_one env) keys (d0, w0, pending0) = (d', w', pending') ->
  pass_frame d0 d' /\ same_place w0 w'
  /\ (forall i, i ∈ session_ids w0 -> i ∈ session_ids w')
  /\ exists ms, pending' = pending0 ++ ms /\ Forall (fun m => issue_key m ∈ keys
       /\ exists issue, foldable d0 w0 (issue_key m) issue /\ moved_session_ids m = session_ids issue
          /\ forall i, i ∈ session_ids issue -> i ∈ session_ids w') ms.
Proof.
  revert d0 w0 pending0. induction keys as [|key keys IH]; intros d0 w0 pending0; cbn [fold_left].
  { intros [= <- <- <-]. split_and!; [apply pass_frame_refl|done|done|]. exists []. by rewrite app_nil_r. }
  destruct (merge_one env (d0, w0, pending0) key) as [[d1 w1] pending1] eqn:E1. intros Hf.
  destruct (merge_one_spec _ _ _ _ _ _ _ _ E1) as [Hframe Hone].
  destruct (IH _ _ _ Hf) as (Hfr & Hpl & Hse & ms & Hms & Hall). clear IH.
  assert (same_place w0 w1) as Hp1.
  { destruct Hone as [[-> _]|(issue & m & _ & _ & _ & Ha)]; [done|]. by destruct (absorb_issue_spec _ _ _ _ _ Ha). }
  assert (forall k issue, foldable d1 w1 k issue -> foldable d0 w0 k issue) as Hfold.
  { intros k issue (? & ? & ? & ? & ?). destruct Hframe as (Es & Ee & Er & _). unfold foldable, same_place in *.
    by rewrite <- Es, <- Ee, <- Er, <- Hp1. }
  assert (Forall (fun m => issue_key m ∈ key :: keys /\ exists issue, foldable d0 w0 (issue_key m) issue
    /\ moved_session_ids m = session_ids issue /\ forall i, i ∈ session_ids issue -> i ∈ session_ids w') ms) as Hall'.
  { apply (Forall_impl _ _ _ Hall). intros m (Hin & issue & Hi & Hr). split; [by right|]. exists issue. split; [by apply Hfold|done]. }
  split_and!; [by eapply pass_frame_trans|unfold same_place in *; congruence| |].
  - intros i Hi. apply Hse. destruct Hone as [[-> _]|(issue & m & _ & _ & _ & Ha)]; [done|].
    destruct (absorb_issue_spec _ _ _ _ _ Ha) as (_ & _ & Hids). apply Hids. by right.
  - destruct Hone as [[-> ->]|(issue & m & Hi & Hk & -> & Ha)]; [by exists ms|].
    exists (m :: ms). rewrite Hms, <- app_assoc. split; [done|]. constructor; [|done].
    destruct (absorb_issue_spec _ _ _ _ _ Ha) as (_ & Hm & Hids). rewrite Hk. split; [by left|].
    exists issue. split_and!; [done..|]. intros i Hin. apply Hse, Hids. by left.
Qed.

Lemma merge_pass_spec (env : Env S) d w d' w' pending :
  merge_closing_issue_workspaces env d w = (d', w', pending) ->
  pass_frame d d' /\ same_place w w' /\ (forall i, i ∈ session_ids w -> i ∈ session_ids w')
  /\ Forall (fun m => (exists p, pr (core w) = Some p /\ issue_key m ∈ collapse_candidate_keys (store d) p)
       /\ exists issue, foldable d w (issue_key m) issue /\ moved_session_ids m = session_ids issue
          /\ forall i, i ∈ session_ids issue -> i ∈ session_ids w') pending.
Proof.
  unfold merge_closing_issue_workspaces. destruct (pr (core w)) as [p|].
  - intros Hf. destruct (merge_all_spec _ _ _ _ _ _ _ _ Hf) as (Hfr & Hpl & Hse & ms & -> & Hall).
    split_and!; [done..|]. apply (Forall_impl _ _ _ Hall). intros m (Hin & Hi). split; [|done]. by exists p.
  - intros [= <- <- <-]. split_and!; [apply pass_frame_refl|done..].
Qed.

(** ** The commit of a prepared row *)

Lemma merge_events_view pr_key pending key v :
  client_view key (map Emit (issue_merge_events pr_key pending)) v
  = if bool_decide (key ∈ map issue_key pending) then None else v.
Proof.
  revert v. induction pending as [|m l IH]; intros v; [done|].
  change (client_view key (map Emit (issue_merge_events pr_key (m :: l))) v)
    with (client_view key (map Emit (issue_merge_events pr_key l)) (client_step key v (Emit (WorkspaceRemoved (issue_key m))))).
  rewrite IH. cbn [client_step map]. destruct (String.eqb_spec (issue_key m) key) as [He|He].
  - rewrite (bool_decide_eq_true_2 (key ∈ issue_key m :: _)) by (rewrite He; by left). by destruct (bool_decide _).
  - destruct (decide (key ∈ map issue_key l)) as [Hin|Hin].
    + by rewrite !bool_decide_eq_true_2 by (done || by right).
    + rewrite !bool_decide_eq_false_2; [done| |done]. intros [?|?]%elem_of_cons; congruence.
Qed.

Lemma commit_merge_synced (env : Env S) w pending d : synced d (commit_merge env w pending d).1.
Proof.
  unfold PollUpsert.commit_merge. destruct (commit_workspace_move _ _ _ _ _ _ _ d) as [[d' o]|e] eqn:Ec; cbn [fst].
  - transitivity d'; [|apply fold_costs_synced]. eapply move_synced; [|intros; apply merge_events_view|exact Ec].
    apply declared_off.
  - apply report_synced.
Qed.

Lemma plan_one scopes now (s : S) key w before b :
  plan_upserts scopes now s [(key, w)] (mkBatch before [] [] ∅) = inl b ->
  ws_key (core w) = key
  /\ (workspace_events b = [w]
      \/ workspace_events b = [] /\ exists json, get_workspace s key = inl (Some json) /\ row_json w = Some json).
Proof.
  cbn [plan_upserts]. destruct (plan_upsert scopes now s key w _) as [b1|] eqn:E; [|done]. intros [= <-].
  revert E. unfold plan_upsert. destruct (String.eqb_spec (ws_key (core w)) key) as [Hk|]; [|done]. cbn [negb].
  destruct (project_record_for_workspace scopes now s w) as [project|]; [|done].
  destruct (row_json w) as [json|]; [|done]. destruct (get_workspace s key) as [previous|] eqn:Eg; [|done].
  set (b0 := match project with Some (p, (k, j)) => _ | None => _ end).
  assert (workspace_events b0 = []) as Hb0.
  { unfold b0. destruct project as [[p [k j]]|]; [|done]. unfold add_project. by destruct (bool_decide _). }
  intros [= <-]. split; [done|]. destruct (bool_decide (previous = Some json)) eqn:Eb.
  - right. split; [done|]. apply bool_decide_eq_true in Eb as ->. by exists json.
  - left. cbn [add_row workspace_events]. by rewrite Hb0.
Qed.

(** The rows after the commit of a prepared row: as before, or folded away, or the
    row itself. *)
Lemma commit_merge_rows (env : Env S) w pending d d' outcome :
  commit_merge env w pending d = (d', outcome) ->
  let w' := retire_pr_stub_sessions env d (flat_map moved_session_ids pending) w in
  rejected d' = rejected d /\ deleted_workspaces d' = deleted_workspaces d
  /\ (forall key, key <> ws_key (core w) -> key ∉ map issue_key pending ->
        rows_of (store d') !! row_key key = rows_of (store d) !! row_key key)
  /\ (store d' = store d
      \/ (forall key, key ∈ map issue_key pending -> stored (store d') key = None)
         /\ (ws_key (core w) ∉ map issue_key pending -> stored (store d') (ws_key (core w)) = Some (stamped w')))
  /\ (outcome = Changed ->
        (forall key, key ∈ map issue_key pending -> stored (store d') key = None)
        /\ (ws_key (core w) ∉ map issue_key pending -> stored (store d') (ws_key (core w)) = Some (stamped w'))).
Proof.
  unfold PollUpsert.commit_merge. set (w' := retire_pr_stub_sessions _ _ _ w). cbv zeta.
  assert (ws_key (core w') = ws_key (core w)) as Hw' by (unfold w', retire_pr_stub_sessions; by destruct (existsb _ _)).
  rewrite Hw'. destruct (commit_workspace_move _ _ _ _ _ _ _ d) as [[d1 o]|e] eqn:Ec.
  2:{ intros [= <- <-]. split_and!; [done..|by left|done]. }
  intros [= <- <-].
  destruct (move_commits _ _ _ _ _ _ _ _ _ _ (declared_off _ _ _) Ec) as (Hr & Hd & es & b & _ & _ & (before & Hb) & Hv & Hraw).
  destruct (fold_costs_frame (map issue_key pending) (ws_key (core w)) d1) as (Hr' & Hd' & Hsame).
  destruct (plan_one _ _ _ _ _ _ _ Hb) as [_ Hone].
  assert ((forall key, key ∈ map issue_key pending -> stored (store (fold_issue_costs_into_pr (map issue_key pending) (ws_key (core w)) d1)) key = None)
    /\ (ws_key (core w) ∉ map issue_key pending ->
         stored (store (fold_issue_costs_into_pr (map issue_key pending) (ws_key (core w)) d1)) (ws_key (core w)) = Some (stamped w'))) as Hdone.
  { split.
    - intros key Hin. rewrite (same_stored _ _ _ Hsame), Hv. by rewrite bool_decide_eq_true_2.
    - intros Hnin. rewrite (same_stored _ _ _ Hsame), Hv, bool_decide_eq_false_2 by done.
      rewrite published_rows. destruct Hone as [->|[-> (json & Hg & Hj)]].
      + cbn. by rewrite Hw', String.eqb_refl.
      + cbn. rewrite (get_workspace_stored _ _ _ Hg). unfold decode_row, decode_persisted.
        rewrite (row_round_trip _ _ Hj). change (schema (stamped w')) with WORKSPACE_SCHEMA_VERSION. by rewrite Z.ltb_irrefl. }
  split_and!; [congruence..| |by right|done].
  intros key Hk Hin. rewrite Hsame. apply Hraw; [|done]. cbn. intros Hc%list_elem_of_singleton. congruence.
Qed.

(** ** The whole upsert *)

Lemma load_stored_cases (s : S) key :
  match load_stored_workspace show_decode show_store s key with
  | Present w => load_workspace s key = Some w
  | Absent => get_workspace s key = inl None
  | Unreadable _ => load_workspace s key = None
  end.
Proof.
  unfold load_stored_workspace, load_workspace. destruct (get_workspace s key) as [[json|]|]; [|done..].
  by destruct (decode_row json).
Qed.

(** What preparing does: nothing but a report, or the pass over the row with the task. *)
Lemma prepare_spec (env : Env S) key t d d' res :
  prepare_upsert show_decode show_store env key t d = (d', res) ->
  match res with
  | None => store d' = store d /\ synced d d' /\ rejected d' = rejected d
  | Some (w, pending) =>
      exists existing, merge_closing_issue_workspaces env d (attached_row env existing t) = (d', w, pending)
        /\ (existing = None /\ load_stored_workspace show_decode show_store (store d) key = Absent
            \/ existing = load_workspace (store d) key /\ existing <> None)
  end.
Proof.
  unfold prepare_upsert. pose proof (load_stored_cases (store d) key) as Hc.
  destruct (load_stored_workspace _ _ _ key) as [|w0|reason].
  - destruct (merge_closing_issue_workspaces env d (attached_row env None t)) as [[d1 w1] p1] eqn:Em.
    intros [= <- <-]. exists None. split; [done|by left].
  - destruct (merge_closing_issue_workspaces env d (attached_row env (Some w0) t)) as [[d1 w1] p1] eqn:Em.
    intros [= <- <-]. exists (Some w0). split; [done|]. right. by rewrite Hc.
  - intros [= <- <-]. unfold report_unreadable_workspace_row.
    cbv zeta. match goal with |- context [if ?b then _ else _] => destruct b end; [|done].
    split_and!; [done| |done].
    transitivity (put_reports (<[key := instant env]> (undecodable_row_reports d)) d); [by apply synced_same|].
    apply synced_effects. by constructor.
Qed.

Lemma after_commit_quiet key c o cl r : Forall quiet (after_commit key c o cl r).
Proof.
  unfold after_commit. rewrite !Forall_app. split_and!; [by constructor| |].
  - destruct cl as [[]|]; [|done..]. do 3 (constructor; [done|]). constructor.
  - destruct cl; [by constructor|]. destruct r; by constructor.
Qed.

Lemma locked_synced (env : Env S) key t d : synced d (upsert_locked env key t d).1.
Proof.
  unfold PollUpsert.upsert_locked. destruct (_ || _); [reflexivity|].
  destruct (terminal_cleanup (store d) key t) as [cleanup|]; [|reflexivity].
  destruct (prepare_upsert _ _ env key t d) as [d1 res] eqn:Ep. pose proof (prepare_spec _ _ _ _ _ _ Ep) as Hp.
  destruct res as [[w pending]|]; [|apply Hp]. destruct Hp as (existing & Hm & _).
  destruct (merge_pass_spec _ _ _ _ _ _ Hm) as (Hf & _).
  pose proof (commit_merge_synced env w pending d1) as Hc. destruct (commit_merge env w pending d1) as [d2 o]. cbn [fst] in Hc |- *.
  transitivity d1; [by apply pass_synced|]. transitivity d2; [done|]. apply synced_effects, after_commit_quiet.
Qed.

(** ** The checklists *)

Lemma encoded_rows_off (ts : list Work.Task) rows :
  encode_rows to_json render ts = inl rows ->
  Forall off_rows (map (fun row => SetKv row.1 row.2) rows : list (StoreMutation string)).
Proof.
  revert rows. induction ts as [|t ts IH]; intros rows; cbn [encode_rows]; [by intros [= <-]|].
  destruct (encode_row to_json t) as [v|]; [|done]. destruct (encode_rows to_json render ts) as [rows'|]; [|done].
  intros [= <-]. cbn [map]. constructor; [done|]. by apply IH.
Qed.

Lemma complete_linked_same (s s' : S) link by_ now moved :
  store_complete_linked_to to_json from_json render s link by_ now = inl (s', moved) -> same_rows s s'.
Proof.
  unfold store_complete_linked_to. destruct (WorkStore.all_tasks from_json s) as [[ts n]|]; [|done].
  destruct (Work.complete_linked_to ts link by_ now) as [ts' m]. unfold save_moved. destruct m as [|i m]; [by intros [= <- _]|].
  unfold save_tasks. destruct (List.filter _ ts') as [|t l]; [by intros [= <- _]|].
  destruct (encode_rows to_json render (t :: l)) as [rows|] eqn:Ee; [|done].
  destruct (apply_batch s _) as [s1|] eqn:Ea; [|done]. intros [= <- _] key.
  eapply batch_payload; [|apply off_untouched|exact Ea]; [apply off_plain|]; by eapply encoded_rows_off.
Qed.

Lemma check_row_synced (env : Env S) i d key : synced d (check_row show_commit_error env i d key).
Proof.
  unfold check_row. destruct (load_workspace (store d) key) as [w|]; [|reflexivity].
  destruct (check_items_linked_to i (now env) (todo_items w)) as [items n]. destruct (0 <? n)%nat; [|reflexivity].
  apply commit_reported_synced.
Qed.

Lemma check_todo_synced (env : Env S) i d : synced d (check_todo env i d).
Proof.
  unfold check_todo_items_linked_to. transitivity (fold_left (check_row show_commit_error env i) (rows_linked_to (store d) i) d).
  - generalize (rows_linked_to (store d) i). intros keys. revert d. induction keys as [|k keys IH]; intros d; [reflexivity|].
    cbn [fold_left]. etransitivity; [apply check_row_synced|apply IH].
  - unfold check_work_linked_to. destruct (store_complete_linked_to _ _ _ _ _ _ _) as [[s m]|] eqn:E; [|reflexivity].
    apply synced_store. by eapply complete_linked_same.
Qed.

Lemma upsert_at_synced (env : Env S) key t d :
  (forall d, synced d (meanwhile env d)) -> synced d (upsert_at env key t d).1.
Proof.
  intros Hm. unfold upsert_into_workspace_key.
  set (d1 := if task_landed t then check_todo env (id t) d else d).
  assert (synced d d1) as H1' by (unfold d1; destruct (task_landed t); [apply check_todo_synced|reflexivity]).
  destruct (lock_acquired env); cbn [fst].
  - transitivity d1; [done|]. transitivity (meanwhile env d1); [apply Hm|apply locked_synced].
  - transitivity d1; [done|apply Hm].
Qed.

Lemma collapse_synced (env : Env S) key d : synced d (collapse_closing_issues_for show_commit_error env key d).
Proof.
  unfold collapse_closing_issues_for. destruct (load_workspace (store d) key) as [w|]; [|reflexivity].
  destruct (merge_closing_issue_workspaces env d w) as [[d1 w1] pending] eqn:Em.
  destruct (merge_pass_spec _ _ _ _ _ _ Em) as (Hf & _).
  destruct pending as [|m l]; [by apply pass_synced|]. transitivity d1; [by apply pass_synced|apply commit_merge_synced].
Qed.

Lemma confirm_synced (env : Env S) issue pr_key accept d :
  synced d (handle_confirm_merge show_commit_error env issue pr_key accept d).
Proof.
  unfold handle_confirm_merge. set (d1 := put_prompts _ _ d). assert (synced d d1) as H1' by by apply synced_same.
  destruct accept; cbn [negb]; [|done]. destruct (load_workspace (store d1) pr_key) as [w|]; [|done].
  destruct (load_workspace (store d1) issue) as [iw|]; [|done]. destruct (pr (core iw)); [done|].
  destruct (absorb_issue_workspace (now env) iw w) as [w' moved]. transitivity d1; [done|apply commit_merge_synced].
Qed.

Lemma collapse_into_synced (env : Env S) issue d : synced d (handle_collapse_into_pr show_commit_error env issue d).
Proof.
  unfold handle_collapse_into_pr. destruct (load_workspace (store d) issue) as [iw|]; [|reflexivity].
  destruct (pr (core iw)); [reflexivity|]. destruct (primary_task (core iw)) as [t|]; [|reflexivity].
  destruct (pr_workspace_claiming_issue (store d) (id t)) as [pr_key|]; [|reflexivity].
  etransitivity; [|apply confirm_synced]. by apply synced_same.
Qed.

Lemma adopt_synced (env : Env S) source target d : synced d (handle_adopt_sessions show_commit_error env source target d).
Proof.
  unfold handle_adopt_sessions. destruct (String.eqb source target); [reflexivity|].
  destruct (load_workspace (store d) source) as [sw|]; [|reflexivity].
  destruct (load_workspace (store d) target) as [tw|]; [|reflexivity].
  destruct (adopt_sessions sw tw) as [[sw' tw']|]; [|reflexivity].
  destruct (commit_workspace_move _ _ _ _ _ _ _ d) as [[d' o]|e] eqn:Ec; [|apply report_synced].
  eapply move_synced; [constructor| |exact Ec]. done.
Qed.

(** ** What an upsert may write *)

Definition payload (s : S) (key : string) : option string := rows_of s !! row_key key.

(** The row an upsert at [key] stores its task in. *)
Definition written (d : Daemon S) (key : string) (t : Task) (k : string) : Prop :=
  key ∉ load_archived_set (store d) /\ key ∉ deleted_workspaces d
  /\ (k = key /\ (exists w, load_workspace (store d) key = Some w)
      \/ k = workspace_key_for t /\ get_workspace (store d) key = inl None
         /\ (is_pr t = true -> state t <> Merged)).

Lemma locked_payload (env : Env S) key t d k :
  own_keys (store d) ->
  let d' := (upsert_locked env key t d).1 in
  payload (store d') k = payload (store d) k
  \/ written d key t k
  \/ exists w issue, foldable d w k issue.
Proof.
  intros Hown. cbv zeta. unfold PollUpsert.upsert_locked.
  destruct (bool_decide (key ∈ load_archived_set (store d)) || _) eqn:Eg; [by left|].
  apply orb_false_iff in Eg as [Ha%bool_decide_eq_false De%bool_decide_eq_false].
  destruct (terminal_cleanup (store d) key t) as [cleanup|] eqn:Ec; [|by left].
  destruct (prepare_upsert _ _ env key t d) as [d1 res] eqn:Ep. pose proof (prepare_spec _ _ _ _ _ _ Ep) as Hp.
  destruct res as [[w pending]|]; [|left; destruct Hp as (Hs & _); cbn [fst]; unfold payload; by rewrite Hs].
  destruct Hp as (existing & Hm & Hex). destruct (merge_pass_spec _ _ _ _ _ _ Hm) as ((Hs & _) & Hplace & _ & Hall).
  destruct (commit_merge env w pending d1) as [d2 o] eqn:Ecm. cbn [fst effects store].
  destruct (commit_merge_rows _ _ _ _ _ _ Ecm) as (_ & _ & Hraw & _). unfold same_place in Hplace.
  rewrite attached_row_key in Hplace. unfold payload. destruct (decide (k = ws_key (core w))) as [->|Hk].
  - right. left. split_and!; [done..|]. destruct Hex as [[-> Habs]|[He Hne]].
    + right. split_and!; [done| |].
      * pose proof (load_stored_cases (store d) key) as Hc. by rewrite Habs in Hc.
      * intros Hpr Hst. unfold terminal_cleanup in Ec. rewrite Hpr, (bool_decide_eq_true_2 _ Hst) in Ec. cbn in Ec.
        pose proof (load_stored_cases (store d) key) as Hc. rewrite Habs in Hc. unfold load_workspace in Ec. by rewrite Hc in Ec.
    + left. destruct existing as [w0|]; [|done]. split; [|by exists w0]. rewrite Hplace.
      apply Hown. by apply load_workspace_stored.
  - destruct (decide (k ∈ map issue_key pending)) as [Hin|Hin].
    + right. right. apply list_elem_of_In, in_map_iff in Hin as (m & <- & Hin%list_elem_of_In).
      rewrite Forall_forall in Hall. destruct (Hall m Hin) as (_ & issue & Hf & _). by eauto.
    + left. rewrite <- Hs. by apply Hraw.
Qed.


(** C24: A row that is not empty and cannot be read keeps its bytes -- what a newer
    build wrote, or what is corrupt -- through an upsert that was routed to the task's
    own key, or to another key that has a row or cannot be read from the store, in a
    store whose readable rows are under their own keys.  (An upsert routed to a key
    without a row writes the task's own row without looking at it; it is outside of the
    claim.) *)
Theorem unreadable_rows_are_preserved (env : Env S) key t d k json :
  own_keys (store d) ->
  payload (store d) k = Some json -> is_empty json = false -> row_read json = None ->
  key = workspace_key_for t \/ get_workspace (store d) key <> inl None ->
  payload (store (upsert_locked env key t d).1) k = Some json.
Proof.
  intros Hown Hk Hne Hr Hkey.
  assert (stored (store d) k = None) as Hnone by (unfold stored; unfold payload in Hk; by rewrite Hk).
  destruct (locked_payload env key t d k Hown) as [Hsame|[Hw|(w & issue & _ & Hl & _)]]; [congruence| |].
  - destruct Hw as (_ & _ & [(-> & w & Hl)|(-> & Hg & _)]).
    + apply load_workspace_stored in Hl. congruence.
    + destruct Hkey as [->|]; [|done]. unfold get_workspace, get_payload in Hg.
      destruct (get_kv (store d) _) as [v|] eqn:Ev; [|done]. apply get_kv_ok in Ev. unfold payload in Hk.
      rewrite Hk in Ev. subst v. by rewrite Hne in Hg.
  - apply load_workspace_stored in Hl. congruence.
Qed.

(** ** Folds *)

Lemma retire_keeps (env : Env S) d moved w i :
  i ∈ moved -> i ∈ session_ids w -> i ∈ session_ids (retire_pr_stub_sessions env d moved w).
Proof.
  intros Hm Hi. unfold retire_pr_stub_sessions. destruct (existsb _ _); [|done]. unfold session_ids in *. cbn [sessions set_sessions].
  apply list_elem_of_In, in_map_iff in Hi as (s & <- & Hin). apply list_elem_of_In, in_map_iff. exists s. split; [done|].
  apply filter_In. split; [done|]. unfold retired. by rewrite (bool_decide_eq_true_2 _ Hm).
Qed.


(** ** Refusals *)

(** The user refused to fold this row, and it is there. *)
Definition refused (issue : string) (d : Daemon S) : Prop :=
  issue ∈ rejected d /\ stored (store d) issue <> None.

Lemma refused_synced issue d d' es :
  refused issue d -> rejected d' = rejected d ->
  (forall key, stored (store d') key = client_view key es (stored (store d) key)) ->
  Forall (fun e => forall k, e <> Emit (WorkspaceRemoved k)) es -> refused issue d'.
Proof.
  intros [Hr Hs] Hr' Hv He. split; [by rewrite Hr'|]. rewrite Hv. revert Hs. generalize (stored (store d) issue).
  clear -He. induction He as [|e es Hne _ IH]; intros v Hv; [done|]. unfold client_view in *. cbn [fold_left]. apply IH.
  destruct e as [[]|]; try done; cbn [client_step].
  - by destruct (String.eqb _ _).
  - by destruct (Hne key).
Qed.

Lemma published_no_removal b : Forall (fun e => forall k, e <> Emit (WorkspaceRemoved k)) (published b).
Proof. unfold published. apply Forall_app. split; apply Forall_fmap, Forall_true; by intros. Qed.

Lemma check_row_refused (env : Env S) i issue d key : refused issue d -> refused issue (check_row show_commit_error env i d key).
Proof.
  intros Hr. unfold check_row. destruct (load_workspace (store d) key) as [w|]; [|done].
  destruct (check_items_linked_to i (now env) (todo_items w)) as [items n]. destruct (0 <? n)%nat; [|done].
  unfold commit_upsert_reported, commit_upsert.
  destruct (persist_workspace_batch _ _ _ _ _ _) as [[[s o] b]|e] eqn:Ep; [|done].
  eapply (refused_synced issue d _ (published b)); [done|done| |apply published_no_removal].
  intros k. exact (persist_view _ _ _ _ _ _ _ _ _ k (Forall_nil_2 _) Ep).
Qed.

Lemma check_todo_refused (env : Env S) i issue d : refused issue d -> refused issue (check_todo env i d).
Proof.
  intros Hr. unfold check_todo_items_linked_to, check_work_linked_to.
  assert (refused issue (fold_left (check_row show_commit_error env i) (rows_linked_to (store d) i) d)) as [Hj Hs].
  { generalize (rows_linked_to (store d) i). intros keys. revert d Hr. induction keys as [|k keys IH]; intros d Hr; [done|].
    cbn [fold_left]. apply IH. by apply check_row_refused. }
  destruct (store_complete_linked_to _ _ _ _ _ _ _) as [[s m]|] eqn:E; [|done].
  split; [done|]. cbn [put_store store]. rewrite (same_stored _ _ _ (complete_linked_same _ _ _ _ _ _ E)). done.
Qed.

Lemma locked_refused (env : Env S) key t d issue : refused issue d -> refused issue (upsert_locked env key t d).1.
Proof.
  intros [Hr Hst]. unfold PollUpsert.upsert_locked. destruct (_ || _); [done|].
  destruct (terminal_cleanup (store d) key t) as [cleanup|]; [|done].
  destruct (prepare_upsert _ _ env key t d) as [d1 res] eqn:Ep. pose proof (prepare_spec _ _ _ _ _ _ Ep) as Hp.
  destruct res as [[w pending]|].
  2:{ destruct Hp as (Hs & _ & Hrej). unfold refused. cbn [fst]. by rewrite Hs, Hrej. }
  destruct Hp as (existing & Hm & _). destruct (merge_pass_spec _ _ _ _ _ _ Hm) as ((Hs & _ & Hrej & _) & _ & _ & Hall).
  destruct (commit_merge env w pending d1) as [d2 o] eqn:Ecm. cbn [fst].
  destruct (commit_merge_rows _ _ _ _ _ _ Ecm) as (Hrej2 & _ & Hraw & Hcase & _).
  assert (issue ∉ map issue_key pending) as Hnin.
  { intros Hin. apply list_elem_of_In, in_map_iff in Hin as (m & Hk & Hin%list_elem_of_In). rewrite Forall_forall in Hall.
    destruct (Hall m Hin) as (_ & iw & (_ & _ & _ & _ & Hno) & _). by rewrite Hk in Hno. }
  split; cbn [effects rejected store]; [by rewrite Hrej2, Hrej|].
  destruct Hcase as [->|[_ Hrow]]; [by rewrite Hs|]. destruct (decide (issue = ws_key (core w))) as [->|Hne].
  - by rewrite Hrow.
  - unfold stored. rewrite (Hraw issue Hne Hnin), Hs. exact Hst.
Qed.

(** A refusal is kept.  Once its user said no, no sequence of polls folds the row into a
    pull request, whatever the pull requests claim and however its terminals come and
    go: the row stays, and so does the refusal. *)
Theorem a_refused_fold_is_not_made (polls : list (Env S * string * Task)) d issue :
  Forall (fun p => forall d, refused issue d -> refused issue (meanwhile p.1.1 d)) polls ->
  issue ∈ rejected d -> stored (store d) issue <> None ->
  let d' := fold_left (fun d p => (upsert_at p.1.1 p.1.2 p.2 d).1) polls d in
  issue ∈ rejected d' /\ stored (store d') issue <> None.
Proof.
  intros Hm Hr Hs. cbv zeta. change (refused issue (fold_left (fun d p => (upsert_at p.1.1 p.1.2 p.2 d).1) polls d)).
  assert (refused issue d) as Hd by done. clear Hr Hs. revert d Hd.
  induction Hm as [|[[env key] t] polls Hp _ IH]; intros d Hd; [done|]. cbn [fold_left]. apply IH.
  unfold upsert_into_workspace_key. cbn [fst snd] in *.
  assert (refused issue (if task_landed t then check_todo env (id t) d else d)) as H1'
    by (destruct (task_landed t); [by apply check_todo_refused|done]).
  apply Hp in H1'. destruct (lock_acquired env); [|done]. by apply locked_refused.
Qed.

(** ** What happens to the rows of a daemon *)
Inductive Step : Type :=
| SUpsert (env : Env S) (ctx : UpsertContext) (t : Task)
| SCollapse (env : Env S) (key : string)
| SConfirm (env : Env S) (issue pr_key : string) (accept : bool)
| SCollapseInto (env : Env S) (issue : string)
| SAdopt (env : Env S) (source target : string).

Definition run_step (d : Daemon S) (s : Step) : Daemon S :=
  match s with
  | SUpsert env ctx t => (upsert_with_context env ctx t d).1.1
  | SCollapse env key => collapse_closing_issues_for show_commit_error env key d
  | SConfirm env issue pr_key accept => handle_confirm_merge show_commit_error env issue pr_key accept d
  | SCollapseInto env issue => handle_collapse_into_pr show_commit_error env issue d
  | SAdopt env source target => handle_adopt_sessions show_commit_error env source target d
  end.

(** What the rest of the daemon does inside an upsert. *)
Definition others (P : (Daemon S -> Daemon S) -> Prop) (s : Step) : Prop :=
  match s with SUpsert env _ _ => P (meanwhile env) | _ => True end.

(** C5: A client that follows the bus has the rows of the store.  Whatever is polled,
    folded, refused or adopted, in any order and with store and serialization errors
    anywhere, the events appended turn the rows stored before into the rows stored
    after, row by row: none is announced that is not durable, and none changes unseen. *)
Theorem clients_see_the_store steps d :
  Forall (others (fun f => forall d, synced d (f d))) steps ->
  exists es, trace (fold_left run_step steps d) = trace d ++ es
    /\ forall key, stored (store (fold_left run_step steps d)) key = client_view key es (stored (store d) key).
Proof.
  intros Hs. change (synced d (fold_left run_step steps d)). revert d.
  induction Hs as [|s steps Ho _ IH]; intros d; [reflexivity|]. cbn [fold_left]. etransitivity; [|apply IH].
  destruct s as [env ctx t|env key|env issue k a|env issue|env a b]; cbn [run_step].
  - unfold PollUpsert.upsert_with_context. cbv zeta. destruct (bool_decide _); [reflexivity|].
    match goal with |- context [upsert_at ?e ?k ?t ?d] => pose proof (upsert_at_synced e k t d Ho) as Hu;
      by destruct (upsert_at e k t d) end.
  - apply collapse_synced.
  - apply confirm_synced.
  - apply collapse_into_synced.
  - apply adopt_synced.
Qed.

End props.
