(* ===== verification/PollUpsertLocks.v ===== *)
(** * The locks of an upsert ([src/crates/server/src/polling/mod.rs])

    A row is folded away only under its lock: the keys an upsert locks cover every row
    the merge pass may absorb, as far as the plan made before the locks still holds. *)

From Stdlib Require Import Ascii String.
From S2P Require Import Prelude Text CoreTask WorkStore Epics WorkspaceRow WorkspaceRowProps RowStore RowStoreProps.
From S2P Require Import Collapse PollUpsert PollUpsertProps.
From S2P Require Work ProviderOps.

#[global] Open Scope Z_scope.
#[local] Open Scope string_scope.
#[local] Open Scope list_scope.

(** ** What links a pull request to other rows *)

Definition same_links (a b : Task) : Prop :=
  id a = id b /\ branch a = branch b /\ repo a = repo b /\ body a = body b
  /\ closes_issues a = closes_issues b /\ linked_tasks a = linked_tasks b.

Lemma same_links_trans a b c : same_links a b -> same_links b c -> same_links a c.
Proof. unfold same_links. naive_solver congruence. Qed.

Lemma overlay_links ops t : same_links (ProviderOps.overlay ops t) t.
Proof.
  unfold ProviderOps.overlay. revert t. induction (ProviderOps.pending ops) as [|op l IH]; intros t; [done|]. cbn [fold_left].
  eapply same_links_trans; [apply IH|]. destruct (_ && _); [|done].
  unfold ProviderOps.paint, ProviderOps.set_when. by destruct (ProviderOps.desired op) as [[] [] [] []].
Qed.

Lemma keep_kind_links t old : same_links (keep_kind t old) t.
Proof. unfold keep_kind. by destruct (kind t). Qed.

Lemma preserve_links t old : same_links (preserve_lazy_pr_fields t old) t.
Proof.
  unfold preserve_lazy_pr_fields. eapply same_links_trans; [apply keep_kind_links|].
  set (t1 := match checks t with [] => set_checks (checks old) t | _ => t end).
  set (t2 := match reviews t1 with [] => set_reviews (reviews old) t1 | _ => t1 end).
  assert (same_links t1 t) as H1 by (unfold t1; by destruct (checks t)).
  assert (same_links t2 t1) as H2 by (unfold t2; by destruct (reviews t1)).
  eapply same_links_trans; [|exact (same_links_trans _ _ _ H2 H1)]. by destruct (_ && _).
Qed.

Lemma place_pr t c c' q :
  place_task t c = Some c' -> pr c' = Some q -> (is_pr t = true /\ same_links q t) \/ pr c = Some q.
Proof.
  unfold place_task. destruct (classify t) eqn:Ec; [..|done]; intros [= <-]; cbn [pr set_pr set_gh set_linear]; [|by right..].
  assert (is_pr t = true) as Hpr.
  { unfold classify in Ec. destruct (String.eqb _ _); [done|]. destruct (is_pr t); [done|]. by destruct (_ || _). }
  intros [= <-]. left. split; [done|]. destruct (is_some_and _ (pr c)); cbn [pr set_native];
    (destruct (pr c); [apply preserve_links|done]).
Qed.

Lemma attach_pr_links t now w p :
  pr (core (attach_task_at t now w)) = Some p ->
  (is_pr t = true /\ same_links p t) \/ exists p0, pr (core w) = Some p0 /\ same_links p p0.
Proof.
  unfold attach_task_at. destruct (place_task t (core w)) as [c|] eqn:Ep; [|right; by eexists].
  assert (forall q, pr c = Some q -> same_links p q ->
    (is_pr t = true /\ same_links p t) \/ exists p0, pr (core w) = Some p0 /\ same_links p p0) as Hc.
  { intros q Hq Hl. destruct (place_pr _ _ _ _ Ep Hq) as [[Hpr Hs]|Hs]; [|right; by eexists].
    left. split; [done|]. by eapply same_links_trans. }
  destruct (task_by_id c (id t)) as [stored|] eqn:Et; cbn [core set_feed set_ops set_core].
  - unfold ProviderOps.reconcile_observation. cbn [core set_feed set_ops set_core].
    unfold update_task. destruct (is_some_and (has_id (id t)) (pr c)) eqn:Eh.
    + destruct (pr c) as [q|] eqn:Eq; [|done]. cbn in Eh. cbn [pr set_pr]. intros [= <-]. eapply Hc; [done|].
      unfold task_by_id, all_tasks in Et. rewrite Eq in Et. cbn in Et. rewrite Eh in Et. injection Et as <-. apply overlay_links.
    + intros Hp. apply (Hc p); [|done]. by destruct (existsb _ _).
  - intros Hp. by apply (Hc p).
Qed.

Lemma attached_row_pr {S} (env : Env S) existing t p :
  pr (core (attached_row env existing t)) = Some p ->
  (is_pr t = true /\ same_links p t) \/ exists w p0, existing = Some w /\ pr (core w) = Some p0 /\ same_links p p0.
Proof.
  unfold attached_row, from_task. destruct existing as [w|].
  - pose proof (maybe_wake_keeps t (now env) w) as [Hk _]. destruct (maybe_wake_on t (now env) w) as [w1 b].
    cbn [fst] in Hk. set (w2 := match primary_task (core w1) with None => _ | Some _ => w1 end).
    assert (core w2 = core w1) as Hw2 by (unfold w2; by destruct (primary_task (core w1))).
    intros [Hl|(p0 & Hp0 & Hl)]%attach_pr_links; [by left|]. right. exists w, p0. by rewrite <- Hk, <- Hw2.
  - intros [Hl|(p0 & Hp0 & _)]%attach_pr_links; [by left|]. done.
Qed.

Section locks.
Context {S : Type} `{BatchLaws S} `{RowCodecLaws}.
Context `{Codec Project} `{Codec (list string)} `{Codec (list UserPrompt)} `{Codec DeclaredBlocker}
  `{Codec (string * TerminalKind)} `{Codec Work.Task}.
Context (show_decode : WorkspaceDecodeError -> string) (show_store : StoreError -> string).

Lemma closing_links a b : same_links a b -> closing_issue_workspace_keys a = closing_issue_workspace_keys b.
Proof. destruct a, b. unfold same_links. cbn. intros (-> & -> & -> & -> & -> & ->). reflexivity. Qed.

Lemma store_side_links (s : S) a b : same_links a b -> store_side_collapse_candidates s a = store_side_collapse_candidates s b.
Proof. destruct a, b. unfold same_links. cbn. intros (-> & -> & -> & -> & -> & ->). reflexivity. Qed.

Lemma candidate_elem (s : S) t k :
  k ∈ collapse_candidate_keys s t <-> k ∈ closing_issue_workspace_keys t \/ k ∈ store_side_collapse_candidates s t.
Proof. unfold collapse_candidate_keys, sorted_keys. by rewrite sorted_elements_elem, elem_of_list_to_set, elem_of_app. Qed.

(** ** The rounds *)

Lemma lock_rounds_last key ks pre (s : S) keys :
  lock_rounds key ks pre = None -> lock_rounds key ks (pre ++ [s]) = Some keys ->
  ks ⊆ keys /\ candidates_of s (stored_pr s key) ⊆ keys.
Proof.
  revert ks. induction pre as [|s' pre IH]; intros ks; cbn [lock_rounds app].
  - intros _. case_bool_decide as He; [|done]. intros [= <-]. set_solver.
  - case_bool_decide; [done|]. intros Hn Hs. destruct (IH _ Hn Hs). set_solver.
Qed.

(** Where nothing changes meanwhile, a second round finds nothing more to lock. *)
Lemma lock_rounds_settle key ks (s : S) : is_Some (lock_rounds key ks [s; s]).
Proof.
  cbn [lock_rounds]. destruct (bool_decide _); [done|]. rewrite bool_decide_eq_true_2; [done|set_solver].
Qed.

(** A row is folded under its lock.  When the locks for a task are taken -- by planning,
    locking, and reading again under the locks until a reading asks for no more -- and
    that last reading is the state the upsert works on, every row it folds away is
    locked, and so is the row itself; provided the rows that link to an incoming pull
    request are still those of the plan.  A store that stays as it is needs two rounds. *)
Theorem a_fold_is_under_its_locks (env : Env S) key t planned pre d keys d' w pending :
  lock_workspace_with_closing_issues key (Some t) planned pre = None ->
  lock_workspace_with_closing_issues key (Some t) planned (pre ++ [store d]) = Some keys ->
  (is_pr t = true -> forall k, k ∈ store_side_collapse_candidates (store d) t -> k ∈ store_side_collapse_candidates planned t) ->
  prepare_upsert show_decode show_store env key t d = (d', Some (w, pending)) ->
  key ∈ keys /\ Forall (fun m => issue_key m ∈ keys) pending
  /\ is_Some (lock_workspace_with_closing_issues key (Some t) (store d) [store d; store d]).
Proof.
  unfold lock_workspace_with_closing_issues. intros Hpre Hlast Hplan Hp.
  destruct (lock_rounds_last _ _ _ _ _ Hpre Hlast) as [Hfirst Hstored].
  split_and!; [|..|apply lock_rounds_settle].
  { apply Hfirst. unfold first_keys. set_solver. }
  pose proof (prepare_spec _ _ _ _ _ _ _ _ Hp) as (existing & Hm & Hex).
  destruct (merge_pass_spec _ _ _ _ _ _ Hm) as (_ & _ & _ & Hall). apply (Forall_impl _ _ _ Hall).
  intros m ((p & Hpr & Hin) & _). destruct (attached_row_pr _ _ _ _ Hpr) as [[Hispr Hl]|(w0 & p0 & -> & Hp0 & Hl)].
  - apply Hfirst. unfold first_keys. cbn. rewrite Hispr. apply elem_of_union. right. cbn.
    apply elem_of_list_to_set, candidate_elem. apply candidate_elem in Hin.
    rewrite (closing_links _ _ Hl), (store_side_links _ _ _ Hl) in Hin. destruct Hin; [by left|right]. by apply Hplan.
  - apply Hstored. unfold candidates_of, stored_pr. destruct Hex as [[? _]|[<- _]]; [done|]. cbn. rewrite Hp0.
    apply elem_of_list_to_set. apply candidate_elem in Hin. apply candidate_elem.
    by rewrite <- (closing_links _ _ Hl), <- (store_side_links _ _ _ Hl).
Qed.

End locks.
