(* ===== verification/PollUpsertExamples.v ===== *)
(** * Upserts on a small store

    The theorems of PollUpsertProps.v and PollUpsertLocks.v at concrete states: an issue
    with a session, the pull request that closes it, a scratch row it grew out of; the
    in-memory store, and a codec that knows the rows which occur.  Two states show what
    the theorems leave open. *)

From Stdlib Require Import Ascii String.
From S2P Require Import ProviderOps ActivityFeed Policy.
From S2P Require Import Prelude Text CoreTask WorkStore Epics WorkspaceRow RowStore RowStoreProps.
From S2P Require Import Collapse PollUpsert PollUpsertProps PollUpsertLocks.
From S2P Require Work.

#[global] Open Scope Z_scope.
#[local] Open Scope string_scope.
#[local] Open Scope list_scope.

(** ** A codec of the rows that occur *)

#[local] Instance ops_eq : EqDecision ProviderOps.ProviderOps. Proof. solve_decision. Defined.
#[local] Instance feed_eq : EqDecision ActivityFeed.Feed. Proof. solve_decision. Defined.
#[local] Instance workspace_eq : EqDecision Workspace. Proof. solve_decision. Defined.
#[local] Instance policies_eq : EqDecision Policy.AutomationPolicies. Proof. solve_decision. Defined.
#[local] Instance log_eq : EqDecision SnippetDeliveryLog. Proof. solve_decision. Defined.
#[local] Instance prompt_eq : EqDecision CleanupPrompt. Proof. solve_decision. Defined.
#[local] Instance wake_eq : EqDecision SnoozeWake. Proof. solve_decision. Defined.
#[local] Instance floating_eq : EqDecision FloatingWorkspaceKind. Proof. solve_decision. Defined.
#[local] Instance hopper_eq : EqDecision HopperMeta. Proof. solve_decision. Defined.
#[local] Instance link_eq : EqDecision TodoLink. Proof. solve_decision. Defined.
#[local] Instance todo_eq : EqDecision TodoItem. Proof. solve_decision. Defined.
#[local] Instance session_eq : EqDecision Session. Proof. solve_decision. Defined.
#[local] Instance row_eq : EqDecision Row. Proof. solve_decision. Defined.

Definition named (samples : list (string * Row)) (j : string) : option Row :=
  find_map (fun jr => if String.eqb jr.1 j then Some jr.2 else None) samples.

Definition sample_codec (samples : list (string * Row)) : RowCodec := {|
  row_json w := find_map (fun jr => if bool_decide (jr.2 = stamped w) then Some jr.1 else None) samples;
  row_of_json := named samples;
  row_of_value := named samples;
|}.

Lemma sample_laws samples : NoDup (map fst samples) -> @RowCodecLaws (sample_codec samples).
Proof.
  intros Hn. split. intros w j. cbn [row_json row_of_value sample_codec]. unfold named.
  induction samples as [|[j' r] l IH]; [done|]. cbn [map fst] in Hn. apply NoDup_cons in Hn as [Hj Hn].
  cbn [find_map fst snd]. case_bool_decide as Hr.
  - intros [= ->]. by rewrite String.eqb_refl, Hr.
  - intros Hf. destruct (String.eqb_spec j' j) as [->|]; [|by apply IH]. exfalso. apply Hj.
    clear -Hf. induction l as [|[j0 r0] l IH]; [done|]. cbn [find_map fst snd map] in *. revert Hf. case_bool_decide.
    + intros [= ->]. by left.
    + intros Hf. right. by apply IH.
Qed.

Definition blank_codec (A : Type) : Codec A := {| to_json := fun _ => Some "{}"; from_json := fun _ => None |}.

(** ** The rows *)

Definition the_issue : Task := plain_task (Work.mkTaskId "github" "o/r#1") Open_ CiNone RvNone MUnknown KIssue [].

Definition with_links (b : option string) (closes : list TaskId) (t : Task) : Task :=
  mkTask (id t) (state t) (ci t) (review t) (url t) (Some "o/r") (branch t) (base_branch t) (labels t)
    (mergeable t) (merge_blocked t) (kind t) (parent t) (blocked_by t) (merge_after t) (contracts t)
    (blocked_on t) (role t) (author t) (updated_at t) (closed_at t) (assignees t) (reviewers t)
    (reviews t) (approval_policy t) (auto_merge_enabled t) (is_in_merge_queue t) (state_label t)
    (node_id t) (checks t) (title t) (is_behind_base t) (recent_activity t) b closes [].

Definition bare_pr : Task := plain_task (Work.mkTaskId "github" "o/r#2") Open_ CiNone RvNone MUnknown KPr [].
Definition closing_pr : Task := with_links None [id the_issue] bare_pr.
Definition adopting_pr : Task := with_links (Some "made in lazybox:scratch-1") [] bare_pr.

Definition issue_row_key : string := "github-o-r-1".
Definition pr_row_key : string := "github-o-r-2".

Definition issue_row : Row := set_sessions [mkSession 7 issue_row_key 0] (from_task the_issue 0 0).
Definition scratch_row : Row :=
  let w := empty "scratch-1" "main" 0 in
  mkRow (core w) (schema w) (project_key w) true (floating w) (hopper w) (todo_items w)
    (linked_checkout w) (branch_name w) (sessions w) (provider_ops w) (feed w) (snoozed_until w)
    (snooze_wake w) (woke_at w) (track_main w) (main_branch w) (track_main_behind w) (metered w)
    (compact_context w) (policies w) (notes w) (sent_snippets w) (cleanup_prompt w) (remote w)
    (row_role w) (row_created_at w) (last_viewed_at w).

Definition folded_row : Row := (absorb_issue_workspace 0 issue_row (from_task closing_pr 0 0)).1.
Definition adopted_row : Row := (absorb_issue_workspace 0 scratch_row (from_task adopting_pr 0 0)).1.

Definition samples : list (string * Row) :=
  [("issue", stamped issue_row); ("scratch", stamped scratch_row); ("folded", stamped folded_row);
   ("adopted", stamped adopted_row); ("fresh", stamped (from_task the_issue 0 0))].

#[local] Existing Instance memory_batches.
#[local] Instance the_store : Store (gmap string string) string := memory_store is_empty.
#[local] Instance the_laws : StoreLaws (gmap string string) string := memory_laws is_empty.
#[local] Instance the_batches : BatchLaws (gmap string string) := memory_batches.
#[local] Instance the_codec : RowCodec := sample_codec samples.
#[local] Instance the_codec_laws : RowCodecLaws.
Proof. apply sample_laws. cbn. repeat (constructor; [set_solver|]). constructor. Qed.
#[local] Instance project_codec : Codec Project := blank_codec _.
#[local] Instance strings_codec : Codec (list string) := blank_codec _.
#[local] Instance prompts_codec : Codec (list UserPrompt) := blank_codec _.
#[local] Instance blocker_codec : Codec DeclaredBlocker := blank_codec _.
#[local] Instance meta_codec : Codec (string * TerminalKind) := blank_codec _.
#[local] Instance work_codec : Codec Work.Task := blank_codec _.

Definition quiet_env : Env (gmap string string) :=
  mkEnv 0 0 None true (fun d => d) (fun _ => true) (fun _ => true) (fun _ => false) (fun _ => false) (fun _ => false).

Definition holding (rows : gmap string string) : Daemon (gmap string string) := mkDaemon rows [] ∅ ∅ ∅ ∅ ∅.

Definition issue_store : gmap string string := {[ row_key issue_row_key := "issue" ]}.
Definition scratch_store : gmap string string := {[ row_key "scratch-1" := "scratch" ]}.

Definition no_error (_ : CommitError) : string := EmptyString.
Definition no_decode (_ : WorkspaceDecodeError) : string := EmptyString.
Definition no_store (_ : StoreError) : string := EmptyString.
Definition no_uuid (_ : Work.uuid) : string := EmptyString.

Definition a_poll : Step := SUpsert quiet_env (mkContext ∅ ∅) closing_pr.

Definition polled : Daemon (gmap string string) :=
  run_step no_error no_decode no_store no_uuid (holding issue_store) a_poll.

Example the_poll_folds_the_issue :
  load_workspace (store polled) pr_row_key = Some (stamped folded_row)
  /\ load_workspace (store polled) issue_row_key = None
  /\ session_ids folded_row = [7].
Proof. split_and!; vm_compute; reflexivity. Qed.

(** ** Witnesses *)

Lemma clients_see_the_store_witness :
  exists es, trace (fold_left (run_step no_error no_decode no_store no_uuid) [a_poll] (holding issue_store)) = [] ++ es
    /\ forall key, stored (store (fold_left (run_step no_error no_decode no_store no_uuid) [a_poll] (holding issue_store))) key
                   = client_view key es (stored issue_store key).
Proof.
  apply (clients_see_the_store no_error no_decode no_store no_uuid [a_poll] (holding issue_store)).
  constructor; [|constructor]. intros d. reflexivity.
Defined.

Lemma singleton_keys k j w :
  row_read j = Some w -> ws_key (core w) = k -> own_keys ({[ row_key k := j ]} : gmap string string).
Proof.
  intros Hj Hk key w' Hs. unfold stored in Hs. cbn in Hs. destruct (decide (row_key key = row_key k)) as [He|He].
  - rewrite He, lookup_singleton_eq in Hs. cbn in Hs. apply workspace_row_key_inj in He. congruence.
  - rewrite lookup_singleton_ne in Hs by done. done.
Qed.

Lemma empty_keys : own_keys (∅ : gmap string string).
Proof. intros key w Hs. unfold stored in Hs. cbn in Hs. by rewrite lookup_empty in Hs. Qed.


(** A row a newer build wrote. *)
Definition newer_store : gmap string string := {[ row_key pr_row_key := "{schema:99}" ]}.

Lemma unreadable_rows_are_preserved_witness :
  payload (store (upsert_locked no_error no_decode no_store quiet_env pr_row_key closing_pr (holding newer_store)).1)
    pr_row_key = Some "{schema:99}".
Proof.
  assert (own_keys newer_store) as Hown.
  { intros key w Hs. exfalso. unfold stored in Hs. cbn in Hs. destruct (decide (row_key key = row_key pr_row_key)) as [He|He].
    - rewrite He in Hs. unfold newer_store in Hs. rewrite lookup_singleton_eq in Hs. by vm_compute in Hs.
    - unfold newer_store in Hs. by rewrite lookup_singleton_ne in Hs by done. }
  assert (payload newer_store pr_row_key = Some "{schema:99}") as Hp by (vm_compute; reflexivity).
  assert (row_read "{schema:99}" = None) as Hr by (vm_compute; reflexivity).
  assert (pr_row_key = workspace_key_for closing_pr) as Hk by (vm_compute; reflexivity).
  exact (unreadable_rows_are_preserved no_error no_decode no_store quiet_env pr_row_key closing_pr (holding newer_store)
           pr_row_key "{schema:99}" Hown Hp eq_refl Hr (or_introl Hk)).
Defined.

#[local] Abbreviation merged := (merge_closing_issue_workspaces quiet_env (holding issue_store) (from_task closing_pr 0 0)).
#[local] Abbreviation committed := (commit_merge no_error quiet_env merged.1.2 merged.2 merged.1.1).

Lemma triple {A B C} (x : A * B * C) : x = (x.1.1, x.1.2, x.2).
Proof. by destruct x as [[? ?] ?]. Qed.


Definition refusing : Daemon (gmap string string) := mkDaemon issue_store [] ∅ ∅ ∅ ∅ {[ issue_row_key ]}.

Lemma a_refused_fold_is_not_made_witness :
  let d' := fold_left (fun d p => (upsert_into_workspace_key no_error no_decode no_store no_uuid p.1.1 p.1.2 p.2 d).1)
              [(quiet_env, pr_row_key, closing_pr); (quiet_env, pr_row_key, closing_pr)] refusing in
  issue_row_key ∈ rejected d' /\ stored (store d') issue_row_key <> None.
Proof.
  assert (issue_row_key ∈ rejected refusing) as Hr by set_solver.
  assert (stored (store refusing) issue_row_key <> None) as Hs.
  { assert (stored (store refusing) issue_row_key = Some (stamped issue_row)) as -> by (vm_compute; reflexivity). done. }
  apply (a_refused_fold_is_not_made no_error no_decode no_store no_uuid
           [(quiet_env, pr_row_key, closing_pr); (quiet_env, pr_row_key, closing_pr)] refusing issue_row_key);
    [|exact Hr|exact Hs]. constructor; [by intros d|]. constructor; [by intros d|constructor].
Defined.

Definition locked : gset string :=
  default ∅ (lock_workspace_with_closing_issues pr_row_key (Some closing_pr) issue_store ([] ++ [issue_store])).

Lemma a_fold_is_under_its_locks_witness :
  issue_row_key ∈ locked.
Proof.
  assert (lock_workspace_with_closing_issues pr_row_key (Some closing_pr) issue_store ([] ++ [store (holding issue_store)])
          = Some locked) as Hl by (vm_compute; reflexivity).
  assert (snd <$> (prepare_upsert no_decode no_store quiet_env pr_row_key closing_pr (holding issue_store)).2
          = Some [mkPendingMerge issue_row_key "o/r#1" "o/r#2" [7]]) as Hp by (vm_compute; reflexivity).
  destruct (prepare_upsert no_decode no_store quiet_env pr_row_key closing_pr (holding issue_store)) as [d' [[w pending]|]] eqn:Ep;
    [|discriminate Hp]. injection Hp as Hp.
  destruct (a_fold_is_under_its_locks no_decode no_store quiet_env pr_row_key closing_pr issue_store [] (holding issue_store)
              locked d' w pending eq_refl Hl (fun _ k Hk => Hk) Ep) as (_ & Hall & _).
  rewrite Hp in Hall. apply Forall_inv in Hall. exact Hall.
Defined.

(** ** What the theorems leave open *)

(** An issue is sent to the row of a pull request that claims it.  Where that row is not
    there, the issue's own row is created, though the key that was tested for a deletion
    in flight is the pull request's: the row of an issue being deleted comes back. *)
Example a_routed_issue_escapes_its_tombstone :
  let d := mkDaemon ∅ [] ∅ {[ issue_row_key ]} ∅ ∅ ∅ in
  let ctx := mkContext {[ id the_issue := pr_row_key ]} ∅ in
  let d' := (upsert_with_context no_error no_decode no_store no_uuid quiet_env ctx the_issue d).1.1 in
  issue_row_key ∈ deleted_workspaces d' /\ is_Some (load_workspace (store d') issue_row_key).
Proof.
  cbv zeta. split; [apply (bool_decide_unpack _); vm_compute; exact I|].
  exists (stamped (from_task the_issue 0 0)). vm_compute. reflexivity.
Qed.

(** The rows that link to a pull request polled for the first time are looked up once,
    before the locks.  A scratch row that appears while they are waited for is folded
    and deleted without its lock. *)
Example a_row_that_appears_is_folded_unlocked :
  lock_workspace_with_closing_issues pr_row_key (Some adopting_pr) ∅ [scratch_store] = Some {[ pr_row_key ]}
  /\ map issue_key (merge_closing_issue_workspaces quiet_env (holding scratch_store) (from_task adopting_pr 0 0)).2
     = ["scratch-1"].
Proof. split; vm_compute; reflexivity. Qed.
