(* ===== verification/Tiles.v ===== *)
(** * Tile trees ([src/crates/core/src/workspace.rs])

    The split layout of one session: the leaves are terminals, a split shares its
    area between two children by a percentage.  A path is the list of steps from
    the root, [0] to the left or the top child and anything else to the other.

    The operations that mutate the tree through [&mut self] return the tree they
    leave beside their result.  [descend_to_leaf] walks with the height of the tree
    as fuel, [balanced_at] with the number of terminals; [descend_spec] and
    [balanced_round_trips] show that this is enough.

    The lemmas say where a path leads: the leaves before it, the leaves after it
    and the subtree it names ([leaves_split]), and what each operation does to
    these three. *)

From S2P Require Import Prelude.

#[global] Open Scope Z_scope.

Inductive TileTree : Type :=
| Leaf (terminal_id : Z)
| HSplit (left right : TileTree) (ratio : Z)
| VSplit (top bottom : TileTree) (ratio : Z).

#[export] Instance TileTree_eq_dec : EqDecision TileTree.
Proof. solve_decision. Defined.

Inductive TileDirection : Type := Left | Right | Up | Down.
Inductive TileAxis : Type := Horizontal | Vertical.
Inductive RemoveAtError : Type := CannotRemoveRoot | PathNotFound.

#[export] Instance TileAxis_eq_dec : EqDecision TileAxis.
Proof. solve_decision. Defined.

Inductive SessionLayout : Type :=
| Tabs (active : nat)
| Splits (tree : TileTree) (focused : list Z).

#[export] Instance SessionLayout_eq_dec : EqDecision SessionLayout.
Proof. solve_decision. Defined.

Definition TILE_RATIO_MIN : Z := 10.
Definition TILE_RATIO_MAX : Z := 90.

Definition wants_horizontal (dir : TileDirection) : bool :=
  match dir with Left | Right => true | _ => false end.

Definition wants_first (dir : TileDirection) : bool :=
  match dir with Left | Up => true | _ => false end.

Definition is_hsplit (t : TileTree) : bool :=
  match t with HSplit _ _ _ => true | _ => false end.

Definition is_leaf (t : TileTree) : bool :=
  match t with Leaf _ => true | _ => false end.

(** ** Reading *)

Fixpoint collect_leaves (t : TileTree) (out : list Z) : list Z :=
  match t with
  | Leaf i => out ++ [i]
  | HSplit l r _ | VSplit l r _ => collect_leaves r (collect_leaves l out)
  end.

Definition leaves (t : TileTree) : list Z := collect_leaves t [].

(** Half the slice, the odd one to the first side ([usize::div_ceil]). *)
Definition div_ceil2 (n : nat) : nat := (n + 1) / 2.

Fixpoint balanced_at (fuel : nat) (ids : list Z) (depth : nat) : option TileTree :=
  match ids, fuel with
  | [], _ => None
  | [only], _ => Some (Leaf only)
  | _, O => None
  | _, S fuel =>
      let mid := div_ceil2 (length ids) in
      first ← balanced_at fuel (take mid ids) (S depth);
      second ← balanced_at fuel (drop mid ids) (S depth);
      Some (if Nat.even depth then HSplit first second 50 else VSplit first second 50)
  end.

Definition balanced (ids : list Z) : option TileTree := balanced_at (length ids) ids 0.

(** The path is pushed and popped in place; it comes back with the answer. *)
Fixpoint find_path (t : TileTree) (id : Z) (path : list Z) : bool * list Z :=
  match t with
  | Leaf i => (i =? id, path)
  | HSplit l r _ | VSplit l r _ =>
      let (found, path) := find_path l id (path ++ [0]) in
      if found then (true, path) else
      let (found, path) := find_path r id (removelast path ++ [1]) in
      if found then (true, path) else (false, removelast path)
  end.

Definition path_to (t : TileTree) (id : Z) : option (list Z) :=
  let (found, path) := find_path t id [] in
  if found then Some path else None.

Fixpoint subtree_at (t : TileTree) (path : list Z) {struct path} : option TileTree :=
  match path with
  | [] => Some t
  | step :: rest =>
      match t with
      | Leaf _ => None
      | HSplit l r _ | VSplit l r _ => subtree_at (if step =? 0 then l else r) rest
      end
  end.

Fixpoint height (t : TileTree) : nat :=
  match t with
  | Leaf _ => 0
  | HSplit l r _ | VSplit l r _ => S (height l `max` height r)
  end.

(** The loop of [descend_to_leaf]: while the path names a split, go to its first child. *)
Fixpoint descend (fuel : nat) (t : TileTree) (path : list Z) : list Z :=
  match fuel with
  | O => path
  | S fuel =>
      match subtree_at t path with
      | None | Some (Leaf _) => path
      | Some _ => descend fuel t (path ++ [0])
      end
  end.

Definition descend_to_leaf (t : TileTree) (path : list Z) : list Z := descend (height t) t path.

(** The loop of [neighbor] over the ancestors, [i - 1] being the step looked at. *)
Fixpoint neighbor_above (t : TileTree) (path : list Z) (dir : TileDirection) (i : nat) : option (list Z) :=
  match i with
  | O => None
  | S i =>
      let prefix := take i path in
      node ← subtree_at t prefix;
      if negb (Bool.eqb (is_hsplit node) (wants_horizontal dir)) then neighbor_above t path dir i else
      let came_from_near := Bool.eqb (nth i path 0 =? 1) (wants_first dir) in
      if negb came_from_near then neighbor_above t path dir i else
      Some (descend_to_leaf t (prefix ++ [if wants_first dir then 0 else 1]))
  end.

Definition neighbor (t : TileTree) (path : list Z) (dir : TileDirection) : option (list Z) :=
  neighbor_above t path dir (length path).

Definition axis_at (t : TileTree) (path : list Z) : option TileAxis :=
  match subtree_at t path with
  | None | Some (Leaf _) => None
  | Some (HSplit _ _ _) => Some Horizontal
  | Some (VSplit _ _ _) => Some Vertical
  end.

Definition ratio_at (t : TileTree) (path : list Z) : option Z :=
  match subtree_at t path with
  | None | Some (Leaf _) => None
  | Some (HSplit _ _ r) | Some (VSplit _ _ r) => Some r
  end.

(** ** Writing *)

Fixpoint replace_at (t : TileTree) (path : list Z) (new : TileTree) {struct path} : option TileTree * TileTree :=
  match path with
  | [] => (Some t, new)
  | head :: rest =>
      match t with
      | Leaf _ => (None, t)
      | HSplit l r ra =>
          if head =? 0
          then let (old, l) := replace_at l rest new in (old, HSplit l r ra)
          else let (old, r) := replace_at r rest new in (old, HSplit l r ra)
      | VSplit l r ra =>
          if head =? 0
          then let (old, l) := replace_at l rest new in (old, VSplit l r ra)
          else let (old, r) := replace_at r rest new in (old, VSplit l r ra)
      end
  end.

(** [Ok] is [inr], the path of the focus after the collapse. *)
Fixpoint remove_at (t : TileTree) (path : list Z) {struct path} : (RemoveAtError + list Z) * TileTree :=
  match path with
  | [] => (inl CannotRemoveRoot, t)
  | [head] =>
      match t with
      | Leaf _ => (inl PathNotFound, t)
      | HSplit l r _ | VSplit l r _ => (inr [], if head =? 0 then r else l)
      end
  | head :: rest =>
      let prefixed (res : RemoveAtError + list Z) :=
        match res with inl e => inl e | inr sub_path => inr (head :: sub_path) end in
      match t with
      | Leaf _ => (inl PathNotFound, t)
      | HSplit l r ra =>
          if head =? 0
          then let (res, l) := remove_at l rest in (prefixed res, HSplit l r ra)
          else let (res, r) := remove_at r rest in (prefixed res, HSplit l r ra)
      | VSplit l r ra =>
          if head =? 0
          then let (res, l) := remove_at l rest in (prefixed res, VSplit l r ra)
          else let (res, r) := remove_at r rest in (prefixed res, VSplit l r ra)
      end
  end.

(** The node at the path and what writing through the reference to it makes of the
    tree. *)
Fixpoint subtree_at_mut (t : TileTree) (path : list Z) {struct path} : option (TileTree * (TileTree -> TileTree)) :=
  match path with
  | [] => Some (t, fun node => node)
  | step :: rest =>
      match t with
      | Leaf _ => None
      | HSplit l r ra =>
          if step =? 0
          then '(n, put) ← subtree_at_mut l rest; Some (n, fun node => HSplit (put node) r ra)
          else '(n, put) ← subtree_at_mut r rest; Some (n, fun node => HSplit l (put node) ra)
      | VSplit l r ra =>
          if step =? 0
          then '(n, put) ← subtree_at_mut l rest; Some (n, fun node => VSplit (put node) r ra)
          else '(n, put) ← subtree_at_mut r rest; Some (n, fun node => VSplit l (put node) ra)
      end
  end.

Definition clamp (lo hi z : Z) : Z := if z <? lo then lo else if hi <? z then hi else z.

Definition set_ratio_at (t : TileTree) (path : list Z) (ratio : Z) : bool * TileTree :=
  let clamped := clamp TILE_RATIO_MIN TILE_RATIO_MAX ratio in
  match subtree_at_mut t path with
  | Some (HSplit l r ra, put) => if ra =? clamped then (false, t) else (true, put (HSplit l r clamped))
  | Some (VSplit l r ra, put) => if ra =? clamped then (false, t) else (true, put (VSplit l r clamped))
  | _ => (false, t)
  end.

(** Two's-complement wrap-around of [i16]: the release build does not trap. *)
Definition wrap_i16 (a : Z) : Z := (a + 2 ^ 15) mod 2 ^ 16 - 2 ^ 15.

Definition signed_step (dir : TileDirection) (step : Z) : Z :=
  match dir with Right | Down => step | Left | Up => wrap_i16 (- step) end.

Fixpoint resize_above (t : TileTree) (path : list Z) (dir : TileDirection) (step : Z) (i : nat)
    : option (list Z) * TileTree :=
  match i with
  | O => (None, t)
  | S i =>
      let owner := take i path in
      match subtree_at t owner with
      | None => (None, t)
      | Some node =>
          if negb (Bool.eqb (is_hsplit node) (wants_horizontal dir)) then resize_above t path dir step i else
          match ratio_at t owner with
          | None => (None, t)
          | Some current =>
              let next := clamp TILE_RATIO_MIN TILE_RATIO_MAX (wrap_i16 (current + signed_step dir step)) in
              let (changed, t) := set_ratio_at t owner next in
              (if changed then Some owner else None, t)
          end
      end
  end.

Definition resize_toward (t : TileTree) (leaf_path : list Z) (dir : TileDirection) (step : Z)
    : option (list Z) * TileTree :=
  resize_above t leaf_path dir step (length leaf_path).

Example four_terminals_make_a_square :
  balanced [1; 2; 3; 4] = Some (HSplit (VSplit (Leaf 1) (Leaf 2) 50) (VSplit (Leaf 3) (Leaf 4) 50) 50).
Proof. reflexivity. Qed.

(** ** Leaves *)

Lemma collect_leaves_app t out : collect_leaves t out = out ++ leaves t.
Proof.
  unfold leaves. revert out.
  induction t as [i|l IHl r IHr ra|l IHl r IHr ra]; intros out; simpl; [done| |];
    rewrite (IHr (collect_leaves l out)), (IHr (collect_leaves l [])), (IHl out); by rewrite app_assoc.
Qed.

Lemma leaves_HSplit l r ra : leaves (HSplit l r ra) = leaves l ++ leaves r.
Proof. unfold leaves at 1. simpl. by rewrite collect_leaves_app. Qed.

Lemma leaves_VSplit l r ra : leaves (VSplit l r ra) = leaves l ++ leaves r.
Proof. unfold leaves at 1. simpl. by rewrite collect_leaves_app. Qed.

Lemma leaves_Leaf i : leaves (Leaf i) = [i].
Proof. done. Qed.

Create HintDb tiles.
#[export] Hint Rewrite leaves_HSplit leaves_VSplit leaves_Leaf : tiles.

Lemma leaves_not_nil t : leaves t <> [].
Proof.
  induction t as [i|l IHl r IHr ra|l IHl r IHr ra]; autorewrite with tiles; [done| |];
    destruct (leaves l); done.
Qed.

(** The leaves before and after the subtree a path names. *)
Fixpoint before (t : TileTree) (path : list Z) {struct path} : list Z :=
  match path with
  | [] => []
  | step :: rest =>
      match t with
      | Leaf _ => []
      | HSplit l r _ | VSplit l r _ => if step =? 0 then before l rest else leaves l ++ before r rest
      end
  end.

Fixpoint after (t : TileTree) (path : list Z) {struct path} : list Z :=
  match path with
  | [] => []
  | step :: rest =>
      match t with
      | Leaf _ => []
      | HSplit l r _ | VSplit l r _ => if step =? 0 then after l rest ++ leaves r else after r rest
      end
  end.

Lemma leaves_split t path s :
  subtree_at t path = Some s -> leaves t = before t path ++ leaves s ++ after t path.
Proof.
  revert t. induction path as [|step rest IH]; intros t H; simpl in *.
  { injection H as ->. by rewrite app_nil_r. }
  destruct t as [i|l r ra|l r ra]; [done| |]; autorewrite with tiles;
    (destruct (step =? 0); rewrite (IH _ H), <- !app_assoc; done).
Qed.

Lemma subtree_at_app t p q :
  subtree_at t (p ++ q) = s ← subtree_at t p; subtree_at s q.
Proof.
  revert t. induction p as [|step p IH]; intros t; [done|]. simpl.
  destruct t; [done|apply IH|apply IH].
Qed.

(** Every leaf of the tree is where some path of zeros and ones leads. *)
Lemma leaf_has_path t i :
  i ∈ leaves t -> exists q, subtree_at t q = Some (Leaf i) /\ i ∉ before t q /\ Forall (fun s => s = 0 \/ s = 1) q.
Proof.
  induction t as [j|l IHl r IHr ra|l IHl r IHr ra]; autorewrite with tiles.
  { intros ->%list_elem_of_singleton. exists []. split_and!; [done|apply not_elem_of_nil|constructor]. }
  all: rewrite elem_of_app; intros Hi;
    (destruct (decide (i ∈ leaves l)) as [Hl|Hl];
     [destruct (IHl Hl) as (q & Hq & Hb & Hs); exists (0 :: q)
     |destruct (IHr ltac:(tauto)) as (q & Hq & Hb & Hs); exists (1 :: q)]);
    (split_and!; [done|simpl; rewrite ?elem_of_app; tauto|constructor; [lia|done]]).
Qed.

(** ** Searching *)

Lemma find_path_spec t id path :
  (exists q, find_path t id path = (true, path ++ q) /\ subtree_at t q = Some (Leaf id)
     /\ id ∉ before t q /\ Forall (fun s => s = 0 \/ s = 1) q)
  \/ find_path t id path = (false, path) /\ id ∉ leaves t.
Proof.
  revert path. induction t as [j|l IHl r IHr ra|l IHl r IHr ra]; intros path; simpl.
  { destruct (Z.eqb_spec j id) as [->|Hj].
    - left. exists []. rewrite app_nil_r. split_and!; [done|done|apply not_elem_of_nil|constructor].
    - right. split; [done|]. autorewrite with tiles. by intros ->%list_elem_of_singleton. }
  all: autorewrite with tiles; rewrite elem_of_app;
    destruct (IHl (path ++ [0])) as [(q & -> & Hq & Hb & Hs)|[-> Hl]];
    [left; exists (0 :: q); rewrite <- app_assoc; split_and!; [done|done|done|constructor; [lia|done]]|];
    rewrite removelast_last;
    destruct (IHr (path ++ [1])) as [(q & -> & Hq & Hb & Hs)|[-> Hr]];
    [left; exists (1 :: q); rewrite <- app_assoc; split_and!;
       [done|done|simpl; rewrite elem_of_app; tauto|constructor; [lia|done]]
    |right; rewrite removelast_last; split; [done|tauto]].
Qed.

Lemma path_to_Some t id q :
  path_to t id = Some q ->
  subtree_at t q = Some (Leaf id) /\ id ∉ before t q /\ Forall (fun s => s = 0 \/ s = 1) q.
Proof.
  unfold path_to. destruct (find_path_spec t id []) as [(q' & -> & H)|[-> _]]; [simpl|done].
  by intros [= <-].
Qed.

Lemma path_to_None t id : path_to t id = None <-> id ∉ leaves t.
Proof.
  unfold path_to. destruct (find_path_spec t id []) as [(q & -> & Hq & _)|[-> H]]; [|done].
  split; [done|]. intros Hn. exfalso. apply Hn. rewrite (leaves_split _ _ _ Hq).
  autorewrite with tiles. set_solver.
Qed.

Lemma path_to_elem t id : id ∈ leaves t -> exists q, path_to t id = Some q.
Proof.
  intros H. destruct (path_to t id) as [q|] eqn:E; [by exists q|]. by apply path_to_None in E.
Qed.

(** Two paths to leaves of one id are one path, if the ids are distinct and the
    steps are those the operations make. *)
Lemma leaf_path_unique t p q i :
  NoDup (leaves t) -> Forall (fun s => s = 0 \/ s = 1) p -> Forall (fun s => s = 0 \/ s = 1) q ->
  subtree_at t p = Some (Leaf i) -> subtree_at t q = Some (Leaf i) -> p = q.
Proof.
  revert p q. induction t as [j|l IHl r IHr ra|l IHl r IHr ra]; intros p q Hnd Hp Hq Ep Eq.
  { destruct p; [|done]. by destruct q. }
  all: autorewrite with tiles in Hnd; apply NoDup_app in Hnd as (Hl & Hd & Hr);
    destruct p as [|s p]; [done|]; destruct q as [|s' q]; [done|]; simpl in Ep, Eq;
    inversion_clear Hp as [|? ? Hs Hp']; inversion_clear Hq as [|? ? Hs' Hq'];
    (destruct (Z.eqb_spec s 0), (Z.eqb_spec s' 0);
     [f_equal; [lia|by apply IHl]
     |exfalso; apply (Hd i); [rewrite (leaves_split _ _ _ Ep)|rewrite (leaves_split _ _ _ Eq)];
        autorewrite with tiles; set_solver
     |exfalso; apply (Hd i); [rewrite (leaves_split _ _ _ Eq)|rewrite (leaves_split _ _ _ Ep)];
        autorewrite with tiles; set_solver
     |f_equal; [lia|by apply IHr]]).
Qed.

(** ** Descending *)

Lemma subtree_height t path s : subtree_at t path = Some s -> (height s <= height t)%nat.
Proof.
  revert t. induction path as [|step rest IH]; intros t; simpl; [by intros [= ->]|].
  destruct t as [i|l r ra|l r ra]; [done| |]; simpl; intros H%IH; destruct (step =? 0); lia.
Qed.

(** The walk ends on the first leaf of the subtree. *)
Lemma descend_spec fuel t path s :
  subtree_at t path = Some s -> (height s <= fuel)%nat ->
  exists k i, descend fuel t path = path ++ replicate k 0
    /\ subtree_at t (path ++ replicate k 0) = Some (Leaf i) /\ head (leaves s) = Some i.
Proof.
  revert path s. induction fuel as [|fuel IH]; intros path s Hs Hh; simpl.
  { destruct s as [i| |]; simpl in Hh; [|lia|lia]. exists O, i. by rewrite app_nil_r. }
  rewrite Hs. destruct s as [i|l r ra|l r ra]; simpl in Hh.
  { exists O, i. by rewrite app_nil_r. }
  all: destruct (IH (path ++ [0]) l) as (k & i & -> & Hk & Hi);
    [by rewrite subtree_at_app, Hs|lia|];
    exists (S k), i; simpl; rewrite <- app_assoc in *; split_and!; [done|done|];
    autorewrite with tiles; destruct (leaves l); [done|exact Hi].
Qed.

Lemma descend_to_leaf_spec t path s :
  subtree_at t path = Some s ->
  exists k i, descend_to_leaf t path = path ++ replicate k 0
    /\ subtree_at t (path ++ replicate k 0) = Some (Leaf i) /\ head (leaves s) = Some i.
Proof. intros H. apply descend_spec; [done|by eapply subtree_height]. Qed.

(** ** Replacing *)

Lemma replace_at_spec t path new s :
  subtree_at t path = Some s ->
  exists t', replace_at t path new = (Some s, t')
    /\ leaves t' = before t path ++ leaves new ++ after t path
    /\ (forall q, subtree_at t' (path ++ q) = subtree_at new q)
    /\ before t' path = before t path.
Proof.
  revert t. induction path as [|step rest IH]; intros t H; simpl in *.
  { injection H as ->. exists new. by rewrite app_nil_r. }
  destruct t as [i|l r ra|l r ra]; [done| |];
    (destruct (step =? 0) eqn:E; destruct (IH _ H) as (t' & -> & Hl & Hq & Hb); eexists;
     (split; [done|]); autorewrite with tiles; rewrite Hl, <- ?app_assoc; (split; [done|]); simpl; rewrite ?E;
     (split; [done|by rewrite Hb])).
Qed.

Lemma replace_at_None t path new : subtree_at t path = None -> replace_at t path new = (None, t).
Proof.
  revert t. induction path as [|step rest IH]; intros t H; simpl in *; [done|].
  destruct t as [i|l r ra|l r ra]; [done| |]; (destruct (step =? 0); by rewrite IH).
Qed.

(** Writing through the reference is replacing. *)
Lemma subtree_at_mut_spec t path :
  match subtree_at t path with
  | None => subtree_at_mut t path = None
  | Some n => exists put, subtree_at_mut t path = Some (n, put) /\ forall x, put x = (replace_at t path x).2
  end.
Proof.
  revert t. induction path as [|step rest IH]; intros t; simpl; [by eexists|].
  destruct t as [i|l r ra|l r ra]; [done| |];
    (destruct (step =? 0);
     [specialize (IH l); destruct (subtree_at l rest) as [n|]
     |specialize (IH r); destruct (subtree_at r rest) as [n|]]);
     (by rewrite IH) ||
     (destruct IH as (put & -> & IH); eexists; (split; [done|]);
        intros x; simpl; rewrite IH; by destruct (replace_at _ _ _)).
Qed.

(** ** Removing *)

Definition children_of (t : TileTree) : option (TileTree * TileTree) :=
  match t with Leaf _ => None | HSplit l r _ | VSplit l r _ => Some (l, r) end.

Lemma remove_at_cons t step step' rest :
  remove_at t (step :: step' :: rest) =
  match t with
  | Leaf _ => (inl PathNotFound, t)
  | HSplit l r ra =>
      let (res, c) := remove_at (if step =? 0 then l else r) (step' :: rest) in
      (match res with inl e => inl e | inr p => inr (step :: p) end,
       if step =? 0 then HSplit c r ra else HSplit l c ra)
  | VSplit l r ra =>
      let (res, c) := remove_at (if step =? 0 then l else r) (step' :: rest) in
      (match res with inl e => inl e | inr p => inr (step :: p) end,
       if step =? 0 then VSplit c r ra else VSplit l c ra)
  end.
Proof.
  destruct t as [i|l r ra|l r ra]; [done| |]; destruct (step =? 0) eqn:E; cbn; by rewrite E.
Qed.

Lemma remove_at_spec t p step node l r :
  subtree_at t p = Some node -> children_of node = Some (l, r) ->
  exists t', remove_at t (p ++ [step]) = (inr p, t')
    /\ leaves t' = before t (p ++ [step]) ++ after t (p ++ [step])
    /\ subtree_at t' p = Some (if step =? 0 then r else l)
    /\ t' = (replace_at t p (if step =? 0 then r else l)).2.
Proof.
  revert t. induction p as [|s p IH]; intros t H Hc.
  { injection H as ->. destruct node as [i|l' r' ra|l' r' ra]; [done| |]; injection Hc as -> ->;
      (eexists; split_and!; [done| |done|done]; simpl; destruct (step =? 0); simpl; by rewrite ?app_nil_r). }
  destruct t as [i|l' r' ra|l' r' ra]; [done| |]; cbn [subtree_at] in H;
    (destruct (IH _ H Hc) as (t' & E & Hl & Hs & Ht); cbn [app];
     destruct (p ++ [step]) as [|s' rest] eqn:Ep; [by destruct p|];
     rewrite remove_at_cons, E; simpl; (destruct (s =? 0) eqn:Es;
     (eexists; split_and!;
     [done
     |autorewrite with tiles; simpl in Hl; rewrite Hl; by rewrite <- ?app_assoc
     |simpl; by rewrite ?Es|rewrite Ht; by destruct (replace_at _ _ _)]))).
Qed.

Lemma remove_at_None t path :
  subtree_at t path = None -> remove_at t path = (inl PathNotFound, t).
Proof.
  revert t. induction path as [|s p IH]; intros t H; [done|].
  destruct p as [|s' p].
  { simpl in H |- *. destruct t as [i|l r ra|l r ra]; [done| |]; by destruct (s =? 0). }
  rewrite remove_at_cons. destruct t as [i|l r ra|l r ra]; [done| |];
    cbn [subtree_at] in H; rewrite (IH _ H); by destruct (s =? 0).
Qed.

(** What is left of the leaves when one of them is removed. *)
Lemma subtree_parent t p step s :
  subtree_at t (p ++ [step]) = Some s ->
  exists node l r, subtree_at t p = Some node /\ children_of node = Some (l, r)
    /\ s = if step =? 0 then l else r.
Proof.
  rewrite subtree_at_app. destruct (subtree_at t p) as [node|]; [|done]. simpl. intros H.
  destruct node as [i|l r ra|l r ra]; [done| |]; injection H as <-; by eexists _, l, r.
Qed.

(** ** The type of a stored ratio *)

(** A tile of every split keeps between a tenth and nine tenths. *)
Fixpoint ratios_ok (t : TileTree) : Prop :=
  match t with
  | Leaf _ => True
  | HSplit l r ra | VSplit l r ra => TILE_RATIO_MIN <= ra <= TILE_RATIO_MAX /\ ratios_ok l /\ ratios_ok r
  end.

Lemma ratios_ok_subtree t path s : ratios_ok t -> subtree_at t path = Some s -> ratios_ok s.
Proof.
  revert t. induction path as [|step rest IH]; intros t Ht; simpl; [by intros [= <-]|].
  destruct t as [i|l r ra|l r ra]; [done| |]; destruct Ht as (_ & Hl & Hr); destruct (step =? 0); by apply IH.
Qed.

Lemma ratios_ok_replace t path new :
  ratios_ok t -> ratios_ok new -> ratios_ok (replace_at t path new).2.
Proof.
  revert t. induction path as [|step rest IH]; intros t Ht Hn; simpl; [done|].
  destruct t as [i|l r ra|l r ra]; [done| |]; destruct Ht as (? & Hl & Hr); (destruct (step =? 0);
    [specialize (IH l Hl Hn)|specialize (IH r Hr Hn)]); by destruct (replace_at _ _ _).
Qed.

Lemma clamp_range z : TILE_RATIO_MIN <= clamp TILE_RATIO_MIN TILE_RATIO_MAX z <= TILE_RATIO_MAX.
Proof.
  unfold clamp, TILE_RATIO_MIN, TILE_RATIO_MAX. destruct (Z.ltb_spec z 10); [lia|].
  destruct (Z.ltb_spec 90 z); lia.
Qed.

Lemma clamp_id z : TILE_RATIO_MIN <= z <= TILE_RATIO_MAX -> clamp TILE_RATIO_MIN TILE_RATIO_MAX z = z.
Proof.
  unfold clamp. intros [H1 H2]. destruct (Z.ltb_spec z TILE_RATIO_MIN); [lia|].
  destruct (Z.ltb_spec TILE_RATIO_MAX z); lia.
Qed.

(** ** Moving a divider *)

Definition ratio_of (t : TileTree) : option Z :=
  match t with Leaf _ => None | HSplit _ _ r | VSplit _ _ r => Some r end.

Definition with_ratio (t : TileTree) (ratio : Z) : TileTree :=
  match t with Leaf i => Leaf i | HSplit l r _ => HSplit l r ratio | VSplit l r _ => VSplit l r ratio end.

(** The tree without its ratios. *)
Fixpoint shape (t : TileTree) : TileTree :=
  match t with
  | Leaf i => Leaf i
  | HSplit l r _ => HSplit (shape l) (shape r) 0
  | VSplit l r _ => VSplit (shape l) (shape r) 0
  end.

Lemma shape_leaves t : leaves (shape t) = leaves t.
Proof. induction t; simpl; autorewrite with tiles; congruence. Qed.

Lemma shape_axis t q : axis_at (shape t) q = axis_at t q.
Proof.
  unfold axis_at. revert t. induction q as [|s q IH]; intros t; [by destruct t|].
  destruct t; simpl; [done| |]; destruct (s =? 0); apply IH.
Qed.

Lemma subtree_shape t q : subtree_at (shape t) q = shape <$> subtree_at t q.
Proof.
  revert t. induction q as [|x q IH]; intros t; [done|].
  destruct t; simpl; [done| |]; destruct (x =? 0); apply IH.
Qed.

Lemma shape_Leaf t i : shape t = Leaf i <-> t = Leaf i.
Proof. by destruct t; simpl; split; intros [= ->]. Qed.

Lemma shape_replace t path node new :
  subtree_at t path = Some node -> shape new = shape node -> shape (replace_at t path new).2 = shape t.
Proof.
  revert t. induction path as [|step rest IH]; intros t H Hn; simpl in *; [by injection H as ->|].
  destruct t as [i|l r ra|l r ra]; [done| |]; (destruct (step =? 0); specialize (IH _ H Hn);
    destruct (replace_at _ _ _); simpl in *; by rewrite IH).
Qed.

Lemma set_ratio_at_eq t path ratio :
  set_ratio_at t path ratio =
  let c := clamp TILE_RATIO_MIN TILE_RATIO_MAX ratio in
  match subtree_at t path with
  | None => (false, t)
  | Some node =>
      match ratio_of node with
      | None => (false, t)
      | Some old => if old =? c then (false, t) else (true, (replace_at t path (with_ratio node c)).2)
      end
  end.
Proof.
  unfold set_ratio_at. pose proof (subtree_at_mut_spec t path) as H.
  destruct (subtree_at t path) as [node|]; [|by rewrite H].
  destruct H as (put & -> & Hput). destruct node; simpl; by rewrite ?Hput.
Qed.

Lemma set_ratio_at_ok t path ratio : ratios_ok t -> ratios_ok (set_ratio_at t path ratio).2.
Proof.
  intros Ht. rewrite set_ratio_at_eq. simpl. destruct (subtree_at t path) as [node|] eqn:E; [|done].
  pose proof (ratios_ok_subtree _ _ _ Ht E) as Hn.
  destruct node as [i|l r ra|l r ra]; simpl; [done| |]; (destruct (_ =? _); [done|]);
    apply ratios_ok_replace; try done; destruct Hn as (_ & ? & ?); split_and!; try done; apply clamp_range.
Qed.

Lemma set_ratio_at_shape t path ratio : shape (set_ratio_at t path ratio).2 = shape t.
Proof.
  rewrite set_ratio_at_eq. simpl. destruct (subtree_at t path) as [node|] eqn:E; [|done].
  destruct (ratio_of node); [|done]. destruct (_ =? _); [done|].
  apply (shape_replace _ _ node); [done|by destruct node].
Qed.

Lemma replace_at_with_ratio t path node r r' :
  subtree_at t path = Some node -> 
  (replace_at (replace_at t path (with_ratio node r)).2 path (with_ratio node r')).2
  = (replace_at t path (with_ratio node r')).2.
Proof.
  revert t. induction path as [|step rest IH]; intros t H; simpl in *; [done|].
  destruct t as [i|a b ra|a b ra]; [done| |]; (destruct (step =? 0) eqn:E; specialize (IH _ H);
    destruct (replace_at _ rest (with_ratio node r)) as [o c] eqn:E1;
    simpl in *; rewrite ?E; repeat (destruct (replace_at _ rest _); simpl in * ); congruence).
Qed.

Lemma replace_at_same t path node : subtree_at t path = Some node -> (replace_at t path node).2 = t.
Proof.
  revert t. induction path as [|step rest IH]; intros t H; simpl in *; [by injection H|].
  destruct t as [i|a b ra|a b ra]; [done| |]; (destruct (step =? 0) eqn:E; specialize (IH _ H);
    destruct (replace_at _ _ _); simpl in *; congruence).
Qed.

Lemma with_ratio_same t r : ratio_of t = Some r -> with_ratio t r = t.
Proof. by destruct t; intros [= ->]. Qed.

Definition dir_axis (dir : TileDirection) : TileAxis :=
  if wants_horizontal dir then Horizontal else Vertical.

(** The split whose divider the loop moves. *)
Fixpoint divider_above (t : TileTree) (path : list Z) (dir : TileDirection) (i : nat) : option (list Z) :=
  match i with
  | O => None
  | S i => if decide (axis_at t (take i path) = Some (dir_axis dir)) then Some (take i path)
           else divider_above t path dir i
  end.

Lemma axis_at_test t path node dir :
  subtree_at t path = Some node -> is_leaf node = false ->
  Bool.eqb (is_hsplit node) (wants_horizontal dir) = bool_decide (axis_at t path = Some (dir_axis dir)).
Proof.
  intros H Hl. unfold axis_at. rewrite H. by destruct node, dir.
Qed.

(** Every proper prefix of a path into the tree is a split. *)
Lemma prefix_is_split t path s i :
  subtree_at t path = Some s -> (i < length path)%nat ->
  exists node, subtree_at t (take i path) = Some node /\ is_leaf node = false.
Proof.
  intros H Hi. rewrite <- (take_drop i path), subtree_at_app in H.
  destruct (subtree_at t (take i path)) as [node|]; [|done]. exists node. split; [done|].
  destruct (drop i path) as [|x l] eqn:E; [apply (f_equal length) in E; rewrite length_drop in E; simpl in E; lia|].
  by destruct node.
Qed.

Lemma resize_above_eq t path dir step s i :
  subtree_at t path = Some s -> (i <= length path)%nat ->
  resize_above t path dir step i =
  match divider_above t path dir i with
  | None => (None, t)
  | Some o =>
      match ratio_at t o with
      | None => (None, t)
      | Some old =>
          let (changed, t') := set_ratio_at t o
            (clamp TILE_RATIO_MIN TILE_RATIO_MAX (wrap_i16 (old + signed_step dir step))) in
          (if changed then Some o else None, t')
      end
  end.
Proof.
  intros H. induction i as [|i IH]; intros Hi; [done|]. simpl.
  destruct (prefix_is_split _ _ _ i H) as (node & Hn & Hl); [lia|].
  rewrite Hn, (axis_at_test _ _ _ _ Hn Hl). case_bool_decide; case_decide; try done. simpl. apply IH. lia.
Qed.

(** ** The balanced tree *)

Lemma div_ceil2_spec n : (2 <= n)%nat ->
  (0 < div_ceil2 n < n /\ n <= 2 * div_ceil2 n <= n + 1 /\ n - div_ceil2 n <= div_ceil2 n)%nat.
Proof.
  unfold div_ceil2. intros Hn. pose proof (Nat.div_mod_eq (n + 1) 2).
  pose proof (Nat.mod_upper_bound (n + 1) 2). lia.
Qed.

Definition axis_of_depth (depth : nat) : TileAxis := if Nat.even depth then Horizontal else Vertical.

Lemma balanced_at_S fuel a b ids depth :
  balanced_at (S fuel) (a :: b :: ids) depth =
  (let mid := div_ceil2 (length (a :: b :: ids)) in
   first ← balanced_at fuel (take mid (a :: b :: ids)) (S depth);
   second ← balanced_at fuel (drop mid (a :: b :: ids)) (S depth);
   Some (if Nat.even depth then HSplit first second 50 else VSplit first second 50)).
Proof. done. Qed.

Lemma balanced_at_spec fuel ids depth :
  ids <> [] -> (length ids <= fuel)%nat ->
  exists t, balanced_at fuel ids depth = Some t /\ leaves t = ids /\ ratios_ok t
    /\ (forall k, (length ids <= 2 ^ k)%nat -> (height t <= k)%nat)
    /\ forall q a, axis_at t q = Some a -> a = axis_of_depth (depth + length q).
Proof.
  revert ids depth. induction fuel as [|fuel IH]; intros ids depth Hne Hf.
  { destruct ids; [done|simpl in Hf; lia]. }
  destruct ids as [|a [|b ids]]; [done|exists (Leaf a); split_and!; try done; [simpl; lia|by intros []]|].
  rewrite balanced_at_S. cbv zeta. set (all := a :: b :: ids) in *. set (mid := div_ceil2 (length all)).
  assert (2 <= length all)%nat as H2 by (simpl; lia).
  destruct (div_ceil2_spec _ H2) as (Hm & Hc & Hc'). fold mid in Hm, Hc, Hc'.
  destruct (IH (take mid all) (S depth)) as (t1 & E1 & L1 & R1 & K1 & A1);
    [intros E; apply (f_equal length) in E; rewrite length_take in E; change (@length Z []) with O in E; lia
    |rewrite length_take; lia|].
  destruct (IH (drop mid all) (S depth)) as (t2 & E2 & L2 & R2 & K2 & A2);
    [intros E; apply (f_equal length) in E; rewrite length_drop in E; change (@length Z []) with O in E; lia
    |rewrite length_drop; lia|].
  rewrite E1, E2. simpl. eexists. split; [done|].
  assert (forall k, (length all <= 2 ^ k)%nat -> (S (height t1 `max` height t2) <= k)%nat) as HK.
  { intros k Hk. destruct k as [|k]; [simpl in Hk; lia|]. rewrite Nat.pow_succ_r' in Hk.
    assert (height t1 <= k)%nat by (apply K1; rewrite length_take; lia).
    assert (height t2 <= k)%nat by (apply K2; rewrite length_drop; lia). lia. }
  assert (forall q a0, axis_at (if Nat.even depth then HSplit t1 t2 50 else VSplit t1 t2 50) q = Some a0 ->
    a0 = axis_of_depth (depth + length q)) as HA.
  { intros [|s q] a0; unfold axis_at, axis_of_depth; simpl.
    - rewrite Nat.add_0_r. by destruct (Nat.even depth); intros [= <-].
    - intros H. replace (depth + S (length q))%nat with (S depth + length q)%nat by lia.
      destruct (s =? 0) eqn:Es; [apply (A1 q)|apply (A2 q)]; unfold axis_at;
        by destruct (Nat.even depth); simpl in H; rewrite ?Es in H. }
  assert (TILE_RATIO_MIN <= 50 <= TILE_RATIO_MAX) as H50 by done.
  destruct (Nat.even depth); autorewrite with tiles; rewrite L1, L2, take_drop;
    (split; [done|]; split; [done|by split]).
Qed.

(** a tabbed session turns into tiles and back.  For any list of terminals
    [balanced] gives a tree, except for the empty one; reading its leaves gives
    the terminals in their order; no terminal sits deeper than the logarithm of
    their number; the axis alternates with the depth, the top split side by side;
    and every ratio is one a divider may have. *)
Theorem balanced_round_trips ids :
  match balanced ids with
  | None => ids = []
  | Some t => ids <> [] /\ leaves t = ids /\ ratios_ok t
      /\ (forall k, (length ids <= 2 ^ k)%nat -> (height t <= k)%nat)
      /\ forall q a, axis_at t q = Some a -> a = axis_of_depth (length q)
  end.
Proof.
  unfold balanced. destruct ids as [|i ids]; [done|].
  destruct (balanced_at_spec (length (i :: ids)) (i :: ids) 0) as (t & -> & H); [done|done|]. done.
Qed.

(** ** Resizing *)

Lemma divider_above_spec t path dir i o :
  (i <= length path)%nat -> divider_above t path dir i = Some o ->
  axis_at t o = Some (dir_axis dir) /\ (exists rest, path = o ++ rest /\ rest <> [])
  /\ forall j, (length o < j < i)%nat -> axis_at t (take j path) <> Some (dir_axis dir).
Proof.
  intros Hi. induction i as [|i IH]; simpl; [done|]. case_decide as Ha.
  - intros [= <-]. split; [done|]. split.
    + exists (drop i path). rewrite take_drop. split; [done|].
      intros E. apply (f_equal length) in E. rewrite length_drop in E. simpl in E. lia.
    + intros j. rewrite length_take. lia.
  - intros H. destruct IH as (? & ? & Hj); [lia|done|]. split_and!; [done|done|].
    intros j Hlt. destruct (decide (j = i)) as [->|]; [done|]. apply Hj. lia.
Qed.

Lemma divider_above_None t path dir i :
  divider_above t path dir i = None ->
  forall j, (j < i)%nat -> axis_at t (take j path) <> Some (dir_axis dir).
Proof.
  induction i as [|i IH]; simpl; [lia|]. case_decide; [done|]. intros H' j Hj.
  destruct (decide (j = i)) as [->|]; [done|]. apply IH; [done|lia].
Qed.

Lemma divider_above_shape t t' path dir i :
  shape t' = shape t -> divider_above t' path dir i = divider_above t path dir i.
Proof.
  intros Hs. induction i as [|i IH]; [done|]. simpl. by rewrite IH, <- (shape_axis t'), Hs, shape_axis.
Qed.

Lemma wrap_i16_id a : - 2 ^ 15 <= a < 2 ^ 15 -> wrap_i16 a = a.
Proof. unfold wrap_i16. intros H. rewrite Z.mod_small; lia. Qed.

Lemma axis_ratio t q a : axis_at t q = Some a ->
  exists node r, subtree_at t q = Some node /\ ratio_of node = Some r /\ ratio_at t q = Some r.
Proof.
  unfold axis_at, ratio_at. destruct (subtree_at t q) as [node|]; [|done].
  destruct node; [done| |]; intros _; by eexists _, _.
Qed.

Definition opposite (dir : TileDirection) : TileDirection :=
  match dir with Left => Right | Right => Left | Up => Down | Down => Up end.

Lemma opposite_axis dir : dir_axis (opposite dir) = dir_axis dir.
Proof. by destruct dir. Qed.

Lemma signed_step_opposite dir step d :
  - 2 ^ 15 <= step < 2 ^ 15 -> - 100 <= d <= 100 ->
  signed_step dir step = d -> signed_step (opposite dir) step = - d.
Proof.
  intros Hs Hd. destruct (decide (step = - 2 ^ 15)) as [->|Hne].
  - destruct dir; unfold signed_step, opposite; intros <-; vm_compute in Hd; by destruct Hd.
  - destruct dir; unfold signed_step, opposite; rewrite wrap_i16_id by lia; lia.
Qed.

(** What [set_ratio_at] does through the walk, when the axis is there. *)
Lemma resize_toward_eq t p dir step s :
  subtree_at t p = Some s ->
  resize_toward t p dir step =
  match divider_above t p dir (length p) with
  | None => (None, t)
  | Some o =>
      match subtree_at t o with
      | None => (None, t)
      | Some node =>
          match ratio_of node with
          | None => (None, t)
          | Some old =>
              let c := clamp TILE_RATIO_MIN TILE_RATIO_MAX (wrap_i16 (old + signed_step dir step)) in
              if old =? c then (None, t) else (Some o, (replace_at t o (with_ratio node c)).2)
          end
      end
  end.
Proof.
  intros H. unfold resize_toward. rewrite (resize_above_eq _ _ _ _ _ _ H) by lia.
  destruct (divider_above t p dir (length p)) as [o|] eqn:Eo; [|done].
  destruct (divider_above_spec _ _ _ _ _ (Nat.le_refl _) Eo) as (Ha & _ & _).
  destruct (axis_ratio _ _ _ Ha) as (node & old & En & Er & Ero).
  rewrite Ero, set_ratio_at_eq, En, Er. cbv zeta. rewrite (clamp_id (clamp _ _ _)) by apply clamp_range.
  by destruct (_ =? _).
Qed.

Lemma resize_toward_keeps t p dir step s :
  subtree_at t p = Some s ->
  shape (resize_toward t p dir step).2 = shape t
  /\ (ratios_ok t -> ratios_ok (resize_toward t p dir step).2).
Proof.
  intros H. unfold resize_toward. rewrite (resize_above_eq _ _ _ _ _ _ H) by lia.
  destruct (divider_above _ _ _ _) as [o|]; [|done]. destruct (ratio_at t o) as [old|]; [|done].
  set (r := clamp _ _ _). pose proof (set_ratio_at_shape t o r) as Hs. pose proof (set_ratio_at_ok t o r) as Hr.
  by destruct (set_ratio_at t o r).
Qed.

Lemma subtree_at_with_ratio t o node c rest s :
  subtree_at t o = Some node -> subtree_at t (o ++ rest) = Some s ->
  exists s', subtree_at (replace_at t o (with_ratio node c)).2 (o ++ rest) = Some s'.
Proof.
  intros En H. destruct (replace_at_spec t o (with_ratio node c) _ En) as (t' & -> & _ & Hq & _).
  simpl. rewrite Hq. rewrite subtree_at_app, En in H. simpl in H. destruct rest as [|x rest]; [by eexists|].
  destruct node; [done| |]; by exists s.
Qed.

(** The opposite arrow undoes a move that the clamp did not cut. *)
Lemma resize_back t p dir step s o node old :
  subtree_at t p = Some s -> - 2 ^ 15 <= step < 2 ^ 15 ->
  divider_above t p dir (length p) = Some o -> subtree_at t o = Some node -> ratio_of node = Some old ->
  TILE_RATIO_MIN <= old <= TILE_RATIO_MAX ->
  TILE_RATIO_MIN <= old + signed_step dir step <= TILE_RATIO_MAX -> signed_step dir step <> 0 ->
  resize_toward (replace_at t o (with_ratio node (old + signed_step dir step))).2 p (opposite dir) step
  = (Some o, t).
Proof.
  intros H Hs Eo En Er Hold Hin Hne. set (c := old + signed_step dir step).
  destruct (divider_above_spec _ _ _ _ _ (Nat.le_refl _) Eo) as (_ & (rest & -> & _) & _).
  destruct (subtree_at_with_ratio t o node c rest s En H) as [s' Hs'].
  assert (shape (replace_at t o (with_ratio node c)).2 = shape t) as Hst
    by (eapply shape_replace; [done|by destruct node]).
  rewrite (resize_toward_eq _ _ _ _ _ Hs'), (divider_above_shape t) by done.
  assert (divider_above t (o ++ rest) (opposite dir) (length (o ++ rest)) = Some o) as ->.
  { rewrite <- Eo. clear. induction (length (o ++ rest)) as [|n IH]; [done|]. simpl. by rewrite opposite_axis, IH. }
  destruct (replace_at_spec t o (with_ratio node c) _ En) as (t' & Et & _ & Hq & _).
  specialize (Hq []). rewrite app_nil_r in Hq. rewrite Et. cbn [snd]. rewrite Hq. simpl.
  assert (ratio_of (with_ratio node c) = Some c) as -> by (by destruct node). cbv zeta.
  unfold TILE_RATIO_MIN, TILE_RATIO_MAX in Hold, Hin.
  rewrite (signed_step_opposite dir step (signed_step dir step)) by (done || lia).
  rewrite wrap_i16_id by lia. replace (c + - signed_step dir step) with old by lia.
  rewrite clamp_id by done. destruct (Z.eqb_spec c old) as [|_]; [lia|]. f_equal.
  replace (with_ratio (with_ratio node c) old) with (with_ratio node old) by (by destruct node).
  replace t' with (replace_at t o (with_ratio node c)).2 by (by rewrite Et).
  rewrite (replace_at_with_ratio _ _ _ _ _ En), (with_ratio_same _ _ Er). by apply replace_at_same.
Qed.

(** the keyboard moves one divider.  From a path into the tree, [resize_toward]
    either leaves the tree as it is, and then no ancestor splits along the arrow's
    axis or the nearest one is already where the step would put it; or it changes
    the ratio of that nearest ancestor and of nothing else, to the old one plus the
    signed step of the [i16] arithmetic, cut to ten and ninety.  Away from the
    clamp the opposite arrow gives the tree back. *)
Theorem resize_moves_the_nearest_divider t p dir step s :
  subtree_at t p = Some s -> - 2 ^ 15 <= step < 2 ^ 15 ->
  let (moved, t') := resize_toward t p dir step in
  let target old := clamp TILE_RATIO_MIN TILE_RATIO_MAX (wrap_i16 (old + signed_step dir step)) in
  match moved with
  | None => t' = t /\ ((forall i, (i < length p)%nat -> axis_at t (take i p) <> Some (dir_axis dir))
              \/ exists o old, divider_above t p dir (length p) = Some o /\ ratio_at t o = Some old
                   /\ old = target old)
  | Some o =>
      axis_at t o = Some (dir_axis dir) /\ (exists rest, p = o ++ rest /\ rest <> [])
      /\ (forall j, (length o < j < length p)%nat -> axis_at t (take j p) <> Some (dir_axis dir))
      /\ shape t' = shape t
      /\ exists old, ratio_at t o = Some old /\ ratio_at t' o = Some (target old) /\ target old <> old
           /\ (TILE_RATIO_MIN <= old <= TILE_RATIO_MAX ->
               TILE_RATIO_MIN <= old + signed_step dir step <= TILE_RATIO_MAX ->
               resize_toward t' p (opposite dir) step = (Some o, t))
  end.
Proof.
  intros H Hs. rewrite (resize_toward_eq _ _ _ _ _ H).
  destruct (divider_above t p dir (length p)) as [o|] eqn:Eo;
    [|by split; [|left; intros i; eapply divider_above_None]].
  destruct (divider_above_spec _ _ _ _ _ (Nat.le_refl _) Eo) as (Ha & Hrest & Hnear).
  destruct (axis_ratio _ _ _ Ha) as (node & old & En & Er & Ero). rewrite En, Er. cbv zeta.
  set (c := clamp _ _ (wrap_i16 (old + _))). destruct (Z.eqb_spec old c) as [Ec|Ec].
  { split; [done|]. right. by exists o, old. }
  assert (shape (with_ratio node c) = shape node) as Hsh by (by destruct node).
  destruct (replace_at_spec t o (with_ratio node c) _ En) as (t' & Et & _ & Hq & _).
  pose proof (shape_replace _ _ _ _ En Hsh) as Hst. rewrite Et in *. cbn [snd] in *.
  assert (subtree_at t' o = Some (with_ratio node c)) as En'.
  { specialize (Hq []). by rewrite app_nil_r in Hq. }
  split_and!; try done. exists old. split_and!; [done| |done|].
  { unfold ratio_at. rewrite En'. by destruct node. }
  intros Hold Hin. pose proof Hold as Hold'. pose proof Hin as Hin'.
  unfold TILE_RATIO_MIN, TILE_RATIO_MAX in Hold', Hin'.
  assert (c = old + signed_step dir step) as Hc by (unfold c; rewrite wrap_i16_id by lia; by apply clamp_id).
  replace t' with (replace_at t o (with_ratio node c)).2 by (by rewrite Et). rewrite Hc.
  eapply resize_back; try done. lia.
Qed.

(** ** Neighbours *)

(** No ancestor from depth [i] on lets [dir] across: on every split along the
    arrow's axis the path already takes the side the arrow points to. *)
Definition pressed (t : TileTree) (p : list Z) (dir : TileDirection) (i : nat) : Prop :=
  forall j, (i <= j < length p)%nat -> axis_at t (take j p) = Some (dir_axis dir) ->
    Bool.eqb (nth j p 0 =? 1) (wants_first dir) = false.

Lemma neighbor_above_spec t p dir s i :
  subtree_at t p = Some s -> (i <= length p)%nat -> pressed t p dir i ->
  match neighbor_above t p dir i with
  | None => pressed t p dir 0
  | Some n => exists j, (j < i)%nat /\ axis_at t (take j p) = Some (dir_axis dir)
      /\ Bool.eqb (nth j p 0 =? 1) (wants_first dir) = true /\ pressed t p dir (S j)
      /\ n = descend_to_leaf t (take j p ++ [if wants_first dir then 0 else 1])
  end.
Proof.
  intros H. induction i as [|i IH]; intros Hi Hp; simpl; [done|].
  destruct (prefix_is_split _ _ _ i H) as (node & Hn & Hl); [lia|].
  rewrite Hn. simpl. rewrite (axis_at_test _ _ _ _ Hn Hl).
  assert (forall P : Prop, (axis_at t (take i p) = Some (dir_axis dir) ->
    Bool.eqb (nth i p 0 =? 1) (wants_first dir) = false) -> pressed t p dir i) as Hstep.
  { intros _ Hf j Hj. destruct (decide (j = i)) as [->|]; [done|]. apply Hp. lia. }
  assert (forall n, (exists j, (j < i)%nat /\ axis_at t (take j p) = Some (dir_axis dir)
      /\ Bool.eqb (nth j p 0 =? 1) (wants_first dir) = true /\ pressed t p dir (S j)
      /\ n = descend_to_leaf t (take j p ++ [if wants_first dir then 0 else 1])) ->
    exists j, (j < S i)%nat /\ axis_at t (take j p) = Some (dir_axis dir)
      /\ Bool.eqb (nth j p 0 =? 1) (wants_first dir) = true /\ pressed t p dir (S j)
      /\ n = descend_to_leaf t (take j p ++ [if wants_first dir then 0 else 1])) as Hup.
  { intros n (j & Hj & ?). exists j. split; [lia|done]. }
  case_bool_decide as Ha; simpl.
  2: { specialize (IH ltac:(lia) (Hstep True ltac:(done))). destruct (neighbor_above t p dir i); [by apply Hup|done]. }
  destruct (Bool.eqb (nth i p 0 =? 1) (wants_first dir)) eqn:E; simpl.
  - exists i. split_and!; [lia|done|done|done|done].
  - specialize (IH ltac:(lia) (Hstep True ltac:(done))). destruct (neighbor_above t p dir i); [by apply Hup|done].
Qed.

Lemma neighbor_spec t p dir s :
  subtree_at t p = Some s ->
  match neighbor t p dir with
  | None => pressed t p dir 0
  | Some n => exists j k i, (j < length p)%nat /\ axis_at t (take j p) = Some (dir_axis dir)
      /\ Bool.eqb (nth j p 0 =? 1) (wants_first dir) = true /\ pressed t p dir (S j)
      /\ n = take j p ++ [if wants_first dir then 0 else 1] ++ replicate k 0
      /\ subtree_at t n = Some (Leaf i)
  end.
Proof.
  intros H. pose proof (neighbor_above_spec t p dir s (length p) H) as Hn. unfold neighbor.
  specialize (Hn (Nat.le_refl _) ltac:(intros j Hj; lia)).
  destruct (neighbor_above t p dir (length p)) as [n|]; [|done].
  destruct Hn as (j & Hj & Ha & Hs & Hp & ->).
  destruct (prefix_is_split _ _ _ j H Hj) as (node & Hnode & Hl).
  destruct (subtree_at t (take j p ++ [if wants_first dir then 0 else 1])) as [c|] eqn:Ec.
  - destruct (descend_to_leaf_spec _ _ _ Ec) as (k & i & -> & Hk & _).
    exists j, k, i. rewrite <- app_assoc in *. split_and!; try done.
  - exfalso. rewrite subtree_at_app, Hnode in Ec. by destruct node.
Qed.

(** Three columns, the left two in one split: from the third, [Left] skips the
    second. *)
Example left_goes_to_the_first_leaf :
  neighbor (HSplit (HSplit (Leaf 1) (Leaf 2) 50) (Leaf 3) 50) [1] Left = Some [0; 0].
Proof. reflexivity. Qed.

(** Three columns, the right two in one split: from the second, [Left] focuses the
    first, and resizing left moves the divider on the other side. *)
Example resize_moves_another_divider :
  let t := HSplit (Leaf 1) (HSplit (Leaf 2) (Leaf 3) 50) 50 in
  neighbor t [1; 0] Left = Some [0]
  /\ resize_toward t [1; 0] Left 5 = (Some [1], HSplit (Leaf 1) (HSplit (Leaf 2) (Leaf 3) 45) 50).
Proof. split; reflexivity. Qed.

(** Against the clamp the opposite arrow does not give the divider back. *)
Example not_invertible_at_the_clamp :
  let t := HSplit (Leaf 1) (Leaf 2) 88 in
  resize_toward t [0] Right 5 = (Some [], HSplit (Leaf 1) (Leaf 2) 90)
  /\ resize_toward (HSplit (Leaf 1) (Leaf 2) 90) [0] Left 5 = (Some [], HSplit (Leaf 1) (Leaf 2) 85).
Proof. split; reflexivity. Qed.

Lemma resize_moves_the_nearest_divider_witness :
  let t := HSplit (Leaf 1) (VSplit (Leaf 2) (Leaf 3) 50) 50 in
  exists t', resize_toward t [1; 0] Right 5 = (Some [], t') /\ shape t' = shape t
    /\ resize_toward t' [1; 0] Left 5 = (Some [], t).
Proof.
  intros t.
  pose proof (resize_moves_the_nearest_divider t [1; 0] Right 5 (Leaf 2) eq_refl ltac:(lia)) as H.
  assert (resize_toward t [1; 0] Right 5 = (Some [], HSplit (Leaf 1) (VSplit (Leaf 2) (Leaf 3) 50) 55)) as E
    by reflexivity.
  rewrite E in H. destruct H as (_ & _ & _ & Hs & old & Ho & _ & _ & Hb). injection Ho as <-.
  eexists. split; [exact E|]. split; [exact Hs|]. apply Hb; vm_compute; split; discriminate.
Defined.
