(* ===== verification/TileRender.v ===== *)
(** * Drawing and dragging tiles ([src/crates/tui/src/components/terminal_stack.rs])

    [render_tile_tree] divides a rectangle among the leaves of a tile tree, one cell
    of divider between the two sides of a split, and records where it drew each
    divider; [hit_test_tile_divider] finds the divider under the pointer in that
    record and [drag_tile_divider] turns a position into a ratio.  What is painted
    is the list of tiles with their rectangles; the text in them is not modelled.
    Coordinates are [u16] and wrap.

    The theorems: tiles and dividers partition the pane; a dragged divider lands
    under the pointer; of overlapping dividers the outer one is grabbed; focus
    moves right and down onto a tile across the divider, and stays only at the
    border of the pane. *)

From S2P Require Import Prelude Tiles.

#[global] Open Scope Z_scope.

Record Rect : Type := mkRect { rx : Z; ry : Z; width : Z; rheight : Z }.

#[export] Instance Rect_eq_dec : EqDecision Rect.
Proof. solve_decision. Defined.

Record TileDividerHit : Type := mkHit {
  hit_path : list Z;
  line : Rect;
  container : Rect;
  hit_axis : TileAxis;
}.

(** A painted leaf: the terminal, its rectangle, the part below its header and whether
    it is drawn as focused. *)
Record PaintedTile : Type := mkTile {
  tile_terminal : Z;
  tile_rect : Rect;
  tile_body : Rect;
  tile_focused : bool;
}.

Definition u16 (a : Z) : Z := a mod (u16_max + 1).

(** The first child's cells: [(span as u32 * ratio.min(100) as u32 / 100) as u16], at
    most all but one. *)
Definition first_span (span ratio : Z) : Z :=
  Z.min (u16 (span * Z.min ratio 100 / 100)) (span -sat 1).

Definition h_rects (rect : Rect) (ratio : Z) : Rect * Rect * Rect :=
  let left_w := first_span (width rect) ratio in
  let right_x := u16 (u16 (rx rect + left_w) + 1) in
  let right_w := width rect -sat u16 (left_w + 1) in
  (mkRect (rx rect) (ry rect) left_w (rheight rect),
   mkRect right_x (ry rect) right_w (rheight rect),
   mkRect (u16 (rx rect + left_w)) (ry rect) 1 (rheight rect)).

Definition v_rects (rect : Rect) (ratio : Z) : Rect * Rect * Rect :=
  let top_h := first_span (rheight rect) ratio in
  let bottom_y := u16 (u16 (ry rect + top_h) + 1) in
  let bottom_h := rheight rect -sat u16 (top_h + 1) in
  (mkRect (rx rect) (ry rect) (width rect) top_h,
   mkRect (rx rect) bottom_y (width rect) bottom_h,
   mkRect (rx rect) (u16 (ry rect + top_h)) (width rect) 1).

(** The header row is carved off the tile, except off one that has no second row. *)
Definition render_tile_leaf (terminal_id : Z) (rect : Rect) (is_focused_leaf : bool) : PaintedTile :=
  let body := if (2 <=? rheight rect) && (0 <? width rect)
              then mkRect (rx rect) (u16 (ry rect + 1)) (width rect) (rheight rect - 1)
              else rect in
  mkTile terminal_id rect body is_focused_leaf.

(** The tiles painted and the dividers recorded, in their order. *)
Fixpoint render_tile_tree (node : TileTree) (rect : Rect) (pane_focused : bool)
    (focus_path current_path : list Z) (out : list PaintedTile * list TileDividerHit)
    : list PaintedTile * list TileDividerHit :=
  match node with
  | Leaf i =>
      let is_focused_leaf := pane_focused && bool_decide (current_path = focus_path) in
      (fst out ++ [render_tile_leaf i rect is_focused_leaf], snd out)
  | HSplit l r ratio =>
      let '(left_rect, right_rect, div) := h_rects rect ratio in
      let out := render_tile_tree l left_rect pane_focused focus_path (current_path ++ [0]) out in
      let out := render_tile_tree r right_rect pane_focused focus_path (current_path ++ [1]) out in
      if 0 <? rheight rect then (fst out, snd out ++ [mkHit current_path div rect Horizontal]) else out
  | VSplit l r ratio =>
      let '(top_rect, bottom_rect, div) := v_rects rect ratio in
      let out := render_tile_tree l top_rect pane_focused focus_path (current_path ++ [0]) out in
      let out := render_tile_tree r bottom_rect pane_focused focus_path (current_path ++ [1]) out in
      if 0 <? width rect then (fst out, snd out ++ [mkHit current_path div rect Vertical]) else out
  end.

(** The frame starts with [divider_hits.clear()]. *)
Definition render_tiles (t : TileTree) (rect : Rect) (pane_focused : bool) (focus_path : list Z)
    : list PaintedTile * list TileDividerHit :=
  render_tile_tree t rect pane_focused focus_path [] ([], []).

Definition in_grab_zone (col row : Z) (hit : TileDividerHit) : bool :=
  let l := line hit in
  match hit_axis hit with
  | Horizontal =>
      (rx l <=? u16 (col + 1)) && (col <=? u16 (rx l + 1)) && (ry l <=? row) && (row <? u16 (ry l + rheight l))
  | Vertical =>
      (ry l <=? u16 (row + 1)) && (row <=? u16 (ry l + 1)) && (rx l <=? col) && (col <? u16 (rx l + width l))
  end.

Definition hit_test_tile_divider (hits : list TileDividerHit) (col row : Z) : option (list Z) :=
  hit_path <$> List.find (in_grab_zone col row) (rev hits).

(** The percentage a pointer position is within the container of a divider. *)
Definition pointer_percent (hit : TileDividerHit) (col row : Z) : option Z :=
  let '(span, rel) := match hit_axis hit with
                      | Horizontal => (width (container hit), col -sat rx (container hit))
                      | Vertical => (rheight (container hit), row -sat ry (container hit))
                      end in
  if span =? 0 then None else Some (Z.min (rel * 100 / span) 100).

Definition drag_tile_divider (hits : list TileDividerHit) (layout : SessionLayout) (path : list Z) (col row : Z)
    : bool * SessionLayout :=
  match List.find (fun hit => bool_decide (hit_path hit = path)) hits with
  | None => (false, layout)
  | Some hit =>
      match layout with
      | Tabs _ => (false, layout)
      | Splits tree focused =>
          match pointer_percent hit col row with
          | None => (false, layout)
          | Some pct => let (changed, tree) := set_ratio_at tree path pct in (changed, Splits tree focused)
          end
      end
  end.

Example eighty_columns_half :
  h_rects (mkRect 0 0 80 24) 50 = (mkRect 0 0 40 24, mkRect 41 0 39 24, mkRect 40 0 1 24).
Proof. reflexivity. Qed.

(** ** The spans of a split *)

Lemma u16_id a : 0 <= a <= u16_max -> u16 a = a.
Proof. unfold u16, u16_max. intros H. apply Z.mod_small. lia. Qed.

(** [r] lies within the screen's coordinates. *)
Definition on_screen (r : Rect) : Prop :=
  0 <= rx r /\ 0 <= ry r /\ 0 <= width r /\ 0 <= rheight r
  /\ rx r + width r <= u16_max /\ ry r + rheight r <= u16_max.

Lemma first_span_spec span ratio : 0 <= span <= u16_max -> 0 <= ratio ->
  0 <= first_span span ratio <= Z.max 0 (span - 1).
Proof.
  unfold first_span, sat_sub. intros Hs Hr.
  assert (0 <= span * Z.min ratio 100 / 100 <= span).
  { assert (0 <= Z.min ratio 100 <= 100) as Hm by lia. revert Hm. generalize (Z.min ratio 100). intros m Hm.
    split; [apply Z.div_pos; nia|]. apply Z.div_le_upper_bound; nia. }
  rewrite u16_id by lia. lia.
Qed.

(** Both sides keep a cell from eleven cells on; at ten, the second side can vanish,
    and below, the first. *)
Lemma first_span_room span ratio m :
  0 <= span <= u16_max -> TILE_RATIO_MIN <= ratio <= TILE_RATIO_MAX -> 0 <= m -> 10 * m + 1 <= span ->
  m <= first_span span ratio /\ m <= span - first_span span ratio - 1.
Proof.
  unfold first_span, sat_sub, TILE_RATIO_MIN, TILE_RATIO_MAX. intros Hs Hr Hm Hsp.
  rewrite (Z.min_l ratio) by lia.
  assert (10 * span <= span * ratio <= 90 * span) as Hprod by nia.
  assert (m <= span * ratio / 100) by (apply Z.div_le_lower_bound; lia).
  assert (span * ratio / 100 <= span - m - 1).
  { assert (span * ratio / 100 < span - m); [|lia]. apply Z.div_lt_upper_bound; lia. }
  assert (0 <= span * ratio / 100) by (apply Z.div_pos; lia).
  rewrite u16_id by lia. lia.
Qed.

Lemma h_rects_eq r ratio : on_screen r -> 1 <= width r -> 0 <= ratio ->
  let w := first_span (width r) ratio in
  h_rects r ratio = (mkRect (rx r) (ry r) w (rheight r),
                     mkRect (rx r + w + 1) (ry r) (width r - w - 1) (rheight r),
                     mkRect (rx r + w) (ry r) 1 (rheight r)).
Proof.
  intros (? & ? & ? & ? & ? & ?) Hw Hr w. unfold h_rects. fold w.
  pose proof (first_span_spec (width r) ratio ltac:(lia) Hr) as Hf. fold w in Hf.
  unfold sat_sub. rewrite !u16_id by (rewrite ?u16_id; lia). do 3 f_equal. lia.
Qed.

Lemma v_rects_eq r ratio : on_screen r -> 1 <= rheight r -> 0 <= ratio ->
  let h := first_span (rheight r) ratio in
  v_rects r ratio = (mkRect (rx r) (ry r) (width r) h,
                     mkRect (rx r) (ry r + h + 1) (width r) (rheight r - h - 1),
                     mkRect (rx r) (ry r + h) (width r) 1).
Proof.
  intros (? & ? & ? & ? & ? & ?) Hw Hr h. unfold v_rects. fold h.
  pose proof (first_span_spec (rheight r) ratio ltac:(lia) Hr) as Hf. fold h in Hf.
  unfold sat_sub. rewrite !u16_id by (rewrite ?u16_id; lia). do 3 f_equal. lia.
Qed.

(** ** Tiles and dividers partition the pane *)

Definition inside (r : Rect) (col row : Z) : bool :=
  (rx r <=? col) && (col <? rx r + width r) && (ry r <=? row) && (row <? ry r + rheight r).

(** How many of the rectangles hold a cell. *)
Definition cover (rs : list Rect) (col row : Z) : nat :=
  length (List.filter (fun r => inside r col row) rs).

Definition pieces (out : list PaintedTile * list TileDividerHit) : list Rect :=
  map tile_rect (fst out) ++ map line (snd out).

Lemma cover_app rs rs' col row : cover (rs ++ rs') col row = (cover rs col row + cover rs' col row)%nat.
Proof. unfold cover. by rewrite List.filter_app, length_app. Qed.

(** A ratio as the wire carries it. *)
Fixpoint ratios_u8 (t : TileTree) : Prop :=
  match t with
  | Leaf _ => True
  | HSplit l r ra | VSplit l r ra => 0 <= ra <= u8_max /\ ratios_u8 l /\ ratios_u8 r
  end.

(** Every split has a cell along its axis, for its divider. *)
Fixpoint fits (t : TileTree) (rect : Rect) : bool :=
  match t with
  | Leaf _ => true
  | HSplit l r ra =>
      let '(a, b, _) := h_rects rect ra in (1 <=? width rect) && fits l a && fits r b
  | VSplit l r ra =>
      let '(a, b, _) := v_rects rect ra in (1 <=? rheight rect) && fits l a && fits r b
  end.

Lemma render_out t rect pf fp cp ts hs :
  render_tile_tree t rect pf fp cp (ts, hs)
  = (ts ++ fst (render_tile_tree t rect pf fp cp ([], [])), hs ++ snd (render_tile_tree t rect pf fp cp ([], []))).
Proof.
  revert rect cp ts hs. induction t as [i|l IHl r IHr ra|l IHl r IHr ra]; intros rect cp ts hs;
    cbn [render_tile_tree]; [simpl; by rewrite app_nil_r|destruct (h_rects rect ra) as [[a b] d]
    |destruct (v_rects rect ra) as [[a b] d]];
    rewrite (IHl a (cp ++ [0]) ts hs);
    destruct (render_tile_tree l a pf fp (cp ++ [0]) ([], [])) as [t1 h1]; cbn [fst snd];
    rewrite (IHr b (cp ++ [1]) (ts ++ t1) (hs ++ h1)), (IHr b (cp ++ [1]) t1 h1);
    destruct (render_tile_tree r b pf fp (cp ++ [1]) ([], [])) as [t2 h2]; cbn [fst snd];
    (destruct (0 <? _); cbn [fst snd]; by rewrite <- !app_assoc).
Qed.

Lemma render_HSplit l r ra rect pf fp cp :
  render_tile_tree (HSplit l r ra) rect pf fp cp ([], []) =
  let '(a, b, d) := h_rects rect ra in
  let o1 := render_tile_tree l a pf fp (cp ++ [0]) ([], []) in
  let o2 := render_tile_tree r b pf fp (cp ++ [1]) ([], []) in
  (fst o1 ++ fst o2,
   snd o1 ++ snd o2 ++ if 0 <? rheight rect then [mkHit cp d rect Horizontal] else []).
Proof.
  cbn [render_tile_tree]. destruct (h_rects rect ra) as [[a b] d]. cbv zeta.
  rewrite (surjective_pairing (render_tile_tree l a pf fp (cp ++ [0]) ([], []))), render_out. simpl.
  destruct (0 <? rheight rect); simpl; by rewrite ?app_nil_r, ?app_assoc.
Qed.

Lemma render_VSplit l r ra rect pf fp cp :
  render_tile_tree (VSplit l r ra) rect pf fp cp ([], []) =
  let '(a, b, d) := v_rects rect ra in
  let o1 := render_tile_tree l a pf fp (cp ++ [0]) ([], []) in
  let o2 := render_tile_tree r b pf fp (cp ++ [1]) ([], []) in
  (fst o1 ++ fst o2,
   snd o1 ++ snd o2 ++ if 0 <? width rect then [mkHit cp d rect Vertical] else []).
Proof.
  cbn [render_tile_tree]. destruct (v_rects rect ra) as [[a b] d]. cbv zeta.
  rewrite (surjective_pairing (render_tile_tree l a pf fp (cp ++ [0]) ([], []))), render_out. simpl.
  destruct (0 <? width rect); simpl; by rewrite ?app_nil_r, ?app_assoc.
Qed.

Lemma cover_pieces ts1 ts2 hs1 hs2 hs3 col row :
  cover (pieces (ts1 ++ ts2, hs1 ++ hs2 ++ hs3)) col row
  = (cover (pieces (ts1, hs1)) col row + cover (pieces (ts2, hs2)) col row + cover (map line hs3) col row)%nat.
Proof. unfold pieces. cbn [fst snd]. rewrite !map_app, !cover_app. lia. Qed.

Lemma cover_single r col row : cover [r] col row = if inside r col row then 1%nat else O.
Proof. unfold cover. simpl. by destruct (inside r col row). Qed.

Lemma inside_spec r col row :
  inside r col row = true <-> rx r <= col < rx r + width r /\ ry r <= row < ry r + rheight r.
Proof. unfold inside. rewrite !andb_true_iff, !Z.leb_le, !Z.ltb_lt. lia. Qed.

Lemma inside_case r col row :
  (inside r col row = true /\ rx r <= col < rx r + width r /\ ry r <= row < ry r + rheight r)
  \/ (inside r col row = false /\ ~ (rx r <= col < rx r + width r /\ ry r <= row < ry r + rheight r)).
Proof.
  destruct (inside r col row) eqn:E; [left|right]; (split; [done|]).
  - by apply inside_spec.
  - intros H. apply inside_spec in H. congruence.
Qed.

Lemma on_screen_h r w : on_screen r -> 0 <= w <= width r - 1 ->
  on_screen (mkRect (rx r) (ry r) w (rheight r))
  /\ on_screen (mkRect (rx r + w + 1) (ry r) (width r - w - 1) (rheight r)).
Proof. unfold on_screen. simpl. lia. Qed.

Lemma on_screen_v r h : on_screen r -> 0 <= h <= rheight r - 1 ->
  on_screen (mkRect (rx r) (ry r) (width r) h)
  /\ on_screen (mkRect (rx r) (ry r + h + 1) (width r) (rheight r - h - 1)).
Proof. unfold on_screen. simpl. lia. Qed.

Lemma first_span_in r n ratio : on_screen r -> (n = width r \/ n = rheight r) -> 1 <= n -> 0 <= ratio ->
  0 <= first_span n ratio <= n - 1.
Proof.
  intros (? & ? & ? & ? & ? & ?) Hn Hn1 Hr. pose proof (first_span_spec n ratio ltac:(lia) Hr). lia.
Qed.

(** A divider is recorded unless it is empty. *)
Lemma cover_line cp d rect a n col row :
  (n <= 0 -> width d <= 0 \/ rheight d <= 0) ->
  cover (map line (if 0 <? n then [mkHit cp d rect a] else [])) col row
  = if inside d col row then 1%nat else O.
Proof.
  intros He. destruct (Z.ltb_spec 0 n); [apply cover_single|]. unfold cover. simpl.
  destruct (inside_case d col row) as [[-> Hi]|[-> _]]; [lia|done].
Qed.

Ltac case_inside :=
  repeat match goal with |- context [inside ?x ?c ?r] =>
    destruct (inside_case x c r) as [[-> ?]|[-> ?]] end; simpl in *; lia.

(** C36: the grid partitions the pane.  When every split has a cell for its divider,
    each cell of the pane is painted by exactly one of the tiles and the dividers,
    and no cell outside is painted. *)
Theorem tiles_partition_the_pane t rect pf fp cp col row :
  on_screen rect -> ratios_u8 t -> fits t rect = true ->
  cover (pieces (render_tile_tree t rect pf fp cp ([], []))) col row
  = if inside rect col row then 1%nat else O.
Proof.
  revert rect cp. induction t as [i|l IHl r IHr ra|l IHl r IHr ra]; intros rect cp Hs Hr Hf.
  { unfold pieces. simpl. by rewrite cover_single. }
  - destruct Hr as (Hra & Hrl & Hrr). rewrite render_HSplit. cbn [fits] in Hf.
    destruct (h_rects rect ra) as [[a b] d] eqn:E.
    apply andb_true_iff in Hf as [[Hw%Z.leb_le Hfl]%andb_true_iff Hfr].
    pose proof (first_span_in rect _ ra Hs (or_introl eq_refl) Hw ltac:(lia)) as Hsp.
    rewrite h_rects_eq in E by (done || lia). injection E as <- <- <-.
    destruct (on_screen_h rect _ Hs Hsp) as [Sa Sb].
    cbv zeta. rewrite cover_pieces, <- !surjective_pairing, (IHl _ _ Sa Hrl Hfl), (IHr _ _ Sb Hrr Hfr).
    rewrite (cover_line cp) by (simpl; lia).
    case_inside.
  - destruct Hr as (Hra & Hrl & Hrr). rewrite render_VSplit. cbn [fits] in Hf.
    destruct (v_rects rect ra) as [[a b] d] eqn:E.
    apply andb_true_iff in Hf as [[Hw%Z.leb_le Hfl]%andb_true_iff Hfr].
    pose proof (first_span_in rect _ ra Hs (or_intror eq_refl) Hw ltac:(lia)) as Hsp.
    rewrite v_rects_eq in E by (done || lia). injection E as <- <- <-.
    destruct (on_screen_v rect _ Hs Hsp) as [Sa Sb].
    cbv zeta. rewrite cover_pieces, <- !surjective_pairing, (IHl _ _ Sa Hrl Hfl), (IHr _ _ Sb Hrr Hfr).
    rewrite (cover_line cp) by (simpl; lia).
    case_inside.
Qed.

Lemma tiles_partition_the_pane_witness :
  let t := HSplit (VSplit (Leaf 1) (Leaf 2) 50) (Leaf 3) 30 in
  cover (pieces (render_tile_tree t (mkRect 0 2 80 24) true [1] [] ([], []))) 24 7 = 1%nat.
Proof.
  exact (tiles_partition_the_pane (HSplit (VSplit (Leaf 1) (Leaf 2) 50) (Leaf 3) 30) (mkRect 0 2 80 24)
    true [1] [] 24 7 ltac:(unfold on_screen, u16_max; simpl; lia) ltac:(simpl; unfold u8_max; lia) eq_refl).
Defined.

(** ** How much room is enough *)

Fixpoint need_cols (t : TileTree) : Z :=
  match t with
  | Leaf _ => 1
  | HSplit l r _ => 10 * Z.max (need_cols l) (need_cols r) + 1
  | VSplit l r _ => Z.max (need_cols l) (need_cols r)
  end.

Fixpoint need_rows (t : TileTree) : Z :=
  match t with
  | Leaf _ => 1
  | HSplit l r _ => Z.max (need_rows l) (need_rows r)
  | VSplit l r _ => 10 * Z.max (need_rows l) (need_rows r) + 1
  end.

Lemma need_pos t : 1 <= need_cols t /\ 1 <= need_rows t.
Proof. induction t; simpl; lia. Qed.

Lemma ratios_ok_u8 t : ratios_ok t -> ratios_u8 t.
Proof.
  induction t as [i|l IHl r IHr ra|l IHl r IHr ra]; simpl; [done| |];
    unfold TILE_RATIO_MIN, TILE_RATIO_MAX, u8_max; intros (? & ? & ?); split_and!; auto; lia.
Qed.

(** how small a pane may get before a tile vanishes.  With the ratios a divider
    may have, a pane of eleven cells per level of split along each axis, the
    levels multiplying by ten, fits the tree, and every tile keeps at least one
    column and one row. *)
Theorem no_tile_vanishes t rect pf fp cp :
  on_screen rect -> ratios_ok t -> need_cols t <= width rect -> need_rows t <= rheight rect ->
  fits t rect = true
  /\ forall p, p ∈ fst (render_tile_tree t rect pf fp cp ([], [])) ->
       1 <= width (tile_rect p) /\ 1 <= rheight (tile_rect p).
Proof.
  revert rect cp. induction t as [i|l IHl r IHr ra|l IHl r IHr ra]; intros rect cp Hs Hr Hc Hw.
  { split; [done|]. simpl in *. intros p ->%list_elem_of_singleton. simpl. lia. }
  - destruct Hr as (Hra & Hrl & Hrr). cbn [need_cols need_rows] in Hc, Hw. rewrite render_HSplit. cbn [fits].
    pose proof (need_pos l). pose proof (need_pos r).
    pose proof Hs as (? & ? & ? & ? & ? & ?).
    destruct (first_span_room (width rect) ra (Z.max (need_cols l) (need_cols r))) as [Ha Hb]; [lia|done|lia|lia|].
    assert (0 <= ra) by (unfold TILE_RATIO_MIN in Hra; lia).
    rewrite h_rects_eq by (done || lia).
    destruct (on_screen_h rect (first_span (width rect) ra) Hs) as [Sa Sb]; [lia|].
    destruct (IHl _ (cp ++ [0]) Sa Hrl) as [-> Tl]; [simpl; lia|simpl; lia|].
    destruct (IHr _ (cp ++ [1]) Sb Hrr) as [-> Tr]; [simpl; lia|simpl; lia|].
    split; [by rewrite !andb_true_r; apply Z.leb_le; lia|].
    cbn [fst]. intros p [Hp|Hp]%elem_of_app; auto.
  - destruct Hr as (Hra & Hrl & Hrr). cbn [need_cols need_rows] in Hc, Hw. rewrite render_VSplit. cbn [fits].
    pose proof (need_pos l). pose proof (need_pos r).
    pose proof Hs as (? & ? & ? & ? & ? & ?).
    destruct (first_span_room (rheight rect) ra (Z.max (need_rows l) (need_rows r))) as [Ha Hb]; [lia|done|lia|lia|].
    assert (0 <= ra) by (unfold TILE_RATIO_MIN in Hra; lia).
    rewrite v_rects_eq by (done || lia).
    destruct (on_screen_v rect (first_span (rheight rect) ra) Hs) as [Sa Sb]; [lia|].
    destruct (IHl _ (cp ++ [0]) Sa Hrl) as [-> Tl]; [simpl; lia|simpl; lia|].
    destruct (IHr _ (cp ++ [1]) Sb Hrr) as [-> Tr]; [simpl; lia|simpl; lia|].
    split; [by rewrite !andb_true_r; apply Z.leb_le; lia|].
    cbn [fst]. intros p [Hp|Hp]%elem_of_app; auto.
Qed.

Lemma no_tile_vanishes_witness :
  let t := HSplit (VSplit (Leaf 1) (Leaf 2) 50) (Leaf 3) 90 in
  fits t (mkRect 0 0 11 11) = true
  /\ forall p, p ∈ fst (render_tile_tree t (mkRect 0 0 11 11) true [1] [] ([], [])) ->
       1 <= width (tile_rect p) /\ 1 <= rheight (tile_rect p).
Proof.
  exact (no_tile_vanishes (HSplit (VSplit (Leaf 1) (Leaf 2) 50) (Leaf 3) 90) (mkRect 0 0 11 11) true [1] []
    ltac:(unfold on_screen, u16_max; simpl; lia) ltac:(simpl; unfold TILE_RATIO_MIN, TILE_RATIO_MAX; lia)
    ltac:(simpl; lia) ltac:(simpl; lia)).
Defined.

(** One column less and the floor of the ratio no longer keeps the tile. *)
Example ten_columns_lose_a_tile :
  map (fun p => width (tile_rect p)) (fst (render_tiles (HSplit (Leaf 1) (Leaf 2) 90) (mkRect 0 0 10 24) true []))
  = [9; 0].
Proof. reflexivity. Qed.

(** ** Where a path lies *)

Fixpoint rect_at (t : TileTree) (rect : Rect) (path : list Z) {struct path} : option Rect :=
  match path with
  | [] => Some rect
  | step :: rest =>
      match t with
      | Leaf _ => None
      | HSplit l r ra =>
          let '(a, b, _) := h_rects rect ra in if step =? 0 then rect_at l a rest else rect_at r b rest
      | VSplit l r ra =>
          let '(a, b, _) := v_rects rect ra in if step =? 0 then rect_at l a rest else rect_at r b rest
      end
  end.

Lemma rect_at_app t rect p q s rc :
  subtree_at t p = Some s -> rect_at t rect p = Some rc -> rect_at t rect (p ++ q) = rect_at s rc q.
Proof.
  revert t rect. induction p as [|x p IH]; intros t rect; cbn [app rect_at subtree_at]; [by intros [= ->] [= ->]|].
  destruct t as [i|l r ra|l r ra]; [done|destruct (h_rects rect ra) as [[a b] d]
    |destruct (v_rects rect ra) as [[a b] d]]; destruct (x =? 0); apply IH.
Qed.

Lemma rect_at_subtree t rect p : is_Some (subtree_at t p) <-> is_Some (rect_at t rect p).
Proof.
  revert t rect. induction p as [|x p IH]; intros t rect; cbn [rect_at subtree_at]; [split; by eexists|].
  destruct t as [i|l r ra|l r ra]; [split; by intros []|destruct (h_rects rect ra) as [[a b] d]
    |destruct (v_rects rect ra) as [[a b] d]]; destruct (x =? 0); apply IH.
Qed.

(** What the theorems below ask of a tree in a rectangle. *)
Definition laid_out (t : TileTree) (rect : Rect) : Prop :=
  on_screen rect /\ ratios_u8 t /\ fits t rect = true.

Definition within (r r' : Rect) : Prop :=
  rx r' <= rx r /\ ry r' <= ry r /\ rx r + width r <= rx r' + width r' /\ ry r + rheight r <= ry r' + rheight r'.

Lemma laid_out_HSplit l r ra rect :
  laid_out (HSplit l r ra) rect ->
  let w := first_span (width rect) ra in
  let a := mkRect (rx rect) (ry rect) w (rheight rect) in
  let b := mkRect (rx rect + w + 1) (ry rect) (width rect - w - 1) (rheight rect) in
  h_rects rect ra = (a, b, mkRect (rx rect + w) (ry rect) 1 (rheight rect))
  /\ 0 <= w <= width rect - 1 /\ laid_out l a /\ laid_out r b.
Proof.
  intros (Hs & (Hra & Hl & Hr) & Hf) w a b. cbn [fits] in Hf.
  destruct (h_rects rect ra) as [[a' b'] d'] eqn:E.
  apply andb_true_iff in Hf as [[Hw%Z.leb_le Hfl]%andb_true_iff Hfr].
  pose proof (first_span_in rect _ ra Hs (or_introl eq_refl) Hw ltac:(lia)) as Hsp.
  rewrite h_rects_eq in E by (done || lia). injection E as <- <- <-.
  by destruct (on_screen_h rect _ Hs Hsp).
Qed.

Lemma laid_out_VSplit l r ra rect :
  laid_out (VSplit l r ra) rect ->
  let h := first_span (rheight rect) ra in
  let a := mkRect (rx rect) (ry rect) (width rect) h in
  let b := mkRect (rx rect) (ry rect + h + 1) (width rect) (rheight rect - h - 1) in
  v_rects rect ra = (a, b, mkRect (rx rect) (ry rect + h) (width rect) 1)
  /\ 0 <= h <= rheight rect - 1 /\ laid_out l a /\ laid_out r b.
Proof.
  intros (Hs & (Hra & Hl & Hr) & Hf) h a b. cbn [fits] in Hf.
  destruct (v_rects rect ra) as [[a' b'] d'] eqn:E.
  apply andb_true_iff in Hf as [[Hw%Z.leb_le Hfl]%andb_true_iff Hfr].
  pose proof (first_span_in rect _ ra Hs (or_intror eq_refl) Hw ltac:(lia)) as Hsp.
  rewrite v_rects_eq in E by (done || lia). injection E as <- <- <-.
  by destruct (on_screen_v rect _ Hs Hsp).
Qed.

Lemma laid_out_at t rect p s rc :
  laid_out t rect -> subtree_at t p = Some s -> rect_at t rect p = Some rc -> laid_out s rc /\ within rc rect.
Proof.
  revert t rect. induction p as [|x p IH]; intros t rect Ht; cbn [rect_at subtree_at].
  { intros [= <-] [= <-]. split; [done|]. unfold within. lia. }
  destruct t as [i|l r ra|l r ra]; [done| |].
  - destruct (laid_out_HSplit _ _ _ _ Ht) as (-> & Hw & La & Lb).
    destruct (x =? 0); intros Hs Hr;
      (destruct (IH _ _ La Hs Hr) as [? Hin] || destruct (IH _ _ Lb Hs Hr) as [? Hin]);
      (split; [done|]); unfold within in *; simpl in *; lia.
  - destruct (laid_out_VSplit _ _ _ _ Ht) as (-> & Hw & La & Lb).
    destruct (x =? 0); intros Hs Hr;
      (destruct (IH _ _ La Hs Hr) as [? Hin] || destruct (IH _ _ Lb Hs Hr) as [? Hin]);
      (split; [done|]); unfold within in *; simpl in *; lia.
Qed.

(** ** Focus moves across a divider *)

Definition edge (dir : TileDirection) (r : Rect) : Z :=
  match dir with
  | Left => rx r | Right => rx r + width r | Up => ry r | Down => ry r + rheight r
  end.

Lemma pressed_cons t x p dir :
  pressed t (x :: p) dir 0 <->
  (axis_at t [] = Some (dir_axis dir) -> Bool.eqb (x =? 1) (wants_first dir) = false)
  /\ forall j, (j < length p)%nat -> axis_at t (x :: take j p) = Some (dir_axis dir) ->
       Bool.eqb (nth j p 0 =? 1) (wants_first dir) = false.
Proof.
  unfold pressed. split.
  - intros H. split; [intros Ha; apply (H O); [simpl; lia|done]|].
    intros j Hj Ha. apply (H (S j)); [simpl; lia|done].
  - intros [H0 HS] [|j] Hj; [done|]. simpl in *. apply HS. lia.
Qed.

(** A path that never leaves the side keeps the edge. *)
Lemma pressed_edge t rect p dir s rc :
  laid_out t rect -> Forall (fun x => x = 0 \/ x = 1) p ->
  subtree_at t p = Some s -> rect_at t rect p = Some rc -> pressed t p dir 0 ->
  edge dir rc = edge dir rect.
Proof.
  revert t rect. induction p as [|x p IH]; intros t rect Ht Hp; cbn [rect_at subtree_at].
  { by intros _ [= <-] _. }
  inversion_clear Hp as [|? ? Hx Hp']. intros Hs Hr [H0 Hj]%pressed_cons.
  destruct t as [i|l r ra|l r ra]; [done| |].
  - destruct (laid_out_HSplit _ _ _ _ Ht) as (E & Hw & La & Lb). rewrite E in Hr.
    assert (forall c, c = (if x =? 0 then l else r) -> pressed c p dir 0) as Hc.
    { intros c -> j Hlt Ha. apply Hj; [lia|]. unfold axis_at in *. simpl. by destruct (x =? 0). }
    destruct Hx as [-> | ->]; simpl in Hs, Hr;
      (rewrite (IH _ _ La Hp' Hs Hr (Hc _ eq_refl)) || rewrite (IH _ _ Lb Hp' Hs Hr (Hc _ eq_refl)));
      destruct dir; simpl; try lia; specialize (H0 eq_refl); done.
  - destruct (laid_out_VSplit _ _ _ _ Ht) as (E & Hw & La & Lb). rewrite E in Hr.
    assert (forall c, c = (if x =? 0 then l else r) -> pressed c p dir 0) as Hc.
    { intros c -> j Hlt Ha. apply Hj; [lia|]. unfold axis_at in *. simpl. by destruct (x =? 0). }
    destruct Hx as [-> | ->]; simpl in Hs, Hr;
      (rewrite (IH _ _ La Hp' Hs Hr (Hc _ eq_refl)) || rewrite (IH _ _ Lb Hp' Hs Hr (Hc _ eq_refl)));
      destruct dir; simpl; try lia; specialize (H0 eq_refl); done.
Qed.

(** A leaf found by going first all the way keeps the left and the upper edge. *)
Lemma zeros_pressed t k dir : wants_first dir = true -> pressed t (replicate k 0) dir 0.
Proof.
  intros Hd j Hj _. rewrite Hd. assert (nth j (replicate k 0) 0 = 0) as ->; [|done].
  clear Hj. revert j. induction k as [|k IH]; intros [|j]; simpl; done || apply IH.
Qed.

Lemma zeros_steps k : Forall (fun x => x = 0 \/ x = 1) (replicate k 0).
Proof. apply Forall_replicate. by left. Qed.

Lemma pressed_drop t p j dir s :
  subtree_at t (take j p) = Some s -> pressed t p dir j -> pressed s (drop j p) dir 0.
Proof.
  intros Hs Hp i Hi Ha. rewrite length_drop in Hi. specialize (Hp (j + i)%nat ltac:(lia)).
  rewrite <- Hp.
  - f_equal. f_equal. rewrite !nth_lookup. by rewrite lookup_drop.
  - unfold axis_at in *.
    replace (take (j + i) p) with (take j p ++ take i (drop j p)) by (by rewrite take_take_drop).
    by rewrite subtree_at_app, Hs.
Qed.

(** The two sides of a split along the arrow's axis, the near one being the one the
    arrow leaves. *)
Lemma split_sides t rect dir near far :
  laid_out t rect -> axis_at t [] = Some (dir_axis dir) ->
  near = (if wants_first dir then 1 else 0) -> far = (if wants_first dir then 0 else 1) ->
  exists a b ra rb, subtree_at t [near] = Some a /\ rect_at t rect [near] = Some ra /\ laid_out a ra
    /\ subtree_at t [far] = Some b /\ rect_at t rect [far] = Some rb /\ laid_out b rb
    /\ edge (opposite dir) rb = edge dir ra + (if wants_first dir then -1 else 1)
    /\ edge dir ra <> edge dir rect /\ within ra rect.
Proof.
  intros Ht Ha -> ->. destruct t as [i|l r ra|l r ra]; [done| |].
  - destruct (laid_out_HSplit _ _ _ _ Ht) as (E & Hw & La & Lb). cbn [subtree_at rect_at]. rewrite E.
    destruct dir; try done; simpl; eexists _, _, _, _; (split_and!; try done; unfold within; simpl; lia).
  - destruct (laid_out_VSplit _ _ _ _ Ht) as (E & Hw & La & Lb). cbn [subtree_at rect_at]. rewrite E.
    destruct dir; try done; simpl; eexists _, _, _, _; (split_and!; try done; unfold within; simpl; lia).
Qed.

(** Where the path goes on past the split, on the near and on the far side. *)
Lemma near_side t rect p j dir s rp node rc a ra x :
  laid_out t rect -> Forall (fun x => x = 0 \/ x = 1) p ->
  subtree_at t p = Some s -> rect_at t rect p = Some rp -> (j < length p)%nat -> nth j p 0 = x ->
  subtree_at t (take j p) = Some node -> rect_at t rect (take j p) = Some rc ->
  subtree_at node [x] = Some a -> rect_at node rc [x] = Some ra -> laid_out a ra ->
  pressed t p dir (S j) -> edge dir rp = edge dir ra.
Proof.
  intros Ht Hp Hs Hr Hj Hx Hn Hc Ha Hra La Hpr.
  assert (p !! j = Some x) as Hjx
    by (rewrite <- Hx, nth_lookup; by destruct (lookup_lt_is_Some_2 p j Hj) as [y ->]).
  assert (subtree_at t (take (S j) p) = Some a) as Hta
    by (by rewrite (take_S_r _ _ _ Hjx), subtree_at_app, Hn).
  assert (rect_at t rect (take (S j) p) = Some ra) as Htr
    by (by rewrite (take_S_r _ _ _ Hjx), (rect_at_app _ _ _ _ _ _ Hn Hc)).
  apply (pressed_edge a ra (drop (S j) p) dir s rp La).
  - by apply Forall_drop.
  - rewrite <- Hs. rewrite <- (take_drop (S j) p) at 2. by rewrite subtree_at_app, Hta.
  - rewrite <- Hr. rewrite <- (take_drop (S j) p) at 2. by rewrite (rect_at_app _ _ _ _ _ _ Hta Htr).
  - by apply (pressed_drop t).
Qed.

(** focus moves across a divider.  In a pane the tree fits, an arrow finds no
    neighbour exactly when the tile lies at that border of the pane; else it leads
    to a leaf, and going right or down that leaf begins just behind the divider the
    tile ends at, while going left or up it ends somewhere before the tile. *)
Theorem focus_moves_across_a_divider t rect p dir s rp :
  laid_out t rect -> Forall (fun x => x = 0 \/ x = 1) p ->
  subtree_at t p = Some s -> rect_at t rect p = Some rp ->
  match neighbor t p dir with
  | None => edge dir rp = edge dir rect
  | Some n => edge dir rp <> edge dir rect
      /\ exists i rn, subtree_at t n = Some (Leaf i) /\ rect_at t rect n = Some rn
           /\ if wants_first dir then edge (opposite dir) rn < edge dir rp
              else edge (opposite dir) rn = edge dir rp + 1
  end.
Proof.
  intros Ht Hp Hs Hr. pose proof (neighbor_spec t p dir s Hs) as Hn.
  destruct (neighbor t p dir) as [n|]; [|by eapply pressed_edge].
  destruct Hn as (j & k & i & Hj & Ha & Hstep & Hpress & -> & Hleaf).
  destruct (prefix_is_split _ _ _ j Hs Hj) as (node & Hnode & _).
  destruct (proj1 (rect_at_subtree t rect (take j p))) as [rc Hrc]; [by eexists|].
  destruct (laid_out_at _ _ _ _ _ Ht Hnode Hrc) as [Lc Wc].
  assert (axis_at node [] = Some (dir_axis dir)) as Ha' by (unfold axis_at in *; by rewrite Hnode in Ha).
  destruct (split_sides node rc dir _ _ Lc Ha' eq_refl eq_refl)
    as (a & b & ra & rb & Sa & Ra & La & Sb & Rb & Lb & Hedge & Hne & Wa).
  assert (nth j p 0 = if wants_first dir then 1 else 0) as Hx.
  { assert (nth j p 0 = 0 \/ nth j p 0 = 1) as [E|E]
      by (rewrite Forall_forall in Hp; apply Hp, list_elem_of_In, nth_In, Hj);
      rewrite E in *; by destruct (wants_first dir). }
  pose proof (near_side _ _ _ _ _ _ _ _ _ _ _ _ Ht Hp Hs Hr Hj Hx Hnode Hrc Sa Ra La Hpress) as Hep.
  split; [rewrite Hep; unfold within in *; destruct dir; simpl in *; lia|].
  rewrite (subtree_at_app t), Hnode in Hleaf. cbn [mbind option_bind] in Hleaf.
  rewrite subtree_at_app, Sb in Hleaf. cbn [mbind option_bind] in Hleaf.
  destruct (proj1 (rect_at_subtree b rb (replicate k 0))) as [rn Hrn]; [by eexists|].
  exists i, rn. split_and!.
  - by rewrite subtree_at_app, Hnode; cbn [mbind option_bind]; rewrite subtree_at_app, Sb.
  - by rewrite (rect_at_app _ _ _ _ _ _ Hnode Hrc), (rect_at_app _ _ _ _ _ _ Sb Rb).
  - destruct (laid_out_at _ _ _ _ _ Lb Hleaf Hrn) as [_ Wn].
    destruct (wants_first dir) eqn:Hd; [unfold within in *; destruct dir; simpl in *; lia|].
    assert (edge (opposite dir) rn = edge (opposite dir) rb) as -> by
      (eapply pressed_edge; [done|apply zeros_steps|done|done|apply zeros_pressed; by destruct dir]).
    rewrite Hedge, Hep. done.
Qed.

Lemma focus_moves_across_a_divider_witness :
  let t := HSplit (VSplit (Leaf 1) (Leaf 2) 50) (VSplit (Leaf 3) (Leaf 4) 30) 50 in
  neighbor t [0; 1] Right = Some [1; 0]
  /\ exists i rn, subtree_at t [1; 0] = Some (Leaf i) /\ rect_at t (mkRect 0 0 80 24) [1; 0] = Some rn /\ rx rn = 41.
Proof.
  split; [reflexivity|].
  destruct (focus_moves_across_a_divider
    (HSplit (VSplit (Leaf 1) (Leaf 2) 50) (VSplit (Leaf 3) (Leaf 4) 30) 50) (mkRect 0 0 80 24) [0; 1] Right
    (Leaf 2) (mkRect 0 13 40 11)) as (_ & i & rn & Hs & Hr & He).
  - split; [unfold on_screen, u16_max; simpl; lia|].
    split; [simpl; unfold u8_max; lia|reflexivity].
  - repeat constructor; lia.
  - reflexivity.
  - reflexivity.
  - exists i, rn. split_and!; [exact Hs|exact Hr|exact He].
Defined.

(** ** The record of dividers *)

Definition divider_line (a : TileAxis) (rc : Rect) (ratio : Z) : Rect :=
  match a with Horizontal => (h_rects rc ratio).2 | Vertical => (v_rects rc ratio).2 end.

(** The extent of a rectangle along an axis: where it starts and how long it is; and
    the one across. *)
Definition start (a : TileAxis) (rc : Rect) : Z := match a with Horizontal => rx rc | Vertical => ry rc end.
Definition extent (a : TileAxis) (rc : Rect) : Z := match a with Horizontal => width rc | Vertical => rheight rc end.
Definition across (a : TileAxis) (rc : Rect) : Z := match a with Horizontal => rheight rc | Vertical => width rc end.

(** A record entry describes the split its path names. *)
Definition hit_ok (t : TileTree) (rect : Rect) (cp : list Z) (h : TileDividerHit) : Prop :=
  exists q rc ratio, hit_path h = cp ++ q /\ axis_at t q = Some (hit_axis h) /\ ratio_at t q = Some ratio
    /\ rect_at t rect q = Some rc /\ container h = rc /\ line h = divider_line (hit_axis h) rc ratio.

Lemma hit_ok_child t rect cp x c rc h :
  subtree_at t [x] = Some c -> rect_at t rect [x] = Some rc ->
  hit_ok c rc (cp ++ [x]) h -> hit_ok t rect cp h.
Proof.
  intros Hc Hrc (q & rc' & ratio & Hp & Ha & Hra & Hr & Hco & Hl).
  assert (forall q', subtree_at t (x :: q') = subtree_at c q') as Hsub
    by (intros q'; change (x :: q') with ([x] ++ q'); by rewrite subtree_at_app, Hc).
  exists (x :: q), rc', ratio. rewrite Hp, <- app_assoc. unfold axis_at, ratio_at in *. rewrite Hsub.
  split_and!; try done. change (x :: q) with ([x] ++ q). by rewrite (rect_at_app _ _ _ _ _ _ Hc Hrc).
Qed.

Lemma hits_ok t rect pf fp cp h :
  h ∈ snd (render_tile_tree t rect pf fp cp ([], [])) -> hit_ok t rect cp h.
Proof.
  revert rect cp. induction t as [i|l IHl r IHr ra|l IHl r IHr ra]; intros rect cp.
  { simpl. intros H. by apply elem_of_nil in H. }
  - rewrite render_HSplit. destruct (h_rects rect ra) as [[a b] d] eqn:E. cbv zeta. cbn [snd].
    rewrite !elem_of_app. intros [H|[H|H]].
    + eapply (hit_ok_child _ _ _ 0); [done|cbn [rect_at]; by rewrite E|by apply IHl].
    + eapply (hit_ok_child _ _ _ 1); [done|cbn [rect_at]; by rewrite E|by apply IHr].
    + destruct (0 <? rheight rect); [|by apply elem_of_nil in H]. apply list_elem_of_singleton in H as ->.
      exists [], rect, ra. rewrite app_nil_r. split_and!; try done.
      cbn [line divider_line hit_axis]. by rewrite E.
  - rewrite render_VSplit. destruct (v_rects rect ra) as [[a b] d] eqn:E. cbv zeta. cbn [snd].
    rewrite !elem_of_app. intros [H|[H|H]].
    + eapply (hit_ok_child _ _ _ 0); [done|cbn [rect_at]; by rewrite E|by apply IHl].
    + eapply (hit_ok_child _ _ _ 1); [done|cbn [rect_at]; by rewrite E|by apply IHr].
    + destruct (0 <? width rect); [|by apply elem_of_nil in H]. apply list_elem_of_singleton in H as ->.
      exists [], rect, ra. rewrite app_nil_r. split_and!; try done.
      cbn [line divider_line hit_axis]. by rewrite E.
Qed.

(** Every split with an extent across its axis is recorded. *)
Lemma hits_complete t rect pf fp cp q a rc :
  Forall (fun x => x = 0 \/ x = 1) q -> axis_at t q = Some a -> rect_at t rect q = Some rc -> 0 < across a rc ->
  exists h, h ∈ snd (render_tile_tree t rect pf fp cp ([], [])) /\ hit_path h = cp ++ q.
Proof.
  revert rect cp q. induction t as [i|l IHl r IHr ra|l IHl r IHr ra]; intros rect cp q Hq Ha Hr Hc.
  { by destruct q. }
  - rewrite render_HSplit. destruct q as [|x q].
    + injection Ha as <-. injection Hr as <-. destruct (h_rects rect ra) as [[a' b'] d]. cbn [snd].
      simpl in Hc. apply Z.ltb_lt in Hc as ->. eexists. rewrite !elem_of_app. split; [right; right; by left|].
      simpl. by rewrite app_nil_r.
    + inversion_clear Hq as [|? ? Hx Hq']. cbn [rect_at] in Hr. destruct (h_rects rect ra) as [[a' b'] d].
      destruct Hx as [-> | ->]; simpl in Hr;
        [destruct (IHl a' (cp ++ [0]) q Hq' Ha Hr Hc) as (h & Hh & Hp)
        |destruct (IHr b' (cp ++ [1]) q Hq' Ha Hr Hc) as (h & Hh & Hp)];
        exists h; rewrite Hp, <- app_assoc; cbn [snd]; rewrite !elem_of_app; tauto.
  - rewrite render_VSplit. destruct q as [|x q].
    + injection Ha as <-. injection Hr as <-. destruct (v_rects rect ra) as [[a' b'] d]. cbn [snd].
      simpl in Hc. apply Z.ltb_lt in Hc as ->. eexists. rewrite !elem_of_app. split; [right; right; by left|].
      simpl. by rewrite app_nil_r.
    + inversion_clear Hq as [|? ? Hx Hq']. cbn [rect_at] in Hr. destruct (v_rects rect ra) as [[a' b'] d].
      destruct Hx as [-> | ->]; simpl in Hr;
        [destruct (IHl a' (cp ++ [0]) q Hq' Ha Hr Hc) as (h & Hh & Hp)
        |destruct (IHr b' (cp ++ [1]) q Hq' Ha Hr Hc) as (h & Hh & Hp)];
        exists h; rewrite Hp, <- app_assoc; cbn [snd]; rewrite !elem_of_app; tauto.
Qed.

(** ** Grabbing *)

Lemma hit_path_extends t rect pf fp cp h :
  h ∈ snd (render_tile_tree t rect pf fp cp ([], [])) -> cp `prefix_of` hit_path h.
Proof. intros (q & _ & _ & -> & _)%hits_ok. by exists q. Qed.

Lemma find_rev_app {A} (P : A -> bool) (l l' : list A) :
  List.find P (rev (l ++ l')) = match List.find P (rev l') with Some x => Some x | None => List.find P (rev l) end.
Proof.
  rewrite rev_app_distr. induction (rev l') as [|x r IH]; [done|]. simpl. by destruct (P x).
Qed.

(** What grabbing in a record is to mean. *)
Definition grabs (hits : list TileDividerHit) (col row : Z) : Prop :=
  match hit_test_tile_divider hits col row with
  | None => forall h, h ∈ hits -> in_grab_zone col row h = false
  | Some p => (exists h, h ∈ hits /\ hit_path h = p /\ in_grab_zone col row h = true)
      /\ forall h, h ∈ hits -> hit_path h `prefix_of` p -> hit_path h <> p -> in_grab_zone col row h = false
  end.

Lemma find_rev_elem {A} (P : A -> bool) l x : List.find P (rev l) = Some x -> x ∈ l /\ P x = true.
Proof. intros [H ?]%find_some. split; [|done]. by apply list_elem_of_In, in_rev. Qed.

Lemma find_rev_none {A} (P : A -> bool) l : List.find P (rev l) = None -> forall x, x ∈ l -> P x = false.
Proof. intros H x Hx. apply (find_none _ _ H). apply in_rev. rewrite rev_involutive. by apply list_elem_of_In. Qed.

Lemma no_common_child (cp p h : list Z) x y :
  x <> y -> cp ++ [x] `prefix_of` h -> h `prefix_of` p -> ~ cp ++ [y] `prefix_of` p.
Proof.
  intros Hxy [k ->] [k' ->] [k'' E]. rewrite <- !app_assoc in E. apply app_inv_head in E. simpl in E. congruence.
Qed.

Lemma no_child_above (cp h : list Z) x : cp ++ [x] `prefix_of` h -> ~ h `prefix_of` cp.
Proof.
  intros [k ->] [k' E]. apply (f_equal length) in E. rewrite !length_app in E. simpl in E. lia.
Qed.

Lemma grab_composes cp hl hr own col row :
  grabs hl col row -> grabs hr col row ->
  (forall h, h ∈ hl -> cp ++ [0] `prefix_of` hit_path h) ->
  (forall h, h ∈ hr -> cp ++ [1] `prefix_of` hit_path h) ->
  (forall h, h ∈ own -> hit_path h = cp) ->
  grabs (hl ++ hr ++ own) col row.
Proof.
  unfold grabs, hit_test_tile_divider. intros Gl Gr Pl Pr Po. rewrite !find_rev_app.
  destruct (List.find (in_grab_zone col row) (rev own)) as [h|] eqn:Eo.
  { apply find_rev_elem in Eo as [Hh Hz]. simpl. rewrite (Po h Hh). split.
    - exists h. rewrite !elem_of_app. auto.
    - intros h'. rewrite !elem_of_app. intros [H|[H|H]] Hpre Hne; exfalso.
      + by apply (no_child_above cp (hit_path h') 0); [apply Pl|].
      + by apply (no_child_above cp (hit_path h') 1); [apply Pr|].
      + by apply Hne, Po. }
  pose proof (find_rev_none _ _ Eo) as No.
  destruct (List.find (in_grab_zone col row) (rev hr)) as [h|] eqn:Er; simpl in Gr.
  { apply find_rev_elem in Er as [Hh Hz]. destruct Gr as [_ Gr]. split.
    - exists h. rewrite !elem_of_app. auto.
    - intros h'. rewrite !elem_of_app. intros [H|[H|H]] Hpre Hne; [exfalso|by apply Gr|by apply No].
      by apply (no_common_child cp (hit_path h) (hit_path h') 0 1); [|apply Pl| |apply Pr]. }
  destruct (List.find (in_grab_zone col row) (rev hl)) as [h|] eqn:El; simpl in Gl |- *.
  { apply find_rev_elem in El as [Hh Hz]. destruct Gl as [_ Gl]. split.
    - exists h. rewrite !elem_of_app. auto.
    - intros h'. rewrite !elem_of_app. intros [H|[H|H]] Hpre Hne; [by apply Gl|exfalso|by apply No].
      by apply (no_common_child cp (hit_path h) (hit_path h') 1 0); [|apply Pr| |apply Pl]. }
  intros h. rewrite !elem_of_app. intros [H|[H|H]]; [by apply Gl|by apply Gr|by apply No].
Qed.

(** The entries of a split: those of its children, then its own. *)
Lemma render_split_hits t rect pf fp cp l r :
  children_of t = Some (l, r) ->
  exists a b d ax n, snd (render_tile_tree t rect pf fp cp ([], []))
    = snd (render_tile_tree l a pf fp (cp ++ [0]) ([], []))
      ++ snd (render_tile_tree r b pf fp (cp ++ [1]) ([], []))
      ++ (if 0 <? n then [mkHit cp d rect ax] else []).
Proof.
  destruct t as [i|l' r' ra|l' r' ra]; [done| |]; intros [= <- <-].
  - rewrite render_HSplit. destruct (h_rects rect ra) as [[a b] d]. by exists a, b, d, Horizontal, (rheight rect).
  - rewrite render_VSplit. destruct (v_rects rect ra) as [[a b] d]. by exists a, b, d, Vertical, (width rect).
Qed.

(** where dividers overlap, the outer one is grabbed.  The path [hit_test] answers
    is that of a recorded divider with the pointer in its grab zone, and no divider
    of a split around that one has the pointer in its own; without an answer no
    zone holds the pointer. *)
Theorem the_outer_divider_is_grabbed t rect pf fp cp col row :
  let hits := snd (render_tile_tree t rect pf fp cp ([], [])) in
  match hit_test_tile_divider hits col row with
  | None => forall h, h ∈ hits -> in_grab_zone col row h = false
  | Some p => (exists h, h ∈ hits /\ hit_path h = p /\ in_grab_zone col row h = true)
      /\ forall h, h ∈ hits -> hit_path h `prefix_of` p -> hit_path h <> p -> in_grab_zone col row h = false
  end.
Proof.
  cbv zeta. fold (grabs (snd (render_tile_tree t rect pf fp cp ([], []))) col row).
  revert rect cp. induction t as [i|l IHl r IHr ra|l IHl r IHr ra]; intros rect cp.
  { intros h H. by apply elem_of_nil in H. }
  all: lazymatch goal with |- grabs (snd (render_tile_tree ?t _ _ _ _ _)) _ _ =>
      destruct (render_split_hits t rect pf fp cp l r eq_refl) as (a & b & d & ax & n & ->) end;
    apply (grab_composes cp); [apply IHl|apply IHr|apply hit_path_extends|apply hit_path_extends|];
    destruct (0 <? n); [by intros h ->%list_elem_of_singleton|by intros h H%elem_of_nil].
Qed.

(** On the last cell of the inner divider it is the outer one that moves. *)
Example an_inner_divider_yields :
  let hits := snd (render_tiles (HSplit (VSplit (Leaf 1) (Leaf 2) 50) (Leaf 3) 50) (mkRect 0 0 80 24) true []) in
  map hit_path hits = [[0]; []]
  /\ map (in_grab_zone 39 12) hits = [true; true]
  /\ hit_test_tile_divider hits 39 12 = Some [].
Proof. vm_compute. auto. Qed.

(** ** Dragging *)

Definition pos (a : TileAxis) (col row : Z) : Z := match a with Horizontal => col | Vertical => row end.

Definition dragged_ratio (a : TileAxis) (rc : Rect) (col row : Z) : Z :=
  clamp TILE_RATIO_MIN TILE_RATIO_MAX ((pos a col row - start a rc) * 100 / extent a rc).

(** The first child's cells follow the pointer to within a percent of the whole. *)
Lemma first_span_follows span rel :
  0 < span <= u16_max -> 0 <= rel < span ->
  TILE_RATIO_MIN <= rel * 100 / span <= TILE_RATIO_MAX ->
  rel - span / 100 - 1 <= first_span span (rel * 100 / span) <= rel.
Proof.
  unfold TILE_RATIO_MIN, TILE_RATIO_MAX. intros Hs Hr Hq. unfold first_span, sat_sub.
  pose proof (Z.div_mod (rel * 100) span ltac:(lia)) as D1.
  pose proof (Z.mod_pos_bound (rel * 100) span ltac:(lia)) as M1.
  set (q := rel * 100 / span) in *. rewrite (Z.min_l q) by lia.
  pose proof (Z.div_mod (span * q) 100 ltac:(lia)) as D2.
  pose proof (Z.mod_pos_bound (span * q) 100 ltac:(lia)) as M2.
  pose proof (Z.div_mod span 100 ltac:(lia)) as D3.
  pose proof (Z.mod_pos_bound span 100 ltac:(lia)) as M3.
  rewrite u16_id by lia. lia.
Qed.

Lemma ratio_at_path t q r : ratio_at t q = Some r -> exists node, subtree_at t q = Some node /\ ratio_of node = Some r.
Proof.
  unfold ratio_at. destruct (subtree_at t q) as [node|]; [|done]. intros H. exists node.
  split; [done|]. by destruct node.
Qed.

Lemma rect_at_replace t rect q new node rc :
  subtree_at t q = Some node -> rect_at t rect q = Some rc -> rect_at (replace_at t q new).2 rect q = Some rc.
Proof.
  revert t rect. induction q as [|x q IH]; intros t rect; cbn [subtree_at rect_at replace_at]; [done|].
  destruct t as [i|l r ra|l r ra]; [done| |]; intros Hs Hr;
    (destruct (x =? 0) eqn:Ex;
     [specialize (IH l)|specialize (IH r)]);
    (destruct (h_rects rect ra) as [[a b] d] eqn:E || destruct (v_rects rect ra) as [[a b] d] eqn:E);
    (specialize (IH _ Hs Hr) || specialize (IH _ Hs Hr));
    destruct (replace_at _ q new) as [o c]; cbn [snd rect_at] in *; by rewrite ?E, ?Ex.
Qed.

(** The entry [drag_tile_divider] finds for a split on the screen. *)
Lemma find_hit t rect pf fp q a rc :
  Forall (fun x => x = 0 \/ x = 1) q -> axis_at t q = Some a -> rect_at t rect q = Some rc -> 0 < across a rc ->
  exists h, List.find (fun hit => bool_decide (hit_path hit = q)) (snd (render_tiles t rect pf fp)) = Some h
    /\ container h = rc /\ hit_axis h = a.
Proof.
  intros Hq Ha Hr Hc. destruct (hits_complete t rect pf fp [] q a rc Hq Ha Hr Hc) as (h & Hh & Hp).
  destruct (List.find (fun hit => bool_decide (hit_path hit = q)) (snd (render_tiles t rect pf fp))) as [h'|] eqn:E.
  - apply find_some in E as [Hin Hq']. apply bool_decide_eq_true in Hq'. exists h'. split; [done|].
    destruct (hits_ok t rect pf fp [] h') as (q' & rc' & ratio & Hp' & Ha' & _ & Hr' & Hco & _);
      [by apply list_elem_of_In|].
    simpl in Hp'. assert (q' = q) as -> by congruence. split; congruence.
  - exfalso. apply list_elem_of_In in Hh. apply (find_none _ _ E h) in Hh. rewrite bool_decide_eq_false in Hh. done.
Qed.

Lemma drag_eq t rect pf fp f t0 q a rc col row :
  Forall (fun x => x = 0 \/ x = 1) q -> axis_at t q = Some a -> rect_at t rect q = Some rc -> 0 < across a rc ->
  start a rc <= pos a col row < start a rc + extent a rc ->
  drag_tile_divider (snd (render_tiles t rect pf fp)) (Splits t0 f) q col row
  = let (changed, t') := set_ratio_at t0 q ((pos a col row - start a rc) * 100 / extent a rc) in
    (changed, Splits t' f).
Proof.
  intros Hq Ha Hr Hc Hpos. unfold drag_tile_divider.
  destruct (find_hit t rect pf fp q a rc Hq Ha Hr Hc) as (h & -> & Hco & Hax).
  assert (pointer_percent h col row = Some ((pos a col row - start a rc) * 100 / extent a rc)) as ->; [|done].
  unfold pointer_percent, sat_sub. rewrite Hco, Hax.
  assert ((pos a col row - start a rc) * 100 / extent a rc <= 100) as H100
    by (apply Z.div_le_upper_bound; lia).
  destruct a; simpl in *;
    [destruct (Z.eqb_spec (width rc) 0)|destruct (Z.eqb_spec (rheight rc) 0)]; try lia; f_equal;
    rewrite (Z.max_r 0) by lia; lia.
Qed.

Lemma divider_line_start rect a rc ratio :
  on_screen rc -> within rc rect -> 1 <= extent a rc -> 0 <= ratio ->
  start a (divider_line a rc ratio) = start a rc + first_span (extent a rc) ratio.
Proof.
  intros Hs _ He Hr. destruct a; cbn [start extent divider_line] in *; [rewrite h_rects_eq by done|rewrite v_rects_eq by done]; done.
Qed.

(** What [set_ratio_at] leaves: the split with the ratio asked for, everything else and
    where it lies as it was. *)
Lemma set_ratio_result t rect q node old rc ratio :
  subtree_at t q = Some node -> ratio_of node = Some old -> rect_at t rect q = Some rc ->
  let c := clamp TILE_RATIO_MIN TILE_RATIO_MAX ratio in
  exists t', set_ratio_at t q ratio = (negb (old =? c), t') /\ shape t' = shape t
    /\ ((old =? c) = true -> t' = t) /\ rect_at t' rect q = Some rc
    /\ subtree_at t' q = Some (with_ratio node c).
Proof.
  intros En Er Hr c. rewrite set_ratio_at_eq, En, Er. cbv zeta. fold c.
  destruct (Z.eqb_spec old c) as [Ec|Ec].
  { exists t. rewrite <- Ec, (with_ratio_same _ _ Er). done. }
  exists (replace_at t q (with_ratio node c)).2. split_and!; try done.
  - apply (shape_replace _ _ node); [done|by destruct node].
  - by apply (rect_at_replace _ _ _ _ node).
  - destruct (replace_at_spec t q (with_ratio node c) _ En) as (t' & -> & _ & Hsub & _).
    specialize (Hsub []). by rewrite app_nil_r in Hsub.
Qed.

(** a dragged divider lands under the pointer.  With the pointer in the container
    of a split that the frame shows, the drag changes the ratio of that split and
    of no other, to the pointer's percentage cut to ten and ninety; when the clamp
    does not cut it, the divider is redrawn no further than the pointer and short
    of it by no more than a percent of the container and a cell; and the same
    position again changes nothing. *)
Theorem a_dragged_divider_lands_under_the_pointer t rect pf fp f q a rc col row :
  laid_out t rect -> Forall (fun x => x = 0 \/ x = 1) q ->
  axis_at t q = Some a -> rect_at t rect q = Some rc -> 0 < across a rc ->
  start a rc <= pos a col row < start a rc + extent a rc ->
  let hits := snd (render_tiles t rect pf fp) in
  let (changed, layout) := drag_tile_divider hits (Splits t f) q col row in
  exists t', layout = Splits t' f /\ shape t' = shape t /\ (changed = false -> t' = t)
    /\ rect_at t' rect q = Some rc /\ ratio_at t' q = Some (dragged_ratio a rc col row)
    /\ (TILE_RATIO_MIN <= (pos a col row - start a rc) * 100 / extent a rc <= TILE_RATIO_MAX ->
        pos a col row - extent a rc / 100 - 1
        <= start a (divider_line a rc (dragged_ratio a rc col row)) <= pos a col row)
    /\ drag_tile_divider hits (Splits t' f) q col row = (false, Splits t' f).
Proof.
  intros Ht Hq Ha Hr Hc Hpos hits.
  destruct (axis_ratio _ _ _ Ha) as (node & old & En & Er & Ero).
  destruct (laid_out_at _ _ _ _ _ Ht En Hr) as [(Hs & _ & _) Hw].
  set (pct := (pos a col row - start a rc) * 100 / extent a rc).
  assert (dragged_ratio a rc col row = clamp TILE_RATIO_MIN TILE_RATIO_MAX pct) as Hd by done.
  assert (forall t0, drag_tile_divider hits (Splits t0 f) q col row
    = let (changed, t') := set_ratio_at t0 q pct in (changed, Splits t' f)) as Hdrag
    by (intros t0; by apply (drag_eq t rect pf fp f t0 q a rc)).
  destruct (set_ratio_result t rect q node old rc pct En Er Hr) as (t' & E & Hsh & Hsame & Hr' & Hn').
  rewrite Hdrag, E. exists t'. rewrite Hd. split_and!; try done.
  - intros Hch. apply Hsame. by destruct (old =? _).
  - unfold ratio_at. rewrite Hn'. by destruct node.
  - intros Hin. rewrite clamp_id by done.
    rewrite (divider_line_start rect) by (done || lia || (unfold TILE_RATIO_MIN in Hin; fold pct; lia)).
    destruct Hs as (? & ? & ? & ? & ? & ?).
    pose proof (first_span_follows (extent a rc) (pos a col row - start a rc)) as Hf. fold pct in Hf.
    specialize (Hf ltac:(destruct a; simpl in *; lia) ltac:(lia) Hin). lia.
  - rewrite Hdrag, set_ratio_at_eq, Hn'.
    assert (forall c, ratio_of (with_ratio node c) = Some c) as -> by (by destruct node).
    cbv zeta. by rewrite Z.eqb_refl.
Qed.

Lemma a_dragged_divider_lands_under_the_pointer_witness :
  let t := HSplit (Leaf 1) (VSplit (Leaf 2) (Leaf 3) 50) 50 in
  let rect := mkRect 2 1 80 24 in
  exists t', drag_tile_divider (snd (render_tiles t rect true [0])) (Splits t [0]) [] 61 5 = (true, Splits t' [0])
    /\ ratio_at t' [] = Some 73 /\ 60 <= start Horizontal (divider_line Horizontal rect 73) <= 61.
Proof.
  intros t rect.
  pose proof (a_dragged_divider_lands_under_the_pointer t rect true [0] [0] [] Horizontal rect 61 5
    ltac:(split; [unfold on_screen, u16_max; simpl; lia|split; [simpl; unfold u8_max; lia|reflexivity]])
    ltac:(constructor) eq_refl eq_refl ltac:(simpl; lia) ltac:(simpl; lia)) as H.
  assert (drag_tile_divider (snd (render_tiles t rect true [0])) (Splits t [0]) [] 61 5
    = (true, Splits (HSplit (Leaf 1) (VSplit (Leaf 2) (Leaf 3) 50) 73) [0])) as E by reflexivity.
  cbv zeta in H. rewrite E in H. destruct H as (t' & Hl & _ & _ & _ & Hr & Hb & _).
  exists t'. rewrite <- Hl. split; [exact E|]. split; [exact Hr|].
  assert (dragged_ratio Horizontal rect 61 5 = 73) as E73 by reflexivity. rewrite E73 in Hb.
  split; [|apply Hb; vm_compute; split; discriminate].
  refine (Z.le_trans _ _ _ _ (proj1 (Hb _))); vm_compute; try split; discriminate.
Defined.
