(* ===== verification/TileSession.v ===== *)
(** * The terminals of a session ([src/crates/tui/src/components/terminal_stack.rs])

    [TerminalStack] as far as its layout goes: the terminals it knows, the session
    on screen, the tabs or the tile tree, the focus, the split that is waiting for
    its shell, the tree stashed while the session shows tabs.  Each method is a
    function from the state to the state, with the commands it pushes; the memo of
    the visible terminals, the parser and the scrollback of a slot and what is drawn
    are left out.

    [layout_wf] is the type of a layout, [step] the methods as one transition.  The
    theorems: every step keeps the type, but for one that the code can take; what
    closing does to the focus; tabs to tiles and back; where a spawn lands. *)

From Stdlib Require Import String.
From S2P Require Import Prelude Tiles TileRender.

#[global] Open Scope Z_scope.

(** Of an exit, without the output captured last; of a slot, without what renders it. *)
Record TerminalExit : Type := mkExit { code : option Z; died_on_arrival : bool }.

Record TerminalSlot : Type := mkSlot {
  session_key : string;
  is_agent : bool;                    (* [kind] is [TerminalKind::Agent] *)
  exited : option TerminalExit;
  auth_recovery_id : option Z;
  resume_in_flight : bool;
  did_work : bool;
  spawned_at : Z;
}.

(** [Vertical] draws a vertical divider, so it makes an [HSplit]. *)
Inductive PendingSplit : Type := PVertical | PHorizontal.

Inductive NewTerminalLayout : Type := NewTabs | NewSplit.

Inductive Command : Type :=
| CSpawn (session : string)
| CClose (terminal_id : Z)
| CSetSessionLayout (session : string) (layout : SessionLayout).

Record TerminalStack : Type := mkStack {
  terminals : gmap Z TerminalSlot;
  active_session : option string;
  layout : SessionLayout;
  active_tab_idx : nat;
  zoomed : bool;
  pending_split : option (PendingSplit * Z);
  stashed_splits_tree : option TileTree;
  terminal_new_layout : NewTerminalLayout;
  synced_layout : option SessionLayout;
  last_focused : gmap string Z;
  closing : gset Z;
  abandoned_resumes : gset Z;
  collapsed : bool;
  collapse_user_set : bool;
  dead_on_arrival : Z;
}.

Definition PENDING_SPLIT_WINDOW : Z := 10 * 10 ^ 9.

Definition set_terminals v s := mkStack v (active_session s) (layout s) (active_tab_idx s) (zoomed s)
  (pending_split s) (stashed_splits_tree s) (terminal_new_layout s) (synced_layout s) (last_focused s)
  (closing s) (abandoned_resumes s) (collapsed s) (collapse_user_set s) (dead_on_arrival s).
Definition put_session v s := mkStack (terminals s) v (layout s) (active_tab_idx s) (zoomed s)
  (pending_split s) (stashed_splits_tree s) (terminal_new_layout s) (synced_layout s) (last_focused s)
  (closing s) (abandoned_resumes s) (collapsed s) (collapse_user_set s) (dead_on_arrival s).
Definition put_layout v s := mkStack (terminals s) (active_session s) v (active_tab_idx s) (zoomed s)
  (pending_split s) (stashed_splits_tree s) (terminal_new_layout s) (synced_layout s) (last_focused s)
  (closing s) (abandoned_resumes s) (collapsed s) (collapse_user_set s) (dead_on_arrival s).
Definition put_tab v s := mkStack (terminals s) (active_session s) (layout s) v (zoomed s)
  (pending_split s) (stashed_splits_tree s) (terminal_new_layout s) (synced_layout s) (last_focused s)
  (closing s) (abandoned_resumes s) (collapsed s) (collapse_user_set s) (dead_on_arrival s).
Definition put_zoomed v s := mkStack (terminals s) (active_session s) (layout s) (active_tab_idx s) v
  (pending_split s) (stashed_splits_tree s) (terminal_new_layout s) (synced_layout s) (last_focused s)
  (closing s) (abandoned_resumes s) (collapsed s) (collapse_user_set s) (dead_on_arrival s).
Definition put_pending v s := mkStack (terminals s) (active_session s) (layout s) (active_tab_idx s) (zoomed s)
  v (stashed_splits_tree s) (terminal_new_layout s) (synced_layout s) (last_focused s)
  (closing s) (abandoned_resumes s) (collapsed s) (collapse_user_set s) (dead_on_arrival s).
Definition put_stashed v s := mkStack (terminals s) (active_session s) (layout s) (active_tab_idx s) (zoomed s)
  (pending_split s) v (terminal_new_layout s) (synced_layout s) (last_focused s)
  (closing s) (abandoned_resumes s) (collapsed s) (collapse_user_set s) (dead_on_arrival s).
Definition put_new_layout v s := mkStack (terminals s) (active_session s) (layout s) (active_tab_idx s) (zoomed s)
  (pending_split s) (stashed_splits_tree s) v (synced_layout s) (last_focused s)
  (closing s) (abandoned_resumes s) (collapsed s) (collapse_user_set s) (dead_on_arrival s).
Definition put_synced v s := mkStack (terminals s) (active_session s) (layout s) (active_tab_idx s) (zoomed s)
  (pending_split s) (stashed_splits_tree s) (terminal_new_layout s) v (last_focused s)
  (closing s) (abandoned_resumes s) (collapsed s) (collapse_user_set s) (dead_on_arrival s).
Definition put_last_focused v s := mkStack (terminals s) (active_session s) (layout s) (active_tab_idx s) (zoomed s)
  (pending_split s) (stashed_splits_tree s) (terminal_new_layout s) (synced_layout s) v
  (closing s) (abandoned_resumes s) (collapsed s) (collapse_user_set s) (dead_on_arrival s).
Definition put_closing v s := mkStack (terminals s) (active_session s) (layout s) (active_tab_idx s) (zoomed s)
  (pending_split s) (stashed_splits_tree s) (terminal_new_layout s) (synced_layout s) (last_focused s)
  v (abandoned_resumes s) (collapsed s) (collapse_user_set s) (dead_on_arrival s).
Definition put_abandoned v s := mkStack (terminals s) (active_session s) (layout s) (active_tab_idx s) (zoomed s)
  (pending_split s) (stashed_splits_tree s) (terminal_new_layout s) (synced_layout s) (last_focused s)
  (closing s) v (collapsed s) (collapse_user_set s) (dead_on_arrival s).
Definition put_collapsed c u s := mkStack (terminals s) (active_session s) (layout s) (active_tab_idx s) (zoomed s)
  (pending_split s) (stashed_splits_tree s) (terminal_new_layout s) (synced_layout s) (last_focused s)
  (closing s) (abandoned_resumes s) c u (dead_on_arrival s).

(** ** What is on screen *)

(** Agents first, then by id. *)
Definition tab_le (ts : gmap Z TerminalSlot) (a b : Z) : Prop :=
  let agent i := match ts !! i with Some slot => is_agent slot | None => false end in
  if agent a then (if agent b then a <= b else True) else if agent b then False else a <= b.

#[export] Instance tab_le_dec ts a b : Decision (tab_le ts a b).
Proof. unfold tab_le. repeat destruct (match ts !! _ with Some _ => _ | None => _ end); apply _. Defined.

Definition visible_terminals (s : TerminalStack) : list Z :=
  match active_session s with
  | None => []
  | Some sk =>
      merge_sort (tab_le (terminals s))
        (map fst (filter (fun p => session_key p.2 = sk) (map_to_list (terminals s))))
  end.

Definition position (id : Z) (ids : list Z) : option nat := fst <$> list_find (fun i => i = id) ids.

Definition active_terminal_id (s : TerminalStack) : option Z := visible_terminals s !! active_tab_idx s.

Definition leaf_id (t : option TileTree) : option Z :=
  match t with Some (Leaf i) => Some i | _ => None end.

Definition focused_terminal_id (s : TerminalStack) : option Z :=
  match layout s with
  | Tabs _ => active_terminal_id s
  | Splits tree focused =>
      match leaf_id (subtree_at tree focused) with
      | Some id => Some id
      | None => head (leaves tree)
      end
  end.

Definition clamp_active_tab (s : TerminalStack) : TerminalStack :=
  let n := length (visible_terminals s) in
  if (n =? 0)%nat then put_tab 0%nat s
  else if (n <=? active_tab_idx s)%nat then put_tab (n - 1)%nat s else s.

Definition auto_collapse_on_emptiness (s : TerminalStack) : TerminalStack :=
  if collapse_user_set s then s
  else put_collapsed (match visible_terminals s with [] => true | _ => false end) (collapse_user_set s) s.

Definition set_collapsed (c : bool) (s : TerminalStack) : TerminalStack := put_collapsed c true s.

Definition persist_layout (s : TerminalStack) (cmds : list Command) : list Command :=
  match active_session s with
  | None => cmds
  | Some sk => cmds ++ [CSetSessionLayout sk (layout s)]
  end.

(** ** Focus *)

(** [None]: the terminal is not visible; else whether the layout changed. *)
Definition set_terminal_focus (s : TerminalStack) (target : Z) : option (bool * TerminalStack) :=
  idx ← position target (visible_terminals s);
  '(changed, s) ← match layout s with
                  | Tabs active => Some (negb (active =? idx)%nat, put_layout (Tabs idx) s)
                  | Splits tree focused =>
                      path ← path_to tree target;
                      Some (bool_decide (focused <> path), put_layout (Splits tree path) s)
                  end;
  Some (changed : bool, set_collapsed false (put_tab idx s)).

Definition focus_terminal (s : TerminalStack) (target : Z) : bool * TerminalStack :=
  match set_terminal_focus s target with Some (_, s) => (true, s) | None => (false, s) end.

Definition focus_tile (s : TerminalStack) (target : Z) (cmds : list Command) : bool * TerminalStack * list Command :=
  match set_terminal_focus s target with
  | None => (false, s, cmds)
  | Some (layout_changed, s) => (true, s, if layout_changed : bool then persist_layout s cmds else cmds)
  end.

Definition move_tile_focus (s : TerminalStack) (dir : TileDirection) (cmds : list Command)
    : TerminalStack * list Command :=
  let s := put_zoomed false s in
  let n := length (visible_terminals s) in
  match layout s with
  | Tabs active =>
      if (n =? 0)%nat then (s, cmds) else
      let active := match dir with
                    | Left => if (active =? 0)%nat then (n - 1)%nat else (active - 1)%nat
                    | Right => ((active + 1) mod n)%nat
                    | _ => active
                    end in
      let s := put_tab active (put_layout (Tabs active) s) in
      (s, persist_layout s cmds)
  | Splits tree focused =>
      let s := match neighbor tree focused dir with
               | Some new_path => put_layout (Splits tree new_path) s
               | None => s
               end in
      (s, persist_layout s cmds)
  end.

Definition toggle_zoom (s : TerminalStack) : option bool * TerminalStack :=
  let multi := match layout s with Splits tree _ => (2 <=? length (leaves tree))%nat | Tabs _ => false end in
  if negb multi then (None, put_zoomed false s)
  else let z := negb (zoomed s) in (Some z, put_zoomed z s).

Definition set_layout (s : TerminalStack) (l : SessionLayout) : TerminalStack :=
  if decide (synced_layout s = Some l) then s else
  let s := put_synced (Some l) s in
  if decide (layout s = l) then s else put_zoomed false (put_pending None (put_layout l s)).

Definition set_active_session (s : TerminalStack) (session : option string) : TerminalStack :=
  if decide (active_session s = session) then s else
  let focused := focused_terminal_id s in
  let prev := active_session s in
  let s := put_session session s in
  let s := match prev, focused with
           | Some prev, Some focused => put_last_focused (<[prev := focused]> (last_focused s)) s
           | _, _ => s
           end in
  let s := put_tab (default 0%nat
             (sk ← active_session s;
              id ← last_focused s !! sk;
              position id (visible_terminals s))) s in
  let s := put_collapsed (collapsed s) false s in
  let s := put_synced None s in
  let s := put_zoomed false s in
  auto_collapse_on_emptiness s.

(** The label of the divider moved. *)
Definition resize_focused_divider (s : TerminalStack) (dir : TileDirection) (step : Z) (cmds : list Command)
    : option TileAxis * TerminalStack * list Command :=
  match layout s with
  | Tabs _ => (None, s, cmds)
  | Splits tree focused =>
      match resize_toward tree focused dir step with
      | (None, tree) => (None, put_layout (Splits tree focused) s, cmds)
      | (Some moved, tree) =>
          let s := put_layout (Splits tree focused) s in
          match axis_at tree moved with
          | None => (None, s, cmds)
          | Some axis => (Some axis, s, persist_layout s cmds)
          end
      end
  end.

(** [drag_tile_divider] against the dividers of the last frame. *)
Definition drag_divider (s : TerminalStack) (hits : list TileDividerHit) (path : list Z) (col row : Z)
    : bool * TerminalStack :=
  let (changed, l) := drag_tile_divider hits (layout s) path col row in (changed, put_layout l s).

(** ** Splitting *)

Definition auto_split_on_spawn (s : TerminalStack) : bool :=
  match terminal_new_layout s with
  | NewSplit => true
  | NewTabs => match layout s with Splits _ _ => true | Tabs _ => false end
  end.

Definition commit_pending_split (s : TerminalStack) (new_id : Z) (direction : PendingSplit) : TerminalStack :=
  match (match layout s with
         | Splits tree focused => Some (tree, focused)
         | Tabs _ => current_id ← active_terminal_id s; Some (Leaf current_id, [])
         end) with
  | None => s
  | Some (tree, focused_path) =>
      match subtree_at tree focused_path with
      | None => s
      | Some existing =>
          let new_split := match direction with
                           | PVertical => HSplit existing (Leaf new_id) 50
                           | PHorizontal => VSplit existing (Leaf new_id) 50
                           end in
          put_layout (Splits (replace_at tree focused_path new_split).2 (focused_path ++ [1])) s
      end
  end.

Definition split_tile (s : TerminalStack) (direction : PendingSplit) (now : Z) (cmds : list Command)
    : TerminalStack * list Command :=
  match active_session s with
  | None => (s, cmds)
  | Some session_key => (put_pending (Some (direction, now)) (put_zoomed false s), cmds ++ [CSpawn session_key])
  end.

(** The arm of [on_event] for [TerminalSpawned], with the slot it makes; the visible
    terminals are those it counts, the ones of the active session. *)
Definition terminal_spawned (s : TerminalStack) (terminal_id : Z) (slot : TerminalSlot) (now : Z) : TerminalStack :=
  let here s := bool_decide (Some (session_key slot) = active_session s) in
  let s := set_terminals (<[terminal_id := slot]> (terminals s)) s in
  let s := if here s then put_collapsed false true s else s in
  let (pending, s) :=
    if here s
    then (match pending_split s with
          | Some (direction, at_) => if now -sat at_ <=? PENDING_SPLIT_WINDOW then Some direction else None
          | None => None
          end, put_pending None s)
    else (None, s) in
  match pending with
  | Some direction => commit_pending_split s terminal_id direction
  | None =>
      if here s then
        let session_count := length (visible_terminals s) in
        if (2 <=? session_count)%nat && auto_split_on_spawn s
        then commit_pending_split s terminal_id PVertical
        else match position terminal_id (visible_terminals s) with
             | Some idx => put_tab idx s
             | None => s
             end
      else s
  end.

(** ** Closing *)

(** A focus that names no leaf goes to the first one. *)
Definition normalize_focus (tree : TileTree) (focused : list Z) : list Z :=
  match leaf_id (subtree_at tree focused) with
  | Some _ => focused
  | None => match head (leaves tree) with
            | Some first => default focused (path_to tree first)
            | None => focused
            end
  end.

(** The layout part of [drop_slot]: prune the leaf, normalize the focus, and a single
    leaf goes back to tabs. *)
Definition prune_layout (tree : TileTree) (focused : list Z) (terminal_id : Z) : SessionLayout :=
  let l := match path_to tree terminal_id with
           | None => Splits tree focused
           | Some path => match remove_at tree path with
                          | (inr new_focus, tree) => Splits tree new_focus
                          | (inl _, _) => Tabs 0
                          end
           end in
  let l := match l with Splits tree focused => Splits tree (normalize_focus tree focused) | Tabs _ => l end in
  match l with Splits (Leaf _) _ => Tabs 0 | _ => l end.

Definition restore_focus (s : TerminalStack) (id : Z) : TerminalStack :=
  match position id (visible_terminals s) with
  | None => s
  | Some index =>
      let s := put_tab index s in
      match layout s with
      | Tabs _ => put_layout (Tabs index) s
      | Splits tree _ => match path_to tree id with Some path => put_layout (Splits tree path) s | None => s end
      end
  end.

Definition drop_slot (s : TerminalStack) (terminal_id : Z) : TerminalStack :=
  let keep_focus := match focused_terminal_id s with
                    | Some id => if id =? terminal_id then None else Some id
                    | None => None
                    end in
  let s := match layout s with
           | Splits tree _ => match path_to tree terminal_id with
                              | Some _ => if zoomed s then put_zoomed false s else s
                              | None => s
                              end
           | Tabs _ => s
           end in
  let s := set_terminals (delete terminal_id (terminals s)) s in
  let s := match layout s with
           | Splits tree focused => put_layout (prune_layout tree focused terminal_id) s
           | Tabs _ => s
           end in
  let s := clamp_active_tab s in
  let s := match keep_focus with Some id => restore_focus s id | None => s end in
  auto_collapse_on_emptiness s.

(** [true]: nothing lives behind the terminal, the caller drops the slot. *)
Definition queue_terminal_teardown (s : TerminalStack) (id : Z) (cmds : list Command)
    : bool * TerminalStack * list Command :=
  let inert := match terminals s !! id with
               | Some slot => match exited slot, auth_recovery_id slot with Some _, None => true | _, _ => false end
               | None => false
               end in
  let resuming := match terminals s !! id with Some slot => resume_in_flight slot | None => false end in
  let s := if resuming then put_abandoned ({[id]} ∪ abandoned_resumes s) s else s in
  if inert then (true, s, cmds)
  else (false, put_closing ({[id]} ∪ closing s) s, cmds ++ [CClose id]).

Inductive CloseOutcome : Type := Unknown | Retried | Removed | Requested.

Definition close_terminal (s : TerminalStack) (id : Z) (cmds : list Command)
    : CloseOutcome * TerminalStack * list Command :=
  match terminals s !! id with
  | None => (Unknown, s, cmds)
  | Some _ =>
      if bool_decide (id ∈ closing s) then (Retried, s, cmds ++ [CClose id]) else
      let '(inert, s, cmds) := queue_terminal_teardown s id cmds in
      if inert then let s := drop_slot s id in (Removed, s, persist_layout s cmds)
      else (Requested, s, cmds)
  end.

Definition close_focused_tile (s : TerminalStack) (cmds : list Command) : TerminalStack * list Command :=
  let s := put_zoomed false s in
  match layout s with
  | Tabs _ =>
      match active_terminal_id s with
      | None => (s, cmds)
      | Some id =>
          let '(inert, s, cmds) := queue_terminal_teardown s id cmds in
          (if inert then drop_slot s id else s, cmds)
      end
  | Splits tree focused =>
      let focused := normalize_focus tree focused in
      let target_id := leaf_id (subtree_at tree focused) in
      match remove_at tree focused with
      | (inl _, tree) => (put_layout (Splits tree focused) s, cmds)
      | (inr _, tree) =>
          let focused := match head (leaves tree) with
                         | Some first => default [] (path_to tree first)
                         | None => []
                         end in
          let s := put_layout (Splits tree focused) s in
          let s := if (length (leaves tree) <=? 1)%nat then put_tab 0%nat (put_layout (Tabs 0) s) else s in
          let '(s, cmds) :=
            match target_id with
            | None => (s, cmds)
            | Some id =>
                let '(inert, s, cmds) := queue_terminal_teardown s id cmds in
                (if inert then set_terminals (delete id (terminals s)) s else s, cmds)
            end in
          (s, persist_layout s cmds)
      end
  end.

Definition agent_exit_is_clean (s : TerminalStack) (id : Z) (exit_code : option Z) (now : Z) : bool :=
  if decide (exit_code = Some 0) then
    match terminals s !! id with
    | Some slot => did_work slot || (dead_on_arrival s <=? now -sat spawned_at slot)
    | None => false
    end
  else false.

(** The arm of [on_event] for [TerminalExited], but for the parser it gives back. *)
Definition terminal_exited (s : TerminalStack) (id : Z) (exit_code : option Z) (now : Z) : TerminalStack :=
  let user_closed := bool_decide (id ∈ closing s) in
  let s := put_closing (closing s ∖ {[id]}) s in
  let agent := match terminals s !! id with Some slot => is_agent slot | None => false end in
  if agent && negb user_closed && negb (agent_exit_is_clean s id exit_code now) then
    match terminals s !! id with
    | Some slot =>
        let doa := bool_decide (exit_code = Some 0) && negb (did_work slot)
                   && (now -sat spawned_at slot <? dead_on_arrival s) in
        set_terminals (<[id := mkSlot (session_key slot) (is_agent slot) (Some (mkExit exit_code doa))
          (auth_recovery_id slot) (resume_in_flight slot) (did_work slot) (spawned_at slot)]> (terminals s)) s
    | None => s
    end
  else drop_slot s id.

(** ** Tabs and tiles *)

Definition same_terminal_set (a b : list Z) : bool :=
  if (length a =? length b)%nat then bool_decide (merge_sort Z.le a = merge_sort Z.le b) else false.

Definition toggle_session_layout (s : TerminalStack) (cmds : list Command)
    : option NewTerminalLayout * TerminalStack * list Command :=
  let ids := visible_terminals s in
  match ids with
  | [] => (None, s, cmds)
  | _ =>
      let focused := focused_terminal_id s in
      let res :=
        match layout s with
        | Splits tree _ =>
            let order := leaves tree in
            let active := default 0%nat (id ← focused; position id order) in
            inr (NewTabs, put_layout (Tabs active) (put_stashed (Some tree) s))
        | Tabs _ =>
            let s' := put_stashed None s in
            match (match stashed_splits_tree s with
                   | Some stashed => if same_terminal_set (leaves stashed) ids then Some stashed else balanced ids
                   | None => balanced ids
                   end) with
            | None => inl s'
            | Some tree =>
                let focused_path := default [] (id ← focused; path_to tree id) in
                inr (NewSplit, put_layout (Splits tree focused_path) s')
            end
        end in
      match res with
      | inl s => (None, s, cmds)
      | inr (now, s) =>
          let s := put_new_layout now s in
          let s := match focused with Some id => snd (focus_terminal s id) | None => s end in
          (Some now, s, persist_layout s cmds)
      end
  end.
