(* ===== verification/TileSessionProps.v ===== *)
(** * What the layout of a session keeps

    The theorems of [TileSession]: the type of a layout is an invariant of the
    methods ([step]), closing an unfocused tile leaves the focus alone, toggling
    between tabs and tiles loses nothing, a spawn takes the focus; and the two
    cases in which the code does something else than it means to. *)

From Stdlib Require Import String.
From S2P Require Import Prelude Tiles TileRender TileSession.

#[global] Open Scope Z_scope.

(** ** Well-formed layouts *)

Definition binary (p : list Z) : Prop := Forall (fun x => x = 0 \/ x = 1) p.

Definition leaf_focus (tree : TileTree) (focused : list Z) : Prop :=
  binary focused /\ exists i, subtree_at tree focused = Some (Leaf i).

Definition layout_wf (l : SessionLayout) : Prop :=
  match l with
  | Tabs _ => True
  | Splits tree focused => NoDup (leaves tree) /\ ratios_ok tree /\ leaf_focus tree focused
  end.

(** A terminal shows up at most once, every ratio is one a divider may have, the focus
    is on a tile; and the stashed tree is one to come back to. *)
Definition state_wf (s : TerminalStack) : Prop :=
  layout_wf (layout s) /\ forall t, stashed_splits_tree s = Some t -> ratios_ok t.

Lemma path_to_focus tree id p : path_to tree id = Some p -> leaf_focus tree p /\ subtree_at tree p = Some (Leaf id).
Proof. intros (Hs & _ & Hb)%path_to_Some. split; [split; [done|by exists id]|done]. Qed.

Lemma first_leaf tree : exists first p, head (leaves tree) = Some first /\ path_to tree first = Some p.
Proof.
  destruct (leaves tree) as [|first ls] eqn:E; [by apply leaves_not_nil in E|].
  destruct (path_to_elem tree first) as [p Hp]; [rewrite E; by left|]. by exists first, p.
Qed.

Lemma normalize_focus_leaf tree f : binary f -> leaf_focus tree (normalize_focus tree f).
Proof.
  intros Hb. unfold normalize_focus. destruct (leaf_id (subtree_at tree f)) as [i|] eqn:E.
  - split; [done|]. unfold leaf_id in E. destruct (subtree_at tree f) as [[]|]; try done. by eexists.
  - destruct (first_leaf tree) as (first & p & -> & Hp). rewrite Hp. by apply path_to_focus in Hp as [].
Qed.

Lemma filter_not_in (i : Z) (l : list Z) : i ∉ l -> filter (fun j => j <> i) l = l.
Proof.
  induction l as [|y l IH]; [done|]. intros [Hy Hni]%not_elem_of_cons.
  rewrite filter_cons_True by congruence. by rewrite IH.
Qed.

(** Removing the tile at a path takes its terminal out of the leaves, and nothing else. *)
Lemma remove_leaf tree p i :
  NoDup (leaves tree) -> subtree_at tree p = Some (Leaf i) ->
  (p = [] /\ tree = Leaf i)
  \/ exists q x tree', p = q ++ [x] /\ remove_at tree p = (inr q, tree')
       /\ leaves tree' = filter (fun j => j <> i) (leaves tree) /\ (ratios_ok tree -> ratios_ok tree').
Proof.
  intros Hnd Hp. destruct p as [|x q _] using rev_ind; [left; split; [done|by injection Hp]|right].
  destruct (subtree_parent _ _ _ _ Hp) as (node & l & r & Hn & Hc & Hi).
  destruct (remove_at_spec tree q x node l r Hn Hc) as (tree' & E & Hl & _ & Ht).
  exists q, x, tree'. split_and!; [done|done| |].
  - rewrite Hl. pose proof (leaves_split _ _ _ Hp) as Hsp. rewrite leaves_Leaf in Hsp.
    rewrite Hsp in Hnd |- *. apply NoDup_app in Hnd as (Hb & Hd & Ha). apply NoDup_app in Ha as (_ & Hd' & Ha).
    assert (i ∉ before tree (q ++ [x])) as Hb' by (intros H; apply (Hd i H); apply elem_of_app; left; by left).
    assert (i ∉ after tree (q ++ [x])) as Ha' by (apply Hd'; by left).
    rewrite !filter_app, (filter_cons_False _ i []), filter_nil by tauto.
    by rewrite (filter_not_in i _ Hb'), (filter_not_in i _ Ha').
  - intros Hr. rewrite Ht. apply ratios_ok_replace; [done|].
    pose proof (ratios_ok_subtree _ _ _ Hr Hn) as Hrn.
    destruct node as [|l' r' ra|l' r' ra]; [done| |]; injection Hc as -> ->;
      destruct Hrn as (_ & ? & ?); by destruct (x =? 0).
Qed.

Lemma binary_app p q : binary (p ++ q) <-> binary p /\ binary q.
Proof. apply Forall_app. Qed.

(** ** Each method keeps the type *)

(** Pruning a terminal leaves its split's other side; one tile left goes to tabs. *)
Lemma prune_layout_spec tree f id :
  layout_wf (Splits tree f) ->
  let rest := filter (fun j => j <> id) (leaves tree) in
  (prune_layout tree f id = Tabs 0 /\ (length rest <= 1)%nat)
  \/ exists t' f', prune_layout tree f id = Splits t' f' /\ leaves t' = rest /\ layout_wf (Splits t' f')
       /\ is_leaf t' = false.
Proof.
  intros (Hnd & Hr & Hb & Hf) rest. unfold prune_layout.
  assert (forall t' f', leaves t' = rest -> ratios_ok t' -> binary f' ->
    let l := match t' with Leaf _ => Tabs 0 | _ => Splits t' (normalize_focus t' f') end in
    (l = Tabs 0 /\ (length rest <= 1)%nat)
    \/ exists t' f', l = Splits t' f' /\ leaves t' = rest /\ layout_wf (Splits t' f') /\ is_leaf t' = false)
    as Hfin.
  { intros t' f' Hl Hr' Hb'.
    assert (layout_wf (Splits t' (normalize_focus t' f'))) as Hwf.
    { split_and!; [|done|by apply normalize_focus_leaf..]. rewrite Hl. by apply NoDup_filter. }
    destruct t' as [j|l r ra|l r ra]; [left; by rewrite <- Hl|right|right];
      (eexists _, _; split; [reflexivity|done]). }
  destruct (path_to tree id) as [path|] eqn:E.
  - destruct (path_to_focus _ _ _ E) as [[Hpb _] Hp].
    destruct (remove_leaf tree path id Hnd Hp) as [[-> ->]|(q & x & t' & -> & -> & Hl & Hr')].
    + left. split; [done|]. unfold rest. rewrite leaves_Leaf, filter_cons_False by tauto. simpl. lia.
    + apply binary_app in Hpb as [Hq _]. by apply Hfin; [|apply Hr'|].
  - apply Hfin; try done. symmetry. apply filter_not_in. by apply path_to_None.
Qed.

Lemma prune_layout_wf tree f id : layout_wf (Splits tree f) -> layout_wf (prune_layout tree f id).
Proof.
  intros H. destruct (prune_layout_spec tree f id H) as [[-> _]|(t' & f' & -> & _ & Hwf & _)]; done.
Qed.

Lemma layout_wf_shape t t' f :
  shape t' = shape t -> ratios_ok t' -> layout_wf (Splits t f) -> layout_wf (Splits t' f).
Proof.
  intros Hs Hr (Hnd & _ & Hb & i & Hi). split; [|split; [done|split; [done|exists i]]].
  { by rewrite <- shape_leaves, Hs, shape_leaves. }
   pose proof (subtree_shape t' f) as H. rewrite Hs, subtree_shape, Hi in H. simpl in H.
    destruct (subtree_at t' f) as [x|]; [|done]. simpl in H. injection H as H. f_equal.
    by apply shape_Leaf.
Qed.

Lemma neighbor_wf t p dir n : leaf_focus t p -> neighbor t p dir = Some n -> leaf_focus t n.
Proof.
  intros (Hb & i & Hi) E. pose proof (neighbor_spec t p dir _ Hi) as H. rewrite E in H.
  destruct H as (j & k & i' & _ & _ & _ & _ & -> & Hl). split; [|by exists i'].
  apply binary_app. split; [by apply Forall_take|].
  constructor; [destruct (wants_first dir); auto|apply zeros_steps].
Qed.

Lemma commit_pending_split_wf s new d :
  layout_wf (layout s) ->
  match layout s with
  | Splits t _ => new ∉ leaves t
  | Tabs _ => active_terminal_id s <> Some new
  end ->
  layout_wf (layout (commit_pending_split s new d)).
Proof.
  intros Hwf Hnew. unfold commit_pending_split.
  set (base := match layout s with Splits tree focused => Some (tree, focused) | Tabs _ => _ end).
  assert (forall t f, base = Some (t, f) -> layout_wf (Splits t f) /\ new ∉ leaves t) as Hbase.
  { unfold base. destruct (layout s) as [a|t f]; [|by intros t' f' [= <- <-]].
    destruct (active_terminal_id s) as [id|]; [|done]. intros t f [= <- <-]. split.
    - split; [apply NoDup_singleton|]. split; [done|]. split; [constructor|by exists id].
    - rewrite leaves_Leaf, list_elem_of_singleton. congruence. }
  destruct base as [[t f]|]; [|done]. destruct (Hbase t f eq_refl) as [(Hnd & Hr & Hb & i & Hi) Hni].
  rewrite Hi. set (new_split := match d with PVertical => _ | PHorizontal => _ end).
  assert (leaves new_split = [i; new]) as Hls by (by destruct d).
  assert (subtree_at new_split [1] = Some (Leaf new)) as Hnew' by (by destruct d).
  destruct (replace_at_spec t f new_split _ Hi) as (t' & Et & Hl & Hq & _). rewrite Et. simpl. split_and!.
  - rewrite Hl, Hls. pose proof (leaves_split _ _ _ Hi) as Hsp. rewrite leaves_Leaf in Hsp.
    assert (before t f ++ [i; new] ++ after t f ≡ₚ new :: leaves t) as ->
      by (rewrite Hsp; solve_Permutation).
    by constructor.
  - replace t' with (replace_at t f new_split).2 by (by rewrite Et). apply ratios_ok_replace; [done|].
    destruct d; simpl; unfold TILE_RATIO_MIN, TILE_RATIO_MAX; lia.
  - split; [|exists new; by rewrite Hq].
    apply binary_app. split; [done|]. constructor; [by right|constructor].
Qed.

(** ** The terminals on screen *)

Lemma visible_terminals_elem s id :
  id ∈ visible_terminals s <-> exists slot, terminals s !! id = Some slot /\ active_session s = Some (session_key slot).
Proof.
  unfold visible_terminals. destruct (active_session s) as [sk|].
  - rewrite merge_sort_Permutation, list_elem_of_In, in_map_iff. split.
    + intros ([i slot] & <- & H). apply list_elem_of_In, list_elem_of_filter in H as [Hk H].
      apply elem_of_map_to_list in H. exists slot. simpl in *. by rewrite Hk.
    + intros (slot & H & [= ->]). exists (id, slot). split; [done|].
      apply list_elem_of_In, list_elem_of_filter. split; [done|]. by apply elem_of_map_to_list.
  - split; [intros H; by apply elem_of_nil in H|by intros (? & _ & ?)].
Qed.

Lemma visible_terminals_NoDup s : NoDup (visible_terminals s).
Proof.
  unfold visible_terminals. destruct (active_session s) as [sk|]; [|constructor].
  rewrite merge_sort_Permutation. apply NoDup_fmap_fst.
  - intros i x y [_ Hx%elem_of_map_to_list]%list_elem_of_filter [_ Hy%elem_of_map_to_list]%list_elem_of_filter.
    congruence.
  - apply NoDup_filter, NoDup_map_to_list.
Qed.

Lemma position_Some id ids n : position id ids = Some n -> ids !! n = Some id.
Proof.
  unfold position. destruct (list_find (fun i => i = id) ids) as [[m x]|] eqn:E; [|done].
  intros [= ->]. apply list_find_Some in E as (H & -> & _). done.
Qed.

Lemma position_elem id ids : id ∈ ids -> is_Some (position id ids).
Proof.
  intros H. unfold position. destruct (list_find (fun i => i = id) ids) as [[m x]|] eqn:E; [by eexists|].
  apply list_find_None in E. rewrite Forall_forall in E. by destruct (E id H).
Qed.

(** ** The methods as transitions *)

(** A spawn that does not show one terminal twice: it is not in the tree, and in tabs
    the tab it is split from is another one. *)
Definition spawn_ok (s : TerminalStack) (id : Z) (slot : TerminalSlot) : Prop :=
  match layout s with
  | Splits tree _ => id ∉ leaves tree
  | Tabs _ => active_terminal_id (set_terminals (<[id := slot]> (terminals s)) s) <> Some id
  end.

(** The active tab is one of those on screen. *)
Definition tab_in_range (s : TerminalStack) : Prop :=
  visible_terminals s <> [] -> (active_tab_idx s < length (visible_terminals s))%nat.

Inductive step (s : TerminalStack) : TerminalStack -> Prop :=
| step_focus target : step s (focus_terminal s target).2
| step_focus_tile target cmds : step s (focus_tile s target cmds).1.2
| step_move dir cmds : step s (move_tile_focus s dir cmds).1
| step_zoom : step s (toggle_zoom s).2
| step_layout l : layout_wf l -> step s (set_layout s l)
| step_session session : step s (set_active_session s session)
| step_resize dir n cmds : step s (resize_focused_divider s dir n cmds).1.2
| step_drag hits path col row : step s (drag_divider s hits path col row).2
| step_split d now cmds : step s (split_tile s d now cmds).1
| step_spawn id slot now : spawn_ok s id slot -> step s (terminal_spawned s id slot now)
| step_close id cmds : step s (close_terminal s id cmds).1.2
| step_close_focused cmds : step s (close_focused_tile s cmds).1
| step_exit id c now : step s (terminal_exited s id c now)
| step_toggle cmds : tab_in_range s -> step s (toggle_session_layout s cmds).1.2.

Lemma set_terminal_focus_wf s id changed s' :
  set_terminal_focus s id = Some (changed, s') -> state_wf s -> state_wf s'.
Proof.
  unfold set_terminal_focus. intros E [Hl Hst].
  destruct (position id (visible_terminals s)) as [idx|]; [|done]. simpl in E.
  destruct (layout s) as [a|t f]; simpl in E; [by injection E as _ <-|].
  destruct (path_to t id) as [p|] eqn:Ep; [|done]. injection E as _ <-.
  split; [|done]. destruct Hl as (Hnd & Hr & _). split_and!; [done|done|by apply path_to_focus in Ep as []].
Qed.

Lemma focus_terminal_wf s id : state_wf s -> state_wf (focus_terminal s id).2.
Proof.
  intros H. unfold focus_terminal. destruct (set_terminal_focus s id) as [[c s']|] eqn:E; [|done].
  by eapply set_terminal_focus_wf.
Qed.

Lemma auto_collapse_layout s : layout (auto_collapse_on_emptiness s) = layout s.
Proof. unfold auto_collapse_on_emptiness. by destruct (collapse_user_set s). Qed.

Lemma auto_collapse_stashed s : stashed_splits_tree (auto_collapse_on_emptiness s) = stashed_splits_tree s.
Proof. unfold auto_collapse_on_emptiness. by destruct (collapse_user_set s). Qed.

Lemma clamp_layout s : layout (clamp_active_tab s) = layout s
  /\ stashed_splits_tree (clamp_active_tab s) = stashed_splits_tree s.
Proof. unfold clamp_active_tab. by repeat case_match. Qed.

Lemma restore_focus_wf s id : state_wf s -> state_wf (restore_focus s id).
Proof.
  intros [Hl Hst]. unfold restore_focus. destruct (position id _) as [n|]; [|done].
  simpl. destruct (layout s) as [a|t f] eqn:E; [by split|].
  destruct (path_to t id) as [p|] eqn:Ep; [|by rewrite <- E in Hl; split].
  split; [|done]. destruct Hl as (Hnd & Hr & _). simpl. split_and!; [done|done|by apply path_to_focus in Ep as []].
Qed.

(** The stack as it is before [drop_slot] looks at the focus again. *)
Definition dropped (s : TerminalStack) (id : Z) : TerminalStack :=
  let s1 := match layout s with
            | Splits tree _ => match path_to tree id with
                               | Some _ => if zoomed s then put_zoomed false s else s
                               | None => s
                               end
            | Tabs _ => s
            end in
  let s2 := set_terminals (delete id (terminals s1)) s1 in
  match layout s2 with
  | Splits tree focused => put_layout (prune_layout tree focused id) s2
  | Tabs _ => s2
  end.

Lemma drop_slot_eq s id :
  drop_slot s id =
  let keep_focus := match focused_terminal_id s with
                    | Some f => if f =? id then None else Some f
                    | None => None
                    end in
  let s := clamp_active_tab (dropped s id) in
  auto_collapse_on_emptiness (match keep_focus with Some f => restore_focus s f | None => s end).
Proof. done. Qed.

Lemma dropped_fields s id :
  terminals (dropped s id) = delete id (terminals s) /\ active_session (dropped s id) = active_session s
  /\ stashed_splits_tree (dropped s id) = stashed_splits_tree s
  /\ layout (dropped s id) = match layout s with Splits t f => prune_layout t f id | Tabs a => Tabs a end.
Proof.
  unfold dropped. destruct (layout s) as [a|t f] eqn:E; [by simpl; rewrite E|].
  destruct (path_to t id), (zoomed s); simpl; rewrite E; done.
Qed.

Lemma drop_slot_wf s id : state_wf s -> state_wf (drop_slot s id).
Proof.
  intros [Hl Hst]. rewrite drop_slot_eq. cbv zeta.
  destruct (dropped_fields s id) as (_ & _ & Es & El).
  assert (state_wf (clamp_active_tab (dropped s id))) as Hd.
  { destruct (clamp_layout (dropped s id)) as [Ec Ec']. unfold state_wf. rewrite Ec, Ec', El, Es.
    split; [|done]. destruct (layout s); [done|]. by apply prune_layout_wf. }
  unfold state_wf at 1. rewrite auto_collapse_layout, auto_collapse_stashed.
  fold (state_wf (match match focused_terminal_id s with
    | Some f => if f =? id then None else Some f | None => None end with
    | Some f => restore_focus (clamp_active_tab (dropped s id)) f | None => clamp_active_tab (dropped s id) end)).
  destruct (focused_terminal_id s) as [f|]; [|done]. destruct (f =? id); [done|by apply restore_focus_wf].
Qed.

Lemma teardown_fields s id cmds inert s' cmds' :
  queue_terminal_teardown s id cmds = (inert, s', cmds') ->
  layout s' = layout s /\ stashed_splits_tree s' = stashed_splits_tree s /\ terminals s' = terminals s.
Proof.
  unfold queue_terminal_teardown. intros H. by repeat case_match; simplify_eq.
Qed.

Lemma teardown_wf s id cmds inert s' cmds' :
  queue_terminal_teardown s id cmds = (inert, s', cmds') -> state_wf s -> state_wf s'.
Proof. intros (El & Es & _)%teardown_fields. unfold state_wf. by rewrite El, Es. Qed.

Lemma remove_at_root (i : Z) : remove_at (Leaf i) [] = (inl CannotRemoveRoot, Leaf i).
Proof. done. Qed.

(** What closing the focused tile makes of the tree. *)
Lemma close_tree tree f :
  layout_wf (Splits tree f) ->
  exists i, leaf_id (subtree_at tree (normalize_focus tree f)) = Some i
    /\ ((tree = Leaf i /\ remove_at tree (normalize_focus tree f) = (inl CannotRemoveRoot, tree))
        \/ exists q t' first p, remove_at tree (normalize_focus tree f) = (inr q, t')
             /\ leaves t' = filter (fun j => j <> i) (leaves tree)
             /\ head (leaves t') = Some first /\ path_to t' first = Some p /\ layout_wf (Splits t' p)).
Proof.
  intros (Hnd & Hr & Hb & _). destruct (normalize_focus_leaf tree f Hb) as [_ (i & Hi)].
  exists i. rewrite Hi. split; [done|].
  destruct (remove_leaf tree _ i Hnd Hi) as [[-> ->]|(q & x & t' & _ & -> & Hl & Hr')]; [by left|right].
  destruct (first_leaf t') as (first & p & Hh & Hp). exists q, t', first, p. split_and!; try done.
  split; [rewrite Hl; by apply NoDup_filter|split; [by apply Hr'|by apply path_to_focus in Hp as []]].
Qed.

Lemma close_focused_tile_wf s cmds : state_wf s -> state_wf (close_focused_tile s cmds).1.
Proof.
  intros Hs. pose proof Hs as [Hl Hst]. unfold close_focused_tile. simpl.
  destruct (layout s) as [a|tree f] eqn:E.
  - destruct (active_terminal_id _) as [id|]; [|by split; simpl; rewrite ?E].
    assert (state_wf (put_zoomed false s)) as Hz by done.
    destruct (queue_terminal_teardown _ id cmds) as [[inert s'] cmds'] eqn:Et. simpl.
    apply teardown_wf in Et; [|done]. destruct inert; [by apply drop_slot_wf|done].
  - destruct (close_tree tree f Hl) as (i & Hi & Hcases).
    destruct Hcases as [[_ Erm]|(q & t' & first & p & Erm & _ & Hh & Hp & Hwf)]; rewrite Erm.
    + destruct Hl as (Hnd & Hr & Hb & Hf). split; [|done]. simpl.
      split_and!; [done|done|by apply normalize_focus_leaf].
    + rewrite Hh. rewrite Hi, Hp. cbn [default].
      set (s2 := if (length (leaves t') <=? 1)%nat then _ else _).
      assert (state_wf s2) as H2 by (unfold s2; destruct (_ <=? _)%nat; by split).
      destruct (queue_terminal_teardown s2 i cmds) as [[inert s'] cmds'] eqn:Et. simpl.
      apply teardown_wf in Et; [|done]. by destruct inert.
Qed.

Lemma same_terminal_set_perm a b : same_terminal_set a b = true -> a ≡ₚ b.
Proof.
  unfold same_terminal_set. destruct (_ =? _)%nat; [|done]. rewrite bool_decide_eq_true. intros H.
  by rewrite <- (merge_sort_Permutation Z.le a), H, merge_sort_Permutation.
Qed.

(** The tree that tabs turn into: the stashed one, if it still shows the same
    terminals, else a balanced one. *)
Definition tree_for (s : TerminalStack) : option TileTree :=
  match stashed_splits_tree s with
  | Some stashed => if same_terminal_set (leaves stashed) (visible_terminals s) then Some stashed
                    else balanced (visible_terminals s)
  | None => balanced (visible_terminals s)
  end.

Lemma balanced_some ids : ids <> [] -> exists t, balanced ids = Some t /\ leaves t = ids /\ ratios_ok t.
Proof.
  intros H. destruct (balanced_at_spec (length ids) ids 0 H (Nat.le_refl _)) as (t & E & L & R & _).
  by exists t.
Qed.

Lemma tree_for_spec s :
  (forall t, stashed_splits_tree s = Some t -> ratios_ok t) -> visible_terminals s <> [] ->
  exists t, tree_for s = Some t /\ leaves t ≡ₚ visible_terminals s /\ ratios_ok t.
Proof.
  intros Hst Hne. destruct (balanced_some _ Hne) as (b & Eb & Lb & Rb). unfold tree_for.
  destruct (stashed_splits_tree s) as [t|]; [|exists b; by rewrite Lb].
  destruct (same_terminal_set _ _) eqn:E; [|exists b; by rewrite Lb].
  exists t. apply same_terminal_set_perm in E. auto.
Qed.

Lemma toggle_eq s cmds :
  visible_terminals s <> [] ->
  toggle_session_layout s cmds =
  let focused := focused_terminal_id s in
  let res := match layout s with
             | Splits tree _ =>
                 inr (NewTabs, put_layout (Tabs (default 0%nat (id ← focused; position id (leaves tree))))
                                 (put_stashed (Some tree) s))
             | Tabs _ =>
                 match tree_for s with
                 | None => inl (put_stashed None s)
                 | Some tree => inr (NewSplit, put_layout (Splits tree (default [] (id ← focused; path_to tree id)))
                                                 (put_stashed None s))
                 end
             end in
  match res with
  | inl s => (None, s, cmds)
  | inr (now, s) =>
      let s := put_new_layout now s in
      let s := match focused with Some id => (focus_terminal s id).2 | None => s end in
      (Some now, s, persist_layout s cmds)
  end.
Proof. intros Hne. unfold toggle_session_layout, tree_for. by destruct (visible_terminals s). Qed.

Lemma focus_in_tree s t id :
  leaves t ≡ₚ visible_terminals s -> active_terminal_id s = Some id -> exists p, path_to t id = Some p.
Proof.
  intros Hp Ha. apply path_to_elem. rewrite Hp. by eapply list_elem_of_lookup_2.
Qed.

Lemma tab_in_range_active s :
  tab_in_range s -> visible_terminals s <> [] -> exists id, active_terminal_id s = Some id.
Proof. intros H Hne. unfold active_terminal_id. by apply lookup_lt_is_Some_2, H. Qed.

Lemma toggle_wf s cmds : tab_in_range s -> state_wf s -> state_wf (toggle_session_layout s cmds).1.2.
Proof.
  intros Hr [Hl Hst]. destruct (decide (visible_terminals s = [])) as [E|Hne].
  { unfold toggle_session_layout. by rewrite E. }
  rewrite (toggle_eq _ _ Hne). cbv zeta.
  assert (forall now s', state_wf s' ->
    state_wf (match focused_terminal_id s with
              | Some id => (focus_terminal (put_new_layout now s') id).2 | None => put_new_layout now s' end)) as Hfin.
  { intros now s' H'. destruct (focused_terminal_id s); [by apply focus_terminal_wf|done]. }
  destruct (layout s) as [a|tree f] eqn:E.
  - destruct (tree_for_spec s Hst Hne) as (t & Et & Hp & Hrt). rewrite Et. simpl.
    destruct (tab_in_range_active s Hr Hne) as [id Hid].
    apply Hfin. split; [|done]. unfold focused_terminal_id. rewrite E, Hid. simpl.
    destruct (focus_in_tree s t id Hp Hid) as [p Hpath]. rewrite Hpath. simpl. split_and!.
    + rewrite Hp. apply visible_terminals_NoDup.
    + done.
    + by apply path_to_focus in Hpath as [].
  - simpl. apply Hfin. split; [done|]. intros t [= <-]. by destruct Hl as (_ & ? & _).
Qed.

Lemma spawned_commit s id slot s1 :
  (active_session s1, terminals s1, layout s1, active_tab_idx s1)
  = (active_session s, <[id := slot]> (terminals s), layout s, active_tab_idx s) ->
  spawn_ok s id slot ->
  match layout s1 with
  | Splits t _ => id ∉ leaves t
  | Tabs _ => active_terminal_id s1 <> Some id
  end.
Proof.
  intros [= Es Et El Ei]. unfold spawn_ok. rewrite El. destruct (layout s); [|done].
  unfold active_terminal_id, visible_terminals. simpl. by rewrite Es, Et, Ei.
Qed.

Lemma terminal_spawned_wf s id slot now :
  spawn_ok s id slot -> state_wf s -> state_wf (terminal_spawned s id slot now).
Proof.
  intros Hok [Hl Hst]. unfold terminal_spawned. simpl.
  destruct (decide (Some (session_key slot) = active_session s)) as [H|H].
  2: { repeat (rewrite (bool_decide_eq_false_2 _ H); simpl). by split. }
  repeat (rewrite (bool_decide_eq_true_2 _ H); simpl).
  assert (forall s1 d, (active_session s1, terminals s1, layout s1, active_tab_idx s1)
    = (active_session s, <[id := slot]> (terminals s), layout s, active_tab_idx s) ->
    stashed_splits_tree s1 = stashed_splits_tree s -> state_wf (commit_pending_split s1 id d)) as Hc.
  { intros s1 d E Es. pose proof E as [= _ _ El _]. split.
    - apply commit_pending_split_wf; [by rewrite El|]. by eapply spawned_commit.
    - unfold commit_pending_split. repeat case_match; simpl; by rewrite Es. }
  destruct (pending_split s) as [[d at_]|]; simpl; [destruct (now -sat at_ <=? _); [by apply Hc|]|];
    repeat (rewrite (bool_decide_eq_true_2 _ H); simpl); (destruct (_ && _); [by apply Hc|]);
    destruct (position _ _); by split.
Qed.

Lemma resize_focused_divider_wf s dir n cmds : state_wf s -> state_wf (resize_focused_divider s dir n cmds).1.2.
Proof.
  intros [Hl Hst]. unfold resize_focused_divider. destruct (layout s) as [a|t f] eqn:E; [by split; simpl; rewrite ?E|].
  pose proof Hl as (_ & Hr & _ & i & Hi). destruct (resize_toward_keeps t f dir n _ Hi) as [Hs Hk].
  destruct (resize_toward t f dir n) as [[moved|] t'] eqn:Et; simpl in *.
  - assert (state_wf (put_layout (Splits t' f) s)) as Hw by (split; [by apply (layout_wf_shape t t'); auto|done]).
    by destruct (axis_at t' moved).
  - split; [|done]. apply (layout_wf_shape t t'); auto.
Qed.

Lemma drag_divider_wf s hits path col row : state_wf s -> state_wf (drag_divider s hits path col row).2.
Proof.
  intros [Hl Hst]. unfold drag_divider, drag_tile_divider. destruct (List.find _ hits) as [h|]; [|by split].
  destruct (layout s) as [a|t f] eqn:E; [by split|]. destruct (pointer_percent h col row) as [pct|]; [|by split].
  pose proof (set_ratio_at_shape t path pct) as Hs. pose proof (set_ratio_at_ok t path pct) as Hk.
  destruct (set_ratio_at t path pct) as [c t']. split; [|done].
  apply (layout_wf_shape t t'); [done| |done]. apply Hk. by destruct Hl as (_ & ? & _).
Qed.

Lemma move_tile_focus_wf s dir cmds : state_wf s -> state_wf (move_tile_focus s dir cmds).1.
Proof.
  intros [Hl Hst]. unfold move_tile_focus. simpl. destruct (layout s) as [a|t f] eqn:E.
  - destruct (_ =? 0)%nat; by split; simpl; rewrite ?E.
  - destruct (neighbor t f dir) as [n|] eqn:En; (split; [|done]); simpl; [|by rewrite E].
    destruct Hl as (? & ? & Hf). split_and!; [done|done|by eapply neighbor_wf].
Qed.

Lemma step_wf s s' : step s s' -> state_wf s -> state_wf s'.
Proof.
  intros Hst Hs. destruct Hst as [target|target cmds|dir cmds| |l Hl|session|dir n cmds|hits path col row
    |d now cmds|id slot now Hok|id cmds|cmds|id c now|cmds Hr].
  - by apply focus_terminal_wf.
  - unfold focus_tile. destruct (set_terminal_focus s target) as [[c s']|] eqn:E; [|done].
    by eapply set_terminal_focus_wf.
  - by apply move_tile_focus_wf.
  - unfold toggle_zoom. by destruct (negb _).
  - unfold set_layout. destruct (decide _); [done|]. simpl. destruct (decide _); [done|].
    destruct Hs as [_ Hst]. by split.
  - unfold set_active_session. destruct (decide _); [done|]. unfold state_wf.
    rewrite auto_collapse_layout, auto_collapse_stashed.
    by destruct (active_session s), (focused_terminal_id s).
  - by apply resize_focused_divider_wf.
  - by apply drag_divider_wf.
  - unfold split_tile. by destruct (active_session s).
  - by apply terminal_spawned_wf.
  - unfold close_terminal. destruct (terminals s !! id); [|done]. destruct (bool_decide _); [done|].
    destruct (queue_terminal_teardown s id cmds) as [[inert s'] cmds'] eqn:E.
    apply teardown_wf in E; [|done]. destruct inert; [by apply drop_slot_wf|done].
  - by apply close_focused_tile_wf.
  - unfold terminal_exited. set (s' := put_closing _ s). assert (state_wf s') as Hs' by done.
    destruct (_ && _); [|by apply drop_slot_wf]. by destruct (terminals s' !! id).
  - by apply toggle_wf.
Qed.

(** C33: The type of a layout is kept: in a well-formed one no terminal is in the tree
    twice, every ratio is between ten and ninety, the focus names a tile.  It stays so
    under any sequence of the methods that change the layout, where a terminal that is
    spawned is not in the tree already and is not itself the tab it is split from, a
    layout set from outside is well formed, and the layout is toggled while the active
    tab is one of those on screen. *)
Theorem layouts_stay_well_formed s s' : rtc step s s' -> state_wf s -> state_wf s'.
Proof. induction 1 as [|s1 s2 s3 Hst _ IH]; [done|]. intros H. by apply IH, (step_wf s1). Qed.

(** ** Focus through a close *)

Lemma restore_focus_focused s id :
  state_wf s -> id ∈ visible_terminals s ->
  match layout s with Splits t _ => id ∈ leaves t | Tabs _ => True end ->
  focused_terminal_id (restore_focus s id) = Some id.
Proof.
  intros _ Hv Ht. unfold restore_focus. destruct (position_elem _ _ Hv) as [n Hn]. rewrite Hn. simpl.
  destruct (layout s) as [a|t f].
  - unfold focused_terminal_id, active_terminal_id, visible_terminals. simpl. by apply position_Some in Hn.
  - destruct (path_to_elem t id Ht) as [p Hp]. rewrite Hp. unfold focused_terminal_id. simpl.
    apply path_to_focus in Hp as [_ ->]. done.
Qed.

Lemma clamp_fields s :
  terminals (clamp_active_tab s) = terminals s /\ active_session (clamp_active_tab s) = active_session s.
Proof. unfold clamp_active_tab. by repeat case_match. Qed.

Lemma focused_auto_collapse s : focused_terminal_id (auto_collapse_on_emptiness s) = focused_terminal_id s.
Proof. unfold auto_collapse_on_emptiness. by destruct (collapse_user_set s). Qed.

Lemma focused_in_tree s t f id : layout s = Splits t f -> focused_terminal_id s = Some id -> id ∈ leaves t.
Proof.
  unfold focused_terminal_id. intros ->. destruct (leaf_id (subtree_at t f)) as [i|] eqn:E.
  - intros [= ->]. unfold leaf_id in E. destruct (subtree_at t f) as [[j|a b r|a b r]|] eqn:Et; try done.
    injection E as ->. rewrite (leaves_split _ _ _ Et), leaves_Leaf. set_solver.
  - destruct (leaves t); [done|]. intros [= ->]. by left.
Qed.

(** closing another terminal leaves the focus alone.  When a terminal that is not
    the focused one goes, in tabs or in tiles, the focused one still is, whatever
    tab indices and paths shifted. *)
Theorem closing_another_terminal_keeps_the_focus s id keep :
  state_wf s -> focused_terminal_id s = Some keep -> keep <> id -> keep ∈ visible_terminals s ->
  focused_terminal_id (drop_slot s id) = Some keep.
Proof.
  intros Hs Hf Hne Hv. rewrite drop_slot_eq, Hf. cbv zeta. rewrite focused_auto_collapse.
  destruct (Z.eqb_spec keep id) as [|_]; [done|].
  destruct (dropped_fields s id) as (Et & Ea & Es & El).
  destruct (clamp_layout (dropped s id)) as [Cl Cs]. destruct (clamp_fields (dropped s id)) as [Ct Ca].
  apply restore_focus_focused.
  - unfold state_wf. rewrite Cl, Cs, El, Es. destruct Hs as [Hl Hst]. split; [|done].
    destruct (layout s); [done|by apply prune_layout_wf].
  - apply visible_terminals_elem. rewrite Ct, Ca, Et, Ea, lookup_delete_ne by congruence.
    by apply visible_terminals_elem.
  - rewrite Cl, El. destruct (layout s) as [a|t f] eqn:E; [done|].
    destruct Hs as [Hl _]. rewrite E in Hl.
    destruct (prune_layout_spec t f id Hl) as [[-> _]|(t' & f' & -> & Hls & _)]; [done|].
    rewrite Hls. apply list_elem_of_filter. split; [done|]. by eapply focused_in_tree.
Qed.

(** ** Where a spawn lands *)

Definition inserted (s : TerminalStack) (id : Z) (slot : TerminalSlot) : TerminalStack :=
  set_terminals (<[id := slot]> (terminals s)) s.

Lemma commit_focuses s new d :
  layout_wf (layout s) ->
  match layout s with Splits _ _ => True | Tabs _ => is_Some (active_terminal_id s) end ->
  focused_terminal_id (commit_pending_split s new d) = Some new.
Proof.
  intros Hwf Ha. unfold commit_pending_split.
  assert (exists t f i, match layout s with Splits tree focused => Some (tree, focused)
    | Tabs _ => current_id ← active_terminal_id s; Some (Leaf current_id, []) end = Some (t, f)
    /\ subtree_at t f = Some (Leaf i)) as (t & f & i & -> & Hi).
  { destruct (layout s) as [a|t f]; [destruct Ha as [id ->]; by exists (Leaf id), [], id|].
    destruct Hwf as (_ & _ & _ & i & Hi). by exists t, f, i. }
  rewrite Hi. set (new_split := match d with PVertical => _ | PHorizontal => _ end).
  destruct (replace_at_spec t f new_split _ Hi) as (t' & -> & _ & Hq & _).
  unfold focused_terminal_id. simpl. rewrite Hq. by destruct d.
Qed.

(** a spawn takes the focus.  A terminal that comes up in the session on screen is
    the focused one afterwards: as the other side of the split that waited for it or
    was made for it, or as the active tab.  One of another session is only recorded: the
    layout, the active tab and the split that waits are not touched. *)
Theorem a_spawn_takes_the_focus s id slot now :
  state_wf s ->
  (active_session s = Some (session_key slot) ->
   (active_tab_idx s < length (visible_terminals (inserted s id slot)))%nat ->
   match layout s with Splits _ _ => (2 <= length (visible_terminals (inserted s id slot)))%nat | Tabs _ => True end ->
   focused_terminal_id (terminal_spawned s id slot now) = Some id)
  /\ (active_session s <> Some (session_key slot) -> terminal_spawned s id slot now = inserted s id slot).
Proof.
  intros [Hl _]. split.
  - intros Ha Hidx Htwo. unfold terminal_spawned. simpl. symmetry in Ha.
    repeat (rewrite (bool_decide_eq_true_2 _ Ha); simpl).
    assert (forall s1 d, visible_terminals s1 = visible_terminals (inserted s id slot) ->
      layout s1 = layout s -> active_tab_idx s1 = active_tab_idx s ->
      focused_terminal_id (commit_pending_split s1 id d) = Some id) as Hc.
    { intros s1 d Ev El Ei. apply commit_focuses; rewrite El; [done|]. destruct (layout s); [|done].
      unfold active_terminal_id. rewrite Ev, Ei. by apply lookup_lt_is_Some_2. }
    assert (id ∈ visible_terminals (inserted s id slot)) as Hv.
    { apply visible_terminals_elem. exists slot. split; [apply lookup_insert_eq|by symmetry]. }
    assert (forall s1, visible_terminals s1 = visible_terminals (inserted s id slot) -> layout s1 = layout s ->
      active_tab_idx s1 = active_tab_idx s -> terminal_new_layout s1 = terminal_new_layout s ->
      focused_terminal_id
        (if (2 <=? length (visible_terminals s1))%nat && auto_split_on_spawn s1
         then commit_pending_split s1 id PVertical
         else match position id (visible_terminals s1) with Some idx => put_tab idx s1 | None => s1 end) = Some id)
      as Hauto.
    { intros s1 Ev El Ei En. rewrite Ev. destruct (position_elem _ _ Hv) as [n Hn]. rewrite Hn.
      destruct (_ && _) eqn:Eb; [by apply Hc|].
      unfold focused_terminal_id. simpl. rewrite El. unfold auto_split_on_spawn in Eb. rewrite El, En in Eb.
      destruct (layout s) as [a|t f].
      - unfold active_terminal_id. simpl.
        change (visible_terminals (put_tab n s1)) with (visible_terminals s1). rewrite Ev.
        by apply position_Some.
      - exfalso. apply Nat.leb_le in Htwo. rewrite Htwo in Eb. by destruct (terminal_new_layout s). }
    destruct (pending_split s) as [[d at_]|]; simpl; [|by apply Hauto].
    destruct (now -sat at_ <=? _); [by apply Hc|by apply Hauto].
  - intros Ha. unfold terminal_spawned. simpl.
    assert (Some (session_key slot) <> active_session s) as Ha' by congruence.
    by repeat (rewrite (bool_decide_eq_false_2 _ Ha'); simpl).
Qed.

(** ** Tabs to tiles and back *)

#[export] Instance Zle_total : Total Z.le.
Proof. intros a b. lia. Qed.

Lemma same_terminal_set_spec a b : same_terminal_set a b = true <-> a ≡ₚ b.
Proof.
  split; [apply same_terminal_set_perm|]. intros H. unfold same_terminal_set.
  rewrite (Permutation_length H), Nat.eqb_refl, bool_decide_eq_true.
  apply (StronglySorted_unique Z.le); [apply StronglySorted_merge_sort; apply _..|].
  by rewrite !merge_sort_Permutation.
Qed.

Lemma lookup_position ids n id : NoDup ids -> ids !! n = Some id -> position id ids = Some n.
Proof.
  intros Hnd H. destruct (position_elem id ids) as [m Hm]; [by eapply list_elem_of_lookup_2|].
  rewrite Hm. f_equal. apply (NoDup_lookup ids m n id Hnd); [by apply position_Some|done].
Qed.

Lemma focus_terminal_splits s t f id n p :
  layout s = Splits t f -> position id (visible_terminals s) = Some n -> path_to t id = Some p ->
  (focus_terminal s id).2 = put_collapsed false true (put_tab n (put_layout (Splits t p) s)).
Proof. intros El En Ep. unfold focus_terminal, set_terminal_focus. by rewrite En; simpl; rewrite El, Ep. Qed.

Lemma focus_terminal_tabs s a id n :
  layout s = Tabs a -> position id (visible_terminals s) = Some n ->
  (focus_terminal s id).2 = put_collapsed false true (put_tab n (put_layout (Tabs n) s)).
Proof. intros El En. unfold focus_terminal, set_terminal_focus. by rewrite En; simpl; rewrite El. Qed.

(** Tabs turn into a tree of the visible terminals with the focus on the active one. *)
Lemma toggle_tabs s a id n cmds :
  layout s = Tabs a -> (forall t, stashed_splits_tree s = Some t -> ratios_ok t) ->
  active_terminal_id s = Some id -> position id (visible_terminals s) = Some n ->
  exists t p, tree_for s = Some t /\ leaves t ≡ₚ visible_terminals s /\ path_to t id = Some p
    /\ (toggle_session_layout s cmds).1
       = (Some NewSplit, put_collapsed false true (put_tab n (put_layout (Splits t p)
            (put_new_layout NewSplit (put_stashed None s))))).
Proof.
  intros El Hst Ha Hn.
  assert (visible_terminals s <> []) as Hne by (intros E; unfold active_terminal_id in Ha; by rewrite E in Ha).
  destruct (tree_for_spec s Hst Hne) as (t & Et & Hp & _).
  destruct (focus_in_tree s t id Hp Ha) as [p Hpath]. exists t, p. split_and!; try done.
  rewrite (toggle_eq _ _ Hne). cbv zeta. unfold focused_terminal_id. rewrite El, Et, Ha. simpl.
  rewrite (focus_terminal_splits _ t (default [] (path_to t id)) id n p) by done. done.
Qed.

(** A tree turns into tabs, on the tab of the focused terminal, and is stashed. *)
Lemma toggle_splits s t f id n cmds :
  layout s = Splits t f -> focused_terminal_id s = Some id -> position id (visible_terminals s) = Some n ->
  (toggle_session_layout s cmds).1
  = (Some NewTabs, put_collapsed false true (put_tab n (put_layout (Tabs n)
       (put_new_layout NewTabs (put_stashed (Some t) s))))).
Proof.
  intros El Hf Hn.
  assert (visible_terminals s <> []) as Hne by (intros E; by rewrite E in Hn).
  rewrite (toggle_eq _ _ Hne). cbv zeta. rewrite Hf, El. simpl.
  by rewrite (focus_terminal_tabs _ (default 0%nat (position id (leaves t))) id n).
Qed.

(** tabs to tiles and back loses nothing.  Toggling twice from tabs gives tabs on
    the same terminal, and in between the tree has exactly the visible terminals,
    the active one focused; toggling twice from tiles that show the visible
    terminals gives the very same tree and focus. *)
Theorem toggling_twice_restores_the_layout s id cmds cmds' :
  state_wf s -> focused_terminal_id s = Some id -> id ∈ visible_terminals s ->
  let s1 := (toggle_session_layout s cmds).1.2 in
  let s2 := (toggle_session_layout s1 cmds').1.2 in
  focused_terminal_id s1 = Some id /\ focused_terminal_id s2 = Some id
  /\ terminals s2 = terminals s /\ active_session s2 = active_session s
  /\ match layout s with
     | Tabs _ => layout s2 = Tabs (active_tab_idx s) /\ active_tab_idx s2 = active_tab_idx s
         /\ exists t p, layout s1 = Splits t p /\ leaves t ≡ₚ visible_terminals s
     | Splits t f => leaves t ≡ₚ visible_terminals s -> layout s2 = layout s
         /\ exists n, layout s1 = Tabs n /\ visible_terminals s !! n = Some id
     end.
Proof.
  intros [Hl Hst] Hf Hv s1 s2. destruct (position_elem _ _ Hv) as [n Hn]. pose proof (position_Some _ _ _ Hn) as Hl'.
  destruct (layout s) as [a|t f] eqn:El.
  - assert (active_terminal_id s = Some id) as Ha by (unfold focused_terminal_id in Hf; by rewrite El in Hf).
    destruct (toggle_tabs s a id n cmds El Hst Ha Hn) as (t & p & _ & Hp & Hpath & E1).
    pose proof (path_to_focus _ _ _ Hpath) as [_ Hleaf].
    assert (focused_terminal_id s1 = Some id) as Hf1
      by (unfold s1; rewrite E1; unfold focused_terminal_id; simpl; by rewrite Hleaf).
    assert (n = active_tab_idx s) as Hidx by (eapply NoDup_lookup; [apply visible_terminals_NoDup|done|done]).
    pose proof (toggle_splits s1 t p id n cmds' ltac:(unfold s1; by rewrite E1) Hf1
      ltac:(unfold s1; by rewrite E1)) as E2.
    unfold s2. rewrite E2. unfold s1. rewrite E1. simpl.
    split_and!; try done; [unfold focused_terminal_id; simpl; by rewrite Hleaf|by rewrite Hidx|].
    by exists t, p.
  - pose proof (toggle_splits s t f id n cmds El Hf Hn) as E1.
    assert (active_terminal_id s1 = Some id) as Ha1 by (unfold s1; by rewrite E1).
    destruct (toggle_tabs s1 n id n cmds' ltac:(unfold s1; by rewrite E1)
      ltac:(unfold s1; rewrite E1; intros t' [= <-]; by destruct Hl as (_ & ? & _)) Ha1
      ltac:(unfold s1; by rewrite E1)) as (t' & p & Et & _ & Hpath & E2).
    pose proof (path_to_focus _ _ _ Hpath) as [[Hb _] Hleaf].
    split_and!.
    + unfold focused_terminal_id, s1. rewrite E1. simpl. by unfold s1 in Ha1; rewrite E1 in Ha1.
    + unfold s2, focused_terminal_id. rewrite E2. simpl. by rewrite Hleaf.
    + unfold s2. rewrite E2. unfold s1. by rewrite E1.
    + unfold s2. rewrite E2. unfold s1. by rewrite E1.
    + intros Hp. assert (t' = t) as ->.
      { unfold tree_for, s1 in Et. rewrite E1 in Et. simpl in Et.
        change (visible_terminals _) with (visible_terminals s) in Et.
        apply same_terminal_set_spec in Hp. rewrite Hp in Et. by injection Et. }
      split; [|exists n; unfold s1; by rewrite E1].
      unfold s2. rewrite E2. simpl. f_equal.
      destruct Hl as (Hnd & _ & Hbf & i & Hi). eapply leaf_path_unique; [done..| |exact Hi].
      assert (i = id) as ->; [|done]. unfold focused_terminal_id in Hf. rewrite El, Hi in Hf. by injection Hf.
Qed.

(** ** Where the code slips *)

#[export] Instance tab_le_total ts : Total (tab_le ts).
Proof. intros a b. unfold tab_le. repeat case_match; lia || (by left) || by right. Qed.

#[export] Instance tab_le_trans ts : Transitive (tab_le ts).
Proof. intros a b c. unfold tab_le. repeat case_match; try done; lia. Qed.

Lemma visible_terminals_sorted s : StronglySorted (tab_le (terminals s)) (visible_terminals s).
Proof.
  unfold visible_terminals. destruct (active_session s); [|constructor].
  apply StronglySorted_merge_sort; apply _.
Qed.

Lemma only_agent_is_first s id slot :
  active_session s = Some (session_key slot) -> is_agent slot = true ->
  (forall i slot', terminals s !! i = Some slot' -> active_session s = Some (session_key slot') ->
     is_agent slot' = false) ->
  head (visible_terminals (inserted s id slot)) = Some id.
Proof.
  intros Ha Hag Hno.
  assert (id ∈ visible_terminals (inserted s id slot)) as Hv
    by (apply visible_terminals_elem; exists slot; split; [apply lookup_insert_eq|done]).
  pose proof (visible_terminals_sorted (inserted s id slot)) as Hs.
  destruct (visible_terminals (inserted s id slot)) as [|h ls] eqn:E; [by apply elem_of_nil in Hv|].
  simpl. f_equal. apply elem_of_cons in Hv as [|Hv]; [done|].
  apply StronglySorted_inv in Hs as [_ Hs]. rewrite Forall_forall in Hs. specialize (Hs id Hv).
  assert (h ∈ visible_terminals (inserted s id slot)) as Hh by (rewrite E; by left).
  apply visible_terminals_elem in Hh as (slot' & Hh & Hk). simpl in Hh, Hk.
  destruct (decide (h = id)) as [|Hne]; [done|].
  rewrite lookup_insert_ne in Hh by congruence.
  unfold tab_le in Hs. simpl in Hs. rewrite lookup_insert_eq, lookup_insert_ne, Hh, (Hno h slot' Hh Hk), Hag in Hs
    by congruence. done.
Qed.

(** an agent that joins shells is shown twice.  In tabs, with only shells in the
    session, the first of them active and splitting preferred, an agent that spawns
    is sorted in front of the active tab before the split reads which terminal is
    active: both sides of the new split show the agent, and no tile shows what was
    on screen. *)
Theorem an_agent_joining_shells_is_shown_twice s id slot now a :
  layout s = Tabs a -> active_tab_idx s = 0%nat -> pending_split s = None -> terminal_new_layout s = NewSplit ->
  active_session s = Some (session_key slot) -> is_agent slot = true ->
  (2 <= length (visible_terminals (inserted s id slot)))%nat ->
  (forall i slot', terminals s !! i = Some slot' -> active_session s = Some (session_key slot') ->
     is_agent slot' = false) ->
  layout (terminal_spawned s id slot now) = Splits (HSplit (Leaf id) (Leaf id) 50) [1].
Proof.
  intros El Ei Ep En Ha Hag Htwo Hno. unfold terminal_spawned. simpl. pose proof Ha as Ha'. symmetry in Ha'.
  repeat (rewrite (bool_decide_eq_true_2 _ Ha'); simpl). rewrite Ep. simpl.
  repeat (rewrite (bool_decide_eq_true_2 _ Ha'); simpl).
  set (s1 := put_pending None _).
  assert (visible_terminals s1 = visible_terminals (inserted s id slot)) as Ev by done.
  assert (auto_split_on_spawn s1 = true) as Hau by (unfold auto_split_on_spawn; simpl; by rewrite En).
  assert (active_terminal_id s1 = Some id) as Hact.
  { unfold active_terminal_id. rewrite Ev. simpl. rewrite Ei.
    pose proof (only_agent_is_first s id slot Ha Hag Hno) as Hh.
    by destruct (visible_terminals (inserted s id slot)). }
  rewrite Ev. destruct (visible_terminals (inserted s id slot)) as [|x [|y l]]; [simpl in Htwo; lia..|].
  rewrite Hau. cbn [length andb].
  unfold commit_pending_split. rewrite Hact. unfold s1. simpl. by rewrite El.
Qed.

(** a lone tile cannot be closed.  With one terminal on screen, toggling to tiles
    makes a tree of one leaf; closing the focused tile then changes nothing but the
    zoom and sends no command, the terminal stays. *)
Theorem a_lone_tile_cannot_be_closed s id a cmds cmds' :
  layout s = Tabs a -> active_tab_idx s = 0%nat -> stashed_splits_tree s = None -> visible_terminals s = [id] ->
  let s1 := (toggle_session_layout s cmds).1.2 in
  layout s1 = Splits (Leaf id) [] /\ close_focused_tile s1 cmds' = (put_zoomed false s1, cmds').
Proof.
  intros El Ei Es Hv s1.
  assert (exists s', s1 = put_layout (Splits (Leaf id) []) s') as (s' & E1).
  { destruct (toggle_tabs s a id 0 cmds El) as (t & p & Et & _ & Hp & E).
    - intros t. by rewrite Es.
    - unfold active_terminal_id. by rewrite Hv, Ei.
    - rewrite Hv. unfold position. simpl. by rewrite decide_True.
    - unfold tree_for in Et. rewrite Es, Hv in Et. injection Et as <-.
      unfold path_to in Hp. simpl in Hp. rewrite Z.eqb_refl in Hp. injection Hp as <-.
      unfold s1. rewrite E.
      by exists (put_collapsed false true (put_tab 0%nat (put_new_layout NewSplit (put_stashed None s)))). }
  rewrite E1. split; [done|]. unfold close_focused_tile. simpl. done.
Qed.

(** ** Witnesses *)

Definition shell (k : string) : TerminalSlot := mkSlot k false None None false false 0.
Definition agent (k : string) : TerminalSlot := mkSlot k true None None false false 0.

Definition stack_with (ts : list (Z * TerminalSlot)) (l : SessionLayout) (tab : nat) : TerminalStack :=
  mkStack (list_to_map ts) (Some "k"%string) l tab false None None NewSplit None ∅ ∅ ∅ false false 10000.

Definition two_tiles : TerminalStack :=
  stack_with [(1, agent "k"); (2, shell "k")] (Splits (HSplit (Leaf 1) (Leaf 2) 50) [1]) 0.

Lemma two_tiles_wf : state_wf two_tiles.
Proof.
  split; [|done]. split; [|split; [simpl; unfold TILE_RATIO_MIN, TILE_RATIO_MAX; lia|split]].
  - apply (bool_decide_unpack (NoDup [1; 2])). vm_compute. exact I.
  - constructor; [by right|constructor].
  - by exists 2.
Defined.

Lemma layouts_stay_well_formed_witness : state_wf (close_focused_tile (split_tile two_tiles PVertical 0 []).1 []).1.
Proof.
  apply (layouts_stay_well_formed two_tiles); [|exact two_tiles_wf].
  eapply rtc_l; [apply step_split|]. apply rtc_once, step_close_focused.
Defined.

Lemma closing_another_terminal_keeps_the_focus_witness :
  focused_terminal_id (drop_slot two_tiles 1) = Some 2.
Proof.
  apply (closing_another_terminal_keeps_the_focus two_tiles 1 2 two_tiles_wf);
    [reflexivity|lia|apply (bool_decide_unpack (2 ∈ visible_terminals two_tiles)); vm_compute; exact I].
Defined.

Lemma a_spawn_takes_the_focus_witness :
  focused_terminal_id (terminal_spawned two_tiles 3 (shell "k") 5) = Some 3.
Proof.
  apply (proj1 (a_spawn_takes_the_focus two_tiles 3 (shell "k") 5 two_tiles_wf));
    [reflexivity|vm_compute; lia|vm_compute; lia].
Defined.

Lemma toggling_twice_restores_the_layout_witness :
  layout (toggle_session_layout (toggle_session_layout two_tiles []).1.2 []).1.2 = layout two_tiles.
Proof.
  refine (proj1 (proj2 (proj2 (proj2 (proj2 (toggling_twice_restores_the_layout two_tiles 2 [] []
    two_tiles_wf eq_refl _)))) _)).
  - apply (bool_decide_unpack (2 ∈ visible_terminals two_tiles)). vm_compute. exact I.
  - apply (bool_decide_unpack (leaves (HSplit (Leaf 1) (Leaf 2) 50) ≡ₚ visible_terminals two_tiles)).
    vm_compute. exact I.
Defined.

Definition one_shell : TerminalStack := stack_with [(3, shell "k")] (Tabs 0) 0.

Lemma an_agent_joining_shells_is_shown_twice_witness :
  layout (terminal_spawned one_shell 5 (agent "k") 0) = Splits (HSplit (Leaf 5) (Leaf 5) 50) [1].
Proof.
  apply (an_agent_joining_shells_is_shown_twice one_shell 5 (agent "k") 0 0%nat);
    [reflexivity|reflexivity|reflexivity|reflexivity|reflexivity|reflexivity|vm_compute; lia|].
  intros i slot' Hi _. unfold one_shell, stack_with in Hi. cbn [terminals list_to_map foldr fst snd] in Hi.
  apply lookup_insert_Some in Hi as [[_ <-]|[_ Hi]]; [reflexivity|]. discriminate.
Defined.

Lemma a_lone_tile_cannot_be_closed_witness :
  (close_focused_tile (toggle_session_layout one_shell []).1.2 []).2 = [].
Proof.
  rewrite (proj2 (a_lone_tile_cannot_be_closed one_shell 3 0%nat [] [] eq_refl eq_refl eq_refl eq_refl)).
  reflexivity.
Defined.

(** Two closes of the last tab leave the layout's own index behind; one arrow to the
    left then puts the active tab where there is none. *)
Example a_stale_tab_index_blanks_the_pane :
  let s := stack_with [(1, shell "k"); (2, shell "k"); (3, shell "k")] (Tabs 2) 2 in
  let s := (move_tile_focus (drop_slot (drop_slot s 3) 2) Left []).1 in
  (layout s, active_tab_idx s, visible_terminals s, focused_terminal_id s) = (Tabs 1, 1%nat, [1], None).
Proof. vm_compute. reflexivity. Qed.
