(* ===== verification/Review.v ===== *)
(** * Review artifacts ([src/crates/core/src/review.rs])

    A review is submitted as text and findings and kept as a [ReviewArtifact]: either
    completed or, with the list of its defects, a draft.  A fixer binds one report
    ([select_report]) and answers it with a [ReviewResult].

    The text of a defect quotes what was submitted with Rust's [Debug] formatting,
    which is the parameter [debug].  The theorems: what a completed report is made
    of and which submissions complete; when a report is bound, and which; what a
    completed result covers. *)

From Stdlib Require Import Ascii String.
From S2P Require Import Prelude Text.

#[global] Open Scope Z_scope.
#[local] Open Scope string_scope.
#[local] Open Scope list_scope.

Definition REVIEW_SCHEMA_VERSION : Z := 1.

Inductive Severity : Type := Blocker | Major | Minor.

#[export] Instance Severity_eq_dec : EqDecision Severity.
Proof. solve_decision. Defined.

Definition one_of (s : string) (words : list string) : bool := bool_decide (s ∈ words).

Definition parse_severity (text : string) : option Severity :=
  let w := to_ascii_lowercase (trim text) in
  if one_of w ["blocker"; "critical"; "high"] then Some Blocker
  else if one_of w ["major"; "medium"] then Some Major
  else if one_of w ["minor"; "low"; "nit"] then Some Minor
  else None.

Record FileAnchor : Type := mkAnchor { file : string; line : option Z }.

#[export] Instance FileAnchor_eq_dec : EqDecision FileAnchor.
Proof. solve_decision. Defined.

Definition parse_u32 (s : string) : option Z :=
  match parse_u64 s with Some n => if (n <=? u32_max)%Z then Some n else None | None => None end.

Definition parse_anchor (text : string) : option FileAnchor :=
  let text := trim text in
  if is_empty text then None else
  match rsplit_once ":" text with
  | Some (file, l) =>
      if is_empty file then Some (mkAnchor text None)
      else match parse_u32 (trim l) with
           | Some l => Some (mkAnchor file (Some l))
           | None => let file := trim_end_matches ":" text in
                     if is_empty file then None else Some (mkAnchor file None)
           end
  | None => Some (mkAnchor text None)
  end.

Definition render_anchor (a : FileAnchor) : string :=
  match line a with Some l => file a +:+ ":" +:+ show_uint l | None => file a end.

Record Finding : Type := mkFinding {
  f_id : string;
  title : string;
  severity : Severity;
  anchors : list FileAnchor;
  evidence : string;
  remediation : string;
  f_checks : list string;
}.

Record ReviewScope : Type := mkScope {
  label : string;
  base_sha : option string;
  head_sha : option string;
  dirty_digest : option string;
}.

Inductive ArtifactStatus : Type := Draft | Completed.
Inductive ReviewOrigin : Type := Submitted | Imported.

#[export] Instance ArtifactStatus_eq_dec : EqDecision ArtifactStatus.
Proof. solve_decision. Defined.
#[export] Instance ReviewOrigin_eq_dec : EqDecision ReviewOrigin.
Proof. solve_decision. Defined.

Record ReviewArtifact : Type := mkArtifact {
  schema : Z;
  a_id : string;
  workspace : string;
  repo : option string;
  run_id : string;
  agent : option string;
  scope : ReviewScope;
  status : ArtifactStatus;
  origin : ReviewOrigin;
  findings : list Finding;
  checks : list string;
  open_questions : list string;
  report : string;
  defects : list string;
  created_at_ms : Z;
}.

Definition is_bindable (a : ReviewArtifact) : bool :=
  bool_decide (status a = Completed) && (schema a =? REVIEW_SCHEMA_VERSION)%Z.

Inductive Freshness : Type :=
| Current
| HeadMoved (reviewed current : string)
| WorktreeChanged
| Unknown.

#[export] Instance Freshness_eq_dec : EqDecision Freshness.
Proof. solve_decision. Defined.

Definition freshness (a : ReviewArtifact) (current : ReviewScope) : Freshness :=
  match head_sha (scope a), head_sha current with
  | Some reviewed, Some now =>
      if bool_decide (reviewed <> now) then HeadMoved reviewed now
      else if bool_decide (dirty_digest (scope a) <> dirty_digest current) then WorktreeChanged
      else Current
  | _, _ => Unknown
  end.

Definition requires_revalidation (f : Freshness) : bool := match f with Current => false | _ => true end.

(** ** Selecting a report *)

Inductive ReportSelection : Type :=
| Missing
| Bound (id : string) (fresh : Freshness)
| Ambiguous (candidates : list string).

Definition is_current (current : ReviewScope) (r : ReviewArtifact) : bool :=
  bool_decide (freshness r current = Current).

(** The bindable reports that match the tree as it is, or else the other ones. *)
Definition tier_of (reports : list ReviewArtifact) (current : ReviewScope) : list ReviewArtifact :=
  let bindable := List.filter is_bindable reports in
  let fresh := List.filter (is_current current) bindable in
  let stale := List.filter (fun r => negb (is_current current r)) bindable in
  match fresh with [] => stale | _ => fresh end.

(** [Vec::dedup]: of equal neighbours the first. *)
Fixpoint dedup (l : list string) : list string :=
  match l with
  | a :: ((b :: _) as rest) => if bool_decide (a = b) then dedup rest else a :: dedup rest
  | _ => l
  end.

(** A stable sort, newest first. *)
Fixpoint insert_newest (r : ReviewArtifact) (l : list ReviewArtifact) : list ReviewArtifact :=
  match l with
  | [] => [r]
  | x :: l => if (created_at_ms x <? created_at_ms r)%Z then r :: x :: l else x :: insert_newest r l
  end.

Definition newest_first (l : list ReviewArtifact) : list ReviewArtifact :=
  fold_left (fun acc r => insert_newest r acc) l [].

(** [max_by_key]: the last of the greatest. *)
Definition max_by_created (l : list ReviewArtifact) : option ReviewArtifact :=
  fold_left (fun best r => match best with
                           | Some b => if (created_at_ms b <=? created_at_ms r)%Z then Some r else best
                           | None => Some r
                           end) l None.

Definition select_report (reports : list ReviewArtifact) (current : ReviewScope) : ReportSelection :=
  let tier := tier_of reports current in
  match tier with
  | [] => Missing
  | _ =>
      let labels := dedup (merge_sort String.le (map (fun r => trim (label (scope r))) tier)) in
      let unprovable := (1 <? length tier)%nat && existsb is_empty labels in
      if (1 <? length labels)%nat || unprovable
      then Ambiguous (map a_id (newest_first tier))
      else match max_by_created tier with
           | Some newest => Bound (a_id newest) (freshness newest current)
           | None => Missing                       (* [tier] is not empty *)
           end
  end.

(** ** Submissions *)

Record FindingInput : Type := mkFindingInput {
  fi_id : option string;
  fi_title : string;
  fi_severity : string;
  fi_anchors : list string;
  fi_evidence : string;
  fi_remediation : string;
  fi_checks : list string;
}.

Record ReviewSubmission : Type := mkSubmission {
  s_report : string;
  s_findings : list FindingInput;
  s_scope : ReviewScope;
  s_checks : list string;
  s_open_questions : list string;
}.

Record ReviewIngest : Type := mkIngest {
  i_id : string;
  i_workspace : string;
  i_repo : option string;
  i_run_id : string;
  i_agent : option string;
  i_origin : ReviewOrigin;
  i_created_at_ms : Z;
}.

Definition trimmed_lines (lines : list string) : list string :=
  omap (fun l => let t := trim l in if is_empty t then None else Some t) lines.

Section ingest.
Context (debug : string -> string).

Definition finding_id (input : FindingInput) (position : Z) : string :=
  match fi_id input with
  | Some raw => let id := trim raw in if is_empty id then "f" +:+ show_uint position else id
  | None => "f" +:+ show_uint position
  end.

Definition no_title (id : string) : string := "finding " +:+ id +:+ ": title is empty".
Definition bad_severity (id given : string) : string :=
  "finding " +:+ id +:+ ": severity " +:+ debug given +:+ " is not one of blocker / major / minor".
Definition no_anchor (id : string) : string :=
  "finding " +:+ id +:+ ": no `file:line` anchor — a finding a fixer cannot locate is not actionable".
Definition no_evidence (id : string) : string :=
  "finding " +:+ id
  +:+ ": evidence is empty — name the concrete input or state that produces the wrong result".
Definition duplicate_finding (position : Z) (id : string) : string :=
  "finding " +:+ show_uint position +:+ ": duplicate id " +:+ debug id
  +:+ " — ids must be unique within a report".
Definition no_report : string := "report is empty — submit the readable review text".
Definition no_head : string :=
  "scope.head_sha is missing — pass `git rev-parse HEAD` so a fixer can tell whether these findings still describe the tree".

(** What the loop over the findings carries: the defects, the findings and the ids
    seen so far. *)
Record Ingesting : Type := mkIngesting {
  in_defects : list string;
  in_findings : list Finding;
  seen : list string;
}.

Definition ingest_finding (st : Ingesting) (index : Z) (input : FindingInput) : Ingesting :=
  let position := (index + 1)%Z in
  let id := finding_id input position in
  if bool_decide (id ∈ seen st)
  then mkIngesting (in_defects st ++ [duplicate_finding position id]) (in_findings st) (seen st) else
  let seen := seen st ++ [id] in
  let title := trim (fi_title input) in
  let ds := in_defects st ++ (if is_empty title then [no_title id] else []) in
  match parse_severity (fi_severity input) with
  | None => mkIngesting (ds ++ [bad_severity id (fi_severity input)]) (in_findings st) seen
  | Some severity =>
      let anchors := omap parse_anchor (fi_anchors input) in
      let ds := ds ++ (match anchors with [] => [no_anchor id] | _ => [] end) in
      let evidence := trim (fi_evidence input) in
      let ds := ds ++ (if is_empty evidence then [no_evidence id] else []) in
      mkIngesting ds
        (in_findings st ++ [mkFinding id title severity anchors evidence (trim (fi_remediation input))
                              (trimmed_lines (fi_checks input))]) seen
  end.

Fixpoint ingest_findings (st : Ingesting) (index : Z) (inputs : list FindingInput) : Ingesting :=
  match inputs with
  | [] => st
  | input :: inputs => ingest_findings (ingest_finding st index input) (index + 1)%Z inputs
  end.

Definition into_artifact (s : ReviewSubmission) (g : ReviewIngest) : ReviewArtifact :=
  let ds := (if is_empty (trim (s_report s)) then [no_report] else [])
            ++ (if bool_decide (i_origin g = Submitted) && bool_decide (head_sha (s_scope s) = None)
                then [no_head] else []) in
  let st := ingest_findings (mkIngesting ds [] []) 0 (s_findings s) in
  mkArtifact REVIEW_SCHEMA_VERSION (i_id g) (i_workspace g) (i_repo g) (i_run_id g) (i_agent g) (s_scope s)
    (match in_defects st with [] => Completed | _ => Draft end) (i_origin g) (in_findings st)
    (trimmed_lines (s_checks s)) (trimmed_lines (s_open_questions s)) (trim (s_report s)) (in_defects st)
    (i_created_at_ms g).

(** ** Results *)

Inductive Disposition : Type := Fixed | AlreadyResolved | Blocked | Refuted.

Definition parse_disposition (text : string) : option Disposition :=
  let w := map_chars (fun c => if Ascii.eqb c "-" || Ascii.eqb c " " then "_"%char else c)
             (to_ascii_lowercase (trim text)) in
  if one_of w ["fixed"] then Some Fixed
  else if one_of w ["already_resolved"] then Some AlreadyResolved
  else if one_of w ["blocked"] then Some Blocked
  else if one_of w ["refuted"] then Some Refuted
  else None.

Definition disposition_label (d : Disposition) : string :=
  match d with
  | Fixed => "fixed" | AlreadyResolved => "already_resolved" | Blocked => "blocked" | Refuted => "refuted"
  end.

Record FindingOutcome : Type := mkOutcome {
  o_finding : string;
  disposition : Disposition;
  o_evidence : string;
  commits : list string;
  o_checks : list string;
}.

Record ReviewResult : Type := mkResult {
  r_schema : Z;
  r_id : string;
  report_id : string;
  r_workspace : string;
  r_run_id : string;
  r_agent : option string;
  r_status : ArtifactStatus;
  outcomes : list FindingOutcome;
  uncovered : list string;
  r_checks : list string;
  notes : string;
  r_defects : list string;
  r_created_at_ms : Z;
}.

Record OutcomeInput : Type := mkOutcomeInput {
  oi_finding : string;
  oi_disposition : string;
  oi_evidence : string;
  oi_commits : list string;
  oi_checks : list string;
}.

Record ReviewResultSubmission : Type := mkResultSubmission {
  rs_report_id : string;
  rs_outcomes : list OutcomeInput;
  rs_checks : list string;
  rs_notes : string;
}.

Record ResultIngest : Type := mkResultIngest {
  ri_id : string;
  ri_run_id : string;
  ri_agent : option string;
  ri_created_at_ms : Z;
}.

Definition status_debug (s : ArtifactStatus) : string :=
  match s with Draft => "Draft" | Completed => "Completed" end.

Definition not_bindable (r : ReviewArtifact) : string :=
  "report " +:+ a_id r +:+ " is not bindable (" +:+ status_debug (status r)
  +:+ "); a result against it means the fixer did not work from a selected report".
Definition no_finding_id (position : Z) : string := "outcome " +:+ show_uint position +:+ ": finding_id is empty".
Definition no_such_finding (id report : string) : string :=
  "outcome " +:+ id +:+ ": report " +:+ report +:+ " has no such finding".
Definition reported_twice (id : string) : string := "outcome " +:+ id +:+ ": reported twice".
Definition bad_disposition (id given : string) : string :=
  "outcome " +:+ id +:+ ": disposition " +:+ debug given
  +:+ " is not one of fixed / already_resolved / blocked / refuted".
Definition no_outcome_evidence (id : string) (d : Disposition) : string :=
  "outcome " +:+ id +:+ ": evidence is empty — a " +:+ disposition_label d
  +:+ " needs the change or the falsifiable reason behind it".
Definition not_covered (ids : list string) : string :=
  "no outcome for " +:+ String.concat ", " ids +:+ " — every finding needs one, including the ones you refute".
Definition not_retained (report_id : string) : string :=
  "report " +:+ report_id
  +:+ " is no longer retained, so these outcomes could not be checked against its findings".

Record Answering : Type := mkAnswering {
  an_defects : list string;
  an_outcomes : list FindingOutcome;
  covered : list string;
}.

Definition made_outcome (id : string) (d : Disposition) (input : OutcomeInput) : FindingOutcome :=
  mkOutcome id d (trim (oi_evidence input)) (trimmed_lines (oi_commits input)) (trimmed_lines (oi_checks input)).

Definition ingest_outcome (r : ReviewArtifact) (st : Answering) (index : Z) (input : OutcomeInput) : Answering :=
  let refused d := mkAnswering (an_defects st ++ [d]) (an_outcomes st) (covered st) in
  let id := trim (oi_finding input) in
  if is_empty id then refused (no_finding_id (index + 1)%Z) else
  if negb (existsb (fun f => bool_decide (f_id f = id)) (findings r)) then refused (no_such_finding id (a_id r)) else
  if bool_decide (id ∈ covered st) then refused (reported_twice id) else
  match parse_disposition (oi_disposition input) with
  | None => refused (bad_disposition id (oi_disposition input))
  | Some d =>
      mkAnswering
        (an_defects st ++ (if is_empty (trim (oi_evidence input)) then [no_outcome_evidence id d] else []))
        (an_outcomes st ++ [made_outcome id d input]) (covered st ++ [id])
  end.

Fixpoint ingest_outcomes (r : ReviewArtifact) (st : Answering) (index : Z) (inputs : list OutcomeInput) : Answering :=
  match inputs with
  | [] => st
  | input :: inputs => ingest_outcomes r (ingest_outcome r st index input) (index + 1)%Z inputs
  end.

Definition result_into_artifact (s : ReviewResultSubmission) (r : ReviewArtifact) (g : ResultIngest) : ReviewResult :=
  let ds := if is_bindable r then [] else [not_bindable r] in
  let st := ingest_outcomes r (mkAnswering ds [] []) 0 (rs_outcomes s) in
  let uncovered := map f_id (List.filter (fun f => negb (bool_decide (f_id f ∈ covered st))) (findings r)) in
  let ds := an_defects st ++ (match uncovered with [] => [] | _ => [not_covered uncovered] end) in
  mkResult REVIEW_SCHEMA_VERSION (ri_id g) (a_id r) (workspace r) (ri_run_id g) (ri_agent g)
    (match ds with [] => Completed | _ => Draft end) (an_outcomes st) uncovered
    (trimmed_lines (rs_checks s)) (trim (rs_notes s)) ds (ri_created_at_ms g).

Definition ingest_orphan (st : Answering) (index : Z) (input : OutcomeInput) : Answering :=
  let refused d := mkAnswering (an_defects st ++ [d]) (an_outcomes st) (covered st) in
  let id := trim (oi_finding input) in
  if is_empty id then refused (no_finding_id (index + 1)%Z) else
  if bool_decide (id ∈ covered st) then refused (reported_twice id) else
  match parse_disposition (oi_disposition input) with
  | None => refused (bad_disposition id (oi_disposition input))
  | Some d => mkAnswering (an_defects st) (an_outcomes st ++ [made_outcome id d input]) (covered st ++ [id])
  end.

Fixpoint ingest_orphans (st : Answering) (index : Z) (inputs : list OutcomeInput) : Answering :=
  match inputs with
  | [] => st
  | input :: inputs => ingest_orphans (ingest_orphan st index input) (index + 1)%Z inputs
  end.

(** The report is gone: what was answered is kept, as a draft. *)
Definition into_orphan_artifact (s : ReviewResultSubmission) (workspace report_id : string) (g : ResultIngest)
    : ReviewResult :=
  let st := ingest_orphans (mkAnswering [not_retained report_id] [] []) 0 (rs_outcomes s) in
  mkResult REVIEW_SCHEMA_VERSION (ri_id g) report_id workspace (ri_run_id g) (ri_agent g) Draft
    (an_outcomes st) [] (trimmed_lines (rs_checks s)) (trim (rs_notes s)) (an_defects st) (ri_created_at_ms g).

End ingest.

Example an_anchor : parse_anchor " src/main.rs:42 " = Some (mkAnchor "src/main.rs" (Some 42%Z)).
Proof. reflexivity. Qed.
Example a_colon_tail : parse_anchor "weird:name.rs" = Some (mkAnchor "weird:name.rs" None).
Proof. reflexivity. Qed.
