(* ===== verification/ReviewProps.v ===== *)
(** * What a review and its answer are worth

    The theorems of [Review]: which submissions complete and what a completed report
    holds; that a result accounts for every finding of its report once; which report
    a fixer binds. *)

From Stdlib Require Import Ascii String.
From S2P Require Import Prelude Text Review.

#[global] Open Scope Z_scope.

(** ** Ingesting findings *)

(** A finding a fixer can act on. *)
Definition actionable (input : FindingInput) : bool :=
  negb (is_empty (trim (fi_title input))) && negb (is_empty (trim (fi_evidence input)))
  && match parse_severity (fi_severity input) with Some _ => true | None => false end
  && match omap parse_anchor (fi_anchors input) with [] => false | _ => true end.

Fixpoint ids_from (index : Z) (inputs : list FindingInput) : list string :=
  match inputs with
  | [] => []
  | input :: inputs => finding_id input (index + 1) :: ids_from (index + 1) inputs
  end.

Definition well_kept (f : Finding) : Prop :=
  title f <> EmptyString /\ evidence f <> EmptyString /\ anchors f <> [].

Lemma is_empty_false s : is_empty s = false <-> s <> EmptyString.
Proof. by destruct s. Qed.

Lemma app_nil_iff {A} (l l' : list A) : l ++ l' = [] <-> l = [] /\ l' = [].
Proof. split; [apply app_eq_nil|by intros [-> ->]]. Qed.

Section ingest.
Context (debug : string -> string).

Lemma finding_id_nonempty input position : finding_id input position <> EmptyString.
Proof.
  unfold finding_id. destruct (fi_id input) as [raw|]; [|done].
  destruct (is_empty (trim raw)) eqn:E; [done|by apply is_empty_false].
Qed.

(** One finding adds no defect exactly if its id is new and it is actionable; then it
    is kept, under that id. *)
Lemma ingest_finding_spec st index input :
  let id := finding_id input (index + 1) in
  let st' := ingest_finding debug st index input in
  (in_defects st' = [] <-> in_defects st = [] /\ id ∉ seen st /\ actionable input = true)
  /\ (id ∉ seen st -> seen st' = seen st ++ [id])
  /\ (id ∈ seen st -> seen st' = seen st)
  /\ exists new, in_findings st' = in_findings st ++ new
       /\ (forall f, f ∈ new -> f_id f = id /\ id ∉ seen st)
       /\ (length new <= 1)%nat
       /\ (actionable input = true -> id ∉ seen st -> length new = 1%nat /\ Forall well_kept new).
Proof.
  cbv zeta. unfold ingest_finding, actionable. set (id := finding_id input (index + 1)).
  case_bool_decide as Hid.
  { simpl. split; [rewrite app_nil_iff; naive_solver|]. split; [done|]. split; [done|].
    exists []. rewrite app_nil_r. split_and!; [done| |simpl; lia|done].
    intros f Hf. by apply elem_of_nil in Hf. }
  destruct (parse_severity (fi_severity input)) as [sev|].
  - simpl. destruct (is_empty (trim (fi_title input))) eqn:Et, (is_empty (trim (fi_evidence input))) eqn:Ee,
      (omap parse_anchor (fi_anchors input)) as [|a an]; simpl; rewrite ?app_nil_r;
    (split; [rewrite ?app_nil_iff; naive_solver|]); (split; [done|]); (split; [done|]);
    eexists [_]; (split_and!; [done|by intros f ->%list_elem_of_singleton|simpl; lia|]); try done.
    intros _ _. split; [done|]. constructor; [|constructor]. split_and!; [by apply is_empty_false..|done].
  - simpl. split; [rewrite !app_nil_iff; split; [by intros [[? ?] ?]|]|].
    { intros (_ & _ & H). by rewrite andb_false_r in H. }
    split; [done|]. split; [done|]. exists []. rewrite app_nil_r. split_and!; [done| |simpl; lia|].
    + intros f Hf. by apply elem_of_nil in Hf.
    + intros H. by rewrite andb_false_r in H.
Qed.

Lemma ingest_findings_spec inputs : forall st index,
  NoDup (seen st) ->
  let st' := ingest_findings debug st index inputs in
  (in_defects st' = [] <->
     in_defects st = [] /\ NoDup (seen st ++ ids_from index inputs) /\ Forall (fun i => actionable i = true) inputs)
  /\ (in_defects st' = [] -> exists new, in_findings st' = in_findings st ++ new
        /\ map f_id new = ids_from index inputs /\ Forall well_kept new).
Proof.
  induction inputs as [|input inputs IH]; intros st index Hnd; cbn [ingest_findings ids_from].
  { rewrite app_nil_r. split; [naive_solver|]. intros _. exists []. by rewrite app_nil_r. }
  destruct (ingest_finding_spec st index input) as (Hd & Hnew & Hold & new & Hf & Hids & Hlen & Hok).
  set (id := finding_id input (index + 1)) in *. set (st1 := ingest_finding debug st index input) in *.
  assert (NoDup (seen st1)) as Hnd1.
  { destruct (decide (id ∈ seen st)) as [Hi|Hi]; [by rewrite (Hold Hi)|]. rewrite (Hnew Hi).
    apply NoDup_app. split_and!; [done| |apply NoDup_singleton]. by intros x Hx ->%list_elem_of_singleton. }
  destruct (IH st1 (index + 1) Hnd1) as [IHd IHf]. clear IH. cbv zeta in *.
  assert (id ∉ seen st -> seen st1 ++ ids_from (index + 1) inputs = seen st ++ id :: ids_from (index + 1) inputs)
    as Hseen by (intros Hi; by rewrite (Hnew Hi), <- app_assoc).
  split.
  - rewrite IHd, Hd, Forall_cons. split.
    + intros ((? & Hi & ?) & Hn & ?). rewrite (Hseen Hi) in Hn. done.
    + intros (? & Hn & ? & ?). assert (id ∉ seen st) as Hi.
      { apply NoDup_app in Hn as (_ & Hn & _). intros Hin. apply (Hn id Hin). by left. }
      by rewrite (Hseen Hi).
  - intros H. pose proof (proj1 IHd H) as (H1 & _). pose proof (proj1 Hd H1) as (_ & Hi & Ha).
    destruct (IHf H) as (new' & Hf' & Hids' & Hok'). destruct (Hok Ha Hi) as [Hl Hw].
    exists (new ++ new'). rewrite Hf', Hf, map_app, Hids', <- app_assoc. split_and!; [done| |by apply Forall_app].
    destruct new as [|f [|f' new]]; simpl in Hl; [lia| |lia].
    simpl. f_equal. by apply (Hids f); left.
Qed.

(** a report completes exactly when a fixer can act on all of it.  A submission
    becomes a completed report if and only if it has text, names its head (unless it
    is an import), and its findings have distinct ids, a title, evidence, an anchor
    and a known severity each; it then keeps every finding, in order, under its id.
    Whatever the defects, the text is kept, and a completed report is bindable. *)
Theorem a_report_completes_when_it_is_actionable s g :
  let a := into_artifact debug s g in
  (status a = Completed <->
     trim (s_report s) <> EmptyString
     /\ (i_origin g = Submitted -> head_sha (s_scope s) <> None)
     /\ NoDup (ids_from 0 (s_findings s))
     /\ Forall (fun i => actionable i = true) (s_findings s))
  /\ (status a = Completed -> is_bindable a = true /\ defects a = []
        /\ map f_id (findings a) = ids_from 0 (s_findings s) /\ Forall well_kept (findings a))
  /\ report a = trim (s_report s) /\ scope a = s_scope s.
Proof.
  cbv zeta. unfold into_artifact. set (ds := _ ++ _). cbn [status findings report scope defects].
  destruct (ingest_findings_spec (s_findings s) (mkIngesting ds [] []) 0) as [Hd Hf]; [constructor|].
  cbn [in_defects in_findings seen app] in Hd, Hf.
  set (st := ingest_findings debug (mkIngesting ds [] []) 0 (s_findings s)) in *.
  assert ((match in_defects st with [] => Completed | _ => Draft end) = Completed <-> in_defects st = []) as Hst
    by (destruct (in_defects st); split; done).
  assert (ds = [] <-> trim (s_report s) <> EmptyString /\ (i_origin g = Submitted -> head_sha (s_scope s) <> None))
    as Hds.
  { unfold ds. rewrite app_nil_iff. rewrite <- is_empty_false.
    destruct (is_empty (trim (s_report s))); [naive_solver|].
    destruct (bool_decide_reflect (i_origin g = Submitted)), (bool_decide_reflect (head_sha (s_scope s) = None));
      simpl; naive_solver. }
  split_and!; [|intros Hc|done|done].
  - rewrite Hst, Hd, Hds. naive_solver.
  - apply Hst in Hc. destruct (Hf Hc) as (new & -> & Hids & Hok). split_and!; try done.
    unfold is_bindable. simpl. by rewrite Hc.
Qed.

Lemma ingest_findings_ids inputs : forall st index,
  NoDup (map f_id (in_findings st)) -> (forall f, f ∈ in_findings st -> f_id f ∈ seen st) ->
  Forall (fun f => f_id f <> EmptyString) (in_findings st) ->
  let st' := ingest_findings debug st index inputs in
  NoDup (map f_id (in_findings st')) /\ Forall (fun f => f_id f <> EmptyString) (in_findings st').
Proof.
  induction inputs as [|input inputs IH]; intros st index Hnd Hseen Hne; cbn [ingest_findings]; [done|].
  destruct (ingest_finding_spec st index input) as (_ & Hnew & Hold & new & Hf & Hids & Hlen & _).
  set (id := finding_id input (index + 1)) in *.
  apply IH; rewrite Hf.
  - rewrite map_app. apply NoDup_app. split_and!; [done| |].
    + intros x Hx Hx'. apply list_elem_of_In, in_map_iff in Hx as (f & <- & Hx).
      apply list_elem_of_In, in_map_iff in Hx' as (f' & E & Hx').
      apply list_elem_of_In in Hx, Hx'. destruct (Hids f' Hx') as [Ef Hi]. apply Hi.
      rewrite <- Ef, E. by apply Hseen.
    + destruct new as [|f [|]]; simpl in *; [constructor|apply NoDup_singleton|lia].
  - intros f [Hin|Hin]%elem_of_app.
    + destruct (decide (id ∈ seen st)) as [Hi|Hi]; [rewrite (Hold Hi)|rewrite (Hnew Hi), elem_of_app; left];
        by apply Hseen.
    + destruct (Hids f Hin) as [-> Hi]. rewrite (Hnew Hi), elem_of_app. right. by left.
  - apply Forall_app. split; [done|]. rewrite Forall_forall. intros f Hin.
    destruct (Hids f Hin) as [-> _]. apply finding_id_nonempty.
Qed.

Lemma artifact_ids s g :
  NoDup (map f_id (findings (into_artifact debug s g)))
  /\ Forall (fun f => f_id f <> EmptyString) (findings (into_artifact debug s g)).
Proof.
  apply ingest_findings_ids; [constructor| |constructor]. intros f Hf. by apply elem_of_nil in Hf.
Qed.

(** ** Answering *)

(** An outcome that adds no defect to a report with the finding. *)
Definition answers (input : OutcomeInput) : bool :=
  match parse_disposition (oi_disposition input) with
  | Some _ => negb (is_empty (trim (oi_evidence input)))
  | None => false
  end.

Definition answered_id (input : OutcomeInput) : string := trim (oi_finding input).

Definition has_finding (r : ReviewArtifact) (id : string) : Prop := id ∈ map f_id (findings r).

Lemma has_finding_test r id :
  existsb (fun f => bool_decide (f_id f = id)) (findings r) = true <-> has_finding r id.
Proof.
  unfold has_finding. rewrite existsb_exists, list_elem_of_In, in_map_iff.
  split; intros (f & H1 & H2); exists f; [|split; [done|by apply bool_decide_eq_true]].
  split; [by apply bool_decide_eq_true in H2|done].
Qed.

(** What the loop keeps: an outcome per id covered, each of a finding of the report. *)
Definition answering_ok (r : ReviewArtifact) (st : Answering) : Prop :=
  map o_finding (an_outcomes st) = covered st /\ NoDup (covered st)
  /\ (forall id, id ∈ covered st -> has_finding r id /\ id <> EmptyString).

Lemma ingest_outcome_spec r st index input :
  answering_ok r st ->
  let st' := ingest_outcome debug r st index input in
  answering_ok r st'
  /\ (an_defects st' = [] <-> an_defects st = [] /\ answered_id input <> EmptyString
        /\ has_finding r (answered_id input) /\ answered_id input ∉ covered st /\ answers input = true)
  /\ (an_defects st' = [] -> covered st' = covered st ++ [answered_id input]).
Proof.
  intros (Hm & Hnd & Hin). cbv zeta. unfold ingest_outcome, answers. fold (answered_id input).
  set (id := answered_id input).
  destruct (is_empty id) eqn:Ee.
  { simpl. split; [done|]. rewrite app_nil_iff. split; [|by intros [_ ?]].
    split; [by intros [_ ?]|]. intros (_ & H & _). by apply is_empty_false in H; rewrite Ee in H. }
  apply is_empty_false in Ee.
  destruct (existsb _ (findings r)) eqn:Ef; simpl.
  2: { split; [done|]. rewrite app_nil_iff. split; [|by intros [_ ?]].
       split; [by intros [_ ?]|]. intros (_ & _ & H & _). apply has_finding_test in H. congruence. }
  apply has_finding_test in Ef. case_bool_decide as Hc.
  { simpl. split; [done|]. rewrite app_nil_iff. split; [|by intros [_ ?]]. naive_solver. }
  destruct (parse_disposition (oi_disposition input)) as [d|]; simpl.
  2: { split; [done|]. rewrite app_nil_iff. split; [|by intros [_ ?]]. naive_solver. }
  split; [unfold answering_ok; simpl; split_and!|split; [|done]].
  - by rewrite map_app, Hm.
  - apply NoDup_app. split_and!; [done| |apply NoDup_singleton]. by intros x Hx ->%list_elem_of_singleton.
  - intros x [Hx| ->%list_elem_of_singleton]%elem_of_app; [by apply Hin|done].
  - destruct (is_empty (trim (oi_evidence input))); simpl; rewrite ?app_nil_r, ?app_nil_iff; naive_solver.
Qed.

Lemma ingest_outcomes_spec r inputs : forall st index,
  answering_ok r st ->
  let st' := ingest_outcomes debug r st index inputs in
  answering_ok r st'
  /\ (an_defects st' = [] <-> an_defects st = [] /\ NoDup (covered st ++ map answered_id inputs)
        /\ Forall (fun i => answered_id i <> EmptyString /\ has_finding r (answered_id i) /\ answers i = true) inputs)
  /\ (an_defects st' = [] -> covered st' = covered st ++ map answered_id inputs).
Proof.
  induction inputs as [|input inputs IH]; intros st index Hok; cbn [ingest_outcomes map].
  { rewrite app_nil_r. split_and!; [done| |done]. destruct Hok as (_ & Hnd & _). naive_solver. }
  destruct (ingest_outcome_spec r st index input Hok) as (Hok1 & Hd & Hc).
  destruct (IH _ (index + 1) Hok1) as (Hok2 & Hd2 & Hc2). clear IH. cbv zeta in *.
  split; [done|].
  set (st1 := ingest_outcome debug r st index input) in *.
  assert (an_defects st1 = [] -> covered st1 ++ map answered_id inputs
    = covered st ++ answered_id input :: map answered_id inputs) as Happ
    by (intros H; by rewrite (Hc H), <- app_assoc).
  split.
  - rewrite Hd2, Forall_cons. split.
    + intros (H1 & Hn & Hfa). rewrite (Happ H1) in Hn. apply Hd in H1. naive_solver.
    + intros (H0 & Hn & (Hne & Hhf & Ha) & Hfa).
      assert (answered_id input ∉ covered st) as Hni.
      { apply NoDup_app in Hn as (_ & Hn & _). intros Hin. apply (Hn _ Hin). by left. }
      assert (an_defects st1 = []) as H1 by (by apply Hd). by rewrite (Happ H1).
  - intros H. rewrite (Hc2 H). apply Hd2 in H as (H & _). by apply Happ.
Qed.

Lemma uncovered_partition (fs : list Finding) (cs : list string) :
  NoDup (map f_id fs) -> NoDup cs -> (forall id, id ∈ cs -> id ∈ map f_id fs) ->
  cs ++ map f_id (List.filter (fun f => negb (bool_decide (f_id f ∈ cs))) fs) ≡ₚ map f_id fs.
Proof.
  intros Hnd Hc Hsub.
  assert (forall id, id ∈ map f_id (List.filter (fun f => negb (bool_decide (f_id f ∈ cs))) fs)
    <-> id ∈ map f_id fs /\ id ∉ cs) as Hin.
  { intros id. rewrite !list_elem_of_In, !in_map_iff. split.
    - intros (f & <- & [Hf Hn]%filter_In). apply negb_true_iff, bool_decide_eq_false in Hn.
      split; [by exists f|by rewrite <- list_elem_of_In].
    - intros [(f & <- & Hf) Hn]. exists f. split; [done|]. apply filter_In. split; [done|].
      by apply negb_true_iff, bool_decide_eq_false; rewrite list_elem_of_In. }
  apply NoDup_Permutation.
  - apply NoDup_app. split_and!; [done|intros id Hi; rewrite Hin; tauto|].
    clear Hsub Hin. induction fs as [|f fs IH]; simpl in *; [constructor|].
    apply NoDup_cons in Hnd as [Hn Hnd]. destruct (negb _); simpl; [|by apply IH].
    apply NoDup_cons. split; [|by apply IH]. contradict Hn.
    apply list_elem_of_In, in_map_iff in Hn as (f' & E & [Hf' _]%filter_In).
    apply list_elem_of_In, in_map_iff. by exists f'.
  - done.
  - intros id. rewrite elem_of_app, Hin. split; [intros [H|[H _]]; auto|].
    intros H. destruct (decide (id ∈ cs)); auto.
Qed.

(** a result accounts for every finding.  Against any report ingestion makes, the
    outcomes kept and the findings listed as uncovered are together the findings of
    the report, each once: no finding is answered twice, none is made up, none is
    lost.  The result is completed exactly when the report was bindable and every
    finding has one outcome with a known disposition and evidence. *)
Theorem a_result_accounts_for_every_finding s g rs rg :
  let r := into_artifact debug s g in
  let res := result_into_artifact debug rs r rg in
  map o_finding (outcomes res) ++ uncovered res ≡ₚ map f_id (findings r)
  /\ (r_status res = Completed <->
        is_bindable r = true /\ map answered_id (rs_outcomes rs) ≡ₚ map f_id (findings r)
        /\ Forall (fun i => answers i = true) (rs_outcomes rs))
  /\ (r_status res = Completed -> map o_finding (outcomes res) = map answered_id (rs_outcomes rs)).
Proof.
  intros r res. unfold res, result_into_artifact. cbn [outcomes uncovered r_status].
  destruct (artifact_ids s g) as [Hnd Hne]. fold r in Hnd, Hne.
  set (ds := if is_bindable r then [] else [not_bindable r]).
  destruct (ingest_outcomes_spec r (rs_outcomes rs) (mkAnswering ds [] []) 0) as (Hok & Hd & Hc).
  { split_and!; [done|constructor|intros id Hi; by apply elem_of_nil in Hi]. }
  cbn [an_defects covered app] in Hd, Hc.
  set (st := ingest_outcomes debug r (mkAnswering ds [] []) 0 (rs_outcomes rs)) in *.
  destruct Hok as (Hm & Hcn & Hin).
  pose proof (uncovered_partition (findings r) (covered st) Hnd Hcn (fun id H => proj1 (Hin id H))) as Hpart.
  set (unc := map f_id (List.filter _ (findings r))) in *. rewrite Hm.
  assert (ds = [] <-> is_bindable r = true) as Hb by (unfold ds; destruct (is_bindable r); split; done).
  assert ((match an_defects st ++ match unc with [] => [] | _ => [not_covered unc] end with
           [] => Completed | _ => Draft end) = Completed <-> an_defects st = [] /\ unc = []) as Hst.
  { destruct (an_defects st); simpl; [|split; [done|by intros [? ?]]]. destruct unc; split; done || by intros [_ ?]. }
  split_and!; [done| |].
  - rewrite Hst, Hd, Hb. split.
    + intros ((Hbind & Hn & Hfa) & Hu).
      assert (an_defects st = []) as Hz by (apply Hd; by rewrite Hb). specialize (Hc Hz).
      rewrite Hu, app_nil_r, Hc in Hpart. split_and!; [done|done|].
      eapply Forall_impl; [exact Hfa|]. by intros i (_ & _ & ?).
    + intros (Hbind & Hp & Hfa).
      assert (Forall (fun i => answered_id i <> EmptyString /\ has_finding r (answered_id i) /\ answers i = true)
        (rs_outcomes rs)) as Hfa'.
      { rewrite Forall_forall in Hfa |- *. intros i Hi.
        assert (has_finding r (answered_id i)) as Hh
          by (unfold has_finding; rewrite <- Hp; by apply list_elem_of_In, in_map, list_elem_of_In).
        split_and!; [|done|by apply Hfa]. apply list_elem_of_In, in_map_iff in Hh as (f & <- & Hf).
        rewrite Forall_forall in Hne. by apply Hne, list_elem_of_In. }
      assert (NoDup (map answered_id (rs_outcomes rs))) as Hn by (by rewrite Hp).
      split; [done|]. assert (an_defects st = []) as Hz by (apply Hd; by rewrite Hb).
      rewrite (Hc Hz), Hp in Hpart. apply Permutation_length in Hpart. rewrite length_app in Hpart.
      destruct unc; [done|simpl in Hpart; lia].
  - intros H. apply Hst in H as [Hz _]. by apply Hc.
Qed.

End ingest.

(** ** Selecting *)

Lemma dedup_cons2 a b l :
  dedup (a :: b :: l) = if bool_decide (a = b) then dedup (b :: l) else a :: dedup (b :: l).
Proof. done. Qed.

Lemma dedup_elem l x : x ∈ dedup l <-> x ∈ l.
Proof.
  induction l as [|a [|b l] IH]; [done|done|]. rewrite dedup_cons2. case_bool_decide as E.
  - rewrite IH, E, !elem_of_cons. naive_solver.
  - rewrite elem_of_cons, IH, (elem_of_cons _ x a). done.
Qed.

Lemma dedup_head l a rest : dedup l = a :: rest -> head l = Some a.
Proof.
  revert a rest. induction l as [|x [|y l] IH]; intros a rest; [done|by intros [= -> _]|].
  rewrite dedup_cons2. case_bool_decide as E; [|by intros [= -> _]]. intros H%IH. by rewrite E.
Qed.

Lemma dedup_two l a b rest : dedup l = a :: b :: rest -> a <> b.
Proof.
  revert a b rest. induction l as [|x [|y l] IH]; intros a b rest; [done|done|].
  rewrite dedup_cons2. case_bool_decide as E; [apply IH|]. intros H.
  assert (dedup (y :: l) = b :: rest /\ x = a) as [H' <-] by (split; congruence).
  apply dedup_head in H'. simpl in H'. congruence.
Qed.

Lemma dedup_single l : (length (dedup l) <= 1)%nat -> forall x y, x ∈ l -> y ∈ l -> x = y.
Proof.
  intros H x y Hx Hy. apply dedup_elem in Hx, Hy. destruct (dedup l) as [|a [|b r]]; [|..|simpl in H; lia].
  - by apply elem_of_nil in Hx.
  - apply list_elem_of_singleton in Hx, Hy. congruence.
Qed.

Lemma insert_newest_perm r l : insert_newest r l ≡ₚ r :: l.
Proof.
  induction l as [|x l IH]; [done|]. simpl. destruct (_ <? _); [done|]. rewrite IH. apply perm_swap.
Qed.

Definition newer (a b : ReviewArtifact) : Prop := created_at_ms b <= created_at_ms a.

Lemma insert_newest_sorted r l : StronglySorted newer l -> StronglySorted newer (insert_newest r l).
Proof.
  induction l as [|x l IH]; simpl; intros H; [by repeat constructor|].
  apply StronglySorted_inv in H as [Hs Hf]. destruct (Z.ltb_spec (created_at_ms x) (created_at_ms r)) as [Hlt|Hle].
  - constructor; [by constructor|]. constructor; [unfold newer; lia|].
    eapply Forall_impl; [exact Hf|]. unfold newer. intros y Hy. lia.
  - constructor; [by apply IH|]. rewrite insert_newest_perm. constructor; [unfold newer; lia|done].
Qed.

Lemma newest_first_spec l : newest_first l ≡ₚ l /\ StronglySorted newer (newest_first l).
Proof.
  unfold newest_first.
  assert (forall acc, StronglySorted newer acc ->
    fold_left (fun acc r => insert_newest r acc) l acc ≡ₚ acc ++ l
    /\ StronglySorted newer (fold_left (fun acc r => insert_newest r acc) l acc)) as H.
  { induction l as [|r l IH]; intros acc Ha; simpl; [by rewrite app_nil_r|].
    destruct (IH _ (insert_newest_sorted r acc Ha)) as [Hp Hs]. split; [|done].
    rewrite Hp, insert_newest_perm. by rewrite <- Permutation_middle. }
  destruct (H []) as [Hp Hs]; [constructor|]. done.
Qed.

(** The report chosen among equals: no older than any, and later than those as new. *)
Definition chosen (r : ReviewArtifact) (l : list ReviewArtifact) : Prop :=
  exists l1 l2, l = l1 ++ r :: l2 /\ Forall (fun x => created_at_ms x <= created_at_ms r) l1
    /\ Forall (fun x => created_at_ms x < created_at_ms r) l2.

Lemma max_by_created_spec l : l <> [] -> exists r, max_by_created l = Some r /\ chosen r l.
Proof.
  unfold max_by_created. intros Hne. destruct l as [|r0 l]; [done|]. simpl. clear Hne.
  assert (forall best pre, chosen best pre -> exists r,
    fold_left (fun best r => match best with
      | Some b => if (created_at_ms b <=? created_at_ms r)%Z then Some r else best | None => Some r end) l (Some best)
    = Some r /\ chosen r (pre ++ l)) as H.
  { induction l as [|x l IH]; intros best pre Hb; simpl; [rewrite app_nil_r; by exists best|].
    assert (pre ++ x :: l = (pre ++ [x]) ++ l) as -> by (by rewrite <- app_assoc).
    destruct Hb as (l1 & l2 & -> & H1 & H2). destruct (Z.leb_spec (created_at_ms best) (created_at_ms x)); apply IH.
    - exists (l1 ++ best :: l2), []. split; [done|]. split; [|constructor].
      apply Forall_app. split; [eapply Forall_impl; [exact H1|]; simpl; lia|].
      constructor; [lia|]. eapply Forall_impl; [exact H2|]. simpl. lia.
    - exists l1, (l2 ++ [x]). rewrite <- app_assoc. split; [done|]. split; [done|].
      apply Forall_app. split; [done|]. by repeat constructor. }
  apply (H r0 [r0]). exists [], []. split; [done|]. by split; constructor.
Qed.

Lemma tier_of_spec reports current :
  let bindable := List.filter is_bindable reports in
  (tier_of reports current = [] <-> bindable = [])
  /\ exists keep : bool,
       tier_of reports current = List.filter (fun r => Bool.eqb (is_current current r) keep) bindable
       /\ ((exists r, r ∈ bindable /\ is_current current r = true) -> keep = true).
Proof.
  cbv zeta. unfold tier_of. set (b := List.filter is_bindable reports).
  assert (forall P Q : ReviewArtifact -> bool, (forall r, P r = Q r) -> List.filter P b = List.filter Q b) as Hext
    by (intros P Q H; by apply List.filter_ext).
  destruct (List.filter (is_current current) b) as [|r fresh] eqn:E.
  - assert (forall r, r ∈ b -> is_current current r = false) as Hno.
    { intros r Hr. destruct (is_current current r) eqn:Er; [|done].
      assert (In r (List.filter (is_current current) b)) as Hin
        by (apply filter_In; split; [by apply list_elem_of_In|done]). by rewrite E in Hin. }
    split.
    + split; [|by intros ->]. intros H. destruct b as [|r b'] eqn:Eb; [done|].
      simpl in H. rewrite (Hno r) in H by (by left). done.
    + exists false. split; [apply Hext; intros r; by destruct (is_current current r)|].
      intros (r & Hr & Hc). rewrite (Hno r Hr) in Hc. done.
  - split; [split; [done|by intros H; rewrite H in E]|]. exists true. split; [|done].
    rewrite <- E. apply Hext. intros r'. by destruct (is_current current r').
Qed.

Definition work_label (r : ReviewArtifact) : string := trim (label (scope r)).

Definition labels_of (tier : list ReviewArtifact) : list string :=
  dedup (merge_sort String.le (map (fun r => trim (label (scope r))) tier)).

Lemma labels_of_elem tier x : x ∈ labels_of tier <-> exists r, r ∈ tier /\ work_label r = x.
Proof.
  unfold labels_of. rewrite dedup_elem, merge_sort_Permutation, list_elem_of_In, in_map_iff.
  split; intros (r & H1 & H2); exists r; [split; [by apply list_elem_of_In|done]|by rewrite <- list_elem_of_In].
Qed.

(** The test that makes a selection ambiguous. *)
Definition unsure (tier : list ReviewArtifact) : bool :=
  (1 <? length (labels_of tier))%nat || ((1 <? length tier)%nat && existsb is_empty (labels_of tier)).

Lemma unsure_true tier :
  unsure tier = true ->
  (2 <= length tier)%nat
  /\ ((exists r1 r2, r1 ∈ tier /\ r2 ∈ tier /\ work_label r1 <> work_label r2)
      \/ exists r', r' ∈ tier /\ work_label r' = EmptyString).
Proof.
  intros [E|[E1 E2]%andb_true_iff]%orb_true_iff.
  - apply Nat.ltb_lt in E. destruct (labels_of tier) as [|a [|b rest]] eqn:El; [simpl in E; lia..|].
    assert (a <> b) as Hab by (unfold labels_of in El; by apply dedup_two in El).
    destruct (proj1 (labels_of_elem tier a) ltac:(rewrite El; by left)) as (r1 & H1 & E1).
    destruct (proj1 (labels_of_elem tier b) ltac:(rewrite El; right; by left)) as (r2 & H2 & E2).
    split; [|left; exists r1, r2; split_and!; congruence].
    destruct tier as [|x [|y l]]; [by apply elem_of_nil in H1| |simpl; lia].
    apply list_elem_of_singleton in H1, H2. congruence.
  - apply Nat.ltb_lt in E1. split; [lia|right].
    apply existsb_exists in E2 as (x & Hx & He). apply list_elem_of_In, labels_of_elem in Hx as (r' & Hr' & <-).
    exists r'. split; [done|]. by destruct (work_label r').
Qed.

Lemma unsure_false tier r :
  unsure tier = false -> r ∈ tier ->
  (forall r', r' ∈ tier -> work_label r' = work_label r) /\ (tier = [r] \/ work_label r <> EmptyString).
Proof.
  intros [E1 E2]%orb_false_iff Hr. apply Nat.ltb_ge in E1. split.
  - intros r' Hr'. apply (dedup_single _ E1); apply dedup_elem, labels_of_elem; [by exists r'|by exists r].
  - destruct (1 <? length tier)%nat eqn:El; simpl in E2.
    + right. intros He. assert (existsb is_empty (labels_of tier) = true); [|congruence].
      apply existsb_exists. exists EmptyString. split; [|done]. apply list_elem_of_In, labels_of_elem. by exists r.
    + left. apply Nat.ltb_ge in El.
      destruct tier as [|x [|y l]]; [by apply elem_of_nil in Hr| |simpl in El; lia].
      by apply list_elem_of_singleton in Hr as ->.
Qed.

(** the report a fixer binds.  [Missing] is said only when no report is bindable.  A
    bound report is bindable, shows the freshness it has, is current whenever a
    bindable report is, and among the bindable reports that are current or not like
    it, it is the newest, the last submitted of equals, all of them having its label,
    which is not blank unless it is the only one.  Else the candidates are those
    reports, newest first, at least two of which differ in their label or one of
    which has none. *)
Theorem the_report_bound_is_the_one_meant reports current :
  let bindable := List.filter is_bindable reports in
  match select_report reports current with
  | Missing => bindable = []
  | Bound id fresh => exists r, let peers := List.filter (fun r' => Bool.eqb (is_current current r')
                                                       (bool_decide (fresh = Current))) bindable in
      r ∈ bindable /\ a_id r = id /\ freshness r current = fresh
      /\ ((exists r', r' ∈ bindable /\ freshness r' current = Current) -> fresh = Current)
      /\ chosen r peers /\ (forall r', r' ∈ peers -> work_label r' = work_label r)
      /\ (peers = [r] \/ work_label r <> EmptyString)
  | Ambiguous ids => exists keep peers, peers = List.filter (fun r' => Bool.eqb (is_current current r') keep) bindable
      /\ ((exists r', r' ∈ bindable /\ freshness r' current = Current) -> keep = true)
      /\ (exists sorted, ids = map a_id sorted /\ sorted ≡ₚ peers /\ StronglySorted newer sorted)
      /\ (2 <= length peers)%nat
      /\ ((exists r1 r2, r1 ∈ peers /\ r2 ∈ peers /\ work_label r1 <> work_label r2)
          \/ exists r', r' ∈ peers /\ work_label r' = EmptyString)
  end.
Proof.
  intros bindable. unfold select_report.
  destruct (tier_of_spec reports current) as [Hnil (keep & Htier & Hkeep)]. fold bindable in Hnil, Htier, Hkeep.
  assert ((exists r', r' ∈ bindable /\ freshness r' current = Current) -> keep = true) as Hkeep'.
  { intros (r' & Hr' & Hf). apply Hkeep. exists r'. split; [done|]. by apply bool_decide_eq_true. }
  destruct (tier_of reports current) as [|t0 ts]; [by apply Hnil|].
  assert (t0 :: ts <> []) as Hne by done. clear Hnil. revert Hne Htier. generalize (t0 :: ts) as tier.
  clear t0 ts. intros tier Hne Htier. fold (labels_of tier). fold (unsure tier).
  destruct (unsure tier) eqn:Eamb.
  - exists keep, tier. destruct (newest_first_spec tier) as [Hp Hs].
    split; [done|]. split; [done|]. split; [by exists (newest_first tier)|]. by apply unsure_true.
  - destruct (max_by_created_spec tier Hne) as (r & -> & Hch). exists r.
    assert (r ∈ tier) as Hr by (destruct Hch as (l1 & l2 & -> & _); rewrite elem_of_app; right; by left).
    assert (r ∈ bindable /\ is_current current r = keep) as [Hrb Hrk]
      by (revert Hr; rewrite Htier, !list_elem_of_In, filter_In; by rewrite eqb_true_iff).
    assert (bool_decide (freshness r current = Current) = keep) as Hk by done. rewrite Hk, <- Htier.
    destruct (unsure_false tier r Eamb Hr) as [Hl Ho]. split_and!; try done.
    intros H. apply Hkeep' in H. rewrite H in Hk. by apply bool_decide_eq_true in Hk.
Qed.

(** An id that was omitted can be that of another finding: the second finding of this
    submission is lost, and the submission stays a draft. *)
Definition collision : ReviewSubmission :=
  mkSubmission "text"
    [mkFindingInput (Some "f2"%string) "one" "minor" ["a.rs:1"%string] "e" EmptyString [];
     mkFindingInput None "two" "minor" ["a.rs:2"%string] "e" EmptyString []]
    (mkScope "l" None (Some "abc"%string) None) [] [].

Example an_omitted_id_can_collide debug :
  let a := into_artifact debug collision (mkIngest "r1" "w" None EmptyString None Submitted 0) in
  status a = Draft /\ map title (findings a) = ["one"%string].
Proof. split; reflexivity. Qed.
