(* ===== verification/ReviewStore.v ===== *)
(** * The review store ([src/crates/server/src/review_store.rs])

    Reports and results are rows of the daemon's store, one per artifact, under a
    prefix of their workspace and a zero-padded sequence.  The storage trait is the
    class [Store] of WorkStore.v; [BatchLaws] adds what this file relies on beyond
    [StoreLaws]: a listing is in key order, and a batch of writes and deletions does
    them in turn.  serde is the parameter [encode], [decode]. *)

From Stdlib Require Import Ascii String.
From S2P Require Import Prelude Text WorkStore Review.

#[global] Open Scope Z_scope.
#[local] Open Scope string_scope.
#[local] Open Scope list_scope.

Definition REVIEW_KV_PREFIX : string := "lazybox:review:".
Definition RESULT_KV_PREFIX : string := "lazybox:review-result:".
Definition REPORTS_PER_WORKSPACE : nat := 20.
Definition RESULTS_PER_WORKSPACE : nat := 20.
Definition SEQ_WIDTH : nat := 12.

(** A digit of base 16, in upper case. *)
Definition hex_digit (n : nat) : ascii :=
  if (n <? 10)%nat then ascii_of_nat (48 + n) else ascii_of_nat (55 + n).

Fixpoint encode_key (key : string) : string :=
  match key with
  | EmptyString => EmptyString
  | String b key =>
      if is_ascii_alphanumeric b then String b (encode_key key)
      else let n := nat_of_ascii b in
           String "_" (String (hex_digit (n / 16)) (String (hex_digit (n mod 16)) (encode_key key)))
  end.

Definition report_prefix (workspace : string) : string := REVIEW_KV_PREFIX +:+ encode_key workspace +:+ ":".
Definition result_prefix (workspace : string) : string := RESULT_KV_PREFIX +:+ encode_key workspace +:+ ":".

(** The last [w] decimal digits of [n]. *)
Fixpoint digits (w : nat) (n : Z) : string :=
  match w with
  | O => EmptyString
  | S w => String (ascii_of_nat (48 + Z.to_nat (n / 10 ^ Z.of_nat w mod 10)%Z)) (digits w n)
  end.

(** [{seq:012}]: a longer number is not cut. *)
Definition zero_padded (seq : Z) : string :=
  if (seq <? 10 ^ Z.of_nat SEQ_WIDTH)%Z then digits SEQ_WIDTH seq else show_uint seq.

Definition row_key (prefix : string) (seq : Z) : string := prefix +:+ zero_padded seq.

Definition artifact_id (prefix_char : ascii) (seq : Z) : string := String prefix_char (show_uint seq).

Definition seq_of (id : string) (prefix_char : ascii) : option Z :=
  rest ← strip_prefix (String prefix_char EmptyString) id; parse_u64 rest.

(** [key.rsplit(':').next()] *)
Definition last_segment (key : string) : string :=
  match rsplit_once ":" key with Some (_, r) => r | None => key end.

Class BatchLaws (S Raw : Type) `{StoreLaws S Raw} := {
  list_sorted s p rows : list_kv_prefix s p = inl rows -> StronglySorted String.le (map fst rows);
  batch_ok s key value ks s' :
    apply_batch s (SetKv key value :: map DeleteKv ks) = inl s' ->
    rows_of s' = fold_left (fun kv k => delete k kv) ks (<[key := value]> (rows_of s));
}.

Section review_store.
Context {S Raw : Type} `{Store S Raw}.
Context {A : Type} (encode : A -> option Raw) (decode : Raw -> option A) (belongs_to : A -> string).

Definition max_of (l : list Z) : option Z :=
  fold_left (fun best x => match best with Some b => Some (Z.max b x) | None => Some x end) l None.

Definition load_rows (store : S) (prefix workspace : string) : list A + StoreError :=
  match list_kv_prefix store prefix with
  | inr e => inr e
  | inl rows =>
      inl (omap (fun row => a ← decode row.2; if bool_decide (belongs_to a = workspace) then Some a else None) rows)
  end.

Definition next_seq (store : S) (prefix : string) : Z + StoreError :=
  match list_kv_prefix store prefix with
  | inr e => inr e
  | inl rows =>
      inl match max_of (omap (fun row => parse_u64 (last_segment row.1)) rows) with
          | Some max => wrap_add u64_max max 1
          | None => 1
          end
  end.

Definition prune_keys (store : S) (prefix : string) (cap : nat) : list string + StoreError :=
  match list_kv_prefix store prefix with
  | inr e => inr e
  | inl rows =>
      let keys := merge_sort String.le (map fst rows) in
      let over := (length keys + 1 - cap)%nat in
      inl (take over keys)
  end.

(** [save_report] and [save_result], which differ in the prefix, the letter of their
    ids and the words of their errors; that of serde is left out. *)
Definition save_row (bad_id what prefix : string) (letter : ascii) (cap : nat) (store : S) (id : string) (a : A)
    : S + StoreError :=
  match seq_of id letter with
  | None => inr (Backend bad_id)
  | Some seq =>
      match encode a with
      | None => inr (Backend ("encode " +:+ what))
      | Some value =>
          match prune_keys store prefix cap with
          | inr e => inr e
          | inl keys => apply_batch store (SetKv (row_key prefix seq) value :: map DeleteKv keys)
          end
      end
  end.

End review_store.

Section reports.
Context {S Raw : Type} `{Store S Raw}.
Context (debug : string -> string).
Context (encode : ReviewArtifact -> option Raw) (decode : Raw -> option ReviewArtifact).
Context (encode_result : ReviewResult -> option Raw) (decode_result : Raw -> option ReviewResult).

Definition list_reports (store : S) (ws : string) : list ReviewArtifact + StoreError :=
  load_rows decode workspace store (report_prefix ws) ws.

Definition get_report (store : S) (ws id : string) : option ReviewArtifact + StoreError :=
  match list_reports store ws with
  | inr e => inr e
  | inl reports => inl (List.find (fun r => bool_decide (a_id r = id)) reports)
  end.

Definition list_results (store : S) (ws : string) : list ReviewResult + StoreError :=
  load_rows decode_result r_workspace store (result_prefix ws) ws.

Definition next_report_id (store : S) (ws : string) : string + StoreError :=
  match next_seq store (report_prefix ws) with inl seq => inl (artifact_id "r" seq) | inr e => inr e end.

Definition next_result_id (store : S) (ws : string) : string + StoreError :=
  match next_seq store (result_prefix ws) with inl seq => inl (artifact_id "x" seq) | inr e => inr e end.

Definition save_report (store : S) (r : ReviewArtifact) : S + StoreError :=
  save_row encode ("review id " +:+ debug (a_id r) +:+ " is not an `r<seq>` id") "review" (report_prefix (workspace r)) "r" REPORTS_PER_WORKSPACE store (a_id r) r.

Definition save_result (store : S) (r : ReviewResult) : S + StoreError :=
  save_row encode_result ("result id " +:+ debug (r_id r) +:+ " is not an `x<seq>` id") "review result" (result_prefix (r_workspace r)) "x" RESULTS_PER_WORKSPACE store (r_id r) r.

End reports.

Example key_of_a_workspace : encode_key "gh:a/b#7" = "gh_3Aa_2Fb_237".
Proof. reflexivity. Qed.
Example a_row_key : row_key "p:" 42 = "p:000000000042".
Proof. reflexivity. Qed.
Example a_sequence : seq_of "r42" "r" = Some 42.
Proof. reflexivity. Qed.
