(* ===== verification/ReviewKeys.v ===== *)
(** * The keys of the review store ([src/crates/server/src/review_store.rs])

    The zero-padded sequences read back as numbers and sort as numbers, the encoding
    of a workspace is injective, and the rows of two workspaces, and the reports and
    results of one, never share a prefix. *)

From Stdlib Require Import Ascii String.
From Stdlib Require DecimalString DecimalN DecimalPos.
From S2P Require Import Prelude Text ReviewStore.

#[global] Open Scope Z_scope.
#[local] Open Scope string_scope.
#[local] Open Scope list_scope.

(** ** Strings and their order *)

Lemma app_inj_prefix (p a b : string) : p +:+ a = p +:+ b -> a = b.
Proof.
  induction p as [|c p IH]; [done|]. rewrite !app_cons_str. intros [= H]. by apply IH.
Qed.

Lemma compare_app (p a b : string) : String.compare (p +:+ a) (p +:+ b) = String.compare a b.
Proof.
  induction p as [|c p IH]; [done|]. rewrite !app_cons_str. simpl.
  unfold Ascii.compare. by rewrite N.compare_refl.
Qed.

Lemma starts_with_app p s : starts_with p (p +:+ s) = true.
Proof. unfold starts_with. by rewrite strip_prefix_app. Qed.

Lemma starts_with_true p s : starts_with p s = true -> exists r, s = p +:+ r.
Proof.
  unfold starts_with. destruct (strip_prefix p s) as [r|] eqn:E; [|done].
  apply strip_prefix_Some in E. by exists r.
Qed.

(** What stands before the first [c] of a string. *)
Lemma before_first c (a a' b b' : string) :
  all_chars (fun x => negb (Ascii.eqb x c)) a = true ->
  all_chars (fun x => negb (Ascii.eqb x c)) a' = true ->
  a +:+ String c b = a' +:+ String c b' -> a = a' /\ b = b'.
Proof.
  revert a'. induction a as [|x a IH]; intros [|x' a'] Ha Ha';
    rewrite ?app_cons_str, ?app_nil_str; cbn [all_chars] in *; bool_norm.
  - by intros [= ->].
  - intros [= <- _]. by rewrite Ascii.eqb_refl in *.
  - intros [= -> _]. by rewrite Ascii.eqb_refl in *.
  - intros [= -> Hs]. destruct (IH a') as [-> ->]; try done.
Qed.

Lemma rsplit_once_last c (l r : string) :
  all_chars (fun x => negb (Ascii.eqb x c)) r = true ->
  rsplit_once c (l +:+ String c r) = Some (l, r).
Proof.
  intros Hr. unfold rsplit_once. rewrite rev_str_app, rev_str_cons, app_assoc_str.
  change (String c EmptyString +:+ rev_str l) with (String c (rev_str l)).
  assert (forall a b, all_chars (fun x => negb (Ascii.eqb x c)) a = true ->
    split_once c (a +:+ String c b) = Some (a, b)) as H.
  { intros a b. induction a as [|x a IH].
    - intros _. rewrite app_nil_str. simpl. by rewrite Ascii.eqb_refl.
    - rewrite app_cons_str. cbn [all_chars split_once]. intros ?; bool_norm.
      destruct (Ascii.eqb x c); [done|]. by rewrite IH. }
  rewrite H; [by rewrite !rev_str_involutive|].
  induction r as [|x r IH]; [done|]. rewrite rev_str_cons, all_chars_app. cbn [all_chars] in *.
  bool_norm. rewrite IH by done. destruct (Ascii.eqb x c); done.
Qed.

(** ** Numbers *)

(** The value of a decimal numeral after [acc]. *)
Fixpoint numeral (u : Decimal.uint) (acc : Z) : Z :=
  match u with
  | Decimal.Nil => acc
  | Decimal.D0 u => numeral u (acc * 10) | Decimal.D1 u => numeral u (acc * 10 + 1)
  | Decimal.D2 u => numeral u (acc * 10 + 2) | Decimal.D3 u => numeral u (acc * 10 + 3)
  | Decimal.D4 u => numeral u (acc * 10 + 4) | Decimal.D5 u => numeral u (acc * 10 + 5)
  | Decimal.D6 u => numeral u (acc * 10 + 6) | Decimal.D7 u => numeral u (acc * 10 + 7)
  | Decimal.D8 u => numeral u (acc * 10 + 8) | Decimal.D9 u => numeral u (acc * 10 + 9)
  end.

Lemma numeral_grows u acc : 0 <= acc -> acc <= numeral u acc.
Proof.
  revert acc. induction u as [|u IH|u IH|u IH|u IH|u IH|u IH|u IH|u IH|u IH|u IH]; intros acc Hacc;
    cbn [numeral]; [lia|..]; match goal with |- _ <= numeral _ ?a => specialize (IH a); lia end.
Qed.

Lemma parse_numeral u acc :
  0 <= acc -> numeral u acc <= u64_max ->
  parse_digits (DecimalString.NilEmpty.string_of_uint u) acc = Some (numeral u acc).
Proof.
  revert acc. induction u as [|u IH|u IH|u IH|u IH|u IH|u IH|u IH|u IH|u IH|u IH]; intros acc Hacc Hb;
    [done|..]; cbn [numeral DecimalString.NilEmpty.string_of_uint] in *;
    match type of Hb with numeral _ ?a <= _ => pose proof (numeral_grows u a ltac:(lia)) end;
    cbn [parse_digits is_digit];
    match goal with |- context [is_digit ?c] => change (is_digit c) with true end; cbv iota zeta;
    match goal with |- context [Z.of_nat ?n] => let m := eval vm_compute in (Z.of_nat n) in
      change (Z.of_nat n) with m end;
    rewrite ?Z.add_0_r;
    match goal with |- context [(?a <=? u64_max)%Z] => rewrite (proj2 (Z.leb_le a u64_max)) by lia end;
    apply IH; lia.
Qed.

Lemma numeral_pos u p : numeral u (Z.pos p) = Z.pos (Pos.of_uint_acc u p).
Proof.
  revert p. induction u as [|u IH|u IH|u IH|u IH|u IH|u IH|u IH|u IH|u IH|u IH]; intros p;
    [done|..]; cbn [numeral Pos.of_uint_acc];
    match goal with |- numeral _ ?a = Z.pos (Pos.of_uint_acc _ ?q) =>
      replace a with (Z.pos q) by lia end; apply IH.
Qed.

Lemma numeral_of_uint u : numeral u 0 = Z.of_N (N.of_uint u).
Proof.
  unfold N.of_uint. induction u as [|u IH|u IH|u IH|u IH|u IH|u IH|u IH|u IH|u IH|u IH]; [done|..];
    cbn [numeral Pos.of_uint]; [exact IH|..]; exact (numeral_pos u _).
Qed.

(** [n.to_string().parse::<u64>()] *)
Lemma parse_show_uint n : 0 <= n <= u64_max -> parse_u64 (show_uint n) = Some n.
Proof.
  intros Hn. unfold show_uint. set (u := N.to_uint (Z.to_N n)).
  assert (numeral u 0 = n) as Hu.
  { rewrite numeral_of_uint. unfold u. rewrite DecimalN.Unsigned.of_to. lia. }
  assert (parse_digits (DecimalString.NilEmpty.string_of_uint u) 0 = Some n) as Hp
    by (rewrite parse_numeral; [by f_equal|lia|lia]).
  destruct u; exact Hp.
Qed.

Lemma digit_char (k : Z) : 0 <= k < 10 ->
  is_digit (ascii_of_nat (48 + Z.to_nat k)) = true
  /\ nat_of_ascii (ascii_of_nat (48 + Z.to_nat k)) = (48 + Z.to_nat k)%nat.
Proof.
  intros Hk. assert (nat_of_ascii (ascii_of_nat (48 + Z.to_nat k)) = (48 + Z.to_nat k)%nat) as H
    by (apply nat_ascii_embedding; lia).
  split; [|done]. unfold is_digit. rewrite H. apply andb_true_iff. split; apply Nat.leb_le; lia.
Qed.

Lemma digits_step w n :
  n mod 10 ^ Z.of_nat (S w) = (n / 10 ^ Z.of_nat w) mod 10 * 10 ^ Z.of_nat w + n mod 10 ^ Z.of_nat w.
Proof.
  rewrite Nat2Z.inj_succ, Z.pow_succ_r by lia. set (b := 10 ^ Z.of_nat w).
  assert (0 < b) by (apply Z.pow_pos_nonneg; lia).
  rewrite Z.mul_comm, Z.rem_mul_r by lia. lia.
Qed.

Lemma top_digit w n : 0 <= n / 10 ^ Z.of_nat w mod 10 < 10.
Proof. apply Z.mod_pos_bound. lia. Qed.

Lemma all_digits w n : all_chars is_digit (digits w n) = true.
Proof.
  induction w as [|w IH]; [done|]. cbn [digits all_chars].
  by rewrite (proj1 (digit_char _ (top_digit w n))), IH.
Qed.

Lemma parse_all_digits w n acc :
  0 <= acc -> acc * 10 ^ Z.of_nat w + n mod 10 ^ Z.of_nat w <= u64_max ->
  parse_digits (digits w n) acc = Some (acc * 10 ^ Z.of_nat w + n mod 10 ^ Z.of_nat w).
Proof.
  revert acc. induction w as [|w IH]; intros acc Hacc Hb.
  - simpl. f_equal. rewrite Z.mod_1_r. lia.
  - pose proof (top_digit w n) as Ht. destruct (digit_char _ Ht) as [Hd Hn].
    rewrite digits_step in *. rewrite (Nat2Z.inj_succ w), Z.pow_succ_r in * by lia.
    cbn [digits parse_digits]. rewrite Hd, Hn. cbv zeta.
    set (k := n / 10 ^ Z.of_nat w mod 10) in *. set (b := 10 ^ Z.of_nat w) in *.
    assert (0 < b) by (apply Z.pow_pos_nonneg; lia).
    pose proof (Z.mod_pos_bound n b ltac:(lia)).
    replace (Z.of_nat (48 + Z.to_nat k - 48)) with k by lia.
    rewrite (proj2 (Z.leb_le (acc * 10 + k) u64_max)) by nia.
    rewrite IH by nia. f_equal. nia.
Qed.

Lemma compare_digits w m n :
  String.compare (digits w m) (digits w n)
  = (m mod 10 ^ Z.of_nat w ?= n mod 10 ^ Z.of_nat w)%Z.
Proof.
  induction w as [|w IH]; [by rewrite !Z.mod_1_r|].
  pose proof (top_digit w m) as Hm. pose proof (top_digit w n) as Hn.
  destruct (digit_char _ Hm) as [_ Am], (digit_char _ Hn) as [_ An].
  rewrite !digits_step. cbn [digits String.compare]. rewrite IH. unfold Ascii.compare.
  assert (forall a, N_of_ascii a = N.of_nat (nat_of_ascii a)) as Hna
    by (intros a; unfold nat_of_ascii; by rewrite N2Nat.id).
  rewrite !Hna, Am, An. set (b := 10 ^ Z.of_nat w).
  assert (0 < b) as Hb by (apply Z.pow_pos_nonneg; lia).
  pose proof (Z.mod_pos_bound m b Hb). pose proof (Z.mod_pos_bound n b Hb). fold b in Hm, Hn.
  destruct (N.compare_spec (N.of_nat (48 + Z.to_nat (m / b mod 10)))
    (N.of_nat (48 + Z.to_nat (n / b mod 10)))) as [E|E|E].
  - replace (n / b mod 10) with (m / b mod 10) by lia. symmetry. apply Z.add_compare_mono_l.
  - symmetry. apply Z.compare_lt_iff. nia.
  - symmetry. apply Z.compare_gt_iff. nia.
Qed.

(** ** The keys *)

Definition seq_ok (n : Z) : Prop := 0 <= n < 10 ^ Z.of_nat SEQ_WIDTH.

Lemma seq_ok_u64 n : seq_ok n -> n <= u64_max.
Proof.
  intros [_ Hn]. change (10 ^ Z.of_nat SEQ_WIDTH) with 1000000000000 in Hn. unfold u64_max. lia.
Qed.

Lemma zero_padded_digits n : seq_ok n -> zero_padded n = digits SEQ_WIDTH n.
Proof. intros [_ Hn]. unfold zero_padded. by rewrite (proj2 (Z.ltb_lt _ _) Hn). Qed.

Lemma digit_not_colon c : is_digit c = true -> negb (Ascii.eqb c ":") = true.
Proof. destruct (Ascii.eqb_spec c ":") as [->|]; done. Qed.

Lemma row_key_le p m n : seq_ok m -> seq_ok n -> m <= n -> String.le (row_key p m) (row_key p n).
Proof.
  intros Hm Hn Hle. unfold row_key, String.le, String.leb. rewrite !zero_padded_digits by done.
  rewrite compare_app, compare_digits, !Z.mod_small by done.
  destruct (Z.compare_spec m n); [done|done|lia].
Qed.

Lemma row_key_inj p m n : seq_ok m -> seq_ok n -> row_key p m = row_key p n -> m = n.
Proof.
  intros Hm Hn H%app_inj_prefix. rewrite !zero_padded_digits in H by done.
  pose proof (compare_digits SEQ_WIDTH m n) as Hc.
  rewrite H, compare_digits, !Z.mod_small, Z.compare_refl in Hc by done.
  by apply Z.compare_eq.
Qed.

Lemma row_key_seq p n : seq_ok n -> parse_u64 (last_segment (row_key (p +:+ ":") n)) = Some n.
Proof.
  intros Hn. unfold last_segment, row_key. rewrite app_assoc_str.
  change (":" +:+ zero_padded n) with (String ":" (zero_padded n)).
  rewrite zero_padded_digits by done. rewrite rsplit_once_last.
  - pose proof (parse_all_digits SEQ_WIDTH n 0 ltac:(lia)) as Hp.
    rewrite Z.mod_small, Z.mul_0_l, Z.add_0_l in Hp by exact Hn.
    specialize (Hp (seq_ok_u64 n Hn)).
    revert Hp. unfold parse_u64. pose proof (all_digits SEQ_WIDTH n) as Hd.
    destruct (digits SEQ_WIDTH n) as [|c s] eqn:E; [discriminate E|].
    cbn [all_chars] in Hd. bool_norm. intros Hp.
    destruct c as [[] [] [] [] [] [] [] []]; first [discriminate | exact Hp].
  - apply (all_chars_impl is_digit); [apply digit_not_colon|apply all_digits].
Qed.

Lemma seq_of_artifact c n : 0 <= n <= u64_max -> seq_of (artifact_id c n) c = Some n.
Proof.
  intros Hn. unfold seq_of, artifact_id. simpl. rewrite Ascii.eqb_refl. simpl. by apply parse_show_uint.
Qed.

Lemma hex_digit_inj m n : (m < 16)%nat -> (n < 16)%nat -> hex_digit m = hex_digit n -> m = n.
Proof. intros Hm Hn. do 16 (destruct m as [|m]; [do 16 (destruct n as [|n]; [done|]); lia|]). lia. Qed.

Lemma hex_digit_not_colon n : (n < 16)%nat -> negb (Ascii.eqb (hex_digit n) ":") = true.
Proof. intros Hn. do 16 (destruct n as [|n]; [done|]). lia. Qed.

Lemma byte_halves b : (nat_of_ascii b / 16 < 16 /\ nat_of_ascii b mod 16 < 16)%nat.
Proof.
  pose proof (nat_ascii_bounded b). split; [|by apply Nat.mod_upper_bound].
  apply Nat.Div0.div_lt_upper_bound. lia.
Qed.

Lemma encode_key_no_colon k : all_chars (fun x => negb (Ascii.eqb x ":")) (encode_key k) = true.
Proof.
  induction k as [|b k IH]; [done|]. cbn [encode_key]. destruct (is_ascii_alphanumeric b) eqn:E.
  - cbn [all_chars]. rewrite IH, andb_true_r. by destruct (Ascii.eqb_spec b ":") as [->|].
  - destruct (byte_halves b) as [H1 H2]. cbv zeta. cbn [all_chars].
    by rewrite IH, !hex_digit_not_colon.
Qed.

Lemma encode_key_inj a b : encode_key a = encode_key b -> a = b.
Proof.
  revert b. induction a as [|x a IH]; intros [|y b]; cbn [encode_key]; cbv zeta.
  - done.
  - by case_match.
  - by case_match.
  - destruct (is_ascii_alphanumeric x) eqn:Hx, (is_ascii_alphanumeric y) eqn:Hy.
    + intros [= -> H]. f_equal. by apply IH.
    + by intros [= -> _].
    + by intros [= <- _].
    + destruct (byte_halves x) as [H1 H2], (byte_halves y) as [H3 H4].
      intros H. injection H as Hd Hm Hr. f_equal; [|by apply IH].
      apply hex_digit_inj in Hd; [|done..]. apply hex_digit_inj in Hm; [|done..].
      pose proof (Nat.div_mod_eq (nat_of_ascii x) 16). pose proof (Nat.div_mod_eq (nat_of_ascii y) 16).
      rewrite <- (ascii_nat_embedding x), <- (ascii_nat_embedding y).
      assert (nat_of_ascii x / 16 = nat_of_ascii y / 16)%nat as Hq by exact Hd.
      assert (nat_of_ascii x mod 16 = nat_of_ascii y mod 16)%nat as Hr' by exact Hm.
      apply (f_equal ascii_of_nat). lia.
Qed.

(** Two workspaces never share a key, nor do the reports and the results of one. *)
Lemma report_prefixes_apart w w' k :
  starts_with (report_prefix w) k = true -> starts_with (report_prefix w') k = true -> w = w'.
Proof.
  intros [r ->]%starts_with_true [r' H]%starts_with_true. unfold report_prefix in H.
  rewrite !app_assoc_str in H. apply app_inj_prefix, before_first in H as [H _];
    [by apply encode_key_inj|apply encode_key_no_colon..].
Qed.

Lemma result_prefixes_apart w w' k :
  starts_with (result_prefix w) k = true -> starts_with (result_prefix w') k = true -> w = w'.
Proof.
  intros [r ->]%starts_with_true [r' H]%starts_with_true. unfold result_prefix in H.
  rewrite !app_assoc_str in H. apply app_inj_prefix, before_first in H as [H _];
    [by apply encode_key_inj|apply encode_key_no_colon..].
Qed.
