(* ===== verification/ReviewStoreProps.v ===== *)
(** * What the review store keeps ([src/crates/server/src/review_store.rs])

    For each workspace it is a first-in first-out queue of bounded length, whatever
    the other workspaces write. *)

From Stdlib Require Import Ascii String.
From S2P Require Import Prelude Text WorkStore Review ReviewStore ReviewKeys.

#[global] Open Scope Z_scope.
#[local] Open Scope string_scope.
#[local] Open Scope list_scope.

(** ** One workspace's rows, as a queue *)

Lemma StronglySorted_map {B C} (R : relation B) (R' : relation C) (f : B -> C) l :
  (forall x y, x ∈ l -> y ∈ l -> R x y -> R' (f x) (f y)) ->
  StronglySorted R l -> StronglySorted R' (map f l).
Proof.
  intros Hf Hs. induction Hs as [|x l Hs IH Hx]; simpl; constructor.
  - apply IH. intros; apply Hf; by try right.
  - apply Forall_map, Forall_forall. intros y Hy. rewrite Forall_forall in Hx.
    apply Hf; [left|by right|by apply Hx].
Qed.

Lemma StronglySorted_of_map {B C} (R : relation C) (f : B -> C) l :
  StronglySorted R (map f l) -> StronglySorted (fun a b => R (f a) (f b)) l.
Proof.
  induction l as [|x l IH]; simpl; [constructor|]. intros [Hs Hx]%StronglySorted_inv.
  constructor; [by apply IH|]. rewrite Forall_map in Hx. exact Hx.
Qed.

Lemma delete_all_lookup {V} ks (m : gmap string V) k :
  fold_left (fun kv k => delete k kv) ks m !! k = (if decide (k ∈ ks) then None else m !! k).
Proof.
  revert m. induction ks as [|k' ks IH]; intros m; cbn [fold_left]; [by rewrite decide_False by set_solver|].
  rewrite IH. destruct (decide (k ∈ ks)); [by rewrite decide_True by set_solver|].
  destruct (decide (k = k')) as [->|].
  - rewrite decide_True by set_solver. by apply lookup_delete_eq.
  - rewrite decide_False by set_solver. by apply lookup_delete_ne.
Qed.

Lemma max_of_last (l : list Z) x :
  (forall y, y ∈ l -> y <= x) -> max_of (l ++ [x]) = Some x.
Proof.
  intros Hx. unfold max_of. rewrite fold_left_app. simpl.
  set (step := fun best x => _).
  assert (forall l b, (forall y, b = Some y -> y <= x) -> (forall y, y ∈ l -> y <= x) ->
    forall y, fold_left step l b = Some y -> y <= x) as Hfold.
  { clear. induction l as [|z l IH]; intros b Hb Hl; simpl; [done|]. apply IH; [|set_solver].
    assert (z <= x) by (apply Hl; left).
    destruct b as [b|]; intros y [= <-]; [apply Z.max_lub; [by apply Hb|done]|done]. }
  specialize (Hfold l None ltac:(done) Hx). unfold step at 1. case_match; [|done].
  f_equal. apply Z.max_r. by apply Hfold.
Qed.

Section queue.
Context {S Raw : Type} `{BatchLaws S Raw}.
Context {A : Type} (encode : A -> option Raw) (belongs_to : A -> string).
Context (P : string).

Notation prefix := (P +:+ ":").

Definition row_of (x : Z * Raw) : string * Raw := (row_key prefix x.1, x.2).

(** The rows under the prefix are those of the queue [q], oldest first. *)
Record queue_at (s : S) (q : list (Z * Raw)) : Prop := mkQueue {
  queue_sorted : StronglySorted Z.lt (map fst q);
  queue_seqs : forall x, x ∈ q -> seq_ok x.1;
  queue_rows k v : rows_of s !! k = Some v /\ starts_with prefix k = true <-> (k, v) ∈ map row_of q;
}.

Lemma row_of_elem q k v : (k, v) ∈ map row_of q <-> exists n, (n, v) ∈ q /\ k = row_key prefix n.
Proof.
  rewrite list_elem_of_In, in_map_iff. split.
  - intros ([n w] & [= <- <-] & Hin%list_elem_of_In). by exists n.
  - intros (n & Hin%list_elem_of_In & ->). by exists (n, v).
Qed.

Lemma queue_keys_sorted s q : queue_at s q -> StronglySorted (fun a b => String.le a.1 b.1) (map row_of q).
Proof.
  intros [Hs Hn _].
  apply (StronglySorted_map (fun a b => a.1 < b.1)).
  - intros x y Hx Hy Hlt. apply row_key_le; [by apply Hn..|by apply Z.lt_le_incl].
  - by apply StronglySorted_of_map.
Qed.

Lemma queue_NoDup s q : queue_at s q -> NoDup (map row_of q).
Proof.
  intros [Hs Hn _]. induction q as [|x q IH]; simpl in *; [constructor|].
  apply StronglySorted_inv in Hs as [Hs Hx]. constructor; [|apply IH; auto; intros; apply Hn; by right].
  unfold row_of at 1. intros (n & Hin & Hk)%row_of_elem.
  apply row_key_inj in Hk; [|apply Hn; left|by apply (Hn (n, x.2)); right].
  rewrite Forall_forall in Hx. specialize (Hx n).
  assert (x.1 < n) by (apply Hx, list_elem_of_In, in_map_iff; exists (n, x.2); by rewrite <- list_elem_of_In).
  lia.
Qed.

(** A listing of the prefix is the queue. *)
Lemma listing_is_queue s q rows :
  queue_at s q -> list_kv_prefix s prefix = inl rows -> rows = map row_of q.
Proof.
  intros Hq Hl. pose proof (list_sorted _ _ _ Hl) as Hs. destruct (list_kv_ok _ _ _ Hl) as [Hnd Hin].
  assert (forall k v, (k, v) ∈ rows <-> (k, v) ∈ map row_of q) as Heq
    by (intros k v; by rewrite Hin, (queue_rows _ _ Hq)).
  assert (NoDup rows) as Hnd' by (by apply (NoDup_fmap_1 fst)).
  assert (rows ≡ₚ map row_of q) as Hp.
  { apply NoDup_Permutation; [done|by eapply queue_NoDup|]. intros [k v]. apply Heq. }
  refine (StronglySorted_unique_strong (fun a b => String.le a.1 b.1) _ _ _ _ _ Hp).
  - intros [k v] [k' v'] Hx Hy H1' H2'. simpl in *.
    assert (k = k') as <- by (by apply (anti_symm String.le)).
    apply Hin in Hx as [Hx _]. apply (queue_rows _ _ Hq) in Hy as [Hy _]. congruence.
  - by apply StronglySorted_of_map.
  - by eapply queue_keys_sorted.
Qed.

(** The number the next row takes. *)
Definition next_of (q : list (Z * Raw)) : Z :=
  match last q with Some x => (x.1 + 1)%Z | None => 1 end.

Lemma next_seq_spec s q n :
  queue_at s q -> next_seq s prefix = inl n -> n = next_of q.
Proof.
  intros Hq. unfold next_seq. destruct (list_kv_prefix s prefix) as [rows|] eqn:El; [|done].
  rewrite (listing_is_queue _ _ _ Hq El). intros [= <-].
  assert (omap (fun row => parse_u64 (last_segment row.1)) (map row_of q) = map fst q) as ->.
  { destruct Hq as [_ Hn _]. induction q as [|x q IH]; [done|]. simpl.
    rewrite row_key_seq by (apply Hn; left). f_equal. apply IH. intros; apply Hn; by right. }
  unfold next_of. destruct q as [|x q _] using rev_ind; [done|].
  rewrite map_app, last_snoc. simpl. rewrite max_of_last.
  - unfold wrap_add. apply Z.mod_small. destruct (queue_seqs _ _ Hq x ltac:(set_solver)) as [Hlo Hhi].
    change (10 ^ Z.of_nat SEQ_WIDTH) with 1000000000000 in Hhi. unfold u64_max. lia.
  - intros y Hy. pose proof (queue_sorted _ _ Hq) as Hs. rewrite map_app in Hs.
    apply Z.lt_le_incl, (StronglySorted_split _ _ _ _ _ Hs Hy). by left.
Qed.

Lemma next_of_above s q x : queue_at s q -> x ∈ q -> x.1 < next_of q.
Proof.
  intros Hq Hx. unfold next_of. destruct q as [|y q _] using rev_ind; [set_solver|].
  rewrite last_snoc. apply elem_of_app in Hx as [Hx|Hx].
  - pose proof (queue_sorted _ _ Hq) as Hs. rewrite map_app in Hs.
    assert (x.1 < y.1); [|lia]. apply (StronglySorted_split _ _ _ _ _ Hs); [|by left].
    by apply list_elem_of_In, in_map, list_elem_of_In.
  - apply list_elem_of_singleton in Hx as ->. lia.
Qed.

Lemma queue_keys_NoDup s q : queue_at s q -> NoDup (map (fun x => row_key prefix x.1) q).
Proof.
  intros [Hs Hn _]. induction q as [|x q IH]; simpl in *; [constructor|].
  apply StronglySorted_inv in Hs as [Hs Hx]. constructor; [|apply IH; auto; intros; apply Hn; by right].
  intros (y & Hk & Hin%list_elem_of_In)%list_elem_of_In%in_map_iff.
  apply row_key_inj in Hk; [|apply Hn; by right|apply Hn; left].
  rewrite Forall_map, Forall_forall in Hx. specialize (Hx y Hin). simpl in Hx. lia.
Qed.

(** What a write of the next row leaves: the newest rows, the new one last. *)
Definition pushed (cap : nat) (q : list (Z * Raw)) (v : Raw) : list (Z * Raw) :=
  drop (length q + 1 - cap) q ++ [(next_of q, v)].

Lemma prune_keys_spec s q cap keys :
  queue_at s q -> prune_keys s prefix cap = inl keys ->
  keys = map (fun x => row_key prefix x.1) (take (length q + 1 - cap) q).
Proof.
  intros Hq. unfold prune_keys. destruct (list_kv_prefix s prefix) as [rows|] eqn:El; [|done].
  rewrite (listing_is_queue _ _ _ Hq El). intros [= <-].
  assert (merge_sort String.le (map fst (map row_of q)) = map (fun x => row_key prefix x.1) q) as ->.
  { rewrite map_map. refine (StronglySorted_unique String.le _ _ _ _ (merge_sort_Permutation _ _)).
    - apply StronglySorted_merge_sort; apply _.
    - pose proof (queue_keys_sorted _ _ Hq) as Hs. clear -Hs.
      change (map (fun x => row_key prefix x.1) q) with (map (fst ∘ row_of) q).
      rewrite <- map_map. induction Hs as [|x l Hs IH Hx]; simpl; constructor; [done|].
      by rewrite Forall_map. }
  by rewrite length_map, <- firstn_map.
Qed.

Definition keys_of (q : list (Z * Raw)) : list string := map (fun x => row_key prefix x.1) q.

Lemma keys_of_elem q n v : (n, v) ∈ q -> row_key prefix n ∈ keys_of q.
Proof. intros Hin. apply list_elem_of_In, in_map_iff. exists (n, v). by rewrite <- list_elem_of_In. Qed.

Lemma next_key_new s q : queue_at s q -> seq_ok (next_of q) -> row_key prefix (next_of q) ∉ keys_of q.
Proof.
  intros Hq Hok (x & Hk & Hin%list_elem_of_In)%list_elem_of_In%in_map_iff.
  apply row_key_inj in Hk; [|by apply (queue_seqs _ _ Hq)|done].
  pose proof (next_of_above _ _ _ Hq Hin). lia.
Qed.

(** Deleting the rows of an old part [q1] and writing the next row leaves a queue. *)
Lemma queue_moves s s' q1 q2 v :
  queue_at s (q1 ++ q2) -> seq_ok (next_of (q1 ++ q2)) ->
  rows_of s' = fold_left (fun kv k => delete k kv) (keys_of q1)
                 (<[row_key prefix (next_of (q1 ++ q2)) := v]> (rows_of s)) ->
  queue_at s' (q2 ++ [(next_of (q1 ++ q2), v)]).
Proof.
  intros Hq Hok Hrows. pose proof (next_key_new _ _ Hq Hok) as Hnew.
  pose proof (queue_keys_NoDup _ _ Hq) as Hnd. set (N := next_of (q1 ++ q2)) in *.
  change (NoDup (keys_of (q1 ++ q2))) in Hnd. unfold keys_of in Hnd, Hnew. rewrite map_app in Hnd, Hnew.
  fold (keys_of q1) (keys_of q2) in Hnd, Hnew. apply NoDup_app in Hnd as (_ & Hdisj & _). split.
  - rewrite map_app. apply StronglySorted_app_2; [|..|repeat constructor].
    + intros x1 x2 (x & <- & Hx%list_elem_of_In)%list_elem_of_In%in_map_iff ->%list_elem_of_singleton.
      apply (next_of_above _ _ _ Hq). set_solver.
    + pose proof (queue_sorted _ _ Hq) as Hs. rewrite map_app in Hs. by eapply StronglySorted_app_1_r.
  - intros x [Hx| ->%list_elem_of_singleton]%elem_of_app; [|done]. apply (queue_seqs _ _ Hq). set_solver.
  - intros k w. rewrite Hrows, delete_all_lookup, row_of_elem. split.
    + intros [Hk Hsw]. case_decide as Hdel; [done|]. apply lookup_insert_Some in Hk as [[<- <-]|[Hne Hk]].
      * exists N. split; [apply elem_of_app; right; by left|done].
      * destruct (proj1 (row_of_elem _ _ _) (proj1 (queue_rows _ _ Hq k w) (conj Hk Hsw))) as (n & Hin & ->).
        exists n. split; [|done]. apply elem_of_app in Hin as [Hin|Hin]; [|by apply elem_of_app; left].
        by apply keys_of_elem in Hin.
    + intros (n & Hin & ->). split; [|apply starts_with_app].
      apply elem_of_app in Hin as [Hin|[= -> ->]%list_elem_of_singleton].
      * pose proof (keys_of_elem _ _ _ Hin) as Hkey.
        rewrite decide_False by (intros ?; by eapply Hdisj).
        rewrite lookup_insert_ne by (intros Heq; apply Hnew; rewrite Heq; apply elem_of_app; by right).
        apply (queue_rows _ _ Hq), row_of_elem. exists n. split; [apply elem_of_app; by right|done].
      * rewrite decide_False by (intros ?; apply Hnew, elem_of_app; by left). apply lookup_insert_eq.
Qed.

(** A save with the next id pushes its row, and nothing outside the prefix changes. *)
Lemma save_row_pushes bad what letter cap s q a s' :
  queue_at s q -> seq_ok (next_of q) ->
  save_row encode bad what prefix letter cap s (artifact_id letter (next_of q)) a = inl s' ->
  exists v, encode a = Some v /\ queue_at s' (pushed cap q v)
    /\ forall k, starts_with prefix k = false -> rows_of s' !! k = rows_of s !! k.
Proof.
  intros Hq Hok. unfold save_row.
  rewrite seq_of_artifact by (pose proof (seq_ok_u64 _ Hok); destruct Hok; lia).
  destruct (encode a) as [v|]; [|done]. destruct (prune_keys s prefix cap) as [keys|] eqn:Ek; [|done].
  apply (prune_keys_spec _ _ _ _ Hq) in Ek as ->. intros Hb%batch_ok.
  exists v. split; [done|]. set (n := (length q + 1 - cap)%nat) in *. split.
  - pose proof (queue_moves s s' (take n q) (drop n q) v) as Hm. rewrite take_drop in Hm. by apply Hm.
  - intros k Hk. rewrite Hb, delete_all_lookup, decide_False.
    + apply lookup_insert_ne. intros <-. unfold row_key in Hk. by rewrite starts_with_app in Hk.
    + intros (x & <- & _)%list_elem_of_In%in_map_iff. unfold row_key in Hk. by rewrite starts_with_app in Hk.
Qed.

Lemma queue_frame s s' q :
  (forall k, starts_with prefix k = true -> rows_of s' !! k = rows_of s !! k) ->
  queue_at s q -> queue_at s' q.
Proof.
  intros Hf [Hs Hn Hr]. split; [done..|]. intros k v. rewrite <- Hr. split; intros [Hk Hsw].
  - by rewrite <- Hf.
  - by rewrite Hf.
Qed.

(** *** The queue of a workspace's artifacts *)

(** The last [n] of a list. *)
Definition newest (n : nat) {B} (l : list B) : list B := drop (length l - n) l.

Lemma newest_snoc n {B} (l : list B) x :
  (0 < n)%nat -> newest n (l ++ [x]) = drop (length (newest n l) + 1 - n) (newest n l) ++ [x].
Proof.
  intros Hn. unfold newest. rewrite length_app, length_drop, drop_drop. simpl.
  rewrite drop_app_le by lia. f_equal. f_equal. lia.
Qed.

(** After the artifacts [l] were saved for [ws], its rows are the newest of them. *)
Definition holds (cap : nat) (s : S) (ws : string) (l : list A) : Prop :=
  exists q, queue_at s q
    /\ Forall2 (fun x a => encode a = Some x.2 /\ belongs_to a = ws) q (newest cap l)
    /\ next_of q = Z.of_nat (length l) + 1.

Lemma holds_nothing cap s ws :
  (forall k, starts_with prefix k = true -> rows_of s !! k = None) -> holds cap s ws [].
Proof.
  intros He. exists []. split; [|done]. split; [constructor|set_solver|]. intros k v. split.
  - intros [Hk Hsw]. rewrite He in Hk; done.
  - simpl. set_solver.
Qed.

Lemma holds_frame cap s s' ws l :
  (forall k, starts_with prefix k = true -> rows_of s' !! k = rows_of s !! k) ->
  holds cap s ws l -> holds cap s' ws l.
Proof. intros Hf (q & Hq & ?). exists q. split; [by eapply queue_frame|done]. Qed.

Lemma holds_push bad what letter cap s ws l n a s' :
  (0 < cap)%nat -> Z.of_nat (length l) + 1 < 10 ^ Z.of_nat SEQ_WIDTH ->
  holds cap s ws l -> belongs_to a = ws -> next_seq s prefix = inl n ->
  save_row encode bad what prefix letter cap s (artifact_id letter n) a = inl s' ->
  holds cap s' ws (l ++ [a])
  /\ forall k, starts_with prefix k = false -> rows_of s' !! k = rows_of s !! k.
Proof.
  intros Hcap Hlen (q & Hq & Hall & Hnext) Ha ->%(next_seq_spec _ _ _ Hq) Hsave.
  apply save_row_pushes with (q := q) in Hsave as (v & Hv & Hq' & Hf); [|done|split; lia].
  split; [|done]. exists (pushed cap q v). split; [done|]. split.
  - rewrite newest_snoc by done. unfold pushed. rewrite (Forall2_length _ _ _ Hall).
    apply Forall2_app; [by apply Forall2_drop|by repeat constructor].
  - unfold pushed, next_of at 1. rewrite last_snoc, length_app. simpl. lia.
Qed.

Lemma holds_load (decode : Raw -> option A) cap s ws l l' :
  (forall a raw, encode a = Some raw -> decode raw = Some a) ->
  holds cap s ws l -> load_rows decode belongs_to s prefix ws = inl l' -> l' = newest cap l.
Proof.
  intros Hcodec (q & Hq & Hall & _). unfold load_rows.
  destruct (list_kv_prefix s prefix) as [rows|] eqn:El; [|done].
  rewrite (listing_is_queue _ _ _ Hq El). intros [= <-].
  revert Hall. generalize (newest cap l). clear - Hcodec. intros l0 Hall.
  induction Hall as [|x a q l0 [Hx Hw] _ IH]; [done|].
  simpl. rewrite (Hcodec _ _ Hx). simpl. rewrite bool_decide_eq_true_2 by done. f_equal. exact IH.
Qed.

End queue.

(** ** The store *)

Section store.
Context {S Raw : Type} `{BatchLaws S Raw}.
Context (debug : string -> string).
Context (encode : ReviewArtifact -> option Raw) (decode : Raw -> option ReviewArtifact).
Context (encode_result : ReviewResult -> option Raw) (decode_result : Raw -> option ReviewResult).

(** The artifacts saved under the ids the store allots, one after the other. *)
Inductive saved (s0 : S) : list ReviewArtifact -> list ReviewResult -> S -> Prop :=
| saved_nothing : saved s0 [] [] s0
| saved_report rs xs s r s' :
    saved s0 rs xs s -> next_report_id s (workspace r) = inl (a_id r) ->
    save_report debug encode s r = inl s' -> saved s0 (rs ++ [r]) xs s'
| saved_result rs xs s x s' :
    saved s0 rs xs s -> next_result_id s (r_workspace x) = inl (r_id x) ->
    save_result debug encode_result s x = inl s' -> saved s0 rs (xs ++ [x]) s'.

Definition reports_of (ws : string) (rs : list ReviewArtifact) : list ReviewArtifact :=
  List.filter (fun r => bool_decide (workspace r = ws)) rs.
Definition results_of (ws : string) (xs : list ReviewResult) : list ReviewResult :=
  List.filter (fun x => bool_decide (r_workspace x = ws)) xs.

Definition report_space (ws : string) : string := REVIEW_KV_PREFIX +:+ encode_key ws.
Definition result_space (ws : string) : string := RESULT_KV_PREFIX +:+ encode_key ws.

Lemma report_prefix_space ws : report_prefix ws = report_space ws +:+ ":".
Proof. unfold report_prefix, report_space. by rewrite app_assoc_str. Qed.

Lemma result_prefix_space ws : result_prefix ws = result_space ws +:+ ":".
Proof. unfold result_prefix, result_space. by rewrite app_assoc_str. Qed.

Definition all_held (rs : list ReviewArtifact) (xs : list ReviewResult) (s : S) : Prop :=
  forall ws,
    holds encode workspace (report_space ws) REPORTS_PER_WORKSPACE s ws (reports_of ws rs)
    /\ holds encode_result r_workspace (result_space ws) RESULTS_PER_WORKSPACE s ws (results_of ws xs).

Lemma spaces_apart k ws ws' :
  (starts_with (report_prefix ws) k = true -> starts_with (result_prefix ws') k = false)
  /\ (ws <> ws' -> starts_with (report_prefix ws) k = true -> starts_with (report_prefix ws') k = false)
  /\ (ws <> ws' -> starts_with (result_prefix ws) k = true -> starts_with (result_prefix ws') k = false).
Proof.
  split_and!.
  - intros [r ->]%starts_with_true. reflexivity.
  - intros Hne Hk. apply not_true_is_false. intros Hk'. exact (Hne (report_prefixes_apart _ _ k Hk Hk')).
  - intros Hne Hk. apply not_true_is_false. intros Hk'. exact (Hne (result_prefixes_apart _ _ k Hk Hk')).
Qed.

Lemma length_filter_lt {B} (f : B -> bool) (l : list B) x n :
  Z.of_nat (length (l ++ [x])) < n -> Z.of_nat (length (List.filter f l)) + 1 < n.
Proof. rewrite length_app. simpl. pose proof (filter_length_le f l). lia. Qed.

Lemma report_step rs xs s r s' :
  Z.of_nat (length (rs ++ [r])) < 10 ^ Z.of_nat SEQ_WIDTH ->
  all_held rs xs s -> next_report_id s (workspace r) = inl (a_id r) ->
  save_report debug encode s r = inl s' -> all_held (rs ++ [r]) xs s'.
Proof.
  intros Hlen Hh Hid Hs. unfold next_report_id in Hid. rewrite report_prefix_space in Hid.
  destruct (next_seq s _) as [n|] eqn:En; [|done]. injection Hid as Hid.
  unfold save_report in Hs. rewrite <- Hid, report_prefix_space in Hs.
  apply (holds_push encode workspace _ _ _ _ _ s (workspace r) (reports_of (workspace r) rs)) in Hs as [Hnew Hf];
    [|unfold REPORTS_PER_WORKSPACE; lia|by eapply length_filter_lt|apply Hh|done|done].
  rewrite <- report_prefix_space in Hf. intros ws. destruct (Hh ws) as [Hr Hx]. split.
  - unfold reports_of. rewrite List.filter_app. simpl. case_bool_decide as Hw; [by subst ws|].
    rewrite app_nil_r. eapply holds_frame; [|exact Hr]. intros k Hk. apply Hf.
    rewrite <- report_prefix_space in Hk. by apply (spaces_apart k ws (workspace r)).
  - eapply holds_frame; [|exact Hx]. intros k Hk. apply Hf. rewrite <- result_prefix_space in Hk.
    apply not_true_is_false. intros Hk'. by rewrite (proj1 (spaces_apart k _ ws) Hk') in Hk.
Qed.

Lemma result_step rs xs s x s' :
  Z.of_nat (length (xs ++ [x])) < 10 ^ Z.of_nat SEQ_WIDTH ->
  all_held rs xs s -> next_result_id s (r_workspace x) = inl (r_id x) ->
  save_result debug encode_result s x = inl s' -> all_held rs (xs ++ [x]) s'.
Proof.
  intros Hlen Hh Hid Hs. unfold next_result_id in Hid. rewrite result_prefix_space in Hid.
  destruct (next_seq s _) as [n|] eqn:En; [|done]. injection Hid as Hid.
  unfold save_result in Hs. rewrite <- Hid, result_prefix_space in Hs.
  apply (holds_push encode_result r_workspace _ _ _ _ _ s (r_workspace x) (results_of (r_workspace x) xs)) in Hs as [Hnew Hf];
    [|unfold RESULTS_PER_WORKSPACE; lia|by eapply length_filter_lt|apply Hh|done|done].
  rewrite <- result_prefix_space in Hf. intros ws. destruct (Hh ws) as [Hr Hx]. split.
  - eapply holds_frame; [|exact Hr]. intros k Hk. apply Hf. rewrite <- report_prefix_space in Hk.
    exact (proj1 (spaces_apart k ws _) Hk).
  - unfold results_of. rewrite List.filter_app. simpl. case_bool_decide as Hw; [by subst ws|].
    rewrite app_nil_r. eapply holds_frame; [|exact Hx]. intros k Hk. apply Hf.
    rewrite <- result_prefix_space in Hk. by apply (spaces_apart k ws (r_workspace x)).
Qed.

Lemma starts_with_longer a b k : starts_with (a +:+ b) k = true -> starts_with a k = true.
Proof. intros [r ->]%starts_with_true. rewrite app_assoc_str. apply starts_with_app. Qed.

Lemma saved_all_held s0 rs xs s :
  (forall k v, rows_of s0 !! k = Some v -> starts_with REVIEW_KV_PREFIX k = false
    /\ starts_with RESULT_KV_PREFIX k = false) ->
  Z.of_nat (length rs) < 10 ^ Z.of_nat SEQ_WIDTH -> Z.of_nat (length xs) < 10 ^ Z.of_nat SEQ_WIDTH ->
  saved s0 rs xs s -> all_held rs xs s.
Proof.
  intros He Hr Hx Hs. revert Hr Hx. induction Hs as [|rs xs s r s' _ IH Hid Hsave|rs xs s x s' _ IH Hid Hsave].
  - intros _ _ ws.
    split; apply holds_nothing; intros k Hk; apply eq_None_not_Some; intros [v [Ha Hb]%He];
      do 2 apply starts_with_longer in Hk; congruence.
  - intros Hr Hx. apply (report_step _ _ s); [done|apply IH; [|done]|done|done].
    rewrite length_app in Hr. lia.
  - intros Hr Hx. apply (result_step _ _ s); [done|apply IH; [done|]|done|done].
    rewrite length_app in Hx. lia.
Qed.

(** C37: For each workspace the store is a bounded first-in first-out queue of reports
    and one of results, whatever the order in which artifacts of all workspaces are
    saved: a listing holds the newest twenty of those saved for the workspace, oldest
    first, and no other's. *)
Theorem each_workspace_keeps_its_newest_reviews s0 rs xs s :
  (forall r raw, encode r = Some raw -> decode raw = Some r) ->
  (forall x raw, encode_result x = Some raw -> decode_result raw = Some x) ->
  (forall k v, rows_of s0 !! k = Some v -> starts_with REVIEW_KV_PREFIX k = false
    /\ starts_with RESULT_KV_PREFIX k = false) ->
  Z.of_nat (length rs) < 10 ^ Z.of_nat SEQ_WIDTH -> Z.of_nat (length xs) < 10 ^ Z.of_nat SEQ_WIDTH ->
  saved s0 rs xs s ->
  forall ws,
    (forall l, list_reports decode s ws = inl l -> l = newest 20 (reports_of ws rs))
    /\ (forall l, list_results decode_result s ws = inl l -> l = newest 20 (results_of ws xs)).
Proof.
  intros Hc Hcr He Hr Hx Hs ws. destruct (saved_all_held s0 rs xs s He Hr Hx Hs ws) as [Hh Hhx].
  unfold list_reports, list_results. rewrite report_prefix_space, result_prefix_space.
  split; intros l Hl; by eapply holds_load.
Qed.

End store.

(** ** The in-memory backend

    A row stands for its own JSON. *)
Definition ReviewRow : Type := (ReviewArtifact + ReviewResult)%type.

#[local] Instance review_memory : Store (gmap string ReviewRow) ReviewRow := memory_store (fun _ => false).
#[local] Instance review_memory_laws : StoreLaws (gmap string ReviewRow) ReviewRow :=
  memory_laws (fun _ => false).

#[local] Instance key_le_total : Total (@key_le ReviewRow).
Proof. intros a b. unfold key_le. apply String.leb_total. Qed.

#[local] Instance key_le_trans : Transitive (@key_le ReviewRow).
Proof.
  intros a b c Hab Hbc. unfold key_le in *. apply Is_true_true. apply Is_true_true in Hab, Hbc.
  exact (transitivity (R := String.le) Hab Hbc).
Qed.

#[local] Instance review_memory_batches : BatchLaws (gmap string ReviewRow) ReviewRow.
Proof.
  split.
  - intros s p rows [= <-].
    apply (StronglySorted_map key_le); [|apply (StronglySorted_merge_sort key_le)].
    intros x y _ _ Hxy. by apply Is_true_true.
  - intros s k v ks s'. cbn [apply_batch review_memory memory_store resolve_all resolve].
    assert (resolve_all (fun _ => false) (map (@DeleteKv ReviewRow) ks) = inl (map OpRemove ks)) as ->
      by (induction ks as [|k' ks IH]; [done|]; cbn [map resolve_all resolve]; by rewrite IH).
    intros [= <-]. cbn [fold_left run_op rows_of review_memory_laws memory_laws].
    generalize (<[k := v]> s). induction ks as [|k' ks IH]; intros m; [done|]. simpl. apply IH.
Defined.

Definition demo_report (rid ws : string) : ReviewArtifact :=
  mkArtifact 1 rid ws None "run" None (mkScope "diff" None None None) Completed Submitted [] [] [] "text" [] 0.
Definition demo_reports : list ReviewArtifact := [demo_report "r1" "w"; demo_report "r1" "v"; demo_report "r2" "w"].
Definition demo_result : ReviewResult := mkResult 1 "x1" "r1" "w" "run" None Completed [] [] [] EmptyString [] 0.
Definition of_report (r : ReviewArtifact) : option ReviewRow := Some (inl r).
Definition to_report (row : ReviewRow) : option ReviewArtifact := match row with inl r => Some r | _ => None end.
Definition of_result (x : ReviewResult) : option ReviewRow := Some (inr x).
Definition to_result (row : ReviewRow) : option ReviewResult := match row with inr x => Some x | _ => None end.

(** The store a write leaves. *)
Definition written {V} (x : gmap string V + StoreError) : gmap string V :=
  match x with inl s => s | inr _ => ∅ end.
Definition written_ok {V} (x : gmap string V + StoreError) : bool :=
  match x with inl _ => true | inr _ => false end.

Lemma written_eq {V} (x : gmap string V + StoreError) : written_ok x = true -> x = inl (written x).
Proof. by destruct x. Qed.

Definition demo_store_1 := written (save_report (fun x => x) of_report ∅ (demo_report "r1" "w")).
Definition demo_store_2 := written (save_report (fun x => x) of_report demo_store_1 (demo_report "r1" "v")).
Definition demo_store_3 := written (save_result (fun x => x) of_result demo_store_2 demo_result).
Definition demo_store_4 := written (save_report (fun x => x) of_report demo_store_3 (demo_report "r2" "w")).

Lemma demo_saved : saved (fun x => x) of_report of_result ∅ demo_reports [demo_result] demo_store_4.
Proof.
  refine (saved_report _ _ _ _ [_; _] _ demo_store_3 _ _ _ _ (written_eq _ _)); [|vm_compute; reflexivity..].
  refine (saved_result _ _ _ _ _ [] demo_store_2 _ _ _ _ (written_eq _ _)); [|vm_compute; reflexivity..].
  refine (saved_report _ _ _ _ [_] _ demo_store_1 _ _ _ _ (written_eq _ _)); [|vm_compute; reflexivity..].
  refine (saved_report _ _ _ _ [] _ ∅ _ _ _ _ (written_eq _ _)); [apply saved_nothing|vm_compute; reflexivity..].
Qed.

Lemma each_workspace_keeps_its_newest_reviews_witness :
  exists l, list_reports to_report demo_store_4 "w" = inl l
    /\ l = newest 20 [demo_report "r1" "w"; demo_report "r2" "w"].
Proof.
  eexists. split; [vm_compute; reflexivity|].
  refine (proj1 (each_workspace_keeps_its_newest_reviews (fun x => x) of_report to_report of_result
    to_result ∅ demo_reports [demo_result] demo_store_4 _ _ _ _ _ demo_saved "w") _ _);
    [by intros ? ? [= <-]|by intros ? ? [= <-]|done|done|done|vm_compute; reflexivity].
Defined.
